(* ===== verification/_CoqProject ===== *)
-Q . S2P
Prelude.v
ByteUtils.v
IPAddress.v
LpcTrie.v
RibBucket.v
Rib.v
BestPath.v
AttributeManager.v
BgpFsm.v
Checksums.v
OspfLsa.v
Lsdb.v
LsaBodies.v
SpfTopology.v
SpfEngine.v
SpfManager.v
OspfRib.v
TcpBuffers.v
RxBuffer.v
BgpRx.v
BgpUpdate.v
BgpTx.v
BgpCaps.v
BgpOpen.v
BgpDampening.v
BgpEgress.v
BgpAf.v
BgpAfProps.v
BgpAfDefined.v
BgpBuild.v
EigrpTopology.v
EigrpDual.v
EigrpEvents.v
Locks.v
Dhcp4.v
Dhcp6.v
DhcpPd.v
OspfElection.v
TcpEngine.v
TcpEngineProps.v
AtomicHashMap.v
StableHashMap.v
Arp.v
Ring.v
ProcessQueue.v
TimeManager.v
