(* ===== verification/Prelude.v ===== *)
(** * A verification library for VirtualRouter

    VirtualRouter is a software router in C++: packet I/O drivers feed a
    forwarding plane (FIB), a control plane keeps a routing information base
    (RIB) that several routing protocols (BGP, OSPF, EIGRP) write to, and
    services (DHCP, TCP, ARP/NDP) and a command line complete it. This library
    models the parts that carry the program's own logic as executable
    definitions and proves what makes them correct, and, where the code does
    something else than it means to, exactly what it does. Paths below are
    relative to src/VirtualRouter/src.

    ** The parts and how they interact

    - A protocol computes routes and installs them in the RIB. The RIB keeps one
      bucket per prefix with one route per (source, process), and hands the FIB,
      a longest-prefix-match trie, a pointer to what the bucket publishes.
    - BGP: a session per neighbor brings its connection up with a state machine,
      a receiver cuts the stream into messages, OPENs negotiate capabilities,
      UPDATEs change the tables of an address family; its decision process
      chooses among the routes for a prefix, policies decide what each neighbor
      is told, and builders write that as messages. The attributes of all routes
      are interned in one reference-counted table.
    - OSPF: link-state advertisements arrive in updates, are verified, compared
      with the stored instance, stored and flooded; own advertisements are
      originated through the same database. A changed topology asks for a
      shortest-path computation, which a manager delays and the engine runs
      over the graph of the stored router and network LSAs; the routing table
      of the process selects among the paths and posts its routes to the RIB.
      On a broadcast network the interfaces elect a designated router.
    - EIGRP: the topology table keeps a route per prefix and neighbor, chooses
      successors, and its DUAL engine queries the neighbors for prefixes that
      have lost theirs.
    - TCP: connections over the sockets of the kernel, with a transmit buffer
      that builders of messages reserve spans in and a receive buffer that
      protocols consume.
    - ARP resolves next hops for the data plane, over two hash maps; DHCP hands
      out addresses and prefixes from pools with leases.
    - All of these run as tasks of serialized queues on a thread pool, with
      timers of one time manager, read and write packets with the big-endian
      byte codec and name destinations with the address and prefix types.

    ** The files

    Shared:
    - [Prelude] (this file): outcomes of C++ code, fixed-width integers, bits,
      buffers, big-endian reference codec, tactics.
    - [ByteUtils] (utils/ByteUtils.hpp): the reads and writes of every width,
      bit setting, byte swaps. They refine the reference codec
      ([readU16_spec] and the like); reading back what was written gives the
      value modulo its width.
    - [IPAddress] (types/IPAddress.h, .cpp, types/NetworkSpan.hpp): the six
      address and prefix types. Containment is agreement on the leading bits,
      constructors give canonical prefixes, the order is total, the containment
      of prefixes is a partial order; the overloads that break these are shown
      to.
    - [Checksums] (security/Checksums.cpp): the Internet checksum verifies.
    - [Locks]: methods of objects that are guarded by mutexes.

    Containers:
    - [LpcTrie] (types/LpcTrie.hpp): the trie, for any width and stride. What a
      trie of one prefix finds and how it is emptied, and the two cases in
      which shift counts leave the address width.
    - [StableHashMap], [AtomicHashMap] (types): the two open-addressing tables;
      where they are finite maps, and what they lose elsewhere.

    RIB (core/routing/rib):
    - [RibBucket] (RibBucket.hpp, RibEntry.hpp): the routes of one prefix, with
      the identity of the vector's buffer, since raw pointers refer into it. The
      published entry is the best route; the bucket is a map.
    - [Rib] (Rib.hpp): installation and withdrawal with their calls to the
      forwarding table. The pointer it was last handed for a prefix is to a
      live bucket that publishes the one route; a second source for the same
      prefix is undefined ([second_source_install_undefined]).

    BGP (routing/bgp):
    - [BestPath] (decision): comparator, selection, ranking.
    - [AttributeManager] (attributes, rib/RibTypes.hpp): interning and the life
      of route references: copies, moves, assignments, destruction.
    - [BgpFsm] (session): states, timers, connections, event queue, collision
      rule, as a transition system with its invariant.
    - [BgpRx] (transport/BgpRx.cpp): the framing of the stream of a connection
      into messages and the dispatch to their handlers, behind the interface
      [RxSession].
    - [BgpUpdate] (transport/BgpRx.cpp, af/Nlri.hpp): UPDATE messages read.
    - [BgpTx], [BgpBuild] (transport/BgpTx.cpp, BgpTx.h): messages written, as
      the list of the spans a builder reserves with what it writes to each, and
      the packing of a neighbor's UPDATEs. Laid end to end they are what the
      receiver reads; the code never commits them.
    - [BgpCaps] (session/Capabilities.hpp): capabilities offered, written, read
      and negotiated.
    - [BgpOpen]: the OPEN message in both directions, and the session as a whole,
      [BgpFsm] driven by what [BgpRx] cuts out of the streams of the session's
      connections and of others from the neighbor's address: an OPEN on a
      connection of its own is never accepted, one on a connection that was
      replaced is.
    - [BgpDampening] (features): penalties in binary64, their decay, thresholds.
    - [BgpEgress] (af/AddressFamilyInstance.h): egress policy, split horizon, rate
      limits, Adj-RIB-Out, default origination and aggregates.
    - [BgpAf]: the rest of the address family: Adj-RIB-In, Loc-RIB with dampening,
      refresh, graceful restart, slow peers, as steps over a store of routes.
    - [BgpAfProps]: soundness of Loc-RIB, agreement of Adj-RIB-Out with what the
      neighbor has heard, what external and internal neighbors are told, and
      the cases that go wrong. [BgpAfDefined]: which events have a result.

    OSPF (routing/ospf):
    - [OspfLsa] (ospfv2, transmission/OspfFletcher.hpp): the LSA header and the
      network LSA on the wire, the Fletcher checksum, placement into an update.
    - [LsaBodies] (ospfv2/database, ospfv3/database): the bodies of the OSPFv2
      LSAs and of the OSPFv3 router and network LSAs behind the interface
      [LsaCodec], the dispatch of sender and receiver over them, and the
      comparison of bodies that decides whether a topology changed.
    - [Lsdb] (database, area/Area.cpp, area/Originator.cpp): the database with its
      indexes, the decision about an arriving LSA, its installation, aging and
      re-origination.
    - [SpfTopology] (spf/SpfTopology.cpp): the graph of an area for both versions,
      read from the records of the database through the interface [SpfGraph];
      its cache of confirmed back-links is transparent and its edges have a
      way back.
    - [SpfEngine] (spf/SpfEngine.cpp): the full computation ends and gives
      shortest paths with their parents and first hops; the incremental
      computation, which no run reaches.
    - [SpfManager] (spf/SpfManager.cpp): the throttled scheduling as a transition
      system: no request is lost, the delay is bounded.
    - [OspfRib] (topology): the candidate paths per prefix, their selection, and
      what is posted to the RIB.
    - [OspfElection] (interface/OspfInterface.cpp): the election, its outcome and
      what of it is recorded.

    EIGRP (routing/eigrp/topology):
    - [EigrpTopology]: routes, metric, successors. [EigrpDual]: the engine as a
      transition system with its invariant. [EigrpEvents]: what it does with
      neighbors that go down and with queries for active prefixes.

    Services and transport:
    - [Arp] (infrastructure/Arp.cpp): the cache over [StableHashMap] and
      [AtomicHashMap], resolution, its limit, expiry and renewal.
    - [Dhcp4], [Dhcp6], [DhcpPd] (services/dhcp): pools and leases over [Locks];
      what their methods that lock twice make of them.
    - [TcpBuffers], [RxBuffer] (transport/tcp/tx, rx): the block pool and the
      transmit buffer over the interface [BlockPool]; the receive buffer.
    - [TcpEngine], [TcpEngineProps] (transport/tcp/TcpEngine.cpp): listeners,
      connections, sending, accepting, closing, over a list of answers of the
      kernel; their bookkeeping, and that no byte is ever sent or delivered.

    Scheduling (core):
    - [Ring] (ThreadPool.hpp, ControlScheduler.h): the lock-free ring in single
      atomic steps of any number of threads refines a bounded queue.
    - [ProcessQueue] (ControlScheduler.cpp): post, drain and destroy of a
      serialized queue; drains exclude one another, no task is lost.
    - [TimeManager] (TimeManager.cpp): registration, cancellation, collection and
      execution of timers.

    ** How the code is modelled

    A function that can leave the defined behaviour of C++ returns an
    [outcome]: a shift by a count outside the width, an access outside a
    buffer or through a null or dangling pointer is [UB], and theorems say
    when it occurs. Integers are [Z] with their wrap-around written out
    ([u8] to [u128]). Objects that are shared or whose lifetime matters are
    in an explicit store: RIB buckets by pointer, vector buffers by identity,
    interned attributes by identifier, LSA records by the key of their node.
    Members of one state record per component are the fields of the class;
    an operation is a function from state to state, with what it asks of
    other components as a list of actions or events. Posted closures and timer
    callbacks run one at a time, so operations interleave as sequences of steps;
    where threads share memory ([Ring], [ProcessQueue], [TimeManager]) the
    steps are the single accesses, under sequential consistency.
    Code outside the program is a parameter: a clock reading, a random number
    and an answer of the kernel are arguments, [exp], [log] and [pow] are
    members of the class [Cmath], the order in which an unordered container is
    iterated is a function. A function that the program declares and nowhere
    defines (supportsFamily of session/Capabilities.hpp) is a parameter of
    which nothing is assumed. Standard containers are finite maps or lists.

    ** Fuel

    Loops that count on machine integers carry fuel that the caller computes:
    one more than the bytes of the buffer in [Checksums] and in the framing of
    [BgpRx] (a turn consumes at least one byte), one more than their size for
    the lists of attributes, capabilities and prefixes, three passes for a carry
    fold ([fold16_spec] shows that three always end it), the bit width for the
    trie's descents. Walks of a buffer chain have one turn more than its blocks,
    searches of a block or address pool the bounds of their loops, loops over
    the kernel one turn more than it has answers, probes of the hash maps the
    slots of the table, the collection of timers their number, the UPDATE
    builder a turn for every prefix. The queue of the shortest-path computation
    has the number of turns as fuel; [SpfEngine.spf_bound] (the edges of the
    root and of every vertex) is enough, and the theorems about it ask for no
    more than that.

    ** What is not modelled

    Packet I/O and its processing, quality of service, the command line, the web
    interface and the configuration registry have no algorithm that these
    theorems could be about or are I/O throughout; key chains and the TLV
    parser of packet headers are field accessors. Of the components above the
    following is left out: weak memory, the reclamation of memory by epochs,
    the delayed slots of the scheduler and queues created again in a used slot;
    the FIB's wrapper of the trie and the registration of route watchers; the
    neighbor state machine, retransmission and flooding of OSPF and the
    encoders of OSPFv3 other than router and network LSAs; the address families
    of BGP other than IPv4 unicast, which are not instantiated; EIGRP's packets
    and summary routes; the messages of DHCP, NDP and UDP. *)

From Stdlib Require Export ZArith Lia Sorted.
From stdpp Require Export base tactics numbers list option strings gmap.

#[global] Open Scope Z_scope.

(** ** Outcomes of C++ code

    [Ret a] is a normal return, [Throw e] an exception, [UB] undefined
    behaviour (a shift count outside the type's width, an access outside an
    object). *)
Inductive outcome (A : Type) : Type :=
  | Ret (a : A)
  | Throw (e : string)
  | UB.
Arguments Ret {A} _.
Arguments Throw {A} _.
Arguments UB {A}.

#[export] Instance outcome_ret : MRet outcome := fun A a => Ret a.
#[export] Instance outcome_bind : MBind outcome := fun A B f m =>
  match m with Ret a => f a | Throw e => Throw e | UB => UB end.
#[export] Instance outcome_fmap : FMap outcome := fun A B f m =>
  match m with Ret a => Ret (f a) | Throw e => Throw e | UB => UB end.

#[export] Instance outcome_eq_dec `{EqDecision A} : EqDecision (outcome A).
Proof. solve_decision. Defined.

Lemma outcome_bind_ret_l {A B} (a : A) (f : A -> outcome B) : (Ret a ≫= f) = f a.
Proof. reflexivity. Qed.

Lemma outcome_bind_ret_inv {A B} (m : outcome A) (f : A -> outcome B) b :
  m ≫= f = Ret b -> exists a, m = Ret a /\ f a = Ret b.
Proof. destruct m; simpl; intros; [eauto | discriminate | discriminate]. Qed.

(** The code returns normally. *)
Definition returns {A} (o : outcome A) : Prop := exists a, o = Ret a.

Lemma returns_bind {A B} (o : outcome A) (f : A -> outcome B) (P : A -> Prop) :
  (exists a, o = Ret a /\ P a) -> (forall a, P a -> returns (f a)) -> returns (o ≫= f).
Proof. intros (a & -> & Ha) Hf. exact (Hf a Ha). Qed.

Lemma returns_bind_eq {A B} (o : outcome A) (f : A -> outcome B) :
  returns o -> (forall a, o = Ret a -> returns (f a)) -> returns (o ≫= f).
Proof. intros [a ->] Hf. exact (Hf a eq_refl). Qed.

Lemma returns_ret {A} (a : A) : returns (Ret a).
Proof. exists a. done. Qed.

(** The value returned, or [d]. *)
Definition ret_or {A} (d : A) (o : outcome A) : A := match o with Ret a => a | _ => d end.

(** ** Fixed-width unsigned integers *)

(** [wrap w x] is the value of [x] stored in a [w]-bit unsigned integer. *)
Definition wrap (w x : Z) : Z := x mod 2 ^ w.

Abbreviation u8 := (wrap 8).
Abbreviation u16 := (wrap 16).
Abbreviation u32 := (wrap 32).
Abbreviation u64 := (wrap 64).
Abbreviation u128 := (wrap 128).

(** [in_width w x]: [x] is a value of a [w]-bit unsigned integer. *)
Definition in_width (w x : Z) : Prop := 0 <= x < 2 ^ w.

#[export] Instance in_width_dec w x : Decision (in_width w x).
Proof. unfold in_width; apply _. Defined.

(** [x << n] and [x >> n] on a [w]-bit unsigned operand; a count outside
    [0..w-1] is undefined. *)
Definition shl (w x n : Z) : outcome Z :=
  if (0 <=? n) && (n <? w) then Ret (wrap w (Z.shiftl x n)) else UB.
Definition shr (w x n : Z) : outcome Z :=
  if (0 <=? n) && (n <? w) then Ret (Z.shiftr x n) else UB.

(** [~x] on [w] bits. *)
Definition bnot (w x : Z) : Z := 2 ^ w - 1 - x.

(** All ones on [w] bits: [0xFF...F], [T(-1)], [~T(0)]. *)
Definition all_ones (w : Z) : Z := 2 ^ w - 1.

(** The [w]-bit mask with the top [l] bits set. *)
Definition top_mask (w l : Z) : Z := 2 ^ w - 2 ^ (w - l).

Create HintDb width.

Lemma wrap_in_width w x : 0 <= w -> in_width w (wrap w x).
Proof. intros. unfold in_width, wrap. apply Z.mod_pos_bound. lia. Qed.

Lemma wrap_small w x : in_width w x -> wrap w x = x.
Proof. intros [? ?]. unfold wrap. apply Z.mod_small. lia. Qed.

Lemma wrap_wrap w x : 0 <= w -> wrap w (wrap w x) = wrap w x.
Proof. intros. apply wrap_small, wrap_in_width. lia. Qed.

Lemma in_width_mono w w' x : 0 <= w <= w' -> in_width w x -> in_width w' x.
Proof.
  intros Hw [? ?]. split; [lia|].
  pose proof (Z.pow_le_mono_r 2 w w'). lia.
Qed.

Lemma in_width_0 w : 0 <= w -> in_width w 0.
Proof. intros. split; [lia|]. apply Z.pow_pos_nonneg; lia. Qed.

#[export] Hint Resolve wrap_in_width in_width_0 : width.

Lemma shl_ret w x n : 0 <= n < w -> shl w x n = Ret (wrap w (Z.shiftl x n)).
Proof.
  intros. unfold shl.
  rewrite (proj2 (Z.leb_le 0 n)), (proj2 (Z.ltb_lt n w)) by lia. reflexivity.
Qed.

Lemma shl_ub w x n : n < 0 \/ w <= n -> shl w x n = UB.
Proof.
  intros [?|?]; unfold shl.
  - rewrite (proj2 (Z.leb_gt 0 n)) by lia. reflexivity.
  - rewrite (proj2 (Z.ltb_ge n w)), andb_false_r by lia. reflexivity.
Qed.

(** ** Bits *)

Lemma testbit_in_width w x i : in_width w x -> w <= i -> Z.testbit x i = false.
Proof.
  intros [Hx1 Hx2] Hi. destruct (decide (x = 0)) as [->|Hx0]; [apply Z.bits_0|].
  apply Z.bits_above_log2; [lia|].
  assert (Z.log2 x < w); [|lia]. apply Z.log2_lt_pow2; lia.
Qed.

Lemma in_width_bits w x :
  0 <= w -> 0 <= x -> (forall i, w <= i -> Z.testbit x i = false) -> in_width w x.
Proof.
  intros Hw Hx Hb. split; [done|].
  destruct (decide (x = 0)) as [->|]; [apply Z.pow_pos_nonneg; lia|].
  apply Z.log2_lt_pow2; [lia|].
  destruct (decide (Z.log2 x < w)); [done|].
  specialize (Hb (Z.log2 x) ltac:(lia)). rewrite Z.bit_log2 in Hb by lia. done.
Qed.

(** The mask built by [ones << (w - l)] is [top_mask w l]. *)
Lemma shl_all_ones w l :
  0 <= l <= w -> wrap w (Z.shiftl (all_ones w) (w - l)) = top_mask w l.
Proof.
  intros Hl. unfold wrap, all_ones, top_mask.
  rewrite Z.shiftl_mul_pow2 by lia.
  symmetry. apply Z.mod_unique with (q := 2 ^ (w - l) - 1).
  - left. pose proof (Z.pow_le_mono_r 2 (w - l) w ltac:(lia) ltac:(lia)).
    pose proof (Z.pow_pos_nonneg 2 (w - l) ltac:(lia) ltac:(lia)). lia.
  - lia.
Qed.

Lemma top_mask_shiftl w l :
  0 <= l <= w -> top_mask w l = Z.shiftl (Z.ones l) (w - l).
Proof.
  intros Hl. unfold top_mask.
  rewrite Z.shiftl_mul_pow2, Z.ones_equiv by lia.
  replace (2 ^ w) with (2 ^ l * 2 ^ (w - l)) by (rewrite <- Z.pow_add_r by lia; f_equal; lia).
  lia.
Qed.

Lemma testbit_top_mask w l i :
  0 <= l <= w -> 0 <= i ->
  Z.testbit (top_mask w l) i = (w - l <=? i) && (i <? w).
Proof.
  intros Hl Hi. rewrite top_mask_shiftl, Z.shiftl_spec by lia.
  destruct (Z.leb_spec (w - l) i); simpl.
  - destruct (Z.ltb_spec i w).
    + apply Z.ones_spec_low. lia.
    + apply Z.ones_spec_high. lia.
  - apply Z.testbit_neg_r. lia.
Qed.

(** Masking keeps the top [l] bits: the value rounded down to a multiple of
    [2 ^ (w - l)]. *)
Lemma land_top_mask w l x :
  0 <= l <= w -> in_width w x ->
  Z.land x (top_mask w l) = (x / 2 ^ (w - l)) * 2 ^ (w - l).
Proof.
  intros Hl Hx.
  rewrite <- Z.shiftr_div_pow2, <- Z.shiftl_mul_pow2 by lia.
  apply Z.bits_inj'. intros i Hi.
  rewrite Z.land_spec, testbit_top_mask, Z.shiftl_spec by lia.
  destruct (Z.leb_spec (w - l) i); simpl.
  - rewrite Z.shiftr_spec by lia. replace (i - (w - l) + (w - l)) with i by lia.
    destruct (Z.ltb_spec i w); [apply andb_true_r|].
    rewrite (testbit_in_width w x i) by (done || lia). done.
  - rewrite andb_false_r. symmetry. apply Z.testbit_neg_r. lia.
Qed.

Lemma land_in_width w x y : 0 <= w -> in_width w x -> 0 <= y -> in_width w (Z.land x y).
Proof.
  intros Hw Hx Hy. apply in_width_bits; [done| |].
  - apply Z.land_nonneg. destruct Hx; auto.
  - intros i Hi. rewrite Z.land_spec, (testbit_in_width w x i) by done. done.
Qed.

Lemma top_mask_in_width w l : 0 <= l <= w -> in_width w (top_mask w l).
Proof.
  intros Hl. unfold top_mask, in_width.
  pose proof (Z.pow_le_mono_r 2 (w - l) w ltac:(lia) ltac:(lia)).
  pose proof (Z.pow_pos_nonneg 2 (w - l) ltac:(lia) ltac:(lia)). lia.
Qed.

#[export] Hint Resolve land_in_width top_mask_in_width : width.

(** Two words agree under the mask exactly when their top [l] bits agree. *)
Lemma land_top_mask_eq w l x y :
  0 <= l <= w -> in_width w x -> in_width w y ->
  Z.land x (top_mask w l) = Z.land y (top_mask w l) <->
  x / 2 ^ (w - l) = y / 2 ^ (w - l).
Proof.
  intros Hl Hx Hy. rewrite !land_top_mask by done.
  pose proof (Z.pow_pos_nonneg 2 (w - l) ltac:(lia) ltac:(lia)). nia.
Qed.

(** Masking twice is masking with the shorter mask. *)
Lemma land_top_mask_min w l l' :
  0 <= l <= w -> 0 <= l' <= w ->
  Z.land (top_mask w l) (top_mask w l') = top_mask w (Z.min l l').
Proof.
  intros Hl Hl'. apply Z.bits_inj'. intros i Hi.
  rewrite Z.land_spec, !testbit_top_mask by lia.
  destruct (Z.leb_spec (w - l) i), (Z.leb_spec (w - l') i),
    (Z.leb_spec (w - Z.min l l') i), (Z.ltb_spec i w); simpl; try done; lia.
Qed.

(** Byte [k] (0 is the most significant) of an [n]-byte integer. *)
Definition be_byte (n x k : Z) : Z := Z.land (Z.shiftr x (8 * (n - 1 - k))) 255.

(** ** Buffers

    A buffer is a list of bytes; reading or writing outside it is undefined. *)
Abbreviation bytes := (list Z).

Definition rd (p : bytes) (i : nat) : outcome Z :=
  match p !! i with Some b => Ret b | None => UB end.

Definition wr (p : bytes) (i : nat) (b : Z) : outcome bytes :=
  if decide (i < length p)%nat then Ret (<[i := b]> p) else UB.

Definition is_bytes (p : bytes) : Prop := Forall (in_width 8) p.

#[export] Instance is_bytes_dec p : Decision (is_bytes p).
Proof. unfold is_bytes; apply _. Defined.

(** ** Tactics *)

(** Splits the conjunctions of the goal and of the hypotheses. *)
Ltac split_all :=
  repeat match goal with
         | H : _ /\ _ |- _ => destruct H
         | |- _ /\ _ => split
         end.

(** Case analysis on a boolean comparison of integers in the goal. *)
Ltac zcases :=
  repeat match goal with
         | |- context [?a <=? ?b] => destruct (Z.leb_spec a b)
         | |- context [?a <? ?b] => destruct (Z.ltb_spec a b)
         | |- context [?a =? ?b] => destruct (Z.eqb_spec a b)
         end.

(** Turns boolean comparisons in the hypotheses into propositions. *)
Ltac zbools :=
  repeat match goal with
         | H : (_ && _) = true |- _ => apply andb_true_iff in H; destruct H
         | H : (_ || _) = false |- _ => apply orb_false_iff in H; destruct H
         | H : (_ <=? _) = true |- _ => apply Z.leb_le in H
         | H : (_ <=? _) = false |- _ => apply Z.leb_gt in H
         | H : (_ <? _) = true |- _ => apply Z.ltb_lt in H
         | H : (_ <? _) = false |- _ => apply Z.ltb_ge in H
         | H : (_ =? _) = true |- _ => apply Z.eqb_eq in H
         | H : (_ =? _) = false |- _ => apply Z.eqb_neq in H
         end.

(** ** Big-endian words: the reference codec of the wire formats *)

Definition be_step (a b : Z) : Z := Z.lor (Z.shiftl a 8) b.
Definition be_decode (p : bytes) : Z := fold_left be_step p 0.

Fixpoint be_encode (n : nat) (v : Z) : bytes :=
  match n with
  | O => []
  | S k => Z.land (Z.shiftr v (8 * Z.of_nat k)) 255 :: be_encode k v
  end.

Lemma land_255 x : Z.land x 255 = x mod 2 ^ 8.
Proof. change 255 with (Z.ones 8). apply Z.land_ones. lia. Qed.

Lemma lor_shiftl_add a b k :
  0 <= k -> in_width k b -> Z.lor (Z.shiftl a k) b = a * 2 ^ k + b.
Proof.
  intros Hk Hb. rewrite <- Z.shiftl_mul_pow2 by done.
  rewrite Z.add_nocarry_lxor.
  - symmetry. apply Z.lxor_lor.
    apply Z.bits_inj'. intros i Hi. rewrite Z.land_spec, Z.bits_0, Z.shiftl_spec by done.
    destruct (decide (i < k)).
    + rewrite Z.testbit_neg_r by lia. done.
    + rewrite (testbit_in_width k b i) by (done || lia). apply andb_false_r.
  - apply Z.bits_inj'. intros i Hi. rewrite Z.land_spec, Z.bits_0, Z.shiftl_spec by done.
    destruct (decide (i < k)).
    + rewrite Z.testbit_neg_r by lia. done.
    + rewrite (testbit_in_width k b i) by (done || lia). apply andb_false_r.
Qed.

Lemma be_encode_length n v : length (be_encode n v) = n.
Proof. induction n; simpl; congruence. Qed.

Lemma be_encode_bytes n v : is_bytes (be_encode n v).
Proof.
  induction n; simpl; constructor; [|done].
  rewrite land_255. apply wrap_in_width. lia.
Qed.

Lemma be_decode_snoc p b : be_decode (p ++ [b]) = be_step (be_decode p) b.
Proof. unfold be_decode. rewrite fold_left_app. done. Qed.

Lemma be_decode_in_width p : is_bytes p -> in_width (8 * Z.of_nat (length p)) (be_decode p).
Proof.
  induction p as [|b p IH] using rev_ind; intros H.
  - split; reflexivity.
  - apply Forall_app in H as [Hp Hb]. apply Forall_cons in Hb as [Hb _].
    rewrite be_decode_snoc, length_app. unfold be_step.
    rewrite lor_shiftl_add by (done || lia). specialize (IH Hp) as [? ?].
    destruct Hb. simpl length.
    replace (8 * Z.of_nat (length p + 1)) with (8 * Z.of_nat (length p) + 8) by lia.
    unfold in_width. rewrite Z.pow_add_r by lia. lia.
Qed.

(** The first byte carries the top weight. *)
Lemma be_decode_fold p a :
  is_bytes p -> fold_left be_step p a = a * 2 ^ (8 * Z.of_nat (length p)) + be_decode p.
Proof.
  induction p as [|b p IH] using rev_ind; intros H.
  - simpl. unfold be_decode. simpl. lia.
  - apply Forall_app in H as [Hp Hb]. apply Forall_cons in Hb as [Hb _].
    rewrite fold_left_app, be_decode_snoc, length_app, IH by done. cbn [fold_left].
    unfold be_step. rewrite !lor_shiftl_add by (done || lia). cbn [length].
    replace (8 * Z.of_nat (length p + 1)) with (8 * Z.of_nat (length p) + 8) by lia.
    rewrite Z.pow_add_r by lia. lia.
Qed.

(** Decoding what was encoded gives the value modulo its width. *)
Lemma be_decode_encode n v : be_decode (be_encode n v) = wrap (8 * Z.of_nat n) v.
Proof.
  induction n as [|n IH].
  - unfold wrap. simpl. rewrite Z.mod_1_r. done.
  - cbn [be_encode]. unfold be_decode in *. cbn [fold_left].
    rewrite be_decode_fold by apply be_encode_bytes. unfold be_decode in *.
    rewrite IH, be_encode_length, land_255. unfold be_step. rewrite Z.shiftl_0_l, Z.lor_0_l.
    unfold wrap. rewrite Z.shiftr_div_pow2 by lia.
    replace (8 * Z.of_nat (S n)) with (8 * Z.of_nat n + 8) by lia.
    rewrite Z.pow_add_r by lia.
    rewrite Z.rem_mul_r by (apply Z.pow_nonzero || apply Z.pow_pos_nonneg; lia). lia.
Qed.

(** Encoding what was decoded gives the bytes back. *)
Lemma be_encode_decode p : is_bytes p -> be_encode (length p) (be_decode p) = p.
Proof.
  assert (Hgen : forall p a, is_bytes p ->
    be_encode (length p) (a * 2 ^ (8 * Z.of_nat (length p)) + be_decode p) = p).
  { clear p. intros p. induction p as [|b p IH]; intros a H; [done|].
    apply Forall_cons in H as [Hb Hp]. cbn [be_encode length].
    assert (E : be_decode (b :: p) = b * 2 ^ (8 * Z.of_nat (length p)) + be_decode p).
    { unfold be_decode at 1. cbn [fold_left]. rewrite be_decode_fold by done.
      unfold be_step. rewrite Z.shiftl_0_l, Z.lor_0_l. done. }
    rewrite E. set (k := 8 * Z.of_nat (length p)).
    replace (8 * Z.of_nat (S (length p))) with (8 + k) by lia.
    rewrite Z.pow_add_r by lia.
    replace (a * (2 ^ 8 * 2 ^ k) + (b * 2 ^ k + be_decode p))
      with ((a * 2 ^ 8 + b) * 2 ^ k + be_decode p) by lia.
    f_equal; [|apply IH; done].
    rewrite Z.shiftr_div_pow2, land_255 by lia.
    pose proof (be_decode_in_width p Hp) as Hw. fold k in Hw.
    rewrite Z.div_add_l by (apply Z.pow_nonzero; lia).
    rewrite (Z.div_small (be_decode p)) by exact Hw.
    rewrite Z.add_0_r, Z.add_comm, Z.mod_add by done. apply Z.mod_small. exact Hb. }
  intros H. rewrite <- (Hgen p 0 H) at 3. rewrite Z.mul_0_l, Z.add_0_l. done.
Qed.

Lemma be_encode_snoc n v :
  be_encode (S n) v = be_encode n (Z.shiftr v 8) ++ [Z.land v 255].
Proof.
  induction n as [|n IH]; [done|].
  change (be_encode (S (S n)) v)
    with (Z.land (Z.shiftr v (8 * Z.of_nat (S n))) 255 :: be_encode (S n) v).
  rewrite IH. cbn [be_encode app]. f_equal. f_equal.
  rewrite Z.shiftr_shiftr by lia. f_equal. lia.
Qed.

Lemma be_encode_lookup n v i :
  (i < n)%nat ->
  be_encode n v !! i = Some (Z.land (Z.shiftr v (8 * Z.of_nat (n - 1 - i))) 255).
Proof.
  revert i. induction n as [|n IH]; intros i Hi; [lia|].
  destruct i as [|i]; cbn [be_encode].
  - simpl. do 3 f_equal. lia.
  - change ((?x :: ?l) !! S i) with (l !! i). rewrite IH by lia. do 3 f_equal. lia.
Qed.

Lemma u8_land_255 x : u8 (Z.land x 255) = Z.land x 255.
Proof. apply wrap_small. rewrite land_255. apply wrap_in_width. lia. Qed.

(** Overwriting cell [n] of a list seen from cell [n]. *)
Lemma drop_insert_here {A} (l : list A) n x :
  (n < length l)%nat -> drop n (<[n := x]> l) = x :: drop (S n) l.
Proof.
  intros Hn. erewrite drop_S; [|apply list_lookup_insert_eq; done].
  f_equal. apply drop_insert_lt. lia.
Qed.

Lemma wr_ret (p : bytes) i b : (i < length p)%nat -> wr p i b = Ret (<[i := b]> p).
Proof. intros. unfold wr. rewrite decide_True by done. done. Qed.

(** Proves a decidable closed proposition by evaluating its decision. *)
Ltac by_compute := refine (bool_decide_unpack _ _); vm_compute; exact I.

(** ** Sorting and removing duplicates

    [std::sort] with a strict weak order whose equivalent elements are equal
    has one result, the sorted permutation; [isort] computes it.
    [std::unique] keeps the first of each run of equivalent elements. *)
Section isort.
  Context {A : Type} (lt : A -> A -> bool).

Fixpoint insort (x : A) (l : list A) : list A :=
  match l with
  | [] => [x]
  | y :: l' => if lt y x then y :: insort x l' else x :: l
  end.

Definition isort (l : list A) : list A := foldr insort [] l.

Lemma insort_permutation x l : insort x l ≡ₚ x :: l.
Proof.
  induction l as [|y l IH]; [done|]. cbn [insort]. destruct (lt y x); [|done].
  rewrite IH. apply Permutation_swap.
Qed.

Lemma isort_permutation l : isort l ≡ₚ l.
Proof. induction l as [|x l IH]; [done|]. cbn [isort foldr]. rewrite insort_permutation. f_equiv. exact IH. Qed.

Lemma isort_elem l x : x ∈ isort l <-> x ∈ l.
Proof. rewrite isort_permutation. done. Qed.

Lemma isort_length l : length (isort l) = length l.
Proof. apply Permutation_length, isort_permutation. Qed.

(** No element precedes one that is before it. *)
Lemma insort_sorted x l :
  (forall a b c, lt b a = false -> lt c b = false -> lt c a = false) ->
  (forall a b, lt a b = true -> lt b a = false) ->
  StronglySorted (fun a b => lt b a = false) l -> StronglySorted (fun a b => lt b a = false) (insort x l).
Proof.
  intros Htr Has. induction l as [|y l IH]; intros Hs; [repeat constructor|]. inversion_clear Hs as [|? ? Hs' Hy].
  cbn [insort]. destruct (lt y x) eqn:E.
  - constructor; [auto|]. rewrite insort_permutation. constructor; [auto | done].
  - constructor; [constructor; done|]. constructor; [done|]. eapply Forall_impl; [exact Hy|]. eauto.
Qed.

Lemma isort_sorted l :
  (forall a b c, lt b a = false -> lt c b = false -> lt c a = false) ->
  (forall a b, lt a b = true -> lt b a = false) ->
  StronglySorted (fun a b => lt b a = false) (isort l).
Proof. intros. induction l as [|x l IH]; [constructor | apply insort_sorted; done]. Qed.
End isort.

Lemma StronglySorted_weaken {A} (P Q : A -> A -> Prop) l :
  (forall a b, P a b -> Q a b) -> StronglySorted P l -> StronglySorted Q l.
Proof.
  intros H. induction 1 as [|a l _ IH Hf]; constructor; [done|]. eapply Forall_impl; [exact Hf|]. apply H.
Qed.

(** [std::unique] over a range that starts with [x]. *)
Fixpoint uniq_from {A} (eqb : A -> A -> bool) (x : A) (l : list A) : list A :=
  match l with
  | [] => [x]
  | y :: l' => if eqb x y then uniq_from eqb x l' else x :: uniq_from eqb y l'
  end.
Definition uniq {A} (eqb : A -> A -> bool) (l : list A) : list A :=
  match l with [] => [] | x :: l' => uniq_from eqb x l' end.

Lemma uniq_from_subseteq {A} (eqb : A -> A -> bool) l x y : y ∈ uniq_from eqb x l -> y = x \/ y ∈ l.
Proof.
  revert x. induction l as [|z l IH]; intros x; cbn [uniq_from].
  - rewrite list_elem_of_singleton. auto.
  - rewrite elem_of_cons. destruct (eqb x z); [intros [?|?]%IH; auto|].
    rewrite elem_of_cons. intros [?|[?|?]%IH]; auto.
Qed.

Lemma uniq_subseteq {A} (eqb : A -> A -> bool) l y : y ∈ uniq eqb l -> y ∈ l.
Proof. destruct l as [|x l]; [done|]. intros [->|?]%uniq_from_subseteq; [left|right; done]. Qed.

Lemma uniq_from_elem {A} (eqb : A -> A -> bool) l x y :
  (forall a b, eqb a b = true -> a = b) -> y = x \/ y ∈ l -> y ∈ uniq_from eqb x l.
Proof.
  intros Heq. revert x. induction l as [|z l IH]; intros x; cbn [uniq_from].
  - rewrite elem_of_nil. intros [->|[]]. left.
  - rewrite elem_of_cons. destruct (eqb x z) eqn:E.
    + apply Heq in E as ->. intros [?|[?|?]]; apply IH; auto.
    + rewrite elem_of_cons. intros [?|[?|?]]; auto.
Qed.

Lemma uniq_elem {A} (eqb : A -> A -> bool) l y :
  (forall a b, eqb a b = true -> a = b) -> y ∈ l -> y ∈ uniq eqb l.
Proof. destruct l as [|x l]; [done|]. intros Heq Hy. apply elem_of_cons in Hy. apply uniq_from_elem; done. Qed.

Lemma uniq_nil {A} (eqb : A -> A -> bool) l : uniq eqb l = [] -> l = [].
Proof.
  destruct l as [|x l]; [done|]. cbn [uniq]. revert x. induction l as [|y l IH]; intros x; cbn [uniq_from]; [done|].
  destruct (eqb x y); [|done]. intros H. by apply IH in H.
Qed.
