(* ===== verification/ByteUtils.v ===== *)
(** * ByteUtils: big-endian byte access (utils/ByteUtils.hpp)

    The little-endian branches ([isLittleEndian], the x86-64 target) of the
    fixed-width and variable-width readers and writers, the bit setter, the
    byte swaps and the mask helpers, and their refinement to the reference
    codec [be_decode]/[be_encode] of the prelude. *)

From S2P Require Import Prelude.

(** ** Byte swaps *)

(** POSIX [htonl] on a little-endian host. *)
Definition htonl (x : Z) : Z :=
  Z.lor (Z.lor (Z.lor (Z.shiftl (Z.land x 255) 24)
                      (Z.shiftl (Z.land (Z.shiftr x 8) 255) 16))
               (Z.shiftl (Z.land (Z.shiftr x 16) 255) 8))
        (Z.land (Z.shiftr x 24) 255).

(** [utils/ByteUtils.hpp:34-36] byteSwap64 *)
Definition byteSwap64 (val : Z) : Z :=
  Z.lor (u64 (Z.shiftl (htonl (Z.land val 4294967295)) 32)) (htonl (u32 (Z.shiftr val 32))).

(** [utils/ByteUtils.hpp:46-52] htonll *)
Definition htonll (val : Z) : Z := byteSwap64 val.

(** [utils/ByteUtils.hpp:63-65] ntohll *)
Definition ntohll (val : Z) : Z := byteSwap64 val.

(** [utils/ByteUtils.hpp:75-83] htondll *)
Definition htondll (val : Z) : Z :=
  let hi := htonll (u64 (Z.shiftr val 64)) in
  let lo := htonll (u64 (Z.land val 18446744073709551615)) in
  Z.lor (u128 (Z.shiftl (htonll lo) 64)) (htonll hi).

(** [utils/ByteUtils.hpp:94-96] ntohdll *)
Definition ntohdll (val : Z) : Z := htondll val.

(** ** Mask helpers *)

(** [utils/ByteUtils.hpp:124-127] maskU8Bits: [uint8_t(1) << bits] is computed
    in [int]. *)
Definition maskU8Bits (bits : Z) : outcome Z :=
  if bits =? 8 then Ret 0
  else x ← shl 32 1 bits; Ret (u8 (x - 1)).

(** [utils/ByteUtils.hpp:135-138] maskU16Bits *)
Definition maskU16Bits (bits : Z) : outcome Z :=
  if bits =? 16 then Ret 0
  else x ← shl 32 0 bits; Ret (u16 (x - 1)).

(** [utils/ByteUtils.hpp:146-149] maskU32Bits *)
Definition maskU32Bits (bits : Z) : outcome Z :=
  if bits =? 32 then Ret 0
  else x ← shl 32 0 bits; Ret (u32 (x - 1)).

(** [utils/ByteUtils.hpp:157-160] maskU64Bits *)
Definition maskU64Bits (bits : Z) : outcome Z :=
  if bits =? 64 then Ret 0
  else x ← shl 64 0 bits; Ret (u64 (x - 1)).

(** [utils/ByteUtils.hpp:168-171] maskU128Bits *)
Definition maskU128Bits (bits : Z) : outcome Z :=
  if bits =? 128 then Ret 0
  else x ← shl 128 0 bits; Ret (u128 (x - 1)).

(** ** Fixed-width reads *)

(** [utils/ByteUtils.hpp:181-193] readU16 *)
Definition readU16 (p : bytes) : outcome Z :=
  b0 ← rd p 0; b1 ← rd p 1;
  Ret (u16 (Z.lor (Z.shiftl b0 8) b1)).

(** [utils/ByteUtils.hpp:203-217] readU24 *)
Definition readU24 (p : bytes) : outcome Z :=
  b0 ← rd p 0; b1 ← rd p 1; b2 ← rd p 2;
  Ret (u32 (Z.lor (Z.lor (Z.shiftl b0 16) (Z.shiftl b1 8)) b2)).

(** [utils/ByteUtils.hpp:225-240] readU32 *)
Definition readU32 (p : bytes) : outcome Z :=
  b0 ← rd p 0; b1 ← rd p 1; b2 ← rd p 2; b3 ← rd p 3;
  Ret (u32 (Z.lor (Z.lor (Z.lor (Z.shiftl b0 24) (Z.shiftl b1 16)) (Z.shiftl b2 8)) b3)).

(** [utils/ByteUtils.hpp:251-267] readU48 *)
Definition readU48 (p : bytes) : outcome Z :=
  b0 ← rd p 0; b1 ← rd p 1; b2 ← rd p 2; b3 ← rd p 3; b4 ← rd p 4; b5 ← rd p 5;
  Ret (u64 (Z.lor (Z.lor (Z.lor (Z.lor (Z.lor (Z.shiftl b0 40) (Z.shiftl b1 32))
    (Z.shiftl b2 24)) (Z.shiftl b3 16)) (Z.shiftl b4 8)) b5)).

(** [utils/ByteUtils.hpp:275-294] readU64 *)
Definition readU64 (p : bytes) : outcome Z :=
  b0 ← rd p 0; b1 ← rd p 1; b2 ← rd p 2; b3 ← rd p 3;
  b4 ← rd p 4; b5 ← rd p 5; b6 ← rd p 6; b7 ← rd p 7;
  Ret (u64 (Z.lor (Z.lor (Z.lor (Z.lor (Z.lor (Z.lor (Z.lor (Z.shiftl b0 56)
    (Z.shiftl b1 48)) (Z.shiftl b2 40)) (Z.shiftl b3 32)) (Z.shiftl b4 24))
    (Z.shiftl b5 16)) (Z.shiftl b6 8)) b7)).

(** The loop of [readU128]: [n] bytes left, the next one at [i]. *)
Fixpoint readU128_loop (p : bytes) (n i : nat) (result : Z) : outcome Z :=
  match n with
  | O => Ret result
  | S n => b ← rd p i; readU128_loop p n (S i) (Z.lor (u128 (Z.shiftl result 8)) b)
  end.

(** [utils/ByteUtils.hpp:304-321] readU128 *)
Definition readU128 (p : bytes) : outcome Z := readU128_loop p 16 0 0.

(** The loop of [readBytes<T>] with [w] the width of [T]: [n] iterations
    left; [shift] is a [size_t], so [shift -= 8] wraps at 64 bits. *)
Fixpoint readBytes_loop (w : Z) (p : bytes) (n i : nat) (shift val : Z) : outcome Z :=
  match n with
  | O => Ret val
  | S n =>
      b ← rd p i;
      t ← shl w b shift;
      readBytes_loop w p n (S i) (u64 (shift - 8)) (Z.lor val t)
  end.

(** [utils/ByteUtils.hpp:336-358] readBytes *)
Definition readBytes (w : Z) (p : bytes) (n : nat) : outcome Z :=
  readBytes_loop w p n 0 (w - 8) 0.

(** ** Fixed-width writes *)

(** The byte [dest\[i\] = (val >> s) & 0xFF]. *)
Definition wr_byte (dest : bytes) (i : nat) (val s : Z) : outcome bytes :=
  wr dest i (u8 (Z.land (Z.shiftr val s) 255)).

(** [utils/ByteUtils.hpp:369-381] writeU16 *)
Definition writeU16 (dest : bytes) (val : Z) : outcome bytes :=
  d ← wr_byte dest 0 val 8; wr_byte d 1 val 0.

(** [utils/ByteUtils.hpp:390-403] writeU24 *)
Definition writeU24 (dest : bytes) (val : Z) : outcome bytes :=
  d ← wr_byte dest 0 val 16; d ← wr_byte d 1 val 8; wr_byte d 2 val 0.

(** [utils/ByteUtils.hpp:412-426] writeU32 *)
Definition writeU32 (dest : bytes) (val : Z) : outcome bytes :=
  d ← wr_byte dest 0 val 24; d ← wr_byte d 1 val 16; d ← wr_byte d 2 val 8;
  wr_byte d 3 val 0.

(** [utils/ByteUtils.hpp:437-445] writeU48 *)
Definition writeU48 (dest : bytes) (val : Z) : outcome bytes :=
  d ← wr_byte dest 0 val 40; d ← wr_byte d 1 val 32; d ← wr_byte d 2 val 24;
  d ← wr_byte d 3 val 16; d ← wr_byte d 4 val 8; wr_byte d 5 val 0.

(** [utils/ByteUtils.hpp:454-472] writeU64 *)
Definition writeU64 (dest : bytes) (val : Z) : outcome bytes :=
  d ← wr_byte dest 0 val 56; d ← wr_byte d 1 val 48; d ← wr_byte d 2 val 40;
  d ← wr_byte d 3 val 32; d ← wr_byte d 4 val 24; d ← wr_byte d 5 val 16;
  d ← wr_byte d 6 val 8; wr_byte d 7 val 0.

(** The loop of [writeU128], index [n - 1] down to [0]. *)
Fixpoint writeU128_loop (dest : bytes) (n : nat) (val : Z) : outcome bytes :=
  match n with
  | O => Ret dest
  | S n => d ← wr dest n (u8 (Z.land val 255)); writeU128_loop d n (Z.shiftr val 8)
  end.

(** [utils/ByteUtils.hpp:483-498] writeU128 *)
Definition writeU128 (dest : bytes) (val : Z) : outcome bytes := writeU128_loop dest 16 val.

(** The loop of [writeBytes<T>]: the shift of a [w]-bit value is undefined
    once the [size_t] counter has wrapped. *)
Fixpoint writeBytes_loop (w : Z) (dest : bytes) (n i : nat) (shift val : Z) : outcome bytes :=
  match n with
  | O => Ret dest
  | S n =>
      x ← shr w val shift;
      d ← wr dest i (u8 (Z.land x 255));
      writeBytes_loop w d n (S i) (u64 (shift - 8)) val
  end.

(** [utils/ByteUtils.hpp:512-531] writeBytes *)
Definition writeBytes (w : Z) (dest : bytes) (val : Z) (n : nat) : outcome bytes :=
  writeBytes_loop w dest n 0 (w - 8) val.

(** [utils/ByteUtils.hpp:545-557] setBit *)
Definition setBit (p : bytes) (bitIndex : Z) (value : bool) : outcome bytes :=
  let byteIndex := Z.to_nat (bitIndex / 8) in
  let bitInByte := 7 - bitIndex mod 8 in
  let mask := u8 (Z.shiftl 1 bitInByte) in
  b ← rd p byteIndex;
  wr p byteIndex (if value then Z.lor b mask else Z.land b (bnot 8 mask)).

(** [writeU16(packet + start, v)] and the like: the write [w] at offset [start]. *)
Definition write_at (w : bytes -> Z -> outcome bytes) (p : bytes) (start : nat) (v : Z) : outcome bytes :=
  tl ← w (drop start p) v; Ret (take start p ++ tl).

(** ** Reads refine the reference decoder *)

(** Evaluates a read of a fixed number of bytes on the cells of [p]. *)
Ltac rd_cells p n :=
  lazymatch n with
  | O => idtac
  | S ?m =>
      let b := fresh "b" in
      let q := fresh "q" in
      destruct p as [|b q]; [cbn [length] in *; lia|]; rd_cells q m
  end.

Lemma is_bytes_take n p : is_bytes p -> is_bytes (take n p).
Proof. apply Forall_take. Qed.

Lemma is_bytes_drop n p : is_bytes p -> is_bytes (drop n p).
Proof. apply Forall_drop. Qed.

Lemma be_decode_take_in_width n p w :
  is_bytes p -> (n <= length p)%nat -> 8 * Z.of_nat n <= w -> in_width w (be_decode (take n p)).
Proof.
  intros Hp Hn Hw. apply (in_width_mono (8 * Z.of_nat n)); [lia|].
  pose proof (be_decode_in_width (take n p) (is_bytes_take n p Hp)) as H.
  rewrite length_take, Nat.min_l in H by done. exact H.
Qed.

#[export] Hint Resolve is_bytes_take is_bytes_drop : width.

(** Closes a fixed-width read against the decoder. *)
Ltac read_spec p n w Hb Hl :=
  rewrite <- (wrap_small _ _ (be_decode_take_in_width n p w Hb Hl ltac:(cbn; lia)));
  rd_cells p n; cbn -[Z.shiftl Z.lor wrap];
  unfold be_decode, be_step; cbn [fold_left take];
  rewrite ?Z.shiftl_lor, ?Z.shiftl_shiftl, ?Z.shiftl_0_l, ?Z.lor_0_l by lia;
  reflexivity.

Lemma readU16_spec p : is_bytes p -> (2 <= length p)%nat -> readU16 p = Ret (be_decode (take 2 p)).
Proof. intros Hb Hl. read_spec p 2%nat 16 Hb Hl. Qed.

Lemma readU24_spec p : is_bytes p -> (3 <= length p)%nat -> readU24 p = Ret (be_decode (take 3 p)).
Proof. intros Hb Hl. read_spec p 3%nat 32 Hb Hl. Qed.

Lemma readU32_spec p : is_bytes p -> (4 <= length p)%nat -> readU32 p = Ret (be_decode (take 4 p)).
Proof. intros Hb Hl. read_spec p 4%nat 32 Hb Hl. Qed.

Lemma readU48_spec p : is_bytes p -> (6 <= length p)%nat -> readU48 p = Ret (be_decode (take 6 p)).
Proof. intros Hb Hl. read_spec p 6%nat 64 Hb Hl. Qed.

Lemma readU64_spec p : is_bytes p -> (8 <= length p)%nat -> readU64 p = Ret (be_decode (take 8 p)).
Proof. intros Hb Hl. read_spec p 8%nat 64 Hb Hl. Qed.

Lemma rd_take_S p i : (i < length p)%nat -> exists b, rd p i = Ret b /\ take (S i) p = take i p ++ [b].
Proof.
  intros Hi. destruct (lookup_lt_is_Some_2 p i Hi) as [b Hb]. exists b.
  unfold rd. rewrite Hb. split; [done|]. apply take_S_r. done.
Qed.

Lemma readU128_loop_spec p n i :
  is_bytes p -> (n + i <= 16)%nat -> (n + i <= length p)%nat ->
  readU128_loop p n i (be_decode (take i p)) = Ret (be_decode (take (n + i) p)).
Proof.
  intros Hb. revert i. induction n as [|n IH]; intros i H1 H2; [done|].
  cbn [readU128_loop]. destruct (rd_take_S p i) as (b & -> & Ht); [lia|].
  rewrite outcome_bind_ret_l.
  assert (E : Z.lor (u128 (Z.shiftl (be_decode (take i p)) 8)) b = be_decode (take (S i) p)).
  { rewrite Ht, be_decode_snoc. unfold be_step. f_equal. apply wrap_small.
    rewrite Z.shiftl_mul_pow2 by lia.
    destruct (be_decode_take_in_width i p 120) as [? ?]; [done|lia|lia|].
    unfold in_width. change (2 ^ 128) with (2 ^ 120 * 2 ^ 8). lia. }
  rewrite E, IH by lia. do 2 f_equal. f_equal. lia.
Qed.

Lemma readU128_spec p :
  is_bytes p -> (16 <= length p)%nat -> readU128 p = Ret (be_decode (take 16 p)).
Proof.
  intros Hb Hl. unfold readU128. change 0 with (be_decode (take 0 p)).
  rewrite readU128_loop_spec by (done || lia). done.
Qed.

(** [readBytes] fills the high bytes of the result, as long as it does not
    read more bytes than the type holds. *)
Lemma readBytes_loop_spec k p n i :
  is_bytes p -> (n + i <= k)%nat -> (n + i <= length p)%nat -> (k <= 16)%nat ->
  readBytes_loop (8 * Z.of_nat k) p n i (u64 (8 * (Z.of_nat k - 1 - Z.of_nat i)))
    (Z.shiftl (be_decode (take i p)) (8 * (Z.of_nat k - Z.of_nat i))) =
  Ret (Z.shiftl (be_decode (take (n + i) p)) (8 * (Z.of_nat k - Z.of_nat (n + i)))).
Proof.
  intros Hb. revert i. induction n as [|n IH]; intros i H1 H2 H3; [done|].
  cbn [readBytes_loop]. destruct (rd_take_S p i) as (b & Hr & Ht); [lia|].
  rewrite Hr, outcome_bind_ret_l.
  assert (Hbw : in_width 8 b).
  { unfold rd in Hr. destruct (p !! i) eqn:E; [|done]. injection Hr as ->.
    eapply Forall_lookup_1; done. }
  set (s := 8 * (Z.of_nat k - 1 - Z.of_nat i)).
  assert (Hs : 0 <= s < 8 * Z.of_nat k) by lia.
  rewrite (wrap_small 64 s) by (split; [lia|]; apply Z.lt_trans with 128; [lia|done]).
  rewrite shl_ret, outcome_bind_ret_l by done.
  assert (Hsh : wrap (8 * Z.of_nat k) (Z.shiftl b s) = Z.shiftl b s).
  { apply wrap_small. rewrite Z.shiftl_mul_pow2 by lia. destruct Hbw. split; [nia|].
    apply Z.lt_le_trans with (2 ^ 8 * 2 ^ s);
      [apply Z.mul_lt_mono_pos_r; [apply Z.pow_pos_nonneg; lia|lia]|].
    rewrite <- Z.pow_add_r by lia. apply Z.pow_le_mono_r; lia. }
  rewrite Hsh. specialize (IH (S i) ltac:(lia) ltac:(lia) H3).
  replace (n + S i)%nat with (S n + i)%nat in IH by lia. rewrite <- IH. f_equal.
  - f_equal. lia.
  - rewrite Ht, be_decode_snoc. unfold be_step.
    rewrite Z.shiftl_lor, Z.shiftl_shiftl by lia. f_equal; f_equal; lia.
Qed.

Lemma readBytes_spec k p n :
  is_bytes p -> (n <= k)%nat -> (n <= length p)%nat -> (k <= 16)%nat ->
  readBytes (8 * Z.of_nat k) p n =
  Ret (Z.shiftl (be_decode (take n p)) (8 * (Z.of_nat k - Z.of_nat n))).
Proof.
  intros Hb H1 H2 H3. pose proof (readBytes_loop_spec k p n 0 Hb) as H.
  rewrite Nat.add_0_r in H. specialize (H H1 H2 H3).
  change (be_decode (take 0 p)) with 0 in H. rewrite Z.shiftl_0_l in H.
  destruct (decide (k = 0%nat)) as [->|Hk].
  - destruct n; [done|lia].
  - rewrite wrap_small in H; [|split; [lia|]; apply Z.lt_trans with 128; [lia|done]].
    unfold readBytes. rewrite <- H. f_equal. lia.
Qed.

(** Reading more bytes than the result type holds is undefined: the shift
    counter wraps below zero. *)
Lemma readBytes_overrun k p n :
  is_bytes p -> (1 <= k <= 16)%nat -> (k < n)%nat ->
  readBytes (8 * Z.of_nat k) p n = UB.
Proof.
  intros Hb Hk Hn.
  destruct (decide (k < length p)%nat) as [Hl|Hl].
  - assert (Hgen : forall j i v, (j + i = n)%nat -> (i <= k)%nat ->
      readBytes_loop (8 * Z.of_nat k) p j i (u64 (8 * (Z.of_nat k - 1 - Z.of_nat i))) v = UB).
    { induction j as [|j IH]; intros i v Hj Hi; [lia|]. cbn [readBytes_loop].
      destruct (rd_take_S p i) as (b & -> & _); [lia|]. rewrite outcome_bind_ret_l.
      destruct (decide (i = k)) as [->|Hne].
      - rewrite shl_ub; [done|]. right.
        replace (8 * (Z.of_nat k - 1 - Z.of_nat k)) with (-8) by lia.
        change (u64 (-8)) with 18446744073709551608. lia.
      - rewrite (wrap_small 64 (8 * (Z.of_nat k - 1 - Z.of_nat i)))
          by (split; [lia|]; apply Z.lt_trans with 128; [lia|done]).
        rewrite shl_ret, outcome_bind_ret_l by lia.
        replace (8 * (Z.of_nat k - 1 - Z.of_nat i) - 8)
          with (8 * (Z.of_nat k - 1 - Z.of_nat (S i))) by lia.
        apply IH; lia. }
    unfold readBytes. specialize (Hgen n 0%nat 0 ltac:(lia) ltac:(lia)).
    rewrite wrap_small in Hgen; [|split; [lia|]; apply Z.lt_trans with 128; [lia|done]].
    rewrite <- Hgen. f_equal. lia.
  - assert (Hgen : forall j i s v, (j + i = n)%nat -> (i <= length p)%nat ->
      readBytes_loop (8 * Z.of_nat k) p j i s v = UB).
    { induction j as [|j IH]; intros i s v Hj Hi; [lia|]. cbn [readBytes_loop].
      destruct (decide (i < length p)%nat).
      - destruct (rd_take_S p i) as (b & -> & _); [lia|]. rewrite outcome_bind_ret_l.
        unfold shl. case_match; [|done]. rewrite outcome_bind_ret_l. apply IH; lia.
      - unfold rd. rewrite lookup_ge_None_2 by lia. done. }
    apply Hgen; lia.
Qed.

(** ** Writes refine the reference encoder *)

(** Closes a fixed-width write against the encoder. *)
Ltac write_spec dest n :=
  unfold wr_byte; rd_cells dest n; cbn -[Z.shiftr Z.land wrap];
  rewrite !u8_land_255; reflexivity.

Lemma writeU16_spec dest v :
  (2 <= length dest)%nat -> writeU16 dest v = Ret (be_encode 2 v ++ drop 2 dest).
Proof. intros Hl. unfold writeU16. write_spec dest 2%nat. Qed.

Lemma writeU24_spec dest v :
  (3 <= length dest)%nat -> writeU24 dest v = Ret (be_encode 3 v ++ drop 3 dest).
Proof. intros Hl. unfold writeU24. write_spec dest 3%nat. Qed.

Lemma writeU32_spec dest v :
  (4 <= length dest)%nat -> writeU32 dest v = Ret (be_encode 4 v ++ drop 4 dest).
Proof. intros Hl. unfold writeU32. write_spec dest 4%nat. Qed.

Lemma writeU48_spec dest v :
  (6 <= length dest)%nat -> writeU48 dest v = Ret (be_encode 6 v ++ drop 6 dest).
Proof. intros Hl. unfold writeU48. write_spec dest 6%nat. Qed.

Lemma writeU64_spec dest v :
  (8 <= length dest)%nat -> writeU64 dest v = Ret (be_encode 8 v ++ drop 8 dest).
Proof. intros Hl. unfold writeU64. write_spec dest 8%nat. Qed.

Lemma writeU128_loop_spec n dest v :
  (n <= length dest)%nat ->
  writeU128_loop dest n v = Ret (be_encode n v ++ drop n dest).
Proof.
  revert dest v. induction n as [|n IH]; intros dest v Hn; [done|].
  cbn [writeU128_loop]. rewrite wr_ret, outcome_bind_ret_l by lia.
  rewrite IH, be_encode_snoc by (rewrite length_insert; lia).
  rewrite drop_insert_here, u8_land_255, <- app_assoc by lia. done.
Qed.

Lemma writeU128_spec dest v :
  (16 <= length dest)%nat -> writeU128 dest v = Ret (be_encode 16 v ++ drop 16 dest).
Proof. apply writeU128_loop_spec. Qed.

Lemma writeBytes_loop_spec k dest v n i :
  (n + i <= k)%nat -> (n + i <= length dest)%nat -> (k <= 16)%nat ->
  writeBytes_loop (8 * Z.of_nat k) dest n i (u64 (8 * (Z.of_nat k - 1 - Z.of_nat i))) v =
  Ret (take i dest ++ take n (drop i (be_encode k v)) ++ drop (n + i) dest).
Proof.
  revert i dest. induction n as [|n IH]; intros i dest H1 H2 H3.
  { cbn [writeBytes_loop Nat.add]. rewrite take_0, app_nil_l, take_drop. done. }
  cbn [writeBytes_loop].
  rewrite (wrap_small 64 (8 * (Z.of_nat k - 1 - Z.of_nat i)))
    by (split; [lia|]; apply Z.lt_trans with 128; [lia|done]).
  unfold shr. rewrite (proj2 (Z.leb_le _ _)), (proj2 (Z.ltb_lt _ _)) by lia.
  simpl andb. cbn [outcome_bind mbind]. rewrite wr_ret by lia.
  replace (8 * (Z.of_nat k - 1 - Z.of_nat i) - 8)
    with (8 * (Z.of_nat k - 1 - Z.of_nat (S i))) by lia.
  cbn [outcome_bind mbind]. rewrite IH by (rewrite ?length_insert; lia). f_equal.
  rewrite (drop_S (be_encode k v) _ i (be_encode_lookup k v i ltac:(lia))).
  cbn [take]. rewrite (take_S_r _ i (u8 (Z.land (Z.shiftr v (8 * (Z.of_nat k - 1 - Z.of_nat i))) 255)))
    by (apply list_lookup_insert_eq; lia).
  rewrite take_insert_ge, drop_insert_lt, u8_land_255, <- app_assoc by lia.
  replace (Z.of_nat (k - 1 - i)) with (Z.of_nat k - 1 - Z.of_nat i) by lia.
  replace (n + S i)%nat with (S n + i)%nat by lia. done.
Qed.

Lemma writeBytes_spec k dest v n :
  (n <= k)%nat -> (n <= length dest)%nat -> (k <= 16)%nat ->
  writeBytes (8 * Z.of_nat k) dest v n = Ret (take n (be_encode k v) ++ drop n dest).
Proof.
  intros H1 H2 H3. destruct n as [|n]; [done|].
  pose proof (writeBytes_loop_spec k dest v (S n) 0) as H. rewrite Nat.add_0_r in H.
  specialize (H H1 H2 H3). rewrite drop_0 in H. simpl (take 0 dest ++ _) in H.
  rewrite wrap_small in H; [|split; [lia|]; apply Z.lt_trans with 128; [lia|done]].
  unfold writeBytes. rewrite <- H. f_equal. lia.
Qed.

(** ** Round trips *)

(** Every fixed-width reader inverts its writer: for each of the six widths,
    what [writeU<w>] stored in a buffer that has room, [readU<w>] reads back. *)
Theorem read_write_roundtrip (dest : bytes) (v : Z) :
  is_bytes dest -> (16 <= length dest)%nat ->
  (writeU16 dest v ≫= readU16) = Ret (u16 v) /\
  (writeU24 dest v ≫= readU24) = Ret (wrap 24 v) /\
  (writeU32 dest v ≫= readU32) = Ret (u32 v) /\
  (writeU48 dest v ≫= readU48) = Ret (wrap 48 v) /\
  (writeU64 dest v ≫= readU64) = Ret (u64 v) /\
  (writeU128 dest v ≫= readU128) = Ret (u128 v).
Proof.
  intros Hb Hl.
  assert (Hr : forall (m : nat) (read : bytes -> outcome Z),
    (m <= 16)%nat ->
    (forall p, is_bytes p -> (m <= length p)%nat -> read p = Ret (be_decode (take m p))) ->
    read (be_encode m v ++ drop m dest) = Ret (wrap (8 * Z.of_nat m) v)).
  { intros m read Hm Hread. rewrite Hread.
    - rewrite take_app_length' by (symmetry; apply be_encode_length). rewrite be_decode_encode. done.
    - apply Forall_app. split; [apply be_encode_bytes | by apply is_bytes_drop].
    - rewrite length_app, be_encode_length. lia. }
  split_all.
  - rewrite writeU16_spec, outcome_bind_ret_l by lia.
    apply (Hr 2%nat); [lia | intros; by apply readU16_spec].
  - rewrite writeU24_spec, outcome_bind_ret_l by lia.
    apply (Hr 3%nat); [lia | intros; by apply readU24_spec].
  - rewrite writeU32_spec, outcome_bind_ret_l by lia.
    apply (Hr 4%nat); [lia | intros; by apply readU32_spec].
  - rewrite writeU48_spec, outcome_bind_ret_l by lia.
    apply (Hr 6%nat); [lia | intros; by apply readU48_spec].
  - rewrite writeU64_spec, outcome_bind_ret_l by lia.
    apply (Hr 8%nat); [lia | intros; by apply readU64_spec].
  - rewrite writeU128_spec, outcome_bind_ret_l by lia.
    apply (Hr 16%nat); [lia | intros; by apply readU128_spec].
Qed.

Lemma read_write_roundtrip_witness :
  let d := replicate 20 170 in
  (is_bytes d /\ (16 <= length d)%nat) /\
  (writeU32 d 305419896 ≫= readU32) = Ret (u32 305419896).
Proof.
  assert (H1 : is_bytes (replicate 20 170)) by (apply Forall_replicate; done).
  assert (H2 : (16 <= length (replicate 20 170))%nat) by (cbn; lia).
  split; [done|].
  exact (proj1 (proj2 (proj2 (read_write_roundtrip (replicate 20 170) 305419896 H1 H2)))).
Defined.

(** Network-order bit [i] of a buffer. *)
Definition net_bit (p : bytes) (i : Z) : option bool :=
  b ← p !! Z.to_nat (i / 8); Some (Z.testbit b (7 - i mod 8)).

Lemma testbit_bit_mask m i : 0 <= m -> Z.testbit (Z.shiftl 1 m) i = (i =? m).
Proof.
  intros Hm. rewrite Z.shiftl_1_l. destruct (Z.eqb_spec i m) as [->|Hne].
  - apply Z.pow2_bits_true. done.
  - apply Z.pow2_bits_false. done.
Qed.

Lemma land_bnot_testbit w x m i :
  in_width w x -> 0 <= m < w -> 0 <= i ->
  Z.testbit (Z.land x (bnot w (Z.shiftl 1 m))) i = Z.testbit x i && negb (i =? m).
Proof.
  intros Hx Hm Hi. rewrite Z.land_spec. unfold bnot.
  destruct (decide (i < w)) as [Hlt|Hge].
  - f_equal. replace (2 ^ w - 1 - Z.shiftl 1 m) with (Z.ldiff (Z.ones w) (Z.shiftl 1 m)).
    + rewrite Z.ldiff_spec, testbit_bit_mask, Z.ones_spec_low by lia. done.
    + rewrite Z.shiftl_1_l. rewrite <- Z.sub_nocarry_ldiff.
      * rewrite Z.ones_equiv. lia.
      * apply Z.bits_inj'. intros j Hj.
        rewrite Z.ldiff_spec, Z.bits_0, <- Z.shiftl_1_l, testbit_bit_mask by lia.
        destruct (Z.eqb_spec j m) as [->|]; [|done].
        rewrite Z.ones_spec_low by lia. done.
  - rewrite (testbit_in_width w x i) by (done || lia). done.
Qed.

(** [setBit] sets exactly the bit it is asked to set and leaves every other
    bit of the buffer, and its length, alone. *)
Theorem setBit_spec (p : bytes) (i : Z) (v : bool) :
  is_bytes p -> 0 <= i < 8 * Z.of_nat (length p) ->
  exists q, setBit p i v = Ret q /\ length q = length p /\
    net_bit q i = Some v /\
    (forall j, 0 <= j -> j <> i -> net_bit q j = net_bit p j).
Proof.
  intros Hb Hi. set (k := Z.to_nat (i / 8)).
  pose proof (Z.div_mod i 8 ltac:(lia)) as Hdm. pose proof (Z.mod_pos_bound i 8 ltac:(lia)).
  assert (Hk : (k < length p)%nat) by (unfold k; lia).
  destruct (lookup_lt_is_Some_2 p k Hk) as [b Hpk].
  assert (Hbw : in_width 8 b) by (eapply Forall_lookup_1; done).
  set (m := 7 - i mod 8).
  assert (Hmask : u8 (Z.shiftl 1 m) = Z.shiftl 1 m).
  { apply wrap_small. rewrite Z.shiftl_1_l. split; [apply Z.pow_nonneg; lia|].
    apply Z.pow_lt_mono_r; lia. }
  set (nb := if v then Z.lor b (Z.shiftl 1 m) else Z.land b (bnot 8 (Z.shiftl 1 m))).
  exists (<[k := nb]> p).
  assert (Hnb : forall j, 0 <= j -> Z.testbit nb j = if j =? m then v else Z.testbit b j).
  { intros j Hj. unfold nb. destruct v.
    - rewrite Z.lor_spec, testbit_bit_mask by lia.
      destruct (j =? m); [apply orb_true_r | apply orb_false_r].
    - rewrite land_bnot_testbit by (done || lia).
      destruct (j =? m); [apply andb_false_r | apply andb_true_r]. }
  split; [|split; [apply length_insert|split]].
  - unfold setBit. fold k m. unfold rd. rewrite Hpk, outcome_bind_ret_l, Hmask.
    rewrite wr_ret by done. done.
  - unfold net_bit. fold k m. rewrite list_lookup_insert_eq by done. cbn.
    rewrite Hnb, Z.eqb_refl by lia. done.
  - intros j Hj Hne. unfold net_bit.
    destruct (decide (Z.to_nat (j / 8) = k)) as [Heq|Hneq].
    + rewrite Heq, list_lookup_insert_eq, Hpk by done. cbn.
      pose proof (Z.div_mod j 8 ltac:(lia)). pose proof (Z.mod_pos_bound j 8 ltac:(lia)).
      rewrite Hnb by lia. destruct (Z.eqb_spec (7 - j mod 8) m); [|done].
      exfalso. apply Hne. unfold m, k in *. lia.
    + rewrite list_lookup_insert_ne by done. done.
Qed.

Lemma setBit_spec_witness :
  (is_bytes [0; 255] /\ 0 <= 9 < 8 * Z.of_nat (length [0; 255])) /\
  exists q, setBit [0; 255] 9 false = Ret q /\ length q = 2%nat /\ net_bit q 9 = Some false /\
    (forall j, 0 <= j -> j <> 9 -> net_bit q j = net_bit [0; 255] j).
Proof.
  assert (H1 : is_bytes [0; 255]) by (repeat constructor; done).
  assert (H2 : 0 <= 9 < 8 * Z.of_nat (length [0; 255])) by (cbn; lia).
  split; [done|]. exact (setBit_spec [0; 255] 9 false H1 H2).
Defined.

(** The low-bit mask helpers beyond 8 bits do not depend on their argument:
    they shift a zero, so every count below the width gives all ones. *)
Lemma mask_helpers_constant bits :
  (0 <= bits < 16 -> maskU16Bits bits = Ret 65535) /\
  (0 <= bits < 32 -> maskU32Bits bits = Ret 4294967295) /\
  (0 <= bits < 64 -> maskU64Bits bits = Ret (2 ^ 64 - 1)) /\
  (0 <= bits < 128 -> maskU128Bits bits = Ret (2 ^ 128 - 1)).
Proof.
  split_all; intros; unfold maskU16Bits, maskU32Bits, maskU64Bits, maskU128Bits;
    (rewrite (proj2 (Z.eqb_neq _ _)) by lia); rewrite shl_ret, Z.shiftl_0_l by lia;
    reflexivity.
Qed.
