(* ===== verification/IPAddress.v ===== *)
(** * IPAddress: addresses and prefixes (types/IPAddress.h, types/IPAddress.cpp)

    The dual-stack address [IPAddress] (a 128-bit word, IPv4 in the
    IPv4-mapped form), the plain [IPv4Address] and [IPv6Address], and the three
    prefix types, with every constructor, predicate and comparison of the
    source. Shift counts outside the width and reads outside a buffer are
    [UB]; the unknown address family is a [Throw]. *)

From S2P Require Import Prelude ByteUtils.

(** ** Data *)

(** [types/AddressFamily.hpp:18-23] AddressFamily *)
Inductive AddressFamily := AF_NONE | AF_IPv4 | AF_IPv6.

#[export] Instance AddressFamily_eq_dec : EqDecision AddressFamily.
Proof. solve_decision. Defined.

(** [types/IPAddress.h:87-93] IPAddress *)
Record IPAddress := mkIPAddress { raw : Z }.

(** [types/IPAddress.h:202-208] IPv4Address *)
Record IPv4Address := mkIPv4Address { a4 : Z }.

(** [types/IPAddress.h:281-287] IPv6Address *)
Record IPv6Address := mkIPv6Address { a6 : Z }.

(** [types/IPAddress.h:363-370] IPPrefix *)
Record IPPrefix := mkIPPrefix { p_addr : Z; p_len : Z }.

(** [types/IPAddress.h:453-460] IPv4Prefix *)
Record IPv4Prefix := mkIPv4Prefix { p4_addr : Z; p4_len : Z }.

(** [types/IPAddress.h:535-542] IPv6Prefix *)
Record IPv6Prefix := mkIPv6Prefix { p6_addr : Z; p6_len : Z }.

#[export] Instance IPAddress_eq_dec : EqDecision IPAddress.
Proof. solve_decision. Defined.
#[export] Instance IPPrefix_eq_dec : EqDecision IPPrefix.
Proof. solve_decision. Defined.
#[export] Instance IPv4Prefix_eq_dec : EqDecision IPv4Prefix.
Proof. solve_decision. Defined.

#[export] Instance IPAddress_countable : Countable IPAddress.
Proof. refine (inj_countable' raw mkIPAddress _). by intros []. Defined.
#[export] Instance IPPrefix_countable : Countable IPPrefix.
Proof. refine (inj_countable' (fun p => (p_addr p, p_len p)) (fun x => mkIPPrefix x.1 x.2) _). by intros []. Defined.
#[export] Instance IPv4Prefix_countable : Countable IPv4Prefix.
Proof. refine (inj_countable' (fun p => (p4_addr p, p4_len p)) (fun x => mkIPv4Prefix x.1 x.2) _). by intros []. Defined.

(** [types/IPAddress.h:31-33] IP_CLASS_A_PREFIX *)
Definition IP_CLASS_A_PREFIX : Z := 8.
Definition IP_CLASS_B_PREFIX : Z := 16.
Definition IP_CLASS_C_PREFIX : Z := 24.

(** ** NetworkSpan: byte [idx] in network order of an [extent]-byte integer *)

(** [types/NetworkSpan.hpp:211-217] NetworkSpan::mapIndex *)
Definition mapIndex (extent idx : Z) : Z := extent - 1 - idx.

(** [types/NetworkSpan.hpp:158-165] NetworkSpan::operator[]: the byte at memory
    offset [mapIndex] of the little-endian word. *)
Definition span_at (extent x idx : Z) : Z :=
  Z.land (Z.shiftr x (8 * mapIndex extent idx)) 255.

(** ** Masks *)

(** [types/IPAddress.h:53-56] v4Mask *)
Definition v4Mask (len : Z) : outcome Z :=
  if len =? 0 then Ret 0 else shl 32 (all_ones 32) (32 - len).

(** [types/IPAddress.h:64-70] v6Mask *)
Definition v6Mask (len : Z) : outcome Z :=
  if len =? 0 then Ret 0 else shl 128 (all_ones 128) (128 - len).

(** [addr & (~0 << (w - len))], zero for [len = 0]: the masking expression of
    every [addPrefixLen]. *)
Definition mask_addr (w a len : Z) : outcome Z :=
  if len =? 0 then Ret 0 else m ← shl w (all_ones w) (w - len); Ret (Z.land a m).

(** [__uint128_t{0xFFFF} << 32] *)
Definition mapped : Z := Z.shiftl 65535 32.

(** ** IPAddress *)

(** [types/IPAddress.h:142-142] IPAddress::isIPv4 *)
Definition IPAddress_isIPv4 (a : IPAddress) : bool := Z.shiftr (raw a) 32 =? 65535.
(** [types/IPAddress.h:146-146] IPAddress::isIPv6 *)
Definition IPAddress_isIPv6 (a : IPAddress) : bool := negb (IPAddress_isIPv4 a).
(** [types/IPAddress.h:143-143] IPAddress::v4 *)
Definition IPAddress_v4 (a : IPAddress) : Z := Z.land (raw a) 4294967295.
(** [types/IPAddress.h:144-144] IPAddress::setV4 *)
Definition IPAddress_setV4 (ipv4 : Z) : IPAddress := mkIPAddress (Z.lor ipv4 mapped).
(** [types/IPAddress.h:147-147] IPAddress::v6 *)
Definition IPAddress_v6 (a : IPAddress) : Z := raw a.
(** [types/IPAddress.h:148-148] IPAddress::setV6 *)
Definition IPAddress_setV6 (v : Z) : IPAddress := mkIPAddress v.
(** [types/IPAddress.h:136-136] IPAddress::isUnspecified *)
Definition IPAddress_isUnspecified (a : IPAddress) : bool := raw a =? 0.

(** [types/IPAddress.cpp:133-147] IPAddress::v4raw: the low four bytes. *)
Definition IPAddress_v4raw (a : IPAddress) : Z := u32 (raw a).
(** [types/IPAddress.cpp:149-157] IPAddress::v6raw *)
Definition IPAddress_v6raw (a : IPAddress) : Z := raw a.

(** [types/IPAddress.cpp:17-19] IPAddress::IPAddress(uint32_t) *)
Definition IPAddress_u32 (addr : Z) : IPAddress := mkIPAddress (Z.lor addr mapped).
(** [types/IPAddress.cpp:27-29] IPAddress::IPAddress(__uint128_t) *)
Definition IPAddress_u128 (addr : Z) : IPAddress := mkIPAddress addr.

(** [types/IPAddress.cpp:76-90] IPAddress::addPrefixLen *)
Definition IPAddress_addPrefixLen (a : IPAddress) (len : Z) : outcome IPAddress :=
  if IPAddress_isIPv4 a then
    v4 ← mask_addr 32 (IPAddress_v4raw a) len;
    Ret (mkIPAddress (Z.lor v4 mapped))
  else
    r ← mask_addr 128 (raw a) len; Ret (mkIPAddress r).

(** [types/IPAddress.cpp:21-25] IPAddress::IPAddress(uint32_t, uint8_t) *)
Definition IPAddress_u32_plen (addr plen : Z) : outcome IPAddress :=
  IPAddress_addPrefixLen (IPAddress_u32 addr) plen.
(** [types/IPAddress.cpp:31-35] IPAddress::IPAddress(__uint128_t, uint8_t) *)
Definition IPAddress_u128_plen (addr plen : Z) : outcome IPAddress :=
  IPAddress_addPrefixLen (IPAddress_u128 addr) plen.
(** [types/IPAddress.cpp:9-11] IPAddress::IPAddress(const IPAddress&, uint8_t) *)
Definition IPAddress_IPAddress_plen (other : IPAddress) (plen : Z) : outcome IPAddress :=
  IPAddress_u128_plen (raw other) plen.
(** [types/IPAddress.cpp:13-15] IPAddress::IPAddress(const IPPrefix&, uint8_t) *)
Definition IPAddress_IPPrefix_plen (other : IPPrefix) (plen : Z) : outcome IPAddress :=
  IPAddress_u128_plen (p_addr other) plen.

(** [types/IPAddress.cpp:37-52] IPAddress::IPAddress(const uint8_t*, AddressFamily) *)
Definition IPAddress_bytes (p : bytes) (af : AddressFamily) : outcome IPAddress :=
  match af with
  | AF_IPv4 => ipv4 ← readU32 p; Ret (mkIPAddress (Z.lor ipv4 mapped))
  | AF_IPv6 => r ← readU128 p; Ret (mkIPAddress r)
  | AF_NONE => Throw "Invalid Address Family"
  end.
(** [types/IPAddress.cpp:54-58] IPAddress::IPAddress(const uint8_t*, AddressFamily, uint8_t) *)
Definition IPAddress_bytes_plen (p : bytes) (af : AddressFamily) (plen : Z) : outcome IPAddress :=
  a ← IPAddress_bytes p af; IPAddress_addPrefixLen a plen.

(** [types/IPAddress.cpp:60-74] IPAddress::contains *)
Definition IPAddress_contains (a ip : IPAddress) (prefixLength : Z) : outcome bool :=
  if IPAddress_isIPv4 ip then
    if negb (IPAddress_isIPv4 a) then Ret false
    else mask ← v4Mask prefixLength;
         Ret (Z.land (IPAddress_v4raw a) mask =? Z.land (IPAddress_v4 ip) mask)
  else
    if IPAddress_isIPv4 a then Ret false
    else mask ← v6Mask prefixLength;
         Ret (Z.land (IPAddress_v6raw a) mask =? Z.land (IPAddress_v6 ip) mask).


(** The byte tests the classification predicates of all the types share. *)
Definition v4_multicast (x : Z) : bool := Z.land (span_at 4 x 0) 224 =? 224.
Definition v6_multicast (x : Z) : bool := span_at 16 x 0 =? 255.
Definition v6_local_link (x : Z) : bool :=
  (span_at 16 x 0 =? 254) && (Z.land (span_at 16 x 1) 192 =? 128).
Definition v6_fd (x : Z) : bool := span_at 16 x 0 =? 253.
Definition v6_2000_3 (x : Z) : bool := Z.land (span_at 16 x 0) 224 =? 32.

(** The classful cascade on the first byte. *)
Definition class_prefix (b : Z) : Z :=
  if b <=? 127 then IP_CLASS_A_PREFIX
  else if b <=? 191 then IP_CLASS_B_PREFIX
  else if b <=? 223 then IP_CLASS_C_PREFIX
  else 0.

(** [types/IPAddress.cpp:92-103] IPAddress::isMulticast *)
Definition IPAddress_isMulticast (a : IPAddress) : bool :=
  if IPAddress_isIPv4 a then v4_multicast (IPAddress_v4raw a)
  else if IPAddress_isIPv6 a then v6_multicast (raw a) else false.
(** [types/IPAddress.cpp:105-108] IPAddress::isLocalLink *)
Definition IPAddress_isLocalLink (a : IPAddress) : bool :=
  IPAddress_isIPv6 a && v6_local_link (raw a).
(** [types/IPAddress.cpp:110-113] IPAddress::isGlobalUnicast *)
Definition IPAddress_isGlobalUnicast (a : IPAddress) : bool :=
  IPAddress_isIPv6 a && v6_fd (raw a).
(** [types/IPAddress.cpp:115-118] IPAddress::isLocalUnicast *)
Definition IPAddress_isLocalUnicast (a : IPAddress) : bool :=
  IPAddress_isIPv6 a && v6_2000_3 (raw a).
(** [types/IPAddress.cpp:120-131] IPAddress::getDefaultMask *)
Definition IPAddress_getDefaultMask (a : IPAddress) : Z :=
  if negb (IPAddress_isIPv4 a) then 0 else class_prefix (span_at 4 (IPAddress_v4raw a) 0).

(** *** Comparisons of [IPAddress] *)

(** [types/IPAddress.cpp:159-162] IPAddress::operator==(const IPAddress&) *)
Definition IPAddress_eq (a : IPAddress) (o : IPAddress) : bool := raw a =? raw o.
(** [types/IPAddress.cpp:164-167] IPAddress::operator!=(const IPAddress&) *)
Definition IPAddress_ne (a : IPAddress) (o : IPAddress) : bool := negb (raw a =? raw o).
(** [types/IPAddress.cpp:169-172] IPAddress::operator<(const IPAddress&) *)
Definition IPAddress_lt (a : IPAddress) (o : IPAddress) : bool := raw a <? raw o.
(** [types/IPAddress.cpp:174-177] IPAddress::operator>(const IPAddress&) *)
Definition IPAddress_gt (a : IPAddress) (o : IPAddress) : bool := raw o <? raw a.
(** [types/IPAddress.cpp:179-182] IPAddress::operator<=(const IPAddress&) *)
Definition IPAddress_le (a : IPAddress) (o : IPAddress) : bool := raw a <=? raw o.
(** [types/IPAddress.cpp:184-187] IPAddress::operator>=(const IPAddress&) *)
Definition IPAddress_ge (a : IPAddress) (o : IPAddress) : bool := raw o <=? raw a.
(** [types/IPAddress.cpp:189-192] IPAddress::operator==(const IPv4Address&) *)
Definition IPAddress_eq_IPv4Address (a : IPAddress) (o : IPv4Address) : bool := IPAddress_v4 a =? a4 o.
(** [types/IPAddress.cpp:194-197] IPAddress::operator!=(const IPv4Address&) *)
Definition IPAddress_ne_IPv4Address (a : IPAddress) (o : IPv4Address) : bool := negb (IPAddress_v4 a =? a4 o).
(** [types/IPAddress.cpp:199-202] IPAddress::operator<(const IPv4Address&) *)
Definition IPAddress_lt_IPv4Address (a : IPAddress) (o : IPv4Address) : bool := IPAddress_v4 a <? a4 o.
(** [types/IPAddress.cpp:204-207] IPAddress::operator>(const IPv4Address&) *)
Definition IPAddress_gt_IPv4Address (a : IPAddress) (o : IPv4Address) : bool := a4 o <? IPAddress_v4 a.
(** [types/IPAddress.cpp:209-212] IPAddress::operator<=(const IPv4Address&) *)
Definition IPAddress_le_IPv4Address (a : IPAddress) (o : IPv4Address) : bool := IPAddress_v4 a <=? a4 o.
(** [types/IPAddress.cpp:214-217] IPAddress::operator>=(const IPv4Address&) *)
Definition IPAddress_ge_IPv4Address (a : IPAddress) (o : IPv4Address) : bool := a4 o <=? IPAddress_v4 a.
(** [types/IPAddress.cpp:219-222] IPAddress::operator==(const IPv6Address&) *)
Definition IPAddress_eq_IPv6Address (a : IPAddress) (o : IPv6Address) : bool := raw a =? a6 o.
(** [types/IPAddress.cpp:224-227] IPAddress::operator!=(const IPv6Address&) *)
Definition IPAddress_ne_IPv6Address (a : IPAddress) (o : IPv6Address) : bool := negb (raw a =? a6 o).
(** [types/IPAddress.cpp:229-232] IPAddress::operator<(const IPv6Address&) *)
Definition IPAddress_lt_IPv6Address (a : IPAddress) (o : IPv6Address) : bool := raw a <? a6 o.
(** [types/IPAddress.cpp:234-237] IPAddress::operator>(const IPv6Address&) *)
Definition IPAddress_gt_IPv6Address (a : IPAddress) (o : IPv6Address) : bool := a6 o <? raw a.
(** [types/IPAddress.cpp:239-242] IPAddress::operator<=(const IPv6Address&) *)
Definition IPAddress_le_IPv6Address (a : IPAddress) (o : IPv6Address) : bool := raw a <=? a6 o.
(** [types/IPAddress.cpp:244-247] IPAddress::operator>=(const IPv6Address&) *)
Definition IPAddress_ge_IPv6Address (a : IPAddress) (o : IPv6Address) : bool := a6 o <=? raw a.

(** ** IPv4Address *)

(** [types/IPAddress.cpp:249-251] IPv4Address::IPv4Address(uint32_t) *)
Definition IPv4Address_u32 (a : Z) : IPv4Address := mkIPv4Address a.
(** [types/IPAddress.cpp:286-289] IPv4Address::addPrefixLen *)
Definition IPv4Address_addPrefixLen (a : IPv4Address) (len : Z) : outcome IPv4Address :=
  r ← mask_addr 32 (a4 a) len; Ret (mkIPv4Address r).
(** [types/IPAddress.cpp:253-257] IPv4Address::IPv4Address(uint32_t, uint8_t) *)
Definition IPv4Address_u32_plen (a plen : Z) : outcome IPv4Address :=
  IPv4Address_addPrefixLen (mkIPv4Address a) plen.
(** [types/IPAddress.cpp:259-261] IPv4Address::IPv4Address(const uint8_t ptr) *)
Definition IPv4Address_bytes (p : bytes) : outcome IPv4Address :=
  x ← readU32 p; Ret (mkIPv4Address x).
(** [types/IPAddress.cpp:263-267] IPv4Address::IPv4Address(const uint8_t*, uint8_t) *)
Definition IPv4Address_bytes_plen (p : bytes) (plen : Z) : outcome IPv4Address :=
  x ← readU32 p; IPv4Address_addPrefixLen (mkIPv4Address x) plen.
(** [types/IPAddress.cpp:269-277] IPv4Address::raw *)
Definition IPv4Address_raw (a : IPv4Address) : Z := a4 a.
(** [types/IPAddress.cpp:279-284] IPv4Address::contains *)
Definition IPv4Address_contains (a ip : IPv4Address) (prefixLen : Z) : outcome bool :=
  if prefixLen =? 0 then Ret true
  else mask ← (if prefixLen =? 32 then Ret (all_ones 32)
               else shl 32 (all_ones 32) (32 - prefixLen));
       Ret (Z.land (a4 a) mask =? Z.land (a4 ip) mask).
(** [types/IPAddress.cpp:291-294] IPv4Address::isMulticast *)
Definition IPv4Address_isMulticast (a : IPv4Address) : bool := v4_multicast (IPv4Address_raw a).
(** [types/IPAddress.cpp:296-306] IPv4Address::getDefaultMask *)
Definition IPv4Address_getDefaultMask (a : IPv4Address) : Z :=
  class_prefix (span_at 4 (IPv4Address_raw a) 0).
(** [types/IPAddress.h:242-242] IPv4Address::isUnspecified *)
Definition IPv4Address_isUnspecified (a : IPv4Address) : bool := a4 a =? 0.
(** [types/IPAddress.h:245-246] IPv4Address::operator IPAddress *)
Definition IPv4Address_to_IPAddress (a : IPv4Address) : IPAddress := IPAddress_u32 (a4 a).

(** [types/IPAddress.h:248-248] IPv4Address::operator==(const IPv4Address&) *)
Definition IPv4Address_eq (a : IPv4Address) (o : IPv4Address) : bool := a4 a =? a4 o.
(** [types/IPAddress.h:249-249] IPv4Address::operator!=(const IPv4Address&) *)
Definition IPv4Address_ne (a : IPv4Address) (o : IPv4Address) : bool := negb (a4 a =? a4 o).
(** [types/IPAddress.h:250-250] IPv4Address::operator<(const IPv4Address&) *)
Definition IPv4Address_lt (a : IPv4Address) (o : IPv4Address) : bool := a4 a <? a4 o.
(** [types/IPAddress.h:251-251] IPv4Address::operator>(const IPv4Address&) *)
Definition IPv4Address_gt (a : IPv4Address) (o : IPv4Address) : bool := a4 o <? a4 a.
(** [types/IPAddress.h:252-252] IPv4Address::operator<=(const IPv4Address&) *)
Definition IPv4Address_le (a : IPv4Address) (o : IPv4Address) : bool := a4 a <=? a4 o.
(** [types/IPAddress.h:253-253] IPv4Address::operator>=(const IPv4Address&) *)
Definition IPv4Address_ge (a : IPv4Address) (o : IPv4Address) : bool := a4 o <=? a4 a.
(** [types/IPAddress.h:255-255] IPv4Address::operator==(const IPAddress&) *)
Definition IPv4Address_eq_IPAddress (a : IPv4Address) (o : IPAddress) : bool := a4 a =? IPAddress_v4 o.
(** [types/IPAddress.h:256-256] IPv4Address::operator!=(const IPAddress&) *)
Definition IPv4Address_ne_IPAddress (a : IPv4Address) (o : IPAddress) : bool := negb (a4 a =? IPAddress_v4 o).
(** [types/IPAddress.h:257-257] IPv4Address::operator<(const IPAddress&) *)
Definition IPv4Address_lt_IPAddress (a : IPv4Address) (o : IPAddress) : bool := a4 a <? IPAddress_v4 o.
(** [types/IPAddress.h:258-258] IPv4Address::operator>(const IPAddress&) *)
Definition IPv4Address_gt_IPAddress (a : IPv4Address) (o : IPAddress) : bool := IPAddress_v4 o <? a4 a.
(** [types/IPAddress.h:259-259] IPv4Address::operator<=(const IPAddress&) *)
Definition IPv4Address_le_IPAddress (a : IPv4Address) (o : IPAddress) : bool := a4 a <=? IPAddress_v4 o.
(** [types/IPAddress.h:260-260] IPv4Address::operator>=(const IPAddress&) *)
Definition IPv4Address_ge_IPAddress (a : IPv4Address) (o : IPAddress) : bool := IPAddress_v4 o <=? a4 a.
(** [types/IPAddress.h:262-262] IPv4Address::operator==(const Z&) *)
Definition IPv4Address_eq_Z (a : IPv4Address) (o : Z) : bool := a4 a =? o.
(** [types/IPAddress.h:263-263] IPv4Address::operator!=(const Z&) *)
Definition IPv4Address_ne_Z (a : IPv4Address) (o : Z) : bool := negb (a4 a =? o).
(** [types/IPAddress.h:264-264] IPv4Address::operator<(const Z&) *)
Definition IPv4Address_lt_Z (a : IPv4Address) (o : Z) : bool := a4 a <? o.
(** [types/IPAddress.h:265-265] IPv4Address::operator>(const Z&) *)
Definition IPv4Address_gt_Z (a : IPv4Address) (o : Z) : bool := o <? a4 a.
(** [types/IPAddress.h:266-266] IPv4Address::operator<=(const Z&) *)
Definition IPv4Address_le_Z (a : IPv4Address) (o : Z) : bool := a4 a <=? o.
(** [types/IPAddress.h:267-267] IPv4Address::operator>=(const Z&) *)
Definition IPv4Address_ge_Z (a : IPv4Address) (o : Z) : bool := o <=? a4 a.

(** ** IPv6Address *)

(** [types/IPAddress.cpp:308-310] IPv6Address::IPv6Address(__uint128_t) *)
Definition IPv6Address_u128 (a : Z) : IPv6Address := mkIPv6Address a.
(** [types/IPAddress.cpp:345-349] IPv6Address::addPrefixLen *)
Definition IPv6Address_addPrefixLen (a : IPv6Address) (len : Z) : outcome IPv6Address :=
  r ← mask_addr 128 (a6 a) len; Ret (mkIPv6Address r).
(** [types/IPAddress.cpp:312-316] IPv6Address::IPv6Address(__uint128_t, uint8_t) *)
Definition IPv6Address_u128_plen (a plen : Z) : outcome IPv6Address :=
  IPv6Address_addPrefixLen (mkIPv6Address a) plen.
(** [types/IPAddress.cpp:318-320] IPv6Address::IPv6Address(const uint8_t ptr) *)
Definition IPv6Address_bytes (p : bytes) : outcome IPv6Address :=
  x ← readU128 p; Ret (mkIPv6Address x).
(** [types/IPAddress.cpp:322-326] IPv6Address::IPv6Address(const uint8_t*, uint8_t) *)
Definition IPv6Address_bytes_plen (p : bytes) (plen : Z) : outcome IPv6Address :=
  x ← readU128 p; IPv6Address_addPrefixLen (mkIPv6Address x) plen.
(** [types/IPAddress.cpp:328-336] IPv6Address::raw *)
Definition IPv6Address_raw (a : IPv6Address) : Z := a6 a.
(** [types/IPAddress.cpp:338-343] IPv6Address::contains *)
Definition IPv6Address_contains (a ip : IPv6Address) (prefixLen : Z) : outcome bool :=
  if prefixLen =? 0 then Ret true
  else mask ← (if prefixLen =? 128 then Ret (all_ones 128)
               else shl 128 (all_ones 128) (128 - prefixLen));
       Ret (Z.land (a6 a) mask =? Z.land (a6 ip) mask).
(** [types/IPAddress.cpp:351-354] IPv6Address::isMulticast *)
Definition IPv6Address_isMulticast (a : IPv6Address) : bool := v6_multicast (a6 a).
(** [types/IPAddress.cpp:356-359] IPv6Address::isLocalLink *)
Definition IPv6Address_isLocalLink (a : IPv6Address) : bool := v6_local_link (a6 a).
(** [types/IPAddress.cpp:361-364] IPv6Address::isGlobalUnicast *)
Definition IPv6Address_isGlobalUnicast (a : IPv6Address) : bool := v6_fd (a6 a).
(** [types/IPAddress.cpp:366-369] IPv6Address::isLocalUnicast *)
Definition IPv6Address_isLocalUnicast (a : IPv6Address) : bool := v6_2000_3 (a6 a).
(** [types/IPAddress.h:320-320] IPv6Address::isUnspecified *)
Definition IPv6Address_isUnspecified (a : IPv6Address) : bool := a6 a =? 0.
(** [types/IPAddress.h:326-327] IPv6Address::operator IPAddress *)
Definition IPv6Address_to_IPAddress (a : IPv6Address) : IPAddress := IPAddress_u128 (a6 a).

(** [types/IPAddress.h:329-329] IPv6Address::operator==(const IPv6Address&) *)
Definition IPv6Address_eq (a : IPv6Address) (o : IPv6Address) : bool := a6 a =? a6 o.
(** [types/IPAddress.h:330-330] IPv6Address::operator!=(const IPv6Address&) *)
Definition IPv6Address_ne (a : IPv6Address) (o : IPv6Address) : bool := negb (a6 a =? a6 o).
(** [types/IPAddress.h:331-331] IPv6Address::operator<(const IPv6Address&) *)
Definition IPv6Address_lt (a : IPv6Address) (o : IPv6Address) : bool := a6 a <? a6 o.
(** [types/IPAddress.h:332-332] IPv6Address::operator>(const IPv6Address&) *)
Definition IPv6Address_gt (a : IPv6Address) (o : IPv6Address) : bool := a6 o <? a6 a.
(** [types/IPAddress.h:333-333] IPv6Address::operator<=(const IPv6Address&) *)
Definition IPv6Address_le (a : IPv6Address) (o : IPv6Address) : bool := a6 a <=? a6 o.
(** [types/IPAddress.h:334-334] IPv6Address::operator>=(const IPv6Address&) *)
Definition IPv6Address_ge (a : IPv6Address) (o : IPv6Address) : bool := a6 o <=? a6 a.
(** [types/IPAddress.h:336-336] IPv6Address::operator==(const IPAddress&) *)
Definition IPv6Address_eq_IPAddress (a : IPv6Address) (o : IPAddress) : bool := a6 a =? raw o.
(** [types/IPAddress.h:337-337] IPv6Address::operator!=(const IPAddress&) *)
Definition IPv6Address_ne_IPAddress (a : IPv6Address) (o : IPAddress) : bool := negb (a6 a =? raw o).
(** [types/IPAddress.h:338-338] IPv6Address::operator<(const IPAddress&) *)
Definition IPv6Address_lt_IPAddress (a : IPv6Address) (o : IPAddress) : bool := a6 a <? raw o.
(** [types/IPAddress.h:339-339] IPv6Address::operator>(const IPAddress&) *)
Definition IPv6Address_gt_IPAddress (a : IPv6Address) (o : IPAddress) : bool := raw o <? a6 a.
(** [types/IPAddress.h:340-340] IPv6Address::operator<=(const IPAddress&) *)
Definition IPv6Address_le_IPAddress (a : IPv6Address) (o : IPAddress) : bool := a6 a <=? raw o.
(** [types/IPAddress.h:341-341] IPv6Address::operator>=(const IPAddress&) *)
Definition IPv6Address_ge_IPAddress (a : IPv6Address) (o : IPAddress) : bool := raw o <=? a6 a.
(** [types/IPAddress.h:343-343] IPv6Address::operator==(const Z&) *)
Definition IPv6Address_eq_Z (a : IPv6Address) (o : Z) : bool := a6 a =? o.
(** [types/IPAddress.h:344-344] IPv6Address::operator!=(const Z&) *)
Definition IPv6Address_ne_Z (a : IPv6Address) (o : Z) : bool := negb (a6 a =? o).
(** [types/IPAddress.h:345-345] IPv6Address::operator<(const Z&) *)
Definition IPv6Address_lt_Z (a : IPv6Address) (o : Z) : bool := a6 a <? o.
(** [types/IPAddress.h:346-346] IPv6Address::operator>(const Z&) *)
Definition IPv6Address_gt_Z (a : IPv6Address) (o : Z) : bool := o <? a6 a.
(** [types/IPAddress.h:347-347] IPv6Address::operator<=(const Z&) *)
Definition IPv6Address_le_Z (a : IPv6Address) (o : Z) : bool := a6 a <=? o.
(** [types/IPAddress.h:348-348] IPv6Address::operator>=(const Z&) *)
Definition IPv6Address_ge_Z (a : IPv6Address) (o : Z) : bool := o <=? a6 a.

(** ** IPPrefix *)

(** [types/IPAddress.h:379-379] IPPrefix::isIPv4 *)
Definition IPPrefix_isIPv4 (p : IPPrefix) : bool := Z.shiftr (p_addr p) 32 =? 65535.
(** [types/IPAddress.h:383-383] IPPrefix::isIPv6 *)
Definition IPPrefix_isIPv6 (p : IPPrefix) : bool := negb (IPPrefix_isIPv4 p).
(** [types/IPAddress.h:380-380] IPPrefix::v4 *)
Definition IPPrefix_v4 (p : IPPrefix) : Z := Z.land (p_addr p) 4294967295.
(** [types/IPAddress.h:381-381] IPPrefix::setV4 *)
Definition IPPrefix_setV4 (p : IPPrefix) (ipv4 : Z) : IPPrefix :=
  mkIPPrefix (Z.lor ipv4 mapped) (p_len p).
(** [types/IPAddress.h:384-384] IPPrefix::v6 *)
Definition IPPrefix_v6 (p : IPPrefix) : Z := p_addr p.
(** [types/IPAddress.h:385-385] IPPrefix::setV6 *)
Definition IPPrefix_setV6 (p : IPPrefix) (v : Z) : IPPrefix := mkIPPrefix v (p_len p).
(** [types/IPAddress.cpp:432-446] IPPrefix::v4raw *)
Definition IPPrefix_v4raw (p : IPPrefix) : Z := u32 (p_addr p).
(** [types/IPAddress.cpp:448-456] IPPrefix::v6raw *)
Definition IPPrefix_v6raw (p : IPPrefix) : Z := p_addr p.
(** [types/IPAddress.h:408-408] IPPrefix::isUnspecified *)
Definition IPPrefix_isUnspecified (p : IPPrefix) : bool := p_addr p =? 0.
(** [types/IPAddress.h:414-416] IPPrefix::operator IPAddress *)
Definition IPPrefix_to_IPAddress (p : IPPrefix) : IPAddress := IPAddress_u128 (p_addr p).

(** [types/IPAddress.cpp:371-373] IPPrefix::IPPrefix(AddressFamily) *)
Definition IPPrefix_family (af : AddressFamily) : IPPrefix :=
  mkIPPrefix (match af with AF_IPv4 => mapped | _ => 0 end) 0.

(** [types/IPAddress.cpp:525-540] IPPrefix::addPrefixLen *)
Definition IPPrefix_addPrefixLen (p : IPPrefix) (len : Z) : outcome IPPrefix :=
  if IPPrefix_isIPv4 p then
    v4 ← mask_addr 32 (IPPrefix_v4raw p) len;
    Ret (mkIPPrefix (Z.lor v4 mapped) len)
  else
    r ← mask_addr 128 (p_addr p) len; Ret (mkIPPrefix r len).

(** [types/IPAddress.cpp:393-400] IPPrefix::IPPrefix(__uint128_t, uint8_t, bool) *)
Definition IPPrefix_u128 (ip prefix : Z) (maintainAddress : bool) : outcome IPPrefix :=
  if negb maintainAddress then IPPrefix_addPrefixLen (mkIPPrefix ip 0) prefix
  else Ret (mkIPPrefix ip prefix).
(** [types/IPAddress.cpp:384-391] IPPrefix::IPPrefix(uint32_t, uint8_t, bool) *)
Definition IPPrefix_u32 (ip prefix : Z) (maintainAddress : bool) : outcome IPPrefix :=
  if negb maintainAddress then IPPrefix_addPrefixLen (mkIPPrefix (Z.lor ip mapped) 0) prefix
  else Ret (mkIPPrefix (Z.lor ip mapped) prefix).
(** [types/IPAddress.cpp:375-382] IPPrefix::IPPrefix(const IPAddress&, uint8_t, bool) *)
Definition IPPrefix_IPAddress (ip : IPAddress) (prefix : Z) (maintainAddress : bool) : outcome IPPrefix :=
  if negb maintainAddress then IPPrefix_addPrefixLen (mkIPPrefix (raw ip) 0) prefix
  else Ret (mkIPPrefix (raw ip) prefix).
(** [types/IPAddress.cpp:402-430] IPPrefix::IPPrefix(const uint8_t*, uint8_t, AddressFamily, bool) *)
Definition IPPrefix_bytes (ip : bytes) (prefix : Z) (family : AddressFamily)
    (maintainAddress : bool) : outcome IPPrefix :=
  if maintainAddress then
    match family with
    | AF_IPv4 => x ← readU32 ip; Ret (mkIPPrefix (Z.lor x mapped) prefix)
    | _ => x ← readU128 ip; Ret (mkIPPrefix x prefix)
    end
  else
    match family with
    | AF_IPv4 =>
        x ← readBytes 32 ip (Z.to_nat ((prefix + 7) / 8 * 8));
        IPPrefix_addPrefixLen (mkIPPrefix (Z.lor x mapped) 0) prefix
    | _ =>
        x ← readBytes 128 ip (Z.to_nat ((prefix + 7) / 8 * 8));
        IPPrefix_addPrefixLen (mkIPPrefix x 0) prefix
    end.

(** [types/IPAddress.cpp:458-463] IPPrefix::getMask *)
Definition IPPrefix_getMask (p : IPPrefix) : outcome Z :=
  if p_len p =? 0 then Ret 0
  else if 32 <=? p_len p then Ret (all_ones 32)
  else shl 32 (all_ones 32) (32 - p_len p).
(** [types/IPAddress.cpp:465-476] IPPrefix::getDefaultMask *)
Definition IPPrefix_getDefaultMask (p : IPPrefix) : Z :=
  if negb (IPPrefix_isIPv4 p) then 0 else class_prefix (span_at 4 (IPPrefix_v4raw p) 0).
(** [types/IPAddress.cpp:478-490] IPPrefix::applyClassful *)
Definition IPPrefix_applyClassful (p : IPPrefix) : outcome (IPPrefix * bool) :=
  if negb (IPPrefix_isIPv4 p) then Ret (p, false)
  else
    let b := span_at 4 (IPPrefix_v4raw p) 0 in
    if b <=? 127 then q ← IPPrefix_addPrefixLen p IP_CLASS_A_PREFIX; Ret (q, true)
    else if b <=? 191 then q ← IPPrefix_addPrefixLen p IP_CLASS_B_PREFIX; Ret (q, true)
    else if b <=? 223 then q ← IPPrefix_addPrefixLen p IP_CLASS_C_PREFIX; Ret (q, true)
    else Ret (p, false).
(** [types/IPAddress.cpp:492-507] IPPrefix::contains(const IPPrefix&) *)
Definition IPPrefix_contains (p other : IPPrefix) : outcome bool :=
  if negb (Bool.eqb (IPPrefix_isIPv4 p) (IPPrefix_isIPv4 other)) then Ret false
  else if IPPrefix_isIPv4 p then
    mask ← v4Mask (p_len p);
    Ret (Z.land (IPPrefix_v4raw other) mask =? Z.land (IPPrefix_v4raw p) mask)
  else
    mask ← v6Mask (p_len p);
    Ret (Z.land (IPPrefix_v6raw other) mask =? Z.land (IPPrefix_v6raw p) mask).
(** [types/IPAddress.cpp:509-523] IPPrefix::contains(const IPAddress&) *)
Definition IPPrefix_contains_IPAddress (p : IPPrefix) (ip : IPAddress) : outcome bool :=
  if IPAddress_isIPv4 ip then
    if negb (IPPrefix_isIPv4 p) then Ret false
    else mask ← v4Mask (p_len p);
         Ret (Z.land (IPPrefix_v4raw p) mask =? Z.land (IPAddress_v4 ip) mask)
  else
    if IPPrefix_isIPv4 p then Ret false
    else mask ← v6Mask (p_len p);
         Ret (Z.land (IPPrefix_v6raw p) mask =? Z.land (IPAddress_v6 ip) mask).
(** [types/IPAddress.cpp:542-553] IPPrefix::isMulticast *)
Definition IPPrefix_isMulticast (p : IPPrefix) : bool :=
  if IPPrefix_isIPv4 p then v4_multicast (IPPrefix_v4raw p)
  else if IPPrefix_isIPv6 p then v6_multicast (p_addr p) else false.
(** [types/IPAddress.cpp:555-558] IPPrefix::isLocalLink *)
Definition IPPrefix_isLocalLink (p : IPPrefix) : bool :=
  IPPrefix_isIPv6 p && v6_local_link (p_addr p).
(** [types/IPAddress.cpp:560-563] IPPrefix::isGlobalUnicast *)
Definition IPPrefix_isGlobalUnicast (p : IPPrefix) : bool := IPPrefix_isIPv6 p && v6_fd (p_addr p).
(** [types/IPAddress.cpp:565-568] IPPrefix::isLocalUnicast *)
Definition IPPrefix_isLocalUnicast (p : IPPrefix) : bool := IPPrefix_isIPv6 p && v6_2000_3 (p_addr p).

(** [types/IPAddress.cpp:570-573] IPPrefix::operator==(const IPPrefix&) *)
Definition IPPrefix_eq (p : IPPrefix) (o : IPPrefix) : bool :=
  (p_addr p =? p_addr o) && (p_len p =? p_len o).
(** [types/IPAddress.cpp:575-578] IPPrefix::operator!=(const IPPrefix&) *)
Definition IPPrefix_ne (p : IPPrefix) (o : IPPrefix) : bool :=
  negb (p_addr p =? p_addr o) || negb (p_len p =? p_len o).
(** [types/IPAddress.cpp:580-584] IPPrefix::operator<(const IPPrefix&) *)
Definition IPPrefix_lt (p : IPPrefix) (o : IPPrefix) : bool :=
  if negb (p_addr p =? p_addr o) then p_addr p <? p_addr o else p_len p <? p_len o.
(** [types/IPAddress.cpp:586-590] IPPrefix::operator>(const IPPrefix&) *)
Definition IPPrefix_gt (p : IPPrefix) (o : IPPrefix) : bool :=
  if negb (p_addr p =? p_addr o) then p_addr o <? p_addr p else p_len o <? p_len p.
(** [types/IPAddress.cpp:592-596] IPPrefix::operator<=(const IPPrefix&) *)
Definition IPPrefix_le (p : IPPrefix) (o : IPPrefix) : bool :=
  IPPrefix_eq p o || IPPrefix_lt p o.
(** [types/IPAddress.cpp:598-602] IPPrefix::operator>=(const IPPrefix&) *)
Definition IPPrefix_ge (p : IPPrefix) (o : IPPrefix) : bool :=
  IPPrefix_eq p o || IPPrefix_gt p o.
(** [types/IPAddress.cpp:604-607] IPPrefix::operator==(const IPv4Prefix&) *)
Definition IPPrefix_eq_IPv4Prefix (p : IPPrefix) (o : IPv4Prefix) : bool :=
  (IPPrefix_v4 p =? p4_addr o) && (p_len p =? p4_len o).
(** [types/IPAddress.cpp:609-612] IPPrefix::operator!=(const IPv4Prefix&) *)
Definition IPPrefix_ne_IPv4Prefix (p : IPPrefix) (o : IPv4Prefix) : bool :=
  negb (IPPrefix_v4 p =? p4_addr o) || negb (p_len p =? p4_len o).
(** [types/IPAddress.cpp:614-618] IPPrefix::operator<(const IPv4Prefix&) *)
Definition IPPrefix_lt_IPv4Prefix (p : IPPrefix) (o : IPv4Prefix) : bool :=
  if negb (IPPrefix_v4 p =? p4_addr o) then IPPrefix_v4 p <? p4_addr o else p_len p <? p4_len o.
(** [types/IPAddress.cpp:620-624] IPPrefix::operator>(const IPv4Prefix&) *)
Definition IPPrefix_gt_IPv4Prefix (p : IPPrefix) (o : IPv4Prefix) : bool :=
  if negb (IPPrefix_v4 p =? p4_addr o) then p4_addr o <? IPPrefix_v4 p else p4_len o <? p_len p.
(** [types/IPAddress.cpp:626-630] IPPrefix::operator<=(const IPv4Prefix&) *)
Definition IPPrefix_le_IPv4Prefix (p : IPPrefix) (o : IPv4Prefix) : bool :=
  IPPrefix_eq_IPv4Prefix p o || IPPrefix_lt_IPv4Prefix p o.
(** [types/IPAddress.cpp:632-636] IPPrefix::operator>=(const IPv4Prefix&) *)
Definition IPPrefix_ge_IPv4Prefix (p : IPPrefix) (o : IPv4Prefix) : bool :=
  IPPrefix_eq_IPv4Prefix p o || IPPrefix_gt_IPv4Prefix p o.
(** [types/IPAddress.cpp:638-641] IPPrefix::operator==(const IPv6Prefix&) *)
Definition IPPrefix_eq_IPv6Prefix (p : IPPrefix) (o : IPv6Prefix) : bool :=
  (p_addr p =? p6_addr o) && (p_len p =? p6_len o).
(** [types/IPAddress.cpp:643-646] IPPrefix::operator!=(const IPv6Prefix&) *)
Definition IPPrefix_ne_IPv6Prefix (p : IPPrefix) (o : IPv6Prefix) : bool :=
  negb (p_addr p =? p6_addr o) || negb (p_len p =? p6_len o).
(** [types/IPAddress.cpp:648-652] IPPrefix::operator<(const IPv6Prefix&) *)
Definition IPPrefix_lt_IPv6Prefix (p : IPPrefix) (o : IPv6Prefix) : bool :=
  if p_addr p =? p6_addr o then p_addr p <? p6_addr o else p_len p <? p6_addr o.
(** [types/IPAddress.cpp:654-658] IPPrefix::operator>(const IPv6Prefix&) *)
Definition IPPrefix_gt_IPv6Prefix (p : IPPrefix) (o : IPv6Prefix) : bool :=
  if p_addr p =? p6_addr o then p6_addr o <? p_addr p else p6_len o <? p_len p.
(** [types/IPAddress.cpp:660-664] IPPrefix::operator<=(const IPv6Prefix&) *)
Definition IPPrefix_le_IPv6Prefix (p : IPPrefix) (o : IPv6Prefix) : bool :=
  IPPrefix_eq_IPv6Prefix p o || IPPrefix_lt_IPv6Prefix p o.
(** [types/IPAddress.cpp:666-670] IPPrefix::operator>=(const IPv6Prefix&) *)
Definition IPPrefix_ge_IPv6Prefix (p : IPPrefix) (o : IPv6Prefix) : bool :=
  IPPrefix_eq_IPv6Prefix p o || IPPrefix_gt_IPv6Prefix p o.

(** ** IPv4Prefix *)

(** [types/IPAddress.cpp:767-771] IPv4Prefix::addPrefixLen *)
Definition IPv4Prefix_addPrefixLen (p : IPv4Prefix) (len : Z) : outcome IPv4Prefix :=
  a ← mask_addr 32 (p4_addr p) len; Ret (mkIPv4Prefix a len).
(** [types/IPAddress.cpp:690-697] IPv4Prefix::IPv4Prefix(uint32_t, uint8_t, bool) *)
Definition IPv4Prefix_u32 (ip prefix : Z) (maintainAddress : bool) : outcome IPv4Prefix :=
  if negb maintainAddress then IPv4Prefix_addPrefixLen (mkIPv4Prefix ip 0) prefix
  else Ret (mkIPv4Prefix ip prefix).
(** [types/IPAddress.cpp:672-679] IPv4Prefix::IPv4Prefix(const IPAddress&, uint8_t, bool) *)
Definition IPv4Prefix_IPAddress (ip : IPAddress) (prefix : Z) (maintainAddress : bool) : outcome IPv4Prefix :=
  if negb maintainAddress then IPv4Prefix_addPrefixLen (mkIPv4Prefix (IPAddress_v4 ip) 0) prefix
  else Ret (mkIPv4Prefix (IPAddress_v4 ip) prefix).
(** [types/IPAddress.cpp:681-688] IPv4Prefix::IPv4Prefix(const IPPrefix&, bool) *)
Definition IPv4Prefix_IPPrefix (prefix : IPPrefix) (maintainAddress : bool) : outcome IPv4Prefix :=
  if negb maintainAddress then IPv4Prefix_addPrefixLen (mkIPv4Prefix (IPPrefix_v4 prefix) 0) (p_len prefix)
  else Ret (mkIPv4Prefix (IPPrefix_v4 prefix) (p_len prefix)).
(** [types/IPAddress.cpp:699-711] IPv4Prefix::IPv4Prefix(const uint8_t*, uint8_t, bool) *)
Definition IPv4Prefix_bytes (p : bytes) (prefix : Z) (maintainAddress : bool) : outcome IPv4Prefix :=
  if maintainAddress then x ← readU32 p; Ret (mkIPv4Prefix x prefix)
  else x ← readBytes 32 p (Z.to_nat ((prefix + 7) / 8 * 8));
       IPv4Prefix_addPrefixLen (mkIPv4Prefix x 0) prefix.
(** [types/IPAddress.cpp:713-721] IPv4Prefix::raw *)
Definition IPv4Prefix_raw (p : IPv4Prefix) : Z := p4_addr p.
(** [types/IPAddress.cpp:723-728] IPv4Prefix::getMask *)
Definition IPv4Prefix_getMask (p : IPv4Prefix) : outcome Z :=
  if p4_len p =? 0 then Ret 0
  else if 32 <=? p4_len p then Ret (all_ones 32)
  else shl 32 (all_ones 32) (32 - p4_len p).
(** [types/IPAddress.cpp:730-740] IPv4Prefix::getDefaultMask *)
Definition IPv4Prefix_getDefaultMask (p : IPv4Prefix) : Z :=
  class_prefix (span_at 4 (IPv4Prefix_raw p) 0).
(** [types/IPAddress.cpp:742-753] IPv4Prefix::applyClassful *)
Definition IPv4Prefix_applyClassful (p : IPv4Prefix) : outcome (IPv4Prefix * bool) :=
  let b := span_at 4 (IPv4Prefix_raw p) 0 in
  if b <=? 127 then q ← IPv4Prefix_addPrefixLen p IP_CLASS_A_PREFIX; Ret (q, true)
  else if b <=? 191 then q ← IPv4Prefix_addPrefixLen p IP_CLASS_B_PREFIX; Ret (q, true)
  else if b <=? 223 then q ← IPv4Prefix_addPrefixLen p IP_CLASS_C_PREFIX; Ret (q, true)
  else Ret (p, false).
(** [types/IPAddress.cpp:755-759] IPv4Prefix::contains(IPv4Prefix) *)
Definition IPv4Prefix_contains (p other : IPv4Prefix) : outcome bool :=
  mask ← v4Mask (p4_len p);
  Ret (Z.land (p4_addr other) mask =? Z.land (p4_addr p) mask).
(** [types/IPAddress.cpp:761-765] IPv4Prefix::contains(IPv4Address) *)
Definition IPv4Prefix_contains_IPv4Address (p : IPv4Prefix) (ip : IPv4Address) : outcome bool :=
  mask ← v4Mask (p4_len p);
  Ret (Z.land (p4_addr p) mask =? Z.land (a4 ip) mask).
(** [types/IPAddress.cpp:773-776] IPv4Prefix::isMulticast *)
Definition IPv4Prefix_isMulticast (p : IPv4Prefix) : bool := v4_multicast (p4_addr p).
(** [types/IPAddress.h:502-502] IPv4Prefix::isUnspecified *)
Definition IPv4Prefix_isUnspecified (p : IPv4Prefix) : bool := p4_addr p =? 0.

(** [types/IPAddress.cpp:778-781] IPv4Prefix::operator==(const IPv4Prefix&) *)
Definition IPv4Prefix_eq (p : IPv4Prefix) (o : IPv4Prefix) : bool :=
  (p4_addr p =? p4_addr o) && (p4_len p =? p4_len o).
(** [types/IPAddress.cpp:783-786] IPv4Prefix::operator!=(const IPv4Prefix&) *)
Definition IPv4Prefix_ne (p : IPv4Prefix) (o : IPv4Prefix) : bool :=
  negb (p4_addr p =? p4_addr o) || negb (p4_len p =? p4_len o).
(** [types/IPAddress.cpp:788-792] IPv4Prefix::operator<(const IPv4Prefix&) *)
Definition IPv4Prefix_lt (p : IPv4Prefix) (o : IPv4Prefix) : bool :=
  if negb (p4_addr p =? p4_addr o) then p4_addr p <? p4_addr o else p4_len p <? p4_len o.
(** [types/IPAddress.cpp:794-798] IPv4Prefix::operator>(const IPv4Prefix&) *)
Definition IPv4Prefix_gt (p : IPv4Prefix) (o : IPv4Prefix) : bool :=
  if negb (p4_addr p =? p4_addr o) then p4_addr o <? p4_addr p else p4_len o <? p4_len p.
(** [types/IPAddress.cpp:800-804] IPv4Prefix::operator<=(const IPv4Prefix&) *)
Definition IPv4Prefix_le (p : IPv4Prefix) (o : IPv4Prefix) : bool :=
  IPv4Prefix_eq p o || IPv4Prefix_lt p o.
(** [types/IPAddress.cpp:806-810] IPv4Prefix::operator>=(const IPv4Prefix&) *)
Definition IPv4Prefix_ge (p : IPv4Prefix) (o : IPv4Prefix) : bool :=
  IPv4Prefix_eq p o || IPv4Prefix_gt p o.
(** [types/IPAddress.cpp:812-815] IPv4Prefix::operator==(const IPPrefix&) *)
Definition IPv4Prefix_eq_IPPrefix (p : IPv4Prefix) (o : IPPrefix) : bool :=
  (p4_addr p =? IPPrefix_v4 o) && (p4_len p =? p_len o).
(** [types/IPAddress.cpp:817-820] IPv4Prefix::operator!=(const IPPrefix&) *)
Definition IPv4Prefix_ne_IPPrefix (p : IPv4Prefix) (o : IPPrefix) : bool :=
  negb (p4_addr p =? IPPrefix_v4 o) || negb (p4_len p =? p_len o).
(** [types/IPAddress.cpp:822-826] IPv4Prefix::operator<(const IPPrefix&) *)
Definition IPv4Prefix_lt_IPPrefix (p : IPv4Prefix) (o : IPPrefix) : bool :=
  if negb (p4_addr p =? IPPrefix_v4 o) then p4_addr p <? IPPrefix_v4 o else p4_len p <? p_len o.
(** [types/IPAddress.cpp:828-832] IPv4Prefix::operator>(const IPPrefix&) *)
Definition IPv4Prefix_gt_IPPrefix (p : IPv4Prefix) (o : IPPrefix) : bool :=
  if negb (p4_addr p =? IPPrefix_v4 o) then IPPrefix_v4 o <? p4_addr p else p_len o <? p4_len p.
(** [types/IPAddress.cpp:834-838] IPv4Prefix::operator<=(const IPPrefix&) *)
Definition IPv4Prefix_le_IPPrefix (p : IPv4Prefix) (o : IPPrefix) : bool :=
  IPv4Prefix_eq_IPPrefix p o || IPv4Prefix_lt_IPPrefix p o.
(** [types/IPAddress.cpp:840-844] IPv4Prefix::operator>=(const IPPrefix&) *)
Definition IPv4Prefix_ge_IPPrefix (p : IPv4Prefix) (o : IPPrefix) : bool :=
  IPv4Prefix_eq_IPPrefix p o || IPv4Prefix_gt_IPPrefix p o.

(** ** IPv6Prefix *)

(** [types/IPAddress.cpp:911-915] IPv6Prefix::addPrefixLen: masks the address
    and leaves [prefixLength] as it was. *)
Definition IPv6Prefix_addPrefixLen (p : IPv6Prefix) (len : Z) : outcome IPv6Prefix :=
  a ← mask_addr 128 (p6_addr p) len; Ret (mkIPv6Prefix a (p6_len p)).
(** [types/IPAddress.cpp:864-871] IPv6Prefix::IPv6Prefix(__uint128_t, uint8_t, bool) *)
Definition IPv6Prefix_u128 (ip prefix : Z) (maintainAddress : bool) : outcome IPv6Prefix :=
  if maintainAddress then Ret (mkIPv6Prefix ip prefix)
  else IPv6Prefix_addPrefixLen (mkIPv6Prefix ip 0) prefix.
(** [types/IPAddress.cpp:855-862] IPv6Prefix::IPv6Prefix(const IPAddress&, uint8_t, bool) *)
Definition IPv6Prefix_IPAddress (ip : IPAddress) (prefix : Z) (maintainAddress : bool) : outcome IPv6Prefix :=
  if negb maintainAddress then IPv6Prefix_addPrefixLen (mkIPv6Prefix (raw ip) 0) prefix
  else Ret (mkIPv6Prefix (raw ip) prefix).
(** [types/IPAddress.cpp:846-853] IPv6Prefix::IPv6Prefix(const IPPrefix&, bool) *)
Definition IPv6Prefix_IPPrefix (prefix : IPPrefix) (maintainAddress : bool) : outcome IPv6Prefix :=
  if negb maintainAddress then IPv6Prefix_addPrefixLen (mkIPv6Prefix (IPPrefix_v6 prefix) 0) (p_len prefix)
  else Ret (mkIPv6Prefix (IPPrefix_v6 prefix) (p_len prefix)).
(** [types/IPAddress.cpp:873-885] IPv6Prefix::IPv6Prefix(const uint8_t*, uint8_t, bool) *)
Definition IPv6Prefix_bytes (p : bytes) (prefix : Z) (maintainAddress : bool) : outcome IPv6Prefix :=
  if maintainAddress then x ← readU128 p; Ret (mkIPv6Prefix x prefix)
  else x ← readBytes 128 p (Z.to_nat ((prefix + 7) / 8 * 8));
       IPv6Prefix_addPrefixLen (mkIPv6Prefix x 0) prefix.
(** [types/IPAddress.cpp:887-895] IPv6Prefix::raw *)
Definition IPv6Prefix_raw (p : IPv6Prefix) : Z := p6_addr p.
(** [types/IPAddress.cpp:897-902] IPv6Prefix::contains(const IPv6Prefix&) *)
Definition IPv6Prefix_contains (p other : IPv6Prefix) : outcome bool :=
  if p6_len p =? 0 then Ret true
  else mask ← (if p6_len p =? 128 then Ret (all_ones 128)
               else shl 128 (all_ones 128) (128 - p6_len p));
       Ret (Z.land (p6_addr p) mask =? Z.land (p6_addr other) mask).
(** [types/IPAddress.cpp:904-909] IPv6Prefix::contains(const IPv6Address&) *)
Definition IPv6Prefix_contains_IPv6Address (p : IPv6Prefix) (ip : IPv6Address) : outcome bool :=
  if p6_len p =? 0 then Ret true
  else mask ← (if p6_len p =? 128 then Ret (all_ones 128)
               else shl 128 (all_ones 128) (128 - p6_len p));
       Ret (Z.land (p6_addr p) mask =? Z.land (a6 ip) mask).
(** [types/IPAddress.cpp:917-920] IPv6Prefix::isMulticast *)
Definition IPv6Prefix_isMulticast (p : IPv6Prefix) : bool := v6_multicast (p6_addr p).
(** [types/IPAddress.cpp:922-925] IPv6Prefix::isLocalLink *)
Definition IPv6Prefix_isLocalLink (p : IPv6Prefix) : bool := v6_local_link (p6_addr p).
(** [types/IPAddress.cpp:927-930] IPv6Prefix::isGlobalUnicast *)
Definition IPv6Prefix_isGlobalUnicast (p : IPv6Prefix) : bool := v6_fd (p6_addr p).
(** [types/IPAddress.cpp:932-935] IPv6Prefix::isLocalUnicast *)
Definition IPv6Prefix_isLocalUnicast (p : IPv6Prefix) : bool := v6_2000_3 (p6_addr p).

(** [types/IPAddress.cpp:937-940] IPv6Prefix::operator==(const IPv6Prefix&) *)
Definition IPv6Prefix_eq (p : IPv6Prefix) (o : IPv6Prefix) : bool :=
  (p6_addr p =? p6_addr o) && (p6_len p =? p6_len o).
(** [types/IPAddress.cpp:942-945] IPv6Prefix::operator!=(const IPv6Prefix&) *)
Definition IPv6Prefix_ne (p : IPv6Prefix) (o : IPv6Prefix) : bool :=
  negb (p6_addr p =? p6_addr o) || negb (p6_len p =? p6_len o).
(** [types/IPAddress.cpp:947-951] IPv6Prefix::operator<(const IPv6Prefix&) *)
Definition IPv6Prefix_lt (p : IPv6Prefix) (o : IPv6Prefix) : bool :=
  if negb (p6_addr p =? p6_addr o) then p6_addr p <? p6_addr o else p6_len p <? p6_len o.
(** [types/IPAddress.cpp:953-957] IPv6Prefix::operator>(const IPv6Prefix&) *)
Definition IPv6Prefix_gt (p : IPv6Prefix) (o : IPv6Prefix) : bool :=
  if negb (p6_addr p =? p6_addr o) then p6_addr o <? p6_addr p else p6_len o <? p6_len p.
(** [types/IPAddress.cpp:959-963] IPv6Prefix::operator<=(const IPv6Prefix&) *)
Definition IPv6Prefix_le (p : IPv6Prefix) (o : IPv6Prefix) : bool :=
  IPv6Prefix_eq p o || IPv6Prefix_lt p o.
(** [types/IPAddress.cpp:965-969] IPv6Prefix::operator>=(const IPv6Prefix&) *)
Definition IPv6Prefix_ge (p : IPv6Prefix) (o : IPv6Prefix) : bool :=
  IPv6Prefix_eq p o || IPv6Prefix_gt p o.
(** [types/IPAddress.cpp:971-974] IPv6Prefix::operator==(const IPPrefix&) *)
Definition IPv6Prefix_eq_IPPrefix (p : IPv6Prefix) (o : IPPrefix) : bool :=
  (p6_addr p =? p_addr o) && (p6_len p =? p_len o).
(** [types/IPAddress.cpp:976-979] IPv6Prefix::operator!=(const IPPrefix&) *)
Definition IPv6Prefix_ne_IPPrefix (p : IPv6Prefix) (o : IPPrefix) : bool :=
  negb (p6_addr p =? p_addr o) || negb (p6_len p =? p_len o).
(** [types/IPAddress.cpp:981-985] IPv6Prefix::operator<(const IPPrefix&) *)
Definition IPv6Prefix_lt_IPPrefix (p : IPv6Prefix) (o : IPPrefix) : bool :=
  if negb (p6_addr p =? p_addr o) then p6_addr p <? p_addr o else p6_len p <? p_len o.
(** [types/IPAddress.cpp:987-991] IPv6Prefix::operator>(const IPPrefix&) *)
Definition IPv6Prefix_gt_IPPrefix (p : IPv6Prefix) (o : IPPrefix) : bool :=
  if negb (p6_addr p =? p_addr o) then p_addr o <? p6_addr p else p_len o <? p6_len p.
(** [types/IPAddress.cpp:993-997] IPv6Prefix::operator<=(const IPPrefix&) *)
Definition IPv6Prefix_le_IPPrefix (p : IPv6Prefix) (o : IPPrefix) : bool :=
  IPv6Prefix_eq_IPPrefix p o || IPv6Prefix_lt_IPPrefix p o.
(** [types/IPAddress.cpp:999-1003] IPv6Prefix::operator>=(const IPPrefix&) *)
Definition IPv6Prefix_ge_IPPrefix (p : IPv6Prefix) (o : IPPrefix) : bool :=
  IPv6Prefix_eq_IPPrefix p o || IPv6Prefix_gt_IPPrefix p o.

(** ** Masks *)

Lemma top_mask_0 w : top_mask w 0 = 0.
Proof. unfold top_mask. rewrite Z.sub_0_r. lia. Qed.

Lemma v4Mask_spec len : 0 <= len <= 32 -> v4Mask len = Ret (top_mask 32 len).
Proof.
  intros H. unfold v4Mask. destruct (Z.eqb_spec len 0) as [->|].
  - rewrite top_mask_0. done.
  - rewrite shl_ret, shl_all_ones by lia. done.
Qed.

Lemma v6Mask_spec len : 0 <= len <= 128 -> v6Mask len = Ret (top_mask 128 len).
Proof.
  intros H. unfold v6Mask. destruct (Z.eqb_spec len 0) as [->|].
  - rewrite top_mask_0. done.
  - rewrite shl_ret, shl_all_ones by lia. done.
Qed.

Lemma v4Mask_ub len : 32 < len -> v4Mask len = UB.
Proof. intros. unfold v4Mask. rewrite (proj2 (Z.eqb_neq _ _)), shl_ub by lia. done. Qed.

Lemma v6Mask_ub len : 128 < len -> v6Mask len = UB.
Proof. intros. unfold v6Mask. rewrite (proj2 (Z.eqb_neq _ _)), shl_ub by lia. done. Qed.

Lemma mask_addr_spec w a len :
  0 <= len <= w -> in_width w a ->
  mask_addr w a len = Ret (a / 2 ^ (w - len) * 2 ^ (w - len)).
Proof.
  intros H Ha. unfold mask_addr. destruct (Z.eqb_spec len 0) as [->|].
  - rewrite Z.sub_0_r, Z.div_small by exact Ha. done.
  - rewrite shl_ret, shl_all_ones, outcome_bind_ret_l, land_top_mask by (done || lia). done.
Qed.

Lemma mask_addr_ub w a len : w < len -> 0 <= w -> mask_addr w a len = UB.
Proof. intros. unfold mask_addr. rewrite (proj2 (Z.eqb_neq _ _)), shl_ub by lia. done. Qed.

(** Rounding down to a multiple of [2 ^ k]. *)
Lemma round_down_bounds x k : 0 <= k -> 0 <= x -> 0 <= x / 2 ^ k * 2 ^ k <= x.
Proof.
  intros Hk Hx. pose proof (Z.pow_pos_nonneg 2 k ltac:(lia) Hk).
  pose proof (Z.mul_div_le x (2 ^ k) ltac:(lia)). pose proof (Z.div_pos x (2 ^ k) Hx ltac:(lia)).
  nia.
Qed.

Lemma round_down_div x k : 0 <= k -> (x / 2 ^ k * 2 ^ k) / 2 ^ k = x / 2 ^ k.
Proof. intros. apply Z.div_mul. apply Z.pow_nonzero; lia. Qed.

(** ** The IPv4-mapped encoding *)

Definition IPAddress_wf (a : IPAddress) : Prop := in_width 128 (raw a).

#[export] Instance IPAddress_wf_dec a : Decision (IPAddress_wf a).
Proof. unfold IPAddress_wf; apply _. Defined.

(** A dual-stack word is IPv4 exactly when it is [0xFFFF * 2^32 + x] with a
    32-bit [x]. *)
Lemma mapped_add x : in_width 32 x -> Z.lor x mapped = 65535 * 2 ^ 32 + x.
Proof. intros. unfold mapped. rewrite Z.lor_comm. apply lor_shiftl_add; [lia|done]. Qed.

Lemma isIPv4_iff r : Z.shiftr r 32 = 65535 <-> r = 65535 * 2 ^ 32 + r mod 2 ^ 32.
Proof.
  rewrite Z.shiftr_div_pow2 by lia. pose proof (Z.div_mod r (2 ^ 32) ltac:(lia)).
  pose proof (Z.mod_pos_bound r (2 ^ 32) ltac:(lia)). split; intros; nia.
Qed.

Lemma land_low32 r : Z.land r 4294967295 = u32 r.
Proof. change 4294967295 with (Z.ones 32). apply Z.land_ones. lia. Qed.

Lemma mapped_isIPv4 x : in_width 32 x -> (Z.shiftr (Z.lor x mapped) 32 =? 65535) = true.
Proof.
  intros Hx. rewrite mapped_add by done. apply Z.eqb_eq, isIPv4_iff.
  rewrite (Z.add_comm (65535 * 2 ^ 32)), Z.mod_add, (Z.mod_small x) by (lia || apply Hx). lia.
Qed.

Lemma mapped_low32 x : in_width 32 x -> u32 (Z.lor x mapped) = x.
Proof.
  intros Hx. rewrite mapped_add by done. unfold wrap.
  rewrite (Z.add_comm (65535 * 2 ^ 32)), Z.mod_add, (Z.mod_small x) by (lia || apply Hx). lia.
Qed.

Lemma mapped_in_width x : in_width 32 x -> in_width 128 (Z.lor x mapped).
Proof. intros Hx. rewrite mapped_add by done. destruct Hx. unfold in_width. lia. Qed.

Lemma mapped_of_isIPv4 r : (Z.shiftr r 32 =? 65535) = true -> Z.lor (u32 r) mapped = r.
Proof.
  intros H. apply Z.eqb_eq, isIPv4_iff in H.
  rewrite mapped_add by (apply wrap_in_width; lia). unfold wrap. lia.
Qed.

(** Storing an IPv4 address in a dual-stack address and reading it back gives
    the address, tagged IPv4; every IPv4-tagged address arises this way from
    exactly one 32-bit value, and [setV4] and the constructor agree. *)
Theorem IPAddress_v4_roundtrip (x : Z) (a : IPAddress) :
  in_width 32 x -> IPAddress_wf a ->
  IPAddress_isIPv4 (IPAddress_u32 x) = true /\ IPAddress_v4 (IPAddress_u32 x) = x /\
  IPAddress_setV4 x = IPAddress_u32 x /\ IPAddress_wf (IPAddress_u32 x) /\
  (IPAddress_isIPv4 a = true <-> a = IPAddress_u32 (IPAddress_v4 a)).
Proof.
  intros Hx Ha. unfold IPAddress_isIPv4, IPAddress_v4, IPAddress_u32, IPAddress_wf. cbn [raw].
  rewrite !land_low32. split_all.
  - apply mapped_isIPv4. done.
  - apply mapped_low32. done.
  - done.
  - apply mapped_in_width. done.
  - split; intros H.
    + destruct a as [r]. cbn [raw] in *. f_equal. symmetry. apply mapped_of_isIPv4. done.
    + rewrite H. cbn [raw]. apply mapped_isIPv4, wrap_in_width. lia.
Qed.

Lemma IPAddress_v4_roundtrip_witness :
  (in_width 32 3232235777 /\ IPAddress_wf (mkIPAddress (2 ^ 125))) /\
  IPAddress_v4 (IPAddress_u32 3232235777) = 3232235777.
Proof.
  assert (H1 : in_width 32 3232235777) by (split; lia).
  assert (H2 : IPAddress_wf (mkIPAddress (2 ^ 125))) by by_compute.
  split; [done|]. exact (proj1 (proj2 (IPAddress_v4_roundtrip _ _ H1 H2))).
Defined.

(** ** Containment *)

(** The width and the significant bits of a dual-stack word. *)
Definition fam_width (r : Z) : Z := if Z.shiftr r 32 =? 65535 then 32 else 128.
Definition fam_bits (r : Z) : Z := if Z.shiftr r 32 =? 65535 then u32 r else r.

(** Two dual-stack words are in one family and agree on their top [len] bits. *)
Definition covers (r s len : Z) : Prop :=
  fam_width r = fam_width s /\
  fam_bits r / 2 ^ (fam_width r - len) = fam_bits s / 2 ^ (fam_width r - len).

Lemma fam_width_cases r : fam_width r = 32 \/ fam_width r = 128.
Proof. unfold fam_width. case_match; auto. Qed.

Lemma fam_bits_in_width r : in_width 128 r -> in_width (fam_width r) (fam_bits r).
Proof.
  intros. unfold fam_width, fam_bits. case_match; [apply wrap_in_width; lia | done].
Qed.

(** The common shape of the dual-stack [contains] tests. *)
Lemma contains_core r s len :
  in_width 128 r -> in_width 128 s -> 0 <= len ->
  let c := (if Z.shiftr s 32 =? 65535 then
              if negb (Z.shiftr r 32 =? 65535) then Ret false
              else mask ← v4Mask len; Ret (Z.land (u32 r) mask =? Z.land (u32 s) mask)
            else if Z.shiftr r 32 =? 65535 then Ret false
            else mask ← v6Mask len; Ret (Z.land r mask =? Z.land s mask)) in
  (fam_width r = fam_width s -> len <= fam_width r ->
    exists b, c = Ret b /\ (b = true <-> covers r s len)) /\
  (fam_width r = fam_width s -> fam_width r < len -> c = UB) /\
  (fam_width r <> fam_width s -> c = Ret false).
Proof.
  intros Hr Hs Hlen c. subst c. unfold covers, fam_width, fam_bits.
  destruct (Z.shiftr s 32 =? 65535), (Z.shiftr r 32 =? 65535); cbn [negb];
    repeat split; try (intros; lia); try done.
  - intros _ Hl. rewrite v4Mask_spec, outcome_bind_ret_l by lia. eexists; split; [done|].
    rewrite Z.eqb_eq, land_top_mask_eq by (lia || (apply wrap_in_width; lia)). tauto.
  - intros _ Hl. rewrite v4Mask_ub by lia. done.
  - intros _ Hl. rewrite v6Mask_spec, outcome_bind_ret_l by lia. eexists; split; [done|].
    rewrite Z.eqb_eq, land_top_mask_eq by (lia || done). tauto.
  - intros _ Hl. rewrite v6Mask_ub by lia. done.
Qed.

(** [IPAddress::contains] decides, for a prefix length up to the family's
    width, whether the two addresses are of one family and agree on their
    leading [len] bits; addresses of different families are never contained;
    a longer prefix length is an undefined shift. *)
Theorem IPAddress_contains_spec (a ip : IPAddress) (len : Z) :
  IPAddress_wf a -> IPAddress_wf ip -> 0 <= len ->
  (fam_width (raw a) = fam_width (raw ip) -> len <= fam_width (raw a) ->
    exists b, IPAddress_contains a ip len = Ret b /\ (b = true <-> covers (raw a) (raw ip) len)) /\
  (fam_width (raw a) = fam_width (raw ip) -> fam_width (raw a) < len ->
    IPAddress_contains a ip len = UB) /\
  (fam_width (raw a) <> fam_width (raw ip) -> IPAddress_contains a ip len = Ret false).
Proof.
  intros Ha Hi Hlen. pose proof (contains_core (raw a) (raw ip) len Ha Hi Hlen) as H.
  unfold IPAddress_contains, IPAddress_isIPv4, IPAddress_v4raw, IPAddress_v4,
    IPAddress_v6raw, IPAddress_v6.
  rewrite land_low32. exact H.
Qed.

Lemma IPAddress_contains_spec_witness :
  let a := IPAddress_u32 167772160 in let ip := IPAddress_u32 167837962 in
  (IPAddress_wf a /\ IPAddress_wf ip /\ 0 <= 8) /\
  exists b, IPAddress_contains a ip 8 = Ret b /\ (b = true <-> covers (raw a) (raw ip) 8).
Proof.
  assert (H1 : IPAddress_wf (IPAddress_u32 167772160)) by by_compute.
  assert (H2 : IPAddress_wf (IPAddress_u32 167837962)) by by_compute.
  split; [split_all; [done | done | lia]|].
  exact (proj1 (IPAddress_contains_spec _ _ 8 H1 H2 ltac:(lia)) eq_refl ltac:(vm_compute; discriminate)).
Defined.

(** ** Prefixes *)

Definition IPPrefix_wf (p : IPPrefix) : Prop :=
  in_width 128 (p_addr p) /\ 0 <= p_len p <= fam_width (p_addr p).

#[export] Instance IPPrefix_wf_dec p : Decision (IPPrefix_wf p).
Proof. unfold IPPrefix_wf; apply _. Defined.

(** A prefix without host bits: what the constructors store. *)
Definition IPPrefix_canonical (p : IPPrefix) : Prop :=
  IPPrefix_wf p /\
  fam_bits (p_addr p) mod 2 ^ (fam_width (p_addr p) - p_len p) = 0.

#[export] Instance IPPrefix_canonical_dec p : Decision (IPPrefix_canonical p).
Proof. unfold IPPrefix_canonical; apply _. Defined.

(** A dual-stack word is determined by its family and significant bits. *)
Lemma fam_inj r s :
  in_width 128 r -> in_width 128 s ->
  fam_width r = fam_width s -> fam_bits r = fam_bits s -> r = s.
Proof.
  intros Hr Hs. unfold fam_width, fam_bits.
  destruct (Z.shiftr r 32 =? 65535) eqn:Er, (Z.shiftr s 32 =? 65535) eqn:Es; try done.
  intros _ H. rewrite <- (mapped_of_isIPv4 r), <- (mapped_of_isIPv4 s), H by done. done.
Qed.

(** Rounding an IPv6 word down never lands in the IPv4-mapped block. *)
Lemma round_down_not_mapped r k :
  0 <= k -> (Z.shiftr r 32 =? 65535) = false ->
  (Z.shiftr (r / 2 ^ k * 2 ^ k) 32 =? 65535) = false.
Proof.
  intros Hk Hr. apply Z.eqb_neq in Hr. apply Z.eqb_neq. intros H. apply Hr.
  rewrite <- (Z.shiftr_div_pow2 r k) in H by done. rewrite <- Z.shiftl_mul_pow2 in H by done.
  assert (Hb : forall i, 0 <= i -> Z.testbit (Z.shiftl (Z.shiftr r k) k) i =
                        (k <=? i) && Z.testbit r i).
  { intros i Hi. rewrite Z.shiftl_spec by done. destruct (Z.leb_spec k i); simpl.
    - rewrite Z.shiftr_spec by lia. f_equal. lia.
    - apply Z.testbit_neg_r. lia. }
  assert (Hk32 : k <= 32).
  { assert (H0 : Z.testbit 65535 0 = true) by done. rewrite <- H in H0.
    rewrite Z.shiftr_spec, Hb in H0 by lia. zbools. lia. }
  rewrite <- H. apply Z.bits_inj'. intros i Hi.
  rewrite !Z.shiftr_spec, Hb by lia. rewrite (proj2 (Z.leb_le _ _)) by lia. done.
Qed.

Lemma fam_v4 r : (Z.shiftr r 32 =? 65535) = true -> fam_width r = 32 /\ fam_bits r = u32 r.
Proof. intros H. unfold fam_width, fam_bits. rewrite H. done. Qed.

Lemma fam_v6 r : (Z.shiftr r 32 =? 65535) = false -> fam_width r = 128 /\ fam_bits r = r.
Proof. intros H. unfold fam_width, fam_bits. rewrite H. done. Qed.

Lemma round_down_in_width w x k : 0 <= k -> in_width w x -> in_width w (x / 2 ^ k * 2 ^ k).
Proof.
  intros Hk [H1 H2]. pose proof (round_down_bounds x k Hk H1). unfold in_width. lia.
Qed.

(** The masking step shared by the dual-stack [addPrefixLen]s: it keeps the
    family, clears exactly the host bits, and is undefined for a length beyond
    the family's width. *)
Lemma fam_mask_spec r len :
  in_width 128 r -> 0 <= len ->
  let res := (if Z.shiftr r 32 =? 65535
              then v4 ← mask_addr 32 (u32 r) len; Ret (Z.lor v4 mapped)
              else mask_addr 128 r len) in
  (len <= fam_width r ->
    exists s, res = Ret s /\ in_width 128 s /\ fam_width s = fam_width r /\
      fam_bits s = fam_bits r / 2 ^ (fam_width r - len) * 2 ^ (fam_width r - len)) /\
  (fam_width r < len -> res = UB).
Proof.
  intros Hr Hlen res. subst res. destruct (Z.shiftr r 32 =? 65535) eqn:Er.
  - destruct (fam_v4 r Er) as [-> ->].
    assert (Hu : in_width 32 (u32 r)) by (apply wrap_in_width; lia).
    split; intros Hl; [|rewrite mask_addr_ub by lia; done].
    rewrite mask_addr_spec, outcome_bind_ret_l by (done || lia).
    assert (Hm := round_down_in_width 32 (u32 r) (32 - len) ltac:(lia) Hu).
    eexists; split; [done|].
    destruct (fam_v4 _ (mapped_isIPv4 _ Hm)) as [-> ->]. rewrite mapped_low32 by done.
    split; [apply mapped_in_width; done | done].
  - destruct (fam_v6 r Er) as [-> ->].
    split; intros Hl; [|rewrite mask_addr_ub by lia; done].
    rewrite mask_addr_spec by (done || lia).
    assert (Hm := round_down_in_width 128 r (128 - len) ltac:(lia) Hr).
    eexists; split; [done|].
    destruct (fam_v6 _ (round_down_not_mapped r (128 - len) ltac:(lia) Er)) as [-> ->].
    done.
Qed.

Lemma IPPrefix_addPrefixLen_spec p len :
  in_width 128 (p_addr p) -> 0 <= len ->
  (len <= fam_width (p_addr p) ->
    exists q, IPPrefix_addPrefixLen p len = Ret q /\ IPPrefix_canonical q /\ p_len q = len /\
      fam_width (p_addr q) = fam_width (p_addr p) /\
      fam_bits (p_addr q) =
        fam_bits (p_addr p) / 2 ^ (fam_width (p_addr p) - len) * 2 ^ (fam_width (p_addr p) - len)) /\
  (fam_width (p_addr p) < len -> IPPrefix_addPrefixLen p len = UB).
Proof.
  intros Hp Hlen. destruct (fam_mask_spec (p_addr p) len Hp Hlen) as [H1 H2].
  assert (E : IPPrefix_addPrefixLen p len =
    (s ← (if Z.shiftr (p_addr p) 32 =? 65535
          then v4 ← mask_addr 32 (u32 (p_addr p)) len; Ret (Z.lor v4 mapped)
          else mask_addr 128 (p_addr p) len); Ret (mkIPPrefix s len))).
  { unfold IPPrefix_addPrefixLen, IPPrefix_isIPv4, IPPrefix_v4raw.
    destruct (Z.shiftr (p_addr p) 32 =? 65535); [|done].
    destruct (mask_addr 32 (u32 (p_addr p)) len); done. }
  rewrite E. split; intros Hl.
  - destruct (H1 Hl) as (s & -> & Hs & Hw & Hbits). eexists; split; [done|].
    unfold IPPrefix_canonical, IPPrefix_wf. cbn [p_addr p_len]. rewrite Hw, Hbits.
    split_all; try done. apply Z.mod_mul. apply Z.pow_nonzero; lia.
  - rewrite (H2 Hl). done.
Qed.

(** C30: The prefix constructors without [maintainAddress] build the canonical
    prefix of the given length that covers the given address, in the
    address's family; building it again from its own address changes nothing;
    a length beyond the width is undefined. *)
Theorem IPPrefix_constructor_canonical (ip : IPAddress) (len : Z) :
  IPAddress_wf ip -> 0 <= len ->
  (len <= fam_width (raw ip) ->
    exists q, IPPrefix_IPAddress ip len false = Ret q /\ IPPrefix_canonical q /\ p_len q = len /\
      IPPrefix_contains_IPAddress q ip = Ret true /\ IPPrefix_addPrefixLen q len = Ret q) /\
  (fam_width (raw ip) < len -> IPPrefix_IPAddress ip len false = UB).
Proof.
  intros Hip Hlen. unfold IPPrefix_IPAddress. cbn [negb].
  destruct (IPPrefix_addPrefixLen_spec (mkIPPrefix (raw ip) 0) len Hip Hlen) as [H1 H2].
  cbn [p_addr] in *. split; [intros Hl | exact H2].
  destruct (H1 Hl) as (q & Hq & Hcan & Hlq & Hwq & Hbq). exists q.
  assert (Hqw : in_width 128 (p_addr q)) by apply Hcan.
  split; [done|]. split; [done|]. split; [done|]. split.
  - destruct (contains_core (p_addr q) (raw ip) len Hqw Hip Hlen) as (Hc & _ & _).
    destruct (Hc Hwq ltac:(lia)) as (b & Hb & Hiff).
    unfold IPPrefix_contains_IPAddress, IPAddress_isIPv4, IPPrefix_isIPv4, IPPrefix_v4raw,
      IPAddress_v4, IPPrefix_v6raw, IPAddress_v6. rewrite Hlq, land_low32. rewrite Hb. f_equal.
    apply Hiff. split; [done|]. rewrite Hwq, Hbq. apply round_down_div. lia.
  - destruct (IPPrefix_addPrefixLen_spec q len Hqw Hlen) as [H3 _].
    destruct H3 as (q2 & Hq2 & Hcan2 & Hl2 & Hw2 & Hb2); [lia|]. rewrite Hq2. f_equal.
    rewrite Hwq in Hb2. rewrite Hbq in Hb2. rewrite round_down_div in Hb2 by lia.
    rewrite <- Hbq in Hb2. destruct q as [qa ql], q2 as [qa2 ql2]. cbn [p_addr p_len] in *.
    f_equal; [|congruence]. apply fam_inj; try done. apply Hcan2.
Qed.

Lemma IPPrefix_constructor_canonical_witness :
  let ip := IPAddress_u32 167838211 in
  (IPAddress_wf ip /\ 0 <= 16) /\
  exists q, IPPrefix_IPAddress ip 16 false = Ret q /\ IPPrefix_canonical q /\ p_len q = 16 /\
      IPPrefix_contains_IPAddress q ip = Ret true /\ IPPrefix_addPrefixLen q 16 = Ret q.
Proof.
  assert (H1 : IPAddress_wf (IPAddress_u32 167838211)) by by_compute.
  split; [split; [done | lia]|].
  exact (proj1 (IPPrefix_constructor_canonical _ 16 H1 ltac:(lia)) ltac:(vm_compute; discriminate)).
Defined.

(** ** Containment of prefixes *)

(** The containment order routing uses: [p] covers [q] and is no longer. *)
Definition prefix_sub (p q : IPPrefix) : Prop :=
  IPPrefix_contains p q = Ret true /\ p_len p <= p_len q.

Lemma IPPrefix_contains_covers p q :
  IPPrefix_wf p -> IPPrefix_wf q ->
  IPPrefix_contains p q = Ret true <-> covers (p_addr p) (p_addr q) (p_len p).
Proof.
  intros [Hp1 Hp2] [Hq1 Hq2].
  destruct (contains_core (p_addr q) (p_addr p) (p_len p) Hq1 Hp1 ltac:(lia)) as (Ha & _ & Hc).
  assert (E : IPPrefix_contains p q =
    if Z.shiftr (p_addr p) 32 =? 65535
    then if negb (Z.shiftr (p_addr q) 32 =? 65535) then Ret false
         else mask ← v4Mask (p_len p); Ret (Z.land (u32 (p_addr q)) mask =? Z.land (u32 (p_addr p)) mask)
    else if Z.shiftr (p_addr q) 32 =? 65535 then Ret false
         else mask ← v6Mask (p_len p); Ret (Z.land (p_addr q) mask =? Z.land (p_addr p) mask)).
  { unfold IPPrefix_contains, IPPrefix_isIPv4, IPPrefix_v4raw, IPPrefix_v6raw.
    destruct (Z.shiftr (p_addr p) 32 =? 65535), (Z.shiftr (p_addr q) 32 =? 65535); done. }
  rewrite E. destruct (decide (fam_width (p_addr q) = fam_width (p_addr p))) as [Hw|Hw].
  - destruct (Ha Hw ltac:(lia)) as (b & -> & Hb). split.
    + intros [= ->]. apply proj1 in Hb. destruct (Hb eq_refl) as [_ H]. split; [done|].
      rewrite Hw in H. done.
    + intros [_ H]. f_equal. apply Hb. split; [done|]. rewrite Hw. done.
  - rewrite (Hc Hw). split; [done|]. intros [H _]. congruence.
Qed.

Lemma div_pow2_mono x y a b :
  0 <= a <= b -> x / 2 ^ a = y / 2 ^ a -> x / 2 ^ b = y / 2 ^ b.
Proof.
  intros Hab H. replace (2 ^ b) with (2 ^ a * 2 ^ (b - a)) by (rewrite <- Z.pow_add_r by lia; f_equal; lia).
  rewrite <- !Z.div_div by (apply Z.pow_pos_nonneg || apply Z.pow_nonzero; lia). congruence.
Qed.

(** Prefix containment with lengths is a partial order: reflexive and
    transitive, and antisymmetric on canonical prefixes. *)
Theorem prefix_sub_partial_order :
  (forall p, IPPrefix_wf p -> prefix_sub p p) /\
  (forall p q r, IPPrefix_wf p -> IPPrefix_wf q -> IPPrefix_wf r ->
    prefix_sub p q -> prefix_sub q r -> prefix_sub p r) /\
  (forall p q, IPPrefix_canonical p -> IPPrefix_canonical q ->
    prefix_sub p q -> prefix_sub q p -> p = q).
Proof.
  split_all.
  - intros p Hp. split; [|lia]. apply IPPrefix_contains_covers; done.
  - intros p q r Hp Hq Hr [H1 L1] [H2 L2]. split; [|lia].
    apply IPPrefix_contains_covers in H1 as [W1 E1], H2 as [W2 E2]; try done.
    apply IPPrefix_contains_covers; [done | done|]. split; [congruence|].
    rewrite E1, W1. apply (div_pow2_mono _ _ (fam_width (p_addr q) - p_len q)); [|done].
    destruct Hp, Hq. lia.
  - intros p q [Hp Cp] [Hq Cq] [H1 L1] [H2 L2].
    assert (Hlen : p_len p = p_len q) by lia.
    apply IPPrefix_contains_covers in H1 as [W1 E1]; try done.
    destruct p as [pa pl], q as [qa ql]. cbn [p_addr p_len] in *. f_equal; [|done].
    apply fam_inj; [apply Hp | apply Hq | done|]. subst ql. rewrite <- W1 in Cq.
    apply Z.div_exact in Cp, Cq; try (apply Z.pow_nonzero; destruct Hp; cbn in *; lia).
    congruence.
Qed.

(** The length of the second operand is not looked at by [contains] itself:
    10.1.0.0/16 "contains" 10.1.0.0/8. *)
Example contains_ignores_other_length :
  IPPrefix_contains (mkIPPrefix (Z.lor 167837696 mapped) 16)
                    (mkIPPrefix (Z.lor 167837696 mapped) 8) = Ret true.
Proof. reflexivity. Qed.

(** ** Comparisons *)

(** [IPPrefix::operator<] is a strict total order that decides equality with
    [operator==], and the other four operators are derived from it. *)
Theorem IPPrefix_order_total :
  (forall p, IPPrefix_lt p p = false) /\
  (forall p q r, IPPrefix_lt p q = true -> IPPrefix_lt q r = true -> IPPrefix_lt p r = true) /\
  (forall p q, IPPrefix_lt p q = true \/ p = q \/ IPPrefix_lt q p = true) /\
  (forall p q, IPPrefix_eq p q = true <-> p = q) /\
  (forall p q, IPPrefix_ne p q = negb (IPPrefix_eq p q) /\ IPPrefix_gt p q = IPPrefix_lt q p /\
    IPPrefix_le p q = negb (IPPrefix_lt q p) /\ IPPrefix_ge p q = negb (IPPrefix_lt p q)).
Proof.
  unfold IPPrefix_le, IPPrefix_ge, IPPrefix_gt, IPPrefix_ne, IPPrefix_eq, IPPrefix_lt.
  split_all.
  - intros [a l]. cbn. rewrite Z.eqb_refl, !Z.ltb_irrefl. done.
  - intros [a l] [b m] [c n]. cbn. zcases; simpl; intros; zbools; try done; lia.
  - intros [a l] [b m]. cbn. zcases; simpl; zcases; auto; subst; try lia; auto.
    right; left. f_equal; lia.
  - intros [a l] [b m]. cbn. rewrite andb_true_iff, !Z.eqb_eq. split; [intros []; congruence|].
    intros [= -> ->]. done.
  - intros [a l] [b m]. cbn. rewrite (Z.eqb_sym b a).
    zcases; simpl; subst; zcases; simpl; repeat split; try done; lia.
Qed.

(** The [IPPrefix < IPv6Prefix] overload compares when the addresses are
    equal and otherwise sets the length against the address: it never holds
    on equal addresses, and 2001:db8::/32 is below 2001:db8::/48 as
    [IPPrefix]es but not through this overload. *)
Theorem IPPrefix_lt_IPv6Prefix_broken (p : IPPrefix) (o : IPv6Prefix) :
  (p_addr p = p6_addr o -> IPPrefix_lt_IPv6Prefix p o = false) /\
  (p_addr p <> p6_addr o -> IPPrefix_lt_IPv6Prefix p o = (p_len p <? p6_addr o)) /\
  (let a := 42540766411282592856903984951653826560 in
   IPPrefix_lt (mkIPPrefix a 32) (mkIPPrefix a 48) = true /\
   IPPrefix_lt_IPv6Prefix (mkIPPrefix a 32) (mkIPv6Prefix a 48) = false).
Proof.
  unfold IPPrefix_lt_IPv6Prefix. split; [|split].
  - intros ->. rewrite Z.eqb_refl, Z.ltb_irrefl. done.
  - intros H. apply Z.eqb_neq in H. rewrite H. done.
  - vm_compute. split; reflexivity.
Qed.

(** ** Constructors that lose or never reach their prefix length *)

(** [IPv6Prefix::addPrefixLen] does not store the length, so the constructors
    without [maintainAddress] leave [prefixLength = 0] and the prefix they
    build contains every address. *)
Theorem IPv6Prefix_constructor_loses_length (ip : Z) (len : Z) :
  in_width 128 ip -> 0 <= len <= 128 ->
  exists q, IPv6Prefix_u128 ip len false = Ret q /\ p6_len q = 0 /\
    (forall x, IPv6Prefix_contains_IPv6Address q x = Ret true).
Proof.
  intros Hip Hlen. unfold IPv6Prefix_u128, IPv6Prefix_addPrefixLen. cbn [p6_addr p6_len].
  rewrite mask_addr_spec by done. eexists; split; [reflexivity|]. done.
Qed.

Lemma IPv6Prefix_constructor_loses_length_witness :
  (in_width 128 (2 ^ 125 + 5) /\ 0 <= 64 <= 128) /\
  exists q, IPv6Prefix_u128 (2 ^ 125 + 5) 64 false = Ret q /\ p6_len q = 0 /\
    (forall x, IPv6Prefix_contains_IPv6Address q x = Ret true).
Proof.
  assert (H1 : in_width 128 (2 ^ 125 + 5)) by by_compute.
  split; [split; [done | lia]|].
  exact (IPv6Prefix_constructor_loses_length _ 64 H1 ltac:(lia)).
Defined.

(** The byte-buffer constructors pass a bit count where [readBytes] wants a
    byte count: from the first non-empty IPv4 length, and from
    IPv6 length 17 on, the read runs past the type and is undefined, whatever
    the buffer holds. *)
Theorem prefix_from_bytes_undefined (p : bytes) (len : Z) :
  is_bytes p ->
  (1 <= len <= 32 -> IPv4Prefix_bytes p len false = UB /\
                     IPPrefix_bytes p len AF_IPv4 false = UB) /\
  (17 <= len <= 128 -> IPv6Prefix_bytes p len false = UB /\
                      IPPrefix_bytes p len AF_IPv6 false = UB).
Proof.
  intros Hp.
  assert (Hn : forall k, 1 <= len -> 8 * (k - 1) < len -> (Z.to_nat (8 * k) <= Z.to_nat ((len + 7) / 8 * 8))%nat).
  { intros k H1 H2. assert (k <= (len + 7) / 8) by (apply Z.div_le_lower_bound; lia). lia. }
  unfold IPv4Prefix_bytes, IPPrefix_bytes, IPv6Prefix_bytes.
  split; intros Hl.
  - specialize (Hn 1 ltac:(lia) ltac:(lia)).
    rewrite (readBytes_overrun 4 p) by (done || lia). done.
  - specialize (Hn 3 ltac:(lia) ltac:(lia)).
    rewrite (readBytes_overrun 16 p) by (done || lia). done.
Qed.

Lemma prefix_from_bytes_undefined_witness :
  (is_bytes (replicate 40 10) /\ 1 <= 8 <= 32) /\
  IPv4Prefix_bytes (replicate 40 10) 8 false = UB.
Proof.
  assert (H1 : is_bytes (replicate 40 10)) by by_compute.
  split; [split; [done | lia]|].
  exact (proj1 (proj1 (prefix_from_bytes_undefined _ 8 H1) ltac:(lia))).
Defined.
