(* ===== verification/LpcTrie.v ===== *)
(** * LpcTrie: the level- and path-compressed trie (types/LpcTrie.hpp)

    The longest-prefix-match trie behind the FIB and the Loc-RIB, for the
    address widths [W] that fill an integer type (8, 16, 32, 64, 128 bits) and
    stride [S]. A node is a value: writers own it exclusively, and an atomic
    pointer is its last stored value. Shift counts are 16-bit, and a count
    outside the address width is undefined, as in the code. The recursions
    consume at least [S >= 1] bits a level, so fuel [2 * W + 2] is enough
    for any insertion and [W + 1] for any lookup. [depth] is written and
    never read and is left out. *)

From S2P Require Import Prelude.

Section Trie.
  Context {T : Type} (W S : Z).

(** [types/LpcTrie.hpp:102-112] PrefixEntry *)
Record PrefixEntry := mkEntry { pe_addr : Z; pe_ptr : T; pe_len : Z }.

(** [types/LpcTrie.hpp:108-111] PrefixEntry::operator< *)
Definition entry_lt (p o : PrefixEntry) : bool :=
  if negb (pe_len p =? pe_len o) then pe_len p <? pe_len o else pe_addr p <? pe_addr o.

(** [types/LpcTrie.hpp:144-168] Node: [children] is the child array as an association list, an
    empty list for a node without one. *)
Inductive Node := mkNode {
  skipPattern : Z;
  skipMask : Z;
  skipLen : Z;
  best : option T;
  prefixes : list PrefixEntry;
  children : list (Z * Node)
}.

Definition Node_new : Node := mkNode 0 0 0 None [] [].

Definition set_best (b : option T) (n : Node) : Node :=
  mkNode (skipPattern n) (skipMask n) (skipLen n) b (prefixes n) (children n).
Definition set_prefixes (l : list PrefixEntry) (n : Node) : Node :=
  mkNode (skipPattern n) (skipMask n) (skipLen n) (best n) l (children n).

Definition is_prefix (addr len : Z) (p : PrefixEntry) : bool := (pe_len p =? len) && (pe_addr p =? addr).

(** [types/LpcTrie.hpp:184-189] Node::findPrefix *)
Definition findPrefix (n : Node) (addr len : Z) : option PrefixEntry := List.find (is_prefix addr len) (prefixes n).

(** [std::sort] on a list of distinct entries. *)
Fixpoint sort_insert (e : PrefixEntry) (l : list PrefixEntry) : list PrefixEntry :=
  match l with
  | [] => [e]
  | x :: l' => if entry_lt x e then x :: sort_insert e l' else e :: l
  end.
Definition sort (l : list PrefixEntry) : list PrefixEntry := fold_right sort_insert [] l.

(** [types/LpcTrie.hpp:201-224] Node::insertPrefix: the 8-bit count wraps at 256 entries, where
    the new array is smaller than what is copied into it. *)
Definition insertPrefix (n : Node) (addr len : Z) (ptr : T) : outcome Node :=
  match findPrefix n addr len with
  | Some _ =>
      Ret (set_prefixes (map (fun p => if is_prefix addr len p then mkEntry addr ptr len else p) (prefixes n)) n)
  | None =>
      if (length (prefixes n) =? 255)%nat then UB
      else Ret (set_prefixes (sort (prefixes n ++ [mkEntry addr ptr len])) n)
  end.

(** [types/LpcTrie.hpp:230-244] Node::removePrefix *)
Fixpoint remove_first (addr len : Z) (l : list PrefixEntry) : list PrefixEntry :=
  match l with
  | [] => []
  | p :: l => if is_prefix addr len p then l else p :: remove_first addr len l
  end.

(** [types/LpcTrie.hpp:231-244] Node::removePrefix, [None] when there is no such entry *)
Definition removePrefix (n : Node) (addr len : Z) : option Node :=
  match findPrefix n addr len with
  | Some _ => Some (set_prefixes (remove_first addr len (prefixes n)) n)
  | None => None
  end.

(** [types/LpcTrie.hpp:250-254] Node::localBest *)
Definition localBest (n : Node) : option T := option_map pe_ptr (last (prefixes n)).

(** [types/LpcTrie.hpp:268-272] Node::getChild *)
Definition getChild (n : Node) (idx : Z) : option Node :=
  option_map snd (List.find (fun c => c.1 =? idx) (children n)).

(** [types/LpcTrie.hpp:275-280] Node::setChild *)
Definition setChild (n : Node) (idx : Z) (c : Node) : Node :=
  mkNode (skipPattern n) (skipMask n) (skipLen n) (best n) (prefixes n)
    ((idx, c) :: List.filter (fun x => negb (x.1 =? idx)) (children n)).

(** [types/LpcTrie.hpp:286-290] Node::removeChild *)
Definition removeChild (n : Node) (idx : Z) : Node :=
  mkNode (skipPattern n) (skipMask n) (skipLen n) (best n) (prefixes n)
    (List.filter (fun x => negb (x.1 =? idx)) (children n)).

(** [types/LpcTrie.hpp:292-300] Node::isEmpty *)
Definition isEmpty (n : Node) : bool :=
  match prefixes n, children n with [], [] => true | _, _ => false end.

(** [types/LpcTrie.hpp:507-516] LPCTrie::applyMask *)
Definition applyMask (addr len : Z) : Z :=
  if len =? 0 then 0
  else if W <=? len then addr
  else Z.land addr (wrap W (Z.shiftl (all_ones W) (W - len))).

(** [types/LpcTrie.hpp:525-533] LPCTrie::makeMask *)
Definition makeMask (pos len : Z) : outcome Z :=
  if len =? 0 then Ret 0
  else if W <=? len then Ret (all_ones W)
  else
    one ← shl W 1 len;
    shl W (wrap W (one - 1)) (W - pos - len).

(** [types/LpcTrie.hpp:539-551] LPCTrie::commonSkipLen *)
Fixpoint commonSkipLoop (a b pos : Z) (fuel : nat) (i count : Z) : outcome Z :=
  match fuel with
  | O => Ret count
  | Datatypes.S fuel =>
      let shift := u16 (W - (pos + i) - 1) in
      x ← shr W a shift; y ← shr W b shift;
      if Z.land x 1 =? Z.land y 1 then commonSkipLoop a b pos fuel (i + 1) (count + 1) else Ret count
  end.

(** [types/LpcTrie.hpp:539-551] LPCTrie::commonSkipLen, from no bits matched *)
Definition commonSkipLen (a b pos maxBits : Z) : outcome Z := commonSkipLoop a b pos (Z.to_nat maxBits) 0 0.

(** The stride index of an address at a position. *)
Definition strideIndex (addr pos : Z) : outcome Z :=
  x ← shr W addr (u16 (W - pos - S)); Ret (Z.land x (2 ^ S - 1)).

Definition skip_matches (addr : Z) (n : Node) : bool :=
  Z.land (Z.lxor addr (skipPattern n)) (skipMask n) =? 0.

(** ** Lookup *)

(** [types/LpcTrie.hpp:334-357] LPCTrie::lookup: the descent *)
Fixpoint lookupLoop (fuel : nat) (addr : Z) (n : option Node) (bst : option T) (pos : Z) : outcome (option T) :=
  match fuel, n with
  | _, None => Ret bst
  | O, Some _ => Throw "fuel"
  | Datatypes.S fuel, Some n =>
      if negb (skipLen n =? 0) && negb (skip_matches addr n) then Ret bst
      else
        let pos := pos + skipLen n in
        let bst := match best n with Some v => Some v | None => bst end in
        if W <=? pos then Ret bst
        else
          idx ← strideIndex addr pos;
          lookupLoop fuel addr (getChild n idx) bst (pos + S)
  end.

(** [types/LpcTrie.hpp:326-358] LPCTrie::lookup *)
Definition lookup (root : option Node) (addr : Z) : outcome (option T) :=
  lookupLoop (Z.to_nat W + 1) addr root None 0.

Fixpoint lookupExactLoop (fuel : nat) (masked len : Z) (n : option Node) (pos : Z) : outcome (option T) :=
  match fuel, n with
  | _, None => Ret None
  | O, Some _ => Throw "fuel"
  | Datatypes.S fuel, Some n =>
      if negb (skipLen n =? 0) && negb (skip_matches masked n) then Ret None
      else
        let pos := pos + skipLen n in
        match findPrefix n masked len with
        | Some e => Ret (Some (pe_ptr e))
        | None =>
            if W <=? pos then Ret None
            else
              idx ← strideIndex masked pos;
              lookupExactLoop fuel masked len (getChild n idx) (pos + S)
        end
  end.

(** [types/LpcTrie.hpp:371-399] LPCTrie::lookupExact, from the prefix in host order *)
Definition lookupExact (root : option Node) (pfx len : Z) : outcome (option T) :=
  if W <? len then Ret None
  else lookupExactLoop (Z.to_nat W + 1) (applyMask pfx len) len root 0.

(** ** Insertion *)

(** [types/LpcTrie.hpp:607-630] LPCTrie::insertAt: the new leaf *)
Definition newLeaf (parent : Node) (pfx len : Z) (entry : T) (pos : Z) : outcome Node :=
  let remaining := u16 (len - pos) in
  leaf ← (if 0 <? remaining then
            let skip := if 255 <? remaining then 255 else remaining in
            mask ← makeMask pos skip;
            Ret (mkNode pfx mask skip None [] [])
          else Ret Node_new);
  let leaf := match best parent with Some b => set_best (Some b) leaf | None => leaf end in
  leaf ← insertPrefix leaf pfx len entry;
  Ret (set_best (Some entry) leaf).

(** [types/LpcTrie.hpp:652-666] LPCTrie::splitNode: moving the prefixes *)
Fixpoint movePrefixes (l : list PrefixEntry) (sub : Node) : outcome Node :=
  match l with
  | [] => Ret sub
  | p :: l => sub ← insertPrefix sub (pe_addr p) (pe_len p) (pe_ptr p); movePrefixes l sub
  end.

(** [types/LpcTrie.hpp:643-690] LPCTrie::splitNode: the node restructured, before the new entry is
    inserted *)
Definition restructure (n : Node) (pos matchLen : Z) : outcome Node :=
  sub ← movePrefixes (prefixes n) Node_new;
  let branchPos := pos + matchLen in
  let subPos := branchPos + S in
  sub ← (if matchLen + S <? skipLen n then
           let skip := skipLen n - (matchLen + S) in
           mask ← makeMask subPos skip;
           Ret (mkNode (skipPattern n) mask skip None (prefixes sub) (children n))
         else Ret (mkNode 0 0 0 None (prefixes sub) (children n)));
  let sub := set_best (localBest sub) sub in
  mask ← makeMask pos matchLen;
  oldIdx ← strideIndex (skipPattern n) branchPos;
  Ret (setChild (mkNode (skipPattern n) mask matchLen None [] []) oldIdx sub).

(** [types/LpcTrie.hpp:577-641] LPCTrie::insertAt *)
Fixpoint insertAt (fuel : nat) (n : Node) (pfx len : Z) (entry : T) (pos : Z) : outcome Node :=
  match fuel with
  | O => Throw "fuel"
  | Datatypes.S fuel =>
      m ← (if 0 <? skipLen n then commonSkipLen pfx (skipPattern n) pos (skipLen n) else Ret 0);
      if (0 <? skipLen n) && (m <? skipLen n) then
        n' ← restructure n pos m;
        insertAt fuel n' pfx len entry pos
      else
        let pos := pos + skipLen n in
        if (len <=? pos) || (len - pos <=? S) then
          n' ← insertPrefix n pfx len entry;
          Ret (set_best (localBest n') n')
        else
          idx ← strideIndex pfx pos;
          let pos := pos + S in
          match getChild n idx with
          | None => leaf ← newLeaf n pfx len entry pos; Ret (setChild n idx leaf)
          | Some child =>
              let child := match best n with Some b => set_best (Some b) child | None => child end in
              child' ← insertAt fuel child pfx len entry pos;
              Ret (setChild n idx child')
          end
  end.

(** [types/LpcTrie.hpp:414-431] LPCTrie::insert, from the prefix in host order *)
Definition insert_trie (root : option Node) (pfx len : Z) (entry : T) : outcome (option Node * bool) :=
  if W <? len then Ret (root, false)
  else
    let r := match root with Some r => r | None => Node_new end in
    r' ← insertAt (Z.to_nat (2 * W + 2)) r (applyMask pfx len) len entry 0;
    Ret (Some r', true).

(** ** Removal *)

(** [types/LpcTrie.hpp:700-734] LPCTrie::eraseAt: the node after the removal, whether it is
    pruned, and whether something was removed; [isRoot] is [parent == nullptr] *)
Fixpoint eraseAt (fuel : nat) (n : Node) (isRoot : bool) (pfx len pos : Z) : outcome (Node * bool * bool) :=
  match fuel with
  | O => Throw "fuel"
  | Datatypes.S fuel =>
      if negb (skipLen n =? 0) && negb (skip_matches pfx n) then Ret (n, false, false)
      else
        let pos := pos + skipLen n in
        match removePrefix n pfx len with
        | Some n' =>
            let n' := set_best (localBest n') n' in
            Ret (n', isEmpty n' && negb isRoot, true)
        | None =>
            if W <=? pos then Ret (n, false, false)
            else
              idx ← strideIndex pfx pos;
              match getChild n idx with
              | None => Ret (n, false, false)
              | Some child =>
                  x ← eraseAt fuel child false pfx len (pos + S);
                  let '(child', prune, removed) := (x : Node * bool * bool) in
                  if (removed : bool) then
                    let n' := if prune then removeChild n idx else setChild n idx child' in
                    Ret (set_best (localBest n') n', false, true)
                  else Ret (n, false, false)
              end
        end
  end.

(** [types/LpcTrie.hpp:444-452] LPCTrie::erase, from the prefix in host order *)
Definition erase_trie (root : option Node) (pfx len : Z) : outcome (option Node * bool) :=
  if W <? len then Ret (root, false)
  else match root with
       | None => Ret (root, false)
       | Some r =>
           x ← eraseAt (Z.to_nat W + 1) r true (applyMask pfx len) len 0;
           Ret (Some x.1.1, x.2)
       end.

(** [types/LpcTrie.hpp:463-467] LPCTrie::clear *)
Definition clear_trie : option Node := None.

(** [types/LpcTrie.hpp:737-748] LPCTrie::forEachNode: the entries in the order they are visited,
    with the child list kept in index order by the caller *)
Fixpoint forEachNode (fuel : nat) (n : Node) : list PrefixEntry :=
  match fuel with
  | O => []
  | Datatypes.S fuel =>
      prefixes n ++
      flat_map (fun i => match getChild n (Z.of_nat i) with Some c => forEachNode fuel c | None => [] end)
        (seq 0 (Z.to_nat (2 ^ S)))
  end.

End Trie.

Arguments Node T : clear implicits.
Arguments PrefixEntry T : clear implicits.

(** ** Bits of addresses *)

Section Bits.
  Context (W S : Z) (HW : 0 < W <= 128) (HS : 1 <= S <= 8).

Lemma u16_small x : 0 <= x < 2 ^ 16 -> u16 x = x.
Proof. intros. apply wrap_small. done. Qed.

Lemma strideIndex_ret a pos :
  in_width W a -> 0 <= pos -> pos + S <= W ->
  strideIndex W S a pos = Ret (Z.land (Z.shiftr a (W - pos - S)) (2 ^ S - 1)).
Proof.
  intros Ha Hp Hps. unfold strideIndex. rewrite u16_small by lia.
  unfold shr. rewrite (proj2 (Z.leb_le _ _)), (proj2 (Z.ltb_lt _ _)) by lia. done.
Qed.

(** Past the last full stride the shift count wraps around and is undefined. *)
Lemma strideIndex_ub a pos : 0 <= pos <= 512 -> W < pos + S -> strideIndex W S a pos = UB.
Proof.
  intros Hp Hps. unfold strideIndex, shr.
  assert (Hu : u16 (W - pos - S) = W - pos - S + 2 ^ 16).
  { unfold wrap. symmetry. apply Z.mod_unique with (-1); [left; lia | lia]. }
  rewrite Hu, (proj2 (Z.ltb_ge _ _)) by lia. rewrite andb_false_r. done.
Qed.

Lemma makeMask_ret pos len :
  0 < len < W -> 0 <= pos -> pos + len <= W ->
  makeMask W pos len = Ret (Z.shiftl (Z.ones len) (W - pos - len)).
Proof.
  intros Hl Hp Hpl. unfold makeMask.
  destruct (Z.eqb_spec len 0); [lia|]. destruct (Z.leb_spec W len); [lia|].
  rewrite shl_ret, outcome_bind_ret_l by lia.
  assert (Hpow : 2 ^ len < 2 ^ W) by (apply Z.pow_lt_mono_r; lia).
  assert (0 < 2 ^ len) by (apply Z.pow_pos_nonneg; lia).
  rewrite Z.shiftl_mul_pow2, Z.mul_1_l by lia.
  rewrite (wrap_small W (2 ^ len)), (wrap_small W (2 ^ len - 1)) by (split; lia).
  assert (Ho : 2 ^ len - 1 = Z.ones len) by (rewrite Z.ones_equiv; lia). rewrite Ho.
  rewrite shl_ret by lia. f_equal. apply wrap_small.
  apply in_width_bits; [lia | apply Z.shiftl_nonneg; rewrite <- Ho; lia|].
  intros i Hi. rewrite Z.shiftl_spec by lia. apply Z.ones_spec_high. lia.
Qed.

(** Two addresses agree on the bits from [W - pos - len] up to [W - pos]. *)
Definition agree (a b lo hi : Z) : Prop := forall i, lo <= i < hi -> Z.testbit a i = Z.testbit b i.

Lemma mask_matches a b pos len :
  0 < len -> 0 <= pos -> pos + len <= W ->
  (Z.land (Z.lxor a b) (Z.shiftl (Z.ones len) (W - pos - len)) =? 0) = true <->
  agree a b (W - pos - len) (W - pos).
Proof.
  intros Hl Hp Hpl. rewrite Z.eqb_eq. split.
  - intros H i Hi. assert (Hb : Z.testbit (Z.land (Z.lxor a b) (Z.shiftl (Z.ones len) (W - pos - len))) i = false)
      by (rewrite H; apply Z.bits_0).
    rewrite Z.land_spec, Z.lxor_spec, Z.shiftl_spec, Z.ones_spec_low, andb_true_r in Hb by lia.
    destruct (Z.testbit a i), (Z.testbit b i); done.
  - intros H. apply Z.bits_inj'. intros i Hi.
    rewrite Z.bits_0, Z.land_spec, Z.lxor_spec, Z.shiftl_spec by lia.
    destruct (decide (W - pos - len <= i < W - pos)) as [Hin|Hout].
    + rewrite (H i Hin), xorb_nilpotent. done.
    + destruct (decide (i < W - pos - len)).
      * rewrite (Z.testbit_neg_r _ (i - _)) by lia. apply andb_false_r.
      * rewrite Z.ones_spec_high by lia. apply andb_false_r.
Qed.

Lemma stride_matches a b pos :
  0 <= pos -> pos + S <= W ->
  Z.land (Z.shiftr a (W - pos - S)) (2 ^ S - 1) = Z.land (Z.shiftr b (W - pos - S)) (2 ^ S - 1) <->
  agree a b (W - pos - S) (W - pos).
Proof.
  intros Hp Hps. assert (Ho : 2 ^ S - 1 = Z.ones S) by (rewrite Z.ones_equiv; lia). rewrite Ho. split.
  - intros H i Hi. apply (f_equal (fun x => Z.testbit x (i - (W - pos - S)))) in H.
    rewrite !Z.land_spec, !Z.shiftr_spec, !Z.ones_spec_low, !andb_true_r in H by lia.
    replace (i - (W - pos - S) + (W - pos - S)) with i in H by lia. done.
  - intros H. apply Z.bits_inj'. intros i Hi. rewrite !Z.land_spec, !Z.shiftr_spec by lia.
    destruct (decide (i < S)).
    + rewrite (H (i + (W - pos - S))) by lia. done.
    + rewrite Z.ones_spec_high by lia. rewrite !andb_false_r. done.
Qed.

Lemma agree_split a b lo mid hi : lo <= mid <= hi -> agree a b lo hi <-> agree a b lo mid /\ agree a b mid hi.
Proof.
  intros Hm. split.
  - intros H. split; intros i Hi; apply H; lia.
  - intros [H1 H2] i Hi. destruct (decide (i < mid)); [apply H1 | apply H2]; lia.
Qed.

Lemma applyMask_in_width p len : in_width W p -> 0 <= len <= W -> in_width W (applyMask W p len).
Proof.
  intros Hp Hl. unfold applyMask. destruct (len =? 0); [apply in_width_0; lia|].
  destruct (Z.leb_spec W len); [done|]. rewrite shl_all_ones by lia.
  apply land_in_width; [lia|done|]. apply top_mask_in_width. lia.
Qed.

(** The masked prefix and the prefix agree on its length. *)
Lemma applyMask_agree p len : in_width W p -> 0 <= len <= W -> agree (applyMask W p len) p (W - len) W.
Proof.
  intros Hp Hl i Hi. unfold applyMask. destruct (Z.eqb_spec len 0); [lia|].
  destruct (Z.leb_spec W len); [done|]. rewrite shl_all_ones by lia.
  rewrite Z.land_spec, testbit_top_mask by lia.
  destruct (Z.leb_spec (W - len) i), (Z.ltb_spec i W); try lia. apply andb_true_r.
Qed.

(** The address is inside the prefix: the leading [len] bits agree. *)
Definition in_prefix (p len a : Z) : bool := Z.shiftr a (W - len) =? Z.shiftr p (W - len).

Lemma in_prefix_agree p len a :
  in_width W p -> in_width W a -> 0 <= len <= W ->
  in_prefix p len a = true <-> agree a (applyMask W p len) (W - len) W.
Proof.
  intros Hp Ha Hl. unfold in_prefix. rewrite Z.eqb_eq.
  pose proof (applyMask_agree p len Hp Hl) as Hm. split.
  - intros H i Hi. rewrite (Hm i Hi). apply (f_equal (fun x => Z.testbit x (i - (W - len)))) in H.
    rewrite !Z.shiftr_spec in H by lia. replace (i - (W - len) + (W - len)) with i in H by lia. done.
  - intros H. apply Z.bits_inj'. intros i Hi. rewrite !Z.shiftr_spec by lia.
    destruct (decide (i + (W - len) < W)).
    + rewrite (H (i + (W - len))), (Hm (i + (W - len))) by lia. done.
    + rewrite !(testbit_in_width W) by (done || lia). done.
Qed.

End Bits.

(** ** A trie with one prefix *)

Section Single.
  Context {T : Type} (W S : Z) (HW : 0 < W <= 128) (HS : 1 <= S <= 8) (HSW : S <= W).

(** The root the first insertion builds. *)
Definition single_root (p len : Z) (e : T) : Node T :=
  if len <=? S then mkNode 0 0 0 (Some e) [mkEntry p e len] []
  else
    mkNode 0 0 0 None []
      [(Z.land (Z.shiftr p (W - 0 - S)) (2 ^ S - 1),
        mkNode p (Z.shiftl (Z.ones (len - S)) (W - S - (len - S))) (len - S) (Some e) [mkEntry p e len] [])].

Lemma insert_single pfx len (e : T) :
  in_width W pfx -> 0 <= len <= W ->
  insert_trie W S None pfx len e = Ret (Some (single_root (applyMask W pfx len) len e), true).
Proof.
  intros Hp Hl. unfold insert_trie. destruct (Z.ltb_spec W len); [lia|].
  assert (Hf : exists f, Z.to_nat (2 * W + 2) = Datatypes.S f) by (exists (Z.to_nat (2 * W + 1)); lia).
  destruct Hf as [f ->]. pose proof (applyMask_in_width W HW pfx len Hp Hl) as Hm.
  set (p := applyMask W pfx len) in *.
  cbn [insertAt skipLen Node_new]. cbn [Z.ltb Z.compare andb]. rewrite outcome_bind_ret_l. cbn [andb].
  rewrite Z.add_0_r, Z.sub_0_r. unfold single_root.
  destruct (Z.leb_spec len S) as [HlS|HlS].
  - rewrite orb_true_r. cbn. done.
  - destruct (Z.leb_spec len 0); [lia|]. cbn [orb].
    rewrite strideIndex_ret by (done || lia). rewrite outcome_bind_ret_l. cbn [getChild children Node_new List.find option_map].
    unfold newLeaf. rewrite u16_small by lia.
    destruct (Z.ltb_spec 0 (len - (0 + S))); [|lia]. destruct (Z.ltb_spec 255 (len - (0 + S))); [lia|].
    rewrite Z.add_0_l, makeMask_ret by lia. done.
Qed.

Lemma fuel_two : exists f, (Z.to_nat W + 1)%nat = Datatypes.S (Datatypes.S f).
Proof. exists (Z.to_nat W - 1)%nat. lia. Qed.

Lemma lookupLoop_none f a b pos : lookupLoop (T := T) W S f a None b pos = Ret b.
Proof. destruct f; done. Qed.

Lemma lookup_single p len (e : T) a :
  in_width W p -> in_width W a -> 0 <= len <= W -> applyMask W p len = p ->
  lookup W S (Some (single_root p len e)) a =
    if len <=? S then Ret (Some e)
    else if in_prefix W p len a then (if (len <=? W - S) || (len =? W) then Ret (Some e) else UB)
    else Ret None.
Proof.
  intros Hp Ha Hl Hm. unfold lookup. destruct fuel_two as [f ->]. unfold single_root.
  destruct (Z.leb_spec len S) as [HlS|HlS].
  - cbn [lookupLoop skipLen best]. change (negb (0 =? 0)) with false. cbn [andb].
    destruct (Z.leb_spec W (0 + 0)); [lia|]. rewrite strideIndex_ret by (done || lia).
    rewrite outcome_bind_ret_l. cbn. done.
  - cbn [lookupLoop]. cbn [skipLen best]. change (negb (0 =? 0)) with false. cbn [andb].
    destruct (Z.leb_spec W (0 + 0)); [lia|]. rewrite strideIndex_ret by (done || lia).
    rewrite outcome_bind_ret_l. unfold getChild at 1. cbn [children List.find fst snd].
    change (0 + 0) with 0. rewrite Z.sub_0_r.
    pose proof (in_prefix_agree W p len a Hp Ha Hl) as Hin. rewrite Hm in Hin.
    rewrite (agree_split a p (W - len) (W - S) W) in Hin by lia.
    pose proof (stride_matches W S HS p a 0 ltac:(lia) ltac:(lia)) as Hstr. rewrite Z.sub_0_r in Hstr.
    pose proof (mask_matches W a p S (len - S) ltac:(lia) ltac:(lia) ltac:(lia)) as Hmask.
    replace (W - S - (len - S)) with (W - len) in * by lia.
    assert (Hsym : agree p a (W - S) W <-> agree a p (W - S) W)
      by (split; intros Hag i Hi; symmetry; apply Hag, Hi).
    rewrite Hsym in Hstr.
    destruct (Z.eqb_spec (Z.land (Z.shiftr p (W - S)) (2 ^ S - 1)) (Z.land (Z.shiftr a (W - S)) (2 ^ S - 1)))
      as [Hi|Hi]; cbn [option_map snd].
    + apply Hstr in Hi. cbn [lookupLoop skipLen best]. rewrite (proj2 (Z.eqb_neq (len - S) 0)) by lia.
      cbn [negb andb]. unfold skip_matches. cbn [skipPattern skipMask].
      destruct (Z.land (Z.lxor a p) (Z.shiftl (Z.ones (len - S)) (W - len)) =? 0); cbn [negb].
      * rewrite (proj2 Hin) by (split; [apply Hmask|]; done).
        destruct (Z.leb_spec W (0 + S + (len - S))).
        -- rewrite (proj2 (Z.eqb_eq len W)) by lia. rewrite orb_true_r. done.
        -- rewrite (proj2 (Z.eqb_neq len W)) by lia. rewrite orb_false_r.
           destruct (Z.leb_spec len (W - S)).
           ++ rewrite strideIndex_ret by (done || lia). rewrite outcome_bind_ret_l. apply lookupLoop_none.
           ++ rewrite strideIndex_ub by lia. done.
      * destruct (in_prefix W p len a); [|done]. destruct Hin as [Hin _].
        destruct (Hin eq_refl) as [Hlo _]. apply Hmask in Hlo. done.
    + cbn [lookupLoop]. destruct (in_prefix W p len a); [|done].
      exfalso. apply Hi, Hstr, Hin. done.
Qed.


Lemma findPrefix_single p len (e : T) a b c d ch : 
  findPrefix (mkNode a b c d [mkEntry p e len] ch) p len = Some (mkEntry p e len).
Proof. unfold findPrefix, is_prefix. cbn. rewrite !Z.eqb_refl. done. Qed.

Lemma skip_self p len l b d ch :
  0 < len -> 0 <= l -> l + len <= W ->
  skip_matches (T := T) p (mkNode p (Z.shiftl (Z.ones len) (W - l - len)) len b d ch) = true.
Proof.
  intros H1 H2 H3. unfold skip_matches. cbn [skipPattern skipMask].
  rewrite Z.lxor_nilpotent, Z.land_0_l. done.
Qed.

Lemma lookupExact_single pfx len (e : T) :
  in_width W pfx -> 0 <= len <= W ->
  lookupExact W S (Some (single_root (applyMask W pfx len) len e)) pfx len = Ret (Some e).
Proof.
  intros Hp Hl. unfold lookupExact. destruct (Z.ltb_spec W len); [lia|]. destruct fuel_two as [f ->].
  pose proof (applyMask_in_width W HW pfx len Hp Hl) as Hm. set (p := applyMask W pfx len) in *.
  unfold single_root. destruct (Z.leb_spec len S) as [HlS|HlS].
  - cbn [lookupExactLoop skipLen]. change (negb (0 =? 0)) with false. cbn [andb].
    rewrite findPrefix_single. done.
  - cbn [lookupExactLoop skipLen]. change (negb (0 =? 0)) with false. cbn [andb findPrefix prefixes List.find].
    destruct (Z.leb_spec W (0 + 0)); [lia|]. rewrite strideIndex_ret by (done || lia).
    rewrite outcome_bind_ret_l. unfold getChild at 1. cbn [children List.find fst snd option_map].
    rewrite Z.eqb_refl. cbn [option_map snd lookupExactLoop skipLen]. rewrite skip_self by lia.
    rewrite andb_false_r, findPrefix_single. done.
Qed.

Lemma erase_single pfx len (e : T) :
  in_width W pfx -> 0 <= len <= W ->
  exists r, erase_trie W S (Some (single_root (applyMask W pfx len) len e)) pfx len = Ret (Some r, true) /\
    best r = None /\ prefixes r = [] /\ children r = [] /\ skipLen r = 0.
Proof.
  intros Hp Hl. unfold erase_trie. destruct (Z.ltb_spec W len); [lia|]. destruct fuel_two as [f ->].
  pose proof (applyMask_in_width W HW pfx len Hp Hl) as Hm. set (p := applyMask W pfx len) in *.
  assert (Hrem : forall a b c d, removePrefix (mkNode a b c d [mkEntry p e len] []) p len =
    Some (mkNode a b c d [] [])).
  { intros. unfold removePrefix. rewrite findPrefix_single. unfold set_prefixes. cbn [prefixes remove_first].
    unfold is_prefix. cbn [pe_len pe_addr]. rewrite !Z.eqb_refl. done. }
  unfold single_root. destruct (Z.leb_spec len S) as [HlS|HlS].
  - cbn [eraseAt skipLen]. change (negb (0 =? 0)) with false. cbn [andb]. rewrite Hrem.
    rewrite outcome_bind_ret_l. eexists. split; [reflexivity|]. done.
  - cbn [eraseAt skipLen]. change (negb (0 =? 0)) with false.
    cbn [andb removePrefix findPrefix prefixes List.find].
    destruct (Z.leb_spec W (0 + 0)); [lia|]. rewrite strideIndex_ret by (done || lia).
    rewrite outcome_bind_ret_l. unfold getChild at 1. cbn [children List.find fst snd option_map].
    rewrite Z.eqb_refl. cbn [option_map snd eraseAt skipLen]. rewrite skip_self by lia.
    rewrite andb_false_r, Hrem, !outcome_bind_ret_l. cbn [isEmpty prefixes children set_best negb andb].
    unfold removeChild. cbn. rewrite Z.eqb_refl. eexists. split; [reflexivity|]. done.
Qed.

Lemma lookup_empty_root (r : Node T) a :
  in_width W a -> best r = None -> children r = [] -> skipLen r = 0 -> lookup W S (Some r) a = Ret None.
Proof.
  intros Ha Hb Hc Hs. unfold lookup. destruct fuel_two as [f ->]. cbn [lookupLoop]. rewrite Hs, Hb.
  change (negb (0 =? 0)) with false. cbn [andb]. destruct (Z.leb_spec W (0 + 0)); [lia|].
  rewrite strideIndex_ret by (done || lia). rewrite outcome_bind_ret_l. unfold getChild. rewrite Hc. done.
Qed.

End Single.

(** ** The theorems *)

Lemma applyMask_idem W p len :
  0 < W <= 128 -> in_width W p -> 0 <= len <= W -> applyMask W (applyMask W p len) len = applyMask W p len.
Proof.
  intros HW Hp Hl. unfold applyMask. destruct (len =? 0) eqn:E; [done|].
  destruct (W <=? len) eqn:E2; [done|]. rewrite <- Z.land_assoc, Z.land_diag. done.
Qed.

Lemma in_prefix_masked W p len a :
  in_width W p -> 0 <= len <= W -> in_prefix W (applyMask W p len) len a = in_prefix W p len a.
Proof.
  intros Hp Hl. unfold in_prefix. f_equal. apply Z.bits_inj'. intros i Hi.
  rewrite !Z.shiftr_spec by lia. destruct (decide (i + (W - len) < W)) as [Hlt|Hge].
  - apply (applyMask_agree W p len Hp Hl). lia.
  - unfold applyMask. destruct (Z.eqb_spec len 0) as [->|Hn].
    + rewrite Z.bits_0. symmetry. eapply testbit_in_width; [exact Hp|lia].
    + destruct (Z.leb_spec W len); [done|]. rewrite Z.land_spec, (testbit_in_width W p) by (done || lia). done.
Qed.

(** A trie holding one prefix: it is found by [lookupExact], and [lookup] finds
    it for an address in it and nothing for an address outside it, except
    that a prefix no longer than the stride is found for every address, and
    that looking up an address in a prefix longer than [W - S] bits and
    shorter than [W] shifts by a count outside the address width. *)
Theorem single_prefix_lookup {T : Type} (W S pfx len a : Z) (e : T) :
  0 < W <= 128 -> 1 <= S <= 8 -> S <= W -> in_width W pfx -> in_width W a -> 0 <= len <= W ->
  exists r, insert_trie W S None pfx len e = Ret (Some r, true) /\
    lookupExact W S (Some r) pfx len = Ret (Some e) /\
    lookup W S (Some r) a =
      (if len <=? S then Ret (Some e)
       else if in_prefix W pfx len a then (if (len <=? W - S) || (len =? W) then Ret (Some e) else UB)
       else Ret None).
Proof.
  intros HW HS HSW Hp Ha Hl. eexists. split; [apply insert_single; done|].
  split; [apply lookupExact_single; done|].
  rewrite lookup_single by (try done; first [apply applyMask_in_width; done | apply applyMask_idem; done]).
  rewrite in_prefix_masked by done. done.
Qed.

(** Erasing the only prefix of a trie succeeds and leaves a trie in which every
    lookup finds nothing. *)
Theorem single_prefix_erase {T : Type} (W S pfx len a : Z) (e : T) (r : Node T) :
  0 < W <= 128 -> 1 <= S <= 8 -> S <= W -> in_width W pfx -> in_width W a -> 0 <= len <= W ->
  insert_trie W S None pfx len e = Ret (Some r, true) ->
  exists r', erase_trie W S (Some r) pfx len = Ret (Some r', true) /\ lookup W S (Some r') a = Ret None.
Proof.
  intros HW HS HSW Hp Ha Hl Hi. rewrite insert_single in Hi by done. injection Hi as <-.
  destruct (erase_single W S HW HS HSW pfx len e Hp Hl) as (r' & -> & Hb & _ & Hc & Hs).
  exists r'. split; [done|]. apply lookup_empty_root; done.
Qed.

(** ** Splitting a compressed node *)

Lemma shiftr_land_1 a n : 0 <= n -> Z.land (Z.shiftr a n) 1 = Z.b2z (Z.testbit a n).
Proof.
  intros Hn. change 1 with (Z.ones 1) at 1. rewrite Z.land_ones by lia.
  rewrite Z.testbit_spec', Z.shiftr_div_pow2 by done. done.
Qed.

(** The loop stops at the first position where the two words differ. *)
Lemma commonSkipLoop_first W a b pos fuel i count k :
  0 < W <= 128 -> 0 <= pos -> 0 <= i <= k -> k - i < Z.of_nat fuel -> pos + k < W ->
  (forall j, i <= j < k -> Z.testbit a (W - (pos + j) - 1) = Z.testbit b (W - (pos + j) - 1)) ->
  Z.testbit a (W - (pos + k) - 1) <> Z.testbit b (W - (pos + k) - 1) ->
  commonSkipLoop W a b pos fuel i count = Ret (count + (k - i)).
Proof.
  intros HW Hpos Hik Hf Hk Hag Hdiff. revert i count Hik Hf Hag.
  induction fuel as [|fuel IH]; intros i count Hik Hf Hag; [lia|].
  cbn [commonSkipLoop]. rewrite u16_small by lia.
  assert (Hshr : forall x, shr W x (W - (pos + i) - 1) = Ret (Z.shiftr x (W - (pos + i) - 1))).
  { intros x. unfold shr. rewrite (proj2 (Z.leb_le _ _)), (proj2 (Z.ltb_lt _ _)) by lia. done. }
  rewrite !Hshr, !outcome_bind_ret_l, !shiftr_land_1 by lia.
  destruct (decide (i = k)) as [->|Hne].
  - destruct (Z.testbit a _), (Z.testbit b _); try done; cbn; f_equal; lia.
  - rewrite (Hag i) by lia. rewrite Z.eqb_refl. rewrite IH; [f_equal; lia | lia | lia|].
    intros j Hj. apply Hag. lia.
Qed.

(** Two different words that agree above bit [S - 1] first differ below it. *)
Lemma first_difference W S a b :
  1 <= S <= W -> in_width W a -> in_width W b -> a <> b ->
  Z.shiftr a (S - 1) = Z.shiftr b (S - 1) ->
  exists d, 0 <= d < S - 1 /\ Z.testbit a d <> Z.testbit b d /\
    forall i, d < i -> Z.testbit a i = Z.testbit b i.
Proof.
  intros HS Ha Hb Hne Hsh. set (x := Z.lxor a b).
  assert (Hx0 : x <> 0) by (intros Hx; apply Hne, Z.lxor_eq; done).
  assert (Hx : 0 <= x) by (apply Z.lxor_nonneg; destruct Ha, Hb; lia).
  assert (Hhigh : forall i, S - 1 <= i -> Z.testbit x i = false).
  { intros i Hi. unfold x. rewrite Z.lxor_spec. apply (f_equal (fun z => Z.testbit z (i - (S - 1)))) in Hsh.
    rewrite !Z.shiftr_spec in Hsh by lia. replace (i - (S - 1) + (S - 1)) with i in Hsh by lia.
    rewrite Hsh. apply xorb_nilpotent. }
  exists (Z.log2 x). pose proof (Z.log2_nonneg x). pose proof (Z.bit_log2 x ltac:(lia)) as Hb2.
  split; [split; [done|]|split].
  - destruct (decide (Z.log2 x < S - 1)); [done|]. rewrite Hhigh in Hb2 by lia. done.
  - change (Z.testbit (Z.lxor a b) (Z.log2 x) = true) in Hb2. rewrite Z.lxor_spec in Hb2. intros Heq. rewrite Heq, xorb_nilpotent in Hb2. done.
  - intros i Hi. pose proof (Z.bits_above_log2 x i Hx Hi) as Hbi. unfold x in Hbi.
    rewrite Z.lxor_spec in Hbi. destruct (Z.testbit a i), (Z.testbit b i); done.
Qed.

(** Inserting two host routes whose addresses agree above their last [S - 1]
    bits is undefined: the split of the compressed leaf computes a branch
    index with a negative shift count. In the FIB (stride 8) this is any two
    /32 routes within the same /25. *)
Theorem near_host_routes_undefined {T : Type} (W S a b : Z) (e1 e2 : T) :
  0 < W <= 128 -> 1 <= S <= 8 -> 2 * S <= W -> in_width W a -> in_width W b -> a <> b ->
  Z.shiftr a (S - 1) = Z.shiftr b (S - 1) ->
  exists r, insert_trie W S None a W e1 = Ret (Some r, true) /\ insert_trie W S (Some r) b W e2 = UB.
Proof.
  intros HW HS HSW Ha Hb Hne Hsh. eexists. split; [apply insert_single; (done || lia)|].
  destruct (first_difference W S a b ltac:(lia) Ha Hb Hne Hsh) as (d & Hd & Hdiff & Hag).
  assert (Hma : forall p, applyMask W p W = p).
  { intros p. unfold applyMask. destruct (Z.eqb_spec W 0); [lia|]. rewrite Z.leb_refl. done. }
  rewrite Hma. unfold insert_trie. rewrite Z.ltb_irrefl, Hma.
  assert (Hf : exists f, Z.to_nat (2 * W + 2) = Datatypes.S (Datatypes.S f)) by (exists (Z.to_nat (2 * W)); lia).
  destruct Hf as [f ->]. unfold single_root. rewrite (proj2 (Z.leb_gt W S)) by lia.
  cbn [insertAt]. cbn [skipLen best]. change (0 <? 0) with false. cbn [andb]. rewrite outcome_bind_ret_l.
  rewrite Z.add_0_r. rewrite (proj2 (Z.leb_gt W 0)), (proj2 (Z.leb_gt (W - 0) S)) by lia. cbn [orb].
  rewrite strideIndex_ret by (done || lia). rewrite outcome_bind_ret_l.
  unfold getChild at 1. cbn [children List.find fst snd].
  assert (Hidx : Z.land (Z.shiftr a (W - 0 - S)) (2 ^ S - 1) = Z.land (Z.shiftr b (W - 0 - S)) (2 ^ S - 1)).
  { apply (stride_matches W S HS a b 0); [lia|lia|]. intros i Hi. apply Hag. lia. }
  rewrite Hidx, Z.eqb_refl. cbn [option_map snd]. cbn [insertAt skipLen skipPattern].
  rewrite (proj2 (Z.ltb_lt 0 (W - S))) by lia. cbn [andb].
  set (k := W - S - 1 - d). unfold commonSkipLen.
  rewrite (commonSkipLoop_first W b a (0 + S) _ 0 0 k) by
    (first [ lia | (intros j Hj; symmetry; apply Hag; lia)
           | (replace (W - (0 + S + k) - 1) with d by lia; congruence) ]).
  rewrite outcome_bind_ret_l. rewrite (proj2 (Z.ltb_lt (0 + (k - 0)) (W - S))) by lia. cbn [andb].
  unfold restructure. cbn [prefixes movePrefixes pe_addr pe_len pe_ptr skipLen skipPattern children].
  change (insertPrefix Node_new a W e1) with (Ret (set_prefixes [mkEntry a e1 W] (Node_new (T := T)))).
  rewrite !outcome_bind_ret_l. rewrite (proj2 (Z.ltb_ge (0 + (k - 0) + S) (W - S))) by lia.
  rewrite outcome_bind_ret_l. rewrite makeMask_ret by lia. rewrite outcome_bind_ret_l.
  rewrite strideIndex_ub by lia. done.
Qed.

(** ** Concrete tries: 32-bit addresses, stride 8 *)

Lemma single_prefix_lookup_witness :
  (exists r, insert_trie 32 8 None 3232235776 24 7%nat = Ret (Some r, true) /\
     lookup 32 8 (Some r) 3232235777 = Ret (Some 7%nat)) /\
  (exists r, insert_trie 32 8 None 167772160 8 7%nat = Ret (Some r, true) /\
     lookup 32 8 (Some r) 3232235777 = Ret (Some 7%nat)).
Proof.
  split.
  - destruct (single_prefix_lookup 32 8 3232235776 24 3232235777 7%nat) as (r & H1 & _ & H2);
      [lia|lia|lia|split; lia|split; lia|lia|]. exists r. split; [exact H1 | exact H2].
  - destruct (single_prefix_lookup 32 8 167772160 8 3232235777 7%nat) as (r & H1 & _ & H2);
      [lia|lia|lia|split; lia|split; lia|lia|]. exists r. split; [exact H1 | exact H2].
Defined.

(** The trie with 192.168.1.0/24. *)
Definition ex_root : Node nat :=
  match insert_trie 32 8 None 3232235776 24 7%nat with
  | Ret (Some r, _) => r
  | _ => Node_new
  end.

Lemma single_prefix_erase_witness :
  exists r', erase_trie 32 8 (Some ex_root) 3232235776 24 = Ret (Some r', true) /\
    lookup 32 8 (Some r') 3232235777 = Ret None.
Proof.
  apply (single_prefix_erase 32 8 3232235776 24 3232235777 7%nat ex_root);
    [lia|lia|lia|split; lia|split; lia|lia|vm_compute; reflexivity].
Defined.

(** 10.0.0.1/32 and 10.0.0.2/32. *)
Lemma near_host_routes_undefined_witness :
  exists r, insert_trie 32 8 None 167772161 32 7%nat = Ret (Some r, true) /\
    insert_trie 32 8 (Some r) 167772162 32 8%nat = UB.
Proof.
  apply (near_host_routes_undefined 32 8 167772161 167772162 7%nat 8%nat);
    [lia|lia|lia|split; lia|split; lia|lia|reflexivity].
Defined.
