(* ===== verification/RibBucket.v ===== *)
(** * RibBucket: the candidate routes of one prefix
    (core/routing/rib/RouteSource.hpp, RibEntry.hpp, RibBucket.hpp)

    Routes and their next-hop sets, the bucket that holds all candidate
    routes of one prefix, best-route selection, and the parts of the bucket
    that are pointers into its own [std::vector]. A vector is its buffer's
    identity, its capacity and its elements; a [RibEntry*] into it is a
    buffer identity with an index, so that reallocation and dangling
    pointers are visible. *)

From S2P Require Import Prelude.

(** ** Routes *)

(** [core/routing/rib/RouteSource.hpp:21-35] RouteSource *)
Inductive RouteSource :=
  | DYNAMIC | CONNECTED | STATIC | EIGRP_INTERNAL | EIGRP_EXTERNAL
  | OSPF_INTRA | OSPF_INTER | OSPF_EXTERNAL | OSPF_NSSA | BGP | RIP | UNKNOWN.

#[export] Instance RouteSource_eq_dec : EqDecision RouteSource.
Proof. solve_decision. Defined.

(** [core/routing/rib/RibEntry.hpp:18-18] MAX_NEXTHOP *)
Definition MAX_NEXTHOP : nat := 8.

(** [core/routing/rib/RibEntry.hpp:69-75] NextHopPath *)
Record NextHopPath := mkNextHopPath {
  nextHop : option Z;
  iface : Z;
  weight : Z
}.

#[export] Instance NextHopPath_eq_dec : EqDecision NextHopPath.
Proof. solve_decision. Defined.

(** [core/routing/rib/RibEntry.hpp:104-119] RibEntry: [nextHops] holds the
    first [nextHopCount] cells of the array; [topInfo] is an opaque pointer. *)
Record RibEntry := mkRibEntry {
  prefix : Z;
  length_ : Z;
  source : RouteSource;
  processId : Z;
  adminDistance : Z;
  metric : Z;
  tag : Z;
  topInfo : Z;
  nextHops : list NextHopPath
}.

#[export] Instance RibEntry_eq_dec : EqDecision RibEntry.
Proof. solve_decision. Defined.

Definition nextHopCount (e : RibEntry) : nat := length (nextHops e).

Definition set_nextHops (e : RibEntry) (l : list NextHopPath) : RibEntry :=
  mkRibEntry (prefix e) (length_ e) (source e) (processId e) (adminDistance e)
    (metric e) (tag e) (topInfo e) l.

(** [core/routing/rib/RibEntry.hpp:128-128] RibEntry::clear *)
Definition RibEntry_clear (e : RibEntry) : RibEntry := set_nextHops e [].
(** [core/routing/rib/RibEntry.hpp:133-133] RibEntry::empty *)
Definition RibEntry_empty (e : RibEntry) : bool := (nextHopCount e =? 0)%nat.

(** [core/routing/rib/RibEntry.hpp:152-164] RibEntry::addNextHop: The scan of [addNextHop]: the first cell that is interface-only on this
    interface takes the address ([Some (Some l)]), an equal cell refuses it
    ([Some None]), no such cell leaves it to be appended ([None]). *)
Fixpoint addNextHop_scan (l : list NextHopPath) (nhAddr ifc : Z)
    : option (option (list NextHopPath)) :=
  match l with
  | [] => None
  | h :: t =>
      match nextHop h with
      | None =>
          if iface h =? ifc then Some (Some (mkNextHopPath (Some nhAddr) (iface h) (weight h) :: t))
          else option_map (option_map (cons h)) (addNextHop_scan t nhAddr ifc)
      | Some a =>
          if (a =? nhAddr) && (iface h =? ifc) then Some None
          else option_map (option_map (cons h)) (addNextHop_scan t nhAddr ifc)
      end
  end.

(** [core/routing/rib/RibEntry.hpp:147-168] RibEntry::addNextHop *)
Definition addNextHop (e : RibEntry) (nhAddr ifc w : Z) : RibEntry * bool :=
  if (MAX_NEXTHOP <=? nextHopCount e)%nat then (e, false)
  else match addNextHop_scan (nextHops e) nhAddr ifc with
       | Some (Some l) => (set_nextHops e l, true)
       | Some None => (e, false)
       | None => (set_nextHops e (nextHops e ++ [mkNextHopPath (Some nhAddr) ifc w]), true)
       end.

(** [core/routing/rib/RibEntry.hpp:177-187] RibEntry::addNextHopInterface *)
Definition addNextHopInterface (e : RibEntry) (ifc w : Z) : RibEntry * bool :=
  if (MAX_NEXTHOP <=? nextHopCount e)%nat then (e, false)
  else if existsb (fun h => iface h =? ifc) (nextHops e) then (e, false)
  else (set_nextHops e (nextHops e ++ [mkNextHopPath None ifc w]), true).

(** ** The bucket *)

(** A pointer into a vector: the buffer it was taken from and the index. *)
Definition ptr : Type := nat * nat.

(** [core/routing/rib/RibBucket.hpp:56-61] RibBucket: [buf] identifies the
    current heap buffer of [routes], [cap] is its capacity; [fibEntry] is the
    published heap copy. *)
Record RibBucket := mkRibBucket {
  buf : nat;
  cap : nat;
  routes : list RibEntry;
  bestEntry : option ptr;
  prevBest : option ptr;
  fibEntry : option RibEntry
}.

(** [core/routing/rib/RibBucket.hpp:63-63] RibBucket::RibBucket *)
Definition RibBucket_new : RibBucket := mkRibBucket 0 0 [] None None None.

(** Reading through a pointer into [routes]: undefined unless it points into
    the current buffer, at a live element. *)
Definition deref (b : RibBucket) (p : ptr) : outcome RibEntry :=
  if decide (p.1 = buf b) then
    match routes b !! p.2 with Some e => Ret e | None => UB end
  else UB.

(** [r] is preferred to [best]: the comparison all the selection loops make. *)
Definition preferred (r best : RibEntry) : bool :=
  (adminDistance r <? adminDistance best) ||
  ((adminDistance r =? adminDistance best) && (metric r <? metric best)).

(** The selection loop from index [i], over the routes that satisfy [keep]. *)
Fixpoint best_scan (keep : RibEntry -> bool) (l : list RibEntry) (i : nat)
    (best : option (nat * RibEntry)) : option (nat * RibEntry) :=
  match l with
  | [] => best
  | r :: t =>
      best_scan keep t (S i)
        (if keep r then
           match best with
           | None => Some (i, r)
           | Some (_, b) => if preferred r b then Some (i, r) else best
           end
         else best)
  end.

(** [core/routing/rib/RibBucket.hpp:226-244] RibBucket::selectBest *)
Definition selectBest (b : RibBucket) : RibBucket :=
  let best := best_scan (fun _ => true) (routes b) 0 None in
  mkRibBucket (buf b) (cap b) (routes b)
    (match best with Some (i, _) => Some (buf b, i) | None => None end)
    (bestEntry b)
    (match best with Some (_, e) => Some e | None => None end).

(** [std::vector::push_back]: a full vector moves to a fresh buffer of twice
    the size. *)
Definition push_back (b : RibBucket) (e : RibEntry) : RibBucket :=
  if (length (routes b) <? cap b)%nat
  then mkRibBucket (buf b) (cap b) (routes b ++ [e]) (bestEntry b) (prevBest b) (fibEntry b)
  else mkRibBucket (S (buf b)) (length (routes b) + Nat.max (length (routes b)) 1)
         (routes b ++ [e]) (bestEntry b) (prevBest b) (fibEntry b).

Definition set_routes (b : RibBucket) (l : list RibEntry) : RibBucket :=
  mkRibBucket (buf b) (cap b) l (bestEntry b) (prevBest b) (fibEntry b).

(** [core/routing/rib/RibBucket.hpp:98-98] RibBucket::addRoute, the key test *)
Definition same_key (src : RouteSource) (pid : Z) (r : RibEntry) : bool :=
  bool_decide (source r = src) && (processId r =? pid).

(** [core/routing/rib/RibBucket.hpp:96-108] RibBucket::addRoute: The update loop of [addRoute] over [routes]: [Some None] when the first
    route of the same source and process has the same metric, next-hop count
    and distance, [Some (Some l)] when it is overwritten, [None] when there is
    no such route. *)
Fixpoint addRoute_scan (l : list RibEntry) (e : RibEntry) : option (option (list RibEntry)) :=
  match l with
  | [] => None
  | r :: t =>
      if same_key (source e) (processId e) r then
        if (metric r =? metric e) && (nextHopCount r =? nextHopCount e)%nat
           && (adminDistance r =? adminDistance e)
        then Some None
        else Some (Some (e :: t))
      else option_map (option_map (cons r)) (addRoute_scan t e)
  end.

(** [core/routing/rib/RibBucket.hpp:92-116] RibBucket::addRoute *)
Definition addRoute (b : RibBucket) (e : RibEntry) : RibBucket * bool :=
  match addRoute_scan (routes b) e with
  | Some None => (b, false)
  | Some (Some l) => (selectBest (set_routes b l), true)
  | None => (selectBest (push_back b e), true)
  end.

(** [core/routing/rib/RibBucket.hpp:126-136] RibBucket::removeRoute *)
Definition removeRoute (b : RibBucket) (src : RouteSource) (pid : Z) : RibBucket :=
  selectBest (set_routes b (List.filter (fun r => negb (same_key src pid r)) (routes b))).

(** [core/routing/rib/RibBucket.hpp:149-163] RibBucket::getBestRoute(RouteSource, uint64_t) *)
Definition getBestRoute_src_pid (b : RibBucket) (src : RouteSource) (pid : Z) : option RibEntry :=
  option_map snd (best_scan (same_key src pid) (routes b) 0 None).
(** [core/routing/rib/RibBucket.hpp:170-184] RibBucket::getBestRoute(uint64_t) *)
Definition getBestRoute_pid (b : RibBucket) (pid : Z) : option RibEntry :=
  option_map snd (best_scan (fun r => processId r =? pid) (routes b) 0 None).
(** [core/routing/rib/RibBucket.hpp:191-205] RibBucket::getBestRoute(RouteSource) *)
Definition getBestRoute_src (b : RibBucket) (src : RouteSource) : option RibEntry :=
  option_map snd (best_scan (fun r => bool_decide (source r = src)) (routes b) 0 None).
(** [core/routing/rib/RibBucket.hpp:211-214] RibBucket::getBestRoute() *)
Definition getBestRoute (b : RibBucket) : outcome (option RibEntry) :=
  match bestEntry b with
  | None => Ret None
  | Some p => e ← deref b p; Ret (Some e)
  end.
(** [core/routing/rib/RibBucket.hpp:249-252] RibBucket::empty *)
Definition RibBucket_empty (b : RibBucket) : bool :=
  match fibEntry b with None => true | Some _ => false end.
(** [core/routing/rib/RibBucket.hpp:257-264] RibBucket::clear *)
Definition RibBucket_clear (b : RibBucket) : RibBucket :=
  mkRibBucket (buf b) (cap b) [] None None None.

(** ** Preference *)

Lemma preferred_true a b :
  preferred a b = true <->
  adminDistance a < adminDistance b \/ (adminDistance a = adminDistance b /\ metric a < metric b).
Proof.
  unfold preferred. rewrite orb_true_iff, andb_true_iff, !Z.ltb_lt, Z.eqb_eq. tauto.
Qed.

Lemma preferred_false a b :
  preferred a b = false <->
  adminDistance b < adminDistance a \/ (adminDistance b = adminDistance a /\ metric b <= metric a).
Proof.
  unfold preferred. rewrite orb_false_iff, andb_false_iff, !Z.ltb_ge, Z.eqb_neq. lia.
Qed.

(** Decides goals about [preferred] by arithmetic on distances and metrics. *)
Ltac pref :=
  repeat match goal with
         | H : preferred _ _ = true |- _ => apply preferred_true in H
         | H : preferred _ _ = false |- _ => apply preferred_false in H
         | |- preferred _ _ = true => apply preferred_true
         | |- preferred _ _ = false => apply preferred_false
         end; try lia.

(** What the scan returns: an element of the list (or the accumulator) that
    nothing kept is preferred to, and that is preferred to all kept elements
    before it. *)
Definition scan_result (keep : RibEntry -> bool) (l : list RibEntry) (i : nat)
    (acc : option (nat * RibEntry)) (res : option (nat * RibEntry)) : Prop :=
  match res with
  | None => acc = None /\ (forall e, e ∈ l -> keep e = false)
  | Some (j, e) =>
      (acc = Some (j, e) \/
       ((i <= j)%nat /\ l !! (j - i)%nat = Some e /\ keep e = true /\
        (forall ja ea, acc = Some (ja, ea) -> preferred e ea = true) /\
        (forall k e', (k < j - i)%nat -> l !! k = Some e' -> keep e' = true ->
                      preferred e e' = true))) /\
      (forall e', e' ∈ l -> keep e' = true -> preferred e' e = false) /\
      (forall ja ea, acc = Some (ja, ea) -> preferred ea e = false)
  end.

Lemma preferred_irrefl e : preferred e e = false.
Proof. pref. Qed.

Lemma best_scan_spec keep l i acc : scan_result keep l i acc (best_scan keep l i acc).
Proof.
  revert i acc. induction l as [|r t IH]; intros i acc.
  { cbn. destruct acc as [[j e]|]; cbn.
    - split; [auto|]. split; [intros ? H; inversion H|]. intros ? ? [= <- <-]. apply preferred_irrefl.
    - split; [done|]. intros ? H. inversion H. }
  cbn [best_scan].
  set (acc' := if keep r then _ else acc).
  assert (Hacc : (acc' = acc /\ (keep r = false \/ exists ja ea, acc = Some (ja, ea) /\ preferred r ea = false)) \/
                 (acc' = Some (i, r) /\ keep r = true /\
                  forall ja ea, acc = Some (ja, ea) -> preferred r ea = true)).
  { unfold acc'. destruct (keep r) eqn:Hk; [|left; auto].
    destruct acc as [[ja ea]|]; [|right; done].
    destruct (preferred r ea) eqn:Hp; [right|left; split; [done|]; right; eauto].
    split; [done|]. split; [done|]. intros ? ? [= <- <-]. done. }
  clearbody acc'. specialize (IH (S i) acc'). unfold scan_result in *.
  destruct (best_scan keep t (S i) acc') as [[j e]|].
  - destruct IH as (H1 & H2 & H3). destruct Hacc as [[-> Hr]|(-> & Hk & Hr)].
    + split; [|split; [|exact H3]].
      * destruct H1 as [H1|(Hj & Hl & He & Hb & Hf)]; [left; done|right].
        split; [lia|]. split; [replace (j - i)%nat with (S (j - S i)) by lia; done|].
        split; [done|]. split; [done|]. intros [|k] e' Hlt Hlk Hk'.
        -- injection Hlk as ->. destruct Hr as [Hr|(ja & ea & -> & Hp)]; [congruence|].
           specialize (Hb _ _ eq_refl). pref.
        -- apply (Hf k); [lia|done|done].
      * intros e' He' Hk'. apply elem_of_cons in He' as [->|He']; [|apply H2; done].
        destruct Hr as [Hr|(ja & ea & -> & Hp)]; [congruence|]. specialize (H3 _ _ eq_refl). pref.
    + split; [|split].
      * right. destruct H1 as [[= <- <-]|(Hj & Hl & He & Hb & Hf)].
        -- split; [lia|]. rewrite Nat.sub_diag. split; [done|]. split; [done|]. split; [done|].
           intros k e' Hlt. lia.
        -- split; [lia|]. split; [replace (j - i)%nat with (S (j - S i)) by lia; done|].
           split; [done|]. specialize (Hb _ _ eq_refl).
           split; [intros ja ea Ha; specialize (Hr _ _ Ha); pref|].
           intros [|k] e' Hlt Hlk Hk'; [injection Hlk as <-; done|].
           apply (Hf k); [lia|done|done].
      * intros e' He' Hk'. apply elem_of_cons in He' as [->|He']; [|apply H2; done].
        apply (H3 _ _ eq_refl).
      * intros ja ea Ha. specialize (Hr _ _ Ha). specialize (H3 _ _ eq_refl). pref.
  - destruct IH as [-> H]. destruct Hacc as [[Ha Hr]|[? _]]; [|done].
    split; [done|]. intros e He. apply elem_of_cons in He as [->|He]; [|auto].
    destruct Hr as [Hr|(ja & ea & Hx & _)]; [done|]. congruence.
Qed.

(** The scan from scratch: [None] exactly when nothing is kept, otherwise the
    first of the most preferred kept elements. *)
Lemma best_scan_None keep l : best_scan keep l 0 None = None <-> (forall e, e ∈ l -> keep e = false).
Proof.
  pose proof (best_scan_spec keep l 0 None) as H. unfold scan_result in H.
  destruct (best_scan keep l 0 None) as [[j e]|].
  - split; [done|]. intros Hn. destruct H as ([?|(_ & Hl & He & _)] & _); [done|].
    rewrite Hn in He; [done|]. eapply list_elem_of_lookup_2. done.
  - split; [intros _; apply H | done].
Qed.

Lemma best_scan_Some keep l j e :
  best_scan keep l 0 None = Some (j, e) ->
  l !! j = Some e /\ keep e = true /\
  (forall e', e' ∈ l -> keep e' = true -> preferred e' e = false) /\
  (forall k e', (k < j)%nat -> l !! k = Some e' -> keep e' = true -> preferred e e' = true).
Proof.
  intros Hs. pose proof (best_scan_spec keep l 0 None) as H. rewrite Hs in H. cbn in H.
  destruct H as ([?|(_ & Hl & He & _ & Hf)] & H2 & _); [done|].
  rewrite Nat.sub_0_r in *. done.
Qed.

(** ** The bucket invariant *)

Definition route_key (r : RibEntry) : RouteSource * Z := (source r, processId r).

(** One route per (source, process); the best pointer points into the current
    buffer at the selected route, and the published copy is that route. *)
Definition bucket_inv (b : RibBucket) : Prop :=
  NoDup (map route_key (routes b)) /\
  (length (routes b) <= cap b)%nat /\
  match best_scan (fun _ => true) (routes b) 0 None with
  | None => bestEntry b = None /\ fibEntry b = None
  | Some (i, e) => bestEntry b = Some (buf b, i) /\ fibEntry b = Some e
  end.

Lemma same_key_iff src pid r : same_key src pid r = true <-> route_key r = (src, pid).
Proof.
  unfold same_key, route_key. rewrite andb_true_iff, bool_decide_eq_true, Z.eqb_eq.
  split; [intros [-> ->]; done | intros [= -> ->]; done].
Qed.

Lemma same_key_false src pid r : same_key src pid r = false <-> route_key r <> (src, pid).
Proof. rewrite <- not_true_iff_false, same_key_iff. done. Qed.

Lemma selectBest_inv b :
  NoDup (map route_key (routes b)) -> (length (routes b) <= cap b)%nat -> bucket_inv (selectBest b).
Proof.
  intros H1 H2. unfold bucket_inv, selectBest. cbn.
  split; [done|]. split; [done|]. destruct (best_scan _ _ _ _) as [[i e]|]; done.
Qed.

(** The three outcomes of the update loop. *)
Lemma addRoute_scan_spec l e :
  match addRoute_scan l e with
  | None => forall r, r ∈ l -> route_key r <> route_key e
  | Some None => exists i r, l !! i = Some r /\ route_key r = route_key e /\
      metric r = metric e /\ nextHopCount r = nextHopCount e /\ adminDistance r = adminDistance e
  | Some (Some l') => exists i r, l !! i = Some r /\ route_key r = route_key e /\ l' = <[i := e]> l /\
      (metric r <> metric e \/ nextHopCount r <> nextHopCount e \/ adminDistance r <> adminDistance e)
  end.
Proof.
  induction l as [|r t IH]; cbn [addRoute_scan]; [intros ? H; inversion H|].
  destruct (same_key (source e) (processId e) r) eqn:Hk.
  - apply same_key_iff in Hk.
    destruct ((metric r =? metric e) && (nextHopCount r =? nextHopCount e)%nat
              && (adminDistance r =? adminDistance e)) eqn:Hsame.
    + apply andb_true_iff in Hsame as [Hs H3]. apply andb_true_iff in Hs as [H1 H2].
      apply Z.eqb_eq in H1, H3. apply Nat.eqb_eq in H2. exists 0%nat, r. done.
    + exists 0%nat, r. split; [done|]. split; [done|]. split; [done|].
      apply andb_false_iff in Hsame as [Hs|H3]; [apply andb_false_iff in Hs as [H1|H2]|].
      * left. apply Z.eqb_neq. done.
      * right; left. apply Nat.eqb_neq. done.
      * right; right. apply Z.eqb_neq. done.
  - apply same_key_false in Hk. destruct (addRoute_scan t e) as [[l'|]|]; cbn.
    + destruct IH as (i & x & Hi & Hx & -> & Hd). exists (S i), x. done.
    + destruct IH as (i & x & Hi & Hx). exists (S i), x. done.
    + intros x Hx. apply elem_of_cons in Hx as [->|Hx]; [done | auto].
Qed.

Lemma map_key_insert l i r e :
  l !! i = Some r -> route_key r = route_key e ->
  map route_key (<[i := e]> l) = map route_key l.
Proof.
  revert i. induction l as [|x l IH]; intros [|i] Hi Hk; try done; cbn in *.
  - injection Hi as ->. congruence.
  - f_equal. apply IH; done.
Qed.

Lemma NoDup_map_filter {A B} (f : A -> B) (P : A -> bool) l :
  NoDup (map f l) -> NoDup (map f (List.filter P l)).
Proof.
  induction l as [|x l IH]; cbn; [done|]. intros H. apply NoDup_cons in H as [H1 H2].
  destruct (P x); cbn; [|auto]. apply NoDup_cons. split; [|auto].
  intros Hin. apply H1. apply list_elem_of_In, in_map_iff in Hin as (y & Hy & Hf).
  apply list_elem_of_In, in_map_iff. exists y. apply filter_In in Hf. tauto.
Qed.

Lemma bucket_inv_new : bucket_inv RibBucket_new.
Proof. split; [constructor | split; [cbn; lia | done]]. Qed.

Lemma addRoute_inv b e : bucket_inv b -> bucket_inv (addRoute b e).1.
Proof.
  intros Hb. pose proof Hb as (H1 & H2 & _). unfold addRoute.
  pose proof (addRoute_scan_spec (routes b) e) as Hs.
  destruct (addRoute_scan (routes b) e) as [[l|]|]; cbn [fst].
  - destruct Hs as (i & r & Hi & Hk & -> & _). apply selectBest_inv; cbn.
    + erewrite map_key_insert by done. done.
    + rewrite length_insert. done.
  - done.
  - apply selectBest_inv; unfold push_back;
      destruct (length (routes b) <? cap b)%nat eqn:Hc; cbn;
      rewrite ?map_app, ?length_app; cbn.
    1,2: apply NoDup_app; (split; [done|]; split; [|apply NoDup_singleton]);
         intros x Hx Hx2; apply list_elem_of_singleton in Hx2 as ->;
         apply list_elem_of_In, in_map_iff in Hx as (r & Hr & Hin);
         apply list_elem_of_In in Hin; apply (Hs r Hin); done.
    + apply Nat.ltb_lt in Hc. lia.
    + lia.
Qed.

Lemma length_filter_le {A} (P : A -> bool) l : (length (List.filter P l) <= length l)%nat.
Proof. induction l; cbn; [lia|]. case_match; cbn; lia. Qed.

Lemma removeRoute_inv b src pid : bucket_inv b -> bucket_inv (removeRoute b src pid).
Proof.
  intros (H1 & H2 & _). apply selectBest_inv; cbn; [apply NoDup_map_filter; done|].
  pose proof (length_filter_le (fun r => negb (same_key src pid r)) (routes b)). lia.
Qed.

Lemma RibBucket_clear_inv b : bucket_inv (RibBucket_clear b).
Proof. split; [constructor|]. split; [cbn; lia | done]. Qed.

Create HintDb bucket.
#[export] Hint Resolve bucket_inv_new addRoute_inv removeRoute_inv RibBucket_clear_inv : bucket.

(** ** Runs of bucket operations *)

Inductive bucket_op :=
  | OpAdd (e : RibEntry)
  | OpRemove (src : RouteSource) (pid : Z)
  | OpClear.

Definition bucket_step (b : RibBucket) (o : bucket_op) : RibBucket :=
  match o with
  | OpAdd e => (addRoute b e).1
  | OpRemove src pid => removeRoute b src pid
  | OpClear => RibBucket_clear b
  end.

Definition bucket_run (ops : list bucket_op) : RibBucket := fold_left bucket_step ops RibBucket_new.

Lemma bucket_run_inv ops : bucket_inv (bucket_run ops).
Proof.
  unfold bucket_run. generalize bucket_inv_new. generalize RibBucket_new.
  induction ops as [|o ops IH]; intros b Hb; [done|]. apply IH.
  destruct o; cbn; auto with bucket.
Qed.

(** The published best of a bucket in its invariant. *)
Lemma bucket_inv_published b :
  bucket_inv b ->
  (fibEntry b = None <-> routes b = []) /\
  (fibEntry b = None -> getBestRoute b = Ret None) /\
  (forall e, fibEntry b = Some e ->
    e ∈ routes b /\ getBestRoute b = Ret (Some e) /\
    (forall e', e' ∈ routes b -> preferred e' e = false) /\
    (forall i j e', routes b !! i = Some e -> routes b !! j = Some e' -> (j < i)%nat ->
       preferred e e' = true)).
Proof.
  intros (Hnd & _ & Hb). destruct (best_scan _ _ _ _) as [[i e]|] eqn:Hs.
  - apply best_scan_Some in Hs as (Hi & _ & Hmin & Hfirst). destruct Hb as [Hbest Hfib].
    rewrite Hfib. split; [|split; [done|]].
    + split; [done|]. intros Hr. rewrite Hr in Hi. done.
    + intros x [= <-]. split; [eapply list_elem_of_lookup_2; done|]. split.
      * unfold getBestRoute. rewrite Hbest. unfold deref. cbn.
        rewrite decide_True, Hi by done. done.
      * split; [auto|]. intros k j e' Hk Hj Hlt. apply (Hfirst j); [|done|done].
        assert (k = i) as ->; [|done].
        apply (NoDup_lookup (map route_key (routes b)) k i (route_key e)); [done| |];
          rewrite list_lookup_fmap, ?Hk, ?Hi; done.
  - pose proof (proj1 (best_scan_None _ _) Hs) as Hn. destruct Hb as [Hbest Hfib].
    rewrite Hfib. split; [|split; [|done]].
    + split; [|done]. intros _. destruct (routes b) as [|r l]; [done|].
      specialize (Hn r ltac:(left)). done.
    + intros _. unfold getBestRoute. rewrite Hbest. done.
Qed.

(** C2: After any sequence of additions, removals and clears the bucket publishes
    to the FIB a copy of the first of its routes with the least
    (administrative distance, metric), [getBestRoute] reads that same route
    through a valid pointer, and it publishes nothing exactly when it has no
    routes. *)
Theorem bucket_publishes_best (ops : list bucket_op) :
  let b := bucket_run ops in
  (fibEntry b = None <-> routes b = []) /\
  (fibEntry b = None -> getBestRoute b = Ret None) /\
  (forall e, fibEntry b = Some e ->
    e ∈ routes b /\ getBestRoute b = Ret (Some e) /\
    (forall e', e' ∈ routes b -> preferred e' e = false) /\
    (forall i j e', routes b !! i = Some e -> routes b !! j = Some e' -> (j < i)%nat ->
       preferred e e' = true)).
Proof. apply bucket_inv_published, bucket_run_inv. Qed.

(** ** The bucket as a map from (source, process) to its route *)

Definition route_of (b : RibBucket) (src : RouteSource) (pid : Z) : option RibEntry :=
  List.find (same_key src pid) (routes b).

Lemma route_of_Some b src pid r :
  NoDup (map route_key (routes b)) ->
  route_of b src pid = Some r <-> r ∈ routes b /\ route_key r = (src, pid).
Proof.
  intros Hnd. unfold route_of. split.
  - intros H. apply List.find_some in H as [H1 H2]. rewrite list_elem_of_In, <- same_key_iff. done.
  - intros [Hin Hk]. destruct (List.find (same_key src pid) (routes b)) as [x|] eqn:Hf.
    + apply List.find_some in Hf as [H1 H2]. apply list_elem_of_In in H1.
      apply same_key_iff in H2. f_equal.
      apply list_elem_of_lookup in Hin as [i Hi], H1 as [j Hj].
      assert (i = j) as ->; [|congruence].
      apply (NoDup_lookup (map route_key (routes b)) i j (src, pid)); [done| |];
        rewrite list_lookup_fmap, ?Hi, ?Hj; cbn; congruence.
    + exfalso. pose proof (List.find_none _ _ Hf r (proj1 (list_elem_of_In _ _) Hin)) as Hn.
      apply same_key_false in Hn. done.
Qed.

Lemma route_of_ext b src pid (P : RibEntry -> Prop) :
  NoDup (map route_key (routes b)) ->
  (forall r, r ∈ routes b /\ route_key r = (src, pid) <-> P r) ->
  forall o, (forall r, o = Some r <-> P r) -> route_of b src pid = o.
Proof.
  intros Hnd HP o Ho. destruct o as [x|].
  - apply route_of_Some; [done|]. apply HP, Ho. done.
  - destruct (route_of b src pid) as [y|] eqn:E; [|done].
    apply route_of_Some, HP, Ho in E; done.
Qed.

Lemma routes_selectBest b : routes (selectBest b) = routes b.
Proof. done. Qed.

Lemma routes_push_back b e : routes (push_back b e) = routes b ++ [e].
Proof. unfold push_back. case_match; done. Qed.

(** Removing a (source, process) removes its route and no other. *)
Lemma removeRoute_route_of b src pid s p :
  bucket_inv b ->
  route_of (removeRoute b src pid) s p =
    if decide ((s, p) = (src, pid)) then None else route_of b s p.
Proof.
  intros Hb. pose proof (removeRoute_inv b src pid Hb) as (Hnd' & _). destruct Hb as (Hnd & _).
  assert (Hin : forall r, r ∈ routes (removeRoute b src pid) <->
                          r ∈ routes b /\ route_key r <> (src, pid)).
  { intros r. unfold removeRoute. rewrite routes_selectBest. cbn.
    rewrite !list_elem_of_In, filter_In, negb_true_iff, same_key_false. done. }
  apply (route_of_ext _ _ _ _ Hnd' (fun r => iff_refl _)). intros r. rewrite Hin.
  case_decide as Hd.
  - split; [done|]. intros [[_ H1] H2]. congruence.
  - rewrite route_of_Some by done. split; [intros [? Hk]; split; [split; [done|congruence]|done]|tauto].
Qed.

(** [addRoute] as a map operation. *)
Lemma addRoute_route_of (b : RibBucket) (e : RibEntry) (s : RouteSource) (p : Z) :
  bucket_inv b ->
  let '(b', changed) := addRoute b e in
  bucket_inv b' /\
  route_of b' s p =
    (if decide ((s, p) = route_key e) then if changed then Some e else route_of b s p
     else route_of b s p) /\
  (changed = false <->
    exists r, route_of b (source e) (processId e) = Some r /\ metric r = metric e /\
      nextHopCount r = nextHopCount e /\ adminDistance r = adminDistance e) /\
  (changed = false -> b' = b).
Proof.
  intros Hb. pose proof (addRoute_inv b e Hb) as Hinv'. pose proof Hb as (Hnd & _).
  pose proof Hinv' as (Hnd' & _). pose proof (addRoute_scan_spec (routes b) e) as Hs.
  unfold addRoute in *. destruct (addRoute_scan (routes b) e) as [[l|]|]; cbn [fst] in *.
  - destruct Hs as (i & r & Hi & Hk & -> & Hd). split; [done|].
    assert (Hr : route_of b (source e) (processId e) = Some r).
    { apply route_of_Some; [done|]. split; [eapply list_elem_of_lookup_2; done|]. rewrite Hk. done. }
    split; [|split; [|done]].
    + apply (route_of_ext _ _ _ _ Hnd' (fun r => iff_refl _)). intros x.
      rewrite routes_selectBest. cbn [set_routes routes].
      assert (Hx : x ∈ <[i := e]> (routes b) <-> x = e \/ (x ∈ routes b /\ route_key x <> route_key e)).
      { rewrite !list_elem_of_lookup. split.
        - intros [j Hj]. destruct (decide (i = j)) as [<-|Hne].
          + rewrite list_lookup_insert_eq in Hj by (eapply lookup_lt_Some; done). left. congruence.
          + rewrite list_lookup_insert_ne in Hj by done. right. split; [eauto|]. intros Hxk.
            apply Hne. apply (NoDup_lookup (map route_key (routes b)) i j (route_key e)); [done| |];
              rewrite list_lookup_fmap, ?Hi, ?Hj; cbn; congruence.
        - intros [->|[[j Hj] Hne]].
          + exists i. apply list_lookup_insert_eq. eapply lookup_lt_Some; done.
          + exists j. rewrite list_lookup_insert_ne; [done|]. intros ->. congruence. }
      rewrite Hx. case_decide as Hsp.
      * split; [intros [= <-]; split; [auto | done]|]. intros [[->|[_ Hne]] Hk']; [done|congruence].
      * rewrite route_of_Some by done. split; [intros [? ?]; split; [right; split; [done|congruence]|done]|].
        intros [[->|[? _]] ?]; [unfold route_key in *; congruence | done].
    + split; [done|]. intros (r' & Hr' & H1 & H2 & H3). rewrite Hr in Hr'. injection Hr' as <-.
      destruct Hd as [?|[?|?]]; done.
  - destruct Hs as (i & r & Hi & Hk & H1 & H2 & H3). split; [done|]. split; [case_decide; done|].
    split; [|done]. split; [|done]. intros _. exists r. split; [|done].
    apply route_of_Some; [done|]. split; [eapply list_elem_of_lookup_2; done|]. rewrite Hk. done.
  - split; [done|]. split; [|split; [|done]].
    + apply (route_of_ext _ _ _ _ Hnd' (fun r => iff_refl _)). intros x.
      rewrite routes_selectBest, routes_push_back, elem_of_app, list_elem_of_singleton.
      case_decide as Hsp.
      * split; [intros [= <-]; split; [auto | done]|]. intros [[Hin| ->] Hk]; [|done].
        exfalso. apply (Hs x Hin). congruence.
      * rewrite route_of_Some by done. split; [intros [? ?]; auto|].
        intros [[?| ->] ?]; [done|unfold route_key in *; congruence].
    + split; [done|]. intros (r & Hr & _). apply route_of_Some in Hr as [Hin Hk]; [|done].
      exfalso. apply (Hs r Hin). done.
Qed.

(** Concrete routes for the witnesses. *)
Definition ex_route (src : RouteSource) (pid ad m nh : Z) : RibEntry :=
  mkRibEntry 167772160 8 src pid ad m 0 0 [mkNextHopPath (Some nh) 1 1].

#[export] Instance bucket_inv_dec b : Decision (bucket_inv b).
Proof. unfold bucket_inv. destruct (best_scan _ _ _ _) as [[i e]|]; apply _. Defined.

(** The bucket is a map from (source, process) to a route. Adding a route
    makes it the route of its key, unless the bucket already holds one of
    equal metric, next-hop count and distance, in which case nothing changes
    and [false] is returned; removing a key removes its route; the other keys
    keep theirs. *)
Theorem bucket_is_a_map (b : RibBucket) (e : RibEntry) (src s : RouteSource) (pid p : Z) :
  bucket_inv b ->
  (let '(b', changed) := addRoute b e in
   route_of b' s p =
     (if decide ((s, p) = route_key e /\ changed = true) then Some e else route_of b s p) /\
   (changed = false <->
     exists r, route_of b (source e) (processId e) = Some r /\ metric r = metric e /\
       nextHopCount r = nextHopCount e /\ adminDistance r = adminDistance e) /\
   (changed = false -> b' = b)) /\
  route_of (removeRoute b src pid) s p =
    (if decide ((s, p) = (src, pid)) then None else route_of b s p).
Proof.
  intros Hb. split; [|apply removeRoute_route_of, Hb].
  pose proof (addRoute_route_of b e s p Hb) as H. destruct (addRoute b e) as [b' changed].
  destruct H as (_ & Hr & Hrest). split; [|exact Hrest]. rewrite Hr.
  destruct changed; repeat case_decide; destruct_and?; congruence || (exfalso; tauto) || done.
Qed.

Lemma bucket_is_a_map_witness :
  bucket_inv (bucket_run [OpAdd (ex_route BGP 1 20 5 7)]) /\
  (let '(b', changed) := addRoute (bucket_run [OpAdd (ex_route BGP 1 20 5 7)]) (ex_route STATIC 0 1 0 9) in
   changed = true /\ route_of b' STATIC 0 = Some (ex_route STATIC 0 1 0 9)).
Proof.
  assert (H : bucket_inv (bucket_run [OpAdd (ex_route BGP 1 20 5 7)])) by by_compute.
  split; [done|].
  destruct (bucket_is_a_map _ (ex_route STATIC 0 1 0 9) BGP STATIC 1 0 H) as [(T & _) _].
  split; [reflexivity | exact T].
Defined.

(** A route whose next hops change but not in number, with the metric and the
    distance as before, is discarded: the bucket and its FIB copy keep the old
    next hops. *)
Theorem addRoute_drops_next_hop_change (b : RibBucket) (r e : RibEntry) :
  bucket_inv b -> route_of b (source e) (processId e) = Some r ->
  metric e = metric r -> adminDistance e = adminDistance r -> nextHopCount e = nextHopCount r ->
  addRoute b e = (b, false).
Proof.
  intros Hb Hr Hm Ha Hn. pose proof (addRoute_route_of b e UNKNOWN 0 Hb) as H.
  destruct (addRoute b e) as [b' changed]. destruct H as (_ & _ & Hc & Hsame).
  assert (changed = false) as -> by (apply Hc; eauto). rewrite Hsame by done. done.
Qed.

Lemma addRoute_drops_next_hop_change_witness :
  let b := bucket_run [OpAdd (ex_route BGP 1 20 5 7)] in
  (bucket_inv b /\ route_of b BGP 1 = Some (ex_route BGP 1 20 5 7)) /\
  nextHops (ex_route BGP 1 20 5 8) <> nextHops (ex_route BGP 1 20 5 7) /\
  addRoute b (ex_route BGP 1 20 5 8) = (b, false).
Proof.
  assert (H : bucket_inv (bucket_run [OpAdd (ex_route BGP 1 20 5 7)])) by by_compute.
  split; [split; [done | reflexivity]|]. split; [discriminate|].
  exact (addRoute_drops_next_hop_change _ (ex_route BGP 1 20 5 7) (ex_route BGP 1 20 5 8) H
           eq_refl eq_refl eq_refl eq_refl).
Defined.

(** ** Next-hop sets *)

(** At most eight next hops; two different cells on one interface carry
    different gateway addresses (so an interface-only cell is alone on its
    interface). *)
Definition nh_inv (l : list NextHopPath) : Prop :=
  (length l <= MAX_NEXTHOP)%nat /\
  forall i j a b, l !! i = Some a -> l !! j = Some b -> i <> j -> iface a = iface b ->
    exists x y, nextHop a = Some x /\ nextHop b = Some y /\ x <> y.

Lemma addNextHop_scan_spec l nh ifc :
  match addNextHop_scan l nh ifc with
  | None => forall h, h ∈ l -> iface h = ifc -> exists x, nextHop h = Some x /\ x <> nh
  | Some None => exists h, h ∈ l /\ nextHop h = Some nh /\ iface h = ifc
  | Some (Some l') => exists i h, l !! i = Some h /\ nextHop h = None /\ iface h = ifc /\
                        l' = <[i := mkNextHopPath (Some nh) ifc (weight h)]> l
  end.
Proof.
  induction l as [|h t IH]; cbn [addNextHop_scan]; [intros ? H; inversion H|].
  assert (Hrec : (iface h = ifc -> exists x, nextHop h = Some x /\ x <> nh) ->
    match option_map (option_map (cons h)) (addNextHop_scan t nh ifc) with
    | None => forall h', h' ∈ h :: t -> iface h' = ifc -> exists x, nextHop h' = Some x /\ x <> nh
    | Some None => exists h', h' ∈ h :: t /\ nextHop h' = Some nh /\ iface h' = ifc
    | Some (Some l') => exists i h', (h :: t) !! i = Some h' /\ nextHop h' = None /\ iface h' = ifc /\
                          l' = <[i := mkNextHopPath (Some nh) ifc (weight h')]> (h :: t)
    end).
  { intros Hh. destruct (addNextHop_scan t nh ifc) as [[l'|]|]; cbn.
    - destruct IH as (i & x & Hi & Hn & Hf & ->). exists (S i), x. done.
    - destruct IH as (x & Hx & Hn & Hf). exists x. split; [right; done | done].
    - intros x Hx. apply elem_of_cons in Hx as [->|Hx]; auto. }
  destruct (nextHop h) as [a|] eqn:Hn.
  - destruct ((a =? nh) && (iface h =? ifc)) eqn:Hc.
    + zbools. subst. exists h. split; [left|done].
    + apply Hrec. intros Hf. exists a. split; [done|]. intros ->.
      apply andb_false_iff in Hc as [Hc|Hc]; zbools; done.
  - destruct (Z.eqb_spec (iface h) ifc) as [Hf|Hf].
    + exists 0%nat, h. rewrite Hf. done.
    + apply Hrec. done.
Qed.

(** Appending a cell that differs from those of its interface. *)
Lemma nh_inv_app l h :
  nh_inv l -> (length l < MAX_NEXTHOP)%nat ->
  (forall x, x ∈ l -> iface x = iface h -> exists a b, nextHop x = Some a /\ nextHop h = Some b /\ a <> b) ->
  nh_inv (l ++ [h]).
Proof.
  intros [Hlen Hinv] Hroom Hh. split; [rewrite length_app; cbn; lia|]. intros i j a b Hi Hj Hne Hf.
  apply lookup_app_Some in Hi as [Hi|[Hil Hi]], Hj as [Hj|[Hjl Hj]].
  - eapply Hinv; done.
  - apply list_lookup_singleton_Some in Hj as [? <-]. apply Hh; [eapply list_elem_of_lookup_2; done | done].
  - apply list_lookup_singleton_Some in Hi as [? <-].
    destruct (Hh b) as (x & y & ? & ? & ?); [eapply list_elem_of_lookup_2; done | done|]. exists y, x. auto.
  - apply list_lookup_singleton_Some in Hi as [? <-], Hj as [? <-]. lia.
Qed.

(** Giving an address to an interface-only cell, the only one of its
    interface. *)
Lemma nh_inv_set l i h h' :
  nh_inv l -> l !! i = Some h -> nextHop h = None -> iface h' = iface h -> nh_inv (<[i := h']> l).
Proof.
  intros [Hlen Hinv] Hi Hn Hif. split; [rewrite length_insert; done|]. intros k j a b Hk Hj Hne Hab.
  destruct (decide (i = k)) as [<-|Hik]; destruct (decide (i = j)) as [<-|Hij];
    rewrite ?list_lookup_insert_eq in * by (eapply lookup_lt_Some; done);
    rewrite ?list_lookup_insert_ne in * by done; [done| | |eapply Hinv; done].
  - injection Hk as <-. rewrite Hif in Hab. destruct (Hinv _ _ _ _ Hi Hj Hne Hab) as (? & ? & ? & _). congruence.
  - injection Hj as <-. rewrite Hif in Hab. destruct (Hinv _ _ _ _ Hk Hi Hne Hab) as (? & ? & _ & ? & _). congruence.
Qed.

Lemma iface_unused l ifc : existsb (fun h => iface h =? ifc) l = false -> forall h, h ∈ l -> iface h <> ifc.
Proof.
  intros Hex h Hh Heq. apply not_true_iff_false in Hex. apply Hex, existsb_exists.
  exists h. split; [by apply list_elem_of_In | by apply Z.eqb_eq].
Qed.

(** Adding next hops keeps the set well-formed; a full set refuses every
    addition, and a gateway that was accepted is in the set afterwards. *)
Theorem addNextHop_preserves (e : RibEntry) (nh ifc w : Z) :
  nh_inv (nextHops e) ->
  let '(e1, ok1) := addNextHop e nh ifc w in
  let '(e2, ok2) := addNextHopInterface e ifc w in
  nh_inv (nextHops e1) /\ nh_inv (nextHops e2) /\
  (nextHopCount e = MAX_NEXTHOP -> ok1 = false /\ ok2 = false) /\
  (ok1 = false -> e1 = e) /\ (ok2 = false -> e2 = e) /\
  (ok1 = true -> exists h, h ∈ nextHops e1 /\ nextHop h = Some nh /\ iface h = ifc) /\
  (ok2 = true -> forall h, h ∈ nextHops e -> iface h <> ifc).
Proof.
  intros Hnh. pose proof Hnh as [Hlen _]. unfold addNextHop, addNextHopInterface, nextHopCount.
  destruct (MAX_NEXTHOP <=? length (nextHops e))%nat eqn:Hfull; [split_all; done|]. apply Nat.leb_gt in Hfull.
  assert (H2 : let '(e2, ok2) :=
      if existsb (fun h => iface h =? ifc) (nextHops e) then (e, false)
      else (set_nextHops e (nextHops e ++ [mkNextHopPath None ifc w]), true) in
      nh_inv (nextHops e2) /\ (ok2 = false -> e2 = e) /\
      (ok2 = true -> forall h, h ∈ nextHops e -> iface h <> ifc)).
  { destruct (existsb _ _) eqn:Hex; [done|]. pose proof (iface_unused _ _ Hex) as Hno.
    split; [|split; done]. apply nh_inv_app; try done. intros x Hx Hf. destruct (Hno x Hx Hf). }
  destruct (if existsb _ _ then _ else _) as [e2 ok2]. destruct H2 as (H2a & H2b & H2c).
  pose proof (addNextHop_scan_spec (nextHops e) nh ifc) as Hs.
  destruct (addNextHop_scan (nextHops e) nh ifc) as [[l|]|].
  - destruct Hs as (i & h & Hi & Hn & Hf & ->). subst ifc. cbn [nextHops set_nextHops].
    split; [eapply nh_inv_set; done | split_all; try done; try (intros; exfalso; lia)].
    intros _. eexists. split; [eapply list_elem_of_lookup_2, list_lookup_insert_eq, lookup_lt_Some; done|done].
  - split_all; try done; intros; exfalso; lia.
  - cbn [nextHops set_nextHops]. split; [|split_all; try done; try (intros; exfalso; lia)].
    + apply nh_inv_app; try done. intros x Hx Hf. cbn in Hf. destruct (Hs x Hx Hf) as (a & Ha & Hne). exists a, nh. done.
    + intros _. eexists. split; [apply elem_of_app; right; apply list_elem_of_singleton; done|done].
Qed.

Lemma addNextHop_preserves_witness :
  nh_inv [mkNextHopPath None 3 1] /\
  nh_inv (nextHops (addNextHop (mkRibEntry 0 0 BGP 0 0 0 0 0 [mkNextHopPath None 3 1]) 77 3 1).1).
Proof.
  assert (H : nh_inv [mkNextHopPath None 3 1]).
  { split; [by_compute|]. intros [|i] [|j] a b Ha Hb Hne; done. }
  split; [done|].
  exact (proj1 (addNextHop_preserves (mkRibEntry 0 0 BGP 0 0 0 0 0 [mkNextHopPath None 3 1]) 77 3 1 H)).
Defined.
