(* ===== verification/Rib.v ===== *)
(** * Rib: the routing information base (core/routing/rib/Rib.hpp)

    The table from masked prefixes to heap-allocated buckets, the calls the RIB
    makes to the forwarding table, which is handed pointers to the buckets'
    published entries, and the announcement of each change to the route
    watchers. Operations run one at a time on the RIB's queue, so they are state
    transformers; [clear] is the body of the posted closure. The state keeps the
    calls to the forwarding table; what its trie makes of calls is modelled in
    [LpcTrie]. *)

From S2P Require Import Prelude RibBucket.

(** [core/routing/rib/RibEntry.hpp:26-36] PrefixKey *)
Definition PrefixKey : Type := Z * Z.

(** ** The calls to the forwarding table *)

(** What the RIB calls of its forwarding table; a pointer is that of a bucket,
    whose published entry is meant. *)
Inductive FibCall :=
  | FibInsert (k : PrefixKey) (p : nat)
  | FibErase (k : PrefixKey)
  | FibClear.

(** The pointer that the calls, last first, leave for a prefix. *)
Fixpoint told (calls : list FibCall) (k : PrefixKey) : option nat :=
  match calls with
  | [] => None
  | FibInsert k' p :: calls => if decide (k = k') then Some p else told calls k
  | FibErase k' :: calls => if decide (k = k') then None else told calls k
  | FibClear :: _ => None
  end.

(** ** Announcements *)

(** What [announceRouteChange] fires for a bucket: whether the prefix watchers
    run, and which protocol watch lists run ([None]: all of them, with a null
    route). *)
Record announcement := mkAnnouncement {
  ann_key : PrefixKey;
  ann_prefix : bool;
  ann_protocols : option (list (RouteSource * Z))
}.

Definition ptr_eqb (p q : option ptr) : bool := bool_decide (p = q).

(** [core/routing/RouteWatcher.hpp:546-610] RouteWatcher::announceRouteChange: the
    selection of the watch lists, with the reads through [prevBest] and
    [bestEntry] it makes. *)
Definition announceRouteChange (k : PrefixKey) (b : RibBucket) : outcome announcement :=
  let fire_prefix := negb (ptr_eqb (bestEntry b) (prevBest b)) in
  match routes b with
  | [] => Ret (mkAnnouncement k fire_prefix None)
  | _ :: _ =>
      old ← (match prevBest b with
             | None => Ret []
             | Some p => e ← deref b p; Ret [route_key e]
             end);
      new ← (match bestEntry b with
             | None => Ret []
             | Some p =>
                 e ← deref b p;
                 Ret (if bool_decide (route_key e ∈ old) then [] else [route_key e])
             end);
      Ret (mkAnnouncement k fire_prefix (Some (old ++ new)))
  end.

(** [core/routing/rib/Rib.hpp:76-81] Rib::mask *)
Definition rib_mask (W p l : Z) : Z :=
  if l =? 0 then 0 else if W <=? l then p
  else Z.land p (wrap W (Z.shiftl (all_ones W) (W - l))).

(** The masked key an operation works on. *)
Definition mk_key (W p l : Z) : PrefixKey := (rib_mask W p l, l).

Section RibOps.
  Context (W : Z).

(** [core/routing/rib/Rib.hpp:83-86] Rib: [table] holds pointers into [heap],
    the live buckets; [next_bucket] is the allocator; [fib] has the calls to
    the forwarding table, last first. *)
Record Rib := mkRib {
  table : gmap PrefixKey nat;
  heap : gmap nat RibBucket;
  next_bucket : nat;
  fib : list FibCall
}.

Definition Rib_new : Rib := mkRib ∅ ∅ 0 [].

Definition bucket_at (r : Rib) (p : nat) : outcome RibBucket :=
  match heap r !! p with Some b => Ret b | None => UB end.

(** [core/routing/rib/Rib.hpp:282-301] Rib::installRoute *)
Definition installRoute (r : Rib) (e : RibEntry) : outcome (Rib * option announcement) :=
  let key := mk_key W (prefix e) (length_ e) in
  match table r !! key with
  | None =>
      let p := next_bucket r in
      let b := (addRoute RibBucket_new e).1 in
      let r' := mkRib (<[key := p]> (table r)) (<[p := b]> (heap r)) (S p) (FibInsert key p :: fib r) in
      a ← announceRouteChange key b;
      Ret (r', Some a)
  | Some p =>
      b ← bucket_at r p;
      let '(b', changed) := addRoute b e in
      let r' := mkRib (table r) (<[p := b']> (heap r)) (next_bucket r) (fib r) in
      if changed then a ← announceRouteChange key b'; Ret (r', Some a)
      else Ret (r', None)
  end.

(** [core/routing/rib/Rib.hpp:310-334] Rib::withdrawRoute *)
Definition withdrawRoute (r : Rib) (pfx len : Z) (src : RouteSource) (pid : Z)
    : outcome (Rib * option announcement) :=
  let key := mk_key W pfx len in
  match table r !! key with
  | None => Ret (r, None)
  | Some p =>
      b ← bucket_at r p;
      let b' := removeRoute b src pid in
      a ← announceRouteChange key b';
      if RibBucket_empty b' then
        Ret (mkRib (delete key (table r)) (delete p (heap r)) (next_bucket r) (FibErase key :: fib r), Some a)
      else
        Ret (mkRib (table r) (<[p := b']> (heap r)) (next_bucket r) (fib r), Some a)
  end.

(** [core/routing/rib/Rib.hpp:123-129] Rib::addRoutes *)
Fixpoint addRoutes (r : Rib) (es : list RibEntry) : outcome Rib :=
  match es with
  | [] => Ret r
  | e :: es => x ← installRoute r e; addRoutes x.1 es
  end.

(** [core/routing/rib/Rib.hpp:153-159] Rib::removeRoutes *)
Fixpoint removeRoutes (r : Rib) (ws : list (Z * Z)) (src : RouteSource) (pid : Z) : outcome Rib :=
  match ws with
  | [] => Ret r
  | w :: ws => x ← withdrawRoute r w.1 w.2 src pid; removeRoutes x.1 ws src pid
  end.

(** [core/routing/rib/Rib.hpp:248-260] Rib::clear *)
Definition Rib_clear (r : Rib) : Rib := mkRib ∅ ∅ (next_bucket r) (FibClear :: fib r).

(** The entry behind the pointer that the forwarding table was last given for a
    prefix. *)
Definition forward (r : Rib) (k : PrefixKey) : outcome (option RibEntry) :=
  match told (fib r) k with
  | None => Ret None
  | Some p => b ← bucket_at r p; Ret (fibEntry b)
  end.

(** The routes the RIB holds for a key. *)
Definition rib_routes (r : Rib) (k : PrefixKey) : list RibEntry :=
  match table r !! k with
  | None => []
  | Some p => match heap r !! p with Some b => routes b | None => [] end
  end.

(** One operation of the queue. *)
Inductive rib_step : Rib -> Rib -> Prop :=
  | step_install r e r' a : installRoute r e = Ret (r', a) -> rib_step r r'
  | step_withdraw r pfx len src pid r' a :
      withdrawRoute r pfx len src pid = Ret (r', a) -> rib_step r r'
  | step_clear r : rib_step r (Rib_clear r).

Inductive rib_reachable : Rib -> Prop :=
  | reach_new : rib_reachable Rib_new
  | reach_step r r' : rib_reachable r -> rib_step r r' -> rib_reachable r'.

End RibOps.

Section RibProofs.
  Context (W : Z).

(** ** Coherence of table, heap and forwarding store *)

Definition rib_inv (r : Rib) : Prop :=
  (forall k p, table r !! k = Some p ->
     exists b, heap r !! p = Some b /\ bucket_inv b /\ (exists e, routes b = [e]) /\ cap b = 1%nat /\ (p < next_bucket r)%nat) /\
  (forall k k' p, table r !! k = Some p -> table r !! k' = Some p -> k = k') /\
  (forall k, told (fib r) k = table r !! k).

Lemma rib_inv_new : rib_inv Rib_new.
Proof. split; [|split]; cbn; intros; rewrite lookup_empty in *; done. Qed.

Lemma rib_inv_clear r : rib_inv (Rib_clear r).
Proof. split; [|split]; cbn; intros; rewrite lookup_empty in *; done. Qed.

Lemma addRoute_new_routes e : routes (addRoute RibBucket_new e).1 = [e].
Proof. reflexivity. Qed.

(** A route for a bucket that has one: it takes its place, or is a second one,
    for which the vector moves. *)
Lemma addRoute_single b e e0 : routes b = [e0] -> cap b = 1%nat ->
  (route_key e0 = route_key e /\ cap (addRoute b e).1 = 1%nat /\ exists e1, routes (addRoute b e).1 = [e1]) \/
  (route_key e0 <> route_key e /\ addRoute b e = (selectBest (push_back b e), true) /\ push_back b e = mkRibBucket (S (buf b)) 2 [e0; e] (bestEntry b) (prevBest b) (fibEntry b)).
Proof.
  intros Hr Hc. unfold addRoute. rewrite Hr. cbn [addRoute_scan]. destruct (same_key (source e) (processId e) e0) eqn:Hk.
  - left. apply same_key_iff in Hk. split; [done|]. destruct (_ && _ && _); cbn; rewrite ?Hc, ?Hr; eauto.
  - right. apply same_key_false in Hk. split; [done|]. split; [done|]. unfold push_back. rewrite Hr, Hc. done.
Qed.

(** Announcing a second route reads the buffer that the vector has left. *)
Lemma second_route_undefined k b e e0 : bucket_inv b -> routes b = [e0] -> cap b = 1%nat -> route_key e0 <> route_key e ->
  announceRouteChange k (addRoute b e).1 = UB.
Proof.
  intros (_ & _ & Hb) Hr Hc Hk. destruct (addRoute_single b e e0 Hr Hc) as [[? _]|(_ & -> & Hp)]; [done|].
  rewrite Hr in Hb. cbn in Hb. destruct Hb as [Hb _]. unfold announceRouteChange. cbn [fst]. rewrite routes_selectBest.
  assert (Eb : prevBest (selectBest (push_back b e)) = Some (buf b, 0%nat)) by (rewrite Hp; cbn; done).
  assert (Eu : buf (selectBest (push_back b e)) = S (buf b)) by (rewrite Hp; done).
  assert (Ed : deref (selectBest (push_back b e)) (buf b, 0%nat) = UB) by (unfold deref; rewrite Eu; cbn [fst]; rewrite decide_False by lia; done).
  rewrite Eb, Ed, Hp. done.
Qed.

(** Storing another bucket in a live cell keeps the table coherent. *)
Lemma rib_inv_update r k p b' :
  rib_inv r -> table r !! k = Some p -> bucket_inv b' -> (exists e, routes b' = [e]) -> cap b' = 1%nat ->
  rib_inv (mkRib (table r) (<[p := b']> (heap r)) (next_bucket r) (fib r)).
Proof.
  intros (H1 & H2 & H3) Hk Hb' Hne Hcap. split; [|split]; cbn; [|done|done].
  intros k0 p0 Hk0. destruct (decide (p0 = p)) as [->|Hp].
  - exists b'. rewrite lookup_insert_eq. destruct (H1 _ _ Hk) as (b & _ & _ & _ & _ & Hlt). done.
  - rewrite lookup_insert_ne by done. apply (H1 _ _ Hk0).
Qed.

Lemma installRoute_inv r e r' a :
  rib_inv r -> installRoute W r e = Ret (r', a) -> rib_inv r'.
Proof.
  intros Hr Hi. pose proof Hr as (H1 & H2 & H3). unfold installRoute in Hi.
  set (key := (mk_key W (prefix e) (length_ e))) in *.
  destruct (table r !! key) as [p|] eqn:Hk.
  - destruct (H1 _ _ Hk) as (b & Hb & Hbi & (e0 & He0) & Hcap & Hlt).
    unfold bucket_at in Hi. rewrite Hb, outcome_bind_ret_l in Hi.
    pose proof (addRoute_inv b e Hbi) as Hbi'. pose proof (addRoute_single b e e0 He0 Hcap) as Hs.
    pose proof (second_route_undefined key b e e0 Hbi He0 Hcap) as Hub.
    destruct (addRoute b e) as [b' changed]. cbn [fst] in *. destruct Hs as [(_ & Hcap' & Hne')|(Hne & [= -> ->] & _)].
    + assert (r' = mkRib (table r) (<[p := b']> (heap r)) (next_bucket r) (fib r)) as ->.
      { destruct changed; [apply outcome_bind_ret_inv in Hi as (? & _ & Hi)|]; congruence. }
      apply (rib_inv_update r key p b'); done.
    + rewrite Hub in Hi by done. discriminate.
  - apply outcome_bind_ret_inv in Hi as (an & _ & [= <- <-]).
    split; [|split]; cbn.
    + intros k p Hkp. destruct (decide (k = key)) as [->|Hne].
      * rewrite lookup_insert_eq in Hkp. injection Hkp as <-. eexists.
        split; [apply lookup_insert_eq|]. split; [apply (addRoute_inv _ e bucket_inv_new)|].
        split; [by exists e|]. split; [done|lia].
      * rewrite lookup_insert_ne in Hkp by done. destruct (H1 _ _ Hkp) as (b & Hb & ? & ? & ? & ?).
        exists b. rewrite lookup_insert_ne by lia. do 3 (split; [done|]). split; [done|lia].
    + intros k k' p Hkp Hkp'.
      destruct (decide (k = key)) as [->|Hn1], (decide (k' = key)) as [->|Hn2]; [done| | |].
      * rewrite lookup_insert_eq in Hkp. rewrite lookup_insert_ne in Hkp' by done.
        injection Hkp as <-. destruct (H1 _ _ Hkp') as (? & _ & _ & _ & _ & ?). lia.
      * rewrite lookup_insert_eq in Hkp'. rewrite lookup_insert_ne in Hkp by done.
        injection Hkp' as <-. destruct (H1 _ _ Hkp) as (? & _ & _ & _ & _ & ?). lia.
      * rewrite lookup_insert_ne in Hkp, Hkp' by done. eauto.
    + intros k. rewrite lookup_insert, H3. repeat case_decide; congruence.
Qed.

Lemma RibBucket_empty_routes b : bucket_inv b -> RibBucket_empty b = true <-> routes b = [].
Proof.
  intros Hb. destruct (bucket_inv_published b Hb) as [Hp _]. unfold RibBucket_empty.
  destruct (fibEntry b); [|split; [intros _; by apply Hp|done]].
  split; [done|]. intros Hr. apply Hp in Hr. done.
Qed.

Lemma withdrawRoute_inv r pfx len src pid r' a :
  rib_inv r -> withdrawRoute W r pfx len src pid = Ret (r', a) -> rib_inv r'.
Proof.
  intros Hr Hi. pose proof Hr as (H1 & H2 & H3). unfold withdrawRoute in Hi.
  set (key := mk_key W pfx len) in *.
  destruct (table r !! key) as [p|] eqn:Hk; [|congruence].
  destruct (H1 _ _ Hk) as (b & Hb & Hbi & (e & He) & Hcap & Hlt).
  unfold bucket_at in Hi. rewrite Hb, outcome_bind_ret_l in Hi.
  pose proof (removeRoute_inv b src pid Hbi) as Hbi'.
  assert (Hro : routes (removeRoute b src pid) = List.filter (fun x => negb (same_key src pid x)) [e]) by (rewrite <- He; done).
  assert (Hc : cap (removeRoute b src pid) = 1%nat) by exact Hcap.
  set (b' := removeRoute b src pid) in *.
  apply outcome_bind_ret_inv in Hi as (an & _ & Hi).
  destruct (RibBucket_empty b') eqn:Hem; injection Hi as <- <-.
  - split; [|split]; cbn.
    + intros k p0 Hkp. destruct (decide (k = key)) as [->|Hn].
      { rewrite lookup_delete_eq in Hkp. done. }
      rewrite lookup_delete_ne in Hkp by done. destruct (H1 _ _ Hkp) as (b0 & Hb0 & ?).
      exists b0. rewrite lookup_delete_ne; [done|]. intros <-. apply Hn. eauto.
    + intros k k' p0 Hkp Hkp'. apply lookup_delete_Some in Hkp as [_ Hkp], Hkp' as [_ Hkp']. eauto.
    + intros k. rewrite lookup_delete, H3. repeat case_decide; congruence.
  - apply (rib_inv_update r key p b'); try done. rewrite Hro. cbn. destruct (negb _) eqn:En; [by exists e|].
    exfalso. assert (Hn : routes b' = []) by (rewrite Hro; cbn; rewrite En; done). apply (RibBucket_empty_routes b' Hbi') in Hn. congruence.
Qed.

Lemma rib_reachable_inv r : rib_reachable W r -> rib_inv r.
Proof.
  induction 1 as [|r r' _ IH Hs]; [apply rib_inv_new|].
  destruct Hs; [eapply installRoute_inv | eapply withdrawRoute_inv | apply rib_inv_clear]; done.
Qed.

(** C1: A RIB that no operation has failed on holds at most one route for a
    prefix. The last call to the forwarding table about a prefix hands it the
    pointer to a live bucket that publishes this route, and where there is no
    route the last call, if there is one, takes the pointer away. *)
Theorem rib_publishes_its_route (r : Rib) (k : PrefixKey) :
  rib_reachable W r ->
  (told (fib r) k = None /\ rib_routes r k = []) \/
  (exists p e, told (fib r) k = Some p /\ table r !! k = Some p /\ forward r k = Ret (Some e) /\ rib_routes r k = [e]).
Proof.
  intros Hr. apply rib_reachable_inv in Hr as (H1 & H2 & H3).
  unfold forward, rib_routes, bucket_at. rewrite H3.
  destruct (table r !! k) as [p|] eqn:Hk; [|auto].
  destruct (H1 _ _ Hk) as (b & Hb & Hbi & (e & He) & _). rewrite Hb, outcome_bind_ret_l, He.
  destruct (bucket_inv_published b Hbi) as (Hp & _ & Hbest). right. exists p, e. do 2 (split; [done|]). split; [|done].
  destruct (fibEntry b) as [e'|] eqn:Ef; [|exfalso; rewrite (proj1 Hp eq_refl) in He; done].
  destruct (Hbest e' eq_refl) as (Hin & _). rewrite He in Hin. apply list_elem_of_singleton in Hin as ->. done.
Qed.

(** Once a prefix has a route, installing one of another source or process
    reads the previous best through a pointer into the buffer that the vector
    has just left, whatever the two routes are: undefined behaviour in every
    reachable RIB. *)
Theorem second_source_install_undefined (r : Rib) (e e0 : RibEntry) :
  rib_reachable W r -> rib_routes r (mk_key W (prefix e) (length_ e)) = [e0] -> route_key e0 <> route_key e -> installRoute W r e = UB.
Proof.
  intros Hr He Hk. apply rib_reachable_inv in Hr as (H1 & _ & _). unfold installRoute. unfold rib_routes in He.
  destruct (table r !! _) as [p|] eqn:Ek; [|done]. destruct (H1 _ _ Ek) as (b & Hb & Hbi & _ & Hcap & _). rewrite Hb in He.
  unfold bucket_at. rewrite Hb, outcome_bind_ret_l. pose proof (second_route_undefined (mk_key W (prefix e) (length_ e)) b e e0 Hbi He Hcap Hk) as Hub.
  destruct (addRoute_single b e e0 He Hcap) as [[? _]|(_ & Ha & _)]; [done|]. rewrite Ha in *. cbn [fst] in Hub. rewrite Hub. done.
Qed.

(** A withdrawal that returns leaves every other prefix's routes alone and
    removes from its own prefix exactly the routes of the given source and
    process. *)
Theorem withdrawRoute_routes (r r' : Rib) (pfx len : Z) (src : RouteSource) (pid : Z)
    (a : option announcement) (k : PrefixKey) :
  rib_inv r -> withdrawRoute W r pfx len src pid = Ret (r', a) ->
  rib_routes r' k =
    if decide (k = (mk_key W pfx len))
    then List.filter (fun x => negb (same_key src pid x)) (rib_routes r k)
    else rib_routes r k.
Proof.
  intros Hr Hi. pose proof Hr as (H1 & H2 & H3). unfold withdrawRoute in Hi.
  set (key := mk_key W pfx len) in *. unfold rib_routes.
  destruct (table r !! key) as [p|] eqn:Hk.
  2:{ assert (r' = r) as -> by congruence. destruct (decide (k = key)) as [Hd|Hd]; [|done].
      rewrite Hd, Hk. done. }
  destruct (H1 _ _ Hk) as (b & Hb & Hbi & Hne & Hcap & Hlt).
  unfold bucket_at in Hi. rewrite Hb, outcome_bind_ret_l in Hi.
  pose proof (removeRoute_inv b src pid Hbi) as Hbi'.
  assert (Hro : routes (removeRoute b src pid) =
                List.filter (fun x => negb (same_key src pid x)) (routes b)) by done.
  set (b' := removeRoute b src pid) in *.
  apply outcome_bind_ret_inv in Hi as (an & _ & Hi).
  destruct (RibBucket_empty b') eqn:He; injection Hi as <- <-; cbn.
  - apply (RibBucket_empty_routes b' Hbi') in He. case_decide as Hd.
    + rewrite Hd, lookup_delete_eq, Hk, Hb. congruence.
    + rewrite lookup_delete_ne by done. destruct (table r !! k) as [p'|] eqn:Hk'; [|done].
      rewrite lookup_delete_ne; [done|]. intros <-. apply Hd. eauto.
  - case_decide as Hd.
    + rewrite Hd, Hk, lookup_insert_eq, Hb. done.
    + destruct (table r !! k) as [p'|] eqn:Hk'; [|done].
      rewrite lookup_insert_ne; [done|]. intros <-. apply Hd. eauto.
Qed.

(** An installation that returns leaves every other prefix's routes alone; for
    a new prefix it creates the one-route entry, and for a known one it is the
    bucket's [addRoute]. *)
Theorem installRoute_routes (r r' : Rib) (e : RibEntry) (a : option announcement) (k : PrefixKey) :
  rib_inv r -> installRoute W r e = Ret (r', a) ->
  let key := mk_key W (prefix e) (length_ e) in
  (k <> key -> rib_routes r' k = rib_routes r k) /\
  (table r !! key = None -> rib_routes r' key = [e]) /\
  (forall p b, table r !! key = Some p -> heap r !! p = Some b ->
     rib_routes r' key = routes (addRoute b e).1).
Proof.
  intros Hr Hi key. pose proof Hr as (H1 & H2 & H3). unfold installRoute in Hi. fold key in Hi.
  unfold rib_routes. destruct (table r !! key) as [p|] eqn:Hk.
  - destruct (H1 _ _ Hk) as (b & Hb & Hbi & Hne & Hcap & Hlt).
    unfold bucket_at in Hi. rewrite Hb, outcome_bind_ret_l in Hi.
    destruct (addRoute b e) as [b' changed] eqn:Ha.
    assert (r' = mkRib (table r) (<[p := b']> (heap r)) (next_bucket r) (fib r)) as ->.
    { destruct changed; [apply outcome_bind_ret_inv in Hi as (? & _ & Hi)|]; congruence. }
    cbn. split; [|split; [done|]].
    + intros Hd. destruct (table r !! k) as [p'|] eqn:Hk'; [|done].
      rewrite lookup_insert_ne; [done|]. intros <-. apply Hd. eauto.
    + intros p0 b0 [= <-] Hb0. rewrite Hk, lookup_insert_eq.
      rewrite Hb in Hb0. injection Hb0 as <-. rewrite Ha. done.
  - apply outcome_bind_ret_inv in Hi as (an & _ & [= <- <-]). cbn. split; [|split; [|done]].
    + intros Hd. rewrite lookup_insert_ne by done. destruct (table r !! k) as [p'|] eqn:Hk'; [|done].
      destruct (H1 _ _ Hk') as (? & _ & _ & _ & _ & ?). rewrite lookup_insert_ne by lia. done.
    + intros _. rewrite !lookup_insert_eq. done.
Qed.

(** A route for a prefix the RIB does not hold is always installed, and its
    first announcement names its protocol and fires the prefix watchers. *)
Lemma installRoute_new_returns (r : Rib) (e : RibEntry) :
  table r !! (mk_key W (prefix e) (length_ e)) = None ->
  exists r', installRoute W r e =
    Ret (r', Some (mkAnnouncement (mk_key W (prefix e) (length_ e)) true
                     (Some [route_key e]))).
Proof. intros Hk. unfold installRoute. rewrite Hk. eexists. reflexivity. Qed.

End RibProofs.

(** The RIB with one route for 10.0.0.0/8. *)
Definition ex_rib : Rib :=
  match installRoute 32 Rib_new (ex_route BGP 1 20 5 7) with
  | Ret (r, _) => r
  | _ => Rib_new
  end.

Lemma ex_rib_reach : rib_reachable 32 ex_rib.
Proof. eapply reach_step; [apply reach_new|]. eapply (step_install 32 _ (ex_route BGP 1 20 5 7)). vm_compute. reflexivity. Qed.

Lemma ex_rib_inv : rib_inv ex_rib.
Proof.
  apply (rib_reachable_inv 32). eapply reach_step; [apply reach_new|].
  eapply (step_install 32 _ (ex_route BGP 1 20 5 7)). vm_compute. reflexivity.
Qed.

Lemma withdrawRoute_routes_witness :
  let x := ret_or (ex_rib, None) (withdrawRoute 32 ex_rib 167772160 8 BGP 1) in
  withdrawRoute 32 ex_rib 167772160 8 BGP 1 = Ret (x.1, x.2) /\
  rib_routes x.1 (167772160, 8) = [].
Proof.
  intros x. assert (Hx : withdrawRoute 32 ex_rib 167772160 8 BGP 1 = Ret (x.1, x.2)) by (vm_compute; reflexivity).
  split; [exact Hx|].
  rewrite (withdrawRoute_routes 32 ex_rib x.1 167772160 8 BGP 1 x.2 (167772160, 8) ex_rib_inv Hx).
  vm_compute. reflexivity.
Defined.

Lemma installRoute_routes_witness :
  let x := ret_or (ex_rib, None) (installRoute 32 ex_rib (ex_route BGP 1 20 4 7)) in
  installRoute 32 ex_rib (ex_route BGP 1 20 4 7) = Ret (x.1, x.2) /\
  rib_routes x.1 (0, 0) = rib_routes ex_rib (0, 0).
Proof.
  intros x. assert (Hx : installRoute 32 ex_rib (ex_route BGP 1 20 4 7) = Ret (x.1, x.2)) by (vm_compute; reflexivity).
  split; [exact Hx|].
  apply (installRoute_routes 32 ex_rib x.1 (ex_route BGP 1 20 4 7) x.2 (0, 0) ex_rib_inv Hx).
  vm_compute. congruence.
Defined.

Lemma rib_publishes_its_route_witness :
  exists p, told (fib ex_rib) (167772160, 8) = Some p /\ forward ex_rib (167772160, 8) = Ret (Some (ex_route BGP 1 20 5 7)).
Proof.
  destruct (rib_publishes_its_route 32 ex_rib (167772160, 8) ex_rib_reach) as [[H _]|(p & e & H1 & _ & H2 & H3)];
    [exfalso; vm_compute in H; discriminate|].
  exists p. split; [exact H1|]. rewrite H2. do 2 f_equal. vm_compute in H3. injection H3 as <-. reflexivity.
Defined.

Lemma second_source_install_undefined_witness : installRoute 32 ex_rib (ex_route OSPF_INTRA 1 110 5 7) = UB.
Proof.
  apply (second_source_install_undefined 32 ex_rib (ex_route OSPF_INTRA 1 110 5 7) (ex_route BGP 1 20 5 7) ex_rib_reach);
    [vm_compute; reflexivity | discriminate].
Defined.
