(* ===== verification/BestPath.v ===== *)
(** * BestPath: BGP path attributes and the decision process

    The attribute sets of routing/bgp/attributes/AttributeTypes.hpp, the
    inbound routes of routing/bgp/rib/RibTypes.hpp, the comparator of
    routing/bgp/decision/BestPath.cpp and the selection of
    routing/bgp/decision/DecisionEngine.hpp. A route's attributes are the copy
    [RouteBase::getPathAttributes] returns; [AttributeManager] shows that the
    copy is stable while the route holds its reference. Candidates are
    pointers into Adj-RIB-In, the memory [mem]. *)

From S2P Require Import Prelude IPAddress.
From Stdlib Require Import Sorting.Permutation Sorting.Sorted.

(** ** Attributes *)

(** [packet/headers/BgpHeader.hpp:62-64] BGP_ORIGIN_INCOMPLETE *)
Definition BGP_ORIGIN_INCOMPLETE : Z := 2.
(** [packet/headers/BgpHeader.hpp:99-99] BGP_AS_SET *)
Definition BGP_AS_SET : Z := 1.
(** [packet/headers/BgpHeader.hpp:100-100] BGP_AS_SEQUENCE *)
Definition BGP_AS_SEQUENCE : Z := 2.
(** [packet/headers/BgpHeader.hpp:101-101] BGP_AS_CONFED_SEQUENCE *)
Definition BGP_AS_CONFED_SEQUENCE : Z := 3.
(** [packet/headers/BgpHeader.hpp:102-102] BGP_AS_CONFED_SET *)
Definition BGP_AS_CONFED_SET : Z := 4.

(** [routing/bgp/attributes/AttributeTypes.hpp:29-35] AsPathSegment *)
Record AsPathSegment := mkSegment { segmentType : Z; asns : list Z }.

(** [routing/bgp/attributes/AttributeTypes.hpp:46-53] UnknownAttribute *)
Record UnknownAttribute := mkUnknown { ua_flags : Z; ua_type : Z; ua_value : list Z }.

(** [routing/bgp/attributes/AttributeTypes.hpp:64-70] Aggregator *)
Record Aggregator := mkAggregator { ag_asn : Z; speaker : IPAddress }.

(** [routing/bgp/attributes/AttributeTypes.hpp:137-157] Attributes *)
Record Attributes := mkAttributes {
  origin : option Z;
  asPath : list AsPathSegment;
  as4Path : list AsPathSegment;
  localPref : option Z;
  atomicAggregate : bool;
  med : option Z;
  asAggregator : option Aggregator;
  as4Aggregator : option Aggregator;
  communities : list Z;
  extendedCommunities : list Z;
  largeCommunities : list (Z * Z * Z);
  originatorId : option Z;
  clusterList : list Z;
  aigp : option Z;
  unknownTransitive : list UnknownAttribute
}.

(** [routing/bgp/attributes/AttributeTypes.hpp:203-203] Attributes::Attributes *)
Definition Attributes_new : Attributes :=
  mkAttributes None [] [] None false None None None [] [] [] None [] None [].

(** [routing/bgp/attributes/AttributeTypes.hpp:175-182] BgpAttributes::asPathLength: The hops one segment adds. *)
Definition segment_hops (seg : AsPathSegment) : Z :=
  if (segmentType seg =? BGP_AS_CONFED_SEQUENCE) || (segmentType seg =? BGP_AS_CONFED_SET) then 0
  else if segmentType seg =? BGP_AS_SET then (match asns seg with [] => 0 | _ => 1 end)
  else Z.of_nat (length (asns seg)).

(** [routing/bgp/attributes/AttributeTypes.hpp:169-185] Attributes::asPathLength *)
Definition asPathLength (a : Attributes) : Z :=
  fold_left (fun total seg => total + segment_hops seg) (asPath a) 0.

(** [routing/bgp/attributes/AttributeTypes.hpp:195-201] Attributes::firstAs *)
Definition firstAs (a : Attributes) : Z :=
  let fix go (segs : list AsPathSegment) : Z :=
    match segs with
    | [] => 0
    | seg :: segs =>
        if segmentType seg =? BGP_AS_SEQUENCE
        then match asns seg with [] => go segs | asn :: _ => asn end
        else go segs
    end in
  go (asPath a).

(** ** Inbound routes *)

(** What the decision process reads of a neighbor: [globalNbr().rid] and
    [globalNbr().neighborAddress]. *)
Record NeighborAf := mkNeighborAf { rid : Z; neighborAddress : IPAddress }.

(** [routing/bgp/rib/RibTypes.hpp:280-311] InboundRouteBase: [attrs] is what
    [getPathAttributes().attrs] returns. *)
Record InboundRoute := mkInboundRoute {
  attrs : Attributes;
  sourceNeighbor : option NeighborAf;
  weigth : Z;
  peerAs : Z;
  ebgp : bool;
  confedEbgp : bool;
  igpCost : Z;
  receivedTime : Z
}.

(** [routing/bgp/rib/RibTypes.hpp:300-301] InboundRouteBase::InboundRouteBase:
    [now] is the clock's reading. *)
Definition InboundRoute_new (a : Attributes) (nbr : option NeighborAf) (now : Z) : InboundRoute :=
  mkInboundRoute a nbr (match nbr with None => 32768 | Some _ => 0 end) 0 true false (all_ones 64) now.

(** ** The comparator *)

(** [routing/bgp/decision/BestPath.h:22-27] BestPathConfig *)
Record BestPathConfig := mkBestPathConfig {
  compareRouterId : bool;
  medMissingAsWorst : bool;
  ignoreIgpMetric : bool
}.

(** [routing/bgp/decision/BestPath.cpp:10-13] localPrefOrDefault *)
Definition localPrefOrDefault (a : Attributes) : Z := default 100 (localPref a).

(** [routing/bgp/decision/BestPath.cpp:15-20] medOrDefault *)
Definition medOrDefault (a : Attributes) (missingAsWorst : bool) : Z :=
  match med a with
  | None => if missingAsWorst then all_ones 32 else 0
  | Some m => m
  end.

(** [routing/bgp/decision/BestPath.cpp:22-25] originRank *)
Definition originRank (a : Attributes) : Z := u8 (default BGP_ORIGIN_INCOMPLETE (origin a)).

Section Comparator.
  (** The process: [BGP_ALWAYS_COMPARE_MED] and [getRouterId()]; the
      comparator's configuration. *)
  Context (alwaysCompareMed : bool) (routerId : Z) (config : BestPathConfig).

(** [routing/bgp/decision/BestPath.cpp:30-36] BestPathComparator::compareMed *)
Definition compareMed (lhs rhs : InboundRoute) : bool :=
  if negb alwaysCompareMed && negb (peerAs lhs =? peerAs rhs) then false
  else medOrDefault (attrs lhs) (medMissingAsWorst config)
         <? medOrDefault (attrs rhs) (medMissingAsWorst config).

Definition routeRid (r : InboundRoute) : Z :=
  match sourceNeighbor r with Some n => rid n | None => routerId end.

(** [routing/bgp/decision/BestPath.cpp:38-97] BestPathComparator::better *)
Definition better (lhs : InboundRoute) (lhsNbr : IPAddress) (rhs : InboundRoute) (rhsNbr : IPAddress)
    : bool :=
  let lhsAttr := attrs lhs in
  let rhsAttr := attrs rhs in
  if negb (weigth lhs =? weigth rhs) then weigth rhs <? weigth lhs
  else if negb (localPrefOrDefault lhsAttr =? localPrefOrDefault rhsAttr)
  then localPrefOrDefault rhsAttr <? localPrefOrDefault lhsAttr
  else if (match sourceNeighbor lhs, sourceNeighbor rhs with None, Some _ => true | _, _ => false end)
  then true
  else if negb (asPathLength lhsAttr =? asPathLength rhsAttr)
  then asPathLength lhsAttr <? asPathLength rhsAttr
  else if negb (originRank lhsAttr =? originRank rhsAttr)
  then originRank lhsAttr <? originRank rhsAttr
  else if compareMed lhs rhs then true
  else if compareMed rhs lhs then false
  else
    let lhsExternal := ebgp lhs || confedEbgp lhs in
    let rhsExternal := ebgp rhs || confedEbgp rhs in
    if negb (eqb lhsExternal rhsExternal) then lhsExternal
    else if negb (ignoreIgpMetric config) && negb (igpCost lhs =? igpCost rhs)
    then igpCost lhs <? igpCost rhs
    else if negb (compareRouterId config) && negb (receivedTime lhs =? receivedTime rhs)
    then receivedTime lhs <? receivedTime rhs
    else if compareRouterId config && negb (routeRid lhs =? routeRid rhs)
    then routeRid lhs <? routeRid rhs
    else IPAddress_lt lhsNbr rhsNbr.

(** ** Selection *)

(** The neighbor address of a candidate, [kEmpty] for a local route. *)
Definition nbrAddr (r : InboundRoute) : IPAddress :=
  match sourceNeighbor r with Some n => neighborAddress n | None => IPAddress_u128 0 end.

Definition better_route (a b : InboundRoute) : bool := better a (nbrAddr a) b (nbrAddr b).

Section Selection.
  Context (mem : nat -> InboundRoute).

(** [routing/bgp/rib/RibTypes.hpp:370-376] LocalRoute *)
Record LocalRoute := mkLocalRoute {
  route : nat;
  multipaths : list nat;
  additionalPaths : list nat
}.

Definition better_ptr (a b : nat) : bool := better_route (mem a) (mem b).

(** [routing/bgp/decision/DecisionEngine.hpp:58-64] DecisionEngine::selectBest: the scan *)
Definition scanBest (first : nat) (rest : list nat) : nat :=
  fold_left (fun best cand => if better_ptr cand best then cand else best) rest first.

(** [routing/bgp/decision/DecisionEngine.hpp:109-116] DecisionEngine::equivalent *)
Definition equivalent (lhs : InboundRoute) (lhsNbr : IPAddress) (rhs : InboundRoute) (rhsNbr : IPAddress)
    : bool :=
  if better lhs lhsNbr rhs rhsNbr then false
  else if better rhs rhsNbr lhs lhsNbr then false
  else true.

(** [routing/bgp/decision/DecisionEngine.hpp:71-87] DecisionEngine::selectBest: the multipath loop *)
Fixpoint collectMultipaths (best : nat) (maxPaths : nat) (cands : list nat) (acc : list nat) : list nat :=
  match cands with
  | [] => acc
  | cand :: cands =>
      if Nat.eqb cand best then collectMultipaths best maxPaths cands acc
      else if negb (better_ptr best cand) && negb (better_ptr cand best)
      then let acc := acc ++ [cand] in
           if (maxPaths <=? length acc + 1)%nat then acc
           else collectMultipaths best maxPaths cands acc
      else collectMultipaths best maxPaths cands acc
  end.

(** [routing/bgp/decision/DecisionEngine.hpp:47-90] DecisionEngine::selectBest *)
Definition selectBest (canidates : list nat) (maxEPaths maxIPaths : nat) : option LocalRoute :=
  match canidates with
  | [] => None
  | first :: rest =>
      let best := scanBest first rest in
      let maxPaths := if ebgp (mem best) then maxEPaths else maxIPaths in
      Some (mkLocalRoute best
              (if (1 <? maxPaths)%nat then collectMultipaths best maxPaths canidates [] else []) [])
  end.

(** [std::stable_sort]: the stable permutation sorted by [lt], which is
    unique when [lt] is a strict weak order (the function's precondition). *)
Fixpoint stable_insert (lt : nat -> nat -> bool) (x : nat) (l : list nat) : list nat :=
  match l with
  | [] => [x]
  | y :: l' => if lt y x then y :: stable_insert lt x l' else x :: l
  end.
Definition stable_sort (lt : nat -> nat -> bool) (l : list nat) : list nat :=
  fold_right (stable_insert lt) [] l.

(** [routing/bgp/decision/DecisionEngine.hpp:93-107] DecisionEngine::rankCandidates *)
Definition rankCandidates (candidates : list nat) : list nat := stable_sort better_ptr candidates.

End Selection.
End Comparator.

(** ** The comparator is a lexicographic order on comparable routes *)

Fixpoint lex_lt (l1 l2 : list Z) : bool :=
  match l1, l2 with
  | x :: l1, y :: l2 => (x <? y) || ((x =? y) && lex_lt l1 l2)
  | _, _ => false
  end.

Lemma lex_lt_irrefl l : lex_lt l l = false.
Proof. induction l as [|x l IH]; cbn; [done|]. rewrite Z.ltb_irrefl, IH, andb_false_r. done. Qed.

Lemma lex_lt_trans l1 l2 l3 : lex_lt l1 l2 = true -> lex_lt l2 l3 = true -> lex_lt l1 l3 = true.
Proof.
  revert l2 l3. induction l1 as [|x l1 IH]; intros [|y l2] [|z l3]; cbn; try done.
  rewrite !orb_true_iff, !andb_true_iff, !Z.ltb_lt, !Z.eqb_eq.
  intros [|[-> H1]] [|[-> H2]]; [left; lia | left; lia | left; lia |].
  right. split; [done|]. eauto.
Qed.

Lemma lex_lt_total l1 l2 :
  length l1 = length l2 -> lex_lt l1 l2 = false -> lex_lt l2 l1 = false -> l1 = l2.
Proof.
  revert l2. induction l1 as [|x l1 IH]; intros [|y l2]; cbn; try done.
  intros [= Hl] H1 H2. apply orb_false_iff in H1 as [H1 H1'], H2 as [H2 H2'].
  apply Z.ltb_ge in H1, H2. assert (x = y) as -> by lia. rewrite Z.eqb_refl in *.
  f_equal. apply IH; done.
Qed.

(** The steps of the comparator as steps of the lexicographic order. *)
Lemma lex_step (x y : Z) (B : bool) :
  (if negb (x =? y) then x <? y else B) = (x <? y) || ((x =? y) && B).
Proof. zcases; cbn; (done || lia). Qed.

Lemma lex_step_gt (x y : Z) (B : bool) :
  (if negb (x =? y) then y <? x else B) = (- x <? - y) || ((- x =? - y) && B).
Proof. zcases; cbn; (done || lia). Qed.

Lemma lex_step_two (x y : Z) (B : bool) :
  (if x <? y then true else if y <? x then false else B) = (x <? y) || ((x =? y) && B).
Proof. zcases; cbn; (done || lia). Qed.

Lemma lex_step_bool (x y B : bool) :
  (if negb (eqb x y) then x else B) =
    ((if x then 0 else 1) <? (if y then 0 else 1)) || (((if x then 0 else 1) =? (if y then 0 else 1)) && B).
Proof. destruct x, y; reflexivity. Qed.

Lemma lex_step_opt (c : bool) (x y : Z) (B : bool) :
  (if negb c && negb (x =? y) then x <? y else B) =
    ((if c then 0 else x) <? (if c then 0 else y)) || (((if c then 0 else x) =? (if c then 0 else y)) && B).
Proof. destruct c; cbn [negb andb]; [reflexivity | apply lex_step]. Qed.

Lemma lex_step_either (c : bool) (x y x' y' : Z) (B : bool) :
  (if negb c && negb (x =? y) then x <? y
   else if c && negb (x' =? y') then x' <? y' else B) =
    ((if c then x' else x) <? (if c then y' else y)) ||
    (((if c then x' else x) =? (if c then y' else y)) && B).
Proof. destruct c; cbn [negb andb]; apply lex_step. Qed.

(** When a step is undecided both ways, so are the steps after it. *)
Lemma step_sym (x y : Z) (B B' : bool) :
  (if negb (x =? y) then x <? y else B) = false -> (if negb (y =? x) then y <? x else B') = false ->
  x = y /\ B = false /\ B' = false.
Proof. zcases; cbn; intros; (done || lia). Qed.

Lemma step_sym_gt (x y : Z) (B B' : bool) :
  (if negb (x =? y) then y <? x else B) = false -> (if negb (y =? x) then x <? y else B') = false ->
  x = y /\ B = false /\ B' = false.
Proof. zcases; cbn; intros; (done || lia). Qed.

Lemma step_sym_two (p q B B' : bool) :
  (if p then true else if q then false else B) = false ->
  (if q then true else if p then false else B') = false -> B = false /\ B' = false.
Proof. destruct p, q; done. Qed.

Lemma step_sym_bool (x y B B' : bool) :
  (if negb (eqb x y) then x else B) = false -> (if negb (eqb y x) then y else B') = false ->
  B = false /\ B' = false.
Proof. destruct x, y; done. Qed.

Lemma step_sym_opt (c : bool) (x y : Z) (B B' : bool) :
  (if c && negb (x =? y) then x <? y else B) = false ->
  (if c && negb (y =? x) then y <? x else B') = false -> B = false /\ B' = false.
Proof. destruct c; zcases; cbn; intros; (done || lia). Qed.

Section ComparatorProofs.
  Context (alwaysCompareMed : bool) (routerId : Z) (config : BestPathConfig).
  #[local] Abbreviation better_route := (better_route alwaysCompareMed routerId config).

(** The sort key of a route: smaller is better. *)
Definition route_key (r : InboundRoute) : list Z :=
  [ - weigth r; - localPrefOrDefault (attrs r); asPathLength (attrs r); originRank (attrs r);
    medOrDefault (attrs r) (medMissingAsWorst config);
    if ebgp r || confedEbgp r then 0 else 1;
    if ignoreIgpMetric config then 0 else igpCost r;
    if compareRouterId config then routeRid routerId r else receivedTime r;
    raw (nbrAddr r) ].

(** Two routes are comparable when they are both local or both received, or
    the steps before the local-origin step tell them apart; and their MEDs
    are compared. *)
Definition comparable (a b : InboundRoute) : Prop :=
  ((sourceNeighbor a = None <-> sourceNeighbor b = None) \/ weigth a <> weigth b \/
   localPrefOrDefault (attrs a) <> localPrefOrDefault (attrs b)) /\
  (alwaysCompareMed = true \/ peerAs a = peerAs b).

Lemma compareMed_comparable a b :
  alwaysCompareMed = true \/ peerAs a = peerAs b ->
  compareMed alwaysCompareMed config a b =
    (medOrDefault (attrs a) (medMissingAsWorst config) <? medOrDefault (attrs b) (medMissingAsWorst config)).
Proof.
  unfold compareMed. intros [->|Hp]; [done|]. rewrite Hp, Z.eqb_refl, andb_false_r. done.
Qed.

Lemma better_route_lex a b :
  comparable a b -> better_route a b = lex_lt (route_key a) (route_key b).
Proof.
  intros [Hc Hm]. unfold BestPath.better_route, better, route_key.
  rewrite !compareMed_comparable by (destruct Hm; [left | right]; congruence).
  rewrite lex_step_either, lex_step_opt, lex_step_bool, lex_step_two, !lex_step.
  cbn [lex_lt]. rewrite andb_false_r, orb_false_r. unfold IPAddress_lt.
  set (rest := (asPathLength (attrs a) <? asPathLength (attrs b)) || _).
  destruct (sourceNeighbor a) eqn:Ha, (sourceNeighbor b) eqn:Hb; rewrite !lex_step_gt; try done.
  destruct Hc as [[Hc _]|Hc]; [by specialize (Hc eq_refl)|].
  destruct (Z.eqb_spec (- weigth a) (- weigth b)) as [E|E]; [|done].
  destruct (Z.eqb_spec (- localPrefOrDefault (attrs a)) (- localPrefOrDefault (attrs b))); [|done].
  exfalso. destruct Hc; lia.
Qed.

(** With no restriction at all: two routes neither of which is better have the
    same neighbor address. *)
Lemma not_better_same_nbr a b :
  better_route a b = false -> better_route b a = false -> nbrAddr a = nbrAddr b.
Proof.
  unfold BestPath.better_route, better. intros H1 H2.
  apply (step_sym_gt _ _ _ _ H1) in H2 as (_ & H3 & H4); clear H1.
  apply (step_sym_gt _ _ _ _ H3) in H4 as (_ & H1 & H2); clear H3.
  destruct (sourceNeighbor a), (sourceNeighbor b); try done.
  all: apply (step_sym _ _ _ _ H1) in H2 as (_ & H3 & H4); clear H1;
    apply (step_sym _ _ _ _ H3) in H4 as (_ & H1 & H2); clear H3;
    apply (step_sym_two _ _ _ _ H1) in H2 as (H3 & H4); clear H1;
    apply (step_sym_bool _ _ _ _ H3) in H4 as (H1 & H2); clear H3;
    apply (step_sym_opt _ _ _ _ _ H1) in H2 as (H3 & H4); clear H1;
    apply (step_sym_opt _ _ _ _ _ H3) in H4 as (H1 & H2); clear H3;
    apply (step_sym_opt _ _ _ _ _ H1) in H2 as (H3 & H4); clear H1;
    unfold IPAddress_lt in *; apply Z.ltb_ge in H3, H4;
    destruct (nbrAddr a), (nbrAddr b); cbn in *; f_equal; lia.
Qed.

(** ** Selection over an order given by a key *)

Section Scan.
  Context (mem : nat -> InboundRoute).
  #[local] Abbreviation bt := (better_ptr alwaysCompareMed routerId config mem).
  #[local] Abbreviation key := (fun p => route_key (mem p)).

Definition pairwise_comparable (l : list nat) : Prop :=
  forall a b, a ∈ l -> b ∈ l -> comparable (mem a) (mem b).

(** [r] is the first of the candidates than which no other is better. *)
Definition first_best (l : list nat) (r : nat) : Prop :=
  exists i, l !! i = Some r /\ (forall c, c ∈ l -> bt c r = false) /\
    (forall j c, (j < i)%nat -> l !! j = Some c -> bt r c = true).

Lemma bt_key l a b : pairwise_comparable l -> a ∈ l -> b ∈ l -> bt a b = lex_lt (key a) (key b).
Proof. intros Hl Ha Hb. apply better_route_lex, Hl; done. Qed.

Lemma bt_negtrans l a b c :
  pairwise_comparable l -> a ∈ l -> b ∈ l -> c ∈ l ->
  bt a b = true -> bt c b = false -> bt a c = true.
Proof.
  intros Hl Ha Hb Hc. rewrite !(bt_key l) by done. intros H1 H2.
  destruct (lex_lt (key b) (key c)) eqn:H3; [eapply lex_lt_trans; done|].
  rewrite (lex_lt_total (key c) (key b)); done.
Qed.

Lemma bt_irrefl l a : pairwise_comparable l -> a ∈ l -> bt a a = false.
Proof. intros Hl Ha. rewrite (bt_key l) by done. apply lex_lt_irrefl. Qed.

Lemma bt_asym l a b : pairwise_comparable l -> a ∈ l -> b ∈ l -> bt a b = true -> bt b a = false.
Proof.
  intros Hl Ha Hb. rewrite !(bt_key l) by done. intros H.
  destruct (lex_lt (key b) (key a)) eqn:H2; [|done].
  pose proof (lex_lt_trans _ _ _ H H2) as H3. rewrite lex_lt_irrefl in H3. done.
Qed.

Lemma first_best_elem l r : first_best l r -> r ∈ l.
Proof. intros (i & Hi & _). eapply list_elem_of_lookup_2, Hi. Qed.

Lemma first_best_unique l r r' : first_best l r -> first_best l r' -> r = r'.
Proof.
  intros (i & Hi & H1 & H2) (i' & Hi' & H1' & H2').
  destruct (Nat.lt_trichotomy i i') as [Hlt|[<-|Hlt]].
  - specialize (H2' _ _ Hlt Hi). rewrite H1 in H2' by (eapply list_elem_of_lookup_2; done). done.
  - congruence.
  - specialize (H2 _ _ Hlt Hi'). rewrite H1' in H2 by (eapply list_elem_of_lookup_2; done). done.
Qed.

Lemma scanBest_first_best first rest :
  pairwise_comparable (first :: rest) ->
  first_best (first :: rest) (scanBest alwaysCompareMed routerId config mem first rest).
Proof.
  unfold scanBest. induction rest as [|c rest IH] using rev_ind; intros Hl.
  - exists 0%nat. split; [done|]. split; [|intros j c Hj; lia].
    intros c Hc. apply list_elem_of_singleton in Hc as ->. eapply bt_irrefl; [done|]. constructor.
  - assert (Hl' : pairwise_comparable (first :: rest)).
    { intros a b Ha Hb. apply Hl; rewrite app_comm_cons; apply elem_of_app; auto. }
    specialize (IH Hl'). rewrite fold_left_app. cbn [fold_left].
    set (r := fold_left _ rest first) in *. pose proof (first_best_elem _ _ IH) as Hr.
    destruct IH as (i & Hi & H1 & H2).
    rewrite app_comm_cons in *. clear Hl'. set (l := first :: rest) in *.
    assert (Hin : forall x, x ∈ l -> x ∈ l ++ [c]) by (intros; apply elem_of_app; auto).
    assert (Hc : c ∈ l ++ [c]) by (apply elem_of_app; right; constructor).
    pose proof (lookup_lt_Some _ _ _ Hi) as Hlt.
    destruct (bt c r) eqn:Hbt.
    + exists (length l). split; [apply list_lookup_middle; done|]. split.
      * intros x Hx. apply elem_of_app in Hx as [Hx|Hx].
        -- apply (bt_asym _ c x Hl); auto. apply (bt_negtrans _ c r x Hl); auto.
        -- apply list_elem_of_singleton in Hx as ->. eapply bt_irrefl; done.
      * intros j x Hj Hx. rewrite lookup_app_l in Hx by done.
        pose proof (list_elem_of_lookup_2 _ _ _ Hx) as Hx'. apply (bt_negtrans _ c r x Hl); auto.
    + exists i. split; [rewrite lookup_app_l; done|]. split.
      * intros x Hx. apply elem_of_app in Hx as [Hx|Hx]; [auto|].
        apply list_elem_of_singleton in Hx as ->. done.
      * intros j x Hj Hx. rewrite lookup_app_l in Hx by lia. eauto.
Qed.

(** The multipath loop takes the equivalent candidates in order, up to the
    configured number of paths. *)
Lemma collectMultipaths_take best m cands acc :
  (length acc + 1 < m)%nat ->
  collectMultipaths alwaysCompareMed routerId config mem best m cands acc =
    acc ++ take (m - 1 - length acc)
      (List.filter (fun c => negb (Nat.eqb c best) && (negb (bt best c) && negb (bt c best))) cands).
Proof.
  revert acc. induction cands as [|c cands IH]; intros acc Hm; cbn [collectMultipaths List.filter].
  - rewrite take_nil, app_nil_r. done.
  - destruct (Nat.eqb_spec c best) as [->|Hne]; cbn [negb andb]; [auto|].
    destruct (negb (bt best c) && negb (bt c best)); [|auto].
    rewrite length_app. cbn [length].
    destruct (m <=? length acc + 1 + 1)%nat eqn:Hle.
    + apply Nat.leb_le in Hle. replace (m - 1 - length acc)%nat with 1%nat by lia. done.
    + apply Nat.leb_gt in Hle. rewrite IH by (rewrite length_app; cbn; lia).
      rewrite length_app, <- app_assoc. cbn [length].
      replace (m - 1 - length acc)%nat with (S (m - 1 - (length acc + 1)))%nat by lia. done.
Qed.

(** ** Stable sorting *)

Lemma stable_insert_Permutation lt x l : stable_insert lt x l ≡ₚ x :: l.
Proof.
  induction l as [|y l IH]; cbn; [done|]. destruct (lt y x); [|done].
  rewrite IH. apply Permutation_swap.
Qed.

Lemma stable_sort_Permutation lt l : stable_sort lt l ≡ₚ l.
Proof.
  induction l as [|x l IH]; cbn; [done|]. unfold stable_sort in *.
  rewrite stable_insert_Permutation, IH. done.
Qed.

(** No element is better than an earlier one. *)
Definition ranked (l : list nat) : Prop := StronglySorted (fun a b => bt b a = false) l.

Lemma stable_insert_ranked L x l :
  pairwise_comparable L -> x ∈ L -> (forall y, y ∈ l -> y ∈ L) -> ranked l ->
  ranked (stable_insert bt x l).
Proof.
  intros HL Hx Hl. induction l as [|y l IH]; cbn; intros Hs.
  - repeat constructor.
  - apply StronglySorted_inv in Hs as [Hs Hy].
    assert (Hyl : y ∈ L) by (apply Hl; constructor).
    assert (Hl' : forall z, z ∈ l -> z ∈ L) by (intros; apply Hl; by constructor).
    destruct (bt y x) eqn:E.
    + constructor; [apply IH; done|]. rewrite stable_insert_Permutation. constructor; [|done].
      apply (bt_asym L); done.
    + constructor; [constructor; done|]. constructor; [done|].
      rewrite Forall_forall in Hy |- *. intros z Hz.
      destruct (bt z x) eqn:E2; [|done].
      rewrite <- (Hy z Hz). symmetry. apply (bt_negtrans L z x y); auto.
Qed.

Lemma stable_sort_ranked l : pairwise_comparable l -> ranked (stable_sort bt l).
Proof.
  intros HL. assert (Hgen : forall l', (forall y, y ∈ l' -> y ∈ l) -> ranked (stable_sort bt l')).
  { intros l'. induction l' as [|x l' IH]; intros Hl'; [constructor|].
    change (stable_sort bt (x :: l')) with (stable_insert bt x (stable_sort bt l')).
    apply (stable_insert_ranked l); [done | apply Hl'; constructor | |].
    - intros y Hy. rewrite stable_sort_Permutation in Hy. apply Hl'. by constructor.
    - apply IH. intros y Hy. apply Hl'. by constructor. }
  auto.
Qed.

(** The head of the stable sort is the first of the best. *)
Lemma stable_sort_head l r s :
  pairwise_comparable l -> stable_sort bt l = r :: s -> first_best l r.
Proof.
  revert r s. induction l as [|x l IH]; intros r s HL Hs; [done|].
  assert (HL' : pairwise_comparable l) by (intros a b Ha Hb; apply HL; by constructor).
  assert (Hx : x ∈ x :: l) by constructor.
  change (stable_sort bt (x :: l)) with (stable_insert bt x (stable_sort bt l)) in Hs.
  destruct (stable_sort bt l) as [|y s'] eqn:Hl; cbn in Hs.
  - injection Hs as <- <-.
    assert (l = []) as -> by (apply Permutation_nil_r; rewrite <- Hl; symmetry; apply stable_sort_Permutation).
    exists 0%nat. split; [done|]. split; [|intros j c Hj; lia].
    intros c Hc. apply list_elem_of_singleton in Hc as ->. apply (bt_irrefl [x]); done.
  - specialize (IH y s' HL' eq_refl). pose proof (first_best_elem _ _ IH) as Hy.
    destruct IH as (i & Hi & H1 & H2).
    assert (Hyl : y ∈ x :: l) by (by constructor).
    destruct (bt y x) eqn:E; injection Hs as <- _.
    + exists (S i). split; [done|]. split.
      * intros c Hc. apply elem_of_cons in Hc as [->|Hc]; [apply (bt_asym _ y x HL); done | auto].
      * intros [|j] c Hj Hc; [injection Hc as <-; done | eapply H2; [|exact Hc]; lia].
    + exists 0%nat. split; [done|]. split; [|intros j c Hj; lia].
      intros c Hc. apply elem_of_cons in Hc as [->|Hc]; [apply (bt_irrefl _ x HL); done|].
      destruct (bt c x) eqn:E2; [|done]. rewrite <- (H1 c Hc). symmetry.
      apply (bt_negtrans _ c x y HL); try done. by constructor.
Qed.

End Scan.

(** ** The theorems *)

(** C12: On pairwise comparable candidates the decision process returns the first
    candidate than which none is better, nothing exactly when there is no
    candidate, and as multipaths the equivalent candidates in order, at most
    one less than the configured number of paths. *)
Theorem selectBest_spec (mem : nat -> InboundRoute) (cands : list nat) (maxE maxI : nat) :
  pairwise_comparable mem cands ->
  match selectBest alwaysCompareMed routerId config mem cands maxE maxI with
  | None => cands = []
  | Some lr =>
      let maxPaths := if ebgp (mem (route lr)) then maxE else maxI in
      first_best mem cands (route lr) /\
      multipaths lr = take (maxPaths - 1)
        (List.filter (fun c => negb (Nat.eqb c (route lr)) &&
             equivalent alwaysCompareMed routerId config (mem (route lr)) (nbrAddr (mem (route lr)))
               (mem c) (nbrAddr (mem c))) cands) /\
      additionalPaths lr = []
  end.
Proof.
  intros HL. destruct cands as [|first rest]; [done|]. cbn [selectBest route multipaths additionalPaths].
  split; [apply scanBest_first_best, HL|]. split; [|done].
  set (best := scanBest _ _ _ _ _ _). set (m := if ebgp (mem best) then maxE else maxI).
  destruct (1 <? m)%nat eqn:Hm.
  - apply Nat.ltb_lt in Hm. rewrite collectMultipaths_take by (cbn; lia). cbn [app length].
    rewrite Nat.sub_0_r. f_equal. apply List.filter_ext. intros c. f_equal.
    unfold equivalent, better_ptr, BestPath.better_route. repeat case_match; done.
  - apply Nat.ltb_ge in Hm. replace (m - 1)%nat with 0%nat by lia. done.
Qed.

(** On pairwise comparable candidates the ranking is a permutation in which no
    route is better than an earlier one, headed by the route [selectBest]
    picks. *)
Theorem rankCandidates_spec (mem : nat -> InboundRoute) (cands : list nat) (maxE maxI : nat) :
  pairwise_comparable mem cands ->
  let ranking := rankCandidates alwaysCompareMed routerId config mem cands in
  ranking ≡ₚ cands /\ ranked mem ranking /\
  head ranking = option_map route (selectBest alwaysCompareMed routerId config mem cands maxE maxI).
Proof.
  intros HL ranking. split; [apply stable_sort_Permutation|].
  split; [apply stable_sort_ranked, HL|].
  destruct cands as [|first rest]; [done|]. cbn [selectBest option_map route].
  destruct ranking as [|r s] eqn:Hr.
  - exfalso. assert (Hp : ranking ≡ₚ first :: rest) by apply stable_sort_Permutation.
    rewrite Hr in Hp. apply Permutation_nil_l in Hp. done.
  - cbn. f_equal. apply (first_best_unique mem (first :: rest)).
    + eapply stable_sort_head; [exact HL | exact Hr].
    + apply scanBest_first_best, HL.
Qed.

(** Every multipath comes from a neighbor with the best path's own address:
    routes of two neighbors are never multipaths of each other, whatever their
    attributes and the configuration. *)
Theorem multipaths_one_neighbor (mem : nat -> InboundRoute) (cands : list nat) (maxE maxI : nat)
    (lr : LocalRoute) (c : nat) :
  selectBest alwaysCompareMed routerId config mem cands maxE maxI = Some lr ->
  c ∈ multipaths lr -> nbrAddr (mem c) = nbrAddr (mem (route lr)).
Proof.
  intros Hs Hc. destruct cands as [|first rest]; [done|]. unfold selectBest in Hs.
  apply (inj Some) in Hs; subst lr. cbn [multipaths route] in *.
  set (best := scanBest _ _ _ _ _ _) in *. set (m := if ebgp (mem best) then maxE else maxI) in *.
  destruct (1 <? m)%nat eqn:Hm; [|by apply elem_of_nil in Hc].
  apply Nat.ltb_lt in Hm. rewrite collectMultipaths_take in Hc by (cbn; lia). cbn [app] in Hc.
  apply elem_of_take in Hc as (i & Hc & _). apply list_elem_of_lookup_2, list_elem_of_In, filter_In in Hc.
  destruct Hc as [_ Hc]. rewrite !andb_true_iff, !negb_true_iff in Hc. destruct Hc as [_ [H1 H2]].
  symmetry. apply not_better_same_nbr; done.
Qed.

(** A locally originated route and a received one with a shorter AS path, tied
    on weight and local preference, are each better than the other, so the
    selection depends on the order of the candidates. *)
Theorem local_origin_order_dependent (mem : nat -> InboundRoute) (l r : nat) (nbr : NeighborAf) :
  sourceNeighbor (mem l) = None -> sourceNeighbor (mem r) = Some nbr ->
  weigth (mem l) = weigth (mem r) ->
  localPrefOrDefault (attrs (mem l)) = localPrefOrDefault (attrs (mem r)) ->
  asPathLength (attrs (mem r)) < asPathLength (attrs (mem l)) ->
  better_route (mem l) (mem r) = true /\ better_route (mem r) (mem l) = true /\
  option_map route (selectBest alwaysCompareMed routerId config mem [l; r] 1 1) = Some r /\
  option_map route (selectBest alwaysCompareMed routerId config mem [r; l] 1 1) = Some l.
Proof.
  intros Hl Hr Hw Hp Ha.
  assert (H1 : better_route (mem l) (mem r) = true).
  { unfold BestPath.better_route, better. rewrite Hw, Hp, !Z.eqb_refl, Hl, Hr. done. }
  assert (H2 : better_route (mem r) (mem l) = true).
  { unfold BestPath.better_route, better. rewrite Hw, Hp, !Z.eqb_refl, Hl, Hr. cbn [negb].
    rewrite (proj2 (Z.eqb_neq _ _)) by lia. apply Z.ltb_lt. done. }
  split; [done|]. split; [done|]. cbn. unfold scanBest. cbn. unfold better_ptr.
  rewrite H1, H2. done.
Qed.

End ComparatorProofs.

(** ** Concrete routes *)

Definition ex_attrs (lp : Z) (path : list Z) (m : Z) : Attributes :=
  mkAttributes (Some 0) [mkSegment BGP_AS_SEQUENCE path] [] (Some lp) false (Some m)
    None None [] [] [] None [] None [].

(** A route received from neighbor [n] of AS [peer], at time [n]. *)
Definition ex_in (n peer m : Z) (path : list Z) : InboundRoute :=
  mkInboundRoute (ex_attrs 100 path m) (Some (mkNeighborAf n (IPAddress_u128 n))) 0 peer true false 10 n.

Definition ex_cfg : BestPathConfig := mkBestPathConfig false false false.

Definition ex_mem (p : nat) : InboundRoute :=
  match p with
  | 0%nat => ex_in 1 65001 20 [65001; 65010]
  | 1%nat => ex_in 2 65002 10 [65002; 65010]
  | 2%nat => ex_in 3 65001 5 [65001; 65011]
  | 3%nat => mkInboundRoute (ex_attrs 100 [65001; 65002] 0) None 0 0 true false 10 4
  | _ => ex_in 5 65001 5 [65001]
  end.

(** With the default MED comparison, restricted to one neighboring AS, the
    comparator has a cycle of three routes, and the path selected depends on
    the order in which the candidates are listed. *)
Theorem med_order_dependent :
  better_ptr false 1 ex_cfg ex_mem 0 1 = true /\
  better_ptr false 1 ex_cfg ex_mem 1 2 = true /\
  better_ptr false 1 ex_cfg ex_mem 2 0 = true /\
  option_map route (selectBest false 1 ex_cfg ex_mem [0; 1; 2]%nat 1 1) = Some 2%nat /\
  option_map route (selectBest false 1 ex_cfg ex_mem [1; 2; 0]%nat 1 1) = Some 0%nat.
Proof. repeat split; vm_compute; reflexivity. Qed.

Lemma ex_comparable : pairwise_comparable true ex_mem [0; 1; 2; 4]%nat.
Proof.
  intros a b Ha Hb. split; [left | by left].
  rewrite !elem_of_cons in Ha, Hb.
  destruct Ha as [->|[->|[->|[->|Ha]]]], Hb as [->|[->|[->|[->|Hb]]]]; try done;
    by apply elem_of_nil in Ha || by apply elem_of_nil in Hb.
Qed.

Lemma selectBest_spec_witness :
  pairwise_comparable true ex_mem [0; 1; 2; 4]%nat /\
  first_best true 1 ex_cfg ex_mem [0; 1; 2; 4]%nat 4%nat.
Proof.
  split; [apply ex_comparable|].
  pose proof (selectBest_spec true 1 ex_cfg ex_mem [0; 1; 2; 4]%nat 2 2 ex_comparable) as H.
  vm_compute in H. destruct H as [H _]. exact H.
Defined.

Lemma rankCandidates_spec_witness :
  rankCandidates true 1 ex_cfg ex_mem [0; 1; 2; 4]%nat = [4; 2; 1; 0]%nat /\
  ranked true 1 ex_cfg ex_mem [4; 2; 1; 0]%nat.
Proof.
  pose proof (rankCandidates_spec true 1 ex_cfg ex_mem [0; 1; 2; 4]%nat 1 1 ex_comparable) as (_ & H & _).
  split; [vm_compute; reflexivity | exact H].
Defined.

(** Two routes of one neighbor (ADD-PATH) that tie on every step. *)
Definition ex_mem2 (p : nat) : InboundRoute := ex_in 1 65001 20 [65001; 65010 + Z.of_nat p].

Lemma multipaths_one_neighbor_witness :
  selectBest false 1 ex_cfg ex_mem2 [0; 1]%nat 4 4 = Some (mkLocalRoute 0 [1%nat] []) /\
  nbrAddr (ex_mem2 1) = nbrAddr (ex_mem2 0).
Proof.
  assert (H : selectBest false 1 ex_cfg ex_mem2 [0; 1]%nat 4 4 = Some (mkLocalRoute 0 [1%nat] []))
    by (vm_compute; reflexivity).
  split; [exact H|]. apply (multipaths_one_neighbor false 1 ex_cfg ex_mem2 _ _ _ _ 1%nat H). constructor.
Defined.

Lemma local_origin_order_dependent_witness :
  option_map route (selectBest false 1 ex_cfg ex_mem [3; 4]%nat 1 1) = Some 4%nat /\
  option_map route (selectBest false 1 ex_cfg ex_mem [4; 3]%nat 1 1) = Some 3%nat.
Proof.
  apply (local_origin_order_dependent false 1 ex_cfg ex_mem 3 4 (mkNeighborAf 5 (IPAddress_u128 5)));
    [reflexivity | reflexivity | reflexivity | reflexivity | vm_compute; reflexivity].
Defined.
