(* ===== verification/AttributeManager.v ===== *)
(** * AttributeManager: interned, reference-counted BGP path attributes

    The interning table of routing/bgp/attributes/AttributeManager.hpp and the
    reference-holding routes of routing/bgp/rib/RibTypes.hpp ([RouteBase]).
    The table is generic in the attribute and path types, compared by their
    [operator==]; vectors are lists, hash maps finite maps, the free lists
    stacks with their back at the head. Reference counts and identifiers are
    32-bit. *)

From S2P Require Import Prelude IPAddress BestPath.

(** ** Counting in a list *)

Section Counting.
  Context {E : Type}.

Fixpoint count (f : E -> bool) (l : list E) : Z :=
  match l with
  | [] => 0
  | x :: l => (if f x then 1 else 0) + count f l
  end.

Lemma count_app f l1 l2 : count f (l1 ++ l2) = count f l1 + count f l2.
Proof. induction l1; cbn; lia. Qed.

Lemma count_bound f l : 0 <= count f l <= Z.of_nat (length l).
Proof. induction l as [|x l IH]; cbn [count length]; [lia|]. destruct (f x); lia. Qed.

Lemma count_insert f l i x y :
  l !! i = Some x ->
  count f (<[i := y]> l) = count f l - (if f x then 1 else 0) + (if f y then 1 else 0).
Proof.
  revert i. induction l as [|z l IH]; intros [|i] H; try done.
  - injection H as <-. cbn. lia.
  - change (<[S i := y]> (z :: l)) with (z :: <[i := y]> l). cbn [count]. rewrite (IH i H). lia.
Qed.

Lemma count_pos f l i x : l !! i = Some x -> f x = true -> 1 <= count f l.
Proof.
  revert i. induction l as [|z l IH]; intros [|i] H Hf; cbn in *; try done.
  - injection H as ->. rewrite Hf. pose proof (count_bound f l). lia.
  - specialize (IH i H Hf). destruct (f z); lia.
Qed.

Lemma count_0 f l : (forall i x, l !! i = Some x -> f x = false) -> count f l = 0.
Proof.
  induction l as [|z l IH]; intros H; cbn; [done|].
  rewrite (H 0%nat z eq_refl), IH; [done|]. intros i. apply (H (S i)).
Qed.

Lemma count_ext f g l : (forall x, x ∈ l -> f x = g x) -> count f l = count g l.
Proof.
  induction l as [|z l IH]; intros H; cbn; [done|].
  rewrite (H z), IH; [done | intros; apply H; by constructor | constructor].
Qed.
End Counting.

(** ** The table *)

(** [routing/bgp/attributes/AttributeManager.hpp:206-211] AttrEntry *)
Record AttrEntry (A : Type) := mkAttrEntry { ae_attrs : A; ae_refCount : Z; ae_used : bool }.
(** [routing/bgp/attributes/AttributeManager.hpp:213-219] PathEntry *)
Record PathEntry (P : Type) := mkPathEntry { pe_path : P; pe_attrId : nat; pe_refCount : Z; pe_used : bool }.
Arguments mkAttrEntry {A}. Arguments ae_attrs {A}. Arguments ae_refCount {A}. Arguments ae_used {A}.
Arguments mkPathEntry {P}. Arguments pe_path {P}. Arguments pe_attrId {P}. Arguments pe_refCount {P}. Arguments pe_used {P}.

(** [static_cast<uint32_t>(v.size())] *)
Definition size_u32 {E} (l : list E) : nat := Z.to_nat (u32 (Z.of_nat (length l))).

(** [std::unordered_map::emplace]: an existing key keeps its value. *)
Definition emplace {K V} `{Countable K} (k : K) (v : V) (m : gmap K V) : gmap K V :=
  match m !! k with Some _ => m | None => <[k := v]> m end.

Section Manager.
  Context {A P : Type} `{Countable A} `{Countable P}.

(** [routing/bgp/attributes/AttributeManager.hpp:239-245] AttributeManager *)
Record AttributeManager := mkManager {
  attrToId : gmap A nat;
  idToAttr : list (AttrEntry A);
  freeAttrIds : list nat;
  pathToId : gmap (nat * P) nat;
  idToPath : list (PathEntry P);
  freePathIds : list nat
}.

(** [routing/bgp/attributes/AttributeManager.hpp:164-173] AttributeManager::clear *)
Definition Manager_clear : AttributeManager := mkManager ∅ [] [] ∅ [] [].

(** The identifier a new attribute set gets, and the free list left. *)
Definition alloc_id (free : list nat) (fresh : nat) : nat * list nat * bool :=
  match free with
  | i :: rest => (i, rest, false)
  | [] => (fresh, [], true)
  end.

(** [routing/bgp/attributes/AttributeManager.hpp:37-62] AttributeManager::acquire: the
    attribute identifier *)
Definition acquireAttr (m : AttributeManager) (a : A) : AttributeManager * nat :=
  match attrToId m !! a with
  | Some attrId => (m, attrId)
  | None =>
      let '(attrId, free, grow) := alloc_id (freeAttrIds m) (size_u32 (idToAttr m)) in
      let entries := if grow then idToAttr m ++ [mkAttrEntry a 0 false] else idToAttr m in
      (mkManager (emplace a attrId (attrToId m)) (<[attrId := mkAttrEntry a 0 true]> entries) free
         (pathToId m) (idToPath m) (freePathIds m), attrId)
  end.

(** [++refCount] and [--refCount] *)
Definition attr_ref (d : Z) (e : AttrEntry A) : AttrEntry A :=
  mkAttrEntry (ae_attrs e) (u32 (ae_refCount e + d)) (ae_used e).
Definition path_ref (d : Z) (e : PathEntry P) : PathEntry P :=
  mkPathEntry (pe_path e) (pe_attrId e) (u32 (pe_refCount e + d)) (pe_used e).

Definition set_paths (m : AttributeManager) (l : list (PathEntry P)) : AttributeManager :=
  mkManager (attrToId m) (idToAttr m) (freeAttrIds m) (pathToId m) l (freePathIds m).

(** [routing/bgp/attributes/AttributeManager.hpp:35-97] AttributeManager::acquire *)
Definition acquire (m : AttributeManager) (a : A) (p : P) : AttributeManager * nat :=
  let '(m, attrId) := acquireAttr m a in
  match pathToId m !! (attrId, p) with
  | Some pathId => (set_paths m (alter (path_ref 1) pathId (idToPath m)), pathId)
  | None =>
      let attrs := alter (attr_ref 1) attrId (idToAttr m) in
      let '(pathId, free, grow) := alloc_id (freePathIds m) (size_u32 (idToPath m)) in
      let entries := if grow then idToPath m ++ [mkPathEntry p 0 0 false] else idToPath m in
      (mkManager (attrToId m) attrs (freeAttrIds m)
         (emplace (attrId, p) pathId (pathToId m)) (<[pathId := mkPathEntry p attrId 1 true]> entries) free,
       pathId)
  end.

(** [routing/bgp/attributes/AttributeManager.hpp:99-110] AttributeManager::retain *)
Definition retain (m : AttributeManager) (id : nat) : AttributeManager * bool :=
  match idToPath m !! id with
  | None => (m, false)
  | Some e =>
      if pe_used e then (set_paths m (<[id := path_ref 1 e]> (idToPath m)), true) else (m, false)
  end.

(** [routing/bgp/attributes/AttributeManager.hpp:183-203] AttributeManager::releaseAttr *)
Definition releaseAttr (m : AttributeManager) (id : nat) : AttributeManager :=
  match idToAttr m !! id with
  | None => m
  | Some e =>
      if negb (ae_used e) then m
      else if ae_refCount e =? 0 then m
      else
        let e' := attr_ref (-1) e in
        if 0 <? ae_refCount e'
        then mkManager (attrToId m) (<[id := e']> (idToAttr m)) (freeAttrIds m)
               (pathToId m) (idToPath m) (freePathIds m)
        else mkManager (delete (ae_attrs e) (attrToId m))
               (<[id := mkAttrEntry (ae_attrs e) (ae_refCount e') false]> (idToAttr m))
               (id :: freeAttrIds m) (pathToId m) (idToPath m) (freePathIds m)
  end.

(** [routing/bgp/attributes/AttributeManager.hpp:112-136] AttributeManager::release *)
Definition release (m : AttributeManager) (id : nat) : AttributeManager :=
  match idToPath m !! id with
  | None => m
  | Some e =>
      if negb (pe_used e) then m
      else if pe_refCount e =? 0 then m
      else
        let e' := path_ref (-1) e in
        if 0 <? pe_refCount e' then set_paths m (<[id := e']> (idToPath m))
        else
          let m1 := mkManager (attrToId m) (idToAttr m) (freeAttrIds m)
                      (delete (pe_attrId e, pe_path e) (pathToId m)) (idToPath m) (freePathIds m) in
          let m2 := releaseAttr m1 (pe_attrId e) in
          mkManager (attrToId m2) (idToAttr m2) (freeAttrIds m2) (pathToId m2)
            (<[id := mkPathEntry (pe_path e) (pe_attrId e) (pe_refCount e') false]> (idToPath m2))
            (id :: freePathIds m2)
  end.

(** [routing/bgp/attributes/AttributeManager.hpp:155-162] AttributeManager::get: undefined
    outside the table; an assertion failure on an unused entry. *)
Definition get (m : AttributeManager) (id : nat) : outcome (A * P) :=
  match idToPath m !! id with
  | None => UB
  | Some e =>
      if pe_used e then
        match idToAttr m !! pe_attrId e with
        | None => UB
        | Some ae => Ret (ae_attrs ae, pe_path e)
        end
      else UB
  end.

(** [routing/bgp/attributes/AttributeManager.hpp:138-145] AttributeManager::getAttributes *)
Definition getAttributes (m : AttributeManager) (id : nat) : outcome A := x ← get m id; Ret x.1.

(** [routing/bgp/attributes/AttributeManager.hpp:147-153] AttributeManager::getPath *)
Definition getPath (m : AttributeManager) (id : nat) : outcome P :=
  match idToPath m !! id with
  | None => UB
  | Some e => if pe_used e then Ret (pe_path e) else UB
  end.

(** ** The invariant *)

(** The path entries in use under an attribute set. *)
Definition uses (i : nat) (e : PathEntry P) : bool := pe_used e && Nat.eqb (pe_attrId e) i.

(** [pend]: an attribute set just interned that no path uses yet. *)
Record mgr_inv_p (pend : option nat) (m : AttributeManager) : Prop := {
  inv_attr : forall a i, attrToId m !! a = Some i <->
    exists e, idToAttr m !! i = Some e /\ ae_used e = true /\ ae_attrs e = a;
  inv_path : forall k i, pathToId m !! k = Some i <->
    exists e, idToPath m !! i = Some e /\ pe_used e = true /\ (pe_attrId e, pe_path e) = k;
  inv_attr_free : forall i, i ∈ freeAttrIds m <->
    exists e, idToAttr m !! i = Some e /\ ae_used e = false;
  inv_path_free : forall i, i ∈ freePathIds m <->
    exists e, idToPath m !! i = Some e /\ pe_used e = false;
  inv_attr_nodup : NoDup (freeAttrIds m);
  inv_path_nodup : NoDup (freePathIds m);
  inv_path_ref : forall i e, idToPath m !! i = Some e -> pe_used e = true ->
    1 <= pe_refCount e < 2 ^ 32 /\
    exists ae, idToAttr m !! pe_attrId e = Some ae /\ ae_used ae = true;
  inv_attr_ref : forall i e, idToAttr m !! i = Some e -> ae_used e = true ->
    ae_refCount e = count (uses i) (idToPath m) /\ (1 <= ae_refCount e \/ pend = Some i);
  inv_attr_width : forall i e, idToAttr m !! i = Some e -> in_width 32 (ae_refCount e)
}.

Definition mgr_inv (m : AttributeManager) : Prop := mgr_inv_p None m.

(** The live handles: attributes, path and reference count of an identifier. *)
Definition live (m : AttributeManager) (id : nat) : option (A * P * Z) :=
  match idToPath m !! id with
  | Some e =>
      if pe_used e then
        match idToAttr m !! pe_attrId e with
        | Some ae => Some (ae_attrs ae, pe_path e, pe_refCount e)
        | None => None
        end
      else None
  | None => None
  end.

(** Room for one more entry in each 32-bit index, and one more reference. *)
Definition room (m : AttributeManager) : Prop :=
  Z.of_nat (length (idToAttr m)) < 2 ^ 32 - 1 /\ Z.of_nat (length (idToPath m)) < 2 ^ 32 - 1 /\
  forall i e, idToPath m !! i = Some e -> pe_used e = true -> pe_refCount e < 2 ^ 32 - 1.

Lemma mgr_inv_clear : mgr_inv Manager_clear.
Proof.
  split; cbn; intros; try constructor; try done.
  all: try (intros (e & He & _); done).
  all: try (intros Hx; rewrite ?lookup_empty in Hx; done).
  all: intros Hx; by apply elem_of_nil in Hx.
Qed.

Lemma live_get m id a p n : live m id = Some (a, p, n) -> get m id = Ret (a, p).
Proof. unfold live, get. repeat case_match; naive_solver. Qed.

Lemma get_live m id a p : get m id = Ret (a, p) -> exists n, live m id = Some (a, p, n).
Proof. unfold live, get. repeat case_match; naive_solver. Qed.

(** Live identifiers are determined by their contents. *)
Lemma live_inj pend m i j a p n n' :
  mgr_inv_p pend m -> live m i = Some (a, p, n) -> live m j = Some (a, p, n') -> i = j.
Proof.
  intros Hm Hi Hj. unfold live in *.
  destruct (idToPath m !! i) as [e|] eqn:Ei; [|done]. destruct (pe_used e) eqn:Eu; [|done].
  destruct (idToAttr m !! pe_attrId e) as [ae|] eqn:Ea; [|done]. injection Hi as <- <- <-.
  destruct (idToPath m !! j) as [e'|] eqn:Ej; [|done]. destruct (pe_used e') eqn:Eu'; [|done].
  destruct (idToAttr m !! pe_attrId e') as [ae'|] eqn:Ea'; [|done]. injection Hj as Hx Hy <-.
  destruct (inv_path_ref _ m Hm _ _ Ei Eu) as (_ & x & Hx1 & Hx2).
  destruct (inv_path_ref _ m Hm _ _ Ej Eu') as (_ & y & Hy1 & Hy2).
  assert (Hid : pe_attrId e = pe_attrId e').
  { assert (Hk : attrToId m !! ae_attrs ae = Some (pe_attrId e)).
    { apply (inv_attr _ m Hm). exists ae. split; [done|]. split; [congruence|done]. }
    assert (Hk' : attrToId m !! ae_attrs ae = Some (pe_attrId e')).
    { apply (inv_attr _ m Hm). exists ae'. split; [done|]. split; [congruence|done]. }
    congruence. }
  assert (Hk : pathToId m !! (pe_attrId e, pe_path e) = Some i) by (apply (inv_path _ m Hm); eauto).
  assert (Hk' : pathToId m !! (pe_attrId e, pe_path e) = Some j).
  { apply (inv_path _ m Hm). exists e'. split; [done|]. split; congruence. }
  congruence.
Qed.

(** ** Allocation *)

Lemma size_u32_length {E} (l : list E) : Z.of_nat (length l) < 2 ^ 32 -> size_u32 l = length l.
Proof. intros Hl. unfold size_u32. rewrite wrap_small by (split; lia). lia. Qed.

Lemma alloc_spec {E} (used : E -> bool) (l : list E) (free : list nat) (e0 : E) i free' grow :
  (forall j, j ∈ free <-> exists e, l !! j = Some e /\ used e = false) -> NoDup free ->
  Z.of_nat (length l) < 2 ^ 32 -> used e0 = false ->
  alloc_id free (size_u32 l) = (i, free', grow) ->
  let l' := if grow then l ++ [e0] else l in
  (exists e, l' !! i = Some e /\ used e = false) /\ NoDup free' /\
  (forall j, j ∈ free' <-> j <> i /\ exists e, l' !! j = Some e /\ used e = false) /\
  (forall j e, used e = true -> l' !! j = Some e <-> l !! j = Some e) /\
  (forall f, f e0 = false -> count f l' = count f l).
Proof.
  intros Hfree Hnd Hlen He0 Halloc l'. unfold alloc_id in Halloc.
  destruct free as [|x free]; injection Halloc as <- <- <-; subst l'; cbn.
  - rewrite size_u32_length by done.
    assert (Hall : forall j e, l !! j = Some e -> used e = true).
    { intros j e Hj. destruct (used e) eqn:Hu; [done|].
      assert (j ∈ []) as Hin by (apply Hfree; eauto). by apply elem_of_nil in Hin. }
    split; [exists e0; rewrite list_lookup_middle; done|]. split; [constructor|].
    split; [|split].
    + intros j. rewrite elem_of_nil. split; [done|]. intros [Hj (e & He & Hu)].
      destruct (decide (j < length l)%nat) as [Hlt|Hlt].
      * rewrite lookup_app_l in He by done. rewrite (Hall _ _ He) in Hu. done.
      * rewrite lookup_app_r in He by lia. apply list_lookup_singleton_Some in He as [? _]. lia.
    + intros j e Hu. destruct (decide (j < length l)%nat) as [Hlt|Hlt].
      * rewrite lookup_app_l by done. done.
      * rewrite lookup_app_r by lia. rewrite (lookup_ge_None_2 l) by lia. split; [|done].
        intros He. apply list_lookup_singleton_Some in He as [_ <-]. congruence.
    + intros f Hf. rewrite count_app. cbn. rewrite Hf. lia.
  - apply NoDup_cons in Hnd as [Hx Hnd].
    split; [apply Hfree; constructor|]. split; [done|]. split; [|done].
    intros j. rewrite <- Hfree, elem_of_cons. split; [|tauto].
    intros Hj. split; [intros ->; done | auto].
Qed.

Lemma acquireAttr_spec m a m' i :
  mgr_inv m -> Z.of_nat (length (idToAttr m)) < 2 ^ 32 -> acquireAttr m a = (m', i) ->
  mgr_inv_p (Some i) m' /\
  (exists e, idToAttr m' !! i = Some e /\ ae_used e = true /\ ae_attrs e = a) /\
  idToPath m' = idToPath m /\ pathToId m' = pathToId m /\ freePathIds m' = freePathIds m /\
  (forall id, live m' id = live m id).
Proof.
  intros Hm Hlen Ha. unfold acquireAttr in Ha.
  destruct (attrToId m !! a) as [j|] eqn:Hj.
  { injection Ha as <- <-. split; [|split; [by apply (inv_attr _ m Hm)|done]].
    destruct Hm as [? ? ? ? ? ? ? Href ?]. split; try done. intros i e Hi Hu.
    destruct (Href i e Hi Hu) as [? [?|?]]; [auto|done]. }
  destruct (alloc_id _ _) as [[i' free] grow] eqn:Halloc. injection Ha as <- <-.
  destruct (alloc_spec ae_used _ _ (mkAttrEntry a 0 false) _ _ _
    (inv_attr_free _ m Hm) (inv_attr_nodup _ m Hm) Hlen eq_refl Halloc) as ((e0 & He0 & Hu0) & Hnd & Hfree & Hused & _).
  assert (Hwidth : forall j e, (if grow then idToAttr m ++ [mkAttrEntry a 0 false] else idToAttr m) !! j = Some e ->
    in_width 32 (ae_refCount e)).
  { intros j e Hje. destruct grow; [|apply (inv_attr_width _ m Hm _ _ Hje)].
    apply lookup_app_Some in Hje as [Hje|[_ Hje]]; [apply (inv_attr_width _ m Hm _ _ Hje)|].
    apply list_lookup_singleton_Some in Hje as [_ <-]. apply in_width_0. lia. }
  set (entries := if grow then _ else _) in *.
  assert (Hlt : (i' < length entries)%nat) by (eapply lookup_lt_Some; done).
  assert (Hother : forall j e, ae_used e = true -> j <> i' ->
    <[i' := mkAttrEntry a 0 true]> entries !! j = Some e <-> idToAttr m !! j = Some e).
  { intros j e Hu Hne. rewrite list_lookup_insert_ne by done. apply Hused, Hu. }
  assert (Hnot : forall e, idToAttr m !! i' = Some e -> ae_used e = false).
  { intros e He. destruct (ae_used e) eqn:Hu; [|done]. apply Hused in He; [|done]. congruence. }
  assert (Hpath : forall j e, idToPath m !! j = Some e -> pe_used e = true -> pe_attrId e <> i').
  { intros j e Hje Hu Heq. destruct (inv_path_ref _ m Hm _ _ Hje Hu) as (_ & ae & Hae & Hau).
    rewrite Heq in Hae. rewrite (Hnot _ Hae) in Hau. done. }
  assert (Hhere : <[i' := mkAttrEntry a 0 true]> entries !! i' = Some (mkAttrEntry a 0 true))
    by (apply list_lookup_insert_eq; done).
  assert (Hlook : forall k, emplace a i' (attrToId m) !! k = if decide (k = a) then Some i' else attrToId m !! k).
  { intros k. unfold emplace. rewrite Hj. rewrite lookup_insert. repeat case_decide; congruence. }
  split; [split; cbn|split; [|split; [done|split; [done|split; [done|]]]]].
  - intros k j. rewrite Hlook. case_decide as Hk.
    + split; [intros [= <-]; eauto|]. intros (e & He & Hu & Hea). f_equal. symmetry.
      destruct (decide (j = i')); [done|]. apply Hother in He; [|done..].
      assert (attrToId m !! a = Some j) by (apply (inv_attr _ m Hm); exists e; split_and!; congruence). congruence.
    + rewrite (inv_attr _ m Hm). split.
      * intros (e & He & Hu & Hea). exists e. split; [|done]. apply Hother; [done| |done].
        intros ->. rewrite (Hnot _ He) in Hu. done.
      * intros (e & He & Hu & Hea). exists e. split; [|done]. apply Hother in He; [done..|].
        intros ->. rewrite Hhere in He. injection He as <-. cbn in Hea. congruence.
  - apply (inv_path _ m Hm).
  - intros j. rewrite Hfree. split.
    + intros [Hne (e & He & Hu)]. exists e. rewrite list_lookup_insert_ne by done. done.
    + intros (e & He & Hu). destruct (decide (j = i')) as [->|Hne].
      { rewrite Hhere in He. injection He as <-. done. }
      rewrite list_lookup_insert_ne in He by done. eauto.
  - apply (inv_path_free _ m Hm).
  - done.
  - apply (inv_path_nodup _ m Hm).
  - intros j e Hje Hu. destruct (inv_path_ref _ m Hm _ _ Hje Hu) as (? & ae & Hae & Hau).
    split; [done|]. exists ae. split; [|done]. apply Hother; [done| |done]. eapply Hpath; done.
  - intros j e Hje Hu. destruct (decide (j = i')) as [->|Hne].
    + rewrite Hhere in Hje. injection Hje as <-. cbn. split; [|auto]. symmetry. apply count_0.
      intros k pe Hk. unfold uses. destruct (pe_used pe) eqn:Hpu; [|done].
      apply Nat.eqb_neq. eapply Hpath; done.
    + apply Hother in Hje; [|done..]. destruct (inv_attr_ref _ m Hm _ _ Hje Hu) as [? [?|?]]; [auto|done].
  - intros j e Hje. destruct (decide (j = i')) as [->|Hne].
    + rewrite Hhere in Hje. injection Hje as <-. apply in_width_0. lia.
    + rewrite list_lookup_insert_ne in Hje by done. eapply Hwidth, Hje.
  - cbn. eauto.
  - intros id. unfold live. cbn. destruct (idToPath m !! id) as [e|] eqn:He; [|done].
    destruct (pe_used e) eqn:Hu; [|done].
    destruct (inv_path_ref _ m Hm _ _ He Hu) as (_ & ae & Hae & Hau). rewrite Hae.
    rewrite (proj2 (Hother _ _ Hau ltac:(eapply Hpath; done)) Hae). done.
Qed.

(** ** Changing one reference count *)

Lemma exists_insert_iff {E} (l : list E) (i j : nat) (e e' : E) (Q : E -> Prop) :
  l !! i = Some e -> (Q e <-> Q e') ->
  (exists x, <[i := e']> l !! j = Some x /\ Q x) <-> (exists x, l !! j = Some x /\ Q x).
Proof.
  intros Hi HQ. destruct (decide (i = j)) as [<-|Hne].
  - rewrite list_lookup_insert_eq by (eapply lookup_lt_Some; done). rewrite Hi.
    split; intros (x & [= <-] & Hx); eexists; (split; [done | by apply HQ]).
  - rewrite list_lookup_insert_ne by done. done.
Qed.

Definition with_ref (e : PathEntry P) (r : Z) : PathEntry P :=
  mkPathEntry (pe_path e) (pe_attrId e) r (pe_used e).

Lemma set_ref_inv pend m id e r :
  mgr_inv_p pend m -> idToPath m !! id = Some e -> pe_used e = true -> 1 <= r < 2 ^ 32 ->
  mgr_inv_p pend (set_paths m (<[id := with_ref e r]> (idToPath m))).
Proof.
  intros Hm He Hu Hr. split; cbn.
  - apply (inv_attr _ m Hm).
  - intros k i. rewrite (inv_path _ m Hm). symmetry. eapply exists_insert_iff; [done|]. done.
  - apply (inv_attr_free _ m Hm).
  - intros i. rewrite (inv_path_free _ m Hm). symmetry. eapply exists_insert_iff; [done|]. done.
  - apply (inv_attr_nodup _ m Hm).
  - apply (inv_path_nodup _ m Hm).
  - intros i e' Hi Hu'. destruct (decide (id = i)) as [<-|Hne].
    + rewrite list_lookup_insert_eq in Hi by (eapply lookup_lt_Some; done). injection Hi as <-.
      cbn. split; [done|]. apply (inv_path_ref _ m Hm _ _ He Hu).
    + rewrite list_lookup_insert_ne in Hi by done. apply (inv_path_ref _ m Hm _ _ Hi Hu').
  - intros i ae Hi Hu'. rewrite (count_insert _ _ _ _ _ He).
    destruct (inv_attr_ref _ m Hm _ _ Hi Hu') as [-> Hge]. split; [|done].
    unfold uses. cbn. lia.
  - apply (inv_attr_width _ m Hm).
Qed.

Lemma set_ref_live pend m id e r a p n :
  mgr_inv_p pend m -> idToPath m !! id = Some e -> live m id = Some (a, p, n) ->
  live (set_paths m (<[id := with_ref e r]> (idToPath m))) id = Some (a, p, r) /\
  (forall id', id' <> id -> live (set_paths m (<[id := with_ref e r]> (idToPath m))) id' = live m id').
Proof.
  intros Hm He Hl. unfold live in *. cbn. split.
  - rewrite list_lookup_insert_eq by (eapply lookup_lt_Some; done). rewrite He in Hl. cbn.
    repeat case_match; naive_solver.
  - intros id' Hne. rewrite list_lookup_insert_ne by done. done.
Qed.

Lemma live_entry pend m id e :
  mgr_inv_p pend m -> idToPath m !! id = Some e -> pe_used e = true ->
  exists ae, idToAttr m !! pe_attrId e = Some ae /\
    live m id = Some (ae_attrs ae, pe_path e, pe_refCount e).
Proof.
  intros Hm He Hu. destruct (inv_path_ref _ m Hm _ _ He Hu) as (_ & ae & Hae & _).
  exists ae. unfold live. rewrite He, Hu, Hae. done.
Qed.

Lemma drop_pend m i id e :
  mgr_inv_p (Some i) m -> idToPath m !! id = Some e -> uses i e = true -> mgr_inv m.
Proof.
  intros Hm He Hu. destruct Hm as [? ? ? ? ? ? ? Href ?]. split; try done.
  intros j ae Hj Hju. destruct (Href j ae Hj Hju) as [Hc [Hge|[= ->]]]; split; auto.
  left. rewrite Hc. eapply count_pos; done.
Qed.

(** Interning a path under an attribute set it is not interned under. *)
Lemma new_path_inv m i ae p id free grow :
  mgr_inv_p (Some i) m -> idToAttr m !! i = Some ae -> ae_used ae = true ->
  Z.of_nat (length (idToPath m)) < 2 ^ 32 - 1 ->
  pathToId m !! (i, p) = None ->
  alloc_id (freePathIds m) (size_u32 (idToPath m)) = (id, free, grow) ->
  let entries := if grow then idToPath m ++ [mkPathEntry p 0 0 false] else idToPath m in
  let m' := mkManager (attrToId m) (alter (attr_ref 1) i (idToAttr m)) (freeAttrIds m)
              (emplace (i, p) id (pathToId m)) (<[id := mkPathEntry p i 1 true]> entries) free in
  mgr_inv m' /\ live m' id = Some (ae_attrs ae, p, 1) /\ live m id = None /\
  (forall id', id' <> id -> live m' id' = live m id').
Proof.
  intros Hm Hae Hau Hlen Hkey Halloc entries m'.
  destruct (alloc_spec pe_used _ _ (mkPathEntry p 0 0 false) _ _ _
    (inv_path_free _ m Hm) (inv_path_nodup _ m Hm) ltac:(lia) eq_refl Halloc)
    as ((e0 & He0 & Hu0) & Hnd & Hfree & Hused & Hcount).
  fold entries in He0, Hfree, Hused, Hcount.
  assert (Hlt : (id < length entries)%nat) by (eapply lookup_lt_Some; done).
  assert (Hhere : <[id := mkPathEntry p i 1 true]> entries !! id = Some (mkPathEntry p i 1 true))
    by (apply list_lookup_insert_eq; done).
  assert (Hother : forall j e, pe_used e = true -> j <> id ->
    <[id := mkPathEntry p i 1 true]> entries !! j = Some e <-> idToPath m !! j = Some e).
  { intros j e Hu Hne. rewrite list_lookup_insert_ne by done. apply Hused, Hu. }
  assert (Hnot : forall e, idToPath m !! id = Some e -> pe_used e = false).
  { intros e He. destruct (pe_used e) eqn:Hu; [|done]. apply Hused in He; [|done]. congruence. }
  assert (Hattr : alter (attr_ref 1) i (idToAttr m) = <[i := attr_ref 1 ae]> (idToAttr m)).
  { apply list_eq. intros j. destruct (decide (j = i)) as [->|Hne].
    - rewrite list_lookup_alter_eq, Hae, list_lookup_insert_eq; [done|]. eapply lookup_lt_Some; done.
    - rewrite list_lookup_alter_ne, list_lookup_insert_ne by done. done. }
  assert (Hae' : <[i := attr_ref 1 ae]> (idToAttr m) !! i = Some (attr_ref 1 ae))
    by (apply list_lookup_insert_eq; eapply lookup_lt_Some; done).
  subst m'. rewrite Hattr. split; [split; cbn|split; [|split]].
  - intros a j. rewrite (inv_attr _ m Hm). symmetry. eapply exists_insert_iff; [done|]. done.
  - intros k j. unfold emplace. rewrite Hkey, lookup_insert. case_decide as Hk.
    + split; [intros [= <-]; exists (mkPathEntry p i 1 true); auto|].
      intros (e & He & Hu & Hek). f_equal. destruct (decide (j = id)); [done|].
      apply Hother in He; [|done..].
      assert (pathToId m !! (i, p) = Some j) by (apply (inv_path _ m Hm); exists e; split_and!; congruence).
      congruence.
    + rewrite (inv_path _ m Hm). split.
      * intros (e & He & Hu & Hek). exists e. split; [|done]. apply Hother; [done| |done].
        intros ->. rewrite (Hnot _ He) in Hu. done.
      * intros (e & He & Hu & Hek). exists e. split; [|done]. apply Hother in He; [done..|].
        intros ->. rewrite Hhere in He. injection He as <-. cbn in Hek. congruence.
  - intros j. rewrite (inv_attr_free _ m Hm). symmetry. eapply exists_insert_iff; [done|]. done.
  - intros j. rewrite Hfree. split.
    + intros [Hne (e & He & Hu)]. exists e. rewrite list_lookup_insert_ne by done. done.
    + intros (e & He & Hu). destruct (decide (j = id)) as [->|Hne].
      { rewrite Hhere in He. injection He as <-. done. }
      rewrite list_lookup_insert_ne in He by done. eauto.
  - apply (inv_attr_nodup _ m Hm).
  - done.
  - intros j e Hje Hu.
    assert (Hex : forall x, (exists y, idToAttr m !! x = Some y /\ ae_used y = true) ->
      exists y, <[i := attr_ref 1 ae]> (idToAttr m) !! x = Some y /\ ae_used y = true).
    { intros x Hx. eapply exists_insert_iff; [exact Hae|done|done]. }
    destruct (decide (j = id)) as [->|Hne].
    + rewrite Hhere in Hje. injection Hje as <-. split; [cbn; lia|]. apply Hex. eauto.
    + apply Hother in Hje; [|done..]. destruct (inv_path_ref _ m Hm _ _ Hje Hu) as (? & ?). auto.
  - intros j e Hje Hu. rewrite (count_insert _ _ _ _ _ He0), Hcount by done.
    assert (Hu0' : uses j e0 = false) by (unfold uses; rewrite Hu0; done). rewrite Hu0'.
    unfold uses at 2. cbn [pe_used pe_attrId andb].
    pose proof (count_bound (uses j) (idToPath m)) as Hb.
    destruct (decide (j = i)) as [->|Hne].
    + rewrite Hae' in Hje. injection Hje as <-. rewrite Nat.eqb_refl. cbn.
      destruct (inv_attr_ref _ m Hm _ _ Hae Hau) as [Hc _]. rewrite Hc.
      rewrite wrap_small by (split; lia). lia.
    + rewrite list_lookup_insert_ne in Hje by done.
      destruct (inv_attr_ref _ m Hm _ _ Hje Hu) as [Hc Hge].
      rewrite (proj2 (Nat.eqb_neq i j)) by done. rewrite Hc. split; [lia|].
      destruct Hge as [?|[= ?]]; [left; lia | congruence].
  - intros j e Hje. destruct (decide (j = i)) as [->|Hne].
    + rewrite Hae' in Hje. injection Hje as <-. apply wrap_in_width. lia.
    + rewrite list_lookup_insert_ne in Hje by done. apply (inv_attr_width _ m Hm _ _ Hje).
  - unfold live. cbn. rewrite Hhere. cbn. rewrite Hae'. done.
  - unfold live. destruct (idToPath m !! id) as [e|] eqn:He; [|done]. rewrite (Hnot e); done.
  - intros id' Hne. unfold live. cbn.
    destruct (idToPath m !! id') as [e|] eqn:He.
    + destruct (pe_used e) eqn:Hu.
      * rewrite (proj2 (Hother _ _ Hu Hne) He), Hu.
        destruct (decide (pe_attrId e = i)) as [->|Hni].
        -- rewrite Hae', Hae. done.
        -- rewrite list_lookup_insert_ne by done. done.
      * case_match eqn:He'; [|done]. case_match eqn:Hu'; [|done].
        apply Hother in He'; [|done..]. congruence.
    + case_match eqn:He'; [|done]. case_match eqn:Hu'; [|done].
      apply Hother in He'; [|done..]. congruence.
Qed.

(** ** Releasing the last reference *)

Definition unuse (e : PathEntry P) : PathEntry P := mkPathEntry (pe_path e) (pe_attrId e) 0 false.

Lemma release_last_eq m id e ae :
  mgr_inv m -> idToPath m !! id = Some e -> pe_used e = true -> pe_refCount e = 1 ->
  idToAttr m !! pe_attrId e = Some ae ->
  release m id =
    if 1 <? ae_refCount ae
    then mkManager (attrToId m) (<[pe_attrId e := attr_ref (-1) ae]> (idToAttr m)) (freeAttrIds m)
           (delete (pe_attrId e, pe_path e) (pathToId m)) (<[id := unuse e]> (idToPath m))
           (id :: freePathIds m)
    else mkManager (delete (ae_attrs ae) (attrToId m))
           (<[pe_attrId e := mkAttrEntry (ae_attrs ae) 0 false]> (idToAttr m))
           (pe_attrId e :: freeAttrIds m)
           (delete (pe_attrId e, pe_path e) (pathToId m)) (<[id := unuse e]> (idToPath m))
           (id :: freePathIds m).
Proof.
  intros Hm He Hu Hr Hae. destruct (inv_path_ref _ m Hm _ _ He Hu) as (_ & x & Hx & Hxu).
  assert (x = ae) as -> by congruence.
  destruct (inv_attr_ref _ m Hm _ _ Hae Hxu) as [Hc [Hge|Hp]]; [|done].
  pose proof (inv_attr_width _ m Hm _ _ Hae) as [_ Hlt].
  unfold release. rewrite He, Hu, Hr. cbn [negb Z.eqb path_ref pe_refCount].
  rewrite Hr. change (u32 (1 + -1)) with 0. cbn [Z.ltb Z.compare].
  unfold releaseAttr. cbn [idToAttr attrToId freeAttrIds pathToId idToPath freePathIds].
  rewrite Hae, Hxu. cbn [negb]. rewrite (proj2 (Z.eqb_neq _ _)) by lia.
  unfold attr_ref. cbn [ae_refCount]. rewrite wrap_small by (split; lia).
  destruct (Z.ltb_spec 0 (ae_refCount ae + -1)), (Z.ltb_spec 1 (ae_refCount ae)); try lia; [done|].
  replace (ae_refCount ae + -1) with 0 by lia. done.
Qed.

(** Clearing a used entry of the path vector. *)
Lemma unuse_lookup m id e :
  idToPath m !! id = Some e -> pe_used e = true ->
  forall j e', pe_used e' = true ->
    <[id := unuse e]> (idToPath m) !! j = Some e' <-> (j <> id /\ idToPath m !! j = Some e').
Proof.
  intros He Hu j e' Hu'. destruct (decide (j = id)) as [->|Hne].
  - rewrite list_lookup_insert_eq by (eapply lookup_lt_Some; done). split; [|tauto].
    intros [= <-]. done.
  - rewrite list_lookup_insert_ne by done. tauto.
Qed.

Lemma unuse_free m id e :
  mgr_inv m -> idToPath m !! id = Some e -> pe_used e = true ->
  NoDup (id :: freePathIds m) /\
  forall j, j ∈ id :: freePathIds m <-> exists e', <[id := unuse e]> (idToPath m) !! j = Some e' /\ pe_used e' = false.
Proof.
  intros Hm He Hu. assert (Hlt : (id < length (idToPath m))%nat) by (eapply lookup_lt_Some; done).
  split.
  - apply NoDup_cons. split; [|apply (inv_path_nodup _ m Hm)].
    intros Hin. apply (inv_path_free _ m Hm) in Hin as (x & Hx & Hxu). congruence.
  - intros j. rewrite elem_of_cons. destruct (decide (j = id)) as [->|Hne].
    + rewrite list_lookup_insert_eq by done. split; [intros _; eexists; split; [done|done] | auto].
    + rewrite list_lookup_insert_ne by done. rewrite (inv_path_free _ m Hm). tauto.
Qed.

Lemma unuse_pathToId m id e :
  mgr_inv m -> idToPath m !! id = Some e -> pe_used e = true ->
  forall k j, delete (pe_attrId e, pe_path e) (pathToId m) !! k = Some j <->
    exists e', <[id := unuse e]> (idToPath m) !! j = Some e' /\ pe_used e' = true /\ (pe_attrId e', pe_path e') = k.
Proof.
  intros Hm He Hu k j.
  assert (Hid : pathToId m !! (pe_attrId e, pe_path e) = Some id) by (apply (inv_path _ m Hm); eauto).
  rewrite lookup_delete_Some, (inv_path _ m Hm). split.
  - intros [Hne (e' & He' & Hu' & Hk)]. exists e'. split; [|done].
    apply (unuse_lookup m id e); [done..|]. split; [|done]. intros ->. congruence.
  - intros (e' & He' & Hu' & Hk). apply (unuse_lookup m id e) in He' as [Hne He']; [|done..].
    split; [|eauto]. intros <-. apply Hne.
    assert (pathToId m !! (pe_attrId e', pe_path e') = Some j) by (apply (inv_path _ m Hm); eauto).
    rewrite Hk in *. congruence.
Qed.

Lemma unuse_count m id e i :
  idToPath m !! id = Some e -> pe_used e = true ->
  count (uses i) (<[id := unuse e]> (idToPath m)) =
    count (uses i) (idToPath m) - (if Nat.eqb (pe_attrId e) i then 1 else 0).
Proof.
  intros He Hu. rewrite (count_insert _ _ _ _ _ He). unfold uses at 2 3. rewrite Hu. cbn. lia.
Qed.

(** When an attribute set has one use, it is the entry's. *)
Lemma single_use m id e j e' :
  idToPath m !! id = Some e -> pe_used e = true -> count (uses (pe_attrId e)) (idToPath m) = 1 ->
  j <> id -> idToPath m !! j = Some e' -> pe_used e' = true -> pe_attrId e' <> pe_attrId e.
Proof.
  intros He Hu Hc Hne Hj Hu' Heq.
  pose proof (unuse_count m id e (pe_attrId e) He Hu) as H1. rewrite Nat.eqb_refl, Hc in H1.
  assert (Hj' : <[id := unuse e]> (idToPath m) !! j = Some e') by (rewrite list_lookup_insert_ne by done; done).
  pose proof (count_pos (uses (pe_attrId e)) _ _ _ Hj') as H2.
  unfold uses at 1 in H2. rewrite Hu', Heq, Nat.eqb_refl in H2. specialize (H2 eq_refl). lia.
Qed.

Lemma release_last_spec m id e :
  mgr_inv m -> idToPath m !! id = Some e -> pe_used e = true -> pe_refCount e = 1 ->
  mgr_inv (release m id) /\ live (release m id) id = None /\
  (forall id', id' <> id -> live (release m id) id' = live m id').
Proof.
  intros Hm He Hu Hr. destruct (inv_path_ref _ m Hm _ _ He Hu) as (_ & ae & Hae & Hau).
  destruct (inv_attr_ref _ m Hm _ _ Hae Hau) as [Hc [Hge|Hp]]; [|done].
  pose proof (inv_attr_width _ m Hm _ _ Hae) as [_ Hw].
  assert (Hlt : (pe_attrId e < length (idToAttr m))%nat) by (eapply lookup_lt_Some; done).
  pose proof (unuse_lookup m id e He Hu) as Hlook.
  destruct (unuse_free m id e Hm He Hu) as [Hnd Hfree].
  pose proof (unuse_pathToId m id e Hm He Hu) as Hptoid.
  rewrite (release_last_eq m id e ae) by done. set (aid := pe_attrId e) in *.
  set (new := if 1 <? ae_refCount ae then attr_ref (-1) ae else mkAttrEntry (ae_attrs ae) 0 false).
  assert (Hlive : forall f1 f2 f3 f4 id', id' <> id ->
     ((1 <? ae_refCount ae) = false -> forall e', idToPath m !! id' = Some e' -> pe_used e' = true -> pe_attrId e' <> aid) ->
     live (mkManager f1 (<[aid := new]> (idToAttr m)) f2 f3 (<[id := unuse e]> (idToPath m)) f4) id' = live m id').
  { intros f1 f2 f3 f4 id' Hne Hsingle. unfold live. cbn. rewrite list_lookup_insert_ne by done.
    destruct (idToPath m !! id') as [e'|] eqn:He'; [|done]. destruct (pe_used e') eqn:Hu'; [|done].
    destruct (decide (pe_attrId e' = aid)) as [Heq|Hna].
    - rewrite Heq, list_lookup_insert_eq, Hae by done. subst new.
      destruct (1 <? ae_refCount ae); done.
    - rewrite list_lookup_insert_ne by done. done. }
  assert (Hnone : forall f1 f2 f3 f4 l, live (mkManager f1 l f2 f3 (<[id := unuse e]> (idToPath m)) f4) id = None).
  { intros. unfold live. cbn. rewrite list_lookup_insert_eq; [done|]. eapply lookup_lt_Some; done. }
  destruct (Z.ltb_spec 1 (ae_refCount ae)) as [Hgt|Hle]; subst new.
  - split; [|split; [apply Hnone | intros; apply Hlive; [done|intros [=]]]].
    split; cbn; try done.
    + intros a i. rewrite (inv_attr _ m Hm). symmetry. eapply exists_insert_iff; [done|]. done.
    + intros i. rewrite (inv_attr_free _ m Hm). symmetry. eapply exists_insert_iff; [done|]. done.
    + apply (inv_attr_nodup _ m Hm).
    + intros j e' Hj Hu'. apply Hlook in Hj as [Hne Hj]; [|done].
      destruct (inv_path_ref _ m Hm _ _ Hj Hu') as [? Hex]. split; [done|].
      eapply exists_insert_iff; [exact Hae|done|done].
    + intros i x Hi Hxu. rewrite unuse_count by done. fold aid.
      destruct (decide (i = aid)) as [->|Hne].
      * rewrite list_lookup_insert_eq in Hi by done. injection Hi as <-. rewrite Nat.eqb_refl. cbn.
        rewrite wrap_small by (split; lia). split; [lia|]. left. lia.
      * rewrite list_lookup_insert_ne in Hi by done. rewrite (proj2 (Nat.eqb_neq aid i)) by done.
        destruct (inv_attr_ref _ m Hm _ _ Hi Hxu) as [-> ?]. split; [lia|done].
    + intros i x Hi. destruct (decide (i = aid)) as [->|Hne].
      * rewrite list_lookup_insert_eq in Hi by done. injection Hi as <-. apply wrap_in_width. lia.
      * rewrite list_lookup_insert_ne in Hi by done. apply (inv_attr_width _ m Hm _ _ Hi).
  - assert (Hone : count (uses aid) (idToPath m) = 1) by lia.
    pose proof (single_use m id e) as Hsingle. fold aid in Hsingle.
    assert (Hnew : <[aid := mkAttrEntry (ae_attrs ae) 0 false]> (idToAttr m) !! aid =
                   Some (mkAttrEntry (ae_attrs ae) 0 false)) by (apply list_lookup_insert_eq; done).
    assert (Haid : attrToId m !! ae_attrs ae = Some aid) by (apply (inv_attr _ m Hm); eauto).
    split; [|split; [apply Hnone | intros id' Hne; apply Hlive; [done|intros _ e' He' Hu'; eapply Hsingle; done]]].
    split; cbn; try done.
    + intros a i. rewrite lookup_delete_Some, (inv_attr _ m Hm). split.
      * intros [Hna (x & Hx & Hxu & Hxa)]. exists x. split; [|done].
        rewrite list_lookup_insert_ne; [done|]. intros <-. congruence.
      * intros (x & Hx & Hxu & Hxa). destruct (decide (i = aid)) as [->|Hne].
        { rewrite Hnew in Hx. injection Hx as <-. done. }
        rewrite list_lookup_insert_ne in Hx by done. split; [|eauto].
        intros <-. apply Hne.
        assert (attrToId m !! ae_attrs x = Some i) by (apply (inv_attr _ m Hm); eauto).
        rewrite Hxa in *. congruence.
    + intros i. rewrite elem_of_cons. destruct (decide (i = aid)) as [->|Hne].
      * rewrite Hnew. split; [intros _; eexists; split; [done|done] | auto].
      * rewrite list_lookup_insert_ne by done. rewrite (inv_attr_free _ m Hm). tauto.
    + apply NoDup_cons. split; [|apply (inv_attr_nodup _ m Hm)].
      intros Hin. apply (inv_attr_free _ m Hm) in Hin as (x & Hx & Hxu). congruence.
    + intros j e' Hj Hu'. apply Hlook in Hj as [Hne Hj]; [|done].
      destruct (inv_path_ref _ m Hm _ _ Hj Hu') as [? Hex]. split; [done|].
      rewrite list_lookup_insert_ne; [done|]. intros Heq. eapply Hsingle; [done|done|done|exact Hne|done|done|done].
    + intros i x Hi Hxu. rewrite unuse_count by done. fold aid.
      destruct (decide (i = aid)) as [->|Hne].
      * rewrite Hnew in Hi. injection Hi as <-. done.
      * rewrite list_lookup_insert_ne in Hi by done. rewrite (proj2 (Nat.eqb_neq aid i)) by done.
        destruct (inv_attr_ref _ m Hm _ _ Hi Hxu) as [-> ?]. split; [lia|done].
    + intros i x Hi. destruct (decide (i = aid)) as [->|Hne].
      * rewrite Hnew in Hi. injection Hi as <-. apply in_width_0. lia.
      * rewrite list_lookup_insert_ne in Hi by done. apply (inv_attr_width _ m Hm _ _ Hi).
Qed.

(** ** The operations on the live handles *)

Lemma live_used pend m id a p n :
  mgr_inv_p pend m -> live m id = Some (a, p, n) ->
  exists e, idToPath m !! id = Some e /\ pe_used e = true /\ pe_refCount e = n /\ 1 <= n < 2 ^ 32.
Proof.
  intros Hm Hl. unfold live in Hl. destruct (idToPath m !! id) as [e|] eqn:He; [|done].
  destruct (pe_used e) eqn:Hu; [|done]. destruct (inv_path_ref _ m Hm _ _ He Hu) as [Hn _].
  exists e. case_match; [|done]. injection Hl as _ _ <-. done.
Qed.

Lemma path_ref_with_ref d e :
  in_width 32 (pe_refCount e + d) -> path_ref d e = with_ref e (pe_refCount e + d).
Proof. intros Hw. unfold path_ref, with_ref. rewrite wrap_small by done. done. Qed.

Lemma retain_spec m id :
  mgr_inv m -> room m ->
  match live m id with
  | None => retain m id = (m, false)
  | Some (a, p, n) =>
      exists m', retain m id = (m', true) /\ mgr_inv m' /\ live m' id = Some (a, p, n + 1) /\
        (forall id', id' <> id -> live m' id' = live m id')
  end.
Proof.
  intros Hm (_ & _ & Hroom). destruct (live m id) as [[[a p] n]|] eqn:Hl.
  - destruct (live_used _ m id a p n Hm Hl) as (e & He & Hu & <- & Hn).
    specialize (Hroom _ _ He Hu). unfold retain. rewrite He, Hu, path_ref_with_ref by (split; lia).
    eexists. split; [done|]. split; [apply set_ref_inv; done || lia|].
    eapply set_ref_live; done.
  - unfold retain. destruct (idToPath m !! id) as [e|] eqn:He; [|done].
    destruct (pe_used e) eqn:Hu; [|done].
    destruct (live_entry _ m id e Hm He Hu) as (ae & _ & Hl'). congruence.
Qed.

Lemma release_live m id :
  mgr_inv m ->
  mgr_inv (release m id) /\ (forall id', id' <> id -> live (release m id) id' = live m id') /\
  live (release m id) id =
    match live m id with
    | Some (a, p, n) => if n =? 1 then None else Some (a, p, n - 1)
    | None => None
    end.
Proof.
  intros Hm. destruct (live m id) as [[[a p] n]|] eqn:Hl.
  - destruct (live_used _ m id a p n Hm Hl) as (e & He & Hu & <- & Hn).
    destruct (Z.eqb_spec (pe_refCount e) 1) as [H1|H1].
    + destruct (release_last_spec m id e Hm He Hu H1) as (? & ? & ?). done.
    + assert (Heq : release m id = set_paths m (<[id := with_ref e (pe_refCount e - 1)]> (idToPath m))).
      { unfold release. rewrite He, Hu. cbn [negb]. rewrite (proj2 (Z.eqb_neq _ 0)) by lia.
        rewrite path_ref_with_ref by (split; lia). cbn [with_ref pe_refCount].
        rewrite (proj2 (Z.ltb_lt _ _)) by lia. done. }
      rewrite Heq. split; [apply set_ref_inv; done || lia|].
      destruct (set_ref_live _ m id e (pe_refCount e - 1) a p _ Hm He Hl). done.
  - assert (Heq : release m id = m).
    { unfold release. destruct (idToPath m !! id) as [e|] eqn:He; [|done].
      destruct (pe_used e) eqn:Hu; [|done].
      destruct (live_entry _ m id e Hm He Hu) as (ae & _ & Hl'). congruence. }
    rewrite Heq. done.
Qed.

(** [acquire] adds a reference to the handle that holds the contents, or
    makes a new handle. *)
Lemma acquire_live m a p m' id :
  mgr_inv m -> room m -> acquire m a p = (m', id) ->
  mgr_inv m' /\ (forall id', id' <> id -> live m' id' = live m id') /\
  ((exists n, live m id = Some (a, p, n) /\ live m' id = Some (a, p, n + 1)) \/
   (live m id = None /\ live m' id = Some (a, p, 1) /\ forall id' n, live m id' <> Some (a, p, n))).
Proof.
  intros Hm (Hra & Hrp & Hrr) Hacq. unfold acquire in Hacq.
  destruct (acquireAttr m a) as [m1 i] eqn:Ha.
  destruct (acquireAttr_spec m a m1 i Hm ltac:(lia) Ha) as (Hm1 & (ae & Hae & Hau & <-) & Hp1 & Hpt1 & Hf1 & Hlive1).
  destruct (pathToId m1 !! (i, p)) as [j|] eqn:Hk.
  - injection Hacq as <- <-. apply (inv_path _ m1 Hm1) in Hk as (e & He & Hu & [= Hei Hep]).
    assert (Hru : pe_refCount e < 2 ^ 32 - 1) by (rewrite Hp1 in He; eauto).
    destruct (inv_path_ref _ m1 Hm1 _ _ He Hu) as [Hn _].
    assert (Heq : alter (path_ref 1) j (idToPath m1) = <[j := with_ref e (pe_refCount e + 1)]> (idToPath m1)).
    { rewrite <- path_ref_with_ref by (split; lia). apply list_eq. intros k. destruct (decide (k = j)) as [->|Hne].
      - rewrite list_lookup_alter_eq, He, list_lookup_insert_eq; [done|]. eapply lookup_lt_Some; done.
      - rewrite list_lookup_alter_ne, list_lookup_insert_ne by done. done. }
    rewrite Heq. assert (Hl : live m1 j = Some (ae_attrs ae, p, pe_refCount e)).
    { unfold live. rewrite He, Hu, Hei, Hae, Hep. done. }
    destruct (set_ref_live _ m1 j e (pe_refCount e + 1) _ _ _ Hm1 He Hl) as [Hl1 Hl2].
    split; [|split].
    + apply set_ref_inv; [|done|done|lia]. apply (drop_pend m1 i j e Hm1 He).
      unfold uses. rewrite Hu, Hei, Nat.eqb_refl. done.
    + intros id' Hne. rewrite Hl2, Hlive1 by done. done.
    + left. exists (pe_refCount e). rewrite <- Hlive1. done.
  - destruct (alloc_id _ _) as [[j free] grow] eqn:Halloc. injection Hacq as <- <-.
    destruct (new_path_inv m1 i ae p j free grow Hm1 Hae Hau ltac:(rewrite Hp1; lia) Hk Halloc)
      as (Hinv & Hl1 & Hl0 & Hlo). split; [exact Hinv|]. split; [intros id' Hne; rewrite Hlo, Hlive1; done|].
    right. rewrite <- Hlive1. split; [done|]. split; [done|].
    intros id' n Hl. rewrite <- Hlive1 in Hl. unfold live in Hl.
    destruct (idToPath m1 !! id') as [e|] eqn:He; [|done]. destruct (pe_used e) eqn:Hu; [|done].
    destruct (idToAttr m1 !! pe_attrId e) as [ae'|] eqn:Hae'; [|done]. injection Hl as Hea Hep _.
    destruct (inv_path_ref _ m1 Hm1 _ _ He Hu) as (_ & ae'' & Hx & Hxu).
    assert (H1 : attrToId m1 !! ae_attrs ae = Some (pe_attrId e)).
    { apply (inv_attr _ m1 Hm1). exists ae'. split_and!; congruence. }
    assert (H3 : attrToId m1 !! ae_attrs ae = Some i) by (apply (inv_attr _ m1 Hm1); eauto).
    assert (H4 : pathToId m1 !! (i, p) = Some id').
    { apply (inv_path _ m1 Hm1). exists e. split_and!; congruence. }
    congruence.
Qed.

(** ** References held by route objects *)

(** [routing/bgp/rib/RibTypes.hpp:147-149] RouteBase: [hasMgr] tells whether [attrMgr] is set. *)
Record RouteBase := mkRouteBase { pathId : option nat; hasMgr : bool }.

(** The object holds a reference to the handle [id]. *)
Definition holds (id : nat) (r : RouteBase) : bool := hasMgr r && bool_decide (pathId r = Some id).

(** [routing/bgp/rib/RibTypes.hpp:232-236] RouteBase::retainPathRef *)
Definition retainPathRef (m : AttributeManager) (r : RouteBase) : AttributeManager :=
  match hasMgr r, pathId r with true, Some id => (retain m id).1 | _, _ => m end.

(** [routing/bgp/rib/RibTypes.hpp:238-244] RouteBase::releasePathRef *)
Definition releasePathRef (m : AttributeManager) (r : RouteBase) : AttributeManager * RouteBase :=
  (match hasMgr r, pathId r with true, Some id => release m id | _, _ => m end,
   mkRouteBase None (hasMgr r)).

(** [routing/bgp/rib/RibTypes.hpp:223-227] RouteBase::getPathAttributes *)
Definition getPathAttributes (m : AttributeManager) (r : RouteBase) : outcome (A * P) :=
  match hasMgr r, pathId r with true, Some id => get m id | _, _ => UB end.

(** The manager and the route objects by identity; a destroyed object is
    [None]. *)
Record Routes := mkRoutes { mgr : AttributeManager; objs : list (option RouteBase) }.

(** The operations on route objects. *)
Inductive route_op :=
  | OpAcquire (a : A) (p : P)
  | OpDefault
  | OpCopy (src : nat)
  | OpMove (src : nat)
  | OpAssign (dst src : nat)
  | OpMoveAssign (dst src : nat)
  | OpDestroy (i : nat).

Definition obj (s : Routes) (i : nat) : outcome RouteBase :=
  match objs s !! i with Some (Some r) => Ret r | _ => UB end.

(** [routing/bgp/rib/RibTypes.hpp:160-162] RouteBase::RouteBase(AttributeManager&, uint32_t), on a
    fresh reference *)
Definition route_acquire (s : Routes) (a : A) (p : P) : Routes :=
  let '(m, id) := acquire (mgr s) a p in
  mkRoutes m (objs s ++ [Some (mkRouteBase (Some id) true)]).

(** [routing/bgp/rib/RibTypes.hpp:164-169] RouteBase::RouteBase(const RouteBase&) *)
Definition route_copy (s : Routes) (src : nat) : outcome Routes :=
  other ← obj s src;
  let r := mkRouteBase (pathId other) (hasMgr other) in
  Ret (mkRoutes (retainPathRef (mgr s) r) (objs s ++ [Some r])).

(** [routing/bgp/rib/RibTypes.hpp:171-177] RouteBase::RouteBase(RouteBase&&) *)
Definition route_move (s : Routes) (src : nat) : outcome Routes :=
  other ← obj s src;
  Ret (mkRoutes (mgr s)
         (<[src := Some (mkRouteBase None false)]> (objs s) ++ [Some (mkRouteBase (pathId other) (hasMgr other))])).

(** [routing/bgp/rib/RibTypes.hpp:179-191] RouteBase::operator=(const RouteBase&) *)
Definition route_assign (s : Routes) (dst src : nat) : outcome Routes :=
  self ← obj s dst; other ← obj s src;
  if Nat.eqb dst src then Ret s
  else
    let '(m1, _) := releasePathRef (mgr s) self in
    let r := mkRouteBase (pathId other) (hasMgr other) in
    Ret (mkRoutes (retainPathRef m1 r) (<[dst := Some r]> (objs s))).

(** [routing/bgp/rib/RibTypes.hpp:193-207] RouteBase::operator=(RouteBase&&) *)
Definition route_move_assign (s : Routes) (dst src : nat) : outcome Routes :=
  self ← obj s dst; other ← obj s src;
  if Nat.eqb dst src then Ret s
  else
    let '(m1, _) := releasePathRef (mgr s) self in
    let r := mkRouteBase (pathId other) (hasMgr other) in
    Ret (mkRoutes m1 (<[src := Some (mkRouteBase None false)]> (<[dst := Some r]> (objs s)))).

(** [routing/bgp/rib/RibTypes.hpp:212-215] RouteBase::~RouteBase *)
Definition route_destroy (s : Routes) (i : nat) : outcome Routes :=
  self ← obj s i;
  let '(m1, _) := releasePathRef (mgr s) self in
  Ret (mkRoutes m1 (<[i := None]> (objs s))).

Definition route_step (s : Routes) (op : route_op) : outcome Routes :=
  match op with
  | OpAcquire a p => Ret (route_acquire s a p)
  | OpDefault => Ret (mkRoutes (mgr s) (objs s ++ [Some (mkRouteBase None false)]))
  | OpCopy src => route_copy s src
  | OpMove src => route_move s src
  | OpAssign dst src => route_assign s dst src
  | OpMoveAssign dst src => route_move_assign s dst src
  | OpDestroy i => route_destroy s i
  end.

Fixpoint route_run (s : Routes) (ops : list route_op) : outcome Routes :=
  match ops with
  | [] => Ret s
  | op :: ops => s' ← route_step s op; route_run s' ops
  end.

Definition Routes_new : Routes := mkRoutes Manager_clear [].

(** ** Conservation of references *)

Definition refs (m : AttributeManager) (id : nat) : Z :=
  match live m id with Some (_, _, n) => n | None => 0 end.

Definition b2z (b : bool) : Z := if b then 1 else 0.

Definition obj_holds (id : nat) (o : option RouteBase) : bool :=
  match o with Some r => holds id r | None => false end.

(** The number of route objects holding the handle. *)
Definition held (s : Routes) (id : nat) : Z := count (obj_holds id) (objs s).

Definition routes_inv (s : Routes) : Prop :=
  mgr_inv (mgr s) /\ (forall id, refs (mgr s) id = held s id) /\
  (length (idToAttr (mgr s)) <= length (objs s))%nat /\ (length (idToPath (mgr s)) <= length (objs s))%nat.

Lemma refs_live m id : mgr_inv m -> 1 <= refs m id <-> exists a p n, live m id = Some (a, p, n).
Proof.
  intros Hm. unfold refs. destruct (live m id) as [[[a p] n]|] eqn:Hl.
  - destruct (live_used _ _ _ _ _ _ Hm Hl) as (_ & _ & _ & _ & Hn). split; [eauto|lia].
  - split; [lia|]. intros (? & ? & ? & ?). done.
Qed.

Lemma routes_room s : routes_inv s -> Z.of_nat (length (objs s)) < 2 ^ 32 - 1 -> room (mgr s).
Proof.
  intros (Hm & Hrefs & Ha & Hp) Hlen. split; [lia|]. split; [lia|]. intros i e He Hu.
  destruct (live_entry _ _ _ _ Hm He Hu) as (ae & _ & Hl).
  specialize (Hrefs i). unfold refs in Hrefs. rewrite Hl in Hrefs.
  pose proof (count_bound (obj_holds i) (objs s)). unfold held in Hrefs. lia.
Qed.

Lemma retainPathRef_spec m r :
  mgr_inv m -> room m -> (forall id, holds id r = true -> 1 <= refs m id) ->
  mgr_inv (retainPathRef m r) /\
  (forall id, refs (retainPathRef m r) id = refs m id + b2z (holds id r)) /\
  (forall id a p n, live (retainPathRef m r) id = Some (a, p, n) -> exists n', live m id = Some (a, p, n')) /\
  length (idToAttr (retainPathRef m r)) = length (idToAttr m) /\
  length (idToPath (retainPathRef m r)) = length (idToPath m).
Proof.
  intros Hm Hroom Hh. unfold retainPathRef, holds in *.
  destruct (hasMgr r) eqn:Hmgr; cbn [andb b2z]; [|split_and!; eauto; intros; lia].
  destruct (pathId r) as [id0|] eqn:Hid; [|split_and!; eauto; intros; rewrite bool_decide_eq_false_2 by done; cbn [b2z]; lia].
  assert (H1 : 1 <= refs m id0) by (apply Hh, bool_decide_eq_true; done).
  apply (refs_live m id0 Hm) in H1 as (a & p & n & Hl).
  pose proof (retain_spec m id0 Hm Hroom) as Hr. rewrite Hl in Hr.
  destruct Hr as (m' & Hr & Hm' & Hl' & Ho). rewrite Hr. cbn [fst].
  split; [done|]. split; [|split].
  - intros id. unfold refs. destruct (decide (id = id0)) as [->|Hne].
    + rewrite Hl, Hl', bool_decide_eq_true_2 by done. done.
    + rewrite Ho, bool_decide_eq_false_2 by congruence. cbn. lia.
  - intros id b q k Hk. destruct (decide (id = id0)) as [->|Hne].
    + rewrite Hl' in Hk. injection Hk as <- <- _. eauto.
    + rewrite Ho in Hk by done. eauto.
  - unfold retain in Hr. repeat case_match; injection Hr as <-; cbn; rewrite ?length_insert; done.
Qed.

Lemma length_releaseAttr m id :
  length (idToAttr (releaseAttr m id)) = length (idToAttr m) /\ idToPath (releaseAttr m id) = idToPath m.
Proof. unfold releaseAttr. repeat case_match; cbn; rewrite ?length_insert; done. Qed.

Lemma length_release m id :
  length (idToAttr (release m id)) = length (idToAttr m) /\
  length (idToPath (release m id)) = length (idToPath m).
Proof.
  unfold release. repeat case_match; cbn; rewrite ?length_insert; try done.
  match goal with |- context [releaseAttr ?m ?i] => destruct (length_releaseAttr m i) as [-> ->] end. done.
Qed.

Lemma releasePathRef_spec m r :
  mgr_inv m -> (forall id, holds id r = true -> 1 <= refs m id) ->
  let m' := (releasePathRef m r).1 in
  mgr_inv m' /\
  (forall id, refs m' id = refs m id - b2z (holds id r)) /\
  (forall id a p n, live m' id = Some (a, p, n) -> exists n', live m id = Some (a, p, n')) /\
  length (idToAttr m') = length (idToAttr m) /\ length (idToPath m') = length (idToPath m).
Proof.
  intros Hm Hh. unfold releasePathRef, holds in *. cbn [fst].
  destruct (hasMgr r) eqn:Hmgr; cbn [andb b2z]; [|split_and!; eauto; intros; lia].
  destruct (pathId r) as [id0|] eqn:Hid; [|split_and!; eauto; intros; rewrite bool_decide_eq_false_2 by done; cbn [b2z]; lia].
  assert (H1 : 1 <= refs m id0) by (apply Hh, bool_decide_eq_true; done).
  apply (refs_live m id0 Hm) in H1 as (a & p & n & Hl).
  destruct (release_live m id0 Hm) as (Hm' & Ho & Hl'). rewrite Hl in Hl'.
  destruct (length_release m id0) as [Hla Hlp].
  split; [done|]. split; [|split; [|done]].
  - intros id. unfold refs. destruct (decide (id = id0)) as [->|Hne].
    + rewrite Hl, Hl', bool_decide_eq_true_2 by done. cbn. destruct (Z.eqb_spec n 1); [subst|]; done.
    + rewrite Ho, bool_decide_eq_false_2 by congruence. cbn. lia.
  - intros id b q k Hk. destruct (decide (id = id0)) as [->|Hne].
    + rewrite Hl' in Hk. destruct (n =? 1); [done|]. injection Hk as <- <- _. eauto.
    + rewrite Ho in Hk by done. eauto.
Qed.

Lemma length_acquire m a p m' id :
  acquire m a p = (m', id) ->
  (length (idToAttr m') <= S (length (idToAttr m)))%nat /\ (length (idToPath m') <= S (length (idToPath m)))%nat.
Proof.
  unfold acquire, acquireAttr, alloc_id. intros Hacq.
  destruct (attrToId m !! a); [|destruct (freeAttrIds m)]; cbn in Hacq;
    (destruct (pathToId m !! _); [|destruct (freePathIds m)]); injection Hacq as <- <-; cbn;
    rewrite ?length_alter, ?length_insert, ?length_app; cbn; lia.
Qed.

Lemma acquire_refs m a p m' id :
  mgr_inv m -> room m -> acquire m a p = (m', id) ->
  mgr_inv m' /\ (forall id', refs m' id' = refs m id' + b2z (Nat.eqb id' id)) /\
  (forall id' b q n, live m id' = Some (b, q, n) -> exists n', live m' id' = Some (b, q, n')).
Proof.
  intros Hm Hroom Ha. destruct (acquire_live m a p m' id Hm Hroom Ha) as (Hm' & Ho & Hcase).
  split; [done|]. split.
  - intros id'. unfold refs. destruct (Nat.eqb_spec id' id) as [->|Hne]; cbn.
    + destruct Hcase as [(n & -> & ->)|(-> & -> & _)]; cbn; lia.
    + rewrite Ho by done. lia.
  - intros id' b q n Hl. destruct (decide (id' = id)) as [->|Hne].
    + destruct Hcase as [(k & Hk & Hk')|(Hn & _)]; [|congruence]. rewrite Hk in Hl. injection Hl as <- <- _. eauto.
    + rewrite Ho by done. eauto.
Qed.

Lemma room_refs m :
  mgr_inv m -> Z.of_nat (length (idToAttr m)) < 2 ^ 32 - 1 -> Z.of_nat (length (idToPath m)) < 2 ^ 32 - 1 ->
  (forall id, refs m id < 2 ^ 32 - 1) -> room m.
Proof.
  intros Hm Ha Hp Hr. split; [done|]. split; [done|]. intros i e He Hu.
  destruct (live_entry _ _ _ _ Hm He Hu) as (ae & _ & Hl).
  specialize (Hr i). unfold refs in Hr. rewrite Hl in Hr. done.
Qed.

Lemma obj_ret s i r : obj s i = Ret r -> objs s !! i = Some (Some r).
Proof. unfold obj. repeat case_match; congruence. Qed.

Lemma held_refs s i r id :
  routes_inv s -> objs s !! i = Some (Some r) -> holds id r = true -> 1 <= refs (mgr s) id.
Proof. intros (_ & Hrefs & _) Hi Hh. rewrite Hrefs. eapply count_pos; done. Qed.

(** A handle alive on both sides of a step has the same contents. *)
Definition same_contents (m m' : AttributeManager) : Prop :=
  forall id a p n, live m id = Some (a, p, n) -> 1 <= refs m' id -> exists n', live m' id = Some (a, p, n').

Lemma same_contents_shrink m m' :
  mgr_inv m' ->
  (forall id a p n, live m' id = Some (a, p, n) -> exists n', live m id = Some (a, p, n')) -> same_contents m m'.
Proof.
  intros Hm Hs id a p n Hl Hr. apply (refs_live m' id Hm) in Hr as (b & q & k & Hk).
  destruct (Hs _ _ _ _ Hk) as (n' & Hl'). rewrite Hl in Hl'. injection Hl' as <- <- _. eauto.
Qed.

Definition holds_moved := mkRouteBase None false.

Lemma holds_none id h : holds id (mkRouteBase None h) = false.
Proof. unfold holds. cbn. rewrite bool_decide_eq_false_2 by done. apply andb_false_r. Qed.

(** Replacing one object by another in the object list. *)
Lemma held_insert (l : list (option RouteBase)) i o o' id :
  l !! i = Some o ->
  count (obj_holds id) (<[i := o']> l) =
    count (obj_holds id) l - b2z (obj_holds id o) + b2z (obj_holds id o').
Proof. apply count_insert. Qed.

(** Releasing what object [i] holds and storing [o] in its place. *)
Lemma release_at s i self o :
  routes_inv s -> objs s !! i = Some (Some self) ->
  let m1 := (releasePathRef (mgr s) self).1 in
  mgr_inv m1 /\ same_contents (mgr s) m1 /\
  (forall id a p n, live m1 id = Some (a, p, n) -> exists n', live (mgr s) id = Some (a, p, n')) /\
  length (idToAttr m1) = length (idToAttr (mgr s)) /\ length (idToPath m1) = length (idToPath (mgr s)) /\
  (forall id, refs m1 id + b2z (obj_holds id o) = count (obj_holds id) (<[i := o]> (objs s))).
Proof.
  intros Hs Hi m1. pose proof Hs as (Hm & Hrefs & _).
  destruct (releasePathRef_spec (mgr s) self Hm (fun id => held_refs s i self id Hs Hi))
    as (Hm1 & Hr1 & Hsub & Hla & Hlp).
  split; [exact Hm1|]. split; [apply same_contents_shrink; done|]. split; [exact Hsub|].
  split; [done|]. split; [done|]. intros id. rewrite (held_insert _ _ _ _ _ Hi). subst m1.
  rewrite Hr1, Hrefs. unfold held. cbn [obj_holds]. lia.
Qed.

Lemma route_assign_inv s dst src s' :
  routes_inv s -> Z.of_nat (length (objs s)) < 2 ^ 32 - 1 -> route_assign s dst src = Ret s' ->
  routes_inv s' /\ length (objs s') = length (objs s) /\ same_contents (mgr s) (mgr s').
Proof.
  intros Hs Hlen Hstep. unfold route_assign in Hstep.
  apply outcome_bind_ret_inv in Hstep as (self & Hself & Hstep).
  apply outcome_bind_ret_inv in Hstep as (other & Hother & Hstep).
  apply obj_ret in Hself, Hother. pose proof Hs as (Hm & Hrefs & Hla & Hlp).
  destruct (Nat.eqb_spec dst src) as [->|Hne].
  { injection Hstep as <-. split; [done|]. split; [done|]. intros id a p n Hl _. eauto. }
  destruct (releasePathRef (mgr s) self) as [m1 x] eqn:Hrel. injection Hstep as <-. cbn [mgr objs].
  destruct (release_at s dst self None Hs Hself) as (Hm1 & _ & Hsub1 & Hla1 & Hlp1 & Hr1).
  rewrite Hrel in *. cbn [fst] in *.
  set (r := mkRouteBase (pathId other) (hasMgr other)).
  assert (Hsrc : <[dst := None]> (objs s) !! src = Some (Some other)) by (rewrite list_lookup_insert_ne; done).
  assert (Hh : forall id, holds id r = true -> 1 <= refs m1 id).
  { intros id Hid. specialize (Hr1 id). cbn [obj_holds b2z] in Hr1.
    pose proof (count_pos (obj_holds id) _ _ _ Hsrc Hid). lia. }
  assert (Hroom : room m1).
  { apply room_refs; [done|lia|lia|]. intros id. specialize (Hr1 id). cbn [obj_holds b2z] in Hr1.
    pose proof (count_bound (obj_holds id) (<[dst:=None]> (objs s))) as Hb. rewrite length_insert in Hb. lia. }
  destruct (retainPathRef_spec m1 r Hm1 Hroom Hh) as (Hm2 & Hr2 & Hsub2 & Hla2 & Hlp2).
  split; [split; [exact Hm2|split; [|cbn; rewrite length_insert; lia]]|split; [apply length_insert|]].
  - intros id. cbn [mgr objs]. rewrite Hr2. unfold held. cbn [objs].
    specialize (Hr1 id). cbn [obj_holds b2z] in Hr1.
    rewrite (held_insert _ _ _ _ _ Hself). rewrite (held_insert _ _ _ _ _ Hself) in Hr1.
    cbn [obj_holds b2z] in *. lia.
  - apply same_contents_shrink; [exact Hm2|]. intros id a p n Hl.
    apply Hsub2 in Hl as (n' & Hl). eauto.
Qed.

Lemma route_move_assign_inv s dst src s' :
  routes_inv s -> route_move_assign s dst src = Ret s' ->
  routes_inv s' /\ length (objs s') = length (objs s) /\ same_contents (mgr s) (mgr s').
Proof.
  intros Hs Hstep. unfold route_move_assign in Hstep.
  apply outcome_bind_ret_inv in Hstep as (self & Hself & Hstep).
  apply outcome_bind_ret_inv in Hstep as (other & Hother & Hstep).
  apply obj_ret in Hself, Hother. pose proof Hs as (Hm & Hrefs & Hla & Hlp).
  destruct (Nat.eqb_spec dst src) as [->|Hne].
  { injection Hstep as <-. split; [done|]. split; [done|]. intros id a p n Hl _. eauto. }
  destruct (releasePathRef (mgr s) self) as [m1 x] eqn:Hrel. injection Hstep as <-. cbn [mgr objs].
  set (r := mkRouteBase (pathId other) (hasMgr other)).
  destruct (release_at s dst self (Some r) Hs Hself) as (Hm1 & Hsame & _ & Hla1 & Hlp1 & Hr1).
  rewrite Hrel in *. cbn [fst] in *.
  assert (Hsrc : <[dst := Some r]> (objs s) !! src = Some (Some other)) by (rewrite list_lookup_insert_ne; done).
  split; [split; [exact Hm1|split; [|cbn; rewrite !length_insert; lia]]|split; [rewrite !length_insert; done|done]].
  intros id. unfold held. cbn [mgr objs]. rewrite (held_insert _ _ _ _ _ Hsrc). cbn [obj_holds].
  rewrite holds_none. specialize (Hr1 id). cbn [obj_holds b2z] in *.
  assert (Hro : holds id r = holds id other) by done. rewrite Hro in Hr1. lia.
Qed.

Lemma route_step_inv s op s' :
  routes_inv s -> Z.of_nat (length (objs s)) < 2 ^ 32 - 1 -> route_step s op = Ret s' ->
  routes_inv s' /\ (length (objs s') <= S (length (objs s)))%nat /\ same_contents (mgr s) (mgr s').
Proof.
  intros Hs Hlen Hstep. pose proof Hs as (Hm & Hrefs & Hla & Hlp).
  pose proof (routes_room s Hs Hlen) as Hroom.
  assert (Hrefl : same_contents (mgr s) (mgr s)) by (intros id a p n Hl _; eauto).
  destruct op as [a p| |src|src|dst src|dst src|i]; cbn in Hstep.
  - unfold route_acquire in Hstep. destruct (acquire (mgr s) a p) as [m' id] eqn:Ha. injection Hstep as <-.
    destruct (acquire_refs _ _ _ _ _ Hm Hroom Ha) as (Hm' & Hr & Hgrow).
    destruct (length_acquire _ _ _ _ _ Ha) as [Hl1 Hl2]. cbn [mgr objs]. rewrite length_app. cbn [length].
    split; [split; [done|split; [|cbn; rewrite length_app; cbn; lia]]|split; [lia|]].
    + intros id'. unfold held. cbn [mgr objs]. rewrite Hr, Hrefs, count_app. unfold held. cbn [count obj_holds].
      unfold holds. cbn [hasMgr pathId andb].
      destruct (Nat.eqb_spec id' id) as [->|Hne]; [rewrite bool_decide_eq_true_2 by done; cbn; lia|].
      rewrite bool_decide_eq_false_2 by congruence. cbn. lia.
    + intros id' b q n Hl _. eauto.
  - injection Hstep as <-. cbn [mgr objs]. rewrite length_app. cbn [length].
    split; [split; [done|split; [|cbn; rewrite length_app; cbn; lia]]|split; [lia|done]].
    intros id. unfold held. cbn [mgr objs]. rewrite count_app. cbn [count obj_holds]. rewrite holds_none, Hrefs.
    unfold held. lia.
  - unfold route_copy in Hstep. apply outcome_bind_ret_inv in Hstep as (other & Hother & Hstep).
    apply obj_ret in Hother. injection Hstep as <-. cbn [mgr objs].
    set (r := mkRouteBase (pathId other) (hasMgr other)).
    destruct (retainPathRef_spec (mgr s) r Hm Hroom (fun id => held_refs s src other id Hs Hother))
      as (Hm2 & Hr2 & Hsub2 & Hla2 & Hlp2).
    split; [split; [exact Hm2|split; [|cbn; rewrite length_app; cbn; lia]]|split; [rewrite length_app; cbn; lia|]].
    + intros id. unfold held. cbn [mgr objs]. rewrite Hr2, Hrefs, count_app. unfold held. cbn [count obj_holds b2z].
      unfold b2z. lia.
    + apply same_contents_shrink; done.
  - unfold route_move in Hstep. apply outcome_bind_ret_inv in Hstep as (other & Hother & Hstep).
    apply obj_ret in Hother. injection Hstep as <-. cbn [mgr objs].
    split; [split; [done|split; [|cbn; rewrite length_app, length_insert; cbn; lia]]|split; [|done]].
    + intros id. unfold held. cbn [mgr objs]. rewrite count_app, (held_insert _ _ _ _ _ Hother), Hrefs.
      unfold held. cbn [count obj_holds]. rewrite holds_none. unfold holds. cbn [pathId hasMgr]. unfold b2z. lia.
    + rewrite length_app, length_insert. cbn. lia.
  - destruct (route_assign_inv s dst src s' Hs Hlen Hstep) as (? & Hl & ?). split; [done|]. split; [lia|done].
  - destruct (route_move_assign_inv s dst src s' Hs Hstep) as (? & Hl & ?). split; [done|]. split; [lia|done].
  - unfold route_destroy in Hstep. apply outcome_bind_ret_inv in Hstep as (self & Hself & Hstep).
    apply obj_ret in Hself. destruct (releasePathRef (mgr s) self) as [m1 x] eqn:Hrel. injection Hstep as <-.
    destruct (release_at s i self None Hs Hself) as (Hm1 & Hsame & _ & Hla1 & Hlp1 & Hr1).
    rewrite Hrel in *. cbn [fst mgr objs] in *. rewrite length_insert.
    split; [split; [done|split; [|cbn; rewrite length_insert; lia]]|split; [lia|done]].
    intros id. specialize (Hr1 id). cbn [obj_holds b2z] in Hr1. unfold held. cbn [mgr objs]. lia.
Qed.

Lemma routes_inv_new : routes_inv Routes_new.
Proof. split; [apply mgr_inv_clear|]. split; [done|]. cbn. lia. Qed.

Lemma route_run_inv s ops s' :
  routes_inv s -> Z.of_nat (length (objs s) + length ops) < 2 ^ 32 -> route_run s ops = Ret s' -> routes_inv s'.
Proof.
  revert s. induction ops as [|op ops IH]; intros s Hs Hlen Hrun; cbn in *; [congruence|].
  apply outcome_bind_ret_inv in Hrun as (s1 & Hstep & Hrun).
  destruct (route_step_inv s op s1 Hs ltac:(lia) Hstep) as (Hs1 & Hl1 & _).
  apply (IH s1); [done|lia|done].
Qed.

(** ** The theorems *)

(** [acquire] interns: the identifier it returns denotes the attributes and
    path it was given, it is the identifier already in use for them if there
    is one and a free one otherwise, and no other identifier changes. *)
Theorem acquire_interns (m m' : AttributeManager) (a : A) (p : P) (id : nat) :
  mgr_inv m -> room m -> acquire m a p = (m', id) ->
  mgr_inv m' /\ get m' id = Ret (a, p) /\
  (forall id', id' <> id -> live m' id' = live m id') /\
  (forall id', get m' id' = Ret (a, p) -> id' = id) /\
  (get m id = Ret (a, p) \/ (live m id = None /\ forall id', get m id' <> Ret (a, p))).
Proof.
  intros Hm Hroom Ha. destruct (acquire_live m a p m' id Hm Hroom Ha) as (Hm' & Ho & Hcase).
  assert (Hl : exists n, live m' id = Some (a, p, n)) by (destruct Hcase as [(n & _ & H1)|(_ & H1 & _)]; eauto).
  destruct Hl as [n Hl]. split; [done|]. split; [eapply live_get, Hl|]. split; [done|]. split.
  - intros id' Hg. apply get_live in Hg as [n' Hg]. eapply live_inj; done.
  - destruct Hcase as [(k & Hk & _)|(Hn & _ & Hno)]; [left; eapply live_get, Hk|right].
    split; [done|]. intros id' Hg. apply get_live in Hg as [n' Hg]. eapply Hno, Hg.
Qed.

(** C4: References are conserved: after any run of route constructions, copies,
    moves, assignments and destructions, the count of every handle is the
    number of route objects that hold it, every object that holds a handle
    reads its attributes, and when all objects are destroyed no handle is
    left. *)
Theorem references_conserved (ops : list route_op) (s : Routes) :
  Z.of_nat (length ops) < 2 ^ 32 -> route_run Routes_new ops = Ret s ->
  (forall id, refs (mgr s) id = held s id) /\
  (forall i r id, objs s !! i = Some (Some r) -> holds id r = true ->
     exists ap, getPathAttributes (mgr s) r = Ret ap) /\
  ((forall i r, objs s !! i <> Some (Some r)) -> forall id, live (mgr s) id = None).
Proof.
  intros Hlen Hrun. pose proof (route_run_inv _ _ _ routes_inv_new Hlen Hrun) as Hs.
  pose proof Hs as (Hm & Hrefs & _). split; [done|]. split.
  - intros i r id Hi Hh. pose proof (held_refs s i r id Hs Hi Hh) as H1.
    apply (refs_live _ _ Hm) in H1 as (a & p & n & Hl). exists (a, p).
    unfold holds in Hh. apply andb_true_iff in Hh as [Hh Hid]. apply bool_decide_eq_true in Hid.
    unfold getPathAttributes. rewrite Hh, Hid. eapply live_get, Hl.
  - intros Hnone id. destruct (live (mgr s) id) as [[[a p] n]|] eqn:Hl; [|done].
    assert (H1 : 1 <= refs (mgr s) id) by (apply (refs_live _ _ Hm); eauto).
    rewrite Hrefs in H1. unfold held in H1. rewrite count_0 in H1; [lia|].
    intros i [r|] Hi; [|done]. exfalso. eapply Hnone, Hi.
Qed.

(** A route's attributes do not change while it holds its reference, whatever
    happens to the other routes. *)
Theorem route_attributes_stable (s s' : Routes) (op : route_op) (i : nat) (r : RouteBase) (id : nat) :
  routes_inv s -> Z.of_nat (length (objs s)) < 2 ^ 32 - 1 -> route_step s op = Ret s' ->
  objs s !! i = Some (Some r) -> objs s' !! i = Some (Some r) -> holds id r = true ->
  getPathAttributes (mgr s') r = getPathAttributes (mgr s) r.
Proof.
  intros Hs Hlen Hstep Hi Hi' Hh.
  destruct (route_step_inv s op s' Hs Hlen Hstep) as (Hs' & _ & Hsame).
  pose proof (held_refs s i r id Hs Hi Hh) as H1. pose proof (held_refs s' i r id Hs' Hi' Hh) as H3.
  apply (refs_live _ _ (proj1 Hs)) in H1 as (a & p & n & Hl).
  destruct (Hsame id a p n Hl H3) as (n' & Hl').
  unfold holds in Hh. apply andb_true_iff in Hh as [Hh Hid]. apply bool_decide_eq_true in Hid.
  unfold getPathAttributes. rewrite Hh, Hid, (live_get _ _ _ _ _ Hl), (live_get _ _ _ _ _ Hl'). done.
Qed.

End Manager.
Arguments AttributeManager A P {_ _ _ _}.
Arguments Routes A P {_ _ _ _}.
Arguments route_op A P : clear implicits.

(** ** The instance of the BGP process *)

(** [routing/bgp/BgpTypes.hpp:115-118] AfiSafi *)
Record AfiSafi := mkAfiSafi { afi : Z; safi : Z }.

(** [routing/bgp/BgpTypes.hpp:127-132] AfiSafi::flatten *)
Definition flatten (f : AfiSafi) : Z := u32 (Z.lor (afi f) (Z.shiftl (safi f) 16)).

(** [routing/bgp/attributes/AttributeTypes.hpp:108-116] Path *)
Record Path := mkPath {
  family : AfiSafi;
  nextHop : IPAddress;
  linkLocal : option IPAddress;
  rd : option Z
}.

#[export] Instance AsPathSegment_eq_dec : EqDecision AsPathSegment.
Proof. solve_decision. Defined.
#[export] Instance AsPathSegment_countable : Countable AsPathSegment.
Proof.
  refine (inj_countable' (fun s => (segmentType s, asns s)) (fun x => mkSegment x.1 x.2) _). by intros [].
Defined.
#[export] Instance UnknownAttribute_eq_dec : EqDecision UnknownAttribute.
Proof. solve_decision. Defined.
#[export] Instance UnknownAttribute_countable : Countable UnknownAttribute.
Proof.
  refine (inj_countable' (fun u => (ua_flags u, ua_type u, ua_value u)) (fun x => mkUnknown x.1.1 x.1.2 x.2) _).
  by intros [].
Defined.
#[export] Instance Aggregator_eq_dec : EqDecision Aggregator.
Proof. solve_decision. Defined.
#[export] Instance Aggregator_countable : Countable Aggregator.
Proof.
  refine (inj_countable' (fun a => (ag_asn a, speaker a)) (fun x => mkAggregator x.1 x.2) _). by intros [].
Defined.
#[export] Instance Attributes_eq_dec : EqDecision Attributes.
Proof. solve_decision. Defined.
#[export] Instance Attributes_countable : Countable Attributes.
Proof.
  refine (inj_countable'
    (fun a => ((origin a, asPath a, as4Path a, localPref a, atomicAggregate a),
               (med a, asAggregator a, as4Aggregator a, communities a, extendedCommunities a),
               (largeCommunities a, originatorId a, clusterList a, aigp a, unknownTransitive a)))
    (fun x => let '((a, b, c, d, e), (f, g, h, i, j), (k, l, m, n, o)) := x in
              mkAttributes a b c d e f g h i j k l m n o) _).
  by intros [].
Defined.
#[export] Instance AfiSafi_eq_dec : EqDecision AfiSafi.
Proof. solve_decision. Defined.
#[export] Instance AfiSafi_countable : Countable AfiSafi.
Proof. refine (inj_countable' (fun f => (afi f, safi f)) (fun x => mkAfiSafi x.1 x.2) _). by intros []. Defined.
#[export] Instance Path_eq_dec : EqDecision Path.
Proof. solve_decision. Defined.
#[export] Instance Path_countable : Countable Path.
Proof.
  refine (inj_countable' (fun p => (family p, nextHop p, linkLocal p, rd p))
            (fun x => mkPath x.1.1.1 x.1.1.2 x.1.2 x.2) _).
  by intros [].
Defined.

Definition ex_path : Path := mkPath (mkAfiSafi 1 1) (IPAddress_u32 167772161) None None.

Lemma room_clear : room (Manager_clear : AttributeManager Attributes Path).
Proof. split; [done|]. split; [done|]. intros i e He. done. Qed.

Lemma acquire_interns_witness :
  let x := acquire (Manager_clear : AttributeManager Attributes Path) Attributes_new ex_path in
  mgr_inv x.1 /\ get x.1 x.2 = Ret (Attributes_new, ex_path).
Proof.
  intros x. destruct (acquire_interns Manager_clear x.1 Attributes_new ex_path x.2
    mgr_inv_clear room_clear (surjective_pairing _)) as (H1 & H2 & _). split; [exact H1 | exact H2].
Defined.

(** Two routes of the same contents (numbers stand for the attributes and the
    path), one copied, one moved, one assigned over, then destroyed. *)
Definition ex_ops : list (route_op Z Z) :=
  [OpAcquire 7 8; OpAcquire 7 8; OpCopy 0; OpMove 1; OpAssign 0 2;
   OpDestroy 0; OpDestroy 1; OpDestroy 2].

Definition ex_state : Routes Z Z := ret_or Routes_new (route_run Routes_new ex_ops).

Lemma references_conserved_witness :
  route_run Routes_new ex_ops = Ret ex_state /\ refs (mgr ex_state) 0 = held ex_state 0 /\ held ex_state 0 = 1.
Proof.
  assert (H : route_run Routes_new ex_ops = Ret ex_state) by (vm_compute; reflexivity).
  split; [exact H|]. destruct (references_conserved ex_ops ex_state ltac:(vm_compute; reflexivity) H) as (H1 & _).
  split; [apply H1 | vm_compute; reflexivity].
Defined.

Definition ex_state1 : Routes Z Z := ret_or Routes_new (route_run Routes_new (take 3 ex_ops)).

Lemma ex_state1_inv : routes_inv ex_state1.
Proof. apply (route_run_inv Routes_new (take 3 ex_ops)); [apply routes_inv_new | done | vm_compute; reflexivity]. Qed.

Lemma route_attributes_stable_witness :
  let r := mkRouteBase (Some 0%nat) true in
  getPathAttributes (mgr ex_state1) r = Ret (7, 8) /\
  getPathAttributes (mgr (ret_or Routes_new (route_step ex_state1 (OpDestroy 1)))) r = Ret (7, 8).
Proof.
  intros r. assert (H : getPathAttributes (mgr ex_state1) r = Ret (7, 8)) by (vm_compute; reflexivity).
  split; [exact H|].
  assert (Hs : route_step ex_state1 (OpDestroy 1) = Ret (ret_or Routes_new (route_step ex_state1 (OpDestroy 1))))
    by (vm_compute; reflexivity).
  rewrite (route_attributes_stable ex_state1 (ret_or Routes_new (route_step ex_state1 (OpDestroy 1))) (OpDestroy 1) 0 r 0
    ex_state1_inv ltac:(vm_compute; reflexivity) Hs ltac:(vm_compute; reflexivity) ltac:(vm_compute; reflexivity)
    ltac:(vm_compute; reflexivity)). exact H.
Defined.
