(* ===== verification/BgpFsm.v ===== *)
(** * BgpFsm: the BGP session state machine

    The finite state machine of routing/bgp/session/Fsm.cpp with what it drives
    in its session: the timers of SessionTimers.cpp, the two connections and
    the event queue of Session.cpp, and the collision rule of Collision.cpp.
    The session is a record; what it does to the outside (messages, closed
    connections, calls to the process) is the trace [out], oldest first. The
    outcome of each outgoing connection attempt is the oracle [tcp_connect]. *)

From S2P Require Import Prelude.

(** [routing/bgp/BgpTypes.hpp:29-37] FsmState *)
Inductive FsmState := IDLE | CONNECT | ACTIVE | OPEN_SENT | OPEN_CONFIRMED | ESTABLISHED.

(** [routing/bgp/BgpTypes.hpp:47-90] FsmEvent *)
Inductive FsmEvent :=
  | MANUAL_START | MANUAL_STOP | AUTOMATIC_START | MANUAL_START_PASSIVE_TCP
  | AUTOMATIC_START_PASSIVE_TCP | AUTOMATIC_START_DAMP | AUTOMATIC_START_DAMP_PASSIVE_TCP
  | AUTOMATIC_STOP | CONNECTION_RETRY_TIMER_EXPIRES | HOLD_TIMER_EXPIRES | KEEPALIVE_TIMER_EXPIRES
  | DELAY_OPEN_TIMER_EXPIRES | IDLE_HOLD_TIMER_EXPIRES | TCP_CONNECTION_VALID | TCP_CR_INVALID
  | TCP_CR_ACKED | TCP_CONNECTION_CONFIRMED | TCP_CONNECTION_FAILS | BGP_OPEN
  | BGP_OPEN_DELAY_OPEN_TIMER | BGP_HEADER_ERR | BGP_OPEN_MSG_ERR | OPEN_COLLISION_DUMP
  | NOTIF_MSG_VER_ERR | NOTIF_MSG | KEEPALIVE_MSG | UPDATE_MSG | UPDATE_MSG_ERR | ROUTE_REFRESH
  | BFD_DOWN | BFD_UP | MAX_PREFIX_REACHED.

#[export] Instance FsmState_eq_dec : EqDecision FsmState.
Proof. solve_decision. Defined.
#[export] Instance FsmEvent_eq_dec : EqDecision FsmEvent.
Proof. solve_decision. Defined.

(** The notification codes the machine sends. *)

(** [packet/headers/BgpHeader.hpp:151-151] BGP_NOTIFICATION_*: BAD_MESSAGE_TYPE *)
Definition NOTIF_BAD_MESSAGE_TYPE : Z := 0x0103.
(** [packet/headers/BgpHeader.hpp:158-158] BGP_NOTIFICATION_*: UNSUPPORTED_PARAMETER *)
Definition NOTIF_UNSUPPORTED_PARAMETER : Z := 0x0204.
(** [packet/headers/BgpHeader.hpp:160-160] BGP_NOTIFICATION_*: UNACCEPTABLE_HOLD *)
Definition NOTIF_UNACCEPTABLE_HOLD : Z := 0x0206.
(** [packet/headers/BgpHeader.hpp:165-165] BGP_NOTIFICATION_*: MALFORMED_ATTR_LIST *)
Definition NOTIF_MALFORMED_ATTR_LIST : Z := 0x0301.
(** [packet/headers/BgpHeader.hpp:178-178] BGP_NOTIFICATION_*: HOLD_TIMER_EXPIRED *)
Definition NOTIF_HOLD_TIMER_EXPIRED : Z := 0x0400.
(** [packet/headers/BgpHeader.hpp:182-182] BGP_NOTIFICATION_*: FSM_OPEN_SENT *)
Definition NOTIF_FSM_OPEN_SENT : Z := 0x0501.
(** [packet/headers/BgpHeader.hpp:183-183] BGP_NOTIFICATION_*: FSM_OPEN_CONFIRM *)
Definition NOTIF_FSM_OPEN_CONFIRM : Z := 0x0502.
(** [packet/headers/BgpHeader.hpp:184-184] BGP_NOTIFICATION_*: FSM_ESTABLISH *)
Definition NOTIF_FSM_ESTABLISH : Z := 0x0503.
(** [packet/headers/BgpHeader.hpp:187-187] BGP_NOTIFICATION_*: CEASE_UNSPECIFIC *)
Definition NOTIF_CEASE_UNSPECIFIC : Z := 0x0600.
(** [packet/headers/BgpHeader.hpp:188-188] BGP_NOTIFICATION_*: MAX_PREFIXES *)
Definition NOTIF_MAX_PREFIXES : Z := 0x0601.
(** [packet/headers/BgpHeader.hpp:189-189] BGP_NOTIFICATION_*: ADMIN_SHUT *)
Definition NOTIF_ADMIN_SHUT : Z := 0x0602.
(** [packet/headers/BgpHeader.hpp:191-191] BGP_NOTIFICATION_*: ADMIN_RESET *)
Definition NOTIF_ADMIN_RESET : Z := 0x0604.
(** [packet/headers/BgpHeader.hpp:194-194] BGP_NOTIFICATION_*: COLLISION_RESOLUTION *)
Definition NOTIF_COLLISION_RESOLUTION : Z := 0x0607.
(** [packet/headers/BgpHeader.hpp:197-197] BGP_NOTIFICATION_*: BFD_DOWN *)
Definition NOTIF_BFD_DOWN : Z := 0x060A.

(** [routing/bgp/session/Fsm.cpp:13-13] kConnectRetryInterval *)
Definition kConnectRetryInterval : Z := 30.
(** [routing/bgp/session/Fsm.cpp:14-14] kInitialHoldTime *)
Definition kInitialHoldTime : Z := 240.

(** ** The session *)

(** The connection a pointer refers to. *)
Inductive Conn := ActiveConn | PassiveConn.

#[export] Instance Conn_eq_dec : EqDecision Conn.
Proof. solve_decision. Defined.

Inductive Action :=
  | SendOpen (c : Conn)
  | SendKeepalive (c : Conn)
  | SendNotification (c : Conn) (code : Z)
  | TcpConnect
  | TcpClose (c : Conn)
  | ProcSessionEstablished
  | ProcSessionDown
  | StartMultiSessions (passive : bool).

#[export] Instance Action_eq_dec : EqDecision Action.
Proof. solve_decision. Defined.

(** The configuration the session reads. *)
Record Config := mkConfig {
  cfgHoldTime : Z;
  cfgKeepalive : Z;
  cfgMinHoldTime : option Z;
  isChild : bool;
  negotiatedMultiSess : bool;
  connectionModePassive : bool;
  localRouterId : Z
}.

(** [routing/bgp/session/SessionTimers.cpp:9-11] SessionTimers: an armed timer carries its interval. *)
Record Timers := mkTimers {
  connectRetry : option Z;
  holdTimer : option Z;
  keepaliveTimer : option Z;
  idleHold : option Z;
  lastHoldTime : Z;
  lastKeepaliveInterval : Z;
  connectionRetryCount : Z
}.

Definition Timers_new : Timers := mkTimers None None None None 0 0 0.

(** [routing/bgp/session/Session.h:422-428] Session: Session and Fsm: the fields the state machine works on. [attempts] counts
    the outgoing connection attempts, [queue] holds the posted events. *)
Record Session := mkSession {
  state : FsmState;
  passiveMode : bool;
  timers : Timers;
  holdTime : Z;
  keepaliveInterval : Z;
  peerRouterId : Z;
  activeConn : bool;
  passiveConn : bool;
  primaryConn : option Conn;
  attempts : nat;
  queue : list FsmEvent;
  out : list Action
}.

Definition set_state (x : FsmState) (s : Session) : Session :=
  mkSession x (passiveMode s) (timers s) (holdTime s) (keepaliveInterval s) (peerRouterId s)
    (activeConn s) (passiveConn s) (primaryConn s) (attempts s) (queue s) (out s).
Definition set_passiveMode (x : bool) (s : Session) : Session :=
  mkSession (state s) x (timers s) (holdTime s) (keepaliveInterval s) (peerRouterId s)
    (activeConn s) (passiveConn s) (primaryConn s) (attempts s) (queue s) (out s).
Definition set_timers (x : Timers) (s : Session) : Session :=
  mkSession (state s) (passiveMode s) x (holdTime s) (keepaliveInterval s) (peerRouterId s)
    (activeConn s) (passiveConn s) (primaryConn s) (attempts s) (queue s) (out s).
Definition set_hold (h k : Z) (s : Session) : Session :=
  mkSession (state s) (passiveMode s) (timers s) h k (peerRouterId s)
    (activeConn s) (passiveConn s) (primaryConn s) (attempts s) (queue s) (out s).
Definition set_conns (a p : bool) (q : option Conn) (s : Session) : Session :=
  mkSession (state s) (passiveMode s) (timers s) (holdTime s) (keepaliveInterval s) (peerRouterId s)
    a p q (attempts s) (queue s) (out s).
Definition emit (l : list Action) (s : Session) : Session :=
  mkSession (state s) (passiveMode s) (timers s) (holdTime s) (keepaliveInterval s) (peerRouterId s)
    (activeConn s) (passiveConn s) (primaryConn s) (attempts s) (queue s) (out s ++ l).

(** [routing/bgp/session/Session.cpp:231-236] Session::postEvent *)
Definition postEvent (ev : FsmEvent) (s : Session) : Session :=
  mkSession (state s) (passiveMode s) (timers s) (holdTime s) (keepaliveInterval s) (peerRouterId s)
    (activeConn s) (passiveConn s) (primaryConn s) (attempts s) (queue s ++ [ev]) (out s).

(** ** Timers *)

(** [routing/bgp/session/SessionTimers.cpp:20-29] SessionTimers::startConnectRetry *)
Definition startConnectRetry (i : Z) (s : Session) : Session :=
  let t := timers s in
  set_timers (mkTimers (Some i) (holdTimer t) (keepaliveTimer t) (idleHold t) (lastHoldTime t)
                (lastKeepaliveInterval t) (connectionRetryCount t)) s.
(** [routing/bgp/session/SessionTimers.cpp:36-39] SessionTimers::stopConnectRetry *)
Definition stopConnectRetry (s : Session) : Session :=
  let t := timers s in
  set_timers (mkTimers None (holdTimer t) (keepaliveTimer t) (idleHold t) (lastHoldTime t)
                (lastKeepaliveInterval t) (connectionRetryCount t)) s.
(** [routing/bgp/session/SessionTimers.cpp:41-52] SessionTimers::startHoldTimer *)
Definition startHoldTimer (h : Z) (s : Session) : Session :=
  let t := timers s in
  set_timers (mkTimers (connectRetry t) (if h =? 0 then None else Some h) (keepaliveTimer t) (idleHold t) h
                (lastKeepaliveInterval t) (connectionRetryCount t)) s.
(** [routing/bgp/session/SessionTimers.cpp:54-64] SessionTimers::restartHoldTimer *)
Definition restartHoldTimer (s : Session) : Session :=
  let t := timers s in
  if lastHoldTime t =? 0 then s
  else set_timers (mkTimers (connectRetry t) (Some (lastHoldTime t)) (keepaliveTimer t) (idleHold t)
                     (lastHoldTime t) (lastKeepaliveInterval t) (connectionRetryCount t)) s.
(** [routing/bgp/session/SessionTimers.cpp:66-69] SessionTimers::stopHoldTimer *)
Definition stopHoldTimer (s : Session) : Session :=
  let t := timers s in
  set_timers (mkTimers (connectRetry t) None (keepaliveTimer t) (idleHold t) (lastHoldTime t)
                (lastKeepaliveInterval t) (connectionRetryCount t)) s.
(** [routing/bgp/session/SessionTimers.cpp:71-82] SessionTimers::startKeepaliveTimer *)
Definition startKeepaliveTimer (i : Z) (s : Session) : Session :=
  let t := timers s in
  set_timers (mkTimers (connectRetry t) (holdTimer t) (if i =? 0 then None else Some i) (idleHold t)
                (lastHoldTime t) i (connectionRetryCount t)) s.
(** [routing/bgp/session/SessionTimers.cpp:84-93] SessionTimers::restartKeepaliveTimer *)
Definition restartKeepaliveTimer (s : Session) : Session :=
  let t := timers s in
  if lastKeepaliveInterval t =? 0 then s
  else set_timers (mkTimers (connectRetry t) (holdTimer t) (Some (lastKeepaliveInterval t)) (idleHold t)
                     (lastHoldTime t) (lastKeepaliveInterval t) (connectionRetryCount t)) s.
(** [routing/bgp/session/SessionTimers.cpp:95-98] SessionTimers::stopKeepaliveTimer *)
Definition stopKeepaliveTimer (s : Session) : Session :=
  let t := timers s in
  set_timers (mkTimers (connectRetry t) (holdTimer t) None (idleHold t) (lastHoldTime t)
                (lastKeepaliveInterval t) (connectionRetryCount t)) s.
(** [routing/bgp/session/SessionTimers.cpp:100-114] SessionTimers::startIdleHoldTimer *)
Definition startIdleHoldTimer (i : Z) (s : Session) : Session :=
  let t := timers s in
  let s := set_timers (mkTimers (connectRetry t) (holdTimer t) (keepaliveTimer t)
                         (if i =? 0 then None else Some i) (lastHoldTime t)
                         (lastKeepaliveInterval t) (connectionRetryCount t)) s in
  if i =? 0 then postEvent IDLE_HOLD_TIMER_EXPIRES s else s.
(** [routing/bgp/session/SessionTimers.cpp:121-127] SessionTimers::cancelAll *)
Definition cancelAll (s : Session) : Session :=
  let t := timers s in
  set_timers (mkTimers None None None None (lastHoldTime t) (lastKeepaliveInterval t)
                (connectionRetryCount t)) s.
Definition set_retryCount (n : Z) (s : Session) : Session :=
  let t := timers s in
  set_timers (mkTimers (connectRetry t) (holdTimer t) (keepaliveTimer t) (idleHold t) (lastHoldTime t)
                (lastKeepaliveInterval t) n) s.

(** ** Connections and messages *)

(** [routing/bgp/session/Session.cpp:275-282] Session::sendOpen *)
Definition sendOpen (s : Session) : Session :=
  match primaryConn s with Some c => emit [SendOpen c] s | None => s end.
(** [routing/bgp/session/Session.cpp:284-291] Session::sendKeepalive *)
Definition sendKeepalive (s : Session) : Session :=
  match primaryConn s with Some c => emit [SendKeepalive c] s | None => s end.
(** [routing/bgp/session/Session.cpp:293-309] Session::sendNotification *)
Definition sendNotification (code : Z) (s : Session) : Session :=
  if code =? 0 then s
  else match primaryConn s with Some c => emit [SendNotification c code] s | None => s end.

(** [routing/bgp/session/Session.cpp:189-199] Session::closeActiveConnection *)
Definition closeActiveConnection (s : Session) : Session :=
  set_conns false (passiveConn s) (if passiveConn s then Some PassiveConn else None)
    (emit (if activeConn s then [TcpClose ActiveConn] else []) s).
(** [routing/bgp/session/Session.cpp:201-211] Session::closePassiveConnection *)
Definition closePassiveConnection (s : Session) : Session :=
  set_conns (activeConn s) false (if activeConn s then Some ActiveConn else None)
    (emit (if passiveConn s then [TcpClose PassiveConn] else []) s).
(** [routing/bgp/session/Session.cpp:213-229] Session::closeAllConnections *)
Definition closeAllConnections (s : Session) : Session :=
  set_conns false false None
    (emit ((if activeConn s then [TcpClose ActiveConn] else []) ++
           (if passiveConn s then [TcpClose PassiveConn] else [])) s).

(** [routing/bgp/session/Session.cpp:139-144] Session::acceptConnection *)
Definition acceptConnection (s : Session) : Session :=
  postEvent TCP_CONNECTION_CONFIRMED (set_conns (activeConn s) true (Some PassiveConn) s).

(** ** Collisions *)

(** [routing/bgp/session/Collision.cpp:8-17] CollisionDetector::shouldKeep *)
Definition shouldKeep (isOutgoing : bool) (localRid peerRid : Z) : bool :=
  if localRid =? peerRid then false
  else if peerRid <? localRid then isOutgoing else negb isOutgoing.

(** [routing/bgp/session/Collision.cpp:19-22] CollisionDetector::collisionNotificationCode *)
Definition collisionNotificationCode : Z := NOTIF_COLLISION_RESOLUTION.

Section Machine.
  Context (cfg : Config) (tcp_connect : nat -> bool).

(** [routing/bgp/session/Session.cpp:376-398] Session::resolveCollision *)
Definition resolveCollision (incomingPeerRid : Z) (s : Session) : Session * bool :=
  let outgoing := activeConn s in
  let keep := shouldKeep outgoing (localRouterId cfg) incomingPeerRid in
  (if negb keep then
     if outgoing then closeActiveConnection s else closePassiveConnection s
   else if outgoing && passiveConn s then closePassiveConnection s
   else if negb outgoing && activeConn s then closeActiveConnection s
   else s, keep).

(** [routing/bgp/session/Session.cpp:146-187] Session::initiateConnection *)
Definition initiateConnection (s : Session) : Session :=
  let ok := tcp_connect (attempts s) in
  let s := mkSession (state s) (passiveMode s) (timers s) (holdTime s) (keepaliveInterval s) (peerRouterId s)
             ok (passiveConn s) (if ok then Some ActiveConn else primaryConn s) (S (attempts s))
             (queue s) (out s ++ [TcpConnect]) in
  if ok then s else postEvent TCP_CONNECTION_FAILS s.

Definition is_established (st : FsmState) : bool := match st with ESTABLISHED => true | _ => false end.

(** [routing/bgp/session/Session.cpp:243-273] Session::onFsmTransition *)
Definition onFsmTransition (from to : FsmState) (s : Session) : Session :=
  if is_established to then
    if negb (isChild cfg) then
      emit (ProcSessionEstablished ::
            if negotiatedMultiSess cfg then [StartMultiSessions (connectionModePassive cfg)] else []) s
    else s
  else if is_established from then
    if negb (isChild cfg) then emit [ProcSessionDown] s else s
  else s.

(** [routing/bgp/session/Fsm.cpp:45-54] Fsm::transitionTo: the transition callback is the one the
    session's constructor installs, [onFsmTransition] again
    (Session.cpp, lines 27-30). *)
Definition transitionTo (newState : FsmState) (s : Session) : Session :=
  let from := state s in
  onFsmTransition from newState (onFsmTransition from newState (set_state newState s)).

(** [routing/bgp/session/Fsm.cpp:56-66] Fsm::resetToIdle *)
Definition resetToIdle (notifCode : option Z) (s : Session) : Session :=
  let s := set_retryCount 0 (cancelAll s) in
  let s := match notifCode with Some code => sendNotification code s | None => s end in
  transitionTo IDLE (closeAllConnections s).

(** [routing/bgp/session/Fsm.cpp:68-87] Fsm::resetAndReconnect *)
Definition resetAndReconnect (s : Session) : Session :=
  let s := stopKeepaliveTimer (stopHoldTimer s) in
  let s := set_retryCount (u32 (connectionRetryCount (timers s) + 1)) s in
  let s := closeAllConnections s in
  let count := connectionRetryCount (timers s) in
  let interval := Z.shiftl kConnectRetryInterval (Z.min count 3) in
  let s := startConnectRetry (if 300 <? interval then 300 else interval) s in
  if passiveMode s then s else initiateConnection s.

(** [routing/bgp/session/Fsm.cpp:101-105] Fsm::handleIdle, a start that is not passive *)
Definition start (s : Session) : Session :=
  transitionTo CONNECT
    (initiateConnection (startConnectRetry kConnectRetryInterval (set_retryCount 0 (set_passiveMode false s)))).

(** [routing/bgp/session/Fsm.cpp:94-136] Fsm::handleIdle *)
Definition handleIdle (event : FsmEvent) (s : Session) : Session :=
  match event with
  | MANUAL_START | AUTOMATIC_START => start s
  | MANUAL_START_PASSIVE_TCP | AUTOMATIC_START_PASSIVE_TCP =>
      transitionTo ACTIVE (startConnectRetry kConnectRetryInterval (set_retryCount 0 (set_passiveMode true s)))
  | AUTOMATIC_START_DAMP | AUTOMATIC_START_DAMP_PASSIVE_TCP =>
      let secs := Z.shiftl 5 (Z.min (connectionRetryCount (timers s)) 4) in
      startIdleHoldTimer (if 120 <? secs then 120 else secs) s
  | IDLE_HOLD_TIMER_EXPIRES => start s
  | _ => s
  end.

(** [routing/bgp/session/Fsm.cpp:138-220] Fsm::handleConnect *)
Definition handleConnect (event : FsmEvent) (s : Session) : Session :=
  match event with
  | MANUAL_STOP => transitionTo IDLE (set_retryCount 0 (closeAllConnections (cancelAll s)))
  | CONNECTION_RETRY_TIMER_EXPIRES =>
      initiateConnection (startConnectRetry kConnectRetryInterval (closeAllConnections s))
  | TCP_CONNECTION_CONFIRMED | TCP_CR_ACKED => transitionTo OPEN_SENT (sendOpen (stopConnectRetry s))
  | TCP_CONNECTION_FAILS =>
      transitionTo ACTIVE (startConnectRetry kConnectRetryInterval (closeAllConnections s))
  | TCP_CONNECTION_VALID | TCP_CR_INVALID => s
  | BGP_OPEN_DELAY_OPEN_TIMER | BGP_OPEN =>
      let s := sendKeepalive (sendOpen (stopConnectRetry s)) in
      let s := if negb (holdTime s =? 0) then startKeepaliveTimer (holdTime s / 3) s else s in
      transitionTo OPEN_CONFIRMED s
  | BGP_HEADER_ERR | BGP_OPEN_MSG_ERR => resetToIdle (Some NOTIF_FSM_OPEN_SENT) s
  | AUTOMATIC_STOP => resetToIdle None s
  | _ => resetToIdle (Some NOTIF_FSM_OPEN_SENT) s
  end.

(** [routing/bgp/session/Fsm.cpp:222-272] Fsm::handleActive *)
Definition handleActive (event : FsmEvent) (s : Session) : Session :=
  match event with
  | MANUAL_STOP => transitionTo IDLE (set_retryCount 0 (closeAllConnections (cancelAll s)))
  | CONNECTION_RETRY_TIMER_EXPIRES =>
      transitionTo CONNECT (initiateConnection (startConnectRetry kConnectRetryInterval s))
  | TCP_CONNECTION_CONFIRMED | TCP_CR_ACKED => transitionTo OPEN_SENT (sendOpen (stopConnectRetry s))
  | TCP_CONNECTION_FAILS => startConnectRetry kConnectRetryInterval (closeAllConnections s)
  | BGP_HEADER_ERR | BGP_OPEN_MSG_ERR => resetToIdle (Some NOTIF_FSM_OPEN_SENT) s
  | AUTOMATIC_STOP => resetToIdle None s
  | _ => resetToIdle (Some NOTIF_FSM_OPEN_SENT) s
  end.

(** The keepalive interval chosen with the negotiated hold time [minHt]. *)
Definition chooseKeepalive (minHt : Z) : Z :=
  if minHt =? 0 then 0
  else if (0 <? cfgKeepalive cfg) && (cfgKeepalive cfg <? minHt) then cfgKeepalive cfg
  else minHt / 3.

(** [routing/bgp/session/Fsm.cpp:312-341] Fsm::handleOpenSent: an accepted OPEN *)
Definition openSentAccept (s : Session) : Session :=
  let minHt := Z.min (holdTime s) (cfgHoldTime cfg) in
  let kaInterval := chooseKeepalive minHt in
  let s := set_hold minHt kaInterval s in
  let s := sendKeepalive (stopConnectRetry s) in
  let s := if negb (minHt =? 0) then startKeepaliveTimer kaInterval (startHoldTimer minHt s)
           else stopKeepaliveTimer (stopHoldTimer s) in
  transitionTo OPEN_CONFIRMED s.

(** [routing/bgp/session/Fsm.cpp:301-342] Fsm::handleOpenSent: the BGP_OPEN case *)
Definition openSentOpen (s : Session) : Session :=
  match cfgMinHoldTime cfg with
  | Some minHold =>
      if negb (holdTime s =? 0) && (holdTime s <? minHold)
      then resetToIdle (Some NOTIF_UNACCEPTABLE_HOLD) s
      else openSentAccept s
  | None => openSentAccept s
  end.

(** [routing/bgp/session/Fsm.cpp:274-377] Fsm::handleOpenSent *)
Definition handleOpenSent (event : FsmEvent) (s : Session) : Session :=
  match event with
  | MANUAL_STOP => resetToIdle (Some NOTIF_ADMIN_SHUT) s
  | AUTOMATIC_STOP => resetToIdle (Some NOTIF_ADMIN_RESET) s
  | HOLD_TIMER_EXPIRES => resetToIdle (Some NOTIF_HOLD_TIMER_EXPIRED) s
  | TCP_CONNECTION_FAILS =>
      transitionTo ACTIVE (startConnectRetry kConnectRetryInterval (closeAllConnections (stopHoldTimer s)))
  | BGP_OPEN => openSentOpen s
  | OPEN_COLLISION_DUMP => resetToIdle (Some NOTIF_COLLISION_RESOLUTION) s
  | BGP_HEADER_ERR => resetToIdle (Some NOTIF_BAD_MESSAGE_TYPE) s
  | BGP_OPEN_MSG_ERR => resetToIdle None s
  | NOTIF_MSG_VER_ERR | NOTIF_MSG => resetToIdle None s
  | KEEPALIVE_MSG | UPDATE_MSG_ERR | UPDATE_MSG => resetToIdle (Some NOTIF_FSM_OPEN_SENT) s
  | _ => resetToIdle (Some NOTIF_FSM_OPEN_SENT) s
  end.

(** A further OPEN on an open session: the collision is resolved. *)
Definition laterOpen (s : Session) : Session :=
  let '(s, keep) := resolveCollision (peerRouterId s) s in
  if negb keep then resetToIdle (Some NOTIF_COLLISION_RESOLUTION) s else s.

Definition restartHold (s : Session) : Session :=
  if negb (holdTime s =? 0) then restartHoldTimer s else s.

(** [routing/bgp/session/Fsm.cpp:379-463] Fsm::handleOpenConfirm *)
Definition handleOpenConfirm (event : FsmEvent) (s : Session) : Session :=
  match event with
  | MANUAL_STOP => resetToIdle (Some NOTIF_ADMIN_SHUT) s
  | AUTOMATIC_STOP => resetToIdle (Some NOTIF_ADMIN_RESET) s
  | HOLD_TIMER_EXPIRES => resetToIdle (Some NOTIF_HOLD_TIMER_EXPIRED) s
  | KEEPALIVE_TIMER_EXPIRES => restartKeepaliveTimer (sendKeepalive s)
  | TCP_CONNECTION_FAILS => resetToIdle None s
  | BGP_OPEN => laterOpen s
  | OPEN_COLLISION_DUMP => resetToIdle (Some NOTIF_COLLISION_RESOLUTION) s
  | BGP_HEADER_ERR => resetToIdle (Some NOTIF_BAD_MESSAGE_TYPE) s
  | BGP_OPEN_MSG_ERR => resetToIdle (Some NOTIF_UNSUPPORTED_PARAMETER) s
  | NOTIF_MSG_VER_ERR | NOTIF_MSG => resetToIdle None s
  | KEEPALIVE_MSG => transitionTo ESTABLISHED (stopConnectRetry (restartHold s))
  | UPDATE_MSG => resetToIdle (Some NOTIF_FSM_OPEN_CONFIRM) s
  | UPDATE_MSG_ERR => resetToIdle (Some NOTIF_MALFORMED_ATTR_LIST) s
  | _ => resetToIdle (Some NOTIF_FSM_OPEN_CONFIRM) s
  end.

(** [routing/bgp/session/Fsm.cpp:465-559] Fsm::handleEstablished *)
Definition handleEstablished (event : FsmEvent) (s : Session) : Session :=
  match event with
  | MANUAL_STOP => resetToIdle (Some NOTIF_ADMIN_SHUT) s
  | AUTOMATIC_STOP => resetToIdle (Some NOTIF_ADMIN_RESET) s
  | HOLD_TIMER_EXPIRES => resetToIdle (Some NOTIF_HOLD_TIMER_EXPIRED) s
  | KEEPALIVE_TIMER_EXPIRES => restartKeepaliveTimer (sendKeepalive s)
  | TCP_CONNECTION_FAILS => resetToIdle None s
  | BGP_OPEN => laterOpen s
  | BGP_HEADER_ERR => resetToIdle (Some NOTIF_BAD_MESSAGE_TYPE) s
  | BGP_OPEN_MSG_ERR => resetToIdle (Some NOTIF_FSM_ESTABLISH) s
  | NOTIF_MSG_VER_ERR | NOTIF_MSG => resetToIdle None s
  | KEEPALIVE_MSG => restartHold s
  | UPDATE_MSG => restartHold s
  | UPDATE_MSG_ERR => resetToIdle (Some NOTIF_MALFORMED_ATTR_LIST) s
  | ROUTE_REFRESH => s
  | BFD_DOWN => resetToIdle (Some NOTIF_BFD_DOWN) s
  | BFD_UP => s
  | MAX_PREFIX_REACHED => resetToIdle (Some NOTIF_MAX_PREFIXES) s
  | _ => s
  end.

(** [routing/bgp/session/Fsm.cpp:20-43] Fsm::processEvent *)
Definition processEvent (event : FsmEvent) (s : Session) : Session :=
  match state s with
  | IDLE => handleIdle event s
  | CONNECT => handleConnect event s
  | ACTIVE => handleActive event s
  | OPEN_SENT => handleOpenSent event s
  | OPEN_CONFIRMED => handleOpenConfirm event s
  | ESTABLISHED => handleEstablished event s
  end.

(** [routing/bgp/session/Session.cpp:14-31] Session::Session *)
Definition Session_new : Session :=
  let hold := cfgHoldTime cfg in
  let ka := if (0 <? cfgKeepalive cfg) && (cfgKeepalive cfg <? hold) then cfgKeepalive cfg else hold / 3 in
  mkSession IDLE false Timers_new hold ka 0 false false None 0 [] [].

(** ** The session and its environment as a transition system *)

(** Firing a timer posts its event and leaves it unarmed. *)
Definition fire_retry (s : Session) : Session := postEvent CONNECTION_RETRY_TIMER_EXPIRES (stopConnectRetry s).
Definition fire_hold (s : Session) : Session := postEvent HOLD_TIMER_EXPIRES (stopHoldTimer s).
Definition fire_keepalive (s : Session) : Session := postEvent KEEPALIVE_TIMER_EXPIRES (stopKeepaliveTimer s).
Definition fire_idle (s : Session) : Session :=
  let t := timers s in
  postEvent IDLE_HOLD_TIMER_EXPIRES
    (set_timers (mkTimers (connectRetry t) (holdTimer t) (keepaliveTimer t) None (lastHoldTime t)
                   (lastKeepaliveInterval t) (connectionRetryCount t)) s).

(** [routing/bgp/transport/BgpRx.cpp:278-281] BgpRx::processOpen: The receive path's part of an accepted OPEN (BgpRx.cpp, lines 278-281). *)
Definition receiveOpen (peerHold peerRid : Z) (s : Session) : Session :=
  postEvent BGP_OPEN
    (mkSession (state s) (passiveMode s) (timers s) peerHold (keepaliveInterval s) peerRid
       (activeConn s) (passiveConn s) (primaryConn s) (attempts s) (queue s) (out s)).

Definition pop (s : Session) : Session :=
  mkSession (state s) (passiveMode s) (timers s) (holdTime s) (keepaliveInterval s) (peerRouterId s)
    (activeConn s) (passiveConn s) (primaryConn s) (attempts s) (tail (queue s)) (out s).

Inductive session_step : Session -> Session -> Prop :=
  | step_process s ev rest : queue s = ev :: rest -> session_step s (processEvent ev (pop s))
  | step_post s ev : session_step s (postEvent ev s)
  | step_open s peerHold peerRid : in_width 16 peerHold -> session_step s (receiveOpen peerHold peerRid s)
  | step_accept s : session_step s (acceptConnection s)
  | step_fire_retry s : connectRetry (timers s) <> None -> session_step s (fire_retry s)
  | step_fire_hold s : holdTimer (timers s) <> None -> session_step s (fire_hold s)
  | step_fire_keepalive s : keepaliveTimer (timers s) <> None -> session_step s (fire_keepalive s)
  | step_fire_idle s : idleHold (timers s) <> None -> session_step s (fire_idle s).

Inductive session_reachable : Session -> Prop :=
  | reach_init : session_reachable Session_new
  | reach_step s s' : session_reachable s -> session_step s s' -> session_reachable s'.

End Machine.

(** ** Transitions *)

(** The state graph: the edges the machine may take. *)
Definition fsm_edge (from to : FsmState) : bool :=
  match from, to with
  | _, IDLE => true
  | IDLE, (CONNECT | ACTIVE) => true
  | CONNECT, (CONNECT | ACTIVE | OPEN_SENT | OPEN_CONFIRMED) => true
  | ACTIVE, (ACTIVE | CONNECT | OPEN_SENT) => true
  | OPEN_SENT, (ACTIVE | OPEN_CONFIRMED) => true
  | OPEN_CONFIRMED, (OPEN_CONFIRMED | ESTABLISHED) => true
  | ESTABLISHED, ESTABLISHED => true
  | _, _ => false
  end.

Section Proofs.
  Context (cfg : Config) (tcp_connect : nat -> bool).
  #[local] Abbreviation processEvent := (processEvent cfg tcp_connect).

(** What a transition changes: the state and the trace. *)
Lemma transitionTo_eq st s :
  exists l, transitionTo cfg st s = emit l (set_state st s).
Proof.
  unfold transitionTo, onFsmTransition. destruct s; cbn.
  repeat case_match; eexists; unfold emit, set_state; cbn; rewrite <- ?app_assoc; try reflexivity;
    instantiate (1 := []); rewrite app_nil_r; reflexivity.
Qed.

Definition no_session_timers (t : Timers) : Prop := holdTimer t = None /\ keepaliveTimer t = None.

(** The invariant of the session: which timers and connections each state can
    have, and the validity of the primary connection pointer. *)
Definition session_inv (s : Session) : Prop :=
  (primaryConn s = Some ActiveConn -> activeConn s = true) /\
  (primaryConn s = Some PassiveConn -> passiveConn s = true) /\
  match state s with
  | IDLE => no_session_timers (timers s) /\ connectRetry (timers s) = None /\ activeConn s = false
  | ACTIVE => no_session_timers (timers s) /\ activeConn s = false
  | CONNECT => no_session_timers (timers s)
  | OPEN_SENT => no_session_timers (timers s) /\ connectRetry (timers s) = None
  | OPEN_CONFIRMED | ESTABLISHED => connectRetry (timers s) = None
  end.

Lemma inv_emit l s : session_inv (emit l s) <-> session_inv s.
Proof. destruct s. done. Qed.

Lemma inv_transitionTo st s : session_inv (transitionTo cfg st s) <-> session_inv (set_state st s).
Proof. destruct (transitionTo_eq st s) as [l ->]. apply inv_emit. Qed.

Lemma resetToIdle_eq c s :
  exists l, resetToIdle cfg c s =
    emit l (set_state IDLE (set_conns false false None (set_retryCount 0 (cancelAll s)))).
Proof.
  unfold resetToIdle.
  destruct (transitionTo_eq IDLE (closeAllConnections
    (match c with Some code => sendNotification code (set_retryCount 0 (cancelAll s))
     | None => set_retryCount 0 (cancelAll s) end))) as [l ->].
  unfold sendNotification. destruct s; cbn.
  repeat case_match; unfold emit, set_state, set_conns; cbn; rewrite <- ?app_assoc; eexists; reflexivity.
Qed.

Lemma inv_resetToIdle c s : session_inv (resetToIdle cfg c s).
Proof. destruct (resetToIdle_eq c s) as [l ->]. apply inv_emit. repeat split; done. Qed.

Lemma inv_initiate s :
  (primaryConn s = Some PassiveConn -> passiveConn s = true) ->
  primaryConn s <> Some ActiveConn -> no_session_timers (timers s) ->
  session_inv (set_state CONNECT (initiateConnection tcp_connect s)).
Proof.
  intros H1 H2 H3. unfold initiateConnection. destruct (tcp_connect (attempts s)); split_all; cbn; done.
Qed.

(** Case analysis on the fields of the session, for goals about one step. *)
Ltac session_cases s := destruct s as [? ? [] ? ? ? ? ? ? ? ? ?]; cbn in *; subst.

(** Reduces the goal on a reset or a transition. *)
Ltac fsm_simpl :=
  lazymatch goal with
  | |- session_inv (resetToIdle _ _ _) => apply inv_resetToIdle
  | |- session_inv (transitionTo _ _ _) => apply inv_transitionTo
  | _ => idtac
  end.

Lemma handleIdle_inv ev s : session_inv s -> state s = IDLE -> session_inv (handleIdle cfg tcp_connect ev s).
Proof.
  intros Hs Hst. pose proof Hs as (H1 & H2 & H3). rewrite Hst in H3. destruct H3 as ([H3 H4] & H5 & H6).
  assert (Hstart : session_inv (start cfg tcp_connect s)).
  { apply inv_transitionTo, inv_initiate; cbn; [done| |split; done]. intros H. rewrite H1 in H6; done. }
  destruct ev; cbn [handleIdle]; try exact Hs; try exact Hstart.
  1,2: apply inv_transitionTo; repeat split; cbn; done.
  all: unfold startIdleHoldTimer; case_match; unfold session_inv; cbn; rewrite Hst; repeat split; done.
Qed.

Lemma handleConnect_inv ev s : session_inv s -> state s = CONNECT -> session_inv (handleConnect cfg tcp_connect ev s).
Proof.
  intros Hs Hst. pose proof Hs as (H1 & H2 & H3). rewrite Hst in H3. destruct H3 as [H3 H4].
  destruct ev; cbn [handleConnect]; try exact Hs; fsm_simpl.
  - repeat split; done.
  - unfold initiateConnection. cbn.
    destruct (tcp_connect (attempts s)); unfold session_inv; cbn; rewrite Hst; repeat split; done.
  - session_cases s. unfold sendOpen. cbn. case_match; repeat split; cbn; done.
  - session_cases s. unfold sendOpen. cbn. case_match; repeat split; cbn; done.
  - repeat split; done.
  - session_cases s. unfold sendKeepalive, sendOpen. cbn. repeat case_match; repeat split; cbn; done.
  - session_cases s. unfold sendKeepalive, sendOpen. cbn. repeat case_match; repeat split; cbn; done.
Qed.

Lemma handleActive_inv ev s : session_inv s -> state s = ACTIVE -> session_inv (handleActive cfg tcp_connect ev s).
Proof.
  intros Hs Hst. pose proof Hs as (H1 & H2 & H3). rewrite Hst in H3. destruct H3 as [[H3 H4] H5].
  destruct ev; cbn [handleActive]; fsm_simpl.
  - repeat split; done.
  - apply inv_initiate; cbn; [done| |split; done]. intros H. rewrite H1 in H5; done.
  - session_cases s. unfold sendOpen. cbn. case_match; repeat split; cbn; done.
  - session_cases s. unfold sendOpen. cbn. case_match; repeat split; cbn; done.
  - unfold session_inv. cbn. rewrite Hst. repeat split; done.
Qed.

Lemma openSentAccept_inv s : session_inv s -> session_inv (openSentAccept cfg s).
Proof.
  intros (H1 & H2 & _). apply inv_transitionTo. session_cases s. unfold sendKeepalive. cbn.
  repeat case_match; repeat split; cbn; done.
Qed.

Lemma handleOpenSent_inv ev s : session_inv s -> state s = OPEN_SENT -> session_inv (handleOpenSent cfg ev s).
Proof.
  intros Hs Hst. pose proof Hs as (H1 & H2 & H3). rewrite Hst in H3. destruct H3 as [[H3 H4] H5].
  destruct ev; cbn [handleOpenSent]; fsm_simpl.
  - repeat split; done.
  - unfold openSentOpen. destruct (cfgMinHoldTime cfg) as [m|]; [destruct (_ && _)|];
      try apply inv_resetToIdle; apply openSentAccept_inv, Hs.
Qed.

Lemma laterOpen_inv s :
  session_inv s -> state s = OPEN_CONFIRMED \/ state s = ESTABLISHED -> session_inv (laterOpen cfg s).
Proof.
  intros (H1 & H2 & H3) Hst. unfold laterOpen, resolveCollision.
  destruct (shouldKeep _ _ _); cbn [negb]; [|apply inv_resetToIdle].
  unfold closePassiveConnection, closeActiveConnection, session_inv in *.
  destruct Hst as [Hst|Hst]; rewrite Hst in H3;
    destruct (activeConn s) eqn:Ha, (passiveConn s) eqn:Hp; cbn; rewrite ?Ha, ?Hp, ?Hst; repeat split; done.
Qed.

Lemma restartHold_inv s :
  session_inv s -> state s = OPEN_CONFIRMED \/ state s = ESTABLISHED -> session_inv (restartHold s).
Proof.
  intros (H1 & H2 & H3) Hst. unfold restartHold, restartHoldTimer, session_inv in *.
  destruct Hst as [Hst|Hst]; rewrite Hst in H3; destruct (holdTime s =? 0), (lastHoldTime (timers s) =? 0); cbn;
    rewrite ?Hst; repeat split; done.
Qed.

Lemma keepalive_inv s :
  session_inv s -> state s = OPEN_CONFIRMED \/ state s = ESTABLISHED ->
  session_inv (restartKeepaliveTimer (sendKeepalive s)).
Proof.
  intros (H1 & H2 & H3) Hst. unfold restartKeepaliveTimer, sendKeepalive, session_inv in *.
  destruct Hst as [Hst|Hst]; rewrite Hst in H3; destruct (primaryConn s) eqn:Hp; cbn;
    destruct (lastKeepaliveInterval (timers s) =? 0); cbn; rewrite ?Hst, ?Hp; repeat split; done.
Qed.

Lemma processEvent_inv ev s : session_inv s -> session_inv (processEvent ev s).
Proof.
  intros Hs. unfold BgpFsm.processEvent. destruct (state s) eqn:Hst.
  - apply handleIdle_inv; done.
  - apply handleConnect_inv; done.
  - apply handleActive_inv; done.
  - apply handleOpenSent_inv; done.
  - destruct ev; cbn [handleOpenConfirm]; try (apply inv_resetToIdle); fsm_simpl.
    + apply keepalive_inv; auto.
    + apply laterOpen_inv; auto.
    + pose proof (restartHold_inv s Hs (or_introl Hst)) as (H1 & H2 & _).
      repeat split; done.
  - destruct ev; cbn [handleEstablished]; try apply inv_resetToIdle; try exact Hs.
    + apply keepalive_inv; auto.
    + apply laterOpen_inv; auto.
    + apply restartHold_inv; auto.
    + apply restartHold_inv; auto.
Qed.

Lemma session_reachable_inv s : session_reachable cfg tcp_connect s -> session_inv s.
Proof.
  induction 1 as [|s s' _ IH Hstep]; [repeat split; done|].
  pose proof IH as (H1 & H2 & H3). destruct Hstep; try apply processEvent_inv.
  1: destruct s; exact IH.
  1,2: destruct s; exact IH.
  1: unfold session_inv in *; cbn; split; [done|]; split; [done | exact H3].
  all: unfold session_inv in *; cbn; split; [done|]; split; [done|];
    destruct (state s); unfold no_session_timers in *; cbn; tauto.
Qed.

(** ** The theorems *)

Lemma state_resetToIdle c s : state (resetToIdle cfg c s) = IDLE.
Proof. destruct (resetToIdle_eq c s) as [l ->]. done. Qed.

Lemma state_transitionTo st s : state (transitionTo cfg st s) = st.
Proof. destruct (transitionTo_eq st s) as [l ->]. done. Qed.

Lemma state_openSentOpen s :
  state (openSentOpen cfg s) = IDLE \/ state (openSentOpen cfg s) = OPEN_CONFIRMED.
Proof.
  unfold openSentOpen, openSentAccept. repeat case_match; rewrite ?state_resetToIdle, ?state_transitionTo; auto.
Qed.

Lemma state_resolveCollision rid s : state (resolveCollision cfg rid s).1 = state s.
Proof. unfold resolveCollision. cbn [fst]. repeat case_match; done. Qed.

Lemma state_laterOpen s : state (laterOpen cfg s) = IDLE \/ state (laterOpen cfg s) = state s.
Proof.
  unfold laterOpen. pose proof (state_resolveCollision (peerRouterId s) s) as H.
  destruct (resolveCollision _ _ _) as [s' keep]. cbn [fst] in H.
  destruct keep; cbn [negb]; rewrite ?state_resetToIdle; auto.
Qed.

Lemma state_restartHold s : state (restartHold s) = state s.
Proof. unfold restartHold, restartHoldTimer. repeat case_match; done. Qed.

Lemma state_keepalive s : state (restartKeepaliveTimer (sendKeepalive s)) = state s.
Proof. unfold restartKeepaliveTimer, sendKeepalive. repeat case_match; done. Qed.

Lemma state_initiate s : state (initiateConnection tcp_connect s) = state s.
Proof. unfold initiateConnection. destruct (tcp_connect _); done. Qed.

#[local] Arguments laterOpen : simpl never.
#[local] Arguments openSentOpen : simpl never.

(** Every event takes the machine along an edge of the state graph, and it
    enters ESTABLISHED only from OPEN_CONFIRMED, on a KEEPALIVE. *)
Theorem fsm_transition_graph (ev : FsmEvent) (s : Session) :
  fsm_edge (state s) (state (processEvent ev s)) = true /\
  (state s <> ESTABLISHED -> state (processEvent ev s) = ESTABLISHED ->
   state s = OPEN_CONFIRMED /\ ev = KEEPALIVE_MSG).
Proof.
  unfold BgpFsm.processEvent. destruct (state s) eqn:Hst; destruct ev;
    cbn [handleIdle handleConnect handleActive handleOpenSent handleOpenConfirm handleEstablished];
    unfold start, startIdleHoldTimer;
    rewrite ?state_resetToIdle, ?state_transitionTo, ?state_initiate, ?state_restartHold, ?state_keepalive; cbn;
    rewrite ?Hst; try (split; [reflexivity | done]).
  1,2: repeat case_match; cbn in *; rewrite ?Hst in *; try congruence; done.
  - destruct (state_openSentOpen s) as [-> | ->]; done.
  - destruct (state_laterOpen s) as [-> | ->]; rewrite ?Hst; done.
  - destruct (state_laterOpen s) as [-> | ->]; rewrite ?Hst; done.
Qed.

(** What a reset of [s] has done in [s']. *)
Definition reset_done (s s' : Session) : Prop :=
  let t := timers s' in
  (connectRetry t = None /\ holdTimer t = None /\ keepaliveTimer t = None /\ idleHold t = None) /\
  connectionRetryCount t = 0 /\
  (activeConn s' = false /\ passiveConn s' = false /\ primaryConn s' = None) /\
  exists notif downs,
    (notif = [] \/ exists c code, primaryConn s = Some c /\ notif = [SendNotification c code]) /\
    (forall a, a ∈ downs -> a = ProcSessionDown) /\
    out s' = out s ++ notif ++ (if activeConn s then [TcpClose ActiveConn] else []) ++
                              (if passiveConn s then [TcpClose PassiveConn] else []) ++ downs.

Lemma transitionTo_idle s :
  exists downs, (forall a, a ∈ downs -> a = ProcSessionDown) /\
    transitionTo cfg IDLE s = emit downs (set_state IDLE s).
Proof.
  unfold transitionTo, onFsmTransition. cbn [is_established].
  destruct (is_established (state s)) eqn:He, (isChild cfg); cbn [negb].
  2: exists [ProcSessionDown; ProcSessionDown].
  1,3,4: exists [].
  all: destruct s; unfold emit, set_state; cbn in *; rewrite ?He, <- ?app_assoc, ?app_nil_r; split; try reflexivity.
  all: intros a Ha; repeat (apply elem_of_cons in Ha as [->|Ha]; [done|]); by apply elem_of_nil in Ha.
Qed.

Lemma reset_done_resetToIdle c s : reset_done s (resetToIdle cfg c s).
Proof.
  unfold resetToIdle. destruct (transitionTo_idle (closeAllConnections
    (match c with Some code => sendNotification code (set_retryCount 0 (cancelAll s))
     | None => set_retryCount 0 (cancelAll s) end))) as (downs & Hd & ->).
  unfold sendNotification. unfold reset_done.
  destruct c as [code|]; [destruct (code =? 0); [|destruct (primaryConn s) as [c|] eqn:Hp]|]; cbn; rewrite ?Hp; cbn;
    repeat split.
  2: exists [SendNotification c code], downs.
  1,3,4: exists [], downs.
  all: rewrite <- ?app_assoc; cbn; split_and!; eauto.
Qed.

Lemma reset_done_manual_stop s :
  reset_done s (transitionTo cfg IDLE (set_retryCount 0 (closeAllConnections (cancelAll s)))).
Proof.
  destruct (transitionTo_idle (set_retryCount 0 (closeAllConnections (cancelAll s)))) as (downs & Hd & ->).
  repeat split. exists [], downs. cbn. rewrite <- !app_assoc. auto.
Qed.

#[local] Arguments resetToIdle : simpl never.
#[local] Arguments transitionTo : simpl never.

(** Coming to IDLE from another state, on any event but a colliding OPEN, all
    timers are cancelled, the retry count is zero and no connection is left;
    at most one NOTIFICATION is sent, on the primary connection and before the
    connections are closed. *)
Theorem fsm_reset_complete (ev : FsmEvent) (s : Session) :
  state s <> IDLE -> ev <> BGP_OPEN -> state (processEvent ev s) = IDLE ->
  reset_done s (processEvent ev s).
Proof.
  intros Hs Hev. unfold BgpFsm.processEvent. destruct (state s) eqn:Hst; [done| | | | |]; destruct ev; try done;
    cbn [handleIdle handleConnect handleActive handleOpenSent handleOpenConfirm handleEstablished];
    rewrite ?state_transitionTo, ?state_initiate, ?state_restartHold, ?state_keepalive; cbn; rewrite ?Hst;
    try done; intros _; first [apply reset_done_resetToIdle | apply reset_done_manual_stop].
Qed.

(** C8: In every reachable state the primary connection pointer refers to a
    connection that exists; an idle session has no session timer and no
    outgoing connection; and a session that has sent its OPEN has neither the
    hold timer nor the connect-retry timer running. *)
Theorem fsm_reachable_invariant (s : Session) :
  session_reachable cfg tcp_connect s ->
  (primaryConn s = Some ActiveConn -> activeConn s = true) /\
  (primaryConn s = Some PassiveConn -> passiveConn s = true) /\
  (state s = IDLE -> no_session_timers (timers s) /\ connectRetry (timers s) = None /\ activeConn s = false) /\
  (state s = OPEN_SENT -> no_session_timers (timers s) /\ connectRetry (timers s) = None).
Proof.
  intros Hr. destruct (session_reachable_inv s Hr) as (H1 & H2 & H3).
  split; [done|]. split; [done|]. split; intros Hst; rewrite Hst in H3; done.
Qed.

(** On an OPEN in OPEN_SENT: a hold time under the configured minimum resets
    the session; otherwise the hold time becomes the lesser of the two sides',
    the hold timer runs exactly when it is not zero, and the keepalive
    interval is shorter than the hold time. The keepalive timer then runs
    unless the interval is zero, which for a non-zero hold time happens
    exactly below three seconds without a usable configured interval. *)
Theorem open_negotiates_timers (s : Session) :
  state s = OPEN_SENT -> 0 <= holdTime s -> 0 <= cfgHoldTime cfg ->
  let s' := processEvent BGP_OPEN s in
  let h := Z.min (holdTime s) (cfgHoldTime cfg) in
  let rejected := match cfgMinHoldTime cfg with
                  | Some m => negb (holdTime s =? 0) && (holdTime s <? m) | None => false end in
  if rejected then s' = resetToIdle cfg (Some NOTIF_UNACCEPTABLE_HOLD) s
  else
    state s' = OPEN_CONFIRMED /\ holdTime s' = h /\
    holdTimer (timers s') = (if h =? 0 then None else Some h) /\
    keepaliveTimer (timers s') = (if keepaliveInterval s' =? 0 then None else Some (keepaliveInterval s')) /\
    0 <= keepaliveInterval s' /\ (h <> 0 -> keepaliveInterval s' < h) /\
    (h <> 0 -> (keepaliveInterval s' = 0 <-> h < 3 /\ ~ (0 < cfgKeepalive cfg < h))) /\
    connectRetry (timers s') = None.
Proof.
  intros Hst Hh Hc. unfold BgpFsm.processEvent. rewrite Hst. cbn [handleOpenSent].
  set (h := Z.min (holdTime s) (cfgHoldTime cfg)). unfold openSentOpen.
  assert (Hacc : let s' := openSentAccept cfg s in
    state s' = OPEN_CONFIRMED /\ holdTime s' = h /\ keepaliveInterval s' = chooseKeepalive cfg h /\
    holdTimer (timers s') = (if h =? 0 then None else Some h) /\
    keepaliveTimer (timers s') = (if chooseKeepalive cfg h =? 0 then None else Some (chooseKeepalive cfg h)) /\
    connectRetry (timers s') = None).
  { unfold openSentAccept. fold h.
    match goal with |- context [transitionTo _ _ ?x] => destruct (transitionTo_eq OPEN_CONFIRMED x) as [l ->] end.
    unfold sendKeepalive. cbn. assert (Hk0 : h = 0 -> chooseKeepalive cfg h = 0) by (intros ->; done).
    destruct (primaryConn s); cbn; destruct (Z.eqb_spec h 0) as [E|E]; cbn;
      rewrite ?(proj2 (Z.eqb_neq h 0)) by done; rewrite ?Hk0 by done; repeat split. }
  assert (Hka : 0 <= chooseKeepalive cfg h /\ (h <> 0 -> chooseKeepalive cfg h < h) /\
    (h <> 0 -> (chooseKeepalive cfg h = 0 <-> h < 3 /\ ~ (0 < cfgKeepalive cfg < h)))).
  { unfold chooseKeepalive. assert (0 <= h) by lia.
    pose proof (Z.div_mod h 3 ltac:(lia)). pose proof (Z.mod_pos_bound h 3 ltac:(lia)).
    destruct (Z.eqb_spec h 0); [lia|]. zcases; cbn [andb]; lia. }
  cbn zeta in Hacc. destruct Hacc as (A1 & A2 & A3 & A4 & A5 & A6), Hka as (K1 & K2 & K3).
  destruct (cfgMinHoldTime cfg) as [m|]; [destruct (negb (holdTime s =? 0) && (holdTime s <? m)); [done|]|];
    rewrite A3; split_and!; done.
Qed.

(** Each entry into ESTABLISHED announces the session to the process twice:
    [transitionTo] calls [onFsmTransition] and then the callback the
    session's constructor has set to the same function. *)
Theorem established_announced_twice (s : Session) :
  isChild cfg = false -> state s = OPEN_CONFIRMED ->
  let announce := ProcSessionEstablished ::
    (if negotiatedMultiSess cfg then [StartMultiSessions (connectionModePassive cfg)] else []) in
  out (processEvent KEEPALIVE_MSG s) = out s ++ announce ++ announce.
Proof.
  intros Hc Hst. unfold BgpFsm.processEvent. rewrite Hst. cbn [handleOpenConfirm].
  unfold transitionTo, onFsmTransition. cbn [is_established]. rewrite Hc. cbn [negb].
  unfold restartHold, restartHoldTimer. repeat case_match; cbn; rewrite <- ?app_assoc; done.
Qed.

(** A session whose outgoing connection completes while an accepted incoming
    one is also confirmed is torn down whichever comes first: the second event
    finds the machine in OPEN_SENT, which treats it as an error, and both
    connections are closed. *)
Theorem simultaneous_connect_resets (s : Session) (first second : FsmEvent) :
  state s = CONNECT -> activeConn s = true ->
  (first = TCP_CONNECTION_CONFIRMED /\ second = TCP_CR_ACKED \/
   first = TCP_CR_ACKED /\ second = TCP_CONNECTION_CONFIRMED) ->
  let s' := processEvent second (processEvent first (acceptConnection s)) in
  state s' = IDLE /\ activeConn s' = false /\ passiveConn s' = false /\
  out s' = out s ++ [SendOpen PassiveConn; SendNotification PassiveConn NOTIF_FSM_OPEN_SENT;
                     TcpClose ActiveConn; TcpClose PassiveConn].
Proof.
  intros Hst Ha Hev.
  assert (H1 : processEvent first (acceptConnection s) =
    set_state OPEN_SENT (sendOpen (stopConnectRetry (acceptConnection s)))).
  { unfold BgpFsm.processEvent, acceptConnection. cbn [state postEvent set_conns]. rewrite Hst.
    destruct Hev as [[-> _]|[-> _]]; cbn; unfold transitionTo, onFsmTransition; cbn; rewrite Hst; done. }
  rewrite H1. set (s1 := set_state OPEN_SENT (sendOpen (stopConnectRetry (acceptConnection s)))).
  assert (H2 : processEvent second s1 = resetToIdle cfg (Some NOTIF_FSM_OPEN_SENT) s1)
    by (destruct Hev as [[_ ->]|[_ ->]]; done).
  rewrite H2. unfold resetToIdle, sendNotification. cbn. unfold transitionTo, onFsmTransition. cbn.
  rewrite Ha, <- !app_assoc. done.
Qed.

End Proofs.

(** The two ends of a connection agree on a collision: the end for which it is
    outgoing keeps it exactly when the end for which it is incoming does, and
    each end keeps exactly one of its two connections; equal identifiers keep
    none. *)
Theorem collision_agreement (ridA ridB : Z) :
  (ridA <> ridB ->
     (forall outgoing, shouldKeep outgoing ridA ridB = shouldKeep (negb outgoing) ridB ridA) /\
     shouldKeep false ridA ridB = negb (shouldKeep true ridA ridB)) /\
  (ridA = ridB -> forall outgoing, shouldKeep outgoing ridA ridB = false).
Proof.
  unfold shouldKeep. split.
  - intros Hne. split.
    + intros []; zcases; cbn; try done; lia.
    + zcases; cbn; try done; lia.
  - intros -> outgoing. rewrite Z.eqb_refl. done.
Qed.

(** ** Concrete sessions *)

Definition ex_cfg : Config := mkConfig 180 60 (Some 20) false false false 167772161.

Definition ex_run (evs : list FsmEvent) : Session :=
  fold_left (fun s ev => processEvent ex_cfg (fun _ => true) ev s) evs (Session_new ex_cfg).

Lemma fsm_reset_complete_witness :
  let s := ex_run [MANUAL_START; TCP_CR_ACKED] in
  let s' := processEvent ex_cfg (fun _ => true) HOLD_TIMER_EXPIRES s in
  reset_done s s' /\
  out s' = [TcpConnect; SendOpen ActiveConn; SendNotification ActiveConn NOTIF_HOLD_TIMER_EXPIRED; TcpClose ActiveConn].
Proof.
  intros s s'. split; [|vm_compute; reflexivity].
  exact (fsm_reset_complete ex_cfg (fun _ => true) HOLD_TIMER_EXPIRES s
    ltac:(vm_compute; discriminate) ltac:(discriminate) ltac:(vm_compute; reflexivity)).
Defined.

Lemma fsm_reachable_invariant_witness :
  let s := processEvent ex_cfg (fun _ => true) MANUAL_START (pop (postEvent MANUAL_START (Session_new ex_cfg))) in
  session_reachable ex_cfg (fun _ => true) s /\ primaryConn s = Some ActiveConn /\ activeConn s = true.
Proof.
  intros s. assert (Hr : session_reachable ex_cfg (fun _ => true) s).
  { eapply reach_step; [eapply reach_step; [apply reach_init | apply (step_post _ _ _ MANUAL_START)]|].
    eapply step_process. reflexivity. }
  split; [exact Hr|]. split; [reflexivity|].
  apply (fsm_reachable_invariant ex_cfg (fun _ => true) s Hr). reflexivity.
Defined.

Lemma open_negotiates_timers_witness :
  let s := set_hold 90 60 (ex_run [MANUAL_START; TCP_CR_ACKED]) in
  holdTimer (timers (processEvent ex_cfg (fun _ => true) BGP_OPEN s)) = Some 90 /\
  keepaliveInterval (processEvent ex_cfg (fun _ => true) BGP_OPEN s) = 60.
Proof.
  intros s. destruct (open_negotiates_timers ex_cfg (fun _ => true) s ltac:(vm_compute; reflexivity)
    ltac:(vm_compute; discriminate) ltac:(vm_compute; discriminate)) as (_ & _ & H & _).
  split; [rewrite H; vm_compute; reflexivity | vm_compute; reflexivity].
Defined.

Lemma established_announced_twice_witness :
  let s := ex_run [MANUAL_START; TCP_CR_ACKED; BGP_OPEN] in
  out (processEvent ex_cfg (fun _ => true) KEEPALIVE_MSG s) =
    out s ++ [ProcSessionEstablished; ProcSessionEstablished].
Proof.
  intros s. exact (established_announced_twice ex_cfg (fun _ => true) s eq_refl ltac:(vm_compute; reflexivity)).
Defined.

Lemma simultaneous_connect_resets_witness :
  let s' := processEvent ex_cfg (fun _ => true) TCP_CR_ACKED
              (processEvent ex_cfg (fun _ => true) TCP_CONNECTION_CONFIRMED
                 (acceptConnection (ex_run [MANUAL_START]))) in
  state s' = IDLE /\ activeConn s' = false /\ passiveConn s' = false.
Proof.
  intros s'. destruct (simultaneous_connect_resets ex_cfg (fun _ => true) (ex_run [MANUAL_START])
    TCP_CONNECTION_CONFIRMED TCP_CR_ACKED ltac:(vm_compute; reflexivity) ltac:(vm_compute; reflexivity) (or_introl (conj eq_refl eq_refl))) as (H1 & H2 & H3 & _).
  split; [exact H1|]. split; [exact H2 | exact H3].
Defined.

Lemma collision_agreement_witness :
  shouldKeep true 2 1 = true /\ shouldKeep false 1 2 = true /\ shouldKeep true 1 2 = false.
Proof.
  destruct (collision_agreement 2 1) as [H _]. specialize (H ltac:(lia)) as [H1 _].
  split; [reflexivity|]. split; [|reflexivity].
  transitivity (shouldKeep true 2 1); [symmetry; exact (H1 true) | reflexivity].
Defined.
