(* ===== verification/Checksums.v ===== *)
(** * Checksums: the Internet checksum

    [calculateChecksum] of security/Checksums.cpp, which fills the checksum
    field of the IP, TCP, UDP, ICMP and AH headers. Sums are kept at their C
    widths (8, 32, 64 bits); the two carry folds run at most three passes. *)

From S2P Require Import Prelude ByteUtils.

(** ** The Internet checksum *)

(** [security/Checksums.cpp:78-78] calculateChecksum: [std::memset(packet + start, 0, n)] *)
Fixpoint zero_bytes (p : bytes) (start n : nat) : outcome bytes :=
  match n with
  | O => Ret p
  | S n => p ← wr p start 0; zero_bytes p (S start) n
  end.

(** The position is outside the [n]-byte checksum field at [start]. *)
Definition outside (start n i : nat) : bool := (i <? start)%nat || (start + n <=? i)%nat.

(** [security/Checksums.cpp:84-91] calculateChecksum: the 8-bit sums *)
Fixpoint sum8 (fuel : nat) (p : bytes) (i size : nat) (keep : nat -> bool) (sum : Z) : outcome Z :=
  match fuel with
  | O => Ret sum
  | S fuel =>
      if (i <? size)%nat then
        if keep i then b ← rd p i; sum8 fuel p (S i) size keep (u8 (sum + b))
        else sum8 fuel p (S i) size keep sum
      else Ret sum
  end.

(** [security/Checksums.cpp:97-112] calculateChecksum: the 16-bit loops, [while (i + 1 < size)] and
    the odd byte *)
Fixpoint sum16 (fuel : nat) (p : bytes) (i size : nat) (keep : nat -> bool) (sum : Z) : outcome Z :=
  match fuel with
  | O => Ret sum
  | S fuel =>
      if (i + 1 <? size)%nat then
        if keep i then w ← readU16 (drop i p); sum16 fuel p (i + 2) size keep (u32 (sum + w))
        else sum16 fuel p (i + 2) size keep sum
      else if (i <? size)%nat && keep i then b ← rd p i; Ret (u32 (sum + u16 (Z.shiftl b 8)))
      else Ret sum
  end.

(** [security/Checksums.cpp:113-114] calculateChecksum: the folding of the carries *)
Fixpoint fold16 (fuel : nat) (sum : Z) : Z :=
  match fuel with
  | O => sum
  | S fuel =>
      if Z.shiftr sum 16 =? 0 then sum
      else fold16 fuel (u32 (Z.land sum 0xFFFF + Z.shiftr sum 16))
  end.

(** [std::swap] of the two bytes of a 16-bit word. *)
Definition swap16 (x : Z) : Z := u16 (Z.lor (Z.shiftl (Z.land x 255) 8) (Z.shiftr x 8)).

(** [security/Checksums.cpp:131-133] calculateChecksum: The bytes from [i] as one big-endian word. *)
Fixpoint gather (p : bytes) (i n : nat) (acc : Z) : outcome Z :=
  match n with
  | O => Ret acc
  | S n => b ← rd p i; gather p (S i) n (u32 (Z.lor (Z.shiftl acc 8) b))
  end.

(** [security/Checksums.cpp:124-136] calculateChecksum: the 32-bit loop over the pseudo-header. The
    shift of the trailing bytes assigns [i] to [pseudoHeaderSize] and shifts by
    [(4 - i) * 8], a [size_t]. *)
Fixpoint sum32_pseudo (fuel : nat) (p : bytes) (i size : nat) (sum : Z) : outcome Z :=
  match fuel with
  | O => Ret sum
  | S fuel =>
      if (i + 3 <? size)%nat then w ← readU32 (drop i p); sum32_pseudo fuel p (i + 4) size (u64 (sum + w))
      else if (i <? size)%nat then
        word ← gather p i (size - i) 0;
        word ← shl 32 word (u64 (u64 (4 - Z.of_nat i) * 8));
        Ret (u64 (sum + word))
      else Ret sum
  end.

(** [security/Checksums.cpp:137-151] calculateChecksum: the 32-bit loop over the packet *)
Fixpoint sum32 (fuel : nat) (p : bytes) (i size : nat) (keep : nat -> bool) (sum : Z) : outcome Z :=
  match fuel with
  | O => Ret sum
  | S fuel =>
      if (i + 3 <? size)%nat then
        if keep i then w ← readU32 (drop i p); sum32 fuel p (i + 4) size keep (u64 (sum + w))
        else sum32 fuel p (i + 4) size keep sum
      else if (i <? size)%nat && keep i then
        word ← gather p i (size - i) 0;
        word ← shl 32 word (u64 ((4 - (Z.of_nat size - Z.of_nat i)) * 8));
        Ret (u64 (sum + word))
      else Ret sum
  end.

(** [security/Checksums.cpp:152-153] calculateChecksum: the folding of the 32-bit carries *)
Fixpoint fold32 (fuel : nat) (sum : Z) : Z :=
  match fuel with
  | O => sum
  | S fuel =>
      if Z.shiftr sum 32 =? 0 then sum
      else fold32 fuel (u64 (Z.land sum 0xFFFFFFFF + Z.shiftr sum 32))
  end.

(** [security/Checksums.cpp:76-172] checksum::calculateChecksum *)
Definition calculateChecksum (packet : bytes) (headerSize start checksumSize : nat)
    (pseudo : bytes) (pseudoSize : nat) (swap : bool) : outcome bytes :=
  packet ← zero_bytes packet start checksumSize;
  match checksumSize with
  | 1%nat =>
      sum ← sum8 pseudoSize pseudo 0 pseudoSize (fun _ => true) 0;
      sum ← sum8 headerSize packet 0 headerSize (outside start 1) sum;
      wr packet start sum
  | 2%nat =>
      sum ← sum16 (S pseudoSize) pseudo 0 pseudoSize (fun _ => true) 0;
      sum ← sum16 (S headerSize) packet 0 headerSize (outside start 2) sum;
      let sum := fold16 3 sum in
      let checksum := bnot 16 (u16 sum) in
      write_at writeU16 packet start (if swap then swap16 checksum else checksum)
  | 4%nat =>
      sum ← sum32_pseudo (S pseudoSize) pseudo 0 pseudoSize 0;
      sum ← sum32 (S headerSize) packet 0 headerSize (outside start 4) sum;
      let sum := fold32 3 sum in
      let checksum := bnot 32 (u32 sum) in
      write_at writeU32 packet start (if swap then htonl checksum else checksum)
  | _ => Ret packet
  end.

(** ** Sums of 16-bit words *)

Fixpoint words (p : bytes) : Z :=
  match p with
  | b0 :: b1 :: p => b0 * 256 + b1 + words p
  | [b] => b * 256
  | [] => 0
  end.

(** Induction two bytes at a time. *)
Lemma pairs_ind (P : bytes -> Prop) :
  P [] -> (forall b, P [b]) -> (forall b0 b1 p, P p -> P (b0 :: b1 :: p)) -> forall p, P p.
Proof.
  intros H0 H1 H2. assert (Hn : forall n p, (length p <= n)%nat -> P p).
  { induction n as [|n IH]; intros [|b0 [|b1 p]] Hp; cbn in Hp; try done; try lia. apply H2, IH. lia. }
  eauto.
Qed.

Lemma words_app p q : Nat.Even (length p) -> words (p ++ q) = words p + words q.
Proof.
  induction p as [|b|b0 b1 p IH] using pairs_ind; intros He; [done| |].
  - destruct He as [n Hn]. cbn in Hn. lia.
  - cbn [app words]. rewrite IH; [lia|]. destruct He as [n Hn]. exists (n - 1)%nat. cbn in Hn. lia.
Qed.

Lemma words_bound p : is_bytes p -> 0 <= words p <= 65535 * ((Z.of_nat (length p) + 1) / 2).
Proof.
  induction p as [|b|b0 b1 p IH] using pairs_ind; intros Hb.
  - done.
  - apply Forall_cons in Hb as [[? ?] _]. cbn [words length].
    replace ((Z.of_nat 1 + 1) / 2) with 1 by reflexivity. lia.
  - apply Forall_cons in Hb as [[? ?] Hb]. apply Forall_cons in Hb as [[? ?] Hb]. specialize (IH Hb).
    cbn [words length]. replace (Z.of_nat (S (S (length p))) + 1) with (Z.of_nat (length p) + 1 + 1 * 2) by lia.
    rewrite Z.div_add by lia. lia.
Qed.

Lemma drop_two (l : bytes) i :
  (i + 1 < length l)%nat -> exists b0 b1, drop i l = b0 :: b1 :: drop (i + 2) l /\
    l !! i = Some b0 /\ l !! (i + 1)%nat = Some b1.
Proof.
  intros Hi. destruct (lookup_lt_is_Some_2 l i ltac:(lia)) as [b0 H0].
  destruct (lookup_lt_is_Some_2 l (i + 1) Hi) as [b1 H1]. exists b0, b1.
  rewrite (drop_S l b0 i H0). rewrite (drop_S l b1 (S i)) by (rewrite <- H1; f_equal; lia).
  split; [|done]. do 3 f_equal. lia.
Qed.

(** The loop adds the words of the first [size] bytes from [i] on, when the
    positions it skips hold zeros and the sum does not overflow. *)
Lemma sum16_words fuel p i size keep sum :
  is_bytes p -> (size <= length p)%nat -> (size < fuel + i)%nat -> Nat.Even i ->
  (forall j, Nat.Even j -> (j < size)%nat -> keep j = false -> p !! j = Some 0 /\
     ((j + 1 < size)%nat -> p !! (j + 1)%nat = Some 0)) ->
  0 <= sum -> sum + words (drop i (take size p)) < 2 ^ 32 ->
  sum16 fuel p i size keep sum = Ret (sum + words (drop i (take size p))).
Proof.
  intros Hb Hsz. revert i sum. induction fuel as [|fuel IH]; intros i sum Hf Hev Hskip Hsum Hlt.
  - rewrite drop_ge by (rewrite length_take; lia). cbn. f_equal. lia.
  - assert (Hl : length (take size p) = size) by (rewrite length_take; lia).
    assert (Hbt : is_bytes (take size p)) by (apply Forall_take; done).
    assert (Hlook : forall j b, take size p !! j = Some b -> p !! j = Some b /\ 0 <= b < 256).
    { intros j b Hj. split; [apply lookup_take_Some in Hj; tauto|].
      apply (proj1 (Forall_lookup _ _) Hbt j b Hj). }
    assert (Hev2 : Nat.Even (i + 2)) by (destruct Hev as [n ->]; exists (n + 1)%nat; lia).
    cbn [sum16]. destruct (i + 1 <? size)%nat eqn:Hi1.
    + apply Nat.ltb_lt in Hi1. destruct (drop_two (take size p) i ltac:(lia)) as (b0 & b1 & Hd & H0 & H1).
      apply Hlook in H0 as [H0 Hr0], H1 as [H1 Hr1]. rewrite Hd in Hlt |- *. cbn [words] in *.
      pose proof (words_bound (drop (i + 2) (take size p)) ltac:(apply Forall_drop; done)) as Hw.
      destruct (keep i) eqn:Hk.
      * rewrite readU16_spec by (first [apply Forall_drop; done | rewrite length_drop; lia]).
        rewrite outcome_bind_ret_l.
        assert (Ht : take 2 (drop i p) = [b0; b1]).
        { destruct (drop_two p i ltac:(lia)) as (c0 & c1' & Hdp & Hc0 & Hc1). rewrite Hdp. cbn [take]. rewrite take_0. congruence. }
        rewrite Ht. assert (Hbd : be_decode [b0; b1] = b0 * 256 + b1).
        { unfold be_decode, be_step. cbn [fold_left]. rewrite Z.shiftl_0_l, Z.lor_0_l.
          rewrite (lor_shiftl_add b0 b1 8) by (done || lia). done. }
        rewrite Hbd. rewrite wrap_small by (split; lia). rewrite IH by (done || lia). f_equal. lia.
      * destruct (Hskip i Hev ltac:(lia) Hk) as [Hz0 Hz1]. specialize (Hz1 Hi1).
        rewrite IH by (done || lia). assert (b0 = 0) as -> by congruence. assert (b1 = 0) as -> by congruence. done.
    + apply Nat.ltb_ge in Hi1. destruct (i <? size)%nat eqn:Hi; cbn [andb].
      * apply Nat.ltb_lt in Hi. destruct (lookup_lt_is_Some_2 (take size p) i ltac:(lia)) as [b H0].
        assert (Hd : drop i (take size p) = [b]).
        { rewrite (drop_S _ b) by done. rewrite drop_ge by lia. done. }
        apply Hlook in H0 as [H0 Hr0]. rewrite Hd in *. cbn [words] in *.
        destruct (keep i) eqn:Hk.
        -- unfold rd. rewrite H0, outcome_bind_ret_l. rewrite Z.shiftl_mul_pow2 by lia.
           rewrite (wrap_small 16), wrap_small by (split; lia). done.
        -- destruct (Hskip i Hev Hi Hk) as [Hz _]. assert (b = 0) as -> by congruence. f_equal. lia.
      * apply Nat.ltb_ge in Hi. rewrite drop_ge by lia. cbn. f_equal. lia.
Qed.

(** Folding the carries of a 32-bit sum: three passes are enough. *)
Lemma fold16_spec s :
  in_width 32 s -> let f := fold16 3 s in
  in_width 16 f /\ (f - s) mod 65535 = 0 /\ (0 < s -> 0 < f).
Proof.
  intros [Hs1 Hs2]. assert (Hstep : forall x, 0 <= x < 2 ^ 32 ->
    u32 (Z.land x 0xFFFF + Z.shiftr x 16) = x - 65535 * (x / 65536)).
  { intros x Hx. change 0xFFFF with (Z.ones 16). rewrite Z.land_ones, Z.shiftr_div_pow2 by lia.
    change (2 ^ 16) with 65536. pose proof (Z.div_mod x 65536 ltac:(lia)).
    pose proof (Z.mod_pos_bound x 65536 ltac:(lia)).
    pose proof (Z.div_lt_upper_bound x 65536 65536 ltac:(lia) ltac:(lia)).
    pose proof (Z.div_pos x 65536 ltac:(lia) ltac:(lia)). rewrite wrap_small by (split; lia). change (Z.ones 16) with 65535. lia. }
  assert (Hq : forall x, 0 <= x -> (Z.shiftr x 16 =? 0) = (x <? 65536)).
  { intros x Hx. rewrite Z.shiftr_div_pow2 by lia. change (2 ^ 16) with 65536.
    pose proof (Z.div_mod x 65536 ltac:(lia)). pose proof (Z.mod_pos_bound x 65536 ltac:(lia)). zcases; try done; lia. }
  assert (Hmod : forall k, (65535 * k) mod 65535 = 0) by (intros k; rewrite Z.mul_comm; apply Z.mod_mul; lia).
  pose proof (Z.div_mod s 65536 ltac:(lia)). pose proof (Z.mod_pos_bound s 65536 ltac:(lia)).
  pose proof (Z.div_lt_upper_bound s 65536 65536 ltac:(lia) ltac:(lia)).
  pose proof (Z.div_pos s 65536 ltac:(lia) ltac:(lia)).
  cbn zeta. cbn [fold16]. rewrite Hq by lia. destruct (Z.ltb_spec s 65536) as [Hlt|Hge].
  { split; [split; lia|]. split; [rewrite Z.sub_diag; done | lia]. }
  rewrite (Hstep s) by lia. set (s1 := s - 65535 * (s / 65536)) in *.
  assert (Hs1b : 0 < s1 <= 131070) by (unfold s1; lia).
  rewrite Hq by lia. destruct (Z.ltb_spec s1 65536) as [Hlt1|Hge1].
  { split; [split; lia|]. split; [|lia]. replace (s1 - s) with (65535 * (- (s / 65536))) by (unfold s1; lia). apply Hmod. }
  rewrite (Hstep s1) by lia. assert (Hs1q : s1 / 65536 = 1) by (symmetry; apply Z.div_unique with (s1 - 65536); lia).
  rewrite Hs1q. rewrite Hq by lia. destruct (Z.ltb_spec (s1 - 65535 * 1) 65536); [|lia].
  split; [split; lia|]. split; [|lia].
  replace (s1 - 65535 * 1 - s) with (65535 * (- (s / 65536) - 1)) by (unfold s1; lia). apply Hmod.
Qed.

(** The fold of a sum is 65535 less the value that completes it. *)
Lemma fold16_completes s :
  in_width 16 s -> fold16 3 s = s.
Proof.
  intros [Hs1 Hs2]. cbn [fold16]. rewrite Z.shiftr_div_pow2, Z.div_small by lia. done.
Qed.

Lemma fold16_multiple s :
  in_width 32 s -> 0 < s -> s mod 65535 = 0 -> fold16 3 s = 65535.
Proof.
  intros Hs Hpos Hm. destruct (fold16_spec s Hs) as ([Hf1 Hf2] & Hmod & Hp). specialize (Hp Hpos).
  set (f := fold16 3 s) in *.
  assert (Hf : f mod 65535 = 0).
  { replace f with ((f - s) + s) by lia. rewrite Z.add_mod, Hmod, Hm by lia. done. }
  pose proof (Z.div_mod f 65535 ltac:(lia)). assert (f / 65535 = 1); [|lia].
  assert (0 < f / 65535) by lia. pose proof (Z.div_lt_upper_bound f 65535 2 ltac:(lia) ltac:(lia)). lia.
Qed.

(** A buffer around a two-byte field. *)
Lemma split_field (p : bytes) start :
  (start + 2 <= length p)%nat ->
  exists a x y c, p = a ++ x :: y :: c /\ length a = start.
Proof.
  intros Hl. destruct (drop_two p start ltac:(lia)) as (x & y & Hd & _ & _).
  exists (take start p), x, y, (drop (start + 2) p). rewrite <- Hd, take_drop, length_take. split; [done|lia].
Qed.

(** [memset] on the two bytes of the field. *)
Lemma zero_bytes_two a x y c : zero_bytes (a ++ x :: y :: c) (length a) 2 = Ret (a ++ 0 :: 0 :: c).
Proof.
  cbn [zero_bytes]. rewrite wr_ret, outcome_bind_ret_l by (rewrite length_app; cbn; lia).
  rewrite insert_app_r_alt, Nat.sub_diag by lia. cbn [insert list_insert].
  rewrite wr_ret, outcome_bind_ret_l by (rewrite length_app; cbn; lia). f_equal.
  rewrite insert_app_r_alt by lia. replace (S (length a) - length a)%nat with 1%nat by lia. done.
Qed.

Lemma words_field a x y c : Nat.Even (length a) -> words (a ++ x :: y :: c) = words a + (x * 256 + y) + words c.
Proof. intros He. rewrite words_app by done. cbn [words]. lia. Qed.

Lemma words_encode v : in_width 16 v -> words (be_encode 2 v) = v.
Proof.
  intros [Hv1 Hv2]. cbn [be_encode words]. rewrite !land_255, Z.shiftr_0_r, Z.shiftr_div_pow2 by lia.
  change (8 * Z.of_nat 1) with 8. change (2 ^ 8) with 256. pose proof (Z.div_mod v 256 ltac:(lia)).
  pose proof (Z.div_lt_upper_bound v 256 256 ltac:(lia) ltac:(lia)). pose proof (Z.div_pos v 256 ltac:(lia) ltac:(lia)).
  rewrite (Z.mod_small (v / 256)) by lia. lia.
Qed.

(** Two buffers of at most 131072 bytes in all fit the 32-bit sum. *)
Lemma words_two_bound p q :
  is_bytes p -> is_bytes q -> Z.of_nat (length p) + Z.of_nat (length q) <= 131072 -> in_width 32 (words p + words q).
Proof.
  intros Hp Hq Hl. pose proof (words_bound p Hp) as Hbp. pose proof (words_bound q Hq) as Hbq.
  assert ((Z.of_nat (length p) + 1) / 2 + (Z.of_nat (length q) + 1) / 2 <= 65537).
  { pose proof (Z.div_mod (Z.of_nat (length p) + 1) 2 ltac:(lia)).
    pose proof (Z.mod_pos_bound (Z.of_nat (length p) + 1) 2 ltac:(lia)).
    pose proof (Z.div_mod (Z.of_nat (length q) + 1) 2 ltac:(lia)).
    pose proof (Z.mod_pos_bound (Z.of_nat (length q) + 1) 2 ltac:(lia)). lia. }
  split; lia.
Qed.

(** The sum the code folds: the words of the pseudo-header and of the header
    with its checksum field read as zero. *)
Lemma header_sum a c hs (pseudo : bytes) ps :
  is_bytes (a ++ 0 :: 0 :: c) -> is_bytes pseudo -> Nat.Even (length a) ->
  (length a + 2 <= hs)%nat -> (hs <= length a + 2 + length c)%nat -> (ps <= length pseudo)%nat ->
  Z.of_nat ps + Z.of_nat hs <= 131072 ->
  (sum ← sum16 (S ps) pseudo 0 ps (fun _ => true) 0;
   sum16 (S hs) (a ++ 0 :: 0 :: c) 0 hs (outside (length a) 2) sum)
  = Ret (words (take ps pseudo) + words (take hs (a ++ 0 :: 0 :: c))).
Proof.
  intros Hz Hps Hev Hlo Hhi Hpl Hsz. set (z := a ++ 0 :: 0 :: c) in *.
  assert (Hlz : length z = (length a + 2 + length c)%nat) by (unfold z; rewrite length_app; cbn; lia).
  destruct (words_two_bound (take ps pseudo) (take hs z)) as [Hb1 Hb2];
    [apply Forall_take; done | apply Forall_take; done | rewrite !length_take; lia |].
  pose proof (words_bound (take ps pseudo) ltac:(apply Forall_take; done)) as Hw1.
  pose proof (words_bound (take hs z) ltac:(apply Forall_take; done)) as Hw2.
  assert (He0 : Nat.Even 0) by (exists 0%nat; done).
  rewrite (sum16_words (S ps)); rewrite ?drop_0; try (done || lia). rewrite Z.add_0_l, outcome_bind_ret_l.
  rewrite sum16_words; rewrite ?drop_0; try (done || lia).
  intros j Hj Hjl Hk. unfold outside in Hk. apply orb_false_iff in Hk as [Hk1 Hk2].
  apply Nat.ltb_ge in Hk1. apply Nat.leb_gt in Hk2.
  assert (j = length a) as -> by (destruct Hj, Hev; lia). unfold z.
  split; [|intros _]; rewrite lookup_app_r by lia.
  - rewrite Nat.sub_diag. done.
  - replace (length a + 1 - length a)%nat with 1%nat by lia. done.
Qed.

Lemma take_field a (x y : Z) c hs :
  (length a + 2 <= hs)%nat -> take hs (a ++ x :: y :: c) = a ++ x :: y :: take (hs - length a - 2) c.
Proof.
  intros Hl. rewrite take_app_ge by lia. destruct (hs - length a)%nat as [|[|k]] eqn:E; [lia|lia|].
  cbn. rewrite Nat.sub_0_r. done.
Qed.

(** The checksum field is the only part of the packet that changes, and the
    one's-complement sum of the pseudo-header and the header, with the field
    filled in, folds to all ones: the packet verifies at the receiver. *)
Theorem internet_checksum_verifies packet headerSize start pseudo pseudoSize :
  is_bytes packet -> is_bytes pseudo -> Nat.Even start ->
  (start + 2 <= headerSize <= length packet)%nat -> (pseudoSize <= length pseudo)%nat ->
  Z.of_nat pseudoSize + Z.of_nat headerSize <= 131072 ->
  exists cs, let packet' := take start packet ++ be_encode 2 cs ++ drop (start + 2) packet in
    in_width 16 cs /\
    calculateChecksum packet headerSize start 2 pseudo pseudoSize false = Ret packet' /\
    fold16 3 (words (take pseudoSize pseudo) + words (take headerSize packet')) = 65535.
Proof.
  intros Hp Hq Hev [Hlo Hhi] Hpl Hsz. destruct (split_field packet start ltac:(lia)) as (a & x & y & c & -> & <-).
  apply Forall_app in Hp as [Ha Hc]. apply Forall_cons in Hc as [_ Hc]. apply Forall_cons in Hc as [_ Hc].
  assert (Hfield : forall u v, in_width 8 u -> in_width 8 v -> is_bytes (a ++ u :: v :: c)).
  { intros u v Hu Hv. apply Forall_app. repeat constructor; try done; apply Hu || apply Hv. }
  assert (H0 : in_width 8 0) by done. rewrite length_app in Hhi. cbn in Hhi.
  set (N := words (take pseudoSize pseudo) + words (take headerSize (a ++ 0 :: 0 :: c))).
  assert (HN : in_width 32 N).
  { apply words_two_bound; [apply Forall_take; done | apply Forall_take, Hfield; done |].
    rewrite !length_take, length_app. cbn. lia. }
  destruct (fold16_spec N HN) as ([Hf1 Hf2] & Hmod & Hpos). set (f := fold16 3 N) in *.
  exists (65535 - f). rewrite take_app_length, drop_app_add' by done. cbn [drop]. cbn zeta.
  assert (Hcs : in_width 16 (65535 - f)) by (split; lia). split; [done|].
  assert (He : exists u v, be_encode 2 (65535 - f) = [u; v] /\ in_width 8 u /\ in_width 8 v /\ u * 256 + v = 65535 - f).
  { pose proof (words_encode _ Hcs) as Hw. pose proof (be_encode_bytes 2 (65535 - f)) as Hb.
    cbn [be_encode words] in *. apply Forall_cons in Hb as [? Hb]. apply Forall_cons in Hb as [? _].
    eexists _, _. split; [done|]. split; [done|]. split; [done|]. lia. }
  destruct He as (u & v & He & Hu & Hv & Huv). split.
  - unfold calculateChecksum. rewrite zero_bytes_two, outcome_bind_ret_l.
    pose proof (header_sum a c headerSize pseudo pseudoSize (Hfield 0 0 H0 H0) Hq Hev Hlo
      ltac:(lia) Hpl Hsz) as Hsum. fold N in Hsum.
    apply outcome_bind_ret_inv in Hsum as (s0 & -> & Hs). rewrite outcome_bind_ret_l, Hs, outcome_bind_ret_l.
    cbv zeta. fold f. rewrite (wrap_small 16 f) by (split; lia). change (bnot 16 f) with (65535 - f).
    unfold write_at. rewrite drop_app_length, take_app_length.
    rewrite writeU16_spec by (cbn; lia). rewrite outcome_bind_ret_l. done.
  - assert (HN' : words (take pseudoSize pseudo) + words (take headerSize (a ++ u :: v :: c)) = N + (65535 - f)).
    { unfold N. rewrite !take_field, !words_field by (done || lia). lia. }
    rewrite He. cbn [app]. rewrite drop_0, HN'. apply fold16_multiple.
    + rewrite <- HN'. apply words_two_bound; [apply Forall_take; done | apply Forall_take, Hfield; done |].
      rewrite !length_take, length_app. cbn. lia.
    + destruct HN. destruct (decide (N = 0)) as [E|]; [|lia]. unfold f. rewrite E. done.
    + replace (N + (65535 - f)) with (1 * 65535 - (f - N)) by lia.
      rewrite Zminus_mod, Hmod, Z.mod_mul by lia. done.
Qed.

(** An IPv4 header and the checksum of its ten words. *)
Definition sample_header : bytes :=
  [0x45; 0; 0; 0x73; 0; 0; 0x40; 0; 0x40; 0x11; 0; 0; 192; 168; 0; 1; 192; 168; 0; 199].
Definition sample_pseudo : bytes := [192; 168; 0; 1; 17].

Lemma internet_checksum_verifies_witness :
  exists cs, let packet' := take 10 sample_header ++ be_encode 2 cs ++ drop (10 + 2) sample_header in
    in_width 16 cs /\ calculateChecksum sample_header 20 10 2 sample_pseudo 5 false = Ret packet' /\
    fold16 3 (words (take 5 sample_pseudo) + words (take 20 packet')) = 65535.
Proof.
  apply (internet_checksum_verifies sample_header 20 10 sample_pseudo 5).
  - apply (bool_decide_unpack _). vm_compute. exact I.
  - apply (bool_decide_unpack _). vm_compute. exact I.
  - exists 5%nat. reflexivity.
  - cbn. lia.
  - cbn. lia.
  - cbn. lia.
Defined.

Example sample_checksum :
  calculateChecksum sample_header 20 10 2 [] 0 false
  = Ret (take 10 sample_header ++ [0xb8; 0x61] ++ drop 12 sample_header).
Proof. vm_compute. reflexivity. Qed.
