(* ===== verification/OspfLsa.v ===== *)
(** * OspfLsa: OSPFv2 link-state advertisements on the wire

    The Fletcher accumulator (routing/ospf/transmission/OspfFletcher.hpp), the
    LSA header and the network-LSA body (ospfv2/database/NetworkLsaV2.hpp,
    packet/headers/embedded/ospf/Ospfv2LSAHeader.hpp), how LSAs are placed
    into an update (ospfv2/transmission/TxV2.cpp), their checksum at
    origination (area/Area.h) and its verification at reception
    (ospfv2/transmission/RxV2.cpp). The other LSA bodies
    are in [LsaBodies]. *)

From S2P Require Import Prelude ByteUtils.

(** ** The Fletcher accumulator *)

(** [routing/ospf/transmission/OspfFletcher.hpp:31-35] ChecksumFletcher *)
Record ChecksumFletcher := mkFletcher { c0 : Z; c1 : Z }.
Definition Fletcher_new : ChecksumFletcher := mkFletcher 0 0.

(** [routing/ospf/transmission/OspfFletcher.hpp:42-48] ChecksumFletcher::add *)
Definition add (f : ChecksumFletcher) (b : Z) : ChecksumFletcher :=
  let x := u16 (c0 f + b) in
  let x := if 255 <=? x then u16 (x - 255) else x in
  let y := u16 (c1 f + x) in
  let y := if 255 <=? y then u16 (y - 255) else y in
  mkFletcher x y.

(** [routing/ospf/transmission/OspfFletcher.hpp:55-61] ChecksumFletcher::addU32 *)
Definition addU32 (f : ChecksumFletcher) (b : Z) : ChecksumFletcher :=
  add (add (add (add f (u8 (Z.shiftr b 24))) (u8 (Z.land (Z.shiftr b 16) 0xFF)))
    (u8 (Z.land (Z.shiftr b 8) 0xFF))) (u8 (Z.land b 0xFF)).

(** [routing/ospf/transmission/OspfFletcher.hpp:70-75] ChecksumFletcher::addU24 *)
Definition addU24 (f : ChecksumFletcher) (b : Z) : ChecksumFletcher :=
  add (add (add f (u8 (Z.land (Z.shiftr b 16) 0xFF))) (u8 (Z.land (Z.shiftr b 8) 0xFF))) (u8 (Z.land b 0xFF)).

(** [routing/ospf/transmission/OspfFletcher.hpp:82-86] ChecksumFletcher::addU16 *)
Definition addU16 (f : ChecksumFletcher) (b : Z) : ChecksumFletcher :=
  add (add f (u8 (Z.land (Z.shiftr b 8) 0xFF))) (u8 (Z.land b 0xFF)).

(** [routing/ospf/transmission/OspfFletcher.hpp:94-100] ChecksumFletcher::addBytes *)
Definition addBytes (f : ChecksumFletcher) (data : bytes) : ChecksumFletcher := fold_left add data f.

(** [routing/ospf/transmission/OspfFletcher.hpp:126-129] ChecksumFletcher::finalize *)
Definition finalize (f : ChecksumFletcher) : Z := u16 (Z.lor (Z.shiftl (c1 f) 8) (c0 f)).

(** [routing/ospf/ospfv2/transmission/RxV2.cpp:27-33] verifyOspfFletcher *)
Definition verifyOspfFletcher (lsa : bytes) (len : nat) : bool :=
  if (len <? 20)%nat then false
  else finalize (addBytes Fletcher_new (take (len - 2) (drop 2 lsa))) =? 0.

(** ** The LSA header *)

(** [routing/ospf/database/LSDB.hpp:84-99] LsaHeader *)
Record LsaHeader := mkLsaHeader { sequence : Z; checksum : Z; hlength : Z; age : Z; options : Z }.

(** [routing/ospf/database/LsaKey.hpp:69-97] LsaKey *)
Record LsaKey := mkLsaKey { lsaType : Z; linkStateId : Z; advertisingRouter : Z }.

#[export] Instance LsaHeader_eq_dec : EqDecision LsaHeader.
Proof. solve_decision. Defined.
#[export] Instance LsaKey_eq_dec : EqDecision LsaKey.
Proof. solve_decision. Defined.
#[export] Instance LsaKey_countable : Countable LsaKey.
Proof.
  apply (inj_countable' (fun k => (lsaType k, linkStateId k, advertisingRouter k))
    (fun t => mkLsaKey t.1.1 t.1.2 t.2)). by intros [].
Defined.

(** [packet/headers/embedded/ospf/Ospfv2LSAHeader.hpp:145-160] Ospfv2LSAHeader: its setters, in the
    order the builders call them, on the header at offset [o] *)
Definition Ospfv2LSAHeader_set (p : bytes) (o : nat) (key : LsaKey) (h : LsaHeader) : outcome bytes :=
  p ← write_at writeU16 p o (age h);
  p ← wr p (o + 2) (options h);
  p ← wr p (o + 3) (u8 (lsaType key));
  p ← write_at writeU32 p (o + 4) (linkStateId key);
  p ← write_at writeU32 p (o + 8) (advertisingRouter key);
  p ← write_at writeU32 p (o + 12) (sequence h);
  p ← write_at writeU16 p (o + 16) (checksum h);
  write_at writeU16 p (o + 18) (hlength h).

(** [routing/ospf/ospfv2/transmission/RxV2.cpp:462-473] processLSUpdate: the key and the header an
    arriving LSA carries at offset [o] *)
Definition readLsaHeader (p : bytes) (o : nat) : outcome (LsaKey * LsaHeader) :=
  ty ← rd p (o + 3); id ← readU32 (drop (o + 4) p); adv ← readU32 (drop (o + 8) p);
  seq ← readU32 (drop (o + 12) p); cs ← readU16 (drop (o + 16) p); len ← readU16 (drop (o + 18) p);
  ag ← readU16 (drop o p); opt ← rd p (o + 2);
  Ret (mkLsaKey ty id adv, mkLsaHeader seq cs len ag opt).

(** ** The network LSA body *)

(** [routing/ospf/ospfv2/database/NetworkLsaV2.hpp:33-36] NetworkLsaV2 *)
Record NetworkLsaV2 := mkNetworkLsa { networkMask : Z; attachedRouters : list Z }.

(** [routing/ospf/ospfv2/database/NetworkLsaV2.hpp:44-64] NetworkLsaV2::build *)
Fixpoint build_routers (fuel : nat) (buf : bytes) (len offset : nat) : outcome (list Z) :=
  match fuel with
  | O => Ret []
  | S fuel =>
      if (offset + 4 <=? len)%nat then
        rid ← readU32 (drop offset buf);
        rest ← build_routers fuel buf len (offset + 4);
        Ret (rid :: rest)
      else Ret []
  end.

(** [routing/ospf/ospfv2/database/NetworkLsaV2.hpp:44-64] NetworkLsaV2::build, with its loop above *)
Definition NetworkLsa_build (buf : bytes) (len : nat) : outcome (option NetworkLsaV2) :=
  if (len <? 4)%nat then Ret None
  else
    m ← readU32 buf;
    if negb ((len - 4) mod 4 =? 0)%nat then Ret None
    else rs ← build_routers len buf len 4; Ret (Some (mkNetworkLsa m rs)).

(** [routing/ospf/ospfv2/database/NetworkLsaV2.hpp:72-85] NetworkLsaV2::buildBody *)
Fixpoint write_routers (p : bytes) (off : nat) (rs : list Z) : outcome bytes :=
  match rs with
  | [] => Ret p
  | r :: rs => p ← write_at writeU32 p off r; write_routers p (off + 4) rs
  end.

(** [routing/ospf/ospfv2/database/NetworkLsaV2.hpp:72-85] NetworkLsaV2::buildBody, with its loop above *)
Definition NetworkLsa_buildBody (l : NetworkLsaV2) (p : bytes) (o len : nat) : outcome (bool * bytes) :=
  if negb (length (attachedRouters l) * 4 + 4 =? len)%nat then Ret (false, p)
  else
    p ← write_at writeU32 p o (networkMask l);
    p ← write_routers p (o + 4) (attachedRouters l);
    Ret (true, p).

(** [routing/ospf/ospfv2/database/NetworkLsaV2.hpp:91-94] NetworkLsaV2::size *)
Definition NetworkLsa_size (l : NetworkLsaV2) : Z := u16 (4 + 4 * Z.of_nat (length (attachedRouters l))).

(** [routing/ospf/ospfv2/database/NetworkLsaV2.hpp:100-105] NetworkLsaV2::appendChecksum *)
Definition NetworkLsa_appendChecksum (l : NetworkLsaV2) (f : ChecksumFletcher) : ChecksumFletcher :=
  fold_left addU32 (attachedRouters l) (addU32 f (networkMask l)).

(** ** Origination and transmission *)

(** [routing/ospf/area/Area.h:82-111] runLsaCalculations, PolicyV2: the size and the checksum of an
    LSA with a network body *)
Definition runLsaCalculations (hdr : LsaHeader) (key : LsaKey) (body : NetworkLsaV2) : Z * Z :=
  let size := u16 (20 + NetworkLsa_size body) in
  let check := add Fletcher_new (options hdr) in
  let check := addU16 check (lsaType key) in
  let check := addU32 check (linkStateId key) in
  let check := addU32 check (advertisingRouter key) in
  let check := addU32 check (sequence hdr) in
  let check := addU16 check size in
  (size, finalize (NetworkLsa_appendChecksum body check)).

(** [routing/ospf/OspfTypes.hpp:14-14] OSPF_MAX_AGE *)
Definition OSPF_MAX_AGE : Z := 3600.

(** [routing/ospf/transmission/PacketDispatcher.cpp:20-43] PacketDispatcher::calculateAge: [elapsed]
    is the seconds since the last refresh, [delay] the configured transmit delay *)
Definition calculateAge (floodReduction : bool) (h : LsaHeader) (elapsed delay : Z) : Z :=
  let dna := negb (Z.land (age h) 0x8000 =? 0) in
  let a := Z.land (age h) 0x7FFF in
  let a := if dna then a else u32 (Z.land (age h) 0x7FFF + u16 elapsed) in
  let a := u32 (a + delay) in
  let a := if OSPF_MAX_AGE <? a then OSPF_MAX_AGE else a in
  let dnaOut := negb (a =? 3600) && floodReduction in
  Z.lor (u16 a) (if dnaOut then 0x8000 else 0).

(** [routing/ospf/transmission/PacketDispatcher.h:237-250] OspfBuilder: [buf] is the memory from the
    builder's base pointer on. *)
Record OspfBuilder := mkBuilder { buf : bytes; offset : nat; maxSize : nat }.

(** [routing/ospf/transmission/PacketDispatcher.h:245-246] OspfBuilder::hasRoom *)
Definition hasRoom (b : OspfBuilder) (s : nat) : bool := (offset b + s <=? maxSize b)%nat.

(** [routing/ospf/ospfv2/transmission/TxV2.cpp:371-394] PacketDispatcherV2::buildLSAHeader: the
    header is set through [getBuf()], read after the offset has moved past the reserved room *)
Definition buildLSAHeader (b : OspfBuilder) (key : LsaKey) (h : LsaHeader) (body : NetworkLsaV2) (ag : Z)
    : outcome (bool * OspfBuilder) :=
  if negb (hasRoom b 20) then Ret (false, b)
  else
    let o := (offset b + 20)%nat in
    let calcs := runLsaCalculations h key body in
    p ← Ospfv2LSAHeader_set (buf b) o key (mkLsaHeader (sequence h) calcs.2 calcs.1 ag (options h));
    Ret (true, mkBuilder p o (maxSize b)).

(** [routing/ospf/ospfv2/transmission/TxV2.cpp:396-415] PacketDispatcherV2::buildCopyLSAHeader *)
Definition buildCopyLSAHeader (b : OspfBuilder) (key : LsaKey) (h : LsaHeader) : outcome (bool * OspfBuilder) :=
  if negb (hasRoom b 20) then Ret (false, b)
  else
    let o := (offset b + 20)%nat in
    p ← Ospfv2LSAHeader_set (buf b) o key h;
    Ret (true, mkBuilder p o (maxSize b)).

(** [routing/ospf/ospfv2/transmission/TxV2.cpp:545-589] PacketDispatcherV2::buildLSABody, for a record
    that holds a network LSA: any other type than OSPFV2_LSA_NETWORK is refused *)
Definition buildLSABody (b : OspfBuilder) (h : LsaHeader) (body : NetworkLsaV2) (type : Z) : outcome (bool * OspfBuilder) :=
  let len := Z.to_nat (u16 (hlength h - 20)) in
  if type =? 2 then
    w ← NetworkLsa_buildBody body (buf b) (offset b) len;
    Ret (w.1, mkBuilder w.2 (offset b) (maxSize b))
  else Ret (false, b).

(** [routing/ospf/ospfv2/transmission/TxV2.cpp:474-480] PacketDispatcherV2::addLSUpdates: one LSA of
    the list, a network LSA; [true] when it counts as sent *)
Definition addLSUpdate (b : OspfBuilder) (key : LsaKey) (h : LsaHeader) (body : NetworkLsaV2) (ag : Z)
    : outcome (bool * OspfBuilder) :=
  if negb (hasRoom b (Z.to_nat (hlength h))) then Ret (false, b)
  else
    r ← buildLSAHeader b key h body ag;
    if negb r.1 then Ret (false, r.2)
    else
      w ← buildLSABody r.2 h body (u8 (lsaType key));
      if negb w.1 then Ret (false, w.2)
      else Ret (true, mkBuilder (buf w.2) (Z.to_nat (Z.of_nat (offset w.2) + (hlength h - 20))) (maxSize w.2)).

(** ** The Fletcher sums *)

(** The sums of the bytes and of the running sums, unreduced. *)
Fixpoint sums (l : bytes) (a b : Z) : Z * Z :=
  match l with
  | [] => (a, b)
  | x :: l => sums l (a + x) (b + (a + x))
  end.

Definition reduced (f : ChecksumFletcher) : Prop := 0 <= c0 f < 255 /\ 0 <= c1 f < 255.

Lemma add_spec f x :
  reduced f -> in_width 8 x ->
  reduced (add f x) /\ c0 (add f x) = (c0 f + x) mod 255 /\ c1 (add f x) = (c1 f + (c0 f + x)) mod 255.
Proof.
  intros [H0 H1] [Hx1 Hx2]. unfold add. cbn zeta. rewrite (wrap_small 16 (c0 f + x)) by (split; lia).
  set (s := if 255 <=? c0 f + x then u16 (c0 f + x - 255) else c0 f + x).
  assert (Hs : s = (c0 f + x) mod 255 /\ 0 <= s < 255).
  { unfold s. destruct (Z.leb_spec 255 (c0 f + x)).
    - rewrite wrap_small by (split; lia).
      rewrite <- (Z.mod_add (c0 f + x) (-1)), (Z.mod_small) by lia. lia.
    - rewrite Z.mod_small by lia. lia. }
  destruct Hs as [Hs Hsr]. rewrite (wrap_small 16 (c1 f + s)) by (split; lia).
  set (t := if 255 <=? c1 f + s then u16 (c1 f + s - 255) else c1 f + s).
  assert (Ht : t = (c1 f + s) mod 255 /\ 0 <= t < 255).
  { unfold t. destruct (Z.leb_spec 255 (c1 f + s)).
    - rewrite wrap_small by (split; lia).
      rewrite <- (Z.mod_add (c1 f + s) (-1)), (Z.mod_small) by lia. lia.
    - rewrite Z.mod_small by lia. lia. }
  destruct Ht as [Ht Htr]. unfold reduced. cbn [c0 c1]. split; [split; lia|]. split; [done|].
  rewrite Ht, Hs. apply Zplus_mod_idemp_r.
Qed.

Lemma addBytes_sums l f a b :
  reduced f -> is_bytes l -> c0 f = a mod 255 -> c1 f = b mod 255 ->
  reduced (addBytes f l) /\
  c0 (addBytes f l) = (sums l a b).1 mod 255 /\ c1 (addBytes f l) = (sums l a b).2 mod 255.
Proof.
  revert f a b. induction l as [|x l IH]; intros f a b Hr Hb Ha Hc; [done|].
  apply Forall_cons in Hb as [Hx Hb]. destruct (add_spec f x Hr Hx) as (Hr' & H0 & H1).
  cbn [addBytes fold_left sums]. apply (IH (add f x)); try done.
  - rewrite H0, Ha. apply Zplus_mod_idemp_l.
  - rewrite H1, Ha, Hc. rewrite Zplus_mod_idemp_l.
    replace (b + (a mod 255 + x)) with (a mod 255 + (b + x)) by lia. rewrite Zplus_mod_idemp_l. f_equal. lia.
Qed.

Lemma sums_fst l a b : (sums l a b).1 = a + foldr Z.add 0 l.
Proof. revert a b. induction l as [|x l IH]; intros a b; cbn; [lia|]. rewrite IH. lia. Qed.

Lemma reduced_new : reduced Fletcher_new.
Proof. split; cbn; lia. Qed.

(** The first sum of a run over bytes. *)
Lemma addBytes_c0 l : is_bytes l -> c0 (addBytes Fletcher_new l) = foldr Z.add 0 l mod 255.
Proof.
  intros Hb. destruct (addBytes_sums l Fletcher_new 0 0 reduced_new Hb eq_refl eq_refl) as (_ & H & _).
  rewrite H, sums_fst, Z.add_0_l. done.
Qed.

Lemma addBytes_app f l l' : addBytes f (l ++ l') = addBytes (addBytes f l) l'.
Proof. apply fold_left_app. Qed.

Lemma addBytes_reduced f l : reduced f -> is_bytes l -> reduced (addBytes f l).
Proof.
  revert f. induction l as [|x l IH]; intros f Hf Hb; [done|]. apply Forall_cons in Hb as [Hx Hb].
  apply IH; [apply add_spec|]; done.
Qed.

Lemma finalize_zero f : reduced f -> finalize f = 0 <-> c0 f = 0 /\ c1 f = 0.
Proof.
  intros [H0 H1]. unfold finalize. rewrite lor_shiftl_add by (lia || (split; lia)). change (2 ^ 8) with 256.
  rewrite wrap_small by (split; lia). lia.
Qed.

Lemma add_congruent f x y : reduced f -> in_width 8 x -> in_width 8 y -> x mod 255 = y mod 255 -> add f x = add f y.
Proof.
  intros Hf Hx Hy He. destruct (add_spec f x Hf Hx) as (_ & Hx0 & Hx1). destruct (add_spec f y Hf Hy) as (_ & Hy0 & Hy1).
  destruct (add f x) as [a b], (add f y) as [a' b']. cbn [c0 c1] in *. subst. f_equal.
  - rewrite Z.add_mod, He, <- Z.add_mod by lia. done.
  - rewrite Z.add_assoc, Z.add_mod, He, <- Z.add_mod, <- Z.add_assoc by lia. done.
Qed.

Lemma foldr_add_app l l' : foldr Z.add 0 (l ++ l') = foldr Z.add 0 l + foldr Z.add 0 l'.
Proof. induction l as [|x l IH]; cbn; [done|]. rewrite IH. lia. Qed.

(** Changing one byte of an LSA that verifies makes it fail, unless the two
    values agree modulo 255 (0 and 255). *)
Theorem fletcher_detects_change lsa len i b b' :
  is_bytes lsa -> in_width 8 b' -> lsa !! i = Some b -> (2 <= i < len)%nat -> (len <= length lsa)%nat ->
  verifyOspfFletcher lsa len = true ->
  verifyOspfFletcher (<[i := b']> lsa) len = true <-> b' mod 255 = b mod 255.
Proof.
  intros Hb Hb' Hi Hr Hl. unfold verifyOspfFletcher. destruct (Nat.ltb_spec len 20); [done|]. intros Hv.
  assert (Hsplit : forall z, take (len - 2) (drop 2 (<[i := z]> lsa)) =
    take (i - 2) (drop 2 lsa) ++ z :: take (len - 1 - i) (drop (S i) lsa)).
  { intros z. rewrite insert_take_drop by lia.
    rewrite drop_app_le by (rewrite length_take; lia). rewrite take_app_ge by (rewrite length_drop, length_take; lia).
    rewrite length_drop, length_take, Nat.min_l by lia. f_equal; [rewrite take_drop_commute; do 2 f_equal; lia|].
    replace (len - 2 - (i - 2))%nat with (S (len - 1 - i)) by lia. done. }
  rewrite Hsplit. rewrite <- (list_insert_id lsa i b Hi) in Hv. rewrite Hsplit in Hv. rewrite !addBytes_app in *.
  set (p := take (i - 2) (drop 2 lsa)) in *. set (q := take (len - 1 - i) (drop (S i) lsa)) in *.
  assert (Hp : is_bytes p) by (apply Forall_take, Forall_drop; done).
  assert (Hq : is_bytes q) by (apply Forall_take, Forall_drop; done).
  assert (Hbb : in_width 8 b) by exact (Forall_lookup_1 _ _ _ _ Hb Hi).
  rewrite <- !addBytes_app in *. apply Z.eqb_eq, finalize_zero in Hv as [Hv0 Hv1];
    [|apply addBytes_reduced; [apply reduced_new | apply Forall_app; split; [done|constructor; done]]].
  assert (Hall : forall z, in_width 8 z -> is_bytes (p ++ z :: q)) by (intros; apply Forall_app; split; [done|constructor; done]).
  split.
  - intros Hv'. apply Z.eqb_eq, finalize_zero in Hv' as [Hv0' _]; [|apply addBytes_reduced; [apply reduced_new|auto]].
    rewrite addBytes_c0, foldr_add_app in Hv0, Hv0' by auto. cbn [foldr] in *.
    assert (Hd : (b' - b) mod 255 = 0); [|].
    { replace (b' - b) with ((foldr Z.add 0 p + (b' + foldr Z.add 0 q)) - (foldr Z.add 0 p + (b + foldr Z.add 0 q))) by lia.
      rewrite Zminus_mod, Hv0, Hv0'. done. }
    replace b' with (b + (b' - b)) by lia. rewrite Z.add_mod, Hd, Z.add_0_r, Z.mod_mod by lia. done.
  - intros He. rewrite addBytes_app in *. cbn [addBytes fold_left] in *.
    rewrite (add_congruent _ b' b); try done; [|apply addBytes_reduced; [apply reduced_new|done]].
    apply Z.eqb_eq, finalize_zero; [|done].
    apply (addBytes_reduced (add (addBytes Fletcher_new p) b) q); [|done].
    apply add_spec; [|done]. apply addBytes_reduced; [apply reduced_new|done].
Qed.

(** ** Writing and reading fields in sequence *)

Lemma write_at_app n w a t v :
  (forall dest, (n <= length dest)%nat -> w dest v = Ret (be_encode n v ++ drop n dest)) ->
  (n <= length t)%nat -> write_at w (a ++ t) (length a) v = Ret ((a ++ be_encode n v) ++ drop n t).
Proof.
  intros Hw Hl. unfold write_at. rewrite drop_app_length, take_app_length, Hw by done.
  rewrite outcome_bind_ret_l, app_assoc. done.
Qed.

Lemma write16_app a t v : (2 <= length t)%nat ->
  write_at writeU16 (a ++ t) (length a) v = Ret ((a ++ be_encode 2 v) ++ drop 2 t).
Proof. apply write_at_app. intros. apply writeU16_spec. done. Qed.

Lemma write32_app a t v : (4 <= length t)%nat ->
  write_at writeU32 (a ++ t) (length a) v = Ret ((a ++ be_encode 4 v) ++ drop 4 t).
Proof. apply write_at_app. intros. apply writeU32_spec. done. Qed.

Lemma wr_app a (t : bytes) b : (1 <= length t)%nat -> wr (a ++ t) (length a) b = Ret ((a ++ [b]) ++ drop 1 t).
Proof.
  intros Hl. destruct t as [|x t]; [cbn in Hl; lia|]. rewrite wr_ret by (rewrite length_app; cbn; lia).
  rewrite insert_app_r_alt, Nat.sub_diag by lia. rewrite <- app_assoc. done.
Qed.

(** The twenty bytes of a header. *)
Definition header_image (key : LsaKey) (h : LsaHeader) : bytes :=
  be_encode 2 (age h) ++ [options h; u8 (lsaType key)] ++ be_encode 4 (linkStateId key) ++
  be_encode 4 (advertisingRouter key) ++ be_encode 4 (sequence h) ++ be_encode 2 (checksum h) ++ be_encode 2 (hlength h).

Lemma header_image_length key h : length (header_image key h) = 20%nat.
Proof. unfold header_image. rewrite !length_app, !be_encode_length. done. Qed.

(** Performs the next write [w] of [n] bytes [enc] of a sequence of writes, by
    the lemma [lem]. *)
Ltac write_field step w n enc lem :=
  rewrite (step w n enc)
    by (first [intros; apply lem; done | rewrite ?length_app, ?be_encode_length, ?length_drop; cbn; lia]);
  rewrite ?outcome_bind_ret_l.

(** Writing a header replaces the twenty bytes at its offset. *)
Lemma Ospfv2LSAHeader_set_spec a t key h :
  (20 <= length t)%nat ->
  Ospfv2LSAHeader_set (a ++ t) (length a) key h = Ret (a ++ header_image key h ++ drop 20 t).
Proof.
  intros Hl. unfold Ospfv2LSAHeader_set.
  assert (Hstep : forall (w : bytes -> nat -> Z -> outcome bytes) n enc v k a' t',
    (forall a t, (n <= length t)%nat -> w (a ++ t) (length a) v = Ret ((a ++ enc) ++ drop n t)) ->
    length a' = (length a + k)%nat -> (n <= length t')%nat ->
    w (a' ++ t') (length a + k)%nat v = Ret ((a' ++ enc) ++ drop n t')).
  { intros w n enc v k a' t' Hw Ha Ht. rewrite <- Ha. apply Hw. done. }
  rewrite write16_app, outcome_bind_ret_l by lia.
  write_field Hstep wr 1%nat [options h] wr_app.
  write_field Hstep wr 1%nat [u8 (lsaType key)] wr_app.
  write_field Hstep (write_at writeU32) 4%nat (be_encode 4 (linkStateId key)) write32_app.
  write_field Hstep (write_at writeU32) 4%nat (be_encode 4 (advertisingRouter key)) write32_app.
  write_field Hstep (write_at writeU32) 4%nat (be_encode 4 (sequence h)) write32_app.
  write_field Hstep (write_at writeU16) 2%nat (be_encode 2 (checksum h)) write16_app.
  write_field Hstep (write_at writeU16) 2%nat (be_encode 2 (hlength h)) write16_app.
  unfold header_image. rewrite !drop_drop, <- !app_assoc. done.
Qed.

Lemma read16_app a v t : in_width 16 v -> readU16 (drop (length a) (a ++ be_encode 2 v ++ t)) = Ret v.
Proof.
  intros Hv. rewrite drop_app_length. pose proof (be_decode_encode 2 v) as Hd. rewrite wrap_small in Hd by done.
  destruct (be_encode 2 v) as [|x [|y [|]]] eqn:E; try done. pose proof (be_encode_bytes 2 v) as Hb. rewrite E in Hb.
  assert (Hr : readU16 [x; y] = Ret (be_decode [x; y])) by (apply (readU16_spec [x; y]); [done | cbn; lia]).
  rewrite <- Hd, <- Hr. done.
Qed.

Lemma read32_app a v t : in_width 32 v -> readU32 (drop (length a) (a ++ be_encode 4 v ++ t)) = Ret v.
Proof.
  intros Hv. rewrite drop_app_length. pose proof (be_decode_encode 4 v) as Hd. rewrite wrap_small in Hd by done.
  destruct (be_encode 4 v) as [|x [|y [|z [|w [|]]]]] eqn:E; try done.
  pose proof (be_encode_bytes 4 v) as Hb. rewrite E in Hb.
  assert (Hr : readU32 [x; y; z; w] = Ret (be_decode [x; y; z; w])) by (apply (readU32_spec [x; y; z; w]); [done | cbn; lia]).
  rewrite <- Hd, <- Hr. done.
Qed.

(** The fields of a header and of its key fit their widths on the wire. *)
Definition wire_header (key : LsaKey) (h : LsaHeader) : Prop :=
  in_width 8 (lsaType key) /\ in_width 32 (linkStateId key) /\ in_width 32 (advertisingRouter key) /\
  in_width 32 (sequence h) /\ in_width 16 (checksum h) /\ in_width 16 (hlength h) /\ in_width 16 (age h) /\
  in_width 8 (options h).

#[export] Instance wire_header_dec key h : Decision (wire_header key h).
Proof. unfold wire_header. apply _. Defined.

(** Reads the field [v] that follows [a], with [tac] the reading lemma. *)
Lemma read_at16 p a v t o : p = a ++ be_encode 2 v ++ t -> o = length a -> in_width 16 v -> readU16 (drop o p) = Ret v.
Proof. intros -> -> ?. apply read16_app. done. Qed.
Lemma read_at32 p a v t o : p = a ++ be_encode 4 v ++ t -> o = length a -> in_width 32 v -> readU32 (drop o p) = Ret v.
Proof. intros -> -> ?. apply read32_app. done. Qed.

Ltac field_at := rewrite ?length_app, ?be_encode_length; cbn; lia.

(** Proves a field's value with [lem], the buffer being its image around the
    field. *)
Ltac field_of lem :=
  eapply lem; [repeat match goal with x := _ : bytes |- _ => subst x end; unfold header_image; rewrite <- ?app_assoc; cbn [app]; reflexivity | lia | done].

Lemma readLsaHeader_image a key h t :
  wire_header key h -> readLsaHeader (a ++ header_image key h ++ t) (length a) = Ret (key, h).
Proof.
  intros (Hty & Hid & Hadv & Hseq & Hcs & Hlen & Hage & Hopt). unfold readLsaHeader.
  set (p := a ++ header_image key h ++ t).
  set (a2 := a ++ be_encode 2 (age h)). set (a4 := a2 ++ [options h; u8 (lsaType key)]).
  set (a8 := a4 ++ be_encode 4 (linkStateId key)). set (a12 := a8 ++ be_encode 4 (advertisingRouter key)).
  set (a16 := a12 ++ be_encode 4 (sequence h)). set (a18 := a16 ++ be_encode 2 (checksum h)).
  assert (L2 : length a2 = (length a + 2)%nat) by (unfold a2; field_at).
  assert (L4 : length a4 = (length a + 4)%nat) by (unfold a4, a2; field_at).
  assert (L8 : length a8 = (length a + 8)%nat) by (unfold a8, a4, a2; field_at).
  assert (L12 : length a12 = (length a + 12)%nat) by (unfold a12, a8, a4, a2; field_at).
  assert (L16 : length a16 = (length a + 16)%nat) by (unfold a16, a12, a8, a4, a2; field_at).
  assert (L18 : length a18 = (length a + 18)%nat) by (unfold a18, a16, a12, a8, a4, a2; field_at).
  assert (Hrest : exists r, p = a2 ++ options h :: u8 (lsaType key) :: r).
  { eexists. unfold p, header_image, a2. rewrite <- !app_assoc. reflexivity. }
  destruct Hrest as [r Hrest].
  assert (Hopt' : rd p (length a + 2) = Ret (options h)).
  { unfold rd. rewrite Hrest, <- L2, lookup_app_r, Nat.sub_diag by lia. done. }
  assert (Hty' : rd p (length a + 3) = Ret (lsaType key)).
  { unfold rd. rewrite Hrest, lookup_app_r by lia. replace (length a + 3 - length a2)%nat with 1%nat by lia.
    cbn. f_equal. apply wrap_small. done. }
  assert (Hid' : readU32 (drop (length a + 4) p) = Ret (linkStateId key)) by field_of (read_at32 p a4).
  assert (Hadv' : readU32 (drop (length a + 8) p) = Ret (advertisingRouter key)) by field_of (read_at32 p a8).
  assert (Hseq' : readU32 (drop (length a + 12) p) = Ret (sequence h)) by field_of (read_at32 p a12).
  assert (Hcs' : readU16 (drop (length a + 16) p) = Ret (checksum h)) by field_of (read_at16 p a16).
  assert (Hlen' : readU16 (drop (length a + 18) p) = Ret (hlength h)) by field_of (read_at16 p a18).
  assert (Hage' : readU16 (drop (length a) p) = Ret (age h)) by field_of (read_at16 p a).
  rewrite Hty', outcome_bind_ret_l, Hid', outcome_bind_ret_l, Hadv', outcome_bind_ret_l, Hseq', outcome_bind_ret_l,
    Hcs', outcome_bind_ret_l, Hlen', outcome_bind_ret_l, Hage', outcome_bind_ret_l, Hopt', outcome_bind_ret_l.
  destruct key, h. done.
Qed.

(** ** Network LSA bodies *)

Definition encode_routers (rs : list Z) : bytes := concat (be_encode 4 <$> rs).
Definition body_image (l : NetworkLsaV2) : bytes := be_encode 4 (networkMask l) ++ encode_routers (attachedRouters l).

Lemma encode_routers_cons r rs : encode_routers (r :: rs) = be_encode 4 r ++ encode_routers rs.
Proof. reflexivity. Qed.

Lemma encode_routers_length rs : length (encode_routers rs) = (4 * length rs)%nat.
Proof. induction rs as [|r rs IH]; [done|]. rewrite encode_routers_cons, length_app, be_encode_length, IH. cbn. lia. Qed.

Lemma body_image_length l : length (body_image l) = (4 * length (attachedRouters l) + 4)%nat.
Proof. unfold body_image. rewrite length_app, be_encode_length, encode_routers_length. lia. Qed.

Lemma encode_routers_bytes rs : is_bytes (encode_routers rs).
Proof.
  induction rs as [|r rs IH]; [constructor|]. rewrite encode_routers_cons.
  apply Forall_app. split; [apply be_encode_bytes | done].
Qed.

Lemma body_image_bytes l : is_bytes (body_image l).
Proof. apply Forall_app. split; [apply be_encode_bytes | apply encode_routers_bytes]. Qed.

Lemma write_routers_spec rs : forall a t o,
  o = length a -> (4 * length rs <= length t)%nat ->
  write_routers (a ++ t) o rs = Ret (a ++ encode_routers rs ++ drop (4 * length rs) t).
Proof.
  induction rs as [|r rs IH]; intros a t o -> Hl.
  - cbn [write_routers]. change (4 * length [])%nat with 0%nat. rewrite drop_0. done.
  - cbn [write_routers length] in *. rewrite write32_app, outcome_bind_ret_l by lia.
    rewrite IH by (rewrite ?length_app, ?be_encode_length, ?length_drop; lia).
    rewrite drop_drop, <- !app_assoc. rewrite encode_routers_cons, <- app_assoc. do 5 f_equal. lia.
Qed.

Lemma NetworkLsa_buildBody_spec l a t :
  (4 * length (attachedRouters l) + 4 <= length t)%nat ->
  NetworkLsa_buildBody l (a ++ t) (length a) (length (attachedRouters l) * 4 + 4)
  = Ret (true, a ++ body_image l ++ drop (4 * length (attachedRouters l) + 4) t).
Proof.
  intros Hl. unfold NetworkLsa_buildBody. rewrite Nat.eqb_refl. cbn [negb].
  rewrite write32_app, outcome_bind_ret_l by lia.
  rewrite write_routers_spec, outcome_bind_ret_l by (rewrite ?length_app, ?be_encode_length, ?length_drop; lia).
  rewrite drop_drop, <- !app_assoc. unfold body_image. rewrite <- !app_assoc. do 4 f_equal. rewrite Nat.add_comm. done.
Qed.

Lemma build_routers_spec rs : forall fuel a t len,
  Forall (in_width 32) rs -> len = (length a + 4 * length rs)%nat -> (length rs < fuel)%nat ->
  build_routers fuel (a ++ encode_routers rs ++ t) len (length a) = Ret rs.
Proof.
  induction rs as [|r rs IH]; intros fuel a t len Hw -> Hf; destruct fuel as [|fuel]; cbn [length] in Hf; try lia.
  - cbn [build_routers]. rewrite (proj2 (Nat.leb_gt _ _)) by (cbn; lia). done.
  - apply Forall_cons in Hw as [Hr Hw]. cbn [build_routers]. rewrite (proj2 (Nat.leb_le _ _)) by (cbn; lia).
    rewrite encode_routers_cons, <- app_assoc, read32_app, outcome_bind_ret_l by done. rewrite app_assoc.
    replace (length a + 4)%nat with (length (a ++ be_encode 4 r)) by (rewrite length_app, be_encode_length; lia).
    rewrite IH; [done | done | rewrite length_app, be_encode_length; cbn; lia | lia].
Qed.

Lemma NetworkLsa_build_image l t :
  in_width 32 (networkMask l) -> Forall (in_width 32) (attachedRouters l) ->
  NetworkLsa_build (body_image l ++ t) (length (attachedRouters l) * 4 + 4) = Ret (Some l).
Proof.
  intros Hm Hr. unfold NetworkLsa_build. rewrite (proj2 (Nat.ltb_ge _ _)) by lia.
  unfold body_image. rewrite <- app_assoc.
  pose proof (read32_app [] (networkMask l) (encode_routers (attachedRouters l) ++ t) Hm) as Hread.
  cbn [app length] in Hread. rewrite drop_0 in Hread. rewrite Hread, outcome_bind_ret_l.
  replace (length (attachedRouters l) * 4 + 4 - 4)%nat with (length (attachedRouters l) * 4)%nat by lia.
  rewrite Nat.Div0.mod_mul. cbn [Nat.eqb negb].
  pose proof (build_routers_spec (attachedRouters l) (length (attachedRouters l) * 4 + 4) (be_encode 4 (networkMask l)) t
    (length (attachedRouters l) * 4 + 4)) as Hb.
  rewrite be_encode_length in Hb. rewrite Hb; [destruct l; done | done | lia | lia].
Qed.

(** A header and a network body written to a buffer read back as they were, and
    nothing else in the buffer changes. *)
Theorem network_lsa_roundtrip (pre post : bytes) (key : LsaKey) (h : LsaHeader) (l : NetworkLsaV2) :
  wire_header key h -> in_width 32 (networkMask l) -> Forall (in_width 32) (attachedRouters l) ->
  (20 + (4 * length (attachedRouters l) + 4) <= length post)%nat ->
  let n := (length (attachedRouters l) * 4 + 4)%nat in
  exists p1 p2, Ospfv2LSAHeader_set (pre ++ post) (length pre) key h = Ret p1 /\
    NetworkLsa_buildBody l p1 (length pre + 20) n = Ret (true, p2) /\
    readLsaHeader p2 (length pre) = Ret (key, h) /\
    NetworkLsa_build (drop (length pre + 20) p2) n = Ret (Some l) /\
    length p2 = length (pre ++ post) /\ take (length pre) p2 = pre /\
    drop (length pre + 20 + n) p2 = drop (20 + n) post.
Proof.
  intros Hh Hm Hr Hl n. eexists _, _. rewrite Ospfv2LSAHeader_set_spec by lia. split; [reflexivity|].
  rewrite app_assoc. pose proof (header_image_length key h) as Hlh.
  assert (Ho : (length pre + 20)%nat = length (pre ++ header_image key h)) by (rewrite length_app; lia).
  rewrite Ho. unfold n. rewrite NetworkLsa_buildBody_spec by (rewrite length_drop; lia). split; [reflexivity|].
  rewrite <- app_assoc, readLsaHeader_image by done. split; [done|].
  rewrite app_assoc, drop_app_length, NetworkLsa_build_image by done. split; [done|].
  pose proof (body_image_length l) as Hlb. split; [|split].
  - rewrite !length_app, !length_drop. lia.
  - rewrite <- app_assoc, take_app_length. done.
  - rewrite app_assoc. rewrite drop_app_ge by (rewrite !length_app; lia). rewrite !drop_drop, !length_app. f_equal. lia.
Qed.

Lemma network_lsa_roundtrip_witness :
  exists p1 p2, Ospfv2LSAHeader_set (repeat 0 4 ++ repeat 0 40) (length (repeat 0 4))
      (mkLsaKey 2 5 6) (mkLsaHeader 0x80000001 0xBEEF 32 1 2) = Ret p1 /\
    NetworkLsa_buildBody (mkNetworkLsa 0xFFFFFF00 [7; 8]) p1 (length (repeat 0 4) + 20) (length [7; 8] * 4 + 4) = Ret (true, p2) /\
    readLsaHeader p2 (length (repeat 0 4)) = Ret (mkLsaKey 2 5 6, mkLsaHeader 0x80000001 0xBEEF 32 1 2) /\
    NetworkLsa_build (drop (length (repeat 0 4) + 20) p2) (length [7; 8] * 4 + 4)
      = Ret (Some (mkNetworkLsa 0xFFFFFF00 [7; 8])) /\
    length p2 = length (repeat 0 4 ++ repeat 0 40) /\ take (length (repeat 0 4)) p2 = repeat 0 4 /\
    drop (length (repeat 0 4) + 20 + (length [7; 8] * 4 + 4)) p2 = drop (20 + (length [7; 8] * 4 + 4)) (repeat 0 40).
Proof.
  apply (network_lsa_roundtrip (repeat 0 4) (repeat 0 40) (mkLsaKey 2 5 6)
    (mkLsaHeader 0x80000001 0xBEEF 32 1 2) (mkNetworkLsa 0xFFFFFF00 [7; 8])).
  - apply (bool_decide_unpack _). vm_compute. exact I.
  - apply (bool_decide_unpack _). vm_compute. exact I.
  - apply (bool_decide_unpack _). vm_compute. exact I.
  - cbn. lia.
Defined.

(** ** LSAs in an update *)

(** A network LSA put into an update leaves the twenty bytes reserved for its
    header as they were: the header is written after them and the body over
    it. *)
Theorem lsupdate_header_misplaced b key h l ag :
  lsaType key = 2 ->
  hlength h = 20 + (4 * Z.of_nat (length (attachedRouters l)) + 4) -> in_width 16 (hlength h) ->
  hasRoom b (Z.to_nat (hlength h)) = true -> (offset b + Z.to_nat (hlength h) + 20 <= length (buf b))%nat ->
  exists b', addLSUpdate b key h l ag = Ret (true, b') /\
    offset b' = (offset b + Z.to_nat (hlength h))%nat /\
    take (offset b + 20) (buf b') = take (offset b + 20) (buf b) /\
    take (length (body_image l)) (drop (offset b + 20) (buf b')) = body_image l.
Proof.
  intros Hty Hlen [_ Hw] Hroom Hmem. unfold addLSUpdate. rewrite Hroom. cbn [negb].
  assert (Hn : Z.to_nat (hlength h) = (20 + (4 * length (attachedRouters l) + 4))%nat) by lia.
  unfold hasRoom in Hroom. apply Nat.leb_le in Hroom. unfold buildLSAHeader, hasRoom.
  rewrite (proj2 (Nat.leb_le _ _)) by lia. cbn [negb].
  set (A := take (offset b + 20) (buf b)). set (T := drop (offset b + 20) (buf b)).
  assert (HA : (offset b + 20)%nat = length A) by (unfold A; rewrite length_take; lia).
  assert (HT : (4 * length (attachedRouters l) + 4 + 20 <= length T)%nat) by (unfold T; rewrite length_drop; lia).
  rewrite <- (take_drop (offset b + 20) (buf b)). fold A T. rewrite HA.
  rewrite Ospfv2LSAHeader_set_spec, outcome_bind_ret_l by lia. cbn [fst snd negb buf offset maxSize].
  rewrite outcome_bind_ret_l. cbn [fst snd negb buf offset maxSize]. rewrite Hty. change (u8 2 =? 2) with true.
  unfold buildLSABody. cbn [buf offset maxSize]. rewrite (wrap_small 16) by (split; lia).
  replace (Z.to_nat (hlength h - 20)) with (length (attachedRouters l) * 4 + 4)%nat by lia.
  rewrite NetworkLsa_buildBody_spec by (rewrite length_app, header_image_length, length_drop; lia).
  rewrite !outcome_bind_ret_l. cbn [fst snd negb buf offset maxSize]. eexists. split; [reflexivity|]. cbn [offset buf snd].
  split; [lia|]. split; [apply take_app_length|]. rewrite drop_app_length. apply take_app_length.
Qed.

Definition sample_lsa : NetworkLsaV2 := mkNetworkLsa 0xFFFFFF00 [0x0A000001; 0x0A000002].
Definition sample_key : LsaKey := mkLsaKey 2 0xC0A80001 0x0A000001.
Definition sample_hdr : LsaHeader := mkLsaHeader 0x80000001 0 32 1 2.

Lemma lsupdate_header_misplaced_witness :
  exists b', addLSUpdate (mkBuilder (repeat 0 100) 2 60) sample_key sample_hdr sample_lsa 1 = Ret (true, b') /\
    offset b' = (2 + 32)%nat /\
    take (2 + 20) (buf b') = take (2 + 20) (repeat 0 100) /\
    take (length (body_image sample_lsa)) (drop (2 + 20) (buf b')) = body_image sample_lsa.
Proof.
  apply (lsupdate_header_misplaced (mkBuilder (repeat 0 100) 2 60) sample_key sample_hdr sample_lsa 1).
  - reflexivity.
  - reflexivity.
  - split; cbn; lia.
  - reflexivity.
  - cbn. lia.
Defined.

(** ** Origination checksums *)

Lemma u8_mod x : u8 x = Z.land x 255.
Proof. symmetry. apply land_255. Qed.

Lemma addU16_bytes f v : addU16 f v = addBytes f (be_encode 2 v).
Proof. unfold addU16. rewrite !u8_land_255. cbn [be_encode addBytes fold_left]. rewrite Z.shiftr_0_r. done. Qed.

Lemma addU32_bytes f v : addU32 f v = addBytes f (be_encode 4 v).
Proof.
  unfold addU32. rewrite !u8_land_255, u8_mod. cbn [be_encode addBytes fold_left]. rewrite Z.shiftr_0_r. done.
Qed.

Lemma appendChecksum_bytes l f : NetworkLsa_appendChecksum l f = addBytes f (body_image l).
Proof.
  unfold NetworkLsa_appendChecksum, body_image. rewrite addU32_bytes, addBytes_app.
  generalize (addBytes f (be_encode 4 (networkMask l))). induction (attachedRouters l) as [|r rs IH]; intros g; [done|].
  cbn [fold_left]. rewrite encode_routers_cons, addBytes_app, addU32_bytes, IH. done.
Qed.

(** The bytes the originator sums. *)
Definition origination_bytes (hdr : LsaHeader) (key : LsaKey) (body : NetworkLsaV2) (size : Z) : bytes :=
  [options hdr] ++ be_encode 2 (lsaType key) ++ be_encode 4 (linkStateId key) ++ be_encode 4 (advertisingRouter key) ++
  be_encode 4 (sequence hdr) ++ be_encode 2 size ++ body_image body.

Lemma runLsaCalculations_bytes hdr key body :
  let size := u16 (20 + NetworkLsa_size body) in
  runLsaCalculations hdr key body = (size, finalize (addBytes Fletcher_new (origination_bytes hdr key body size))).
Proof.
  cbn zeta. unfold runLsaCalculations, origination_bytes. rewrite appendChecksum_bytes, !addU16_bytes, !addU32_bytes.
  rewrite !addBytes_app. done.
Qed.

Lemma be_encode_small v : in_width 8 v -> be_encode 2 v = [0; v].
Proof.
  intros [Hv1 Hv2]. cbn [be_encode]. change (8 * Z.of_nat 1) with 8. change (8 * Z.of_nat 0) with 0.
  rewrite Z.shiftr_0_r, Z.shiftr_div_pow2, Z.div_small by lia. change (Z.land 0 255) with 0.
  rewrite land_255, Z.mod_small by lia. done.
Qed.

(** The LSA on the wire: its checksum and length as the originator computed
    them. *)
Definition originated (hdr : LsaHeader) (key : LsaKey) (body : NetworkLsaV2) : bytes :=
  let calcs := runLsaCalculations hdr key body in
  header_image key (mkLsaHeader (sequence hdr) calcs.2 calcs.1 (age hdr) (options hdr)) ++ body_image body.

(** The bytes the receiver sums are those the originator summed and the two
    checksum bytes. *)
Lemma originated_sum hdr key body :
  wire_header key hdr -> let calcs := runLsaCalculations hdr key body in
  is_bytes (drop 2 (originated hdr key body)) /\
  foldr Z.add 0 (drop 2 (originated hdr key body))
  = foldr Z.add 0 (origination_bytes hdr key body calcs.1) + foldr Z.add 0 (be_encode 2 calcs.2).
Proof.
  intros (Hty & Hid & Hadv & Hseq & Hcs & Hlen & Hage & Hopt) calcs.
  unfold originated, header_image, origination_bytes. cbn [age options sequence checksum hlength].
  rewrite (be_encode_small (lsaType key)), (wrap_small 8 (lsaType key)) by done. rewrite <- !app_assoc.
  assert (Hd : forall v t, drop 2 (be_encode 2 v ++ t) = t) by reflexivity. rewrite Hd.
  split.
  - cbn [app]. constructor; [done|]. constructor; [done|].
    repeat (apply Forall_app; split; [apply be_encode_bytes|]). apply encode_routers_bytes.
  - fold calcs. rewrite !foldr_add_app. cbn [foldr]. lia.
Qed.

(** The low byte of the checksum is the first running sum. *)
Lemma checksum_bytes hdr key body :
  wire_header key hdr -> let calcs := runLsaCalculations hdr key body in
  calcs.2 mod 256 = foldr Z.add 0 (origination_bytes hdr key body calcs.1) mod 255 /\
  foldr Z.add 0 (be_encode 2 calcs.2) = calcs.2 / 256 + calcs.2 mod 256.
Proof.
  intros (Hty & Hid & Hadv & Hseq & Hcs & Hlen & Hage & Hopt). cbn zeta. rewrite runLsaCalculations_bytes. cbn [fst snd].
  set (l := origination_bytes hdr key body _). assert (Hl : is_bytes l).
  { constructor; [done|]. repeat (apply Forall_app; split; [apply be_encode_bytes|]). apply encode_routers_bytes. }
  destruct (addBytes_reduced Fletcher_new l reduced_new Hl) as [H0 H1]. pose proof (addBytes_c0 l Hl) as Hc.
  set (f := addBytes Fletcher_new l) in *.
  assert (Hf : finalize f = c1 f * 256 + c0 f).
  { unfold finalize. rewrite lor_shiftl_add by (lia || (split; lia)). apply wrap_small. split; lia. }
  rewrite Hf. split.
  - rewrite Z.add_comm, Z.mod_add, Z.mod_small by lia. done.
  - cbn [be_encode foldr]. change (8 * Z.of_nat 1) with 8. change (8 * Z.of_nat 0) with 0.
    rewrite Z.shiftr_0_r, Z.shiftr_div_pow2, !land_255 by lia. change (2 ^ 8) with 256.
    rewrite (Z.mod_small ((c1 f * 256 + c0 f) / 256)) by (rewrite Z.div_add_l, Z.div_small by lia; lia). lia.
Qed.

(** An originated network LSA passes the receiver's verification only when
    its checksum bytes [c1], [c0] happen to satisfy [c1 + 2 * c0 = 0] modulo
    255: the running sums themselves are sent, not the bytes that complete
    them to zero. *)
Theorem originated_lsa_checksum hdr key body :
  wire_header key hdr -> let calcs := runLsaCalculations hdr key body in
  verifyOspfFletcher (originated hdr key body) (length (originated hdr key body)) = true ->
  (calcs.2 / 256 + 2 * (calcs.2 mod 256)) mod 255 = 0.
Proof.
  intros Hw calcs. destruct (originated_sum hdr key body Hw) as [Hb Hs].
  destruct (checksum_bytes hdr key body Hw) as [Hlo Hcs]. fold calcs in Hs, Hlo, Hcs. unfold verifyOspfFletcher.
  destruct (Nat.ltb_spec (length (originated hdr key body)) 20); [done|]. intros Hv.
  rewrite take_ge in Hv by (rewrite length_drop; lia).
  apply Z.eqb_eq, finalize_zero in Hv as [Hv _]; [|apply addBytes_reduced; [apply reduced_new | done]].
  rewrite addBytes_c0, Hs, Hcs, Z.add_mod, <- Hlo in Hv by (done || lia).
  rewrite <- Zplus_mod_idemp_r in Hv. rewrite Z.mod_mod, Zplus_mod_idemp_r in Hv by lia. rewrite <- Hv. f_equal. lia.
Qed.

(** A sample network LSA is rejected; a zero checksum of its running sums would
    be the exception. *)
Example sample_lsa_rejected :
  verifyOspfFletcher (originated sample_hdr sample_key sample_lsa) (length (originated sample_hdr sample_key sample_lsa))
  = false.
Proof. vm_compute. reflexivity. Qed.

(** The one LSA that verifies among those whose identifier and second router
    vary in their last byte. *)
Definition lucky_key : LsaKey := mkLsaKey 2 0xC0A80025 0x0A000001.
Definition lucky_body : NetworkLsaV2 := mkNetworkLsa 0xFFFFFF00 [0x0A000001; 0x0A0000C9].
Definition lucky_lsa : bytes := Eval vm_compute in originated sample_hdr lucky_key lucky_body.

Lemma originated_lsa_checksum_witness :
  ((runLsaCalculations sample_hdr lucky_key lucky_body).2 / 256 +
    2 * ((runLsaCalculations sample_hdr lucky_key lucky_body).2 mod 256)) mod 255 = 0.
Proof.
  apply (originated_lsa_checksum sample_hdr lucky_key lucky_body).
  - apply (bool_decide_unpack _). vm_compute. exact I.
  - vm_compute. reflexivity.
Defined.

Lemma fletcher_detects_change_witness :
  verifyOspfFletcher (<[20%nat := 0]> lucky_lsa) 32 = true <-> 0 mod 255 = 255 mod 255.
Proof.
  apply (fletcher_detects_change lucky_lsa 32 20 255 0).
  - apply (bool_decide_unpack _). vm_compute. exact I.
  - split; lia.
  - reflexivity.
  - lia.
  - cbn. lia.
  - vm_compute. reflexivity.
Defined.
