(* ===== verification/Lsdb.v ===== *)
(** * Lsdb: the OSPF link-state database and the installation of LSAs

    [LsdbTable] (routing/ospf/database/LsdbTable.h, LsdbTable.cpp): the records
    and their three indexes, and the part of [Area] (routing/ospf/area/Area.cpp)
    that decides about an LSA and stores it, with the two callers that matter:
    the reception of an update (ospfv2/transmission/RxV2.cpp) and the
    re-origination of an own LSA (area/Originator.cpp).

    A record's address is the key of its node in the ordered store, whose
    nodes do not move; the invariant shows that no index holds the address of
    an erased node. Reference counts, which guard deallocation only, and
    memory resources are left out. Time is the monotonic clock in nanoseconds,
    read once per call. What an operation asks of other components (flooding,
    SPF, the process) is an event. *)

From S2P Require Import Prelude OspfLsa.

(** [routing/ospf/database/LSDB.hpp:222-237] LsaBody: the alternative a body holds, among those the
    policy names *)
Inductive BodyKind := RouterBody | NetworkBody | InterNetworkBody | InterRouterBody | ExternalBody | OtherBody.

Section Lsdb.
  (** The typed LSA bodies: [std::monostate] is [None]. [bodyEq] is the
      [operator==] of two bodies of the same type. *)
  Context {Body : Type} (bodyIndex : Body -> nat) (bodyEq : Body -> Body -> bool).
  Context (bodyKind : Body -> BodyKind).

(** [routing/ospf/database/LSDB.hpp:308-323] LsaRecord *)
Record LsaRecord := mkRecord {
  installTime : Z;
  lastRefreshTime : Z;
  header : LsaHeader;
  body : option Body;
  incomingInterface : Z;
  incomingNeighbor : Z;
  flags : Z
}.

(** [routing/ospf/database/LsdbTable.h:269-274] LsdbTable: the store and the indexes. A pointer to a
    record is the key of its node. *)
Record LsdbTable := mkLsdb {
  dbStorage : gmap LsaKey LsaRecord;
  db : gmap LsaKey LsaKey;
  advDb : gmap (Z * Z) (gmap Z LsaKey);
  typeDb : gmap Z (gmap LsaKey LsaKey)
}.

Definition advKey (k : LsaKey) : Z * Z := (lsaType k, advertisingRouter k).

(** [routing/ospf/database/LsdbTable.cpp:70-76] LsdbTable::clear *)
Definition clear : LsdbTable := mkLsdb ∅ ∅ ∅ ∅.

(** [routing/ospf/database/LsdbTable.cpp:21-29] LsdbTable::size, empty *)
Definition size_of (t : LsdbTable) : nat := size (db t).

(** [routing/ospf/database/LsdbTable.cpp:31-34] LsdbTable::contains *)
Definition contains (t : LsdbTable) (k : LsaKey) : bool := bool_decide (is_Some (db t !! k)).

(** [routing/ospf/database/LsdbTable.cpp:46-56] LsdbTable::find *)
Definition find (t : LsdbTable) (k : LsaKey) : option LsaKey := db t !! k.

(** [*ptr] for a pointer to a record. *)
Definition deref (t : LsdbTable) (p : LsaKey) : outcome LsaRecord :=
  match dbStorage t !! p with Some r => Ret r | None => UB end.

(** Removing [k] from the inner map of [a], and the inner map when it is empty:
    [auto& m = idx[a]; m.erase(k); if (m.empty()) idx.erase(a);] *)
Definition erase_inner `{Countable A, Countable K} (idx : gmap A (gmap K LsaKey)) (a : A) (k : K)
    : gmap A (gmap K LsaKey) :=
  let m := delete k (default ∅ (idx !! a)) in
  if decide (m = ∅) then delete a idx else <[a := m]> idx.

(** [idx[a][k] = p] *)
Definition insert_inner `{Countable A, Countable K} (idx : gmap A (gmap K LsaKey)) (a : A) (k : K) (p : LsaKey)
    : gmap A (gmap K LsaKey) := <[a := <[k := p]> (default ∅ (idx !! a))]> idx.

(** [routing/ospf/database/LsdbTable.cpp:58-68] LsdbTable::erase *)
Definition erase (t : LsdbTable) (k : LsaKey) : bool * LsdbTable :=
  (bool_decide (is_Some (dbStorage t !! k)),
   mkLsdb (delete k (dbStorage t)) (delete k (db t))
     (erase_inner (advDb t) (advKey k) (linkStateId k)) (erase_inner (typeDb t) (lsaType k) k)).

(** [routing/ospf/database/LsdbTable.cpp:89-116] LsdbTable::upsertMeta, followed by the caller's
    assignment of the body: a new record is linked into the indexes *)
Definition upsertMeta (now : Z) (t : LsdbTable) (k : LsaKey) (h : LsaHeader) (iface nbr fl : Z) : LsdbTable :=
  match dbStorage t !! k with
  | None =>
      mkLsdb (<[k := mkRecord now now h None iface nbr fl]> (dbStorage t)) (<[k := k]> (db t))
        (insert_inner (advDb t) (advKey k) (linkStateId k) k) (insert_inner (typeDb t) (lsaType k) k k)
  | Some r =>
      mkLsdb (<[k := mkRecord (installTime r) now h (body r) iface nbr fl]> (dbStorage t)) (db t) (advDb t) (typeDb t)
  end.

(** [routing/ospf/area/Area.cpp:551-557] Area::process, the writes through a pointer: A write through a pointer to a record. *)
Definition update (t : LsdbTable) (p : LsaKey) (f : LsaRecord -> LsaRecord) : LsdbTable :=
  mkLsdb (alter f p (dbStorage t)) (db t) (advDb t) (typeDb t).

Definition set_body (b : Body) (r : LsaRecord) : LsaRecord :=
  mkRecord (installTime r) (lastRefreshTime r) (header r) (Some b) (incomingInterface r) (incomingNeighbor r) (flags r).
Definition set_refresh (now : Z) (r : LsaRecord) : LsaRecord :=
  mkRecord (installTime r) now (header r) (body r) (incomingInterface r) (incomingNeighbor r) (flags r).
Definition set_flags (fl : Z) (r : LsaRecord) : LsaRecord :=
  mkRecord (installTime r) (lastRefreshTime r) (header r) (body r) (incomingInterface r) (incomingNeighbor r) fl.
Definition set_age (a : Z) (h : LsaHeader) : LsaHeader :=
  mkLsaHeader (sequence h) (checksum h) (hlength h) a (options h).
Definition set_record_age (a : Z) (r : LsaRecord) : LsaRecord :=
  mkRecord (installTime r) (lastRefreshTime r) (set_age a (header r)) (body r) (incomingInterface r)
    (incomingNeighbor r) (flags r).

(** [routing/ospf/database/LsdbTable.cpp:118-126] LsdbTable::touchRefresh *)
Definition touchRefresh (now : Z) (t : LsdbTable) (k : LsaKey) : bool * LsdbTable :=
  match db t !! k with
  | None => (false, t)
  | Some p => (true, update t p (set_refresh now))
  end.

(** [routing/ospf/database/LsdbTable.cpp:128-136] LsdbTable::setFlags *)
Definition setFlags (t : LsdbTable) (k : LsaKey) (fl : Z) : bool * LsdbTable :=
  match db t !! k with
  | None => (false, t)
  | Some p => (true, update t p (set_flags fl))
  end.

(** [routing/ospf/database/LsdbTable.cpp:138-143] LsdbTable::getTypeSize *)
Definition getTypeSize (t : LsdbTable) (ty : Z) : nat :=
  match typeDb t !! ty with None => 0%nat | Some m => size m end.

(** [routing/ospf/database/LsdbTable.h:361-368] LsdbTable::forEachInType: the records visited; the
    end iterator of a missing type is dereferenced *)
Definition forEachInType (t : LsdbTable) (ty : Z) : outcome (list (LsaKey * LsaKey)) :=
  match typeDb t !! ty with None => UB | Some m => Ret (map_to_list m) end.

(** [routing/ospf/database/LsdbTable.h:351-359] LsdbTable::forEachInAdv *)
Definition forEachInAdv (t : LsdbTable) (a : Z * Z) : list (Z * LsaKey) :=
  match advDb t !! a with None => [] | Some m => map_to_list m end.

(** [routing/ospf/database/LsdbTable.h:316-320] LsdbTable::saturatingAddAge *)
Definition saturatingAddAge (a b maxAge : Z) : Z :=
  let sum := u32 (a + b) in u16 (if maxAge <=? sum then maxAge else sum).

(** [routing/ospf/database/LsdbTable.cpp:153-154] LsdbTable::ageAll, the age of one record *)
Definition age_record (delta maxAge : Z) (r : LsaRecord) : LsaRecord :=
  set_record_age (saturatingAddAge (age (header r)) delta maxAge) r.

Definition expired (maxAge : Z) (r : LsaRecord) : bool := maxAge <=? age (header r).

(** [routing/ospf/database/LsdbTable.cpp:145-185] LsdbTable::ageAll: the number of expired records
    and the table; the nodes are visited one by one, and an expired one erased when asked *)
Definition ageOne (delta maxAge : Z) (eraseExpired : bool) (t : LsdbTable) (k : LsaKey) : LsdbTable :=
  let t := update t k (age_record delta maxAge) in
  match dbStorage t !! k with
  | Some r => if eraseExpired && expired maxAge r then (erase t k).2 else t
  | None => t
  end.

(** [routing/ospf/database/LsdbTable.cpp:145-185] LsdbTable::ageAll, over all nodes *)
Definition ageAll (delta maxAge : Z) (eraseExpired : bool) (t : LsdbTable) : nat * LsdbTable :=
  (length (List.filter (fun kr => expired maxAge (age_record delta maxAge kr.2)) (map_to_list (dbStorage t))),
   fold_left (ageOne delta maxAge eraseExpired) (map_to_list (dbStorage t)).*1 t).

(** [routing/ospf/database/LsdbTable.h:371-387] LsdbTable::purgeIf: entries leave the primary index
    only *)
Definition purge_test (t : LsdbTable) (pred : LsaRecord -> bool) (kp : LsaKey * LsaKey) : Prop :=
  match dbStorage t !! kp.2 with Some r => pred r = false | None => True end.
#[export] Instance purge_test_dec t pred kp : Decision (purge_test t pred kp).
Proof. unfold purge_test. destruct (_ !! _); apply _. Defined.

(** [routing/ospf/database/LsdbTable.h:370-387] LsdbTable::purgeIf *)
Definition purgeIf (pred : LsaRecord -> bool) (t : LsdbTable) : nat * LsdbTable :=
  let kept := filter (purge_test t pred) (db t) in
  ((size (db t) - size kept)%nat, mkLsdb (dbStorage t) kept (advDb t) (typeDb t)).

(** [routing/ospf/database/LsdbTable.cpp:187-192] LsdbTable::purgeExpired *)
Definition purgeExpired (maxAge : Z) (t : LsdbTable) : nat * LsdbTable := purgeIf (expired maxAge) t.

(** ** Deciding about an LSA *)

(** [routing/ospf/area/FloodTypes.hpp:18-23] FloodReason *)
Inductive FloodReason := REFRESH | UPDATE | FLUSH.

(** [routing/ospf/area/FloodTypes.hpp:41-46] LsaCompareResult *)
Inductive LsaCompareResult := NEWER | OLDER | SAME.

(** [routing/ospf/area/FloodTypes.hpp:57-65] InstallAction *)
Inductive InstallAction :=
  REJECT_INVALID | IGNORE_OLDER | IGNORE_DUPLICATE | INSTALL_NEWER | FLUSH_MAX_AGE | FIGHT_BACK_SELF.

(** [routing/ospf/area/FloodTypes.hpp:91-110] InstallResult *)
Record InstallResult := mkInstall {
  action : InstallAction;
  compare : LsaCompareResult;
  newLsa : bool;
  shouldStoreReplace : bool;
  shouldUpdateAgeOnly : bool;
  shouldAck : bool;
  newStoredAge : Z;
  affectsSpfGraph : bool;
  topologyChanged : bool;
  shouldFlood : bool;
  shouldFightBack : bool
}.

(** [routing/ospf/database/LSDB.hpp:126-137] IncomingLsaContext *)
Record IncomingLsaContext := mkCtx {
  ctx_key : LsaKey;
  ctx_header : LsaHeader;
  checksumValid : bool;
  selfOriginatedKey : bool;
  reason : FloodReason;
  ctx_interface : Z;
  ctx_neighbor : Z
}.

(** [configs/registry/router/OspfRegistry.h:32-39] AreaType *)
Inductive AreaType := NORMAL | STUB | TOTALLY_STUB | NSSA | TOTALLY_NSSA.

(** The configuration the decisions read: the area type, the protocol
    version, LSA_ARRIVAL (milliseconds), MAX_LSA and MAX_LSA_IGNORE_COUNT. *)
Record AreaConfig := mkConfig {
  areaType : AreaType;
  isV3 : bool;
  lsaArrival : Z;
  maxLsa : option Z;
  maxLsaIgnoreCount : Z
}.

(** [routing/ospf/OspfTypes.hpp:16-16] OSPF_MAX_DIFF *)
Definition OSPF_MAX_DIFF : Z := 900.

(** [routing/ospf/OspfTypes.hpp:21-21] OSPF_INITIAL_SEQUENCE *)
Definition OSPF_INITIAL_SEQUENCE : Z := 0x80000001.

(** [routing/ospf/OspfTypes.hpp:22-22] OSPF_MAX_SEQUENCE *)
Definition OSPF_MAX_SEQUENCE : Z := 0x7FFFFFFF.

(** [routing/ospf/area/Area.h:37-40] isMaxAge *)
Definition isMaxAge (h : LsaHeader) (maxAge : Z) : bool := maxAge <=? age h.

(** [routing/ospf/area/Area.h:52-55] absDiffU16 *)
Definition absDiffU16 (a b : Z) : Z := if b <=? a then u16 (a - b) else u16 (b - a).

(** [routing/ospf/area/Area.cpp:860-879] Area::compareLsaHeaders *)
Definition compareLsaHeaders (a b : LsaHeader) : LsaCompareResult :=
  if negb (sequence a =? sequence b) then (if sequence b <? sequence a then NEWER else OLDER)
  else if negb (checksum a =? checksum b) then (if checksum b <? checksum a then NEWER else OLDER)
  else
    let aMax := isMaxAge a OSPF_MAX_AGE in
    let bMax := isMaxAge b OSPF_MAX_AGE in
    if negb (Bool.eqb aMax bMax) then (if aMax then NEWER else OLDER)
    else if OSPF_MAX_DIFF <? absDiffU16 (age a) (age b) then (if age a <? age b then NEWER else OLDER)
    else SAME.

(** [routing/ospf/area/Area.cpp:881-896] Area::compareLsaBody: [true] for bodies that are equal or of
    different types *)
Definition compareLsaBody (a b : option Body) : bool :=
  match a, b with
  | Some a, Some b => if (bodyIndex a =? bodyIndex b)%nat then bodyEq a b else true
  | _, _ => true
  end.

(** [routing/ospf/area/Area.cpp:752-766] Area::evaluateIncomingLsa: the LSA types that affect the SPF
    graph *)
Definition affects (v3 : bool) (t : Z) : bool :=
  if v3 then
    (t =? 0x2001) || (t =? 0x2002) || (t =? 0x2003) || (t =? 0x2004) || (t =? 0x2009) || (t =? 0x0008)
  else (1 <=? t) && (t <=? 4).

(** [routing/ospf/area/FloodTypes.hpp:93-109] InstallResult, the fields a decision sets and the defaults of the others *)
Definition install_with (a : InstallAction) (c : LsaCompareResult) (new store ack aff topo flood fight : bool) :=
  mkInstall a c new store false ack 0 aff topo flood fight.

(** [routing/ospf/area/Area.cpp:747-858] Area::evaluateIncomingLsa: the decision, and the context's
    flood reason, which it may set *)
Definition evaluateIncomingLsa (cfg : AreaConfig) (now : Z) (existing : option LsaRecord)
    (ctx : IncomingLsaContext) (b : Body) : InstallResult * FloodReason :=
  let aff := affects (isV3 cfg) (lsaType (ctx_key ctx)) in
  if negb (checksumValid ctx) then (install_with REJECT_INVALID SAME false false false aff false false false, reason ctx)
  else
    match existing with
    | None =>
        if isMaxAge (ctx_header ctx) OSPF_MAX_AGE
        then (install_with FLUSH_MAX_AGE SAME true true true aff false true false, reason ctx)
        else (install_with INSTALL_NEWER SAME true true true aff aff true false, reason ctx)
    | Some e =>
        match compareLsaHeaders (ctx_header ctx) (header e) with
        | OLDER => (install_with IGNORE_OLDER OLDER false false true aff false false false, reason ctx)
        | SAME => (install_with IGNORE_DUPLICATE SAME false false true aff false false false, reason ctx)
        | NEWER =>
            if now <? lastRefreshTime e + lsaArrival cfg * 1000000
            then (install_with IGNORE_DUPLICATE NEWER false false true aff false false false, reason ctx)
            else if age (ctx_header ctx) =? OSPF_MAX_AGE
            then (install_with FLUSH_MAX_AGE NEWER false true true aff aff true false, reason ctx)
            else if selfOriginatedKey ctx && (sequence (header e) <=? sequence (ctx_header ctx))
            then (install_with FIGHT_BACK_SELF NEWER false false true aff false true true, reason ctx)
            else if aff
            then
              if negb (compareLsaBody (body e) (Some b))
              then (install_with INSTALL_NEWER NEWER false true true aff true true false, reason ctx)
              else (install_with INSTALL_NEWER NEWER false true true aff false true false, REFRESH)
            else (install_with INSTALL_NEWER NEWER false true true aff false true false, reason ctx)
        end
    end.

(** [routing/ospf/area/Area.cpp:726-737] Area::compareLSASummary *)
Definition compareLSASummary (t : LsdbTable) (h : LsaHeader) (k : LsaKey) : outcome bool :=
  match find t k with
  | None => Ret true
  | Some p => r ← deref t p;
              Ret (match compareLsaHeaders h (header r) with NEWER => true | _ => false end)
  end.

(** [routing/ospf/database/LSDB.hpp:139-151] operator| and operator|=, which takes its left operand
    by value: the value returned, and the operand as the caller sees it afterwards *)
Definition flags_or (a b : Z) : Z := u8 (Z.lor a b).

(** [routing/ospf/database/LSDB.hpp:147-151] operator|= on LsaRecordFlags *)
Definition flags_or_assign (a b : Z) : Z * Z := (flags_or a b, a).

(** [routing/ospf/area/Area.cpp:739-745] Area::makeFlags *)
Definition makeFlags (ctx : IncomingLsaContext) : Z :=
  let f := 0 in
  let f := if selfOriginatedKey ctx then (flags_or_assign f 1).2 else f in
  let f := if checksumValid ctx then (flags_or_assign f 2).2 else f in f.

(** ** Installing it *)

(** [routing/ospf/area/Area.h:155-161] Area::Result: [record] is a pointer to a record. [reason] is
    never written. *)
Record Result := mkResult { res_flags : Z; decision : InstallResult; record : option LsaKey }.

(** What an area asks of the flood manager, the SPF manager, the process, the
    route manager and the scheduler. *)
Inductive Event :=
  | EvFlood (k : LsaKey) (r : FloodReason)
  | EvRequestSpf
  | EvInitiateReset
  | EvIgnoreTimer
  | EvDCIntegrityScan
  | EvDistributeExternal (k : LsaKey)
  | EvReplaceInterArea (k : LsaKey)
  | EvInterAreaRouter (k : LsaKey)
  | EvUnschedulePacing (k : LsaKey)
  | EvFullRefresh.

(** [routing/ospf/area/Area.h:432-463] Area: the state the installation uses; [ignoreArmed] is
    [ignoreTid != 0]. *)
Record Area := mkArea { lsdb : LsdbTable; ignoreSize : Z; ignoreArmed : bool }.

Definition set_lsdb (t : LsdbTable) (a : Area) : Area := mkArea t (ignoreSize a) (ignoreArmed a).

(** [routing/ospf/area/Area.cpp:531-571] Area::process *)
Definition process (cfg : AreaConfig) (now : Z) (t : LsdbTable) (ctx : IncomingLsaContext) (b : Body)
    : outcome (Result * FloodReason * LsdbTable) :=
  existing ← match find t (ctx_key ctx) with None => Ret None | Some p => r ← deref t p; Ret (Some r) end;
  let '(d, rs) := evaluateIncomingLsa cfg now existing ctx b in
  match action d with
  | REJECT_INVALID | IGNORE_OLDER => Ret (mkResult 0 d None, rs, t)
  | IGNORE_DUPLICATE =>
      let fl := makeFlags ctx in
      if shouldUpdateAgeOnly d then
        match find t (ctx_key ctx) with
        | Some p =>
            let t := update t p (fun r => set_flags fl (set_refresh now (set_record_age (newStoredAge d) r))) in
            Ret (mkResult fl d (Some p), rs, t)
        | None => Ret (mkResult fl d None, rs, t)
        end
      else
        let '(touched, t) := touchRefresh now t (ctx_key ctx) in
        if touched then
          match find t (ctx_key ctx) with
          | Some p => Ret (mkResult fl d (Some p), rs, update t p (set_flags fl))
          | None => Ret (mkResult fl d None, rs, t)
          end
        else Ret (mkResult fl d None, rs, t)
  | _ => Ret (mkResult (makeFlags ctx) d None, rs, t)
  end.

(** [routing/ospf/area/Area.cpp:615-661] Area::onNewLsa, ignoreLsa and startIgnoreTimer (the warning
    threshold has no effect) *)
Definition onNewLsa (cfg : AreaConfig) (a : Area) : bool * Area * list Event :=
  match maxLsa cfg with
  | None => (true, a, [])
  | Some m =>
      if m <=? Z.of_nat (size_of (lsdb a)) then
        let n := u64 (ignoreSize a + 1) in
        let reset := if maxLsaIgnoreCount cfg <=? n then [EvInitiateReset] else [] in
        let timer := if ignoreArmed a then [] else [EvIgnoreTimer] in
        (false, mkArea (lsdb a) n true, reset ++ timer)
      else (true, a, [])
  end.

Definition set_fight_back (d : InstallResult) : InstallResult :=
  mkInstall (action d) (compare d) (newLsa d) (shouldStoreReplace d) (shouldUpdateAgeOnly d) (shouldAck d)
    (newStoredAge d) (affectsSpfGraph d) (topologyChanged d) (shouldFlood d) true.

(** [routing/ospf/area/Area.cpp:581-591] Area::installLsa: The LSA of the context stored over whatever the key held. *)
Definition store (now : Z) (t : LsdbTable) (ctx : IncomingLsaContext) (fl : Z) (b : Body) : LsdbTable :=
  update (upsertMeta now t (ctx_key ctx) (ctx_header ctx) (ctx_interface ctx) (ctx_neighbor ctx) fl)
    (ctx_key ctx) (set_body b).

(** [routing/ospf/area/Area.cpp:573-592] Area::installLsa *)
Definition installLsa (cfg : AreaConfig) (now : Z) (a : Area) (res : Result) (ctx : IncomingLsaContext) (b : Body)
    : Result * Area * list Event :=
  let '(ok, a, evs) := if newLsa (decision res) then onNewLsa cfg a else (true, a, []) in
  if negb ok && negb (selfOriginatedKey ctx) then (res, a, evs)
  else
    match action (decision res) with
    | FIGHT_BACK_SELF =>
        (mkResult (res_flags res) (set_fight_back (decision res)) (Some (ctx_key ctx)),
         set_lsdb (store now (lsdb a) ctx (res_flags res) b) a, evs)
    | act =>
        if (match act with FLUSH_MAX_AGE => true | _ => false end) || shouldStoreReplace (decision res) then
          (mkResult (res_flags res) (decision res) (Some (ctx_key ctx)),
           set_lsdb (store now (lsdb a) ctx (res_flags res) b) a, evs)
        else (res, a, evs)
    end.

(** [routing/ospf/area/Area.cpp:718-724] Area::evaluateDecision *)
Definition evaluateDecision (res : Result) (ctx : IncomingLsaContext) (rs : FloodReason) : list Event :=
  (match record res with
   | Some p => if shouldFlood (decision res) then [EvFlood (ctx_key ctx) rs] else []
   | None => []
   end) ++
  (if affectsSpfGraph (decision res) && topologyChanged (decision res) then [EvRequestSpf] else []).

(** [routing/ospf/area/Area.cpp:474-498] Area::preProcess *)
Definition preProcess (cfg : AreaConfig) (ctx : IncomingLsaContext) (b : Body) : bool :=
  let nssaType := if isV3 cfg then 0x2007 else 7 in
  match bodyKind b, areaType cfg with
  | InterNetworkBody, (TOTALLY_STUB | TOTALLY_NSSA) => false
  | ExternalBody, NORMAL => negb (lsaType (ctx_key ctx) =? nssaType)
  | ExternalBody, (NSSA | TOTALLY_NSSA) => lsaType (ctx_key ctx) =? nssaType
  | ExternalBody, _ => false
  | _, _ => true
  end.

(** [routing/ospf/area/Area.cpp:500-529] Area::postProcess *)
Definition postProcess (res : Result) (ctx : IncomingLsaContext) (b : Body) : list Event :=
  match action (decision res) with
  | REJECT_INVALID | IGNORE_OLDER => []
  | _ =>
      if topologyChanged (decision res) then
        (match bodyKind b with RouterBody | NetworkBody => [EvDCIntegrityScan] | _ => [] end) ++
        (match bodyKind b with
         | ExternalBody => [EvDistributeExternal (ctx_key ctx)]
         | InterNetworkBody => [EvReplaceInterArea (ctx_key ctx)]
         | InterRouterBody => [EvInterAreaRouter (ctx_key ctx)]
         | _ => []
         end)
      else []
  end.

(** [routing/ospf/area/Area.cpp:447-459] Area::processLsa, the overload for a body the caller gives up *)
Definition processLsa (cfg : AreaConfig) (now : Z) (a : Area) (ctx : IncomingLsaContext) (b : Body)
    : outcome (option Result * Area * list Event) :=
  if negb (preProcess cfg ctx b) then Ret (None, a, [])
  else
    '(res, rs, t) ← process cfg now (lsdb a) ctx b;
    let '(res, a, evs) := installLsa cfg now (set_lsdb t a) res ctx b in
    Ret (Some res, a, evs ++ evaluateDecision res ctx rs ++ postProcess res ctx b).

(** [routing/ospf/area/Area.cpp:461-472] Area::processLsa, the overload for a constant body *)
Definition processLsa_const (cfg : AreaConfig) (now : Z) (a : Area) (ctx : IncomingLsaContext) (b : Body)
    : outcome (option Result * Area * list Event) :=
  '(res, rs, t) ← process cfg now (lsdb a) ctx b;
  Ret (Some res, set_lsdb t a, evaluateDecision res ctx rs ++ postProcess res ctx b).

(** [routing/ospf/ospfv2/transmission/RxV2.cpp:500-502] processLSUpdate: the acknowledgement queued
    for one processed LSA *)
Definition queueAck (res : option Result) : outcome (option LsaKey) :=
  match res with
  | Some r => if shouldAck (decision r)
              then match record r with Some p => Ret (Some p) | None => UB end
              else Ret None
  | None => Ret None
  end.

(** [routing/ospf/ospfv2/transmission/RxV2.cpp:490-502] processLSUpdate: one LSA of an update *)
Definition receiveLsa (cfg : AreaConfig) (now : Z) (a : Area) (ctx : IncomingLsaContext) (b : Body)
    : outcome (option LsaKey * Area * list Event) :=
  '(res, a, evs) ← processLsa cfg now a ctx b;
  ack ← queueAck res;
  Ret (ack, a, evs).

(** [routing/ospf/area/Originator.cpp:335-401] Originator::processReoriginatedLsa: [opts] is the
    options byte it derives from the area's flags (zero for OSPFv3), [calc] the result of
    [runLsaCalculations] on the header, [refresh] and [expire] those of the origination *)
Definition processReoriginatedLsa (cfg : AreaConfig) (now : Z) (a : Area) (key : LsaKey) (opts : Z)
    (calc : LsaHeader -> Z * Z) (refresh expire : bool) (b : Body) : outcome (Area * list Event) :=
  existing ← match find (lsdb a) key with None => Ret None | Some p => r ← deref (lsdb a) p; Ret (Some r) end;
  let own h rs := mkCtx key h true true rs 0 0 in
  let finish h := let c := calc h in mkLsaHeader (sequence h) c.2 c.1 (age h) (options h) in
  let rollover := match existing with Some e => negb expire && (sequence (header e) =? OSPF_MAX_SEQUENCE) | None => false end in
  if rollover then
    let h := finish (mkLsaHeader OSPF_MAX_SEQUENCE 0 0 OSPF_MAX_AGE opts) in
    '(_, a, evs) ← processLsa cfg now a (own h FLUSH) b;
    Ret (a, evs ++ [EvUnschedulePacing key; EvFullRefresh])
  else
    let rs := if expire then FLUSH else if refresh then REFRESH else UPDATE in
    let sq := match existing with Some e => u32 (sequence (header e) + 1) | None => OSPF_INITIAL_SEQUENCE end in
    let h := finish (mkLsaHeader sq 0 0 (if expire then OSPF_MAX_AGE else 0) opts) in
    '(_, a, evs) ← processLsa_const cfg now a (own h rs) b;
    Ret (a, evs ++ if expire then [EvUnschedulePacing key] else []).

(** [routing/ospf/area/Area.cpp:94-124] Area::onAgingTick *)
Definition onAgingTick (a : Area) : Area * list Event :=
  let '(n, t) := ageAll 1 OSPF_MAX_AGE false (lsdb a) in
  if (0 <? n)%nat then
    let maxAgeLsas := List.filter (fun kr => OSPF_MAX_AGE <=? age (header kr.2)) (map_to_list (dbStorage t)) in
    (set_lsdb (purgeExpired OSPF_MAX_AGE t).2 a,
     map (fun kr => EvFlood kr.1 FLUSH) maxAgeLsas ++ [EvRequestSpf])
  else (set_lsdb t a, []).

(** [n] ticks, and the events of each. *)
Fixpoint agingTicks (n : nat) (a : Area) : Area * list (list Event) :=
  match n with
  | O => (a, [])
  | S n => let '(a, evs) := onAgingTick a in
           let '(a, rest) := agingTicks n a in (a, evs :: rest)
  end.

(** ** The indexes *)

Section Inner.
Context `{Countable A, Countable K}.
Implicit Types (idx : gmap A (gmap K LsaKey)) (a : A) (k : K).

Definition lookup_inner idx a k : option LsaKey := idx !! a ≫= fun m => m !! k.

Lemma lookup_inner_default idx a k : lookup_inner idx a k = default ∅ (idx !! a) !! k.
Proof. unfold lookup_inner. destruct (idx !! a); [done|]. cbn. rewrite lookup_empty. done. Qed.

Lemma lookup_inner_insert idx a k p a' k' :
  lookup_inner (insert_inner idx a k p) a' k' = if decide (a' = a /\ k' = k) then Some p else lookup_inner idx a' k'.
Proof.
  unfold lookup_inner at 1, insert_inner. destruct (decide (a' = a)) as [->|Ha].
  - rewrite lookup_insert_eq. cbn. destruct (decide (k' = k)) as [->|Hk].
    + rewrite lookup_insert_eq, decide_True by done. done.
    + rewrite lookup_insert_ne, decide_False, lookup_inner_default by (intros ?; destruct_and?; congruence). done.
  - rewrite lookup_insert_ne, decide_False by (intros ?; destruct_and?; congruence). done.
Qed.

Lemma lookup_inner_erase idx a k a' k' :
  lookup_inner (erase_inner idx a k) a' k' = if decide (a' = a /\ k' = k) then None else lookup_inner idx a' k'.
Proof.
  assert (Hk : default ∅ (idx !! a') !! k' = lookup_inner idx a' k') by (rewrite lookup_inner_default; done).
  unfold erase_inner. destruct (decide (delete k (default ∅ (idx !! a)) = ∅)) as [He|He];
    unfold lookup_inner at 1; destruct (decide (a' = a)) as [->|Ha].
  - rewrite lookup_delete_eq. cbn. destruct (decide (k' = k)) as [->|Hne]; [rewrite decide_True by done; done|].
    rewrite decide_False by (intros ?; destruct_and?; congruence). rewrite <- Hk, <- (lookup_delete_ne _ k k'), He, lookup_empty by done. done.
  - rewrite lookup_delete_ne, decide_False by (intros ?; destruct_and?; congruence). done.
  - rewrite lookup_insert_eq. cbn. destruct (decide (k' = k)) as [->|Hne].
    + rewrite lookup_delete_eq, decide_True by done. done.
    + rewrite lookup_delete_ne, decide_False by (intros ?; destruct_and?; congruence). done.
  - rewrite lookup_insert_ne, decide_False by (intros ?; destruct_and?; congruence). done.
Qed.

(** No inner map is empty. *)
Definition no_empty idx : Prop := forall a m, idx !! a = Some m -> m <> ∅.

Lemma no_empty_insert idx a k p : no_empty idx -> no_empty (insert_inner idx a k p).
Proof.
  intros Hn a' m. unfold insert_inner. destruct (decide (a' = a)) as [->|Ha].
  - rewrite lookup_insert_eq. intros [= <-]. apply insert_non_empty.
  - rewrite lookup_insert_ne by done. apply Hn.
Qed.

Lemma no_empty_erase idx a k : no_empty idx -> no_empty (erase_inner idx a k).
Proof.
  intros Hn a' m. unfold erase_inner. destruct (decide (delete k _ = ∅)) as [He|He].
  - intros [_ Hm]%lookup_delete_Some. eapply Hn. done.
  - destruct (decide (a' = a)) as [->|Ha]; [rewrite lookup_insert_eq; intros [= <-]; done|].
    rewrite lookup_insert_ne by done. apply Hn.
Qed.

Lemma no_empty_empty : no_empty ∅.
Proof. intros a m. rewrite lookup_empty. done. Qed.
End Inner.

#[local] Arguments lookup_inner : simpl never.
#[local] Arguments insert_inner : simpl never.
#[local] Arguments erase_inner : simpl never.
#[local] Arguments advKey : simpl never.

(** Every pointer of an index leads to the record of its key, the two secondary
    indexes hold every record, and no inner map is empty. *)
Record linked (t : LsdbTable) : Prop := {
  db_live k p : db t !! k = Some p -> p = k /\ is_Some (dbStorage t !! k);
  adv_exact a id p : lookup_inner (advDb t) a id = Some p <-> p = mkLsaKey a.1 id a.2 /\ is_Some (dbStorage t !! p);
  type_exact ty k p : lookup_inner (typeDb t) ty k = Some p <-> p = k /\ lsaType k = ty /\ is_Some (dbStorage t !! k);
  adv_no_empty : no_empty (advDb t);
  type_no_empty : no_empty (typeDb t)
}.

(** The primary index holds every record as well. *)
Definition coherent (t : LsdbTable) : Prop := linked t /\ forall k, is_Some (dbStorage t !! k) -> db t !! k = Some k.

Lemma key_eta (k : LsaKey) : mkLsaKey (advKey k).1 (linkStateId k) (advKey k).2 = k.
Proof. destruct k. done. Qed.

Lemma adv_match (k p : LsaKey) a id :
  p = mkLsaKey a.1 id a.2 -> (a = advKey k /\ id = linkStateId k) <-> p = k.
Proof. intros ->. destruct a, k; cbn. split; [intros [[= -> ->] ->]; done | intros [= -> -> ->]; done]. Qed.

Lemma coherent_clear : coherent clear.
Proof.
  split; [split|]; cbn.
  - intros k p. rewrite lookup_empty. done.
  - intros a id p. unfold lookup_inner. rewrite !lookup_empty. cbn. split; [done|]. intros [_ [? H]]. done.
  - intros ty k p. unfold lookup_inner. rewrite !lookup_empty. cbn. split; [done|]. intros (_ & _ & [? H]). done.
  - apply no_empty_empty.
  - apply no_empty_empty.
  - intros k [? H]. rewrite lookup_empty in H. done.
Qed.

(** Writes through a pointer keep the keys. *)
Lemma update_some t p f k : is_Some (dbStorage (update t p f) !! k) <-> is_Some (dbStorage t !! k).
Proof. cbn. rewrite lookup_alter_is_Some. done. Qed.

Lemma linked_update t p f : linked t -> linked (update t p f).
Proof.
  intros [H1 H2 H3 H4 H5]. split; try done; intros; rewrite ?update_some; eauto.
Qed.

Lemma coherent_update t p f : coherent t -> coherent (update t p f).
Proof. intros [Hl Hd]. split; [apply linked_update; done|]. intros k. rewrite update_some. apply Hd. Qed.

(** Linking a new record, and unlinking one. *)
Lemma linked_upsert now t k h i n fl : linked t -> linked (upsertMeta now t k h i n fl).
Proof.
  intros Hl. unfold upsertMeta. destruct (dbStorage t !! k) as [r|] eqn:Hk.
  - destruct Hl as [H1 H2 H3 H4 H5].
    assert (Hs : forall p x, is_Some (<[k := x]> (dbStorage t) !! p) <-> is_Some (dbStorage t !! p)).
    { intros p x. rewrite lookup_insert_is_Some'. split; [intros [->|?]; [rewrite Hk|]; done | auto]. }
    split; cbn; intros; rewrite ?Hs; eauto.
  - destruct Hl as [H1 H2 H3 H4 H5]. split; cbn.
    + intros k' p. rewrite lookup_insert_is_Some'. destruct (decide (k' = k)) as [->|Hne].
      * rewrite lookup_insert_eq. intros [= <-]. auto.
      * rewrite lookup_insert_ne by done. intros [-> ?]%H1. auto.
    + intros a id p. rewrite lookup_inner_insert, lookup_insert_is_Some'. destruct (decide _) as [[-> ->]|Hne].
      * rewrite key_eta. split; [intros [= <-]; auto | intros [-> _]; done].
      * rewrite H2. split; [tauto|]. intros [Hp [->|?]]; [|done]. destruct Hne. apply (adv_match _ _ a id Hp). done.
    + intros ty k' p. rewrite lookup_inner_insert, lookup_insert_is_Some'. destruct (decide _) as [[-> ->]|Hne].
      * split; [intros [= <-]; auto | intros (-> & _ & _); done].
      * rewrite H3. split; [tauto|]. intros (-> & <- & [->|?]); [|done]. destruct Hne. done.
    + apply no_empty_insert. done.
    + apply no_empty_insert. done.
Qed.

Lemma coherent_upsert now t k h i n fl : coherent t -> coherent (upsertMeta now t k h i n fl).
Proof.
  intros [Hl Hd]. split; [apply linked_upsert; done|]. intros k'. unfold upsertMeta.
  destruct (dbStorage t !! k) as [r|] eqn:Hk; cbn; rewrite lookup_insert_is_Some'.
  - intros [->|?]; apply Hd; [rewrite Hk|]; done.
  - destruct (decide (k' = k)) as [->|Hne]; [rewrite lookup_insert_eq; done|].
    rewrite lookup_insert_ne by done. intros [->|?]; [done|]. apply Hd. done.
Qed.

Lemma erase_some t k k' : is_Some (dbStorage (erase t k).2 !! k') <-> k' <> k /\ is_Some (dbStorage t !! k').
Proof. cbn. rewrite lookup_delete_is_Some. split; intros [? ?]; auto. Qed.

Lemma linked_erase t k : linked t -> linked (erase t k).2.
Proof.
  intros [H1 H2 H3 H4 H5]. split.
  - intros k' p. rewrite erase_some. cbn. intros [Hne Hp]%lookup_delete_Some. apply H1 in Hp as [-> ?]. auto.
  - intros a id p. rewrite erase_some. cbn. rewrite lookup_inner_erase. destruct (decide _) as [[-> ->]|Hne].
    + rewrite key_eta. split; [done|]. intros [-> [? _]]. done.
    + rewrite H2. split; [|tauto]. intros [Hp ?]. split; [done|]. split; [|done]. intros ->.
      destruct Hne. apply (adv_match _ _ a id Hp). done.
  - intros ty k' p. rewrite erase_some. cbn. rewrite lookup_inner_erase. destruct (decide _) as [[-> ->]|Hne].
    + split; [done|]. intros (_ & _ & ? & _). done.
    + rewrite H3. split; [|tauto]. intros (-> & <- & ?). split; [done|]. split; [done|]. split; [|done].
      intros ->. destruct Hne. done.
  - apply no_empty_erase. done.
  - apply no_empty_erase. done.
Qed.

Lemma coherent_erase t k : coherent t -> coherent (erase t k).2.
Proof.
  intros [Hl Hd]. split; [apply linked_erase; done|]. intros k'. rewrite erase_some. intros [Hne Hs]. cbn.
  rewrite lookup_delete_ne by done. apply Hd. done.
Qed.

Lemma coherent_ageOne d m e t k : coherent t -> coherent (ageOne d m e t k).
Proof.
  intros Hc. unfold ageOne. pose proof (coherent_update t k (age_record d m) Hc) as Hu.
  destruct (dbStorage _ !! k); [|done]. destruct (e && _); [apply coherent_erase|]; done.
Qed.

Lemma linked_ageOne d m e t k : linked t -> linked (ageOne d m e t k).
Proof.
  intros Hc. unfold ageOne. pose proof (linked_update t k (age_record d m) Hc) as Hu.
  destruct (dbStorage _ !! k); [|done]. destruct (e && _); [apply linked_erase|]; done.
Qed.

Lemma fold_ageOne_inv (P : LsdbTable -> Prop) d m e l :
  (forall t k, P t -> P (ageOne d m e t k)) -> forall t, P t -> P (fold_left (ageOne d m e) l t).
Proof. intros Hstep. induction l as [|k l IH]; intros t Ht; cbn; auto. Qed.

Lemma coherent_ageAll d m e t : coherent t -> coherent (ageAll d m e t).2.
Proof. apply fold_ageOne_inv. apply coherent_ageOne. Qed.

Lemma linked_ageAll d m e t : linked t -> linked (ageAll d m e t).2.
Proof. apply fold_ageOne_inv. apply linked_ageOne. Qed.

Lemma linked_purge pred t : linked t -> linked (purgeIf pred t).2.
Proof.
  intros [H1 H2 H3 H4 H5]. split; cbn; try done. intros k p [Hp _]%map_lookup_filter_Some. auto.
Qed.

(** One operation on the table, the expiry purge apart. *)
Inductive lsdb_step (t : LsdbTable) : LsdbTable -> Prop :=
  | step_upsert now k h i n fl : lsdb_step t (upsertMeta now t k h i n fl)
  | step_body k b : lsdb_step t (update t k (set_body b))
  | step_touch now k : lsdb_step t (touchRefresh now t k).2
  | step_flags k fl : lsdb_step t (setFlags t k fl).2
  | step_erase k : lsdb_step t (erase t k).2
  | step_age d m e : lsdb_step t (ageAll d m e t).2
  | step_clear : lsdb_step t clear.

Lemma coherent_step t t' : coherent t -> lsdb_step t t' -> coherent t'.
Proof.
  intros Hc []; [apply coherent_upsert | apply coherent_update | | | apply coherent_erase | apply coherent_ageAll |
    apply coherent_clear]; try done.
  - unfold touchRefresh. destruct (db t !! k); [apply coherent_update|]; done.
  - unfold setFlags. destruct (db t !! k); [apply coherent_update|]; done.
Qed.

Lemma coherent_steps t t' : rtc lsdb_step t t' -> coherent t -> coherent t'.
Proof. induction 1 as [|t t1 t2 Hs _ IH]; [done|]. intros Hc. apply IH, (coherent_step t t1 Hc Hs). Qed.

Lemma coherent_reachable t : rtc lsdb_step clear t -> coherent t.
Proof. intros H. apply (coherent_steps clear t H), coherent_clear. Qed.

(** In every table built by its operations, the expiry purge apart, a key is
    found exactly when it is stored, the advertiser and type indexes list
    exactly the stored records, and the visit of a type is undefined exactly
    when no record has it. *)
Theorem lsdb_coherent t :
  rtc lsdb_step clear t ->
  (forall k, find t k = if decide (is_Some (dbStorage t !! k)) then Some k else None) /\
  (forall ty k p, lookup_inner (typeDb t) ty k = Some p <-> p = k /\ lsaType k = ty /\ is_Some (dbStorage t !! k)) /\
  (forall a id p, lookup_inner (advDb t) a id = Some p <-> p = mkLsaKey a.1 id a.2 /\ is_Some (dbStorage t !! p)) /\
  (forall ty, forEachInType t ty = UB <-> forall k, lsaType k = ty -> dbStorage t !! k = None).
Proof.
  intros [Hl Hd]%coherent_reachable. pose proof Hl as [H1 H2 H3 H4 H5].
  split; [|split; [done|split; [done|]]].
  - intros k. unfold find. destruct (decide _) as [Hs|Hs]; [apply Hd; done|].
    destruct (db t !! k) eqn:E; [|done]. apply H1 in E as [_ ?]. done.
  - intros ty. unfold forEachInType. destruct (typeDb t !! ty) as [m|] eqn:E.
    + split; [done|]. intros Hnone. destruct (map_choose m (H5 ty m E)) as (k & p & Hp).
      assert (Hin : lookup_inner (typeDb t) ty k = Some p) by (unfold lookup_inner; rewrite E; done).
      apply H3 in Hin as (_ & Hty & [r Hr]). rewrite (Hnone k Hty) in Hr. done.
    + split; [|done]. intros _ k Hty. destruct (dbStorage t !! k) eqn:Hs; [|done].
      assert (Hin : lookup_inner (typeDb t) ty k = Some k) by (apply H3; rewrite Hs; eauto).
      unfold lookup_inner in Hin. rewrite E in Hin. done.
Qed.

(** ** Aging *)

Lemma ageOne_lookup d m e t k k' :
  dbStorage (ageOne d m e t k) !! k' =
  if decide (k' = k)
  then (dbStorage t !! k ≫= fun r => let r := age_record d m r in if e && expired m r then None else Some r)
  else dbStorage t !! k'.
Proof.
  unfold ageOne. cbn [dbStorage update]. rewrite lookup_alter_eq. destruct (dbStorage t !! k) as [r|] eqn:Hk; cbn.
  - destruct (e && expired m (age_record d m r)) eqn:He; cbn; destruct (decide (k' = k)) as [->|Hne];
      rewrite ?lookup_delete_eq, ?lookup_delete_ne, ?lookup_alter_eq, ?lookup_alter_ne, ?Hk by done; done.
  - destruct (decide (k' = k)) as [->|Hne]; rewrite ?lookup_alter_eq, ?lookup_alter_ne, ?Hk by done; done.
Qed.

Lemma fold_ageOne_lookup d m e l : forall t k, NoDup l ->
  dbStorage (fold_left (ageOne d m e) l t) !! k =
  if decide (k ∈ l)
  then (dbStorage t !! k ≫= fun r => let r := age_record d m r in if e && expired m r then None else Some r)
  else dbStorage t !! k.
Proof.
  induction l as [|k0 l IH]; intros t k Hnd; [done|]. apply NoDup_cons in Hnd as [Hin Hnd]. cbn [fold_left].
  rewrite IH, ageOne_lookup by done. destruct (decide (k = k0)) as [->|Hne].
  - rewrite decide_False by done. rewrite decide_True by (apply elem_of_cons; auto). done.
  - destruct (decide (k ∈ l)); [rewrite decide_True by (apply elem_of_cons; auto) |
      rewrite decide_False by (intros [?|?]%elem_of_cons; auto)]; done.
Qed.

(** Aging adds to every age up to the limit, and erases exactly the expired
    records when asked. *)
Lemma ageAll_lookup d m e t k :
  dbStorage (ageAll d m e t).2 !! k =
  (dbStorage t !! k ≫= fun r => let r := age_record d m r in if e && expired m r then None else Some r).
Proof.
  unfold ageAll. cbn [snd]. rewrite fold_ageOne_lookup by apply NoDup_fst_map_to_list.
  destruct (decide _) as [Hin|Hin]; [done|]. destruct (dbStorage t !! k) as [r|] eqn:Hk; [|done].
  destruct Hin. apply list_elem_of_fmap. exists (k, r). split; [done|]. apply elem_of_map_to_list. done.
Qed.

Lemma fold_ageOne_db d m l : forall t, db (fold_left (ageOne d m false) l t) = db t.
Proof.
  induction l as [|k l IH]; intros t; [done|]. cbn [fold_left]. rewrite IH. unfold ageOne.
  destruct (dbStorage _ !! k); done.
Qed.

Lemma ageAll_db d m t : db (ageAll d m false t).2 = db t.
Proof. apply fold_ageOne_db. Qed.

Lemma age_record_max r :
  in_width 16 (age (header r)) -> OSPF_MAX_AGE <= age (header r) + 1 -> age (header (age_record 1 OSPF_MAX_AGE r)) = OSPF_MAX_AGE.
Proof.
  intros [Ha1 Ha2] Hm. cbn. unfold saturatingAddAge. rewrite (wrap_small 32) by (split; lia).
  destruct (Z.leb_spec OSPF_MAX_AGE (age (header r) + 1)); [done|lia].
Qed.

(** One tick on a record that reaches the limit: it is flooded, it stays in the
    store, and it leaves the primary index. *)
Lemma onAgingTick_expired a k r :
  linked (lsdb a) -> dbStorage (lsdb a) !! k = Some r -> in_width 16 (age (header r)) -> OSPF_MAX_AGE <= age (header r) + 1 ->
  exists a' evs r', onAgingTick a = (a', evs) /\ EvFlood k FLUSH ∈ evs /\ linked (lsdb a') /\
    dbStorage (lsdb a') !! k = Some r' /\ age (header r') = OSPF_MAX_AGE /\ find (lsdb a') k = None.
Proof.
  intros Hl Hk Hw Hm. unfold onAgingTick. pose proof (age_record_max r Hw Hm) as Hage.
  set (r' := age_record 1 OSPF_MAX_AGE r) in *.
  assert (Hstore : dbStorage (ageAll 1 OSPF_MAX_AGE false (lsdb a)).2 !! k = Some r') by (rewrite ageAll_lookup, Hk; done).
  destruct (ageAll 1 OSPF_MAX_AGE false (lsdb a)) as [n t] eqn:Et. cbn [snd] in Hstore.
  assert (Hin : forall (t : LsdbTable) k r, dbStorage t !! k = Some r -> In (k, r) (map_to_list (dbStorage t))).
  { intros t0 k0 r0 H. apply list_elem_of_In, elem_of_map_to_list. done. }
  assert (Hn : (0 < n)%nat).
  { injection Et as <- _. assert (Hf : In (k, r) (List.filter (fun kr => expired OSPF_MAX_AGE (age_record 1 OSPF_MAX_AGE kr.2))
      (map_to_list (dbStorage (lsdb a))))).
    { apply filter_In. split; [auto|]. cbn [snd]. unfold expired. fold r'. rewrite Hage. done. }
    destruct (List.filter _ _); [done|]. cbn. lia. }
  assert (Hlt : linked t) by (pose proof (linked_ageAll 1 OSPF_MAX_AGE false _ Hl) as H; rewrite Et in H; done).
  rewrite (proj2 (Nat.ltb_lt _ _) Hn). eexists _, _, r'. split; [reflexivity|].
  split; [|split; [|split; [|split]]].
  - apply elem_of_app. left. apply list_elem_of_In, in_map_iff. exists (k, r'). split; [done|].
    apply filter_In. split; [auto|]. cbn [snd]. rewrite Hage. done.
  - apply linked_purge. done.
  - cbn. done.
  - done.
  - unfold find. cbn. apply map_lookup_filter_None. right. intros p Hp Ht.
    apply (db_live t Hlt) in Hp as [-> _]. unfold purge_test in Ht. cbn [snd] in Ht. rewrite Hstore in Ht.
    unfold expired in Ht. rewrite Hage in Ht. done.
Qed.

Lemma agingTicks_S n a :
  agingTicks (S n) a = let '(a, evs) := onAgingTick a in let '(a, rest) := agingTicks n a in (a, evs :: rest).
Proof. reflexivity. Qed.

(** A record that reaches the maximum age is never forgotten: every later tick
    floods it again, it stays in the store at that age, and no lookup finds
    it. *)
Theorem aged_out_lsa_flooded_forever n : forall a k r,
  linked (lsdb a) -> dbStorage (lsdb a) !! k = Some r -> in_width 16 (age (header r)) -> OSPF_MAX_AGE <= age (header r) + 1 ->
  let '(a', evs) := agingTicks (S n) a in
  length evs = S n /\ Forall (fun es => EvFlood k FLUSH ∈ es) evs /\
  (exists r', dbStorage (lsdb a') !! k = Some r' /\ age (header r') = OSPF_MAX_AGE) /\ find (lsdb a') k = None.
Proof.
  induction n as [|n IH]; intros a k r Hl Hk Hw Hm;
    destruct (onAgingTick_expired a k r Hl Hk Hw Hm) as (a1 & evs & r1 & Ht & Hev & Hl1 & Hk1 & Hage & Hfind).
  - rewrite agingTicks_S, Ht. split; [done|]. split; [by repeat constructor|]. eauto.
  - rewrite agingTicks_S, Ht. specialize (IH a1 k r1 Hl1 Hk1). rewrite Hage in IH.
    destruct (agingTicks (S n) a1) as [a2 rest]. destruct IH as (Hlen & Hall & Hr & Hf); [done | done |].
    split; [cbn; lia|]. split; [by constructor|]. auto.
Qed.

(** ** Processing an LSA *)

(** The record a lookup of [k] leads to. *)
Definition existing (t : LsdbTable) (k : LsaKey) : option LsaRecord := db t !! k ≫= fun p => dbStorage t !! p.

Lemma existing_coherent t k : coherent t -> existing t k = dbStorage t !! k.
Proof.
  intros [Hl Hd]. unfold existing. destruct (dbStorage t !! k) as [r|] eqn:Hk.
  - rewrite Hd by (rewrite Hk; done). done.
  - destruct (db t !! k) as [p|] eqn:Hp; [|done]. apply (db_live t Hl) in Hp as [-> ?]. done.
Qed.

(** The flags of a record are never set: [operator|=] works on a copy. *)
Lemma makeFlags_none ctx : makeFlags ctx = 0.
Proof. unfold makeFlags. destruct (selfOriginatedKey ctx), (checksumValid ctx); done. Qed.

(** The refresh a duplicate gets. *)
Definition refreshed (now : Z) (t : LsdbTable) (k : LsaKey) : LsdbTable := update (update t k (set_refresh now)) k (set_flags 0).

Definition decided (t : LsdbTable) (now : Z) (d : InstallResult) (k : LsaKey) : Result * LsdbTable :=
  match action d with
  | IGNORE_DUPLICATE => (mkResult 0 d (Some k), refreshed now t k)
  | _ => (mkResult 0 d None, t)
  end.

(** On a table whose pointers are good, processing is defined. *)
Lemma process_spec cfg now t ctx b :
  linked t -> let e := evaluateIncomingLsa cfg now (existing t (ctx_key ctx)) ctx b in
  process cfg now t ctx b = Ret ((decided t now e.1 (ctx_key ctx)).1, e.2, (decided t now e.1 (ctx_key ctx)).2).
Proof.
  intros Hl. unfold process, existing, find, decided. destruct (db t !! ctx_key ctx) as [p|] eqn:Hp; cbn.
  - destruct (db_live t Hl _ _ Hp) as [-> [r Hr]]. unfold deref. rewrite Hr, !outcome_bind_ret_l. cbn.
    assert (Hu : shouldUpdateAgeOnly (evaluateIncomingLsa cfg now (Some r) ctx b).1 = false).
    { unfold evaluateIncomingLsa. repeat (case_match; try done). }
    destruct (evaluateIncomingLsa cfg now (Some r) ctx b) as [d rs]. cbn [fst snd] in *.
    rewrite makeFlags_none, Hu. unfold touchRefresh. rewrite Hp. destruct (action d); cbn [db update]; rewrite ?Hp; done.
  - unfold evaluateIncomingLsa. rewrite makeFlags_none.
    destruct (negb (checksumValid ctx)); [done|]. destruct (isMaxAge _ _); done.
Qed.

(** What installation stores. *)
Definition stores (d : InstallResult) : bool :=
  match action d with FIGHT_BACK_SELF | FLUSH_MAX_AGE => true | _ => shouldStoreReplace d end.

Definition refused (cfg : AreaConfig) (a : Area) (d : InstallResult) (ctx : IncomingLsaContext) : bool :=
  newLsa d && negb (selfOriginatedKey ctx) &&
  match maxLsa cfg with Some m => m <=? Z.of_nat (size_of (lsdb a)) | None => false end.

Lemma installLsa_spec cfg now a res ctx b :
  let '(res', a', _) := installLsa cfg now a res ctx b in
  (if refused cfg a (decision res) ctx then res' = res /\ lsdb a' = lsdb a
   else if stores (decision res) then record res' = Some (ctx_key ctx) /\ lsdb a' = store now (lsdb a) ctx (res_flags res) b
   else res' = res /\ lsdb a' = lsdb a) /\
  shouldAck (decision res') = shouldAck (decision res).
Proof.
  assert (Hn : onNewLsa cfg a = (negb match maxLsa cfg with Some m => m <=? Z.of_nat (size_of (lsdb a)) | None => false end,
    (onNewLsa cfg a).1.2, (onNewLsa cfg a).2) /\ lsdb (onNewLsa cfg a).1.2 = lsdb a).
  { unfold onNewLsa. destruct (maxLsa cfg) as [m|]; [|done]. destruct (m <=? _); done. }
  destruct Hn as [Hn Hls]. unfold installLsa, refused, stores.
  destruct (newLsa (decision res)); [rewrite Hn|]; cbn [andb negb].
  - set (full := match maxLsa cfg with Some _ => _ | None => _ end). rewrite negb_involutive.
    destruct full, (selfOriginatedKey ctx), (action (decision res)), (shouldStoreReplace (decision res)); cbn; rewrite ?Hls; done.
  - destruct (action (decision res)), (shouldStoreReplace (decision res)); cbn; done.
Qed.

Lemma store_lookup now t ctx fl b k :
  dbStorage (store now t ctx fl b) !! k =
  if decide (k = ctx_key ctx) then
    Some (mkRecord (match dbStorage t !! ctx_key ctx with Some r => installTime r | None => now end) now (ctx_header ctx)
      (Some b) (ctx_interface ctx) (ctx_neighbor ctx) fl)
  else dbStorage t !! k.
Proof.
  unfold store, upsertMeta. destruct (dbStorage t !! ctx_key ctx) as [r|] eqn:Hk; cbn [dbStorage update];
    (destruct (decide (k = ctx_key ctx)) as [->|Hne];
      [rewrite lookup_alter_eq, lookup_insert_eq; done | rewrite lookup_alter_ne, lookup_insert_ne by done; done]).
Qed.

Lemma coherent_store now t ctx fl b : coherent t -> coherent (store now t ctx fl b).
Proof. intros Hc. apply coherent_update, coherent_upsert, Hc. Qed.

Lemma refreshed_lookup now t k k' :
  dbStorage (refreshed now t k) !! k' =
  if decide (k' = k) then set_flags 0 ∘ set_refresh now <$> dbStorage t !! k else dbStorage t !! k'.
Proof.
  unfold refreshed. cbn [dbStorage update]. destruct (decide (k' = k)) as [->|Hne].
  - rewrite !lookup_alter_eq. destruct (dbStorage t !! k); done.
  - rewrite !lookup_alter_ne by done. done.
Qed.

Lemma coherent_decided t now d k : coherent t -> coherent (decided t now d k).2.
Proof. intros Hc. unfold decided. destruct (action d); try done. apply coherent_update, coherent_update, Hc. Qed.

(** An LSA is acknowledged exactly when its checksum is good. *)
Lemma evaluate_ack cfg now ex ctx b : shouldAck (evaluateIncomingLsa cfg now ex ctx b).1 = checksumValid ctx.
Proof. unfold evaluateIncomingLsa. destruct (checksumValid ctx); repeat (case_match; try done). Qed.

Lemma evaluate_new cfg now ex ctx b :
  newLsa (evaluateIncomingLsa cfg now ex ctx b).1 = checksumValid ctx && match ex with None => true | _ => false end.
Proof. unfold evaluateIncomingLsa. destruct (checksumValid ctx); repeat (case_match; try done). Qed.

(** What is stored is new, or newer than what was there and not too early. *)
Lemma evaluate_stores cfg now ex ctx b :
  stores (evaluateIncomingLsa cfg now ex ctx b).1 = checksumValid ctx &&
  match ex with
  | None => true
  | Some e => match compareLsaHeaders (ctx_header ctx) (header e) with NEWER => true | _ => false end
              && (lastRefreshTime e + lsaArrival cfg * 1000000 <=? now)
  end.
Proof.
  unfold evaluateIncomingLsa, stores. destruct (checksumValid ctx); [|done]. cbn [negb andb].
  destruct ex as [e|]; [|destruct (isMaxAge _ _); done]. destruct (compareLsaHeaders _ _); try done. cbn [andb].
  destruct (Z.ltb_spec now (lastRefreshTime e + lsaArrival cfg * 1000000));
    destruct (Z.leb_spec (lastRefreshTime e + lsaArrival cfg * 1000000) now); try lia; [done|].
  repeat (case_match; try done).
Qed.

Lemma evaluate_duplicate cfg now ex ctx b :
  action (evaluateIncomingLsa cfg now ex ctx b).1 = IGNORE_DUPLICATE -> is_Some ex.
Proof. unfold evaluateIncomingLsa. destruct (checksumValid ctx); repeat (case_match; try done). Qed.

(** The state after an LSA that passes the area's filter. *)
Lemma processLsa_spec cfg now a ctx b :
  coherent (lsdb a) -> preProcess cfg ctx b = true ->
  let e := evaluateIncomingLsa cfg now (dbStorage (lsdb a) !! ctx_key ctx) ctx b in
  let d := decided (lsdb a) now e.1 (ctx_key ctx) in
  exists res a' evs, processLsa cfg now a ctx b = Ret (Some res, a', evs) /\ shouldAck (decision res) = checksumValid ctx /\
    (if stores e.1 && negb (refused cfg a e.1 ctx)
     then record res = Some (ctx_key ctx) /\ lsdb a' = store now (lsdb a) ctx 0 b
     else record res = record d.1 /\ lsdb a' = d.2).
Proof.
  intros Hc Hpre e d. unfold processLsa. rewrite Hpre. cbn [negb]. rewrite process_spec, outcome_bind_ret_l by apply Hc.
  rewrite existing_coherent by done. fold e d.
  pose proof (installLsa_spec cfg now (set_lsdb d.2 a) d.1 ctx b) as Hi.
  destruct (installLsa cfg now (set_lsdb d.2 a) d.1 ctx b) as [[res a'] evs]. destruct Hi as [Hi Hack].
  exists res, a', (evs ++ evaluateDecision res ctx e.2 ++ postProcess res ctx b). split; [done|].
  assert (Hd : decision d.1 = e.1) by (unfold d, decided; destruct (action e.1); done).
  split; [rewrite Hack, Hd; apply evaluate_ack|]. rewrite Hd in Hi.
  assert (Hsz : refused cfg (set_lsdb d.2 a) e.1 ctx = refused cfg a e.1 ctx).
  { unfold refused. cbn [lsdb set_lsdb]. replace (size_of d.2) with (size_of (lsdb a)); [done|].
    unfold d, decided. destruct (action e.1); done. }
  rewrite Hsz in Hi. destruct (refused cfg a e.1 ctx); cbn [negb]; rewrite ?andb_false_r, ?andb_true_r.
  - destruct Hi as [-> ->]. done.
  - destruct (stores e.1) eqn:Hst; [|destruct Hi as [-> ->]; done]. destruct Hi as [Hr Hls]. split; [done|].
    rewrite Hls. unfold d, decided, stores in *. destruct (action e.1) eqn:Ha; cbn in *; try done.
    exfalso. unfold e in Hst, Ha. revert Hst Ha. unfold evaluateIncomingLsa. repeat (case_match; try done).
Qed.

Lemma store_record_cases now t ctx fl b k r :
  dbStorage (store now t ctx fl b) !! k = Some r -> k = ctx_key ctx -> header r = ctx_header ctx /\ body r = Some b.
Proof. rewrite store_lookup. intros Hr ->. rewrite decide_True in Hr by done. injection Hr as <-. done. Qed.

(** C17: Processing an LSA never fails and keeps the database coherent. No other
    record changes, none disappears, and the record of the LSA's key either
    keeps its header and body or becomes the LSA itself, with a valid checksum
    and newer than what it replaces. *)
Theorem lsa_install_monotone cfg now a ctx b :
  coherent (lsdb a) ->
  exists res a' evs, processLsa cfg now a ctx b = Ret (res, a', evs) /\ coherent (lsdb a') /\
    (forall k, k <> ctx_key ctx -> dbStorage (lsdb a') !! k = dbStorage (lsdb a) !! k) /\
    match dbStorage (lsdb a) !! ctx_key ctx, dbStorage (lsdb a') !! ctx_key ctx with
    | None, None => True
    | None, Some r => header r = ctx_header ctx /\ body r = Some b /\ checksumValid ctx = true
    | Some e, Some r =>
        (header r = header e /\ body r = body e) \/
        (header r = ctx_header ctx /\ body r = Some b /\ checksumValid ctx = true /\
         compareLsaHeaders (ctx_header ctx) (header e) = NEWER /\ lastRefreshTime e + lsaArrival cfg * 1000000 <= now)
    | Some _, None => False
    end.
Proof.
  intros Hc. destruct (preProcess cfg ctx b) eqn:Hpre.
  2: { exists None, a, []. unfold processLsa. rewrite Hpre. split; [done|]. split; [done|]. split; [done|].
       destruct (dbStorage (lsdb a) !! ctx_key ctx); auto. }
  destruct (processLsa_spec cfg now a ctx b Hc Hpre) as (res & a' & evs & Hp & _ & Hcase).
  exists (Some res), a', evs. split; [done|].
  pose proof (evaluate_stores cfg now (dbStorage (lsdb a) !! ctx_key ctx) ctx b) as Hst.
  set (e := evaluateIncomingLsa cfg now _ ctx b) in *.
  destruct (stores e.1 && negb (refused cfg a e.1 ctx)) eqn:Hdo; destruct Hcase as [_ ->].
  - apply andb_true_iff in Hdo as [Hs _]. rewrite Hs in Hst. symmetry in Hst. apply andb_true_iff in Hst as [Hv Hex].
    split; [apply coherent_store; done|]. split.
    + intros k Hk. rewrite store_lookup, decide_False by done. done.
    + rewrite store_lookup, decide_True by done. destruct (dbStorage (lsdb a) !! ctx_key ctx) as [r|]; cbn; [|done].
      right. apply andb_true_iff in Hex as [Hn Ht]. apply Z.leb_le in Ht.
      destruct (compareLsaHeaders (ctx_header ctx) (header r)); done.
  - split; [apply coherent_decided; done|]. unfold decided. destruct (action e.1); cbn [snd];
      try (split; [done|]; destruct (dbStorage (lsdb a) !! ctx_key ctx); auto).
    split; [intros k Hk; rewrite refreshed_lookup, decide_False by done; done|].
    rewrite refreshed_lookup, decide_True by done. destruct (dbStorage (lsdb a) !! ctx_key ctx); cbn; auto.
Qed.

(** ** Acknowledging it *)

(** Receiving an LSA dereferences a null record exactly when its checksum is
    good and it is older than the stored instance, or it is new and refused
    because the database is full. *)
Theorem receive_undefined_iff cfg now a ctx b :
  coherent (lsdb a) -> preProcess cfg ctx b = true ->
  receiveLsa cfg now a ctx b = UB <->
  checksumValid ctx = true /\
  match dbStorage (lsdb a) !! ctx_key ctx with
  | Some e => compareLsaHeaders (ctx_header ctx) (header e) = OLDER
  | None => selfOriginatedKey ctx = false /\ exists m, maxLsa cfg = Some m /\ m <= Z.of_nat (size_of (lsdb a))
  end.
Proof.
  intros Hc Hpre. destruct (processLsa_spec cfg now a ctx b Hc Hpre) as (res & a' & evs & Hp & Hack & Hcase).
  unfold receiveLsa. rewrite Hp, outcome_bind_ret_l. unfold queueAck. rewrite Hack.
  destruct (checksumValid ctx) eqn:Hv; [|rewrite outcome_bind_ret_l; split; [done | intros [? _]; done]].
  pose proof (evaluate_stores cfg now (dbStorage (lsdb a) !! ctx_key ctx) ctx b) as Hst.
  pose proof (evaluate_new cfg now (dbStorage (lsdb a) !! ctx_key ctx) ctx b) as Hnew.
  rewrite Hv in Hst, Hnew. set (e := evaluateIncomingLsa cfg now _ ctx b) in *.
  destruct (dbStorage (lsdb a) !! ctx_key ctx) as [r|] eqn:Hk; cbn [andb] in *.
  - assert (Href : refused cfg a e.1 ctx = false) by (unfold refused; rewrite Hnew; done).
    rewrite Href, andb_true_r in Hcase. cut (record res = None <-> compareLsaHeaders (ctx_header ctx) (header r) = OLDER).
    { intros Hiff. destruct (record res); rewrite ?outcome_bind_ret_l; [|cbn; tauto]. destruct Hiff as [_ Hiff].
      split; [done|]. intros [_ Hold%Hiff]. done. }
    rewrite Hst in Hcase. unfold decided, e, evaluateIncomingLsa in Hcase. rewrite Hv in Hcase. cbn [negb] in Hcase.
    destruct (compareLsaHeaders (ctx_header ctx) (header r)); cbn [andb] in Hcase;
      [|destruct Hcase as [-> _]; done | destruct Hcase as [-> _]; done].
    destruct (Z.leb_spec (lastRefreshTime r + lsaArrival cfg * 1000000) now) as [Hle|Hlt];
      [destruct Hcase as [-> _]; done|]. rewrite (proj2 (Z.ltb_lt _ _) Hlt) in Hcase. destruct Hcase as [-> _]. done.
  - rewrite Hst in Hcase. cbn [andb] in Hcase. unfold refused in Hcase. rewrite Hnew in Hcase. cbn [andb] in Hcase.
    assert (Hdup : record (decided (lsdb a) now e.1 (ctx_key ctx)).1 = None).
    { unfold decided. destruct (action e.1) eqn:Ha; try done. apply evaluate_duplicate in Ha as [? [=]]. }
    rewrite Hdup in Hcase. destruct (selfOriginatedKey ctx); cbn [negb andb] in Hcase.
    + destruct Hcase as [-> _]. rewrite outcome_bind_ret_l. split; [done|]. intros (_ & ? & _). done.
    + destruct (maxLsa cfg) as [m|]; [destruct (Z.leb_spec m (Z.of_nat (size_of (lsdb a)))) as [Hle|Hlt]|]; cbn [negb] in Hcase;
        destruct Hcase as [-> _].
      * cbn. split; [|done]. intros _. eauto.
      * rewrite outcome_bind_ret_l. split; [done|]. intros (_ & _ & m' & [= <-] & ?). lia.
      * rewrite outcome_bind_ret_l. split; [done|]. intros (_ & _ & m' & ? & _). done.
Qed.

(** ** The arrival interval *)

(** LSAs received one after the other, with their acknowledgements. *)
Fixpoint receiveAll (cfg : AreaConfig) (a : Area) (l : list (Z * IncomingLsaContext * Body))
    : outcome (list (option LsaKey) * Area) :=
  match l with
  | [] => Ret ([], a)
  | (now, ctx, b) :: l =>
      '(ack, a, _) ← receiveLsa cfg now a ctx b;
      '(acks, a) ← receiveAll cfg a l;
      Ret (ack :: acks, a)
  end.

(** Every arrival, an instance newer than [h] of the LSA [k], follows the
    previous one within the arrival interval. *)
Fixpoint early_arrivals (cfg : AreaConfig) (k : LsaKey) (h : LsaHeader) (last : Z)
    (l : list (Z * IncomingLsaContext * Body)) : Prop :=
  match l with
  | [] => True
  | (now, ctx, b) :: l =>
      now < last + lsaArrival cfg * 1000000 /\ ctx_key ctx = k /\ checksumValid ctx = true /\
      preProcess cfg ctx b = true /\ compareLsaHeaders (ctx_header ctx) h = NEWER /\ early_arrivals cfg k h now l
  end.

(** A newer instance that arrives within the interval is acknowledged and
    dropped, and the interval starts again: as long as newer instances keep
    arriving faster than the interval, the stored one never changes. *)
Theorem early_updates_starve cfg l : forall a k e,
  coherent (lsdb a) -> dbStorage (lsdb a) !! k = Some e -> early_arrivals cfg k (header e) (lastRefreshTime e) l ->
  exists a' e', receiveAll cfg a l = Ret (map (fun _ => Some k) l, a') /\
    dbStorage (lsdb a') !! k = Some e' /\ header e' = header e /\ body e' = body e.
Proof.
  induction l as [|[[now ctx] b] l IH]; intros a k e Hc Hk Hl; [exists a, e; done|].
  destruct Hl as (Hnow & Hkey & Hv & Hpre & Hcmp & Hl). rewrite <- Hkey in Hk.
  destruct (processLsa_spec cfg now a ctx b Hc Hpre) as (res & a1 & evs & Hp & Hack & Hcase).
  rewrite Hk, evaluate_stores, Hv, Hcmp in Hcase. rewrite (proj2 (Z.leb_gt _ _) Hnow) in Hcase. cbn [andb] in Hcase.
  unfold decided, evaluateIncomingLsa in Hcase. rewrite Hv, Hcmp in Hcase. cbn [negb] in Hcase.
  rewrite (proj2 (Z.ltb_lt _ _) Hnow) in Hcase. cbn in Hcase. destruct Hcase as [Hrec Hls].
  assert (Hk1 : dbStorage (lsdb a1) !! k = Some (set_flags 0 (set_refresh now e))).
  { rewrite Hls, <- Hkey. pose proof (refreshed_lookup now (lsdb a) (ctx_key ctx) (ctx_key ctx)) as Hr.
    rewrite decide_True, Hk in Hr by done. exact Hr. }
  assert (Hc1 : coherent (lsdb a1)) by (rewrite Hls; apply coherent_update, coherent_update; done).
  destruct (IH a1 k _ Hc1 Hk1 Hl) as (a2 & e2 & Hrun & Hk2 & Hh & Hb). exists a2, e2. split; [|done].
  cbn [receiveAll]. unfold receiveLsa. rewrite Hp, outcome_bind_ret_l. unfold queueAck.
  rewrite Hack, Hv, Hrec, !outcome_bind_ret_l, Hrun, outcome_bind_ret_l, Hkey. done.
Qed.

(** ** Own LSAs *)

(** Outside the sequence-number rollover, re-originating an own LSA stores
    nothing and floods nothing: the overload for a constant body skips the
    installation. *)
Theorem own_lsa_never_installed cfg now a key opts calc refresh expire b :
  coherent (lsdb a) ->
  (forall e, dbStorage (lsdb a) !! key = Some e -> expire = true \/ sequence (header e) <> OSPF_MAX_SEQUENCE) ->
  exists a' evs, processReoriginatedLsa cfg now a key opts calc refresh expire b = Ret (a', evs) /\
    (forall k rs, EvFlood k rs ∉ evs) /\
    forall k, (fun r => (header r, body r)) <$> dbStorage (lsdb a') !! k
              = (fun r => (header r, body r)) <$> dbStorage (lsdb a) !! k.
Proof.
  intros Hc Hroll. unfold processReoriginatedLsa.
  assert (Hex : match find (lsdb a) key with None => Ret None | Some p => r ← deref (lsdb a) p; Ret (Some r) end
    = Ret (dbStorage (lsdb a) !! key)).
  { rewrite <- existing_coherent by done. unfold existing, find. destruct (db (lsdb a) !! key) as [p|] eqn:Hp; [|done].
    destruct (db_live _ (proj1 Hc) _ _ Hp) as [-> [r Hr]]. unfold deref. cbn. rewrite Hr. done. }
  rewrite Hex, outcome_bind_ret_l.
  assert (Hno : match dbStorage (lsdb a) !! key with Some e => negb expire && (sequence (header e) =? OSPF_MAX_SEQUENCE)
    | None => false end = false).
  { destruct (dbStorage (lsdb a) !! key) as [e|]; [|done]. destruct (Hroll e eq_refl) as [->|Hs]; [done|].
    rewrite (proj2 (Z.eqb_neq _ _) Hs). apply andb_false_r. }
  rewrite Hno. set (ctx := mkCtx key _ true true _ 0 0). unfold processLsa_const.
  rewrite process_spec, !outcome_bind_ret_l by apply Hc. set (d := decided _ _ _ _).
  eexists _, _. split; [reflexivity|]. split.
  - intros k rs Hin. rewrite !elem_of_app in Hin. destruct Hin as [[Hin|Hin]|Hin].
    + unfold evaluateDecision in Hin. apply elem_of_app in Hin as [Hin|Hin].
      * unfold d, decided in Hin. revert Hin. unfold evaluateIncomingLsa. repeat (case_match; simplify_eq/=; try (intros []%elem_of_nil)).
      * destruct (_ && _); [|apply elem_of_nil in Hin as []]. apply list_elem_of_singleton in Hin. done.
    + unfold postProcess in Hin. repeat (case_match; rewrite ?elem_of_app, ?list_elem_of_singleton, ?elem_of_nil in Hin);
        destruct_or?; done.
    + destruct expire; [apply list_elem_of_singleton in Hin; done | apply elem_of_nil in Hin as []].
  - intros k. cbn [lsdb set_lsdb]. unfold d, decided. destruct (action _); try done. cbn [snd].
    rewrite refreshed_lookup. destruct (decide (k = ctx_key ctx)) as [->|]; [|done].
    destruct (dbStorage (lsdb a) !! ctx_key ctx); done.
Qed.

(** After the purge, every copy received counts as new and is flooded, and
    still no lookup finds it. *)
Lemma purged_lsa_always_new cfg now a ctx b :
  linked (lsdb a) -> is_Some (dbStorage (lsdb a) !! ctx_key ctx) -> find (lsdb a) (ctx_key ctx) = None ->
  preProcess cfg ctx b = true -> checksumValid ctx = true -> maxLsa cfg = None ->
  exists res a' evs, processLsa cfg now a ctx b = Ret (Some res, a', evs) /\ EvFlood (ctx_key ctx) (reason ctx) ∈ evs /\
    linked (lsdb a') /\ is_Some (dbStorage (lsdb a') !! ctx_key ctx) /\ find (lsdb a') (ctx_key ctx) = None.
Proof.
  intros Hl [r Hr] Hf Hpre Hv Hmax. unfold processLsa. rewrite Hpre. cbn [negb].
  rewrite process_spec, outcome_bind_ret_l by done. unfold existing, find in *. rewrite Hf. cbn.
  unfold evaluateIncomingLsa. rewrite Hv. cbn [negb].
  assert (Hdb : db (store now (lsdb a) ctx 0 b) !! ctx_key ctx = None).
  { unfold store, upsertMeta. rewrite Hr. done. }
  assert (Hs : is_Some (dbStorage (store now (lsdb a) ctx 0 b) !! ctx_key ctx)) by (rewrite store_lookup, decide_True; done).
  assert (Hls : linked (store now (lsdb a) ctx 0 b)) by (apply linked_update, linked_upsert; done).
  destruct (isMaxAge _ _); unfold decided, installLsa, onNewLsa; cbn; rewrite Hmax; cbn;
    (eexists _, _, _; split; [reflexivity|]; split; [apply elem_of_cons; left; done | done]).
Qed.

End Lsdb.

(** ** Witnesses *)

Section Samples.
Definition key0 : LsaKey := mkLsaKey 2 5 6.
Definition hdr0 : LsaHeader := mkLsaHeader 10 0 32 3599 2.
Definition hdr1 : LsaHeader := mkLsaHeader 11 0 32 1 2.
Definition old0 : LsaHeader := mkLsaHeader 9 0 32 1 2.
Definition ctx0 (h : LsaHeader) : IncomingLsaContext := mkCtx key0 h true false UPDATE 1 2.
Definition cfg0 : AreaConfig := mkConfig NORMAL false 1000 None 0.
Definition kind0 (_ : nat) : BodyKind := NetworkBody.
Definition area0 : Area (Body := nat) := mkArea (store 0 clear (ctx0 hdr0) 0 7%nat) 0 false.

Lemma area0_coherent : coherent (lsdb area0).
Proof. apply coherent_store, coherent_clear. Qed.

Lemma lsdb_coherent_witness :
  (forall k, find (lsdb area0) k = if decide (is_Some (dbStorage (lsdb area0) !! k)) then Some k else None) /\
  (forall ty k p, lookup_inner (typeDb (lsdb area0)) ty k = Some p <->
     p = k /\ lsaType k = ty /\ is_Some (dbStorage (lsdb area0) !! k)) /\
  (forall a id p, lookup_inner (advDb (lsdb area0)) a id = Some p <->
     p = mkLsaKey a.1 id a.2 /\ is_Some (dbStorage (lsdb area0) !! p)) /\
  (forall ty, forEachInType (lsdb area0) ty = UB <-> forall k, lsaType k = ty -> dbStorage (lsdb area0) !! k = None).
Proof.
  apply (lsdb_coherent (lsdb area0)). eapply rtc_l; [apply (step_upsert clear 0 key0 hdr0 1 2 0)|].
  eapply rtc_l; [apply (step_body _ key0 7%nat) | apply rtc_refl].
Defined.

Lemma aged_out_lsa_flooded_forever_witness :
  let '(a', evs) := agingTicks 3 area0 in
  length evs = 3%nat /\ Forall (fun es => EvFlood key0 FLUSH ∈ es) evs /\
  (exists r', dbStorage (lsdb a') !! key0 = Some r' /\ age (header r') = OSPF_MAX_AGE) /\ find (lsdb a') key0 = None.
Proof.
  apply (aged_out_lsa_flooded_forever 2 area0 key0 (mkRecord 0 0 hdr0 (Some 7%nat) 1 2 0)).
  - apply area0_coherent.
  - vm_compute. reflexivity.
  - split; cbn; lia.
  - cbn. unfold OSPF_MAX_AGE. lia.
Defined.

Lemma lsa_install_monotone_witness :
  exists res a' evs, processLsa (fun n => n) Nat.eqb kind0 cfg0 2000000000 area0 (ctx0 hdr1) 8%nat = Ret (res, a', evs) /\
    coherent (lsdb a') /\
    (forall k, k <> ctx_key (ctx0 hdr1) -> dbStorage (lsdb a') !! k = dbStorage (lsdb area0) !! k) /\
    match dbStorage (lsdb area0) !! ctx_key (ctx0 hdr1), dbStorage (lsdb a') !! ctx_key (ctx0 hdr1) with
    | None, None => True
    | None, Some r => header r = ctx_header (ctx0 hdr1) /\ body r = Some 8%nat /\ checksumValid (ctx0 hdr1) = true
    | Some e, Some r =>
        (header r = header e /\ body r = body e) \/
        (header r = ctx_header (ctx0 hdr1) /\ body r = Some 8%nat /\ checksumValid (ctx0 hdr1) = true /\
         compareLsaHeaders (ctx_header (ctx0 hdr1)) (header e) = NEWER /\
         lastRefreshTime e + lsaArrival cfg0 * 1000000 <= 2000000000)
    | Some _, None => False
    end.
Proof. apply (lsa_install_monotone (fun n => n) Nat.eqb kind0). apply area0_coherent. Defined.

Lemma receive_undefined_iff_witness :
  receiveLsa (fun n => n) Nat.eqb kind0 cfg0 2000000000 area0 (ctx0 old0) 8%nat = UB <->
  true = true /\ match dbStorage (lsdb area0) !! key0 with
  | Some e => compareLsaHeaders old0 (header e) = OLDER
  | None => false = false /\ exists m, maxLsa cfg0 = Some m /\ m <= Z.of_nat (size_of (lsdb area0))
  end.
Proof.
  apply (receive_undefined_iff (fun n => n) Nat.eqb kind0 cfg0 2000000000 area0 (ctx0 old0) 8%nat);
    [apply area0_coherent | reflexivity].
Defined.

(** A neighbour that sends an old instance makes the router fail. *)
Example old_instance_undefined :
  receiveLsa (fun n => n) Nat.eqb kind0 cfg0 2000000000 area0 (ctx0 old0) 8%nat = UB.
Proof. vm_compute. reflexivity. Qed.

Lemma early_updates_starve_witness :
  exists a' e', receiveAll (fun n => n) Nat.eqb kind0 cfg0 area0
      [(900000000, ctx0 hdr1, 8%nat); (1800000000, ctx0 hdr1, 8%nat)] = Ret ([Some key0; Some key0], a') /\
    dbStorage (lsdb a') !! key0 = Some e' /\ header e' = hdr0 /\ body e' = Some 7%nat.
Proof.
  apply (early_updates_starve (fun n => n) Nat.eqb kind0 cfg0
    [(900000000, ctx0 hdr1, 8%nat); (1800000000, ctx0 hdr1, 8%nat)] area0 key0 (mkRecord 0 0 hdr0 (Some 7%nat) 1 2 0)).
  - apply area0_coherent.
  - vm_compute. reflexivity.
  - cbn. repeat split; lia.
Defined.

Lemma own_lsa_never_installed_witness :
  exists a' evs, processReoriginatedLsa (fun n => n) Nat.eqb kind0 cfg0 5 area0 key0 2 (fun _ => (32, 0)) false false 9%nat
      = Ret (a', evs) /\
    (forall k rs, EvFlood k rs ∉ evs) /\
    forall k, (fun r => (header r, body r)) <$> dbStorage (lsdb a') !! k
              = (fun r => (header r, body r)) <$> dbStorage (lsdb area0) !! k.
Proof.
  apply (own_lsa_never_installed (fun n => n) Nat.eqb kind0 cfg0 5 area0 key0 2 (fun _ => (32, 0)) false false 9%nat).
  - apply area0_coherent.
  - intros e He. right. vm_compute in He. injection He as <-. vm_compute. done.
Defined.
End Samples.
