(* ===== verification/LsaBodies.v ===== *)
(** * LsaBodies: the bodies of OSPF link-state advertisements

    The body types under routing/ospf/ospfv2/database and the router and
    network bodies under routing/ospf/ospfv3/database: parsing, serialisation,
    size, checksum and equality of each, and the dispatch on the LSA type when
    a body is sent (ospfv2/transmission/TxV2.cpp) and received
    (ospfv2/transmission/RxV2.cpp). The OSPFv3 prefix, link and external bodies
    are not modelled. *)

From S2P Require Import Prelude ByteUtils OspfLsa Lsdb.

(** ** OSPFv2 router LSAs *)

(** [routing/ospf/ospfv2/database/RouterLsaV2.hpp:39-44] RouterLinkV2 *)
Record RouterLinkV2 := mkLinkV2 { linkId : Z; linkData : Z; ltype : Z; lmetric : Z }.

#[export] Instance RouterLinkV2_eq_dec : EqDecision RouterLinkV2.
Proof. solve_decision. Defined.

(** [routing/ospf/ospfv2/database/RouterLsaV2.hpp:51-57] RouterLinkV2::operator== *)
Definition RouterLinkV2_eq (a b : RouterLinkV2) : bool :=
  (linkId a =? linkId b) && (linkData a =? linkData b) && (ltype a =? ltype b) && (lmetric a =? lmetric b).

(** [routing/ospf/ospfv2/database/RouterLsaV2.hpp:64-68] RouterLinkV2::operator<, the lexicographic
    order of std::tie *)
Definition RouterLinkV2_lt (a b : RouterLinkV2) : bool :=
  if negb (ltype a =? ltype b) then ltype a <? ltype b
  else if negb (linkId a =? linkId b) then linkId a <? linkId b
  else if negb (linkData a =? linkData b) then linkData a <? linkData b
  else lmetric a <? lmetric b.

(** [routing/ospf/ospfv2/database/RouterLsaV2.hpp:84-87] RouterLsaV2 *)
Record RouterLsaV2 := mkRouterV2 { rflags : Z; links : list RouterLinkV2 }.

(** [routing/ospf/ospfv2/database/RouterLsaV2.hpp:107-126] RouterLsaV2::build, its loop over the links *)
Fixpoint read_links_v2 (n : nat) (buf : bytes) (len offset : nat) : outcome (option (list RouterLinkV2)) :=
  match n with
  | O => Ret (Some [])
  | S n =>
      if (len <? offset + 12)%nat then Ret None
      else
        id ← readU32 (drop offset buf);
        dat ← readU16 (drop (offset + 4) buf);
        ty ← rd buf (offset + 8);
        tosCount ← rd buf (offset + 9);
        met ← readU16 (drop (offset + 10) buf);
        let tosBytes := (Z.to_nat tosCount * 4)%nat in
        if (len <? offset + 12 + tosBytes)%nat then Ret None
        else
          rest ← read_links_v2 n buf len (offset + 12 + tosBytes);
          Ret (option_map (cons (mkLinkV2 id dat ty met)) rest)
  end.

(** [routing/ospf/ospfv2/database/RouterLsaV2.hpp:96-129] RouterLsaV2::build *)
Definition RouterLsaV2_build (buf : bytes) (len : nat) : outcome (option RouterLsaV2) :=
  if (len <? 4)%nat then Ret None
  else
    fl ← rd buf 0;
    linkNum ← readU16 (drop 2 buf);
    ls ← read_links_v2 (Z.to_nat linkNum) buf len 4;
    Ret (option_map (mkRouterV2 fl) ls).

(** [routing/ospf/ospfv2/database/RouterLsaV2.hpp:146-154] RouterLsaV2::buildBody, its loop over the
    links: the type, the zero and the metric are written at the link's start, and a link advances
    the offset by fourteen *)
Fixpoint write_links_v2 (p : bytes) (off : nat) (ls : list RouterLinkV2) : outcome bytes :=
  match ls with
  | [] => Ret p
  | l :: ls =>
      p ← write_at writeU32 p off (linkId l);
      p ← write_at writeU32 p (off + 4) (linkData l);
      p ← wr p off (ltype l);
      p ← wr p (off + 1) 0;
      p ← write_at writeU16 p (off + 2) (lmetric l);
      write_links_v2 p (off + 14) ls
  end.

(** [routing/ospf/ospfv2/database/RouterLsaV2.hpp:137-156] RouterLsaV2::buildBody *)
Definition RouterLsaV2_buildBody (l : RouterLsaV2) (p : bytes) (o len : nat) : outcome (bool * bytes) :=
  if negb (length (links l) * 12 + 4 =? len)%nat then Ret (false, p)
  else
    p ← wr p o (rflags l);
    p ← wr p (o + 1) 0;
    p ← write_at writeU16 p (o + 2) (u16 (Z.of_nat (length (links l))));
    p ← write_links_v2 p (o + 4) (links l);
    Ret (true, p).

(** [routing/ospf/ospfv2/database/RouterLsaV2.hpp:162-165] RouterLsaV2::size *)
Definition RouterLsaV2_size (l : RouterLsaV2) : Z := u16 (4 + u16 (4 * Z.of_nat (length (links l)))).

(** [routing/ospf/ospfv2/database/RouterLsaV2.hpp:171-184] RouterLsaV2::appendChecksum *)
Definition RouterLsaV2_appendChecksum (l : RouterLsaV2) (f : ChecksumFletcher) : ChecksumFletcher :=
  fold_left (fun f k => addU16 (add (addU32 (addU32 f (linkId k)) (linkData k)) (ltype k)) (lmetric k)) (links l)
    (addU16 (add f (rflags l)) (u16 (Z.of_nat (length (links l))))).

(** [routing/ospf/ospfv2/database/RouterLsaV2.hpp:208-210] RouterLsaV2::operator==, its loop over the
    sorted links, which stops at a pair that is not unequal *)
Fixpoint links_loop_v2 (a b : list RouterLinkV2) : bool :=
  match a, b with
  | x :: a, y :: b => if negb (negb (RouterLinkV2_eq x y)) then false else links_loop_v2 a b
  | _, _ => true
  end.

(** [routing/ospf/ospfv2/database/RouterLsaV2.hpp:195-213] RouterLsaV2::operator== *)
Definition RouterLsaV2_eq (l r : RouterLsaV2) : bool :=
  if negb (rflags l =? rflags r) || negb (length (links l) =? length (links r))%nat then false
  else links_loop_v2 (isort RouterLinkV2_lt (links l)) (isort RouterLinkV2_lt (links r)).

(** ** OSPFv2 network LSAs *)

(** [routing/ospf/ospfv2/database/NetworkLsaV2.hpp:117-128] NetworkLsaV2::operator== *)
Definition NetworkLsaV2_eq (l r : NetworkLsaV2) : bool :=
  if negb (length (attachedRouters l) =? length (attachedRouters r))%nat || negb (networkMask l =? networkMask r) then false
  else bool_decide (isort Z.ltb (attachedRouters l) = isort Z.ltb (attachedRouters r)).

(** ** OSPFv2 summary, external and opaque LSAs *)

(** [routing/ospf/ospfv2/database/SummaryNetworkLsa.hpp:32-35] SummaryNetworkLsa *)
Record SummaryNetworkLsa := mkSumNet { sn_mask : Z; sn_metric : Z }.

(** [routing/ospf/ospfv2/database/SummaryNetworkLsa.hpp:43-53] SummaryNetworkLsa::build *)
Definition SummaryNetworkLsa_build (buf : bytes) (len : nat) : outcome (option SummaryNetworkLsa) :=
  if negb (len =? 8)%nat then Ret None
  else
    m ← readU32 buf;
    w ← readU32 (drop 4 buf);
    Ret (Some (mkSumNet m (Z.land w 0x00FFFFFF))).

(** [routing/ospf/ospfv2/database/SummaryNetworkLsa.hpp:61-68] SummaryNetworkLsa::buildBody *)
Definition SummaryNetworkLsa_buildBody (l : SummaryNetworkLsa) (p : bytes) (o len : nat) : outcome (bool * bytes) :=
  if negb (len =? 8)%nat then Ret (false, p)
  else
    p ← write_at writeU32 p o (sn_mask l);
    p ← write_at writeU32 p (o + 4) (sn_metric l);
    Ret (true, p).

(** [routing/ospf/ospfv2/database/SummaryNetworkLsa.hpp:83-87] SummaryNetworkLsa::appendChecksum *)
Definition SummaryNetworkLsa_appendChecksum (l : SummaryNetworkLsa) (f : ChecksumFletcher) : ChecksumFletcher :=
  addU32 (addU32 f (sn_mask l)) (sn_metric l).

(** [routing/ospf/ospfv2/database/SummaryNetworkLsa.hpp:94-97] SummaryNetworkLsa::operator== *)
Definition SummaryNetworkLsa_eq (l r : SummaryNetworkLsa) : bool :=
  (sn_mask l =? sn_mask r) && (sn_metric l =? sn_metric r).

(** [routing/ospf/ospfv2/database/SummaryRouterLsa.hpp:35-37] SummaryRouterLsa *)
Record SummaryRouterLsa := mkSumRtr { sr_metric : Z }.

(** [routing/ospf/ospfv2/database/SummaryRouterLsa.hpp:46-58] SummaryRouterLsa::build *)
Definition SummaryRouterLsa_build (buf : bytes) (len : nat) : outcome (option SummaryRouterLsa) :=
  if negb (len =? 8)%nat then Ret None
  else
    z ← readU32 buf;
    if negb (z =? 0) then Ret None
    else
      w ← readU32 (drop 4 buf);
      Ret (Some (mkSumRtr (Z.land w 0x00FFFFFF))).

(** [routing/ospf/ospfv2/database/SummaryRouterLsa.hpp:66-74] SummaryRouterLsa::buildBody *)
Definition SummaryRouterLsa_buildBody (l : SummaryRouterLsa) (p : bytes) (o len : nat) : outcome (bool * bytes) :=
  if negb (len =? 8)%nat then Ret (false, p)
  else
    p ← write_at writeU32 p o 0;
    p ← write_at writeU32 p (o + 4) (sr_metric l);
    Ret (true, p).

(** [routing/ospf/ospfv2/database/SummaryRouterLsa.hpp:89-94] SummaryRouterLsa::appendChecksum *)
Definition SummaryRouterLsa_appendChecksum (l : SummaryRouterLsa) (f : ChecksumFletcher) : ChecksumFletcher :=
  addU32 f (Z.lor (sr_metric l) 0x00FFFFFF).

(** [routing/ospf/ospfv2/database/SummaryRouterLsa.hpp:101-104] SummaryRouterLsa::operator== *)
Definition SummaryRouterLsa_eq (l r : SummaryRouterLsa) : bool := sr_metric l =? sr_metric r.

(** [routing/ospf/ospfv2/database/ExternalLsaV2.hpp:31-37] ExternalLsaV2 *)
Record ExternalLsaV2 := mkExternal {
  ex_mask : Z; ex_metric : Z; isType2 : bool; forwardingAddress : Z; routeTag : Z }.

(** [routing/ospf/ospfv2/database/ExternalLsaV2.hpp:45-61] ExternalLsaV2::build *)
Definition ExternalLsaV2_build (buf : bytes) (len : nat) : outcome (option ExternalLsaV2) :=
  if negb (len =? 16)%nat then Ret None
  else
    m ← readU32 buf;
    w ← readU32 (drop 4 buf);
    fa ← readU32 (drop 8 buf);
    t ← readU32 (drop 12 buf);
    Ret (Some (mkExternal m (Z.land w 0x7FFFFFFF) (negb (Z.land w 0x80000000 =? 0)) fa t)).

(** [routing/ospf/ospfv2/database/ExternalLsaV2.hpp:74-75] ExternalLsaV2::buildBody, the metric word *)
Definition metricWord (l : ExternalLsaV2) : Z :=
  let w := Z.land (ex_metric l) 0x7FFFFFFF in if isType2 l then Z.lor w 0x80000000 else w.

(** [routing/ospf/ospfv2/database/ExternalLsaV2.hpp:69-81] ExternalLsaV2::buildBody: an E2 route's top
    metric byte is overwritten *)
Definition ExternalLsaV2_buildBody (l : ExternalLsaV2) (p : bytes) (o len : nat) : outcome (bool * bytes) :=
  if negb (len =? 16)%nat then Ret (false, p)
  else
    p ← write_at writeU32 p o (ex_mask l);
    p ← write_at writeU32 p (o + 4) (metricWord l);
    p ← (if isType2 l then wr p (o + 4) 0x80 else Ret p);
    p ← write_at writeU32 p (o + 8) (forwardingAddress l);
    p ← write_at writeU32 p (o + 12) (routeTag l);
    Ret (true, p).

(** [routing/ospf/ospfv2/database/ExternalLsaV2.hpp:96-104] ExternalLsaV2::appendChecksum *)
Definition ExternalLsaV2_appendChecksum (l : ExternalLsaV2) (f : ChecksumFletcher) : ChecksumFletcher :=
  addU32 (addU32 (addU32 (addU32 f (ex_mask l)) (metricWord l)) (forwardingAddress l)) (routeTag l).

(** [routing/ospf/ospfv2/database/OpaqueLsaV2.hpp:36-40] OpaqueLsaV2 *)
Record OpaqueLsaV2 := mkOpaque { opaqueType : Z; opaqueId : Z; payload : bytes }.

(** [routing/ospf/ospfv2/database/OpaqueLsaV2.hpp:53-61] OpaqueLsaV2::build *)
Definition OpaqueLsaV2_build (linkStateId : Z) (buf : bytes) (len : nat) : outcome OpaqueLsaV2 :=
  if (length buf <? len)%nat then UB
  else Ret (mkOpaque (u8 (Z.shiftr linkStateId 24)) (Z.land linkStateId 0x00FFFFFF) (take len buf)).

(** [routing/ospf/ospfv2/database/OpaqueLsaV2.hpp:67-70] OpaqueLsaV2::size *)
Definition OpaqueLsaV2_size (l : OpaqueLsaV2) : Z := u16 (Z.of_nat (length (payload l))).

(** [routing/ospf/ospfv2/database/OpaqueLsaV2.hpp:78-83] OpaqueLsaV2::buildBody *)
Definition OpaqueLsaV2_buildBody (l : OpaqueLsaV2) (p : bytes) (o len : nat) : outcome (bool * bytes) :=
  if (len <? length (payload l))%nat then Ret (false, p)
  else if (length p <? o + length (payload l))%nat then UB
  else Ret (true, take o p ++ payload l ++ drop (o + length (payload l)) p).

(** [routing/ospf/ospfv2/database/OpaqueLsaV2.hpp:89-92] OpaqueLsaV2::appendChecksum *)
Definition OpaqueLsaV2_appendChecksum (l : OpaqueLsaV2) (f : ChecksumFletcher) : ChecksumFletcher :=
  addBytes f (payload l).

(** ** OSPFv3 router and network LSAs *)

(** [routing/ospf/ospfv3/database/RouterLsaV3.hpp:45-51] RouterLinkV3 *)
Record RouterLinkV3 := mkLinkV3 {
  v3type : Z; v3metric : Z; interfaceId : Z; neighborInterfaceId : Z; neighborRouterId : Z }.

(** [routing/ospf/ospfv3/database/RouterLsaV3.hpp:61-68] RouterLinkV3::operator== *)
Definition RouterLinkV3_eq (a b : RouterLinkV3) : bool :=
  (v3type a =? v3type b) && (v3metric a =? v3metric b) && (interfaceId a =? interfaceId b) &&
  (neighborInterfaceId a =? neighborInterfaceId b) && (neighborRouterId a =? neighborRouterId b).

(** [routing/ospf/ospfv3/database/RouterLsaV3.hpp:98-101] RouterLsaV3 *)
Record RouterLsaV3 := mkRouterV3 { v3options : Z; v3links : list RouterLinkV3 }.

(** [routing/ospf/ospfv3/database/RouterLsaV3.hpp:123-135] RouterLsaV3::build, its loop over the links *)
Fixpoint read_links_v3 (fuel : nat) (buf : bytes) (len off : nat) : outcome (option (list RouterLinkV3)) :=
  match fuel with
  | O => Ret None
  | S fuel =>
      if (off + 16 <=? len)%nat then
        ty ← rd buf off;
        met ← readU16 (drop (off + 2) buf);
        ifid ← readU32 (drop (off + 4) buf);
        nif ← readU32 (drop (off + 8) buf);
        nrid ← readU32 (drop (off + 12) buf);
        rest ← read_links_v3 fuel buf len (off + 16);
        Ret (option_map (cons (mkLinkV3 ty met ifid nif nrid)) rest)
      else if negb (off =? len)%nat then Ret None else Ret (Some [])
  end.

(** [routing/ospf/ospfv3/database/RouterLsaV3.hpp:113-137] RouterLsaV3::build *)
Definition RouterLsaV3_build (buf : bytes) (len : nat) : outcome (option RouterLsaV3) :=
  if (len <? 4)%nat then Ret None
  else
    opts ← readU32 buf;
    ls ← read_links_v3 (S len) buf len 4;
    Ret (option_map (mkRouterV3 opts) ls).

(** [routing/ospf/ospfv3/database/RouterLsaV3.hpp:155-165] RouterLsaV3::buildBody, its loop over the
    links *)
Fixpoint write_links_v3 (p : bytes) (off : nat) (ls : list RouterLinkV3) : outcome bytes :=
  match ls with
  | [] => Ret p
  | l :: ls =>
      p ← wr p off (v3type l);
      p ← wr p (off + 1) 0;
      p ← write_at writeU16 p (off + 2) (v3metric l);
      p ← write_at writeU32 p (off + 4) (interfaceId l);
      p ← write_at writeU32 p (off + 8) (neighborInterfaceId l);
      p ← write_at writeU32 p (off + 12) (neighborRouterId l);
      write_links_v3 p (off + 16) ls
  end.

(** [routing/ospf/ospfv3/database/RouterLsaV3.hpp:149-167] RouterLsaV3::buildBody *)
Definition RouterLsaV3_buildBody (l : RouterLsaV3) (p : bytes) (o len : nat) : outcome (bool * bytes) :=
  if negb (len =? 4 + 16 * length (v3links l))%nat then Ret (false, p)
  else
    p ← write_at writeU32 p o (v3options l);
    p ← write_links_v3 p (o + 4) (v3links l);
    Ret (true, p).

(** [routing/ospf/ospfv3/database/RouterLsaV3.hpp:176-179] RouterLsaV3::size *)
Definition RouterLsaV3_size (l : RouterLsaV3) : Z := u16 (4 + u16 (16 * Z.of_nat (length (v3links l)))).

(** [routing/ospf/ospfv3/database/RouterLsaV3.hpp:188-199] RouterLsaV3::appendChecksum *)
Definition RouterLsaV3_appendChecksum (l : RouterLsaV3) (f : ChecksumFletcher) : ChecksumFletcher :=
  fold_left (fun f k => addU32 (addU32 (addU32 (addU16 (add f (v3type k)) (v3metric k)) (interfaceId k))
    (neighborInterfaceId k)) (neighborRouterId k)) (v3links l) (addU32 f (v3options l)).

(** [routing/ospf/ospfv3/database/NetworkLsaV3.hpp:43-46] NetworkLsaV3 *)
Record NetworkLsaV3 := mkNetworkV3 { n3options : Z; n3routers : list Z }.

(** [routing/ospf/ospfv3/database/NetworkLsaV3.hpp:57-73] NetworkLsaV3::build; the loop reads the
    attached routers as in OSPFv2 *)
Definition NetworkLsaV3_build (buf : bytes) (len : nat) : outcome (option NetworkLsaV3) :=
  if (len <? 4)%nat then Ret None
  else
    opts ← readU24 (drop 1 buf);
    if negb ((len - 4) mod 4 =? 0)%nat then Ret None
    else rs ← build_routers len buf len 4; Ret (Some (mkNetworkV3 opts rs)).

(** [routing/ospf/ospfv3/database/NetworkLsaV3.hpp:85-101] NetworkLsaV3::buildBody; the first byte is
    not written *)
Definition NetworkLsaV3_buildBody (l : NetworkLsaV3) (p : bytes) (o len : nat) : outcome (bool * bytes) :=
  if (len <? 4)%nat then Ret (false, p)
  else
    p ← write_at writeU24 p (o + 1) (n3options l);
    if negb (4 + 4 * length (n3routers l) =? len)%nat then Ret (false, p)
    else p ← write_routers p (o + 4) (n3routers l); Ret (true, p).

(** [routing/ospf/ospfv3/database/NetworkLsaV3.hpp:110-113] NetworkLsaV3::size *)
Definition NetworkLsaV3_size (l : NetworkLsaV3) : Z := u16 (4 + u16 (4 * Z.of_nat (length (n3routers l)))).

(** [routing/ospf/ospfv3/database/NetworkLsaV3.hpp:122-127] NetworkLsaV3::appendChecksum *)
Definition NetworkLsaV3_appendChecksum (l : NetworkLsaV3) (f : ChecksumFletcher) : ChecksumFletcher :=
  fold_left addU32 (n3routers l) (addU24 f (n3options l)).

(** [routing/ospf/ospfv3/database/NetworkLsaV3.hpp:138-150] NetworkLsaV3::operator== *)
Definition NetworkLsaV3_eq (l r : NetworkLsaV3) : bool :=
  if negb (length (n3routers l) =? length (n3routers r))%nat || negb (n3options l =? n3options r) then false
  else bool_decide (isort Z.ltb (n3routers l) = isort Z.ltb (n3routers r)).

(** ** The variant of bodies *)

Section Bodies.
  (** The alternatives that are not modelled, with their equality, and the
      result of [std::sort] on OSPFv3 links, whose order leaves out the
      metric. *)
  Context {Other : Type} (otherEq : Other -> Other -> bool).
  Context (sort_v3 : list RouterLinkV3 -> list RouterLinkV3).

(** [routing/ospf/database/LSDB.hpp:222-237] LsaBody, std::monostate apart *)
Inductive LsaBody :=
  | RouterV2 (l : RouterLsaV2)
  | NetworkV2 (l : NetworkLsaV2)
  | SumNetV2 (l : SummaryNetworkLsa)
  | SumRtrV2 (l : SummaryRouterLsa)
  | ExtV2 (l : ExternalLsaV2)
  | OpaqueV2 (l : OpaqueLsaV2)
  | RouterV3 (l : RouterLsaV3)
  | NetworkV3 (l : NetworkLsaV3)
  | OtherLsa (l : Other).

Definition LsaBody_index (b : LsaBody) : nat :=
  match b with
  | RouterV2 _ => 1 | NetworkV2 _ => 2 | SumNetV2 _ => 3 | SumRtrV2 _ => 4 | ExtV2 _ => 5 | OpaqueV2 _ => 6
  | RouterV3 _ => 7 | NetworkV3 _ => 8 | OtherLsa _ => 9
  end.

(** [routing/ospf/ospfv3/database/RouterLsaV3.hpp:223-225] RouterLsaV3::operator==, its loop over the
    sorted links *)
Fixpoint links_loop_v3 (a b : list RouterLinkV3) : bool :=
  match a, b with
  | x :: a, y :: b => if negb (RouterLinkV3_eq x y) then false else links_loop_v3 a b
  | _, _ => true
  end.

(** [routing/ospf/ospfv3/database/RouterLsaV3.hpp:210-228] RouterLsaV3::operator== *)
Definition RouterLsaV3_eq (l r : RouterLsaV3) : bool :=
  if negb (v3options l =? v3options r) || negb (length (v3links l) =? length (v3links r))%nat then false
  else links_loop_v3 (sort_v3 (v3links l)) (sort_v3 (v3links r)).

(** [routing/ospf/area/Area.cpp:886-895] Area::compareLsaBody, the visitor: the types without an
    operator== compare equal *)
Definition LsaBody_eq (a b : LsaBody) : bool :=
  match a, b with
  | RouterV2 a, RouterV2 b => RouterLsaV2_eq a b
  | NetworkV2 a, NetworkV2 b => NetworkLsaV2_eq a b
  | SumNetV2 a, SumNetV2 b => SummaryNetworkLsa_eq a b
  | SumRtrV2 a, SumRtrV2 b => SummaryRouterLsa_eq a b
  | RouterV3 a, RouterV3 b => RouterLsaV3_eq a b
  | NetworkV3 a, NetworkV3 b => NetworkLsaV3_eq a b
  | OtherLsa a, OtherLsa b => otherEq a b
  | _, _ => true
  end.

(** [routing/ospf/ospfv2/transmission/TxV2.cpp:545-589] PacketDispatcherV2::buildLSABody, the switch:
    the opaque types fall through to the default *)
Definition writeLsaBody (type : Z) (b : option LsaBody) (p : bytes) (o len : nat) : outcome (bool * bytes) :=
  match b with
  | Some (RouterV2 l) => if type =? 1 then RouterLsaV2_buildBody l p o len else Ret (false, p)
  | Some (NetworkV2 l) => if type =? 2 then NetworkLsa_buildBody l p o len else Ret (false, p)
  | Some (SumNetV2 l) => if type =? 3 then SummaryNetworkLsa_buildBody l p o len else Ret (false, p)
  | Some (SumRtrV2 l) => if type =? 4 then SummaryRouterLsa_buildBody l p o len else Ret (false, p)
  | Some (ExtV2 l) => if (type =? 5) || (type =? 7) then ExternalLsaV2_buildBody l p o len else Ret (false, p)
  | _ => Ret (false, p)
  end.

(** [routing/ospf/ospfv2/transmission/RxV2.cpp:637-661] PacketDispatcherV2::buildLsaBody *)
Definition buildLsaBody (opaqueEnabled : bool) (type : Z) (buf : bytes) (len : nat) (lsId : Z) : outcome (option LsaBody) :=
  if type =? 1 then r ← RouterLsaV2_build buf len; Ret (option_map RouterV2 r)
  else if type =? 2 then r ← NetworkLsa_build buf len; Ret (option_map NetworkV2 r)
  else if type =? 3 then r ← SummaryNetworkLsa_build buf len; Ret (option_map SumNetV2 r)
  else if type =? 4 then r ← SummaryRouterLsa_build buf len; Ret (option_map SumRtrV2 r)
  else if (type =? 5) || (type =? 7) then r ← ExternalLsaV2_build buf len; Ret (option_map ExtV2 r)
  else if (type =? 9) || (type =? 10) || (type =? 11) then
    if negb opaqueEnabled then Ret None
    else r ← OpaqueLsaV2_build lsId buf len; Ret (Some (OpaqueV2 r))
  else Ret None.

End Bodies.

Arguments LsaBody : clear implicits.

(** ** Codecs

    What a body type promises: [image], the bytes it is on the wire, which
    [write] puts at an offset and [read] parses. *)
Class LsaCodec (A : Type) := {
  codec_wf : A -> Prop;
  codec_len : A -> nat;
  codec_write : A -> bytes -> nat -> nat -> outcome (bool * bytes);
  codec_read : bytes -> nat -> outcome (option A);
  codec_image : A -> bytes
}.

Class LsaCodecLaws (A : Type) `{LsaCodec A} := {
  codec_image_length : forall a, length (codec_image a) = codec_len a;
  codec_write_image : forall a pre t, codec_wf a -> (codec_len a <= length t)%nat ->
    codec_write a (pre ++ t) (length pre) (codec_len a) = Ret (true, pre ++ codec_image a ++ drop (codec_len a) t);
  codec_read_image : forall a t, codec_wf a -> codec_read (codec_image a ++ t) (codec_len a) = Ret (Some a)
}.

(** A body written at an offset reads back as it was and nothing else in the
    buffer changes. *)
Definition codec_roundtrips (A : Type) `{LsaCodec A} : Prop :=
  forall (a : A) pre post, codec_wf a -> (codec_len a <= length post)%nat ->
    exists p, codec_write a (pre ++ post) (length pre) (codec_len a) = Ret (true, p) /\
      codec_read (drop (length pre) p) (codec_len a) = Ret (Some a) /\
      length p = length (pre ++ post) /\ take (length pre) p = pre /\
      drop (length pre + codec_len a) p = drop (codec_len a) post.

Lemma codec_laws_roundtrip A `{LsaCodecLaws A} : codec_roundtrips A.
Proof.
  intros a pre post Hwf Hl. eexists. rewrite codec_write_image by done. split; [reflexivity|].
  rewrite drop_app_length. pose proof (codec_image_length a) as Hi.
  split; [apply codec_read_image; done|]. split; [|split].
  - rewrite !length_app, length_drop. lia.
  - apply take_app_length.
  - rewrite app_assoc, drop_app_ge by (rewrite length_app; lia). rewrite length_app.
    replace (length pre + codec_len a - (length pre + length (codec_image a)))%nat with 0%nat by lia. apply drop_0.
Qed.

Lemma write32_at a t v o : o = length a -> (4 <= length t)%nat ->
  write_at writeU32 (a ++ t) o v = Ret ((a ++ be_encode 4 v) ++ drop 4 t).
Proof. intros ->. apply write32_app. Qed.
Lemma write16_at a t v o : o = length a -> (2 <= length t)%nat ->
  write_at writeU16 (a ++ t) o v = Ret ((a ++ be_encode 2 v) ++ drop 2 t).
Proof. intros ->. apply write16_app. Qed.
Lemma write24_at a t v o : o = length a -> (3 <= length t)%nat ->
  write_at writeU24 (a ++ t) o v = Ret ((a ++ be_encode 3 v) ++ drop 3 t).
Proof. intros ->. apply write_at_app. intros. apply writeU24_spec. done. Qed.
Lemma wr_at a (t : bytes) b o : o = length a -> (1 <= length t)%nat -> wr (a ++ t) o b = Ret ((a ++ [b]) ++ drop 1 t).
Proof. intros ->. apply wr_app. Qed.
Lemma rd_at (p a t : bytes) b o : p = a ++ b :: t -> o = length a -> rd p o = Ret b.
Proof. intros -> ->. unfold rd. rewrite lookup_app_r, Nat.sub_diag by lia. done. Qed.

Ltac lens := rewrite ?length_app, ?be_encode_length, ?length_drop; cbn [length]; lia.

(** Performs the writes of a body in turn. *)
Ltac write_all :=
  repeat first
    [ rewrite write32_at by lens | rewrite write16_at by lens | rewrite write24_at by lens | rewrite wr_at by lens
    | rewrite outcome_bind_ret_l ].

Lemma land_small w m : 0 <= w -> in_width w m -> Z.land m (Z.ones w) = m.
Proof. intros Hw Hm. rewrite Z.land_ones by done. apply Z.mod_small. exact Hm. Qed.

(** Opens the image of a body and puts a written buffer in the same shape. *)
Ltac wrote :=
  rewrite ?drop_drop, <- ?app_assoc; cbn [app length];
  repeat match goal with
         | |- Ret _ = Ret _ => f_equal
         | |- (_, _) = (_, _) => f_equal
         | |- _ ++ _ = _ ++ _ => f_equal
         | |- _ :: _ = _ :: _ => f_equal
         | |- drop _ _ = drop _ _ => f_equal; lia
         | _ => reflexivity
         end.

#[export] Instance sumnet_codec : LsaCodec SummaryNetworkLsa := {
  codec_wf l := in_width 32 (sn_mask l) /\ in_width 24 (sn_metric l);
  codec_len _ := 8%nat;
  codec_write := SummaryNetworkLsa_buildBody;
  codec_read := SummaryNetworkLsa_build;
  codec_image l := be_encode 4 (sn_mask l) ++ be_encode 4 (sn_metric l)
}.

Lemma in_width_24_32 x : in_width 24 x -> in_width 32 x.
Proof. apply in_width_mono. lia. Qed.

#[export] Instance sumnet_codec_laws : LsaCodecLaws SummaryNetworkLsa.
Proof.
  constructor.
  - intros l. cbn [codec_image sumnet_codec codec_len]. lens.
  - intros l pre t _ Hl. cbn [codec_write codec_len codec_image sumnet_codec] in *. unfold SummaryNetworkLsa_buildBody.
    cbn [Nat.eqb negb]. write_all. wrote.
  - intros l t [Hm Hw]. cbn [codec_read codec_len codec_image sumnet_codec] in *. unfold SummaryNetworkLsa_build.
    cbn [Nat.eqb negb]. set (p := (_ ++ _) ++ t).
    assert (H0 : readU32 p = Ret (sn_mask l)).
    { apply (read_at32 p [] (sn_mask l) (be_encode 4 (sn_metric l) ++ t) 0); [unfold p; rewrite <- app_assoc|..]; done. }
    assert (H4 : readU32 (drop 4 p) = Ret (sn_metric l)).
    { apply (read_at32 p (be_encode 4 (sn_mask l)) (sn_metric l) t 4); [unfold p; rewrite <- app_assoc; done | lens |].
      apply in_width_24_32. done. }
    rewrite H0, outcome_bind_ret_l, H4, outcome_bind_ret_l. change 0x00FFFFFF with (Z.ones 24).
    rewrite land_small by (lia || done). destruct l. done.
Qed.

#[export] Instance sumrtr_codec : LsaCodec SummaryRouterLsa := {
  codec_wf l := in_width 24 (sr_metric l);
  codec_len _ := 8%nat;
  codec_write := SummaryRouterLsa_buildBody;
  codec_read := SummaryRouterLsa_build;
  codec_image l := be_encode 4 0 ++ be_encode 4 (sr_metric l)
}.

#[export] Instance sumrtr_codec_laws : LsaCodecLaws SummaryRouterLsa.
Proof.
  constructor.
  - intros l. cbn [codec_image sumrtr_codec codec_len]. lens.
  - intros l pre t _ Hl. cbn [codec_write codec_len codec_image sumrtr_codec] in *. unfold SummaryRouterLsa_buildBody.
    cbn [Nat.eqb negb]. write_all. wrote.
  - intros l t Hw. cbn [codec_read codec_len codec_image sumrtr_codec] in *. unfold SummaryRouterLsa_build.
    cbn [Nat.eqb negb]. set (p := (_ ++ _) ++ t).
    assert (H0 : readU32 p = Ret 0).
    { apply (read_at32 p [] 0 (be_encode 4 (sr_metric l) ++ t) 0); [unfold p; rewrite <- app_assoc|..]; done. }
    assert (H4 : readU32 (drop 4 p) = Ret (sr_metric l)).
    { apply (read_at32 p (be_encode 4 0) (sr_metric l) t 4); [unfold p; rewrite <- app_assoc; done | lens |].
      apply in_width_24_32. done. }
    rewrite H0, outcome_bind_ret_l. cbn [Z.eqb negb]. rewrite H4, outcome_bind_ret_l. change 0x00FFFFFF with (Z.ones 24).
    rewrite land_small by (lia || done). destruct l. done.
Qed.

(** The metric word of an external body: the type bit above the metric. *)
Lemma metricWord_value l : in_width 31 (ex_metric l) ->
  metricWord l = (if isType2 l then 2 ^ 31 else 0) + ex_metric l.
Proof.
  intros Hm. unfold metricWord. change 0x7FFFFFFF with (Z.ones 31). rewrite land_small by (lia || done).
  destruct (isType2 l); [|lia]. rewrite Z.lor_comm. change 0x80000000 with (Z.shiftl 1 31).
  rewrite lor_shiftl_add by (lia || done). lia.
Qed.

Lemma metricWord_fields l : in_width 31 (ex_metric l) ->
  in_width 32 (metricWord l) /\ Z.land (metricWord l) 0x7FFFFFFF = ex_metric l /\
  negb (Z.land (metricWord l) 0x80000000 =? 0) = isType2 l.
Proof.
  intros Hm. pose proof (metricWord_value l Hm) as E. destruct Hm as [Hm0 Hm1]. split; [|split].
  - rewrite E. destruct (isType2 l); split; lia.
  - change 0x7FFFFFFF with (Z.ones 31). rewrite Z.land_ones by lia. rewrite E.
    destruct (isType2 l); [|apply Z.mod_small; lia].
    rewrite Z.add_comm, <- (Z.mul_1_l (2 ^ 31)) at 1. rewrite Z.mod_add by lia. apply Z.mod_small. lia.
  - assert (Hb : Z.land (metricWord l) 0x80000000 = if isType2 l then 2 ^ 31 else 0); [|rewrite Hb; destruct (isType2 l); done].
    apply Z.bits_inj'. intros i Hi. rewrite Z.land_spec. change 0x80000000 with (2 ^ 31). rewrite Z.pow2_bits_eqb by lia.
    destruct (Z.eqb_spec 31 i) as [<-|Hne]; [|rewrite andb_false_r; destruct (isType2 l);
      [rewrite Z.pow2_bits_false by lia; done | rewrite Z.bits_0; done]].
    rewrite andb_true_r, E, Z.testbit_odd, Z.shiftr_div_pow2 by lia. destruct (isType2 l).
    + rewrite Z.add_comm, <- (Z.mul_1_l (2 ^ 31)) at 1. rewrite Z.div_add, Z.div_small by lia. done.
    + rewrite Z.div_small by lia. done.
Qed.

(** The top byte of an E2 route's metric word. *)
Lemma metricWord_encode l : isType2 l = true -> in_width 24 (ex_metric l) ->
  be_encode 4 (metricWord l) = 0x80 :: drop 1 (be_encode 4 (metricWord l)).
Proof.
  intros Ht Hm. assert (H31 : in_width 31 (ex_metric l)) by (eapply in_width_mono; [|exact Hm]; lia).
  pose proof (metricWord_value l H31) as E. rewrite Ht in E.
  cbn [be_encode drop]. f_equal. rewrite land_255, Z.shiftr_div_pow2, E by lia. change (8 * Z.of_nat 3) with 24.
  change (2 ^ 31) with (2 ^ 7 * 2 ^ 24). rewrite Z.add_comm, Z.div_add, Z.div_small by (done || lia). done.
Qed.

#[export] Instance external_codec : LsaCodec ExternalLsaV2 := {
  codec_wf l := in_width 32 (ex_mask l) /\ in_width (if isType2 l then 24 else 31) (ex_metric l) /\
    in_width 32 (forwardingAddress l) /\ in_width 32 (routeTag l);
  codec_len _ := 16%nat;
  codec_write := ExternalLsaV2_buildBody;
  codec_read := ExternalLsaV2_build;
  codec_image l := be_encode 4 (ex_mask l) ++ be_encode 4 (metricWord l) ++ be_encode 4 (forwardingAddress l) ++
    be_encode 4 (routeTag l)
}.

(** The write that repeats an E2 route's top metric byte changes nothing. *)
Lemma rewrite_top_byte l (a t : bytes) o :
  in_width (if isType2 l then 24 else 31) (ex_metric l) -> o = length a ->
  (if isType2 l then wr ((a ++ be_encode 4 (metricWord l)) ++ t) o 0x80 else Ret ((a ++ be_encode 4 (metricWord l)) ++ t))
  = Ret ((a ++ be_encode 4 (metricWord l)) ++ t).
Proof.
  intros Hm ->. destruct (isType2 l) eqn:Ht; [|done]. rewrite metricWord_encode by done.
  rewrite <- !app_assoc. cbn [app]. rewrite wr_ret by (rewrite length_app; cbn [length]; lia).
  rewrite insert_app_r_alt, Nat.sub_diag by lia. done.
Qed.

#[export] Instance external_codec_laws : LsaCodecLaws ExternalLsaV2.
Proof.
  constructor.
  - intros l. cbn [codec_image external_codec codec_len]. lens.
  - intros l pre t (_ & Hm & _) Hl. cbn [codec_write codec_len codec_image external_codec] in *.
    unfold ExternalLsaV2_buildBody. cbn [Nat.eqb negb]. write_all. rewrite rewrite_top_byte by (done || lens). write_all. wrote.
  - intros l t (Hk & Hm & Hf & Ht). cbn [codec_read codec_len codec_image external_codec] in *. unfold ExternalLsaV2_build.
    cbn [Nat.eqb negb].
    assert (H31 : in_width 31 (ex_metric l)) by (destruct (isType2 l); [eapply in_width_mono; [|exact Hm]; lia | done]).
    destruct (metricWord_fields l H31) as (Hw & Hm' & Ht').
    set (p := (_ ++ _) ++ t). set (e0 := be_encode 4 (ex_mask l)). set (e4 := e0 ++ be_encode 4 (metricWord l)).
    set (e8 := e4 ++ be_encode 4 (forwardingAddress l)).
    assert (Hp : p = e0 ++ be_encode 4 (metricWord l) ++ be_encode 4 (forwardingAddress l) ++ be_encode 4 (routeTag l) ++ t)
      by (unfold p; rewrite <- !app_assoc; done).
    assert (H0 : readU32 p = Ret (ex_mask l)) by (apply (read_at32 p [] (ex_mask l) _ 0 Hp); done).
    assert (H4 : readU32 (drop 4 p) = Ret (metricWord l)) by (apply (read_at32 p e0 _ _ 4 Hp); [unfold e0; lens|done]).
    assert (H8 : readU32 (drop 8 p) = Ret (forwardingAddress l)).
    { apply (read_at32 p e4 _ (be_encode 4 (routeTag l) ++ t) 8); [rewrite Hp; unfold e4; rewrite <- app_assoc; done | unfold e4, e0; lens | done]. }
    assert (H12 : readU32 (drop 12 p) = Ret (routeTag l)).
    { apply (read_at32 p e8 _ t 12); [rewrite Hp; unfold e8, e4; rewrite <- !app_assoc; done | unfold e8, e4, e0; lens | done]. }
    rewrite H0, outcome_bind_ret_l, H4, outcome_bind_ret_l, H8, outcome_bind_ret_l, H12, outcome_bind_ret_l, Hm', Ht'.
    destruct l. done.
Qed.

#[export] Instance network_codec : LsaCodec NetworkLsaV2 := {
  codec_wf l := in_width 32 (networkMask l) /\ Forall (in_width 32) (attachedRouters l);
  codec_len l := (length (attachedRouters l) * 4 + 4)%nat;
  codec_write := NetworkLsa_buildBody;
  codec_read := NetworkLsa_build;
  codec_image := body_image
}.

#[export] Instance network_codec_laws : LsaCodecLaws NetworkLsaV2.
Proof.
  constructor; cbn [codec_write codec_len codec_image codec_read codec_wf network_codec].
  - intros l. rewrite body_image_length. lia.
  - intros l pre t _ Hl. rewrite NetworkLsa_buildBody_spec by lia. do 4 f_equal. f_equal. lia.
  - intros l t [Hm Hr]. apply NetworkLsa_build_image; done.
Qed.

(** *** OSPFv3 *)

Definition link_image (k : RouterLinkV3) : bytes :=
  [v3type k; 0] ++ be_encode 2 (v3metric k) ++ be_encode 4 (interfaceId k) ++ be_encode 4 (neighborInterfaceId k) ++
  be_encode 4 (neighborRouterId k).
Definition links_image (ls : list RouterLinkV3) : bytes := concat (link_image <$> ls).

Lemma link_image_length k : length (link_image k) = 16%nat.
Proof. unfold link_image. lens. Qed.

Lemma links_image_cons k ls : links_image (k :: ls) = link_image k ++ links_image ls.
Proof. reflexivity. Qed.

Lemma links_image_length ls : length (links_image ls) = (16 * length ls)%nat.
Proof. induction ls as [|k ls IH]; [done|]. rewrite links_image_cons, length_app, link_image_length, IH. cbn [length]. lia. Qed.

Definition link_wf (k : RouterLinkV3) : Prop :=
  in_width 8 (v3type k) /\ in_width 16 (v3metric k) /\ in_width 32 (interfaceId k) /\
  in_width 32 (neighborInterfaceId k) /\ in_width 32 (neighborRouterId k).

#[export] Instance link_wf_dec k : Decision (link_wf k).
Proof. unfold link_wf. apply _. Defined.

Lemma write_links_v3_spec ls : forall a t o,
  o = length a -> (16 * length ls <= length t)%nat ->
  write_links_v3 (a ++ t) o ls = Ret (a ++ links_image ls ++ drop (16 * length ls) t).
Proof.
  induction ls as [|k ls IH]; intros a t o -> Hl; [done|]. cbn [length] in Hl. cbn [write_links_v3].
  write_all. rewrite IH by lens. rewrite links_image_cons. unfold link_image. wrote.
Qed.

Lemma read_link_v3 a k t p o :
  link_wf k -> p = a ++ link_image k ++ t -> o = length a ->
  rd p o = Ret (v3type k) /\ readU16 (drop (o + 2) p) = Ret (v3metric k) /\
  readU32 (drop (o + 4) p) = Ret (interfaceId k) /\ readU32 (drop (o + 8) p) = Ret (neighborInterfaceId k) /\
  readU32 (drop (o + 12) p) = Ret (neighborRouterId k).
Proof.
  intros (Hty & Hm & Hi & Hn & Hr) -> ->. unfold link_image.
  set (a2 := a ++ [v3type k; 0]). set (a4 := a2 ++ be_encode 2 (v3metric k)).
  set (a8 := a4 ++ be_encode 4 (interfaceId k)). set (a12 := a8 ++ be_encode 4 (neighborInterfaceId k)).
  assert (L2 : length a2 = (length a + 2)%nat) by (unfold a2; lens).
  assert (L4 : length a4 = (length a + 4)%nat) by (unfold a4, a2; lens).
  assert (L8 : length a8 = (length a + 8)%nat) by (unfold a8, a4, a2; lens).
  assert (L12 : length a12 = (length a + 12)%nat) by (unfold a12, a8, a4, a2; lens).
  split; [eapply (rd_at _ a); [rewrite <- ?app_assoc; cbn [app]; reflexivity | done]|].
  split; [eapply (read_at16 _ a2); [unfold a2; rewrite <- ?app_assoc; reflexivity | lia | done]|].
  split; [eapply (read_at32 _ a4); [unfold a4, a2; rewrite <- ?app_assoc; reflexivity | lia | done]|].
  split; [eapply (read_at32 _ a8); [unfold a8, a4, a2; rewrite <- ?app_assoc; reflexivity | lia | done]|].
  eapply (read_at32 _ a12); [unfold a12, a8, a4, a2; rewrite <- ?app_assoc; reflexivity | lia | done].
Qed.

Lemma read_links_v3_spec ls : forall fuel a t len,
  Forall link_wf ls -> len = (length a + 16 * length ls)%nat -> (length ls < fuel)%nat ->
  read_links_v3 fuel (a ++ links_image ls ++ t) len (length a) = Ret (Some ls).
Proof.
  induction ls as [|k ls IH]; intros fuel a t len Hw -> Hf; destruct fuel as [|fuel]; cbn [length] in Hf; try lia.
  - cbn [read_links_v3 length]. rewrite (proj2 (Nat.leb_gt _ _)), (proj2 (Nat.eqb_eq _ _)) by lia. done.
  - apply Forall_cons in Hw as [Hk Hw]. cbn [read_links_v3]. rewrite (proj2 (Nat.leb_le _ _)) by (cbn [length]; lia).
    rewrite links_image_cons, <- app_assoc.
    destruct (read_link_v3 a k (links_image ls ++ t) _ _ Hk eq_refl eq_refl) as (-> & H2 & H4 & H8 & H12).
    rewrite outcome_bind_ret_l, H2, outcome_bind_ret_l, H4, outcome_bind_ret_l, H8, outcome_bind_ret_l, H12, outcome_bind_ret_l.
    rewrite app_assoc. replace (length a + 16)%nat with (length (a ++ link_image k)) by (rewrite length_app, link_image_length; lia).
    rewrite IH; [destruct k; done | done | rewrite length_app, link_image_length; cbn [length]; lia | lia].
Qed.

#[export] Instance routerv3_codec : LsaCodec RouterLsaV3 := {
  codec_wf l := in_width 32 (v3options l) /\ Forall link_wf (v3links l);
  codec_len l := (4 + 16 * length (v3links l))%nat;
  codec_write := RouterLsaV3_buildBody;
  codec_read := RouterLsaV3_build;
  codec_image l := be_encode 4 (v3options l) ++ links_image (v3links l)
}.

#[export] Instance routerv3_codec_laws : LsaCodecLaws RouterLsaV3.
Proof.
  constructor; cbn [codec_write codec_len codec_image codec_read codec_wf routerv3_codec].
  - intros l. rewrite length_app, be_encode_length, links_image_length. lia.
  - intros l pre t _ Hl. unfold RouterLsaV3_buildBody. rewrite Nat.eqb_refl. cbn [negb]. write_all.
    rewrite write_links_v3_spec, outcome_bind_ret_l by lens. wrote.
  - intros l t [Ho Hls]. unfold RouterLsaV3_build. rewrite (proj2 (Nat.ltb_ge _ _)) by lia. rewrite <- app_assoc.
    pose proof (read32_app [] (v3options l) (links_image (v3links l) ++ t) Ho) as Hr. cbn [app length] in Hr.
    rewrite drop_0 in Hr. rewrite Hr, outcome_bind_ret_l.
    pose proof (read_links_v3_spec (v3links l) (S (4 + 16 * length (v3links l))) (be_encode 4 (v3options l)) t
      (4 + 16 * length (v3links l)) Hls) as Hls'. rewrite be_encode_length in Hls'.
    rewrite Hls' by lia. rewrite outcome_bind_ret_l. destruct l. done.
Qed.

(** *** Bodies that encode themselves *)



(** The size on the wire of these bodies is the one their class computes, as
    long as it fits sixteen bits. *)
Lemma codec_sizes (n : NetworkLsaV2) (r : RouterLsaV3) :
  (in_width 16 (Z.of_nat (codec_len n)) -> NetworkLsa_size n = Z.of_nat (codec_len n)) /\
  (in_width 16 (Z.of_nat (codec_len r)) -> RouterLsaV3_size r = Z.of_nat (codec_len r)).
Proof.
  cbn [codec_len network_codec routerv3_codec]. split; intros H.
  - unfold NetworkLsa_size. rewrite wrap_small; [lia|]. unfold in_width in *. lia.
  - unfold RouterLsaV3_size. rewrite (wrap_small 16 (16 * _)), wrap_small; unfold in_width in *; lia.
Qed.

(** A body sent by the dispatch of the transmitter is parsed by the dispatch of
    the receiver as that body. *)
Lemma dispatch_external {Other} oe ty (l : ExternalLsaV2) pre post lsId :
  ty = 5 \/ ty = 7 -> codec_wf l -> (16 <= length post)%nat ->
  exists p, writeLsaBody (Other := Other) ty (Some (ExtV2 l)) (pre ++ post) (length pre) 16 = Ret (true, p) /\
    buildLsaBody (Other := Other) oe ty (drop (length pre) p) 16 lsId = Ret (Some (ExtV2 l)).
Proof.
  intros Hty Hwf Hl. destruct (codec_laws_roundtrip ExternalLsaV2 l pre post Hwf Hl) as (p & Hw & Hr & _).
  exists p. cbn [codec_write codec_read codec_len external_codec] in *.
  unfold writeLsaBody, buildLsaBody. destruct Hty as [-> | ->]; cbn [Z.eqb orb Pos.eqb]; rewrite Hw, Hr; done.
Qed.

(** *** The OSPFv3 network body *)

(** It reads back as it was, but its first byte is the one the buffer held. *)
Lemma NetworkLsaV3_roundtrip (l : NetworkLsaV3) pre b post :
  in_width 24 (n3options l) -> Forall (in_width 32) (n3routers l) -> (3 + 4 * length (n3routers l) <= length post)%nat ->
  let n := (4 + 4 * length (n3routers l))%nat in
  exists p, NetworkLsaV3_buildBody l (pre ++ b :: post) (length pre) n = Ret (true, p) /\
    NetworkLsaV3_build (drop (length pre) p) n = Ret (Some l) /\ p !! length pre = Some b.
Proof.
  intros Ho Hr Hl n. unfold NetworkLsaV3_buildBody, NetworkLsaV3_build, n.
  rewrite (proj2 (Nat.ltb_ge _ _)) by lia. rewrite Nat.eqb_refl. cbn [negb].
  replace (pre ++ b :: post) with ((pre ++ [b]) ++ post) by (rewrite <- app_assoc; done).
  rewrite write24_at, outcome_bind_ret_l by lens.
  rewrite write_routers_spec, outcome_bind_ret_l by lens. eexists. split; [reflexivity|]. split.
  - rewrite <- !app_assoc, drop_app_length. cbn [app].
    change (drop 1 (b :: ?q)) with q.
    assert (H24 : forall q, readU24 (be_encode 3 (n3options l) ++ q) = Ret (n3options l)).
    { intros q. pose proof (be_decode_encode 3 (n3options l)) as Hd. rewrite wrap_small in Hd by done.
      pose proof (be_encode_bytes 3 (n3options l)) as Hb.
      destruct (be_encode 3 (n3options l)) as [|x [|y [|z [|]]]] eqn:E; try done.
      assert (Hr3 : readU24 [x; y; z] = Ret (be_decode [x; y; z])) by (apply (readU24_spec [x; y; z]); [done | cbn; lia]).
      rewrite <- Hd, <- Hr3. done. }
    rewrite H24, outcome_bind_ret_l. replace (4 + 4 * length (n3routers l) - 4)%nat with (length (n3routers l) * 4)%nat by lia.
    rewrite Nat.Div0.mod_mul. cbn [Nat.eqb negb].
    pose proof (build_routers_spec (n3routers l) (4 + 4 * length (n3routers l)) (b :: be_encode 3 (n3options l))
      (drop (4 * length (n3routers l)) (drop 3 post)) (4 + 4 * length (n3routers l)) Hr) as Hb.
    cbn [length app] in Hb. rewrite be_encode_length in Hb. rewrite Hb by lia. destruct l. done.
  - rewrite <- !app_assoc, lookup_app_r, Nat.sub_diag by lia. done.
Qed.

(** *** The OSPFv2 router body *)

Lemma write32_ub p o v : (length p < o + 4)%nat -> write_at writeU32 p o v = UB.
Proof.
  intros Hl. unfold write_at. assert (Hd : (length (drop o p) < 4)%nat) by (rewrite length_drop; lia).
  destruct (drop o p) as [|x [|y [|z [|w q]]]]; cbn [length] in Hd; try lia; reflexivity.
Qed.

Lemma write_at_length w n p o v :
  (forall dest, (n <= length dest)%nat -> w dest v = Ret (be_encode n v ++ drop n dest)) ->
  (o + n <= length p)%nat -> exists q, write_at w p o v = Ret q /\ length q = length p.
Proof.
  intros Hw Hl. rewrite <- (take_drop o p). assert (Ho : length (take o p) = o) by (rewrite length_take; lia).
  set (a := take o p) in *. set (t := drop o p). rewrite <- Ho.
  rewrite (write_at_app n) by (done || (unfold t; rewrite length_drop; lia)).
  eexists. split; [reflexivity|]. unfold t. rewrite !length_app, be_encode_length, !length_drop. lia.
Qed.

Lemma wr_length p o b : (o < length p)%nat -> exists q, wr p o b = Ret q /\ length q = length p.
Proof. intros H. rewrite wr_ret by done. eexists. split; [reflexivity|]. apply length_insert. Qed.

(** The writes of the links run past a buffer that ends before the last
    link's second word. *)
Lemma write_links_v2_ub ls : forall p off,
  ls <> [] -> (length p < off + 14 * length ls - 6)%nat -> write_links_v2 p off ls = UB.
Proof.
  induction ls as [|l ls IH]; intros p off Hne Hl; [done|]. cbn [write_links_v2 length] in *.
  destruct (decide (off + 8 <= length p)%nat) as [Hok|Hov].
  - destruct (write_at_length writeU32 4 p off (linkId l)) as (p1 & -> & L1); [intros; apply writeU32_spec; done|lia|].
    rewrite outcome_bind_ret_l.
    destruct (write_at_length writeU32 4 p1 (off + 4) (linkData l)) as (p2 & -> & L2); [intros; apply writeU32_spec; done|lia|].
    rewrite outcome_bind_ret_l. destruct (wr_length p2 off (ltype l)) as (p3 & -> & L3); [lia|]. rewrite outcome_bind_ret_l.
    destruct (wr_length p3 (off + 1) 0) as (p4 & -> & L4); [lia|]. rewrite outcome_bind_ret_l.
    destruct (write_at_length writeU16 2 p4 (off + 2) (lmetric l)) as (p5 & -> & L5); [intros; apply writeU16_spec; done|lia|].
    rewrite outcome_bind_ret_l. destruct ls as [|l' ls]; [cbn [length] in Hl; lia|]. apply IH; [done | lia].
  - destruct (decide (off + 4 <= length p)%nat) as [Hok'|Hov'].
    + destruct (write_at_length writeU32 4 p off (linkId l)) as (p1 & -> & L1); [intros; apply writeU32_spec; done|lia|].
      rewrite outcome_bind_ret_l, write32_ub by lia. done.
    + rewrite write32_ub by lia. done.
Qed.

(** A router LSA with links is never serialised in the size its class
    computes, and in the size [buildBody] asks for, it is written past the end
    of the buffer from four links on. *)
Theorem router_v2_unencodable (l : RouterLsaV2) (p : bytes) :
  links l <> [] ->
  RouterLsaV2_buildBody l p 0 (Z.to_nat (RouterLsaV2_size l)) = Ret (false, p) /\
  ((4 <= length (links l))%nat -> length p = (length (links l) * 12 + 4)%nat ->
   RouterLsaV2_buildBody l p 0 (length p) = UB).
Proof.
  intros Hne. assert (Hn : (0 < length (links l))%nat) by (destruct (links l); [done|cbn; lia]).
  split.
  - unfold RouterLsaV2_buildBody. destruct (Nat.eqb_spec (length (links l) * 12 + 4) (Z.to_nat (RouterLsaV2_size l))) as [E|]; [|done].
    exfalso. unfold RouterLsaV2_size, wrap in E.
    assert (H1 : (4 * Z.of_nat (length (links l))) mod 2 ^ 16 <= 4 * Z.of_nat (length (links l))) by (apply Z.mod_le; lia).
    assert (H2 : 0 <= (4 * Z.of_nat (length (links l))) mod 2 ^ 16) by (apply Z.mod_pos_bound; lia).
    assert (H3 : (4 + (4 * Z.of_nat (length (links l))) mod 2 ^ 16) mod 2 ^ 16 <= 4 + (4 * Z.of_nat (length (links l))) mod 2 ^ 16)
      by (apply Z.mod_le; lia).
    lia.
  - intros H4 Hp. unfold RouterLsaV2_buildBody. rewrite Hp, Nat.eqb_refl. cbn [negb].
    destruct (wr_length p 0 (rflags l)) as (p1 & -> & L1); [lia|]. rewrite outcome_bind_ret_l.
    destruct (wr_length p1 (0 + 1) 0) as (p2 & -> & L2); [lia|]. rewrite outcome_bind_ret_l.
    destruct (write_at_length writeU16 2 p2 (0 + 2) (u16 (Z.of_nat (length (links l))))) as (p3 & -> & L3);
      [intros; apply writeU16_spec; done|lia|].
    rewrite outcome_bind_ret_l, write_links_v2_ub by (done || lia). done.
Qed.

Definition ex_link (i : Z) : RouterLinkV2 := mkLinkV2 (0x0A000000 + i) (0xC0A80000 + i) 1 10.

Lemma router_v2_unencodable_witness :
  let l := mkRouterV2 0 [ex_link 1; ex_link 2; ex_link 3; ex_link 4] in
  RouterLsaV2_buildBody l (repeat 0 52) 0 (Z.to_nat (RouterLsaV2_size l)) = Ret (false, repeat 0 52) /\
  ((4 <= 4)%nat -> length (repeat 0 52) = 52%nat -> RouterLsaV2_buildBody l (repeat 0 52) 0 (length (repeat 0 52)) = UB).
Proof. cbn zeta. apply (router_v2_unencodable (mkRouterV2 0 [ex_link 1; ex_link 2; ex_link 3; ex_link 4]) (repeat 0 52)). done. Defined.

(** A single link already comes back with another link ID. *)
Example router_v2_one_link :
  let l := mkRouterV2 0 [ex_link 1] in
  (x ← RouterLsaV2_buildBody l (repeat 0 16) 0 16; RouterLsaV2_build x.2 16)
  = Ret (Some (mkRouterV2 0 [mkLinkV2 0x0100000A 0xC0A8 0 0])).
Proof. vm_compute. reflexivity. Qed.

(** *** Equality of router bodies *)

Lemma RouterLinkV2_eq_true a b : RouterLinkV2_eq a b = true <-> a = b.
Proof.
  unfold RouterLinkV2_eq. rewrite !andb_true_iff, !Z.eqb_eq. destruct a, b; cbn. split; [|intros [=]; tauto].
  intros (((-> & ->) & ->) & ->). done.
Qed.

Lemma links_loop_v2_true a b :
  length a = length b -> links_loop_v2 a b = true <-> Forall2 (fun x y => x <> y) a b.
Proof.
  revert b. induction a as [|x a IH]; intros [|y b] Hl; cbn [length] in Hl; try done; cbn [links_loop_v2].
  rewrite Forall2_cons. destruct (RouterLinkV2_eq x y) eqn:E; cbn [negb].
  - apply RouterLinkV2_eq_true in E as ->. split; [done | intros [? _]; done].
  - rewrite IH by lia. split; [intros; split; [intros ->|done]|tauto].
    rewrite (proj2 (RouterLinkV2_eq_true y y)) in E by done. done.
Qed.

(** Two router bodies compare equal exactly when their flags and link counts
    agree and their sorted links differ in every position. *)
Lemma RouterLsaV2_eq_true l r :
  RouterLsaV2_eq l r = true <->
  rflags l = rflags r /\ length (links l) = length (links r) /\
  Forall2 (fun x y => x <> y) (isort RouterLinkV2_lt (links l)) (isort RouterLinkV2_lt (links r)).
Proof.
  unfold RouterLsaV2_eq. destruct (Z.eqb_spec (rflags l) (rflags r)) as [Ef|Ef]; cbn [negb orb];
    [|split; [done | intros (? & _); done]].
  destruct (Nat.eqb_spec (length (links l)) (length (links r))) as [El|El]; cbn [negb orb];
    [|split; [done | intros (_ & ? & _); done]].
  rewrite links_loop_v2_true by (rewrite !isort_length; done). tauto.
Qed.

(** A body with a link never equals itself. *)
Lemma RouterLsaV2_eq_self l : links l <> [] -> RouterLsaV2_eq l l = false.
Proof.
  intros Hne. apply not_true_iff_false. rewrite RouterLsaV2_eq_true. intros (_ & _ & H).
  destruct (isort RouterLinkV2_lt (links l)) as [|x q] eqn:E.
  - apply Hne. apply length_zero_iff_nil. rewrite <- (isort_length RouterLinkV2_lt), E. done.
  - apply Forall2_cons in H as [H _]. done.
Qed.

(** What the receiver concludes from a newer instance of a router LSA whose
    acceptance is not delayed: the topology is taken as unchanged exactly when
    every sorted link differs, so that a refresh with the same links counts as
    a change, and a new metric on a single link as a refresh. *)
Theorem router_lsa_change_inverted {Other} (otherEq : Other -> Other -> bool) sort_v3 cfg now e ctx old new :
  body e = Some (RouterV2 (Other := Other) old) ->
  isV3 cfg = false -> lsaType (ctx_key ctx) = 1 -> checksumValid ctx = true -> selfOriginatedKey ctx = false ->
  compareLsaHeaders (ctx_header ctx) (header e) = NEWER -> lastRefreshTime e + lsaArrival cfg * 1000000 <= now ->
  age (ctx_header ctx) <> OSPF_MAX_AGE ->
  let r := evaluateIncomingLsa LsaBody_index (LsaBody_eq otherEq sort_v3) cfg now (Some e) ctx (RouterV2 new) in
  action r.1 = INSTALL_NEWER /\
  (topologyChanged r.1 = false <->
   rflags old = rflags new /\ length (links old) = length (links new) /\
   Forall2 (fun x y => x <> y) (isort RouterLinkV2_lt (links old)) (isort RouterLinkV2_lt (links new))) /\
  (new = old -> links old <> [] -> topologyChanged r.1 = true).
Proof.
  intros Hb Hv Hty Hck Hself Hnew Harr Hage r. rewrite <- RouterLsaV2_eq_true.
  assert (Hr : r = (if negb (RouterLsaV2_eq old new)
    then (install_with INSTALL_NEWER NEWER false true true true true true false, reason ctx)
    else (install_with INSTALL_NEWER NEWER false true true true false true false, REFRESH))).
  { unfold r, evaluateIncomingLsa. rewrite Hck, Hnew, Hself, Hv, Hty, Hb. cbn [negb affects andb Z.leb Z.compare Pos.compare Pos.compare_cont].
    rewrite (proj2 (Z.ltb_ge _ _)), (proj2 (Z.eqb_neq _ _)) by done. cbn [compareLsaBody LsaBody_index Nat.eqb LsaBody_eq].
    destruct (RouterLsaV2_eq old new); done. }
  rewrite Hr. destruct (RouterLsaV2_eq old new) eqn:E; cbn [negb fst topologyChanged action install_with]; split_all; try done.
  intros -> Hne. rewrite RouterLsaV2_eq_self in E; done.
Qed.

Lemma router_lsa_change_inverted_witness :
  let old := mkRouterV2 0 [mkLinkV2 2 3 1 10] in let new := mkRouterV2 0 [mkLinkV2 2 3 1 20] in
  let e := mkRecord 0 0 (mkLsaHeader 5 1 36 1 2) (Some (RouterV2 (Other := Empty_set) old)) 1 1 0 in
  let ctx := mkCtx (mkLsaKey 1 9 9) (mkLsaHeader 6 1 36 1 2) true false UPDATE 1 1 in
  let r := evaluateIncomingLsa LsaBody_index (LsaBody_eq (fun _ _ => true) (fun l => l))
    (mkConfig NORMAL false 1000 None 0) 10000000000 (Some e) ctx (RouterV2 new) in
  action r.1 = INSTALL_NEWER /\
  (topologyChanged r.1 = false <->
   rflags old = rflags new /\ length (links old) = length (links new) /\
   Forall2 (fun x y => x <> y) (isort RouterLinkV2_lt (links old)) (isort RouterLinkV2_lt (links new))) /\
  (new = old -> links old <> [] -> topologyChanged r.1 = true).
Proof.
  apply (router_lsa_change_inverted (Other := Empty_set) (fun _ _ => true) (fun l => l) (mkConfig NORMAL false 1000 None 0) 10000000000
    (mkRecord 0 0 (mkLsaHeader 5 1 36 1 2) (Some (RouterV2 (Other := Empty_set) (mkRouterV2 0 [mkLinkV2 2 3 1 10]))) 1 1 0)
    (mkCtx (mkLsaKey 1 9 9) (mkLsaHeader 6 1 36 1 2) true false UPDATE 1 1)); first [reflexivity | vm_compute; discriminate].
Defined.
