(* ===== verification/SpfTopology.v ===== *)
(** * SpfTopology: the link-state database as a graph

    The vertices, edges and keys of routing/ospf/spf/SpfTypes.hpp, and
    [SpfTopology] (routing/ospf/spf/SpfTopology.cpp): the indexes built from the
    records of an area, and the expansion of a router or a network into its
    edges with the check for a link back, for OSPFv2 and OSPFv3.

    The set of confirmed back-links that the expansions share is threaded
    explicitly; the interface [SpfGraphLaws] says that it has no influence on
    their results, and is what the shortest-path computation is proved
    against. The scratch vectors are values. The constructor is given the
    records in the order in which the unordered index of the database visits
    them. [front()] of a router's vector is the head of a list that is never
    empty ([topology_v2_ok], [topology_v3_ok]). *)

From S2P Require Import Prelude OspfLsa Lsdb LsaBodies.

(** ** Vertices and edges *)

(** [routing/ospf/spf/SpfTypes.hpp:36-40] VertexType *)
Inductive VertexType := ROUTER | NETWORK.

(** [routing/ospf/spf/SpfTypes.hpp:54-63] Vertex *)
Record Vertex := mkVertex { vtype : VertexType; vid : Z }.

#[export] Instance VertexType_eq_dec : EqDecision VertexType.
Proof. solve_decision. Defined.
#[export] Instance Vertex_eq_dec : EqDecision Vertex.
Proof. solve_decision. Defined.
#[export] Instance VertexType_countable : Countable VertexType.
Proof.
  apply (inj_countable' (fun t => match t with ROUTER => true | NETWORK => false end)
    (fun b : bool => if b then ROUTER else NETWORK)). intros []; done.
Defined.
#[export] Instance Vertex_countable : Countable Vertex.
Proof. apply (inj_countable' (fun v => (vtype v, vid v)) (fun p => mkVertex p.1 p.2)). intros []; done. Defined.

(** [routing/ospf/spf/SpfTypes.hpp:36-40] VertexType, its underlying values *)
Definition vtype_code (t : VertexType) : Z := match t with ROUTER => 1 | NETWORK => 2 end.

(** [routing/ospf/spf/SpfTypes.hpp:201-204] packNetwork *)
Definition packNetwork (advRouter lsId : Z) : Z := Z.lor (u64 (Z.shiftl advRouter 32)) lsId.

(** [routing/ospf/spf/SpfTypes.hpp:207-207] networkAdvRouter *)
Definition networkAdvRouter (packed : Z) : Z := u32 (Z.shiftr packed 32).

(** [routing/ospf/spf/SpfTypes.hpp:210-210] networkLsId *)
Definition networkLsId (packed : Z) : Z := u32 (Z.land packed 0xFFFFFFFF).

(** [routing/ospf/spf/SpfTypes.hpp:219-219] networkLsaKey *)
Definition networkLsaKey (packed type : Z) : LsaKey := mkLsaKey type (networkLsId packed) (networkAdvRouter packed).

(** [routing/ospf/spf/SpfTypes.hpp:233-237] vertexLess *)
Definition vertexLess (a b : Vertex) : bool :=
  if negb (bool_decide (vtype a = vtype b)) then vtype_code (vtype a) <? vtype_code (vtype b) else vid a <? vid b.

(** [routing/ospf/spf/SpfTypes.hpp:137-142] BacklinkKey *)
Record BacklinkKey := mkBacklinkKey { t1 : VertexType; id1 : Z; t2 : VertexType; id2 : Z }.

#[export] Instance BacklinkKey_eq_dec : EqDecision BacklinkKey.
Proof. solve_decision. Defined.
#[export] Instance BacklinkKey_countable : Countable BacklinkKey.
Proof.
  apply (inj_countable' (fun k => (t1 k, id1 k, t2 k, id2 k)) (fun p => mkBacklinkKey p.1.1.1 p.1.1.2 p.1.2 p.2)).
  intros []; done.
Defined.

(** [routing/ospf/spf/SpfTypes.hpp:155-167] BacklinkKey::BacklinkKey: the pair in canonical order *)
Definition BacklinkKey_make (aType : VertexType) (aId : Z) (bType : VertexType) (bId : Z) : BacklinkKey :=
  if (vtype_code aType <? vtype_code bType) || (bool_decide (aType = bType) && (aId <=? bId))
  then mkBacklinkKey aType aId bType bId else mkBacklinkKey bType bId aType aId.

(** [routing/ospf/spf/SpfTypes.hpp:306-311] SpfEdge *)
Record SpfEdge := mkEdge { to : Vertex; cost : Z; ifid : Z }.

#[export] Instance SpfEdge_eq_dec : EqDecision SpfEdge.
Proof. solve_decision. Defined.

Abbreviation Cache := (gset BacklinkKey).

(** ** The interface of a topology

    Expansions thread the set [C] of confirmed back-links; [None] is the
    return value [false]. *)
Class SpfGraph (T C : Type) := {
  expandRouter : T -> Z -> C -> C * option (list SpfEdge);
  expandNetwork : T -> Z -> C -> C * option (list Z)
}.

(** The edges an expansion gives do not depend on the back-links confirmed so
    far, lead to a finite set of vertices, and have 32-bit costs. *)
Class SpfGraphLaws (T C : Type) `{SpfGraph T C} := {
  cache_ok : T -> C -> Prop;
  routerEdges : T -> Z -> option (list SpfEdge);
  networkRouters : T -> Z -> option (list Z);
  vertices : T -> gset Vertex;
  expandRouter_law : forall t c rid, cache_ok t c ->
    cache_ok t (expandRouter t rid c).1 /\ (expandRouter t rid c).2 = routerEdges t rid;
  expandNetwork_law : forall t c v, cache_ok t c ->
    cache_ok t (expandNetwork t v c).1 /\ (expandNetwork t v c).2 = networkRouters t v;
  router_edge_law : forall t c rid es e, cache_ok t c -> routerEdges t rid = Some es -> e ∈ es ->
    to e ∈ vertices t /\ in_width 32 (cost e) /\ (vtype (to e) = ROUTER -> in_width 32 (vid (to e)));
  network_router_law : forall t c v rs rid, cache_ok t c -> networkRouters t v = Some rs -> rid ∈ rs ->
    mkVertex ROUTER rid ∈ vertices t /\ in_width 32 rid
}.

(** ** The indexes *)

Section Topology.
  Context {Other : Type}.
  Local Abbreviation Record_ := (LsaRecord (Body := LsaBody Other)).

(** [routing/ospf/spf/SpfTopology.h:80-86] SpfTopology, its indexes *)
Record SpfTopology (RL NL : Type) := mkTopology {
  rtr : gmap Z (list RL);
  net : gmap Z NL;
  netV2ByLsId : gmap Z (Z * LsaHeader * NL)
}.
Arguments mkTopology {RL NL} _ _ _.
Arguments rtr {RL NL} _.
Arguments net {RL NL} _.
Arguments netV2ByLsId {RL NL} _.

(** [routing/ospf/spf/SpfTopology.cpp:42-48] SpfTopology::SpfTopology, the comparison [better] *)
Definition better (a b : LsaHeader) : bool :=
  if negb (sequence a =? sequence b) then sequence b <? sequence a
  else if negb (checksum a =? checksum b) then checksum b <? checksum a
  else age a <? age b.

(** [routing/ospf/spf/SpfTopology.cpp:16-56] SpfTopology<PolicyV2>::SpfTopology, the visit of a record *)
Definition indexRecord_v2 (t : SpfTopology RouterLsaV2 NetworkLsaV2) (kr : LsaKey * Record_)
    : SpfTopology RouterLsaV2 NetworkLsaV2 :=
  let '(key, rec) := kr in
  match body rec with
  | Some (RouterV2 lsa) =>
      if OSPF_MAX_AGE <=? age (header rec) then t
      else if negb (advertisingRouter key =? linkStateId key) then t
      else mkTopology (<[advertisingRouter key := default [] (rtr t !! advertisingRouter key) ++ [lsa]]> (rtr t))
             (net t) (netV2ByLsId t)
  | Some (NetworkV2 p) =>
      if OSPF_MAX_AGE <=? age (header rec) then t
      else
        if match netV2ByLsId t !! linkStateId key with
           | None => true
           | Some (_, h, _) => better (header rec) h
           end
        then mkTopology (rtr t) (<[packNetwork (advertisingRouter key) (linkStateId key) := p]> (net t))
               (<[linkStateId key := (advertisingRouter key, header rec, p)]> (netV2ByLsId t))
        else t
  | _ => t
  end.

(** [routing/ospf/spf/SpfTopology.cpp:16-64] SpfTopology<PolicyV3>::SpfTopology, the visit of a record *)
Definition indexRecord_v3 (t : SpfTopology RouterLsaV3 NetworkLsaV3) (kr : LsaKey * Record_)
    : SpfTopology RouterLsaV3 NetworkLsaV3 :=
  let '(key, rec) := kr in
  match body rec with
  | Some (RouterV3 lsa) =>
      if OSPF_MAX_AGE <=? age (header rec) then t
      else mkTopology (<[advertisingRouter key := default [] (rtr t !! advertisingRouter key) ++ [lsa]]> (rtr t))
             (net t) (netV2ByLsId t)
  | Some (NetworkV3 p) =>
      if OSPF_MAX_AGE <=? age (header rec) then t
      else mkTopology (rtr t) (<[packNetwork (advertisingRouter key) (linkStateId key) := p]> (net t)) (netV2ByLsId t)
  | _ => t
  end.

(** [routing/ospf/spf/SpfTopology.cpp:10-65] SpfTopology<PolicyV2>::SpfTopology *)
Definition SpfTopology_v2 (visited : list (LsaKey * Record_)) : SpfTopology RouterLsaV2 NetworkLsaV2 :=
  fold_left indexRecord_v2 visited (mkTopology ∅ ∅ ∅).

(** [routing/ospf/spf/SpfTopology.cpp:10-65] SpfTopology<PolicyV3>::SpfTopology *)
Definition SpfTopology_v3 (visited : list (LsaKey * Record_)) : SpfTopology RouterLsaV3 NetworkLsaV3 :=
  fold_left indexRecord_v3 visited (mkTopology ∅ ∅ ∅).
End Topology.

Arguments mkTopology {RL NL} _ _ _.
Arguments rtr {RL NL} _.
Arguments net {RL NL} _.
Arguments netV2ByLsId {RL NL} _.

(** ** Back-links *)

(** [routing/ospf/spf/SpfTopology.cpp:105-119] SpfTopology::expandRouter, the back-link test: in the
    cache, or found by the scan, which is then remembered *)
Definition backlink (c : Cache) (bk : BacklinkKey) (scan : bool) : Cache * bool :=
  if bool_decide (bk ∈ c) then (c, true) else if scan then ({[ bk ]} ∪ c, true) else (c, false).

(** The links of [front()]. *)
Definition front_links (ls : list RouterLsaV2) : list RouterLinkV2 := match ls with l :: _ => links l | [] => [] end.

(** [routing/ospf/spf/SpfTopology.cpp:109-117] SpfTopology::expandRouter, the scan of the neighbor's
    links *)
Definition p2p_back_v2 (nb : list RouterLsaV2) (rid : Z) : bool :=
  existsb (fun bl => (ltype bl =? 1) && (linkId bl =? rid)) (front_links nb).

(** [routing/ospf/spf/SpfTopology.cpp:172-183] SpfTopology::expandRouter, the scan of all the
    neighbor's router LSAs *)
Definition p2p_back_v3 (nb : list RouterLsaV3) (rid : Z) : bool :=
  existsb (fun lsa => existsb (fun bl => (v3type bl =? 1) && (neighborRouterId bl =? rid)) (v3links lsa)) nb.

(** [routing/ospf/spf/SpfTopology.cpp:139-141] SpfTopology::expandRouter, the search in the network's
    attached routers *)
Definition attached (rs : list Z) (rid : Z) : bool := existsb (Z.eqb rid) rs.

(** [routing/ospf/spf/SpfTopology.cpp:251-259] SpfTopology::expandNetwork, the scan of the router's
    links *)
Definition transit_back_v2 (rl : list RouterLsaV2) (netLsId : Z) : bool :=
  existsb (fun l => (ltype l =? 2) && (linkId l =? netLsId)) (front_links rl).

(** [routing/ospf/spf/SpfTopology.cpp:263-274] SpfTopology::expandNetwork, the scan of all the
    router's LSAs *)
Definition transit_back_v3 (rl : list RouterLsaV3) (vertexId : Z) : bool :=
  existsb (fun lsa => existsb (fun l =>
    (v3type l =? 2) && (packNetwork (neighborRouterId l) (neighborInterfaceId l) =? vertexId)) (v3links lsa)) rl.

(** ** Expansion *)

(** The loop over the links of a router or the routers of a network: the items
    a step keeps, with the cache threaded. *)
Fixpoint expand_loop {A B} (step : A -> Cache -> Cache * option B) (xs : list A) (c : Cache) : Cache * list B :=
  match xs with
  | [] => (c, [])
  | x :: xs =>
      let '(c, b) := step x c in
      let '(c, bs) := expand_loop step xs c in
      (c, match b with Some b => b :: bs | None => bs end)
  end.

(** [routing/ospf/spf/SpfTopology.cpp:90-156] SpfTopology<PolicyV2>::expandRouter, one link; the
    interface identifier is the link data *)
Definition linkEdge_v2 (t : SpfTopology RouterLsaV2 NetworkLsaV2) (rid : Z) (l : RouterLinkV2) (c : Cache)
    : Cache * option SpfEdge :=
  if ltype l =? 1 then
    match rtr t !! linkId l with
    | None => (c, None)
    | Some nb =>
        let '(c, ok) := backlink c (BacklinkKey_make ROUTER rid ROUTER (linkId l)) (p2p_back_v2 nb rid) in
        (c, if ok then Some (mkEdge (mkVertex ROUTER (linkId l)) (lmetric l) (linkData l)) else None)
    end
  else if ltype l =? 2 then
    match netV2ByLsId t !! linkId l with
    | None => (c, None)
    | Some (adv, _, netlsa) =>
        let netId := packNetwork adv (linkId l) in
        let '(c, ok) := backlink c (BacklinkKey_make ROUTER rid NETWORK netId) (attached (attachedRouters netlsa) rid) in
        (c, if ok then Some (mkEdge (mkVertex NETWORK netId) (lmetric l) (linkData l)) else None)
    end
  else (c, None).

(** [routing/ospf/spf/SpfTopology.cpp:67-225] SpfTopology<PolicyV2>::expandRouter *)
Definition expandRouter_v2 (t : SpfTopology RouterLsaV2 NetworkLsaV2) (rid : Z) (c : Cache)
    : Cache * option (list SpfEdge) :=
  match rtr t !! rid with
  | None | Some [] => (c, None)
  | Some rlsas => let '(c, es) := expand_loop (linkEdge_v2 t rid) (concat (links <$> rlsas)) c in (c, Some es)
  end.

(** [routing/ospf/spf/SpfTopology.cpp:158-221] SpfTopology<PolicyV3>::expandRouter, one link; the
    interface identifier is the link's *)
Definition linkEdge_v3 (t : SpfTopology RouterLsaV3 NetworkLsaV3) (rid : Z) (l : RouterLinkV3) (c : Cache)
    : Cache * option SpfEdge :=
  if v3type l =? 1 then
    match rtr t !! neighborRouterId l with
    | None => (c, None)
    | Some nb =>
        let '(c, ok) := backlink c (BacklinkKey_make ROUTER rid ROUTER (neighborRouterId l)) (p2p_back_v3 nb rid) in
        (c, if ok then Some (mkEdge (mkVertex ROUTER (neighborRouterId l)) (v3metric l) (interfaceId l)) else None)
    end
  else if v3type l =? 2 then
    let netId := packNetwork (neighborRouterId l) (neighborInterfaceId l) in
    match net t !! netId with
    | None => (c, None)
    | Some netlsa =>
        let '(c, ok) := backlink c (BacklinkKey_make ROUTER rid NETWORK netId) (attached (n3routers netlsa) rid) in
        (c, if ok then Some (mkEdge (mkVertex NETWORK netId) (v3metric l) (interfaceId l)) else None)
    end
  else (c, None).

(** [routing/ospf/spf/SpfTopology.cpp:67-225] SpfTopology<PolicyV3>::expandRouter *)
Definition expandRouter_v3 (t : SpfTopology RouterLsaV3 NetworkLsaV3) (rid : Z) (c : Cache)
    : Cache * option (list SpfEdge) :=
  match rtr t !! rid with
  | None | Some [] => (c, None)
  | Some rlsas => let '(c, es) := expand_loop (linkEdge_v3 t rid) (concat (v3links <$> rlsas)) c in (c, Some es)
  end.

(** [routing/ospf/spf/SpfTopology.cpp:237-280] SpfTopology::expandNetwork, one attached router *)
Definition attachedRouter {RL NL} (back : list RL -> bool) (t : SpfTopology RL NL) (vertexId rid : Z) (c : Cache)
    : Cache * option Z :=
  match rtr t !! rid with
  | None => (c, None)
  | Some rl =>
      let '(c, ok) := backlink c (BacklinkKey_make ROUTER rid NETWORK vertexId) (back rl) in
      (c, if ok then Some rid else None)
  end.

(** [routing/ospf/spf/SpfTopology.cpp:227-283] SpfTopology<PolicyV2>::expandNetwork *)
Definition expandNetwork_v2 (t : SpfTopology RouterLsaV2 NetworkLsaV2) (vertexId : Z) (c : Cache)
    : Cache * option (list Z) :=
  match net t !! vertexId with
  | None => (c, None)
  | Some netlsa =>
      let '(c, rs) := expand_loop
        (attachedRouter (fun rl => transit_back_v2 rl (networkLsId vertexId)) t vertexId) (attachedRouters netlsa) c in
      (c, Some rs)
  end.

(** [routing/ospf/spf/SpfTopology.cpp:227-283] SpfTopology<PolicyV3>::expandNetwork *)
Definition expandNetwork_v3 (t : SpfTopology RouterLsaV3 NetworkLsaV3) (vertexId : Z) (c : Cache)
    : Cache * option (list Z) :=
  match net t !! vertexId with
  | None => (c, None)
  | Some netlsa =>
      let '(c, rs) := expand_loop
        (attachedRouter (fun rl => transit_back_v3 rl vertexId) t vertexId) (n3routers netlsa) c in
      (c, Some rs)
  end.

#[export] Instance graph_v2 : SpfGraph (SpfTopology RouterLsaV2 NetworkLsaV2) Cache := {
  expandRouter := expandRouter_v2;
  expandNetwork := expandNetwork_v2
}.

#[export] Instance graph_v3 : SpfGraph (SpfTopology RouterLsaV3 NetworkLsaV3) Cache := {
  expandRouter := expandRouter_v3;
  expandNetwork := expandNetwork_v3
}.

(** ** The graph without the cache *)

(** The items an expansion keeps when every back-link is looked up anew. *)
Definition linkEdge_ref_v2 (t : SpfTopology RouterLsaV2 NetworkLsaV2) (rid : Z) (l : RouterLinkV2) : option SpfEdge :=
  if ltype l =? 1 then
    match rtr t !! linkId l with
    | Some nb => if p2p_back_v2 nb rid then Some (mkEdge (mkVertex ROUTER (linkId l)) (lmetric l) (linkData l)) else None
    | None => None
    end
  else if ltype l =? 2 then
    match netV2ByLsId t !! linkId l with
    | Some (adv, _, n) =>
        if attached (attachedRouters n) rid
        then Some (mkEdge (mkVertex NETWORK (packNetwork adv (linkId l))) (lmetric l) (linkData l)) else None
    | None => None
    end
  else None.

Definition linkEdge_ref_v3 (t : SpfTopology RouterLsaV3 NetworkLsaV3) (rid : Z) (l : RouterLinkV3) : option SpfEdge :=
  if v3type l =? 1 then
    match rtr t !! neighborRouterId l with
    | Some nb =>
        if p2p_back_v3 nb rid then Some (mkEdge (mkVertex ROUTER (neighborRouterId l)) (v3metric l) (interfaceId l)) else None
    | None => None
    end
  else if v3type l =? 2 then
    match net t !! packNetwork (neighborRouterId l) (neighborInterfaceId l) with
    | Some n =>
        if attached (n3routers n) rid
        then Some (mkEdge (mkVertex NETWORK (packNetwork (neighborRouterId l) (neighborInterfaceId l))) (v3metric l) (interfaceId l))
        else None
    | None => None
    end
  else None.

Definition routerEdges_v2 (t : SpfTopology RouterLsaV2 NetworkLsaV2) (rid : Z) : option (list SpfEdge) :=
  match rtr t !! rid with
  | None | Some [] => None
  | Some ls => Some (omap (linkEdge_ref_v2 t rid) (concat (links <$> ls)))
  end.
Definition routerEdges_v3 (t : SpfTopology RouterLsaV3 NetworkLsaV3) (rid : Z) : option (list SpfEdge) :=
  match rtr t !! rid with
  | None | Some [] => None
  | Some ls => Some (omap (linkEdge_ref_v3 t rid) (concat (v3links <$> ls)))
  end.

Section Reference.
  Context {RL NL : Type}.
  (** A router's LSAs have a point-to-point link to a router, a transit link to
      a network; the routers a network LSA lists. *)
  Context (p2p : list RL -> Z -> bool) (transit : list RL -> Z -> bool) (routers : NL -> list Z).

Definition networkRouters_ref (t : SpfTopology RL NL) (v : Z) : option (list Z) :=
  match net t !! v with
  | None => None
  | Some n => Some (List.filter (fun rid => match rtr t !! rid with Some rl => transit rl v | None => false end) (routers n))
  end.

Definition vertices_of (t : SpfTopology RL NL) : gset Vertex :=
  set_map (mkVertex ROUTER) (dom (rtr t)) ∪ set_map (mkVertex NETWORK) (dom (net t)).

Definition p2p_link (t : SpfTopology RL NL) (a b : Z) : Prop := exists ls, rtr t !! a = Some ls /\ p2p ls b = true.
Definition transit_link (t : SpfTopology RL NL) (a v : Z) : Prop := exists ls, rtr t !! a = Some ls /\ transit ls v = true.
Definition listed (t : SpfTopology RL NL) (v a : Z) : Prop := exists n, net t !! v = Some n /\ attached (routers n) a = true.

(** A confirmed back-link: both ends point at each other. *)
Definition justified (t : SpfTopology RL NL) (k : BacklinkKey) : Prop :=
  match t1 k, t2 k with
  | ROUTER, ROUTER => p2p_link t (id1 k) (id2 k) /\ p2p_link t (id2 k) (id1 k)
  | ROUTER, NETWORK => transit_link t (id1 k) (id2 k) /\ listed t (id2 k) (id1 k)
  | _, _ => False
  end.

Definition justified_all (t : SpfTopology RL NL) (c : Cache) : Prop := forall k, k ∈ c -> justified t k.

Lemma justified_p2p t a b : justified t (BacklinkKey_make ROUTER a ROUTER b) <-> p2p_link t a b /\ p2p_link t b a.
Proof.
  unfold BacklinkKey_make, justified. cbn [vtype_code Z.ltb Z.compare Pos.compare Pos.compare_cont orb].
  rewrite bool_decide_eq_true_2 by done. cbn [andb]. destruct (a <=? b); cbn [t1 t2 id1 id2]; tauto.
Qed.

Lemma justified_transit t a v : justified t (BacklinkKey_make ROUTER a NETWORK v) <-> transit_link t a v /\ listed t v a.
Proof. reflexivity. Qed.

(** The test gives what the scan gives, as long as confirmed keys are
    justified. *)
Lemma backlink_spec t c bk scan :
  justified_all t c -> (justified t bk -> scan = true) -> (scan = true -> justified t bk) ->
  justified_all t (backlink c bk scan).1 /\ (backlink c bk scan).2 = scan.
Proof.
  intros Hc Hk Hs. unfold backlink. case_bool_decide as Hin; cbn [fst snd].
  - split; [done|]. symmetry. apply Hk, Hc. done.
  - destruct scan; cbn [fst snd]; [|done]. split; [|done]. intros k [->%elem_of_singleton|Hk']%elem_of_union; auto.
Qed.

Lemma expand_loop_spec {A B} (step : A -> Cache -> Cache * option B) (ref : A -> option B) (P : Cache -> Prop) xs : forall c,
  (forall x c, x ∈ xs -> P c -> P (step x c).1 /\ (step x c).2 = ref x) -> P c ->
  P (expand_loop step xs c).1 /\ (expand_loop step xs c).2 = omap ref xs.
Proof.
  induction xs as [|x xs IH]; intros c Hstep Hc; [done|]. cbn [expand_loop].
  destruct (Hstep x c) as [Hc1 Hr1]; [left|done|]. destruct (step x c) as [c1 b]. cbn [fst snd] in *.
  destruct (IH c1) as [Hc2 Hr2]; [intros; apply Hstep; [right|]; done | done|].
  destruct (expand_loop step xs c1) as [c2 bs]. cbn [fst snd] in *. subst. split; [done|].
  cbn [omap list_omap]. destruct (ref x); done.
Qed.

(** The expansion of a network does not depend on the cache. *)
Lemma network_loop_spec t v n c :
  net t !! v = Some n -> justified_all t c ->
  let r := expand_loop (attachedRouter (fun rl => transit rl v) t v) (routers n) c in
  justified_all t r.1 /\
  r.2 = List.filter (fun rid => match rtr t !! rid with Some rl => transit rl v | None => false end) (routers n).
Proof.
  intros Hn Hc r.
  destruct (expand_loop_spec (attachedRouter (fun rl => transit rl v) t v)
    (fun rid => match rtr t !! rid with Some rl => if transit rl v then Some rid else None | None => None end)
    (justified_all t) (routers n) c) as [Hj Hr]; [|done|].
  - intros rid c' Hin Hc'. unfold attachedRouter. destruct (rtr t !! rid) as [rl|] eqn:E; [|done].
    destruct (backlink_spec t c' (BacklinkKey_make ROUTER rid NETWORK v) (transit rl v) Hc') as [H1 H2].
    + rewrite justified_transit. intros [(ls & E' & Ht) _]. congruence.
    + intros Ht. apply justified_transit. split; [exists rl; done|]. exists n. split; [done|].
      apply existsb_exists. exists rid. split; [apply list_elem_of_In; done | apply Z.eqb_refl].
    + destruct (backlink _ _ _) as [c2 ok]. cbn [fst snd] in *. subst. done.
  - fold r in Hj, Hr. split; [done|]. rewrite Hr. clear. induction (routers n) as [|x xs IH]; [done|].
    cbn. destruct (rtr t !! x) as [rl|]; [destruct (transit rl v)|]; cbn; rewrite IH; done.
Qed.
End Reference.

(** ** Well-formed topologies *)

Definition link_wf_v2 (l : RouterLinkV2) : Prop := in_width 32 (linkId l) /\ in_width 16 (lmetric l).
Definition link_wf_v3 (l : RouterLinkV3) : Prop :=
  in_width 32 (neighborRouterId l) /\ in_width 32 (neighborInterfaceId l) /\ in_width 16 (v3metric l).

(** OSPFv2: one LSA per router, the index by link-state ID names networks of
    the graph, and values have their widths. *)
Definition topology_v2_ok (t : SpfTopology RouterLsaV2 NetworkLsaV2) : Prop :=
  (forall rid ls, rtr t !! rid = Some ls -> in_width 32 rid /\ exists l, ls = [l] /\ Forall link_wf_v2 (links l)) /\
  (forall i adv h n, netV2ByLsId t !! i = Some (adv, h, n) ->
     net t !! packNetwork adv i = Some n /\ in_width 32 adv /\ in_width 32 i).

Definition topology_v3_ok (t : SpfTopology RouterLsaV3 NetworkLsaV3) : Prop :=
  forall rid ls, rtr t !! rid = Some ls ->
    in_width 32 rid /\ ls <> [] /\ Forall (fun l => Forall link_wf_v3 (v3links l)) ls.

Lemma packNetwork_value adv i : in_width 32 adv -> in_width 32 i -> packNetwork adv i = adv * 2 ^ 32 + i.
Proof.
  intros [Ha Ha'] Hi. unfold packNetwork. rewrite wrap_small, lor_shiftl_add; [done | lia | done |].
  rewrite Z.shiftl_mul_pow2 by lia. unfold in_width. lia.
Qed.

(** A packed network identifier gives its parts back. *)
Lemma packNetwork_parts adv i :
  in_width 32 adv -> in_width 32 i ->
  networkLsId (packNetwork adv i) = i /\ networkAdvRouter (packNetwork adv i) = adv.
Proof.
  intros Ha Hi. rewrite packNetwork_value by done. unfold networkLsId, networkAdvRouter.
  change 0xFFFFFFFF with (Z.ones 32). rewrite Z.land_ones, Z.shiftr_div_pow2 by lia. split.
  - rewrite Z.add_comm, Z.mod_add, (Z.mod_small i) by (done || lia). apply wrap_small. done.
  - rewrite Z.add_comm, Z.div_add, (Z.div_small i), Z.add_0_l by (done || lia). apply wrap_small. done.
Qed.

Abbreviation justified_v2 := (justified p2p_back_v2 (fun rl v => transit_back_v2 rl (networkLsId v)) attachedRouters).
Abbreviation justified_v3 := (justified p2p_back_v3 transit_back_v3 n3routers).

Lemma existsb_in {A} (f : A -> bool) x xs : x ∈ xs -> f x = true -> existsb f xs = true.
Proof. intros Hx Hf. apply existsb_exists. exists x. rewrite <- list_elem_of_In. done. Qed.

Lemma in_width_16_32 x : in_width 16 x -> in_width 32 x.
Proof. apply in_width_mono. lia. Qed.

Lemma linkEdge_v2_spec t rid lsa l c :
  topology_v2_ok t -> rtr t !! rid = Some [lsa] -> l ∈ links lsa -> (forall k, k ∈ c -> justified_v2 t k) ->
  (forall k, k ∈ (linkEdge_v2 t rid l c).1 -> justified_v2 t k) /\ (linkEdge_v2 t rid l c).2 = linkEdge_ref_v2 t rid l.
Proof.
  intros [Hrtr Hnet] Hr Hl Hc. unfold linkEdge_v2, linkEdge_ref_v2.
  destruct (Z.eqb_spec (ltype l) 1) as [Hty|Hty1]; [|destruct (Z.eqb_spec (ltype l) 2) as [Hty|]; [|done]].
  - destruct (rtr t !! linkId l) as [nb|] eqn:En; [|done].
    destruct (backlink_spec p2p_back_v2 (fun rl v => transit_back_v2 rl (networkLsId v)) attachedRouters t c
      (BacklinkKey_make ROUTER rid ROUTER (linkId l)) (p2p_back_v2 nb rid) Hc) as [H1 H2].
    + rewrite justified_p2p. intros [_ (ls & E & Hb)]. congruence.
    + intros Hb. apply justified_p2p. split; [|exists nb; done]. exists [lsa]. split; [done|]. apply (existsb_in _ l); [done|].
      rewrite Hty, !Z.eqb_refl. done.
    + destruct (backlink _ _ _) as [c' ok]. cbn [fst snd] in *. subst. done.
  - destruct (netV2ByLsId t !! linkId l) as [[[adv h] n]|] eqn:En; [|done]. destruct (Hnet _ _ _ _ En) as (Hn & Ha & Hi).
    destruct (backlink_spec p2p_back_v2 (fun rl v => transit_back_v2 rl (networkLsId v)) attachedRouters t c
      (BacklinkKey_make ROUTER rid NETWORK (packNetwork adv (linkId l))) (attached (attachedRouters n) rid) Hc) as [H1 H2].
    + rewrite justified_transit. intros [_ (n' & E & Hb)]. congruence.
    + intros Hb. apply justified_transit. split; [|exists n; done]. exists [lsa]. split; [done|].
      rewrite (proj1 (packNetwork_parts adv (linkId l) Ha Hi)). apply (existsb_in _ l); [done|]. rewrite Hty, !Z.eqb_refl. done.
    + destruct (backlink _ _ _) as [c' ok]. cbn [fst snd] in *. subst. done.
Qed.

Lemma linkEdge_v3_spec t rid lsas lsa l c :
  rtr t !! rid = Some lsas -> lsa ∈ lsas -> l ∈ v3links lsa -> (forall k, k ∈ c -> justified_v3 t k) ->
  (forall k, k ∈ (linkEdge_v3 t rid l c).1 -> justified_v3 t k) /\ (linkEdge_v3 t rid l c).2 = linkEdge_ref_v3 t rid l.
Proof.
  intros Hr Hlsa Hl Hc. unfold linkEdge_v3, linkEdge_ref_v3.
  destruct (Z.eqb_spec (v3type l) 1) as [Hty|Hty1]; [|destruct (Z.eqb_spec (v3type l) 2) as [Hty|]; [|done]].
  - destruct (rtr t !! neighborRouterId l) as [nb|] eqn:En; [|done].
    destruct (backlink_spec p2p_back_v3 transit_back_v3 n3routers t c
      (BacklinkKey_make ROUTER rid ROUTER (neighborRouterId l)) (p2p_back_v3 nb rid) Hc) as [H1 H2].
    + rewrite justified_p2p. intros [_ (ls & E & Hb)]. congruence.
    + intros Hb. apply justified_p2p. split; [|exists nb; done]. exists lsas. split; [done|].
      apply (existsb_in _ lsa); [done|]. apply (existsb_in _ l); [done|]. rewrite Hty, !Z.eqb_refl. done.
    + destruct (backlink _ _ _) as [c' ok]. cbn [fst snd] in *. subst. done.
  - set (netId := packNetwork _ _). destruct (net t !! netId) as [n|] eqn:En; [|done].
    destruct (backlink_spec p2p_back_v3 transit_back_v3 n3routers t c
      (BacklinkKey_make ROUTER rid NETWORK netId) (attached (n3routers n) rid) Hc) as [H1 H2].
    + rewrite justified_transit. intros [_ (n' & E & Hb)]. congruence.
    + intros Hb. apply justified_transit. split; [|exists n; done]. exists lsas. split; [done|].
      apply (existsb_in _ lsa); [done|]. apply (existsb_in _ l); [done|]. rewrite Hty, !Z.eqb_refl. done.
    + destruct (backlink _ _ _) as [c' ok]. cbn [fst snd] in *. subst. done.
Qed.

Lemma elem_of_links_concat {A B} (f : A -> list B) ls x : x ∈ concat (f <$> ls) <-> exists l, l ∈ ls /\ x ∈ f l.
Proof.
  rewrite list_elem_of_In, in_concat. setoid_rewrite <- list_elem_of_In. setoid_rewrite list_elem_of_fmap. split.
  - intros (? & (l & -> & Hl) & Hx). eauto.
  - intros (l & Hl & Hx). eauto.
Qed.

#[export] Program Instance graph_v2_laws : SpfGraphLaws (SpfTopology RouterLsaV2 NetworkLsaV2) Cache := {
  cache_ok t c := topology_v2_ok t /\ (forall k, k ∈ c -> justified_v2 t k);
  routerEdges := routerEdges_v2;
  networkRouters := networkRouters_ref (fun rl v => transit_back_v2 rl (networkLsId v)) attachedRouters;
  vertices := vertices_of
}.
Next Obligation.
  intros t c rid [Ht Hc]. cbn [expandRouter graph_v2]. unfold expandRouter_v2, routerEdges_v2.
  destruct (rtr t !! rid) as [ls|] eqn:Er; [|done].
  destruct (proj1 Ht _ _ Er) as (_ & lsa & -> & _).
  destruct (expand_loop_spec (linkEdge_v2 t rid) (linkEdge_ref_v2 t rid) (fun c => forall k, k ∈ c -> justified_v2 t k)
    (concat (links <$> [lsa])) c) as [H1 H2]; [|done|].
  - intros l c' (l' & ->%list_elem_of_singleton & Hl)%elem_of_links_concat Hc'. apply (linkEdge_v2_spec t rid lsa); done.
  - destruct (expand_loop _ _ _) as [c' es]. cbn [fst snd] in *. subst. done.
Qed.
Next Obligation.
  intros t c v [Ht Hc]. cbn [expandNetwork graph_v2]. unfold expandNetwork_v2, networkRouters_ref.
  destruct (net t !! v) as [n|] eqn:En; [|done].
  destruct (network_loop_spec p2p_back_v2 (fun rl v => transit_back_v2 rl (networkLsId v)) attachedRouters t v n c En Hc) as [H1 H2].
  destruct (expand_loop _ _ _) as [c' rs]. cbn [fst snd] in *. subst. done.
Qed.
Next Obligation.
  intros t c rid es e [[Hrtr Hnet] _] He Hin. unfold routerEdges_v2 in He. destruct (rtr t !! rid) as [ls|] eqn:Er; [|done].
  destruct (Hrtr _ _ Er) as (_ & lsa & -> & Hwf). injection He as <-. apply list_elem_of_omap in Hin as (l & Hl & Hl').
  rewrite app_nil_r in Hl. rewrite Forall_forall in Hwf.
  destruct (Hwf l Hl) as [Hid Hm]. apply in_width_16_32 in Hm. unfold linkEdge_ref_v2 in Hl'. unfold vertices_of.
  destruct (ltype l =? 1); [|destruct (ltype l =? 2); [|done]].
  - destruct (rtr t !! linkId l) as [nb|] eqn:En; [|done]. destruct (p2p_back_v2 nb rid); [|done]. injection Hl' as <-.
    cbn [to cost vtype vid]. split; [|done]. apply elem_of_union_l, elem_of_map. exists (linkId l). rewrite elem_of_dom, En. eauto.
  - destruct (netV2ByLsId t !! linkId l) as [[[adv h] n]|] eqn:En; [|done]. destruct (attached _ rid); [|done]. injection Hl' as <-.
    cbn [to cost vtype vid]. split; [|done]. apply elem_of_union_r, elem_of_map. eexists. split; [done|].
    rewrite elem_of_dom. destruct (Hnet _ _ _ _ En) as (-> & _). eauto.
Qed.
Next Obligation.
  intros t c v rs rid [[Hrtr Hnet] _] He Hin. unfold networkRouters_ref in He. destruct (net t !! v) as [n|] eqn:En; [|done].
  injection He as <-. apply list_elem_of_In, filter_In in Hin as [_ Hin]. destruct (rtr t !! rid) as [ls|] eqn:Er; [|done].
  split; [|apply (Hrtr _ _ Er)]. unfold vertices_of. apply elem_of_union_l, elem_of_map. exists rid. rewrite elem_of_dom, Er. eauto.
Qed.

#[export] Program Instance graph_v3_laws : SpfGraphLaws (SpfTopology RouterLsaV3 NetworkLsaV3) Cache := {
  cache_ok t c := topology_v3_ok t /\ (forall k, k ∈ c -> justified_v3 t k);
  routerEdges := routerEdges_v3;
  networkRouters := networkRouters_ref transit_back_v3 n3routers;
  vertices := vertices_of
}.
Next Obligation.
  intros t c rid [Ht Hc]. cbn [expandRouter graph_v3]. unfold expandRouter_v3, routerEdges_v3.
  destruct (rtr t !! rid) as [ls|] eqn:Er; [|done].
  destruct (expand_loop_spec (linkEdge_v3 t rid) (linkEdge_ref_v3 t rid) (fun c => forall k, k ∈ c -> justified_v3 t k)
    (concat (v3links <$> ls)) c) as [H1 H2]; [|done|].
  - intros l c' (l' & Hl' & Hl)%elem_of_links_concat Hc'. apply (linkEdge_v3_spec t rid ls l'); done.
  - destruct ls; [done|]. destruct (expand_loop _ _ _) as [c' es]. cbn [fst snd] in *. subst. done.
Qed.
Next Obligation.
  intros t c v [Ht Hc]. cbn [expandNetwork graph_v3]. unfold expandNetwork_v3, networkRouters_ref.
  destruct (net t !! v) as [n|] eqn:En; [|done].
  destruct (network_loop_spec p2p_back_v3 transit_back_v3 n3routers t v n c En Hc) as [H1 H2].
  destruct (expand_loop _ _ _) as [c' rs]. cbn [fst snd] in *. subst. done.
Qed.
Next Obligation.
  intros t c rid es e [Ht _] He Hin. unfold routerEdges_v3 in He. destruct (rtr t !! rid) as [ls|] eqn:Er; [|done].
  destruct (Ht _ _ Er) as (_ & Hne & Hwf). destruct ls as [|l0 ls]; [done|]. injection He as <-.
  apply list_elem_of_omap in Hin as (l & Hl & Hl').
  apply (elem_of_links_concat v3links (l0 :: ls)) in Hl as (lsa & Hlsa & Hl). rewrite Forall_forall in Hwf. specialize (Hwf _ Hlsa).
  rewrite Forall_forall in Hwf. destruct (Hwf l Hl) as (Hid & _ & Hm). apply in_width_16_32 in Hm. unfold linkEdge_ref_v3 in Hl'.
  unfold vertices_of. destruct (v3type l =? 1); [|destruct (v3type l =? 2); [|done]].
  - destruct (rtr t !! neighborRouterId l) as [nb|] eqn:En; [|done]. destruct (p2p_back_v3 nb rid); [|done]. injection Hl' as <-.
    cbn [to cost vtype vid]. split; [|done]. apply elem_of_union_l, elem_of_map. eexists. rewrite elem_of_dom, En. eauto.
  - destruct (net t !! _) as [n|] eqn:En; [|done]. destruct (attached _ rid); [|done]. injection Hl' as <-.
    cbn [to cost vtype vid]. split; [|done]. apply elem_of_union_r, elem_of_map. eexists. split; [done|].
    rewrite elem_of_dom, En. eauto.
Qed.
Next Obligation.
  intros t c v rs rid [Ht _] He Hin. unfold networkRouters_ref in He. destruct (net t !! v) as [n|] eqn:En; [|done].
  injection He as <-. apply list_elem_of_In, filter_In in Hin as [_ Hin]. destruct (rtr t !! rid) as [ls|] eqn:Er; [|done].
  split; [|apply (Ht _ _ Er)]. unfold vertices_of. apply elem_of_union_l, elem_of_map. exists rid. rewrite elem_of_dom, Er. eauto.
Qed.

(** ** The graph of a database *)

(** A sequence of expansions, as a shortest-path computation makes them. *)
Inductive query := QRouter (rid : Z) | QNetwork (v : Z).
Abbreviation answer := (option (list SpfEdge) + option (list Z))%type.

Section Queries.
  Context {T C : Type} `{SpfGraphLaws T C}.

Fixpoint answers (t : T) (qs : list query) (c : C) : list answer :=
  match qs with
  | [] => []
  | QRouter rid :: qs => let '(c, a) := expandRouter t rid c in inl a :: answers t qs c
  | QNetwork v :: qs => let '(c, a) := expandNetwork t v c in inr a :: answers t qs c
  end.

Definition ref_answer (t : T) (q : query) : answer :=
  match q with QRouter rid => inl (routerEdges t rid) | QNetwork v => inr (networkRouters t v) end.

Lemma answers_ref t qs c : cache_ok t c -> answers t qs c = ref_answer t <$> qs.
Proof.
  revert c. induction qs as [|q qs IH]; intros c Hc; [done|]. destruct q; cbn [answers].
  - destruct (expandRouter_law t c rid Hc) as [Hc' Ha]. destruct (expandRouter t rid c). cbn [fst snd] in *. subst.
    rewrite IH by done. done.
  - destruct (expandNetwork_law t c v Hc) as [Hc' Ha]. destruct (expandNetwork t v c). cbn [fst snd] in *. subst.
    rewrite IH by done. done.
Qed.
End Queries.

Section Records.
  Context {Other : Type}.
  Local Abbreviation Record_ := (LsaRecord (Body := LsaBody Other)).

(** The records of a database: distinct keys, router bodies under their own
    type, values of their widths. *)
Definition record_ok (kr : LsaKey * Record_) : Prop :=
  in_width 32 (advertisingRouter kr.1) /\ in_width 32 (linkStateId kr.1) /\
  match body kr.2 with
  | Some (RouterV2 l) => lsaType kr.1 = 1 /\ Forall link_wf_v2 (links l)
  | Some (RouterV3 l) => Forall link_wf_v3 (v3links l)
  | _ => True
  end.
Definition records_ok (kvs : list (LsaKey * Record_)) : Prop := NoDup kvs.*1 /\ Forall record_ok kvs.

Lemma topology_v2_of_records kvs :
  records_ok kvs ->
  topology_v2_ok (SpfTopology_v2 kvs) /\
  forall rid, is_Some (rtr (SpfTopology_v2 kvs) !! rid) -> mkLsaKey 1 rid rid ∈ kvs.*1.
Proof.
  unfold SpfTopology_v2. induction kvs as [|[k r] kvs IH] using rev_ind; intros [Hnd Hok].
  - split; [split|]; cbn [fold_left rtr net netV2ByLsId]; [intros ? ?|intros ? ? ? ?|intros ? [? E]; revert E]; rewrite lookup_empty; done.
  - rewrite fmap_app in Hnd. apply NoDup_app in Hnd as (Hnd & Hdisj & _). apply Forall_app in Hok as [Hok Hr].
    apply Forall_cons in Hr as [(Ha & Hi & Hb) _]. destruct (IH (conj Hnd Hok)) as ([Hrtr Hnet] & Hkeys). clear IH.
    cbn [fst snd] in *. rewrite fold_left_app. cbn [fold_left]. set (t := fold_left _ kvs _) in *.
    assert (Hmono : forall rid, is_Some (rtr t !! rid) -> mkLsaKey 1 rid rid ∈ (kvs ++ [(k, r)]).*1)
      by (intros; rewrite fmap_app; apply elem_of_app; left; auto).
    unfold indexRecord_v2. destruct (body r) as [b|]; [|split; [split|]; done].
    destruct b as [l|n| | | | | | |]; try (split; [split|]; done); destruct (OSPF_MAX_AGE <=? age (header r)); try (split; [split|]; done).
    + destruct (Z.eqb_spec (advertisingRouter k) (linkStateId k)) as [E|]; cbn [negb]; [|split; [split|]; done].
      destruct Hb as [Hty Hl]. destruct k as [ty id adv]. cbn in *. subst ty id.
      assert (Hnew : rtr t !! adv = None).
      { apply eq_None_not_Some. intros HS. apply Hkeys in HS. apply (Hdisj _ HS). left. }
      split; [split; cbn [rtr net netV2ByLsId]|cbn [rtr]].
      * intros rid ls [[<- <-]|[_ ?]]%lookup_insert_Some; [|eauto]. rewrite Hnew. cbn. eauto.
      * done.
      * intros rid HS. destruct (decide (rid = adv)) as [->|]; [|rewrite lookup_insert_ne in HS by done; auto].
        rewrite fmap_app. apply elem_of_app. right. left.
    + destruct (match netV2ByLsId t !! linkStateId k with Some _ => _ | None => _ end); [|split; [split|]; done].
      split; [split|]; cbn [rtr net netV2ByLsId]; [done| |done].
      intros i adv h m [[<- [= <- <- <-]]|[Hne E]]%lookup_insert_Some; [rewrite lookup_insert_eq; done|].
      destruct (Hnet _ _ _ _ E) as (Hn & Hadv & Hii). split; [|done].
      rewrite lookup_insert_ne; [done|]. intros He. apply Hne.
      rewrite <- (proj1 (packNetwork_parts (advertisingRouter k) (linkStateId k) Ha Hi)), He. apply packNetwork_parts; done.
Qed.

Lemma topology_v3_of_records kvs : Forall record_ok kvs -> topology_v3_ok (SpfTopology_v3 kvs).
Proof.
  unfold SpfTopology_v3. induction kvs as [|[k r] kvs IH] using rev_ind; intros Hok; [intros ? ?; cbn [fold_left rtr]; rewrite lookup_empty; done|].
  apply Forall_app in Hok as [Hok Hr]. apply Forall_cons in Hr as [(Ha & Hi & Hb) _]. specialize (IH Hok).
  cbn [fst snd] in *. rewrite fold_left_app. cbn [fold_left]. set (t := fold_left _ kvs _) in *.
  unfold indexRecord_v3. destruct (body r) as [b|]; [|done].
  destruct b as [| | | | | |l|n|]; try done; destruct (OSPF_MAX_AGE <=? age (header r)); try done.
  intros rid ls. cbn [rtr]. intros [[<- <-]|[_ ?]]%lookup_insert_Some; [|eauto]. split; [done|]. split; [intros [_ ?]%app_nil; done|].
  apply Forall_app. split; [|constructor; done]. destruct (rtr t !! advertisingRouter k) as [ls|] eqn:E; cbn [default]; [|constructor].
  apply (IH _ _ E).
Qed.

(** Whatever expansions are made, in whatever order, of the graph of a
    database, they give the edges of the graph in which every back-link is
    looked up anew: sharing the confirmed back-links changes nothing. *)
Theorem cache_transparent (kvs : list (LsaKey * Record_)) (qs : list query) :
  records_ok kvs ->
  answers (SpfTopology_v2 kvs) qs (∅ : Cache) = ref_answer (SpfTopology_v2 kvs) <$> qs /\
  answers (SpfTopology_v3 kvs) qs (∅ : Cache) = ref_answer (SpfTopology_v3 kvs) <$> qs.
Proof.
  intros Hok. split; apply answers_ref; (split; [|intros k Hk; apply not_elem_of_empty in Hk; done]).
  - apply topology_v2_of_records. done.
  - apply topology_v3_of_records, Hok.
Qed.
End Records.

Lemma cache_transparent_witness :
  let k := mkLsaKey 1 1 1 in let k' := mkLsaKey 1 2 2 in
  let r b := mkRecord 0 0 (mkLsaHeader 1 1 36 1 2) (Some (RouterV2 (Other := Empty_set) (mkRouterV2 0 [mkLinkV2 b 7 1 10]))) 1 1 0 in
  let kvs := [(k, r 2); (k', r 1)] in
  records_ok kvs /\
  answers (SpfTopology_v2 kvs) [QRouter 1; QRouter 2; QRouter 1] (∅ : Cache)
    = ref_answer (SpfTopology_v2 kvs) <$> [QRouter 1; QRouter 2; QRouter 1] /\
  answers (SpfTopology_v3 kvs) [QRouter 1; QRouter 2; QRouter 1] (∅ : Cache)
    = ref_answer (SpfTopology_v3 kvs) <$> [QRouter 1; QRouter 2; QRouter 1].
Proof.
  intros k k' r kvs.
  assert (H : records_ok kvs).
  { split; [by_compute|]. repeat constructor; try (cbn; lia). }
  split; [exact H | apply (cache_transparent kvs); exact H].
Defined.

(** ** Links go both ways *)

(** There is a way back over an edge: a router is reached from a router with a
    link back, a network lists the router. *)
Definition has_way_back {T C} `{SpfGraphLaws T C} (t : T) (a : Z) (e : SpfEdge) : Prop :=
  match vtype (to e) with
  | ROUTER => exists es e', routerEdges t (vid (to e)) = Some es /\ e' ∈ es /\ to e' = mkVertex ROUTER a
  | NETWORK => exists rs, networkRouters t (vid (to e)) = Some rs /\ a ∈ rs
  end.

Lemma existsb_elem {A} (f : A -> bool) xs : existsb f xs = true -> exists x, x ∈ xs /\ f x = true.
Proof. intros (x & Hx & Hf)%existsb_exists. exists x. rewrite list_elem_of_In. done. Qed.

Lemma attached_elem rs rid : attached rs rid = true <-> rid ∈ rs.
Proof.
  unfold attached. split.
  - intros (x & Hx & ->%Z.eqb_eq)%existsb_elem. done.
  - intros. apply (existsb_in _ rid); [done | apply Z.eqb_refl].
Qed.

Lemma way_back_v2 (t : SpfTopology RouterLsaV2 NetworkLsaV2) a es e :
  topology_v2_ok t -> routerEdges t a = Some es -> e ∈ es -> has_way_back t a e.
Proof.
  intros [Hrtr Hnet] Hes He. cbn [routerEdges graph_v2_laws] in Hes. unfold routerEdges_v2 in Hes.
  destruct (rtr t !! a) as [ls|] eqn:Er; [|done]. destruct (Hrtr _ _ Er) as (_ & lsa & -> & Hwf).
  injection Hes as <-. apply list_elem_of_omap in He as (l & Hl & He).
  apply (elem_of_links_concat links [lsa]) in Hl as (? & ->%list_elem_of_singleton & Hl).
  unfold linkEdge_ref_v2 in He. destruct (Z.eqb_spec (ltype l) 1) as [Hty|Hty1]; [|destruct (Z.eqb_spec (ltype l) 2) as [Hty|]; [|done]].
  - destruct (rtr t !! linkId l) as [nb|] eqn:En; [|done]. destruct (p2p_back_v2 nb a) eqn:Hb; [|done]. injection He as <-.
    cbn [to vtype vid has_way_back]. destruct (Hrtr _ _ En) as (_ & lb & -> & _).
    apply existsb_elem in Hb as (bl & Hbl & Hb). apply andb_true_iff in Hb as [Hb1 Hb2]. zbools. cbn [front_links] in Hbl.
    unfold has_way_back. cbn [to vtype vid routerEdges graph_v2_laws]. unfold routerEdges_v2. rewrite En.
    eexists _, (mkEdge (mkVertex ROUTER (linkId bl)) (lmetric bl) (linkData bl)). split; [done|]. cbn [to]. split; [|congruence].
    apply list_elem_of_omap. exists bl. split; [apply (elem_of_links_concat links [lb]); exists lb; split; [left|done]|].
    unfold linkEdge_ref_v2. rewrite Hb1, Hb2, Er. cbn [Z.eqb Pos.eqb].
    assert (Hback : p2p_back_v2 [lsa] (linkId l) = true); [|rewrite Hback; done].
    apply (existsb_in _ l); [done|]. rewrite Hty, !Z.eqb_refl. done.
  - destruct (netV2ByLsId t !! linkId l) as [[[adv h] n]|] eqn:En; [|done].
    destruct (attached (attachedRouters n) a) eqn:Ha; [|done]. injection He as <-.
    destruct (Hnet _ _ _ _ En) as (Hn & Hadv & Hi). unfold has_way_back. cbn [to vtype vid networkRouters graph_v2_laws].
    unfold networkRouters_ref. rewrite Hn. eexists. split; [done|]. apply list_elem_of_In, filter_In. split.
    + apply list_elem_of_In, attached_elem. done.
    + rewrite Er. rewrite (proj1 (packNetwork_parts adv (linkId l) Hadv Hi)). apply (existsb_in _ l); [done|].
      rewrite Hty, !Z.eqb_refl. done.
Qed.

Lemma way_back_v3 (t : SpfTopology RouterLsaV3 NetworkLsaV3) a es e :
  topology_v3_ok t -> routerEdges t a = Some es -> e ∈ es -> has_way_back t a e.
Proof.
  intros Ht Hes He. cbn [routerEdges graph_v3_laws] in Hes. unfold routerEdges_v3 in Hes.
  destruct (rtr t !! a) as [ls|] eqn:Er; [|done]. assert (Hl : exists lsa l, lsa ∈ ls /\ l ∈ v3links lsa /\ linkEdge_ref_v3 t a l = Some e).
  { destruct ls as [|l0 ls]; [done|]. injection Hes as <-. apply list_elem_of_omap in He as (l & Hl & He).
    apply (elem_of_links_concat v3links (l0 :: ls)) in Hl as (lsa & ? & ?). eauto. }
  clear Hes He. destruct Hl as (lsa & l & Hlsa & Hl & He).
  unfold linkEdge_ref_v3 in He. destruct (Z.eqb_spec (v3type l) 1) as [Hty|Hty1]; [|destruct (Z.eqb_spec (v3type l) 2) as [Hty|]; [|done]].
  - destruct (rtr t !! neighborRouterId l) as [nb|] eqn:En; [|done]. destruct (p2p_back_v3 nb a) eqn:Hb; [|done]. injection He as <-.
    apply existsb_elem in Hb as (lb & Hlb & Hb). apply existsb_elem in Hb as (bl & Hbl & Hb).
    apply andb_true_iff in Hb as [Hb1 Hb2]. zbools.
    unfold has_way_back. cbn [to vtype vid routerEdges graph_v3_laws]. unfold routerEdges_v3. rewrite En.
    destruct nb as [|b0 nb]; [apply elem_of_nil in Hlb; done|].
    eexists _, (mkEdge (mkVertex ROUTER (neighborRouterId bl)) (v3metric bl) (interfaceId bl)). split; [done|].
    cbn [to]. split; [|congruence].
    apply list_elem_of_omap. exists bl. split; [apply (elem_of_links_concat v3links (b0 :: nb)); eauto|].
    unfold linkEdge_ref_v3. rewrite Hb1, Hb2, Er. cbn [Z.eqb Pos.eqb].
    assert (Hback : p2p_back_v3 ls (neighborRouterId l) = true); [|rewrite Hback; done].
    apply (existsb_in _ lsa); [done|]. apply (existsb_in _ l); [done|]. rewrite Hty, !Z.eqb_refl. done.
  - destruct (net t !! packNetwork (neighborRouterId l) (neighborInterfaceId l)) as [n|] eqn:En; [|done].
    destruct (attached (n3routers n) a) eqn:Ha; [|done]. injection He as <-.
    unfold has_way_back. cbn [to vtype vid networkRouters graph_v3_laws]. unfold networkRouters_ref. rewrite En.
    eexists. split; [done|]. apply list_elem_of_In, filter_In. split.
    + apply list_elem_of_In, attached_elem. done.
    + rewrite Er. apply (existsb_in _ lsa); [done|]. apply (existsb_in _ l); [done|]. rewrite Hty, !Z.eqb_refl. done.
Qed.

(** In the graph of a database every edge that leaves a router can be taken
    back: links are used only when both ends advertise them. *)
Theorem graph_bidirectional {Other} (kvs : list (LsaKey * LsaRecord (Body := LsaBody Other))) (a : Z) (es : list SpfEdge) (e : SpfEdge) :
  records_ok kvs -> e ∈ es ->
  (routerEdges (SpfTopology_v2 kvs) a = Some es -> has_way_back (SpfTopology_v2 kvs) a e) /\
  (routerEdges (SpfTopology_v3 kvs) a = Some es -> has_way_back (SpfTopology_v3 kvs) a e).
Proof.
  intros Hok He. split; intros Hes.
  - eapply way_back_v2; [apply topology_v2_of_records; done | done | done].
  - eapply way_back_v3; [apply topology_v3_of_records, Hok | done | done].
Qed.

Definition ex_records : list (LsaKey * LsaRecord (Body := LsaBody Empty_set)) :=
  let r b := mkRecord 0 0 (mkLsaHeader 1 1 36 1 2) (Some (RouterV2 (mkRouterV2 0 [mkLinkV2 b 7 1 10]))) 1 1 0 in
  [(mkLsaKey 1 1 1, r 2); (mkLsaKey 1 2 2, r 1)].

Lemma graph_bidirectional_witness :
  (routerEdges (SpfTopology_v2 ex_records) 1 = Some [mkEdge (mkVertex ROUTER 2) 10 7] ->
   has_way_back (SpfTopology_v2 ex_records) 1 (mkEdge (mkVertex ROUTER 2) 10 7)) /\
  (routerEdges (SpfTopology_v3 ex_records) 1 = Some [mkEdge (mkVertex ROUTER 2) 10 7] ->
   has_way_back (SpfTopology_v3 ex_records) 1 (mkEdge (mkVertex ROUTER 2) 10 7)).
Proof.
  apply (graph_bidirectional ex_records 1 [mkEdge (mkVertex ROUTER 2) 10 7] (mkEdge (mkVertex ROUTER 2) 10 7)).
  - split; [by_compute|]. repeat constructor; try (cbn; lia).
  - left.
Defined.

(** The expansion of the example evaluates. *)
Example ex_expand : (expandRouter (SpfTopology_v2 ex_records) 1 (∅ : Cache)).2 = Some [mkEdge (mkVertex ROUTER 2) 10 7].
Proof. vm_compute. reflexivity. Qed.
