(* ===== verification/SpfEngine.v ===== *)
(** * SpfEngine: the shortest-path computation of OSPF

    [SpfEngine] (routing/ospf/spf/SpfEngine.cpp): the Dijkstra computation with
    equal-cost parents and first-hop interfaces, the difference between two
    topologies and the incremental repair, and [run], which chooses among
    them. It is written against the interface [SpfGraph] of a topology.

    The candidate queue is the list of its items: [std::priority_queue] gives a
    least item, and equal items are indistinguishable. The order in which an
    unordered map is iterated is a parameter. The two loops carry fuel;
    [runFull_terminates] gives a bound for the first. *)

From S2P Require Import Prelude OspfLsa Lsdb LsaBodies SpfTopology.

(** ** Data *)

(** [routing/ospf/spf/SpfTypes.hpp:290-296] ParentRef *)
Record ParentRef := mkParent { parent : Vertex; firstHopIfid : Z; lastHopIfid : Z; edgeCost : Z }.

#[export] Instance ParentRef_eq_dec : EqDecision ParentRef.
Proof. solve_decision. Defined.

(** [routing/ospf/spf/SpfTypes.hpp:325-330] SptNode *)
Record SptNode := mkNode { dist : Z; confirmed : bool; parents : list ParentRef }.

#[export] Instance SptNode_eq_dec : EqDecision SptNode.
Proof. solve_decision. Defined.

(** [routing/ospf/spf/SpfTypes.hpp:345-350] SpfResult *)
Record SpfResult := mkResult { root : Vertex; nodes : gmap Vertex SptNode; confirmedOrder : list Vertex }.

(** [routing/ospf/spf/SpfEngine.cpp:12-23] QItem *)
Record QItem := mkQ { qdist : Z; qv : Vertex }.

(** [routing/ospf/spf/SpfEngine.cpp:17-22] QItem::operator> *)
Definition QItem_gt (a b : QItem) : bool :=
  if negb (qdist a =? qdist b) then qdist b <? qdist a
  else if negb (bool_decide (vtype (qv a) = vtype (qv b))) then vtype_code (vtype (qv b)) <? vtype_code (vtype (qv a))
  else vid (qv b) <? vid (qv a).

(** [pq.top(); pq.pop()]: a least item and the others. *)
Fixpoint pop_min (q : list QItem) : option (QItem * list QItem) :=
  match q with
  | [] => None
  | x :: q =>
      match pop_min q with
      | None => Some (x, [])
      | Some (y, r) => if QItem_gt x y then Some (y, x :: r) else Some (x, q)
      end
  end.

(** [routing/ospf/spf/SpfTypes.hpp:327-327] SptNode::dist, the distance of an unreachable vertex *)
Definition INF : Z := all_ones 64.

(** [routing/ospf/spf/SpfEngine.h:150-156] SpfEngine::addCost *)
Definition addCost (base cost : Z) : Z :=
  if base =? INF then base else if INF - cost <? base then INF else base + cost.

(** ** Relaxation *)

(** [routing/ospf/spf/SpfEngine.cpp:448-468] SpfEngine::relaxEdgeFull, the first hops of [from] *)
Definition firstHops (rt : Vertex) (ns : gmap Vertex SptNode) (from : Vertex) (lastHop : Z) : list Z :=
  let hops :=
    if bool_decide (from = rt) then [lastHop]
    else
      let hops := match ns !! from with Some f => firstHopIfid <$> parents f | None => [] end in
      match hops with [] => [lastHop] | _ => hops end in
  uniq Z.eqb (isort Z.ltb hops).

(** [routing/ospf/spf/SpfEngine.cpp:470-484] SpfEngine::relaxEdgeFull, addParentIfMissing *)
Definition addParentIfMissing (ps : list ParentRef) (p : ParentRef) : list ParentRef :=
  if existsb (fun pr => bool_decide (pr = p)) ps then ps else ps ++ [p].

(** [nodes.try_emplace(to, SptNode{max, false, {}})] *)
Definition try_emplace (ns : gmap Vertex SptNode) (v : Vertex) : gmap Vertex SptNode :=
  match ns !! v with Some _ => ns | None => <[v := mkNode INF false []]> ns end.
Definition node_at (ns : gmap Vertex SptNode) (v : Vertex) : SptNode := default (mkNode INF false []) (ns !! v).

(** [routing/ospf/spf/SpfEngine.cpp:434-503] SpfEngine::relaxEdgeFull *)
Definition relaxEdgeFull (rt from v : Vertex) (newDist lastHop c : Z) (s : gmap Vertex SptNode * list QItem)
    : gmap Vertex SptNode * list QItem :=
  let '(ns, pq) := s in
  let ns := try_emplace ns v in
  let n := node_at ns v in
  let new := (fun fh => mkParent from fh lastHop c) <$> firstHops rt ns from lastHop in
  if newDist <? dist n then
    if confirmed n then (ns, pq)
    else (<[v := mkNode newDist (confirmed n) new]> ns, mkQ newDist v :: pq)
  else if newDist =? dist n then
    (<[v := mkNode (dist n) (confirmed n) (fold_left addParentIfMissing new (parents n))]> ns, pq)
  else (ns, pq).

(** [routing/ospf/spf/SpfEngine.cpp:505-579] SpfEngine::relaxEdgeRepair *)
Definition relaxEdgeRepair (rt from v : Vertex) (newDist lastHop c : Z) (s : gmap Vertex SptNode * list QItem)
    : gmap Vertex SptNode * list QItem :=
  let '(ns, pq) := s in
  let ns := try_emplace ns v in
  let n := node_at ns v in
  let new := (fun fh => mkParent from fh lastHop c) <$> firstHops rt ns from lastHop in
  if newDist <? dist n then (<[v := mkNode newDist (confirmed n) new]> ns, mkQ newDist v :: pq)
  else if newDist =? dist n then
    (<[v := mkNode (dist n) (confirmed n) (fold_left addParentIfMissing new (parents n))]> ns, pq)
  else (ns, pq).

Section Engine.
  Context {T C : Type} `{SpfGraph T C}.

(** [routing/ospf/spf/SpfEngine.cpp:590-624] SpfEngine::expandAndRelax, the edge loops: an edge whose
    distance saturates is skipped; those of a network cost nothing *)
Definition relaxAll (repairMode : bool) (rt v : Vertex) (base : Z) (es : list SpfEdge)
    (s : gmap Vertex SptNode * list QItem) : gmap Vertex SptNode * list QItem :=
  fold_left (fun s e =>
    let nd := addCost base (cost e) in
    if nd =? INF then s
    else (if repairMode then relaxEdgeRepair else relaxEdgeFull) rt v (to e) nd (ifid e) (cost e) s) es s.

(** The edges the expansion of a vertex gives. *)
Definition expandVertex (t : T) (v : Vertex) (c : C) : C * list SpfEdge :=
  match vtype v with
  | ROUTER => let '(c, r) := expandRouter t (u32 (vid v)) c in (c, default [] r)
  | NETWORK =>
      let '(c, r) := expandNetwork t (vid v) c in (c, (fun rid => mkEdge (mkVertex ROUTER rid) 0 0) <$> default [] r)
  end.

(** [routing/ospf/spf/SpfEngine.cpp:581-625] SpfEngine::expandAndRelax *)
Definition expandAndRelax (repairMode : bool) (t : T) (rt v : Vertex) (c : C) (s : gmap Vertex SptNode * list QItem)
    : C * (gmap Vertex SptNode * list QItem) :=
  match s.1 !! v with
  | None => (c, s)
  | Some n =>
      if dist n =? INF then (c, s)
      else let '(c, es) := expandVertex t v c in (c, relaxAll repairMode rt v (dist n) es s)
  end.

(** ** The parents of a finished tree *)

(** [routing/ospf/spf/SpfEngine.cpp:408-418] SpfEngine::finalizeParents, the order of parents *)
Definition parentLess (a b : ParentRef) : bool :=
  if bool_decide (parent a = parent b) then
    if negb (firstHopIfid a =? firstHopIfid b) then firstHopIfid a <? firstHopIfid b
    else if negb (lastHopIfid a =? lastHopIfid b) then lastHopIfid a <? lastHopIfid b
    else edgeCost a <? edgeCost b
  else vertexLess (parent a) (parent b).

(** [routing/ospf/spf/SpfEngine.cpp:406-430] SpfEngine::finalizeParents, one node *)
Definition finalizeNode (maxPaths : nat) (n : SptNode) : SptNode :=
  let ps := uniq (fun a b => bool_decide (a = b)) (isort parentLess (parents n)) in
  mkNode (dist n) (confirmed n)
    (if ((0 <? maxPaths) && (maxPaths <? length ps))%nat then take maxPaths ps else ps).

(** [routing/ospf/spf/SpfEngine.cpp:398-432] SpfEngine::finalizeParents *)
Definition finalizeParents (maxPaths : nat) (r : SpfResult) : SpfResult :=
  mkResult (root r) (finalizeNode maxPaths <$> nodes r) (confirmedOrder r).

(** ** The full computation *)

Record SpfState := mkState { st_nodes : gmap Vertex SptNode; st_pq : list QItem; st_order : list Vertex; st_cache : C }.

Definition set_confirmed (b : bool) (n : SptNode) : SptNode := mkNode (dist n) b (parents n).

(** [routing/ospf/spf/SpfEngine.cpp:72-88] SpfEngine::runFull, one item of the main loop *)
Definition spfStep (t : T) (rt : Vertex) (cur : QItem) (s : SpfState) : SpfState :=
  match st_nodes s !! qv cur with
  | None => s
  | Some n =>
      if negb (qdist cur =? dist n) then s
      else if confirmed n then s
      else
        let ns := <[qv cur := set_confirmed true n]> (st_nodes s) in
        let '(c, (ns, pq)) := expandAndRelax false t rt (qv cur) (st_cache s) (ns, st_pq s) in
        mkState ns pq (st_order s ++ [qv cur]) c
  end.

(** [routing/ospf/spf/SpfEngine.cpp:69-89] SpfEngine::runFull, the main loop *)
Fixpoint spfLoop (fuel : nat) (t : T) (rt : Vertex) (s : SpfState) : option SpfState :=
  match pop_min (st_pq s) with
  | None => Some s
  | Some (cur, rest) =>
      match fuel with
      | O => None
      | S fuel => spfLoop fuel t rt (spfStep t rt cur (mkState (st_nodes s) rest (st_order s) (st_cache s)))
      end
  end.

(** [routing/ospf/spf/SpfEngine.cpp:52-67] SpfEngine::runFull, the confirmed root and its candidates *)
Definition spfInit (t : T) (rid : Z) (c : C) : SpfState :=
  let rt := mkVertex ROUTER rid in
  let '(c, (ns, pq)) := expandAndRelax false t rt rt c ({[ rt := mkNode 0 true [] ]}, []) in
  mkState ns pq [rt] c.

(** [routing/ospf/spf/SpfEngine.cpp:46-95] SpfEngine::runFull; the assignment to [last] is the
    caller's *)
Definition runFull (fuel : nat) (t : T) (rid : Z) (maxPaths : nat) (c : C) : option SpfResult :=
  let rt := mkVertex ROUTER rid in
  s ← spfLoop fuel t rt (spfInit t rid c);
  Some (finalizeParents maxPaths (mkResult rt (st_nodes s) (st_order s))).

(** ** Incremental computation *)

(** [routing/ospf/spf/SpfTypes.hpp:87-97] EdgeKey *)
Record EdgeKey := mkEdgeKey { ek_from : Vertex; ek_to : Vertex; ek_ifid : Z }.

#[export] Instance EdgeKey_eq_dec : EqDecision EdgeKey.
Proof. solve_decision. Defined.
#[export] Instance EdgeKey_countable : Countable EdgeKey.
Proof.
  apply (inj_countable' (fun k => (ek_from k, ek_to k, ek_ifid k)) (fun p => mkEdgeKey p.1.1 p.1.2 p.2)). intros []; done.
Defined.

(** [routing/ospf/spf/SpfTypes.hpp:262-268] SpfDelta::Change::Kind *)
Inductive ChangeKind := ADD | REMOVE | COST_DECREASE | COST_INCREASE.

(** [routing/ospf/spf/SpfTypes.hpp:257-274] SpfDelta::Change *)
Record Change := mkChange { kind : ChangeKind; ch_key : EdgeKey; oldCost : Z; newCost : Z }.

(** [routing/ospf/spf/SpfTypes.hpp:251-279] SpfDelta *)
Record SpfDelta := mkDelta { hasAnyChange : bool; hasAnyIncreaseOrRemove : bool; changes : list Change }.

(** [routing/ospf/spf/SpfEngine.h:85-86] SpfEngine, its state *)
Record SpfEngine := mkEngine { last : option SpfResult; lastEdges : gmap EdgeKey Z }.
Definition SpfEngine_new : SpfEngine := mkEngine None ∅.

  (** The orders in which the unordered containers are iterated. *)
  Context (visit_routers visit_networks : T -> list Z).
  Context (visit_edges : gmap EdgeKey Z -> list (EdgeKey * Z)) (visit_nodes : gmap Vertex SptNode -> list (Vertex * SptNode)).

(** [routing/ospf/spf/SpfEngine.cpp:97-151] SpfEngine::computeDeltaAndUpdateEdgeIndex, the edges of one
    vertex; emplace keeps the first of two parallel edges *)
Definition indexVertex (t : T) (s : gmap EdgeKey Z * C) (v : Vertex) : gmap EdgeKey Z * C :=
  let '(c, es) := expandVertex t v s.2 in
  (fold_left (fun m e =>
     let k := mkEdgeKey v (to e) (ifid e) in
     match m !! k with Some _ => m | None => <[k := cost e]> m end) es s.1, c).

(** [routing/ospf/spf/SpfEngine.cpp:97-205] SpfEngine::computeDeltaAndUpdateEdgeIndex: the difference,
    the new index and the cache *)
Definition computeDelta (t : T) (lastEdges : gmap EdgeKey Z) (c : C) : SpfDelta * gmap EdgeKey Z * C :=
  let '(cur, c) := fold_left (indexVertex t) ((mkVertex ROUTER ∘ u32) <$> visit_routers t) (∅, c) in
  let '(cur, c) := fold_left (indexVertex t) (mkVertex NETWORK <$> visit_networks t) (cur, c) in
  let compare (kv : EdgeKey * Z) : list Change :=
    let '(k, v) := kv in
    match lastEdges !! k with
    | None => [mkChange ADD k 0 v]
    | Some old =>
        if v <? old then [mkChange COST_DECREASE k old v]
        else if old <? v then [mkChange COST_INCREASE k old v] else []
    end in
  let removed (kv : EdgeKey * Z) : list Change :=
    let '(k, v) := kv in match cur !! k with None => [mkChange REMOVE k v 0] | Some _ => [] end in
  let chs := concat (compare <$> visit_edges cur) ++ concat (removed <$> visit_edges lastEdges) in
  let worse ch := match kind ch with REMOVE | COST_INCREASE => true | _ => false end in
  (mkDelta (match chs with [] => false | _ => true end) (existsb worse chs) chs, cur, c).

(** [routing/ospf/spf/SpfEngine.cpp:224-280] SpfEngine::invalidateForIncreasesAndRemovals,
    recomputeNodeFromParents: whether the distance changed, and the nodes *)
Definition recomputeNodeFromParents (rt v : Vertex) (ns : gmap Vertex SptNode) : bool * gmap Vertex SptNode :=
  match ns !! v with
  | None => (false, ns)
  | Some n =>
      if bool_decide (v = rt) then (negb (dist n =? 0), <[v := mkNode 0 (confirmed n) (parents n)]> ns)
      else
        match parents n with
        | [] => (negb (dist n =? INF), <[v := mkNode INF (confirmed n) []]> ns)
        | _ =>
            let cand pr :=
              match ns !! parent pr with
              | None => None
              | Some p => if dist p =? INF then None else Some (addCost (dist p) (edgeCost pr))
              end in
            let best := fold_left (fun b pr => match cand pr with Some d => if d <? b then d else b | None => b end) (parents n) INF in
            let kept := List.filter (fun pr => match cand pr with Some d => d =? best | None => false end) (parents n) in
            (negb (dist n =? best), <[v := mkNode best (confirmed n) kept]> ns)
        end
  end.

(** [routing/ospf/spf/SpfEngine.cpp:213-222] SpfEngine::invalidateForIncreasesAndRemovals, the children
    of each vertex *)
Definition childrenOf (ns : gmap Vertex SptNode) : gmap Vertex (list Vertex) :=
  fold_left (fun ch vn =>
    fold_left (fun ch pr => <[parent pr := default [] (ch !! parent pr) ++ [vn.1]]> ch) (parents vn.2) ch) (visit_nodes ns) ∅.

(** [routing/ospf/spf/SpfEngine.cpp:285-316] SpfEngine::invalidateForIncreasesAndRemovals, one change:
    the parents over the edge leave the node, which is queued *)
Definition dropParents (s : gmap Vertex SptNode * list Vertex) (ch : Change) : gmap Vertex SptNode * list Vertex :=
  let '(ns, start) := s in
  match kind ch with
  | REMOVE | COST_INCREASE =>
      match ns !! ek_to (ch_key ch) with
      | None => s
      | Some n =>
          let kept := List.filter (fun pr => negb (bool_decide (parent pr = ek_from (ch_key ch)) &&
            (lastHopIfid pr =? ek_ifid (ch_key ch)) && (edgeCost pr =? oldCost ch))) (parents n) in
          (<[ek_to (ch_key ch) := mkNode (dist n) (confirmed n) kept]> ns,
           if (length kept =? length (parents n))%nat then start else start ++ [ek_to (ch_key ch)])
      end
  | _ => s
  end.

(** [routing/ospf/spf/SpfEngine.cpp:326-342] SpfEngine::invalidateForIncreasesAndRemovals, the
    propagation loop *)
Fixpoint propagate (fuel : nat) (rt : Vertex) (children : gmap Vertex (list Vertex)) (q : list Vertex) (enqueued : gset Vertex)
    (ns : gmap Vertex SptNode) : option (gmap Vertex SptNode) :=
  match q with
  | [] => Some ns
  | v :: q =>
      match fuel with
      | O => None
      | S fuel =>
          let '(changed, ns) := recomputeNodeFromParents rt v ns in
          let '(q, enqueued) :=
            if changed then
              fold_left (fun qe child =>
                if bool_decide (child ∈ qe.2) then qe else (qe.1 ++ [child], {[ child ]} ∪ qe.2))
                (default [] (children !! v)) (q, enqueued)
            else (q, enqueued) in
          propagate fuel rt children q enqueued ns
      end
  end.

(** [routing/ospf/spf/SpfEngine.cpp:207-343] SpfEngine::invalidateForIncreasesAndRemovals *)
Definition invalidateForIncreasesAndRemovals (fuel : nat) (r : SpfResult) (d : SpfDelta) : option SpfResult :=
  if negb (hasAnyIncreaseOrRemove d) then Some r
  else
    let children := childrenOf (nodes r) in
    let '(ns, start) := fold_left dropParents (changes d) (nodes r, []) in
    ns ← propagate fuel (root r) children start (list_to_set start) ns;
    Some (mkResult (root r) ns (confirmedOrder r)).

(** [routing/ospf/spf/SpfEngine.cpp:379-390] SpfEngine::runIspfRepair, the main loop: a vertex is
    expanded whenever an item carries its distance *)
Fixpoint repairLoop (fuel : nat) (t : T) (rt : Vertex) (c : C) (s : gmap Vertex SptNode * list QItem)
    : option (gmap Vertex SptNode * C) :=
  match pop_min s.2 with
  | None => Some (s.1, c)
  | Some (cur, rest) =>
      match fuel with
      | O => None
      | S fuel =>
          match s.1 !! qv cur with
          | None => repairLoop fuel t rt c (s.1, rest)
          | Some n =>
              if negb (qdist cur =? dist n) then repairLoop fuel t rt c (s.1, rest)
              else let '(c, s) := expandAndRelax true t rt (qv cur) c (s.1, rest) in repairLoop fuel t rt c s
          end
      end
  end.

(** [routing/ospf/spf/SpfEngine.cpp:345-396] SpfEngine::runIspfRepair; the order of confirmation is
    left empty *)
Definition runIspfRepair (fuel : nat) (t : T) (maxPaths : nat) (prev : SpfResult) (d : SpfDelta) (c : C) : option SpfResult :=
  r ← invalidateForIncreasesAndRemovals fuel prev d;
  let ns := match nodes r !! root r with
            | None => <[root r := mkNode 0 false []]> (nodes r)
            | Some n => <[root r := mkNode 0 (confirmed n) (parents n)]> (nodes r)
            end in
  let pq := fold_left (fun pq ch =>
    match ns !! ek_to (ch_key ch) with
    | None => pq
    | Some n => if dist n =? INF then pq else mkQ (dist n) (ek_to (ch_key ch)) :: pq
    end) (changes d) [mkQ 0 (root r)] in
  s ← repairLoop fuel t (root r) c (set_confirmed false <$> ns, pq);
  Some (finalizeParents maxPaths (mkResult (root r) s.1 [])).

(** [routing/ospf/spf/SpfEngine.cpp:25-44] SpfEngine::run: the result and the engine afterwards *)
Definition run (fuel : nat) (ispf : bool) (t : T) (rid : Z) (maxPaths : nat) (c : C) (e : SpfEngine)
    : option (SpfResult * SpfEngine) :=
  match last e with
  | Some prev =>
      if negb ispf || bool_decide (lastEdges e = ∅) then
        r ← runFull fuel t rid maxPaths c; Some (r, mkEngine (Some r) (lastEdges e))
      else
        let '(d, cur, c) := computeDelta t (lastEdges e) c in
        if negb (hasAnyChange d) then Some (prev, mkEngine (Some prev) cur)
        else r ← runIspfRepair fuel t maxPaths prev d c; Some (r, mkEngine (Some r) cur)
  | None => r ← runFull fuel t rid maxPaths c; Some (r, mkEngine (Some r) (lastEdges e))
  end.
End Engine.

(** ** The queue *)

Lemma QItem_gt_false a b : QItem_gt a b = false -> qdist a <= qdist b.
Proof. unfold QItem_gt. destruct (Z.eqb_spec (qdist a) (qdist b)); cbn [negb]; [lia|]. intros H. zbools. lia. Qed.

Lemma QItem_gt_true a b : QItem_gt a b = true -> qdist b <= qdist a.
Proof. unfold QItem_gt. destruct (Z.eqb_spec (qdist a) (qdist b)); cbn [negb]; [lia|]. intros H. zbools. lia. Qed.

Lemma pop_min_none q : pop_min q = None -> q = [].
Proof. destruct q as [|x q]; [done|]. cbn. destruct (pop_min q) as [[y r]|]; [destruct (QItem_gt x y)|]; done. Qed.

(** The item that is popped is one of least distance. *)
Lemma pop_min_some q x r : pop_min q = Some (x, r) -> q ≡ₚ x :: r /\ Forall (fun y => qdist x <= qdist y) r.
Proof.
  revert x r. induction q as [|a q IH]; intros x r; [done|]. cbn [pop_min].
  destruct (pop_min q) as [[y r']|] eqn:E.
  - destruct (IH _ _ eq_refl) as [Hp Hf]. destruct (QItem_gt a y) eqn:Eg; intros [= <- <-].
    + split; [rewrite Hp; apply Permutation_swap|]. constructor; [apply QItem_gt_true; done | done].
    + split; [done|]. rewrite Hp. apply QItem_gt_false in Eg. constructor; [done|].
      eapply Forall_impl; [exact Hf|]. intros. cbn in *. lia.
  - intros [= <- <-]. apply pop_min_none in E as ->. split; [done | constructor].
Qed.

(** ** Costs *)

Lemma addCost_value d c : 0 <= c < INF -> 0 <= d < INF -> addCost d c = Z.min (d + c) INF.
Proof.
  intros Hc Hd. unfold addCost. rewrite (proj2 (Z.eqb_neq _ _)) by lia. destruct (Z.ltb_spec (INF - c) d); lia.
Qed.

(** ** First hops and parents *)

Lemma Zeqb_true_eq a b : (a =? b) = true -> a = b.
Proof. apply Z.eqb_eq. Qed.

Lemma firstHops_root rt ns lh f : f ∈ firstHops rt ns rt lh <-> f = lh.
Proof. unfold firstHops. rewrite bool_decide_eq_true_2 by done. cbn. rewrite list_elem_of_singleton. done. Qed.

Lemma firstHops_inner rt ns from lh n f :
  from <> rt -> ns !! from = Some n -> parents n <> [] ->
  f ∈ firstHops rt ns from lh <-> exists p, p ∈ parents n /\ firstHopIfid p = f.
Proof.
  intros Hne Hn Hp. unfold firstHops. rewrite bool_decide_eq_false_2, Hn by done.
  destruct (firstHopIfid <$> parents n) as [|h hs] eqn:E; [apply fmap_nil_inv in E; done|]. rewrite <- E. split.
  - intros Hf%uniq_subseteq. apply isort_elem, list_elem_of_fmap in Hf as (p & -> & Hp'). eauto.
  - intros (p & Hp' & <-). apply uniq_elem; [exact Zeqb_true_eq|]. apply isort_elem, list_elem_of_fmap. eauto.
Qed.

Lemma firstHops_nonempty rt ns from lh : firstHops rt ns from lh <> [].
Proof.
  unfold firstHops. intros H%uniq_nil. apply (f_equal length) in H. rewrite isort_length in H.
  destruct (bool_decide (from = rt)); [done|]. destruct (match ns !! from with Some _ => _ | None => _ end); done.
Qed.

Lemma addParents_elem new old p : p ∈ fold_left addParentIfMissing new old <-> p ∈ old \/ p ∈ new.
Proof.
  revert old. induction new as [|x new IH]; intros old; cbn [fold_left].
  - rewrite elem_of_nil. tauto.
  - rewrite IH, elem_of_cons. unfold addParentIfMissing. destruct (existsb _ old) eqn:E.
    + apply existsb_elem in E as (y & Hy & ->%bool_decide_eq_true). split; [tauto|]. intros [?|[->|?]]; auto.
    + rewrite elem_of_app, list_elem_of_singleton. tauto.
Qed.

(** ** Walks and distances *)

Section Walks.
  Context (out : Vertex -> list SpfEdge) (rt : Vertex).

(** A walk from the root, with its cost. *)
Inductive walk : Vertex -> Z -> Prop :=
  | walk_root : walk rt 0
  | walk_edge u d e : walk u d -> e ∈ out u -> walk (to e) (d + cost e).

(** The cost of a shortest walk. *)
Definition distance (v : Vertex) (d : Z) : Prop := walk v d /\ forall d', walk v d' -> d <= d'.

(** A walk, with the interface of its first edge. *)
Inductive hop : Vertex -> Z -> Z -> Prop :=
  | hop_first e : e ∈ out rt -> hop (to e) (cost e) (ifid e)
  | hop_next u d f e : hop u d f -> e ∈ out u -> hop (to e) (d + cost e) f.

Lemma hop_walk v d f : hop v d f -> walk v d.
Proof.
  induction 1 as [e He|u d f e _ IH He].
  - apply (walk_edge rt 0 e walk_root He).
  - eapply walk_edge; done.
Qed.

Lemma walk_nonneg v d : (forall u e, e ∈ out u -> 0 <= cost e) -> walk v d -> 0 <= d.
Proof. intros Hc. induction 1 as [|u d e _ IH He]; [done|]. specialize (Hc _ _ He). lia. Qed.

(** ** The invariant

    While [ex] is expanded, its edges in [todo] are still to be relaxed. *)
Definition parent_ok (ns : gmap Vertex SptNode) (v : Vertex) (d : Z) (p : ParentRef) : Prop :=
  (exists pn, ns !! parent p = Some pn /\ confirmed pn = true /\ d = dist pn + edgeCost p) /\
  (exists e, e ∈ out (parent p) /\ to e = v /\ ifid e = lastHopIfid p /\ cost e = edgeCost p) /\
  hop v d (firstHopIfid p).

Record spf_inv (ex : Vertex) (todo : list SpfEdge) (ns : gmap Vertex SptNode) (q : list QItem) : Prop := {
  i_root : exists n, ns !! rt = Some n /\ dist n = 0 /\ confirmed n = true;
  i_ex : exists nx, ns !! ex = Some nx /\ confirmed nx = true /\
    forall u n, ns !! u = Some n -> confirmed n = true -> dist n <= dist nx;
  i_walk : forall v n, ns !! v = Some n -> walk v (dist n) /\ dist n < INF;
  i_queued : forall v n, ns !! v = Some n -> confirmed n = false -> mkQ (dist n) v ∈ q;
  i_pq : forall it, it ∈ q -> exists n, ns !! qv it = Some n /\ dist n <= qdist it;
  i_mono : forall u n it, ns !! u = Some n -> confirmed n = true -> it ∈ q -> dist n <= qdist it;
  i_settled : forall u n e, ns !! u = Some n -> confirmed n = true -> e ∈ out u -> dist n + cost e < INF ->
    ~ (u = ex /\ e ∈ todo) -> exists m, ns !! to e = Some m /\ dist m <= dist n + cost e;
  i_parents : forall v n p, ns !! v = Some n -> p ∈ parents n -> parent_ok ns v (dist n) p;
  i_complete : forall u n e m, ns !! u = Some n -> confirmed n = true -> e ∈ out u -> ns !! to e = Some m ->
    dist n + cost e = dist m -> ~ (u = ex /\ e ∈ todo) ->
    exists p, p ∈ parents m /\ parent p = u /\ lastHopIfid p = ifid e /\ edgeCost p = cost e;
  i_nonroot : forall v n, ns !! v = Some n -> v <> rt -> parents n <> []
}.
End Walks.

(** A vertex that is confirmed at a distance. *)
Definition settled (ns : gmap Vertex SptNode) (v : Vertex) (d : Z) : Prop :=
  exists n, ns !! v = Some n /\ confirmed n = true /\ dist n = d.

(** ** One relaxation *)

Section Relax.
  Context (out : Vertex -> list SpfEdge) (rt : Vertex).
  Context (Hcost : forall u e, e ∈ out u -> in_width 32 (cost e)).
  Local Abbreviation inv := (spf_inv out rt).

Lemma cost_nonneg u e : e ∈ out u -> 0 <= cost e.
Proof. intros H. apply (Hcost _ _ H). Qed.

Lemma parent_ok_mono ns ns' v d p :
  (forall u n, ns !! u = Some n -> confirmed n = true ->
    exists n', ns' !! u = Some n' /\ confirmed n' = true /\ dist n' = dist n) ->
  parent_ok out rt ns v d p -> parent_ok out rt ns' v d p.
Proof.
  intros Hm ((pn & Hp & Hc & Hd) & He & Hh). split; [|done].
  destruct (Hm _ _ Hp Hc) as (pn' & ? & ? & ?). exists pn'. split_all; [done|done|lia].
Qed.

(** The parents a relaxation over [e] would give its target. *)
Lemma new_parents_ok ex todo ns q e nx p :
  inv ex todo ns q -> e ∈ out ex -> ns !! ex = Some nx ->
  p ∈ (fun fh => mkParent ex fh (ifid e) (cost e)) <$> firstHops rt ns ex (ifid e) ->
  parent_ok out rt ns (to e) (dist nx + cost e) p /\ parent p = ex /\ lastHopIfid p = ifid e /\ edgeCost p = cost e.
Proof.
  intros Hi He Hx (f & -> & Hf)%list_elem_of_fmap. cbn [parent firstHopIfid lastHopIfid edgeCost]. split; [|done].
  destruct (i_ex _ _ _ _ _ _ Hi) as (nx' & Hx' & Hcx & _). assert (nx' = nx) by congruence. subst nx'.
  split; [exists nx; done|]. split; [exists e; done|]. cbn [firstHopIfid].
  destruct (decide (ex = rt)) as [->|Hne].
  - apply firstHops_root in Hf as ->. destruct (i_root _ _ _ _ _ _ Hi) as (n0 & Hn0 & Hd0 & _).
    assert (n0 = nx) by congruence. subst n0. rewrite Hd0. apply (hop_first out rt e He).
  - rewrite (firstHops_inner rt ns ex (ifid e) nx) in Hf; [|done|done|eapply i_nonroot; done].
    destruct Hf as (p' & Hp' & <-). apply (hop_next out rt ex); [|done]. apply (i_parents _ _ _ _ _ _ Hi _ _ _ Hx Hp').
Qed.

Lemma relax_skip ex e es ns q nx :
  inv ex (e :: es) ns q -> ns !! ex = Some nx ->
  INF <= dist nx + cost e \/ (exists n, ns !! to e = Some n /\ dist n < dist nx + cost e) -> inv ex es ns q.
Proof.
  intros Hi Hx Hcase. destruct Hi as [H1 H2 H3 H4 H5 H6 H7 H8 H9 H10]. constructor; try done.
  - intros u n e' Hu Hc He' Hd Hnot. destruct (decide (u = ex)) as [->|]; [|apply (H7 u n e'); try done; tauto].
    assert (n = nx) by congruence. subst n.
    destruct (decide (e' ∈ e :: es)) as [Hin|]; [|apply (H7 ex nx e'); try done; tauto].
    apply elem_of_cons in Hin as [->|]; [|tauto]. destruct Hcase as [|(m & Hm & ?)]; [lia|]. exists m. split; [done|lia].
  - intros u n e' m Hu Hc He' Hm Hd Hnot. destruct (decide (u = ex)) as [->|]; [|apply (H9 u n e' m); try done; tauto].
    assert (n = nx) by congruence. subst n.
    destruct (decide (e' ∈ e :: es)) as [Hin|]; [|apply (H9 ex nx e' m); try done; tauto].
    apply elem_of_cons in Hin as [->|]; [|tauto]. destruct (H3 _ _ Hm) as [_ Hinf].
    destruct Hcase as [|(m' & Hm' & ?)]; [lia|]. assert (m' = m) by congruence. subst. lia.
Qed.

Lemma relax_set ex e es ns q nx ps :
  inv ex (e :: es) ns q -> ns !! ex = Some nx -> e ∈ out ex -> dist nx + cost e < INF ->
  (forall n, ns !! to e = Some n -> confirmed n = false /\ dist nx + cost e < dist n) -> ps <> [] ->
  (forall p, p ∈ ps -> parent_ok out rt ns (to e) (dist nx + cost e) p /\ parent p = ex /\ lastHopIfid p = ifid e /\ edgeCost p = cost e) ->
  inv ex es (<[to e := mkNode (dist nx + cost e) false ps]> ns) (mkQ (dist nx + cost e) (to e) :: q).
Proof.
  intros Hi Hx He Hinf Hold Hne Hps. destruct Hi as [H1 H2 H3 H4 H5 H6 H7 H8 H9 H10].
  destruct H2 as (nx' & Hx' & Hcx & Hmax). assert (nx' = nx) by congruence. subst nx'.
  assert (Hconf : forall u n, ns !! u = Some n -> confirmed n = true -> u <> to e).
  { intros u n Hu Hc ->. destruct (Hold _ Hu). congruence. }
  assert (Hkeep : forall u n, ns !! u = Some n -> confirmed n = true -> <[to e := mkNode (dist nx + cost e) false ps]> ns !! u = Some n).
  { intros u n Hu Hc. rewrite lookup_insert_ne; [done|]. intros E. apply (Hconf u n); done. }
  assert (Hback : forall u n, <[to e := mkNode (dist nx + cost e) false ps]> ns !! u = Some n -> confirmed n = true ->
    ns !! u = Some n).
  { intros u n [[_ <-]|[_ ?]]%lookup_insert_Some Hc; [done|done]. }
  pose proof (cost_nonneg _ _ He) as Hce.
  constructor.
  - destruct H1 as (n & Hn & Hd & Hc). exists n. split; [|done]. apply Hkeep; done.
  - exists nx. split; [apply Hkeep; done|]. split; [done|]. intros u n Hu Hc. apply (Hmax u n); [apply Hback|]; done.
  - intros v n [[<- <-]|[_ Hv]]%lookup_insert_Some; [|apply H3; done]. cbn [dist]. split; [|done].
    apply (walk_edge out rt ex); [apply (H3 _ _ Hx) | done].
  - intros v n [[<- <-]|[_ Hv]]%lookup_insert_Some Hc; [left|]. right. apply H4; done.
  - intros it Hit. apply elem_of_cons in Hit as [->|Hit].
    + eexists. cbn [qv qdist]. rewrite lookup_insert_eq. split; [done|]. cbn [dist]. lia.
    + destruct (H5 _ Hit) as (n & Hn & Hd). destruct (decide (qv it = to e)) as [E|E].
      * rewrite E, lookup_insert_eq. eexists. split; [done|]. rewrite E in Hn. destruct (Hold _ Hn). cbn [dist]. lia.
      * rewrite lookup_insert_ne by done. eauto.
  - intros u n it Hu Hc Hit. apply Hback in Hu; [|done]. apply elem_of_cons in Hit as [->|Hit].
    + cbn [qdist]. specialize (Hmax _ _ Hu Hc). lia.
    + apply (H6 u n); done.
  - intros u n e' Hu Hc He' Hd Hnot. apply Hback in Hu; [|done].
    assert (Hset : forall m, ns !! to e' = Some m -> dist m <= dist n + cost e' ->
      exists m, <[to e := mkNode (dist nx + cost e) false ps]> ns !! to e' = Some m /\ dist m <= dist n + cost e').
    { intros m Hm Hdm. destruct (decide (to e' = to e)) as [E|E].
      - rewrite E, lookup_insert_eq. eexists. split; [done|]. rewrite E in Hm. destruct (Hold _ Hm). cbn [dist]. lia.
      - rewrite lookup_insert_ne by done. eauto. }
    destruct (decide (u = ex /\ e' ∈ e :: es)) as [[-> Hin]|Hn'].
    + apply elem_of_cons in Hin as [->|]; [|tauto]. assert (n = nx) by congruence. subst n.
      rewrite lookup_insert_eq. eexists. split; [done|]. cbn [dist]. lia.
    + destruct (H7 u n e' Hu Hc He' Hd Hn') as (m & Hm & Hdm). apply (Hset m); done.
  - intros v n p [[<- <-]|[_ Hv]]%lookup_insert_Some Hp; cbn [parents dist] in *.
    + apply (parent_ok_mono ns); [intros u n Hu Hc; exists n; rewrite (Hkeep u n Hu Hc); done | apply Hps; done].
    + apply (parent_ok_mono ns); [intros u m Hu Hc; exists m; rewrite (Hkeep u m Hu Hc); done | apply (H8 v); done].
  - intros u n e' m Hu Hc He' Hm Hd Hnot. apply Hback in Hu; [|done]. apply lookup_insert_Some in Hm as [[E <-]|[E Hm]].
    + cbn [dist parents] in *. destruct (decide (u = ex /\ e' ∈ e :: es)) as [[-> Hin]|Hn'].
      * apply elem_of_cons in Hin as [->|]; [|tauto]. destruct ps as [|p ps]; [done|]. exists p. split; [left|].
        apply Hps. left.
      * destruct (H7 u n e' Hu Hc He' ltac:(lia) Hn') as (m & Hm & Hdm). rewrite <- E in Hm. destruct (Hold _ Hm). lia.
    + apply (H9 u n e' m); try done. intros [-> Hin]. apply elem_of_cons in Hin as [->|]; [done|tauto].
  - intros v n [[<- <-]|[_ Hv]]%lookup_insert_Some Hv'; [done | apply (H10 v); done].
Qed.

Lemma relax_add ex e es ns q nx n ps :
  inv ex (e :: es) ns q -> ns !! ex = Some nx -> ns !! to e = Some n -> dist nx + cost e = dist n ->
  (forall p, p ∈ ps -> p ∈ parents n \/ parent_ok out rt ns (to e) (dist n) p) ->
  (forall p, p ∈ parents n -> p ∈ ps) ->
  (exists p, p ∈ ps /\ parent p = ex /\ lastHopIfid p = ifid e /\ edgeCost p = cost e) ->
  inv ex es (<[to e := mkNode (dist n) (confirmed n) ps]> ns) q.
Proof.
  intros Hi Hx Hn Hd Hps Hsub Hnew. destruct Hi as [H1 H2 H3 H4 H5 H6 H7 H8 H9 H10].
  set (ns' := <[to e := mkNode (dist n) (confirmed n) ps]> ns).
  assert (Hto : forall u m, ns !! u = Some m -> exists m', ns' !! u = Some m' /\ confirmed m' = confirmed m /\ dist m' = dist m /\
    (forall p, p ∈ parents m -> p ∈ parents m')).
  { intros u m Hu. destruct (decide (u = to e)) as [->|E]; unfold ns'.
    - rewrite lookup_insert_eq. eexists. split; [done|]. assert (m = n) by congruence. subst. done.
    - rewrite lookup_insert_ne by done. eauto. }
  assert (Hof : forall u m, ns' !! u = Some m -> exists m', ns !! u = Some m' /\ confirmed m' = confirmed m /\ dist m' = dist m).
  { unfold ns'. intros u m [[<- <-]|[_ Hu]]%lookup_insert_Some; eauto. }
  constructor.
  - destruct H1 as (m & Hm & Hdm & Hc). destruct (Hto _ _ Hm) as (m' & ? & ? & ? & _). exists m'. split_all; congruence.
  - destruct H2 as (m & Hm & Hc & Hmax). destruct (Hto _ _ Hm) as (m' & ? & ? & E & _). exists m'. split_all; try congruence.
    intros u k Hu Hck. destruct (Hof _ _ Hu) as (k' & ? & ? & <-). rewrite E. apply (Hmax u); congruence.
  - intros v m Hv. destruct (Hof _ _ Hv) as (m' & Hv' & _ & <-). apply H3. done.
  - intros v m Hv Hc. destruct (Hof _ _ Hv) as (m' & Hv' & ? & <-). apply H4; congruence.
  - intros it Hit. destruct (H5 _ Hit) as (m & Hm & Hdm). destruct (Hto _ _ Hm) as (m' & ? & _ & E & _). exists m'. rewrite E. done.
  - intros u m it Hu Hc Hit. destruct (Hof _ _ Hu) as (m' & Hu' & ? & <-). apply (H6 u m'); congruence.
  - intros u m e' Hu Hc He' Hdm Hnot. destruct (Hof _ _ Hu) as (m' & Hu' & Hc' & E). rewrite <- E in *.
    assert (Hgoal : exists k, ns !! to e' = Some k /\ dist k <= dist m' + cost e').
    { destruct (decide (u = ex /\ e' ∈ e :: es)) as [[-> Hin]|Hn'].
      - apply elem_of_cons in Hin as [->|]; [|tauto]. exists n. assert (m' = nx) by congruence. subst. split; [done|lia].
      - apply (H7 u m' e'); congruence. }
    destruct Hgoal as (k & Hk & Hdk). destruct (Hto _ _ Hk) as (k' & ? & _ & Ek & _). exists k'. rewrite Ek. done.
  - intros v m p Hv Hp. assert (Hmono : parent_ok out rt ns v (dist m) p -> parent_ok out rt ns' v (dist m) p).
    { apply parent_ok_mono. intros u k Hu Hc. destruct (Hto _ _ Hu) as (k' & ? & ? & ? & _). exists k'. split_all; congruence. }
    apply Hmono. unfold ns' in Hv. apply lookup_insert_Some in Hv as [[<- <-]|[_ Hv]]; cbn [dist parents] in *.
    + destruct (Hps _ Hp); [apply (H8 _ _ _ Hn); done | done].
    + apply (H8 v m p); done.
  - intros u m e' k Hu Hc He' Hk Hdk Hnot. destruct (Hof _ _ Hu) as (m' & Hu' & Hc' & E). rewrite <- E in *.
    destruct (Hof _ _ Hk) as (k' & Hk' & _ & Ek). rewrite <- Ek in *.
    destruct (decide (u = ex /\ e' ∈ e :: es)) as [[-> Hin]|Hn'].
    + apply elem_of_cons in Hin as [->|]; [|tauto]. unfold ns' in Hk. rewrite lookup_insert_eq in Hk. injection Hk as <-.
      cbn [parents]. exact Hnew.
    + destruct (H9 u m' e' k') as (p & Hp & ?); try congruence. exists p. split; [|done].
      destruct (Hto _ _ Hk') as (k'' & Hk'' & _ & _ & Hincl). assert (k'' = k) by congruence. subst. auto.
  - intros v m Hv Hv'. unfold ns' in Hv. apply lookup_insert_Some in Hv as [[<- <-]|[_ Hv]]; [|apply (H10 v); done].
    cbn [parents]. destruct Hnew as (p & Hp & _). intros ->. apply elem_of_nil in Hp. done.
Qed.

Lemma settled_unconfirmed ns v m w d :
  (forall n, ns !! v = Some n -> confirmed n = false) -> confirmed m = false ->
  settled (<[v := m]> ns) w d <-> settled ns w d.
Proof.
  intros Hold Hm. unfold settled. destruct (decide (v = w)) as [->|Hne]; [|rewrite lookup_insert_ne by done; done].
  rewrite lookup_insert_eq. split.
  - intros (n & [= <-] & Hc & _). congruence.
  - intros (n & Hn & Hc & _). specialize (Hold _ Hn). congruence.
Qed.

Lemma settled_parents ns v n ps w d :
  ns !! v = Some n -> settled (<[v := mkNode (dist n) (confirmed n) ps]> ns) w d <-> settled ns w d.
Proof.
  intros Hn. unfold settled. destruct (decide (v = w)) as [->|Hne]; [|rewrite lookup_insert_ne by done; done].
  rewrite lookup_insert_eq, Hn. split; intros (m & [= <-] & Hc & Hd); eauto.
Qed.

(** The relaxation of an edge of the vertex being expanded keeps the
    invariant, adds at most one item, and confirms nothing. *)
Lemma relaxEdgeFull_inv ex e es ns q nx :
  inv ex (e :: es) ns q -> ns !! ex = Some nx -> e ∈ out ex ->
  let nd := addCost (dist nx) (cost e) in
  let s := if nd =? INF then (ns, q) else relaxEdgeFull rt ex (to e) nd (ifid e) (cost e) (ns, q) in
  inv ex es s.1 s.2 /\ (length s.2 <= S (length q))%nat /\
  (forall v d, settled s.1 v d <-> settled ns v d) /\
  exists nx', s.1 !! ex = Some nx' /\ dist nx' = dist nx.
Proof.
  intros Hi Hx He nd. pose proof (Hcost _ _ He) as [Hc0 Hc1].
  destruct (i_walk _ _ _ _ _ _ Hi _ _ Hx) as [Hw Hxinf]. apply walk_nonneg in Hw; [|exact cost_nonneg].
  assert (Hnd : nd = Z.min (dist nx + cost e) INF) by (apply addCost_value; [change INF with (2 ^ 64 - 1)|]; lia).
  destruct (Z.eqb_spec nd INF) as [E|E]; cbn zeta.
  { cbn [fst snd]. split; [apply (relax_skip ex e es ns q nx); [done|done|left; lia]|]. split; [lia|]. split; [done|eauto]. }
  assert (Hnd' : nd = dist nx + cost e) by lia. assert (Hlt : dist nx + cost e < INF) by lia. clearbody nd. clear Hnd E. subst nd.
  destruct (i_ex _ _ _ _ _ _ Hi) as (nx' & Hx' & Hcx & Hmax). assert (nx' = nx) by congruence. subst nx'.
  unfold relaxEdgeFull. set (ns0 := try_emplace ns (to e)).
  assert (Hfh : firstHops rt ns0 ex (ifid e) = firstHops rt ns ex (ifid e)).
  { unfold firstHops, ns0, try_emplace. destruct (ns !! to e) eqn:Et; [done|].
    rewrite lookup_insert_ne; [done|]. intros Ee. congruence. }
  rewrite Hfh. set (new := _ <$> firstHops rt ns ex (ifid e)).
  assert (Hnew : forall p, p ∈ new -> parent_ok out rt ns (to e) (dist nx + cost e) p /\ parent p = ex /\
    lastHopIfid p = ifid e /\ edgeCost p = cost e) by (intros p; apply (new_parents_ok ex (e :: es) ns q); done).
  assert (Hne : new <> []) by (intros Hn%fmap_nil_inv; apply firstHops_nonempty in Hn; done).
  destruct (ns !! to e) as [n|] eqn:Et.
  - assert (E0 : ns0 = ns) by (unfold ns0, try_emplace; rewrite Et; done).
    assert (En : node_at ns0 (to e) = n) by (unfold node_at; rewrite E0, Et; done). rewrite En, E0.
    destruct (Z.ltb_spec (dist nx + cost e) (dist n)) as [Hl|Hl].
    + destruct (confirmed n) eqn:Hcn; [specialize (Hmax _ _ Et Hcn); lia|]. cbn [fst snd length]. split; [|split; [lia|split]].
      * apply relax_set; try done. intros m Hm. assert (m = n) as -> by congruence. done.
      * intros v d. apply settled_unconfirmed; [|done]. intros m Hm. assert (m = n) as -> by congruence. done.
      * exists nx. rewrite lookup_insert_ne; [done|]. intros Ee. congruence.
    + destruct (Z.eqb_spec (dist nx + cost e) (dist n)) as [Hq|Hq]; cbn [fst snd].
      * split; [|split; [lia|split]].
        -- apply (relax_add ex e es ns q nx n); try done.
           ++ intros p [?|Hp]%addParents_elem; [auto|]. right. rewrite <- Hq. apply Hnew. done.
           ++ intros p Hp. apply addParents_elem. auto.
           ++ destruct new as [|p new'] eqn:Ep; [done|]. exists p. split; [apply addParents_elem; right; left|].
              apply Hnew. left.
        -- intros v d. apply settled_parents. done.
        -- destruct (decide (to e = ex)) as [Ee|Ee].
           ++ rewrite Ee, lookup_insert_eq. eexists. split; [done|]. cbn [dist]. congruence.
           ++ rewrite lookup_insert_ne by done. eauto.
      * split; [apply (relax_skip ex e es ns q nx); [done|done|]; right; exists n; split; [done|lia]|]. split; [lia|]. split; [done|eauto].
  - assert (E0 : ns0 = <[to e := mkNode INF false []]> ns) by (unfold ns0, try_emplace; rewrite Et; done).
    assert (En : node_at ns0 (to e) = mkNode INF false []) by (unfold node_at; rewrite E0, lookup_insert_eq; done). rewrite En.
    cbn [dist confirmed]. rewrite (proj2 (Z.ltb_lt _ _)) by done. cbn [fst snd length]. rewrite E0, insert_insert_eq.
    split; [|split; [lia|split]].
    + apply relax_set; try done. intros m Hm. congruence.
    + intros v d. apply settled_unconfirmed; [|done]. intros m Hm. congruence.
    + exists nx. rewrite lookup_insert_ne; [done|]. intros Ee. congruence.
Qed.

(** Relaxing all edges of the vertex being expanded finishes its expansion. *)
Lemma relaxAll_inv ex es : forall ns q nx,
  inv ex es ns q -> ns !! ex = Some nx -> (forall e, e ∈ es -> e ∈ out ex) ->
  let s := relaxAll false rt ex (dist nx) es (ns, q) in
  inv ex [] s.1 s.2 /\ (length s.2 <= length q + length es)%nat /\
  (forall v d, settled s.1 v d <-> settled ns v d).
Proof.
  induction es as [|e es IH]; intros ns q nx Hi Hx Hes; [cbn; split; [done|]; split; [lia|done]|].
  destruct (relaxEdgeFull_inv ex e es ns q nx Hi Hx ltac:(apply Hes; left)) as (Hi' & Hl & Hc & nx' & Hx' & Hd).
  unfold relaxAll in *. cbn [fold_left]. cbn zeta in *. set (s1 := if _ =? INF then _ else _) in *.
  destruct s1 as [ns1 q1]. cbn [fst snd] in *. rewrite <- Hd.
  destruct (IH ns1 q1 nx' Hi' Hx' ltac:(intros; apply Hes; right; done)) as (Hi2 & Hl2 & Hc2).
  split; [exact Hi2|]. split; [cbn [length]; lia|]. intros v d. rewrite Hc2, Hc. done.
Qed.

(** An item that is stale or whose vertex is confirmed leaves the queue. *)
Lemma pop_stale ex ns q cur rest :
  inv ex [] ns q -> q ≡ₚ cur :: rest ->
  (forall n, ns !! qv cur = Some n -> qdist cur <> dist n \/ confirmed n = true) -> inv ex [] ns rest.
Proof.
  intros Hi Hp Hst. destruct Hi as [H1 H2 H3 H4 H5 H6 H7 H8 H9 H10]. constructor; try done.
  - intros v n Hv Hc. specialize (H4 v n Hv Hc). rewrite Hp in H4. apply elem_of_cons in H4 as [E|]; [|done].
    subst cur. cbn [qv qdist] in Hst. destruct (Hst n Hv); congruence.
  - intros it Hit. apply H5. rewrite Hp. right. done.
  - intros u n it Hu Hc Hit. apply (H6 u n); [done|done|]. rewrite Hp. right. done.
Qed.

(** The vertex of a current item becomes the one being expanded. *)
Lemma pop_confirm ex ns q cur rest n :
  inv ex [] ns q -> q ≡ₚ cur :: rest -> Forall (fun y => qdist cur <= qdist y) rest ->
  ns !! qv cur = Some n -> qdist cur = dist n -> confirmed n = false ->
  inv (qv cur) (out (qv cur)) (<[qv cur := set_confirmed true n]> ns) rest.
Proof.
  intros Hi Hp Hmin Hn Hd Hcn. destruct Hi as [H1 H2 H3 H4 H5 H6 H7 H8 H9 H10].
  set (v0 := qv cur) in *. set (ns' := <[v0 := set_confirmed true n]> ns).
  assert (Hq : cur ∈ q) by (rewrite Hp; left).
  assert (Hto : forall u m, ns !! u = Some m -> exists m', ns' !! u = Some m' /\ dist m' = dist m /\ parents m' = parents m /\
    (confirmed m = true -> confirmed m' = true)).
  { intros u m Hu. unfold ns'. destruct (decide (u = v0)) as [->|E].
    - rewrite lookup_insert_eq. eexists. split; [done|]. assert (m = n) as -> by congruence. done.
    - rewrite lookup_insert_ne by done. eauto. }
  assert (Hof : forall u m, ns' !! u = Some m -> exists m', ns !! u = Some m' /\ dist m' = dist m /\ parents m' = parents m /\
    (u = v0 \/ confirmed m' = confirmed m)).
  { unfold ns'. intros u m [[<- <-]|[_ Hu]]%lookup_insert_Some; [exists n; split_all; auto | eauto 6]. }
  assert (Hmono : forall v d p, parent_ok out rt ns v d p -> parent_ok out rt ns' v d p).
  { intros v d p. apply parent_ok_mono. intros u m Hu Hc. destruct (Hto _ _ Hu) as (m' & ? & ? & _ & ?). eauto. }
  constructor.
  - destruct H1 as (m & Hm & Hdm & Hc). destruct (Hto _ _ Hm) as (m' & ? & E & _ & ?). exists m'. rewrite E. auto.
  - exists (set_confirmed true n). unfold ns'. rewrite lookup_insert_eq. split; [done|]. split; [done|].
    intros u m [[<- <-]|[_ Hu]]%lookup_insert_Some Hc; [cbn; lia|]. cbn [set_confirmed dist]. rewrite <- Hd. apply (H6 u); done.
  - intros v m Hv. destruct (Hof _ _ Hv) as (m' & Hv' & <- & _). apply H3. done.
  - intros v m Hv Hc. destruct (Hof _ _ Hv) as (m' & Hv' & <- & _ & Hcc). destruct Hcc as [->|Hcc].
    + unfold ns' in Hv. rewrite lookup_insert_eq in Hv. injection Hv as <-. done.
    + specialize (H4 v m' Hv' ltac:(congruence)). rewrite Hp in H4. apply elem_of_cons in H4 as [E|]; [|done].
      subst cur. unfold ns' in Hv. cbn [qv] in v0. subst v0. rewrite lookup_insert_eq in Hv. injection Hv as <-. done.
  - intros it Hit. destruct (H5 it) as (m & Hm & Hdm); [rewrite Hp; right; done|]. destruct (Hto _ _ Hm) as (m' & ? & E & _).
    exists m'. rewrite E. done.
  - intros u m it Hu Hc Hit. destruct (Hof _ _ Hu) as (m' & Hu' & <- & _ & [->|Hcc]).
    + assert (m' = n) as -> by congruence. rewrite <- Hd. rewrite Forall_forall in Hmin. auto.
    + apply (H6 u); [done|congruence|]. rewrite Hp. right. done.
  - intros u m e Hu Hc He Hdm Hnot. destruct (Hof _ _ Hu) as (m' & Hu' & E & _ & [->|Hcc]); [tauto|]. rewrite <- E in *.
    destruct (H7 u m' e) as (k & Hk & Hdk); [done|congruence|done|done|intros [_ Hin]; apply elem_of_nil in Hin; done|].
    destruct (Hto _ _ Hk) as (k' & ? & Ek & _). exists k'. rewrite Ek. done.
  - intros v m p Hv Hp'. destruct (Hof _ _ Hv) as (m' & Hv' & <- & E & _). rewrite <- E in Hp'. apply Hmono, (H8 v m'); done.
  - intros u m e k Hu Hc He Hk Hdm Hnot. destruct (Hof _ _ Hu) as (m' & Hu' & E & _ & [->|Hcc]); [tauto|].
    destruct (Hof _ _ Hk) as (k' & Hk' & Ek & Epk & _). rewrite <- E, <- Ek, <- Epk in *.
    apply (H9 u m' e k'); [done|congruence|done|done|done|]. intros [_ Hin]. apply elem_of_nil in Hin. done.
  - intros v m Hv Hv'. destruct (Hof _ _ Hv) as (m' & Hvn & _ & <- & _). apply (H10 v); done.
Qed.

(** With an empty queue the nodes hold the distances. *)
Lemma finished ex ns :
  inv ex [] ns [] ->
  (forall v n, ns !! v = Some n -> confirmed n = true /\ distance out rt v (dist n) /\ dist n < INF) /\
  (forall v d, walk out rt v d -> d < INF -> is_Some (ns !! v)).
Proof.
  intros Hi. destruct Hi as [H1 H2 H3 H4 H5 H6 H7 H8 H9 H10].
  assert (Hconf : forall v n, ns !! v = Some n -> confirmed n = true).
  { intros v n Hv. destruct (confirmed n) eqn:E; [done|]. specialize (H4 v n Hv E). apply elem_of_nil in H4. done. }
  assert (Hall : forall v d, walk out rt v d -> d < INF -> exists n, ns !! v = Some n /\ dist n <= d).
  { induction 1 as [|u d e Hw IH He]; intros Hd.
    - destruct H1 as (n & Hn & Hdn & _). exists n. split; [done|lia].
    - pose proof (cost_nonneg _ _ He). destruct IH as (n & Hn & Hdn); [lia|].
      destruct (H7 u n e Hn (Hconf _ _ Hn) He ltac:(lia)) as (m & Hm & Hdm); [intros [_ Hin]; apply elem_of_nil in Hin; done|].
      exists m. split; [done|lia]. }
  split.
  - intros v n Hv. destruct (H3 v n Hv) as [Hw Hinf]. split; [eauto|]. split; [|done]. split; [done|].
    intros d' Hw'. destruct (Z.lt_ge_cases d' INF) as [Hlt|]; [|lia]. destruct (Hall v d' Hw' Hlt) as (m & Hm & ?).
    assert (m = n) by congruence. subst. lia.
  - intros v d Hw Hd. destruct (Hall v d Hw Hd) as (n & Hn & _). eauto.
Qed.
End Relax.

(** ** The whole computation *)

Section Laws.
  Context {T C : Type} `{SpfGraphLaws T C}.

(** The edges that leave a vertex, with those of a network free. *)
Definition out (t : T) (v : Vertex) : list SpfEdge :=
  match vtype v with
  | ROUTER => default [] (routerEdges t (u32 (vid v)))
  | NETWORK => (fun rid => mkEdge (mkVertex ROUTER rid) 0 0) <$> default [] (networkRouters t (vid v))
  end.

Lemma expandVertex_spec t v c :
  cache_ok t c -> cache_ok t (expandVertex t v c).1 /\ (expandVertex t v c).2 = out t v.
Proof.
  intros Hc. unfold expandVertex, out. destruct (vtype v).
  - destruct (expandRouter_law t c (u32 (vid v)) Hc) as [Hc' Hr]. destruct (expandRouter t _ c). cbn [fst snd] in *. subst. done.
  - destruct (expandNetwork_law t c (vid v) Hc) as [Hc' Hr]. destruct (expandNetwork t _ c). cbn [fst snd] in *. subst. done.
Qed.

Lemma out_wf t c v e : cache_ok t c -> e ∈ out t v -> to e ∈ vertices t /\ in_width 32 (cost e).
Proof.
  intros Hc. unfold out. destruct (vtype v).
  - destruct (routerEdges t (u32 (vid v))) as [es|] eqn:E; cbn [default]; [|intros Hin; apply elem_of_nil in Hin; done].
    intros He. destruct (router_edge_law t c _ _ _ Hc E He) as (? & ? & _). done.
  - intros (r & -> & Hr)%list_elem_of_fmap. cbn [to cost].
    destruct (networkRouters t (vid v)) as [rs|] eqn:E; cbn [default] in Hr; [|apply elem_of_nil in Hr; done].
    split; [apply (network_router_law t c _ _ _ Hc E Hr) | done].
Qed.

Lemma walk_vertices t c rt v d : cache_ok t c -> walk (out t) rt v d -> v = rt \/ v ∈ vertices t.
Proof. intros Hc. induction 1 as [|u d e _ _ He]; [auto|]. right. apply (out_wf t c u); done. Qed.

(** The edges still to be relaxed bound the items still to be pushed. *)
Definition confirmed_at (ns : gmap Vertex SptNode) (v : Vertex) : bool :=
  match ns !! v with Some n => confirmed n | None => false end.
Definition pending (t : T) (ns : gmap Vertex SptNode) : nat :=
  sum_list ((fun v => if confirmed_at ns v then 0 else length (out t v)) <$> elements (vertices t))%nat.

(** The fuel that is enough: the edges of all vertices. *)
Definition spf_bound (t : T) (rt : Vertex) : nat :=
  (length (out t rt) + sum_list ((fun v => length (out t v)) <$> elements (vertices t)))%nat.

Lemma sum_list_le {A} (f g : A -> nat) l : (forall y, y ∈ l -> g y <= f y)%nat -> (sum_list (g <$> l) <= sum_list (f <$> l))%nat.
Proof.
  intros Hfg. induction l as [|y l IH]; [done|]. assert (Hy : (g y <= f y)%nat) by (apply Hfg; left).
  assert (IH' : (sum_list (g <$> l) <= sum_list (f <$> l))%nat) by (apply IH; intros; apply Hfg; right; done).
  cbn. unfold fmap in *. lia.
Qed.

Lemma sum_list_drop {A} (f g : A -> nat) l x :
  x ∈ l -> g x = 0%nat -> (forall y, y ∈ l -> g y <= f y)%nat -> (sum_list (g <$> l) + f x <= sum_list (f <$> l))%nat.
Proof.
  intros Hx Hg Hfg. induction l as [|y l IH]; [apply elem_of_nil in Hx; done|].
  assert (Hle : (sum_list (g <$> l) <= sum_list (f <$> l))%nat) by (apply sum_list_le; intros; apply Hfg; right; done).
  assert (Hy : (g y <= f y)%nat) by (apply Hfg; left). cbn. unfold fmap in *. apply elem_of_cons in Hx as [->|Hx]; [lia|].
  specialize (IH Hx ltac:(intros; apply Hfg; right; done)). lia.
Qed.

Lemma confirmed_at_settled ns v : confirmed_at ns v = true <-> exists d, settled ns v d.
Proof.
  unfold confirmed_at, settled. destruct (ns !! v) as [n|]; split; [eauto 6 | | done | intros (? & ? & ? & _); done].
  intros (d & m & [= <-] & Hc & _). done.
Qed.

Lemma pending_settled t ns ns' : (forall v d, settled ns' v d <-> settled ns v d) -> pending t ns' = pending t ns.
Proof.
  intros Hs. unfold pending. f_equal. apply list_fmap_ext. intros _ v _.
  assert (E : confirmed_at ns' v = confirmed_at ns v); [|rewrite E; done].
  apply eq_true_iff_eq. rewrite !confirmed_at_settled. setoid_rewrite Hs. done.
Qed.

Lemma pending_confirm t ns v n :
  v ∈ vertices t -> ns !! v = Some n -> confirmed n = false ->
  (pending t (<[v := set_confirmed true n]> ns) + length (out t v) <= pending t ns)%nat.
Proof.
  intros Hv Hn Hc. unfold pending.
  pose proof (sum_list_drop (fun v => if confirmed_at ns v then 0 else length (out t v))%nat
    (fun w => if confirmed_at (<[v := set_confirmed true n]> ns) w then 0 else length (out t w))%nat (elements (vertices t)) v) as Hs.
  cbn beta in Hs. assert (E : confirmed_at ns v = false) by (unfold confirmed_at; rewrite Hn; done). rewrite E in Hs. apply Hs.
  - apply elem_of_elements. done.
  - unfold confirmed_at. rewrite lookup_insert_eq. done.
  - intros y _. unfold confirmed_at. destruct (decide (v = y)) as [<-|Hne]; [rewrite lookup_insert_eq; cbn; lia|].
    rewrite lookup_insert_ne by done. lia.
Qed.
(** The confirmed vertices, once each, by increasing distance. *)
Definition order_ok (ns : gmap Vertex SptNode) (order : list Vertex) : Prop :=
  NoDup order /\ (forall v, v ∈ order <-> exists d, settled ns v d) /\
  StronglySorted (fun u w => forall du dw, settled ns u du -> settled ns w dw -> du <= dw) order.

Lemma order_ok_settled ns ns' order :
  (forall v d, settled ns' v d <-> settled ns v d) -> order_ok ns order -> order_ok ns' order.
Proof.
  intros Hs (Hnd & Hin & Hsrt). split; [done|]. split; [intros v; setoid_rewrite Hs; done|].
  eapply StronglySorted_weaken; [|exact Hsrt]. cbn beta. intros u w Hw du dw. rewrite !Hs. apply Hw.
Qed.

(** A newly confirmed vertex, no nearer than the others, goes last. *)
Lemma order_ok_confirm ns order v n :
  ns !! v = Some n -> confirmed n = false ->
  (forall u d, settled ns u d -> d <= dist n) -> order_ok ns order ->
  order_ok (<[v := set_confirmed true n]> ns) (order ++ [v]).
Proof.
  intros Hn Hc Hmax (Hnd & Hin & Hsrt). set (ns' := <[v := set_confirmed true n]> ns).
  assert (Hv : settled ns' v (dist n)) by (exists (set_confirmed true n); unfold ns'; rewrite lookup_insert_eq; done).
  assert (Hne : forall u d, u <> v -> settled ns' u d <-> settled ns u d).
  { intros u d Hu. unfold settled, ns'. rewrite lookup_insert_ne by done. done. }
  assert (Hv' : forall d, settled ns' v d -> d = dist n).
  { intros d (m & Hm & _ & <-). unfold ns' in Hm. rewrite lookup_insert_eq in Hm. injection Hm as <-. done. }
  assert (Hnot : v ∉ order) by (rewrite Hin; intros (d & m & Hm & Hcm & _); congruence).
  split; [|split].
  - apply NoDup_app. split; [done|]. split; [intros u Hu ->%list_elem_of_singleton; done|]. apply NoDup_singleton.
  - intros u. rewrite elem_of_app, list_elem_of_singleton, Hin. destruct (decide (u = v)) as [->|Hu].
    + split; [eauto|auto].
    + setoid_rewrite Hne; [|done]. split; [intros [?|?]; done | auto].
  - clear Hnd. assert (Hsub : forall u, u ∈ order -> u <> v /\ exists d, settled ns u d)
      by (intros u Hu; split; [intros ->; done | apply Hin; done]). clear Hin Hnot.
    induction Hsrt as [|u l Hs IH Hf]; cbn [app]; [repeat constructor|]. constructor.
    + apply IH. intros w Hw. apply Hsub. right. done.
    + destruct (Hsub u ltac:(left)) as [Hu _]. apply Forall_app. split.
      * apply Forall_forall. intros w Hw du dw. destruct (Hsub w ltac:(right; done)) as [Hwv _].
        rewrite !Hne by done. rewrite Forall_forall in Hf. apply Hf. done.
      * constructor; [|done]. intros du dw Hdu Hdw. rewrite Hne in Hdu by done. apply Hv' in Hdw as ->. eapply Hmax, Hdu.
Qed.

Definition state_ok (t : T) (rt ex : Vertex) (s : SpfState) : Prop :=
  spf_inv (out t) rt ex [] (st_nodes s) (st_pq s) /\ order_ok (st_nodes s) (st_order s) /\ cache_ok t (st_cache s).

(** Expanding a vertex whose edges are all to do finishes it. *)
Lemma expandAndRelax_inv t rt ex c ns q nx :
  cache_ok t c -> spf_inv (out t) rt ex (out t ex) ns q -> ns !! ex = Some nx ->
  let r := expandAndRelax false t rt ex c (ns, q) in
  cache_ok t r.1 /\ spf_inv (out t) rt ex [] r.2.1 r.2.2 /\ (length r.2.2 <= length q + length (out t ex))%nat /\
  (forall v d, settled r.2.1 v d <-> settled ns v d).
Proof.
  intros Hc Hi Hx. unfold expandAndRelax. cbn [fst]. rewrite Hx.
  destruct (i_walk _ _ _ _ _ _ Hi _ _ Hx) as [_ Hinf]. rewrite (proj2 (Z.eqb_neq _ _)) by lia.
  destruct (expandVertex_spec t ex c Hc) as [Hc' He]. destruct (expandVertex t ex c) as [c' es]. cbn [fst snd] in *. subst es.
  split; [done|].
  apply (relaxAll_inv (out t) rt (fun u e He => proj2 (out_wf t c u e Hc He)) ex (out t ex) ns q nx Hi Hx). done.
Qed.

(** One turn of the loop: the invariant holds again and the bound shrinks. *)
Lemma spfStep_ok t rt ex s cur rest :
  state_ok t rt ex s -> pop_min (st_pq s) = Some (cur, rest) ->
  let s' := spfStep t rt cur (mkState (st_nodes s) rest (st_order s) (st_cache s)) in
  (exists ex', state_ok t rt ex' s') /\
  (length (st_pq s') + pending t (st_nodes s') < length (st_pq s) + pending t (st_nodes s))%nat.
Proof.
  intros (Hi & Ho & Hc) Hpop. destruct (pop_min_some _ _ _ Hpop) as [Hp Hmin].
  assert (Hlen : length (st_pq s) = S (length rest)) by (rewrite Hp; done).
  assert (Hstale : (forall n, st_nodes s !! qv cur = Some n -> qdist cur <> dist n \/ confirmed n = true) ->
    (exists ex', state_ok t rt ex' (mkState (st_nodes s) rest (st_order s) (st_cache s))) /\
    (length rest + pending t (st_nodes s) < length (st_pq s) + pending t (st_nodes s))%nat).
  { intros Hst. split; [|lia]. exists ex. split; [|done]. apply (pop_stale (out t) rt ex _ _ cur rest Hi Hp Hst). }
  unfold spfStep. cbn [st_nodes st_pq st_order st_cache].
  destruct (st_nodes s !! qv cur) as [n|] eqn:En; [|apply Hstale; intros; congruence].
  destruct (Z.eqb_spec (qdist cur) (dist n)) as [Ed|Ed]; cbn [negb]; [|apply Hstale; intros m Hm; left; congruence].
  destruct (confirmed n) eqn:Ecn; [apply Hstale; intros m Hm; right; congruence|]. clear Hstale.
  pose proof (pop_confirm (out t) rt ex _ _ cur rest n Hi Hp Hmin En Ed Ecn) as Hi1.
  set (v := qv cur) in *. set (ns1 := <[v := set_confirmed true n]> (st_nodes s)) in *.
  assert (Hv1 : ns1 !! v = Some (set_confirmed true n)) by (unfold ns1; apply lookup_insert_eq).
  destruct (expandAndRelax_inv t rt v (st_cache s) ns1 rest _ Hc Hi1 Hv1) as (Hc2 & Hi2 & Hl2 & Hs2).
  destruct (expandAndRelax false t rt v (st_cache s) (ns1, rest)) as [c2 [ns2 q2]]. cbn [fst snd st_nodes st_pq] in *. split.
  - exists v. split; [done|]. split; [|done]. cbn [st_nodes st_order]. apply (order_ok_settled ns1); [done|].
    apply order_ok_confirm; try done. intros u d (m & Hm & Hcm & <-). rewrite <- Ed.
    apply (i_mono _ _ _ _ _ _ Hi u m); [done|done|]. rewrite Hp. left.
  - rewrite (pending_settled t ns1 ns2) by done.
    assert (Hv : v ∈ vertices t).
    { destruct (i_walk _ _ _ _ _ _ Hi v n En) as [Hw _]. apply (walk_vertices t (st_cache s)) in Hw as [E|]; [|done|done].
      destruct (i_root _ _ _ _ _ _ Hi) as (n0 & Hn0 & _ & Hc0). congruence. }
    pose proof (pending_confirm t (st_nodes s) v n Hv En Ecn) as Hpc. fold ns1 in Hpc. lia.
Qed.

Lemma spfLoop_ok fuel : forall t rt ex s,
  state_ok t rt ex s -> (length (st_pq s) + pending t (st_nodes s) <= fuel)%nat ->
  exists s' ex', spfLoop fuel t rt s = Some s' /\ state_ok t rt ex' s' /\ st_pq s' = [].
Proof.
  induction fuel as [|fuel IH]; intros t rt ex s Hs Hf; cbn [spfLoop].
  - destruct (st_pq s) as [|it q] eqn:Eq; [|cbn [length] in Hf; lia]. exists s, ex. done.
  - destruct (pop_min (st_pq s)) as [[cur rest]|] eqn:Ep; [|apply pop_min_none in Ep; exists s, ex; done].
    destruct (spfStep_ok t rt ex s cur rest Hs Ep) as [(ex' & Hs') Hlt]. apply (IH t rt ex' _ Hs'). lia.
Qed.

Lemma spfInit_ok t rid c :
  cache_ok t c ->
  state_ok t (mkVertex ROUTER rid) (mkVertex ROUTER rid) (spfInit t rid c) /\
  (length (st_pq (spfInit t rid c)) + pending t (st_nodes (spfInit t rid c)) <= spf_bound t (mkVertex ROUTER rid))%nat.
Proof.
  intros Hc. set (rt := mkVertex ROUTER rid). unfold spfInit. fold rt.
  set (ns0 := {[ rt := mkNode 0 true [] ]} : gmap Vertex SptNode).
  assert (Hx : ns0 !! rt = Some (mkNode 0 true [])) by apply lookup_singleton_eq.
  assert (Hof : forall v n, ns0 !! v = Some n -> v = rt /\ n = mkNode 0 true []).
  { intros v n Hv. apply lookup_singleton_Some in Hv as [<- <-]. done. }
  assert (Hi : spf_inv (out t) rt rt (out t rt) ns0 []).
  { constructor.
    - eexists. split; [exact Hx|done].
    - eexists. split; [exact Hx|]. split; [done|]. intros u n Hu _. apply Hof in Hu as [_ ->]. done.
    - intros v n Hv. apply Hof in Hv as [-> ->]. split; [constructor | done].
    - intros v n Hv Hc'. apply Hof in Hv as [-> ->]. done.
    - intros it Hit. apply elem_of_nil in Hit. done.
    - intros u n it _ _ Hit. apply elem_of_nil in Hit. done.
    - intros u n e Hu _ He _ Hnot. apply Hof in Hu as [-> ->]. tauto.
    - intros v n p Hv Hp. apply Hof in Hv as [-> ->]. apply elem_of_nil in Hp. done.
    - intros u n e m Hu _ He _ _ Hnot. apply Hof in Hu as [-> ->]. tauto.
    - intros v n Hv Hne. apply Hof in Hv as [-> _]. done. }
  destruct (expandAndRelax_inv t rt rt c ns0 [] _ Hc Hi Hx) as (Hc2 & Hi2 & Hl2 & Hs2).
  destruct (expandAndRelax false t rt rt c (ns0, [])) as [c2 [ns2 q2]]. cbn [fst snd st_nodes st_pq length] in *. split.
  - split; [done|]. split; [|done]. cbn [st_nodes st_order]. apply (order_ok_settled ns0); [done|].
    assert (Hset : forall v d, settled ns0 v d <-> v = rt /\ d = 0).
    { intros v d. split; [intros (n & Hn & _ & <-); apply Hof in Hn as [-> ->]; done | intros [-> ->]; eexists; done]. }
    split; [apply NoDup_singleton|]. split; [|repeat constructor].
    intros v. rewrite list_elem_of_singleton. setoid_rewrite Hset. split; [eauto | intros (? & ? & _); done].
  - unfold spf_bound. assert (Hp : (pending t ns2 <= sum_list ((fun v => length (out t v)) <$> elements (vertices t)))%nat).
    { apply sum_list_le. intros y _. destruct (confirmed_at ns2 y); lia. }
    lia.
Qed.
(** *** The parents that are kept *)

Lemma finalizeNode_parents k n :
  let m := finalizeNode k n in
  (forall p, p ∈ parents m -> p ∈ parents n) /\ (parents n <> [] -> parents m <> []) /\
  ((0 < k)%nat -> (length (parents m) <= k)%nat) /\ (k = 0%nat -> forall p, p ∈ parents n -> p ∈ parents m).
Proof.
  unfold finalizeNode. cbn [parents]. set (ps := uniq _ _).
  assert (Hps : forall p, p ∈ ps <-> p ∈ parents n).
  { intros p. unfold ps. split.
    - intros Hp%uniq_subseteq. apply isort_elem in Hp. done.
    - intros Hp. apply uniq_elem; [intros a b ->%bool_decide_eq_true; done|]. apply isort_elem. done. }
  assert (Hne : parents n <> [] -> ps <> []).
  { intros Hn Hp. destruct (parents n) as [|p q]; [done|]. assert (Hin : p ∈ ps) by (apply Hps; left). rewrite Hp in Hin.
    apply elem_of_nil in Hin. done. }
  destruct (Nat.ltb_spec 0 k), (Nat.ltb_spec k (length ps)); cbn [andb].
  - split; [intros p Hp; apply Hps; eapply elem_of_take in Hp as (i & Hi & _); apply list_elem_of_lookup; eauto|].
    split; [|split; [intros _; rewrite length_take; lia|lia]]. intros _ Ht. apply (f_equal length) in Ht.
    rewrite length_take in Ht. cbn [length] in Ht. lia.
  - split; [apply Hps|]. split; [done|]. split; [intros; lia|]. lia.
  - split; [apply Hps|]. split; [done|]. split; [lia|]. intros _ p. apply Hps.
  - split; [apply Hps|]. split; [done|]. split; [lia|]. intros _ p. apply Hps.
Qed.

(** The result of the loop, before and after the parents are cut. *)
Lemma runFull_loop fuel t rid k c :
  cache_ok t c -> (spf_bound t (mkVertex ROUTER rid) <= fuel)%nat ->
  exists ns order ex, runFull fuel t rid k c = Some (finalizeParents k (mkResult (mkVertex ROUTER rid) ns order)) /\
    spf_inv (out t) (mkVertex ROUTER rid) ex [] ns [] /\ order_ok ns order.
Proof.
  intros Hc Hf. destruct (spfInit_ok t rid c Hc) as [Hs Hb]. unfold runFull.
  destruct (spfLoop_ok fuel t (mkVertex ROUTER rid) _ _ Hs ltac:(lia)) as (s' & ex' & -> & (Hi & Ho & _) & Hq).
  exists (st_nodes s'), (st_order s'), ex'. rewrite Hq in Hi. done.
Qed.

Lemma finalize_lookup k r v n :
  nodes (finalizeParents k r) !! v = Some n <-> exists m, nodes r !! v = Some m /\ n = finalizeNode k m.
Proof. cbn [finalizeParents nodes]. rewrite lookup_fmap_Some. split; intros (m & ? & ?); eauto. Qed.

(** C3: The full computation ends, within a number of turns that the edges of the
    area bound, and its nodes are the vertices a walk reaches, each with the
    cost of a shortest walk; the order of confirmation lists them once each by
    increasing distance. *)
Theorem runFull_shortest_paths (fuel : nat) (t : T) (rid : Z) (maxPaths : nat) (c : C) :
  cache_ok t c -> (spf_bound t (mkVertex ROUTER rid) <= fuel)%nat ->
  exists r, runFull fuel t rid maxPaths c = Some r /\
    (forall v n, nodes r !! v = Some n ->
       confirmed n = true /\ distance (out t) (mkVertex ROUTER rid) v (dist n) /\ dist n < INF) /\
    (forall v d, walk (out t) (mkVertex ROUTER rid) v d -> d < INF -> is_Some (nodes r !! v)) /\
    NoDup (confirmedOrder r) /\ (forall v, v ∈ confirmedOrder r <-> is_Some (nodes r !! v)) /\
    StronglySorted (fun u w => forall n m, nodes r !! u = Some n -> nodes r !! w = Some m -> dist n <= dist m) (confirmedOrder r).
Proof.
  intros Hc Hf. destruct (runFull_loop fuel t rid maxPaths c Hc Hf) as (ns & order & ex & -> & Hi & Hnd & Hin & Hsrt).
  eexists. split; [reflexivity|]. destruct (finished (out t) _ (fun u e He => proj2 (out_wf t c u e Hc He)) ex ns Hi) as [H1' H2'].
  set (r := finalizeParents maxPaths _).
  assert (Hr : forall v, is_Some (nodes r !! v) <-> is_Some (ns !! v)).
  { intros v. unfold r. cbn [finalizeParents nodes]. rewrite lookup_fmap, fmap_is_Some. done. }
  assert (Hset : forall v n, nodes r !! v = Some n -> settled ns v (dist n)).
  { intros v n (m & Hm & ->)%finalize_lookup. exists m. cbn [nodes] in Hm. destruct (H1' v m Hm). done. }
  split_all.
  - intros v n (m & Hm & ->)%finalize_lookup. cbn [nodes finalizeNode dist confirmed] in *. apply (H1' v m Hm).
  - intros v d Hw Hd. apply Hr. apply (H2' v d); done.
  - exact Hnd.
  - intros v. rewrite Hr. unfold r. cbn [finalizeParents confirmedOrder]. rewrite Hin. split.
    + intros (d & n & Hn & _). eauto.
    + intros [n Hn]. destruct (H1' v n Hn). exists (dist n), n. done.
  - eapply StronglySorted_weaken; [|exact Hsrt]. cbn beta. intros u w Hw n m Hn Hm. apply Hw; apply Hset; done.
Qed.

(** Every vertex but the root has parents; each is the start of an edge that
    ends a shortest walk, with the interface and cost of that edge, and the
    first hop is the interface of the first edge of a shortest walk. No more
    than the configured number is kept, and with no limit none is missing. *)
Theorem runFull_parents (fuel : nat) (t : T) (rid : Z) (maxPaths : nat) (c : C) (r : SpfResult) (v : Vertex) (n : SptNode) :
  cache_ok t c -> (spf_bound t (mkVertex ROUTER rid) <= fuel)%nat ->
  runFull fuel t rid maxPaths c = Some r -> nodes r !! v = Some n ->
  (v <> root r -> parents n <> []) /\ ((0 < maxPaths)%nat -> (length (parents n) <= maxPaths)%nat) /\
  (forall p, p ∈ parents n ->
     (exists m, nodes r !! parent p = Some m /\ dist n = dist m + edgeCost p) /\
     (exists e, e ∈ out t (parent p) /\ to e = v /\ ifid e = lastHopIfid p /\ cost e = edgeCost p) /\
     hop (out t) (root r) v (dist n) (firstHopIfid p)) /\
  (maxPaths = 0%nat -> forall u m e, nodes r !! u = Some m -> e ∈ out t u -> to e = v -> dist m + cost e = dist n ->
     exists p, p ∈ parents n /\ parent p = u /\ lastHopIfid p = ifid e /\ edgeCost p = cost e).
Proof.
  intros Hc Hf Hr Hn. destruct (runFull_loop fuel t rid maxPaths c Hc Hf) as (ns & order & ex & Hr' & Hi & _).
  rewrite Hr in Hr'. injection Hr' as ->. apply finalize_lookup in Hn as (n0 & Hn0 & ->). cbn [nodes] in Hn0.
  destruct (finalizeNode_parents maxPaths n0) as (Hsub & Hne & Hlen & Hall).
  destruct (finished (out t) _ (fun u e He => proj2 (out_wf t c u e Hc He)) ex ns Hi) as [Hfin _].
  split; [intros Hv; apply Hne, (i_nonroot _ _ _ _ _ _ Hi v n0 Hn0 Hv)|]. split; [exact Hlen|]. split.
  - intros p Hp. apply Hsub in Hp. destruct (i_parents _ _ _ _ _ _ Hi v n0 p Hn0 Hp) as ((pn & Hpn & _ & Hd) & He & Hh).
    split; [|done]. exists (finalizeNode maxPaths pn). split; [|done]. apply finalize_lookup. eauto.
  - intros Hk u m e (m0 & Hm0 & ->)%finalize_lookup He Hto Hd. cbn [nodes] in Hm0.
    destruct (i_complete _ _ _ _ _ _ Hi u m0 e n0) as (p & Hp & Hpp); try done.
    + apply (Hfin u m0 Hm0).
    + rewrite Hto. done.
    + intros [_ Hin]. apply elem_of_nil in Hin. done.
    + exists p. split; [apply (Hall Hk); done|done].
Qed.
End Laws.

(** ** The engine over its runs *)

Section Runs.
  Context {T C : Type} `{SpfGraph T C}.
  Context (visit_routers visit_networks : T -> list Z).
  Context (visit_edges : gmap EdgeKey Z -> list (EdgeKey * Z)) (visit_nodes : gmap Vertex SptNode -> list (Vertex * SptNode)).
  Local Abbreviation run_ := (run visit_routers visit_networks visit_edges visit_nodes).

(** The states of an engine whose topology, router and configuration may
    change between runs. *)
Inductive engine_reach : SpfEngine -> Prop :=
  | reach_new : engine_reach SpfEngine_new
  | reach_run e e' fuel ispf t rid k c r : engine_reach e -> run_ fuel ispf t rid k c e = Some (r, e') -> engine_reach e'.

Lemma engine_reach_edges e : engine_reach e -> lastEdges e = ∅.
Proof.
  induction 1 as [|e e' fuel ispf t rid k c r _ IH Hr]; [done|]. unfold run in Hr.
  rewrite IH, bool_decide_eq_true_2, orb_true_r in Hr by done.
  destruct (last e); apply bind_Some in Hr as (r' & _ & [= _ <-]); done.
Qed.

(** The index of edges is filled only by the comparison of topologies, which
    runs only when the index is not empty: whatever the configuration says,
    every run is a full computation and the incremental code is never
    reached. *)
Theorem ispf_never_runs (e : SpfEngine) (fuel : nat) (ispf : bool) (t : T) (rid : Z) (k : nat) (c : C) :
  engine_reach e ->
  run_ fuel ispf t rid k c e = (r ← runFull fuel t rid k c; Some (r, mkEngine (Some r) ∅)).
Proof.
  intros Hr. pose proof (engine_reach_edges e Hr) as He. unfold run. rewrite He, bool_decide_eq_true_2, orb_true_r by done.
  destruct (last e); done.
Qed.
End Runs.

(** ** Examples *)

Lemma ex_records_ok : records_ok ex_records.
Proof. split; [by_compute|]. repeat constructor; try (cbn; lia). Qed.

Lemma ex_cache_ok : cache_ok (SpfTopology_v2 ex_records) (∅ : Cache).
Proof.
  split; [apply topology_v2_of_records, ex_records_ok|]. intros k Hk. apply not_elem_of_empty in Hk. done.
Qed.

Lemma runFull_shortest_paths_witness :
  let t := SpfTopology_v2 ex_records in
  exists r, runFull 10 t 1 4 (∅ : Cache) = Some r /\
    (forall v n, nodes r !! v = Some n ->
       confirmed n = true /\ distance (out t) (mkVertex ROUTER 1) v (dist n) /\ dist n < INF) /\
    (forall v d, walk (out t) (mkVertex ROUTER 1) v d -> d < INF -> is_Some (nodes r !! v)) /\
    NoDup (confirmedOrder r) /\ (forall v, v ∈ confirmedOrder r <-> is_Some (nodes r !! v)) /\
    StronglySorted (fun u w => forall n m, nodes r !! u = Some n -> nodes r !! w = Some m -> dist n <= dist m) (confirmedOrder r).
Proof.
  apply (runFull_shortest_paths 10 (SpfTopology_v2 ex_records) 1 4 (∅ : Cache)).
  - exact ex_cache_ok.
  - apply Nat.leb_le. vm_compute. reflexivity.
Defined.

Definition ex_result : SpfResult :=
  mkResult (mkVertex ROUTER 1)
    (<[mkVertex ROUTER 2 := mkNode 10 true [mkParent (mkVertex ROUTER 1) 7 7 10]]> {[mkVertex ROUTER 1 := mkNode 0 true []]})
    [mkVertex ROUTER 1; mkVertex ROUTER 2].

Lemma runFull_parents_witness :
  let t := SpfTopology_v2 ex_records in let n := mkNode 10 true [mkParent (mkVertex ROUTER 1) 7 7 10] in
  (mkVertex ROUTER 2 <> root ex_result -> parents n <> []) /\ ((0 < 4)%nat -> (length (parents n) <= 4)%nat) /\
  (forall p, p ∈ parents n ->
     (exists m, nodes ex_result !! parent p = Some m /\ dist n = dist m + edgeCost p) /\
     (exists e, e ∈ out t (parent p) /\ to e = mkVertex ROUTER 2 /\ ifid e = lastHopIfid p /\ cost e = edgeCost p) /\
     hop (out t) (root ex_result) (mkVertex ROUTER 2) (dist n) (firstHopIfid p)) /\
  (4%nat = 0%nat -> forall u m e, nodes ex_result !! u = Some m -> e ∈ out t u -> to e = mkVertex ROUTER 2 ->
     dist m + cost e = dist n -> exists p, p ∈ parents n /\ parent p = u /\ lastHopIfid p = ifid e /\ edgeCost p = cost e).
Proof.
  apply (runFull_parents 10 (SpfTopology_v2 ex_records) 1 4 (∅ : Cache) ex_result (mkVertex ROUTER 2)).
  - exact ex_cache_ok.
  - apply Nat.leb_le. vm_compute. reflexivity.
  - vm_compute. reflexivity.
  - vm_compute. reflexivity.
Defined.

Lemma ispf_never_runs_witness :
  let t := SpfTopology_v2 ex_records in
  run (fun _ => [1; 2]) (fun _ => []) map_to_list map_to_list 10 true t 1 4 (∅ : Cache) (mkEngine (Some ex_result) ∅)
  = (r ← runFull 10 t 1 4 (∅ : Cache); Some (r, mkEngine (Some r) ∅)).
Proof.
  apply (ispf_never_runs (fun _ => [1; 2]) (fun _ => []) map_to_list map_to_list (mkEngine (Some ex_result) ∅)).
  apply (reach_run _ _ _ _ SpfEngine_new _ 10 true (SpfTopology_v2 ex_records) 1 4 (∅ : Cache) ex_result).
  - constructor.
  - vm_compute. reflexivity.
Defined.

(** Two transit networks of equal cost lead from router 1 to router 2, behind
    which is router 3. *)
Definition ecmp_records : list (LsaKey * LsaRecord (Body := LsaBody Empty_set)) :=
  let r b := mkRecord 0 0 (mkLsaHeader 1 1 36 1 2) (Some b) 1 1 0 in
  [(mkLsaKey 1 1 1, r (RouterV2 (mkRouterV2 0 [mkLinkV2 100 101 2 10; mkLinkV2 200 102 2 10])));
   (mkLsaKey 1 2 2, r (RouterV2 (mkRouterV2 0 [mkLinkV2 100 201 2 10; mkLinkV2 200 202 2 10; mkLinkV2 3 203 1 1])));
   (mkLsaKey 1 3 3, r (RouterV2 (mkRouterV2 0 [mkLinkV2 2 301 1 1])));
   (mkLsaKey 2 100 1, r (NetworkV2 (mkNetworkLsa 0xFFFFFF00 [1; 2])));
   (mkLsaKey 2 200 1, r (NetworkV2 (mkNetworkLsa 0xFFFFFF00 [1; 2])))].

(** Among vertices of equal distance a router is taken before a network, so
    that router 2 is expanded before the second network has added itself to
    its parents: router 2 has both first hops, router 3 behind it only one,
    though the other also starts a shortest walk to it. *)
Theorem ecmp_first_hop_lost :
  let t := SpfTopology_v2 ecmp_records in
  exists r n2 n3, runFull 20 t 1 0 (∅ : Cache) = Some r /\
    nodes r !! mkVertex ROUTER 2 = Some n2 /\ firstHopIfid <$> parents n2 = [101; 102] /\
    nodes r !! mkVertex ROUTER 3 = Some n3 /\ dist n3 = 11 /\ firstHopIfid <$> parents n3 = [101] /\
    hop (out t) (mkVertex ROUTER 1) (mkVertex ROUTER 3) 11 102.
Proof.
  intros t. eexists _, _, _. split; [vm_compute; reflexivity|]. split; [vm_compute; reflexivity|]. split; [reflexivity|].
  split; [vm_compute; reflexivity|]. split; [reflexivity|]. split; [reflexivity|].
  set (nb := mkVertex NETWORK (packNetwork 1 200)).
  assert (H1 : mkEdge nb 10 102 ∈ out t (mkVertex ROUTER 1)) by (vm_compute; right; left).
  assert (H2 : mkEdge (mkVertex ROUTER 2) 0 0 ∈ out t nb) by (vm_compute; right; left).
  assert (H3 : mkEdge (mkVertex ROUTER 3) 1 203 ∈ out t (mkVertex ROUTER 2)) by (vm_compute; right; right; left).
  apply (hop_next (out t) (mkVertex ROUTER 1) (mkVertex ROUTER 2) 10 102 _) in H3; [exact H3|].
  apply (hop_next (out t) (mkVertex ROUTER 1) nb 10 102 _) in H2; [exact H2|]. exact (hop_first (out t) (mkVertex ROUTER 1) _ H1).
Qed.

(** Over a link of metric zero the root becomes a child of its neighbor. *)
Example zero_metric_cycle :
  let r b := mkRecord 0 0 (mkLsaHeader 1 1 36 1 2) (Some (RouterV2 (Other := Empty_set) (mkRouterV2 0 [mkLinkV2 b 7 1 0]))) 1 1 0 in
  let t := SpfTopology_v2 [(mkLsaKey 1 1 1, r 2); (mkLsaKey 1 2 2, r 1)] in
  (r ← runFull 10 t 1 0 (∅ : Cache); parents <$> nodes r !! mkVertex ROUTER 1)
  = Some [mkParent (mkVertex ROUTER 2) 7 7 0].
Proof. vm_compute. reflexivity. Qed.
