(* ===== verification/SpfManager.v ===== *)
(** * SpfManager: when the shortest-path computation runs

    [SpfManager] (routing/ospf/spf/SpfManager.cpp): the request of a
    computation, its delay and the timer that starts it, as a transition
    system. A request can arrive while a computation runs, so the timer's
    handler is split where [runSpf] is called; the steps themselves do not
    interleave. Times are in milliseconds; the clock's epoch is [None]. What
    [runSpf] computes is in [SpfEngine]. *)

From S2P Require Import Prelude.

(** The three throttle settings: SPF_THROTTLE_DELAY, SPF_THROTTLE_HOLD and
    SPF_THROTTLE_MAX. *)
Record Throttle := mkThrottle { initDelayMs : Z; holdTimeMs : Z; maxHoldTimeMs : Z }.

(** [routing/ospf/spf/SpfManager.h:157-165] SpfManager, its state: [posted] are the delays of the timers
    that have been armed and have not fired; [wanted] is a request no computation has begun for *)
Record SpfManager := mkManager {
  requested : bool;
  spfScheduled : bool;
  spfRunning : bool;
  reschedule : bool;
  lastSpfTime : option Z;
  currentDelayMs : Z;
  posted : list Z;
  wanted : bool
}.

(** [routing/ospf/spf/SpfManager.h:157-164] SpfManager, the initial values *)
Definition SpfManager_new : SpfManager := mkManager false false false false None 0 [] false.

(** [routing/ospf/spf/SpfManager.cpp:105-135] SpfManager::computeNextDelay: the delay and the new
    back-off; doubling wraps at 32 bits *)
Definition computeNextDelay (cfg : Throttle) (now : Z) (m : SpfManager) : Z * Z :=
  let backoff := if currentDelayMs m =? 0 then initDelayMs cfg else Z.min (u32 (currentDelayMs m * 2)) (maxHoldTimeMs cfg) in
  let holdRemaining :=
    match lastSpfTime m with
    | None => 0
    | Some last => let elapsed := now - last in if elapsed <? holdTimeMs cfg then u32 (holdTimeMs cfg - elapsed) else 0
    end in
  (Z.max backoff holdRemaining, backoff).

(** [routing/ospf/spf/SpfManager.cpp:63-73] SpfManager::scheduleSpf *)
Definition scheduleSpf (delayMs : Z) (m : SpfManager) : SpfManager :=
  if spfScheduled m then m
  else mkManager (requested m) true (spfRunning m) (reschedule m) (lastSpfTime m) (currentDelayMs m)
         (posted m ++ [delayMs]) (wanted m).

(** [routing/ospf/spf/SpfManager.cpp:31-32] SpfManager::requestSpf, the delay and the schedule *)
Definition scheduleNext (cfg : Throttle) (now : Z) (m : SpfManager) : SpfManager :=
  let '(next, backoff) := computeNextDelay cfg now m in
  scheduleSpf next (mkManager (requested m) (spfScheduled m) (spfRunning m) (reschedule m) (lastSpfTime m) backoff
    (posted m) (wanted m)).

(** [routing/ospf/spf/SpfManager.cpp:17-33] SpfManager::requestSpf *)
Definition requestSpf (cfg : Throttle) (now : Z) (m : SpfManager) : SpfManager :=
  let m := mkManager true (spfScheduled m) (spfRunning m) (reschedule m) (lastSpfTime m) (currentDelayMs m) (posted m) true in
  if spfRunning m then
    mkManager (requested m) (spfScheduled m) (spfRunning m) true (lastSpfTime m) (currentDelayMs m) (posted m) (wanted m)
  else if spfScheduled m then m
  else scheduleNext cfg now m.

(** [routing/ospf/spf/SpfManager.cpp:36-44] SpfManager::onSpfTimer, up to the computation: whether it
    begins *)
Definition timerStart (m : SpfManager) : bool * SpfManager :=
  let fired := tail (posted m) in
  if spfRunning m
  then (false, mkManager (requested m) false true (reschedule m) (lastSpfTime m) (currentDelayMs m) fired (wanted m))
  else (true, mkManager false false true (reschedule m) (lastSpfTime m) (currentDelayMs m) fired false).

(** [routing/ospf/spf/SpfManager.cpp:49-61] SpfManager::onSpfTimer, after the computation *)
Definition timerFinish (cfg : Throttle) (now : Z) (m : SpfManager) : SpfManager :=
  let again := reschedule m in
  let m := mkManager (requested m) (spfScheduled m) false false (Some now) (currentDelayMs m) (posted m) (wanted m) in
  if again then scheduleNext cfg now m
  else mkManager (requested m) (spfScheduled m) false false (Some now) 0 (posted m) (wanted m).

(** The steps of the manager under a configuration. *)
Inductive spf_step (cfg : Throttle) : SpfManager -> SpfManager -> Prop :=
  | step_request now m : spf_step cfg m (requestSpf cfg now m)
  | step_start m m' b : posted m <> [] -> timerStart m = (b, m') -> spf_step cfg m m'
  | step_finish now m : spfRunning m = true -> spf_step cfg m (timerFinish cfg now m).

Inductive spf_reach (cfg : Throttle) : SpfManager -> Prop :=
  | spf_reach_new : spf_reach cfg SpfManager_new
  | spf_reach_step m m' : spf_reach cfg m -> spf_step cfg m m' -> spf_reach cfg m'.

(** ** Bounds of the delay *)

Definition throttle_ok (cfg : Throttle) : Prop :=
  in_width 32 (initDelayMs cfg) /\ in_width 32 (holdTimeMs cfg) /\ in_width 32 (maxHoldTimeMs cfg).

(** The longest delay the settings allow. *)
Definition delay_limit (cfg : Throttle) : Z := Z.max (Z.max (initDelayMs cfg) (maxHoldTimeMs cfg)) (holdTimeMs cfg).

(** For settings of 32 bits and a clock that does not run backwards the
    back-off stays below the longer of the initial delay and the maximal hold
    time, and the delay posted is at least the back-off and never longer than
    the largest of the three settings. *)
Theorem computeNextDelay_bounds (cfg : Throttle) (now : Z) (m : SpfManager) :
  throttle_ok cfg -> (forall l, lastSpfTime m = Some l -> l <= now) ->
  let '(next, backoff) := computeNextDelay cfg now m in
  0 <= backoff <= Z.max (initDelayMs cfg) (maxHoldTimeMs cfg) /\ backoff <= next <= delay_limit cfg.
Proof.
  intros (Hi & Hh & Hm) Hl. unfold computeNextDelay, delay_limit. cbv zeta.
  set (b := if currentDelayMs m =? 0 then _ else _).
  assert (Hb : 0 <= b <= Z.max (initDelayMs cfg) (maxHoldTimeMs cfg)).
  { unfold b. destruct (currentDelayMs m =? 0); [destruct Hi; lia|].
    pose proof (wrap_in_width 32 (currentDelayMs m * 2) ltac:(lia)) as [Hw _]. destruct Hm. lia. }
  split; [done|]. destruct (lastSpfTime m) as [l|]; [|destruct Hh; lia]. specialize (Hl l eq_refl).
  destruct (Z.ltb_spec (now - l) (holdTimeMs cfg)); [|destruct Hh; lia].
  destruct Hh as [Hh0 Hh1]. rewrite wrap_small by (split; lia). lia.
Qed.

Lemma computeNextDelay_bounds_witness :
  let cfg := mkThrottle 50 200 5000 in let m := mkManager true false false false (Some 900) 4000 [] true in
  throttle_ok cfg /\ computeNextDelay cfg 1000 m = (5000, 5000) /\
  (let '(next, backoff) := computeNextDelay cfg 1000 m in
   0 <= backoff <= Z.max (initDelayMs cfg) (maxHoldTimeMs cfg) /\ backoff <= next <= delay_limit cfg).
Proof.
  intros cfg m. assert (Hc : throttle_ok cfg) by (unfold throttle_ok, in_width; cbn; lia). split; [done|]. split; [reflexivity|].
  apply (computeNextDelay_bounds cfg 1000 m Hc). cbn. intros l [= <-]. lia.
Defined.

(** ** No request is lost *)

(** One timer exactly while the flag is set, never during a computation; what
    is wanted is scheduled or noted for when the computation ends. *)
Record manager_ok (m : SpfManager) : Prop := {
  m_timer : length (posted m) = if spfScheduled m then 1%nat else 0%nat;
  m_excl : spfRunning m = true -> spfScheduled m = false;
  m_again : reschedule m = true -> spfRunning m = true;
  m_wanted : wanted m = true -> requested m = true /\ (spfScheduled m = true \/ (spfRunning m = true /\ reschedule m = true));
  m_requested : requested m = true -> wanted m = true
}.

Lemma scheduleNext_ok cfg now m :
  length (posted m) = (if spfScheduled m then 1%nat else 0%nat) -> spfRunning m = false -> reschedule m = false ->
  requested m = wanted m -> manager_ok (scheduleNext cfg now m).
Proof.
  intros Hp Hr Hs Hw. unfold scheduleNext. destruct (computeNextDelay cfg now m) as [next backoff]. unfold scheduleSpf.
  cbn [spfScheduled spfRunning reschedule posted wanted requested]. destruct (spfScheduled m) eqn:E.
  - constructor; cbn [spfScheduled spfRunning reschedule posted wanted requested]; try congruence; try (rewrite E; done).
    + rewrite Hw. auto.
  - constructor; cbn [spfScheduled spfRunning reschedule posted wanted requested]; try congruence.
    + rewrite length_app, Hp. done.
    + rewrite Hw. auto.
Qed.

Lemma manager_ok_step cfg m m' : manager_ok m -> spf_step cfg m m' -> manager_ok m'.
Proof.
  intros Hm Hstep. destruct Hm as [H1 H2 H3 H4 H5]. destruct Hstep as [now m|m m' b Hne Hs|now m Hr].
  - unfold requestSpf. cbn [spfScheduled spfRunning reschedule posted wanted requested].
    destruct (spfRunning m) eqn:Er; [|destruct (spfScheduled m) eqn:Es].
    + constructor; cbn [spfScheduled spfRunning reschedule posted wanted requested]; auto.
    + constructor; cbn [spfScheduled spfRunning reschedule posted wanted requested]; try rewrite Es; auto; congruence.
    + apply scheduleNext_ok; cbn [spfScheduled spfRunning reschedule posted wanted requested]; try rewrite Es; auto.
      destruct (reschedule m) eqn:E; [|done]. specialize (H3 eq_refl). congruence.
  - unfold timerStart in Hs. assert (Hp : spfScheduled m = true) by (destruct (spfScheduled m); [done|];
      destruct (posted m); [done|cbn in H1; lia]).
    assert (Hr : spfRunning m = false) by (destruct (spfRunning m); [specialize (H2 eq_refl); congruence|done]).
    rewrite Hr in Hs. injection Hs as _ <-.
    constructor; cbn [spfScheduled spfRunning reschedule posted wanted requested]; auto; try done.
    rewrite Hp in H1. destruct (posted m) as [|x [|]]; done.
  - unfold timerFinish. rewrite (H2 Hr) in *. destruct (reschedule m) eqn:Ea.
    + apply scheduleNext_ok; cbn [spfScheduled spfRunning reschedule posted wanted requested]; auto.
      destruct (requested m), (wanted m); auto; [specialize (H5 eq_refl); done | destruct (H4 eq_refl); done].
    + constructor; cbn [spfScheduled spfRunning reschedule posted wanted requested]; auto; try done.
      intros Hw. destruct (H4 Hw) as [_ [?|[_ ?]]]; congruence.
Qed.

Lemma manager_ok_reach cfg m : spf_reach cfg m -> manager_ok m.
Proof.
  induction 1 as [|m m' _ IH Hs]; [|eapply manager_ok_step; done].
  constructor; cbn; done.
Qed.

(** The flags, as the interleaving of requests and timers leaves them: a
    request no computation has begun for has a timer pending, or a
    computation is running that will schedule another when it ends; there is
    never more than one timer, and none while a computation runs. From any
    such state at most two steps of the scheduler begin the computation. *)
Theorem spf_request_not_lost (cfg : Throttle) (m : SpfManager) :
  spf_reach cfg m ->
  (length (posted m) <= 1)%nat /\ (spfRunning m = true -> posted m = []) /\
  (wanted m = true ->
   (exists m', posted m <> [] /\ timerStart m = (true, m') /\ wanted m' = false) \/
   (spfRunning m = true /\ forall now, exists m', posted (timerFinish cfg now m) <> [] /\
      timerStart (timerFinish cfg now m) = (true, m') /\ wanted m' = false)).
Proof.
  intros Hr%manager_ok_reach. pose proof Hr as [H1 H2 H3 H4 H5]. split; [|split].
  - rewrite H1. destruct (spfScheduled m); lia.
  - intros Hrun. rewrite (H2 Hrun) in H1. apply length_zero_iff_nil in H1. done.
  - intros Hw. destruct (H4 Hw) as [_ [Hs|[Hrun Ha]]].
    + left. rewrite Hs in H1. unfold timerStart. destruct (spfRunning m) eqn:E; [specialize (H2 eq_refl); congruence|].
      eexists. split; [intros Hp; rewrite Hp in H1; done|]. split; [reflexivity|done].
    + right. split; [done|]. intros now. unfold timerFinish. rewrite Ha. unfold scheduleNext.
      destruct (computeNextDelay _ _ _) as [next backoff]. unfold scheduleSpf. cbn [spfScheduled posted]. rewrite (H2 Hrun).
      eexists. cbn [posted]. split; [intros Hn%app_nil; destruct Hn; done|]. split; [reflexivity|done].
Qed.

Lemma spf_request_not_lost_witness :
  let cfg := mkThrottle 50 200 5000 in let m := requestSpf cfg 7 SpfManager_new in
  (length (posted m) <= 1)%nat /\ (spfRunning m = true -> posted m = []) /\
  (wanted m = true ->
   (exists m', posted m <> [] /\ timerStart m = (true, m') /\ wanted m' = false) \/
   (spfRunning m = true /\ forall now, exists m', posted (timerFinish cfg now m) <> [] /\
      timerStart (timerFinish cfg now m) = (true, m') /\ wanted m' = false)).
Proof.
  apply (spf_request_not_lost (mkThrottle 50 200 5000)).
  eapply spf_reach_step; [apply spf_reach_new | apply step_request].
Defined.

(** ** The back-off *)

(** Runs that no request interrupts. *)
Inductive calm_reach (cfg : Throttle) : SpfManager -> Prop :=
  | calm_new : calm_reach cfg SpfManager_new
  | calm_request now m : calm_reach cfg m -> (forall l, lastSpfTime m = Some l -> l <= now) ->
      calm_reach cfg (requestSpf cfg now m)
  | calm_run now m m' : calm_reach cfg m -> posted m <> [] -> (forall l, lastSpfTime m = Some l -> l <= now) ->
      timerStart m = (true, m') -> calm_reach cfg (timerFinish cfg now m').

(** The delay never doubles unless a request arrives while a computation runs:
    otherwise it is the initial delay, or what is left of the hold time. *)
Theorem backoff_never_doubles (cfg : Throttle) (m : SpfManager) :
  throttle_ok cfg -> calm_reach cfg m ->
  (currentDelayMs m = 0 \/ currentDelayMs m = initDelayMs cfg) /\
  Forall (fun d => initDelayMs cfg <= d <= Z.max (initDelayMs cfg) (holdTimeMs cfg)) (posted m).
Proof.
  intros Hcfg Hc. enough (Hall : spfRunning m = false /\ reschedule m = false /\ (spfScheduled m = false -> currentDelayMs m = 0) /\
    (currentDelayMs m = 0 \/ currentDelayMs m = initDelayMs cfg) /\
    Forall (fun d => initDelayMs cfg <= d <= Z.max (initDelayMs cfg) (holdTimeMs cfg)) (posted m)) by tauto.
  induction Hc as [|now m Hc IH Hl|now m m' Hc IH Hne Hl Hs]; [repeat split; auto; constructor| |];
    destruct IH as (Hr & Ha & Hz & Hd & Hp).
  - unfold requestSpf. cbn [spfScheduled spfRunning]. rewrite Hr. destruct (spfScheduled m) eqn:Es; cbn; [rewrite Ha; auto|].
    unfold scheduleNext, computeNextDelay. cbn [currentDelayMs lastSpfTime]. rewrite (Hz eq_refl). cbn [Z.eqb].
    unfold scheduleSpf. cbn [spfScheduled posted spfRunning reschedule currentDelayMs]. rewrite ?Es, ?Hr, ?Ha.
    cbn [spfScheduled posted spfRunning reschedule currentDelayMs].
    split; [done|]. split; [done|]. split; [done|]. split; [auto|]. apply Forall_app. split; [done|]. constructor; [|done].
    destruct Hcfg as ([Hi _] & [Hh0 Hh1] & _). destruct (lastSpfTime m) as [l|]; [|lia]. specialize (Hl l eq_refl).
    destruct (Z.ltb_spec (now - l) (holdTimeMs cfg)); [|lia]. rewrite wrap_small by (split; lia). lia.
  - unfold timerStart in Hs. rewrite Hr in Hs. injection Hs as <-. unfold timerFinish. cbn [reschedule]. rewrite Ha.
    cbn. split_all; auto. destruct (posted m); [done|]. apply Forall_cons in Hp as [_ Hp]. done.
Qed.

Lemma backoff_never_doubles_witness :
  let cfg := mkThrottle 50 200 5000 in let m := requestSpf cfg 7 SpfManager_new in
  (currentDelayMs m = 0 \/ currentDelayMs m = initDelayMs cfg) /\
  Forall (fun d => initDelayMs cfg <= d <= Z.max (initDelayMs cfg) (holdTimeMs cfg)) (posted m).
Proof.
  apply (backoff_never_doubles (mkThrottle 50 200 5000)).
  - unfold throttle_ok. by_compute.
  - apply calm_request; [apply calm_new | discriminate].
Defined.
