(* ===== verification/OspfRib.v ===== *)
(** * OspfRib: the routing table of an OSPF process
    (routing/ospf/topology/TopologyTypes.hpp, RoutingTable.cpp, RoutingTable.h)

    The candidate paths of each prefix, the selection among them, and what is
    posted to the global routing table (core/routing/RoutingTable.hpp), whose
    two RIBs run the posted closures in order. Iterating an unordered set is a
    parameter, [enum]; the process identifier a heap allocation of a
    [RibEntry] is left with, which the code never sets, is the parameter
    [junk] of the number of the allocation. *)

From S2P Require Import Prelude IPAddress RibBucket Rib.

(** ** Paths and routes *)

(** [routing/ospf/topology/TopologyTypes.hpp:19-25] OspfRouteType *)
Inductive OspfRouteType := INTRA_AREA | INTER_AREA | EXTERNAL | NSSA.

#[export] Instance OspfRouteType_eq_dec : EqDecision OspfRouteType.
Proof. solve_decision. Defined.

Definition type_value (t : OspfRouteType) : Z :=
  match t with INTRA_AREA => 0 | INTER_AREA => 1 | EXTERNAL => 2 | NSSA => 3 end.

(** [routing/ospf/topology/TopologyTypes.hpp:34-37] OspfNextHop *)
Record OspfNextHop := mkHop { interfaceId : Z; hopAddr : IPAddress }.

#[export] Instance OspfNextHop_eq_dec : EqDecision OspfNextHop.
Proof. solve_decision. Defined.

(** [routing/ospf/topology/TopologyTypes.hpp:90-99] OspfPath *)
Record OspfPath := mkPath {
  pathType : OspfRouteType;
  pathArea : option Z;
  pathCost : Z;
  pathDistance : Z;
  pathOptions : Z;
  pathDiscard : bool;
  pathSuppressed : bool;
  pathHops : list OspfNextHop
}.

#[export] Instance OspfPath_eq_dec : EqDecision OspfPath.
Proof. solve_decision. Defined.

(** [routing/ospf/topology/TopologyTypes.hpp:101-107] operator==(const OspfPath&, const OspfPath&) *)
Definition OspfPath_eq (a b : OspfPath) : bool :=
  (pathOptions a =? pathOptions b) && bool_decide (pathArea a = pathArea b) &&
  bool_decide (pathType a = pathType b) && (pathCost a =? pathCost b) &&
  (pathDistance a =? pathDistance b) && bool_decide (pathHops a = pathHops b).

(** [routing/ospf/topology/TopologyTypes.hpp:119-128] OspfRoute *)
Record OspfRoute := mkRoute {
  routePrefix : IPPrefix;
  routeOptions : Z;
  routeCost : Z;
  routeDistance : Z;
  routeType : OspfRouteType;
  routeArea : option Z;
  routeSuppressed : bool;
  routePaths : list OspfPath
}.

Definition OspfRoute_new : OspfRoute := mkRoute (mkIPPrefix 0 0) 0 0 0 INTRA_AREA None false [].

(** [routing/ospf/topology/TopologyTypes.hpp:140-148] OspfRoute::operator==(const OspfRoute&) *)
Definition OspfRoute_eq (a b : OspfRoute) : bool :=
  bool_decide (routeType a = routeType b) && (routeCost a =? routeCost b) && (routeOptions a =? routeOptions b) &&
  (routeDistance a =? routeDistance b) && bool_decide (routeArea a = routeArea b) &&
  Bool.eqb (routeSuppressed a) (routeSuppressed b).

(** [routing/ospf/topology/TopologyTypes.hpp:159-165] OspfRouteChange *)
Record OspfRouteChange := mkChange { chPrefix : IPPrefix; chOptions : Z; chCost : Z; isRemoval : bool }.

(** [routing/ospf/topology/RoutingTable.cpp:14-28] deriveOspfType *)
Definition deriveOspfType (t : OspfRouteType) : RouteSource :=
  match t with
  | INTRA_AREA => OSPF_INTRA
  | INTER_AREA => OSPF_INTER
  | EXTERNAL => OSPF_EXTERNAL
  | NSSA => OSPF_NSSA
  end.

(** The loop over the prefixes of a set, in the order it is iterated, until
    one contains the address. *)
Fixpoint any_contains (ranges : list IPPrefix) (a : IPAddress) : outcome bool :=
  match ranges with
  | [] => Ret false
  | r :: ranges => b ← IPPrefix_contains_IPAddress r a; if b : bool then Ret true else any_contains ranges a
  end.

(** [routing/ospf/topology/RoutingTable.cpp:30-37] isIntraRangeSuppressed *)
Definition isIntraRangeSuppressed (prefix : IPPrefix) (ranges : list IPPrefix) : outcome bool :=
  prefixAddr ← IPAddress_u128_plen (p_addr prefix) (p_len prefix);
  any_contains ranges prefixAddr.

(** [routing/ospf/topology/RoutingTable.cpp:39-45] isBetterPath *)
Definition isBetterPath (a b : OspfPath) : bool :=
  if negb (bool_decide (pathType a = pathType b)) then type_value (pathType a) <? type_value (pathType b)
  else if negb (pathCost a =? pathCost b) then pathCost a <? pathCost b
  else if negb (pathOptions a =? pathOptions b) then pathOptions a <? pathOptions b
  else pathDistance a <? pathDistance b.

(** ** Next hops *)

(** [routing/ospf/topology/RoutingTable.cpp:47-63] addTrafficShare *)
Definition addTrafficShare (nhs : list OspfNextHop) (maxPaths : nat) (traffMin : bool) : list OspfNextHop :=
  if (length nhs <=? 1)%nat then nhs
  else
    let nhs := if traffMin then uniq (fun a b => interfaceId a =? interfaceId b) nhs else nhs in
    if (maxPaths <? length nhs)%nat then take maxPaths nhs else nhs.

(** [routing/ospf/topology/RoutingTable.cpp:67-72] dedupeNextHops, the order *)
Definition hop_lt (x y : OspfNextHop) : bool :=
  if negb (interfaceId x =? interfaceId y) then interfaceId x <? interfaceId y
  else IPAddress_lt (hopAddr x) (hopAddr y).

(** [routing/ospf/topology/RoutingTable.cpp:65-75] dedupeNextHops *)
Definition dedupeNextHops (nhs : list OspfNextHop) : list OspfNextHop :=
  uniq (fun a b => bool_decide (a = b)) (isort hop_lt nhs).

(** [routing/ospf/topology/RoutingTable.cpp:77-85] mergeEcmpNextHops *)
Definition mergeEcmpNextHops (bestSet : list OspfPath) : list OspfNextHop :=
  dedupeNextHops (concat (pathHops <$> bestSet)).

(** ** The table *)

(** [routing/ospf/topology/RoutingTable.h:187-192] OspfRib::PrefixState *)
Record PrefixState := mkPrefixState {
  canidates : list OspfPath;
  selected : OspfRoute;
  hasSelected : bool
}.

Definition PrefixState_new : PrefixState := mkPrefixState [] OspfRoute_new false.
Definition set_canidates (st : PrefixState) (l : list OspfPath) : PrefixState :=
  mkPrefixState l (selected st) (hasSelected st).

(** [routing/ospf/topology/RoutingTable.h:202-211] OspfRib::OspfDiscardKey *)
Definition OspfDiscardKey : Type := IPPrefix * option Z.

#[export] Instance IPPrefix_countable : Countable IPPrefix.
Proof. apply (inj_countable' (fun p => (p_addr p, p_len p)) (fun q => mkIPPrefix q.1 q.2)). intros []; done. Defined.

(** What is posted to the queues of the global routing table. *)
Inductive RibAction :=
  | PostAdd (af : AddressFamily) (e : RibEntry)
  | PostRemove (af : AddressFamily) (pfx len : Z) (src : RouteSource) (pid : Z).

(** [routing/ospf/topology/RoutingTable.h:197-227] OspfRib: with what it has posted and the number of
    entries it has allocated. *)
Record OspfRib := mkOspfRib {
  prefixStates : gmap IPPrefix PrefixState;
  areaIndex : gmap Z (gset IPPrefix);
  processWide : gset IPPrefix;
  discardRoutes : gmap OspfDiscardKey IPPrefix;
  posted : list RibAction;
  allocs : nat
}.

(** [routing/ospf/topology/RoutingTable.cpp:87-88] OspfRib::OspfRib *)
Definition OspfRib_new : OspfRib := mkOspfRib ∅ ∅ ∅ ∅ [] 0.

Definition set_states (r : OspfRib) (m : gmap IPPrefix PrefixState) : OspfRib :=
  mkOspfRib m (areaIndex r) (processWide r) (discardRoutes r) (posted r) (allocs r).
Definition set_index (r : OspfRib) (m : gmap Z (gset IPPrefix)) : OspfRib :=
  mkOspfRib (prefixStates r) m (processWide r) (discardRoutes r) (posted r) (allocs r).
Definition set_wide (r : OspfRib) (s : gset IPPrefix) : OspfRib :=
  mkOspfRib (prefixStates r) (areaIndex r) s (discardRoutes r) (posted r) (allocs r).
Definition set_discards (r : OspfRib) (m : gmap OspfDiscardKey IPPrefix) : OspfRib :=
  mkOspfRib (prefixStates r) (areaIndex r) (processWide r) m (posted r) (allocs r).
Definition post (r : OspfRib) (l : list RibAction) : OspfRib :=
  mkOspfRib (prefixStates r) (areaIndex r) (processWide r) (discardRoutes r) (posted r ++ l) (allocs r).

(** [prefixStates[pfx].canidates.push_back(path)] *)
Definition push_path (m : gmap IPPrefix PrefixState) (pfx : IPPrefix) (p : OspfPath) : gmap IPPrefix PrefixState :=
  let st := default PrefixState_new (m !! pfx) in <[pfx := set_canidates st (canidates st ++ [p])]> m.

(** [cand.erase(remove_if(..., gone))] for the candidates of a prefix, if it
    has a state. *)
Definition drop_paths (gone : OspfPath -> bool) (m : gmap IPPrefix PrefixState) (pfx : IPPrefix)
    : gmap IPPrefix PrefixState :=
  alter (fun st => set_canidates st (List.filter (fun p => negb (gone p)) (canidates st))) pfx m.

(** [routing/ospf/topology/RoutingTable.cpp:90-97] OspfRib::lookup *)
Definition lookup_route (r : OspfRib) (prefix : IPPrefix) : option OspfRoute :=
  match prefixStates r !! prefix with
  | Some st => if hasSelected st then Some (selected st) else None
  | None => None
  end.

(** [routing/ospf/topology/RoutingTable.cpp:489-492] OspfRib::recomputeLocked, the best candidate *)
Definition bestPath (cands : list OspfPath) : option OspfPath :=
  fold_left (fun best p => match best with
                           | None => Some p
                           | Some b => if isBetterPath p b then Some p else best
                           end) cands None.

(** [routing/ospf/topology/RouteManager.cpp:468-471] deriveExternalRoute: the path of an external LSA
    whose anchor is reached at the distance [X]. *)
Definition externalPath (X metric : Z) (isType2 : bool) (options distance : Z) (hops : list OspfNextHop) : OspfPath :=
  mkPath EXTERNAL None (if isType2 then metric else wrap 64 (X + metric)) distance options false false hops.

(** [routing/ospf/topology/RoutingTable.cpp:497-511] OspfRib::recomputeLocked, the next route *)
Definition nextRoute (prefix : IPPrefix) (cands : list OspfPath) (best : OspfPath) : OspfRoute :=
  mkRoute prefix (pathOptions best) (pathCost best) (pathDistance best) (pathType best) (pathArea best)
    (pathSuppressed best) (List.filter (OspfPath_eq best) cands).

(** [routing/ospf/topology/RoutingTable.cpp:423-430] isIntraEffective *)
Definition isIntraEffective (ctx : option Z) (r : OspfRoute) : bool :=
  if negb (bool_decide (routeType r = INTRA_AREA)) then false
  else match ctx, routeArea r with
       | Some a, Some b => if b =? a then negb (routeSuppressed r) else true
       | _, _ => true
       end.

(** [routing/ospf/topology/RoutingTable.cpp:432-439] isInterEffective *)
Definition isInterEffective (ctx : option Z) (r : OspfRoute) : bool :=
  if negb (bool_decide (routeType r = INTER_AREA)) then false
  else match ctx, routeArea r with
       | Some a, Some b => if b =? a then negb (routeSuppressed r) else true
       | _, _ => true
       end.

(** The change of one kind of route: none without a context or when the
    effect is as it was. *)
Definition change_of (ctx : option Z) (prefix : IPPrefix) (old new : bool) (o n : OspfRoute) : option OspfRouteChange :=
  match ctx with
  | None => None
  | Some _ =>
      if Bool.eqb old new then None
      else if old && negb new then Some (mkChange prefix (routeOptions o) (routeCost o) true)
      else Some (mkChange prefix (routeOptions n) (routeCost n) false)
  end.

(** The change for a route that is gone. *)
Definition removal_of (ctx : option Z) (old : bool) (o : OspfRoute) : option OspfRouteChange :=
  match ctx with
  | Some _ => if old then Some (mkChange (routePrefix o) (routeOptions o) (routeCost o) true) else None
  | None => None
  end.

Section Recompute.
  Context (af : AddressFamily) (procId : Z) (maxPaths : nat) (traffMin : bool).
  Context (junk : nat -> Z).

(** The address of a prefix in the family of the process. *)
Definition af_addr (p : IPPrefix) : Z := if bool_decide (af = AF_IPv4) then IPPrefix_v4 p else IPPrefix_v6 p.
Definition hop_af_addr (h : OspfNextHop) : Z :=
  if bool_decide (af = AF_IPv4) then IPAddress_v4 (hopAddr h) else IPAddress_v6 (hopAddr h).

(** [routing/ospf/topology/RoutingTable.cpp:583-588] OspfRib::recomputeLocked, the next hops to install *)
Definition installHops (next : OspfRoute) : list OspfNextHop :=
  addTrafficShare (mergeEcmpNextHops (routePaths next)) maxPaths traffMin.

(** [routing/ospf/topology/RoutingTable.cpp:590-617] OspfRib::recomputeLocked, the entry of the global table *)
Definition ribEntry (prefix : IPPrefix) (next : OspfRoute) (pid : Z) : RibEntry :=
  fold_left (fun e h => (addNextHop e (hop_af_addr h) (interfaceId h) 1).1) (installHops next)
    (mkRibEntry (af_addr prefix) (p_len prefix) (deriveOspfType (routeType next)) pid (routeDistance next)
       (routeCost next) 0 0 []).

Definition removeAction (prefix : IPPrefix) (old : OspfRoute) : RibAction :=
  PostRemove af (af_addr prefix) (p_len prefix) (deriveOspfType (routeType old)) procId.

(** What [recomputeLocked] leaves in its context: the intra-area and the
    inter-area change, if any. *)
Definition Changes : Type := option OspfRouteChange * option OspfRouteChange.

(** [routing/ospf/topology/RoutingTable.cpp:415-625] OspfRib::recomputeLocked(prefix): the result, which no
    caller reads, is left out. *)
Definition recomputePrefix (prefix : IPPrefix) (ctx : option Z) (r : OspfRib) : OspfRib * Changes :=
  match prefixStates r !! prefix with
  | None => (r, (None, None))
  | Some st =>
      let hadOld := hasSelected st in
      let old := if hadOld then selected st else OspfRoute_new in
      let oldIntra := if hadOld then isIntraEffective ctx old else false in
      let oldInter := if hadOld then isInterEffective ctx old else false in
      match bestPath (canidates st) with
      | None =>
          let r := set_states r (delete prefix (prefixStates r)) in
          if hadOld
          then (post r [removeAction prefix old], (removal_of ctx oldIntra old, removal_of ctx oldInter old))
          else (r, (None, None))
      | Some best =>
          let next := nextRoute prefix (canidates st) best in
          let newIntra := isIntraEffective ctx next in
          let newInter := isInterEffective ctx next in
          let routeChanged := if hadOld then negb (OspfRoute_eq old next) else true in
          let ecmpChanged :=
            if hadOld
            then negb ((length (routePaths old) =? length (routePaths next))%nat &&
                       forallb (fun pq => OspfPath_eq pq.1 pq.2) (zip (routePaths old) (routePaths next)))
            else true in
          let changes := (change_of ctx prefix oldIntra newIntra old next, change_of ctx prefix oldInter newInter old next) in
          let r' :=
            if negb hadOld || routeChanged || ecmpChanged then
              let r1 := if hadOld then post r [removeAction prefix old] else r in
              let r2 := post r1 [PostAdd af (ribEntry prefix next (junk (allocs r)))] in
              mkOspfRib (prefixStates r2) (areaIndex r2) (processWide r2) (discardRoutes r2) (posted r2) (S (allocs r2))
            else r in
          (set_states r' (<[prefix := mkPrefixState (canidates st) next true]> (prefixStates r')), changes)
      end
  end.

(** [routing/ospf/topology/RoutingTable.cpp:656-665] OspfRib::recomputeLocked(touched) *)
Fixpoint recomputeAll (touched : list IPPrefix) (r : OspfRib) : OspfRib :=
  match touched with
  | [] => r
  | p :: touched => recomputeAll touched (recomputePrefix p None r).1
  end.

Context (useLocal : bool) (globalRib : list RibAction -> IPPrefix -> bool).

(** [routing/ospf/topology/RoutingTable.cpp:676-686] OspfRib::validateInterAreaSummaryEligibility: the
    global table answers by what its queue has processed of what was posted. *)
Definition validateInterAreaSummaryEligibility (r : OspfRib) (prefix : IPPrefix) : bool :=
  if useLocal then match lookup_route r prefix with Some _ => true | None => false end
  else globalRib (posted r) prefix.

(** [routing/ospf/topology/RoutingTable.cpp:640-651] OspfRib::recomputeLocked(touched, areaId, ranges), a turn *)
Definition recomputeTurn (areaId : Z) (p : IPPrefix) (r : OspfRib) : OspfRib * list OspfRouteChange :=
  let '(r, (intra, inter)) := recomputePrefix p (Some areaId) r in
  (r, match intra with
      | Some c => if validateInterAreaSummaryEligibility r p then [c] else []
      | None => []
      end ++ option_list inter).

(** [routing/ospf/topology/RoutingTable.cpp:627-654] OspfRib::recomputeLocked(touched, areaId, ranges) *)
Fixpoint recomputeTouched (areaId : Z) (touched : list IPPrefix) (r : OspfRib) : OspfRib * list OspfRouteChange :=
  match touched with
  | [] => (r, [])
  | p :: touched =>
      let '(r, cs) := recomputeTurn areaId p r in
      let '(r, cs') := recomputeTouched areaId touched r in (r, cs ++ cs')
  end.

Context (enum : gset IPPrefix -> list IPPrefix).

(** [routing/ospf/topology/RoutingTable.cpp:143-148] OspfRib::replaceArea, a candidate of the area *)
Definition ofArea (areaId : Z) (p : OspfPath) : bool :=
  match pathArea p with Some a => (a =? areaId) && negb (pathDiscard p) | None => false end.

(** [routing/ospf/topology/RoutingTable.cpp:251-254] OspfRib::replaceExternals, a candidate of no area *)
Definition ofProcess (p : OspfPath) : bool :=
  match pathArea p with Some _ => false | None => negb (pathDiscard p) end.

Definition set_suppressed (p : OspfPath) (b : bool) : OspfPath :=
  mkPath (pathType p) (pathArea p) (pathCost p) (pathDistance p) (pathOptions p) (pathDiscard p) b (pathHops p).

(** [routing/ospf/topology/RoutingTable.cpp:160-168] OspfRib::replaceArea, the suppression of a new path *)
Definition stampPath (areaId : Z) (ranges : list IPPrefix) (pfx : IPPrefix) (p : OspfPath) : outcome OspfPath :=
  if bool_decide (pathType p = INTRA_AREA) && bool_decide (pathArea p = Some areaId)
  then b ← isIntraRangeSuppressed pfx ranges; Ret (set_suppressed p b)
  else Ret p.

(** [routing/ospf/topology/RoutingTable.cpp:158-173] OspfRib::replaceArea, adding the new candidates *)
Fixpoint addPaths (areaId : Z) (ranges : list IPPrefix) (paths : list (IPPrefix * OspfPath)) (r : OspfRib)
    (touched : gset IPPrefix) : outcome (OspfRib * gset IPPrefix) :=
  match paths with
  | [] => Ret (r, touched)
  | (pfx, inPath) :: paths =>
      path ← stampPath areaId ranges pfx inPath;
      let r := set_states r (push_path (prefixStates r) pfx path) in
      let r := set_index r (<[areaId := {[pfx]} ∪ default ∅ (areaIndex r !! areaId)]> (areaIndex r)) in
      addPaths areaId ranges paths r ({[pfx]} ∪ touched)
  end.

(** The removal loops over the prefixes of an index: the states without the
    candidates that are gone, and the prefixes that had one. *)
Definition dropAll (gone : OspfPath -> bool) (old : list IPPrefix) (m : gmap IPPrefix PrefixState)
    : gmap IPPrefix PrefixState * gset IPPrefix :=
  fold_left (fun '(m, touched) pfx =>
    match m !! pfx with
    | None => (m, touched)
    | Some _ => (drop_paths gone m pfx, {[pfx]} ∪ touched)
    end) old (m, ∅).

(** [routing/ospf/topology/RoutingTable.cpp:113-180] OspfRib::replaceArea *)
Definition replaceArea (areaId : Z) (ranges : gset IPPrefix) (paths : list (IPPrefix * OspfPath)) (r : OspfRib)
    : outcome (OspfRib * list OspfRouteChange) :=
  let oldPrefixes := enum (default ∅ (areaIndex r !! areaId)) in
  let '(m, touched) := dropAll (ofArea areaId) oldPrefixes (prefixStates r) in
  let r := set_index (set_states r m) (<[areaId := ∅]> (areaIndex r)) in
  '(r, touched) ← addPaths areaId (enum ranges) paths r touched;
  let r := if decide (default ∅ (areaIndex r !! areaId) = ∅) then set_index r (delete areaId (areaIndex r)) else r in
  Ret (recomputeTouched areaId (enum touched) r).

(** [routing/ospf/topology/RoutingTable.cpp:182-234] OspfRib::replaceRoute: the copy of the path whose
    suppression is computed is not the one that is stored. *)
Definition replaceRoute (areaId : Z) (ranges : gset IPPrefix) (prefix : IPPrefix) (path : option OspfPath) (r : OspfRib)
    : outcome (OspfRib * list OspfRouteChange) :=
  let r :=
    match prefixStates r !! prefix with
    | None => r
    | Some _ =>
        let r := set_states r (drop_paths ofProcess (prefixStates r) prefix) in
        set_index r (alter (fun s => s ∖ {[prefix]}) areaId (areaIndex r))
    end in
  r ← match path with
      | Some p =>
          _ ← (if bool_decide (pathType p = INTER_AREA) && bool_decide (pathArea p = Some areaId)
               then isIntraRangeSuppressed prefix (enum ranges) else Ret false);
          let r := set_states r (push_path (prefixStates r) prefix p) in
          Ret (set_index r (<[areaId := {[prefix]} ∪ default ∅ (areaIndex r !! areaId)]> (areaIndex r)))
      | None =>
          Ret (if bool_decide (areaIndex r !! areaId = Some ∅) then set_index r (delete areaId (areaIndex r)) else r)
      end;
  let '(r, (intra, inter)) := recomputePrefix prefix (Some areaId) r in
  Ret (r, option_list intra ++ option_list inter).

(** [routing/ospf/topology/RoutingTable.cpp:236-267] OspfRib::replaceExternals *)
Definition replaceExternals (paths : list (IPPrefix * OspfPath)) (r : OspfRib) : OspfRib :=
  let '(m, touched) := dropAll ofProcess (enum (processWide r)) (prefixStates r) in
  let r := set_states r m in
  let r := set_states r (fold_left (fun m x => push_path m x.1 x.2) paths (prefixStates r)) in
  let new := list_to_set (fst <$> paths) in
  recomputeAll (enum (new ∪ touched)) (set_wide r (new ∪ processWide r)).

(** [routing/ospf/topology/RoutingTable.cpp:269-293] OspfRib::replaceExternal *)
Definition replaceExternal (prefix : IPPrefix) (path : option OspfPath) (r : OspfRib) : OspfRib :=
  let r :=
    match prefixStates r !! prefix with
    | None => r
    | Some _ => set_wide (set_states r (drop_paths ofProcess (prefixStates r) prefix)) (processWide r ∖ {[prefix]})
    end in
  let r :=
    match path with
    | Some p => set_wide (set_states r (push_path (prefixStates r) prefix p)) ({[prefix]} ∪ processWide r)
    | None => r
    end in
  (recomputePrefix prefix None r).1.

(** [routing/ospf/topology/RoutingTable.cpp:323-325] OspfRib::installDiscardRoute, the discard path of a key *)
Definition isDiscard (key : OspfDiscardKey) (p : OspfPath) : bool :=
  let type := match key.2 with Some _ => INTER_AREA | None => EXTERNAL end in
  bool_decide (pathArea p = key.2) && bool_decide (pathType p = type) && pathDiscard p.

(** The first element that satisfies [f] gives way to [g] of it. *)
Fixpoint update_first {A} (f : A -> bool) (g : A -> A) (l : list A) : option (list A) :=
  match l with
  | [] => None
  | x :: l => if f x then Some (g x :: l) else option_map (cons x) (update_first f g l)
  end.

(** [routing/ospf/topology/RoutingTable.cpp:317-346] OspfRib::installDiscardRoute *)
Definition installDiscardRoute (key : OspfDiscardKey) (cost ad : Z) (r : OspfRib) : OspfRib :=
  let st := default PrefixState_new (prefixStates r !! key.1) in
  let r := set_discards r (match discardRoutes r !! key with Some _ => discardRoutes r | None => <[key := key.1]> (discardRoutes r) end) in
  let type := match key.2 with Some _ => INTER_AREA | None => EXTERNAL end in
  let cands :=
    match update_first (isDiscard key)
            (fun p => mkPath (pathType p) (pathArea p) cost ad (pathOptions p) (pathDiscard p) (pathSuppressed p) (pathHops p))
            (canidates st) with
    | Some l => l
    | None => canidates st ++ [mkPath type key.2 cost ad 0 true false []]
    end in
  (recomputePrefix key.1 None (set_states r (<[key.1 := set_canidates st cands]> (prefixStates r)))).1.

(** [routing/ospf/topology/RoutingTable.cpp:348-365] OspfRib::withdrawDiscardRoute *)
Definition withdrawDiscardRoute (key : OspfDiscardKey) (r : OspfRib) : OspfRib :=
  let r := set_states r (drop_paths (isDiscard key) (prefixStates r) key.1) in
  (recomputePrefix key.1 None (set_discards r (delete key (discardRoutes r)))).1.

(** [routing/ospf/topology/RoutingTable.cpp:389-403] OspfRib::refreshIntraRangeSuppression, an intra-area path
    of the area *)
Definition isIntraOf (areaId : Z) (p : OspfPath) : bool :=
  bool_decide (pathType p = INTRA_AREA) && bool_decide (pathArea p = Some areaId).

(** [routing/ospf/topology/RoutingTable.cpp:376-407] OspfRib::refreshIntraRangeSuppression, the loop over the
    prefixes of the area *)
Fixpoint refreshLoop (areaId : Z) (ranges : list IPPrefix) (pfxs : list IPPrefix) (m : gmap IPPrefix PrefixState)
    (touched : gset IPPrefix) : outcome (gmap IPPrefix PrefixState * gset IPPrefix) :=
  match pfxs with
  | [] => Ret (m, touched)
  | pfx :: pfxs =>
      match m !! pfx with
      | None => refreshLoop areaId ranges pfxs m touched
      | Some st =>
          newSupp ← isIntraRangeSuppressed pfx ranges;
          let changed := existsb (fun p => isIntraOf areaId p && negb (Bool.eqb (pathSuppressed p) newSupp)) (canidates st) in
          let cands := map (fun p => if isIntraOf areaId p then set_suppressed p newSupp else p) (canidates st) in
          refreshLoop areaId ranges pfxs (<[pfx := set_canidates st cands]> m) (if changed then {[pfx]} ∪ touched else touched)
      end
  end.

(** [routing/ospf/topology/RoutingTable.cpp:367-413] OspfRib::refreshIntraRangeSuppression *)
Definition refreshIntraRangeSuppression (areaId : Z) (ranges : gset IPPrefix) (r : OspfRib)
    : outcome (OspfRib * list OspfRouteChange) :=
  match areaIndex r !! areaId with
  | None => Ret (r, [])
  | Some idx =>
      '(m, touched) ← refreshLoop areaId (enum ranges) (enum idx) (prefixStates r) ∅;
      let r := set_states r m in
      if decide (touched = ∅) then Ret (r, []) else Ret (recomputeTouched areaId (enum touched) r)
  end.

(** [routing/ospf/topology/RoutingTable.cpp:301-308] OspfRib::getIntraAreaRoutes, what is passed over *)
Definition listsIntra (area : Z) (st : PrefixState) : bool :=
  hasSelected st && bool_decide (routeType (selected st) = INTRA_AREA) &&
  bool_decide (routeArea (selected st) = Some area) && negb (routeSuppressed (selected st)).

(** The loop over the states; [front()] of an empty vector is undefined. *)
Fixpoint intraLoop (area : Z) (l : list (IPPrefix * PrefixState)) : outcome (list (IPPrefix * OspfPath)) :=
  match l with
  | [] => Ret []
  | (prefix, st) :: l =>
      if listsIntra area st
      then match routePaths (selected st) with
           | p :: _ => rest ← intraLoop area l; Ret ((prefix, p) :: rest)
           | [] => UB
           end
      else intraLoop area l
  end.

(** [routing/ospf/topology/RoutingTable.cpp:295-315] OspfRib::getIntraAreaRoutes *)
Definition getIntraAreaRoutes (area : Z) (r : OspfRib) : outcome (list (IPPrefix * OspfPath)) :=
  intraLoop area (map_to_list (prefixStates r)).

(** [routing/ospf/topology/RoutingTable.cpp:99-111] OspfRib::lpmLookup *)
Definition lpmLookup (addr : IPAddress) (area : Z) (r : OspfRib) : outcome bool :=
  match areaIndex r !! area with
  | None => Ret false
  | Some idx => any_contains (enum idx) addr
  end.

(** One operation, with every argument a caller may give whose prefixes
    satisfy [ok]. *)
Inductive ospf_step (ok : IPPrefix -> Prop) : OspfRib -> OspfRib -> Prop :=
  | step_replaceArea areaId ranges paths r r' cs :
      Forall (fun x => ok x.1) paths -> replaceArea areaId ranges paths r = Ret (r', cs) -> ospf_step ok r r'
  | step_replaceRoute areaId ranges prefix path r r' cs :
      ok prefix -> replaceRoute areaId ranges prefix path r = Ret (r', cs) -> ospf_step ok r r'
  | step_replaceExternals paths r : Forall (fun x => ok x.1) paths -> ospf_step ok r (replaceExternals paths r)
  | step_replaceExternal prefix path r : ok prefix -> ospf_step ok r (replaceExternal prefix path r)
  | step_installDiscard key cost ad r : ok key.1 -> ospf_step ok r (installDiscardRoute key cost ad r)
  | step_withdrawDiscard key r : ok key.1 -> ospf_step ok r (withdrawDiscardRoute key r)
  | step_refresh areaId ranges r r' cs :
      refreshIntraRangeSuppression areaId ranges r = Ret (r', cs) -> ospf_step ok r r'.

Inductive ospf_reach (ok : IPPrefix -> Prop) : OspfRib -> Prop :=
  | ospf_reach_new : ospf_reach ok OspfRib_new
  | ospf_reach_step r r' : ospf_reach ok r -> ospf_step ok r r' -> ospf_reach ok r'.
End Recompute.

(** ** The best candidate *)

Lemma isBetterPath_iff a b :
  isBetterPath a b = true <->
  type_value (pathType a) < type_value (pathType b) \/
  type_value (pathType a) = type_value (pathType b) /\
  (pathCost a < pathCost b \/ pathCost a = pathCost b /\
   (pathOptions a < pathOptions b \/ pathOptions a = pathOptions b /\ pathDistance a < pathDistance b)).
Proof.
  unfold isBetterPath. case_bool_decide as Ht; cbn [negb].
  - rewrite Ht. destruct (Z.eqb_spec (pathCost a) (pathCost b)); cbn [negb]; [|rewrite Z.ltb_lt; lia].
    destruct (Z.eqb_spec (pathOptions a) (pathOptions b)); cbn [negb]; rewrite Z.ltb_lt; lia.
  - assert (type_value (pathType a) <> type_value (pathType b)) by (destruct (pathType a), (pathType b); cbn; congruence).
    rewrite Z.ltb_lt. lia.
Qed.

Lemma isBetterPath_false a b :
  isBetterPath a b = false <->
  type_value (pathType b) < type_value (pathType a) \/
  type_value (pathType b) = type_value (pathType a) /\
  (pathCost b < pathCost a \/ pathCost b = pathCost a /\
   (pathOptions b < pathOptions a \/ pathOptions b = pathOptions a /\ pathDistance b <= pathDistance a)).
Proof. rewrite <- not_true_iff_false, isBetterPath_iff. lia. Qed.

(** Nothing beats the path the loop ends with, and it beats everything that
    was before it. *)
Lemma best_fold l acc :
  let f := fun best p => match best with None => Some p | Some b => if isBetterPath p b then Some p else best end in
  exists b, fold_left f l (Some acc) = Some b /\ (b = acc \/ b ∈ l) /\
    isBetterPath acc b = false /\ (forall p, p ∈ l -> isBetterPath p b = false).
Proof.
  intros f. revert acc. induction l as [|x l IH]; intros acc; cbn [fold_left].
  - exists acc. split; [done|]. split; [auto|]. split; [apply isBetterPath_false; lia|]. intros ? H. inversion H.
  - assert (Hx : exists c, f (Some acc) x = Some c /\ (c = acc \/ c = x) /\ isBetterPath acc c = false /\ isBetterPath x c = false).
    { cbn [f]. destruct (isBetterPath x acc) eqn:E; eexists; (split; [reflexivity|]); rewrite ?isBetterPath_iff, ?isBetterPath_false in *.
      - split; [auto|]. split; lia.
      - split; [auto|]. split; lia. }
    destruct Hx as (c & -> & Hc & H1 & H2). destruct (IH c) as (b & Hb & Hin & H3 & H4). exists b. split; [exact Hb|].
    split; [destruct Hin as [->|?]; [destruct Hc as [->| ->]; [auto|right; left] | right; right; done]|].
    split; [rewrite isBetterPath_false in *; lia|]. intros p [->|Hp]%elem_of_cons; [|auto].
    rewrite isBetterPath_false in *. lia.
Qed.

Lemma bestPath_None l : bestPath l = None <-> l = [].
Proof.
  destruct l as [|x l]; [done|]. unfold bestPath. cbn [fold_left]. destruct (best_fold l x) as (b & Hb & _).
  split; [|done]. intros H. cbn beta in Hb. rewrite Hb in H. done.
Qed.

Lemma bestPath_spec l b : bestPath l = Some b -> b ∈ l /\ forall p, p ∈ l -> isBetterPath p b = false.
Proof.
  destruct l as [|x l]; [done|]. unfold bestPath. cbn [fold_left]. destruct (best_fold l x) as (b' & Hb & Hin & H1 & H2).
  cbn beta in Hb. rewrite Hb. intros [= <-]. split; [destruct Hin as [->|?]; [left|right; done]|].
  intros p [->|Hp]%elem_of_cons; auto.
Qed.

(** A type 2 external path wins over a type 1 path that costs more: the type of
    the metric is not compared. *)
Lemma cheap_type2_wins X m1 m2 o d h1 h2 :
  m2 < wrap 64 (X + m1) ->
  bestPath [externalPath X m1 false o d h1; externalPath X m2 true o d h2] = Some (externalPath X m2 true o d h2).
Proof.
  intros Hm. unfold bestPath. cbn [fold_left]. unfold isBetterPath, externalPath. cbn [pathType pathCost].
  rewrite bool_decide_eq_true_2 by done. destruct (Z.eqb_spec m2 (wrap 64 (X + m1))); [lia|].
  cbn. rewrite (proj2 (Z.ltb_lt _ _)) by lia. done.
Qed.

Lemma OspfPath_eq_iff a b :
  OspfPath_eq a b = true <->
  pathOptions a = pathOptions b /\ pathArea a = pathArea b /\ pathType a = pathType b /\ pathCost a = pathCost b /\
  pathDistance a = pathDistance b /\ pathHops a = pathHops b.
Proof. unfold OspfPath_eq. rewrite !andb_true_iff, !bool_decide_eq_true, !Z.eqb_eq. tauto. Qed.

(** ** Changes of the candidates and recomputation *)

(** The candidates of the prefixes of [l] may have changed, the selections
    have not, nothing was posted, and a new state is of an [ok] prefix. *)
Record touches (ok : IPPrefix -> Prop) (l : list IPPrefix) (r r' : OspfRib) : Prop := {
  t_posted : posted r' = posted r;
  t_allocs : allocs r' = allocs r;
  t_others : forall p, p ∉ l -> prefixStates r' !! p = prefixStates r !! p;
  t_lookup : forall p, lookup_route r' p = lookup_route r p;
  t_new : forall p, is_Some (prefixStates r' !! p) -> is_Some (prefixStates r !! p) \/ ok p
}.

Lemma touches_refl ok r r' :
  posted r' = posted r -> allocs r' = allocs r -> prefixStates r' = prefixStates r -> touches ok [] r r'.
Proof. intros H1 H2 H3. split; [done|done|intros; rewrite H3; done|intros; unfold lookup_route; rewrite H3; done|rewrite H3; auto]. Qed.

Lemma touches_weaken ok l l' r r' : (forall p, p ∈ l -> p ∈ l') -> touches ok l r r' -> touches ok l' r r'.
Proof. intros Hl [H1 H2 H3 H4 H5]. split; try done. intros p Hp. apply H3. auto. Qed.

Lemma touches_trans ok l1 l2 r r1 r2 : touches ok l1 r r1 -> touches ok l2 r1 r2 -> touches ok (l1 ++ l2) r r2.
Proof.
  intros [H1 H2 H3 H4 H5] [K1 K2 K3 K4 K5]. split; [congruence | congruence | | |].
  - intros p Hp. rewrite elem_of_app in Hp. rewrite K3, H3 by tauto. done.
  - intros p. rewrite K4, H4. done.
  - intros p Hp. destruct (K5 p Hp) as [?%H5|]; auto.
Qed.

Lemma touches_then ok l r r1 r2 : touches ok l r r1 -> touches ok [] r1 r2 -> touches ok l r r2.
Proof. intros H1 H2. pose proof (touches_trans _ _ _ _ _ _ H1 H2) as H. rewrite app_nil_r in H. done. Qed.

(** A state given other candidates keeps its selection. *)
Lemma touches_set ok r p st l :
  prefixStates r !! p = Some st \/ (prefixStates r !! p = None /\ ok p /\ st = PrefixState_new) ->
  touches ok [p] r (set_states r (<[p := set_canidates st l]> (prefixStates r))).
Proof.
  intros Hp. split; [done|done| | |]; cbn [prefixStates set_states].
  - intros q Hq. rewrite lookup_insert_ne; [done|]. intros ->. apply Hq. left.
  - intros q. unfold lookup_route. cbn [prefixStates set_states]. destruct (decide (q = p)) as [->|].
    + rewrite lookup_insert_eq. cbn [hasSelected set_canidates selected]. destruct Hp as [-> | (-> & _ & ->)]; done.
    + rewrite lookup_insert_ne by done. done.
  - intros q. destruct (decide (q = p)) as [->|]; [|rewrite lookup_insert_ne by done; auto].
    intros _. destruct Hp as [Hp | (_ & ? & _)]; [left; eauto | auto].
Qed.

Lemma touches_push ok r pfx path : ok pfx -> touches ok [pfx] r (set_states r (push_path (prefixStates r) pfx path)).
Proof.
  intros Hok. unfold push_path. cbv zeta. apply touches_set.
  destruct (prefixStates r !! pfx) as [st|] eqn:E; cbn [default]; auto.
Qed.

Lemma drop_paths_eq gone m pfx :
  drop_paths gone m pfx =
  match m !! pfx with
  | Some st => <[pfx := set_canidates st (List.filter (fun p => negb (gone p)) (canidates st))]> m
  | None => m
  end.
Proof.
  apply map_eq. intros q. unfold drop_paths. destruct (decide (q = pfx)) as [->|Hne].
  - rewrite lookup_alter_eq. destruct (m !! pfx) eqn:E; cbn; [rewrite lookup_insert_eq | rewrite E]; done.
  - rewrite lookup_alter_ne by done. destruct (m !! pfx); [rewrite lookup_insert_ne by done|]; done.
Qed.

Lemma touches_drop ok gone r pfx : touches ok [pfx] r (set_states r (drop_paths gone (prefixStates r) pfx)).
Proof.
  rewrite drop_paths_eq. destruct (prefixStates r !! pfx) as [st|] eqn:E.
  - apply touches_set. auto.
  - eapply touches_weaken; [|apply touches_refl; done]. intros ? H. inversion H.
Qed.

Lemma set_states_twice r m m' : set_states (set_states r m) m' = set_states r m'.
Proof. done. Qed.

Lemma touches_dropAll ok gone r old :
  let '(m, touched) := dropAll gone old (prefixStates r) in
  forall l, (forall p, p ∈ touched -> p ∈ l) -> touches ok l r (set_states r m).
Proof.
  unfold dropAll. set (f := fun '(m, touched) pfx => _).
  enough (H : forall l0 m0 t0 m t, fold_left f l0 (m0, t0) = (m, t) ->
    (forall p, p ∈ t0 -> p ∈ t) /\
    forall l, (forall p, p ∈ t -> p ∈ l) -> touches ok l (set_states r m0) (set_states r m)).
  { destruct (fold_left f old _) as [m t] eqn:E. intros l Hl. destruct (H _ _ _ _ _ E) as [_ Ht].
    specialize (Ht l Hl). destruct r. exact Ht. }
  clear old. intros l0. induction l0 as [|p l0 IH]; intros m0 t0 m t; cbn [fold_left].
  - intros [= <- <-]. split; [done|]. intros l _. eapply touches_weaken; [|apply touches_refl; done]. intros ? H; inversion H.
  - intros Hf. cbn [f] in Hf. destruct (m0 !! p) as [st|] eqn:E; [|apply IH; done].
    destruct (IH _ _ _ _ Hf) as [Hsub Ht]. split; [intros q Hq; apply Hsub, elem_of_union_r; done|].
    intros l Hl. eapply touches_weaken; [|eapply touches_trans; [apply (touches_drop ok gone (set_states r m0) p)|]].
    2:{ rewrite set_states_twice. cbn [prefixStates set_states]. apply (Ht l Hl). }
    intros q [->%list_elem_of_singleton|?]%elem_of_app; [|done]. apply Hl, Hsub, elem_of_union_l, elem_of_singleton. done.
Qed.

Lemma touches_addPaths ok areaId ranges paths r t r' t' :
  Forall (fun x => ok x.1) paths -> addPaths areaId ranges paths r t = Ret (r', t') ->
  (forall p, p ∈ t -> p ∈ t') /\ forall l, (forall p, p ∈ t' -> p ∈ l) -> touches ok l r r'.
Proof.
  revert r t. induction paths as [|[pfx inPath] paths IH]; intros r t Hok; cbn [addPaths].
  - intros [= <- <-]. split; [done|]. intros l _. eapply touches_weaken; [|apply touches_refl; done]. intros ? H; inversion H.
  - apply Forall_cons in Hok as [Hp Hok]. intros (path & _ & H)%outcome_bind_ret_inv.
    destruct (IH _ _ Hok H) as [Hsub Ht]. split; [intros q Hq; apply Hsub, elem_of_union_r; done|].
    intros l Hl. eapply touches_weaken; [|eapply touches_trans; [|apply (Ht l Hl)]].
    2:{ eapply touches_then; [apply (touches_push ok r pfx path Hp)|]. apply touches_refl; done. }
    intros q [->%list_elem_of_singleton|?]%elem_of_app; [|done]. apply Hl, Hsub, elem_of_union_l, elem_of_singleton. done.
Qed.

Lemma map_no_change {A} (f : A -> bool) (g : A -> A) l :
  (forall x, f x = false -> g x = x) -> existsb f l = false -> map g l = l.
Proof.
  intros Hg. induction l as [|x l IH]; [done|]. cbn. intros [Hx Hl]%orb_false_iff. rewrite Hg, IH; done.
Qed.

Lemma touches_refresh ok r areaId ranges pfxs m0 t0 m t :
  refreshLoop areaId ranges pfxs m0 t0 = Ret (m, t) ->
  (forall p, p ∈ t0 -> p ∈ t) /\
  forall l, (forall p, p ∈ t -> p ∈ l) -> touches ok l (set_states r m0) (set_states r m).
Proof.
  revert m0 t0. induction pfxs as [|pfx pfxs IH]; intros m0 t0; cbn [refreshLoop].
  - intros [= <- <-]. split; [done|]. intros l _. eapply touches_weaken; [|apply touches_refl; done]. intros ? H; inversion H.
  - destruct (m0 !! pfx) as [st|] eqn:E; [|apply IH]. intros (b & _ & H)%outcome_bind_ret_inv.
    set (changed := existsb _ _) in H. set (cands := map _ _) in H.
    destruct (IH _ _ H) as [Hsub Ht]. split; [intros q Hq; apply Hsub; destruct changed; [apply elem_of_union_r|]; done|].
    intros l Hl. specialize (Ht l Hl). destruct changed eqn:Ec.
    + eapply touches_weaken; [|eapply touches_trans; [|exact Ht]].
      2:{ apply (touches_set ok (set_states r m0) pfx st cands). auto. }
      intros q [->%list_elem_of_singleton|?]%elem_of_app; [|done]. apply Hl, Hsub, elem_of_union_l, elem_of_singleton. done.
    + assert (Hc : cands = canidates st).
      { eapply map_no_change; [|exact Ec]. intros p. cbn beta. destruct (isIntraOf areaId p); [|done].
        destruct p as [? ? ? ? ? ? s ?]. cbn [pathSuppressed]. destruct s, b; done. }
      rewrite Hc, (insert_id m0) in Ht; [exact Ht|]. rewrite E. destruct st. done.
Qed.

Lemma touches_none ok l r r' :
  posted r' = posted r -> allocs r' = allocs r -> prefixStates r' = prefixStates r -> touches ok l r r'.
Proof. intros. eapply touches_weaken; [|apply touches_refl; done]. intros ? K. inversion K. Qed.

(** Two changes of the same prefixes. *)
Lemma touches_twice ok l r r1 r2 : touches ok l r r1 -> touches ok l r1 r2 -> touches ok l r r2.
Proof. intros H1 H2. eapply touches_weaken; [|eapply touches_trans; [exact H1 | exact H2]]. intros p [?|?]%elem_of_app; done. Qed.

Lemma touches_pushes ok l r paths :
  Forall (fun x => ok x.1) paths -> (forall x, x ∈ paths -> x.1 ∈ l) ->
  touches ok l r (set_states r (fold_left (fun m x => push_path m x.1 x.2) paths (prefixStates r))).
Proof.
  intros Hok Hl. assert (Hr : set_states r (prefixStates r) = r) by (destruct r; done). rewrite <- Hr at 1.
  generalize (prefixStates r) as m. clear Hr. revert Hok Hl.
  induction paths as [|[q qp] paths IH]; intros Hok Hl m; cbn [fold_left fst snd]; [apply touches_none; done|].
  apply Forall_cons in Hok as [Hq Hok]. eapply touches_twice; [|apply IH; [done|]].
  - eapply touches_weaken; [|apply (touches_push ok (set_states r m) q qp Hq)].
    intros p ->%list_elem_of_singleton. apply (Hl (q, qp)). left.
  - intros x Hx. apply Hl. right. done.
Qed.

(** Dropping candidates of a prefix if it has a state, and something outside
    the states. *)
Lemma touches_drop_if ok r pfx gone (f : OspfRib -> OspfRib) :
  (forall r, touches ok [] r (f r)) ->
  touches ok [pfx] r (match prefixStates r !! pfx with
                      | None => r
                      | Some _ => f (set_states r (drop_paths gone (prefixStates r) pfx))
                      end).
Proof.
  intros Hf. destruct (prefixStates r !! pfx); [|apply touches_none; done].
  eapply touches_then; [apply touches_drop | apply Hf].
Qed.

Section Proofs.
  Context (af : AddressFamily) (procId : Z) (maxPaths : nat) (traffMin : bool) (junk : nat -> Z).
  Context (useLocal : bool) (globalRib : list RibAction -> IPPrefix -> bool) (enum : gset IPPrefix -> list IPPrefix).

#[local] Abbreviation recompute1 := (recomputePrefix af procId maxPaths traffMin junk).
#[local] Abbreviation step_ := (ospf_step af procId maxPaths traffMin junk useLocal globalRib enum).
#[local] Abbreviation reach_ := (ospf_reach af procId maxPaths traffMin junk useLocal globalRib enum).

(** Recomputation of a list of prefixes, in whatever contexts. *)
Inductive recomputed : list IPPrefix -> OspfRib -> OspfRib -> Prop :=
  | recomputed_nil r : recomputed [] r r
  | recomputed_cons p ctx l r r' : recomputed l (recompute1 p ctx r).1 r' -> recomputed (p :: l) r r'.

Lemma recomputed_all l r : recomputed l r (recomputeAll af procId maxPaths traffMin junk l r).
Proof. revert r. induction l as [|p l IH]; intros r; cbn [recomputeAll]; econstructor. apply IH. Qed.

Lemma recomputed_touched areaId l r :
  recomputed l r (recomputeTouched af procId maxPaths traffMin junk useLocal globalRib areaId l r).1.
Proof.
  revert r. induction l as [|p l IH]; intros r; cbn [recomputeTouched]; [constructor|]. unfold recomputeTurn.
  destruct (recompute1 p (Some areaId) r) as [r1 [ci ce]] eqn:E.
  specialize (IH r1). destruct (recomputeTouched _ _ _ _ _ _ _ _ l r1) as [r2 cs]. cbn [fst] in *.
  apply (recomputed_cons p (Some areaId)). rewrite E. done.
Qed.

(** Candidates of some prefixes change, and then at least these prefixes are
    recomputed. *)
Definition shape (ok : IPPrefix -> Prop) (r r2 : OspfRib) : Prop :=
  exists l r1, touches ok l r r1 /\ recomputed l r1 r2.

Lemma shape_one ok pfx ctx r r1 : touches ok [pfx] r r1 -> shape ok r (recompute1 pfx ctx r1).1.
Proof. intros H. exists [pfx], r1. split; [exact H|]. apply (recomputed_cons pfx ctx). constructor. Qed.

Lemma shape_touched ok areaId l r r1 r2 cs :
  touches ok l r r1 -> recomputeTouched af procId maxPaths traffMin junk useLocal globalRib areaId l r1 = (r2, cs) ->
  shape ok r r2.
Proof.
  intros H E. exists l, r1. split; [exact H|]. pose proof (recomputed_touched areaId l r1) as Hr. rewrite E in Hr. exact Hr.
Qed.

Hypothesis enum_all : forall X p, p ∈ X -> p ∈ enum X.

Lemma shape_replaceArea ok areaId ranges paths r r2 cs :
  Forall (fun x => ok x.1) paths ->
  replaceArea af procId maxPaths traffMin junk useLocal globalRib enum areaId ranges paths r = Ret (r2, cs) -> shape ok r r2.
Proof.
  intros Hok H. unfold replaceArea in H. set (old := enum (default ∅ (areaIndex r !! areaId))) in H.
  pose proof (touches_dropAll ok (ofArea areaId) r old) as Hd. destruct (dropAll _ _ _) as [m t0].
  apply outcome_bind_ret_inv in H as ([r1 t] & Ha & H). injection H as H.
  destruct (touches_addPaths ok _ _ _ _ _ _ _ Hok Ha) as [Hsub Ht].
  eapply (shape_touched ok areaId (enum t)); [|exact H].
  eapply (touches_twice _ _ _ r1); [|destruct (decide _); apply touches_none; done].
  eapply touches_twice; [apply (Hd (enum t)); auto|].
  eapply touches_twice; [|apply (Ht (enum t)); auto]. apply touches_none; done.
Qed.

Lemma shape_replaceRoute ok areaId ranges pfx path r r2 cs :
  ok pfx -> replaceRoute af procId maxPaths traffMin junk enum areaId ranges pfx path r = Ret (r2, cs) -> shape ok r r2.
Proof.
  intros Hok H. unfold replaceRoute in H. set (r0 := match prefixStates r !! pfx with Some _ => _ | None => r end) in H.
  assert (H0 : touches ok [pfx] r r0).
  { apply (touches_drop_if ok r pfx ofProcess (fun r => set_index r (alter (fun s => s ∖ {[pfx]}) areaId (areaIndex r)))).
    intros. apply touches_none; done. }
  apply outcome_bind_ret_inv in H as (r1 & Hr1 & H).
  destruct (recompute1 pfx (Some areaId) r1) as [r2' [ci ce]] eqn:E. injection H as <- _.
  replace r2' with (recompute1 pfx (Some areaId) r1).1 by (rewrite E; done). apply shape_one.
  eapply touches_twice; [exact H0|]. destruct path as [p|].
  - apply outcome_bind_ret_inv in Hr1 as (b & _ & [= <-]).
    eapply touches_then; [apply touches_push; done | apply touches_none; done].
  - injection Hr1 as <-. destruct (bool_decide _); apply touches_none; done.
Qed.

Lemma shape_replaceExternals ok paths r :
  Forall (fun x => ok x.1) paths -> shape ok r (replaceExternals af procId maxPaths traffMin junk enum paths r).
Proof.
  intros Hok. unfold replaceExternals. pose proof (touches_dropAll ok ofProcess r (enum (processWide r))) as Hd.
  destruct (dropAll _ _ _) as [m t]. set (new := list_to_set (fst <$> paths) : gset IPPrefix).
  eexists (enum (new ∪ t)), _. split; [|apply recomputed_all].
  eapply touches_twice; [apply (Hd (enum (new ∪ t))); intros; apply enum_all, elem_of_union_r; done|].
  eapply touches_twice; [apply (touches_pushes ok _ (set_states r m) paths Hok)|apply touches_none; done].
  intros x Hx. apply enum_all, elem_of_union_l, elem_of_list_to_set, list_elem_of_fmap. eauto.
Qed.

Lemma shape_replaceExternal ok pfx path r :
  ok pfx -> shape ok r (replaceExternal af procId maxPaths traffMin junk pfx path r).
Proof.
  intros Hok. unfold replaceExternal. apply shape_one. eapply touches_twice.
  - apply (touches_drop_if ok r pfx ofProcess (fun r => set_wide r (processWide r ∖ {[pfx]}))). intros. apply touches_none; done.
  - destruct path as [p|]; [|apply touches_none; done].
    eapply touches_then; [apply touches_push; done | apply touches_none; done].
Qed.

Lemma shape_installDiscard ok key cost ad r :
  ok key.1 -> shape ok r (installDiscardRoute af procId maxPaths traffMin junk key cost ad r).
Proof.
  intros Hok. unfold installDiscardRoute. apply shape_one. set (r0 := set_discards r _).
  eapply (touches_twice _ _ _ r0); [apply touches_none; done|]. apply (touches_set ok r0 key.1).
  change (prefixStates r0) with (prefixStates r). destruct (prefixStates r !! key.1) as [st|] eqn:E; cbn [default]; auto.
Qed.

Lemma shape_refresh ok areaId ranges r r2 cs :
  refreshIntraRangeSuppression af procId maxPaths traffMin junk useLocal globalRib enum areaId ranges r = Ret (r2, cs) -> shape ok r r2.
Proof.
  intros H. unfold refreshIntraRangeSuppression in H. destruct (areaIndex r !! areaId) as [idx|].
  2:{ injection H as <- _. exists [], r. split; [apply touches_none; done | constructor]. }
  apply outcome_bind_ret_inv in H as ([m t] & Hl & H). destruct (touches_refresh ok r _ _ _ _ _ _ _ Hl) as [_ Ht].
  assert (Hr : set_states r (prefixStates r) = r) by (destruct r; done). rewrite Hr in Ht.
  destruct (decide (t = ∅)) as [->|].
  - injection H as <- _. exists [], (set_states r m). split; [|constructor]. apply Ht. intros p Hp. apply not_elem_of_empty in Hp. done.
  - injection H as H. eapply shape_touched; [|exact H]. apply Ht. auto.
Qed.

Lemma step_shape ok r r2 : step_ ok r r2 -> shape ok r r2.
Proof.
  intros Hs. destruct Hs.
  - eapply shape_replaceArea; done.
  - eapply shape_replaceRoute; done.
  - apply shape_replaceExternals. done.
  - apply shape_replaceExternal. done.
  - apply shape_installDiscard. done.
  - unfold withdrawDiscardRoute. apply shape_one. eapply touches_then; [apply touches_drop | apply touches_none; done].
  - eapply shape_refresh. done.
Qed.

(** ** What is selected *)

Lemma recompute_states p ctx r :
  prefixStates (recompute1 p ctx r).1 =
  match prefixStates r !! p with
  | None => prefixStates r
  | Some st =>
      match bestPath (canidates st) with
      | None => delete p (prefixStates r)
      | Some b => <[p := mkPrefixState (canidates st) (nextRoute p (canidates st) b) true]> (prefixStates r)
      end
  end.
Proof.
  unfold recomputePrefix. destruct (prefixStates r !! p) as [st|]; [|done]. cbv zeta.
  destruct (bestPath (canidates st)) as [b|].
  - cbn [fst prefixStates set_states]. f_equal. destruct (_ || _); [|done]. destruct (hasSelected st); done.
  - destruct (hasSelected st); done.
Qed.

(** The state of a prefix shows the selection among its candidates. *)
Definition current (p : IPPrefix) (st : PrefixState) : Prop :=
  hasSelected st = true /\ exists b, bestPath (canidates st) = Some b /\ selected st = nextRoute p (canidates st) b.

Definition current_at (r : OspfRib) (p : IPPrefix) : Prop := forall st, prefixStates r !! p = Some st -> current p st.

Lemma recompute_current p ctx r : current_at (recompute1 p ctx r).1 p.
Proof.
  intros st. rewrite recompute_states. destruct (prefixStates r !! p) as [st0|] eqn:E; [|rewrite E; done].
  destruct (bestPath (canidates st0)) as [b|] eqn:Eb.
  - rewrite lookup_insert_eq. intros [= <-]. split; [done|]. exists b. done.
  - rewrite lookup_delete_eq. done.
Qed.

Lemma recompute_other p ctx r q : q <> p -> prefixStates (recompute1 p ctx r).1 !! q = prefixStates r !! q.
Proof.
  intros Hq. rewrite recompute_states. destruct (prefixStates r !! p); [|done].
  destruct (bestPath _); [rewrite lookup_insert_ne by done | rewrite lookup_delete_ne by done]; done.
Qed.

Lemma recomputed_current l r r' : recomputed l r r' -> forall p, p ∈ l \/ current_at r p -> current_at r' p.
Proof.
  induction 1 as [|q ctx l r r' _ IH]; intros p Hp.
  - destruct Hp as [Hp|]; [inversion Hp | done].
  - apply IH. destruct (decide (p = q)) as [->|Hne]; [right; apply recompute_current|].
    destruct Hp as [[->|]%elem_of_cons|Hp]; [done | auto|]. right. intros st. rewrite recompute_other by done. apply Hp.
Qed.

Lemma reach_current ok r : reach_ ok r -> forall p, current_at r p.
Proof.
  induction 1 as [|r r2 _ IH Hs]; intros p.
  - intros st. cbn [prefixStates OspfRib_new]. rewrite lookup_empty. done.
  - destruct (step_shape ok r r2 Hs) as (l & r1 & [_ _ Ho _ _] & Hrc). eapply recomputed_current; [exact Hrc|].
    destruct (decide (p ∈ l)) as [|Hn]; [auto|]. right. intros st. rewrite Ho by done. apply IH.
Qed.

(** C18: After any sequence of operations the route of a prefix that has
    candidates is the best of them in the order the code compares them: by
    type (intra-area, inter-area, external, NSSA), then cost, options and
    distance. External paths of metric type 1 and 2 have the same type here
    and are compared by cost alone, so the order is not the one the comment of
    the class states ([cheap_type2_wins]). The route's paths are the candidates
    with the same attributes and next hops, the best among them; a prefix
    without candidates has no route. *)
Theorem selection_is_best (ok : IPPrefix -> Prop) (r : OspfRib) (p : IPPrefix) :
  reach_ ok r ->
  match prefixStates r !! p with
  | None => lookup_route r p = None
  | Some st =>
      exists b, b ∈ canidates st /\ (forall c, c ∈ canidates st -> isBetterPath c b = false) /\
        exists rt, lookup_route r p = Some rt /\ routePrefix rt = p /\ b ∈ routePaths rt /\
          (forall c, c ∈ routePaths rt <-> c ∈ canidates st /\ OspfPath_eq b c = true) /\
          routeType rt = pathType b /\ routeCost rt = pathCost b /\ routeArea rt = pathArea b /\
          routeOptions rt = pathOptions b /\ routeDistance rt = pathDistance b /\ routeSuppressed rt = pathSuppressed b
  end.
Proof.
  intros Hr. unfold lookup_route. destruct (prefixStates r !! p) as [st|] eqn:E; [|done].
  destruct (reach_current ok r Hr p st E) as (-> & b & Hb & ->). destruct (bestPath_spec _ _ Hb) as [Hin Hbest].
  assert (Hp : forall c, c ∈ List.filter (OspfPath_eq b) (canidates st) <-> c ∈ canidates st /\ OspfPath_eq b c = true).
  { intros c. rewrite !list_elem_of_In, filter_In. done. }
  exists b. split; [done|]. split; [done|]. eexists. split; [reflexivity|]. split; [done|].
  cbn [nextRoute routePaths]. split; [|done]. apply Hp. split; [done|]. apply OspfPath_eq_iff. done.
Qed.

Lemma current_paths p st : current p st -> routePaths (selected st) <> [].
Proof.
  intros (_ & b & Hb & ->) Hf. destruct (bestPath_spec _ _ Hb) as [Hbin _]. cbn [nextRoute routePaths] in Hf.
  assert (K : b ∈ List.filter (OspfPath_eq b) (canidates st)).
  { rewrite list_elem_of_In, filter_In, <- list_elem_of_In. split; [done|]. apply OspfPath_eq_iff. done. }
  rewrite Hf in K. inversion K.
Qed.

Lemma listsIntra_iff area st :
  listsIntra area st = true <->
  hasSelected st = true /\ routeType (selected st) = INTRA_AREA /\ routeArea (selected st) = Some area /\
  routeSuppressed (selected st) = false.
Proof. unfold listsIntra. rewrite !andb_true_iff, !bool_decide_eq_true, negb_true_iff. tauto. Qed.

Lemma intraLoop_spec area ml :
  (forall q st, (q, st) ∈ ml -> current q st) ->
  exists l, intraLoop area ml = Ret l /\
    forall p path, (p, path) ∈ l <->
      exists st, (p, st) ∈ ml /\ listsIntra area st = true /\ head (routePaths (selected st)) = Some path.
Proof.
  induction ml as [|[q st] ml IH]; intros Hm.
  - exists []. split; [done|]. intros p path. split; [intros K; inversion K | intros (? & K & _); inversion K].
  - destruct IH as (l & Hl & Hin); [intros; apply Hm; right; done|]. cbn [intraLoop].
    destruct (listsIntra area st) eqn:Ec; [|exists l; split; [done|]].
    + pose proof (current_paths q st (Hm q st ltac:(left))) as Hne. destruct (routePaths (selected st)) as [|x xs] eqn:Ex; [done|].
      rewrite Hl, outcome_bind_ret_l. eexists. split; [reflexivity|]. intros p path. rewrite elem_of_cons, Hin.
      setoid_rewrite elem_of_cons. split.
      * intros [[= -> ->]|(st' & ? & ?)]; [|eauto]. exists st. rewrite Ex. auto.
      * intros (st' & [[= -> ->]|?] & Hc & Hh); [|eauto]. left. rewrite Ex in Hh. injection Hh as ->. done.
    + intros p path. rewrite Hin. setoid_rewrite elem_of_cons. split.
      * intros (st' & ? & ?). eauto.
      * intros (st' & [[= -> ->]|?] & Hc & Hh); [congruence | eauto].
Qed.

(** The query of the summary originator never fails, and gives for each
    prefix whose selected route is an unsuppressed intra-area route of the
    area its first path. *)
Theorem intra_area_routes_spec (ok : IPPrefix -> Prop) (r : OspfRib) (area : Z) :
  reach_ ok r ->
  exists l, getIntraAreaRoutes area r = Ret l /\
    forall p path, (p, path) ∈ l <->
      exists rt, lookup_route r p = Some rt /\ routeType rt = INTRA_AREA /\ routeArea rt = Some area /\
        routeSuppressed rt = false /\ head (routePaths rt) = Some path.
Proof.
  intros Hr. destruct (intraLoop_spec area (map_to_list (prefixStates r))) as (l & Hl & Hin).
  { intros q st Hq%elem_of_map_to_list. apply (reach_current ok r Hr q st Hq). }
  exists l. split; [exact Hl|]. intros p path. rewrite Hin. unfold lookup_route. split.
  - intros (st & Hst%elem_of_map_to_list & (Hs & H1 & H2 & H3)%listsIntra_iff & Hh).
    exists (selected st). rewrite Hst, Hs. done.
  - intros (rt & Hrt & H1 & H2 & H3 & Hh). destruct (prefixStates r !! p) as [st|] eqn:E; [|done].
    destruct (hasSelected st) eqn:Es; [|done]. injection Hrt as <-. exists st.
    rewrite elem_of_map_to_list, listsIntra_iff. done.
Qed.
End Proofs.

(** ** The global routing table *)

(** [core/routing/RoutingTable.hpp:60-63] RoutingTable *)
Record RoutingTable := mkRoutingTable { rib4 : Rib; rib6 : Rib }.

Definition RoutingTable_new : RoutingTable := mkRoutingTable Rib_new Rib_new.

(** [core/routing/RoutingTable.hpp:93-101] RoutingTable::addRoute: the closure it posts, when it runs *)
Definition addRoute_run (af : AddressFamily) (e : RibEntry) (t : RoutingTable) : outcome RoutingTable :=
  if bool_decide (af = AF_IPv4)
  then x ← installRoute 32 (rib4 t) e; Ret (mkRoutingTable x.1 (rib6 t))
  else x ← installRoute 128 (rib6 t) e; Ret (mkRoutingTable (rib4 t) x.1).

(** [core/routing/RoutingTable.hpp:130-138] RoutingTable::removeRoute: the closure it posts, when it runs *)
Definition removeRoute_run (af : AddressFamily) (pfx len : Z) (src : RouteSource) (pid : Z) (t : RoutingTable)
    : outcome RoutingTable :=
  if bool_decide (af = AF_IPv4)
  then x ← withdrawRoute 32 (rib4 t) pfx len src pid; Ret (mkRoutingTable x.1 (rib6 t))
  else x ← withdrawRoute 128 (rib6 t) pfx len src pid; Ret (mkRoutingTable (rib4 t) x.1).

Definition run_action (a : RibAction) (t : RoutingTable) : outcome RoutingTable :=
  match a with
  | PostAdd af e => addRoute_run af e t
  | PostRemove af pfx len src pid => removeRoute_run af pfx len src pid t
  end.

(** The queue runs what was posted in order. *)
Fixpoint run_actions (l : list RibAction) (t : RoutingTable) : outcome RoutingTable :=
  match l with
  | [] => Ret t
  | a :: l => t ← run_action a t; run_actions l t
  end.

Lemma run_actions_app l1 l2 t : run_actions (l1 ++ l2) t = (t' ← run_actions l1 t; run_actions l2 t').
Proof. revert t. induction l1 as [|a l1 IH]; intros t; [done|]. cbn [app run_actions]. destruct (run_action a t); cbn; auto. Qed.

(** One withdrawal or installation on a RIB that holds a single route, or
    none, for the prefix. *)
Lemma withdraw_last W (r : Rib) pfx len e :
  rib_inv r -> rib_routes r (mk_key W pfx len) = [e] ->
  exists r' a, withdrawRoute W r pfx len (source e) (processId e) = Ret (r', a) /\ rib_inv r' /\
    rib_routes r' (mk_key W pfx len) = [] /\ (forall k, k <> mk_key W pfx len -> rib_routes r' k = rib_routes r k).
Proof.
  intros Hr He.
  assert (Hret : exists r' a, withdrawRoute W r pfx len (source e) (processId e) = Ret (r', a)).
  { unfold withdrawRoute. unfold rib_routes in He. destruct (table r !! mk_key W pfx len) as [p|] eqn:Ek; [|eauto].
    destruct Hr as (H1 & _ & _). destruct (H1 _ _ Ek) as (b & Hb & _). rewrite Hb in He.
    unfold bucket_at. rewrite Hb, outcome_bind_ret_l. unfold announceRouteChange.
    assert (Hn : routes (removeRoute b (source e) (processId e)) = []).
    { cbn [removeRoute selectBest set_routes routes]. rewrite He. cbn [List.filter].
      rewrite (proj2 (same_key_iff _ _ _)) by done. done. }
    rewrite Hn, outcome_bind_ret_l. destruct (RibBucket_empty _); eauto. }
  destruct Hret as (r' & a & Hw). exists r', a. split; [exact Hw|]. split; [eapply withdrawRoute_inv; done|].
  pose proof (withdrawRoute_routes W r r' pfx len (source e) (processId e) a) as Hk. split.
  - rewrite Hk by done. rewrite decide_True, He by done. cbn [List.filter].
    rewrite (proj2 (same_key_iff _ _ _)) by done. done.
  - intros k Hne. rewrite Hk by done. rewrite decide_False by done. done.
Qed.

(** Withdrawing another source or process from a prefix with one route keeps
    the route. *)
Lemma withdraw_stays W (r : Rib) pfx len e src pid :
  rib_inv r -> rib_routes r (mk_key W pfx len) = [e] -> route_key e <> (src, pid) ->
  exists r' a, withdrawRoute W r pfx len src pid = Ret (r', a) /\ rib_routes r' (mk_key W pfx len) = [e].
Proof.
  intros Hr He Hne.
  assert (Hret : exists r' a, withdrawRoute W r pfx len src pid = Ret (r', a)).
  { unfold withdrawRoute. unfold rib_routes in He. destruct (table r !! mk_key W pfx len) as [p|] eqn:Ek; [|eauto].
    destruct Hr as (H1 & _ & _). destruct (H1 _ _ Ek) as (b & Hb & Hbi & _). rewrite Hb in He.
    unfold bucket_at. rewrite Hb, outcome_bind_ret_l.
    assert (Hn : removeRoute b src pid = mkRibBucket (buf b) (cap b) [e] (Some (buf b, 0%nat)) (bestEntry b) (Some e)).
    { unfold removeRoute. rewrite He. cbn [List.filter]. rewrite (proj2 (same_key_false _ _ _)) by done. done. }
    assert (Ha : exists a, announceRouteChange (mk_key W pfx len) (removeRoute b src pid) = Ret a).
    { rewrite Hn. unfold announceRouteChange. cbn [routes prevBest bestEntry].
      assert (Hbest : bestEntry b = Some (buf b, 0%nat)).
      { destruct Hbi as (_ & _ & Hbi). rewrite He in Hbi. apply Hbi. }
      rewrite Hbest. unfold deref. cbn [fst snd buf routes]. rewrite decide_True by done. cbn. eauto. }
    destruct Ha as [a ->]. rewrite outcome_bind_ret_l. destruct (RibBucket_empty _); eauto. }
  destruct Hret as (r' & a & Hw). exists r', a. split; [exact Hw|].
  rewrite (withdrawRoute_routes W r r' pfx len src pid a) by done. rewrite decide_True, He by done. cbn [List.filter].
  rewrite (proj2 (same_key_false _ _ _)) by done. done.
Qed.

Lemma rib_routes_nil (r : Rib) k : rib_inv r -> rib_routes r k = [] -> table r !! k = None.
Proof.
  intros (H1 & _ & _) Hn. destruct (table r !! k) as [p|] eqn:Ek; [|done]. exfalso.
  destruct (H1 _ _ Ek) as (b & Hb & _ & (e & He) & _). unfold rib_routes in Hn. rewrite Ek, Hb, He in Hn. done.
Qed.

Lemma install_first W (r : Rib) e :
  let key := mk_key W (prefix e) (length_ e) in
  rib_inv r -> rib_routes r key = [] ->
  exists r' a, installRoute W r e = Ret (r', a) /\ rib_inv r' /\
    rib_routes r' key = [e] /\ (forall k, k <> key -> rib_routes r' k = rib_routes r k).
Proof.
  intros key Hr Hn. apply (rib_routes_nil r key Hr) in Hn.
  destruct (installRoute_new_returns W r e Hn) as [r' Hi]. eexists r', _. split; [exact Hi|].
  split; [eapply installRoute_inv; done|]. destruct (installRoute_routes W r r' e _ key Hr Hi) as (_ & H2 & _).
  split; [apply H2; done|]. intros k Hk. apply (installRoute_routes W r r' e _ k Hr Hi). done.
Qed.

(** ** Keys of the global table *)

Definition af_width (af : AddressFamily) : Z := if bool_decide (af = AF_IPv4) then 32 else 128.

(** The prefixes of a process: canonical, and of its family. *)
Definition of_family (af : AddressFamily) (p : IPPrefix) : Prop :=
  IPPrefix_canonical p /\ IPPrefix_isIPv4 p = bool_decide (af = AF_IPv4).

#[export] Instance of_family_dec af p : Decision (of_family af p).
Proof. unfold of_family; apply _. Defined.

Definition rib_key (af : AddressFamily) (p : IPPrefix) : PrefixKey := mk_key (af_width af) (af_addr af p) (p_len p).

Definition rib_of (af : AddressFamily) (t : RoutingTable) : Rib := if bool_decide (af = AF_IPv4) then rib4 t else rib6 t.

Lemma of_family_bits af p :
  of_family af p -> fam_width (p_addr p) = af_width af /\ fam_bits (p_addr p) = af_addr af p.
Proof.
  intros [_ Hf]. unfold IPPrefix_isIPv4 in Hf. unfold fam_width, fam_bits, af_width, af_addr. rewrite Hf.
  case_bool_decide; [|done]. unfold IPPrefix_v4. rewrite land_low32. done.
Qed.

(** A canonical prefix is its own key. *)
Lemma rib_key_canonical af p : of_family af p -> rib_key af p = (af_addr af p, p_len p).
Proof.
  intros Hp. destruct (of_family_bits af p Hp) as [Hw Hb]. destruct Hp as [[[Ha Hl] Hm] _].
  pose proof (fam_bits_in_width _ Ha) as Hin. rewrite Hw, Hb in *. unfold rib_key, mk_key, rib_mask. f_equal.
  destruct (Z.eqb_spec (p_len p) 0) as [E|E].
  - rewrite E, Z.sub_0_r, Z.mod_small in Hm by exact Hin. done.
  - destruct (Z.leb_spec (af_width af) (p_len p)); [done|]. rewrite shl_all_ones, land_top_mask by (done || lia).
    pose proof (Z.div_mod (af_addr af p) (2 ^ (af_width af - p_len p)) ltac:(apply Z.pow_nonzero; lia)). lia.
Qed.

Lemma rib_key_inj af p q : of_family af p -> of_family af q -> rib_key af p = rib_key af q -> p = q.
Proof.
  intros Hp Hq. rewrite (rib_key_canonical af p), (rib_key_canonical af q) by done. intros [= Ha Hl].
  destruct (of_family_bits af p Hp) as [Hw Hb], (of_family_bits af q Hq) as [Hw' Hb'].
  destruct p as [pa pl], q as [qa ql]. cbn [p_addr p_len] in *. f_equal; [|done].
  apply fam_inj; [apply Hp | apply Hq | congruence | congruence].
Qed.

(** ** What is posted follows the selection *)

Lemma addNextHop_head e nh ifc w :
  prefix (addNextHop e nh ifc w).1 = prefix e /\ length_ (addNextHop e nh ifc w).1 = length_ e /\
  route_key (addNextHop e nh ifc w).1 = route_key e.
Proof.
  unfold addNextHop. destruct (_ <=? _)%nat; [done|]. destruct (addNextHop_scan _ _ _) as [[?|]|]; done.
Qed.

Lemma ribEntry_head af maxPaths traffMin p n pid :
  let e := ribEntry af maxPaths traffMin p n pid in
  prefix e = af_addr af p /\ length_ e = p_len p /\ route_key e = (deriveOspfType (routeType n), pid).
Proof.
  cbv zeta. unfold ribEntry. set (e0 := mkRibEntry _ _ _ _ _ _ _ _ _).
  enough (H : forall hops e, let e' := fold_left (fun e h => (addNextHop e (hop_af_addr af h) (interfaceId h) 1).1) hops e in
    prefix e' = prefix e /\ length_ e' = length_ e /\ route_key e' = route_key e).
  { destruct (H (installHops maxPaths traffMin n) e0) as (-> & -> & ->). done. }
  intros hops. induction hops as [|h hops IH]; intros e; [done|]. cbn [fold_left].
  destruct (IH (addNextHop e (hop_af_addr af h) (interfaceId h) 1).1) as (-> & -> & ->). apply addNextHop_head.
Qed.

(** Routes the code takes for unchanged have the same entry. *)
Lemma ribEntry_unchanged af maxPaths traffMin p o n pid :
  OspfRoute_eq o n = true -> length (routePaths o) = length (routePaths n) ->
  forallb (fun pq => OspfPath_eq pq.1 pq.2) (zip (routePaths o) (routePaths n)) = true ->
  ribEntry af maxPaths traffMin p o pid = ribEntry af maxPaths traffMin p n pid.
Proof.
  intros Heq Hlen Hall. unfold OspfRoute_eq in Heq. rewrite !andb_true_iff, !bool_decide_eq_true, !Z.eqb_eq in Heq.
  destruct Heq as (((((Ht & Hc) & _) & Hd) & _) & _). unfold ribEntry, installHops, mergeEcmpNextHops. rewrite Ht, Hc, Hd.
  assert (Hh : pathHops <$> routePaths o = pathHops <$> routePaths n); [|rewrite Hh; done].
  clear Ht Hc Hd. revert Hlen Hall. generalize (routePaths n) as l. induction (routePaths o) as [|x l1 IH]; intros [|y l2]; try done.
  cbn [length zip zip_with forallb fst snd fmap list_fmap]. intros [= Hl] [(_ & _ & _ & _ & _ & Hx)%OspfPath_eq_iff Hr]%andb_true_iff.
  f_equal; [exact Hx | apply IH; done].
Qed.

Section Mirror.
  Context (af : AddressFamily) (procId : Z) (maxPaths : nat) (traffMin : bool) (junk : nat -> Z).
  Context (useLocal : bool) (globalRib : list RibAction -> IPPrefix -> bool) (enum : gset IPPrefix -> list IPPrefix).

#[local] Abbreviation recompute1 := (recomputePrefix af procId maxPaths traffMin junk).
#[local] Abbreviation entry := (ribEntry af maxPaths traffMin).

(** What the posted actions ask the global table to hold for the prefix [p],
    from [held] on. There is no answer when an action comes out of turn: an
    entry is added while another is asked for, or a removal does not name the
    source of what is asked for, with the identifier of the process. *)
Fixpoint asked (p : IPPrefix) (held : option RibEntry) (acts : list RibAction) : option (option RibEntry) :=
  match acts with
  | [] => Some held
  | PostAdd f e :: acts =>
      if decide (f = af /\ prefix e = af_addr af p /\ length_ e = p_len p)
      then match held with None => asked p (Some e) acts | Some _ => None end
      else asked p held acts
  | PostRemove f pfx len src pid :: acts =>
      if decide (f = af /\ pfx = af_addr af p /\ len = p_len p)
      then match held with
           | Some e => if decide (source e = src /\ pid = procId) then asked p None acts else None
           | None => None
           end
      else asked p held acts
  end.

Lemma asked_app p h l1 l2 : asked p h (l1 ++ l2) = match asked p h l1 with Some h' => asked p h' l2 | None => None end.
Proof.
  revert h. induction l1 as [|[f e|f pfx len src pid] l1 IH]; intros h; [done| |]; cbn [app asked];
    repeat (case_decide || destruct h || done || apply IH).
Qed.

Lemma key_inj p q : of_family af p -> of_family af q -> af_addr af p = af_addr af q -> p_len p = p_len q -> p = q.
Proof. intros Hp Hq Ha Hl. apply (rib_key_inj af); [done..|]. rewrite !rib_key_canonical by done. congruence. Qed.

Lemma asked_add p q n pid h : of_family af p -> of_family af q ->
  asked q h [PostAdd af (entry p n pid)] =
    if decide (q = p) then match h with None => Some (Some (entry p n pid)) | Some _ => None end else Some h.
Proof.
  intros Hp Hq. destruct (ribEntry_head af maxPaths traffMin p n pid) as (Hep & Hel & _). cbn [asked]. rewrite Hep, Hel.
  destruct (decide (q = p)) as [->|Hne]; [rewrite decide_True by done; done|].
  rewrite decide_False; [done|]. intros (_ & Ha & Hl). apply Hne, key_inj; done.
Qed.

Lemma asked_remove p q n o pid : of_family af p -> of_family af q ->
  asked q (if decide (q = p) then Some (entry p n pid) else o) [removeAction af procId p n] =
    Some (if decide (q = p) then None else o).
Proof.
  intros Hp Hq. destruct (ribEntry_head af maxPaths traffMin p n pid) as (_ & _ & Hek). injection Hek as Hes _.
  unfold removeAction. cbn [asked]. destruct (decide (q = p)) as [->|Hne].
  - rewrite decide_True by done. rewrite decide_True by done. done.
  - rewrite decide_False; [done|]. intros (_ & Ha & Hl). apply Hne, key_inj; done.
Qed.

Definition expected (r : OspfRib) (p : IPPrefix) (k : nat) : option RibEntry :=
  (fun n => entry p n (junk k)) <$> lookup_route r p.

Definition mirror_inv (r : OspfRib) : Prop :=
  (forall p, is_Some (prefixStates r !! p) -> of_family af p) /\
  (forall p, of_family af p -> exists k, asked p None (posted r) = Some (expected r p k)).

(** A prefix that has a state gets another: what becomes of what is asked. *)
Lemma mirror_change p st ost r r' acts :
  prefixStates r !! p = Some st -> prefixStates r' = partial_alter (fun _ => ost) p (prefixStates r) ->
  posted r' = posted r ++ acts ->
  (of_family af p -> forall q h k, of_family af q ->
     (q = p -> h = if hasSelected st then Some (entry p (selected st) (junk k)) else None) ->
     exists k', asked q h acts = Some (if decide (q = p)
       then match ost with Some st' => if hasSelected st' then Some (entry p (selected st') (junk k')) else None | None => None end
       else h)) ->
  mirror_inv r -> mirror_inv r'.
Proof.
  intros E Hst Hposted Hacts [Hfam Hm]. assert (Hp : of_family af p) by (apply Hfam; eauto). split.
  - intros q. rewrite Hst. destruct (decide (q = p)) as [->|Hne]; [done|]. rewrite lookup_partial_alter_ne by done. apply Hfam.
  - intros q Hq. destruct (Hm q Hq) as [k Hk]. rewrite Hposted, asked_app, Hk.
    destruct (Hacts Hp q (expected r q k) k Hq) as [k' Hk'].
    { intros ->. unfold expected, lookup_route. rewrite E. destruct (hasSelected st); done. }
    rewrite Hk'. unfold expected, lookup_route. rewrite Hst. destruct (decide (q = p)) as [->|Hne].
    + exists k'. rewrite lookup_partial_alter_eq. destruct ost as [st'|]; [|done]. destruct (hasSelected st'); done.
    + exists k. rewrite lookup_partial_alter_ne by done. done.
Qed.

Lemma asked_replace p st next pid q h k : of_family af p -> of_family af q ->
  (q = p -> h = if hasSelected st then Some (entry p (selected st) (junk k)) else None) ->
  asked q h ((if hasSelected st then [removeAction af procId p (selected st)] else []) ++ [PostAdd af (entry p next pid)]) =
    Some (if decide (q = p) then Some (entry p next pid) else h).
Proof.
  intros Hp Hq Hh. rewrite asked_app. destruct (hasSelected st).
  - pose proof (asked_remove p q (selected st) h (junk k) Hp Hq) as Hr.
    assert (Hsame : (if decide (q = p) then Some (entry p (selected st) (junk k)) else h) = h).
    { destruct (decide (q = p)) as [->|]; [rewrite Hh; done | done]. }
    rewrite Hsame in Hr. rewrite Hr, asked_add by done. destruct (decide (q = p)); done.
  - change (asked q h []) with (Some h). cbv beta iota. rewrite asked_add by done. destruct (decide (q = p)) as [->|]; [rewrite Hh; done | done].
Qed.

Lemma recompute_mirror p ctx r : mirror_inv r -> mirror_inv (recompute1 p ctx r).1.
Proof.
  intros Hr. unfold recomputePrefix. destruct (prefixStates r !! p) as [st|] eqn:E; [|done]. cbv zeta.
  destruct (bestPath (canidates st)) as [b|] eqn:Eb.
  - set (next := nextRoute p (canidates st) b). destruct (negb (hasSelected st) || _ || _) eqn:Ech; revert Hr; cbn [fst].
    + eapply (mirror_change p st (Some (mkPrefixState (canidates st) next true)) r _
        ((if hasSelected st then [removeAction af procId p (selected st)] else []) ++ [PostAdd af (entry p next (junk (allocs r)))])); [done| | |].
      * destruct (hasSelected st); done.
      * cbn. destruct (hasSelected st); cbn; [rewrite <- app_assoc|]; done.
      * intros Hp q h k Hq Hh. exists (allocs r). rewrite (asked_replace p st next (junk (allocs r)) q h k) by done. done.
    + eapply (mirror_change p st (Some (mkPrefixState (canidates st) next true)) r _ []); [done | done | rewrite app_nil_r; done|].
      intros Hp q h k Hq Hh. exists k. cbn [asked]. rewrite !orb_false_iff, !negb_false_iff in Ech. destruct Ech as ((Es & Er) & Ee).
      rewrite Es in *. apply negb_false_iff in Er. apply negb_false_iff, andb_true_iff in Ee as [El Ea]. apply Nat.eqb_eq in El.
      destruct (decide (q = p)) as [->|]; [|done]. cbn [hasSelected selected].
      rewrite Hh, (ribEntry_unchanged af maxPaths traffMin p (selected st) next (junk k)); done.
  - destruct (hasSelected st) eqn:Es; revert Hr; cbn [fst].
    + eapply (mirror_change p st None r _ [removeAction af procId p (selected st)]); [done | done | done|].
      intros Hp q h k Hq Hh. exists k. rewrite Es in Hh. pose proof (asked_remove p q (selected st) h (junk k) Hp Hq) as H.
      destruct (decide (q = p)) as [->|]; [rewrite Hh; done | done].
    + eapply (mirror_change p st None r _ []); [done | done | rewrite app_nil_r; done|]. intros Hp q h k Hq Hh. exists k. rewrite Es in Hh.
      cbn [asked]. destruct (decide (q = p)) as [->|]; [rewrite Hh; done | done].
Qed.

Lemma touches_mirror l r r' : touches (of_family af) l r r' -> mirror_inv r -> mirror_inv r'.
Proof.
  intros [H1 H2 H3 H4 H5] [Hf Hm]. split.
  - intros p [?%Hf|?]%H5; done.
  - intros p Hp. rewrite H1. unfold expected. rewrite H4. apply Hm, Hp.
Qed.

Lemma recomputed_mirror l r r' :
  recomputed af procId maxPaths traffMin junk l r r' -> mirror_inv r -> mirror_inv r'.
Proof. induction 1 as [|p ctx l r r' _ IH]; [done|]. intros Hi. apply IH, recompute_mirror, Hi. Qed.

Lemma mirror_new : mirror_inv OspfRib_new.
Proof.
  split.
  - intros p. cbn. rewrite lookup_empty. intros [? K]; done.
  - intros p _. exists 0%nat. unfold expected, lookup_route. cbn. rewrite lookup_empty. done.
Qed.

Hypothesis enum_all : forall X p, p ∈ X -> p ∈ enum X.

(** C13: The actions a process posts to the global table take turns for every
    prefix of its family: an entry is added only when none is asked for, and a
    removal names the source of the entry that is asked for and the process.
    What they ask for in the end is the entry of the route the process has
    selected, and nothing when it has none. The entry's process identifier is
    what its memory held when it was allocated. *)
Theorem posted_follow_selection (r : OspfRib) (p : IPPrefix) :
  ospf_reach af procId maxPaths traffMin junk useLocal globalRib enum (of_family af) r -> of_family af p ->
  exists k, asked p None (posted r) =
    Some (match lookup_route r p with None => None | Some n => Some (ribEntry af maxPaths traffMin p n (junk k)) end).
Proof.
  intros Hr Hp. enough (Hm : mirror_inv r) by (destruct (proj2 Hm p Hp) as [k ->]; exists k; unfold expected; destruct (lookup_route r p); done).
  clear p Hp. induction Hr as [|r r2 _ IH Hs]; [apply mirror_new|].
  destruct (step_shape _ _ _ _ _ _ _ _ enum_all _ _ _ Hs) as (l & r1 & Ht & Hrc).
  eapply recomputed_mirror, touches_mirror; done.
Qed.
End Mirror.

(** ** Next hops of the selected route *)

Lemma dedupe_elem l h : h ∈ dedupeNextHops l <-> h ∈ l.
Proof.
  unfold dedupeNextHops. rewrite <- (isort_elem hop_lt l h). split; [apply uniq_subseteq|].
  apply uniq_elem. intros a b. apply bool_decide_eq_true.
Qed.

(** Only candidates whose next hops are those of the best one are merged with
    it: whatever the equal-cost candidates are, the route has the next hops
    of its best path and no others. *)
Theorem merged_hops_of_best (p : IPPrefix) (cands : list OspfPath) (b : OspfPath) (h : OspfNextHop) :
  bestPath cands = Some b ->
  h ∈ mergeEcmpNextHops (routePaths (nextRoute p cands b)) <-> h ∈ pathHops b.
Proof.
  intros Hb. destruct (bestPath_spec _ _ Hb) as [Hin _]. unfold mergeEcmpNextHops. rewrite dedupe_elem.
  cbn [nextRoute routePaths]. rewrite list_elem_of_In, in_concat. split.
  - intros (l & Hl & Hh). apply list_elem_of_In in Hl, Hh. apply list_elem_of_fmap in Hl as (x & -> & Hx).
    rewrite list_elem_of_In, filter_In in Hx. destruct Hx as [_ (_ & _ & _ & _ & _ & ->)%OspfPath_eq_iff]. done.
  - intros Hh. exists (pathHops b). rewrite <- !list_elem_of_In. split; [|done]. apply list_elem_of_fmap. exists b. split; [done|].
    rewrite list_elem_of_In, filter_In, <- list_elem_of_In. split; [done|]. apply OspfPath_eq_iff. done.
Qed.

(** ** Routes that are not withdrawn *)

(** [replaceRoute] without a path, which is to withdraw what the area
    contributed for a prefix, keeps every candidate that comes from an area
    and drops those of the process; the route of the area stays selected. *)
Theorem area_path_not_withdrawn af procId maxPaths traffMin junk enum (areaId : Z) ranges (p : IPPrefix) (r r' : OspfRib) cs st :
  replaceRoute af procId maxPaths traffMin junk enum areaId ranges p None r = Ret (r', cs) ->
  prefixStates r !! p = Some st -> (exists c, c ∈ canidates st /\ pathArea c = Some areaId) ->
  exists st', prefixStates r' !! p = Some st' /\ hasSelected st' = true /\
    (forall c, c ∈ canidates st' <-> c ∈ canidates st /\ ofProcess c = false).
Proof.
  intros H E (c & Hc & Ha). unfold replaceRoute in H. rewrite E in H. rewrite outcome_bind_ret_l in H.
  set (r0 := set_index (set_states r _) _) in H. set (r1 := if bool_decide _ then _ else r0) in H.
  set (cands := List.filter (fun p => negb (ofProcess p)) (canidates st)).
  assert (E1 : prefixStates r1 !! p = Some (set_canidates st cands)).
  { assert (Hs : prefixStates r1 = prefixStates r0) by (unfold r1; destruct (bool_decide _); done). rewrite Hs.
    cbn [r0 prefixStates set_index set_states]. rewrite drop_paths_eq, E, lookup_insert_eq. done. }
  assert (Hin : forall x, x ∈ cands <-> x ∈ canidates st /\ ofProcess x = false).
  { intros x. unfold cands. rewrite !list_elem_of_In, filter_In, negb_true_iff. done. }
  assert (Hcc : c ∈ cands). { apply Hin. split; [done|]. unfold ofProcess. rewrite Ha. done. }
  destruct (recomputePrefix af procId maxPaths traffMin junk p (Some areaId) r1) as [r2 [ci ce]] eqn:Er. injection H as <- _.
  assert (Hs2 : prefixStates r2 = prefixStates (recomputePrefix af procId maxPaths traffMin junk p (Some areaId) r1).1) by (rewrite Er; done).
  rewrite Hs2, recompute_states, E1. cbn [canidates set_canidates].
  destruct (bestPath cands) as [b|] eqn:Eb; [|apply bestPath_None in Eb; rewrite Eb in Hcc; inversion Hcc].
  eexists. split; [apply lookup_insert_eq|]. split; [done|]. exact Hin.
Qed.

(** The entry allocated for a route keeps the identifier its memory held. When
    that is not the identifier of the process, withdrawing the route leaves it
    in the global table. *)
Theorem withdrawn_route_stays af procId maxPaths traffMin (junk : nat -> Z) (p : IPPrefix) (path : OspfPath) :
  junk 0%nat <> procId -> pathArea path = None -> pathDiscard path = false ->
  let r1 := replaceExternal af procId maxPaths traffMin junk p (Some path) OspfRib_new in
  let r2 := replaceExternal af procId maxPaths traffMin junk p None r1 in
  lookup_route r2 p = None /\
  exists t e, run_actions (posted r2) RoutingTable_new = Ret t /\
    rib_routes (rib_of af t) (rib_key af p) = [e] /\ e = ribEntry af maxPaths traffMin p (nextRoute p [path] path) (junk 0%nat).
Proof.
  intros Hj Ha Hd r1 r2. set (e := ribEntry af maxPaths traffMin p (nextRoute p [path] path) (junk 0%nat)).
  assert (Hself : OspfPath_eq path path = true) by (apply OspfPath_eq_iff; done).
  assert (Hnext : nextRoute p [path] path = mkRoute p (pathOptions path) (pathCost path) (pathDistance path) (pathType path)
     (pathArea path) (pathSuppressed path) [path]) by (unfold nextRoute; cbn [List.filter]; rewrite Hself; done).
  assert (H1 : prefixStates r1 = {[ p := mkPrefixState [path] (nextRoute p [path] path) true ]} /\ posted r1 = [PostAdd af e]).
  { unfold r1, replaceExternal. cbn [OspfRib_new prefixStates]. rewrite lookup_empty. unfold push_path. cbn [prefixStates set_wide set_states OspfRib_new].
    rewrite lookup_empty. unfold recomputePrefix. cbn [prefixStates set_wide set_states]. rewrite lookup_insert_eq. cbn -[ribEntry nextRoute].
    rewrite insert_insert_eq. done. }
  destruct H1 as [H1 P1].
  assert (H2 : prefixStates r2 = ∅ /\ posted r2 = [PostAdd af e; removeAction af procId p (nextRoute p [path] path)]).
  { unfold r2, replaceExternal. rewrite H1. rewrite lookup_singleton_eq, drop_paths_eq, lookup_singleton_eq. unfold recomputePrefix.
    cbn [prefixStates set_wide set_states]. rewrite lookup_insert_eq. cbn [canidates set_canidates List.filter]. unfold ofProcess. rewrite Ha, Hd.
    cbn -[ribEntry nextRoute removeAction]. rewrite P1. split; [|done]. rewrite delete_insert_eq, delete_singleton_eq. done. }
  destruct H2 as [H2 P2]. split; [unfold lookup_route; rewrite H2, lookup_empty; done|].
  destruct (ribEntry_head af maxPaths traffMin p (nextRoute p [path] path) (junk 0%nat)) as (Hep & Hel & Hek). fold e in Hep, Hel, Hek.
  injection Hek as Hes Hpid. rewrite P2.
  destruct (install_first (af_width af) Rib_new e) as (rb & a & Hi & Hinv & Hrt & _);
    [apply rib_inv_new | unfold rib_routes; cbn; rewrite lookup_empty; done|]. rewrite Hep, Hel in Hrt.
  destruct (withdraw_stays (af_width af) rb (af_addr af p) (p_len p) e (deriveOspfType (pathType path)) procId Hinv Hrt) as (rb' & a' & Hw & Hrt').
  { unfold route_key. rewrite Hpid. congruence. }
  exists (if bool_decide (af = AF_IPv4) then mkRoutingTable rb' Rib_new else mkRoutingTable Rib_new rb'), e.
  assert (Hof : rib_of af (if bool_decide (af = AF_IPv4) then mkRoutingTable rb' Rib_new else mkRoutingTable Rib_new rb') = rb')
    by (unfold rib_of; case_bool_decide; done).
  rewrite Hof. split; [|split; [exact Hrt' | done]].
  unfold af_width in Hi, Hw. unfold removeAction. rewrite Hnext. cbn [run_actions run_action routeType]. unfold addRoute_run, removeRoute_run.
  case_bool_decide; cbn [RoutingTable_new rib4 rib6]; rewrite Hi, !outcome_bind_ret_l; cbn [fst rib4 rib6]; rewrite Hw; done.
Qed.

(** With the local check of eligibility, the loss of an area's last route to a
    prefix is not reported: the check looks the prefix up after it is gone. *)
Theorem removal_not_announced af procId maxPaths traffMin junk globalRib (areaId : Z) (p : IPPrefix) (r : OspfRib) (old : OspfRoute) :
  prefixStates r !! p = Some (mkPrefixState [] old true) -> routeType old = INTRA_AREA ->
  let '(r', cs) := recomputeTurn af procId maxPaths traffMin junk true globalRib areaId p r in
  lookup_route r p = Some old /\ lookup_route r' p = None /\ cs = [].
Proof.
  intros E Ht. unfold recomputeTurn, recomputePrefix. rewrite E. cbn [canidates bestPath fold_left hasSelected selected].
  assert (Hn : lookup_route (post (set_states r (delete p (prefixStates r))) [removeAction af procId p old]) p = None).
  { unfold lookup_route. cbn [prefixStates post set_states]. rewrite lookup_delete_eq. done. }
  assert (He : isInterEffective (Some areaId) old = false) by (unfold isInterEffective; rewrite Ht; done).
  rewrite He. unfold validateInterAreaSummaryEligibility. rewrite Hn.
  split; [unfold lookup_route; rewrite E; done|]. split; [done|]. unfold removal_of. destruct (isIntraEffective _ _); done.
Qed.

(** ** Examples *)

Definition ex_prefix : IPPrefix := mkIPPrefix (Z.lor 167772160 mapped) 8.
Definition ex_hop (i : Z) : OspfNextHop := mkHop i (IPAddress_u32 (3232235776 + i)).
Definition ex_path (t : OspfRouteType) (a : option Z) (hops : list OspfNextHop) : OspfPath := mkPath t a 10 110 2 false false hops.
Definition ex_ospf (l : list (IPPrefix * OspfPath)) : outcome (OspfRib * list OspfRouteChange) :=
  replaceArea AF_IPv4 7 4 false (fun _ => 7) true (fun _ _ => false) elements 0 ∅ l OspfRib_new.
Definition ex_area : OspfRib := (ret_or (OspfRib_new, []) (ex_ospf [(ex_prefix, ex_path INTRA_AREA (Some 0) [ex_hop 1])])).1.

Lemma ex_area_eq : ex_ospf [(ex_prefix, ex_path INTRA_AREA (Some 0) [ex_hop 1])] =
  Ret (ex_area, [mkChange ex_prefix 2 10 false]).
Proof. vm_compute. reflexivity. Qed.

Lemma ex_area_state : prefixStates ex_area !! ex_prefix = Some (mkPrefixState [ex_path INTRA_AREA (Some 0) [ex_hop 1]]
  (nextRoute ex_prefix [ex_path INTRA_AREA (Some 0) [ex_hop 1]] (ex_path INTRA_AREA (Some 0) [ex_hop 1])) true).
Proof. vm_compute. reflexivity. Qed.

#[global] Opaque ex_area.

Lemma ex_area_reach ok : ok ex_prefix ->
  ospf_reach AF_IPv4 7 4 false (fun _ => 7) true (fun _ _ => false) elements ok ex_area.
Proof.
  intros Hok. eapply ospf_reach_step; [apply ospf_reach_new|]. eapply step_replaceArea; [|apply ex_area_eq].
  repeat constructor. exact Hok.
Qed.

Lemma elements_all (X : gset IPPrefix) p : p ∈ X -> p ∈ elements X.
Proof. apply elem_of_elements. Qed.

Lemma selection_is_best_witness :
  ospf_reach AF_IPv4 7 4 false (fun _ => 7) true (fun _ _ => false) elements (fun _ => True) ex_area /\
  exists rt, lookup_route ex_area ex_prefix = Some rt /\ routePrefix rt = ex_prefix.
Proof.
  assert (Hr := ex_area_reach (fun _ => True) I). split; [exact Hr|].
  pose proof (selection_is_best AF_IPv4 7 4 false (fun _ => 7) true (fun _ _ => false) elements elements_all _ ex_area ex_prefix Hr) as H.
  rewrite ex_area_state in H. destruct H as (b & _ & _ & rt & H1 & H2 & _). exists rt. split; assumption.
Defined.

Lemma intra_area_routes_spec_witness :
  ospf_reach AF_IPv4 7 4 false (fun _ => 7) true (fun _ _ => false) elements (fun _ => True) ex_area /\
  exists l, getIntraAreaRoutes 0 ex_area = Ret l /\ forall path, (ex_prefix, path) ∈ l -> exists rt, lookup_route ex_area ex_prefix = Some rt.
Proof.
  assert (Hr := ex_area_reach (fun _ => True) I). split; [exact Hr|].
  destruct (intra_area_routes_spec AF_IPv4 7 4 false (fun _ => 7) true (fun _ _ => false) elements elements_all _ ex_area 0 Hr) as (l & Hl & H).
  exists l. split; [exact Hl|]. intros path Hp. apply H in Hp as (rt & Hrt & _). exists rt. exact Hrt.
Defined.

Lemma posted_follow_selection_witness :
  ospf_reach AF_IPv4 7 4 false (fun _ => 7) true (fun _ _ => false) elements (of_family AF_IPv4) ex_area /\
  exists e, asked AF_IPv4 7 ex_prefix None (posted ex_area) = Some (Some e) /\ source e = OSPF_INTRA.
Proof.
  assert (Hp : of_family AF_IPv4 ex_prefix) by by_compute.
  assert (Hr := ex_area_reach _ Hp). split; [exact Hr|].
  destruct (posted_follow_selection AF_IPv4 7 4 false (fun _ => 7) true (fun _ _ => false) elements elements_all ex_area ex_prefix Hr Hp)
    as (k & Hk).
  eexists. split; [exact Hk|]. vm_compute. reflexivity.
Defined.

Lemma area_path_not_withdrawn_witness :
  exists r' cs st', replaceRoute AF_IPv4 7 4 false (fun _ => 7) elements 0 ∅ ex_prefix None ex_area = Ret (r', cs) /\
    prefixStates r' !! ex_prefix = Some st' /\ hasSelected st' = true.
Proof.
  set (x := ret_or (OspfRib_new, []) (replaceRoute AF_IPv4 7 4 false (fun _ => 7) elements 0 ∅ ex_prefix None ex_area)).
  assert (Hx : replaceRoute AF_IPv4 7 4 false (fun _ => 7) elements 0 ∅ ex_prefix None ex_area = Ret (x.1, x.2)) by (vm_compute; reflexivity).
  destruct (area_path_not_withdrawn AF_IPv4 7 4 false (fun _ => 7) elements 0 ∅ ex_prefix ex_area x.1 x.2 _ Hx ex_area_state) as (st' & H1 & H2 & _).
  { eexists. split; [left|reflexivity]. }
  exists x.1, x.2, st'. split; [exact Hx|]. split; assumption.
Defined.

Lemma withdrawn_route_stays_witness :
  (3 <> 7) /\
  lookup_route (replaceExternal AF_IPv4 7 4 false (fun _ => 3) ex_prefix None
    (replaceExternal AF_IPv4 7 4 false (fun _ => 3) ex_prefix (Some (ex_path EXTERNAL None [ex_hop 1])) OspfRib_new)) ex_prefix = None.
Proof.
  assert (H : (fun _ : nat => 3) 0%nat <> 7) by (cbn; lia). split; [exact H|].
  exact (proj1 (withdrawn_route_stays AF_IPv4 7 4 false (fun _ => 3) ex_prefix
    (ex_path EXTERNAL None [ex_hop 1]) H eq_refl eq_refl)).
Defined.

Lemma merged_hops_of_best_witness :
  let c1 := ex_path INTER_AREA (Some 0) [ex_hop 1] in let c2 := ex_path INTER_AREA (Some 1) [ex_hop 2] in
  bestPath [c1; c2] = Some c1 /\ ~ ex_hop 2 ∈ mergeEcmpNextHops (routePaths (nextRoute ex_prefix [c1; c2] c1)).
Proof.
  intros c1 c2. assert (Hb : bestPath [c1; c2] = Some c1) by (vm_compute; reflexivity). split; [exact Hb|].
  intros H. apply (merged_hops_of_best ex_prefix [c1; c2] c1 (ex_hop 2) Hb) in H. apply list_elem_of_singleton in H. discriminate.
Defined.

Lemma removal_not_announced_witness :
  let old := nextRoute ex_prefix [] (ex_path INTRA_AREA (Some 0) [ex_hop 1]) in
  let r := set_states OspfRib_new {[ ex_prefix := mkPrefixState [] old true ]} in
  (recomputeTurn AF_IPv4 7 4 false (fun _ => 7) true (fun _ _ => false) 0 ex_prefix r).2 = [].
Proof.
  intros old r. assert (E : prefixStates r !! ex_prefix = Some (mkPrefixState [] old true)) by (vm_compute; reflexivity).
  pose proof (removal_not_announced AF_IPv4 7 4 false (fun _ => 7) (fun _ _ => false) 0 ex_prefix r old E eq_refl) as H.
  destruct (recomputeTurn _ _ _ _ _ _ _ _ _ _) as [r' cs]. destruct H as (_ & _ & H). exact H.
Defined.

(** The suppression test ignores the length of the prefix: a route that covers
    more than the range is suppressed by it. *)
Example wider_route_suppressed :
  isIntraRangeSuppressed (mkIPPrefix (Z.lor 167772160 mapped) 8) [mkIPPrefix (Z.lor 167772160 mapped) 16] = Ret true.
Proof. vm_compute. reflexivity. Qed.
