(* ===== verification/TcpBuffers.v ===== *)
(** * TcpBuffers: the transmit buffer of a TCP connection
    (transport/tcp/tx/TxBuffer.cpp, TxBuffer.h, TxBufferPool.cpp)

    A transmit buffer is a chain of blocks, linked by pointers in the store of
    the pool that all connections share; what a buffer asks of the pool is the
    interface [BlockPool], which the pool of the program implements. A block
    that the pool hands out is not the one it has initialised
    ([pop_skips_a_block]), no block given back is ever handed out again and half of
    the pool is lost ([pool_exhausts]), so that a buffer is a queue of bytes for
    its first message only ([second_message_stuck]). Cursors and sizes are
    natural numbers: blocks are shorter than the 32 bits of their cursors. *)

From S2P Require Import Prelude.

(** ** Blocks *)

(** [transport/tcp/tx/TxBufferPool.h:99-107] TxBufferPool::Block: with the bytes that follow it in memory *)
Record Block := mkBlock { refs : Z; next : option nat; rd : nat; wr : nat; data : bytes }.

#[export] Instance Block_eq_dec : EqDecision Block.
Proof. solve_decision. Defined.

Definition set_next (b : Block) (n : option nat) : Block := mkBlock (refs b) n (rd b) (wr b) (data b).
Definition set_rd (b : Block) (n : nat) : Block := mkBlock (refs b) (next b) n (wr b) (data b).
Definition set_wr (b : Block) (n : nat) : Block := mkBlock (refs b) (next b) (rd b) n (data b).
Definition set_data (b : Block) (d : bytes) : Block := mkBlock (refs b) (next b) (rd b) (wr b) d.

(** The bytes written to a block and not yet read. *)
Definition readable (b : Block) : bytes := take (wr b - rd b) (drop (rd b) (data b)).

(** ** What a buffer asks of its pool *)

Class BlockPool (P : Type) := {
  pool_blockSize : P -> nat;
  pool_block : P -> nat -> option Block;
  pool_set : P -> nat -> Block -> P;
  pool_pop : P -> outcome (P * option nat);
  pool_release : P -> nat -> outcome P;
  pool_size : P -> nat
}.

(** ** The transmit buffer *)

(** [transport/tcp/tx/TxBuffer.h:195-201] TxBuffer: [hasPool] is whether the pool pointer is set *)
Record TxBuffer := mkTx { hasPool : bool; head : option nat; tail : option nat; sizeBytes : nat; capacityBytes : nat }.

(** [transport/tcp/tx/TxBufferPool.cpp:22-26] TxBufferPool::acquire *)
Definition TxBufferPool_acquire : TxBuffer := mkTx true None None 0 0.

(** A span of bytes in a block: its offset and length. *)
Record span := mkSpan { sp_block : nat; sp_off : nat; sp_len : nat }.

Section Tx.
  Context {P : Type} `{BlockPool P}.

(** Reading through a pointer to a block. *)
Definition deref (p : P) (b : nat) : outcome Block := match pool_block p b with Some x => Ret x | None => UB end.

(** [transport/tcp/tx/TxBuffer.cpp:10-14] TxBuffer::newBlock *)
Definition newBlock (p : P) (t : TxBuffer) : outcome (P * option nat) :=
  if negb (hasPool t) then Ret (p, None) else pool_pop p.

(** [transport/tcp/tx/TxBuffer.cpp:16-32] TxBuffer::appendNewBlock *)
Definition appendNewBlock (p : P) (t : TxBuffer) : outcome (P * TxBuffer) :=
  '(p, b) ← newBlock p t;
  match b with
  | None => Ret (p, t)
  | Some b =>
      let cap := (capacityBytes t + pool_blockSize p)%nat in
      match head t with
      | None => Ret (p, mkTx (hasPool t) (Some b) (Some b) (sizeBytes t) cap)
      | Some _ =>
          match tail t with
          | None => UB
          | Some tl =>
              x ← deref p tl;
              Ret (pool_set p tl (set_next x (Some b)), mkTx (hasPool t) (head t) (Some b) (sizeBytes t) cap)
          end
      end
  end.

(** [transport/tcp/tx/TxBuffer.cpp:34-38] TxBuffer::ensureTail *)
Definition ensureTail (p : P) (t : TxBuffer) : outcome (P * TxBuffer) :=
  match tail t with None => appendNewBlock p t | Some _ => Ret (p, t) end.

(** The room behind the write cursor of the tail, an unsigned difference. *)
Definition slackOf (p : P) (tl : nat) : outcome nat :=
  x ← deref p tl; Ret (pool_blockSize p - wr x)%nat.

(** [transport/tcp/tx/TxBuffer.cpp:40-62] TxBuffer::reserveSpan: [None] is the empty span *)
Definition reserveSpan (p : P) (t : TxBuffer) (minBytes : nat) : outcome (P * TxBuffer * option span) :=
  if negb (hasPool t) then Ret (p, t, None)
  else
    '(p, t) ← match tail t with None => appendNewBlock p t | Some _ => Ret (p, t) end;
    match tail t with
    | None => Ret (p, t, None)
    | Some tl =>
        slack ← slackOf p tl;
        '(p, t) ← (if (slack <? minBytes)%nat then appendNewBlock p t else Ret (p, t));
        match tail t with
        | None => Ret (p, t, None)
        | Some tl =>
            x ← deref p tl;
            Ret (p, t, Some (mkSpan tl (wr x) (pool_blockSize p - wr x)))
        end
    end.

(** The caller writes bytes through a span from [reserveSpan]; more than it
    has room for is written past its end. *)
Definition writeSpan (p : P) (s : span) (bs : bytes) : outcome P :=
  if (sp_len s <? length bs)%nat then UB
  else x ← deref p (sp_block s);
       Ret (pool_set p (sp_block s) (set_data x (take (sp_off s) (data x) ++ bs ++ drop (sp_off s + length bs) (data x)))).

(** [transport/tcp/tx/TxBuffer.cpp:64-74] TxBuffer::commit *)
Definition commit (p : P) (t : TxBuffer) (n : nat) : outcome (P * TxBuffer) :=
  match tail t with
  | None => Ret (p, t)
  | Some tl =>
      if negb (hasPool t) || (n =? 0)%nat then Ret (p, t)
      else
        x ← deref p tl;
        let n := Nat.min n (pool_blockSize p - wr x) in
        Ret (pool_set p tl (set_wr x (wr x + n)), mkTx (hasPool t) (head t) (tail t) (sizeBytes t + n) (capacityBytes t))
  end.

(** [transport/tcp/tx/TxBuffer.cpp:83-96] TxBuffer::peek, the walk along the chain: the fuel is more than the
    blocks there are; a longer walk has entered a cycle, and an endless loop
    without effects is undefined in C++. *)
Fixpoint peekLoop (fuel : nat) (p : P) (b : option nat) (remaining : nat) : outcome bytes :=
  match fuel with
  | O => UB
  | S fuel =>
      match b with
      | None => Ret []
      | Some b =>
          x ← deref p b;
          let avail := (wr x - rd x)%nat in
          if (remaining <? avail)%nat then Ret (drop remaining (readable x))
          else peekLoop fuel p (next x) (remaining - avail)
      end
  end.

(** [transport/tcp/tx/TxBuffer.cpp:76-99] TxBuffer::peek *)
Definition peek (p : P) (t : TxBuffer) (offset : nat) : outcome bytes :=
  match head t with
  | None => Ret []
  | Some h => if (sizeBytes t <=? offset)%nat then Ret [] else peekLoop (S (pool_size p)) p (Some h) offset
  end.

(** [transport/tcp/tx/TxBuffer.cpp:113-117] TxBuffer::consume, giving back the head *)
Definition dropHead (p : P) (t : TxBuffer) (h : nat) (x : Block) : outcome (P * TxBuffer) :=
  let t := mkTx (hasPool t) (next x) (match next x with None => None | Some _ => tail t end) (sizeBytes t)
             (capacityBytes t - pool_blockSize p) in
  p ← pool_release p h; Ret (p, t).

(** [transport/tcp/tx/TxBuffer.cpp:108-135] TxBuffer::consume, the loop: each turn gives back a block or ends it *)
Fixpoint consumeLoop (fuel : nat) (p : P) (t : TxBuffer) (remaining consumed : nat) : outcome (P * TxBuffer * nat) :=
  match head t with
  | None => Ret (p, t, consumed)
  | Some h =>
      if (remaining =? 0)%nat then Ret (p, t, consumed)
      else
        match fuel with
        | O => UB
        | S fuel =>
            x ← deref p h;
            let avail := (wr x - rd x)%nat in
            if (avail =? 0)%nat then
              '(p, t) ← dropHead p t h x; consumeLoop fuel p t remaining consumed
            else
              let tk := Nat.min avail remaining in
              let x := set_rd x (rd x + tk) in
              let p := pool_set p h x in
              let t := mkTx (hasPool t) (head t) (tail t) (sizeBytes t - tk) (capacityBytes t) in
              '(p, t) ← (if (rd x =? wr x)%nat then dropHead p t h x else Ret (p, t));
              consumeLoop fuel p t (remaining - tk) (consumed + tk)
        end
  end.

(** [transport/tcp/tx/TxBuffer.cpp:101-138] TxBuffer::consume *)
Definition consume (p : P) (t : TxBuffer) (n : nat) : outcome (P * TxBuffer * nat) :=
  match head t with
  | None => Ret (p, t, 0%nat)
  | Some _ =>
      if negb (hasPool t) || (n =? 0)%nat || (sizeBytes t =? 0)%nat then Ret (p, t, 0%nat)
      else consumeLoop (S (pool_size p)) p t (Nat.min n (sizeBytes t)) 0
  end.

(** [transport/tcp/tx/TxBuffer.cpp:140-167] TxBuffer::spliceFrom: for two buffers of one pool *)
Definition spliceFrom (p : P) (t o : TxBuffer) : outcome (P * TxBuffer * TxBuffer) :=
  match head o with
  | None => Ret (p, t, o)
  | Some oh =>
      if negb (Bool.eqb (hasPool t) (hasPool o)) then Ret (p, t, o)
      else
        let size := (sizeBytes t + sizeBytes o)%nat in
        let cap := (capacityBytes t + capacityBytes o)%nat in
        let o' := mkTx (hasPool o) None None 0 0 in
        match head t with
        | None => Ret (p, mkTx (hasPool t) (head o) (tail o) size cap, o')
        | Some _ =>
            match tail t with
            | None => UB
            | Some tl =>
                x ← deref p tl;
                Ret (pool_set p tl (set_next x (head o)), mkTx (hasPool t) (head t) (tail o) size cap, o')
            end
        end
  end.

(** [transport/tcp/tx/TxBuffer.cpp:179-185] TxBuffer::reset, the loop over the chain *)
Fixpoint releaseAll (fuel : nat) (p : P) (b : option nat) : outcome P :=
  match b with
  | None => Ret p
  | Some b =>
      match fuel with
      | O => UB
      | S fuel => x ← deref p b; p ← pool_release p b; releaseAll fuel p (next x)
      end
  end.

(** [transport/tcp/tx/TxBuffer.cpp:169-191] TxBuffer::reset *)
Definition reset (p : P) (t : TxBuffer) : outcome (P * TxBuffer) :=
  let t' := mkTx (hasPool t) None None 0 0 in
  if negb (hasPool t) then Ret (p, t')
  else p ← releaseAll (S (pool_size p)) p (head t); Ret (p, t').

(** [transport/tcp/tx/TxBuffer.h:171-184] TxBuffer::moveFrom: the new object and the one moved from *)
Definition moveFrom (o : TxBuffer) : TxBuffer * TxBuffer := (o, mkTx false None None 0 0).

(** [transport/tcp/tx/TxBuffer.h:82-90] TxBuffer::operator=(TxBuffer&&), for another object *)
Definition TxBuffer_move_assign (p : P) (t o : TxBuffer) : outcome (P * TxBuffer * TxBuffer) :=
  '(p, _) ← reset p t; let '(t, o) := moveFrom o in Ret (p, t, o).
End Tx.

(** ** The pool of the program *)

(** [transport/tcp/TcpTypes.hpp:322-327] PoolConfig *)
Record PoolConfig := mkPoolConfig { blockSize : nat; slabBlocks : nat; maxBlocks : nat }.

(** [transport/tcp/tx/TxBufferPool.h:131-136] TxBufferPool: the blocks are numbered as they are allocated;
    [raw] is what fresh memory holds and [slab_ok] whether the allocation at
    that number of blocks succeeds. *)
Record TxBufferPool := mkPool { cfg : PoolConfig; store : gmap nat Block; freeList : option nat; totalBlocks : nat }.

(** [transport/tcp/tx/TxBufferPool.cpp:9-13] TxBufferPool::TxBufferPool *)
Definition TxBufferPool_new (c : PoolConfig) : TxBufferPool :=
  mkPool (mkPoolConfig (Nat.max 256 (blockSize c)) (Nat.max 1 (slabBlocks c)) (maxBlocks c)) ∅ None 0.

Section Pool.
  Context (raw : nat -> nat -> Z) (slab_ok : nat -> bool).

Definition set_block (p : TxBufferPool) (b : nat) (x : Block) : TxBufferPool :=
  mkPool (cfg p) (<[b := x]> (store p)) (freeList p) (totalBlocks p).
Definition set_free (p : TxBufferPool) (f : option nat) : TxBufferPool := mkPool (cfg p) (store p) f (totalBlocks p).
Definition get_block (p : TxBufferPool) (b : nat) : outcome Block := match store p !! b with Some x => Ret x | None => UB end.

(** [transport/tcp/tx/TxBufferPool.cpp:30-40] TxBufferPool::atomicPop: by one thread *)
Definition atomicPop (p : TxBufferPool) : outcome (TxBufferPool * option nat) :=
  match freeList p with
  | None => Ret (p, None)
  | Some h => x ← get_block p h; Ret (set_free p (next x), Some h)
  end.

(** [transport/tcp/tx/TxBufferPool.cpp:42-50] TxBufferPool::atomicPush *)
Definition atomicPush (p : TxBufferPool) (b : nat) : outcome TxBufferPool :=
  x ← get_block p b; Ret (set_free (set_block p b (set_next x (freeList p))) (Some b)).

(** [transport/tcp/tx/TxBufferPool.cpp:74-83] TxBufferPool::grow, threading a new slab *)
Fixpoint threadBlocks (n : nat) (b : nat) (p : TxBufferPool) : outcome TxBufferPool :=
  match n with
  | O => Ret p
  | S n =>
      let d := map (raw b) (seq 0 (blockSize (cfg p))) in
      p ← atomicPush (set_block p b (mkBlock 0 None 0 0 d)) b;
      threadBlocks n (S b) p
  end.

(** [transport/tcp/tx/TxBufferPool.cpp:52-86] TxBufferPool::grow *)
Definition grow (blocks : nat) (p : TxBufferPool) : outcome TxBufferPool :=
  if (blocks =? 0)%nat then Ret p
  else
    let m := maxBlocks (cfg p) in
    if negb (m =? 0)%nat && (m <=? totalBlocks p)%nat then Ret p
    else
      let blocks := if negb (m =? 0)%nat then Nat.min blocks (m - totalBlocks p) else blocks in
      if negb (slab_ok (totalBlocks p)) then Ret p
      else
        p' ← threadBlocks blocks (totalBlocks p) p;
        Ret (mkPool (cfg p') (store p') (freeList p') (totalBlocks p + blocks)).

(** [transport/tcp/tx/TxBufferPool.cpp:88-103] TxBufferPool::pop: the block initialised is not the one
    returned *)
Definition pop (p : TxBufferPool) : outcome (TxBufferPool * option nat) :=
  '(p, b) ← atomicPop p;
  '(p, b) ← match b with
            | Some b => Ret (p, Some b)
            | None => p ← grow (slabBlocks (cfg p)) p; atomicPop p
            end;
  match b with
  | None => Ret (p, None)
  | Some b =>
      x ← get_block p b;
      atomicPop (set_block p b (mkBlock 1 None 0 0 (data x)))
  end.

(** [transport/tcp/tx/TxBufferPool.cpp:105-109] TxBufferPool::addRef *)
Definition addRef (p : TxBufferPool) (b : nat) : outcome TxBufferPool :=
  x ← get_block p b; Ret (set_block p b (mkBlock (u32 (refs x + 1)) (next x) (rd x) (wr x) (data x))).

(** [transport/tcp/tx/TxBufferPool.cpp:111-123] TxBufferPool::release *)
Definition release (p : TxBufferPool) (b : nat) : outcome TxBufferPool :=
  x ← get_block p b;
  let p' := set_block p b (mkBlock (u32 (refs x - 1)) (next x) (rd x) (wr x) (data x)) in
  if refs x =? 1 then atomicPush (set_block p' b (mkBlock 0 None 0 0 (data x))) b
  else Ret p'.

Instance tx_pool : BlockPool TxBufferPool := {
  pool_blockSize p := blockSize (cfg p);
  pool_block p b := store p !! b;
  pool_set := set_block;
  pool_pop := pop;
  pool_release := release;
  pool_size p := totalBlocks p
}.

(** ** The free list *)

(** [l] is linked from [x], of blocks that nobody has used. *)
Fixpoint free (p : TxBufferPool) (x : option nat) (l : list nat) : Prop :=
  match l with
  | [] => x = None
  | b :: l => x = Some b /\ (exists d, store p !! b = Some (mkBlock 0 (hd_error l) 0 0 d) /\ length d = blockSize (cfg p)) /\ free p (hd_error l) l
  end.

Lemma free_frame p p' x l :
  blockSize (cfg p') = blockSize (cfg p) -> (forall b, b ∈ l -> store p' !! b = store p !! b) -> free p x l -> free p' x l.
Proof.
  intros Hc. revert x. induction l as [|b l IH]; intros x Hs; [done|]. intros (-> & (d & Hb & Hd) & Hf). split; [done|].
  split; [exists d; rewrite Hs, Hc by left; done|]. apply IH; [|exact Hf]. intros c Hc'. apply Hs. right. done.
Qed.

Lemma free_insert p b blk x l : b ∉ l -> free p x l -> free (set_block p b blk) x l.
Proof.
  intros Hb. apply free_frame; [done|]. intros c Hc. cbn. rewrite lookup_insert_ne; [done|]. intros ->. done.
Qed.

Lemma free_head p x l : free p x l -> x = hd_error l.
Proof. destruct l; [done | intros (-> & _); done]. Qed.

Lemma atomicPop_some p h x : freeList p = Some h -> store p !! h = Some x -> atomicPop p = Ret (set_free p (next x), Some h).
Proof. intros Hf Hx. unfold atomicPop, get_block. rewrite Hf, Hx. done. Qed.

Lemma atomicPop_none p : freeList p = None -> atomicPop p = Ret (p, None).
Proof. intros Hf. unfold atomicPop. rewrite Hf. done. Qed.

(** The pops of a block list that needs no growth. *)
Lemma pop_some_free p b l :
  free p (freeList p) (b :: l) -> NoDup (b :: l) ->
  exists d, let p1 := set_free (set_block p b (mkBlock 1 None 0 0 d)) (hd_error l) in
    length d = blockSize (cfg p) /\ free p1 (freeList p1) l /\ pop p = atomicPop p1.
Proof.
  intros (Hf & (d & Hb & Hd) & Hl) Hnd. apply NoDup_cons in Hnd as [Hn _]. exists d. cbv zeta. split; [done|]. split.
  - cbn [set_free freeList]. eapply free_frame; [| |exact Hl]; [done|]. intros c Hc. cbn. rewrite lookup_insert_ne; [done|]. intros ->. done.
  - unfold pop. rewrite (atomicPop_some p b _ Hf Hb), !outcome_bind_ret_l. unfold get_block at 1. cbn [set_free store]. rewrite Hb. done.
Qed.

(** With two free blocks or more [pop] returns the second as it lies in the
    free list, with no reference counted and linked to the third; the first,
    which it has initialised, is in no list any more. With a single free
    block it returns none and the block is lost. *)
Theorem pop_skips_a_block (p : TxBufferPool) (b1 : nat) (l : list nat) :
  free p (freeList p) (b1 :: l) -> NoDup (b1 :: l) ->
  exists p', store p' !! b1 <> store p !! b1 /\ free p' (freeList p') (tl l) /\ (b1 ∉ tl l) /\
    match l with
    | [] => pop p = Ret (p', None)
    | b2 :: l' => pop p = Ret (p', Some b2) /\
        exists d, store p' !! b2 = Some (mkBlock 0 (hd_error l') 0 0 d)
    end.
Proof.
  intros Hf Hnd. destruct (pop_some_free p b1 l Hf Hnd) as (d & Hd & Hf1 & Hpop). set (p1 := set_free _ _) in *.
  destruct Hf as (_ & (d1 & Hb1 & _) & _). apply NoDup_cons in Hnd as [Hn1 Hnd].
  assert (Hb1' : store p1 !! b1 = Some (mkBlock 1 None 0 0 d)) by (cbn; rewrite lookup_insert_eq; done).
  destruct l as [|b2 l].
  - exists p1. rewrite Hb1', Hb1. split; [intros [=]|]. split; [exact Hf1|]. split; [intros K; inversion K|]. rewrite Hpop. done.
  - pose proof Hf1 as (Hfl & (d2 & Hb2 & Hd2) & Hf2). exists (set_free p1 (hd_error l)). cbn [set_free store freeList tl] in *.
    split; [rewrite Hb1', Hb1; intros [=]|]. split; [eapply free_frame; [| |exact Hf2]; done|].
    split; [intros K; apply Hn1; right; done|]. split; [|eauto].
    rewrite Hpop, (atomicPop_some p1 b2 _ Hfl Hb2). done.
Qed.

Lemma threadBlocks_spec n b p l :
  free p (freeList p) l -> (forall c, c ∈ l -> (c < b)%nat) -> NoDup l ->
  exists p' l', threadBlocks n b p = Ret p' /\ cfg p' = cfg p /\ totalBlocks p' = totalBlocks p /\ free p' (freeList p') l' /\
    NoDup l' /\ length l' = (n + length l)%nat /\ (forall c, c ∈ l' -> c ∈ l \/ (b <= c < b + n)%nat) /\
    (forall c, (c < b)%nat -> store p' !! c = store p !! c).
Proof.
  revert b p l. induction n as [|n IH]; intros b p l Hf Hlt Hnd; cbn [threadBlocks].
  - exists p, l. split; [done|]. split_all; try done. auto.
  - set (d := map (raw b) _). assert (Hd : length d = blockSize (cfg p)) by (unfold d; rewrite length_map, length_seq; done).
    assert (Hb : b ∉ l) by (intros Hb%Hlt; lia).
    assert (Hp : atomicPush (set_block p b (mkBlock 0 None 0 0 d)) b =
      Ret (set_free (set_block (set_block p b (mkBlock 0 None 0 0 d)) b (mkBlock 0 (freeList p) 0 0 d)) (Some b))).
    { unfold atomicPush, get_block. cbn [set_block store]. rewrite lookup_insert_eq. done. }
    rewrite Hp, outcome_bind_ret_l. set (p1 := set_free _ _).
    assert (Hst : forall c, store p1 !! c = if decide (c = b) then Some (mkBlock 0 (freeList p) 0 0 d) else store p !! c).
    { intros c. unfold p1. cbn. rewrite !lookup_insert. repeat case_decide; congruence. }
    destruct (IH (S b) p1 (b :: l)) as (p' & l' & Ht & Hc' & Htot & Hf' & Hnd' & Hlen & Hin & Hold).
    + split; [done|]. rewrite <- (free_head _ _ _ Hf). split; [exists d; rewrite Hst, decide_True by done; done|].
      eapply free_frame; [| |exact Hf]; [done|]. intros c Hc. rewrite Hst, decide_False; [done|]. intros ->. done.
    + intros c [->|Hc%Hlt]%elem_of_cons; lia.
    + apply NoDup_cons. done.
    + exists p', l'. split; [exact Ht|]. split; [exact Hc'|]. split; [exact Htot|]. split; [exact Hf'|]. split; [exact Hnd'|].
      split; [rewrite Hlen; cbn [length]; lia|]. split.
      * intros c Hc. destruct (Hin c Hc) as [[->|?]%elem_of_cons|?]; [right; lia | auto | right; lia].
      * intros c Hc. rewrite Hold, Hst, decide_False by lia. done.
Qed.

(** ** Half of the pool is lost *)

(** A pool from which blocks are taken, written (links and cursors included)
    by the buffer that holds them, and given back: with the blocks that are
    out and how many have been handed out. *)
Inductive pool_run (c : PoolConfig) : TxBufferPool -> list nat -> nat -> Prop :=
  | run_new : pool_run c (TxBufferPool_new c) [] 0
  | run_pop p out n p' b : pool_run c p out n -> pop p = Ret (p', Some b) -> pool_run c p' (b :: out) (S n)
  | run_pop_none p out n p' : pool_run c p out n -> pop p = Ret (p', None) -> pool_run c p' out n
  | run_release p out n p' b : pool_run c p out n -> b ∈ out -> release p b = Ret p' ->
      pool_run c p' (filter (.≠ b) out) n
  | run_write p out n b x y : pool_run c p out n -> b ∈ out -> store p !! b = Some x -> refs y = refs x ->
      pool_run c (set_block p b y) out n.

(** The blocks that are free, none of them out, and the count of what was
    handed out. *)
Definition pool_inv (m : nat) (p : TxBufferPool) (out : list nat) (n : nat) : Prop :=
  exists l, free p (freeList p) l /\ NoDup l /\ NoDup out /\ (forall b, b ∈ l -> (b < totalBlocks p)%nat) /\
    (forall b, b ∈ out -> (b < totalBlocks p)%nat /\ (b ∉ l) /\ exists x, store p !! b = Some x /\ refs x = 0) /\
    (2 * n + length l <= totalBlocks p)%nat /\ maxBlocks (cfg p) = m /\ (m <> 0 -> totalBlocks p <= m)%nat.

(** A pop from a pool with free blocks. *)
Lemma pool_inv_pop m p out n b l p' r :
  free p (freeList p) (b :: l) -> NoDup (b :: l) -> NoDup out -> (forall c, c ∈ b :: l -> (c < totalBlocks p)%nat) ->
  (forall c, c ∈ out -> (c < totalBlocks p)%nat /\ (c ∉ b :: l) /\ exists x, store p !! c = Some x /\ refs x = 0) ->
  (2 * n + length (b :: l) <= totalBlocks p)%nat -> maxBlocks (cfg p) = m /\ (m <> 0 -> totalBlocks p <= m)%nat ->
  pop p = Ret (p', r) ->
  match r with Some b2 => pool_inv m p' (b2 :: out) (S n) | None => pool_inv m p' out n end.
Proof.
  intros Hf Hnd Hndo Hlt Hout Hn Hm Hp. destruct (pop_some_free p b l Hf Hnd) as (d & Hd & Hf1 & Hpop). rewrite Hpop in Hp. clear Hpop.
  set (p1 := set_free _ _) in *. apply NoDup_cons in Hnd as [Hnb Hndl].
  assert (Hout1 : forall c, c ∈ out -> store p1 !! c = store p !! c /\ (c ∉ l)).
  { intros c Hc. destruct (Hout c Hc) as (_ & Hcl & _). apply not_elem_of_cons in Hcl as [Hcb Hcl]. cbn. rewrite lookup_insert_ne by done. done. }
  destruct l as [|b2 l].
  - unfold atomicPop in Hp. cbn in Hp. injection Hp as <- <-. exists []. split; [exact Hf1|]. split; [constructor|]. split; [done|].
    split; [intros c Hc; inversion Hc|]. split; [|cbn; cbn in Hn; split; [lia | done]].
    intros c Hc. destruct (Hout c Hc) as (H1 & _ & H3). destruct (Hout1 c Hc) as [H4 H5]. rewrite H4. done.
  - pose proof Hf1 as (Hfl & (d2 & Hb2 & _) & Hf2). rewrite (atomicPop_some p1 b2 _ Hfl Hb2) in Hp. injection Hp as <- <-.
    apply NoDup_cons in Hndl as [Hnb2 Hndl]. exists l. cbn [set_free freeList next]. split; [eapply free_frame; [| |exact Hf2]; done|].
    split; [done|]. split; [|split; [|split; [|cbn; cbn in Hn; split; [lia | done]]]].
    + apply NoDup_cons. split; [|done]. intros Hc. destruct (Hout b2 Hc) as (_ & K & _). apply K. right. left.
    + intros c Hc. apply Hlt. right. right. done.
    + intros c [->|Hc]%elem_of_cons.
      * split; [apply Hlt; right; left|]. split; [done|]. exists (mkBlock 0 (hd_error l) 0 0 d2). split; [exact Hb2 | done].
      * destruct (Hout c Hc) as (H1 & _ & H3). destruct (Hout1 c Hc) as [H4 H5]. apply not_elem_of_cons in H5 as [_ H5].
        split; [exact H1|]. split; [done|]. cbn [set_free store] in *. rewrite H4. done.
Qed.

(** Growth before a pop from an empty free list. *)
Lemma grow_inv m p out n :
  pool_inv m p out n -> freeList p = None ->
  exists p', grow (slabBlocks (cfg p)) p = Ret p' /\ pool_inv m p' out n.
Proof.
  intros (l & Hf & Hnd & Hndo & Hlt & Hout & Hn & Hc & Hm) Hnone. destruct l as [|b l]; [|destruct Hf as [Hf _]; congruence].
  assert (Hsame : exists p', Ret p = Ret p' /\ pool_inv m p' out n) by (exists p; split; [done|]; exists []; auto 10).
  unfold grow. destruct (_ =? 0)%nat; [exact Hsame|]. cbv zeta.
  destruct (negb (maxBlocks (cfg p) =? 0)%nat && (maxBlocks (cfg p) <=? totalBlocks p)%nat) eqn:Emax; [exact Hsame|].
  set (k := if negb (maxBlocks (cfg p) =? 0)%nat then Nat.min _ _ else _). destruct (negb (slab_ok (totalBlocks p))); [exact Hsame|].
  destruct (threadBlocks_spec k (totalBlocks p) p []) as (p1 & l1 & Ht & Hc1 & Htot & Hf1 & Hnd1 & Hlen & Hin & Hold);
    [rewrite Hnone; done | intros c Hc'; inversion Hc' | constructor|]. rewrite Ht, outcome_bind_ret_l. eexists. split; [reflexivity|].
  exists l1. cbn [freeList totalBlocks cfg store]. split; [eapply free_frame; [| |exact Hf1]; done|]. split; [done|]. split; [done|].
  split; [|split; [|split; [rewrite Hlen; cbn in *; lia|rewrite Hc1; split; [done|]]]].
  - intros c Hc'. destruct (Hin c Hc') as [K|?]; [inversion K | lia].
  - intros c Hc'. destruct (Hout c Hc') as (H1 & _ & x & Hx & Hr). split; [lia|]. split.
    + intros K. destruct (Hin c K) as [K'|?]; [inversion K' | lia].
    + exists x. rewrite Hold by done. done.
  - intros Hm0. unfold k. rewrite Hc in *. destruct (Nat.eqb_spec m 0); cbn [negb andb] in *; [lia|]. apply Nat.leb_gt in Emax. lia.
Qed.

Lemma pool_inv_pop_any m p out n p' r :
  pool_inv m p out n -> pop p = Ret (p', r) ->
  match r with Some b2 => pool_inv m p' (b2 :: out) (S n) | None => pool_inv m p' out n end.
Proof.
  intros Hi Hp. pose proof Hi as (l & Hf & Hnd & Hndo & Hlt & Hout & Hn & Hm).
  destruct l as [|b l]; [|eapply pool_inv_pop; done]. cbn in Hf.
  destruct (grow_inv m p out n Hi Hf) as (p1 & Hg & l1 & G1 & G2 & G3 & G4 & G5 & G6 & G7).
  assert (Hpe : pop p = match freeList p1 with None => Ret (p1, None) | Some _ => pop p1 end).
  { unfold pop at 1. rewrite (atomicPop_none p Hf). cbn [mbind outcome_bind]. rewrite Hg. cbn [mbind outcome_bind]. unfold pop.
    destruct l1 as [|b1 l1].
    - cbn in G1. rewrite (atomicPop_none p1 G1), G1. done.
    - destruct G1 as (E1 & (d1 & Hb1 & _) & _). rewrite E1, (atomicPop_some p1 b1 _ E1 Hb1). done. }
  rewrite Hp in Hpe. destruct l1 as [|b1 l1].
  - cbn in G1. rewrite G1 in Hpe. injection Hpe as -> ->. exists []. rewrite G1. exact (conj eq_refl (conj G2 (conj G3 (conj G4 (conj G5 (conj G6 G7)))))).
  - pose proof G1 as (E1 & _). rewrite E1 in Hpe. symmetry in Hpe. eapply pool_inv_pop; done.
Qed.

(** A block that is out is written, or given back. *)
Lemma pool_inv_set m p out out' n b y :
  pool_inv m p out n -> b ∈ out -> NoDup out' -> (forall c, c ∈ out' -> c ∈ out /\ (c = b -> refs y = 0)) ->
  pool_inv m (set_block p b y) out' n.
Proof.
  intros (l & Hf & Hnd & Hndo & Hlt & Hout & Hn & Hm) Hb Hndo' Hsub. destruct (Hout b Hb) as (_ & Hbl & _).
  exists l. cbn [set_block freeList totalBlocks cfg store]. split; [apply (free_insert p b); done|]. split; [done|].
  split; [done|]. split; [done|]. split; [|done]. intros c Hc. destruct (Hsub c Hc) as [Hc2 Hy].
  destruct (Hout c Hc2) as (H1 & H2 & z & Hz & Hrz). split; [done|]. split; [done|]. destruct (decide (c = b)) as [->|Hne].
  - exists y. rewrite lookup_insert_eq. auto.
  - exists z. rewrite lookup_insert_ne by done. done.
Qed.

Lemma pool_run_inv c p out n : pool_run c p out n -> pool_inv (maxBlocks c) p out n.
Proof.
  induction 1 as [|p out n p' b _ IH Hp|p out n p' _ IH Hp|p out n p' b _ IH Hb Hr|p out n b x y _ IH Hb Hx Hy].
  - exists []. split; [done|]. split; [constructor|]. split; [constructor|]. split; [intros b Hb; inversion Hb|].
    split; [intros b Hb; inversion Hb|]. cbn. split; [lia|]. split; [done | lia].
  - apply (pool_inv_pop_any _ _ _ _ _ _ IH Hp).
  - apply (pool_inv_pop_any _ _ _ _ _ _ IH Hp).
  - pose proof IH as (l & _ & _ & Hndo & _ & Hout & _). destruct (Hout b Hb) as (_ & _ & x & Hx & Hrx).
    unfold release, get_block in Hr. rewrite Hx, outcome_bind_ret_l, Hrx in Hr. cbn in Hr. injection Hr as <-.
    eapply pool_inv_set; [exact IH | exact Hb | apply NoDup_filter; done|].
    intros c' [Hne Hc']%list_elem_of_filter. split; [done | intros ->; done].
  - pose proof IH as (l & _ & _ & Hndo & _ & Hout & _). destruct (Hout b Hb) as (_ & _ & x' & Hx' & Hrx).
    eapply pool_inv_set; [exact IH | exact Hb | done|]. intros c' Hc'. split; [done|]. intros _. congruence.
Qed.

(** Blocks given back by the connections never return to the free list, and
    every block handed out takes another one with it: over the life of a pool
    limited to [m] blocks no more than half of [m] are ever handed out, even
    if every one is given back at once. *)
Theorem pool_exhausts (c : PoolConfig) (p : TxBufferPool) (out : list nat) (n : nat) :
  pool_run c p out n -> maxBlocks c <> 0%nat -> (2 * n <= maxBlocks c)%nat.
Proof. intros (l & _ & _ & _ & _ & _ & Hn & _ & Hm)%pool_run_inv H0. specialize (Hm H0). lia. Qed.

(** ** A connection that has sent its first message *)

(** A message is written, as the senders mean to: reserved, written,
    committed. *)
Definition sendMessage (p : TxBufferPool) (t : TxBuffer) (m : bytes) : outcome (TxBufferPool * TxBuffer) :=
  '(p, t, s) ← reserveSpan p t (length m);
  match s with None => Ret (p, t) | Some s => p ← writeSpan p s m; commit p t (length m) end.

(** A walk along the free list finds nothing. *)
Lemma peekLoop_free p x l fuel :
  free p x l -> (length l < fuel)%nat -> peekLoop fuel p x 0 = Ret [].
Proof.
  revert x fuel. induction l as [|b l IH]; intros x [|fuel] Hf Hl; cbn [length] in Hl; try lia; cbn in Hf.
  - subst x. done.
  - destruct Hf as (-> & (d & Hb & _) & Hf). cbn [peekLoop]. unfold deref. cbn [pool_block tx_pool]. rewrite Hb.
    cbn. apply IH; [done | lia].
Qed.

Lemma deref_set p b y : deref (set_block p b y) b = Ret y.
Proof. unfold deref. cbn. rewrite lookup_insert_eq. done. Qed.

(** Writing at the cursor of a block that is the tail. *)
Lemma sendMessage_tail p h b x sz cap m :
  store p !! b = Some x -> length (data x) = blockSize (cfg p) -> (wr x + length m <= blockSize (cfg p))%nat -> m <> [] ->
  sendMessage p (mkTx true h (Some b) sz cap) m =
    Ret (set_block (set_block p b (set_data x (take (wr x) (data x) ++ m ++ drop (wr x + length m) (data x)))) b
           (set_wr (set_data x (take (wr x) (data x) ++ m ++ drop (wr x + length m) (data x))) (wr x + length m)),
         mkTx true h (Some b) (sz + length m) cap).
Proof.
  intros Hb Hd Hl Hm. assert (Hdr : deref p b = Ret x) by (unfold deref; cbn; rewrite Hb; done).
  assert (Hl0 : (0 < length m)%nat) by (destruct m; [done | cbn; lia]).
  unfold sendMessage, reserveSpan, slackOf. cbn [hasPool negb tail mbind outcome_bind]. rewrite Hdr. cbn [mbind outcome_bind pool_blockSize tx_pool].
  rewrite (proj2 (Nat.ltb_ge _ _)) by lia. cbn [tail mbind outcome_bind]. rewrite Hdr. cbn [mbind outcome_bind].
  unfold writeSpan. cbn [sp_len sp_block sp_off]. rewrite (proj2 (Nat.ltb_ge _ _)) by lia. rewrite Hdr. cbn [mbind outcome_bind pool_set tx_pool].
  unfold commit. cbn [tail hasPool negb orb]. rewrite (proj2 (Nat.eqb_neq _ _)) by lia. rewrite deref_set. cbn [mbind outcome_bind wr set_data pool_blockSize tx_pool set_block cfg head sizeBytes capacityBytes].
  rewrite Nat.min_l by lia. done.
Qed.

(** The first message takes a block. *)
Lemma sendMessage_first p p' b m :
  pop p = Ret (p', Some b) ->
  sendMessage p TxBufferPool_acquire m = sendMessage p' (mkTx true (Some b) (Some b) 0 (blockSize (cfg p'))) m.
Proof.
  intros Hp. unfold sendMessage, reserveSpan, appendNewBlock, newBlock. cbn [hasPool TxBufferPool_acquire negb tail head pool_pop tx_pool].
  rewrite Hp. reflexivity.
Qed.

(** Consuming all that the only block holds. *)
Lemma consume_all p b x t :
  store p !! b = Some x -> refs x <> 1 -> rd x = 0%nat -> (0 < wr x)%nat ->
  head t = Some b -> hasPool t = true -> sizeBytes t = wr x ->
  exists y, consume p t (wr x) =
    Ret (set_block (set_block p b (set_rd x (wr x))) b y,
         mkTx true (next x) (match next x with None => None | Some _ => tail t end) 0 (capacityBytes t - blockSize (cfg p)), wr x) /\
    wr y = wr x /\ data y = data x.
Proof.
  intros Hb Hr Hrd Hw Hh Hp Hs. exists (mkBlock (u32 (refs x - 1)) (next x) (wr x) (wr x) (data x)). split; [|done].
  unfold consume. rewrite Hh, Hp, Hs. cbn [negb orb]. rewrite (proj2 (Nat.eqb_neq _ _)) by lia. cbn [orb]. rewrite Nat.min_id.
  cbn [consumeLoop]. rewrite Hh, (proj2 (Nat.eqb_neq _ _)) by lia. unfold deref at 1. cbn [pool_block tx_pool]. rewrite Hb. cbn [mbind outcome_bind].
  rewrite Hrd, Nat.sub_0_r, (proj2 (Nat.eqb_neq _ _)), Nat.min_id by lia. cbn [Nat.add rd set_rd wr]. rewrite Nat.eqb_refl.
  unfold dropHead. cbn [pool_release tx_pool head next set_rd hasPool tail sizeBytes capacityBytes pool_set]. unfold release, get_block.
  cbn [store set_block]. rewrite lookup_insert_eq. cbn [mbind outcome_bind refs]. rewrite (proj2 (Z.eqb_neq _ _)) by done.
  cbn [mbind outcome_bind]. rewrite ?Hp, Hs, !Nat.sub_diag. destruct x as [r nx rx wx dx], nx, (pool_size p); reflexivity.
Qed.

(** With the pool as it is, the second message of a connection is never
    sent: the block of the first one was linked to the third free block,
    where the head goes once the first message is consumed, while the tail
    stays on the block given back. The second message is written there; its
    bytes are counted, but the sender finds none, from then on walking the
    free list that the next connections take their blocks from. *)
Theorem second_message_stuck (p : TxBufferPool) (b1 b2 b3 : nat) (l : list nat) (m1 m2 : bytes) :
  free p (freeList p) (b1 :: b2 :: b3 :: l) -> NoDup (b1 :: b2 :: b3 :: l) -> (length (b1 :: b2 :: b3 :: l) <= totalBlocks p)%nat ->
  m1 <> [] -> m2 <> [] -> (length m1 + length m2 <= blockSize (cfg p))%nat ->
  exists p1 t1 p2 t2 p3 t3,
    sendMessage p TxBufferPool_acquire m1 = Ret (p1, t1) /\ peek p1 t1 0 = Ret m1 /\
    consume p1 t1 (length m1) = Ret (p2, t2, length m1) /\
    sendMessage p2 t2 m2 = Ret (p3, t3) /\ sizeBytes t3 = length m2 /\ peek p3 t3 0 = Ret [] /\
    head t3 = freeList p3 /\ tail t3 = Some b2.
Proof.
  intros Hf Hnd Hl H1 H2 Hlen. destruct (pop_some_free p b1 (b2 :: b3 :: l) Hf Hnd) as (d & _ & Hf1 & Hpop).
  set (q := set_free _ _) in *. pose proof Hf1 as (E2 & (d2 & Hb2 & Hd2) & Hf2).
  rewrite (atomicPop_some q b2 _ E2 Hb2) in Hpop. cbn [next hd_error] in Hpop. apply NoDup_cons in Hnd as [_ [Hn2 _]%NoDup_cons].
  set (pa := set_free q (Some b3)) in *. assert (Hba : store pa !! b2 = Some (mkBlock 0 (Some b3) 0 0 d2)) by exact Hb2.
  assert (Hfa : free pa (Some b3) (b3 :: l)) by (eapply free_frame; [| |exact Hf2]; done).
  assert (Hl1 : (0 < length m1)%nat) by (destruct m1; [done | cbn; lia]).
  set (y1 := set_data (mkBlock 0 (Some b3) 0 0 d2) (m1 ++ drop (length m1) d2)).
  assert (Hy1 : length (data y1) = blockSize (cfg p)) by (cbn in Hd2 |- *; rewrite length_app, length_drop, Hd2; lia).
  assert (Hs1 : sendMessage p TxBufferPool_acquire m1 =
    Ret (set_block (set_block pa b2 y1) b2 (set_wr y1 (length m1)), mkTx true (Some b2) (Some b2) (length m1) (blockSize (cfg p)))).
  { rewrite (sendMessage_first _ _ _ _ Hpop). rewrite (sendMessage_tail pa _ b2 _ _ _ m1 Hba); [done | exact Hd2 | cbn; lia | done]. }
  set (pb := set_block _ b2 (set_wr _ _)) in Hs1. assert (Hbb : store pb !! b2 = Some (set_wr y1 (length m1))) by (cbn; rewrite lookup_insert_eq; done).
  destruct (consume_all pb b2 _ (mkTx true (Some b2) (Some b2) (length m1) (blockSize (cfg p))) Hbb) as (y & Hc & Hwy & Hdy); try done; [].
  set (pc := set_block _ b2 y) in Hc. assert (Hbc : store pc !! b2 = Some y) by (cbn; rewrite lookup_insert_eq; done).
  eexists pb, _, pc, _, _, _. split; [exact Hs1|]. split; [|split; [exact Hc|split]].
  - unfold peek. cbn [head sizeBytes]. rewrite (proj2 (Nat.leb_gt _ _)) by lia. cbn [peekLoop]. unfold deref. cbn [pool_block tx_pool]. rewrite Hbb.
    cbn [mbind outcome_bind wr rd set_wr y1 set_data]. rewrite Nat.sub_0_r, (proj2 (Nat.ltb_lt _ _)) by lia.
    unfold readable. cbn [wr rd data set_wr y1 set_data]. rewrite !drop_0, Nat.sub_0_r, take_app_length. done.
  - cbn [next set_wr y1 set_data tail]. apply (sendMessage_tail pc _ b2 y _ _ m2 Hbc); [rewrite Hdy; exact Hy1 | rewrite Hwy; cbn; lia | done].
  - cbn [sizeBytes head tail]. split; [done|]. split; [|split; done].
    assert (Hl2 : (0 < length m2)%nat) by (destruct m2; [done | cbn; lia]).
    unfold peek. cbn [head sizeBytes]. rewrite (proj2 (Nat.leb_gt _ _)) by (cbn; lia). apply (peekLoop_free _ _ (b3 :: l)).
    + unfold pc, pb. repeat (apply free_insert; [exact Hn2|]). exact Hfa.
    + cbn in Hl |- *. lia.
Qed.

(** ** The pieces of a message *)

(** A message written piece by piece, each into the span reserved for it, as
    the builders of messages do. They commit nothing. *)
Fixpoint writePieces (p : TxBufferPool) (t : TxBuffer) (l : list bytes) : outcome (TxBufferPool * TxBuffer) :=
  match l with
  | [] => Ret (p, t)
  | m :: l =>
      '(p, t, s) ← reserveSpan p t (length m);
      match s with
      | None => UB
      | Some s => p ← writeSpan p s m; writePieces p t l
      end
  end.

(** Each piece written over what is there. *)
Definition overlay (d : bytes) (l : list bytes) : bytes := fold_left (fun d m => m ++ drop (length m) d) l d.

Lemma overlay_length l d : Forall (fun m => length m <= length d)%nat l -> length (overlay d l) = length d.
Proof.
  unfold overlay. revert d. induction l as [|m l IH]; intros d Hl; [done|]. apply Forall_cons in Hl as [Hm Hl]. cbn [fold_left].
  assert (E : length (m ++ drop (length m) d) = length d) by (rewrite length_app, length_drop; lia). rewrite IH, E; [done|]. by rewrite E.
Qed.

(** A piece that fits is written at the cursor of the tail, which stays. *)
Lemma write_piece p t b x m :
  hasPool t = true -> tail t = Some b -> store p !! b = Some x -> length (data x) = blockSize (cfg p) -> (wr x + length m <= blockSize (cfg p))%nat ->
  exists p', (forall l, writePieces p t (m :: l) = writePieces p' t l) /\ cfg p' = cfg p /\ freeList p' = freeList p /\
    (forall c, store p' !! c = if decide (c = b) then Some (set_data x (take (wr x) (data x) ++ m ++ drop (wr x + length m) (data x))) else store p !! c).
Proof.
  intros Hp Ht Hb Hd Hm. assert (Hdr : deref p b = Ret x) by (unfold deref; cbn; rewrite Hb; done).
  exists (set_block p b (set_data x (take (wr x) (data x) ++ m ++ drop (wr x + length m) (data x)))). split; [|split; [done|split; [done|]]].
  - intros l. cbn [writePieces]. unfold reserveSpan, slackOf. rewrite Hp, Ht. cbn [negb mbind outcome_bind]. rewrite Ht, Hdr. cbn [mbind outcome_bind pool_blockSize tx_pool].
    rewrite (proj2 (Nat.ltb_ge _ _)) by lia. cbn [mbind outcome_bind]. rewrite Ht, Hdr. cbn [mbind outcome_bind].
    unfold writeSpan. cbn [sp_len sp_block sp_off]. rewrite (proj2 (Nat.ltb_ge _ _)) by lia. rewrite Hdr. done.
  - intros c. cbn. rewrite lookup_insert. repeat case_decide; congruence.
Qed.

(** Whatever the pieces of a message are, as long as each fits behind the
    cursor of the last block: every one is written at that same cursor, over
    the ones before it, so that of a message no more is left in memory than its
    last piece and what longer ones before it have left behind that; the
    cursor, the bytes that can be read and their number are what they were,
    and no block is taken. *)
Theorem pieces_overlap (p : TxBufferPool) (t : TxBuffer) (b : nat) (x : Block) (l : list bytes) :
  hasPool t = true -> tail t = Some b -> store p !! b = Some x -> length (data x) = blockSize (cfg p) ->
  (rd x <= wr x)%nat -> Forall (fun m => wr x + length m <= blockSize (cfg p))%nat l ->
  exists p' x', writePieces p t l = Ret (p', t) /\ freeList p' = freeList p /\
    (forall c, store p' !! c = if decide (c = b) then Some x' else store p !! c) /\
    drop (wr x) (data x') = overlay (drop (wr x) (data x)) l /\ rd x' = rd x /\ wr x' = wr x /\ readable x' = readable x.
Proof.
  intros Hp Ht. revert p x. induction l as [|m l IH]; intros p x Hb Hd Hr Hl.
  - exists p, x. split; [done|]. split; [done|]. split; [intros c; case_decide; congruence|]. done.
  - apply Forall_cons in Hl as [Hm Hl]. destruct (write_piece p t b x m Hp Ht Hb Hd Hm) as (p1 & E & Ec & Ef & Es).
    set (x1 := set_data x _) in Es. assert (Hx1 : store p1 !! b = Some x1) by (rewrite Es, decide_True; done).
    assert (Hlt : length (take (wr x) (data x)) = wr x) by (rewrite length_take; lia).
    assert (Hd1 : length (data x1) = blockSize (cfg p1)).
    { unfold x1. cbn [data set_data]. rewrite Ec, !length_app, Hlt, length_drop. lia. }
    destruct (IH p1 x1 Hx1 Hd1 Hr) as (p' & x' & E' & Ef' & Es' & Ho & Erd & Ewr & Ere); [by rewrite Ec|].
    exists p', x'. rewrite E. split; [exact E'|]. split; [congruence|]. split; [intros c; rewrite Es', Es; case_decide; done|].
    split; [|split; [exact Erd|split; [exact Ewr|]]].
    + change (wr x1) with (wr x) in Ho. rewrite Ho. unfold x1. cbn [data set_data overlay fold_left].
      rewrite drop_app_ge, Hlt, Nat.sub_diag, drop_0 by lia. rewrite drop_drop. done.
    + rewrite Ere. unfold readable, x1. cbn [data set_data rd wr]. rewrite drop_app_le by (rewrite Hlt; lia).
      rewrite take_app_le by (rewrite length_drop, Hlt; lia). rewrite take_drop_commute, take_take. 
      replace (rd x + (wr x - rd x))%nat with (wr x) by lia. rewrite Nat.min_id. rewrite take_drop_commute. f_equal. f_equal. lia.
Qed.

End Pool.

(** ** Concrete pools *)

Definition demo_block (n : option nat) : Block := mkBlock 0 n 0 0 (replicate 256 0).

(** Three blocks of a pool of at most four, all free. *)
Definition demo_pool : TxBufferPool :=
  mkPool (mkPoolConfig 256 3 4) {[0%nat := demo_block (Some 1%nat); 1%nat := demo_block (Some 2%nat); 2%nat := demo_block None]} (Some 0%nat) 3.

Lemma demo_pool_free : free demo_pool (freeList demo_pool) [0; 1; 2]%nat.
Proof. repeat (split; [reflexivity|]; split; [exists (replicate 256 0); split; reflexivity|]). reflexivity. Qed.

Lemma demo_pool_nodup : NoDup [0; 1; 2]%nat.
Proof. by_compute. Qed.

Lemma pop_skips_a_block_witness :
  exists p', pop (fun _ _ => 0) (fun _ => true) demo_pool = Ret (p', Some 1%nat) /\
    exists d, store p' !! 1%nat = Some (mkBlock 0 (Some 2%nat) 0 0 d).
Proof.
  destruct (pop_skips_a_block (fun _ _ => 0) (fun _ => true) demo_pool 0 [1; 2]%nat demo_pool_free demo_pool_nodup)
    as (p' & _ & _ & _ & Hp & Hd). exists p'. split; [exact Hp | exact Hd].
Defined.

#[local] Instance demo_ops : BlockPool TxBufferPool := tx_pool (fun _ _ => 0) (fun _ => true).

(** The pool of the default block size. *)
Definition demo_new : TxBufferPool := TxBufferPool_new (mkPoolConfig 0 4 2).

Lemma pool_exhausts_witness :
  exists p b, pop (fun _ _ => 0) (fun _ => true) demo_new = Ret (p, Some b) /\ (2 * 1 <= 2)%nat.
Proof.
  destruct (pop (fun _ _ => 0) (fun _ => true) demo_new) as [[p [b|]]| |] eqn:E; [|vm_compute in E; discriminate..].
  exists p, b. split; [reflexivity|].
  apply (pool_exhausts (fun _ _ => 0) (fun _ => true) (mkPoolConfig 0 4 2) p [b] 1); [|discriminate].
  eapply run_pop; [apply run_new | exact E].
Defined.

Lemma second_message_stuck_witness :
  exists p1 t1 p2 t2 p3 t3,
    sendMessage (fun _ _ => 0) (fun _ => true) demo_pool TxBufferPool_acquire [1; 2; 3] = Ret (p1, t1) /\
    consume p1 t1 3 = Ret (p2, t2, 3%nat) /\
    sendMessage (fun _ _ => 0) (fun _ => true) p2 t2 [4; 5] = Ret (p3, t3) /\ sizeBytes t3 = 2%nat /\ peek p3 t3 0 = Ret [].
Proof.
  destruct (second_message_stuck (fun _ _ => 0) (fun _ => true) demo_pool 0 1 2 [] [1; 2; 3] [4; 5] demo_pool_free demo_pool_nodup)
    as (p1 & t1 & p2 & t2 & p3 & t3 & H1 & _ & H2 & H3 & H4 & H5 & _); [cbn; lia | done | done | cbn; lia |].
  exists p1, t1, p2, t2, p3, t3. split; [exact H1|]. split; [exact H2|]. split; [exact H3|]. split; [exact H4 | exact H5].
Defined.

(** The second piece is written over the first. *)
Lemma pieces_overlap_witness :
  exists p' x', writePieces (fun _ _ => 0) (fun _ => true) demo_pool (mkTx true (Some 0%nat) (Some 0%nat) 0 256) [[1; 2; 3]; [9]] =
      Ret (p', mkTx true (Some 0%nat) (Some 0%nat) 0 256) /\
    take 3 (drop 0 (data x')) = [9; 2; 3] /\ readable x' = [].
Proof.
  destruct (pieces_overlap (fun _ _ => 0) (fun _ => true) demo_pool (mkTx true (Some 0%nat) (Some 0%nat) 0 256) 0 (demo_block (Some 1%nat)) [[1; 2; 3]; [9]]
    eq_refl eq_refl) as (p' & x' & H1 & _ & _ & H2 & _ & _ & H3); [reflexivity | reflexivity | cbn; lia | by_compute|].
  exists p', x'. split; [exact H1|]. change (wr (demo_block (Some 1%nat))) with 0%nat in H2. rewrite H2. split; [reflexivity | exact H3].
Defined.
