(* ===== verification/RxBuffer.v ===== *)
(** * RxBuffer: what a TCP connection has received and not yet consumed
    (transport/tcp/rx/RxBuffer.cpp, RxConsumer.cpp, transport/tcp/TcpEngine.cpp)

    A receive hands the bytes of one [recv] to the protocol through a consumer,
    which the protocol asks for a view and tells how much it has processed;
    what it leaves is to be shown again before the bytes of the next [recv].
    The specification is the stream itself: the bytes received and not
    processed yet, [pending], in front of every new chunk. *)

From S2P Require Import Prelude.

(** [transport/tcp/rx/RxBuffer.h:76-80] RxBuffer::Mode *)
Inductive Mode := RAW | BUFFERED.

#[export] Instance Mode_eq_dec : EqDecision Mode.
Proof. solve_decision. Defined.

(** [transport/tcp/rx/RxBuffer.h:118-120] RxBuffer: [raw] is what the span refers to *)
Record RxBuffer := mkRxBuffer { mode : Mode; raw : bytes; buf : bytes }.

(** [transport/tcp/rx/RxBuffer.cpp:10-11] RxBuffer::RxBuffer *)
Definition RxBuffer_new (recvSiz : nat) : RxBuffer := mkRxBuffer RAW [] (replicate recvSiz 0).

(** [transport/tcp/rx/RxConsumer.h:108-110] RxConsumer *)
Record RxConsumer := mkRxConsumer { bufferRx : bytes; rxView : bytes; consumed : nat }.

(** [transport/tcp/rx/RxConsumer.cpp:11-12] RxConsumer::RxConsumer *)
Definition RxConsumer_new (data : bytes) : RxConsumer := mkRxConsumer data data 0.

(** [transport/tcp/rx/RxConsumer.cpp:19-23] RxConsumer::commit: a view behind the end of the data is undefined *)
Definition RxConsumer_commit (n : nat) (c : RxConsumer) : outcome RxConsumer :=
  let k := (consumed c + n)%nat in
  if (length (bufferRx c) <? k)%nat then UB else Ret (mkRxConsumer (bufferRx c) (drop k (bufferRx c)) k).

(** [transport/tcp/rx/RxBuffer.cpp:33-47] RxBuffer::consume *)
Definition RxBuffer_consume (data : bytes) (b : RxBuffer) : RxBuffer * RxConsumer :=
  match mode b with
  | RAW => (mkRxBuffer RAW data (buf b), RxConsumer_new data)
  | BUFFERED => let buf' := buf b ++ data in (mkRxBuffer BUFFERED (raw b) buf', RxConsumer_new buf')
  end.

(** [transport/tcp/rx/RxBuffer.cpp:13-31] RxBuffer::commit: what is left over of raw data is counted as
    [actualConsumed - consumed] *)
Definition RxBuffer_commit (k : nat) (b : RxBuffer) : outcome RxBuffer :=
  match mode b with
  | BUFFERED =>
      let buf' := drop (Nat.min (length (buf b)) k) (buf b) in
      Ret (mkRxBuffer (if decide (buf' = []) then RAW else BUFFERED) (raw b) buf')
  | RAW =>
      let actualConsumed := Nat.min k (length (raw b)) in
      if decide (actualConsumed = length (raw b)) then Ret b
      else
        let unconsumed := Z.to_nat (u64 (Z.of_nat actualConsumed - Z.of_nat k)) in
        if (length (raw b) <? k + unconsumed)%nat then UB
        else Ret (mkRxBuffer BUFFERED (raw b) (take unconsumed (drop k (raw b))))
  end.

(** [transport/tcp/rx/RxConsumer.cpp:30-33] RxConsumer::~RxConsumer *)
Definition RxConsumer_destroy (c : RxConsumer) (b : RxBuffer) : outcome RxBuffer := RxBuffer_commit (consumed c) b.

(** [transport/tcp/TcpEngine.cpp:889-892] TcpEngine::pump: one receive, with the bytes that came and the callback of the
    protocol, which works on the consumer *)
Definition deliver {A} (callback : RxConsumer -> outcome (A * RxConsumer)) (data : bytes) (b : RxBuffer) : outcome (A * RxBuffer) :=
  let '(b, c) := RxBuffer_consume data b in
  '(a, c) ← callback c;
  b ← RxConsumer_destroy c b;
  Ret (a, b).

(** ** The stream *)

(** The bytes kept for the next receive. *)
Definition pending (b : RxBuffer) : bytes := match mode b with RAW => [] | BUFFERED => buf b end.

(** What a consumer is in the hands of the protocol: a view of the rest. *)
Definition consumer_ok (c : RxConsumer) : Prop :=
  (consumed c <= length (bufferRx c))%nat /\ rxView c = drop (consumed c) (bufferRx c).

Lemma RxConsumer_new_ok data : consumer_ok (RxConsumer_new data).
Proof. split; [cbn; lia | done]. Qed.

Lemma RxConsumer_commit_ok n c :
  consumer_ok c -> (n <= length (rxView c))%nat ->
  exists c', RxConsumer_commit n c = Ret c' /\ consumer_ok c' /\ bufferRx c' = bufferRx c /\
    consumed c' = (consumed c + n)%nat /\ rxView c' = drop n (rxView c).
Proof.
  intros [Hc Hv] Hn. rewrite Hv, length_drop in Hn. unfold RxConsumer_commit. rewrite (proj2 (Nat.ltb_ge _ _)) by lia.
  eexists. split; [reflexivity|]. cbn [bufferRx rxView consumed]. split; [split; cbn [bufferRx rxView consumed]; [lia | done]|].
  split; [done|]. split; [done|]. rewrite Hv, drop_drop. done.
Qed.

Lemma RxConsumer_commit_past n c :
  consumer_ok c -> (length (rxView c) < n)%nat -> RxConsumer_commit n c = UB.
Proof.
  intros [Hc Hv] Hn. rewrite Hv, length_drop in Hn. unfold RxConsumer_commit. rewrite (proj2 (Nat.ltb_lt _ _)) by lia. done.
Qed.

Lemma RxConsumer_commit_0 c : consumer_ok c -> RxConsumer_commit 0 c = Ret c.
Proof.
  destruct c as [d v k]. intros [Hk Hv]. cbn in Hk, Hv. unfold RxConsumer_commit. cbn [consumed bufferRx]. rewrite Nat.add_0_r, (proj2 (Nat.ltb_ge _ _)) by done.
  rewrite Hv. done.
Qed.

(** Commits add up. *)
Lemma RxConsumer_commit_commit a b c c' :
  RxConsumer_commit a c = Ret c' -> RxConsumer_commit b c' = RxConsumer_commit (a + b) c.
Proof.
  unfold RxConsumer_commit. destruct (_ <? _)%nat; [done|]. intros [= <-]. cbn. rewrite Nat.add_assoc. done.
Qed.

(** What is left over is kept when the buffer was in use, and lost when it was
    not. *)
Lemma RxBuffer_commit_spec data b k :
  let b1 := fst (RxBuffer_consume data b) in
  (k <= length (pending b ++ data))%nat ->
  exists b', RxBuffer_commit k b1 = Ret b' /\
    pending b' = match mode b with RAW => [] | BUFFERED => drop k (pending b ++ data) end /\
    (mode b' = RAW <-> k = length (pending b ++ data)).
Proof.
  intros b1 Hk. unfold RxBuffer_commit, b1, RxBuffer_consume, pending in *. destruct (mode b); cbn [fst mode raw buf app] in *.
  - rewrite Nat.min_l by done. case_decide as E; [exists (mkRxBuffer RAW data (buf b)); done|].
    rewrite Z.sub_diag. change (Z.to_nat (u64 0)) with 0%nat. rewrite (proj2 (Nat.ltb_ge _ _)) by lia.
    eexists. split; [reflexivity|]. cbn [mode buf]. split; [done|]. split; [done | lia].
  - rewrite Nat.min_r by done. eexists. split; [reflexivity|]. cbn [mode buf]. case_decide as E.
    + split; [done|]. apply (f_equal length) in E. rewrite length_drop in E. cbn in E. split; [lia | done].
    + split; [done|]. split; [done|]. intros ->. exfalso. apply E. rewrite drop_all. done.
Qed.

(** A callback that processes [k] bytes of what it is shown. *)
Definition processes {A} (callback : RxConsumer -> outcome (A * RxConsumer)) (view : bytes) (k : nat) (a : A) : Prop :=
  (k <= length view)%nat /\
  exists c, callback (RxConsumer_new view) = Ret (a, c) /\ consumed c = k.

Lemma deliver_spec {A} (callback : RxConsumer -> outcome (A * RxConsumer)) data b k a :
  processes callback (pending b ++ data) k a ->
  exists b', deliver callback data b = Ret (a, b') /\
    pending b' = match mode b with RAW => [] | BUFFERED => drop k (pending b ++ data) end /\
    (mode b' = RAW <-> k = length (pending b ++ data)).
Proof.
  intros [Hk (c & Hc & <-)]. destruct (RxBuffer_commit_spec data b (consumed c) Hk) as (b' & Hb & Hp & Hm).
  exists b'. split; [|done]. unfold deliver. destruct (RxBuffer_consume data b) as [b1 c1] eqn:E.
  assert (c1 = RxConsumer_new (pending b ++ data)) as ->.
  { unfold RxBuffer_consume, pending in *. destruct (mode b); injection E as <- <-; done. }
  rewrite Hc, outcome_bind_ret_l. unfold RxConsumer_destroy. cbn [fst] in Hb. rewrite Hb. done.
Qed.
