(* ===== verification/BgpRx.v ===== *)
(** * BgpRx: receiving BGP messages (routing/bgp/transport/BgpRx.cpp, BgpRx.h)

    The stream of a connection is cut into messages, each is handed to the
    handler of its type, errors become NOTIFICATIONs and events of the state
    machine. The framing is stated for any session behind the interface
    [RxSession], and for any handlers. *)

From S2P Require Import Prelude BgpFsm RxBuffer ByteUtils IPAddress BestPath AttributeManager.

(** ** Messages *)

(** [packet/headers/BgpHeader.hpp:227-232] BgpHeaderRaw: the fixed size of a header *)
Definition headerSize : nat := 19.
(** [routing/bgp/BgpTypes.hpp:18-18] kMaxMessageLen *)
Definition kMaxMessageLen : Z := 4096.
(** [routing/bgp/BgpTypes.hpp:19-19] kExtendedMessageLen *)
Definition kExtendedMessageLen : Z := 65535.
(** [packet/headers/BgpHeader.hpp:213-216] BGP_MARKER *)
Definition BGP_MARKER : bytes := replicate 16 255.

(** [routing/bgp/BgpTypes.hpp:99-103] Notification *)
Record Notification := mkNotification { code : Z; data : bytes }.

Definition NoError : Notification := mkNotification 0 [].

(** A span of the receive buffer: what lies from its start to the end of the
    buffer, and its size. Reading past the size reads what follows. *)
Record span := mkSpan { sp_ptr : bytes; sp_size : nat }.

Definition span_bytes (p : span) : bytes := take (sp_size p) (sp_ptr p).

(** What the receiver asks of a session. *)
Class RxSession (S : Type) := {
  extendedMessage : S -> bool;
  asn32bit : S -> bool;
  attrDiscard : S -> Z -> bool;
  attrWithdraw : S -> Z -> bool;
  sendNotification : Notification -> S -> S;
  postEvent : FsmEvent -> S -> S
}.

(** The handlers of the five message types: the session, whether the message
    was good, and the error if not. *)
Record Handlers (S : Type) := mkHandlers {
  processOpen : span -> S -> outcome (S * bool * Notification);
  processUpdate : span -> S -> outcome (S * bool * Notification);
  processNotification : span -> S -> outcome (S * bool * Notification);
  processKeepalive : span -> S -> outcome (S * bool * Notification);
  processRouteRefresh : span -> S -> outcome (S * bool * Notification)
}.
Arguments mkHandlers {S}.
Arguments processOpen {S}.
Arguments processUpdate {S}.
Arguments processNotification {S}.
Arguments processKeepalive {S}.
Arguments processRouteRefresh {S}.

Section Framing.
  Context {S : Type} `{RxSession S} (h : Handlers S).

(** [routing/bgp/transport/BgpRx.cpp:32-36] BgpRx::handleIncoming: an error in the header *)
Definition headerError (e : Notification) (s : S) : S := postEvent BGP_HEADER_ERR (sendNotification e s).

(** [routing/bgp/transport/BgpRx.cpp:81-88] BgpRx::handleIncoming: what a failed handler leads to *)
Definition reportError (ev : option FsmEvent) (r : S * bool * Notification) : S * bool :=
  let '(s, ok, e) := r in
  if ok : bool then (s, true)
  else let s := sendNotification e s in (match ev with Some ev => postEvent ev s | None => s end, false).

(** [routing/bgp/transport/BgpRx.cpp:76-131] BgpRx::handleIncoming, the switch: [None] for an unknown type *)
Definition dispatch (type : Z) (payload : span) (s : S) : outcome (option (S * bool)) :=
  if type =? 1 then Some ∘ reportError (Some BGP_OPEN_MSG_ERR) <$> processOpen h payload s
  else if type =? 2 then Some ∘ reportError (Some UPDATE_MSG_ERR) <$> processUpdate h payload s
  else if type =? 3 then (fun r => Some r.1) <$> processNotification h payload s
  else if type =? 4 then Some ∘ reportError (Some BGP_HEADER_ERR) <$> processKeepalive h payload s
  else if type =? 5 then Some ∘ reportError None <$> processRouteRefresh h payload s
  else Ret None.

(** [routing/bgp/transport/BgpRx.cpp:56-58] BgpRx::handleIncoming: the longest message accepted *)
Definition maxLen (s : S) : Z := if extendedMessage s then kExtendedMessageLen else kMaxMessageLen.

(** [routing/bgp/transport/BgpRx.cpp:23-135] BgpRx::handleIncoming, the loop: the fuel is more than the messages there
    can be; another turn would read a header that is not there *)
Fixpoint handleLoop (fuel : nat) (s : S) (c : RxConsumer) : outcome (S * RxConsumer) :=
  match fuel with
  | O => UB
  | Datatypes.S fuel =>
      let view := rxView c in
      if (length view <? headerSize)%nat then Ret (s, c)
      else if decide (take 16 view = BGP_MARKER) then
        len ← readU16 (drop 16 view);
        let badLength := headerError (mkNotification 0x0102 (be_encode 2 len)) s in
        if len <? Z.of_nat headerSize then Ret (badLength, c)
        else if maxLen s <? len then Ret (badLength, c)
        else if Z.of_nat (length view) <? len then Ret (s, c)
        else
          type ← Prelude.rd view 18;
          r ← dispatch type (mkSpan (drop headerSize view) (Z.to_nat len - headerSize)) s;
          match r with
          | None => Ret (headerError (mkNotification NOTIF_BAD_MESSAGE_TYPE [type]) s, c)
          | Some (s, ok) =>
              c ← RxConsumer_commit (Z.to_nat len) c;
              if ok : bool then handleLoop fuel s c else Ret (s, c)
          end
      else Ret (headerError (mkNotification 0x0101 []) s, c)
  end.

(** [routing/bgp/transport/BgpRx.cpp:19-136] BgpRx::handleIncoming *)
Definition handleIncoming (s : S) (c : RxConsumer) : outcome (S * RxConsumer) :=
  handleLoop (Datatypes.S (length (rxView c))) s c.

(** [routing/bgp/session/Session.cpp:409-413] Session::onReceiveCallback: what a receive of the connection leads to *)
Definition receive (s : S) (data : bytes) (b : RxBuffer) : outcome (S * RxBuffer) := deliver (handleIncoming s) data b.

(** What every handler and every report of an error preserves, a receive
    preserves. *)
Lemma handleLoop_preserves (P : S -> Prop) :
  (forall e s, P s -> P (headerError e s)) ->
  (forall t p s s' ok, P s -> dispatch t p s = Ret (Some (s', ok)) -> P s') ->
  forall fuel s c s' c', P s -> handleLoop fuel s c = Ret (s', c') -> P s'.
Proof.
  intros He Hd. induction fuel as [|fuel IH]; intros s c s' c' Hs; [discriminate|]. cbn [handleLoop].
  destruct (_ <? _)%nat; [intros [= <- _]; done|]. case_decide; [|intros [= <- _]; auto].
  intros (len & _ & Hk)%outcome_bind_ret_inv. revert Hk.
  destruct (_ <? _); [intros [= <- _]; auto|]. destruct (_ <? _); [intros [= <- _]; auto|].
  destruct (_ <? _); [intros [= <- _]; auto|].
  intros (t & _ & Hk)%outcome_bind_ret_inv. apply outcome_bind_ret_inv in Hk as (r & Hr & Hk). revert Hk.
  destruct r as [[s1 ok]|]; [|intros [= <- _]; auto].
  intros (c1 & _ & Hk)%outcome_bind_ret_inv. pose proof (Hd _ _ _ _ _ Hs Hr) as Hs1. destruct ok.
  - apply (IH s1 c1 s' c' Hs1 Hk).
  - injection Hk as <- _. done.
Qed.

Lemma receive_preserves (P : S -> Prop) s data b s' b' :
  (forall e s, P s -> P (headerError e s)) ->
  (forall t p s s' ok, P s -> dispatch t p s = Ret (Some (s', ok)) -> P s') ->
  P s -> receive s data b = Ret (s', b') -> P s'.
Proof.
  intros He Hd Hs. unfold receive, deliver. destruct (RxBuffer_consume data b) as [b1 c]. 
  intros ([s1 c1] & H1 & Hk)%outcome_bind_ret_inv. apply outcome_bind_ret_inv in Hk as (b2 & _ & [= <- _]).
  exact (handleLoop_preserves P He Hd _ _ _ _ _ Hs H1).
Qed.

(** ** What the stream says *)

(** A message on the wire. *)
Definition message (m : Z * bytes) : bytes :=
  BGP_MARKER ++ be_encode 2 (19 + Z.of_nat (length m.2)) ++ [m.1] ++ m.2.
Definition stream (ms : list (Z * bytes)) : bytes := concat (message <$> ms).

(** The messages [ms] are handled, one after the other, with [rest] behind
    them in the buffer. *)
Inductive handled : S -> list (Z * bytes) -> bytes -> S -> Prop :=
  | handled_nil s rest : handled s [] rest s
  | handled_cons s t body ms rest s1 s2 :
      19 + Z.of_nat (length body) <= maxLen s ->
      dispatch t (mkSpan (body ++ stream ms ++ rest) (length body)) s = Ret (Some (s1, true)) ->
      handled s1 ms rest s2 -> handled s ((t, body) :: ms) rest s2.

(** Why the receiver stops in front of [rest], what becomes of the session
    and how many bytes of [rest] are taken. *)
Inductive stops (s : S) (rest : bytes) : outcome (S * nat) -> Prop :=
  | stop_short : (length rest < headerSize)%nat -> stops s rest (Ret (s, 0%nat))
  | stop_marker : (headerSize <= length rest)%nat -> take 16 rest <> BGP_MARKER ->
      stops s rest (Ret (headerError (mkNotification 0x0101 []) s, 0%nat))
  | stop_length len r : (headerSize <= length rest)%nat -> rest = BGP_MARKER ++ be_encode 2 len ++ r -> in_width 16 len -> len < 19 \/ maxLen s < len ->
      stops s rest (Ret (headerError (mkNotification 0x0102 (be_encode 2 len)) s, 0%nat))
  | stop_incomplete len r : (headerSize <= length rest)%nat -> rest = BGP_MARKER ++ be_encode 2 len ++ r -> in_width 16 len -> 19 <= len <= maxLen s ->
      Z.of_nat (length rest) < len -> stops s rest (Ret (s, 0%nat))
  | stop_type t body rest' : rest = message (t, body) ++ rest' -> 19 + Z.of_nat (length body) <= maxLen s -> in_width 8 t -> ~ 1 <= t <= 5 ->
      stops s rest (Ret (headerError (mkNotification NOTIF_BAD_MESSAGE_TYPE [t]) s, 0%nat))
  | stop_failed t body rest' s1 : rest = message (t, body) ++ rest' -> 19 + Z.of_nat (length body) <= maxLen s ->
      dispatch t (mkSpan (body ++ rest') (length body)) s = Ret (Some (s1, false)) ->
      stops s rest (Ret (s1, length (message (t, body))))
  | stop_undefined t body rest' : rest = message (t, body) ++ rest' -> 19 + Z.of_nat (length body) <= maxLen s ->
      dispatch t (mkSpan (body ++ rest') (length body)) s = UB -> stops s rest UB
  | stop_throw t body rest' e : rest = message (t, body) ++ rest' -> 19 + Z.of_nat (length body) <= maxLen s ->
      dispatch t (mkSpan (body ++ rest') (length body)) s = Throw e -> stops s rest (Throw e).

(** The loop, in one equation: it gives what the stop gives, having taken the
    messages before it. *)
Definition loop_result (ms : list (Z * bytes)) (o : outcome (S * nat)) (c : RxConsumer) : outcome (S * RxConsumer) :=
  r ← o; c' ← RxConsumer_commit (length (stream ms) + r.2) c; Ret (r.1, c').

(** A complete message at the front of a view. *)
Lemma view_message view len :
  is_bytes view -> (headerSize <= length view)%nat -> take 16 view = BGP_MARKER -> readU16 (drop 16 view) = Ret len ->
  in_width 16 len /\ view = BGP_MARKER ++ be_encode 2 len ++ drop 18 view.
Proof.
  intros Hb Hl Hm Hr. unfold headerSize in Hl. rewrite readU16_spec in Hr by (auto with width; rewrite length_drop; lia). injection Hr as <-.
  split.
  - apply be_decode_take_in_width; [auto with width | rewrite length_drop; lia | lia].
  - rewrite <- Hm. assert (length (take 2 (drop 16 view)) = 2%nat) as E by (rewrite length_take, length_drop; lia).
    pose proof (be_encode_decode (take 2 (drop 16 view)) ltac:(auto with width)) as K. rewrite E in K. rewrite K. rewrite <- (drop_drop view 2 16) at 1. rewrite take_drop, take_drop. done.
Qed.

Lemma drop18_message view len type :
  is_bytes view -> Z.of_nat headerSize <= len -> len <= Z.of_nat (length view) -> Prelude.rd view 18 = Ret type ->
  let body := take (Z.to_nat len - headerSize) (drop headerSize view) in
  in_width 8 type /\ Z.of_nat (length body) = len - 19 /\ drop 18 view = [type] ++ body ++ drop (Z.to_nat len) view.
Proof.
  intros Hb H1 H2 Hr body. unfold headerSize in *. unfold Prelude.rd in Hr. destruct (view !! 18%nat) as [t|] eqn:E; [|done]. injection Hr as <-.
  split; [eapply Forall_lookup_1; [exact Hb | exact E]|]. split; [unfold body; rewrite length_take, length_drop; lia|].
  erewrite drop_S by exact E. cbn [app]. f_equal. rewrite <- (take_drop (Z.to_nat len - 19) (drop 19 view)) at 1.
  fold body. rewrite drop_drop. do 2 f_equal. lia.
Qed.

Lemma length_message m : length (message m) = (19 + length m.2)%nat.
Proof. unfold message. rewrite !length_app, be_encode_length. cbn. lia. Qed.

Lemma handleLoop_framing fuel s c :
  consumer_ok c -> is_bytes (rxView c) -> (length (rxView c) < fuel)%nat ->
  exists ms rest s1 o, rxView c = stream ms ++ rest /\ handled s ms rest s1 /\ stops s1 rest o /\
    handleLoop fuel s c = loop_result ms o c.
Proof.
  revert s c. induction fuel as [|fuel IH]; intros s c Hc Hb Hf; [lia|]. cbn [handleLoop]. set (view := rxView c) in *.
  assert (Hnone : forall s' o, stops s view o -> o = Ret (s', 0%nat) ->
    exists ms rest s1 o, view = stream ms ++ rest /\ handled s ms rest s1 /\ stops s1 rest o /\ Ret (s', c) = loop_result ms o c).
  { intros s' o Hs ->. exists [], view, s, (Ret (s', 0%nat)). split; [done|]. split; [constructor|]. split; [done|].
    unfold loop_result. cbn. rewrite (RxConsumer_commit_0 c Hc). done. }
  destruct (Nat.ltb_spec (length view) headerSize) as [Hlen|Hlen]; [eapply Hnone; [apply stop_short; done | done]|].
  case_decide as Hm; [|eapply Hnone; [apply stop_marker; done | done]].
  pose proof (readU16_spec (drop 16 view) ltac:(auto with width) ltac:(rewrite length_drop; unfold headerSize in Hlen; lia)) as Er.
  set (len := be_decode _) in Er. rewrite Er, outcome_bind_ret_l. destruct (view_message view len Hb Hlen Hm Er) as [Hlw Hv].
  destruct (Z.ltb_spec len (Z.of_nat headerSize)) as [H19|H19]; [eapply Hnone; [eapply stop_length; [exact Hlen | exact Hv | done | left; exact H19] | done]|].
  destruct (Z.ltb_spec (maxLen s) len) as [Hmax|Hmax]; [eapply Hnone; [eapply stop_length; [exact Hlen | exact Hv | done | right; exact Hmax] | done]|].
  destruct (Z.ltb_spec (Z.of_nat (length view)) len) as [Hinc|Hinc].
  { eapply Hnone; [eapply stop_incomplete; [exact Hlen | exact Hv | done | unfold headerSize in H19; lia | done] | done]. }
  destruct (Prelude.rd view 18) as [type| |] eqn:Et;
    [|exfalso; unfold Prelude.rd in Et; destruct (view !! 18%nat); done
     |exfalso; unfold Prelude.rd in Et; destruct (view !! 18%nat) eqn:E; [done|]; apply lookup_ge_None in E; unfold headerSize in Hlen; lia].
  rewrite outcome_bind_ret_l. destruct (drop18_message view len type Hb H19 Hinc Et) as (Htw & Hbl & Hd).
  set (body := take (Z.to_nat len - headerSize) (drop headerSize view)) in *. set (tail := drop (Z.to_nat len) view) in *.
  assert (Hview : view = message (type, body) ++ tail).
  { rewrite Hv, Hd. unfold message. cbn [fst snd]. replace (19 + Z.of_nat (length body)) with len by lia. rewrite <- !app_assoc. done. }
  assert (Hpay : mkSpan (drop headerSize view) (Z.to_nat len - headerSize) = mkSpan (body ++ tail) (length body)).
  { f_equal; [|unfold headerSize in *; lia]. unfold headerSize. change 19%nat with (18 + 1)%nat. rewrite <- drop_drop, Hd. done. }
  rewrite Hpay. assert (Hml : 19 + Z.of_nat (length body) <= maxLen s) by lia.
  destruct (dispatch type (mkSpan (body ++ tail) (length body)) s) as [[[s1 ok]|]|e|] eqn:Ed; cbn [mbind outcome_bind].
  - assert (Hcl : (Z.to_nat len <= length (rxView c))%nat) by (fold view; lia).
    destruct (RxConsumer_commit_ok (Z.to_nat len) c Hc Hcl) as (c1 & Hc1 & Hok1 & _ & _ & Hv1). fold view in Hv1. fold tail in Hv1.
    rewrite Hc1. cbn [mbind outcome_bind]. assert (Hm1 : length (message (type, body)) = Z.to_nat len) by (rewrite length_message; cbn [snd]; unfold headerSize in *; lia).
    destruct ok.
    + destruct (IH s1 c1 Hok1) as (ms & rest & s2 & o & E1 & E2 & E3 & E4).
      * rewrite Hv1. apply is_bytes_drop, Hb.
      * rewrite Hv1. unfold tail. rewrite length_drop. unfold headerSize in *. lia.
      * rewrite Hv1 in E1. exists ((type, body) :: ms), rest, s2, o. split; [|split; [|split; [exact E3|]]].
        -- rewrite Hview, E1. unfold stream. cbn [fmap list_fmap concat]. rewrite <- app_assoc. done.
        -- eapply handled_cons; [exact Hml | rewrite <- E1; exact Ed | exact E2].
        -- rewrite E4. unfold loop_result. destruct o as [[s3 k]| |]; cbn [mbind outcome_bind snd fst]; [|done..].
           rewrite (RxConsumer_commit_commit _ _ _ _ Hc1). unfold stream. cbn [fmap list_fmap concat]. rewrite length_app, Hm1.
           rewrite Nat.add_assoc. done.
    + exists [], view, s, (Ret (s1, length (message (type, body)))). split; [done|]. split; [constructor|].
      split; [eapply stop_failed; [exact Hview | exact Hml | exact Ed]|]. unfold loop_result. cbn [mbind outcome_bind stream fmap list_fmap concat length Nat.add snd fst].
      rewrite Hm1, Hc1. done.
  - eapply Hnone; [eapply stop_type; [exact Hview | exact Hml | exact Htw|] | done].
    intros Ht. unfold dispatch in Ed. assert (type = 1 \/ type = 2 \/ type = 3 \/ type = 4 \/ type = 5) as [->|[->|[->|[->| ->]]]] by lia; cbn in Ed;
      [destruct (processOpen h _ s) | destruct (processUpdate h _ s) | destruct (processNotification h _ s) | destruct (processKeepalive h _ s) | destruct (processRouteRefresh h _ s)]; discriminate.
  - exists [], view, s, (Throw e). split; [done|]. split; [constructor|]. split; [eapply stop_throw; [exact Hview | exact Hml | exact Ed] | done].
  - exists [], view, s, UB. split; [done|]. split; [constructor|]. split; [eapply stop_undefined; [exact Hview | exact Hml | exact Ed] | done].
Qed.

(** The length field of a header. *)
Lemma header_length len r :
  is_bytes (BGP_MARKER ++ be_encode 2 len ++ r) -> in_width 16 len -> readU16 (drop 16 (BGP_MARKER ++ be_encode 2 len ++ r)) = Ret len.
Proof.
  intros Hb Hl. change (drop 16 (BGP_MARKER ++ be_encode 2 len ++ r)) with (be_encode 2 len ++ r) in *. apply Forall_app in Hb as [_ Hb].
  rewrite readU16_spec by (done || (rewrite length_app, be_encode_length; lia)).
  rewrite take_app_le, take_ge by (rewrite be_encode_length; lia). rewrite be_decode_encode. f_equal. apply wrap_small, Hl.
Qed.

Lemma handleLoop_header fuel s c rest len r :
  rxView c = rest -> is_bytes rest -> rest = BGP_MARKER ++ be_encode 2 len ++ r -> in_width 16 len -> (headerSize <= length rest)%nat ->
  handleLoop (Datatypes.S fuel) s c =
    (if len <? Z.of_nat headerSize then Ret (headerError (mkNotification 0x0102 (be_encode 2 len)) s, c)
     else if maxLen s <? len then Ret (headerError (mkNotification 0x0102 (be_encode 2 len)) s, c)
     else if Z.of_nat (length rest) <? len then Ret (s, c)
     else
       type ← Prelude.rd rest 18;
       r ← dispatch type (mkSpan (drop headerSize rest) (Z.to_nat len - headerSize)) s;
       match r with
       | None => Ret (headerError (mkNotification NOTIF_BAD_MESSAGE_TYPE [type]) s, c)
       | Some (s, ok) =>
           c ← RxConsumer_commit (Z.to_nat len) c; if ok : bool then handleLoop fuel s c else Ret (s, c)
       end).
Proof.
  intros Hv Hb Hr Hw Hl. cbn [handleLoop]. rewrite Hv, (proj2 (Nat.ltb_ge _ _)) by done.
  case_decide as Hm; [|destruct Hm; rewrite Hr; done]. subst rest. rewrite Hr in *. rewrite header_length by done. done.
Qed.

Lemma handleLoop_message fuel s c t body rest :
  consumer_ok c -> rxView c = message (t, body) ++ rest -> is_bytes (rxView c) -> 19 + Z.of_nat (length body) <= maxLen s ->
  handleLoop (Datatypes.S fuel) s c =
    (r ← dispatch t (mkSpan (body ++ rest) (length body)) s;
     match r with
     | None => Ret (headerError (mkNotification NOTIF_BAD_MESSAGE_TYPE [t]) s, c)
     | Some (s, ok) =>
         c ← RxConsumer_commit (length (message (t, body))) c; if ok : bool then handleLoop fuel s c else Ret (s, c)
     end).
Proof.
  intros Hc Hv Hb Hm. set (len := 19 + Z.of_nat (length body)) in *. assert (Hw : in_width 16 len).
  { split; [lia|]. unfold maxLen, kExtendedMessageLen, kMaxMessageLen in Hm. destruct (extendedMessage s); lia. }
  rewrite Hv in Hb. assert (Hl : length (rxView c) = (19 + length body + length rest)%nat) by (rewrite Hv, length_app, length_message; done).
  assert (Hb2 : is_bytes (BGP_MARKER ++ be_encode 2 len ++ [t] ++ body ++ rest)) by (unfold message in Hb; rewrite <- !app_assoc in Hb; exact Hb).
  rewrite (handleLoop_header fuel s c (rxView c) len ([t] ++ body ++ rest) eq_refl);
    [|rewrite Hv; done | rewrite Hv; unfold message; cbn [fst snd]; rewrite <- !app_assoc; done | done | unfold headerSize; lia].
  rewrite (proj2 (Z.ltb_ge _ _)) by (unfold headerSize; lia). rewrite (proj2 (Z.ltb_ge _ _)) by lia. rewrite (proj2 (Z.ltb_ge _ _)) by lia.
  assert (Ht : Prelude.rd (rxView c) 18 = Ret t) by (rewrite Hv; done). rewrite Ht, outcome_bind_ret_l.
  assert (Hd : drop headerSize (rxView c) = body ++ rest) by (rewrite Hv; done). rewrite Hd.
  replace (Z.to_nat len - headerSize)%nat with (length body) by (unfold headerSize; lia).
  rewrite length_message. cbn [snd]. replace (Z.to_nat len) with (19 + length body)%nat by lia. done.
Qed.

Lemma stop_loop fuel s c rest o :
  consumer_ok c -> rxView c = rest -> is_bytes rest -> stops s rest o -> handleLoop (Datatypes.S fuel) s c = loop_result [] o c.
Proof.
  intros Hc Hv Hb Hs. assert (Hret : forall s', Ret (s', c) = loop_result [] (Ret (s', 0%nat)) c).
  { intros s'. unfold loop_result. cbn. rewrite (RxConsumer_commit_0 c Hc). done. }
  assert (Hmsg : forall t body rest', rest = message (t, body) ++ rest' -> 19 + Z.of_nat (length body) <= maxLen s ->
    handleLoop (Datatypes.S fuel) s c = (r ← dispatch t (mkSpan (body ++ rest') (length body)) s;
     match r with
     | None => Ret (headerError (mkNotification NOTIF_BAD_MESSAGE_TYPE [t]) s, c)
     | Some (s, ok) => c ← RxConsumer_commit (length (message (t, body))) c; if ok : bool then handleLoop fuel s c else Ret (s, c)
     end)).
  { intros t body rest' Hr Hl. apply handleLoop_message; [done | congruence | congruence | done]. }
  destruct Hs as [Hl|Hl Hm|len r Hl0 Hr Hw Hl|len r Hl0 Hr Hw Hl Hi|t body rest' Hr Hl Hw Ht|t body rest' s1 Hr Hl Hd|t body rest' Hr Hl Hd|t body rest' e Hr Hl Hd];
    try (rewrite (Hmsg _ _ _ Hr Hl)).
  - cbn [handleLoop]. rewrite Hv, (proj2 (Nat.ltb_lt _ _)) by done. apply Hret.
  - cbn [handleLoop]. rewrite Hv, (proj2 (Nat.ltb_ge _ _)) by done. case_decide; [done|]. apply Hret.
  - rewrite (handleLoop_header fuel s c rest len r Hv Hb Hr Hw Hl0). destruct (Z.ltb_spec len (Z.of_nat headerSize)); [apply Hret|]. unfold headerSize in *.
    rewrite (proj2 (Z.ltb_lt _ _)) by lia. apply Hret.
  - rewrite (handleLoop_header fuel s c rest len r Hv Hb Hr Hw Hl0). unfold headerSize. rewrite (proj2 (Z.ltb_ge _ _)) by lia. rewrite (proj2 (Z.ltb_ge _ _)) by lia.
    rewrite (proj2 (Z.ltb_lt _ _)) by lia. apply Hret.
  - replace (dispatch t _ s) with (@Ret (option (S * bool)) None); [apply Hret|]. unfold dispatch.
    rewrite !(proj2 (Z.eqb_neq _ _)) by lia. done.
  - rewrite Hd. cbn [mbind outcome_bind]. unfold loop_result. cbn [mbind outcome_bind fst snd stream fmap list_fmap concat length Nat.add]. done.
  - rewrite Hd. done.
  - rewrite Hd. done.
Qed.

Lemma handleLoop_handled s ms rest s1 :
  handled s ms rest s1 -> forall o fuel c, stops s1 rest o -> consumer_ok c -> rxView c = stream ms ++ rest -> is_bytes (rxView c) ->
  (length (rxView c) < fuel)%nat -> handleLoop fuel s c = loop_result ms o c.
Proof.
  induction 1 as [s rest|s t body ms rest s1 s2 Hl Hd _ IH]; intros o fuel c Hs Hc Hv Hb Hf; (destruct fuel as [|fuel]; [lia|]).
  - change (stream [] ++ rest) with rest in Hv. apply (stop_loop fuel s c rest o Hc Hv); [rewrite <- Hv; exact Hb | done].
  - assert (Hv1 : rxView c = message (t, body) ++ stream ms ++ rest) by (rewrite Hv; unfold stream; cbn [fmap list_fmap concat]; rewrite <- app_assoc; done).
    rewrite (handleLoop_message fuel s c t body _ Hc Hv1 Hb Hl), Hd, outcome_bind_ret_l.
    destruct (RxConsumer_commit_ok (length (message (t, body))) c Hc) as (c1 & Hc1 & Hok & _ & _ & Hv2).
    { rewrite Hv1, length_app. lia. }
    rewrite Hv1, drop_app_length in Hv2. rewrite Hc1, outcome_bind_ret_l. rewrite (IH o fuel c1 Hs Hok Hv2).
    + unfold loop_result. destruct o as [[s3 k]| |]; [|done..]. cbn [mbind outcome_bind fst snd]. rewrite (RxConsumer_commit_commit _ _ _ _ Hc1).
      unfold stream. cbn [fmap list_fmap concat]. rewrite length_app, Nat.add_assoc. done.
    + rewrite Hv2. rewrite Hv1 in Hb. apply Forall_app in Hb as [_ Hb]. exact Hb.
    + rewrite Hv2. rewrite Hv1, length_app, length_message in Hf. lia.
Qed.

(** C19: Framing: whatever bytes a view holds, they are a sequence of complete
    messages, each handled in turn, and a rest in front of which the receiver
    stops for one of eight reasons; the messages (and a message whose handler
    failed) are committed, and nothing else. The result is the one of any such
    reading of the view. *)
Theorem handleIncoming_framing (s : S) (c : RxConsumer) :
  consumer_ok c -> is_bytes (rxView c) ->
  (exists ms rest s1 o, rxView c = stream ms ++ rest /\ handled s ms rest s1 /\ stops s1 rest o) /\
  (forall ms rest s1 o, rxView c = stream ms ++ rest -> handled s ms rest s1 -> stops s1 rest o ->
     handleIncoming s c = loop_result ms o c).
Proof.
  intros Hc Hb. split.
  - destruct (handleLoop_framing _ s c Hc Hb (Nat.lt_succ_diag_r _)) as (ms & rest & s1 & o & H1 & H2 & H3 & _). eauto 10.
  - intros ms rest s1 o Hv Hh Hs. apply (handleLoop_handled s ms rest s1 Hh o _ c Hs Hc Hv Hb). lia.
Qed.

(** ** Messages over several receives *)

(** The result of a receive depends on the view only. *)
Lemma receive_view s b data ms rest s1 s2 k :
  is_bytes (pending b ++ data) -> pending b ++ data = stream ms ++ rest -> handled s ms rest s1 -> stops s1 rest (Ret (s2, k)) ->
  (k <= length rest)%nat ->
  exists b', receive s data b = Ret (s2, b') /\
    pending b' = match mode b with RAW => [] | BUFFERED => drop k rest end /\ (mode b' = RAW <-> k = length rest).
Proof.
  intros Hb Hv Hh Hs Hk. set (view := pending b ++ data) in *.
  assert (Hl : length view = (length (stream ms) + length rest)%nat) by (rewrite Hv, length_app; done).
  destruct (RxConsumer_commit_ok (length (stream ms) + k) (RxConsumer_new view) (RxConsumer_new_ok view)) as (c' & Hc & _ & _ & Hcon & _); [cbn; lia|].
  destruct (deliver_spec (handleIncoming s) data b (length (stream ms) + k) s2) as (b' & Hd & Hp & Hm).
  - split; [fold view; lia|]. fold view. exists c'. split; [|rewrite Hcon; done].
    destruct (handleIncoming_framing s (RxConsumer_new view) (RxConsumer_new_ok view) Hb) as [_ Hf].
    rewrite (Hf ms rest s1 _ Hv Hh Hs). unfold loop_result. cbn [mbind outcome_bind fst snd]. rewrite Hc. done.
  - exists b'. split; [exact Hd|]. fold view in Hp, Hm. split; [|rewrite Hm, Hl; lia].
    rewrite Hp. destruct (mode b); [done|]. rewrite Hv, drop_app_ge by lia. f_equal. lia.
Qed.

Lemma stops_taken s rest s2 k : stops s rest (Ret (s2, k)) -> (k <= length rest)%nat.
Proof.
  remember (Ret (s2, k)) as o eqn:E. destruct 1; try (injection E as <- <-; lia); [|discriminate..].
  assert (k = length (message (t, body))) as -> by congruence. subst rest. rewrite length_app. lia.
Qed.

(** A message that arrives in two receives. If earlier bytes were already
    kept, the second receive sees the message from its start. If not, the
    first part of it is dropped, and the second receive is read as if it were
    the start of a message: unless the marker happens to be there, the session
    is told that the connection is not synchronised. *)
Theorem split_message_lost (s : S) (b : RxBuffer) (chunk1 chunk2 : bytes) (ms : list (Z * bytes)) (rest : bytes) (s1 : S) :
  is_bytes chunk1 -> is_bytes chunk2 -> is_bytes (pending b) ->
  pending b ++ chunk1 = stream ms ++ rest -> handled s ms rest s1 -> stops s1 rest (Ret (s1, 0%nat)) -> rest <> [] ->
  let view := match mode b with RAW => chunk2 | BUFFERED => rest ++ chunk2 end in
  exists b1, receive s chunk1 b = Ret (s1, b1) /\ mode b1 = BUFFERED /\
    (forall ms' rest' s1' s2 k, view = stream ms' ++ rest' -> handled s1 ms' rest' s1' -> stops s1' rest' (Ret (s2, k)) ->
       exists b2, receive s1 chunk2 b1 = Ret (s2, b2)) /\
    (mode b = RAW -> (headerSize <= length chunk2)%nat -> take 16 chunk2 <> BGP_MARKER ->
       exists b2, receive s1 chunk2 b1 = Ret (headerError (mkNotification 0x0101 []) s1, b2)).
Proof.
  intros H1 H2 Hp Hv Hh Hs Hne view.
  assert (Hb : is_bytes (pending b ++ chunk1)) by (apply Forall_app; done).
  destruct (receive_view s b chunk1 ms rest s1 s1 0 Hb Hv Hh Hs (stops_taken _ _ _ _ Hs)) as (b1 & Hr & Hpe & Hm). exists b1.
  assert (Hm1 : mode b1 = BUFFERED).
  { destruct (mode b1); [|done]. destruct Hm as [Hm _]. specialize (Hm eq_refl). destruct rest; done. }
  assert (Hview : pending b1 ++ chunk2 = view) by (rewrite Hpe; unfold view; destruct (mode b); done).
  assert (Hrest : is_bytes rest) by (rewrite Hv in Hb; apply Forall_app in Hb as [_ Hb]; exact Hb).
  assert (Hb2 : is_bytes (pending b1 ++ chunk2)) by (rewrite Hview; unfold view; destruct (mode b); [done | apply Forall_app; done]).
  assert (Hgen : forall ms' rest' s1' s2 k, view = stream ms' ++ rest' -> handled s1 ms' rest' s1' -> stops s1' rest' (Ret (s2, k)) ->
    exists b2, receive s1 chunk2 b1 = Ret (s2, b2)).
  { intros ms' rest' s1' s2 k Hv' Hh' Hs'. rewrite <- Hview in Hv'.
    destruct (receive_view s1 b1 chunk2 ms' rest' s1' s2 k Hb2 Hv' Hh' Hs' (stops_taken _ _ _ _ Hs')) as (b2 & Hr2 & _). eauto. }
  split; [exact Hr|]. split; [exact Hm1|]. split; [exact Hgen|]. intros Hraw Hl Hmk.
  apply (Hgen [] chunk2 s1 _ 0%nat); [unfold view; rewrite Hraw; done | constructor | apply stop_marker; done].
Qed.
End Framing.

(** ** The short messages *)

Section Messages.
  Context {S : Type} `{RxSession S}.

(** [routing/bgp/transport/BgpRx.cpp:285-296] BgpRx::processKeepalive *)
Definition processKeepaliveMsg (payload : span) (s : S) : outcome (S * bool * Notification) :=
  if negb (sp_size payload =? 0)%nat then Ret (s, false, mkNotification 0x0102 (be_encode 2 (Z.of_nat headerSize)))
  else Ret (postEvent KEEPALIVE_MSG s, true, NoError).

(** [routing/bgp/session/Session.cpp:338-358] Session::onNotificationReceived *)
Definition onNotificationReceived (payload : span) (s : S) : outcome S :=
  if (sp_size payload <? 2)%nat then Ret (postEvent NOTIF_MSG s)
  else
    code ← Prelude.rd (sp_ptr payload) 0; subcode ← Prelude.rd (sp_ptr payload) 1;
    Ret (postEvent (if (code =? 2) && (subcode =? 1) then NOTIF_MSG_VER_ERR else NOTIF_MSG) s).

(** [routing/bgp/transport/BgpRx.cpp:298-302] BgpRx::processNotification *)
Definition processNotificationMsg (payload : span) (s : S) : outcome (S * bool * Notification) :=
  s ← onNotificationReceived payload s; Ret (s, true, NoError).
End Messages.

(** ** A session that records what it is told *)

Record TestSession := mkTest { ts_extended : bool; ts_asn4 : bool; ts_log : list (Notification + FsmEvent) }.

#[export] Instance test_session : RxSession TestSession := {
  extendedMessage := ts_extended;
  asn32bit := ts_asn4;
  attrDiscard _ _ := false;
  attrWithdraw _ _ := false;
  sendNotification n s := mkTest (ts_extended s) (ts_asn4 s) (ts_log s ++ [inl n]);
  postEvent e s := mkTest (ts_extended s) (ts_asn4 s) (ts_log s ++ [inr e])
}.

Definition test_new : TestSession := mkTest false true [].

(** Handlers that accept everything, and handle KEEPALIVEs and NOTIFICATIONs. *)
Definition test_handlers : Handlers TestSession :=
  let ok _ s := Ret (s, true, NoError) in mkHandlers ok ok processNotificationMsg processKeepaliveMsg ok.

(** Two KEEPALIVEs and the first eighteen bytes of a third. *)
Definition test_view : bytes := stream [(4, []); (4, [])] ++ take 18 (message (4, [])).

Lemma test_handled : handled test_handlers test_new [(4, []); (4, [])] (take 18 (message (4, []))) (mkTest false true [inr KEEPALIVE_MSG; inr KEEPALIVE_MSG]).
Proof.
  eapply handled_cons; [vm_compute; discriminate | reflexivity|]. eapply handled_cons; [vm_compute; discriminate | reflexivity|]. apply handled_nil.
Qed.

Lemma handleIncoming_framing_witness :
  exists c, handleIncoming test_handlers test_new (RxConsumer_new test_view) = Ret (mkTest false true [inr KEEPALIVE_MSG; inr KEEPALIVE_MSG], c) /\
    consumed c = 38%nat.
Proof.
  destruct (handleIncoming_framing test_handlers test_new (RxConsumer_new test_view) (RxConsumer_new_ok _) ltac:(by_compute)) as [_ Hf].
  rewrite (Hf _ _ _ (Ret (mkTest false true [inr KEEPALIVE_MSG; inr KEEPALIVE_MSG], 0%nat)) eq_refl test_handled); [|apply stop_short; vm_compute; lia]. eexists. split; [reflexivity|]. reflexivity.
Defined.

(** A KEEPALIVE split after eighteen bytes, followed by another in the second
    receive. *)
Lemma split_message_lost_witness :
  let chunk1 := take 18 (message (4, [])) in
  let chunk2 := drop 18 (message (4, [])) ++ message (4, []) in
  exists b1 b2, receive test_handlers test_new chunk1 (RxBuffer_new 4096) = Ret (test_new, b1) /\
    receive test_handlers test_new chunk2 b1 = Ret (headerError (mkNotification 0x0101 []) test_new, b2).
Proof.
  intros chunk1 chunk2.
  destruct (split_message_lost test_handlers test_new (RxBuffer_new 4096) chunk1 chunk2 [] chunk1 test_new) as (b1 & H1 & _ & _ & H2);
    [by_compute | by_compute | constructor | reflexivity | apply handled_nil | apply stop_short; vm_compute; lia | discriminate|].
  destruct H2 as [b2 H2]; [reflexivity | vm_compute; lia | by_compute|].
  exists b1, b2. split; [exact H1 | exact H2].
Defined.
