(* ===== verification/BgpUpdate.v ===== *)
(** * BgpUpdate: reading UPDATE messages (routing/bgp/transport/BgpRx.cpp,
    BgpRx.h, the wire format of routing/bgp/af/Nlri.hpp)

    The parser of the path attributes works on a span of the receive buffer:
    the bytes from its start to the end of the buffer, and its size. Reads
    are defined as long as they stay in the buffer, so a parser that reads
    past the end of a message reads the following one, and is undefined only
    at the end of the buffer. *)

From S2P Require Import Prelude BgpFsm RxBuffer ByteUtils IPAddress BestPath AttributeManager BgpRx.

(** ** Attributes *)

(** [packet/headers/BgpHeader.hpp:67-67] BGP_ATTR_ORIGIN *)
Definition BGP_ATTR_ORIGIN : Z := 1.
(** [packet/headers/BgpHeader.hpp:68-68] BGP_ATTR_AS_PATH *)
Definition BGP_ATTR_AS_PATH : Z := 2.
(** [packet/headers/BgpHeader.hpp:69-69] BGP_ATTR_NEXT_HOP *)
Definition BGP_ATTR_NEXT_HOP : Z := 3.
(** [packet/headers/BgpHeader.hpp:70-70] BGP_ATTR_MULTI_EXIT_DISC *)
Definition BGP_ATTR_MULTI_EXIT_DISC : Z := 4.
(** [packet/headers/BgpHeader.hpp:71-71] BGP_ATTR_LOCAL_PREF *)
Definition BGP_ATTR_LOCAL_PREF : Z := 5.
(** [packet/headers/BgpHeader.hpp:72-72] BGP_ATTR_ATOMIC_AGGREGATE *)
Definition BGP_ATTR_ATOMIC_AGGREGATE : Z := 6.
(** [packet/headers/BgpHeader.hpp:73-73] BGP_ATTR_AGGREGATOR *)
Definition BGP_ATTR_AGGREGATOR : Z := 7.
(** [packet/headers/BgpHeader.hpp:74-74] BGP_ATTR_COMMUNITIES *)
Definition BGP_ATTR_COMMUNITIES : Z := 8.
(** [packet/headers/BgpHeader.hpp:75-75] BGP_ATTR_ORIGINATOR_ID *)
Definition BGP_ATTR_ORIGINATOR_ID : Z := 9.
(** [packet/headers/BgpHeader.hpp:76-76] BGP_ATTR_CLUSTER_LIST *)
Definition BGP_ATTR_CLUSTER_LIST : Z := 10.
(** [packet/headers/BgpHeader.hpp:77-77] BGP_ATTR_MP_REACH_NLRI *)
Definition BGP_ATTR_MP_REACH_NLRI : Z := 14.
(** [packet/headers/BgpHeader.hpp:78-78] BGP_ATTR_MP_UNREACH_NLRI *)
Definition BGP_ATTR_MP_UNREACH_NLRI : Z := 15.
(** [packet/headers/BgpHeader.hpp:79-79] BGP_ATTR_EXTENDED_COMMUNITIES *)
Definition BGP_ATTR_EXTENDED_COMMUNITIES : Z := 16.
(** [packet/headers/BgpHeader.hpp:80-80] BGP_ATTR_AS4_PATH *)
Definition BGP_ATTR_AS4_PATH : Z := 17.
(** [packet/headers/BgpHeader.hpp:81-81] BGP_ATTR_AS4_AGGREGATOR *)
Definition BGP_ATTR_AS4_AGGREGATOR : Z := 18.
(** [packet/headers/BgpHeader.hpp:85-85] BGP_ATTR_AIGP *)
Definition BGP_ATTR_AIGP : Z := 26.
(** [packet/headers/BgpHeader.hpp:86-86] BGP_ATTR_LARGE_COMMUNITIES *)
Definition BGP_ATTR_LARGE_COMMUNITIES : Z := 32.

(** [packet/headers/BgpHeader.hpp:93-93] BGP_ATTR_FLAG_OPTIONAL *)
Definition BGP_ATTR_FLAG_OPTIONAL : Z := 0x80.
(** [packet/headers/BgpHeader.hpp:94-94] BGP_ATTR_FLAG_TRANSITIVE *)
Definition BGP_ATTR_FLAG_TRANSITIVE : Z := 0x40.
(** [packet/headers/BgpHeader.hpp:95-95] BGP_ATTR_FLAG_PARTIAL *)
Definition BGP_ATTR_FLAG_PARTIAL : Z := 0x20.
(** [packet/headers/BgpHeader.hpp:96-96] BGP_ATTR_FLAG_EXTENDED_LENGTH *)
Definition BGP_ATTR_FLAG_EXTENDED_LENGTH : Z := 0x10.

(** [packet/headers/BgpHeader.hpp:42-42] BGP_AFI_IPV4 *)
Definition BGP_AFI_IPV4 : Z := 1.
(** [packet/headers/BgpHeader.hpp:43-43] BGP_AFI_IPV6 *)
Definition BGP_AFI_IPV6 : Z := 2.
(** [packet/headers/BgpHeader.hpp:47-47] BGP_SAFI_UNICAST *)
Definition BGP_SAFI_UNICAST : Z := 1.

(** Flags of an attribute. *)
Definition has_flag (flags f : Z) : bool := negb (Z.land flags f =? 0).

Definition set_origin v (a : Attributes) := mkAttributes v (asPath a) (as4Path a) (localPref a) (atomicAggregate a) (med a) (asAggregator a)
  (as4Aggregator a) (communities a) (extendedCommunities a) (largeCommunities a) (originatorId a) (clusterList a) (aigp a) (unknownTransitive a).
Definition set_asPaths v w (a : Attributes) := mkAttributes (origin a) v w (localPref a) (atomicAggregate a) (med a) (asAggregator a)
  (as4Aggregator a) (communities a) (extendedCommunities a) (largeCommunities a) (originatorId a) (clusterList a) (aigp a) (unknownTransitive a).
Definition set_localPref v (a : Attributes) := mkAttributes (origin a) (asPath a) (as4Path a) v (atomicAggregate a) (med a) (asAggregator a)
  (as4Aggregator a) (communities a) (extendedCommunities a) (largeCommunities a) (originatorId a) (clusterList a) (aigp a) (unknownTransitive a).
Definition set_med v (a : Attributes) := mkAttributes (origin a) (asPath a) (as4Path a) (localPref a) (atomicAggregate a) v (asAggregator a)
  (as4Aggregator a) (communities a) (extendedCommunities a) (largeCommunities a) (originatorId a) (clusterList a) (aigp a) (unknownTransitive a).
Definition set_aggregators v w (a : Attributes) := mkAttributes (origin a) (asPath a) (as4Path a) (localPref a) (atomicAggregate a) (med a) v
  w (communities a) (extendedCommunities a) (largeCommunities a) (originatorId a) (clusterList a) (aigp a) (unknownTransitive a).
Definition set_communities v w (a : Attributes) := mkAttributes (origin a) (asPath a) (as4Path a) (localPref a) (atomicAggregate a) (med a) (asAggregator a)
  (as4Aggregator a) v (extendedCommunities a) w (originatorId a) (clusterList a) (aigp a) (unknownTransitive a).
Definition set_reflection v w (a : Attributes) := mkAttributes (origin a) (asPath a) (as4Path a) (localPref a) (atomicAggregate a) (med a) (asAggregator a)
  (as4Aggregator a) (communities a) (extendedCommunities a) (largeCommunities a) v w (aigp a) (unknownTransitive a).
Definition set_aigp v (a : Attributes) := mkAttributes (origin a) (asPath a) (as4Path a) (localPref a) (atomicAggregate a) (med a) (asAggregator a)
  (as4Aggregator a) (communities a) (extendedCommunities a) (largeCommunities a) (originatorId a) (clusterList a) v (unknownTransitive a).
Definition set_unknown v (a : Attributes) := mkAttributes (origin a) (asPath a) (as4Path a) (localPref a) (atomicAggregate a) (med a) (asAggregator a)
  (as4Aggregator a) (communities a) (extendedCommunities a) (largeCommunities a) (originatorId a) (clusterList a) (aigp a) v.

(** A span whose size is the difference of two [size_t]. *)
Record data_span := mkDataSpan { ds_ptr : bytes; ds_size : Z }.

(** [routing/bgp/transport/BgpRx.h:40-48] IncomingUpdate *)
Record IncomingUpdate := mkUpdate { attrs : Attributes; path : Path; u_afi : AfiSafi; withdrawnData : data_span; nlriData : data_span }.

(** An update before anything is read. *)
Definition IncomingUpdate_new : IncomingUpdate :=
  mkUpdate Attributes_new (mkPath (mkAfiSafi 0 0) (mkIPAddress 0) None None) (mkAfiSafi BGP_AFI_IPV4 BGP_SAFI_UNICAST) (mkDataSpan [] 0) (mkDataSpan [] 0).

(** [routing/bgp/transport/BgpRx.cpp:778-786] BgpRx::parsePathAttributes: its variables *)
Record ParseState := mkParse { uinfo : IncomingUpdate; reachAfi : option AfiSafi; unreachAfi : option AfiSafi }.

Definition on_attrs (f : Attributes -> Attributes) (st : ParseState) : ParseState :=
  let u := uinfo st in mkParse (mkUpdate (f (attrs u)) (path u) (u_afi u) (withdrawnData u) (nlriData u)) (reachAfi st) (unreachAfi st).
Definition on_path (f : Path -> Path) (st : ParseState) : ParseState :=
  let u := uinfo st in mkParse (mkUpdate (attrs u) (f (path u)) (u_afi u) (withdrawnData u) (nlriData u)) (reachAfi st) (unreachAfi st).

Definition set_nextHop (v : IPAddress) (p : Path) : Path := mkPath (family p) v (linkLocal p) (AttributeManager.rd p).
Definition set_linkLocal (v : option IPAddress) (p : Path) : Path := mkPath (family p) (nextHop p) v (AttributeManager.rd p).
Definition set_rd (v : option Z) (p : Path) : Path := mkPath (family p) (nextHop p) (linkLocal p) v.

(** What an attribute does: the state after it, or the error it is refused
    with. *)
Definition attr_result : Type := outcome (ParseState + Notification).

Definition refuse (c : Z) : attr_result := Ret (inr (mkNotification c [])).

(** [n] items of [w] bytes. *)
Fixpoint readMany {A} (f : bytes -> outcome A) (w n : nat) (p : bytes) : outcome (list A) :=
  match n with
  | O => Ret []
  | S n => a ← f p; l ← readMany f w n (drop w p); Ret (a :: l)
  end.

Definition readAsn (use4byte : bool) (p : bytes) : outcome Z := if use4byte then readU32 p else readU16 p.
Definition asnBytes (use4byte : bool) : nat := if use4byte then 4 else 2.

(** [routing/bgp/transport/BgpRx.cpp:840-845] BgpRx::parsePathAttributes, wellKnownFlagError *)
Definition wellKnownFlagError (v : span) : attr_result := Ret (inr (mkNotification 0x0304 (span_bytes v))).

(** [routing/bgp/transport/BgpRx.cpp:852-868] BgpRx::parsePathAttributes, ORIGIN *)
Definition parseOrigin (optional transitive : bool) (v : span) (st : ParseState) : attr_result :=
  if optional || negb transitive then wellKnownFlagError v
  else if negb (sp_size v =? 1)%nat then refuse 0x0305
  else
    orig ← Prelude.rd (sp_ptr v) 0;
    if 2 <? orig then refuse 0x0306 else Ret (inl (on_attrs (set_origin (Some orig)) st)).

(** [routing/bgp/transport/BgpRx.cpp:878-901] BgpRx::parsePathAttributes, the segments of AS PATH: [None] for a malformed path;
    each turn takes two bytes of the value or more *)
Fixpoint parseAsPath (fuel : nat) (use4byte : bool) (v : span) (ap : nat) (segs : list AsPathSegment) : outcome (option (list AsPathSegment)) :=
  match fuel with
  | O => UB
  | S fuel =>
      if (sp_size v <? ap + 2)%nat then Ret (Some segs)
      else
        segType ← Prelude.rd (sp_ptr v) ap;
        segLen ← Prelude.rd (sp_ptr v) (ap + 1);
        let ap := (ap + 2)%nat in
        let n := Z.to_nat segLen in
        if (sp_size v <? ap + n + asnBytes use4byte)%nat then Ret None
        else
          l ← readMany (readAsn use4byte) (asnBytes use4byte) n (drop ap (sp_ptr v));
          parseAsPath fuel use4byte v (ap + n * asnBytes use4byte) (segs ++ [mkSegment segType l])
  end.

(** [routing/bgp/transport/BgpRx.cpp:871-904] BgpRx::parsePathAttributes, AS PATH *)
Definition parseAsPathAttr (use4byte optional transitive : bool) (v : span) (st : ParseState) : attr_result :=
  if optional || negb transitive then wellKnownFlagError v
  else
    r ← parseAsPath (S (sp_size v)) use4byte v 0 (asPath (attrs (uinfo st)));
    match r with
    | None => refuse 0x030B
    | Some segs => Ret (inl (on_attrs (fun a => set_asPaths segs (as4Path a) a) st))
    end.

(** [routing/bgp/transport/BgpRx.cpp:907-918] BgpRx::parsePathAttributes, NEXT HOP *)
Definition parseNextHop (optional transitive : bool) (v : span) (st : ParseState) : attr_result :=
  if optional || negb transitive then wellKnownFlagError v
  else if negb (sp_size v =? 4)%nat then refuse 0x0305
  else x ← readU32 (sp_ptr v); Ret (inl (on_path (set_nextHop (IPAddress_u32 x)) st)).

(** [routing/bgp/transport/BgpRx.cpp:921-930] BgpRx::parsePathAttributes, MULTI EXIT DISC *)
Definition parseMed (v : span) (st : ParseState) : attr_result :=
  if negb (sp_size v =? 4)%nat then refuse 0x0305
  else x ← readU32 (sp_ptr v); Ret (inl (on_attrs (set_med (Some x)) st)).

(** [routing/bgp/transport/BgpRx.cpp:933-943] BgpRx::parsePathAttributes, LOCAL PREF *)
Definition parseLocalPref (optional transitive : bool) (v : span) (st : ParseState) : attr_result :=
  if optional || negb transitive then wellKnownFlagError v
  else if negb (sp_size v =? 4)%nat then refuse 0x0305
  else x ← readU32 (sp_ptr v); Ret (inl (on_attrs (set_localPref (Some x)) st)).

(** [routing/bgp/transport/BgpRx.cpp:946-968] BgpRx::parsePathAttributes, AGGREGATOR *)
Definition parseAggregator (use4byte : bool) (v : span) (st : ParseState) : attr_result :=
  let expected := if use4byte then 8%nat else 6%nat in
  if negb (sp_size v =? expected)%nat then refuse 0x0305
  else
    asn ← readAsn use4byte (sp_ptr v);
    sp ← readU32 (drop (asnBytes use4byte) (sp_ptr v));
    Ret (inl (on_attrs (fun a => set_aggregators (Some (mkAggregator asn (IPAddress_u32 sp))) (as4Aggregator a) a) st)).

(** [routing/bgp/transport/BgpRx.cpp:971-981] BgpRx::parsePathAttributes, COMMUNITIES *)
Definition parseCommunities (v : span) (st : ParseState) : attr_result :=
  if negb (sp_size v mod 4 =? 0)%nat then refuse 0x0305
  else
    l ← readMany readU32 4 (sp_size v / 4) (sp_ptr v);
    Ret (inl (on_attrs (fun a => set_communities (communities a ++ l) (largeCommunities a) a) st)).

(** [routing/bgp/transport/BgpRx.cpp:984-993] BgpRx::parsePathAttributes, ORIGINATOR ID *)
Definition parseOriginatorId (v : span) (st : ParseState) : attr_result :=
  if negb (sp_size v =? 4)%nat then refuse 0x0305
  else x ← readU32 (sp_ptr v); Ret (inl (on_attrs (fun a => set_reflection (Some x) (clusterList a) a) st)).

(** [routing/bgp/transport/BgpRx.cpp:996-1006] BgpRx::parsePathAttributes, CLUSTER LIST *)
Definition parseClusterList (v : span) (st : ParseState) : attr_result :=
  if negb (sp_size v mod 4 =? 0)%nat then refuse 0x0305
  else
    l ← readMany readU32 4 (sp_size v / 4) (sp_ptr v);
    Ret (inl (on_attrs (fun a => set_reflection (originatorId a) (clusterList a ++ l) a) st)).

(** [std::memcpy] of sixteen bytes into a [__uint128_t] of a little-endian host. *)
Definition copyU128 (p : bytes) : outcome Z := if (length p <? 16)%nat then UB else Ret (be_decode (rev (take 16 p))).

(** [routing/bgp/transport/BgpRx.cpp:1034-1061] BgpRx::parsePathAttributes, the next hop of MP REACH NLRI *)
Definition parseMpNextHop (afi : Z) (nhLen : Z) (p : bytes) (st : ParseState) : outcome ParseState :=
  if afi =? BGP_AFI_IPV6 then
    if nhLen =? 16 then x ← copyU128 p; Ret (on_path (set_nextHop (mkIPAddress x)) st)
    else if nhLen =? 32 then
      x ← copyU128 p; y ← copyU128 (drop 16 p);
      Ret (on_path (fun q => set_linkLocal (Some (mkIPAddress y)) (set_nextHop (mkIPAddress x) q)) st)
    else Ret st
  else if nhLen =? 4 then x ← readU32 p; Ret (on_path (set_nextHop (IPAddress_u32 x)) st)
  else if nhLen =? 12 then
    rdv ← readU64 p; x ← readU32 (drop 8 p);
    Ret (on_path (fun q => set_nextHop (IPAddress_u32 x) (set_rd (Some rdv) q)) st)
  else Ret st.

(** [routing/bgp/transport/BgpRx.cpp:1067-1071] BgpRx::parsePathAttributes, skipping the SNPAs *)
Fixpoint skipSnpa (n : nat) (p : bytes) (attrLen mpPos : nat) : outcome nat :=
  match n with
  | O => Ret mpPos
  | S n =>
      if (mpPos <? attrLen)%nat then
        snpaLen ← Prelude.rd p mpPos;
        skipSnpa n p attrLen (mpPos + 1 + Z.to_nat ((snpaLen + 1) / 2))
      else Ret mpPos
  end.

Definition set_nlriData (d : data_span) (st : ParseState) : ParseState :=
  let u := uinfo st in mkParse (mkUpdate (attrs u) (path u) (u_afi u) (withdrawnData u) d) (reachAfi st) (unreachAfi st).
Definition set_withdrawnData (d : data_span) (st : ParseState) : ParseState :=
  let u := uinfo st in mkParse (mkUpdate (attrs u) (path u) (u_afi u) d (nlriData u)) (reachAfi st) (unreachAfi st).
Definition set_reach (r u : option AfiSafi) (st : ParseState) : ParseState := mkParse (uinfo st) r u.

(** Two families that were announced are different. *)
Definition families_differ (a b : option AfiSafi) : bool :=
  match a, b with Some a, Some b => negb (bool_decide (a = b)) | _, _ => false end.

(** [routing/bgp/transport/BgpRx.cpp:1009-1073] BgpRx::parsePathAttributes, MP REACH NLRI: the size of the NLRI wraps when
    the SNPAs end behind the attribute *)
Definition parseMpReach (v : span) (st : ParseState) : attr_result :=
  let p := sp_ptr v in
  if (sp_size v <? 4)%nat then refuse 0x0305
  else
    afi ← readU16 p; safi ← Prelude.rd p 2; nhLen ← Prelude.rd p 3;
    let k := (4 + Z.to_nat nhLen)%nat in
    if (sp_size v <? k)%nat then refuse 0x0305
    else
      let st := set_reach (Some (mkAfiSafi afi safi)) (unreachAfi st) st in
      if families_differ (unreachAfi st) (reachAfi st) then refuse 0x0301
      else
        st ← parseMpNextHop afi nhLen (drop 4 p) st;
        if (sp_size v <=? k)%nat then Ret (inl st)
        else
          snpaCount ← Prelude.rd p k;
          mpPos ← skipSnpa (Z.to_nat snpaCount) p (sp_size v) (k + 1);
          Ret (inl (set_nlriData (mkDataSpan (drop mpPos p) (u64 (Z.of_nat (sp_size v) - Z.of_nat mpPos))) st)).

(** [routing/bgp/transport/BgpRx.cpp:1076-1095] BgpRx::parsePathAttributes, MP UNREACH NLRI *)
Definition parseMpUnreach (v : span) (st : ParseState) : attr_result :=
  let p := sp_ptr v in
  if (sp_size v <? 3)%nat then refuse 0x0305
  else
    afi ← readU16 p; safi ← Prelude.rd p 2;
    let st := set_reach (reachAfi st) (Some (mkAfiSafi afi safi)) st in
    if families_differ (reachAfi st) (unreachAfi st) then refuse 0x0301
    else Ret (inl (set_withdrawnData (mkDataSpan (drop 3 p) (Z.of_nat (sp_size v - 3))) st)).

(** [routing/bgp/transport/BgpRx.cpp:1100-1114] BgpRx::parsePathAttributes, the segments of AS4 PATH *)
Fixpoint parseAs4Path (fuel : nat) (v : span) (ap : nat) (segs : list AsPathSegment) : outcome (list AsPathSegment) :=
  match fuel with
  | O => UB
  | S fuel =>
      if (sp_size v <? ap + 2)%nat then Ret segs
      else
        segType ← Prelude.rd (sp_ptr v) ap;
        segLen ← Prelude.rd (sp_ptr v) (ap + 1);
        let ap := (ap + 2)%nat in
        let n := Z.to_nat segLen in
        if (sp_size v <? ap + n * 4)%nat then Ret segs
        else
          l ← readMany readU32 4 n (drop ap (sp_ptr v));
          parseAs4Path fuel v (ap + n * 4) (segs ++ [mkSegment segType l])
  end.

(** [routing/bgp/transport/BgpRx.cpp:1098-1116] BgpRx::parsePathAttributes, AS4 PATH *)
Definition parseAs4PathAttr (v : span) (st : ParseState) : attr_result :=
  segs ← parseAs4Path (S (sp_size v)) v 0 (as4Path (attrs (uinfo st)));
  Ret (inl (on_attrs (fun a => set_asPaths (asPath a) segs a) st)).

(** [routing/bgp/transport/BgpRx.cpp:1118-1130] BgpRx::parsePathAttributes, AS4 AGGREGATOR *)
Definition parseAs4Aggregator (v : span) (st : ParseState) : attr_result :=
  if negb (sp_size v =? 8)%nat then refuse 0x0305
  else
    asn ← readU32 (sp_ptr v); sp ← readU32 (drop 4 (sp_ptr v));
    Ret (inl (on_attrs (fun a => set_aggregators (asAggregator a) (Some (mkAggregator asn (IPAddress_u32 sp))) a) st)).

(** [routing/bgp/transport/BgpRx.cpp:1133-1140] BgpRx::parsePathAttributes, AIGP *)
Definition parseAigp (v : span) (st : ParseState) : attr_result :=
  let p := sp_ptr v in
  if (sp_size v <? 11)%nat then Ret (inl st)
  else
    t ← Prelude.rd p 0;
    if negb (t =? 1) then Ret (inl st)
    else
      l ← readU16 (drop 1 p);
      if negb (l =? 11) then Ret (inl st)
      else x ← readU64 (drop 3 p); Ret (inl (on_attrs (set_aigp (Some x)) st)).

Definition readTriple (p : bytes) : outcome (Z * Z * Z) :=
  a ← readU32 p; b ← readU32 (drop 4 p); c ← readU32 (drop 8 p); Ret (a, b, c).

(** [routing/bgp/transport/BgpRx.cpp:1143-1159] BgpRx::parsePathAttributes, LARGE COMMUNITIES *)
Definition parseLargeCommunities (v : span) (st : ParseState) : attr_result :=
  if negb (sp_size v mod 12 =? 0)%nat then refuse 0x0305
  else
    l ← readMany readTriple 12 (sp_size v / 12) (sp_ptr v);
    Ret (inl (on_attrs (fun a => set_communities (communities a) (largeCommunities a ++ l) a) st)).

(** [routing/bgp/transport/BgpRx.cpp:1162-1179] BgpRx::parsePathAttributes, unknown attributes *)
Definition parseUnknown (flags type : Z) (v : span) (st : ParseState) : attr_result :=
  if negb (has_flag flags BGP_ATTR_FLAG_OPTIONAL) then Ret (inr (mkNotification 0x0302 (span_bytes v)))
  else if has_flag flags BGP_ATTR_FLAG_TRANSITIVE then
    Ret (inl (on_attrs (fun a => set_unknown (unknownTransitive a ++ [mkUnknown (Z.lor flags BGP_ATTR_FLAG_PARTIAL) type (span_bytes v)]) a) st))
  else Ret (inl st).

(** [routing/bgp/transport/BgpRx.cpp:848-1180] BgpRx::parsePathAttributes, the switch *)
Definition parseValue (use4byte : bool) (flags type : Z) (v : span) (st : ParseState) : attr_result :=
  let optional := has_flag flags BGP_ATTR_FLAG_OPTIONAL in
  let transitive := has_flag flags BGP_ATTR_FLAG_TRANSITIVE in
  if type =? BGP_ATTR_ORIGIN then parseOrigin optional transitive v st
  else if type =? BGP_ATTR_AS_PATH then parseAsPathAttr use4byte optional transitive v st
  else if type =? BGP_ATTR_NEXT_HOP then parseNextHop optional transitive v st
  else if type =? BGP_ATTR_MULTI_EXIT_DISC then parseMed v st
  else if type =? BGP_ATTR_LOCAL_PREF then parseLocalPref optional transitive v st
  else if type =? BGP_ATTR_AGGREGATOR then parseAggregator use4byte v st
  else if type =? BGP_ATTR_COMMUNITIES then parseCommunities v st
  else if type =? BGP_ATTR_ORIGINATOR_ID then parseOriginatorId v st
  else if type =? BGP_ATTR_CLUSTER_LIST then parseClusterList v st
  else if type =? BGP_ATTR_MP_REACH_NLRI then parseMpReach v st
  else if type =? BGP_ATTR_MP_UNREACH_NLRI then parseMpUnreach v st
  else if type =? BGP_ATTR_AS4_PATH then parseAs4PathAttr v st
  else if type =? BGP_ATTR_AS4_AGGREGATOR then parseAs4Aggregator v st
  else if type =? BGP_ATTR_AIGP then parseAigp v st
  else if type =? BGP_ATTR_LARGE_COMMUNITIES then parseLargeCommunities v st
  else parseUnknown flags type v st.

(** [routing/bgp/transport/BgpRx.cpp:1188-1193] BgpRx::parsePathAttributes, countHops *)
Definition segHops (seg : AsPathSegment) : nat :=
  if segmentType seg =? BGP_AS_SET then (match asns seg with [] => 0 | _ => 1 end) else length (asns seg).

(** [routing/bgp/transport/BgpRx.cpp:1203-1222] BgpRx::parsePathAttributes, the hops kept of AS PATH *)
Fixpoint keepHops (toKeep : nat) (segs : list AsPathSegment) : list AsPathSegment :=
  match segs with
  | [] => []
  | seg :: segs =>
      if (toKeep =? 0)%nat then []
      else if (segHops seg <=? toKeep)%nat then seg :: keepHops (toKeep - segHops seg) segs
      else [mkSegment (segmentType seg) (take toKeep (asns seg))]
  end.

(** [routing/bgp/transport/BgpRx.cpp:1185-1229] BgpRx::parsePathAttributes, merging AS4 PATH into AS PATH *)
Definition mergeAs4Path (use4byte : bool) (a : Attributes) : Attributes :=
  match as4Path a with
  | [] => a
  | as4 =>
      if use4byte then a
      else
        let asLen := sum_list (segHops <$> asPath a) in
        let as4Len := sum_list (segHops <$> as4) in
        set_asPaths (keepHops (asLen - as4Len) (asPath a) ++ as4) [] a
  end.

(** [routing/bgp/transport/BgpRx.cpp:1231-1237] BgpRx::parsePathAttributes, the address family of the update *)
Definition updateFamily (st : ParseState) : AfiSafi :=
  match reachAfi st, unreachAfi st with
  | Some f, _ => f
  | None, Some f => f
  | None, None => mkAfiSafi BGP_AFI_IPV4 BGP_SAFI_UNICAST
  end.

(** ** The update *)

Section Update.
  Context {S : Type} `{RxSession S}.

(** [routing/bgp/transport/BgpRx.cpp:788-1181] BgpRx::parsePathAttributes, the loop: each turn takes three bytes or more *)
Fixpoint parseLoop (fuel : nat) (s : S) (d : span) (pos : nat) (st : ParseState) : attr_result :=
  match fuel with
  | O => UB
  | Datatypes.S fuel =>
      if (sp_size d <=? pos)%nat then Ret (inl st)
      else if (sp_size d <? pos + 2)%nat then refuse 0x0301
      else
        flags ← Prelude.rd (sp_ptr d) pos;
        type ← Prelude.rd (sp_ptr d) (pos + 1);
        let pos := (pos + 2)%nat in
        let lenBytes := if has_flag flags BGP_ATTR_FLAG_EXTENDED_LENGTH then 2%nat else 1%nat in
        if (sp_size d <? pos + lenBytes)%nat then refuse 0x0305
        else
          attrLen ← (if has_flag flags BGP_ATTR_FLAG_EXTENDED_LENGTH then readU16 (drop pos (sp_ptr d)) else Prelude.rd (sp_ptr d) pos);
          let pos := (pos + lenBytes)%nat in
          let n := Z.to_nat attrLen in
          if (sp_size d <? pos + n)%nat then refuse 0x0305
          else if attrDiscard s type then parseLoop fuel s d (pos + n) st
          else if attrWithdraw s type then Ret (inr NoError)
          else
            r ← parseValue (asn32bit s) flags type (mkSpan (drop pos (sp_ptr d)) n) st;
            match r with
            | inl st => parseLoop fuel s d (pos + n) st
            | inr e => Ret (inr e)
            end
  end.

(** [routing/bgp/transport/BgpRx.cpp:771-1244] BgpRx::parsePathAttributes: the update, or the error it is refused with, of
    code 0 for an update that is to be ignored *)
Definition parsePathAttributes (s : S) (d : span) (u : IncomingUpdate) : outcome (IncomingUpdate + Notification) :=
  r ← parseLoop (Datatypes.S (sp_size d)) s d 0 (mkParse u None None);
  match r with
  | inr e => Ret (inr e)
  | inl st =>
      let u := uinfo st in
      Ret (inl (mkUpdate (mergeAs4Path (asn32bit s) (attrs u)) (path u) (updateFamily st) (withdrawnData u) (nlriData u)))
  end.

(** What processing of an update needs of the rest of BGP: whether an address
    family runs, and its handler. *)
Context (findAddressFamily : AfiSafi -> bool) (onUpdateFromPeer : IncomingUpdate -> S -> outcome (S * bool * Notification)).

(** [routing/bgp/transport/BgpRx.cpp:354-367] BgpRx::processUpdate: an update whose attributes are read *)
Definition finishUpdate (payload : span) (offset : nat) (u : IncomingUpdate) (s : S) : outcome (S * bool * Notification) :=
  let u := if (afi (u_afi u) =? BGP_AFI_IPV4) && (safi (u_afi u) =? BGP_SAFI_UNICAST)
           then mkUpdate (attrs u) (path u) (u_afi u) (withdrawnData u) (mkDataSpan (drop offset (sp_ptr payload)) (Z.of_nat (sp_size payload - offset)))
           else u in
  if findAddressFamily (u_afi u) then onUpdateFromPeer u s else Ret (s, false, mkNotification 0x0301 []).

(** [routing/bgp/transport/BgpRx.cpp:304-368] BgpRx::processUpdate *)
Definition processUpdateMsg (payload : span) (s : S) : outcome (S * bool * Notification) :=
  let p := sp_ptr payload in
  let size := sp_size payload in
  let fail c := Ret (s, false, mkNotification c []) in
  if (size <? 4)%nat then fail 0x0301
  else
    withdrawnLen ← readU16 p;
    let w := Z.to_nat withdrawnLen in
    if (size <? 2 + w)%nat then fail 0x030B
    else if (size <? 2 + w + 2)%nat then fail 0x0301
    else
      attrLen ← readU16 (drop (2 + w) p);
      let n := Z.to_nat attrLen in
      let offset := (2 + w + 2)%nat in
      if (size <? offset + n)%nat then fail 0x0301
      else
        let u := mkUpdate Attributes_new (path IncomingUpdate_new) (u_afi IncomingUpdate_new) (mkDataSpan (drop 2 p) (Z.of_nat w)) (nlriData IncomingUpdate_new) in
        r ← (if (n =? 0)%nat then Ret (inl u) else parsePathAttributes s (mkSpan (drop offset p) n) u);
        match r with
        | inr e => Ret (s, code e =? 0, e)
        | inl u => finishUpdate payload (offset + n) u s
        end.
End Update.

(** ** Reachability information *)

(** [routing/bgp/af/Nlri.hpp:137-140] ExampleNlri::nlriEncodedSize *)
Definition nlriEncodedSize (n : IPv4Prefix) : nat := (1 + (Z.to_nat (p4_len n) + 7) / 8)%nat.

(** [routing/bgp/af/Nlri.hpp:151-156] ExampleNlri::encodeNlri *)
Definition encodeNlri (buf : bytes) (n : IPv4Prefix) : outcome bytes :=
  buf ← wr buf 0 (p4_len n);
  tl ← writeBytes 32 (drop 1 buf) (p4_addr n) ((Z.to_nat (p4_len n) + 7) / 8);
  Ret (take 1 buf ++ tl).

(** [routing/bgp/af/Nlri.hpp:167-173] ExampleNlri::decodeNlri: the address is read from the length byte on *)
Definition decodeNlri (buf : bytes) : outcome (IPv4Prefix * nat) :=
  len ← Prelude.rd buf 0;
  let n := ((Z.to_nat len + 7) / 8)%nat in
  addr ← readBytes 32 buf n;
  Ret (mkIPv4Prefix addr len, (1 + n)%nat).

(** [routing/bgp/transport/BgpRx.h:224-249] BgpRx::processUpdate, one list of prefixes: each turn takes a byte or more *)
Fixpoint parseNlri (fuel : nat) (addPath : bool) (d : data_span) (pos : nat) (acc : list (IPv4Prefix * Z)) : outcome (list (IPv4Prefix * Z) + Notification) :=
  match fuel with
  | O => UB
  | S fuel =>
      if ds_size d <=? Z.of_nat pos then Ret (inl acc)
      else if addPath && (ds_size d <? Z.of_nat pos + 4) then Ret (inr (mkNotification 0x0301 []))
      else
        pathId ← (if addPath then readU32 (drop pos (ds_ptr d)) else Ret 0);
        let pos := if addPath then (pos + 4)%nat else pos in
        '(nlri, consumed) ← decodeNlri (drop pos (ds_ptr d));
        if (consumed =? 0)%nat || (ds_size d <? Z.of_nat (pos + consumed)) then Ret (inr (mkNotification 0x0301 []))
        else parseNlri fuel addPath d (pos + consumed) (acc ++ [(nlri, pathId)])
  end.

(** [routing/bgp/transport/BgpRx.h:219-281] BgpRx::processUpdate<N>: the prefixes withdrawn and announced *)
Definition parseUpdate (addPath : bool) (u : IncomingUpdate) : outcome (list (IPv4Prefix * Z) * list (IPv4Prefix * Z) + Notification) :=
  w ← parseNlri (S (length (ds_ptr (withdrawnData u)))) addPath (withdrawnData u) 0 [];
  match w with
  | inr e => Ret (inr e)
  | inl w =>
      a ← parseNlri (S (length (ds_ptr (nlriData u)))) addPath (nlriData u) 0 [];
      match a with inr e => Ret (inr e) | inl a => Ret (inl (w, a)) end
  end.

(** ** Reading prefixes *)

(** A prefix on the wire: its length and the octets that it needs. *)
Definition nlri_wire (n : IPv4Prefix) : bytes := p4_len n :: take ((Z.to_nat (p4_len n) + 7) / 8) (be_encode 4 (p4_addr n)).

(** What is read: the octets from the length on, one too early. *)
Definition misread (n : IPv4Prefix) : IPv4Prefix :=
  let k := ((Z.to_nat (p4_len n) + 7) / 8)%nat in
  mkIPv4Prefix (Z.shiftl (be_decode (take k (nlri_wire n))) (8 * (4 - Z.of_nat k))) (p4_len n).

Lemma octets_le len : len <= 32 -> ((Z.to_nat len + 7) / 8 <= 4)%nat.
Proof. intros H. pose proof (Nat.Div0.div_le_mono (Z.to_nat len + 7) 39 8 ltac:(lia)) as K. exact K. Qed.

Lemma octets_gt len : 32 < len -> (4 < (Z.to_nat len + 7) / 8)%nat.
Proof. intros H. pose proof (Nat.Div0.div_le_mono 40 (Z.to_nat len + 7) 8 ltac:(lia)) as K. exact K. Qed.

Lemma nlri_wire_length n : p4_len n <= 32 -> length (nlri_wire n) = nlriEncodedSize n.
Proof.
  intros H. unfold nlri_wire, nlriEncodedSize. cbn [length]. rewrite length_take, be_encode_length, Nat.min_l by (apply octets_le, H). done.
Qed.

Lemma nlri_wire_bytes n : in_width 8 (p4_len n) -> is_bytes (nlri_wire n).
Proof. intros H. constructor; [done | apply is_bytes_take, be_encode_bytes]. Qed.

Lemma encodeNlri_spec buf n :
  in_width 8 (p4_len n) -> p4_len n <= 32 -> (nlriEncodedSize n <= length buf)%nat ->
  encodeNlri buf n = Ret (nlri_wire n ++ drop (nlriEncodedSize n) buf).
Proof.
  intros Hw Hl Hb. unfold nlriEncodedSize in *. destruct buf as [|b buf]; [cbn in Hb; lia|]. cbn [length] in Hb. unfold encodeNlri.
  rewrite wr_ret by (cbn; lia). rewrite outcome_bind_ret_l. change (<[0%nat:=p4_len n]> (b :: buf)) with (p4_len n :: buf). cbn [drop take]. rewrite ?drop_0.
  change 32 with (8 * Z.of_nat 4). rewrite writeBytes_spec by (apply octets_le in Hl; lia). rewrite outcome_bind_ret_l. done.
Qed.

Lemma decodeNlri_spec buf len :
  is_bytes buf -> buf !! 0%nat = Some len ->
  let k := ((Z.to_nat len + 7) / 8)%nat in
  if 32 <? len then decodeNlri buf = UB
  else (k <= length buf)%nat -> decodeNlri buf = Ret (mkIPv4Prefix (Z.shiftl (be_decode (take k buf)) (8 * (4 - Z.of_nat k))) len, (1 + k)%nat).
Proof.
  intros Hb H0 k. unfold decodeNlri, Prelude.rd. rewrite H0, outcome_bind_ret_l. change 32 with (8 * Z.of_nat 4).
  destruct (Z.ltb_spec (8 * Z.of_nat 4) len) as [H1|H1].
  - rewrite readBytes_overrun; [done | done | lia | apply octets_gt; lia].
  - intros Hk. rewrite readBytes_spec by (done || (apply octets_le in H1; unfold k in Hk; lia)). done.
Qed.

Lemma decodeNlri_wire n rest :
  in_width 8 (p4_len n) -> p4_len n <= 32 -> is_bytes rest -> decodeNlri (nlri_wire n ++ rest) = Ret (misread n, nlriEncodedSize n).
Proof.
  intros Hw Hl Hr. pose proof (decodeNlri_spec (nlri_wire n ++ rest) (p4_len n)) as K. cbv zeta in K.
  rewrite (proj2 (Z.ltb_ge _ _)) in K by lia. pose proof (nlri_wire_length n Hl) as E. unfold nlriEncodedSize in E.
  rewrite K; [|apply Forall_app; split; [apply nlri_wire_bytes, Hw | exact Hr] | done | rewrite length_app; lia].
  rewrite take_app_le by lia. done.
Qed.

Lemma parseNlri_wire ns rest (pre : bytes) fuel acc :
  Forall (fun n => in_width 8 (p4_len n) /\ p4_len n <= 32) ns -> is_bytes rest ->
  let wire := concat (nlri_wire <$> ns) in
  (length wire < fuel)%nat ->
  parseNlri fuel false (mkDataSpan (pre ++ wire ++ rest) (Z.of_nat (length pre + length wire))) (length pre) acc =
    Ret (inl (acc ++ ((fun n => (misread n, 0)) <$> ns))).
Proof.
  intros Hns Hr. revert pre fuel acc. induction Hns as [|n ns [Hw Hl] Hns IH]; intros pre fuel acc wire Hf; (destruct fuel as [|fuel]; [lia|]).
  - cbn [parseNlri ds_size]. subst wire. cbn. rewrite Nat.add_0_r, (proj2 (Z.leb_le _ _)), app_nil_r by lia. done.
  - subst wire. cbn [fmap list_fmap concat] in *. pose proof (nlri_wire_length n Hl) as E. rewrite length_app, E in Hf.
    assert (Hn1 : (1 <= nlriEncodedSize n)%nat) by (unfold nlriEncodedSize; lia). set (tl := concat (nlri_wire <$> ns)) in *.
    cbn [parseNlri ds_size ds_ptr andb]. rewrite !length_app, (proj2 (Z.leb_gt _ _)) by lia. rewrite outcome_bind_ret_l.
    rewrite drop_app_length, <- (app_assoc (nlri_wire n)). rewrite decodeNlri_wire; [|done|done|].
    2:{ apply Forall_app. split; [|done]. unfold tl. clear -Hns. induction Hns as [|m ms [Hm _] _ IH]; [constructor|]. cbn [fmap list_fmap concat].
        apply Forall_app. split; [apply nlri_wire_bytes, Hm | exact IH]. }
    rewrite outcome_bind_ret_l, E, (proj2 (Nat.eqb_neq _ _)), (proj2 (Z.ltb_ge _ _)) by lia. cbn [orb].
    specialize (IH (pre ++ nlri_wire n) fuel (acc ++ [(misread n, 0)])). cbv zeta in IH. fold tl in IH.
    rewrite length_app, E, <- app_assoc, <- Nat.add_assoc in IH. rewrite IH by lia. rewrite <- app_assoc. done.
Qed.

Lemma be_decode_inj p q : length p = length q -> is_bytes p -> is_bytes q -> be_decode p = be_decode q -> p = q.
Proof. intros Hl Hp Hq E. rewrite <- (be_encode_decode p Hp), <- (be_encode_decode q Hq), E, Hl. done. Qed.

(** A list equal to itself shifted by one is constant. *)
Lemma shifted_constant {A} (x : A) k l : (k <= length l)%nat -> take k (x :: l) = take k l <-> take k l = replicate k x.
Proof.
  revert x l. induction k as [|k IH]; intros x l Hk; [done|]. destruct l as [|y l]; [cbn in Hk; lia|]. cbn in Hk.
  cbn [take replicate]. split.
  - intros [= -> E]. f_equal. apply IH; [lia | exact E].
  - intros [= -> E]. f_equal. apply IH; [lia | exact E].
Qed.

Lemma misread_right n :
  in_width 8 (p4_len n) -> p4_len n <= 32 -> let k := ((Z.to_nat (p4_len n) + 7) / 8)%nat in
  p4_addr (misread n) = Z.shiftl (be_decode (take k (be_encode 4 (p4_addr n)))) (8 * (4 - Z.of_nat k)) <->
  take k (be_encode 4 (p4_addr n)) = replicate k (p4_len n).
Proof.
  intros Hw Hl k. pose proof (octets_le _ Hl) as Hk. fold k in Hk. set (o := be_encode 4 (p4_addr n)).
  assert (Ho : length o = 4%nat) by apply be_encode_length. assert (Hob : is_bytes o) by apply be_encode_bytes.
  assert (Hwire : take k (nlri_wire n) = take k (p4_len n :: o)).
  { unfold nlri_wire. fold k o. destruct k as [|k']; [done|]. cbn [take]. f_equal. rewrite take_take, Nat.min_l by lia. done. }
  unfold misread. cbn [p4_addr]. fold k. rewrite Hwire, <- (shifted_constant (p4_len n) k o) by lia.
  assert (Hlen : length (take k (p4_len n :: o)) = length (take k o)) by (rewrite !length_take; cbn [length]; lia).
  split; [|intros ->; done]. intros E. rewrite !Z.shiftl_mul_pow2 in E by lia. apply Z.mul_reg_r in E; [|apply Z.pow_nonzero; lia].
  apply be_decode_inj; [done | apply is_bytes_take; constructor; done | apply is_bytes_take, Hob | exact E].
Qed.

(** The prefixes written to a list are told apart, with their lengths, but
    every address is read one octet too early: the first octet is the prefix
    length. A prefix comes out right exactly when its octets all equal its
    length (the default route has none). A length above 32 is read into a
    shift by a count that has wrapped. *)
Theorem nlri_misread (ns : list IPv4Prefix) (rest : bytes) (fuel : nat) :
  Forall (fun n => in_width 8 (p4_len n) /\ p4_len n <= 32) ns -> is_bytes rest ->
  let wire := concat (nlri_wire <$> ns) in
  (length wire < fuel)%nat ->
  parseNlri fuel false (mkDataSpan (wire ++ rest) (Z.of_nat (length wire))) 0 [] = Ret (inl ((fun n => (misread n, 0)) <$> ns)) /\
  (forall n buf, n ∈ ns -> (nlriEncodedSize n <= length buf)%nat -> encodeNlri buf n = Ret (nlri_wire n ++ drop (nlriEncodedSize n) buf)) /\
  (forall n, n ∈ ns -> in_width 32 (p4_addr n) -> let k := ((Z.to_nat (p4_len n) + 7) / 8)%nat in
     p4_addr (misread n) = Z.shiftl (be_decode (take k (be_encode 4 (p4_addr n)))) (8 * (4 - Z.of_nat k)) <->
     take k (be_encode 4 (p4_addr n)) = replicate k (p4_len n)) /\
  (forall len more, 32 < len -> in_width 8 len -> is_bytes more ->
     parseNlri (S fuel) false (mkDataSpan (len :: more) (Z.of_nat (S (length more)))) 0 [] = UB).
Proof.
  intros Hns Hr wire Hf. split; [|split; [|split]].
  - apply (parseNlri_wire ns rest [] fuel []); done.
  - intros n buf Hn Hb. rewrite Forall_forall in Hns. destruct (Hns n Hn) as [Hlw Hl]. apply encodeNlri_spec; done.
  - intros n Hn Hw k. rewrite Forall_forall in Hns. destruct (Hns n Hn) as [Hlw Hl]. apply misread_right; done.
  - intros len more H1 H2 H3. cbn [parseNlri ds_size ds_ptr andb]. rewrite (proj2 (Z.leb_gt _ _)) by lia. rewrite outcome_bind_ret_l.
    pose proof (decodeNlri_spec (len :: more) len ltac:(constructor; done) eq_refl) as K. cbv zeta in K.
    rewrite (proj2 (Z.ltb_lt 32 len)) in K by done. cbn [drop]. rewrite K. done.
Qed.

(** 10.1.0.0/16 and the default route: the first is read as 16.10.0.0/16. *)
Lemma nlri_misread_witness :
  let ns := [mkIPv4Prefix 167837696 16; mkIPv4Prefix 0 0] in
  parseNlri 10 false (mkDataSpan (concat (nlri_wire <$> ns) ++ []) (Z.of_nat (length (concat (nlri_wire <$> ns))))) 0 [] =
    Ret (inl [(misread (mkIPv4Prefix 167837696 16), 0); (misread (mkIPv4Prefix 0 0), 0)]) /\
  p4_addr (misread (mkIPv4Prefix 167837696 16)) = 269090816.
Proof.
  intros ns. split; [|vm_compute; reflexivity].
  destruct (nlri_misread ns [] 10) as [H _]; [by_compute | by_compute | by_compute | exact H].
Defined.

(** ** Items of one width *)

Lemma concat_length {A B} (f : A -> list B) w l : (forall a, length (f a) = w) -> length (concat (f <$> l)) = (length l * w)%nat.
Proof. intros Hf. induction l as [|a l IH]; [done|]. cbn [fmap list_fmap concat length]. rewrite length_app, Hf, IH. done. Qed.

Lemma concat_bytes {A} (f : A -> bytes) l : (forall a, is_bytes (f a)) -> is_bytes (concat (f <$> l)).
Proof. intros Hf. induction l as [|a l IH]; [constructor|]. cbn [fmap list_fmap concat]. apply Forall_app. split; [apply Hf | exact IH]. Qed.

Lemma readMany_wire {A} (f : bytes -> outcome A) (enc : A -> bytes) (ok : A -> Prop) w l tl :
  (forall a tl, ok a -> is_bytes tl -> f (enc a ++ tl) = Ret a) -> (forall a, length (enc a) = w) -> (forall a, is_bytes (enc a)) ->
  Forall ok l -> is_bytes tl -> readMany f w (length l) (concat (enc <$> l) ++ tl) = Ret l.
Proof.
  intros Hf Hw Hb Hl Ht. induction Hl as [|a l Ha Hl IH]; [done|]. cbn [fmap list_fmap concat length readMany].
  rewrite <- app_assoc, Hf; [|done | apply Forall_app; split; [apply concat_bytes, Hb | done]]. rewrite outcome_bind_ret_l.
  rewrite drop_app_ge, Hw, Nat.sub_diag, drop_0 by (rewrite Hw; lia). rewrite IH. done.
Qed.

(** Big-endian words followed by other bytes. *)
Lemma word_take n v tl : take n (be_encode n v ++ tl) = be_encode n v.
Proof. rewrite take_app_le, take_ge; rewrite ?be_encode_length; done. Qed.

Ltac read_word spec :=
  rewrite spec by ((apply Forall_app; split; [apply be_encode_bytes | done]) || (rewrite length_app, be_encode_length; lia));
  rewrite word_take, be_decode_encode; f_equal; apply wrap_small; done.

Lemma readU16_wire v tl : in_width 16 v -> is_bytes tl -> readU16 (be_encode 2 v ++ tl) = Ret v.
Proof. intros. read_word readU16_spec. Qed.
Lemma readU24_wire v tl : in_width 24 v -> is_bytes tl -> readU24 (be_encode 3 v ++ tl) = Ret v.
Proof. intros. read_word readU24_spec. Qed.
Lemma readU32_wire v tl : in_width 32 v -> is_bytes tl -> readU32 (be_encode 4 v ++ tl) = Ret v.
Proof. intros. read_word readU32_spec. Qed.
Lemma readU64_wire v tl : in_width 64 v -> is_bytes tl -> readU64 (be_encode 8 v ++ tl) = Ret v.
Proof. intros. read_word readU64_spec. Qed.

Lemma readAsn_wire use4 v tl :
  in_width (8 * Z.of_nat (asnBytes use4)) v -> is_bytes tl -> readAsn use4 (be_encode (asnBytes use4) v ++ tl) = Ret v.
Proof. destruct use4; [apply readU32_wire | apply readU16_wire]. Qed.

(** ** AS paths *)

(** A segment on the wire. *)
Definition seg_wire (use4 : bool) (seg : AsPathSegment) : bytes :=
  [segmentType seg; Z.of_nat (length (asns seg))] ++ concat (be_encode (asnBytes use4) <$> asns seg).
Definition path_wire (use4 : bool) (segs : list AsPathSegment) : bytes := concat (seg_wire use4 <$> segs).

Definition seg_ok (use4 : bool) (seg : AsPathSegment) : Prop :=
  in_width 8 (segmentType seg) /\ (length (asns seg) < 256)%nat /\ Forall (in_width (8 * Z.of_nat (asnBytes use4))) (asns seg).

(** The last segment has two numbers or more. *)
Definition ends_long (segs : list AsPathSegment) : bool :=
  match last segs with None => true | Some seg => (2 <=? length (asns seg))%nat end.

#[export] Instance seg_ok_dec use4 seg : Decision (seg_ok use4 seg).
Proof. unfold seg_ok. apply _. Defined.

Lemma seg_wire_length use4 seg : length (seg_wire use4 seg) = (2 + length (asns seg) * asnBytes use4)%nat.
Proof. unfold seg_wire. rewrite length_app, (concat_length _ (asnBytes use4)) by (intros; apply be_encode_length). done. Qed.

Lemma seg_wire_bytes use4 seg : seg_ok use4 seg -> is_bytes (seg_wire use4 seg).
Proof.
  intros (H1 & H2 & _). unfold seg_wire. constructor; [done|]. constructor; [unfold in_width; lia|]. apply concat_bytes. intros. apply be_encode_bytes.
Qed.

Lemma path_wire_bytes use4 segs : Forall (seg_ok use4) segs -> is_bytes (path_wire use4 segs).
Proof.
  unfold path_wire. induction 1 as [|seg segs Hs _ IH]; [constructor|]. cbn [fmap list_fmap concat]. apply Forall_app.
  split; [apply seg_wire_bytes, Hs | exact IH].
Qed.

(** A path that ends long is long. *)
Lemma ends_long_length use4 seg segs :
  ends_long (seg :: segs) = true -> (2 + 2 * asnBytes use4 <= length (path_wire use4 (seg :: segs)))%nat.
Proof.
  unfold ends_long, path_wire. revert seg. induction segs as [|seg' segs IH]; intros seg Hl; cbn [fmap list_fmap concat].
  - cbn [last] in Hl. rewrite length_app, seg_wire_length. apply Nat.leb_le in Hl. destruct use4; cbn [asnBytes length]; lia.
  - rewrite length_app. rewrite last_cons_cons in Hl. specialize (IH seg' Hl). cbn [fmap list_fmap concat] in IH. lia.
Qed.

Lemma parseAsPath_wire use4 segs rest :
  Forall (seg_ok use4) segs -> is_bytes rest ->
  forall pre fuel acc, (length (path_wire use4 segs) < fuel)%nat ->
  parseAsPath fuel use4 (mkSpan (pre ++ path_wire use4 segs ++ rest) (length pre + length (path_wire use4 segs))) (length pre) acc =
    Ret (if ends_long segs then Some (acc ++ segs) else None).
Proof.
  intros Hok Hr. induction Hok as [|seg segs Hs Hok IH]; intros pre fuel acc Hf; (destruct fuel as [|fuel]; [lia|]).
  - cbn [parseAsPath sp_size path_wire fmap list_fmap concat length]. rewrite (proj2 (Nat.ltb_lt _ _)), app_nil_r by lia. done.
  - pose proof Hs as (Ht & Hn & Ha). set (n := length (asns seg)) in *. unfold path_wire in *. cbn [fmap list_fmap concat] in *.
    set (tl := concat (seg_wire use4 <$> segs)) in *. rewrite length_app, seg_wire_length in *. fold n in Hf |- *.
    assert (Htl : is_bytes (tl ++ rest)) by (apply Forall_app; split; [apply path_wire_bytes, Hok | done]).
    assert (Hv : pre ++ (seg_wire use4 seg ++ tl) ++ rest = pre ++ segmentType seg :: Z.of_nat n :: concat (be_encode (asnBytes use4) <$> asns seg) ++ tl ++ rest).
    { unfold seg_wire. fold n. rewrite <- !app_assoc. done. }
    rewrite Hv. cbn [parseAsPath sp_size sp_ptr]. rewrite (proj2 (Nat.ltb_ge _ _)) by lia.
    unfold Prelude.rd. rewrite (lookup_app_r pre _ (length pre)), Nat.sub_diag by lia. cbn [lookup list_lookup]. rewrite outcome_bind_ret_l.
    rewrite lookup_app_r by lia. replace (length pre + 1 - length pre)%nat with 1%nat by lia. cbn [lookup list_lookup]. rewrite outcome_bind_ret_l, Nat2Z.id.
    assert (Hel : ends_long (seg :: segs) = match segs with [] => (2 <=? n)%nat | _ => ends_long segs end) by (destruct segs; done).
    destruct (Nat.ltb_spec (length pre + (2 + n * asnBytes use4 + length tl)) (length pre + 2 + n + asnBytes use4)) as [Hshort|Hlong].
    + replace (ends_long (seg :: segs)) with false; [done|]. symmetry. rewrite Hel. destruct segs as [|seg2 segs].
      * apply Nat.leb_gt. cbn in Hshort. destruct use4; cbn [asnBytes] in Hshort; lia.
      * destruct (ends_long (seg2 :: segs)) eqn:E; [|done]. exfalso. apply (ends_long_length use4) in E. unfold path_wire in E. fold tl in E.
        destruct use4; cbn [asnBytes] in *; lia.
    + assert (Hd : drop (length pre + 2) (pre ++ segmentType seg :: Z.of_nat n :: concat (be_encode (asnBytes use4) <$> asns seg) ++ tl ++ rest) =
        concat (be_encode (asnBytes use4) <$> asns seg) ++ tl ++ rest).
      { rewrite drop_app_ge by lia. replace (length pre + 2 - length pre)%nat with 2%nat by lia. done. }
      rewrite Hd. assert (Hrm : readMany (readAsn use4) (asnBytes use4) n (concat (be_encode (asnBytes use4) <$> asns seg) ++ tl ++ rest) = Ret (asns seg)).
      { apply (readMany_wire _ _ (in_width (8 * Z.of_nat (asnBytes use4)))); [intros; apply readAsn_wire; done | intros; apply be_encode_length | intros; apply be_encode_bytes | done | done]. }
      rewrite Hrm, outcome_bind_ret_l. specialize (IH (pre ++ seg_wire use4 seg) fuel (acc ++ [seg])). rewrite <- Hv.
      rewrite length_app, seg_wire_length, <- !app_assoc in IH. fold n in IH. rewrite <- !app_assoc.
      replace (length pre + (2 + n * asnBytes use4 + length tl))%nat with (length pre + (2 + n * asnBytes use4) + length tl)%nat by lia.
      replace (length pre + 2 + n * asnBytes use4)%nat with (length pre + (2 + n * asnBytes use4))%nat by lia.
      replace (mkSegment (segmentType seg) (asns seg)) with seg by (destruct seg; done). rewrite IH by lia. rewrite Hel, <- ?app_assoc. destruct segs; [|done].
      cbn [ends_long last]. rewrite (proj2 (Nat.leb_le 2 n)); [done|]. cbn in Hlong. destruct use4; cbn [asnBytes] in Hlong; lia.
Qed.

Lemma as_path_attr_wire (use4 : bool) (segs : list AsPathSegment) (rest : bytes) (st : ParseState) :
  Forall (seg_ok use4) segs -> is_bytes rest -> asPath (attrs (uinfo st)) = [] ->
  let v := mkSpan (path_wire use4 segs ++ rest) (length (path_wire use4 segs)) in
  parseAsPathAttr use4 false true v st =
    (if ends_long segs then Ret (inl (on_attrs (fun a => set_asPaths segs (as4Path a) a) st)) else refuse 0x030B).
Proof.
  intros Hs Hr Hst v. unfold parseAsPathAttr. cbn [orb negb]. rewrite Hst. unfold v. cbn [sp_size].
  pose proof (parseAsPath_wire use4 segs rest Hs Hr [] (S (length (path_wire use4 segs))) [] ltac:(lia)) as K.
  cbn [app length Nat.add] in K. rewrite K, outcome_bind_ret_l. destruct (ends_long segs); done.
Qed.

(** Writing a path and reading it gives the path back if its last segment has
    two AS numbers or more; otherwise, as with every path of a neighboring AS
    that originates the route, it is refused as malformed. *)
Theorem as_path_accepted_iff (use4 : bool) (segs : list AsPathSegment) (rest : bytes) (st : ParseState) :
  Forall (seg_ok use4) segs -> is_bytes rest -> asPath (attrs (uinfo st)) = [] ->
  let v := mkSpan (path_wire use4 segs ++ rest) (length (path_wire use4 segs)) in
  parseAsPathAttr use4 false true v st =
    (if ends_long segs then Ret (inl (on_attrs (fun a => set_asPaths segs (as4Path a) a) st)) else refuse 0x030B).
Proof. apply as_path_attr_wire. Qed.

Lemma as_path_accepted_iff_witness :
  let st := mkParse IncomingUpdate_new None None in
  parseAsPathAttr true false true (mkSpan (path_wire true [mkSegment 2 [65001]] ++ []) 6) st = refuse 0x030B /\
  parseAsPathAttr true false true (mkSpan (path_wire true [mkSegment 2 [65001; 65002]] ++ []) 10) st =
    Ret (inl (on_attrs (fun a => set_asPaths [mkSegment 2 [65001; 65002]] (as4Path a) a) st)).
Proof.
  intros st. split; [exact (as_path_accepted_iff true [mkSegment 2 [65001]] [] st ltac:(by_compute) ltac:(by_compute) eq_refl)|].
  exact (as_path_accepted_iff true [mkSegment 2 [65001; 65002]] [] st ltac:(by_compute) ltac:(by_compute) eq_refl).
Defined.

(** ** Reads of the attribute parser stay in the buffer *)

Lemma returns_refuse c : returns (refuse c).
Proof. apply returns_ret. Qed.

Lemma rd_byte p i : is_bytes p -> (i < length p)%nat -> exists b, Prelude.rd p i = Ret b /\ in_width 8 b.
Proof.
  intros Hb Hi. destruct (lookup_lt_is_Some_2 p i Hi) as [b E]. exists b. unfold Prelude.rd. rewrite E. split; [done|].
  eapply Forall_lookup_1; done.
Qed.

Lemma readU16_total p : is_bytes p -> (2 <= length p)%nat -> exists v, readU16 p = Ret v /\ in_width 16 v.
Proof. intros Hb Hl. rewrite readU16_spec by done. eexists. split; [done|]. apply be_decode_take_in_width; done || lia. Qed.
Lemma readU32_total p : is_bytes p -> (4 <= length p)%nat -> exists v, readU32 p = Ret v /\ in_width 32 v.
Proof. intros Hb Hl. rewrite readU32_spec by done. eexists. split; [done|]. apply be_decode_take_in_width; done || lia. Qed.
Lemma readU64_total p : is_bytes p -> (8 <= length p)%nat -> exists v, readU64 p = Ret v /\ in_width 64 v.
Proof. intros Hb Hl. rewrite readU64_spec by done. eexists. split; [done|]. apply be_decode_take_in_width; done || lia. Qed.

Lemma readAsn_total use4 p : is_bytes p -> (asnBytes use4 <= length p)%nat -> exists v, readAsn use4 p = Ret v /\ True.
Proof.
  intros Hb Hl. destruct use4; [destruct (readU32_total p Hb Hl) as (v & ? & _) | destruct (readU16_total p Hb Hl) as (v & ? & _)]; eauto.
Qed.

Lemma readTriple_total p : is_bytes p -> (12 <= length p)%nat -> exists v, readTriple p = Ret v /\ True.
Proof.
  intros Hb Hl. unfold readTriple.
  destruct (readU32_total p Hb ltac:(lia)) as (a & -> & _). rewrite outcome_bind_ret_l.
  destruct (readU32_total (drop 4 p) ltac:(auto with width) ltac:(rewrite length_drop; lia)) as (b & -> & _). rewrite outcome_bind_ret_l.
  destruct (readU32_total (drop 8 p) ltac:(auto with width) ltac:(rewrite length_drop; lia)) as (c & -> & _). eauto.
Qed.

Lemma readMany_total {A} (f : bytes -> outcome A) w n p :
  (forall q, is_bytes q -> (w <= length q)%nat -> exists v, f q = Ret v /\ True) -> is_bytes p -> (n * w <= length p)%nat ->
  exists l, readMany f w n p = Ret l /\ length l = n.
Proof.
  intros Hf. revert p. induction n as [|n IH]; intros p Hb Hl; cbn [readMany]; [eauto|].
  destruct (Hf p Hb) as (v & -> & _); [cbn in Hl; lia|]. rewrite outcome_bind_ret_l.
  destruct (IH (drop w p)) as (l & -> & Hl'); [auto with width | rewrite length_drop; cbn in Hl; lia|]. rewrite outcome_bind_ret_l. eexists. split; [done|].
  cbn. congruence.
Qed.

(** A value of an attribute, with the bytes of the buffer behind it. *)
Definition value_ok (v : span) : Prop := is_bytes (sp_ptr v) /\ (sp_size v + 761 <= length (sp_ptr v))%nat.

Ltac in_span := rewrite ?length_drop; unfold value_ok in *; lia.

(** Evaluates the next read. *)
Ltac read_step :=
  lazymatch goal with
  | |- returns (Prelude.rd ?p ?i ≫= _) => apply (returns_bind _ _ (in_width 8)); [apply rd_byte; [auto with width | in_span]|]
  | |- returns (readU16 ?p ≫= _) => apply (returns_bind _ _ (in_width 16)); [apply readU16_total; [auto with width | in_span]|]
  | |- returns (readU32 ?p ≫= _) => apply (returns_bind _ _ (in_width 32)); [apply readU32_total; [auto with width | in_span]|]
  | |- returns (readU64 ?p ≫= _) => apply (returns_bind _ _ (in_width 64)); [apply readU64_total; [auto with width | in_span]|]
  end; let x := fresh "x" in let Hx := fresh "Hx" in intros x Hx.

(** Splits on the guards. *)
Ltac guards :=
  repeat lazymatch goal with
  | |- returns (if ?b then _ else _) => destruct b eqn:?
  | |- returns (Ret _) => apply returns_ret
  | |- returns (refuse _) => apply returns_refuse
  | |- returns (wellKnownFlagError _) => apply returns_ret
  end.

Ltac nat_bools :=
  repeat match goal with
  | H : negb _ = false |- _ => apply negb_false_iff in H
  | H : (_ =? _)%nat = true |- _ => apply Nat.eqb_eq in H
  | H : (_ <? _)%nat = false |- _ => apply Nat.ltb_ge in H
  | H : (_ <? _)%nat = true |- _ => apply Nat.ltb_lt in H
  | H : (_ <=? _)%nat = false |- _ => apply Nat.leb_gt in H
  | H : (_ <=? _)%nat = true |- _ => apply Nat.leb_le in H
  end.

Lemma parseAsPath_total fuel use4 v ap segs :
  value_ok v -> (0 < fuel)%nat -> (sp_size v < fuel + ap)%nat -> returns (parseAsPath fuel use4 v ap segs).
Proof.
  intros [Hb Hl]. revert ap segs. induction fuel as [|fuel IH]; intros ap segs H0 Hf; [lia|]. cbn [parseAsPath]. guards. nat_bools.
  read_step. read_step. cbv zeta. guards. nat_bools. unfold in_width in *.
  apply (returns_bind _ _ (fun l => length l = Z.to_nat x0)).
  - apply readMany_total; [apply readAsn_total | auto with width|]. rewrite length_drop. destruct use4; cbn [asnBytes] in *; lia.
  - intros l _. apply IH; lia.
Qed.

Lemma parseAs4Path_total fuel v ap segs :
  value_ok v -> (0 < fuel)%nat -> (sp_size v < fuel + ap)%nat -> returns (parseAs4Path fuel v ap segs).
Proof.
  intros [Hb Hl]. revert ap segs. induction fuel as [|fuel IH]; intros ap segs H0 Hf; [lia|]. cbn [parseAs4Path]. guards. nat_bools.
  read_step. read_step. cbv zeta. guards. nat_bools. unfold in_width in *.
  apply (returns_bind _ _ (fun l => length l = Z.to_nat x0)).
  - apply readMany_total; [apply (readAsn_total true) | auto with width|]. rewrite length_drop. lia.
  - intros l _. apply IH; lia.
Qed.

Lemma skipSnpa_total n p attrLen pos :
  is_bytes p -> (attrLen <= length p)%nat -> returns (skipSnpa n p attrLen pos).
Proof.
  intros Hb Hl. revert pos. induction n as [|n IH]; intros pos; cbn [skipSnpa]; guards. nat_bools. read_step. apply IH.
Qed.

Lemma copyU128_total p : (16 <= length p)%nat -> exists v, copyU128 p = Ret v /\ True.
Proof. intros Hl. unfold copyU128. rewrite (proj2 (Nat.ltb_ge _ _)) by done. eauto. Qed.

Lemma parseMpNextHop_total afi nhLen p st :
  is_bytes p -> (Z.to_nat nhLen <= length p)%nat -> returns (parseMpNextHop afi nhLen p st).
Proof.
  intros Hb Hl. unfold parseMpNextHop. guards; zbools; subst.
  - apply (returns_bind _ _ (fun _ => True)); [apply copyU128_total; lia|]. intros. apply returns_ret.
  - apply (returns_bind _ _ (fun _ => True)); [apply copyU128_total; lia|]. intros.
    apply (returns_bind _ _ (fun _ => True)); [apply copyU128_total; rewrite length_drop; lia|]. intros. apply returns_ret.
  - read_step. apply returns_ret.
  - read_step. read_step. apply returns_ret.
Qed.

Lemma parseMpReach_total v st : value_ok v -> returns (parseMpReach v st).
Proof.
  intros [Hb Hl]. unfold parseMpReach. cbv zeta. guards. nat_bools. read_step. read_step. read_step. unfold in_width in *. guards. nat_bools.
  apply (returns_bind _ _ (fun _ => True)).
  - destruct (parseMpNextHop_total x x1 (drop 4 (sp_ptr v)) (set_reach (Some (mkAfiSafi x x0)) (unreachAfi st) st)) as [st' ->];
      [auto with width | rewrite length_drop; lia | eauto].
  - intros st' _. guards. nat_bools. read_step.
    apply (returns_bind _ _ (fun _ => True)); [|intros; apply returns_ret].
    destruct (skipSnpa_total (Z.to_nat x2) (sp_ptr v) (sp_size v) (4 + Z.to_nat x1 + 1) Hb ltac:(lia)) as [q ->]. eauto.
Qed.

(** Every handler returns, and reads no more than 761 bytes behind the value. *)
Lemma parseValue_total use4 flags type v st : value_ok v -> returns (parseValue use4 flags type v st).
Proof.
  intros [Hb Hl]. assert (Hv : value_ok v) by done. unfold parseValue. cbv zeta.
  repeat match goal with |- returns (if type =? ?k then _ else _) => destruct (type =? k) end.
  - unfold parseOrigin. guards. nat_bools. read_step. guards.
  - unfold parseAsPathAttr. guards. destruct (parseAsPath_total (S (sp_size v)) use4 v 0 (asPath (attrs (uinfo st))) Hv) as [r ->]; [lia|lia|].
    rewrite outcome_bind_ret_l. destruct r; guards.
  - unfold parseNextHop. guards. nat_bools. read_step. guards.
  - unfold parseMed. guards. nat_bools. read_step. guards.
  - unfold parseLocalPref. guards. nat_bools. read_step. guards.
  - unfold parseAggregator. cbv zeta. guards. nat_bools. apply (returns_bind _ _ (fun _ => True)).
    + apply readAsn_total; [done|]. destruct use4; cbn; lia.
    + intros. assert (asnBytes use4 <= 4)%nat by (destruct use4; cbn; lia). read_step. guards.
  - unfold parseCommunities. guards. nat_bools.
    apply (returns_bind _ _ (fun l => length l = (sp_size v / 4)%nat)); [apply readMany_total; [apply (readAsn_total true) | done|]|intros; guards].
    pose proof (Nat.Div0.mul_div_le (sp_size v) 4). lia.
  - unfold parseOriginatorId. guards. nat_bools. read_step. guards.
  - unfold parseClusterList. guards. nat_bools.
    apply (returns_bind _ _ (fun l => length l = (sp_size v / 4)%nat)); [apply readMany_total; [apply (readAsn_total true) | done|]|intros; guards].
    pose proof (Nat.Div0.mul_div_le (sp_size v) 4). lia.
  - apply parseMpReach_total, Hv.
  - unfold parseMpUnreach. cbv zeta. guards. nat_bools. read_step. read_step. guards.
  - unfold parseAs4PathAttr. destruct (parseAs4Path_total (S (sp_size v)) v 0 (as4Path (attrs (uinfo st))) Hv) as [r ->]; [lia|lia|].
    rewrite outcome_bind_ret_l. guards.
  - unfold parseAs4Aggregator. guards. nat_bools. read_step. read_step. guards.
  - unfold parseAigp. cbv zeta. guards. nat_bools. read_step. guards. read_step. guards. read_step. guards.
  - unfold parseLargeCommunities. guards. nat_bools.
    apply (returns_bind _ _ (fun l => length l = (sp_size v / 12)%nat)); [apply readMany_total; [apply readTriple_total | done|]|intros; guards].
    pose proof (Nat.Div0.mul_div_le (sp_size v) 12). lia.
  - unfold parseUnknown. guards.
Qed.

Section Total.
  Context {S : Type} `{RxSession S}.

Lemma parseLoop_total fuel (s : S) d pos st :
  value_ok d -> (0 < fuel)%nat -> (sp_size d < fuel + pos)%nat -> returns (parseLoop fuel s d pos st).
Proof.
  intros [Hb Hl]. revert pos st. induction fuel as [|fuel IH]; intros pos st H0 Hf; [lia|]. cbn [parseLoop]. guards. nat_bools.
  read_step. read_step. cbv zeta. guards. nat_bools. apply (returns_bind _ _ (fun l => 0 <= l)).
  - destruct (has_flag _ _).
    + destruct (readU16_total (drop (pos + 2) (sp_ptr d))) as (v & -> & Hv); [auto with width | rewrite length_drop; lia|]. exists v. split; [done | apply Hv].
    + destruct (rd_byte (sp_ptr d) (pos + 2) Hb ltac:(lia)) as (v & -> & Hv). exists v. split; [done | apply Hv].
  - intros l Hl0. destruct (Nat.ltb_spec (sp_size d) (pos + 2 + (if has_flag x BGP_ATTR_FLAG_EXTENDED_LENGTH then 2 else 1) + Z.to_nat l)%nat); [apply returns_refuse|].
    assert (Hp : (pos + 3 <= pos + 2 + (if has_flag x BGP_ATTR_FLAG_EXTENDED_LENGTH then 2 else 1))%nat) by (destruct (has_flag _ _); lia).
    destruct (attrDiscard s x0); [apply IH; lia|]. destruct (attrWithdraw s x0); [apply returns_ret|].
    apply (returns_bind _ _ (fun _ => True)).
    + destruct (parseValue_total (asn32bit s) x x0 (mkSpan (drop (pos + 2 + (if has_flag x BGP_ATTR_FLAG_EXTENDED_LENGTH then 2 else 1)) (sp_ptr d)) (Z.to_nat l)) st) as [r ->]; [|eauto].
      split; [apply is_bytes_drop, Hb|]. cbn [sp_ptr sp_size]. rewrite length_drop. lia.
    + intros [st'|e] _; [apply IH; lia | apply returns_ret].
Qed.

(** Reading the attributes of an update ends, and reads no more than 761 bytes
    behind them: with that many bytes of the buffer left it cannot leave it,
    whatever the attributes say. *)
Theorem attributes_read_bounded (s : S) (d : span) (u : IncomingUpdate) :
  is_bytes (sp_ptr d) -> (sp_size d + 761 <= length (sp_ptr d))%nat -> returns (parsePathAttributes s d u).
Proof.
  intros Hb Hl. unfold parsePathAttributes. apply (returns_bind _ _ (fun _ => True)).
  - destruct (parseLoop_total (Datatypes.S (sp_size d)) s d 0 (mkParse u None None)) as [r ->]; [done | lia | lia | eauto].
  - intros [st|e] _; apply returns_ret.
Qed.
End Total.

(** An AS PATH of 261 bytes whose one segment claims 255 numbers of four
    bytes. *)
Definition long_as_path : bytes := [0x50; 2; 1; 5; 2; 255] ++ replicate 259 0.

(** With 761 bytes behind it, it is read; with one byte less, the read leaves
    the buffer. *)
Lemma attributes_read_bounded_witness :
  returns (parsePathAttributes test_new (mkSpan (long_as_path ++ replicate 761 0) 265) IncomingUpdate_new) /\
  parsePathAttributes test_new (mkSpan (long_as_path ++ replicate 760 0) 265) IncomingUpdate_new = UB.
Proof.
  split; [|vm_compute; reflexivity].
  apply (attributes_read_bounded test_new (mkSpan (long_as_path ++ replicate 761 0) 265) IncomingUpdate_new); by_compute.
Defined.
