(* ===== verification/BgpTx.v ===== *)
(** * BgpTx: writing BGP messages (routing/bgp/transport/BgpTx.cpp)

    A builder writes a message piece by piece: for every piece it reserves a
    span in the transmit buffer of the connection and fills it. The model of a
    builder is the list of its reservations, each with what is written there, in
    their order. No builder commits what it has written, so that the pieces are
    written over one another and nothing of them is queued or sent
    ([TcpBuffers.pieces_overlap], [TcpEngineProps.nothing_is_sent]). What is shown
    here is about the pieces themselves: laid end to end, as they would be if
    every reservation were committed, they are the encoding that the receiver
    of [BgpUpdate] reads. *)

From S2P Require Import Prelude BgpFsm RxBuffer TcpBuffers ByteUtils IPAddress BestPath AttributeManager BgpRx BgpUpdate.

(** ** Pieces *)

(** The pieces, each a reservation and what is written there, and the size of
    the attributes that is counted. *)
Record Out := mkOut { attrsSize : nat; chunks : list bytes }.

(** The pieces laid end to end. *)
Definition wire (o : Out) : bytes := concat (chunks o).

Definition reserve (bs : bytes) (o : Out) : Out := mkOut (attrsSize o) (chunks o ++ [bs]).
Definition reserveAll (l : list bytes) (o : Out) : Out := fold_left (fun o bs => reserve bs o) l o.

(** [routing/bgp/BgpTypes.hpp:20-20] kAsTrans *)
Definition kAsTrans : Z := 23456.

(** [routing/bgp/transport/BgpTx.cpp:13-21] BgpTx::buildHeader *)
Definition buildHeader (type payloadSize : Z) : bytes := BGP_MARKER ++ be_encode 2 (u16 (payloadSize + Z.of_nat headerSize)) ++ [type].

(** [routing/bgp/transport/BgpTx.cpp:329-350] BgpTx::appendAttrHdr *)
Definition appendAttrHdr (flags type : Z) (valueLen : nat) (o : Out) : Out :=
  let o := mkOut (attrsSize o + valueLen) (chunks o) in
  if (255 <? valueLen)%nat then
    reserve ([Z.lor flags BGP_ATTR_FLAG_EXTENDED_LENGTH; type] ++ be_encode 2 (u16 (Z.of_nat valueLen))) (mkOut (attrsSize o + 4) (chunks o))
  else
    reserve [flags; type; u8 (Z.of_nat valueLen)] (mkOut (attrsSize o + 3) (chunks o)).

Definition TRANSITIVE : Z := BGP_ATTR_FLAG_TRANSITIVE.
Definition OPTIONAL : Z := BGP_ATTR_FLAG_OPTIONAL.
Definition OPT_TRANS : Z := Z.lor BGP_ATTR_FLAG_OPTIONAL BGP_ATTR_FLAG_TRANSITIVE.

(** An attribute present only if there is a value. *)
Definition whenSome {A} (x : option A) (f : A -> Out -> Out) (o : Out) : Out := match x with Some a => f a o | None => o end.
Definition whenMany {A} (l : list A) (f : Out -> Out) (o : Out) : Out := match l with [] => o | _ => f o end.

(** The pieces of the segments of a path, with the AS numbers written by [put]. *)
Definition segChunks (put : Z -> bytes) (seg : AsPathSegment) : list bytes :=
  [segmentType seg; u8 (Z.of_nat (length (asns seg)))] :: map put (asns seg).

(** A number that does not fit in two bytes is replaced. *)
Definition as2 (asn : Z) : Z := if 65535 <? asn then kAsTrans else asn.

(** [routing/bgp/transport/BgpTx.cpp:367-397] BgpTx::appendPathAttrs, AS PATH *)
Definition appendAsPath (use4 : bool) (segs : list AsPathSegment) (o : Out) : Out :=
  whenMany segs (fun o =>
    let asLen := sum_list (map (fun seg => (2 + length (asns seg) * asnBytes use4)%nat) segs) in
    let put asn := if use4 then be_encode 4 asn else be_encode 2 (as2 asn) in
    reserveAll (concat (map (segChunks put) segs)) (appendAttrHdr TRANSITIVE BGP_ATTR_AS_PATH asLen o)) o.

(** [routing/bgp/transport/BgpTx.cpp:399-439] BgpTx::appendPathAttrs, AS4 PATH *)
Definition appendAs4Path (use4 : bool) (segs : list AsPathSegment) (o : Out) : Out :=
  if use4 then o
  else
    let as4 := List.filter (fun seg => negb (length (asns seg) =? 0)%nat)
                 (map (fun seg => mkSegment (segmentType seg) (List.filter (fun asn => 65535 <? asn) (asns seg))) segs) in
    whenMany as4 (fun o =>
      let as4Len := sum_list (map (fun seg => (2 + length (asns seg) * 4)%nat) as4) in
      reserveAll (concat (map (segChunks (be_encode 4)) as4)) (appendAttrHdr (Z.lor TRANSITIVE OPTIONAL) BGP_ATTR_AS4_PATH as4Len o)) o.

(** [routing/bgp/transport/BgpTx.cpp:468-499] BgpTx::appendPathAttrs, AGGREGATOR and AS4 AGGREGATOR: the value of AGGREGATOR
    is written before the header of AS4 AGGREGATOR is reserved *)
Definition appendAggregator (use4 : bool) (agg : Aggregator) (o : Out) : Out :=
  let sp := be_encode 4 (IPAddress_v4 (speaker agg)) in
  let o := appendAttrHdr OPT_TRANS BGP_ATTR_AGGREGATOR (if use4 then 8 else 6) o in
  if use4 then reserve (be_encode 4 (ag_asn agg) ++ sp) o
  else
    let o := reserve (be_encode 2 (as2 (ag_asn agg)) ++ sp) o in
    if 65535 <? ag_asn agg then reserve (be_encode 4 (ag_asn agg) ++ sp) (appendAttrHdr OPT_TRANS BGP_ATTR_AS4_AGGREGATOR 8 o) else o.

Definition lc_chunk (lc : Z * Z * Z) : bytes := be_encode 4 lc.1.1 ++ be_encode 4 lc.1.2 ++ be_encode 4 lc.2.

(** [routing/bgp/transport/BgpTx.cpp:567-573] BgpTx::appendPathAttrs, unknown attributes *)
Definition appendUnknown (l : list UnknownAttribute) (o : Out) : Out :=
  fold_left (fun o ua => reserve (ua_value ua)
    (appendAttrHdr (Z.lor (ua_flags ua) BGP_ATTR_FLAG_PARTIAL) (ua_type ua) (length (ua_value ua)) o)) l o.

(** [routing/bgp/transport/BgpTx.cpp:352-576] BgpTx::appendPathAttrs *)
Definition appendPathAttrs (use4 ebgp : bool) (a : Attributes) (p : Path) (o : Out) : Out :=
  let word v := reserve (be_encode 4 v) in
  let o := whenSome (origin a) (fun v o => reserve [v] (appendAttrHdr TRANSITIVE BGP_ATTR_ORIGIN 1 o)) o in
  let o := appendAsPath use4 (asPath a) o in
  let o := appendAs4Path use4 (as4Path a) o in
  let o := word (IPAddress_v4 (nextHop p)) (appendAttrHdr TRANSITIVE BGP_ATTR_NEXT_HOP 4 o) in
  let o := whenSome (med a) (fun v o => word v (appendAttrHdr OPTIONAL BGP_ATTR_MULTI_EXIT_DISC 4 o)) o in
  let o := (if ebgp then o else whenSome (localPref a) (fun v o => word v (appendAttrHdr TRANSITIVE BGP_ATTR_LOCAL_PREF 4 o)) o) in
  let o := (if atomicAggregate a then appendAttrHdr TRANSITIVE BGP_ATTR_ATOMIC_AGGREGATE 0 o else o) in
  let o := whenSome (asAggregator a) (appendAggregator use4) o in
  let o := whenMany (communities a) (fun o =>
    reserveAll (map (be_encode 4) (communities a)) (appendAttrHdr OPT_TRANS BGP_ATTR_COMMUNITIES (length (communities a) * 4) o)) o in
  let o := whenSome (originatorId a) (fun v o => word v (appendAttrHdr OPTIONAL BGP_ATTR_ORIGINATOR_ID 4 o)) o in
  let o := whenMany (clusterList a) (fun o =>
    reserveAll (map (be_encode 4) (clusterList a)) (appendAttrHdr OPTIONAL BGP_ATTR_CLUSTER_LIST (length (clusterList a) * 4) o)) o in
  let o := whenMany (extendedCommunities a) (fun o =>
    reserveAll (map (be_encode 8) (extendedCommunities a))
      (appendAttrHdr OPT_TRANS BGP_ATTR_EXTENDED_COMMUNITIES (length (extendedCommunities a) * 8) o)) o in
  let o := whenSome (aigp a) (fun v o => reserve ([1] ++ be_encode 2 11 ++ be_encode 8 v) (appendAttrHdr OPTIONAL BGP_ATTR_AIGP 11 o)) o in
  let o := whenMany (largeCommunities a) (fun o =>
    reserveAll (map lc_chunk (largeCommunities a))
      (appendAttrHdr OPT_TRANS BGP_ATTR_LARGE_COMMUNITIES (length (largeCommunities a) * 12) o)) o in
  appendUnknown (unknownTransitive a) o.

(** [routing/bgp/transport/BgpTx.cpp:623-623] BgpTx::buildNotification: the size of the message, of one byte *)
Definition notifSize (n : Notification) : Z := u8 (2 + Z.of_nat (length (data n))).

(** [routing/bgp/transport/BgpTx.cpp:620-630] BgpTx::buildNotification: what it reserves, and what it writes there *)
Definition buildNotification (n : Notification) : option (nat * bytes) :=
  if code n =? 0 then None
  else Some (headerSize + Z.to_nat (notifSize n), buildHeader 3 (notifSize n) ++ be_encode 2 (code n) ++ data n)%nat.

(** [routing/bgp/transport/BgpTx.cpp:632-636] BgpTx::buildKeepalive *)
Definition buildKeepalive : bytes := buildHeader 4 0.

(** ** What the attributes are on the wire *)

(** An attribute: its flags, type and value. *)
Definition tlv : Type := Z * Z * bytes.

Definition tlv_header (flags type : Z) (n : nat) : bytes :=
  if (255 <? n)%nat then [Z.lor flags BGP_ATTR_FLAG_EXTENDED_LENGTH; type] ++ be_encode 2 (Z.of_nat n) else [flags; type; Z.of_nat n].
Definition tlv_wire (t : tlv) : bytes := tlv_header t.1.1 t.1.2 (length t.2) ++ t.2.
Definition tlvs_wire (l : list tlv) : bytes := concat (tlv_wire <$> l).

Lemma tlvs_wire_app l1 l2 : tlvs_wire (l1 ++ l2) = tlvs_wire l1 ++ tlvs_wire l2.
Proof. unfold tlvs_wire. rewrite fmap_app, concat_app. done. Qed.

(** The pieces of the builder step [put] are the attributes [l], end to end, and
    it counts their size. *)
Definition writes (put : Out -> Out) (l : list tlv) : Prop :=
  forall o, wire (put o) = wire o ++ tlvs_wire l /\ attrsSize (put o) = (attrsSize o + length (tlvs_wire l))%nat.

Lemma wire_reserve bs o : wire (reserve bs o) = wire o ++ bs.
Proof. unfold wire, reserve. cbn [chunks]. rewrite concat_app. cbn [concat]. rewrite app_nil_r. done. Qed.

Lemma reserveAll_spec l o : wire (reserveAll l o) = wire o ++ concat l /\ attrsSize (reserveAll l o) = attrsSize o.
Proof.
  unfold reserveAll. revert o. induction l as [|bs l IH]; intros o; cbn [fold_left concat]; [rewrite app_nil_r; done|].
  destruct (IH (reserve bs o)) as [-> ->]. rewrite wire_reserve, app_assoc. done.
Qed.

Lemma appendAttrHdr_spec flags type n o :
  Z.of_nat n < 65536 ->
  wire (appendAttrHdr flags type n o) = wire o ++ tlv_header flags type n /\
  attrsSize (appendAttrHdr flags type n o) = (attrsSize o + length (tlv_header flags type n) + n)%nat.
Proof.
  intros Hn. unfold appendAttrHdr, tlv_header. destruct (Nat.ltb_spec 255 n) as [H|H]; rewrite wire_reserve; unfold wire; cbn [chunks attrsSize reserve].
  - rewrite wrap_small by (unfold in_width; lia). split; [done|]. rewrite length_app, be_encode_length. cbn [length]. lia.
  - rewrite wrap_small by (unfold in_width; lia). split; [done|]. cbn [length]. lia.
Qed.

Lemma writes_id : writes (fun o => o) [].
Proof. intros o. cbn. rewrite app_nil_r. split; [done | lia]. Qed.

Lemma writes_comp put1 put2 l1 l2 : writes put1 l1 -> writes put2 l2 -> writes (fun o => put2 (put1 o)) (l1 ++ l2).
Proof.
  intros H1 H2 o. destruct (H1 o) as [E1 S1]. destruct (H2 (put1 o)) as [E2 S2]. rewrite E2, E1, S2, S1, tlvs_wire_app, length_app, app_assoc. split; [done | lia].
Qed.

(** One attribute of the given pieces. *)
Lemma writes_attr flags type n vals :
  n = length (concat vals) -> Z.of_nat n < 65536 -> writes (fun o => reserveAll vals (appendAttrHdr flags type n o)) [(flags, type, concat vals)].
Proof.
  intros -> Hn o. destruct (reserveAll_spec vals (appendAttrHdr flags type (length (concat vals)) o)) as [-> ->].
  destruct (appendAttrHdr_spec flags type (length (concat vals)) o Hn) as [-> ->]. unfold tlvs_wire, tlv_wire. cbn [fmap list_fmap concat fst snd].
  rewrite app_nil_r, length_app, app_assoc. split; [done | lia].
Qed.

Lemma writes_one flags type n v :
  n = length v -> Z.of_nat n < 65536 -> writes (fun o => reserve v (appendAttrHdr flags type n o)) [(flags, type, v)].
Proof.
  intros Hn Hl. pose proof (writes_attr flags type n [v]) as K. cbn [concat] in K. rewrite app_nil_r in K. exact (K Hn Hl).
Qed.

Definition opt_tlv {A} (x : option A) (f : A -> tlv) : list tlv := match x with Some a => [f a] | None => [] end.
Definition many_tlv {A} (l : list A) (t : tlv) : list tlv := match l with [] => [] | _ => [t] end.

Lemma writes_whenSome {A} (x : option A) put (f : A -> tlv) :
  (forall a, x = Some a -> writes (put a) [f a]) -> writes (whenSome x put) (opt_tlv x f).
Proof. intros H. destruct x; [exact (H a eq_refl) | apply writes_id]. Qed.

Lemma writes_whenMany {A} (l : list A) put t : (l <> [] -> writes put [t]) -> writes (whenMany l put) (many_tlv l t).
Proof. intros H. destruct l; [apply writes_id | apply H; done]. Qed.

Lemma writes_unknown l :
  Forall (fun ua => Z.of_nat (length (ua_value ua)) < 65536) l ->
  writes (appendUnknown l) (map (fun ua => (Z.lor (ua_flags ua) BGP_ATTR_FLAG_PARTIAL, ua_type ua, ua_value ua)) l).
Proof.
  unfold appendUnknown. induction 1 as [|ua l Hl _ IH]; [apply writes_id|]. cbn [fold_left map].
  apply (writes_comp _ _ [_] _ (writes_one _ _ _ _ eq_refl Hl) IH).
Qed.

(** The attributes of a route for a neighbor that speaks four-byte AS
    numbers. *)
Definition attr_list (ebgp : bool) (a : Attributes) (p : Path) : list tlv :=
  let word v := be_encode 4 v in
  let l := opt_tlv (origin a) (fun v => (TRANSITIVE, BGP_ATTR_ORIGIN, [v])) in
  let l := l ++ many_tlv (asPath a) (TRANSITIVE, BGP_ATTR_AS_PATH, path_wire true (asPath a)) in
  let l := l ++ [(TRANSITIVE, BGP_ATTR_NEXT_HOP, word (IPAddress_v4 (nextHop p)))] in
  let l := l ++ opt_tlv (med a) (fun v => (OPTIONAL, BGP_ATTR_MULTI_EXIT_DISC, word v)) in
  let l := l ++ (if ebgp then [] else opt_tlv (localPref a) (fun v => (TRANSITIVE, BGP_ATTR_LOCAL_PREF, word v))) in
  let l := l ++ (if atomicAggregate a then [(TRANSITIVE, BGP_ATTR_ATOMIC_AGGREGATE, [])] else []) in
  let l := l ++ opt_tlv (asAggregator a) (fun agg => (OPT_TRANS, BGP_ATTR_AGGREGATOR, word (ag_asn agg) ++ word (IPAddress_v4 (speaker agg)))) in
  let l := l ++ many_tlv (communities a) (OPT_TRANS, BGP_ATTR_COMMUNITIES, concat (map word (communities a))) in
  let l := l ++ opt_tlv (originatorId a) (fun v => (OPTIONAL, BGP_ATTR_ORIGINATOR_ID, word v)) in
  let l := l ++ many_tlv (clusterList a) (OPTIONAL, BGP_ATTR_CLUSTER_LIST, concat (map word (clusterList a))) in
  let l := l ++ many_tlv (extendedCommunities a) (OPT_TRANS, BGP_ATTR_EXTENDED_COMMUNITIES, concat (map (be_encode 8) (extendedCommunities a))) in
  let l := l ++ opt_tlv (aigp a) (fun v => (OPTIONAL, BGP_ATTR_AIGP, [1] ++ be_encode 2 11 ++ be_encode 8 v)) in
  let l := l ++ many_tlv (largeCommunities a) (OPT_TRANS, BGP_ATTR_LARGE_COMMUNITIES, concat (map lc_chunk (largeCommunities a))) in
  l ++ map (fun ua => (Z.lor (ua_flags ua) BGP_ATTR_FLAG_PARTIAL, ua_type ua, ua_value ua)) (unknownTransitive a).

(** The attributes before and after ATOMIC AGGREGATE. *)
Definition attr_front (ebgp : bool) (a : Attributes) (p : Path) : list tlv :=
  opt_tlv (origin a) (fun v => (TRANSITIVE, BGP_ATTR_ORIGIN, [v])) ++
  many_tlv (asPath a) (TRANSITIVE, BGP_ATTR_AS_PATH, path_wire true (asPath a)) ++
  [(TRANSITIVE, BGP_ATTR_NEXT_HOP, be_encode 4 (IPAddress_v4 (nextHop p)))] ++
  opt_tlv (med a) (fun v => (OPTIONAL, BGP_ATTR_MULTI_EXIT_DISC, be_encode 4 v)) ++
  (if ebgp then [] else opt_tlv (localPref a) (fun v => (TRANSITIVE, BGP_ATTR_LOCAL_PREF, be_encode 4 v))).
Definition attr_back (a : Attributes) : list tlv :=
  opt_tlv (asAggregator a) (fun agg => (OPT_TRANS, BGP_ATTR_AGGREGATOR, be_encode 4 (ag_asn agg) ++ be_encode 4 (IPAddress_v4 (speaker agg)))) ++
  many_tlv (communities a) (OPT_TRANS, BGP_ATTR_COMMUNITIES, concat (map (be_encode 4) (communities a))) ++
  opt_tlv (originatorId a) (fun v => (OPTIONAL, BGP_ATTR_ORIGINATOR_ID, be_encode 4 v)) ++
  many_tlv (clusterList a) (OPTIONAL, BGP_ATTR_CLUSTER_LIST, concat (map (be_encode 4) (clusterList a))) ++
  many_tlv (extendedCommunities a) (OPT_TRANS, BGP_ATTR_EXTENDED_COMMUNITIES, concat (map (be_encode 8) (extendedCommunities a))) ++
  opt_tlv (aigp a) (fun v => (OPTIONAL, BGP_ATTR_AIGP, [1] ++ be_encode 2 11 ++ be_encode 8 v)) ++
  many_tlv (largeCommunities a) (OPT_TRANS, BGP_ATTR_LARGE_COMMUNITIES, concat (map lc_chunk (largeCommunities a))) ++
  map (fun ua => (Z.lor (ua_flags ua) BGP_ATTR_FLAG_PARTIAL, ua_type ua, ua_value ua)) (unknownTransitive a).

Lemma attr_list_split ebgp a p :
  attr_list ebgp a p =
    attr_front ebgp a p ++ (if atomicAggregate a then [(TRANSITIVE, BGP_ATTR_ATOMIC_AGGREGATE, [])] else []) ++ attr_back a.
Proof. unfold attr_list, attr_front, attr_back. cbv zeta. rewrite <- !app_assoc. done. Qed.

(** No value is longer than a length field can say. *)
Definition sizes_ok (a : Attributes) : Prop :=
  Z.of_nat (length (path_wire true (asPath a))) < 65536 /\ Z.of_nat (length (communities a) * 4) < 65536 /\
  Z.of_nat (length (clusterList a) * 4) < 65536 /\ Z.of_nat (length (extendedCommunities a) * 8) < 65536 /\
  Z.of_nat (length (largeCommunities a) * 12) < 65536 /\
  Forall (fun ua => Z.of_nat (length (ua_value ua)) < 65536) (unknownTransitive a) /\
  Forall (fun seg => (length (asns seg) < 256)%nat) (asPath a).

#[export] Instance sizes_ok_dec a : Decision (sizes_ok a).
Proof. unfold sizes_ok. apply _. Defined.

Lemma segChunks_wire seg : (length (asns seg) < 256)%nat -> concat (segChunks (be_encode 4) seg) = seg_wire true seg.
Proof. intros H. unfold segChunks, seg_wire. cbn [concat]. rewrite wrap_small by (unfold in_width; lia). done. Qed.

Lemma path_chunks segs :
  Forall (fun seg => (length (asns seg) < 256)%nat) segs ->
  concat (concat (map (segChunks (be_encode 4)) segs)) = path_wire true segs /\
  sum_list (map (fun seg => (2 + length (asns seg) * asnBytes true)%nat) segs) = length (path_wire true segs).
Proof.
  unfold path_wire. induction 1 as [|seg segs Hs _ [IH1 IH2]]; [done|]. cbn [map concat fmap list_fmap sum_list]. 
  rewrite concat_app, IH1, IH2, segChunks_wire, length_app, seg_wire_length by done. done.
Qed.

Lemma map_concat_length {A} (f : A -> bytes) w l : (forall a, length (f a) = w) -> length (concat (map f l)) = (length l * w)%nat.
Proof. apply concat_length. Qed.

Lemma lc_chunk_length lc : length (lc_chunk lc) = 12%nat.
Proof. unfold lc_chunk. rewrite !length_app, !be_encode_length. done. Qed.

Lemma writes_attrs ebgp a p : sizes_ok a -> writes (appendPathAttrs true ebgp a p) (attr_list ebgp a p).
Proof.
  intros (H1 & H2 & H3 & H4 & H5 & H6 & H7). destruct (path_chunks (asPath a) H7) as [P1 P2].
  assert (Hw : forall flags type v, writes (fun o => reserve (be_encode 4 v) (appendAttrHdr flags type 4 o)) [(flags, type, be_encode 4 v)])
    by (intros; apply writes_one; [rewrite be_encode_length; done | lia]).
  assert (W : writes (whenSome (origin a) (fun v o => reserve [v] (appendAttrHdr TRANSITIVE BGP_ATTR_ORIGIN 1 o)))
    (opt_tlv (origin a) (fun v => (TRANSITIVE, BGP_ATTR_ORIGIN, [v])))) by (apply writes_whenSome; intros; apply writes_one; [done | lia]).
  assert (W2 : writes (appendAsPath true (asPath a)) (many_tlv (asPath a) (TRANSITIVE, BGP_ATTR_AS_PATH, path_wire true (asPath a)))).
  { apply writes_whenMany. intros _. rewrite <- P1 in P2, H1 |- *. rewrite <- P2 in H1. exact (writes_attr TRANSITIVE BGP_ATTR_AS_PATH _ _ P2 H1). }
  pose proof (writes_comp _ _ _ _ W W2) as W'. clear W W2.
  pose proof (writes_comp _ _ _ _ W' (Hw TRANSITIVE BGP_ATTR_NEXT_HOP (IPAddress_v4 (nextHop p)))) as W. clear W'.
  pose proof (writes_comp _ _ _ _ W (writes_whenSome (med a) _ (fun v => (OPTIONAL, BGP_ATTR_MULTI_EXIT_DISC, be_encode 4 v)) (fun v _ => Hw _ _ v))) as W'. clear W.
  assert (W2 : writes (fun o => if ebgp then o else whenSome (localPref a) (fun v o => reserve (be_encode 4 v) (appendAttrHdr TRANSITIVE BGP_ATTR_LOCAL_PREF 4 o)) o)
    (if ebgp then [] else opt_tlv (localPref a) (fun v => (TRANSITIVE, BGP_ATTR_LOCAL_PREF, be_encode 4 v)))).
  { destruct ebgp; [apply writes_id | apply writes_whenSome; intros; apply Hw]. }
  pose proof (writes_comp _ _ _ _ W' W2) as W. clear W' W2.
  assert (W2 : writes (fun o => if atomicAggregate a then appendAttrHdr TRANSITIVE BGP_ATTR_ATOMIC_AGGREGATE 0 o else o)
    (if atomicAggregate a then [(TRANSITIVE, BGP_ATTR_ATOMIC_AGGREGATE, [])] else [])).
  { destruct (atomicAggregate a); [|apply writes_id]. apply (writes_attr _ _ 0 []); [done | lia]. }
  pose proof (writes_comp _ _ _ _ W W2) as W'. clear W W2.
  assert (W2 : writes (whenSome (asAggregator a) (appendAggregator true))
    (opt_tlv (asAggregator a) (fun agg => (OPT_TRANS, BGP_ATTR_AGGREGATOR, be_encode 4 (ag_asn agg) ++ be_encode 4 (IPAddress_v4 (speaker agg)))))).
  { apply writes_whenSome. intros agg _. apply writes_one; [rewrite length_app, !be_encode_length; done | lia]. }
  pose proof (writes_comp _ _ _ _ W' W2) as W. clear W' W2.
  assert (Hm : forall {B} (l : list B) (f : B -> bytes) w flags type, (forall b, length (f b) = w) -> Z.of_nat (length l * w) < 65536 ->
    writes (whenMany l (fun o => reserveAll (map f l) (appendAttrHdr flags type (length l * w) o))) (many_tlv l (flags, type, concat (map f l)))).
  { intros B l f w flags type Hf Hl. apply writes_whenMany. intros _. apply writes_attr; [rewrite (map_concat_length f w) by done; done | exact Hl]. }
  pose proof (writes_comp _ _ _ _ W (Hm _ (communities a) (be_encode 4) 4%nat OPT_TRANS BGP_ATTR_COMMUNITIES (be_encode_length 4) H2)) as W'. clear W.
  pose proof (writes_comp _ _ _ _ W' (writes_whenSome (originatorId a) _ (fun v => (OPTIONAL, BGP_ATTR_ORIGINATOR_ID, be_encode 4 v)) (fun v _ => Hw _ _ v))) as W. clear W'.
  pose proof (writes_comp _ _ _ _ W (Hm _ (clusterList a) (be_encode 4) 4%nat OPTIONAL BGP_ATTR_CLUSTER_LIST (be_encode_length 4) H3)) as W'. clear W.
  pose proof (writes_comp _ _ _ _ W' (Hm _ (extendedCommunities a) (be_encode 8) 8%nat OPT_TRANS BGP_ATTR_EXTENDED_COMMUNITIES (be_encode_length 8) H4)) as W. clear W'.
  assert (W2 : writes (whenSome (aigp a) (fun v o => reserve ([1] ++ be_encode 2 11 ++ be_encode 8 v) (appendAttrHdr OPTIONAL BGP_ATTR_AIGP 11 o)))
    (opt_tlv (aigp a) (fun v => (OPTIONAL, BGP_ATTR_AIGP, [1] ++ be_encode 2 11 ++ be_encode 8 v)))).
  { apply writes_whenSome. intros v _. apply writes_one; [rewrite !length_app, !be_encode_length; done | lia]. }
  pose proof (writes_comp _ _ _ _ W W2) as W'. clear W W2.
  pose proof (writes_comp _ _ _ _ W' (Hm _ (largeCommunities a) lc_chunk 12%nat OPT_TRANS BGP_ATTR_LARGE_COMMUNITIES lc_chunk_length H5)) as W. clear W'.
  exact (writes_comp _ _ _ _ W (writes_unknown (unknownTransitive a) H6)).
Qed.

(** ** Reading what was written *)

(** The flags of an attribute on the wire. *)
Definition wire_flags (t : tlv) : Z := if (255 <? length t.2)%nat then Z.lor t.1.1 BGP_ATTR_FLAG_EXTENDED_LENGTH else t.1.1.

Definition tlv_ok (t : tlv) : Prop :=
  in_width 8 t.1.1 /\ has_flag t.1.1 BGP_ATTR_FLAG_EXTENDED_LENGTH = false /\ in_width 8 t.1.2 /\
  Z.of_nat (length t.2) < 65536 /\ is_bytes t.2.

#[export] Instance tlv_ok_dec t : Decision (tlv_ok t).
Proof. unfold tlv_ok. apply _. Defined.

(** The handler of the attribute takes the state [st] to [st']. *)
Definition reads (use4 : bool) (t : tlv) (st st' : ParseState) : Prop :=
  forall tl, is_bytes tl -> parseValue use4 (wire_flags t) t.1.2 (mkSpan (t.2 ++ tl) (length t.2)) st = Ret (inl st').

Inductive reads_all (use4 : bool) : ParseState -> list tlv -> ParseState -> Prop :=
  | reads_nil st : reads_all use4 st [] st
  | reads_cons st t l st1 st2 : reads use4 t st st1 -> reads_all use4 st1 l st2 -> reads_all use4 st (t :: l) st2.

Lemma reads_all_app use4 l1 l2 st st1 st2 : reads_all use4 st l1 st1 -> reads_all use4 st1 l2 st2 -> reads_all use4 st (l1 ++ l2) st2.
Proof. induction 1 as [|st t l1 s1 s2 H _ IH]; [done|]. intros H2. eapply reads_cons; [exact H | exact (IH H2)]. Qed.

Lemma has_flag_lor f g k : has_flag (Z.lor f g) k = has_flag f k || has_flag g k.
Proof.
  unfold has_flag. rewrite Z.land_lor_distr_l. destruct (Z.eqb_spec (Z.lor (Z.land f k) (Z.land g k)) 0) as [E|E].
  - apply Z.lor_eq_0_iff in E as [-> ->]. done.
  - destruct (Z.eqb_spec (Z.land f k) 0) as [E1|]; [|done]. destruct (Z.eqb_spec (Z.land g k) 0) as [E2|]; [|done].
    rewrite E1, E2 in E. done.
Qed.

Lemma in_width_lor w x y : 0 <= w -> in_width w x -> in_width w y -> in_width w (Z.lor x y).
Proof.
  intros Hw Hx Hy. apply in_width_bits; [done | apply Z.lor_nonneg; split; [apply Hx | apply Hy]|].
  intros i Hi. rewrite Z.lor_spec, (testbit_in_width w x i), (testbit_in_width w y i) by done. done.
Qed.

Lemma tlv_header_bytes t : tlv_ok t -> is_bytes (tlv_header t.1.1 t.1.2 (length t.2)).
Proof.
  intros (H1 & _ & H3 & H4 & _). unfold tlv_header. destruct (Nat.ltb_spec 255 (length t.2)).
  - constructor; [apply in_width_lor; [lia | done | by_compute]|]. constructor; [done | apply be_encode_bytes].
  - constructor; [done|]. constructor; [done|]. constructor; [unfold in_width; lia | constructor].
Qed.

Lemma tlvs_bytes l : Forall tlv_ok l -> is_bytes (tlvs_wire l).
Proof.
  unfold tlvs_wire. induction 1 as [|t l Ht _ IH]; [constructor|]. cbn [fmap list_fmap concat]. apply Forall_app.
  split; [|exact IH]. apply Forall_app. split; [apply tlv_header_bytes, Ht | apply Ht].
Qed.

Section Read.
  Context {S : Type} `{RxSession S}.

(** The header of an attribute and its value, in front of [tl]. *)
Lemma parseLoop_tlv fuel (s : S) t pre tl size st :
  tlv_ok t -> is_bytes tl -> attrDiscard s t.1.2 = false -> attrWithdraw s t.1.2 = false ->
  (length pre + length (tlv_wire t) <= size)%nat ->
  parseLoop (Datatypes.S fuel) s (mkSpan (pre ++ tlv_wire t ++ tl) size) (length pre) st =
    (r ← parseValue (asn32bit s) (wire_flags t) t.1.2 (mkSpan (t.2 ++ tl) (length t.2)) st;
     match r with
     | inl st => parseLoop fuel s (mkSpan (pre ++ tlv_wire t ++ tl) size) (length pre + length (tlv_wire t)) st
     | inr e => Ret (inr e)
     end).
Proof.
  intros (H1 & H2 & H3 & H4 & H5) Htl Hd Hw Hs. destruct t as [[f ty] v]. cbn [fst snd] in *. unfold wire_flags, tlv_wire, tlv_header in *. cbn [fst snd] in *.
  set (n := length v) in *. cbn [parseLoop sp_size sp_ptr].
  assert (Hn : Z.to_nat (Z.of_nat n) = n) by lia.
  destruct (Nat.ltb_spec 255 n) as [Hl|Hl].
  - set (f' := Z.lor f _) in *. assert (Hf : has_flag f' BGP_ATTR_FLAG_EXTENDED_LENGTH = true) by (unfold f'; rewrite has_flag_lor, H2; done).
    rewrite !length_app, be_encode_length in *. cbn [length] in *. fold n in Hs |- *.
    rewrite (proj2 (Nat.leb_gt _ _)), (proj2 (Nat.ltb_ge _ _)) by lia.
    set (all := pre ++ _).
    assert (Hall : all = pre ++ f' :: ty :: be_encode 2 (Z.of_nat n) ++ v ++ tl) by (unfold all; rewrite <- !app_assoc; done).
    assert (R0 : Prelude.rd all (length pre) = Ret f') by (rewrite Hall; unfold Prelude.rd; rewrite list_lookup_middle by done; done).
    assert (R1 : Prelude.rd all (length pre + 1) = Ret ty).
    { rewrite Hall. unfold Prelude.rd. rewrite lookup_app_r by lia. replace (length pre + 1 - length pre)%nat with 1%nat by lia. done. }
    assert (D2 : drop (length pre + 2) all = be_encode 2 (Z.of_nat n) ++ v ++ tl).
    { rewrite Hall, drop_app_ge by lia. replace (length pre + 2 - length pre)%nat with 2%nat by lia. done. }
    assert (D4 : drop (length pre + 2 + 2) all = v ++ tl).
    { rewrite <- drop_drop, D2, drop_app_ge, be_encode_length by (rewrite be_encode_length; done). done. }
    rewrite R0, outcome_bind_ret_l, R1, outcome_bind_ret_l, Hf. cbv zeta. rewrite (proj2 (Nat.ltb_ge _ _)) by lia.
    rewrite D2, readU16_wire, outcome_bind_ret_l by (unfold in_width; lia || (apply Forall_app; done)). rewrite Hn, (proj2 (Nat.ltb_ge _ _)) by lia.
    rewrite Hd, Hw, D4. replace (length pre + 2 + 2 + n)%nat with (length pre + (2 + 2 + n))%nat by lia. done.
  - cbn [app length] in *. fold n in Hs |- *.
    rewrite (proj2 (Nat.leb_gt _ _)), (proj2 (Nat.ltb_ge _ _)) by lia. set (all := pre ++ _).
    assert (R0 : Prelude.rd all (length pre) = Ret f) by (unfold Prelude.rd, all; rewrite list_lookup_middle by done; done).
    assert (Hat : forall k b, nth_error ([f; ty; Z.of_nat n]) k = Some b -> Prelude.rd all (length pre + k) = Ret b).
    { intros k b Hk. unfold Prelude.rd, all. rewrite lookup_app_r by lia. replace (length pre + k - length pre)%nat with k by lia.
      destruct k as [|[|[|k]]]; [injection Hk as <- .. | destruct k; done]; done. }
    rewrite R0, outcome_bind_ret_l, (Hat 1%nat ty eq_refl), outcome_bind_ret_l, H2. cbv zeta. rewrite (proj2 (Nat.ltb_ge _ _)) by lia.
    rewrite (Hat 2%nat _ eq_refl), outcome_bind_ret_l, Hn, (proj2 (Nat.ltb_ge _ _)) by lia. rewrite Hd, Hw.
    assert (D3 : drop (length pre + 2 + 1) all = v ++ tl).
    { unfold all. rewrite drop_app_ge by lia. replace (length pre + 2 + 1 - length pre)%nat with 3%nat by lia. done. }
    rewrite D3. replace (length pre + 2 + 1 + n)%nat with (length pre + Datatypes.S (Datatypes.S (Datatypes.S n)))%nat by lia. done.
Qed.

(** The session treats no attribute of the list specially. *)
Definition plain (s : S) (l : list tlv) : Prop := Forall (fun t : tlv => attrDiscard s t.1.2 = false /\ attrWithdraw s t.1.2 = false) l.

Lemma tlv_wire_pos t : (2 <= length (tlv_wire t))%nat.
Proof. unfold tlv_wire, tlv_header. destruct (_ <? _)%nat; rewrite length_app; cbn; lia. Qed.

(** Reading past the attributes [l]. *)
Lemma parseLoop_prefix (s : S) st l st' :
  reads_all (asn32bit s) st l st' -> Forall tlv_ok l -> plain s l ->
  forall pre rest size fuel, is_bytes rest -> (length pre + length (tlvs_wire l) <= size)%nat ->
  parseLoop (length l + fuel) s (mkSpan (pre ++ tlvs_wire l ++ rest) size) (length pre) st =
    parseLoop fuel s (mkSpan (pre ++ tlvs_wire l ++ rest) size) (length pre + length (tlvs_wire l)) st'.
Proof.
  induction 1 as [st|st t l st1 st2 Hr _ IH]; intros Hok Hpl pre rest size fuel Hb Hs.
  - cbn [length tlvs_wire fmap list_fmap concat Nat.add]. rewrite Nat.add_0_r. done.
  - inversion_clear Hok as [|? ? Ht Hok']. inversion_clear Hpl as [|? ? [Hd Hw] Hpl'].
    unfold tlvs_wire in *. cbn [fmap list_fmap concat] in *. fold (tlvs_wire l) in *. rewrite <- app_assoc, length_app in *.
    assert (Htl : is_bytes (tlvs_wire l ++ rest)) by (apply Forall_app; split; [apply tlvs_bytes, Hok' | exact Hb]).
    cbn [length Nat.add]. rewrite parseLoop_tlv by (done || lia). rewrite Hr by done. rewrite outcome_bind_ret_l.
    specialize (IH Hok' Hpl' (pre ++ tlv_wire t) rest size fuel Hb). rewrite length_app, <- app_assoc, <- Nat.add_assoc in IH. apply IH. lia.
Qed.

Lemma tlvs_count l : (length l <= length (tlvs_wire l))%nat.
Proof.
  unfold tlvs_wire. induction l as [|t l IH]; [done|]. cbn [fmap list_fmap concat length]. rewrite length_app. pose proof (tlv_wire_pos t). lia.
Qed.

Lemma parseLoop_tlvs (s : S) st l st' rest :
  reads_all (asn32bit s) st l st' -> Forall tlv_ok l -> plain s l -> is_bytes rest ->
  parseLoop (Datatypes.S (length (tlvs_wire l))) s (mkSpan (tlvs_wire l ++ rest) (length (tlvs_wire l))) 0 st = Ret (inl st').
Proof.
  intros Hr Hok Hpl Hb. pose proof (tlvs_count l). pose proof (parseLoop_prefix s st l st' Hr Hok Hpl [] rest (length (tlvs_wire l))
    (Datatypes.S (length (tlvs_wire l) - length l)) Hb) as K. cbn [app length Nat.add] in K.
  replace (Datatypes.S (length (tlvs_wire l))) with (length l + Datatypes.S (length (tlvs_wire l) - length l))%nat by lia.
  rewrite K by lia. cbn [parseLoop sp_size]. rewrite (proj2 (Nat.leb_le _ _)) by lia. done.
Qed.
End Read.

(** ** Each attribute is read back *)

Lemma reads_origin use4 v st : 0 <= v <= 2 -> reads use4 (TRANSITIVE, BGP_ATTR_ORIGIN, [v]) st (on_attrs (set_origin (Some v)) st).
Proof.
  intros Hv tl _. change (wire_flags _) with TRANSITIVE. cbn. unfold parseOrigin. cbn. rewrite (proj2 (Z.ltb_ge 2 v)) by lia. done.
Qed.

Lemma reads_as_path segs st :
  Forall (seg_ok true) segs -> ends_long segs = true -> asPath (attrs (uinfo st)) = [] ->
  reads true (TRANSITIVE, BGP_ATTR_AS_PATH, path_wire true segs) st (on_attrs (fun a => set_asPaths segs (as4Path a) a) st).
Proof.
  intros Hs He Hst tl Htl. cbn [fst snd]. assert (Hf : forall k, k = BGP_ATTR_FLAG_OPTIONAL \/ k = BGP_ATTR_FLAG_TRANSITIVE ->
    has_flag (wire_flags (TRANSITIVE, BGP_ATTR_AS_PATH, path_wire true segs)) k = has_flag TRANSITIVE k).
  { intros k Hk. unfold wire_flags. destruct (_ <? _)%nat; [|done]. cbn [fst]. rewrite has_flag_lor. destruct Hk as [->| ->]; done. }
  unfold parseValue. rewrite !Hf by auto. pose proof (as_path_attr_wire true segs tl st Hs Htl Hst) as K. rewrite He in K. exact K.
Qed.

(** Attributes of a fixed size. *)

Lemma reads_next_hop use4 v st :
  in_width 32 v -> reads use4 (TRANSITIVE, BGP_ATTR_NEXT_HOP, be_encode 4 v) st (on_path (set_nextHop (IPAddress_u32 v)) st).
Proof.
  intros Hv tl Htl. change (parseNextHop false true (mkSpan (be_encode 4 v ++ tl) 4) st = Ret (inl (on_path (set_nextHop (IPAddress_u32 v)) st))).
  unfold parseNextHop. cbn [orb negb sp_size sp_ptr Nat.eqb]. rewrite readU32_wire by done. done.
Qed.

Lemma reads_med use4 v st : in_width 32 v -> reads use4 (OPTIONAL, BGP_ATTR_MULTI_EXIT_DISC, be_encode 4 v) st (on_attrs (set_med (Some v)) st).
Proof.
  intros Hv tl Htl. change (parseMed (mkSpan (be_encode 4 v ++ tl) 4) st = Ret (inl (on_attrs (set_med (Some v)) st))).
  unfold parseMed. cbn [orb negb sp_size sp_ptr Nat.eqb]. rewrite readU32_wire by done. done.
Qed.

Lemma reads_local_pref use4 v st : in_width 32 v -> reads use4 (TRANSITIVE, BGP_ATTR_LOCAL_PREF, be_encode 4 v) st (on_attrs (set_localPref (Some v)) st).
Proof.
  intros Hv tl Htl. change (parseLocalPref false true (mkSpan (be_encode 4 v ++ tl) 4) st = Ret (inl (on_attrs (set_localPref (Some v)) st))).
  unfold parseLocalPref. cbn [orb negb sp_size sp_ptr Nat.eqb]. rewrite readU32_wire by done. done.
Qed.

Lemma reads_originator use4 v st :
  in_width 32 v -> reads use4 (OPTIONAL, BGP_ATTR_ORIGINATOR_ID, be_encode 4 v) st (on_attrs (fun a => set_reflection (Some v) (clusterList a) a) st).
Proof.
  intros Hv tl Htl. change (parseOriginatorId (mkSpan (be_encode 4 v ++ tl) 4) st = Ret (inl (on_attrs (fun a => set_reflection (Some v) (clusterList a) a) st))).
  unfold parseOriginatorId. cbn [orb negb sp_size sp_ptr Nat.eqb]. rewrite readU32_wire by done. done.
Qed.

Lemma reads_aggregator asn sp st :
  in_width 32 asn -> in_width 32 sp ->
  reads true (OPT_TRANS, BGP_ATTR_AGGREGATOR, be_encode 4 asn ++ be_encode 4 sp) st
    (on_attrs (fun a => set_aggregators (Some (mkAggregator asn (IPAddress_u32 sp))) (as4Aggregator a) a) st).
Proof.
  intros Ha Hs tl Htl. change (parseAggregator true (mkSpan ((be_encode 4 asn ++ be_encode 4 sp) ++ tl) 8) st =
    Ret (inl (on_attrs (fun a => set_aggregators (Some (mkAggregator asn (IPAddress_u32 sp))) (as4Aggregator a) a) st))).
  unfold parseAggregator, readAsn, asnBytes. cbn [orb negb sp_size sp_ptr Nat.eqb]. rewrite <- app_assoc.
  rewrite readU32_wire by (done || (apply Forall_app; split; [apply be_encode_bytes | done])). rewrite outcome_bind_ret_l.
  change (drop 4 (be_encode 4 asn ++ be_encode 4 sp ++ tl)) with (be_encode 4 sp ++ tl). rewrite readU32_wire by done. done.
Qed.

Lemma reads_aigp use4 v st :
  in_width 64 v -> reads use4 (OPTIONAL, BGP_ATTR_AIGP, [1] ++ be_encode 2 11 ++ be_encode 8 v) st (on_attrs (set_aigp (Some v)) st).
Proof.
  intros Hv tl Htl. change (parseAigp (mkSpan (1 :: be_encode 2 11 ++ be_encode 8 v ++ tl) 11) st = Ret (inl (on_attrs (set_aigp (Some v)) st))).
  assert (Hb : is_bytes (be_encode 8 v ++ tl)) by (apply Forall_app; split; [apply be_encode_bytes | done]).
  unfold parseAigp. cbn [sp_size sp_ptr]. change (11 <? 11)%nat with false. cbv iota. unfold Prelude.rd. cbn [lookup list_lookup mbind outcome_bind].
  change (negb (1 =? 1)) with false. cbv iota. change (drop 1 (1 :: be_encode 2 11 ++ be_encode 8 v ++ tl)) with (be_encode 2 11 ++ be_encode 8 v ++ tl).
  rewrite (readU16_wire 11 _ ltac:(by_compute) Hb). cbn [mbind outcome_bind]. change (negb (11 =? 11)) with false. cbv iota.
  change (drop 3 (1 :: be_encode 2 11 ++ be_encode 8 v ++ tl)) with (be_encode 8 v ++ tl). rewrite readU64_wire by done. done.
Qed.

(** An attribute that is a list of items. *)
Lemma list_flags f ty v k :
  k = BGP_ATTR_FLAG_OPTIONAL \/ k = BGP_ATTR_FLAG_TRANSITIVE -> has_flag (wire_flags (f, ty, v)) k = has_flag f k.
Proof.
  intros Hk. unfold wire_flags. destruct (_ <? _)%nat; [|done]. cbn [fst]. rewrite has_flag_lor. destruct Hk as [->| ->]; apply orb_false_r.
Qed.

Lemma reads_communities use4 l st :
  Forall (in_width 32) l ->
  reads use4 (OPT_TRANS, BGP_ATTR_COMMUNITIES, concat (map (be_encode 4) l)) st (on_attrs (fun a => set_communities (communities a ++ l) (largeCommunities a) a) st).
Proof.
  intros Hl tl Htl. cbn [fst snd]. lazymatch goal with |- parseValue _ _ _ ?v ?st = ?r => change (parseCommunities v st = r) end. unfold parseCommunities. cbn [sp_size sp_ptr].
  rewrite (map_concat_length _ 4) by (apply be_encode_length). rewrite Nat.Div0.mod_mul, Nat.div_mul by done. cbn [Nat.eqb negb].
  rewrite (readMany_wire _ (be_encode 4) (in_width 32)); [done | intros; apply readU32_wire; done | apply be_encode_length | intros; apply be_encode_bytes | done | done].
Qed.

Lemma reads_cluster use4 l st :
  Forall (in_width 32) l ->
  reads use4 (OPTIONAL, BGP_ATTR_CLUSTER_LIST, concat (map (be_encode 4) l)) st (on_attrs (fun a => set_reflection (originatorId a) (clusterList a ++ l) a) st).
Proof.
  intros Hl tl Htl. cbn [fst snd]. lazymatch goal with |- parseValue _ _ _ ?v ?st = ?r => change (parseClusterList v st = r) end. unfold parseClusterList. cbn [sp_size sp_ptr].
  rewrite (map_concat_length _ 4) by (apply be_encode_length). rewrite Nat.Div0.mod_mul, Nat.div_mul by done. cbn [Nat.eqb negb].
  rewrite (readMany_wire _ (be_encode 4) (in_width 32)); [done | intros; apply readU32_wire; done | apply be_encode_length | intros; apply be_encode_bytes | done | done].
Qed.

Definition lc_ok (lc : Z * Z * Z) : Prop := in_width 32 lc.1.1 /\ in_width 32 lc.1.2 /\ in_width 32 lc.2.

#[export] Instance lc_ok_dec lc : Decision (lc_ok lc).
Proof. unfold lc_ok. apply _. Defined.

Lemma lc_chunk_bytes lc : is_bytes (lc_chunk lc).
Proof. unfold lc_chunk. repeat (apply Forall_app; split); apply be_encode_bytes. Qed.

Lemma readTriple_wire lc tl : lc_ok lc -> is_bytes tl -> readTriple (lc_chunk lc ++ tl) = Ret lc.
Proof.
  destruct lc as [[a b] c]. intros (Ha & Hb & Hc) Htl. cbn [fst snd] in *. unfold readTriple, lc_chunk. cbn [fst snd]. rewrite <- !app_assoc.
  assert (B3 : is_bytes (be_encode 4 c ++ tl)) by (apply Forall_app; split; [apply be_encode_bytes | done]).
  assert (B2 : is_bytes (be_encode 4 b ++ be_encode 4 c ++ tl)) by (apply Forall_app; split; [apply be_encode_bytes | done]).
  rewrite readU32_wire by done. rewrite outcome_bind_ret_l.
  change (drop 4 (be_encode 4 a ++ be_encode 4 b ++ be_encode 4 c ++ tl)) with (be_encode 4 b ++ be_encode 4 c ++ tl). rewrite readU32_wire by done. rewrite outcome_bind_ret_l.
  change (drop 8 (be_encode 4 a ++ be_encode 4 b ++ be_encode 4 c ++ tl)) with (be_encode 4 c ++ tl). rewrite readU32_wire by done. done.
Qed.

Lemma reads_large use4 l st :
  Forall lc_ok l ->
  reads use4 (OPT_TRANS, BGP_ATTR_LARGE_COMMUNITIES, concat (map lc_chunk l)) st (on_attrs (fun a => set_communities (communities a) (largeCommunities a ++ l) a) st).
Proof.
  intros Hl tl Htl. cbn [fst snd]. lazymatch goal with |- parseValue _ _ _ ?v ?st = ?r => change (parseLargeCommunities v st = r) end. unfold parseLargeCommunities. cbn [sp_size sp_ptr].
  rewrite (map_concat_length _ 12) by (apply lc_chunk_length). rewrite Nat.Div0.mod_mul, Nat.div_mul by done. cbn [Nat.eqb negb].
  rewrite (readMany_wire _ lc_chunk lc_ok); [done | apply readTriple_wire | apply lc_chunk_length | apply lc_chunk_bytes | done | done].
Qed.

(** The types that have a handler of their own. *)
Definition known_types : list Z := [1; 2; 3; 4; 5; 7; 8; 9; 10; 14; 15; 17; 18; 26; 32].

(** An attribute without one, as it is kept. *)
Definition kept (t : tlv) : UnknownAttribute := mkUnknown (Z.lor (wire_flags t) BGP_ATTR_FLAG_PARTIAL) t.1.2 t.2.

Definition passed_on (t : tlv) : Prop :=
  has_flag t.1.1 BGP_ATTR_FLAG_OPTIONAL = true /\ has_flag t.1.1 BGP_ATTR_FLAG_TRANSITIVE = true /\ t.1.2 ∉ known_types.

#[export] Instance passed_on_dec t : Decision (passed_on t).
Proof. unfold passed_on. apply _. Defined.

Lemma parseValue_unknown use4 flags type v st : type ∉ known_types -> parseValue use4 flags type v st = parseUnknown flags type v st.
Proof.
  intros Hk. unfold parseValue. cbv zeta.
  repeat match goal with |- context [type =? ?k] =>
    destruct (Z.eqb_spec type k) as [->|]; [exfalso; apply Hk; refine (bool_decide_unpack _ _); vm_compute; exact I|] end. done.
Qed.

Lemma reads_unknown use4 t st :
  passed_on t -> reads use4 t st (on_attrs (fun a => set_unknown (unknownTransitive a ++ [kept t]) a) st).
Proof.
  destruct t as [[f ty] v]. intros (H1 & H2 & H3) tl Htl. cbn [fst snd] in *. rewrite parseValue_unknown by done. unfold parseUnknown.
  rewrite !list_flags, H1, H2 by auto. cbn [negb]. unfold span_bytes, kept. cbn [sp_size sp_ptr fst snd]. rewrite take_app_length. done.
Qed.

Lemma reads_all_unknown use4 l st :
  Forall passed_on l -> reads_all use4 st l (on_attrs (fun a => set_unknown (unknownTransitive a ++ map kept l) a) st).
Proof.
  intros Hl. revert st. induction Hl as [|t l Ht _ IH]; intros st.
  - replace (on_attrs _ st) with st; [constructor|]. destruct st as [[[] ? ? ? ?] ? ?]. unfold on_attrs, set_unknown. cbn. rewrite app_nil_r. done.
  - eapply reads_cons; [apply reads_unknown, Ht|]. specialize (IH (on_attrs (fun a => set_unknown (unknownTransitive a ++ [kept t]) a) st)).
    unfold on_attrs, set_unknown in *. cbn in *. rewrite <- app_assoc in IH. exact IH.
Qed.

Lemma reads_opt {A} use4 (x : option A) (f : A -> tlv) st st' :
  (forall v, x = Some v -> reads use4 (f v) st st') -> (x = None -> st = st') -> reads_all use4 st (opt_tlv x f) st'.
Proof. intros H1 H2. destruct x as [v|]; [eapply reads_cons; [apply H1; done | constructor] | rewrite <- H2 by done; constructor]. Qed.

Lemma reads_many {A} use4 (l : list A) t st st' :
  (l <> [] -> reads use4 t st st') -> (l = [] -> st = st') -> reads_all use4 st (many_tlv l t) st'.
Proof. intros H1 H2. destruct l as [|b l]; [rewrite <- H2 by done; constructor | eapply reads_cons; [apply H1; done | constructor]]. Qed.

(** ** The round trip *)

Definition set_atomicAggregate v (a : Attributes) := mkAttributes (origin a) (asPath a) (as4Path a) (localPref a) v (med a) (asAggregator a)
  (as4Aggregator a) (communities a) (extendedCommunities a) (largeCommunities a) (originatorId a) (clusterList a) (aigp a) (unknownTransitive a).

(** An unknown attribute, and the extended communities, as they are sent. *)
Definition unknown_tlv (ua : UnknownAttribute) : tlv := (Z.lor (ua_flags ua) BGP_ATTR_FLAG_PARTIAL, ua_type ua, ua_value ua).
Definition ext_tlv (a : Attributes) : tlv := (OPT_TRANS, BGP_ATTR_EXTENDED_COMMUNITIES, concat (map (be_encode 8) (extendedCommunities a))).

(** The values fit their fields, and the attributes are of those that are
    read: no ATOMIC AGGREGATE, and a path that ends long. *)
Definition values_ok (a : Attributes) : Prop :=
  from_option (fun v => 0 <= v <= 2) True (origin a) /\ Forall (seg_ok true) (asPath a) /\ ends_long (asPath a) = true /\
  atomicAggregate a = false /\ from_option (in_width 32) True (med a) /\ from_option (in_width 32) True (localPref a) /\
  from_option (fun g => in_width 32 (ag_asn g)) True (asAggregator a) /\ Forall (in_width 32) (communities a) /\
  from_option (in_width 32) True (originatorId a) /\ Forall (in_width 32) (clusterList a) /\ from_option (in_width 64) True (aigp a) /\
  Forall lc_ok (largeCommunities a) /\ Forall (fun ua => tlv_ok (unknown_tlv ua) /\ passed_on (unknown_tlv ua)) (unknownTransitive a).

(** What a neighbor receives: the preference only within the AS, extended
    communities as an attribute that it does not know. *)
Definition received (ebgp : bool) (a : Attributes) : Attributes :=
  mkAttributes (origin a) (asPath a) [] (if ebgp then None else localPref a) false (med a)
    ((fun g => mkAggregator (ag_asn g) (IPAddress_u32 (IPAddress_v4 (speaker g)))) <$> asAggregator a) None (communities a) []
    (largeCommunities a) (originatorId a) (clusterList a) (aigp a)
    (match extendedCommunities a with [] => [] | _ => [kept (ext_tlv a)] end ++ map kept (map unknown_tlv (unknownTransitive a))).

Lemma v4_width x : in_width 32 (IPAddress_v4 x).
Proof. unfold IPAddress_v4. change 4294967295 with (Z.ones 32). rewrite Z.land_ones by lia. apply wrap_in_width. lia. Qed.

Section Reading.
(** The spans of the prefixes are set before the attributes are read. *)
Context (wd nl : data_span).

Definition received_state (ats : Attributes) (nh : IPAddress) : ParseState :=
  mkParse (mkUpdate ats (mkPath (mkAfiSafi 0 0) nh None None) (mkAfiSafi 1 1) wd nl) None None.

Definition readStart : IncomingUpdate := mkUpdate Attributes_new (path IncomingUpdate_new) (u_afi IncomingUpdate_new) wd nl.

Lemma attr_front_read ebgp a p :
  values_ok a ->
  reads_all true (mkParse readStart None None) (attr_front ebgp a p)
    (received_state (mkAttributes (origin a) (asPath a) [] (if ebgp then None else localPref a) false (med a) None None [] [] [] None [] None [])
       (IPAddress_u32 (IPAddress_v4 (nextHop p)))).
Proof.
  intros (V1 & V2 & V3 & _ & V5 & V6 & _). set (nh := IPAddress_u32 (IPAddress_v4 (nextHop p))). set (z := mkIPAddress 0).
  set (st1 := received_state (mkAttributes (origin a) [] [] None false None None None [] [] [] None [] None []) z).
  set (st2 := received_state (mkAttributes (origin a) (asPath a) [] None false None None None [] [] [] None [] None []) z).
  set (st3 := received_state (mkAttributes (origin a) (asPath a) [] None false None None None [] [] [] None [] None []) nh).
  set (st4 := received_state (mkAttributes (origin a) (asPath a) [] None false (med a) None None [] [] [] None [] None []) nh).
  apply (reads_all_app true _ _ _ st1 _).
  { apply reads_opt; [intros v E; rewrite E in V1; unfold st1; rewrite E; apply reads_origin, V1 | intros E; unfold st1; rewrite E; done]. }
  apply (reads_all_app true _ _ _ st2 _).
  { apply reads_many; [intros _; apply reads_as_path; done | intros E; unfold st2; rewrite E; done]. }
  apply (reads_all_app true _ _ _ st3 _); [eapply reads_cons; [apply reads_next_hop, v4_width | constructor]|].
  apply (reads_all_app true _ _ _ st4 _).
  { apply reads_opt; [intros v E; rewrite E in V5; unfold st4; rewrite E; apply reads_med, V5 | intros E; unfold st4; rewrite E; done]. }
  destruct ebgp; [constructor|].
  apply reads_opt; [intros v E; rewrite E in V6 |- *; apply reads_local_pref, V6 | intros E; rewrite E; done].
Qed.

Lemma attr_list_read ebgp a p :
  values_ok a ->
  reads_all true (mkParse readStart None None) (attr_list ebgp a p) (received_state (received ebgp a) (IPAddress_u32 (IPAddress_v4 (nextHop p)))).
Proof.
  intros Hv. pose proof Hv as (_ & _ & _ & V4 & _ & _ & V7 & V8 & V9 & V10 & V11 & V12 & V13).
  rewrite attr_list_split, V4. cbn [app]. eapply reads_all_app; [apply attr_front_read, Hv|].
  set (nh := IPAddress_u32 (IPAddress_v4 (nextHop p))). set (lp := if ebgp then None else localPref a).
  set (ag := (fun g => mkAggregator (ag_asn g) (IPAddress_u32 (IPAddress_v4 (speaker g)))) <$> asAggregator a).
  set (ue := match extendedCommunities a with [] => [] | _ => [kept (ext_tlv a)] end).
  set (st6 := received_state (mkAttributes (origin a) (asPath a) [] lp false (med a) ag None [] [] [] None [] None []) nh).
  set (st7 := received_state (mkAttributes (origin a) (asPath a) [] lp false (med a) ag None (communities a) [] [] None [] None []) nh).
  set (st8 := received_state (mkAttributes (origin a) (asPath a) [] lp false (med a) ag None (communities a) [] [] (originatorId a) [] None []) nh).
  set (st9 := received_state (mkAttributes (origin a) (asPath a) [] lp false (med a) ag None (communities a) [] [] (originatorId a) (clusterList a) None []) nh).
  set (st10 := received_state (mkAttributes (origin a) (asPath a) [] lp false (med a) ag None (communities a) [] [] (originatorId a) (clusterList a) None ue) nh).
  set (st11 := received_state (mkAttributes (origin a) (asPath a) [] lp false (med a) ag None (communities a) [] [] (originatorId a) (clusterList a) (aigp a) ue) nh).
  set (st12 := received_state (mkAttributes (origin a) (asPath a) [] lp false (med a) ag None (communities a) [] (largeCommunities a) (originatorId a) (clusterList a) (aigp a) ue) nh).
  apply (reads_all_app true _ _ _ st6 _).
  { apply reads_opt; [intros v E; rewrite E in V7; unfold st6, ag; rewrite E; apply reads_aggregator; [exact V7 | apply v4_width] | intros E; unfold st6, ag; rewrite E; done]. }
  apply (reads_all_app true _ _ _ st7 _).
  { apply reads_many; [intros _; apply reads_communities, V8 | intros E; unfold st7; rewrite E; done]. }
  apply (reads_all_app true _ _ _ st8 _).
  { apply reads_opt; [intros v E; rewrite E in V9; unfold st8; rewrite E; apply reads_originator, V9 | intros E; unfold st8; rewrite E; done]. }
  apply (reads_all_app true _ _ _ st9 _).
  { apply reads_many; [intros _; apply reads_cluster, V10 | intros E; unfold st9; rewrite E; done]. }
  apply (reads_all_app true _ _ _ st10 _).
  { apply reads_many; [intros Hne; unfold st10, ue | intros E; unfold st10, ue; rewrite E; done].
    destruct (extendedCommunities a) as [|e es] eqn:E; [done|]. rewrite <- E. apply (reads_unknown true (ext_tlv a)). by_compute. }
  apply (reads_all_app true _ _ _ st11 _).
  { apply reads_opt; [intros v E; rewrite E in V11; unfold st11; rewrite E; apply reads_aigp, V11 | intros E; unfold st11; rewrite E; done]. }
  apply (reads_all_app true _ _ _ st12 _).
  { apply reads_many; [intros _; apply reads_large, V12 | intros E; unfold st12; rewrite E; done]. }
  pose proof (reads_all_unknown true (map unknown_tlv (unknownTransitive a)) st12) as K. apply K.
  apply Forall_map. eapply Forall_impl; [exact V13|]. intros ua [_ H]. exact H.
Qed.
End Reading.

Lemma opt_tlv_ok {A} (x : option A) (f : A -> tlv) : (forall v, x = Some v -> tlv_ok (f v)) -> Forall tlv_ok (opt_tlv x f).
Proof. intros H. destruct x; [constructor; [apply H; done | constructor] | constructor]. Qed.

Lemma many_tlv_ok {A} (l : list A) t : tlv_ok t -> Forall tlv_ok (many_tlv l t).
Proof. intros H. destruct l; [constructor | constructor; [exact H | constructor]]. Qed.

Lemma word_tlv_ok flags type v : In flags [TRANSITIVE; OPTIONAL; OPT_TRANS] -> in_width 8 type -> tlv_ok (flags, type, be_encode 4 v).
Proof.
  intros Hf Ht. repeat split; cbn [fst snd]; try (apply Ht); try apply be_encode_bytes; try (rewrite be_encode_length; lia);
    destruct Hf as [<-|[<-|[<-|[]]]]; (reflexivity || (vm_compute; done)).
Qed.

Lemma bytes_tlv_ok flags type v :
  In flags [TRANSITIVE; OPTIONAL; OPT_TRANS] -> in_width 8 type -> Z.of_nat (length v) < 65536 -> is_bytes v -> tlv_ok (flags, type, v).
Proof.
  intros Hf Ht Hl Hb. repeat split; cbn [fst snd]; try (apply Ht); try done;
    destruct Hf as [<-|[<-|[<-|[]]]]; (reflexivity || (vm_compute; done)).
Qed.

Lemma map_encode_bytes {A} (f : A -> bytes) l : (forall a, is_bytes (f a)) -> is_bytes (concat (map f l)).
Proof. apply concat_bytes. Qed.

Lemma attr_list_ok ebgp a p : sizes_ok a -> values_ok a -> Forall tlv_ok (attr_list ebgp a p).
Proof.
  intros (H1 & H2 & H3 & H4 & H5 & H6 & H7) (V1 & V2 & V3 & V4 & V5 & V6 & V7 & V8 & V9 & V10 & V11 & V12 & V13).
  unfold attr_list. rewrite V4. cbv zeta. repeat (apply Forall_app; split).
  - apply opt_tlv_ok. intros v E. rewrite E in V1. cbn in V1. apply bytes_tlv_ok; [cbn; auto | by_compute | cbn; lia|]. repeat constructor; lia.
  - apply many_tlv_ok, bytes_tlv_ok; [cbn; auto | by_compute | exact H1 | apply path_wire_bytes, V2].
  - constructor; [apply word_tlv_ok; [cbn; auto | by_compute] | constructor].
  - apply opt_tlv_ok. intros. apply word_tlv_ok; [cbn; auto | by_compute].
  - destruct ebgp; [constructor|]. apply opt_tlv_ok. intros. apply word_tlv_ok; [cbn; auto | by_compute].
  - constructor.
  - apply opt_tlv_ok. intros. apply bytes_tlv_ok; [cbn; auto | by_compute | rewrite length_app, !be_encode_length; lia|].
    apply Forall_app. split; apply be_encode_bytes.
  - apply many_tlv_ok, bytes_tlv_ok; [cbn; auto | by_compute | rewrite (map_concat_length _ 4) by apply be_encode_length; exact H2 | apply map_encode_bytes; intros; apply be_encode_bytes].
  - apply opt_tlv_ok. intros. apply word_tlv_ok; [cbn; auto | by_compute].
  - apply many_tlv_ok, bytes_tlv_ok; [cbn; auto | by_compute | rewrite (map_concat_length _ 4) by apply be_encode_length; exact H3 | apply map_encode_bytes; intros; apply be_encode_bytes].
  - apply many_tlv_ok, bytes_tlv_ok; [cbn; auto | by_compute | rewrite (map_concat_length _ 8) by apply be_encode_length; exact H4 | apply map_encode_bytes; intros; apply be_encode_bytes].
  - apply opt_tlv_ok. intros. apply bytes_tlv_ok; [cbn; auto | by_compute | rewrite !length_app, !be_encode_length; cbn [length]; lia|].
    apply Forall_app. split; [by_compute|]. apply Forall_app. split; apply be_encode_bytes.
  - apply many_tlv_ok, bytes_tlv_ok; [cbn; auto | by_compute | rewrite (map_concat_length _ 12) by apply lc_chunk_length; exact H5 | apply map_encode_bytes, lc_chunk_bytes].
  - apply Forall_map. eapply Forall_impl; [exact V13|]. intros ua [Hua _]. exact Hua.
Qed.

Section Roundtrip.
  Context {S : Type} `{RxSession S}.

Lemma attributes_are_bytes ebgp a p : sizes_ok a -> values_ok a -> is_bytes (wire (appendPathAttrs true ebgp a p (mkOut 0 []))).
Proof.
  intros Hs Hv. destruct (writes_attrs ebgp a p Hs (mkOut 0 [])) as [-> _]. apply tlvs_bytes, attr_list_ok; done.
Qed.

(** What is written is read back. *)
Lemma attributes_read_back (s : S) (ebgp : bool) (a : Attributes) (p : Path) (rest : bytes) (wd nl : data_span) :
  asn32bit s = true -> (forall t, attrDiscard s t = false /\ attrWithdraw s t = false) -> sizes_ok a -> values_ok a -> is_bytes rest ->
  let w := wire (appendPathAttrs true ebgp a p (mkOut 0 [])) in
  parsePathAttributes s (mkSpan (w ++ rest) (length w)) (readStart wd nl) =
    Ret (inl (mkUpdate (received ebgp a) (mkPath (mkAfiSafi 0 0) (IPAddress_u32 (IPAddress_v4 (nextHop p))) None None)
                (mkAfiSafi BGP_AFI_IPV4 BGP_SAFI_UNICAST) wd nl)).
Proof.
  intros Ha Hp Hs Hv Hb w. destruct (writes_attrs ebgp a p Hs (mkOut 0 [])) as [Hw _]. cbn [wire chunks concat app] in Hw.
  change (concat []) with (@nil Z) in Hw. cbn [app] in Hw. unfold w. rewrite Hw. unfold parsePathAttributes. cbn [sp_size].
  assert (Hpl : plain s (attr_list ebgp a p)) by (apply Forall_forall; intros t _; apply Hp).
  pose proof (attr_list_read wd nl ebgp a p Hv) as R. rewrite <- Ha in R.
  rewrite (parseLoop_tlvs s _ _ _ rest R (attr_list_ok ebgp a p Hs Hv) Hpl Hb), outcome_bind_ret_l. unfold received_state, mergeAs4Path. cbn [uinfo attrs as4Path received]. done.
Qed.

(** The pieces of the path attributes that a router builds for a neighbor with
    four-byte AS numbers, laid end to end, are read back by it: those of a route
    without ATOMIC_AGGREGATE whose values fit their fields ([sizes_ok],
    [values_ok]), the local preference on internal sessions only, extended
    communities and unknown transitive attributes in order and marked as
    partial. The size that the builder counts is the size of the pieces. *)
Theorem path_attributes_roundtrip (s : S) (ebgp : bool) (a : Attributes) (p : Path) (rest : bytes) :
  asn32bit s = true -> (forall t, attrDiscard s t = false /\ attrWithdraw s t = false) -> sizes_ok a -> values_ok a -> is_bytes rest ->
  let o := appendPathAttrs true ebgp a p (mkOut 0 []) in
  attrsSize o = length (wire o) /\
  parsePathAttributes s (mkSpan (wire o ++ rest) (length (wire o))) IncomingUpdate_new =
    Ret (inl (mkUpdate (received ebgp a) (mkPath (mkAfiSafi 0 0) (IPAddress_u32 (IPAddress_v4 (nextHop p))) None None)
                (mkAfiSafi BGP_AFI_IPV4 BGP_SAFI_UNICAST) (mkDataSpan [] 0) (mkDataSpan [] 0))).
Proof.
  intros Ha Hp Hs Hv Hb o. split; [|apply attributes_read_back; done].
  destruct (writes_attrs ebgp a p Hs (mkOut 0 [])) as [Hw Hn]. fold o in Hw, Hn. rewrite Hw, Hn. done.
Qed.

(** An ATOMIC AGGREGATE is written with the flags of a well-known attribute,
    but no handler reads it: an update that would be read back without it is
    refused with it, as holding an attribute that is not recognised. *)
Theorem atomic_aggregate_refused (s : S) (ebgp : bool) (a a' : Attributes) (p : Path) (rest : bytes) :
  asn32bit s = true -> (forall t, attrDiscard s t = false /\ attrWithdraw s t = false) -> sizes_ok a -> values_ok a -> is_bytes rest ->
  a' = set_atomicAggregate true a ->
  let o := appendPathAttrs true ebgp a' p (mkOut 0 []) in
  parsePathAttributes s (mkSpan (wire o ++ rest) (length (wire o))) IncomingUpdate_new = Ret (inr (mkNotification 0x0302 [])).
Proof.
  intros Ha Hp Hs Hv Hb Ea o. assert (Hs' : sizes_ok a') by (rewrite Ea; exact Hs).
  destruct (writes_attrs ebgp a' p Hs' (mkOut 0 [])) as [Hw _]. fold o in Hw. change (wire (mkOut 0 [])) with (@nil Z) in Hw. cbn [app] in Hw.
  set (t := (TRANSITIVE, BGP_ATTR_ATOMIC_AGGREGATE, []) : tlv). set (l := attr_front ebgp a p). set (m := attr_back a).
  assert (Hl : attr_list ebgp a' p = l ++ [t] ++ m) by (rewrite attr_list_split, Ea; done).
  pose proof (attr_list_ok ebgp a p Hs Hv) as Hok. rewrite attr_list_split in Hok. rewrite !Forall_app in Hok. destruct Hok as (Hok1 & _ & Hok2).
  assert (Hw' : wire o = tlvs_wire l ++ tlv_wire t ++ tlvs_wire m).
  { rewrite Hw, Hl, !tlvs_wire_app. unfold tlvs_wire at 2. cbn [fmap list_fmap concat]. rewrite app_nil_r. done. }
  assert (Hrest : is_bytes (tlv_wire t ++ tlvs_wire m ++ rest)).
  { apply Forall_app. split; [by_compute|]. apply Forall_app. split; [apply tlvs_bytes, Hok2 | exact Hb]. }
  unfold parsePathAttributes. cbn [sp_size]. rewrite Hw', <- !app_assoc, !length_app. set (size := (_ + _)%nat).
  pose proof (tlvs_count l). pose proof (parseLoop_prefix s _ l _ ltac:(rewrite Ha; apply (attr_front_read (mkDataSpan [] 0) (mkDataSpan [] 0)), Hv) Hok1 ltac:(apply Forall_forall; intros u _; apply Hp)
    [] (tlv_wire t ++ tlvs_wire m ++ rest) size (Datatypes.S (size - length l)) Hrest) as K. cbn [app length Nat.add] in K.
  assert (Hsz : (length (tlvs_wire l) + length (tlv_wire t) <= size)%nat) by (unfold size; lia).
  replace (Datatypes.S size) with (length l + Datatypes.S (size - length l))%nat by lia.
  change IncomingUpdate_new with (readStart (mkDataSpan [] 0) (mkDataSpan [] 0)). rewrite K by lia.
  rewrite (parseLoop_tlv _ s t (tlvs_wire l) (tlvs_wire m ++ rest)); [|by_compute | apply Forall_app; split; [apply tlvs_bytes, Hok2 | exact Hb] | apply Hp | apply Hp | lia].
  rewrite parseValue_unknown by (by_compute). done.
Qed.
End Roundtrip.

Definition demo_attrs : Attributes :=
  mkAttributes (Some 0) [mkSegment 2 [65001; 65002]] [] (Some 100) false (Some 7) None None [4294967041] [42] [(1, 2, 3)] None [9] (Some 5) [].
Definition demo_path : Path := mkPath (mkAfiSafi 0 0) (IPAddress_u32 167772161) None None.

Lemma demo_sizes : sizes_ok demo_attrs.
Proof. by_compute. Qed.

Lemma demo_values : values_ok demo_attrs.
Proof. repeat (split; [by_compute || (cbn; lia) || exact I|]). by_compute. Qed.

Lemma path_attributes_roundtrip_witness :
  let o := appendPathAttrs true false demo_attrs demo_path (mkOut 0 []) in
  attrsSize o = length (wire o) /\
  parsePathAttributes test_new (mkSpan (wire o ++ [1; 2]) (length (wire o))) IncomingUpdate_new =
    Ret (inl (mkUpdate (received false demo_attrs) (mkPath (mkAfiSafi 0 0) (IPAddress_u32 (IPAddress_v4 (nextHop demo_path))) None None)
                (mkAfiSafi 1 1) (mkDataSpan [] 0) (mkDataSpan [] 0))).
Proof. exact (path_attributes_roundtrip test_new false demo_attrs demo_path [1; 2] eq_refl (fun _ => conj eq_refl eq_refl) demo_sizes demo_values ltac:(by_compute)). Defined.

Lemma atomic_aggregate_refused_witness :
  let o := appendPathAttrs true true (set_atomicAggregate true demo_attrs) demo_path (mkOut 0 []) in
  parsePathAttributes test_new (mkSpan (wire o ++ []) (length (wire o))) IncomingUpdate_new = Ret (inr (mkNotification 0x0302 [])).
Proof.
  exact (atomic_aggregate_refused test_new true demo_attrs _ demo_path [] eq_refl (fun _ => conj eq_refl eq_refl) demo_sizes demo_values ltac:(constructor) eq_refl).
Defined.
