(* ===== verification/BgpCaps.v ===== *)
(** * BgpCaps: the capabilities of a BGP session
    (routing/bgp/session/Capabilities.hpp, routing/bgp/transport/BgpTx.cpp,
    BgpRx.cpp, routing/bgp/session/Session.cpp)

    What a router offers in its OPEN, how it is written and read, and what two
    routers agree on. The records are in modules of their own, with the
    names of the source. *)

From S2P Require Import Prelude ByteUtils AttributeManager.

(** ** What can be offered *)

(** [packet/headers/BgpHeader.hpp:22-22] BGP_PARAMETER_CAPABILITY *)
Definition BGP_PARAMETER_CAPABILITY : Z := 2.
(** [packet/headers/BgpHeader.hpp:25-25] BGP_CAPABILITY_MULTIPROTOCOL *)
Definition BGP_CAPABILITY_MULTIPROTOCOL : Z := 1.
(** [packet/headers/BgpHeader.hpp:26-26] BGP_CAPABILITY_ROUTE_REFRESH *)
Definition BGP_CAPABILITY_ROUTE_REFRESH : Z := 2.
(** [packet/headers/BgpHeader.hpp:27-27] BGP_CAPABILITY_OUTBOUND_FILTER *)
Definition BGP_CAPABILITY_OUTBOUND_FILTER : Z := 3.
(** [packet/headers/BgpHeader.hpp:28-28] BGP_CAPABILITY_EXTENDED_NEXT_HOP *)
Definition BGP_CAPABILITY_EXTENDED_NEXT_HOP : Z := 5.
(** [packet/headers/BgpHeader.hpp:29-29] BGP_CAPABILITY_EXTENDED_MESSAGE *)
Definition BGP_CAPABILITY_EXTENDED_MESSAGE : Z := 6.
(** [packet/headers/BgpHeader.hpp:30-30] BGP_CAPABILITY_BGP_SEC *)
Definition BGP_CAPABILITY_BGP_SEC : Z := 7.
(** [packet/headers/BgpHeader.hpp:31-31] BGP_CAPABILITY_MULTIPLE_LABELS *)
Definition BGP_CAPABILITY_MULTIPLE_LABELS : Z := 8.
(** [packet/headers/BgpHeader.hpp:32-32] BGP_CAPABILITY_GRACEFUL_RESTART *)
Definition BGP_CAPABILITY_GRACEFUL_RESTART : Z := 64.
(** [packet/headers/BgpHeader.hpp:33-33] BGP_CAPABILITY_32_BIT_AS *)
Definition BGP_CAPABILITY_32_BIT_AS : Z := 65.
(** [packet/headers/BgpHeader.hpp:34-34] BGP_CAPABILITY_MULTI_SESSION *)
Definition BGP_CAPABILITY_MULTI_SESSION : Z := 68.
(** [packet/headers/BgpHeader.hpp:35-35] BGP_CAPABILITY_ADD_PATH *)
Definition BGP_CAPABILITY_ADD_PATH : Z := 69.
(** [packet/headers/BgpHeader.hpp:36-36] BGP_CAPABILITY_ENHANCED_ROUTE_REFRESH *)
Definition BGP_CAPABILITY_ENHANCED_ROUTE_REFRESH : Z := 70.
(** [packet/headers/BgpHeader.hpp:37-37] BGP_CAPABILITY_LLGR *)
Definition BGP_CAPABILITY_LLGR : Z := 71.
(** [packet/headers/BgpHeader.hpp:38-38] BGP_CAPABILITY_FQDN *)
Definition BGP_CAPABILITY_FQDN : Z := 73.
(** [packet/headers/BgpHeader.hpp:39-39] BGP_CAPABILITY_LINK_LOCAL_NEXT_HOP *)
Definition BGP_CAPABILITY_LINK_LOCAL_NEXT_HOP : Z := 77.
(** [packet/headers/BgpHeader.hpp:116-116] BGP_ADD_PATH_RECEIVE *)
Definition BGP_ADD_PATH_RECEIVE : Z := 1.
(** [packet/headers/BgpHeader.hpp:117-117] BGP_ADD_PATH_SEND *)
Definition BGP_ADD_PATH_SEND : Z := 2.
(** [packet/headers/BgpHeader.hpp:121-121] BGP_ORF_RECEIVE *)
Definition BGP_ORF_RECEIVE : Z := 1.
(** [packet/headers/BgpHeader.hpp:122-122] BGP_ORF_SEND *)
Definition BGP_ORF_SEND : Z := 2.
(** [packet/headers/BgpHeader.hpp:123-123] BGP_ORF_BOTH *)
Definition BGP_ORF_BOTH : Z := 3.
(** [packet/headers/BgpHeader.hpp:124-124] BGP_ORF_TYPE_PREFIX_LIST *)
Definition BGP_ORF_TYPE_PREFIX_LIST : Z := 64.

(** [routing/bgp/session/Capabilities.hpp:65-70] Capabilities::LlgrFamily *)
Record LlgrFamily := mkLlgr { llgr_family : AfiSafi; staleTime : Z; llgr_flags : Z }.
(** [routing/bgp/session/Capabilities.hpp:88-93] Capabilities::OrfEntry *)
Record OrfEntry := mkOrf { orf_family : AfiSafi; orfType : Z; orf_sendReceive : Z }.

#[export] Instance LlgrFamily_eq_dec : EqDecision LlgrFamily.
Proof. solve_decision. Defined.
#[export] Instance OrfEntry_eq_dec : EqDecision OrfEntry.
Proof. solve_decision. Defined.

Module Caps.

(** [routing/bgp/session/Capabilities.hpp:41-124] Capabilities: the route-target constraint, which nothing reads or
    writes, is left out; families with one value of their own are pairs *)
Record Capabilities := mk {
  mpFamilies : list AfiSafi;
  routeRefresh : bool;
  enhancedRouteRefresh : bool;
  asn32bit : bool;
  asn : Z;
  extendedMessage : bool;
  gracefulRestart : bool;
  restarting : bool;
  restartTime : Z;
  gracefulFamilies : list (AfiSafi * bool);
  llgr : bool;
  llgrFamilies : list LlgrFamily;
  multiSess : bool;
  multiSessionFamilies : list AfiSafi;
  addPath : bool;
  addPathFamilies : list (AfiSafi * Z);
  outboundRouteFiltering : bool;
  orfEntries : list OrfEntry;
  extendedNextHop : bool;
  extendedNextHopEntries : list (AfiSafi * Z);
  multipleLabels : bool;
  labeledFamilies : list AfiSafi;
  bgpsec : bool;
  bgpsecFamilies : list AfiSafi;
  fqdn : bool;
  hostname : bytes;
  domain : bytes;
  linkLocalNextHop : bool
}.

Definition new : Capabilities :=
  mk [] false false false 0 false false false 0 [] false [] false [] false [] false [] false [] false [] false [] false [] [] false.

(** What the reader adds to them. *)

Definition add_mp (f : AfiSafi) (c : Capabilities) : Capabilities :=
  mk (mpFamilies c ++ [f]) (routeRefresh c) (enhancedRouteRefresh c) (asn32bit c) (asn c) (extendedMessage c)
    (gracefulRestart c) (restarting c) (restartTime c) (gracefulFamilies c) (llgr c) (llgrFamilies c)
    (multiSess c) (multiSessionFamilies c) (addPath c) (addPathFamilies c) (outboundRouteFiltering c)
    (orfEntries c) (extendedNextHop c) (extendedNextHopEntries c) (multipleLabels c) (labeledFamilies c)
    (bgpsec c) (bgpsecFamilies c) (fqdn c) (hostname c) (domain c) (linkLocalNextHop c).
Definition add_mps (l : list AfiSafi) (c : Capabilities) : Capabilities :=
  mk (mpFamilies c ++ l) (routeRefresh c) (enhancedRouteRefresh c) (asn32bit c) (asn c) (extendedMessage c)
    (gracefulRestart c) (restarting c) (restartTime c) (gracefulFamilies c) (llgr c) (llgrFamilies c)
    (multiSess c) (multiSessionFamilies c) (addPath c) (addPathFamilies c) (outboundRouteFiltering c)
    (orfEntries c) (extendedNextHop c) (extendedNextHopEntries c) (multipleLabels c) (labeledFamilies c)
    (bgpsec c) (bgpsecFamilies c) (fqdn c) (hostname c) (domain c) (linkLocalNextHop c).
Definition set_routeRefresh (c : Capabilities) : Capabilities :=
  mk (mpFamilies c) true (enhancedRouteRefresh c) (asn32bit c) (asn c) (extendedMessage c) (gracefulRestart c)
    (restarting c) (restartTime c) (gracefulFamilies c) (llgr c) (llgrFamilies c) (multiSess c)
    (multiSessionFamilies c) (addPath c) (addPathFamilies c) (outboundRouteFiltering c) (orfEntries c)
    (extendedNextHop c) (extendedNextHopEntries c) (multipleLabels c) (labeledFamilies c) (bgpsec c)
    (bgpsecFamilies c) (fqdn c) (hostname c) (domain c) (linkLocalNextHop c).
Definition set_enhanced (c : Capabilities) : Capabilities :=
  mk (mpFamilies c) (routeRefresh c) true (asn32bit c) (asn c) (extendedMessage c) (gracefulRestart c)
    (restarting c) (restartTime c) (gracefulFamilies c) (llgr c) (llgrFamilies c) (multiSess c)
    (multiSessionFamilies c) (addPath c) (addPathFamilies c) (outboundRouteFiltering c) (orfEntries c)
    (extendedNextHop c) (extendedNextHopEntries c) (multipleLabels c) (labeledFamilies c) (bgpsec c)
    (bgpsecFamilies c) (fqdn c) (hostname c) (domain c) (linkLocalNextHop c).
Definition set_asn (a : Z) (c : Capabilities) : Capabilities :=
  mk (mpFamilies c) (routeRefresh c) (enhancedRouteRefresh c) true a (extendedMessage c) (gracefulRestart c)
    (restarting c) (restartTime c) (gracefulFamilies c) (llgr c) (llgrFamilies c) (multiSess c)
    (multiSessionFamilies c) (addPath c) (addPathFamilies c) (outboundRouteFiltering c) (orfEntries c)
    (extendedNextHop c) (extendedNextHopEntries c) (multipleLabels c) (labeledFamilies c) (bgpsec c)
    (bgpsecFamilies c) (fqdn c) (hostname c) (domain c) (linkLocalNextHop c).
Definition set_extendedMessage (c : Capabilities) : Capabilities :=
  mk (mpFamilies c) (routeRefresh c) (enhancedRouteRefresh c) (asn32bit c) (asn c) true (gracefulRestart c)
    (restarting c) (restartTime c) (gracefulFamilies c) (llgr c) (llgrFamilies c) (multiSess c)
    (multiSessionFamilies c) (addPath c) (addPathFamilies c) (outboundRouteFiltering c) (orfEntries c)
    (extendedNextHop c) (extendedNextHopEntries c) (multipleLabels c) (labeledFamilies c) (bgpsec c)
    (bgpsecFamilies c) (fqdn c) (hostname c) (domain c) (linkLocalNextHop c).
Definition set_graceful (r : bool) (t : Z) (l : list (AfiSafi * bool)) (c : Capabilities) : Capabilities :=
  mk (mpFamilies c) (routeRefresh c) (enhancedRouteRefresh c) (asn32bit c) (asn c) (extendedMessage c) true r t
    (gracefulFamilies c ++ l) (llgr c) (llgrFamilies c) (multiSess c) (multiSessionFamilies c) (addPath c)
    (addPathFamilies c) (outboundRouteFiltering c) (orfEntries c) (extendedNextHop c) (extendedNextHopEntries c)
    (multipleLabels c) (labeledFamilies c) (bgpsec c) (bgpsecFamilies c) (fqdn c) (hostname c) (domain c)
    (linkLocalNextHop c).
Definition add_llgr (b : bool) (l : list LlgrFamily) (c : Capabilities) : Capabilities :=
  mk (mpFamilies c) (routeRefresh c) (enhancedRouteRefresh c) (asn32bit c) (asn c) (extendedMessage c)
    (gracefulRestart c) (restarting c) (restartTime c) (gracefulFamilies c) (b || llgr c) (llgrFamilies c ++ l)
    (multiSess c) (multiSessionFamilies c) (addPath c) (addPathFamilies c) (outboundRouteFiltering c)
    (orfEntries c) (extendedNextHop c) (extendedNextHopEntries c) (multipleLabels c) (labeledFamilies c)
    (bgpsec c) (bgpsecFamilies c) (fqdn c) (hostname c) (domain c) (linkLocalNextHop c).
Definition add_multiSession (b : bool) (l : list AfiSafi) (c : Capabilities) : Capabilities :=
  mk (mpFamilies c) (routeRefresh c) (enhancedRouteRefresh c) (asn32bit c) (asn c) (extendedMessage c)
    (gracefulRestart c) (restarting c) (restartTime c) (gracefulFamilies c) (llgr c) (llgrFamilies c)
    (b || multiSess c) (multiSessionFamilies c ++ l) (addPath c) (addPathFamilies c) (outboundRouteFiltering c)
    (orfEntries c) (extendedNextHop c) (extendedNextHopEntries c) (multipleLabels c) (labeledFamilies c)
    (bgpsec c) (bgpsecFamilies c) (fqdn c) (hostname c) (domain c) (linkLocalNextHop c).
Definition add_addPath (b : bool) (l : list (AfiSafi * Z)) (c : Capabilities) : Capabilities :=
  mk (mpFamilies c) (routeRefresh c) (enhancedRouteRefresh c) (asn32bit c) (asn c) (extendedMessage c)
    (gracefulRestart c) (restarting c) (restartTime c) (gracefulFamilies c) (llgr c) (llgrFamilies c)
    (multiSess c) (multiSessionFamilies c) (b || addPath c) (addPathFamilies c ++ l) (outboundRouteFiltering c)
    (orfEntries c) (extendedNextHop c) (extendedNextHopEntries c) (multipleLabels c) (labeledFamilies c)
    (bgpsec c) (bgpsecFamilies c) (fqdn c) (hostname c) (domain c) (linkLocalNextHop c).
Definition add_orf (l : list OrfEntry) (c : Capabilities) : Capabilities :=
  mk (mpFamilies c) (routeRefresh c) (enhancedRouteRefresh c) (asn32bit c) (asn c) (extendedMessage c)
    (gracefulRestart c) (restarting c) (restartTime c) (gracefulFamilies c) (llgr c) (llgrFamilies c)
    (multiSess c) (multiSessionFamilies c) (addPath c) (addPathFamilies c) true (orfEntries c ++ l)
    (extendedNextHop c) (extendedNextHopEntries c) (multipleLabels c) (labeledFamilies c) (bgpsec c)
    (bgpsecFamilies c) (fqdn c) (hostname c) (domain c) (linkLocalNextHop c).
Definition add_nextHop (b : bool) (l : list (AfiSafi * Z)) (c : Capabilities) : Capabilities :=
  mk (mpFamilies c) (routeRefresh c) (enhancedRouteRefresh c) (asn32bit c) (asn c) (extendedMessage c)
    (gracefulRestart c) (restarting c) (restartTime c) (gracefulFamilies c) (llgr c) (llgrFamilies c)
    (multiSess c) (multiSessionFamilies c) (addPath c) (addPathFamilies c) (outboundRouteFiltering c)
    (orfEntries c) (b || extendedNextHop c) (extendedNextHopEntries c ++ l) (multipleLabels c) (labeledFamilies c)
    (bgpsec c) (bgpsecFamilies c) (fqdn c) (hostname c) (domain c) (linkLocalNextHop c).
Definition add_labeled (f : AfiSafi) (c : Capabilities) : Capabilities :=
  mk (mpFamilies c) (routeRefresh c) (enhancedRouteRefresh c) (asn32bit c) (asn c) (extendedMessage c)
    (gracefulRestart c) (restarting c) (restartTime c) (gracefulFamilies c) (llgr c) (llgrFamilies c)
    (multiSess c) (multiSessionFamilies c) (addPath c) (addPathFamilies c) (outboundRouteFiltering c)
    (orfEntries c) (extendedNextHop c) (extendedNextHopEntries c) true (labeledFamilies c ++ [f]) (bgpsec c)
    (bgpsecFamilies c) (fqdn c) (hostname c) (domain c) (linkLocalNextHop c).
Definition add_bgpsec (f : AfiSafi) (c : Capabilities) : Capabilities :=
  mk (mpFamilies c) (routeRefresh c) (enhancedRouteRefresh c) (asn32bit c) (asn c) (extendedMessage c)
    (gracefulRestart c) (restarting c) (restartTime c) (gracefulFamilies c) (llgr c) (llgrFamilies c)
    (multiSess c) (multiSessionFamilies c) (addPath c) (addPathFamilies c) (outboundRouteFiltering c)
    (orfEntries c) (extendedNextHop c) (extendedNextHopEntries c) (multipleLabels c) (labeledFamilies c) true
    (bgpsecFamilies c ++ [f]) (fqdn c) (hostname c) (domain c) (linkLocalNextHop c).
Definition set_fqdn (h d : bytes) (c : Capabilities) : Capabilities :=
  mk (mpFamilies c) (routeRefresh c) (enhancedRouteRefresh c) (asn32bit c) (asn c) (extendedMessage c)
    (gracefulRestart c) (restarting c) (restartTime c) (gracefulFamilies c) (llgr c) (llgrFamilies c)
    (multiSess c) (multiSessionFamilies c) (addPath c) (addPathFamilies c) (outboundRouteFiltering c)
    (orfEntries c) (extendedNextHop c) (extendedNextHopEntries c) (multipleLabels c) (labeledFamilies c)
    (bgpsec c) (bgpsecFamilies c) true h d (linkLocalNextHop c).
Definition set_linkLocal (c : Capabilities) : Capabilities :=
  mk (mpFamilies c) (routeRefresh c) (enhancedRouteRefresh c) (asn32bit c) (asn c) (extendedMessage c)
    (gracefulRestart c) (restarting c) (restartTime c) (gracefulFamilies c) (llgr c) (llgrFamilies c)
    (multiSess c) (multiSessionFamilies c) (addPath c) (addPathFamilies c) (outboundRouteFiltering c)
    (orfEntries c) (extendedNextHop c) (extendedNextHopEntries c) (multipleLabels c) (labeledFamilies c)
    (bgpsec c) (bgpsecFamilies c) (fqdn c) (hostname c) (domain c) true.
End Caps.

(** ** Writing *)

(** [routing/bgp/transport/BgpTx.cpp:32-35] computeCapabilityLen, getFragSize: how many blocks fit a parameter *)
Definition getFragSize (blockSize : Z) : Z := 253 / blockSize.

(** [routing/bgp/transport/BgpTx.cpp:37-40] computeCapabilityLen, getFragments *)
Definition getFragments (fragSize blockCount : Z) : Z := u64 (blockCount + fragSize - 1) / fragSize.

(** [routing/bgp/transport/BgpTx.cpp:27-30] computeCapabilityLen, addParam *)
Definition addParam (dataSize capSize : Z) : Z := u16 (capSize + (4 + u8 dataSize)).

(** A loop of [n] calls of [addParam]: the sum modulo the width, see
    [addParams_iter]. *)
Definition addParams (n dataSize capSize : Z) : Z := u16 (capSize + n * (4 + u8 dataSize)).

(** [routing/bgp/transport/BgpTx.cpp:55-64] computeCapabilityLen, the parameters of a list of blocks, with [extra]
    bytes in front of each *)
Definition addBlocks (extra blockSize count capSize : Z) : Z :=
  let fragSize := getFragSize blockSize in
  let frags := getFragments fragSize count in
  let capSize := addParams (u64 (frags - 1)) (extra + fragSize * blockSize) capSize in
  let remainder := count mod fragSize in
  addParam (extra + (if remainder =? 0 then fragSize else remainder) * blockSize) capSize.

Definition count {A} (l : list A) : Z := Z.of_nat (length l).
Definition is_nil {A} (l : list A) : bool := match l with [] => true | _ => false end.

(** A step taken only if [b]. *)
Definition whenever {A} (b : bool) (f : A -> A) (a : A) : A := if b then f a else a.

(** [routing/bgp/transport/BgpTx.cpp:23-132] computeCapabilityLen *)
Definition computeCapabilityLen (c : Caps.Capabilities) : Z :=
  let s := addParams (count (Caps.mpFamilies c)) 4 0 in
  let s := whenever (Caps.routeRefresh c) (addParam 0) s in
  let s := addParams (count (Caps.orfEntries c)) 7 s in
  let s := whenever (negb (is_nil (Caps.extendedNextHopEntries c))) (addBlocks 0 6 (count (Caps.extendedNextHopEntries c))) s in
  let s := whenever (Caps.extendedMessage c) (addParam 0) s in
  let s := whenever (Caps.gracefulRestart c) (addBlocks 2 4 (count (Caps.gracefulFamilies c))) s in
  let s := whenever (Caps.asn32bit c) (addParam 4) s in
  let s := whenever (negb (is_nil (Caps.multiSessionFamilies c))) (addBlocks 0 4 (count (Caps.multiSessionFamilies c))) s in
  let s := whenever (negb (is_nil (Caps.addPathFamilies c))) (addBlocks 0 4 (count (Caps.addPathFamilies c))) s in
  let s := whenever (Caps.enhancedRouteRefresh c) (addParam 0) s in
  let s := whenever (Caps.llgr c && negb (is_nil (Caps.llgrFamilies c))) (addBlocks 0 7 (count (Caps.llgrFamilies c))) s in
  let s := whenever (Caps.fqdn c) (addParam (1 + count (Caps.hostname c) + 1 + count (Caps.domain c))) s in
  whenever (Caps.linkLocalNextHop c) (addParam 0) s.

(** [routing/bgp/transport/BgpTx.cpp:136-146] appendCapabilities, openParam, with the value written behind it: the
    assertion ends the program, a value longer than its truncated size leaves
    the room reserved *)
Definition openParam (p : Z * bytes) : outcome bytes :=
  let '(code, value) := p in
  let dataSize := u8 (count value) in
  if 253 <? dataSize + 2 then Throw "assertion failed"
  else if negb (dataSize =? count value) then UB
  else Ret ([BGP_PARAMETER_CAPABILITY; u8 (dataSize + 2); code; dataSize] ++ value).

(** [routing/bgp/transport/BgpTx.cpp:190-193] appendCapabilities, the blocks of each fragment *)
Fixpoint fragments {A} (fuel fragSize : nat) (l : list A) : list (list A) :=
  match fuel, l with
  | S fuel, _ :: _ => take fragSize l :: fragments fuel fragSize (drop fragSize l)
  | _, _ => []
  end.

Definition fragParams {A} (code blockSize : Z) (block : A -> bytes) (l : list A) : list (Z * bytes) :=
  (fun frag => (code, concat (block <$> frag))) <$> fragments (length l) (Z.to_nat (getFragSize blockSize)) l.

Definition paramIf (b : bool) (p : Z * bytes) : list (Z * bytes) := if b then [p] else [].

(** [routing/bgp/transport/BgpTx.cpp:200-204] appendCapabilities, an extended next hop *)
Definition nextHopBlock (e : AfiSafi * Z) : bytes := be_encode 2 (afi e.1) ++ be_encode 2 (u16 (safi e.1)) ++ be_encode 2 e.2.
(** [routing/bgp/transport/BgpTx.cpp:225-228] appendCapabilities, a family of graceful restart *)
Definition gracefulBlock (e : AfiSafi * bool) : bytes := be_encode 2 (afi e.1) ++ [safi e.1; if e.2 : bool then 0x80 else 0].
(** [routing/bgp/transport/BgpTx.cpp:257-260] appendCapabilities, a family with a session of its own *)
Definition multiSessionBlock (f : AfiSafi) : bytes := be_encode 2 (afi f) ++ [safi f; 0].
(** [routing/bgp/transport/BgpTx.cpp:283-286] appendCapabilities, a family with additional paths *)
Definition addPathBlock (e : AfiSafi * Z) : bytes := be_encode 2 (afi e.1) ++ [safi e.1; e.2].
(** [routing/bgp/transport/BgpTx.cpp:304-308] appendCapabilities, a family of long-lived graceful restart *)
Definition llgrBlock (e : LlgrFamily) : bytes :=
  be_encode 2 (afi (llgr_family e)) ++ [safi (llgr_family e); llgr_flags e] ++ be_encode 3 (Z.land (staleTime e) 0x00FFFFFF).
(** [routing/bgp/transport/BgpTx.cpp:174-180] appendCapabilities, an outbound filter *)
Definition orfBlock (e : OrfEntry) : bytes :=
  be_encode 2 (afi (orf_family e)) ++ [0; safi (orf_family e); 1; orfType e; orf_sendReceive e].
(** [routing/bgp/transport/BgpTx.cpp:161-164] appendCapabilities, a family *)
Definition mpBlock (f : AfiSafi) : bytes := be_encode 2 (afi f) ++ [0; safi f].
(** [routing/bgp/transport/BgpTx.cpp:218-220] appendCapabilities, the flags and the time of graceful restart *)
Definition restartWord (c : Caps.Capabilities) : Z :=
  let flagsTime := Z.land (Caps.restartTime c) 0x0FFF in if Caps.restarting c then Z.lor flagsTime 0x8000 else flagsTime.
(** [routing/bgp/transport/BgpTx.cpp:315-321] appendCapabilities, the names *)
Definition fqdnValue (h d : bytes) : bytes := [u8 (count h)] ++ h ++ [u8 (count d)] ++ d.

(** [routing/bgp/transport/BgpTx.cpp:158-326] appendCapabilities, the parameters in the order in which they are
    written *)
Definition capParams (c : Caps.Capabilities) : list (Z * bytes) :=
  ((fun f => (BGP_CAPABILITY_MULTIPROTOCOL, mpBlock f)) <$> Caps.mpFamilies c) ++
  paramIf (Caps.routeRefresh c) (BGP_CAPABILITY_ROUTE_REFRESH, []) ++
  ((fun e => (BGP_CAPABILITY_OUTBOUND_FILTER, orfBlock e)) <$> Caps.orfEntries c) ++
  fragParams BGP_CAPABILITY_EXTENDED_NEXT_HOP 6 nextHopBlock (Caps.extendedNextHopEntries c) ++
  paramIf (Caps.extendedMessage c) (BGP_CAPABILITY_EXTENDED_MESSAGE, []) ++
  paramIf (Caps.gracefulRestart c)
    (BGP_CAPABILITY_GRACEFUL_RESTART, be_encode 2 (restartWord c) ++ concat (gracefulBlock <$> Caps.gracefulFamilies c)) ++
  paramIf (Caps.asn32bit c) (BGP_CAPABILITY_32_BIT_AS, be_encode 4 (Caps.asn c)) ++
  fragParams BGP_CAPABILITY_MULTI_SESSION 4 multiSessionBlock (Caps.multiSessionFamilies c) ++
  fragParams BGP_CAPABILITY_ADD_PATH 4 addPathBlock (Caps.addPathFamilies c) ++
  paramIf (Caps.enhancedRouteRefresh c) (BGP_CAPABILITY_ENHANCED_ROUTE_REFRESH, []) ++
  paramIf (Caps.llgr c && negb (is_nil (Caps.llgrFamilies c))) (BGP_CAPABILITY_LLGR, concat (llgrBlock <$> Caps.llgrFamilies c)) ++
  paramIf (Caps.fqdn c) (BGP_CAPABILITY_FQDN, fqdnValue (Caps.hostname c) (Caps.domain c)) ++
  paramIf (Caps.linkLocalNextHop c) (BGP_CAPABILITY_LINK_LOCAL_NEXT_HOP, []).

(** [routing/bgp/transport/BgpTx.cpp:134-327] appendCapabilities *)
Definition appendCapabilities (c : Caps.Capabilities) : outcome bytes := l ← mapM openParam (capParams c); Ret (concat l).

(** ** Reading *)

(** [routing/bgp/transport/BgpRx.cpp:602-607] BgpRx::parseCapabilities, a loop over blocks of [k] bytes: the fuel is
    more than the blocks there are *)
Fixpoint forBlocks {A} (fuel k : nat) (f : bytes -> outcome A) (p : bytes) (pos : nat) : outcome (list A) :=
  match fuel with
  | O => UB
  | S fuel =>
      if (pos + k <=? length p)%nat then
        a ← f (drop pos p); l ← forBlocks fuel k f p (pos + k); Ret (a :: l)
      else Ret []
  end.

Definition blocks {A} (k : nat) (f : bytes -> outcome A) (p : bytes) (pos : nat) : outcome (list A) :=
  forBlocks (S (length p)) k f p pos.

(** The family at the start of [p], its second part at [off]. *)
Definition readFamily (off : nat) (p : bytes) : outcome AfiSafi :=
  a ← readU16 p; s ← Prelude.rd p off; Ret (mkAfiSafi a s).

(** [routing/bgp/transport/BgpRx.cpp:533-544] BgpRx::parseCapabilities, an extended next hop *)
Definition readNextHop (p : bytes) : outcome (AfiSafi * Z) := f ← readFamily 2 p; n ← readU16 (drop 4 p); Ret (f, n).
(** [routing/bgp/transport/BgpRx.cpp:581-587] BgpRx::parseCapabilities, a family of graceful restart *)
Definition readGraceful (p : bytes) : outcome (AfiSafi * bool) := f ← readFamily 2 p; fl ← Prelude.rd p 3; Ret (f, negb (Z.land fl 0x80 =? 0)).
(** [routing/bgp/transport/BgpRx.cpp:613-619] BgpRx::parseCapabilities, a family with additional paths *)
Definition readAddPath (p : bytes) : outcome (AfiSafi * Z) := f ← readFamily 2 p; m ← Prelude.rd p 3; Ret (f, m).
(** [routing/bgp/transport/BgpRx.cpp:625-632] BgpRx::parseCapabilities, a family of long-lived graceful restart *)
Definition readLlgr (p : bytes) : outcome LlgrFamily :=
  f ← readFamily 2 p; fl ← Prelude.rd p 3; t ← readU24 (drop 4 p); Ret (mkLlgr f t fl).

(** [routing/bgp/transport/BgpRx.cpp:522-528] BgpRx::parseCapabilities, the filters of a family: the loop ends by its count *)
Fixpoint readOrf (i : nat) (f : AfiSafi) (p : bytes) (pos : nat) : outcome (list OrfEntry) :=
  match i with
  | O => Ret []
  | S i =>
      if (pos + 2 <=? length p)%nat then
        t ← Prelude.rd p pos; s ← Prelude.rd p (pos + 1); l ← readOrf i f p (pos + 2); Ret (mkOrf f t s :: l)
      else Ret []
  end.

(** [routing/bgp/transport/BgpRx.cpp:636-655] BgpRx::parseCapabilities, the names *)
Definition readFqdn (p : bytes) (c : Caps.Capabilities) : outcome Caps.Capabilities :=
  let len := length p in
  hn ← Prelude.rd p 0;
  let hnLen := Z.to_nat hn in
  if (1 + hnLen <=? len)%nat then
    let host := take hnLen (drop 1 p) in
    let domainOff := (1 + hnLen)%nat in
    if (domainOff + 1 <=? len)%nat then
      dl ← Prelude.rd p domainOff;
      let domLen := Z.to_nat dl in
      Ret (Caps.set_fqdn host (if (domainOff + 1 + domLen <=? len)%nat then take domLen (drop (domainOff + 1) p) else Caps.domain c) c)
    else Ret (Caps.set_fqdn host (Caps.domain c) c)
  else Ret c.

(** [routing/bgp/transport/BgpRx.cpp:494-665] BgpRx::parseCapabilities, the switch: [p] is the value of the capability *)
Definition parseCapability (type : Z) (p : bytes) (c : Caps.Capabilities) : outcome Caps.Capabilities :=
  let len := length p in
  if type =? BGP_CAPABILITY_MULTIPROTOCOL then
    if (len =? 4)%nat then f ← readFamily 3 p; Ret (Caps.add_mp f c) else Ret c
  else if type =? BGP_CAPABILITY_ROUTE_REFRESH then Ret (whenever (len =? 0)%nat Caps.set_routeRefresh c)
  else if type =? BGP_CAPABILITY_ENHANCED_ROUTE_REFRESH then Ret (whenever (len =? 0)%nat Caps.set_enhanced c)
  else if type =? BGP_CAPABILITY_OUTBOUND_FILTER then
    if (5 <=? len)%nat then
      f ← readFamily 2 p; n ← Prelude.rd p 3; l ← readOrf (Z.to_nat n) f p 4; Ret (Caps.add_orf l c)
    else Ret c
  else if type =? BGP_CAPABILITY_EXTENDED_NEXT_HOP then
    l ← blocks 6 readNextHop p 0; Ret (Caps.add_nextHop (6 <=? len)%nat l c)
  else if type =? BGP_CAPABILITY_EXTENDED_MESSAGE then Ret (whenever (len =? 0)%nat Caps.set_extendedMessage c)
  else if type =? BGP_CAPABILITY_BGP_SEC then
    if (len =? 3)%nat then f ← readFamily 2 p; Ret (Caps.add_bgpsec f c) else Ret c
  else if type =? BGP_CAPABILITY_MULTIPLE_LABELS then
    if (3 <=? len)%nat then f ← readFamily 2 p; Ret (Caps.add_labeled f c) else Ret c
  else if type =? BGP_CAPABILITY_GRACEFUL_RESTART then
    if (2 <=? len)%nat then
      flagsTime ← readU16 p; l ← blocks 4 readGraceful p 2;
      Ret (Caps.set_graceful (negb (Z.land flagsTime 0x8000 =? 0)) (Z.land flagsTime 0x0FFF) l c)
    else Ret c
  else if type =? BGP_CAPABILITY_32_BIT_AS then
    if (len =? 4)%nat then a ← readU32 p; Ret (Caps.set_asn a c) else Ret c
  else if type =? BGP_CAPABILITY_MULTI_SESSION then
    l ← blocks 4 (readFamily 2) p 0; Ret (Caps.add_multiSession (4 <=? len)%nat l c)
  else if type =? BGP_CAPABILITY_ADD_PATH then
    l ← blocks 4 readAddPath p 0; Ret (Caps.add_addPath (4 <=? len)%nat l c)
  else if type =? BGP_CAPABILITY_LLGR then
    l ← blocks 7 readLlgr p 0; Ret (Caps.add_llgr (7 <=? len)%nat l c)
  else if type =? BGP_CAPABILITY_FQDN then if (1 <=? len)%nat then readFqdn p c else Ret c
  else if type =? BGP_CAPABILITY_LINK_LOCAL_NEXT_HOP then Ret (whenever (len =? 0)%nat Caps.set_linkLocal c)
  else Ret c.

(** [routing/bgp/transport/BgpRx.cpp:482-669] BgpRx::parseCapabilities, from [idx]: each turn takes two bytes or more *)
Fixpoint parseCapabilities (fuel : nat) (data : bytes) (idx : nat) (c : Caps.Capabilities) : outcome Caps.Capabilities :=
  match fuel with
  | O => UB
  | S fuel =>
      if (idx + 2 <=? length data)%nat then
        type ← Prelude.rd data idx; l ← Prelude.rd data (idx + 1);
        let len := Z.to_nat l in
        if (length data <? idx + 2 + len)%nat then Ret c
        else c ← parseCapability type (take len (drop (idx + 2) data)) c; parseCapabilities fuel data (idx + 2 + len) c
      else Ret c
  end.

(** [routing/bgp/transport/BgpRx.cpp:238-254] BgpRx::processOpen, the parameters: whether each ended within them *)
Fixpoint parseParameters (fuel : nat) (params : bytes) (pos : nat) (c : Caps.Capabilities) : outcome (Caps.Capabilities * bool) :=
  match fuel with
  | O => UB
  | S fuel =>
      if (pos + 2 <=? length params)%nat then
        pType ← Prelude.rd params pos; l ← Prelude.rd params (pos + 1);
        let pLen := Z.to_nat l in
        if (length params <? pos + 2 + pLen)%nat then Ret (c, false)
        else
          let data := take pLen (drop (pos + 2) params) in
          c ← (if pType =? BGP_PARAMETER_CAPABILITY then parseCapabilities (S (length data)) data 0 c else Ret c);
          parseParameters fuel params (pos + 2 + pLen) c
      else Ret (c, true)
  end.

(** ** What a router offers *)

(** The configuration of an address family towards a neighbor. *)
Record AfConfig := mkAfConfig { cfg_family : AfiSafi; pathsReceive : bool; pathsSend : bool; orfBoth : bool; orfReceive : bool; orfSend : bool }.

(** The configuration of a session: the AS number it uses, graceful restart
    with its time, sessions per family. *)
Record CapConfig := mkCapConfig { localAsn : Z; gracefulTime : option Z; cfgMultiSession : bool; cfgFamilies : list AfConfig }.

(** [routing/bgp/session/Session.cpp:118-126] Session::buildLocalCapabilities, the additional paths of a family *)
Definition offeredPaths (a : AfConfig) : list (AfiSafi * Z) :=
  let m := Z.lor (if pathsReceive a then BGP_ADD_PATH_RECEIVE else 0) (if pathsSend a then BGP_ADD_PATH_SEND else 0) in
  if m =? 0 then [] else [(cfg_family a, m)].

(** [routing/bgp/session/Session.cpp:127-135] Session::buildLocalCapabilities, the outbound filter of a family *)
Definition offeredOrf (a : AfConfig) : list OrfEntry :=
  let m := if orfBoth a then BGP_ORF_BOTH
           else Z.lor (if orfReceive a then BGP_ORF_RECEIVE else 0) (if orfSend a then BGP_ORF_SEND else 0) in
  if m =? 0 then [] else [mkOrf (cfg_family a) BGP_ORF_TYPE_PREFIX_LIST m].

(** [routing/bgp/session/Session.cpp:84-137] Session::buildLocalCapabilities *)
Definition buildLocalCapabilities (g : CapConfig) : Caps.Capabilities :=
  let paths := mjoin (offeredPaths <$> cfgFamilies g) in
  let orf := mjoin (offeredOrf <$> cfgFamilies g) in
  Caps.mk [] true true true (localAsn g) true
    (match gracefulTime g with Some _ => true | None => false end) false (default 0 (gracefulTime g)) []
    false [] (cfgMultiSession g) [] (negb (is_nil paths)) paths (negb (is_nil orf)) orf
    false [] false [] false [] false [] [] true.

(** ** Agreement *)

Module Neg.

(** [routing/bgp/session/Capabilities.hpp:161-182] NegotiatedCapabilities *)
Record NegotiatedCapabilities := mk {
  asn32bit : bool;
  routeRefresh : bool;
  enhancedRR : bool;
  gracefulRestart : bool;
  llgr : bool;
  extendedMessage : bool;
  addpath : bool;
  multiSess : bool;
  linkLocalNextHop : bool;
  orf : bool;
  addPathFamilies : list (AfiSafi * Z);
  grFamilies : list (AfiSafi * bool);
  llgrFamilies : list LlgrFamily;
  orfEntries : list OrfEntry;
  activeFamilies : gset AfiSafi;
  multiSessionFamilies : gset AfiSafi
}.

Definition new : NegotiatedCapabilities :=
  mk false false false false false false false false false false [] [] [] [] ∅ ∅.
End Neg.

Definition bit (m b : Z) : bool := negb (Z.land m b =? 0).

(** What two ends that may send or receive agree on, for the first. *)
Definition agreed (sendBit receiveBit l p : Z) : Z :=
  Z.lor (if bit l sendBit && bit p receiveBit then sendBit else 0) (if bit l receiveBit && bit p sendBit then receiveBit else 0).

(** [routing/bgp/session/Session.cpp:480-504] Session::negotiateCapabilities, the additional paths of a family *)
Definition agreePaths (peer : list (AfiSafi * Z)) (lap : AfiSafi * Z) : list (AfiSafi * Z) :=
  match List.find (fun pap => bool_decide (pap.1 = lap.1)) peer with
  | Some pap => let m := agreed BGP_ADD_PATH_SEND BGP_ADD_PATH_RECEIVE lap.2 pap.2 in if m =? 0 then [] else [(lap.1, m)]
  | None => []
  end.

(** [routing/bgp/session/Session.cpp:507-525] Session::negotiateCapabilities, an outbound filter *)
Definition agreeOrf (peer : list OrfEntry) (loe : OrfEntry) : list OrfEntry :=
  match List.find (fun poe => bool_decide (orf_family poe = orf_family loe) && (orfType poe =? orfType loe)) peer with
  | Some poe =>
      let m := agreed BGP_ORF_SEND BGP_ORF_RECEIVE (orf_sendReceive loe) (orf_sendReceive poe) in
      if m =? 0 then [] else [mkOrf (orf_family loe) (orfType loe) m]
  | None => []
  end.

(** [routing/bgp/session/Session.cpp:530-541] Session::negotiateCapabilities, long-lived graceful restart of a family *)
Definition agreeLlgr (peer : list LlgrFamily) (llf : LlgrFamily) : list LlgrFamily :=
  match List.find (fun plf => bool_decide (llgr_family plf = llgr_family llf)) peer with
  | Some plf => [mkLlgr (llgr_family llf) (Z.min (staleTime llf) (staleTime plf)) (u8 (Z.land (llgr_flags llf) (llgr_flags plf)))]
  | None => []
  end.

(** [routing/bgp/session/Session.cpp:545-554] Session::negotiateCapabilities, graceful restart of a family *)
Definition agreeGraceful (peer : list (AfiSafi * bool)) (lgf : AfiSafi * bool) : list (AfiSafi * bool) :=
  match List.find (fun pgf => bool_decide (pgf.1 = lgf.1)) peer with Some pgf => [pgf] | None => [] end.

(** Whether a peer supports a family, which [Capabilities] declares and
    nothing defines, is a parameter; [single] is the family of a session that
    serves only one. *)
Section Negotiate.
  Context (supportsFamily : Caps.Capabilities -> AfiSafi -> bool).

(** [routing/bgp/session/Session.cpp:433-449] Session::negotiateCapabilities, the families of both *)
Definition negotiateFamilies (loc peer : Caps.Capabilities) : gset AfiSafi :=
  list_to_set (filter (supportsFamily peer) (Caps.mpFamilies loc)) ∪
  (if is_nil (Caps.mpFamilies peer) then {[ mkAfiSafi 1 1 ]} else ∅).

(** [routing/bgp/session/Session.cpp:415-555] Session::negotiateCapabilities *)
Definition negotiateCapabilities (single : option AfiSafi) (loc peer : Caps.Capabilities) : Neg.NegotiatedCapabilities :=
  let gr := Caps.gracefulRestart loc && Caps.gracefulRestart peer in
  let active :=
    match single with
    | Some f => if supportsFamily peer f then {[ f ]} else ∅
    | None => negotiateFamilies loc peer
    end in
  let multi := if Caps.multiSess loc
               then filter (fun f => f ∈ Caps.multiSessionFamilies peer) (Caps.multiSessionFamilies loc) else [] in
  let paths := mjoin (agreePaths (Caps.addPathFamilies peer) <$> Caps.addPathFamilies loc) in
  let orfs := mjoin (agreeOrf (Caps.orfEntries peer) <$> Caps.orfEntries loc) in
  let llgrs := if Caps.llgr loc && Caps.llgr peer
               then mjoin (agreeLlgr (Caps.llgrFamilies peer) <$> Caps.llgrFamilies loc) else [] in
  let grs := if gr then mjoin (agreeGraceful (Caps.gracefulFamilies peer) <$> Caps.gracefulFamilies loc) else [] in
  Neg.mk (Caps.asn32bit loc && Caps.asn32bit peer)
    (Caps.routeRefresh loc && Caps.routeRefresh peer)
    (Caps.enhancedRouteRefresh loc && Caps.enhancedRouteRefresh peer)
    gr (negb (is_nil llgrs))
    (Caps.extendedMessage loc && Caps.extendedMessage peer)
    (negb (is_nil paths)) (negb (is_nil multi))
    (Caps.linkLocalNextHop loc && Caps.linkLocalNextHop peer)
    (negb (is_nil orfs)) paths grs llgrs orfs active (list_to_set multi).
End Negotiate.

(** ** The size of what is written *)

Lemma wrap_add_l w a b : 0 <= w -> wrap w (wrap w a + b) = wrap w (a + b).
Proof. intros. unfold wrap. apply Zplus_mod_idemp_l. Qed.

Lemma addParam_wrap d s : addParam d (u16 s) = u16 (s + (4 + u8 d)).
Proof. unfold addParam. rewrite wrap_add_l by lia. done. Qed.

Lemma addParams_wrap n d s : addParams n d (u16 s) = u16 (s + n * (4 + u8 d)).
Proof. unfold addParams. rewrite wrap_add_l by lia. done. Qed.

(** [addParams] is the loop. *)
Lemma addParams_iter n d s : in_width 16 s -> Nat.iter n (addParam d) s = addParams (Z.of_nat n) d s.
Proof.
  intros Hs. induction n as [|n IH].
  - unfold addParams. cbn [Nat.iter nat_rect]. rewrite Z.mul_0_l, Z.add_0_r. symmetry. apply wrap_small, Hs.
  - change (Nat.iter (S n) (addParam d) s) with (addParam d (Nat.iter n (addParam d) s)). rewrite IH. unfold addParams.
    rewrite addParam_wrap. f_equal. lia.
Qed.

(** A list that fits one parameter. *)
Lemma addBlocks_single extra bs n s :
  0 < n < getFragSize bs -> 0 < bs -> 0 <= extra -> extra + n * bs < 256 ->
  addBlocks extra bs n (u16 s) = u16 (s + (4 + (extra + n * bs))).
Proof.
  intros Hn Hb He Hs. set (fs := getFragSize bs) in *. unfold addBlocks. fold fs.
  assert (Hf : getFragments fs n = 1).
  { unfold getFragments. assert (fs <= 253).
    { unfold fs, getFragSize. apply Z.div_le_upper_bound; nia. }
    rewrite wrap_small by (unfold in_width; lia). symmetry. apply Z.div_unique with (r := n - 1); lia. }
  rewrite Hf. change (u64 (1 - 1)) with 0. rewrite addParams_wrap, Z.mul_0_l, Z.add_0_r.
  rewrite Z.mod_small by lia. destruct (Z.eqb_spec n 0); [lia|]. rewrite addParam_wrap. f_equal. f_equal. f_equal.
  apply wrap_small. unfold in_width. nia.
Qed.

(** An empty list of families of graceful restart: the loop runs 2^64 - 1
    times, and what it adds vanishes modulo 2^16. *)
Lemma addBlocks_graceful_empty s : addBlocks 2 4 0 (u16 s) = u16 s.
Proof.
  unfold addBlocks. change (getFragSize 4) with 63. change (getFragments 63 0) with 0. change (u64 (0 - 1)) with (2 ^ 64 - 1).
  rewrite addParams_wrap. change (0 mod 63 =? 0) with true. cbv iota.
  change (2 + 63 * 4) with 254. change (4 + u8 254) with 258. rewrite addParam_wrap. change (4 + u8 254) with 258.
  unfold wrap. replace (s + (2 ^ 64 - 1) * 258 + 258) with (s + (2 ^ 48 * 258) * 2 ^ 16) by lia. apply Z_mod_plus_full.
Qed.

Lemma whenever_wrap b f k s : (forall s, f (u16 s) = u16 (s + k)) -> whenever b f (u16 s) = u16 (s + if b : bool then k else 0).
Proof. intros H. destruct b; cbn [whenever]; [apply H|]. rewrite Z.add_0_r. done. Qed.

(** *** Parameters on the wire *)

Definition param_wire (p : Z * bytes) : bytes := [BGP_PARAMETER_CAPABILITY; count p.2 + 2; p.1; count p.2] ++ p.2.

Lemma openParam_wire p : count p.2 <= 251 -> openParam p = Ret (param_wire p).
Proof.
  destruct p as [code v]. cbn [snd]. intros Hv. unfold openParam. assert (0 <= count v) by (unfold count; lia).
  rewrite (wrap_small 8 (count v)) by (unfold in_width; lia). rewrite (wrap_small 8 (count v + 2)) by (unfold in_width; lia).
  rewrite Z.eqb_refl. destruct (Z.ltb_spec 253 (count v + 2)); [lia|]. done.
Qed.

Lemma mapM_openParam l : Forall (fun p => count p.2 <= 251) l -> mapM openParam l = Ret (param_wire <$> l).
Proof.
  induction 1 as [|p l Hp _ IH]; [done|]. cbn [mapM]. rewrite openParam_wire by done.
  cbn [mbind outcome_bind]. rewrite IH. done.
Qed.

Lemma fragments_single {A} fs (l : list A) : (length l < fs)%nat -> fragments (length l) fs l = if is_nil l then [] else [l].
Proof.
  intros Hl. destruct l as [|a l]; [done|]. cbn [length fragments is_nil].
  rewrite take_ge by lia. rewrite drop_ge by lia. destruct (length l); done.
Qed.

Lemma length_concat_map {A} (f : A -> bytes) k l : (forall a, length (f a) = k) -> length (concat (f <$> l)) = (k * length l)%nat.
Proof.
  intros Hf. induction l as [|a l IH]; [cbn; lia|]. rewrite fmap_cons. cbn [concat length].
  rewrite length_app, Hf, IH. lia.
Qed.

(** Every list fits one parameter. *)
Definition caps_fit (c : Caps.Capabilities) : Prop :=
  (length (Caps.extendedNextHopEntries c) < 42)%nat /\ (length (Caps.multiSessionFamilies c) < 63)%nat /\
  (length (Caps.addPathFamilies c) < 63)%nat /\ (length (Caps.gracefulFamilies c) < 63)%nat /\
  (length (Caps.llgrFamilies c) < 36)%nat /\ (length (Caps.hostname c) + length (Caps.domain c) < 250)%nat.

#[export] Instance caps_fit_dec c : Decision (caps_fit c).
Proof. unfold caps_fit. apply _. Defined.

(** The parameters without the fragmentation. *)
Definition flatParams (c : Caps.Capabilities) : list (Z * bytes) :=
  ((fun f => (BGP_CAPABILITY_MULTIPROTOCOL, mpBlock f)) <$> Caps.mpFamilies c) ++
  paramIf (Caps.routeRefresh c) (BGP_CAPABILITY_ROUTE_REFRESH, []) ++
  ((fun e => (BGP_CAPABILITY_OUTBOUND_FILTER, orfBlock e)) <$> Caps.orfEntries c) ++
  paramIf (negb (is_nil (Caps.extendedNextHopEntries c)))
    (BGP_CAPABILITY_EXTENDED_NEXT_HOP, concat (nextHopBlock <$> Caps.extendedNextHopEntries c)) ++
  paramIf (Caps.extendedMessage c) (BGP_CAPABILITY_EXTENDED_MESSAGE, []) ++
  paramIf (Caps.gracefulRestart c)
    (BGP_CAPABILITY_GRACEFUL_RESTART, be_encode 2 (restartWord c) ++ concat (gracefulBlock <$> Caps.gracefulFamilies c)) ++
  paramIf (Caps.asn32bit c) (BGP_CAPABILITY_32_BIT_AS, be_encode 4 (Caps.asn c)) ++
  paramIf (negb (is_nil (Caps.multiSessionFamilies c)))
    (BGP_CAPABILITY_MULTI_SESSION, concat (multiSessionBlock <$> Caps.multiSessionFamilies c)) ++
  paramIf (negb (is_nil (Caps.addPathFamilies c))) (BGP_CAPABILITY_ADD_PATH, concat (addPathBlock <$> Caps.addPathFamilies c)) ++
  paramIf (Caps.enhancedRouteRefresh c) (BGP_CAPABILITY_ENHANCED_ROUTE_REFRESH, []) ++
  paramIf (Caps.llgr c && negb (is_nil (Caps.llgrFamilies c))) (BGP_CAPABILITY_LLGR, concat (llgrBlock <$> Caps.llgrFamilies c)) ++
  paramIf (Caps.fqdn c) (BGP_CAPABILITY_FQDN, fqdnValue (Caps.hostname c) (Caps.domain c)) ++
  paramIf (Caps.linkLocalNextHop c) (BGP_CAPABILITY_LINK_LOCAL_NEXT_HOP, []).

Lemma fragParams_single {A} code bs (f : A -> bytes) l :
  (length l < Z.to_nat (getFragSize bs))%nat ->
  fragParams code bs f l = paramIf (negb (is_nil l)) (code, concat (f <$> l)).
Proof. intros Hl. unfold fragParams. rewrite fragments_single by done. destruct l; done. Qed.

Lemma capParams_flat c : caps_fit c -> capParams c = flatParams c.
Proof.
  intros (H1 & H2 & H3 & _). unfold capParams, flatParams.
  rewrite (fragParams_single _ 6), !(fragParams_single _ 4) by done. done.
Qed.

Lemma Forall_paramIf (P : Z * bytes -> Prop) b p : (b = true -> P p) -> Forall P (paramIf b p).
Proof. intros H. destruct b; cbn [paramIf]; [constructor; [auto|]|]; constructor. Qed.

Lemma flatParams_short c : caps_fit c -> Forall (fun p => count p.2 <= 251) (flatParams c).
Proof.
  intros (H1 & H2 & H3 & H4 & H5 & H6). unfold flatParams.
  assert (Hl : forall A (f : A -> bytes) k l n, (forall a, length (f a) = k) -> (length l < n)%nat -> (k * (n - 1) <= 251)%nat ->
            count (concat (f <$> l)) <= 251).
  { intros A f k l n Hf Hn Hk. unfold count. rewrite (length_concat_map f k l Hf). nia. }
  assert (He : forall A (code : Z) (f : A -> bytes) l k, (forall a, length (f a) = k) -> (k <= 251)%nat ->
            Forall (fun p : Z * bytes => count p.2 <= 251) ((fun a => (code, f a)) <$> l)).
  { intros A code f l k Hf Hk. apply Forall_fmap, Forall_true. intros a. unfold count. cbn [compose snd]. rewrite Hf. lia. }
  repeat apply Forall_app_2; try (apply Forall_paramIf; intros _); cbn [snd];
    try (unfold count; rewrite ?be_encode_length; cbn [length]; lia).
  - apply (He _ _ _ _ 4%nat); [done | lia].
  - apply (He _ _ _ _ 7%nat); [done | lia].
  - apply (Hl _ _ 6%nat _ 42%nat); [done | done | lia].
  - pose proof (length_concat_map gracefulBlock 4 (Caps.gracefulFamilies c) (fun _ => eq_refl)) as E.
    unfold count. rewrite length_app, be_encode_length, E. lia.
  - apply (Hl _ _ 4%nat _ 63%nat); [done | done | lia].
  - apply (Hl _ _ 4%nat _ 63%nat); [done | done | lia].
  - apply (Hl _ _ 7%nat _ 36%nat); [done | done | lia].
  - unfold count, fqdnValue. rewrite !length_app. cbn [length]. lia.
Qed.

Lemma appendCapabilities_wire c : caps_fit c -> appendCapabilities c = Ret (concat (param_wire <$> flatParams c)).
Proof.
  intros Hc. unfold appendCapabilities. rewrite capParams_flat, mapM_openParam by (done || apply flatParams_short, Hc). done.
Qed.

Definition wireLen (l : list (Z * bytes)) : Z := count (concat (param_wire <$> l)).

Lemma wireLen_app l1 l2 : wireLen (l1 ++ l2) = wireLen l1 + wireLen l2.
Proof. unfold wireLen, count. rewrite fmap_app, concat_app, length_app. lia. Qed.

Lemma wireLen_paramIf b code v : wireLen (paramIf b (code, v)) = if b : bool then 4 + count v else 0.
Proof. destruct b; [|done]. unfold wireLen, count. cbn [paramIf fmap list_fmap concat]. rewrite app_nil_r. cbn. lia. Qed.

Lemma wireLen_fmap {A} code (f : A -> bytes) k l :
  (forall a, length (f a) = k) -> wireLen ((fun a => (code, f a)) <$> l) = count l * (4 + Z.of_nat k).
Proof.
  intros Hf. unfold wireLen, count. rewrite <- list_fmap_compose.
  rewrite (length_concat_map _ (4 + k)) by (intros a; cbn; rewrite Hf; done). lia.
Qed.

Lemma count_blocks {A} (f : A -> bytes) k l : (forall a, length (f a) = k) -> count (concat (f <$> l)) = count l * Z.of_nat k.
Proof. intros Hf. unfold count. rewrite (length_concat_map f k l Hf). lia. Qed.

Lemma addBlocks_list {A} bs (l : list A) s :
  (length l < Z.to_nat (getFragSize bs))%nat -> 0 < bs < 252 ->
  whenever (negb (is_nil l)) (addBlocks 0 bs (count l)) (u16 s) =
  u16 (s + if negb (is_nil l) then 4 + count l * bs else 0).
Proof.
  intros Hl Hb. destruct l as [|a l]; [cbn [is_nil negb whenever]; rewrite Z.add_0_r; done|].
  cbn [is_nil negb whenever]. assert (count (a :: l) * bs <= 253).
  { assert (count (a :: l) <= getFragSize bs) by (unfold count in *; lia).
    pose proof (Z.mul_div_le 253 bs ltac:(lia)). unfold getFragSize in *. nia. }
  rewrite addBlocks_single; [done | unfold count; cbn [length] in *; lia | lia | lia | lia].
Qed.

(** The size announced is the size written, but for an empty list of families
    of graceful restart: the six bytes of that capability are not counted. *)
Lemma computeCapabilityLen_spec c :
  caps_fit c ->
  computeCapabilityLen c =
    u16 (wireLen (flatParams c) - if Caps.gracefulRestart c && is_nil (Caps.gracefulFamilies c) then 6 else 0).
Proof.
  intros (H1 & H2 & H3 & H4 & H5 & H6). unfold computeCapabilityLen.
  assert (Hp : forall d s, 0 <= d < 252 -> addParam d (u16 s) = u16 (s + (4 + d))).
  { intros d s Hd. rewrite addParam_wrap, (wrap_small 8 d) by (unfold in_width; lia). done. }
  assert (Hw : forall b d s, 0 <= d < 252 -> whenever b (addParam d) (u16 s) = u16 (s + if b : bool then 4 + d else 0)).
  { intros b d s Hd. apply whenever_wrap. intros. apply Hp, Hd. }
  assert (E0 : addParams (count (Caps.mpFamilies c)) 4 0 = u16 (count (Caps.mpFamilies c) * 8)).
  { unfold addParams. rewrite Z.add_0_l. change (4 + u8 4) with 8. done. }
  cbv zeta. rewrite E0, Hw by lia. rewrite addParams_wrap. change (4 + u8 7) with 11.
  rewrite (addBlocks_list 6) by (done || lia). rewrite Hw by lia.
  assert (Hg : forall s, whenever (Caps.gracefulRestart c) (addBlocks 2 4 (count (Caps.gracefulFamilies c))) (u16 s) =
    u16 (s + ((if Caps.gracefulRestart c then 4 + (2 + count (Caps.gracefulFamilies c) * 4) else 0) -
              (if Caps.gracefulRestart c && is_nil (Caps.gracefulFamilies c) then 6 else 0)))).
  { intros s. destruct (Caps.gracefulRestart c); cbn [whenever andb]; [|f_equal; lia].
    destruct (Caps.gracefulFamilies c) as [|g l]; cbn [is_nil].
    - change (count []) with 0. rewrite addBlocks_graceful_empty. f_equal. lia.
    - rewrite addBlocks_single; [f_equal; lia | | lia | lia |]; unfold count; cbn [length] in *;
        change (getFragSize 4) with 63; lia. }
  rewrite Hg, Hw by lia. rewrite (addBlocks_list 4), (addBlocks_list 4) by (done || lia). rewrite Hw by lia.
  assert (Hl : forall s, whenever (Caps.llgr c && negb (is_nil (Caps.llgrFamilies c))) (addBlocks 0 7 (count (Caps.llgrFamilies c))) (u16 s) =
    u16 (s + if Caps.llgr c && negb (is_nil (Caps.llgrFamilies c)) then 4 + count (Caps.llgrFamilies c) * 7 else 0)).
  { intros s. destruct (Caps.llgr c); [apply addBlocks_list; [done | lia] | cbn [andb whenever]; rewrite Z.add_0_r; done]. }
  rewrite Hl. rewrite Hw by (unfold count; lia). rewrite Hw by lia.
  unfold flatParams. rewrite !wireLen_app, !wireLen_paramIf.
  rewrite (wireLen_fmap _ mpBlock 4), (wireLen_fmap _ orfBlock 7) by done.
  rewrite (count_blocks nextHopBlock 6), (count_blocks multiSessionBlock 4), (count_blocks addPathBlock 4), (count_blocks llgrBlock 7) by done.
  assert (Eg : count (be_encode 2 (restartWord c) ++ concat (gracefulBlock <$> Caps.gracefulFamilies c)) = 2 + count (Caps.gracefulFamilies c) * 4).
  { pose proof (count_blocks gracefulBlock 4 (Caps.gracefulFamilies c) (fun _ => eq_refl)). unfold count in *.
    rewrite length_app, be_encode_length. lia. }
  rewrite Eg.
  assert (Ef : count (fqdnValue (Caps.hostname c) (Caps.domain c)) = 1 + count (Caps.hostname c) + 1 + count (Caps.domain c)).
  { unfold fqdnValue, count. rewrite !length_app. cbn [length]. lia. }
  rewrite Ef. change (count (be_encode 4 (Caps.asn c))) with 4. change (@count Z []) with 0. f_equal.
  change (Z.of_nat 4) with 4. change (Z.of_nat 6) with 6. change (Z.of_nat 7) with 7. ring.
Qed.

(** ** Reading what was written *)

Definition family_ok (f : AfiSafi) : Prop := in_width 16 (afi f) /\ in_width 8 (safi f).

#[export] Instance family_ok_dec f : Decision (family_ok f).
Proof. unfold family_ok. apply _. Defined.

(** The values are in the range of their types. *)
Definition caps_values (c : Caps.Capabilities) : Prop :=
  Forall family_ok (Caps.mpFamilies c) /\
  Forall (fun e => family_ok (orf_family e) /\ in_width 8 (orfType e)) (Caps.orfEntries c) /\
  Forall (fun e => family_ok e.1 /\ in_width 16 e.2) (Caps.extendedNextHopEntries c) /\
  Forall (fun e => family_ok e.1) (Caps.gracefulFamilies c) /\
  Forall family_ok (Caps.multiSessionFamilies c) /\
  Forall (fun e => family_ok e.1 /\ in_width 8 e.2) (Caps.addPathFamilies c) /\
  Forall (fun e => family_ok (llgr_family e) /\ in_width 24 (staleTime e) /\ in_width 8 (llgr_flags e)) (Caps.llgrFamilies c) /\
  in_width 32 (Caps.asn c) /\ in_width 12 (Caps.restartTime c) /\ is_bytes (Caps.hostname c) /\ is_bytes (Caps.domain c).

#[export] Instance caps_values_dec c : Decision (caps_values c).
Proof. unfold caps_values. apply _. Defined.

Lemma readU16_enc v tl : in_width 16 v -> readU16 (be_encode 2 v ++ tl) = Ret v.
Proof.
  intros Hv. change (readU16 (be_encode 2 v ++ tl)) with (readU16 (be_encode 2 v)).
  rewrite readU16_spec by (apply be_encode_bytes || (cbn; lia)). rewrite take_ge by (rewrite be_encode_length; lia).
  rewrite be_decode_encode. f_equal. apply wrap_small, Hv.
Qed.

Lemma readU24_enc v tl : in_width 24 v -> readU24 (be_encode 3 v ++ tl) = Ret v.
Proof.
  intros Hv. change (readU24 (be_encode 3 v ++ tl)) with (readU24 (be_encode 3 v)).
  rewrite readU24_spec by (apply be_encode_bytes || (cbn; lia)). rewrite take_ge by (rewrite be_encode_length; lia).
  rewrite be_decode_encode. f_equal. apply wrap_small, Hv.
Qed.

Lemma readU32_enc v tl : in_width 32 v -> readU32 (be_encode 4 v ++ tl) = Ret v.
Proof.
  intros Hv. change (readU32 (be_encode 4 v ++ tl)) with (readU32 (be_encode 4 v)).
  rewrite readU32_spec by (apply be_encode_bytes || (cbn; lia)). rewrite take_ge by (rewrite be_encode_length; lia).
  rewrite be_decode_encode. f_equal. apply wrap_small, Hv.
Qed.

Lemma readFamily_enc off f s tl :
  family_ok f -> (be_encode 2 (afi f) ++ tl) !! off = Some s -> readFamily off (be_encode 2 (afi f) ++ tl) = Ret (mkAfiSafi (afi f) s).
Proof. intros [Ha _] Hs. unfold readFamily. rewrite readU16_enc by done. cbn [mbind outcome_bind]. unfold Prelude.rd. rewrite Hs. done. Qed.

Lemma family_eta f : mkAfiSafi (afi f) (safi f) = f.
Proof. destruct f. done. Qed.

Lemma forBlocks_read {A B} k (enc : A -> bytes) (f : bytes -> outcome B) (g : A -> B) l pre fuel :
  (0 < k)%nat -> (forall a, length (enc a) = k) -> (forall a tl, a ∈ l -> f (enc a ++ tl) = Ret (g a)) -> (length l < fuel)%nat ->
  forBlocks fuel k f (pre ++ concat (enc <$> l)) (length pre) = Ret (g <$> l).
Proof.
  intros Hk Hlen. revert pre fuel. induction l as [|a l IH]; intros pre fuel Hf Hfuel; (destruct fuel as [|fuel]; [cbn in Hfuel; lia|]).
  - cbn [forBlocks fmap list_fmap concat]. rewrite app_nil_r. destruct (Nat.leb_spec (length pre + k) (length pre)); [lia|]. done.
  - rewrite !fmap_cons. cbn [concat forBlocks]. rewrite !length_app, Hlen.
    destruct (Nat.leb_spec (length pre + k) (length pre + (k + length (concat (enc <$> l))))); [|lia].
    rewrite drop_app_length, Hf by (apply elem_of_cons; auto). cbn [mbind outcome_bind].
    specialize (IH (pre ++ enc a) fuel ltac:(intros; apply Hf, elem_of_cons; auto) ltac:(cbn in Hfuel; lia)).
    rewrite <- app_assoc, length_app, Hlen in IH. rewrite IH. done.
Qed.

Lemma blocks_read {A B} k (enc : A -> bytes) (f : bytes -> outcome B) (g : A -> B) l pre :
  (0 < k)%nat -> (forall a, length (enc a) = k) -> (forall a tl, a ∈ l -> f (enc a ++ tl) = Ret (g a)) ->
  blocks k f (pre ++ concat (enc <$> l)) (length pre) = Ret (g <$> l).
Proof.
  intros Hk Hlen Hf. apply forBlocks_read; [done..|]. rewrite length_app, (length_concat_map enc k) by done. nia.
Qed.

Lemma blocks_read0 {A B} k (enc : A -> bytes) (f : bytes -> outcome B) (g : A -> B) l :
  (0 < k)%nat -> (forall a, length (enc a) = k) -> (forall a tl, a ∈ l -> f (enc a ++ tl) = Ret (g a)) ->
  blocks k f (concat (enc <$> l)) 0 = Ret (g <$> l).
Proof. exact (blocks_read k enc f g l []). Qed.

(** Reading a list of capabilities. *)
Fixpoint readParams (l : list (Z * bytes)) (c : Caps.Capabilities) : outcome Caps.Capabilities :=
  match l with [] => Ret c | p :: l => c ← parseCapability p.1 p.2 c; readParams l c end.

Lemma readParams_app l1 l2 c c1 : readParams l1 c = Ret c1 -> readParams (l1 ++ l2) c = readParams l2 c1.
Proof.
  revert c. induction l1 as [|p l1 IH]; intros c; cbn [readParams app].
  - intros [= ->]. done.
  - intros (c2 & -> & H)%outcome_bind_ret_inv. cbn [mbind outcome_bind]. apply IH, H.
Qed.

(** At the end of the data nothing is read. *)
Lemma parseCapabilities_end fuel data idx c : (length data < idx + 2)%nat -> parseCapabilities (S fuel) data idx c = Ret c.
Proof. intros H. cbn [parseCapabilities]. destruct (Nat.leb_spec (idx + 2) (length data)); [lia | done]. Qed.

Lemma param_wires_long l : (length l <= length (concat (param_wire <$> l)))%nat.
Proof. induction l as [|p l IH]; [done|]. rewrite fmap_cons. cbn [concat length]. rewrite length_app. cbn [length app param_wire]. lia. Qed.

Lemma parseCapabilities_one p c : count p.2 <= 251 ->
  parseCapabilities (S (length ([p.1; count p.2] ++ p.2))) ([p.1; count p.2] ++ p.2) 0 c = parseCapability p.1 p.2 c.
Proof.
  destruct p as [code v]. cbn [fst snd app length]. intros Hv. generalize (S (length v)). intros n.
  set (data := code :: count v :: v). change (parseCapabilities (S (S n)) data 0 c) with
    (if (0 + 2 <=? length data)%nat then
       let len := Z.to_nat (count v) in
       if (length data <? 0 + 2 + len)%nat then Ret c
       else c ← parseCapability code (take len (drop (0 + 2) data)) c; parseCapabilities (S n) data (0 + 2 + len) c
     else Ret c).
  assert (Hl : length data = S (S (length v))) by done. cbv zeta. unfold count. rewrite Nat2Z.id, Hl.
  destruct (Nat.leb_spec (0 + 2) (S (S (length v)))); [|lia].
  destruct (Nat.ltb_spec (S (S (length v))) (0 + 2 + length v)); [lia|].
  change (drop (0 + 2) data) with v. rewrite take_ge by lia.
  destruct (parseCapability code v c) as [c'| |]; [|done|done]. apply parseCapabilities_end. lia.
Qed.

(** A parameter is read, and the walk goes on behind it. *)
Lemma parseParameters_step fuel pre p tl c c1 : count p.2 <= 251 -> parseCapability p.1 p.2 c = Ret c1 ->
  parseParameters (S fuel) (pre ++ param_wire p ++ tl) (length pre) c =
  parseParameters fuel (pre ++ param_wire p ++ tl) (length (pre ++ param_wire p)) c1.
Proof.
  intros Hp H1. cbn [parseParameters].
  assert (Hlen : length (param_wire p) = (4 + length p.2)%nat) by reflexivity.
  rewrite !length_app, Hlen. destruct (Nat.leb_spec (length pre + 2) (length pre + (4 + length p.2 + length tl))); [|lia].
  assert (E0 : Prelude.rd (pre ++ param_wire p ++ tl) (length pre) = Ret BGP_PARAMETER_CAPABILITY).
  { unfold Prelude.rd. rewrite lookup_app_r by lia. rewrite Nat.sub_diag. done. }
  assert (E1 : Prelude.rd (pre ++ param_wire p ++ tl) (length pre + 1) = Ret (count p.2 + 2)).
  { unfold Prelude.rd. rewrite lookup_app_r by lia. replace (length pre + 1 - length pre)%nat with 1%nat by lia. done. }
  rewrite E0, E1. cbn [mbind outcome_bind].
  replace (Z.to_nat (count p.2 + 2)) with (2 + length p.2)%nat by (unfold count; lia).
  destruct (Nat.ltb_spec (length pre + (4 + length p.2 + length tl)) (length pre + 2 + (2 + length p.2))); [lia|].
  rewrite (Z.eqb_refl BGP_PARAMETER_CAPABILITY).
  assert (E2 : take (2 + length p.2) (drop (length pre + 2) (pre ++ param_wire p ++ tl)) = [p.1; count p.2] ++ p.2).
  { rewrite <- drop_drop, drop_app_length. unfold param_wire. cbn [app drop take Nat.add].
    do 2 f_equal. apply take_app_length. }
  rewrite E2, parseCapabilities_one, H1 by done. cbn [mbind outcome_bind]. f_equal. lia.
Qed.

Lemma parseParameters_prefix l : forall pre fuel tl c c', Forall (fun p => count p.2 <= 251) l -> readParams l c = Ret c' ->
  parseParameters (length l + fuel) (pre ++ concat (param_wire <$> l) ++ tl) (length pre) c =
  parseParameters fuel (pre ++ concat (param_wire <$> l) ++ tl) (length (pre ++ concat (param_wire <$> l))) c'.
Proof.
  induction l as [|p l IH]; intros pre fuel tl c c' Hl Hr.
  - cbn [readParams] in Hr. injection Hr as <-. cbn [fmap list_fmap concat length Nat.add]. rewrite app_nil_r. done.
  - apply Forall_cons in Hl as [Hp Hl]. cbn [readParams] in Hr. apply outcome_bind_ret_inv in Hr as (c1 & H1 & Hr).
    rewrite fmap_cons. cbn [concat length Nat.add]. rewrite <- (app_assoc (param_wire p)).
    rewrite (parseParameters_step _ pre p _ c c1 Hp H1). rewrite (app_assoc pre). rewrite (IH (pre ++ param_wire p) fuel tl c1 c' Hl Hr).
    rewrite <- !app_assoc. done.
Qed.

Lemma parseParameters_read l c c' : Forall (fun p => count p.2 <= 251) l -> readParams l c = Ret c' ->
  parseParameters (S (length (concat (param_wire <$> l)))) (concat (param_wire <$> l)) 0 c = Ret (c', true).
Proof.
  intros Hl Hr. set (W := concat (param_wire <$> l)). pose proof (param_wires_long l) as Hlong. fold W in Hlong.
  replace (S (length W)) with (length l + S (length W - length l))%nat by lia.
  pose proof (parseParameters_prefix l [] (S (length W - length l)) [] c c' Hl Hr) as E. rewrite app_nil_r in E. fold W in E.
  cbn [app length] in E. rewrite E. cbn [parseParameters]. destruct (Nat.leb_spec (length W + 2) (length W)); [lia | done].
Qed.

(** A walk that meets a parameter longer than what is left of the parameters. *)
Lemma parseParameters_cut l tl c c' k : Forall (fun p => count p.2 <= 251) l -> readParams l c = Ret c' -> 0 < k ->
  let w := concat (param_wire <$> l) ++ [BGP_PARAMETER_CAPABILITY; k] in tl = w ->
  parseParameters (S (length tl)) tl 0 c = Ret (c', false).
Proof.
  intros Hl Hr Hk w ->. subst w. set (W := concat (param_wire <$> l)). pose proof (param_wires_long l) as Hlong. fold W in Hlong.
  assert (Hlen : length (W ++ [BGP_PARAMETER_CAPABILITY; k]) = (length W + 2)%nat) by (rewrite length_app; done). rewrite Hlen.
  replace (S (length W + 2)) with (length l + S (length W + 2 - length l))%nat by lia.
  pose proof (parseParameters_prefix l [] (S (length W + 2 - length l)) [BGP_PARAMETER_CAPABILITY; k] c c' Hl Hr) as E. fold W in E.
  cbn [app length] in E. rewrite E. cbn [parseParameters]. rewrite Hlen. destruct (Nat.leb_spec (length W + 2) (length W + 2)); [|lia].
  unfold Prelude.rd. rewrite !lookup_app_r by lia. rewrite Nat.sub_diag. replace (length W + 1 - length W)%nat with 1%nat by lia.
  cbn [lookup list_lookup mbind outcome_bind]. destruct (Nat.ltb_spec (length W + 2) (length W + 2 + Z.to_nat k)); [done | lia].
Qed.

(** What a list is read as is read from every front of it. *)
Lemma readParams_front l1 l2 c c' : readParams (l1 ++ l2) c = Ret c' -> exists c1, readParams l1 c = Ret c1.
Proof.
  revert c. induction l1 as [|p l1 IH]; intros c H; [eauto|]. cbn [readParams app] in *.
  apply outcome_bind_ret_inv in H as (c1 & -> & H). apply (IH c1 H).
Qed.

(** *** What the reader makes of it *)

(** The reader takes the second part of the family from the reserved byte in
    front of it, the number of filters from the second part of the family, the
    type of the filter from the number, and what it may do from its type. *)
Definition receivedOrf (e : OrfEntry) : list OrfEntry :=
  if safi (orf_family e) =? 0 then [] else [mkOrf (mkAfiSafi (afi (orf_family e)) 0) 1 (orfType e)].

(** The capabilities of a peer that offers [c]. *)
Definition received (c : Caps.Capabilities) : Caps.Capabilities :=
  let gr := Caps.gracefulRestart c in
  let ll := Caps.llgr c && negb (is_nil (Caps.llgrFamilies c)) in
  Caps.mk (Caps.mpFamilies c) (Caps.routeRefresh c) (Caps.enhancedRouteRefresh c) (Caps.asn32bit c)
    (if Caps.asn32bit c then Caps.asn c else 0) (Caps.extendedMessage c)
    gr (gr && Caps.restarting c) (if gr then Caps.restartTime c else 0) (if gr then Caps.gracefulFamilies c else [])
    ll (if ll then Caps.llgrFamilies c else [])
    (negb (is_nil (Caps.multiSessionFamilies c))) (Caps.multiSessionFamilies c)
    (negb (is_nil (Caps.addPathFamilies c))) (Caps.addPathFamilies c)
    (negb (is_nil (Caps.orfEntries c))) (mjoin (receivedOrf <$> Caps.orfEntries c))
    (negb (is_nil (Caps.extendedNextHopEntries c)))
    ((fun e => (mkAfiSafi (afi e.1) 0, e.2)) <$> Caps.extendedNextHopEntries c)
    false [] false [] (Caps.fqdn c) (if Caps.fqdn c then Caps.hostname c else []) (if Caps.fqdn c then Caps.domain c else [])
    (Caps.linkLocalNextHop c).

Lemma read_mp l : forall c, Forall family_ok l ->
  readParams ((fun f => (BGP_CAPABILITY_MULTIPROTOCOL, mpBlock f)) <$> l) c = Ret (foldl (fun c f => Caps.add_mp f c) c l).
Proof.
  induction l as [|f l IH]; intros c Hl; [done|]. apply Forall_cons in Hl as [Hf Hl]. rewrite fmap_cons. cbn [readParams fst snd foldl].
  assert (E : parseCapability BGP_CAPABILITY_MULTIPROTOCOL (mpBlock f) c = Ret (Caps.add_mp f c)).
  { change (parseCapability BGP_CAPABILITY_MULTIPROTOCOL (mpBlock f) c) with (f ← readFamily 3 (mpBlock f); Ret (Caps.add_mp f c)).
    unfold mpBlock. rewrite (readFamily_enc 3 f (safi f)) by done. cbn [mbind outcome_bind]. rewrite family_eta. done. }
  rewrite E. cbn [mbind outcome_bind]. apply IH, Hl.
Qed.

Lemma read_orf l : forall c, Forall (fun e => family_ok (orf_family e) /\ in_width 8 (orfType e)) l ->
  readParams ((fun e => (BGP_CAPABILITY_OUTBOUND_FILTER, orfBlock e)) <$> l) c = Ret (foldl (fun c e => Caps.add_orf (receivedOrf e) c) c l).
Proof.
  induction l as [|e l IH]; intros c Hl; [done|]. apply Forall_cons in Hl as [[Hf Ht] Hl]. rewrite fmap_cons. cbn [readParams fst snd foldl].
  assert (E : parseCapability BGP_CAPABILITY_OUTBOUND_FILTER (orfBlock e) c = Ret (Caps.add_orf (receivedOrf e) c)).
  { set (F := mkAfiSafi (afi (orf_family e)) 0).
    assert (E1 : readFamily 2 (orfBlock e) = Ret F).
    { unfold orfBlock. rewrite (readFamily_enc 2 (orf_family e) 0) by done. done. }
    change (parseCapability BGP_CAPABILITY_OUTBOUND_FILTER (orfBlock e) c) with
      (f ← readFamily 2 (orfBlock e); l ← readOrf (Z.to_nat (safi (orf_family e))) f (orfBlock e) 4; Ret (Caps.add_orf l c)).
    rewrite E1. cbn [mbind outcome_bind]. unfold receivedOrf. destruct Hf as [_ [Hs _]].
    destruct (Z.eqb_spec (safi (orf_family e)) 0) as [->|]; [done|].
    destruct (Z.to_nat (safi (orf_family e))) as [|[|k]] eqn:En; [lia | done | done]. }
  rewrite E. cbn [mbind outcome_bind]. apply IH, Hl.
Qed.

Lemma map_id' {A} (f : A -> A) (l : list A) : (forall a, f a = a) -> f <$> l = l.
Proof. intros H. induction l as [|a l IH]; [done|]. rewrite fmap_cons, H, IH. done. Qed.

(** A byte written as a word. *)
Lemma be_encode_byte s : in_width 8 s -> be_encode 2 (u16 s) = [0; s].
Proof.
  intros Hs. assert (Hs' : 0 <= s < 256) by exact Hs. rewrite wrap_small by (unfold in_width; lia). cbn [be_encode].
  rewrite !land_255, !Z.shiftr_div_pow2 by lia. change (8 * Z.of_nat 1) with 8. change (8 * Z.of_nat 0) with 0.
  rewrite (Z.div_small s) by lia. rewrite Z.div_1_r, (Z.mod_small s) by lia. done.
Qed.

Lemma read_nextHop l c : Forall (fun e => family_ok e.1 /\ in_width 16 e.2) l -> l <> [] ->
  parseCapability BGP_CAPABILITY_EXTENDED_NEXT_HOP (concat (nextHopBlock <$> l)) c =
    Ret (Caps.add_nextHop true ((fun e => (mkAfiSafi (afi e.1) 0, e.2)) <$> l) c).
Proof.
  intros Hl Hn. set (p := concat (nextHopBlock <$> l)).
  change (parseCapability BGP_CAPABILITY_EXTENDED_NEXT_HOP p c) with
    (l ← blocks 6 readNextHop p 0; Ret (Caps.add_nextHop (6 <=? length p)%nat l c)).
  unfold p. rewrite (blocks_read0 6 nextHopBlock readNextHop (fun e => (mkAfiSafi (afi e.1) 0, e.2)) l); [| lia | done |].
  - cbn [mbind outcome_bind]. do 2 f_equal. apply Nat.leb_le. rewrite (length_concat_map nextHopBlock 6) by done.
    destruct l; [done | cbn [length]; lia].
  - intros [f n] tl Hin. rewrite Forall_forall in Hl. destruct (Hl _ Hin) as [[Hf Hs] Hw]. cbn [fst snd] in *.
    unfold readNextHop, nextHopBlock. cbn [fst snd]. rewrite be_encode_byte, <- !app_assoc by done.
    rewrite (readFamily_enc 2 f 0) by done. cbn [mbind outcome_bind].
    change (drop 4 (be_encode 2 (afi f) ++ [0; safi f] ++ be_encode 2 n ++ tl)) with (be_encode 2 n ++ tl).
    rewrite readU16_enc by done. done.
Qed.

Lemma bit_of_flag (b : bool) : negb (Z.land (if b then 0x80 else 0) 0x80 =? 0) = b.
Proof. destruct b; done. Qed.

Lemma graceful_reads l : Forall (fun e => family_ok e.1) l ->
  forall pre, blocks 4 readGraceful (pre ++ concat (gracefulBlock <$> l)) (length pre) = Ret l.
Proof.
  intros Hl pre. rewrite (blocks_read 4 gracefulBlock readGraceful (fun e => e)); [rewrite map_id'; done | lia | done |].
  intros [f b] tl Hin. rewrite Forall_forall in Hl. specialize (Hl _ Hin). cbn [fst] in Hl.
  unfold readGraceful, gracefulBlock. cbn [fst snd]. rewrite <- !app_assoc. rewrite (readFamily_enc 2 f (safi f)) by done.
  cbn [mbind outcome_bind]. rewrite family_eta.
  change (Prelude.rd (be_encode 2 (afi f) ++ [safi f; if b then 128 else 0] ++ tl) 3) with (Ret (if b then 128 else 0)).
  cbn [mbind outcome_bind]. rewrite bit_of_flag. done.
Qed.

Lemma multiSession_reads l : Forall family_ok l -> blocks 4 (readFamily 2) (concat (multiSessionBlock <$> l)) 0 = Ret l.
Proof.
  intros Hl. rewrite (blocks_read0 4 multiSessionBlock (readFamily 2) (fun e => e) l); [rewrite map_id'; done | lia | done |].
  intros f tl Hin. rewrite Forall_forall in Hl. unfold multiSessionBlock. rewrite <- app_assoc.
  rewrite (readFamily_enc 2 f (safi f)) by (done || apply Hl, Hin). rewrite family_eta. done.
Qed.

Lemma addPath_reads l : Forall (fun e => family_ok e.1 /\ in_width 8 e.2) l -> blocks 4 readAddPath (concat (addPathBlock <$> l)) 0 = Ret l.
Proof.
  intros Hl. rewrite (blocks_read0 4 addPathBlock readAddPath (fun e => e) l); [rewrite map_id'; done | lia | done |].
  intros [f m] tl Hin. rewrite Forall_forall in Hl. destruct (Hl _ Hin) as [Hf _]. cbn [fst] in Hf.
  unfold readAddPath, addPathBlock. cbn [fst snd]. rewrite <- app_assoc.
  rewrite (readFamily_enc 2 f (safi f)) by done. cbn [mbind outcome_bind]. rewrite family_eta. done.
Qed.

Lemma llgr_reads l : Forall (fun e => family_ok (llgr_family e) /\ in_width 24 (staleTime e) /\ in_width 8 (llgr_flags e)) l ->
  blocks 7 readLlgr (concat (llgrBlock <$> l)) 0 = Ret l.
Proof.
  intros Hl. rewrite (blocks_read0 7 llgrBlock readLlgr (fun e => e) l); [rewrite map_id'; done | lia | done |].
  intros [f t fl] tl Hin. rewrite Forall_forall in Hl. destruct (Hl _ Hin) as (Hf & Ht & _). cbn [llgr_family staleTime] in *.
  assert (Et : Z.land t 0x00FFFFFF = t).
  { change 0x00FFFFFF with (Z.ones 24). rewrite Z.land_ones by lia. apply Z.mod_small, Ht. }
  unfold readLlgr, llgrBlock. cbn [llgr_family staleTime llgr_flags]. rewrite Et, <- !app_assoc.
  rewrite (readFamily_enc 2 f (safi f)) by done. cbn [mbind outcome_bind].
  change (Prelude.rd (be_encode 2 (afi f) ++ [safi f; fl] ++ be_encode 3 t ++ tl) 3) with (Ret fl).
  change (drop 4 (be_encode 2 (afi f) ++ [safi f; fl] ++ be_encode 3 t ++ tl)) with (be_encode 3 t ++ tl).
  cbn [mbind outcome_bind]. rewrite readU24_enc, family_eta by done. done.
Qed.

Lemma fqdn_reads h d c : (length h + length d < 250)%nat -> readFqdn (fqdnValue h d) c = Ret (Caps.set_fqdn h d c).
Proof.
  intros Hl. unfold fqdnValue, readFqdn, count. rewrite !wrap_small by (unfold in_width; lia).
  set (p := [Z.of_nat (length h)] ++ h ++ [Z.of_nat (length d)] ++ d).
  assert (Hlen : length p = (length h + length d + 2)%nat) by (unfold p; rewrite !length_app; cbn [length]; lia).
  change (Prelude.rd p 0) with (Ret (Z.of_nat (length h))). cbn [mbind outcome_bind]. rewrite Nat2Z.id, Hlen.
  destruct (Nat.leb_spec (1 + length h) (length h + length d + 2)); [|lia].
  destruct (Nat.leb_spec (1 + length h + 1) (length h + length d + 2)); [|lia].
  assert (E : Prelude.rd p (1 + length h) = Ret (Z.of_nat (length d))).
  { unfold Prelude.rd, p. change (?n + length h)%nat with (S (length h)). cbn [app lookup list_lookup].
    change ((h ++ Z.of_nat (length d) :: d) !! length h) with ((h ++ [Z.of_nat (length d)] ++ d) !! length h).
    rewrite lookup_app_r by lia. rewrite Nat.sub_diag. done. }
  rewrite E. cbn [mbind outcome_bind]. rewrite Nat2Z.id.
  destruct (Nat.leb_spec (1 + length h + 1 + length d) (length h + length d + 2)); [|lia].
  assert (E1 : take (length h) (drop 1 p) = h) by (unfold p; cbn [app drop]; apply take_app_length).
  assert (E2 : drop (1 + length h + 1) p = d).
  { unfold p. replace (1 + length h + 1)%nat with (length ([Z.of_nat (length h)] ++ h ++ [Z.of_nat (length d)])) by (rewrite !length_app; cbn [length]; lia).
    rewrite !app_assoc. rewrite <- (app_assoc [_] h). apply drop_app_length. }
  rewrite E1, E2, take_ge by lia. done.
Qed.

Lemma restartWord_bits t (r : bool) : in_width 12 t ->
  let w := if r then Z.lor (Z.land t 0x0FFF) 0x8000 else Z.land t 0x0FFF in
  in_width 16 w /\ negb (Z.land w 0x8000 =? 0) = r /\ Z.land w 0x0FFF = t.
Proof.
  intros Ht w. assert (E : Z.land t 0x0FFF = t).
  { change 0x0FFF with (Z.ones 12). rewrite Z.land_ones by lia. apply Z.mod_small, Ht. }
  assert (E8 : Z.land t 0x8000 = 0).
  { apply Z.bits_inj'. intros i Hi. rewrite Z.land_spec, Z.bits_0. change 0x8000 with (2 ^ 15). rewrite Z.pow2_bits_eqb by lia.
    destruct (Z.eqb_spec 15 i) as [<-|]; [|apply andb_false_r]. rewrite (testbit_in_width 12 t 15) by (done || lia). done. }
  subst w. rewrite E. destruct r.
  - rewrite !Z.land_lor_distr_l, E8, E. split; [|split; [done | change (Z.land 0x8000 0x0FFF) with 0; apply Z.lor_0_r]].
    apply in_width_bits; [lia | apply Z.lor_nonneg; split; [apply Ht | lia]|].
    intros i Hi. rewrite Z.lor_spec, (testbit_in_width 12 t i) by (done || lia). rewrite (testbit_in_width 16 0x8000 i) by (done || lia). done.
  - rewrite E8, E. split; [apply (in_width_mono 12); [lia | done] | done].
Qed.

Lemma graceful_read c c0 : Forall (fun e => family_ok e.1) (Caps.gracefulFamilies c) -> in_width 12 (Caps.restartTime c) ->
  parseCapability BGP_CAPABILITY_GRACEFUL_RESTART (be_encode 2 (restartWord c) ++ concat (gracefulBlock <$> Caps.gracefulFamilies c)) c0 =
    Ret (Caps.set_graceful (Caps.restarting c) (Caps.restartTime c) (Caps.gracefulFamilies c) c0).
Proof.
  intros Hl Ht. set (p := be_encode 2 (restartWord c) ++ concat (gracefulBlock <$> Caps.gracefulFamilies c)).
  assert (E : parseCapability BGP_CAPABILITY_GRACEFUL_RESTART p c0 =
    (flagsTime ← readU16 p; l ← blocks 4 readGraceful p 2;
     Ret (Caps.set_graceful (negb (Z.land flagsTime 0x8000 =? 0)) (Z.land flagsTime 0x0FFF) l c0))) by done.
  rewrite E. destruct (restartWord_bits (Caps.restartTime c) (Caps.restarting c) Ht) as (Hw & H1 & H2). fold (restartWord c) in *.
  unfold p. rewrite readU16_enc by done. cbn [mbind outcome_bind].
  pose proof (graceful_reads _ Hl (be_encode 2 (restartWord c))) as Eg. rewrite be_encode_length in Eg. rewrite Eg. cbn [mbind outcome_bind]. rewrite H1, H2. done.
Qed.

(** *** The round trip *)

Module CapsFacts.
Import Caps.

Definition merge (b : bool) (x y : Capabilities) : Capabilities :=
  mk (if b then mpFamilies x else mpFamilies y) (if b then routeRefresh x else routeRefresh y)
    (if b then enhancedRouteRefresh x else enhancedRouteRefresh y) (if b then asn32bit x else asn32bit y)
    (if b then asn x else asn y) (if b then extendedMessage x else extendedMessage y)
    (if b then gracefulRestart x else gracefulRestart y) (if b then restarting x else restarting y)
    (if b then restartTime x else restartTime y) (if b then gracefulFamilies x else gracefulFamilies y)
    (if b then llgr x else llgr y) (if b then llgrFamilies x else llgrFamilies y) (if b then multiSess x else multiSess y)
    (if b then multiSessionFamilies x else multiSessionFamilies y) (if b then addPath x else addPath y)
    (if b then addPathFamilies x else addPathFamilies y)
    (if b then outboundRouteFiltering x else outboundRouteFiltering y) (if b then orfEntries x else orfEntries y)
    (if b then extendedNextHop x else extendedNextHop y)
    (if b then extendedNextHopEntries x else extendedNextHopEntries y) (if b then multipleLabels x else multipleLabels y)
    (if b then labeledFamilies x else labeledFamilies y) (if b then bgpsec x else bgpsec y)
    (if b then bgpsecFamilies x else bgpsecFamilies y) (if b then fqdn x else fqdn y)
    (if b then hostname x else hostname y) (if b then domain x else domain y)
    (if b then linkLocalNextHop x else linkLocalNextHop y).

Lemma merge_eq (b : bool) (x y : Capabilities) : (if b then x else y) = merge b x y.
Proof. destruct b, x, y; reflexivity. Qed.
End CapsFacts.

Lemma if_same {A} (b : bool) (x : A) : (if b then x else x) = x.
Proof. destruct b; reflexivity. Qed.

Lemma if_true_false (b : bool) : (if b then true else false) = b.
Proof. destruct b; reflexivity. Qed.

Lemma if_nil {A B} (f : list A -> list B) l : f [] = [] -> (if negb (is_nil l) then f l else []) = f l.
Proof. intros H. destruct l; [rewrite H|]; reflexivity. Qed.

(** Adding families one at a time adds them all. *)
Lemma foldl_add_mp l c : foldl (fun c f => Caps.add_mp f c) (Caps.add_mps [] c) l = Caps.add_mps l c.
Proof.
  revert c. induction l as [|f l IH]; intros c; [done|]. cbn [foldl].
  assert (E : Caps.add_mp f (Caps.add_mps [] c) = Caps.add_mps [] (Caps.add_mp f c)).
  { unfold Caps.add_mp, Caps.add_mps. cbn. rewrite !app_nil_r. done. }
  rewrite E, IH. unfold Caps.add_mp, Caps.add_mps. cbn. rewrite <- app_assoc. done.
Qed.

Lemma foldl_add_orf l c : foldl (fun c e => Caps.add_orf (receivedOrf e) c) c l =
  if negb (is_nil l) then Caps.add_orf (mjoin (receivedOrf <$> l)) c else c.
Proof.
  assert (H : forall l c, foldl (fun c e => Caps.add_orf (receivedOrf e) c) (Caps.add_orf [] c) l = Caps.add_orf (mjoin (receivedOrf <$> l)) c).
  { clear. induction l as [|e l IH]; intros c; [done|]. cbn [foldl].
    assert (E : forall m, Caps.add_orf m (Caps.add_orf [] c) = Caps.add_orf [] (Caps.add_orf m c)).
    { intros m. unfold Caps.add_orf. cbn. rewrite !app_nil_r. done. }
    rewrite E, IH, fmap_cons. cbn [mjoin list_join concat]. unfold Caps.add_orf. cbn. rewrite <- app_assoc. done. }
  destruct l as [|e l]; [done|]. cbn [foldl is_nil negb].
  assert (E : Caps.add_orf (receivedOrf e) c = Caps.add_orf [] (Caps.add_orf (receivedOrf e) c)).
  { unfold Caps.add_orf. cbn. rewrite app_nil_r. done. }
  rewrite E, H, fmap_cons. cbn [mjoin list_join concat]. unfold Caps.add_orf. cbn. rewrite <- app_assoc. done.
Qed.

Lemma readParams_chain l1 l2 c c1 c2 o : readParams l1 c = Ret c1 -> c1 = c2 -> readParams l2 c2 = o -> readParams (l1 ++ l2) c = o.
Proof. intros H <- <-. apply readParams_app, H. Qed.

Lemma readParams_if b p c c' : (b = true -> parseCapability p.1 p.2 c = Ret c') ->
  readParams (paramIf b p) c = Ret (CapsFacts.merge b c' c).
Proof. intros H. rewrite <- CapsFacts.merge_eq. destruct b; [|done]. cbn [paramIf readParams]. rewrite H by done. done. Qed.

(** One group of parameters: [t] shows how it is read. *)
Tactic Notation "read_group" tactic3(t) :=
  eapply readParams_chain;
  [ eapply readParams_if; intros Hb; t
  | unfold CapsFacts.merge; cbn; rewrite ?if_same, ?if_true_false; reflexivity | ].

Lemma parse_asn a s : in_width 32 a -> parseCapability BGP_CAPABILITY_32_BIT_AS (be_encode 4 a) s = Ret (Caps.set_asn a s).
Proof.
  intros Ha. change (parseCapability BGP_CAPABILITY_32_BIT_AS (be_encode 4 a) s) with (x ← readU32 (be_encode 4 a ++ []); Ret (Caps.set_asn x s)).
  rewrite readU32_enc by done. done.
Qed.

(** A list of blocks that is not empty is at least one block long. *)
Lemma blocks_long {A} (f : A -> bytes) k l : (forall a, length (f a) = k) -> l <> [] -> (k <=? length (concat (f <$> l)))%nat = true.
Proof. intros Hf Hl. apply Nat.leb_le. rewrite (length_concat_map f k) by done. destruct l; [done | cbn [length]; nia]. Qed.

Lemma parse_multiSession l s : Forall family_ok l -> l <> [] ->
  parseCapability BGP_CAPABILITY_MULTI_SESSION (concat (multiSessionBlock <$> l)) s = Ret (Caps.add_multiSession true l s).
Proof.
  intros Hl Hn. set (p := concat (multiSessionBlock <$> l)).
  change (parseCapability BGP_CAPABILITY_MULTI_SESSION p s) with
    (l ← blocks 4 (readFamily 2) p 0; Ret (Caps.add_multiSession (4 <=? length p)%nat l s)).
  unfold p. rewrite multiSession_reads, (blocks_long multiSessionBlock 4) by done. done.
Qed.

Lemma parse_addPath l s : Forall (fun e => family_ok e.1 /\ in_width 8 e.2) l -> l <> [] ->
  parseCapability BGP_CAPABILITY_ADD_PATH (concat (addPathBlock <$> l)) s = Ret (Caps.add_addPath true l s).
Proof.
  intros Hl Hn. set (p := concat (addPathBlock <$> l)).
  change (parseCapability BGP_CAPABILITY_ADD_PATH p s) with
    (l ← blocks 4 readAddPath p 0; Ret (Caps.add_addPath (4 <=? length p)%nat l s)).
  unfold p. rewrite addPath_reads, (blocks_long addPathBlock 4) by done. done.
Qed.

Lemma parse_llgr l s : Forall (fun e => family_ok (llgr_family e) /\ in_width 24 (staleTime e) /\ in_width 8 (llgr_flags e)) l -> l <> [] ->
  parseCapability BGP_CAPABILITY_LLGR (concat (llgrBlock <$> l)) s = Ret (Caps.add_llgr true l s).
Proof.
  intros Hl Hn. set (p := concat (llgrBlock <$> l)).
  change (parseCapability BGP_CAPABILITY_LLGR p s) with
    (l ← blocks 7 readLlgr p 0; Ret (Caps.add_llgr (7 <=? length p)%nat l s)).
  unfold p. rewrite llgr_reads, (blocks_long llgrBlock 7) by done. done.
Qed.

(** A list of capabilities is read as [received]. *)
Lemma readParams_flat c : caps_fit c -> caps_values c -> readParams (flatParams c) Caps.new = Ret (received c).
Proof.
  intros (F1 & F2 & F3 & F4 & F5 & F6) (V1 & V2 & V3 & V4 & V5 & V6 & V7 & V8 & V9 & _).
  assert (Hn : forall A (l : list A), negb (is_nil l) = true -> l <> []) by (intros A []; done).
  unfold flatParams.
  eapply readParams_chain; [apply read_mp, V1 | apply (foldl_add_mp _ Caps.new)|]. unfold Caps.add_mps. cbn.
  read_group reflexivity.
  eapply readParams_chain; [apply read_orf, V2 | rewrite foldl_add_orf, CapsFacts.merge_eq; unfold CapsFacts.merge; cbn; rewrite ?if_same, ?if_true_false; reflexivity|].
  read_group (apply read_nextHop; auto).
  read_group reflexivity.
  read_group (apply graceful_read; done).
  read_group (apply parse_asn; done).
  read_group (apply parse_multiSession; auto).
  read_group (apply parse_addPath; auto).
  read_group reflexivity.
  read_group (apply parse_llgr; [done|]; apply andb_true_iff in Hb as [_ Hb]; auto).
  read_group (apply (fqdn_reads _ _ _ F6)).
  rewrite <- (app_nil_r (paramIf _ _)). read_group reflexivity.
  cbn [readParams]. f_equal. unfold received. f_equal; rewrite ?orb_false_r, ?(if_nil (fun l => l)), ?(if_nil (fmap _)) by done; try done.
  destruct (Caps.orfEntries c); done.
Qed.

Lemma capabilities_roundtrip_facts c : caps_fit c -> caps_values c ->
  exists w, appendCapabilities c = Ret w /\ parseParameters (S (length w)) w 0 Caps.new = Ret (received c, true) /\
    computeCapabilityLen c = u16 (count w - if Caps.gracefulRestart c && is_nil (Caps.gracefulFamilies c) then 6 else 0) /\
    count w = wireLen (flatParams c).
Proof.
  intros Hf Hv. exists (concat (param_wire <$> flatParams c)). split; [apply appendCapabilities_wire, Hf|].
  split; [|split; [apply computeCapabilityLen_spec, Hf | done]].
  apply parseParameters_read; [apply flatParams_short, Hf | apply readParams_flat; done].
Qed.

(** Writing capabilities and reading them gives them back, except that the
    families of the outbound filters are misread and those of the extended
    next hops lose their second part; the size announced is the size written,
    except that graceful restart without families is not counted. *)
Theorem capabilities_roundtrip (c : Caps.Capabilities) :
  caps_fit c -> caps_values c ->
  exists w, appendCapabilities c = Ret w /\
    parseParameters (S (length w)) w 0 Caps.new = Ret (received c, true) /\
    computeCapabilityLen c = u16 (count w - if Caps.gracefulRestart c && is_nil (Caps.gracefulFamilies c) then 6 else 0).
Proof. intros Hf Hv. destruct (capabilities_roundtrip_facts c Hf Hv) as (w & H1 & H2 & H3 & _). eauto. Qed.

(** ** Any bytes can be read *)

Lemma rd_returns p i : (i < length p)%nat -> returns (Prelude.rd p i).
Proof. intros Hi. unfold Prelude.rd. destruct (lookup_lt_is_Some_2 p i Hi) as [x ->]. apply returns_ret. Qed.

Lemma readU16_returns p : (2 <= length p)%nat -> returns (readU16 p).
Proof. intros H. destruct p as [|a [|b p]]; [cbn in H; lia..|]. apply returns_ret. Qed.

Lemma readU24_returns p : (3 <= length p)%nat -> returns (readU24 p).
Proof. intros H. destruct p as [|a [|b [|c p]]]; [cbn in H; lia..|]. apply returns_ret. Qed.

Lemma readU32_returns p : (4 <= length p)%nat -> returns (readU32 p).
Proof. intros H. destruct p as [|a [|b [|c [|d p]]]]; [cbn in H; lia..|]. apply returns_ret. Qed.

(** One step of a reader whose bytes are there. *)
Ltac read_step :=
  lazymatch goal with
  | |- returns (Prelude.rd _ _ ≫= _) => apply returns_bind_eq; [apply rd_returns; rewrite ?length_drop; lia | intros ? _]
  | |- returns (readU16 _ ≫= _) => apply returns_bind_eq; [apply readU16_returns; rewrite ?length_drop; lia | intros ? _]
  | |- returns (readU24 _ ≫= _) => apply returns_bind_eq; [apply readU24_returns; rewrite ?length_drop; lia | intros ? _]
  | |- returns (readU32 _ ≫= _) => apply returns_bind_eq; [apply readU32_returns; rewrite ?length_drop; lia | intros ? _]
  | |- returns (Ret _) => apply returns_ret
  end.

Lemma readFamily_returns off p : (2 <= length p)%nat -> (off < length p)%nat -> returns (readFamily off p).
Proof. intros H1 H2. unfold readFamily. repeat read_step. Qed.

Lemma forBlocks_returns {A} fuel k (f : bytes -> outcome A) p : forall pos, (0 < k)%nat -> (forall q, (k <= length q)%nat -> returns (f q)) ->
  (pos <= length p < pos + fuel)%nat -> returns (forBlocks fuel k f p pos).
Proof.
  induction fuel as [|fuel IH]; intros pos Hk Hf Hp; [lia|]. cbn [forBlocks].
  destruct (Nat.leb_spec (pos + k) (length p)); [|apply returns_ret].
  apply returns_bind_eq; [apply Hf; rewrite length_drop; lia|]. intros a _.
  apply returns_bind_eq; [apply IH; [done | done | lia]|]. intros l _. apply returns_ret.
Qed.

Lemma blocks_returns {A} k (f : bytes -> outcome A) p pos : (0 < k)%nat -> (forall q, (k <= length q)%nat -> returns (f q)) ->
  (pos <= length p)%nat -> returns (blocks k f p pos).
Proof. intros. apply forBlocks_returns; [done | done | lia]. Qed.

Lemma readOrf_returns i f p : forall pos, returns (readOrf i f p pos).
Proof.
  induction i as [|i IH]; intros pos; cbn [readOrf]; [apply returns_ret|].
  destruct (Nat.leb_spec (pos + 2) (length p)); [|apply returns_ret]. do 2 read_step.
  apply returns_bind_eq; [apply IH|]. intros l _. apply returns_ret.
Qed.

Lemma readFqdn_returns p c : (1 <= length p)%nat -> returns (readFqdn p c).
Proof.
  intros Hp. unfold readFqdn. read_step. case_match eqn:E1; [|apply returns_ret]. case_match eqn:E2; [|apply returns_ret].
  apply Nat.leb_le in E2. read_step. apply returns_ret.
Qed.

Lemma block_readers p :
  ((6 <= length p)%nat -> returns (readNextHop p)) /\ ((4 <= length p)%nat -> returns (readGraceful p)) /\
  ((4 <= length p)%nat -> returns (readAddPath p)) /\ ((7 <= length p)%nat -> returns (readLlgr p)).
Proof.
  repeat split; intros H; [unfold readNextHop | unfold readGraceful | unfold readAddPath | unfold readLlgr];
    (apply returns_bind_eq; [apply readFamily_returns; lia | intros ? _]); repeat read_step.
Qed.

Lemma parseCapability_returns ty p c : returns (parseCapability ty p c).
Proof.
  unfold parseCapability.
  assert (Hb : forall A k (f : bytes -> outcome A) pos (g : list A -> outcome Caps.Capabilities), (0 < k)%nat ->
    (forall q, (k <= length q)%nat -> returns (f q)) -> (pos <= length p)%nat -> (forall l, returns (g l)) -> returns (l ← blocks k f p pos; g l)).
  { intros A k f pos g Hk Hf Hpos Hg. apply returns_bind_eq; [apply blocks_returns; done | intros l _; apply Hg]. }
  assert (Hfam : forall off (g : AfiSafi -> outcome Caps.Capabilities), (2 <= length p)%nat -> (off < length p)%nat -> (forall f, returns (g f)) ->
    returns (f ← readFamily off p; g f)).
  { intros off g H1 H2 Hg. apply returns_bind_eq; [apply readFamily_returns; done | intros f _; apply Hg]. }
  repeat (match goal with |- returns (if ?b then _ else _) => destruct b eqn:? end); zbools;
    repeat match goal with
    | H : (_ =? _)%nat = true |- _ => apply Nat.eqb_eq in H
    | H : (_ <=? _)%nat = true |- _ => apply Nat.leb_le in H
    end;
    try apply returns_ret; try (apply Hfam; [lia | lia | intros; apply returns_ret]);
    try (apply Hb; [lia | apply block_readers || (intros; apply readFamily_returns; lia) | lia | intros; apply returns_ret]).
  - apply Hfam; [lia | lia|]. intros f. read_step. apply returns_bind_eq; [apply readOrf_returns|]. intros l _. apply returns_ret.
  - read_step. apply Hb; [lia | apply block_readers | lia | intros; apply returns_ret].
  - read_step. apply returns_ret.
  - apply readFqdn_returns. lia.
Qed.

Lemma parseCapabilities_returns fuel data : forall idx c, (length data < idx + fuel)%nat -> (0 < fuel)%nat -> returns (parseCapabilities fuel data idx c).
Proof.
  induction fuel as [|fuel IH]; intros idx c Hf H0; [lia|]. cbn [parseCapabilities].
  destruct (Nat.leb_spec (idx + 2) (length data)); [|apply returns_ret]. do 2 read_step. case_match eqn:E; [apply returns_ret|].
  apply Nat.ltb_ge in E. apply returns_bind_eq; [apply parseCapability_returns|]. intros c1 _. apply IH; lia.
Qed.

(** Whatever the parameters of an OPEN are, reading them ends, and never
    leaves them. *)
Lemma parseParameters_returns fuel params : forall pos c, (length params < pos + fuel)%nat -> (0 < fuel)%nat -> returns (parseParameters fuel params pos c).
Proof.
  induction fuel as [|fuel IH]; intros pos c Hf H0; [lia|]. cbn [parseParameters].
  destruct (Nat.leb_spec (pos + 2) (length params)); [|apply returns_ret]. do 2 read_step. case_match eqn:E; [apply returns_ret|].
  apply Nat.ltb_ge in E. apply returns_bind_eq; [|intros c1 _; apply IH; lia].
  case_match; [apply parseCapabilities_returns; lia | apply returns_ret].
Qed.

(** ** Agreement *)

Lemma mjoin_cons {A} (x : list A) (l : list (list A)) : mjoin (x :: l) = x ++ mjoin l.
Proof. reflexivity. Qed.

Lemma agreed_send l p : bit (agreed BGP_ADD_PATH_SEND BGP_ADD_PATH_RECEIVE l p) BGP_ADD_PATH_SEND =
  bit l BGP_ADD_PATH_SEND && bit p BGP_ADD_PATH_RECEIVE.
Proof. unfold agreed. destruct (bit l _ && _), (bit l _ && _); done. Qed.

Lemma agreed_receive l p : bit (agreed BGP_ADD_PATH_SEND BGP_ADD_PATH_RECEIVE l p) BGP_ADD_PATH_RECEIVE =
  bit l BGP_ADD_PATH_RECEIVE && bit p BGP_ADD_PATH_SEND.
Proof. unfold agreed. destruct (bit l _ && _), (bit l _ && _); done. Qed.

(** Whether a bit is agreed on for a family. *)
Definition path_bit (b : Z) (l : list (AfiSafi * Z)) (f : AfiSafi) : bool :=
  existsb (fun e => bool_decide (e.1 = f) && bit e.2 b) l.

Definition mode_of (l : list (AfiSafi * Z)) (f : AfiSafi) : option Z := snd <$> List.find (fun e => bool_decide (e.1 = f)) l.

Lemma mode_of_absent l f : f ∉ l.*1 -> mode_of l f = None.
Proof.
  induction l as [|e l IH]; [done|]. rewrite fmap_cons, not_elem_of_cons. intros [H1 H2]. unfold mode_of in *. cbn [List.find].
  rewrite bool_decide_eq_false_2 by congruence. auto.
Qed.

Lemma path_bit_agree b p l f : NoDup l.*1 ->
  path_bit b (mjoin (agreePaths p <$> l)) f =
  match mode_of l f, mode_of p f with
  | Some x, Some y => bit (agreed BGP_ADD_PATH_SEND BGP_ADD_PATH_RECEIVE x y) b
  | _, _ => false
  end.
Proof.
  induction l as [|[g m] l IH]; [done|]. rewrite !fmap_cons. cbn [fst]. intros [Hg Hl]%NoDup_cons.
  rewrite mjoin_cons. unfold path_bit in *. rewrite existsb_app, IH by done.
  unfold mode_of at 3. cbn [List.find fst]. case_bool_decide as Hd.
  - subst g. rewrite (mode_of_absent l f Hg), orb_false_r. cbn [fmap option_fmap option_map snd].
    unfold agreePaths, mode_of. cbn [fst snd]. destruct (List.find _ p) as [y|]; [|done]. cbn [fmap option_fmap option_map].
    destruct (Z.eqb_spec (agreed BGP_ADD_PATH_SEND BGP_ADD_PATH_RECEIVE m y.2) 0) as [->|]; [done|].
    cbn [existsb fst snd]. rewrite bool_decide_eq_true_2 by done. rewrite orb_false_r. done.
  - fold (mode_of l f). replace (existsb _ (agreePaths p (g, m))) with false; [done|]. symmetry. unfold agreePaths. cbn [fst snd].
    destruct (List.find _ p); [|done]. destruct (_ =? 0); [done|]. cbn [existsb fst]. rewrite bool_decide_eq_false_2 by done. done.
Qed.

Section Agreement.
  Context (supportsFamily : Caps.Capabilities -> AfiSafi -> bool).

(** Of two routers that read each other's capabilities, each of which lists a
    family once, one sends additional paths for a family exactly if the other
    is ready to receive them. *)
Theorem additional_paths_agree (a b : Caps.Capabilities) (f : AfiSafi) :
  NoDup (Caps.addPathFamilies a).*1 -> NoDup (Caps.addPathFamilies b).*1 ->
  let nA := negotiateCapabilities supportsFamily None a (received b) in
  let nB := negotiateCapabilities supportsFamily None b (received a) in
  path_bit BGP_ADD_PATH_SEND (Neg.addPathFamilies nA) f = path_bit BGP_ADD_PATH_RECEIVE (Neg.addPathFamilies nB) f /\
  path_bit BGP_ADD_PATH_RECEIVE (Neg.addPathFamilies nA) f = path_bit BGP_ADD_PATH_SEND (Neg.addPathFamilies nB) f.
Proof.
  intros Ha Hb nA nB. change (Neg.addPathFamilies nA) with (mjoin (agreePaths (Caps.addPathFamilies b) <$> Caps.addPathFamilies a)).
  change (Neg.addPathFamilies nB) with (mjoin (agreePaths (Caps.addPathFamilies a) <$> Caps.addPathFamilies b)).
  rewrite !path_bit_agree by done.
  destruct (mode_of (Caps.addPathFamilies a) f) as [x|], (mode_of (Caps.addPathFamilies b) f) as [y|]; try done.
  rewrite !agreed_send, !agreed_receive. split; apply andb_comm.
Qed.

(** What a router offers never leads to more than IPv4 unicast: it announces
    no families, no families of graceful restart, no sessions per family, and
    the outbound filters it announces are read as filters of another type. *)
Theorem only_ipv4_unicast (g h : CapConfig) :
  let n := negotiateCapabilities supportsFamily None (buildLocalCapabilities g) (received (buildLocalCapabilities h)) in
  Neg.activeFamilies n = {[ mkAfiSafi 1 1 ]} /\ Neg.orf n = false /\ Neg.multiSess n = false /\ Neg.llgr n = false /\
  Neg.grFamilies n = [].
Proof.
  intros n. assert (Ho : Neg.orfEntries n = []).
  { cbn. set (P := mjoin (receivedOrf <$> mjoin (offeredOrf <$> cfgFamilies h))).
    assert (HP : forall e, e ∈ P -> orfType e = 1).
    { unfold P. intros e (l & Hl & (e0 & -> & _)%list_elem_of_fmap)%list_elem_of_join. unfold receivedOrf in Hl.
      destruct (_ =? 0); [by apply elem_of_nil in Hl|]. apply list_elem_of_singleton in Hl as ->. done. }
    assert (Hf : forall e, orfType e <> 1 -> agreeOrf P e = []).
    { intros e He. unfold agreeOrf. destruct (List.find _ P) as [x|] eqn:Ex; [|done]. apply List.find_some in Ex as [Hin Hx].
      apply list_elem_of_In in Hin. apply HP in Hin. zbools. congruence. }
    assert (Hl : forall l, (forall e, e ∈ l -> orfType e <> 1) -> mjoin (agreeOrf P <$> l) = []).
    { induction l as [|e l IH]; intros Hl; [done|]. rewrite fmap_cons, mjoin_cons, Hf, IH; [done | |]; intros; apply Hl, elem_of_cons; auto. }
    apply Hl. intros e (l & Hin & (a & -> & _)%list_elem_of_fmap)%list_elem_of_join. unfold offeredOrf in Hin.
    destruct (_ =? 0); [by apply elem_of_nil in Hin|]. apply list_elem_of_singleton in Hin as ->. done. }
  split; [|split; [|split; [|split]]].
  - cbn. unfold negotiateFamilies. cbn. set_solver.
  - change (Neg.orf n) with (negb (is_nil (Neg.orfEntries n))). rewrite Ho. done.
  - cbn. destruct (cfgMultiSession g); done.
  - done.
  - cbn. destruct (_ && _); done.
Qed.
End Agreement.

(** ** The offer of a router is in range *)

Definition config_ok (g : CapConfig) : Prop :=
  in_width 32 (localAsn g) /\ (forall t, gracefulTime g = Some t -> in_width 12 t) /\
  Forall (fun a => family_ok (cfg_family a)) (cfgFamilies g) /\ (length (cfgFamilies g) < 63)%nat.

Lemma mjoin_length {A B} (f : A -> list B) l : (forall a, (length (f a) <= 1)%nat) -> (length (mjoin (f <$> l)) <= length l)%nat.
Proof.
  intros Hf. induction l as [|a l IH]; [done|]. rewrite fmap_cons, mjoin_cons, length_app. cbn [length]. specialize (Hf a). lia.
Qed.

Lemma Forall_mjoin {A B} (P : B -> Prop) (f : A -> list B) (l : list A) : Forall (fun a => Forall P (f a)) l -> Forall P (mjoin (f <$> l)).
Proof. induction 1; [constructor|]. rewrite fmap_cons, mjoin_cons. apply Forall_app. done. Qed.

Lemma offeredPaths_length a : (length (offeredPaths a) <= 1)%nat.
Proof. unfold offeredPaths. destruct (_ =? 0); cbn; lia. Qed.
Lemma offeredOrf_length a : (length (offeredOrf a) <= 1)%nat.
Proof. unfold offeredOrf. destruct (_ =? 0); cbn; lia. Qed.

Lemma offered_values a : family_ok (cfg_family a) ->
  Forall (fun e => family_ok e.1 /\ in_width 8 e.2) (offeredPaths a) /\
  Forall (fun e => family_ok (orf_family e) /\ in_width 8 (orfType e)) (offeredOrf a).
Proof.
  intros Ha. unfold offeredPaths, offeredOrf. split.
  - destruct (_ =? 0); [constructor|]. constructor; [|constructor]. split; [done|].
    destruct (pathsReceive a), (pathsSend a); by_compute.
  - destruct (_ =? 0); [constructor|]. constructor; [|constructor]. split; [done | by_compute].
Qed.

Lemma buildLocal_ok g : config_ok g -> caps_fit (buildLocalCapabilities g) /\ caps_values (buildLocalCapabilities g).
Proof.
  intros (Ha & Ht & Hf & Hl). split.
  - unfold caps_fit. cbn. repeat split; try lia. pose proof (mjoin_length offeredPaths (cfgFamilies g) offeredPaths_length). lia.
  - unfold caps_values. cbn [buildLocalCapabilities Caps.mpFamilies Caps.orfEntries Caps.extendedNextHopEntries Caps.gracefulFamilies
      Caps.multiSessionFamilies Caps.addPathFamilies Caps.llgrFamilies Caps.asn Caps.restartTime Caps.hostname Caps.domain].
    repeat split; try constructor; try apply Ha.
    + apply Forall_mjoin. eapply Forall_impl; [exact Hf|]. intros a H. apply (offered_values a H).
    + apply Forall_mjoin. eapply Forall_impl; [exact Hf|]. intros a H. apply (offered_values a H).
    + destruct (gracefulTime g); [apply Ht; done | cbn; lia].
    + destruct (gracefulTime g); [apply Ht; done | cbn; lia].
Qed.

Lemma buildLocal_size g : config_ok g -> wireLen (flatParams (buildLocalCapabilities g)) < 2000.
Proof.
  intros (_ & _ & _ & Hl). unfold flatParams. rewrite !wireLen_app, !wireLen_paramIf.
  rewrite (wireLen_fmap _ mpBlock 4), (wireLen_fmap _ orfBlock 7) by done.
  rewrite (count_blocks nextHopBlock 6), (count_blocks multiSessionBlock 4), (count_blocks addPathBlock 4), (count_blocks llgrBlock 7) by done.
  pose proof (mjoin_length offeredPaths (cfgFamilies g) offeredPaths_length).
  pose proof (mjoin_length offeredOrf (cfgFamilies g) offeredOrf_length).
  unfold count. cbn [buildLocalCapabilities Caps.mpFamilies Caps.orfEntries Caps.extendedNextHopEntries Caps.gracefulFamilies
      Caps.multiSessionFamilies Caps.addPathFamilies Caps.llgrFamilies Caps.asn Caps.hostname Caps.domain Caps.routeRefresh Caps.extendedMessage
      Caps.gracefulRestart Caps.asn32bit Caps.enhancedRouteRefresh Caps.llgr Caps.fqdn Caps.linkLocalNextHop is_nil negb andb].
  rewrite length_app, !be_encode_length. cbn [length fmap list_fmap concat].
  destruct (negb _); destruct (match gracefulTime g with Some _ => true | None => false end); lia.
Qed.

(** ** Examples *)

Definition demo_caps : Caps.Capabilities :=
  Caps.mk [mkAfiSafi 1 1; mkAfiSafi 2 1] true true true 4200000001 true true true 120 [(mkAfiSafi 1 1, true)]
    true [mkLlgr (mkAfiSafi 2 1) 3600 128] false [] true [(mkAfiSafi 1 1, 3)] true [mkOrf (mkAfiSafi 1 1) 64 3]
    true [(mkAfiSafi 1 1, 2)] false [] false [] true [114; 49] [108; 97; 98] true.

Lemma capabilities_roundtrip_witness :
  exists w, appendCapabilities demo_caps = Ret w /\ parseParameters (S (length w)) w 0 Caps.new = Ret (received demo_caps, true) /\
    computeCapabilityLen demo_caps = u16 (count w - 0).
Proof. exact (capabilities_roundtrip demo_caps ltac:(by_compute) ltac:(by_compute)). Defined.

Definition demo_supports (c : Caps.Capabilities) (f : AfiSafi) : bool := bool_decide (f ∈ Caps.mpFamilies c).

(** A router that sends and receives additional paths, and one that only
    receives them. *)
Definition demo_config (n : Z) (send : bool) (t : option Z) : CapConfig :=
  mkCapConfig n t false [mkAfConfig (mkAfiSafi 1 1) true send false true true; mkAfConfig (mkAfiSafi 2 1) true send true false false].

Lemma additional_paths_agree_witness :
  let a := buildLocalCapabilities (demo_config 65001 true None) in
  let b := buildLocalCapabilities (demo_config 65002 false None) in
  let nA := negotiateCapabilities demo_supports None a (received b) in
  let nB := negotiateCapabilities demo_supports None b (received a) in
  path_bit BGP_ADD_PATH_SEND (Neg.addPathFamilies nA) (mkAfiSafi 2 1) = true /\
  path_bit BGP_ADD_PATH_RECEIVE (Neg.addPathFamilies nB) (mkAfiSafi 2 1) = true.
Proof.
  intros a b nA nB. split; [reflexivity|].
  destruct (additional_paths_agree demo_supports a b (mkAfiSafi 2 1) ltac:(by_compute) ltac:(by_compute)) as [Hs _].
  etransitivity; [symmetry; exact Hs | reflexivity].
Defined.
