(* ===== verification/BgpOpen.v ===== *)
(** * BgpOpen: opening a BGP session (routing/bgp/transport/BgpTx.cpp,
    BgpRx.cpp, routing/bgp/session/Session.cpp)

    The OPEN message on both sides, and the session as a whole: the state
    machine of [BgpFsm] with the capabilities of [BgpCaps], driven by the
    messages that [BgpRx] cuts out of the stream of a connection. *)

From S2P Require Import Prelude ByteUtils AttributeManager BgpFsm RxBuffer BgpRx BgpUpdate BgpTx BgpCaps.

(** ** Writing *)

(** [packet/headers/BgpHeader.hpp:211-211] BGP_VERSION *)
Definition BGP_VERSION : Z := 4.

(** [packet/headers/embedded/bgp/BgpOpenHeader.hpp:27-34] BgpOpenHeaderRaw: its size *)
Definition openSize : nat := 10.

(** [packet/headers/embedded/bgp/BgpOpenHeader.hpp:52-61] BgpOpenHeader: the header with its fields set *)
Definition openHeader (version asNumber holdTime identifier parameterLen : Z) : bytes :=
  [u8 version] ++ be_encode 2 asNumber ++ be_encode 2 holdTime ++ be_encode 4 identifier ++ [u8 parameterLen].

(** [routing/bgp/transport/BgpTx.cpp:578-618] BgpTx::buildOpen *)
Definition buildOpen (caps : Caps.Capabilities) (rid hold : Z) : outcome bytes :=
  let localAs := Caps.asn caps in
  let myAs2 := if 65535 <? localAs then kAsTrans else localAs in
  let capSize := computeCapabilityLen caps in
  let ext := if 255 <=? capSize then be_encode 2 capSize else [] in
  params ← appendCapabilities caps;
  let extLen := if 255 <=? capSize then 2 else 0 in
  Ret (buildHeader 1 (u16 (Z.of_nat openSize + extLen + capSize)) ++
       openHeader BGP_VERSION myAs2 hold rid (if 255 <=? capSize then 255 else capSize) ++ ext ++ params).

(** ** The session *)

(** [routing/bgp/session/Session.h:416-437] Session: the state machine's part, the capabilities, the identifiers of
    the two connections, and which attributes the neighbor's configuration has discarded or taken as withdrawals *)
Record BgpSession := mkBgp {
  fsm : Session;
  localCaps : Caps.Capabilities;
  peerCaps : Caps.Capabilities;
  negotiated : Neg.NegotiatedCapabilities;
  activeId : Z;
  passiveId : Z;
  discarded : Z -> bool;
  withdrawn : Z -> bool
}.

Definition set_fsm (f : Session -> Session) (s : BgpSession) : BgpSession :=
  mkBgp (f (fsm s)) (localCaps s) (peerCaps s) (negotiated s) (activeId s) (passiveId s) (discarded s) (withdrawn s).
Definition set_peerCaps (c : Caps.Capabilities) (s : BgpSession) : BgpSession :=
  mkBgp (fsm s) (localCaps s) c (negotiated s) (activeId s) (passiveId s) (discarded s) (withdrawn s).
Definition set_negotiated (n : Neg.NegotiatedCapabilities) (s : BgpSession) : BgpSession :=
  mkBgp (fsm s) (localCaps s) (peerCaps s) n (activeId s) (passiveId s) (discarded s) (withdrawn s).

#[export] Instance bgp_session : RxSession BgpSession := {
  extendedMessage s := Neg.extendedMessage (negotiated s);
  asn32bit s := Neg.asn32bit (negotiated s);
  attrDiscard := discarded;
  attrWithdraw := withdrawn;
  sendNotification n := set_fsm (BgpFsm.sendNotification (code n));
  postEvent ev := set_fsm (BgpFsm.postEvent ev)
}.

(** [routing/bgp/session/Session.cpp:370-374] Session::verifyConnection: whether a connection is one of the session's *)
Definition verifyConnection (cid : Z) (s : BgpSession) : bool :=
  (activeConn (fsm s) && (activeId s =? cid)) || (passiveConn (fsm s) && (passiveId s =? cid)).

Definition connId (s : BgpSession) (c : Conn) : Z := match c with ActiveConn => activeId s | PassiveConn => passiveId s end.

(** [routing/bgp/transport/BgpRx.cpp:427-472] BgpRx::resolveMultiSessionAf, the capabilities: the walk is over all the
    parameters, whatever parameter it starts for. [None] ends the search. *)
Fixpoint resolveCaps (fuel : nat) (data : bytes) (idx : nat) (multiProtocol multiSession : option AfiSafi) : outcome (option (option AfiSafi * option AfiSafi)) :=
  match fuel with
  | O => UB
  | S fuel =>
      if (idx + 2 <=? length data)%nat then
        type ← Prelude.rd data idx; l ← Prelude.rd data (idx + 1);
        let len := Z.to_nat l in
        if (length data <? idx + 2 + len)%nat then Ret None
        else
          let p := take len (drop (idx + 2) data) in
          if type =? BGP_CAPABILITY_MULTIPROTOCOL then
            if (len =? 4)%nat then
              f ← readFamily 3 p;
              match multiProtocol with
              | Some _ => Ret None
              | None => resolveCaps fuel data (idx + 2 + len) (Some f) multiSession
              end
            else resolveCaps fuel data (idx + 2 + len) multiProtocol multiSession
          else if type =? BGP_CAPABILITY_MULTI_SESSION then
            fs ← blocks 4 (readFamily 2) p 0;
            match fs, multiSession with
            | _ :: _, Some _ => Ret None
            | _, _ => resolveCaps fuel data (idx + 2 + len) (match last fs with Some f => Some f | None => multiProtocol end) multiSession
            end
          else resolveCaps fuel data (idx + 2 + len) multiProtocol multiSession
      else Ret (Some (multiProtocol, multiSession))
  end.

(** [routing/bgp/transport/BgpRx.cpp:417-474] BgpRx::resolveMultiSessionAf, the parameters *)
Fixpoint resolveParams (fuel : nat) (data : bytes) (pos : nat) (multiProtocol multiSession : option AfiSafi) : outcome (option (option AfiSafi * option AfiSafi)) :=
  match fuel with
  | O => UB
  | S fuel =>
      if (pos + 2 <=? length data)%nat then
        pType ← Prelude.rd data pos; l ← Prelude.rd data (pos + 1);
        let pLen := Z.to_nat l in
        if (length data <? pos + 2 + pLen)%nat then Ret None
        else
          r ← (if pType =? BGP_PARAMETER_CAPABILITY then resolveCaps (S (length data)) data 0 multiProtocol multiSession
               else Ret (Some (multiProtocol, multiSession)));
          match r with
          | None => Ret None
          | Some (mp, ms) => resolveParams fuel data (pos + 2 + pLen) mp ms
          end
      else Ret (Some (multiProtocol, multiSession))
  end.

(** [routing/bgp/transport/BgpRx.cpp:410-480] BgpRx::resolveMultiSessionAf *)
Definition resolveMultiSessionAf (data : bytes) : outcome (option AfiSafi) :=
  r ← resolveParams (S (length data)) data 0 None None;
  Ret (match r with
       | Some (Some f, Some g) => if bool_decide (f = g) then Some g else None
       | _ => None
       end).

Section Open.
  Context (cfg : Config) (remoteAs : option Z) (single : option AfiSafi).
  Context (supportsFamily : Caps.Capabilities -> AfiSafi -> bool).

(** [routing/bgp/session/Session.cpp:48-53] Session::getMultiSession: whether there is one *)
Definition getMultiSession (s : BgpSession) : bool :=
  is_established (state (fsm s)) && Caps.multiSess (localCaps s) && bool_decide (single = None).

(** [routing/bgp/transport/BgpRx.cpp:159-167] BgpRx::processOpen: an identifier that is refused *)
Definition badIdentifier (peerRid : Z) : bool :=
  let first := u8 (Z.shiftr peerRid 24) in
  (peerRid =? 0) || (peerRid =? 0xFFFFFFFF) || ((224 <=? first) && (first <=? 239)).

(** [routing/bgp/transport/BgpRx.cpp:169-190] BgpRx::processOpen: a hold time that is refused *)
Definition badHoldTime (peerHold : Z) (s : BgpSession) : bool :=
  (peerHold =? 1) || (peerHold =? 2) ||
  match cfgMinHoldTime cfg with
  | Some minHt =>
      let negotiatedHold := if peerHold =? 0 then 0 else Z.min (holdTime (fsm s)) peerHold in
      negb (negotiatedHold =? 0) && (negotiatedHold <? minHt)
  | None => false
  end.

(** [routing/bgp/transport/BgpRx.cpp:259-263] BgpRx::processOpen: the AS number of the peer *)
Definition resolvedAs (peerAs2 : Z) (s : BgpSession) : Z :=
  if Caps.asn32bit (peerCaps s) then Caps.asn (peerCaps s) else if peerAs2 =? kAsTrans then kAsTrans else peerAs2.

(** [routing/bgp/transport/BgpRx.cpp:265-276] BgpRx::processOpen: an AS number that is refused *)
Definition badPeerAs (asn : Z) : bool :=
  match remoteAs with Some cfgAs => negb (cfgAs =? 0) && negb (asn =? cfgAs) | None => false end.

(** [routing/bgp/transport/BgpRx.cpp:278-282] BgpRx::processOpen: the session of an accepted OPEN *)
Definition acceptOpen (peerHold peerRid : Z) (s : BgpSession) : BgpSession :=
  let s := set_negotiated (negotiateCapabilities supportsFamily single (localCaps s) (peerCaps s)) s in
  set_fsm (receiveOpen peerHold peerRid) s.

(** [routing/bgp/transport/BgpRx.cpp:236-282] BgpRx::processOpen, from the capabilities on *)
Definition openCapabilities (cid peerHold peerRid peerAs2 : Z) (params : bytes) (s : BgpSession) : outcome (BgpSession * bool * Notification) :=
  '(caps, complete) ← parseParameters (S (length params)) params 0 Caps.new;
  let s := set_peerCaps caps s in
  if negb complete then Ret (s, false, mkNotification NOTIF_UNSUPPORTED_PARAMETER [])
  else if verifyConnection cid s then Ret (s, false, NoError)
  else if badPeerAs (resolvedAs peerAs2 s) then Ret (s, false, mkNotification 0x0202 [])
  else Ret (acceptOpen peerHold peerRid s, true, NoError).

(** [routing/bgp/transport/BgpRx.cpp:138-283] BgpRx::processOpen, on connection [cid]. A second connection of an
    established session is closed, since no family is ever found for it
    ([resolveMultiSessionAf_none]); what would follow otherwise is left out. *)
Definition processOpenMsg (cid : Z) (payload : span) (s : BgpSession) : outcome (BgpSession * bool * Notification) :=
  let p := sp_ptr payload in
  let size := sp_size payload in
  if (size <? openSize)%nat then Ret (s, false, mkNotification 0x0102 [])
  else
    version ← Prelude.rd p 0;
    if negb (version =? BGP_VERSION) then Ret (s, false, mkNotification 0x0201 (be_encode 2 BGP_VERSION))
    else
      peerRid ← readU32 (drop 5 p);
      if badIdentifier peerRid then Ret (s, false, mkNotification 0x0203 [])
      else
        peerHold ← readU16 (drop 3 p);
        if badHoldTime peerHold s then Ret (s, false, mkNotification NOTIF_UNACCEPTABLE_HOLD [])
        else
          peerAs2 ← readU16 (drop 1 p);
          len8 ← Prelude.rd p 9;
          let extendedParamLen := (len8 =? 255) && (openSize + 2 <=? size)%nat in
          paramLen ← (if extendedParamLen then readU16 (drop openSize p) else Ret len8);
          let off := (openSize + (if extendedParamLen then 2 else 0))%nat in
          if negb (Z.of_nat off + paramLen =? Z.of_nat size) then Ret (s, false, mkNotification NOTIF_UNSUPPORTED_PARAMETER [])
          else
            let params := take (Z.to_nat paramLen) (drop off p) in
            if getMultiSession s then
              match primaryConn (fsm s) with
              | None => UB
              | Some c =>
                  if connId s c =? cid then openCapabilities cid peerHold peerRid peerAs2 params s
                  else
                    msAfi ← resolveMultiSessionAf params;
                    match msAfi with
                    | None => Ret (s, false, NoError)
                    | Some _ => Throw "activateSession"
                    end
              end
            else openCapabilities cid peerHold peerRid peerAs2 params s.
End Open.

(** ** No family is found for a second connection *)

Lemma resolveCaps_ms fuel data : forall idx mp r, resolveCaps fuel data idx mp None = Ret (Some r) -> r.2 = None.
Proof.
  induction fuel as [|fuel IH]; intros idx mp r; [discriminate|]. cbn [resolveCaps].
  destruct (_ <=? _)%nat; [|intros [= <-]; done].
  intros (ty & _ & H)%outcome_bind_ret_inv. apply outcome_bind_ret_inv in H as (l & _ & H). revert H.
  destruct (_ <? _)%nat; [discriminate|]. destruct (_ =? _).
  - destruct (_ =? _)%nat; [|apply IH]. intros (f & _ & H)%outcome_bind_ret_inv. revert H. destruct mp; [discriminate | apply IH].
  - destruct (_ =? _); [|apply IH]. intros (fs & _ & H)%outcome_bind_ret_inv. revert H. destruct fs; apply IH.
Qed.

Lemma resolveParams_ms fuel data : forall pos mp r, resolveParams fuel data pos mp None = Ret (Some r) -> r.2 = None.
Proof.
  induction fuel as [|fuel IH]; intros pos mp r; [discriminate|]. cbn [resolveParams].
  destruct (_ <=? _)%nat; [|intros [= <-]; done].
  intros (ty & _ & H)%outcome_bind_ret_inv. apply outcome_bind_ret_inv in H as (l & _ & H). revert H.
  destruct (_ <? _)%nat; [discriminate|]. intros (o & Ho & H)%outcome_bind_ret_inv. revert H.
  destruct o as [[mp1 ms1]|]; [|discriminate]. destruct (_ =? _).
  - apply resolveCaps_ms in Ho. cbn in Ho. subst ms1. apply IH.
  - injection Ho as <- <-. apply IH.
Qed.

Lemma resolveMultiSessionAf_none data o : resolveMultiSessionAf data = Ret o -> o = None.
Proof.
  unfold resolveMultiSessionAf. intros (r & Hr & H)%outcome_bind_ret_inv. injection H as <-.
  destruct r as [[mp ms]|]; [|done]. apply resolveParams_ms in Hr. cbn in Hr. subst ms. destruct mp; done.
Qed.

(** ** Any OPEN can be read *)

Lemma resolveCaps_returns fuel data : forall idx mp ms, (length data < idx + fuel)%nat -> (0 < fuel)%nat -> returns (resolveCaps fuel data idx mp ms).
Proof.
  induction fuel as [|fuel IH]; intros idx mp ms Hf H0; [lia|]. cbn [resolveCaps].
  destruct (Nat.leb_spec (idx + 2) (length data)); [|apply returns_ret]. do 2 read_step. rename a0 into l.
  case_match eqn:E; [apply returns_ret|]. apply Nat.ltb_ge in E.
  assert (Hrec : forall mp ms, returns (resolveCaps fuel data (idx + 2 + Z.to_nat l) mp ms)) by (intros; apply IH; lia).
  assert (Hlen : length (take (Z.to_nat l) (drop (idx + 2) data)) = Z.to_nat l) by (rewrite length_take, length_drop; lia).
  destruct (_ =? BGP_CAPABILITY_MULTIPROTOCOL).
  - destruct (Nat.eqb_spec (Z.to_nat l) 4); [|apply Hrec]. apply returns_bind_eq; [apply readFamily_returns; lia|].
    intros f _. destruct mp; [apply returns_ret | apply Hrec].
  - destruct (_ =? BGP_CAPABILITY_MULTI_SESSION); [|apply Hrec].
    apply returns_bind_eq; [apply blocks_returns; [lia | intros; apply readFamily_returns; lia | lia]|].
    intros fs _. destruct fs; [apply Hrec|]. destruct ms; [apply returns_ret | apply Hrec].
Qed.

Lemma resolveParams_returns fuel data : forall pos mp ms, (length data < pos + fuel)%nat -> (0 < fuel)%nat -> returns (resolveParams fuel data pos mp ms).
Proof.
  induction fuel as [|fuel IH]; intros pos mp ms Hf H0; [lia|]. cbn [resolveParams].
  destruct (Nat.leb_spec (pos + 2) (length data)); [|apply returns_ret]. do 2 read_step. case_match eqn:E; [apply returns_ret|]. apply Nat.ltb_ge in E.
  apply returns_bind_eq; [destruct (_ =? _); [apply resolveCaps_returns; lia | apply returns_ret]|].
  intros [[mp1 ms1]|] _; [apply IH; lia | apply returns_ret].
Qed.

(** Reads within the first [n] bytes. *)
Lemma rd_take p n i : (i < n)%nat -> Prelude.rd (take n p) i = Prelude.rd p i.
Proof. intros Hi. unfold Prelude.rd. rewrite lookup_take_lt by done. done. Qed.

Lemma rd_drop_take p n k i : (k + i < n)%nat -> Prelude.rd (drop k (take n p)) i = Prelude.rd (drop k p) i.
Proof. intros Hi. unfold Prelude.rd. rewrite !lookup_drop, lookup_take_lt by done. done. Qed.

Lemma readU16_take p n k : (k + 2 <= n)%nat -> readU16 (drop k (take n p)) = readU16 (drop k p).
Proof. intros H. unfold readU16. rewrite !rd_drop_take by lia. done. Qed.

Lemma readU32_take p n k : (k + 4 <= n)%nat -> readU32 (drop k (take n p)) = readU32 (drop k p).
Proof. intros H. unfold readU32. rewrite !rd_drop_take by lia. done. Qed.

Lemma take_rest {A} (p : list A) n k m : (k + m = n)%nat -> take m (drop k (take n p)) = take m (drop k p).
Proof. intros <-. rewrite <- take_drop_commute, take_take. f_equal. lia. Qed.

Lemma bind_ext {A B} (o : outcome A) (f g : A -> outcome B) : (forall a, f a = g a) -> o ≫= f = o ≫= g.
Proof. intros H. destruct o; cbn; [apply H | done | done]. Qed.

(** Whatever an OPEN holds, reading it ends and depends on nothing outside it.
    Only a session that is established without a primary connection would be
    read through a null pointer. *)
Theorem open_reading_safe (cfg : Config) (remoteAs : option Z) (single : option AfiSafi)
    (supportsFamily : Caps.Capabilities -> AfiSafi -> bool) (cid : Z) (p : span) (s : BgpSession) :
  (sp_size p <= length (sp_ptr p))%nat -> (getMultiSession single s = true -> primaryConn (fsm s) <> None) ->
  let processOpen := processOpenMsg cfg remoteAs single supportsFamily cid in
  returns (processOpen p s) /\ processOpen p s = processOpen (mkSpan (span_bytes p) (sp_size p)) s.
Proof.
  intros Hp Hm processOpen. split.
  - unfold processOpen, processOpenMsg. destruct (Nat.ltb_spec (sp_size p) openSize) as [|Hs]; [apply returns_ret|]. unfold openSize in Hs.
    assert (Hcap : forall h r a l, returns (openCapabilities remoteAs single supportsFamily cid h r a l s)).
    { intros h r a l. unfold openCapabilities. apply returns_bind_eq; [apply parseParameters_returns; lia|]. intros [caps ok] _.
      repeat case_match; apply returns_ret. }
    read_step. case_match; [apply returns_ret|]. read_step. case_match; [apply returns_ret|]. read_step. case_match; [apply returns_ret|].
    do 2 read_step. apply returns_bind_eq.
    { case_match eqn:E; [|apply returns_ret]. zbools. apply readU16_returns. rewrite length_drop.
      match goal with H : (_ <=? _)%nat = true |- _ => apply Nat.leb_le in H end. unfold openSize in *. lia. }
    intros n _. destruct (negb (_ + n =? _)); [apply returns_ret|]. destruct (getMultiSession single s) eqn:Ems; [|apply Hcap].
    destruct (primaryConn (fsm s)) as [c|] eqn:Ec; [|destruct (Hm eq_refl); done]. case_match; [apply Hcap|].
    apply returns_bind_eq.
    + unfold resolveMultiSessionAf. apply returns_bind_eq; [apply resolveParams_returns; lia | intros ? _; apply returns_ret].
    + intros o Ho. apply resolveMultiSessionAf_none in Ho as ->. apply returns_ret.
  - unfold processOpen, processOpenMsg, span_bytes. cbn [sp_ptr sp_size].
    destruct (Nat.ltb_spec (sp_size p) openSize) as [|Hs]; [done|]. unfold openSize in Hs.
    rewrite (rd_take _ _ 0), readU32_take, (readU16_take _ _ 3), (readU16_take _ _ 1), (rd_take _ _ 9) by lia.
    apply bind_ext. intros v. case_match; [done|]. apply bind_ext. intros rid. case_match; [done|]. apply bind_ext. intros h. case_match; [done|].
    apply bind_ext. intros asn. apply bind_ext. intros l8.
    destruct ((l8 =? 255) && (openSize + 2 <=? sp_size p)%nat) eqn:Ex.
    + zbools. match goal with H : (_ <=? _)%nat = true |- _ => apply Nat.leb_le in H; unfold openSize in H end.
      rewrite readU16_take by (unfold openSize; lia). apply bind_ext. intros n.
      destruct (negb (Z.of_nat (openSize + 2) + n =? Z.of_nat (sp_size p))) eqn:En; [done|]. apply negb_false_iff in En. zbools.
      destruct (Z.leb_spec 0 n); [rewrite take_rest by (unfold openSize in *; lia); done|].
      replace (Z.to_nat n) with 0%nat by lia. done.
    + cbn [mbind outcome_bind]. destruct (negb (Z.of_nat (openSize + 0) + l8 =? Z.of_nat (sp_size p))) eqn:En; [done|]. apply negb_false_iff in En. zbools.
      destruct (Z.leb_spec 0 l8); [rewrite take_rest by (unfold openSize in *; lia); done|].
      replace (Z.to_nat l8) with 0%nat by lia. done.
Qed.

(** ** The OPEN of a router, read by its neighbor *)

Lemma openHeader_length v a h i p : length (openHeader v a h i p) = openSize.
Proof. unfold openHeader. rewrite !length_app, !be_encode_length. done. Qed.

(** What the receiver finds in the fields. *)
Lemma openHeader_fields v a h i p tl :
  in_width 8 v -> in_width 16 a -> in_width 16 h -> in_width 32 i -> in_width 8 p ->
  let m := openHeader v a h i p ++ tl in
  Prelude.rd m 0 = Ret v /\ readU16 (drop 1 m) = Ret a /\ readU16 (drop 3 m) = Ret h /\ readU32 (drop 5 m) = Ret i /\
  Prelude.rd m 9 = Ret p /\ drop 10 m = tl.
Proof.
  intros Hv Ha Hh Hi Hp m. unfold m, openHeader. rewrite (wrap_small 8 v), (wrap_small 8 p) by done. rewrite <- !app_assoc.
  split; [done|]. split; [apply readU16_enc, Ha|]. split; [apply (readU16_enc h), Hh|]. split; [apply (readU32_enc i), Hi|]. done.
Qed.

(** The body of the OPEN that offers [c], with what it writes of them. *)
Definition open_body (c : Caps.Capabilities) (rid hold : Z) (w : bytes) : bytes :=
  let n := computeCapabilityLen c in
  openHeader BGP_VERSION (if 65535 <? Caps.asn c then kAsTrans else Caps.asn c) hold rid (if 255 <=? n then 255 else n) ++
  (if 255 <=? n then be_encode 2 n else []) ++ w.

Lemma open_body_length c rid hold w : count (open_body c rid hold w) = 10 + (if 255 <=? computeCapabilityLen c then 2 else 0) + count w.
Proof.
  unfold open_body, count. rewrite !length_app, openHeader_length. unfold openSize. destruct (_ <=? _); rewrite ?be_encode_length; cbn [length]; lia.
Qed.

Lemma buildOpen_eq c rid hold w : appendCapabilities c = Ret w ->
  buildOpen c rid hold = Ret (buildHeader 1 (u16 (10 + (if 255 <=? computeCapabilityLen c then 2 else 0) + computeCapabilityLen c)) ++ open_body c rid hold w).
Proof. intros Hw. unfold buildOpen. rewrite Hw. reflexivity. Qed.

(** A header announces the message it starts. *)
Lemma buildHeader_message t n body : 0 <= n < 65517 -> Z.of_nat (length body) = n -> buildHeader t (u16 n) ++ body = message (t, body).
Proof.
  intros Hn <-. unfold buildHeader, message, headerSize. cbn [fst snd]. rewrite (wrap_small 16 (Z.of_nat (length body))) by (unfold in_width; lia).
  rewrite wrap_small by (unfold in_width; lia). rewrite <- !app_assoc. do 3 f_equal. lia.
Qed.

Section OpenFacts.
  Context (cfg : Config) (remoteAs : option Z) (single : option AfiSafi).
  Context (supportsFamily : Caps.Capabilities -> AfiSafi -> bool).
  #[local] Abbreviation processOpenMsg := (processOpenMsg cfg remoteAs single supportsFamily).
  #[local] Abbreviation openCapabilities := (openCapabilities remoteAs single supportsFamily).

Definition refusal (code : Z) (s : BgpSession) : outcome (BgpSession * bool * Notification) := Ret (s, false, mkNotification code []).

(** The fields of a body are read, and the parameters handed on. [n] is the
    length announced, [w] what there is. *)
Lemma processOpen_body cid (s : BgpSession) asn2 hold rid n w rest :
  getMultiSession single s = false -> in_width 16 asn2 -> in_width 16 hold -> in_width 32 rid -> 0 <= n < 65500 -> count w = n ->
  let body := openHeader BGP_VERSION asn2 hold rid (if 255 <=? n then 255 else n) ++ (if 255 <=? n then be_encode 2 n else []) ++ w in
  processOpenMsg cid (mkSpan (body ++ rest) (length body)) s =
    if badIdentifier rid then refusal 0x0203 s
    else if badHoldTime cfg hold s then refusal NOTIF_UNACCEPTABLE_HOLD s
    else openCapabilities cid hold rid asn2 w s.
Proof.
  intros Hm Ha Hh Hr Hn Hw body. set (len8 := if 255 <=? n then 255 else n) in *. set (ext := if 255 <=? n then be_encode 2 n else []) in *.
  assert (Hl8 : in_width 8 len8) by (unfold len8, in_width; zcases; lia).
  assert (Hle : count ext = if 255 <=? n then 2 else 0) by (unfold ext, count; destruct (255 <=? n); rewrite ?be_encode_length; done).
  assert (Hlen : Z.of_nat (length body) = 10 + count ext + n).
  { unfold body, count in *. rewrite !length_app, openHeader_length. unfold openSize. lia. }
  destruct (openHeader_fields BGP_VERSION asn2 hold rid len8 (ext ++ w ++ rest) ltac:(by_compute) Ha Hh Hr Hl8) as (E1 & E2 & E3 & E4 & E5 & E6).
  assert (Hb : body ++ rest = openHeader BGP_VERSION asn2 hold rid len8 ++ ext ++ w ++ rest) by (unfold body; rewrite <- !app_assoc; done).
  unfold BgpOpen.processOpenMsg. cbn [sp_ptr sp_size]. rewrite Hb, E1, E2, E3, E4, E5. cbn [mbind outcome_bind].
  destruct (Nat.ltb_spec (length body) openSize) as [H|_]; [unfold openSize, count in *; lia|].
  rewrite Z.eqb_refl. cbn [negb]. destruct (badIdentifier rid); [done|]. destruct (badHoldTime cfg hold s); [done|].
  change (drop openSize) with (@drop Z 10). rewrite E6, Hm.
  assert (Hx : (len8 =? 255) && (openSize + 2 <=? length body)%nat = (255 <=? n)).
  { unfold len8, openSize in *. destruct (Z.leb_spec 255 n); [|destruct (Z.eqb_spec n 255); [lia | done]].
    rewrite Z.eqb_refl. apply Nat.leb_le. lia. }
  rewrite Hx. destruct (255 <=? n) eqn:En.
  - unfold ext. rewrite readU16_enc by (unfold in_width; lia). cbn [mbind outcome_bind]. unfold openSize in *.
    destruct (Z.eqb_spec (Z.of_nat (10 + 2) + n) (Z.of_nat (length body))); [|lia]. cbn [negb].
    change (10 + 2)%nat with (10 + length (be_encode 2 n))%nat. rewrite <- drop_drop. fold ext. rewrite E6. unfold ext.
    rewrite drop_app_length. rewrite <- Hw. unfold count. rewrite Nat2Z.id, take_app_length. done.
  - cbn [mbind outcome_bind]. unfold len8, openSize in *. rewrite Nat.add_0_r.
    destruct (Z.eqb_spec (Z.of_nat 10 + n) (Z.of_nat (length body))); [|lia]. cbn [negb]. rewrite E6. unfold ext. cbn [app].
    rewrite <- Hw at 1. unfold count. rewrite Nat2Z.id, take_app_length. done.
Qed.

Lemma asn2_width a : in_width 32 a -> in_width 16 (if 65535 <? a then kAsTrans else a).
Proof. unfold in_width, kAsTrans. intros. zcases; lia. Qed.

(** The OPEN that a router sends is one message, whose receiver checks the
    identifier and the hold time and then knows the capabilities [received].
    If the connection it came on is one of the session's own, it is refused
    without a reason; if not, the AS number decides, and the session goes on
    with what both ends have agreed. *)
Theorem open_exchange (c : Caps.Capabilities) (rid hold cid : Z) (s : BgpSession) (rest : bytes) :
  caps_fit c -> caps_values c -> wireLen (flatParams c) < 65500 -> Caps.asn32bit c = true ->
  Caps.gracefulRestart c && is_nil (Caps.gracefulFamilies c) = false -> in_width 32 rid -> in_width 16 hold ->
  getMultiSession single s = false ->
  exists body, buildOpen c rid hold = Ret (message (1, body)) /\
    processOpenMsg cid (mkSpan (body ++ rest) (length body)) s =
      (let s' := set_peerCaps (received c) s in
       if badIdentifier rid then refusal 0x0203 s
       else if badHoldTime cfg hold s then refusal NOTIF_UNACCEPTABLE_HOLD s
       else if verifyConnection cid s then Ret (s', false, NoError)
       else if badPeerAs remoteAs (Caps.asn c) then refusal 0x0202 s'
       else Ret (acceptOpen single supportsFamily hold rid s', true, NoError)).
Proof.
  intros Hf Hv Hl Has Hg Hr Hh Hm. destruct (capabilities_roundtrip_facts c Hf Hv) as (w & Hw & Hp & Hc & Hwl). rewrite Hg, Z.sub_0_r, Hwl in Hc.
  assert (0 <= count w) by (unfold count; lia). rewrite <- Hwl in Hl.
  rewrite <- Hwl, wrap_small in Hc by (unfold in_width; lia).
  exists (open_body c rid hold w). split.
  - rewrite (buildOpen_eq c rid hold w Hw), Hc. f_equal. apply buildHeader_message; [case_match; lia|].
    pose proof (open_body_length c rid hold w) as E. unfold count at 1 in E. rewrite E, Hc. done.
  - unfold open_body. rewrite Hc. rewrite processOpen_body; [|done | apply asn2_width, Hv | done | done | lia | done]. cbv zeta.
    destruct (badIdentifier rid); [done|]. destruct (badHoldTime cfg hold s); [done|].
    unfold BgpOpen.openCapabilities. rewrite Hp. cbn [mbind outcome_bind negb].
    change (verifyConnection cid (set_peerCaps (received c) s)) with (verifyConnection cid s).
    unfold resolvedAs. change (Caps.asn32bit (peerCaps (set_peerCaps (received c) s))) with (Caps.asn32bit c).
    change (Caps.asn (peerCaps (set_peerCaps (received c) s))) with (if Caps.asn32bit c then Caps.asn c else 0). rewrite Has. done.
Qed.

(** The parameters of a router's offer, up to the last two. *)
Lemma buildLocal_params g : exists front, flatParams (buildLocalCapabilities g) =
  front ++ [(BGP_CAPABILITY_ENHANCED_ROUTE_REFRESH, []); (BGP_CAPABILITY_LINK_LOCAL_NEXT_HOP, [])].
Proof.
  eexists. unfold flatParams. cbn [buildLocalCapabilities Caps.enhancedRouteRefresh Caps.llgr Caps.fqdn Caps.linkLocalNextHop paramIf andb app].
  rewrite !app_assoc. reflexivity.
Qed.

(** With graceful restart configured, the OPEN of a router is six bytes longer
    than it announces. What is announced ends within the last parameter but
    one, so that the receiver refuses it as malformed; the six bytes come
    before the next message, and are not the marker of one. *)
Theorem graceful_open_refused (g : CapConfig) (time rid hold cid : Z) (s : BgpSession) (rest next : bytes) :
  config_ok g -> gracefulTime g = Some time -> in_width 32 rid -> in_width 16 hold -> getMultiSession single s = false ->
  exists body caps, let tail := [70; 0; 2; 2; 77; 0] in
    buildOpen (buildLocalCapabilities g) rid hold = Ret (message (1, body) ++ tail) /\
    take 16 (tail ++ next) <> BGP_MARKER /\
    processOpenMsg cid (mkSpan (body ++ rest) (length body)) s =
      (if badIdentifier rid then refusal 0x0203 s
       else if badHoldTime cfg hold s then refusal NOTIF_UNACCEPTABLE_HOLD s
       else refusal NOTIF_UNSUPPORTED_PARAMETER (set_peerCaps caps s)).
Proof.
  intros Hg Ht Hr Hh Hm. destruct (buildLocal_ok g Hg) as [Hf Hv]. pose proof (buildLocal_size g Hg) as Hl.
  set (c := buildLocalCapabilities g) in *.
  assert (Hgr : Caps.gracefulRestart c && is_nil (Caps.gracefulFamilies c) = true) by (unfold c; cbn; rewrite Ht; done).
  pose proof (appendCapabilities_wire c Hf) as Hw. pose proof (computeCapabilityLen_spec c Hf) as Hc. rewrite Hgr in Hc.
  destruct (buildLocal_params g) as [front Hp]. fold c in Hp.
  pose proof (readParams_flat c Hf Hv) as Hread. pose proof (flatParams_short c Hf) as Hshort. unfold wireLen in Hl, Hc. rewrite Hp in Hw, Hc, Hl, Hread, Hshort.
  apply readParams_front in Hread as [caps Hread]. apply Forall_app in Hshort as [Hshort _].
  set (w := concat (param_wire <$> front) ++ [BGP_PARAMETER_CAPABILITY; 2]).
  assert (Hsplit : concat (param_wire <$> front ++ [(BGP_CAPABILITY_ENHANCED_ROUTE_REFRESH, []); (BGP_CAPABILITY_LINK_LOCAL_NEXT_HOP, [])]) = w ++ [70; 0; 2; 2; 77; 0]).
  { unfold w. rewrite fmap_app, concat_app, <- app_assoc. done. }
  rewrite Hsplit in Hw, Hc, Hl. assert (Hcount : count (w ++ [70; 0; 2; 2; 77; 0]) = count w + 6) by (unfold count; rewrite length_app; cbn [length]; lia).
  rewrite Hcount in Hc, Hl. assert (0 <= count w) by (unfold count; lia).
  replace (count w + 6 - 6) with (count w) in Hc by lia. rewrite wrap_small in Hc by (unfold in_width; lia).
  exists (open_body c rid hold w), caps. split; [|split; [done|]].
  - rewrite (buildOpen_eq c rid hold _ Hw), Hc. f_equal.
    assert (Eb : open_body c rid hold (w ++ [70; 0; 2; 2; 77; 0]) = open_body c rid hold w ++ [70; 0; 2; 2; 77; 0]).
    { unfold open_body. rewrite <- !app_assoc. done. }
    rewrite Eb, app_assoc. f_equal. apply buildHeader_message; [case_match; lia|].
    pose proof (open_body_length c rid hold w) as E. unfold count at 1 in E. rewrite E, Hc. done.
  - unfold open_body. rewrite Hc. rewrite processOpen_body; [|done | apply asn2_width, Hv | done | done | lia | done].
    destruct (badIdentifier rid); [done|]. destruct (badHoldTime cfg hold s); [done|].
    unfold BgpOpen.openCapabilities. rewrite (parseParameters_cut front w Caps.new caps 2 Hshort Hread ltac:(lia) eq_refl). done.
Qed.
End OpenFacts.

(** ** Which connections an OPEN is accepted on *)

Section World.
  Context (cfg : Config) (tcp_connect : nat -> bool) (remoteAs : option Z) (single : option AfiSafi).
  Context (supportsFamily : Caps.Capabilities -> AfiSafi -> bool).

(** What the address families make of an UPDATE: whether the limit on prefixes
    of this neighbor is reached, and the answer. *)
  Context (findAddressFamily : AfiSafi -> bool) (familyUpdate : IncomingUpdate -> BgpSession -> bool * bool * Notification).

(** [routing/bgp/af/AddressFamilyInstance.h:229-239] onUpdateFromPeer: what of it reaches the session; the post is at line
    674 *)
Definition onUpdateFromPeer (u : IncomingUpdate) (s : BgpSession) : outcome (BgpSession * bool * Notification) :=
  let '(reached, ok, e) := familyUpdate u s in
  Ret (if reached then set_fsm (BgpFsm.postEvent MAX_PREFIX_REACHED) s else s, ok, e).

(** [routing/bgp/transport/BgpRx.cpp:671-769] BgpRx::processRouteRefresh: what of it reaches the session; filters and
    refreshes are for the address families *)
Definition processRouteRefreshMsg (payload : span) (s : BgpSession) : outcome (BgpSession * bool * Notification) :=
  if (sp_size payload <? 4)%nat then Ret (s, false, mkNotification 0x0102 (be_encode 2 (u16 (Z.of_nat (headerSize + sp_size payload)))))
  else Ret (set_fsm (BgpFsm.postEvent ROUTE_REFRESH) s, true, NoError).

(** [routing/bgp/transport/BgpRx.cpp:76-121] BgpRx::handleIncoming: the handlers, for a connection *)
Definition handlers (cid : Z) : Handlers BgpSession :=
  mkHandlers (processOpenMsg cfg remoteAs single supportsFamily cid) (processUpdateMsg findAddressFamily onUpdateFromPeer)
    processNotificationMsg processKeepaliveMsg processRouteRefreshMsg.

(** [routing/bgp/session/Session.cpp:14-31] Session::Session: with the capabilities it offers *)
Definition BgpSession_new (g : CapConfig) (drop withdraw : Z -> bool) : BgpSession :=
  mkBgp (Session_new cfg) (buildLocalCapabilities g) Caps.new Neg.new 0 0 drop withdraw.

Definition opening (ev : FsmEvent) : bool := match ev with BGP_OPEN | BGP_OPEN_DELAY_OPEN_TIMER => true | _ => false end.

(** A session, the receive buffers of the connections to its neighbor, and
    whether data has come on one that was not the session's at the time. *)
Definition World : Type := BgpSession * gmap Z RxBuffer * bool.

(** [routing/bgp/BgpProcess.cpp:269-287] BgpProcess::onReceiveCallback: What happens to a session: an event of the queue is
    processed, the operator, a timer or the transport posts one, a connection
    is accepted or made under a new identifier, which may replace one that TCP
    keeps open, or data comes from the neighbor's address, on any connection.
    Only the receive path posts that an OPEN has come. *)
Inductive world_step : World -> World -> Prop :=
  | world_process s m f ev rest : queue (fsm s) = ev :: rest ->
      world_step (s, m, f) (set_fsm (fun f => processEvent cfg tcp_connect ev (BgpFsm.pop f)) s, m, f)
  | world_post s m f ev : opening ev = false -> world_step (s, m, f) (set_fsm (BgpFsm.postEvent ev) s, m, f)
  | world_accept s m f cid :
      world_step (s, m, f) (mkBgp (acceptConnection (fsm s)) (localCaps s) (peerCaps s) (negotiated s) (activeId s) cid (discarded s) (withdrawn s), m, f)
  | world_connect s m f cid :
      world_step (s, m, f) (mkBgp (fsm s) (localCaps s) (peerCaps s) (negotiated s) cid (passiveId s) (discarded s) (withdrawn s), m, f)
  | world_timer s m f fire : fire ∈ [fire_retry; fire_hold; fire_keepalive; fire_idle] -> world_step (s, m, f) (set_fsm fire s, m, f)
  | world_receive s m f cid data b s' b' : default (RxBuffer_new 4096) (m !! cid) = b ->
      receive (handlers cid) s data b = Ret (s', b') -> world_step (s, m, f) (s', <[cid := b']> m, f || negb (verifyConnection cid s)).

Inductive world_reach (g : CapConfig) (dr wd : Z -> bool) : World -> Prop :=
  | world_init : world_reach g dr wd (BgpSession_new g dr wd, ∅, false)
  | world_next w w' : world_reach g dr wd w -> world_step w w' -> world_reach g dr wd w'.

(** No OPEN is waiting to be processed. *)
Definition quiet (f : Session) : Prop := Forall (fun ev => opening ev = false) (queue f).

Definition before_open (st : FsmState) : Prop := st = IDLE \/ st = CONNECT \/ st = ACTIVE \/ st = OPEN_SENT.

Definition calm (f : Session) : Prop := before_open (state f) /\ quiet f.

Lemma quiet_post ev f : opening ev = false -> quiet f -> quiet (BgpFsm.postEvent ev f).
Proof. intros He Hf. apply Forall_app. split; [exact Hf|]. constructor; [done | constructor]. Qed.

Lemma quiet_transitionTo st f : quiet f -> quiet (transitionTo cfg st f).
Proof. destruct (transitionTo_eq cfg st f) as [l ->]. done. Qed.

Lemma quiet_sendOpen f : quiet f -> quiet (sendOpen f).
Proof. unfold sendOpen. destruct (primaryConn f); done. Qed.

Lemma quiet_initiate f : quiet f -> quiet (initiateConnection tcp_connect f).
Proof. intros Hf. unfold initiateConnection. destruct (tcp_connect (attempts f)); [exact Hf | apply quiet_post; done]. Qed.

Lemma quiet_idleHold i f : quiet f -> quiet (startIdleHoldTimer i f).
Proof. intros Hf. unfold startIdleHoldTimer. destruct (i =? 0); [apply quiet_post; done | exact Hf]. Qed.

Lemma calm_transitionTo st f : before_open st -> quiet f -> calm (transitionTo cfg st f).
Proof. intros Hs Hf. split; [rewrite state_transitionTo; done | apply quiet_transitionTo, Hf]. Qed.

Lemma calm_resetToIdle c f : quiet f -> calm (resetToIdle cfg c f).
Proof. intros Hf. split; [rewrite state_resetToIdle; left; done|]. destruct (resetToIdle_eq cfg c f) as [l ->]. exact Hf. Qed.

Lemma calm_idleHold i f : calm f -> calm (startIdleHoldTimer i f).
Proof. intros [Hs Hq]. split; [unfold startIdleHoldTimer; destruct (i =? 0); exact Hs | apply quiet_idleHold, Hq]. Qed.

Lemma calm_initiate f : calm f -> calm (initiateConnection tcp_connect f).
Proof. intros [Hs Hq]. split; [rewrite state_initiate; exact Hs | apply quiet_initiate, Hq]. Qed.

(** The events of the first four states that are not an OPEN. *)
Lemma processEvent_calm ev f : opening ev = false -> calm f -> calm (processEvent cfg tcp_connect ev f).
Proof.
  intros He [Hs Hq]. assert (Hc : calm f) by (split; done).
  unfold processEvent. destruct Hs as [E|[E|[E|E]]]; rewrite E;
    [unfold handleIdle, start | unfold handleConnect | unfold handleActive | unfold handleOpenSent];
    destruct ev; try discriminate He;
    match goal with
    | |- calm (resetToIdle _ _ _) => apply calm_resetToIdle, Hq
    | |- calm (startIdleHoldTimer _ _) => apply calm_idleHold, Hc
    | |- calm (initiateConnection _ _) => apply calm_initiate, Hc
    | |- calm (transitionTo _ _ _) =>
        apply calm_transitionTo; [unfold before_open; tauto|];
        first [exact Hq | apply quiet_initiate, Hq | apply quiet_sendOpen, Hq]
    | _ => exact Hc
    end.
Qed.

(** A handler that only posts events, none of them an OPEN, and leaves the
    connections and the state as they are. *)
Definition posts (s s' : BgpSession) : Prop :=
  state (fsm s') = state (fsm s) /\ activeConn (fsm s') = activeConn (fsm s) /\ passiveConn (fsm s') = passiveConn (fsm s) /\
  activeId s' = activeId s /\ passiveId s' = passiveId s /\
  exists l, queue (fsm s') = queue (fsm s) ++ l /\ Forall (fun ev => opening ev = false) l.

(** A session in one of the first states, and a connection of its own. *)
Definition receiving (cid : Z) (s : BgpSession) : Prop := calm (fsm s) /\ verifyConnection cid s = true.

Lemma posts_refl s : posts s s.
Proof. repeat split. exists []. rewrite app_nil_r. split; [done | constructor]. Qed.

Lemma posts_receiving cid s s' : posts s s' -> receiving cid s -> receiving cid s'.
Proof.
  intros (H1 & H2 & H3 & H4 & H5 & l & Hq & Hl) [[Hs Hqs] Hv]. split; [split|].
  - rewrite H1. exact Hs.
  - unfold quiet. rewrite Hq. apply Forall_app. done.
  - unfold verifyConnection. rewrite H2, H3, H4, H5. exact Hv.
Qed.

Lemma posts_event ev s : opening ev = false -> posts s (set_fsm (BgpFsm.postEvent ev) s).
Proof. intros He. repeat split. exists [ev]. split; [done | constructor; [done | constructor]]. Qed.

(** The handlers of UPDATE and ROUTE-REFRESH post no OPEN. *)
Lemma refresh_posts p s s' ok e : processRouteRefreshMsg p s = Ret (s', ok, e) -> posts s s'.
Proof. unfold processRouteRefreshMsg. destruct (_ <? _)%nat; intros [= <- _ _]; [apply posts_refl | by apply posts_event]. Qed.

Lemma update_posts p s s' ok e : processUpdateMsg findAddressFamily onUpdateFromPeer p s = Ret (s', ok, e) -> posts s s'.
Proof.
  unfold processUpdateMsg. assert (Hself : forall b n, Ret (s, b, n) = Ret (s', ok, e) -> posts s s') by (intros b n [= <- _ _]; apply posts_refl).
  destruct (_ <? _)%nat; [apply Hself|]. intros (w & _ & H)%outcome_bind_ret_inv. revert H.
  destruct (_ <? _)%nat; [apply Hself|]. destruct (_ <? _)%nat; [apply Hself|].
  intros (n & _ & H)%outcome_bind_ret_inv. revert H. destruct (_ <? _)%nat; [apply Hself|].
  intros (r & _ & H)%outcome_bind_ret_inv. destruct r as [u|err]; [|by eapply Hself].
  unfold finishUpdate in H. revert H. cbv zeta. destruct (findAddressFamily _); [|apply Hself].
  unfold onUpdateFromPeer. destruct (familyUpdate _ s) as [[[] ok1] e1]; intros [= <- _ _]; [by apply posts_event | apply posts_refl].
Qed.

Lemma posts_notification n s : posts s (set_fsm (BgpFsm.sendNotification n) s).
Proof.
  unfold posts, set_fsm, BgpFsm.sendNotification. cbn [fsm activeId passiveId].
  destruct (n =? 0); [exact (posts_refl s)|]. destruct (primaryConn (fsm s)); [|exact (posts_refl s)].
  repeat split. exists []. rewrite app_nil_r. split; [done | constructor].
Qed.

Lemma receiving_error cid e s : receiving cid s -> receiving cid (headerError e s).
Proof.
  intros H. unfold headerError. eapply posts_receiving; [apply posts_event; done|]. eapply posts_receiving; [apply posts_notification | exact H].
Qed.

(** On a connection of the session's own, an OPEN is never accepted. *)
Lemma own_open_refused cid p s s' ok e :
  receiving cid s -> processOpenMsg cfg remoteAs single supportsFamily cid p s = Ret (s', ok, e) -> ok = false /\ posts s s'.
Proof.
  intros [_ Hv]. unfold processOpenMsg.
  assert (Hself : forall c n, Ret (s, false, mkNotification c n) = Ret (s', ok, e) -> ok = false /\ posts s s').
  { intros c n [= <- <- _]. split; [done | apply posts_refl]. }
  assert (Hcap : forall h r a params, openCapabilities remoteAs single supportsFamily cid h r a params s = Ret (s', ok, e) -> ok = false /\ posts s s').
  { intros h r a params. unfold openCapabilities. intros ([caps complete] & _ & H)%outcome_bind_ret_inv. revert H.
    change (verifyConnection cid (set_peerCaps caps s)) with (verifyConnection cid s). rewrite Hv.
    destruct (negb complete); intros [= <- <- _]; (split; [done | exact (posts_refl s)]). }
  destruct (_ <? _)%nat; [apply Hself|]. intros (v & _ & H)%outcome_bind_ret_inv. revert H.
  destruct (negb _); [apply Hself|]. intros (rid & _ & H)%outcome_bind_ret_inv. revert H.
  destruct (badIdentifier rid); [apply Hself|]. intros (h & _ & H)%outcome_bind_ret_inv. revert H.
  destruct (badHoldTime cfg h s); [apply Hself|]. intros (a & _ & H)%outcome_bind_ret_inv. apply outcome_bind_ret_inv in H as (l & _ & H).
  apply outcome_bind_ret_inv in H as (n & _ & H). revert H. destruct (negb _); [apply Hself|].
  destruct (getMultiSession single s); [|apply Hcap]. destruct (primaryConn (fsm s)) as [c|]; [|discriminate].
  destruct (_ =? _); [apply Hcap|]. intros (o & _ & H)%outcome_bind_ret_inv. destruct o; [discriminate|]. apply (Hself 0 [] H).
Qed.

Lemma dispatch_receiving cid t p s s' ok :
  receiving cid s -> dispatch (handlers cid) t p s = Ret (Some (s', ok)) -> receiving cid s'.
Proof.
  intros Hs. unfold dispatch.
  assert (Hreport : forall ev s1 ok1 e1, posts s s1 -> match ev with Some ev => opening ev = false | None => True end ->
    reportError ev (s1, ok1, e1) = (s', ok) -> receiving cid s').
  { intros ev s1 ok1 e1 Hp Hev H. assert (H1 : receiving cid s1) by (eapply posts_receiving; [exact Hp | exact Hs]). unfold reportError in H.
    destruct ok1; [injection H as <- _; done|]. injection H as <- _.
    assert (H2 : receiving cid (sendNotification e1 s1)) by (eapply posts_receiving; [apply posts_notification | exact H1]).
    destruct ev as [ev|]; [|exact H2]. eapply posts_receiving; [apply posts_event, Hev | exact H2]. }
  assert (Hh : forall ev (h : span -> BgpSession -> outcome (BgpSession * bool * Notification)),
    match ev with Some ev => opening ev = false | None => True end -> (forall s1 ok1 e1, h p s = Ret (s1, ok1, e1) -> posts s s1) ->
    Some ∘ reportError ev <$> h p s = Ret (Some (s', ok)) -> receiving cid s').
  { intros ev h Hev Hp H. destruct (h p s) as [[[s1 ok1] e1]| |] eqn:E; [|discriminate..]. injection H as H.
    exact (Hreport ev s1 ok1 e1 (Hp _ _ _ eq_refl) Hev H). }
  cbn [handlers processOpen processUpdate processNotification processKeepalive processRouteRefresh].
  destruct (t =? 1). { apply Hh; [done|]. intros s1 ok1 e1 H. apply (own_open_refused cid p s s1 ok1 e1 Hs H). }
  destruct (t =? 2). { apply Hh; [done|]. intros s1 ok1 e1 H. eapply update_posts, H. }
  destruct (t =? 3).
  { unfold processNotificationMsg. destruct (onNotificationReceived p s) as [s1| |] eqn:E; [|discriminate..]. intros [= <- _].
    unfold onNotificationReceived in E. revert E. destruct (_ <? _)%nat; [intros [= <-]; eapply posts_receiving; [apply posts_event; done | exact Hs]|].
    intros (c1 & _ & H)%outcome_bind_ret_inv. apply outcome_bind_ret_inv in H as (c2 & _ & H). injection H as <-.
    eapply posts_receiving; [apply posts_event; destruct (_ && _); done | exact Hs]. }
  destruct (t =? 4).
  { apply Hh; [done|]. intros s1 ok1 e1. unfold processKeepaliveMsg. destruct (negb _); intros [= <- _ _]; [apply posts_refl | apply posts_event; done]. }
  destruct (t =? 5); [|discriminate]. apply Hh; [done|]. intros s1 ok1 e1 H. eapply refresh_posts, H.
Qed.

(** C9: A session gets past the states before the exchange of OPENs only once data
    has come on a connection from the neighbor that was not, at the time, one of
    the session's: each OPEN that comes on a connection of the session's own is
    refused, since the test that the connection is one of its own is inverted. *)
Theorem own_open_never_accepted (g : CapConfig) (dr wd : Z -> bool) (s : BgpSession) (m : gmap Z RxBuffer) :
  world_reach g dr wd (s, m, false) -> state (fsm s) ∈ [IDLE; CONNECT; ACTIVE; OPEN_SENT].
Proof.
  intros H. assert (Hc : calm (fsm s)).
  { remember (s, m, false) as w eqn:Ew. revert s m Ew. induction H as [|w w' _ IH Hstep]; intros s m Ew.
    - injection Ew as <- _. split; [left; done | constructor].
    - subst w'. inversion Hstep as [s0 m0 f ev rest Hev|s0 m0 f ev Hev|s0 m0 f cid|s0 m0 f cid|s0 m0 f fire Hfire|s0 m0 f cid data b s1 b1 Hb Hr]; subst;
        try specialize (IH _ _ eq_refl) as Hc.
      + destruct Hc as [Hs Hq]. unfold quiet in Hq. rewrite Hev in Hq. apply Forall_cons in Hq as [He Hq].
        apply processEvent_calm; [exact He|]. split; [exact Hs|]. unfold quiet. cbn. rewrite Hev. exact Hq.
      + destruct Hc as [Hs Hq]. split; [exact Hs | apply quiet_post; done].
      + destruct Hc as [Hs Hq]. split; [exact Hs | apply quiet_post; done].
      + exact Hc.
      + destruct Hc as [Hs Hq]. repeat (apply elem_of_cons in Hfire as [->|Hfire]; [split; [exact Hs | apply quiet_post; done]|]). by apply elem_of_nil in Hfire.
      + match goal with H : f || negb (verifyConnection cid s0) = false |- _ => apply orb_false_iff in H as [-> Hv%negb_false_iff] end.
        specialize (IH _ _ eq_refl) as Hc. assert (Hrec : receiving cid s); [|apply Hrec].
        eapply receive_preserves; [apply receiving_error | apply dispatch_receiving | split; [exact Hc | exact Hv] | exact Hr]. }
  destruct Hc as [[E|[E|[E|E]]] _]; rewrite E; set_solver.
Qed.
End World.

(** ** Examples *)

Definition demo_session (g : CapConfig) : BgpSession := BgpSession_new ex_cfg g (fun _ => false) (fun _ => false).

(** A session that gets the OPEN of its neighbor on a connection it does not
    know goes on. *)
Lemma open_exchange_witness :
  let c := buildLocalCapabilities (demo_config 65001 true None) in
  exists body s', buildOpen c 167772162 90 = Ret (message (1, body)) /\
    processOpenMsg ex_cfg (Some 65001) None demo_supports 7 (mkSpan (body ++ []) (length body)) (demo_session (demo_config 65002 true None)) =
      Ret (s', true, NoError) /\ queue (fsm s') = [BGP_OPEN].
Proof.
  intros c.
  destruct (open_exchange ex_cfg (Some 65001) None demo_supports c 167772162 90 7 (demo_session (demo_config 65002 true None)) []
    ltac:(by_compute) ltac:(by_compute) ltac:(by_compute) eq_refl eq_refl ltac:(by_compute) ltac:(by_compute) eq_refl) as (body & H1 & H2).
  exists body. eexists. split; [exact H1|]. rewrite H2. split; reflexivity.
Defined.

(** An OPEN whose only parameter claims more than there is. *)
Lemma open_reading_safe_witness :
  let s := demo_session (demo_config 65002 true None) in
  let p := mkSpan ([4; 253; 233; 0; 90; 10; 0; 0; 2; 3; 2; 200; 1] ++ [99]) 13 in
  processOpenMsg ex_cfg None None demo_supports 7 p s = processOpenMsg ex_cfg None None demo_supports 7 (mkSpan (span_bytes p) 13) s.
Proof. intros s p. apply (open_reading_safe ex_cfg None None demo_supports 7 p s); [cbn; lia | discriminate]. Defined.

Lemma graceful_open_refused_witness :
  exists body caps,
    buildOpen (buildLocalCapabilities (demo_config 65001 true (Some 120))) 167772162 90 = Ret (message (1, body) ++ [70; 0; 2; 2; 77; 0]) /\
    processOpenMsg ex_cfg None None demo_supports 7 (mkSpan (body ++ []) (length body)) (demo_session (demo_config 65002 true None)) =
      refusal NOTIF_UNSUPPORTED_PARAMETER (set_peerCaps caps (demo_session (demo_config 65002 true None))).
Proof.
  destruct (graceful_open_refused ex_cfg None None demo_supports (demo_config 65001 true (Some 120)) 120 167772162 90 7
    (demo_session (demo_config 65002 true None)) [] []) as (body & caps & H1 & _ & H2);
    [|reflexivity | by_compute | by_compute | reflexivity|].
  - split; [by_compute|]. split; [intros x [= <-]; by_compute|]. split; [by_compute | cbn; lia].
  - exists body, caps. split; [exact H1|]. rewrite H2. reflexivity.
Defined.

(** A session is started, connects, sends its OPEN, and gets a good OPEN from
    its neighbor. *)
Definition demo_open : bytes := ret_or [] (buildOpen (buildLocalCapabilities (demo_config 65001 true None)) 167772162 90).

Definition demo_update (_ : IncomingUpdate) (_ : BgpSession) : bool * bool * Notification := (false, true, NoError).

#[local] Abbreviation demo_reach := (world_reach ex_cfg (fun _ => true) (Some 65001) None demo_supports (fun _ => true) demo_update
  (demo_config 65002 true None) (fun _ => false) (fun _ => false)).
#[local] Abbreviation demo_handlers := (handlers ex_cfg (Some 65001) None demo_supports (fun _ => true) demo_update).

Definition demo_run (evs : list FsmEvent) (s : BgpSession) : BgpSession :=
  fold_left (fun s ev => set_fsm (fun f => processEvent ex_cfg (fun _ => true) ev (BgpFsm.pop f)) (set_fsm (BgpFsm.postEvent ev) s)) evs s.

Lemma demo_run_reach evs s m f : Forall (fun ev => opening ev = false) evs -> queue (fsm (demo_run evs s)) = [] -> queue (fsm s) = [] ->
  demo_reach (s, m, f) -> Forall (fun k => queue (fsm (demo_run (take k evs) s)) = []) (seq 0 (length evs)) -> demo_reach (demo_run evs s, m, f).
Proof.
  revert s. induction evs as [|ev evs IH]; intros s He Hq Hs Hr Hk; [exact Hr|]. apply Forall_cons in He as [He Hes].
  cbn [demo_run fold_left] in *. set (s1 := set_fsm _ (set_fsm _ s)) in *.
  assert (H1 : demo_reach (s1, m, f)).
  { eapply world_next; [eapply world_next; [exact Hr | apply (world_post _ _ _ _ _ _ _ s m f ev He)]|].
    subst s1. apply (world_process _ _ _ _ _ _ _ (set_fsm (BgpFsm.postEvent ev) s) m f ev []). cbn. rewrite Hs. reflexivity. }
  assert (Hs1 : queue (fsm s1) = []).
  { destruct evs as [|ev2 evs]; [exact Hq|]. rewrite Forall_forall in Hk. apply (Hk 1%nat). apply elem_of_seq. cbn. lia. }
  apply (IH s1 Hes Hq Hs1 H1). rewrite Forall_forall in *. intros k Hin. apply (Hk (S k)). rewrite elem_of_seq in *. cbn. lia.
Qed.

Definition demo_connected : BgpSession := demo_run [MANUAL_START; TCP_CR_ACKED] (demo_session (demo_config 65002 true None)).

Lemma demo_connected_reach : demo_reach (demo_connected, ∅, false).
Proof. apply demo_run_reach; [repeat constructor | reflexivity | reflexivity | apply world_init | repeat constructor]. Qed.

(** The OPEN comes on the session's own connection. *)
Lemma own_open_never_accepted_witness :
  exists s m, demo_reach (s, m, false) /\ queue (fsm s) = [BGP_OPEN_MSG_ERR] /\ state (fsm s) ∈ [IDLE; CONNECT; ACTIVE; OPEN_SENT].
Proof.
  destruct (receive (demo_handlers 0) demo_connected demo_open (RxBuffer_new 4096)) as [[s1 b1]| |] eqn:E;
    [|vm_compute in E; discriminate E | vm_compute in E; discriminate E].
  assert (H1 : demo_reach (s1, <[0 := b1]> ∅, false)).
  { eapply (world_next _ _ _ _ _ _ _ _ _ _ (demo_connected, ∅, false)); [exact demo_connected_reach|].
    apply (world_receive ex_cfg (fun _ => true) (Some 65001) None demo_supports (fun _ => true) demo_update
      demo_connected ∅ false 0 demo_open (RxBuffer_new 4096) s1 b1 ltac:(rewrite lookup_empty; reflexivity) E). }
  exists s1, (<[0 := b1]> ∅). split; [exact H1|]. split; [vm_compute in E; injection E as <- _; reflexivity|].
  exact (own_open_never_accepted ex_cfg (fun _ => true) (Some 65001) None demo_supports (fun _ => true) demo_update _ _ _ _ _ H1).
Defined.

(** The same OPEN on a connection that another one has replaced is accepted. *)
Lemma replaced_connection_opens : exists s m, demo_reach (s, m, true) /\ state (fsm s) = OPEN_CONFIRMED.
Proof.
  set (s0 := mkBgp (fsm demo_connected) (localCaps demo_connected) (peerCaps demo_connected) (negotiated demo_connected) 1 (passiveId demo_connected)
    (discarded demo_connected) (withdrawn demo_connected)).
  destruct (receive (demo_handlers 0) s0 demo_open (RxBuffer_new 4096)) as [[s1 b1]| |] eqn:E;
    [|vm_compute in E; discriminate E | vm_compute in E; discriminate E].
  assert (H1 : demo_reach (s1, <[0 := b1]> ∅, true)).
  { eapply (world_next _ _ _ _ _ _ _ _ _ _ (s0, ∅, false)).
    - eapply world_next; [exact demo_connected_reach | apply (world_connect _ _ _ _ _ _ _ demo_connected ∅ false 1)].
    - apply (world_receive ex_cfg (fun _ => true) (Some 65001) None demo_supports (fun _ => true) demo_update
        s0 ∅ false 0 demo_open (RxBuffer_new 4096) s1 b1 ltac:(rewrite lookup_empty; reflexivity) E). }
  assert (Hq : queue (fsm s1) = [BGP_OPEN]) by (vm_compute in E; injection E as <- _; reflexivity).
  eexists _, _. split; [eapply world_next; [exact H1 | apply (world_process _ _ _ _ _ _ _ s1 _ true BGP_OPEN [] Hq)]|].
  vm_compute in E. injection E as <- _. reflexivity.
Qed.
