(* ===== verification/BgpDampening.v ===== *)
(** * BgpDampening: route flap dampening (routing/bgp/features/Dampening.h, Dampening.cpp)

    The penalty of a prefix, its decay and the two thresholds, in binary64
    arithmetic as IEEE 754 rounds it. [exp], [log] and [pow] of the C++ library
    are not determined by its standard: they are members of [Cmath], of which
    nothing is assumed. Times are nanoseconds of the steady clock. *)

From S2P Require Import Prelude.
From Stdlib Require Import Floats.SpecFloat.

(** ** Binary64 *)

Definition double : Type := spec_float.
Definition of_int (z : Z) : double := binary_normalize 53 1024 z 0 false.
Definition f_add : double -> double -> double := SFadd 53 1024.
Definition f_mul : double -> double -> double := SFmul 53 1024.
Definition f_div : double -> double -> double := SFdiv 53 1024.

(** What the code calls of <cmath>. *)
Record Cmath := mkCmath { exp : double -> double; log_ : double -> double; pow : double -> double -> double }.

(** [routing/bgp/af/AddressFamilyInstance.h:2273-2277] The settings [getDampenParams] reads, in minutes and penalties *)
Record DampenConfig := mkDampenConfig {
  BGP_DAMPENING : bool;
  BGP_DAMPENING_HALF_LIFE : Z; BGP_DAMPENING_REUSE_THRESHOLD : Z; BGP_DAMPENING_SUPPRESS_THRESHOLD : Z; BGP_DAMPENING_MAXIMUM_SUPPRESS_TIME : Z;
  cmath : Cmath
}.

(** [routing/bgp/features/Dampening.h:34-41] DampenParams *)
Record DampenParams := mkDampenParams { halfLifeSecs : Z; reuse : Z; suppress : Z; maxSuppressSecs : Z; ceiling : double }.

(** [routing/bgp/features/Dampening.h:68-76] DampenState: a time of 0 is unset *)
Record DampenState := mkDampenState {
  penalty : double;
  suppressed : bool;
  everWithdrawn : bool;
  pendingReuse : bool;
  lastUpdate : Z;
  suppressExpiry : Z
}.

Definition DampenState_new : DampenState := mkDampenState (S754_zero false) false false false 0 0.

Definition set_penalty (v : double) (s : DampenState) : DampenState :=
  mkDampenState v (suppressed s) (everWithdrawn s) (pendingReuse s) (lastUpdate s) (suppressExpiry s).
Definition set_pendingReuse (b : bool) (s : DampenState) : DampenState :=
  mkDampenState (penalty s) (suppressed s) (everWithdrawn s) b (lastUpdate s) (suppressExpiry s).
Definition set_everWithdrawn (b : bool) (s : DampenState) : DampenState :=
  mkDampenState (penalty s) (suppressed s) b (pendingReuse s) (lastUpdate s) (suppressExpiry s).

(** [routing/bgp/af/AddressFamilyInstance.h:2270-2279] getDampenParams: the quotient of the two 16-bit numbers of seconds is
    taken in integers *)
Definition getDampenParams (c : DampenConfig) : outcome DampenParams :=
  let h := BGP_DAMPENING_HALF_LIFE c * 60 in
  let m := BGP_DAMPENING_MAXIMUM_SUPPRESS_TIME c * 60 in
  if h =? 0 then UB
  else Ret (mkDampenParams h (BGP_DAMPENING_REUSE_THRESHOLD c) (BGP_DAMPENING_SUPPRESS_THRESHOLD c) m
              (f_mul (of_int (BGP_DAMPENING_SUPPRESS_THRESHOLD c)) (pow (cmath c) (of_int 2) (of_int (m / h))))).

Section Dampening.
Context (m : Cmath) (p : DampenParams).

(** [routing/bgp/features/Dampening.cpp:8-11] decayFactor *)
Definition decayFactor (halfLife elapsed : double) : double :=
  exp m (f_div (f_mul (SFopp (log_ m (of_int 2))) elapsed) halfLife).

(** [routing/bgp/features/Dampening.cpp:20-33] DampenState::decayTo *)
Definition decayTo (now : Z) (s : DampenState) : DampenState :=
  if lastUpdate s =? 0
  then mkDampenState (penalty s) (suppressed s) (everWithdrawn s) (pendingReuse s) now (suppressExpiry s)
  else
    let elapsed := f_div (of_int (now - lastUpdate s)) (of_int 1000000000) in
    if SFltb (of_int 0) elapsed
    then mkDampenState (f_mul (penalty s) (decayFactor (of_int (halfLifeSecs p)) elapsed)) (suppressed s) (everWithdrawn s) (pendingReuse s) now (suppressExpiry s)
    else s.

(** [routing/bgp/features/Dampening.cpp:41-43] DampenState::onAnnounce, a flap: one more thousand, up to the ceiling *)
Definition penalise (s : DampenState) : DampenState :=
  let v := f_add (penalty s) (of_int 1000) in
  set_penalty (if SFltb (ceiling p) v then ceiling p else v) s.

(** [routing/bgp/features/Dampening.cpp:46-50] DampenState::onAnnounce, suppression: the number of seconds is exact in
    binary64 *)
Definition suppressIfOver (now : Z) (s : DampenState) : DampenState :=
  if negb (suppressed s) && SFltb (of_int (suppress p)) (penalty s)
  then mkDampenState (penalty s) true (everWithdrawn s) (pendingReuse s) (lastUpdate s) (now + maxSuppressSecs p * 1000000000)
  else s.

(** [routing/bgp/features/Dampening.cpp:35-53] DampenState::onAnnounce: the answer is [suppressed] of the result *)
Definition onAnnounce (now : Z) (s : DampenState) : DampenState :=
  let s := decayTo now s in
  suppressIfOver now (if everWithdrawn s then penalise s else s).

(** [routing/bgp/features/Dampening.cpp:55-71] DampenState::onWithdraw *)
Definition onWithdraw (now : Z) (s : DampenState) : DampenState :=
  suppressIfOver now (penalise (set_everWithdrawn true (decayTo now s))).

(** [routing/bgp/features/Dampening.cpp:73-87] DampenState::checkReuse *)
Definition checkReuse (now : Z) (s : DampenState) : DampenState * bool :=
  if negb (suppressed s) then (s, false)
  else
    let s := decayTo now s in
    if SFleb (penalty s) (of_int (reuse p)) || (suppressExpiry s <=? now)
    then (mkDampenState (penalty s) false (everWithdrawn s) (pendingReuse s) (lastUpdate s) (suppressExpiry s), true)
    else (s, false).

End Dampening.

(** [routing/bgp/features/Dampening.h:143-143] DampenState::isStale *)
Definition isStale (s : DampenState) : bool := negb (suppressed s) && SFltb (penalty s) (of_int 1).

(** ** What the operations keep *)

Section Laws.
Context (m : Cmath) (p : DampenParams).

Lemma decayTo_frame now s : suppressed (decayTo m p now s) = suppressed s /\ everWithdrawn (decayTo m p now s) = everWithdrawn s /\
  pendingReuse (decayTo m p now s) = pendingReuse s.
Proof. unfold decayTo. destruct (_ =? _); [done|]. destruct (SFltb _ _); done. Qed.

Lemma suppressIfOver_frame now s : everWithdrawn (suppressIfOver p now s) = everWithdrawn s /\ pendingReuse (suppressIfOver p now s) = pendingReuse s /\
  penalty (suppressIfOver p now s) = penalty s /\ (suppressed s = true -> suppressed (suppressIfOver p now s) = true).
Proof. unfold suppressIfOver. destruct (suppressed s) eqn:E; cbn; [done|]. destruct (SFltb _ _); done. Qed.

Lemma checkReuse_false now s : (checkReuse m p now s).2 = false -> suppressed (checkReuse m p now s).1 = suppressed s.
Proof.
  unfold checkReuse. destruct (suppressed s) eqn:E; cbn [negb]; [|intros _; exact E]. destruct (_ || _); cbn; [done|].
  destruct (decayTo_frame now s) as (-> & _). done.
Qed.

Lemma checkReuse_true now s : (checkReuse m p now s).2 = true -> suppressed s = true /\ suppressed (checkReuse m p now s).1 = false.
Proof. unfold checkReuse. destruct (suppressed s) eqn:E; cbn [negb]; [|done]. destruct (_ || _); done. Qed.

(** A prefix that has never been found withdrawn has no penalty, and its
    announcements are not suppressed, whatever the settings. *)
Definition unpenalised (s : DampenState) : Prop :=
  penalty s = S754_zero false /\ suppressed s = false /\ everWithdrawn s = false.

End Laws.

(** ** Example *)

(** The default settings, with functions of <cmath> that are exact on what the
    example asks: [pow(2, 4)], and no time passes. *)
Definition ex_cmath : Cmath := mkCmath (fun _ => of_int 1) (fun _ => of_int 0) (fun _ _ => of_int 16).
Definition ex_dampen : DampenConfig := mkDampenConfig true 15 750 2000 60 ex_cmath.

Lemma third_flap_suppresses :
  let p := mkDampenParams 900 750 2000 3600 (of_int 32000) in
  let w := onWithdraw ex_cmath p 5 in let a := onAnnounce ex_cmath p 5 in
  suppressed (w (a DampenState_new)) = false /\ suppressed (a (w (a DampenState_new))) = false /\ suppressed (w (a (w (a DampenState_new)))) = true.
Proof. vm_compute. repeat split; reflexivity. Qed.
