(* ===== verification/BgpEgress.v ===== *)
(** * BgpEgress: what a BGP process announces to its neighbors

    The outbound half of routing/bgp/af/AddressFamilyInstance.h: the policies
    applied to a route before it is sent, the decision whether a neighbor gets
    it, the rate limits, and the Adj-RIB-Out that records what each neighbor
    has been told. Routes are pointers into the memory of live route objects;
    the identifier of an interned attribute set stands for the set itself
    ([AttributeManager.route_attributes_stable]). The address family is IPv4
    unicast, the only one the program instantiates. UPDATEs are values here;
    BgpBuild.v has their bytes. *)

From S2P Require Import Prelude IPAddress BgpUpdate AttributeManager BestPath BgpDampening.

(** ** Routes *)

(** [routing/bgp/rib/RibTypes.hpp:54-60] NlriPath *)
Record NlriPath := mkNlriPath { np_nlri : IPv4Prefix; np_pathId : Z }.

#[export] Instance NlriPath_eq_dec : EqDecision NlriPath.
Proof. solve_decision. Defined.
#[export] Instance NlriPath_countable : Countable NlriPath.
Proof. refine (inj_countable' (fun p => (np_nlri p, np_pathId p)) (fun x => mkNlriPath x.1 x.2) _). by intros []. Defined.

(** [routing/bgp/attributes/AttributeTypes.hpp:225-229] PathAttribute *)
Record PathAttribute := mkPA { pa_attrs : Attributes; pa_path : Path }.

#[export] Instance PathAttribute_eq_dec : EqDecision PathAttribute.
Proof. solve_decision. Defined.

(** [routing/bgp/rib/RibTypes.hpp:332-354] InboundRoute: [rn_base] has the members the decision process reads, [rn_path]
    the rest of its attributes *)
Record RouteNode := mkNode { rn_base : InboundRoute; rn_path : Path; rn_nlri : IPv4Prefix }.

(** [routing/bgp/rib/RibTypes.hpp:223-227] RouteBase::getPathAttributes *)
Definition node_pa (r : RouteNode) : PathAttribute := mkPA (attrs (rn_base r)) (rn_path r).

(** The live route objects by address. *)
Abbreviation Heap := (gmap nat RouteNode).

(** A read through a pointer to a route. *)
Definition deref (h : Heap) (p : nat) : outcome RouteNode := match h !! p with Some r => Ret r | None => UB end.

(** [routing/bgp/rib/RibTypes.hpp:94-111] BuildUpdate *)
Record Update := mkUpd { upd_withdrawn : list NlriPath; upd_announcements : list (PathAttribute * list NlriPath) }.

(** ** Configuration and neighbors *)

(** [configs/registry/router/BgpRegistry.h:34-39] SlowPeerMode *)
Inductive SlowPeerMode := STATIC | DYNAMIC | DYNAMIC_PERMANENT.

#[export] Instance SlowPeerMode_eq_dec : EqDecision SlowPeerMode.
Proof. solve_decision. Defined.

(** The settings of a neighbor that are read here, [None] for an optional one
    that is not set. *)
Record NbrConfig := mkNbrConfig {
  REMOTE_AS : option Z;
  ACTIVATE : bool;
  ADVERTISE_INTERVAL : Z;
  LOCAL_AS : bool; LOCAL_AS_AS : option Z; LOCAL_AS_DUAL_AS : bool; LOCAL_AS_REPLACE_AS : bool; LOCAL_AS_NO_PREPEND : bool;
  NEXT_HOP_UNCHANGED : bool; NEXT_HOP_SELF : bool; NEXT_HOP_SELF_ALL : bool;
  SEND_COMMUNITY : bool; SEND_COMMUNITY_BOTH : bool; SEND_COMMUNITY_STANDARD : bool; SEND_COMMUNITY_EXTENDED : bool;
  REMOVE_PRIVATE_AS : bool; REMOVE_PRIVATE_AS_ALL : bool;
  ROUTE_REFLECTOR_CLIENT : bool; ADVERTISE_DIVERSE_PATH_MPATH : bool;
  SLOW_PEER_MODE : option SlowPeerMode; SLOW_PEER_DETECTION : bool; SLOW_PEER_DETECTION_THRESHOLD : Z;
  DEFAULT_ORIGINATE : bool;
  ALLOWAS_IN : bool; ALLOWAS_IN_OCCURANCES : option Z; WEIGHT : option Z; SOFT_RECONFIGURATION : bool;
  MAXIMUM_PREFIX : option Z; MAXIMUM_PREFIX_THRESHOLD : option Z; MAXIMUM_PREFIX_WARNING_ONLY : bool;
  MAXIMUM_PREFIX_RESTART : option Z
}.

(** What is read of a session: the peer's identifier, whether it is
    established, what was negotiated for the family, the local address and the
    unsent bytes of the primary connection. *)
Record PeerSession := mkPeerSession {
  peerRid : Z;
  established : bool;
  activeFamily : bool;
  addPathSend : bool;
  enhancedRR : bool;
  localAddress : option IPAddress;
  pendingTxBytes : Z
}.

(** [routing/bgp/neighbor/NeighborAf.h:77-92] Neighbor and its NeighborAf: [nbr_rid] is [rid], 0 until the session is
    established *)
Record Neighbor := mkNeighbor {
  cfgs : NbrConfig;
  nbr_rid : Z;
  session : option PeerSession;
  isSlowPeer : bool;
  slowFirstSeen : Z;
  maxPfxWarned : bool;
  maxPfxRestart : bool
}.

(** An aggregate address of the configuration: prefix, [as-set], [summary-only]. *)
Record AggregateCfg := mkAggregateCfg { agg_prefix : IPv4Prefix; asConfedSet : bool; summaryOnly : bool }.

(** The settings of the process and of the address family that are read. *)
Record BgpConfig := mkBgpConfig {
  asNumber : Z; routerRid : Z;
  BGP_CLUSTER_ID : option Z; BGP_CONFEDERATION_IDENTIFIER : option Z; BGP_CONFEDERATION_PEERS : list Z;
  BGP_SUPPRESS_INACTIVE : bool; BGP_CLIENT_TO_CLIENT_REFLECTION : bool;
  BGP_ENFORCE_FIRST_AS : bool; BGP_MAX_AS_LIMIT : option Z; BGP_MAX_COMMUNITY_LIMIT : option Z; BGP_MAX_EXT_COMMUNITY_LIMIT : option Z;
  BGP_DETERMINISTIC_MED : bool; BGP_ALWAYS_COMPARE_MED : bool;
  BGP_BEST_PATH : BestPathConfig; MAXIMUM_PATHS_EBGP : nat; MAXIMUM_PATHS_IBGP : nat;
  SELECT_BACKUP : bool; SELECT_BEST_EXTERNAL : bool; ADVERTISE_ALL : bool; ADVERTISE_BEST : option Z; ADVERTISE_GROUP_BEST : bool;
  AGGREGATE_ADDRESS : list AggregateCfg; BGP_AGGREGATE_TIMER : Z;
  BGP_SOFT_RECONFIG_BACKUP : bool;
  BGP_NEXT_HOP_TRACKING : bool; BGP_NEXT_HOP_TRIGGER_DELAY : option Z;
  BGP_REFRESH_STALEPATH_TIME : Z; BGP_REFRESH_MAX_EOR_TIME : Z;
  DISTANCE_EXTERNAL : Z; DISTANCE_INTERNAL : Z; DISTANCE_LOCAL : Z; DISTANCE_RANGE : list (Z * list IPPrefix);
  DEFAULT_METRIC : option Z; BGP_RECURSIVE_HOST : bool;
  DAMPENING : DampenConfig
}.

(** ** State *)

(** [routing/bgp/af/AddressFamilyInstance.h:1274-1279] MraiState: [timer] is the expiry of the running timer *)
Record MraiState := mkMrai { lastSent : Z; pending : gset IPv4Prefix; timer : option Z }.
Definition Mrai_new : MraiState := mkMrai 0 ∅ None.

(** [routing/bgp/af/AddressFamilyInstance.h:1781-1785] AggregateState *)
Record AggregateState := mkAggregate { active : bool; basePa : PathAttribute }.

(** What a neighbor is sent, what is asked of the global RIB, of the scheduler
    and of the state machine of a session. [Opened] marks a new session. *)
Inductive Action :=
  | Opened (addr : IPAddress)
  | SendUpdate (addr : IPAddress) (u : Update)
  | SendOriginated (addr : IPAddress) (u : Update)
  | SendRouteRefresh (addr : IPAddress) (begin_ : bool)
  | InstallRoutes (l : list (IPv4Prefix * PathAttribute * Z * Z))
  | WithdrawRoute (n : IPv4Prefix)
  | MaxPrefixReached (addr : IPAddress)
  | PostAfter (expiry : Z).

(** [routing/bgp/af/AddressFamilyInstance.h:2945-2955] AddressFamilyInstance: the members of the outbound half, with the
    neighbors of the process, and what was done so far *)
Record Outbound := mkOutbound {
  neighbors : gmap IPAddress Neighbor;
  adjRibOut : gmap Z (gmap NlriPath PathAttribute);
  mraiState : gmap Z MraiState;
  mraiBypassPeer : Z;
  aggregateStates : gmap IPv4Prefix AggregateState;
  defaultOriginatedPeers : gset Z;
  log : list Action
}.

Definition on_neighbors f (o : Outbound) := mkOutbound (f (neighbors o)) (adjRibOut o) (mraiState o) (mraiBypassPeer o) (aggregateStates o) (defaultOriginatedPeers o) (log o).
Definition on_out f (o : Outbound) := mkOutbound (neighbors o) (f (adjRibOut o)) (mraiState o) (mraiBypassPeer o) (aggregateStates o) (defaultOriginatedPeers o) (log o).
Definition on_mrai f (o : Outbound) := mkOutbound (neighbors o) (adjRibOut o) (f (mraiState o)) (mraiBypassPeer o) (aggregateStates o) (defaultOriginatedPeers o) (log o).
Definition set_bypass r (o : Outbound) := mkOutbound (neighbors o) (adjRibOut o) (mraiState o) r (aggregateStates o) (defaultOriginatedPeers o) (log o).
Definition on_aggregates f (o : Outbound) := mkOutbound (neighbors o) (adjRibOut o) (mraiState o) (mraiBypassPeer o) (f (aggregateStates o)) (defaultOriginatedPeers o) (log o).
Definition on_defaults f (o : Outbound) := mkOutbound (neighbors o) (adjRibOut o) (mraiState o) (mraiBypassPeer o) (aggregateStates o) (f (defaultOriginatedPeers o)) (log o).
Definition emit (a : Action) (o : Outbound) := mkOutbound (neighbors o) (adjRibOut o) (mraiState o) (mraiBypassPeer o) (aggregateStates o) (defaultOriginatedPeers o) (log o ++ [a]).

(** The Adj-RIB-Out of a peer; [operator[]] makes an empty one. *)
Definition peerOut (rid : Z) (o : Outbound) : gmap NlriPath PathAttribute := default ∅ (adjRibOut o !! rid).
Definition mraiOf (rid : Z) (o : Outbound) : MraiState := default Mrai_new (mraiState o !! rid).

Section Egress.
Context (cfg : BgpConfig).

(** [routing/bgp/af/AddressFamilyInstance.h:1707-1711] getClusterId *)
Definition getClusterId : Z := default (routerRid cfg) (BGP_CLUSTER_ID cfg).

(** [routing/bgp/af/AddressFamilyInstance.h:1722-1726] getConfedId *)
Definition getConfedId : Z := default (asNumber cfg) (BGP_CONFEDERATION_IDENTIFIER cfg).

(** [routing/bgp/neighbor/Neighbor.cpp:68-82] Neighbor::isEbgp *)
Definition isEbgp (n : Neighbor) : bool :=
  match REMOTE_AS (cfgs n) with
  | None => false
  | Some a => if a =? asNumber cfg then false else negb (existsb (Z.eqb a) (BGP_CONFEDERATION_PEERS cfg))
  end.

(** [routing/bgp/neighbor/Neighbor.cpp:84-98] Neighbor::isConfedEbgp *)
Definition isConfedEbgp (n : Neighbor) : bool :=
  match REMOTE_AS (cfgs n) with
  | None => false
  | Some a => if a =? asNumber cfg then false else existsb (Z.eqb a) (BGP_CONFEDERATION_PEERS cfg)
  end.

(** ** Policies *)

(** [routing/bgp/af/AddressFamilyInstance.h:67-90] getAsSegment, and the same for confederations: the segment is at the
    head of the path *)
Definition withSegment (type : Z) (f : list Z -> list Z) (p : list AsPathSegment) : list AsPathSegment :=
  match p with
  | seg :: rest => if segmentType seg =? type then mkSegment type (f (asns seg)) :: rest else mkSegment type (f []) :: p
  | [] => [mkSegment type (f [])]
  end.

Definition set_asPath v (a : Attributes) : Attributes := set_asPaths v (as4Path a) a.

Definition confedSegment (s : AsPathSegment) : bool := (segmentType s =? BGP_AS_CONFED_SEQUENCE) || (segmentType s =? BGP_AS_CONFED_SET).

(** [routing/bgp/af/AddressFamilyInstance.h:1147-1160] applyGroupEgressPolicy, the AS numbers put in front *)
Definition ownAses (c : NbrConfig) : list Z :=
  match (if LOCAL_AS c then LOCAL_AS_AS c else None) with
  | None => [getConfedId]
  | Some a => if LOCAL_AS_REPLACE_AS c then [a] else if LOCAL_AS_NO_PREPEND c then [getConfedId] else [a; getConfedId]
  end.

(** [routing/bgp/af/AddressFamilyInstance.h:1124-1171] applyGroupEgressPolicy *)
Definition applyGroupEgressPolicy (pa : PathAttribute) (n : Neighbor) : PathAttribute :=
  let a := pa_attrs pa in
  if isEbgp n then
    let a := set_reflection None [] (set_localPref None a) in
    mkPA (set_asPath (withSegment BGP_AS_SEQUENCE (app (ownAses (cfgs n))) (List.filter (fun s => negb (confedSegment s)) (asPath a))) a) (pa_path pa)
  else if isConfedEbgp n then mkPA (set_asPath (withSegment BGP_AS_CONFED_SEQUENCE (cons (asNumber cfg)) (asPath a)) a) (pa_path pa)
  else pa.

(** [routing/bgp/af/AddressFamilyInstance.h:1220-1223] isPrivateAs *)
Definition isPrivateAs (asn : Z) : bool := ((64512 <=? asn) && (asn <=? 65534)) || ((4200000000 <=? asn) && (asn <=? 4294967294)).

(** [routing/bgp/af/AddressFamilyInstance.h:1215-1232] applyMemberNexthop, the removal of private AS numbers *)
Definition removePrivate (p : list AsPathSegment) : list AsPathSegment :=
  List.filter (fun s => match asns s with [] => false | _ => true end)
    (map (fun s => mkSegment (segmentType s) (List.filter (fun a => negb (isPrivateAs a)) (asns s))) p).

Definition set_extendedCommunities v (a : Attributes) := mkAttributes (origin a) (asPath a) (as4Path a) (localPref a) (atomicAggregate a) (med a) (asAggregator a)
  (as4Aggregator a) (communities a) v (largeCommunities a) (originatorId a) (clusterList a) (aigp a) (unknownTransitive a).

(** [routing/bgp/af/AddressFamilyInstance.h:1201-1213] applyMemberNexthop, the communities *)
Definition stripCommunities (c : NbrConfig) (a : Attributes) : Attributes :=
  let sendStd := SEND_COMMUNITY c || SEND_COMMUNITY_BOTH c || SEND_COMMUNITY_STANDARD c in
  let sendExt := SEND_COMMUNITY_EXTENDED c || SEND_COMMUNITY_BOTH c in
  let a := set_communities (if sendStd then communities a else []) (largeCommunities a) a in
  let a := if sendExt then a else set_extendedCommunities [] a in
  if negb sendStd && negb sendExt then set_communities (communities a) [] a else a.

Definition set_next (h : IPAddress) (pa : PathAttribute) : PathAttribute := mkPA (pa_attrs pa) (set_nextHop h (pa_path pa)).

(** [routing/bgp/af/AddressFamilyInstance.h:1190-1241] applyMemberNexthop, for the neighbor at [addr] with session
    [ses]: a route of this router has no source neighbor to compare with *)
Definition applyMemberNexthop (pa : PathAttribute) (r : RouteNode) (addr : IPAddress) (n : Neighbor) (ses : PeerSession) : outcome PathAttribute :=
  let c := cfgs n in
  if isEbgp n then
    let pa := if negb (NEXT_HOP_UNCHANGED c) || NEXT_HOP_SELF_ALL c then set_next addr pa else pa in
    let a := stripCommunities c (pa_attrs pa) in
    let a := if REMOVE_PRIVATE_AS c || REMOVE_PRIVATE_AS_ALL c then set_asPath (removePrivate (asPath a)) a else a in
    Ret (mkPA a (pa_path pa))
  else
    own ← (if NEXT_HOP_SELF c
           then match sourceNeighbor (rn_base r) with Some src => Ret (negb (rid src =? routerRid cfg)) | None => UB end
           else Ret false);
    if own || NEXT_HOP_SELF_ALL c
    then match localAddress ses with Some l => Ret (set_next l pa) | None => UB end
    else Ret pa.

(** [routing/bgp/af/AddressFamilyInstance.h:1256-1264] applyEgressPolicy; a neighbor of a peer group gets the same two
    stages *)
Definition applyEgressPolicy (r : RouteNode) (addr : IPAddress) (n : Neighbor) (ses : PeerSession) : outcome PathAttribute :=
  applyMemberNexthop (applyGroupEgressPolicy (node_pa r) n) r addr n ses.

(** [routing/bgp/af/AddressFamilyInstance.h:1615-1622] recomputeAdjRibOut, the attributes of a reflected route *)
Definition reflect (r : RouteNode) (pa : PathAttribute) : outcome PathAttribute :=
  let a := pa_attrs pa in
  oid ← match originatorId a with
        | Some i => Ret i
        | None => match sourceNeighbor (rn_base r) with Some src => Ret (rid src) | None => UB end
        end;
  Ret (mkPA (set_reflection (Some oid) (getClusterId :: clusterList a) a) (pa_path pa)).

(** ** The gates in front of an announcement *)

Definition send (addr : IPAddress) (u : Update) (o : Outbound) : Outbound := emit (SendUpdate addr u) o.

(** [routing/bgp/af/AddressFamilyInstance.h:1341-1349] recomputeAdjRibOut, withdrawFromPeer *)
Definition withdrawFromPeer (addr : IPAddress) (r : Z) (nlri : IPv4Prefix) (o : Outbound) : Outbound :=
  match (filter (fun kv => np_nlri kv.1 = nlri) (map_to_list (peerOut r o))).*1 with
  | [] => o
  | w => send addr (mkUpd w []) (on_out (insert r (filter (fun kv => np_nlri kv.1 <> nlri) (peerOut r o))) o)
  end.

(** [std::chrono::seconds] in nanoseconds, and [duration_cast] back. *)
Definition seconds (n : Z) : Z := n * 1000000000.
Definition elapsedSeconds (now last : Z) : Z := Z.quot (now - last) 1000000000.

(** [routing/bgp/af/AddressFamilyInstance.h:1383-1390] recomputeAdjRibOut, a prefix is left for the timer of the peer *)
Definition defer (r : Z) (nlri : IPv4Prefix) (expiry : Z) (o : Outbound) : Outbound :=
  let ms := mraiOf r o in
  match timer ms with
  | Some _ => on_mrai (insert r (mkMrai (lastSent ms) (pending ms ∪ {[nlri]}) (timer ms))) o
  | None => emit (PostAfter expiry) (on_mrai (insert r (mkMrai (lastSent ms) (pending ms ∪ {[nlri]}) (Some expiry))) o)
  end.

(** [routing/bgp/af/AddressFamilyInstance.h:1372-1392] recomputeAdjRibOut, the advertisement interval *)
Definition mraiGate (now r : Z) (nlri : IPv4Prefix) (secs : Z) (o : Outbound) : option Outbound :=
  if (0 <? secs) && (elapsedSeconds now (lastSent (mraiOf r o)) <? secs)
  then Some (defer r nlri (lastSent (mraiOf r o) + seconds secs) o) else None.

Definition setSlow (b : bool) (t : Z) (n : Neighbor) : Neighbor :=
  mkNeighbor (cfgs n) (nbr_rid n) (session n) b t (maxPfxWarned n) (maxPfxRestart n).

(** [routing/bgp/af/AddressFamilyInstance.h:1394-1429] recomputeAdjRibOut, slow peers: [inl] when the prefix is deferred *)
Definition slowGate (now : Z) (nlri : IPv4Prefix) (addr : IPAddress) (n : Neighbor) (ses : PeerSession) (o : Outbound) : outcome (Outbound + Outbound) :=
  let mode := SLOW_PEER_MODE (cfgs n) in
  let isStatic := bool_decide (mode = Some STATIC) in
  '(backlogged, o) ←
    (if negb isStatic && isSlowPeer n then
       if match localAddress ses with Some _ => 0 <? pendingTxBytes ses | None => false end then Ret (true, o)
       else match mode with
            | None => Throw "assertion failed"
            | Some DYNAMIC_PERMANENT => Ret (false, o)
            | Some _ => Ret (false, on_neighbors (insert addr (setSlow false 0 n)) o)
            end
     else Ret (false, o));
  Ret (if isStatic || backlogged
       then inl (defer (peerRid ses) nlri (now + seconds (SLOW_PEER_DETECTION_THRESHOLD (cfgs n))) o)
       else inr o).

(** [routing/bgp/af/AddressFamilyInstance.h:1955-1975] aggregateSuppressed *)
Fixpoint aggregateSuppressed (states : gmap IPv4Prefix AggregateState) (l : list AggregateCfg) (nlri : IPv4Prefix) : outcome bool :=
  match l with
  | [] => Ret false
  | c :: l =>
      if negb (summaryOnly c) then aggregateSuppressed states l nlri
      else match states !! agg_prefix c with
           | Some st =>
               if negb (active st) then aggregateSuppressed states l nlri
               else
                 inside ← (if p4_len (agg_prefix c) <? p4_len nlri then IPv4Prefix_contains (agg_prefix c) nlri else Ret false);
                 if inside : bool then Ret true else aggregateSuppressed states l nlri
           | None => aggregateSuppressed states l nlri
           end
  end.

(** [routing/bgp/af/AddressFamilyInstance.h:1440-1478] recomputeAdjRibOut, internal neighbors: [None] when the route must
    not be passed on, else whether it is reflected *)
Definition splitHorizon (r : RouteNode) (addr : IPAddress) (n : Neighbor) (o : Outbound) : outcome (option bool) :=
  let fromIbgp := negb (ebgp (rn_base r)) && negb (confedEbgp (rn_base r)) in
  let toIbgp := negb (isEbgp n) && negb (isConfedEbgp n) in
  match sourceNeighbor (rn_base r) with
  | Some src =>
      if fromIbgp && toIbgp then
        match neighbors o !! neighborAddress src with
        | None => UB
        | Some from =>
            let targetIsClient := ROUTE_REFLECTOR_CLIENT (cfgs n) in
            let senderIsClient := ROUTE_REFLECTOR_CLIENT (cfgs from) in
            Ret (if negb senderIsClient && negb targetIsClient then None
                 else if bool_decide (neighborAddress src = addr) then None
                 else if senderIsClient && targetIsClient && negb (BGP_CLIENT_TO_CLIENT_REFLECTION cfg) then None
                 else Some true)
        end
      else Ret (Some false)
  | None => Ret (Some false)
  end.

(** [routing/bgp/af/AddressFamilyInstance.h:1432-1502] recomputeAdjRibOut, whether a neighbor gets the route: [None] when
    not, else whether it is reflected. The ORF filter lets every IPv4Prefix through. *)
Definition eligible (r : RouteNode) (nlri : IPv4Prefix) (addr : IPAddress) (n : Neighbor) (ses : PeerSession) (o : Outbound) : outcome (option bool) :=
  if negb (activeFamily ses) then Ret None
  else
    v ← splitHorizon r addr n o;
    match v with
    | None => Ret None
    | Some reflecting =>
        if negb (ACTIVATE (cfgs n)) then Ret None
        else
          suppressed ← aggregateSuppressed (aggregateStates o) (AGGREGATE_ADDRESS cfg) nlri;
          Ret (if suppressed : bool then None else Some reflecting)
    end.

(** ** The paths announced *)

(** [routing/bgp/af/AddressFamilyInstance.h:1534-1537] recomputeAdjRibOut, tryAdd: only the paths behind the first [base]
    are compared *)
Definition tryAdd (base : nat) (r : nat) (paths : list nat) : list nat :=
  if bool_decide (r ∈ drop base paths) then paths else paths ++ [r].

(** [routing/bgp/af/AddressFamilyInstance.h:1539-1546] recomputeAdjRibOut, the best additional paths *)
Fixpoint addBest (n : Z) (base : nat) (l : list nat) (paths : list nat) : list nat :=
  match l with
  | [] => paths
  | r :: l => if n <=? Z.of_nat (length paths - base) then paths else addBest n base l (tryAdd base r paths)
  end.

(** [routing/bgp/af/AddressFamilyInstance.h:1551-1553] recomputeAdjRibOut, the best external path *)
Fixpoint addExternal (h : Heap) (base : nat) (l : list nat) (paths : list nat) : outcome (list nat) :=
  match l with
  | [] => Ret paths
  | r :: l => x ← deref h r; if ebgp (rn_base x) then Ret (tryAdd base r paths) else addExternal h base l paths
  end.

(** [routing/bgp/af/AddressFamilyInstance.h:1555-1563] recomputeAdjRibOut, one path for each further AS *)
Fixpoint addGroups (h : Heap) (base : nat) (seenAs : list Z) (l : list nat) (paths : list nat) : outcome (list nat) :=
  match l with
  | [] => Ret paths
  | r :: l =>
      x ← deref h r;
      if bool_decide (peerAs (rn_base x) ∈ seenAs) then addGroups h base seenAs l paths
      else addGroups h base (peerAs (rn_base x) :: seenAs) l (tryAdd base r paths)
  end.

(** [routing/bgp/af/AddressFamilyInstance.h:1507-1566] recomputeAdjRibOut, the paths announced to a neighbor *)
Definition advertisedPaths (h : Heap) (best : LocalRoute) (n : Neighbor) (ses : PeerSession) : outcome (list nat) :=
  let paths := [route best] in
  if negb (addPathSend ses) then Ret paths
  else
    let paths := if ADVERTISE_DIVERSE_PATH_MPATH (cfgs n) then paths ++ multipaths best else paths in
    let extra := additionalPaths best in
    match extra with
    | [] => Ret paths
    | backup :: _ =>
        if ADVERTISE_ALL cfg then Ret (paths ++ extra)
        else
          let base := length paths in
          let paths := match ADVERTISE_BEST cfg with Some k => addBest k base extra paths | None => paths end in
          let paths := if SELECT_BACKUP cfg then tryAdd base backup paths else paths in
          paths ← (if SELECT_BEST_EXTERNAL cfg then addExternal h base extra paths else Ret paths);
          if ADVERTISE_GROUP_BEST cfg then
            seen ← mapM (deref h) paths;
            addGroups h base (map (fun x => peerAs (rn_base x)) seen) extra paths
          else Ret paths
    end.

(** The ADD-PATH identifier of a route: the identifier of its neighbor. *)
Definition egressPathId (ses : PeerSession) (r : RouteNode) : Z :=
  match (if addPathSend ses then sourceNeighbor (rn_base r) else None) with Some src => rid src | None => 0 end.

(** [routing/bgp/af/AddressFamilyInstance.h:1570-1591] recomputeAdjRibOut, entries whose source is no longer announced *)
Definition inactiveEntries (ses : PeerSession) (nlri : IPv4Prefix) (routes : list RouteNode) (t : gmap NlriPath PathAttribute) : list NlriPath :=
  if addPathSend ses then
    List.filter (fun k => bool_decide (np_nlri k = nlri) &&
        negb (existsb (fun x => match sourceNeighbor (rn_base x) with Some src => rid src =? np_pathId k | None => false end) routes))
      (map_to_list t).*1
  else [].

(** [routing/bgp/af/AddressFamilyInstance.h:1593-1644] recomputeAdjRibOut, one path *)
Definition advertisePath (nlri : IPv4Prefix) (reflecting : bool) (addr : IPAddress) (n : Neighbor) (ses : PeerSession)
    (acc : gmap NlriPath PathAttribute * list (PathAttribute * list NlriPath)) (r : RouteNode)
    : outcome (gmap NlriPath PathAttribute * list (PathAttribute * list NlriPath)) :=
  let key := mkNlriPath nlri (egressPathId ses r) in
  pa ← applyEgressPolicy r addr n ses;
  pa ← (if reflecting then reflect r pa else Ret pa);
  Ret (if bool_decide (acc.1 !! key = Some pa) then acc else (<[key := pa]> acc.1, acc.2 ++ [(pa, [key])])).

Fixpoint advertisePaths (nlri : IPv4Prefix) (reflecting : bool) (addr : IPAddress) (n : Neighbor) (ses : PeerSession) (routes : list RouteNode)
    (acc : gmap NlriPath PathAttribute * list (PathAttribute * list NlriPath))
    : outcome (gmap NlriPath PathAttribute * list (PathAttribute * list NlriPath)) :=
  match routes with
  | [] => Ret acc
  | r :: routes => acc ← advertisePath nlri reflecting addr n ses acc r; advertisePaths nlri reflecting addr n ses routes acc
  end.

(** [routing/bgp/af/AddressFamilyInstance.h:1655-1678] recomputeAdjRibOut, the detection of slow peers *)
Definition detectSlow (now : Z) (addr : IPAddress) (ses : PeerSession) (o : Outbound) : Outbound :=
  match neighbors o !! addr with
  | None => o
  | Some n =>
      if isSlowPeer n || negb (SLOW_PEER_DETECTION (cfgs n)) then o
      else if match localAddress ses with Some _ => 0 <? pendingTxBytes ses | None => false end then
        let first := if slowFirstSeen n =? 0 then now else slowFirstSeen n in
        on_neighbors (insert addr (setSlow (SLOW_PEER_DETECTION_THRESHOLD (cfgs n) <=? elapsedSeconds now first) first n)) o
      else on_neighbors (insert addr (setSlow false 0 n)) o
  end.

(** [routing/bgp/af/AddressFamilyInstance.h:1504-1678] recomputeAdjRibOut, the announcement to a neighbor *)
Definition advertise (now : Z) (h : Heap) (nlri : IPv4Prefix) (best : LocalRoute) (reflecting : bool) (addr : IPAddress) (n : Neighbor)
    (ses : PeerSession) (o : Outbound) : outcome Outbound :=
  let r := peerRid ses in
  paths ← advertisedPaths h best n ses;
  routes ← mapM (deref h) paths;
  let gone := inactiveEntries ses nlri routes (peerOut r o) in
  let t := foldr delete (peerOut r o) gone in
  '(t, anns) ← advertisePaths nlri reflecting addr n ses routes (t, []);
  let o := on_out (insert r t) o in
  let o := match gone, anns with [], [] => o | _, _ => send addr (mkUpd gone anns) o end in
  let o := match anns with
           | [] => o
           | _ => on_mrai (insert r (mkMrai now (pending (mraiOf r o) ∖ {[nlri]}) (timer (mraiOf r o)))) o
           end in
  Ret (detectSlow now addr ses o).

(** [routing/bgp/af/AddressFamilyInstance.h:1357-1370] recomputeAdjRibOut, a route whose next hop is known to be
    unreachable *)
Definition suppressInactive (reachable : IPAddress -> option bool) (r : RouteNode) : bool :=
  BGP_SUPPRESS_INACTIVE cfg && (match sourceNeighbor (rn_base r) with Some _ => true | None => false end) &&
  (match reachable (nextHop (rn_path r)) with Some b => negb b | None => false end).

(** [routing/bgp/af/AddressFamilyInstance.h:1331-1679] recomputeAdjRibOut, for one neighbor. One reading of the clock
    stands for those of one turn. *)
Definition adjOutFor (now : Z) (h : Heap) (reachable : IPAddress -> option bool) (nlri : IPv4Prefix) (best : option LocalRoute)
    (addr : IPAddress) (o : Outbound) : outcome Outbound :=
  match neighbors o !! addr with
  | None => Ret o
  | Some n =>
      match session n with
      | None => Ret o
      | Some ses =>
          if negb (established ses) then Ret o
          else
            let r := peerRid ses in
            match best with
            | None => Ret (withdrawFromPeer addr r nlri o)
            | Some lr =>
                best ← deref h (route lr);
                if suppressInactive reachable best then Ret (withdrawFromPeer addr r nlri o)
                else
                  gate ← (if r =? mraiBypassPeer o then Ret (inr o)
                          else match mraiGate now r nlri (ADVERTISE_INTERVAL (cfgs n)) o with
                               | Some o => Ret (inl o)
                               | None => slowGate now nlri addr n ses o
                               end);
                  match gate with
                  | inl o => Ret o
                  | inr o =>
                      v ← eligible best nlri addr n ses o;
                      match v with
                      | None => Ret (withdrawFromPeer addr r nlri o)
                      | Some reflecting => advertise now h nlri lr reflecting addr n ses o
                      end
                  end
            end
      end
  end.

(** [std::for_each] over the neighbors. *)
Fixpoint forEachNeighbor (f : IPAddress -> Outbound -> outcome Outbound) (l : list IPAddress) (o : Outbound) : outcome Outbound :=
  match l with
  | [] => Ret o
  | addr :: l => o ← f addr o; forEachNeighbor f l o
  end.

(** [routing/bgp/af/AddressFamilyInstance.h:1327-1680] recomputeAdjRibOut *)
Definition recomputeAdjRibOut (now : Z) (h : Heap) (reachable : IPAddress -> option bool) (nlri : IPv4Prefix) (best : option LocalRoute)
    (o : Outbound) : outcome Outbound :=
  forEachNeighbor (adjOutFor now h reachable nlri best) (map_to_list (neighbors o)).*1 o.


(** ** Routes of this router's own: the default route and aggregates *)

Definition originate (addr : IPAddress) (u : Update) (o : Outbound) : Outbound := emit (SendOriginated addr u) o.

(** [routing/bgp/af/AddressFamilyInstance.h:1818-1818] sendDefaultOriginate, the default prefix *)
Definition defaultNlri : IPv4Prefix := mkIPv4Prefix 0 0.

(** [routing/bgp/af/AddressFamilyInstance.h:1827-1873] sendDefaultOriginate, the attributes *)
Definition defaultPa (n : Neighbor) (ses : PeerSession) : PathAttribute :=
  let a := set_origin (Some 0) Attributes_new in
  let a := if isEbgp n then set_asPath [mkSegment BGP_AS_SEQUENCE (ownAses (cfgs n))] a
           else if isConfedEbgp n then set_localPref (Some 100) (set_asPath [mkSegment BGP_AS_CONFED_SEQUENCE [asNumber cfg]] a)
           else set_localPref (Some 100) a in
  mkPA a (mkPath (mkAfiSafi 0 0) (default (IPAddress_u128 0) (localAddress ses)) None None).

(** [routing/bgp/af/AddressFamilyInstance.h:1805-1882] sendDefaultOriginate *)
Definition sendDefaultOriginate (addr : IPAddress) (n : Neighbor) (ses : PeerSession) (o : Outbound) : Outbound :=
  if ACTIVATE (cfgs n) && DEFAULT_ORIGINATE (cfgs n)
  then on_defaults (fun d => d ∪ {[peerRid ses]}) (originate addr (mkUpd [] [(defaultPa n ses, [mkNlriPath defaultNlri 0])]) o)
  else o.

(** [routing/bgp/af/AddressFamilyInstance.h:1896-1917] withdrawDefaultOriginate *)
Definition withdrawDefaultOriginate (addr : IPAddress) (ses : PeerSession) (o : Outbound) : Outbound :=
  if bool_decide (peerRid ses ∈ defaultOriginatedPeers o)
  then originate addr (mkUpd [mkNlriPath defaultNlri 0] []) (on_defaults (fun d => d ∖ {[peerRid ses]}) o)
  else o.

(** [routing/bgp/af/AddressFamilyInstance.h:2139-2187] applyAggregateEgressPolicy *)
Definition applyAggregateEgressPolicy (pa : PathAttribute) (n : Neighbor) (ses : PeerSession) : PathAttribute :=
  let a := pa_attrs pa in
  let a := if isEbgp n then
             let a := set_reflection None [] (set_localPref None a) in
             set_asPath (withSegment BGP_AS_SEQUENCE (app (ownAses (cfgs n))) (List.filter (fun s => negb (confedSegment s)) (asPath a))) a
           else if isConfedEbgp n then set_localPref (Some 100) (set_asPath (withSegment BGP_AS_CONFED_SEQUENCE (cons (asNumber cfg)) (asPath a)) a)
           else set_localPref (Some 100) a in
  let pa := mkPA a (pa_path pa) in
  match localAddress ses with Some l => set_next l pa | None => pa end.

(** [routing/bgp/af/AddressFamilyInstance.h:2224-2235] sendAggregateToPeer *)
Definition sendAggregateToPeer (agg : IPv4Prefix) (st : AggregateState) (addr : IPAddress) (n : Neighbor) (ses : PeerSession) (o : Outbound) : Outbound :=
  originate addr (mkUpd [] [(applyAggregateEgressPolicy (basePa st) n ses, [mkNlriPath agg 0])]) o.

(** The neighbors with an established session that negotiated the family. *)
Definition openPeer (o : Outbound) (addr : IPAddress) : option (Neighbor * PeerSession) :=
  n ← neighbors o !! addr; ses ← session n; if established ses && activeFamily ses then Some (n, ses) else None.

(** [routing/bgp/af/AddressFamilyInstance.h:2199-2212] sendAggregateToAllPeers *)
Definition sendAggregateToAllPeers (agg : IPv4Prefix) (st : AggregateState) (o : Outbound) : Outbound :=
  foldl (fun o addr => match openPeer o addr with
                       | Some (n, ses) => if ACTIVATE (cfgs n) then sendAggregateToPeer agg st addr n ses o else o
                       | None => o
                       end) o (map_to_list (neighbors o)).*1.

(** [routing/bgp/af/AddressFamilyInstance.h:2246-2259] withdrawAggregate *)
Definition withdrawAggregate (agg : IPv4Prefix) (o : Outbound) : Outbound :=
  foldl (fun o addr => match openPeer o addr with
                       | Some _ => originate addr (mkUpd [mkNlriPath agg 0] []) o
                       | None => o
                       end) o (map_to_list (neighbors o)).*1.

(** [routing/bgp/af/AddressFamilyInstance.h:1931-1943] sendActiveAggregatesToPeer *)
Definition sendActiveAggregatesToPeer (addr : IPAddress) (n : Neighbor) (ses : PeerSession) (o : Outbound) : Outbound :=
  if activeFamily ses && ACTIVATE (cfgs n)
  then foldl (fun o kv => if active kv.2 then sendAggregateToPeer kv.1 kv.2 addr n ses o else o) o (map_to_list (aggregateStates o))
  else o.

(** [routing/bgp/af/AddressFamilyInstance.h:291-313] refreshPeer, one entry joins the announcement with its attributes *)
Fixpoint groupEntry (k : NlriPath) (pa : PathAttribute) (l : list (PathAttribute * list NlriPath)) : list (PathAttribute * list NlriPath) :=
  match l with
  | [] => [(pa, [k])]
  | (pa', keys) :: l => if bool_decide (pa' = pa) then (pa', keys ++ [k]) :: l else (pa', keys) :: groupEntry k pa l
  end.

(** [routing/bgp/af/AddressFamilyInstance.h:274-324] refreshPeer *)
Definition refreshPeer (addr : IPAddress) (n : Neighbor) (ses : PeerSession) (o : Outbound) : Outbound :=
  let o := if enhancedRR ses then emit (SendRouteRefresh addr true) o else o in
  let o := match foldl (fun l kv => groupEntry kv.1 kv.2 l) [] (map_to_list (peerOut (peerRid ses) o)) with
           | [] => o
           | anns => send addr (mkUpd [] anns) o
           end in
  let o := sendActiveAggregatesToPeer addr n ses (sendDefaultOriginate addr n ses o) in
  if enhancedRR ses then emit (SendRouteRefresh addr false) o else o.

End Egress.

(** ** Replaying what a neighbor was sent *)

Definition announce (pa : PathAttribute) (keys : list NlriPath) (t : gmap NlriPath PathAttribute) : gmap NlriPath PathAttribute :=
  foldl (fun t k => <[k := pa]> t) t keys.

(** What an UPDATE does to the routes a neighbor knows: withdrawals first. *)
Definition apply_update (u : Update) (t : gmap NlriPath PathAttribute) : gmap NlriPath PathAttribute :=
  foldl (fun t a => announce a.1 a.2 t) (foldr delete t (upd_withdrawn u)) (upd_announcements u).

(** What a neighbor makes of one action: the UPDATEs it is sent, of routes and
    of what this router originates alike, change the routes it knows, and a new
    session starts without any. *)
Definition hear (addr : IPAddress) (t : gmap NlriPath PathAttribute) (a : Action) : gmap NlriPath PathAttribute :=
  match a with
  | Opened b => if bool_decide (b = addr) then ∅ else t
  | SendUpdate b u | SendOriginated b u => if bool_decide (b = addr) then apply_update u t else t
  | _ => t
  end.

(** The routes the neighbor at [addr] has from the UPDATEs of its session. *)
Definition heard (addr : IPAddress) (l : list Action) : gmap NlriPath PathAttribute := foldl (hear addr) ∅ l.

Lemma heard_app addr l l' : heard addr (l ++ l') = foldl (hear addr) (heard addr l) l'.
Proof. apply foldl_app. Qed.

(** The same without what this router originates. *)
Definition hear_rib (addr : IPAddress) (t : gmap NlriPath PathAttribute) (a : Action) : gmap NlriPath PathAttribute :=
  match a with
  | Opened b => if bool_decide (b = addr) then ∅ else t
  | SendUpdate b u => if bool_decide (b = addr) then apply_update u t else t
  | _ => t
  end.

Definition heard_rib (addr : IPAddress) (l : list Action) : gmap NlriPath PathAttribute := foldl (hear_rib addr) ∅ l.

Lemma heard_rib_app addr l l' : heard_rib addr (l ++ l') = foldl (hear_rib addr) (heard_rib addr l) l'.
Proof. apply foldl_app. Qed.

Definition routed (a : Action) : Prop := match a with SendOriginated _ _ => False | _ => True end.

Lemma foldr_delete_lookup {V} (l : list NlriPath) (t : gmap NlriPath V) k :
  foldr delete t l !! k = if bool_decide (k ∈ l) then None else t !! k.
Proof.
  induction l as [|x l IH]; cbn; [done|]. destruct (decide (k = x)) as [->|Hne].
  - rewrite lookup_delete_eq, bool_decide_true by left. done.
  - rewrite lookup_delete_ne, IH by done. rewrite (bool_decide_ext (k ∈ x :: l) (k ∈ l)); [done|].
    rewrite elem_of_cons. split; [intros [?|?]; done | by right].
Qed.

Lemma filter_entries_delete (t : gmap NlriPath PathAttribute) nlri :
  foldr delete t (filter (fun kv => np_nlri kv.1 = nlri) (map_to_list t)).*1 = filter (fun kv => np_nlri kv.1 <> nlri) t.
Proof.
  apply map_eq. intros k. rewrite foldr_delete_lookup, map_lookup_filter. destruct (t !! k) as [pa|] eqn:E; cbn.
  - destruct (decide (np_nlri k = nlri)) as [Hn|Hn].
    + rewrite bool_decide_true; [rewrite option_guard_False; [done | intros Hf; exact (Hf Hn)]|]. apply list_elem_of_fmap. exists (k, pa). split; [done|].
      apply list_elem_of_filter. split; [done | apply elem_of_map_to_list, E].
    + rewrite bool_decide_false; [rewrite option_guard_True; done|]. intros ((k' & pa') & -> & Hf)%list_elem_of_fmap.
      apply list_elem_of_filter in Hf as [Hf _]. exact (Hn Hf).
  - case_bool_decide; done.
Qed.

(** The members of a neighbor that no announcement changes. *)
Definition nbr_static (n : Neighbor) : NbrConfig * option PeerSession * Z := (cfgs n, session n, nbr_rid n).

(** What one turn for a neighbor may change: it is told what changes in its
    own table, and no session changes. *)
Record turn (addr : IPAddress) (r : Z) (o o' : Outbound) : Prop := {
  turn_log : exists acts, log o' = log o ++ acts /\ Forall routed acts /\
    (forall b, b <> addr -> forall t, foldl (hear_rib b) t acts = t) /\
    foldl (hear_rib addr) (peerOut r o) acts = peerOut r o';
  turn_others : forall r', r' <> r -> peerOut r' o' = peerOut r' o;
  turn_sessions : forall b, nbr_static <$> neighbors o' !! b = nbr_static <$> neighbors o !! b;
  turn_rest : aggregateStates o' = aggregateStates o /\ defaultOriginatedPeers o' = defaultOriginatedPeers o /\ mraiBypassPeer o' = mraiBypassPeer o
}.

Lemma turn_refl addr r o : turn addr r o o.
Proof. split; [exists []; rewrite app_nil_r; repeat split; constructor | done | done | done]. Qed.

Lemma turn_trans addr r o1 o2 o3 : turn addr r o1 o2 -> turn addr r o2 o3 -> turn addr r o1 o3.
Proof.
  intros [(a1 & L1 & F1 & B1 & P1) O1 S1 (R1 & R2 & R3)] [(a2 & L2 & F2 & B2 & P2) O2 S2 (Q1 & Q2 & Q3)]. split.
  - exists (a1 ++ a2). rewrite L2, L1, app_assoc. split; [done|]. split; [by apply Forall_app|]. split.
    + intros b Hb t. rewrite foldl_app, B1, B2 by done. done.
    + rewrite foldl_app, P1. done.
  - intros r' Hr. rewrite O2, O1 by done. done.
  - intros b. rewrite S2, S1. done.
  - rewrite Q1, Q2, Q3. done.
Qed.

(** Steps that tell nobody anything. *)
Lemma turn_quiet addr r o o' acts :
  log o' = log o ++ acts -> Forall (fun a => match a with PostAfter _ => True | _ => False end) acts ->
  adjRibOut o' = adjRibOut o ->
  (forall b, nbr_static <$> neighbors o' !! b = nbr_static <$> neighbors o !! b) ->
  aggregateStates o' = aggregateStates o /\ defaultOriginatedPeers o' = defaultOriginatedPeers o /\ mraiBypassPeer o' = mraiBypassPeer o ->
  turn addr r o o'.
Proof.
  intros Hl Ha Ho Hn Hr. assert (Hid : forall b t, foldl (hear_rib b) t acts = t).
  {
    intros b. clear Hl. induction Ha as [|a l Hq _ IH]; intros t; [done|]. cbn. rewrite IH. destruct a; done. }
  assert (Hp : forall r', peerOut r' o' = peerOut r' o) by (intros r'; unfold peerOut; rewrite Ho; done).
  split; [|intros r' _; apply Hp | done | done].
  exists acts. split; [done|]. split; [eapply Forall_impl; [exact Ha|]; by intros []|]. split; [intros b _; apply Hid|]. rewrite Hid. symmetry. apply Hp.
Qed.

Lemma neighbors_insert_same (o : Outbound) addr n n' b :
  neighbors o !! addr = Some n -> nbr_static n' = nbr_static n ->
  nbr_static <$> (<[addr := n']> (neighbors o)) !! b = nbr_static <$> neighbors o !! b.
Proof.
  intros Hn Hc. destruct (decide (addr = b)) as [<-|Hne].
  - rewrite lookup_insert_eq, Hn. cbn. rewrite Hc. done.
  - rewrite lookup_insert_ne by done. done.
Qed.

Lemma turn_defer addr r nlri expiry o : turn addr r o (defer r nlri expiry o).
Proof.
  unfold defer. destruct (timer _).
  - apply (turn_quiet _ _ _ _ []); [cbn; rewrite app_nil_r; done | constructor | done | done | done].
  - apply (turn_quiet _ _ _ _ [PostAfter expiry]); [done | constructor; done | done | done | done].
Qed.

Lemma turn_setSlow addr r o n b t : neighbors o !! addr = Some n -> turn addr r o (on_neighbors (insert addr (setSlow b t n)) o).
Proof.
  intros Hn. apply (turn_quiet _ _ _ _ []); [cbn; rewrite app_nil_r; done | constructor | done | | done].
  intros b'. apply (neighbors_insert_same o addr n); done.
Qed.

Lemma turn_send addr r o u t' :
  apply_update u (peerOut r o) = t' -> turn addr r o (send addr u (on_out (insert r t') o)).
Proof.
  intros Hu. split; [| | done | done].
  - exists [SendUpdate addr u]. split; [done|]. split; [by repeat constructor|]. split.
    + intros b Hb t. cbn. rewrite bool_decide_false by done. done.
    + cbn. rewrite bool_decide_true by done. unfold peerOut at 2. cbn. rewrite lookup_insert_eq. exact Hu.
  - intros r' Hr. unfold peerOut. cbn. rewrite lookup_insert_ne by done. done.
Qed.

Lemma turn_withdraw addr r nlri o : turn addr r o (withdrawFromPeer addr r nlri o).
Proof.
  unfold withdrawFromPeer. destruct (_.*1) as [|k w] eqn:E; [apply turn_refl|]. apply turn_send.
  unfold apply_update. cbn [upd_withdrawn upd_announcements foldl]. rewrite <- E. apply filter_entries_delete.
Qed.

Lemma advertisePath_apply cfg nlri reflecting addr n ses t0 acc r acc' :
  advertisePath cfg nlri reflecting addr n ses acc r = Ret acc' ->
  acc.1 = foldl (fun t a => announce a.1 a.2 t) t0 acc.2 -> acc'.1 = foldl (fun t a => announce a.1 a.2 t) t0 acc'.2.
Proof.
  unfold advertisePath. intros (pa & _ & H)%outcome_bind_ret_inv Ha. apply outcome_bind_ret_inv in H as (pa' & _ & H).
  injection H as <-. case_bool_decide; [exact Ha|]. cbn [fst snd]. rewrite foldl_app, <- Ha. done.
Qed.

Lemma advertisePaths_apply cfg nlri reflecting addr n ses t0 routes : forall acc acc',
  advertisePaths cfg nlri reflecting addr n ses routes acc = Ret acc' ->
  acc.1 = foldl (fun t a => announce a.1 a.2 t) t0 acc.2 -> acc'.1 = foldl (fun t a => announce a.1 a.2 t) t0 acc'.2.
Proof.
  induction routes as [|r routes IH]; intros acc acc' H Ha; [injection H as <-; exact Ha|].
  cbn [advertisePaths] in H. apply outcome_bind_ret_inv in H as (acc1 & H1 & H). eapply IH; [exact H|].
  eapply advertisePath_apply; [exact H1 | exact Ha].
Qed.

Lemma turn_on_mrai addr r o f : turn addr r o (on_mrai f o).
Proof. apply (turn_quiet _ _ _ _ []); [cbn; rewrite app_nil_r; done | constructor | done | done | done]. Qed.

Lemma turn_detectSlow now addr r ses o : turn addr r o (detectSlow now addr ses o).
Proof.
  unfold detectSlow. destruct (neighbors o !! addr) as [n|] eqn:Hn; [|apply turn_refl].
  repeat case_match; try apply turn_refl; apply turn_setSlow; done.
Qed.

Lemma turn_insert_same addr r o : turn addr r o (on_out (insert r (peerOut r o)) o).
Proof.
  assert (Hp : forall r', peerOut r' (on_out (insert r (peerOut r o)) o) = peerOut r' o).
  { intros r'. unfold peerOut at 1. cbn. destruct (decide (r = r')) as [<-|Hne]; [rewrite lookup_insert_eq | rewrite lookup_insert_ne by done]; done. }
  split; [exists [] | intros r' _; apply Hp | done | done]. cbn. rewrite app_nil_r, Hp. repeat split; constructor.
Qed.

Lemma turn_advertise cfg now h nlri best reflecting addr n ses o o' :
  advertise cfg now h nlri best reflecting addr n ses o = Ret o' -> turn addr (peerRid ses) o o'.
Proof.
  unfold advertise. intros (paths & _ & H)%outcome_bind_ret_inv. apply outcome_bind_ret_inv in H as (routes & _ & H).
  apply outcome_bind_ret_inv in H as ((t & anns) & Ha & H). injection H as <-.
  pose proof (advertisePaths_apply _ _ _ _ _ _ _ _ _ _ Ha eq_refl) as Ht. cbn [fst snd] in Ht.
  eapply turn_trans; [|apply turn_detectSlow].
  set (gone := inactiveEntries _ _ _ _) in *. set (o1 := match gone, anns with [], [] => _ | _, _ => _ end).
  assert (H1 : turn addr (peerRid ses) o o1).
  { unfold o1. destruct gone as [|g gone], anns as [|a anns]; try (apply turn_send; unfold apply_update; cbn; rewrite Ht; done).
    cbn in Ht. subst t. apply turn_insert_same. }
  destruct anns; [exact H1|]. eapply turn_trans; [exact H1 | apply turn_on_mrai].
Qed.

Lemma turn_slowGate now nlri addr n ses o v :
  neighbors o !! addr = Some n -> slowGate now nlri addr n ses o = Ret v ->
  turn addr (peerRid ses) o (match v with inl o' | inr o' => o' end).
Proof.
  unfold slowGate. intros Hn ((backlogged & o1) & H1 & H)%outcome_bind_ret_inv. injection H as <-.
  assert (Ht : turn addr (peerRid ses) o o1).
  { revert H1. repeat case_match; try discriminate; intros [= <- <-]; try apply turn_refl; apply turn_setSlow; done. }
  destruct (_ || _); [eapply turn_trans; [exact Ht | apply turn_defer] | exact Ht].
Qed.

Lemma turn_gate now r nlri addr n ses o v :
  neighbors o !! addr = Some n -> r = peerRid ses ->
  (if r =? mraiBypassPeer o then Ret (inr o)
   else match mraiGate now r nlri (ADVERTISE_INTERVAL (cfgs n)) o with
        | Some o => Ret (inl o)
        | None => slowGate now nlri addr n ses o
        end) = Ret v ->
  turn addr r o (match v with inl o' | inr o' => o' end).
Proof.
  intros Hn -> H. destruct (_ =? _); [injection H as <-; apply turn_refl|].
  unfold mraiGate in H. destruct (_ && _); [injection H as <-; apply turn_defer|].
  eapply turn_slowGate; [exact Hn | exact H].
Qed.

Definition session_of (o : Outbound) (addr : IPAddress) : option PeerSession := n ← neighbors o !! addr; session n.

(** A turn for the neighbor at [addr]. *)
Lemma adjOutFor_turn cfg now h reachable nlri best addr o o' :
  adjOutFor cfg now h reachable nlri best addr o = Ret o' ->
  o' = o \/ exists ses, session_of o addr = Some ses /\ established ses = true /\ turn addr (peerRid ses) o o'.
Proof.
  unfold adjOutFor, session_of. destruct (neighbors o !! addr) as [n|] eqn:Hn; [|intros [= <-]; by left].
  cbn. destruct (session n) as [ses|]; [|intros [= <-]; by left].
  destruct (established ses) eqn:He; cbn [negb]; [|intros [= <-]; by left]. intros H. right. exists ses. split; [done|]. split; [done|].
  destruct best as [lr|]; [|injection H as <-; apply turn_withdraw].
  apply outcome_bind_ret_inv in H as (best & _ & H). destruct (suppressInactive _ _ _); [injection H as <-; apply turn_withdraw|].
  apply outcome_bind_ret_inv in H as (gate & Hg & H).
  pose proof (turn_gate _ _ _ _ _ _ _ _ Hn eq_refl Hg) as Ht.
  destruct gate as [o1|o1]; [injection H as <-; exact Ht|].
  apply outcome_bind_ret_inv in H as (v & _ & H). eapply turn_trans; [exact Ht|].
  destruct v as [reflecting|]; [eapply turn_advertise, H | injection H as <-; apply turn_withdraw].
Qed.

(** ** The table of a neighbor is what it was told *)

Definition mirror (o : Outbound) : Prop :=
  forall addr ses, session_of o addr = Some ses -> established ses = true -> heard_rib addr (log o) = peerOut (peerRid ses) o.

(** No two established sessions have the same peer identifier. *)
Definition distinct_rids (o : Outbound) : Prop :=
  forall a b sa sb, session_of o a = Some sa -> session_of o b = Some sb -> established sa = true -> established sb = true ->
    peerRid sa = peerRid sb -> a = b.

Definition same_neighbors (o o' : Outbound) : Prop :=
  forall b, nbr_static <$> neighbors o' !! b = nbr_static <$> neighbors o !! b.

Lemma same_neighbors_session o o' b : same_neighbors o o' -> session_of o' b = session_of o b.
Proof.
  intros Hs. specialize (Hs b). unfold session_of.
  destruct (neighbors o' !! b), (neighbors o !! b); cbn in *; try done. injection Hs as _ E _. exact E.
Qed.

Lemma same_neighbors_refl o : same_neighbors o o.
Proof. done. Qed.

Lemma same_neighbors_trans o1 o2 o3 : same_neighbors o1 o2 -> same_neighbors o2 o3 -> same_neighbors o1 o3.
Proof. intros H1 H2 b. rewrite H2, H1. done. Qed.

Lemma distinct_same o o' : same_neighbors o o' -> distinct_rids o -> distinct_rids o'.
Proof. intros Hs Hd a b sa sb. rewrite !(same_neighbors_session o o') by done. apply Hd. Qed.

Lemma turn_mirror addr ses o o' :
  session_of o addr = Some ses -> established ses = true -> turn addr (peerRid ses) o o' -> distinct_rids o -> mirror o -> mirror o'.
Proof.
  intros Hs He [(acts & Hl & _ & Hb & Hp) Ho Hn _] Hd Hm b sb Hsb Heb.
  rewrite (same_neighbors_session o o') in Hsb by done. rewrite Hl, heard_rib_app.
  destruct (decide (b = addr)) as [->|Hne].
  - assert (sb = ses) as -> by congruence. rewrite (Hm addr ses) by done. exact Hp.
  - rewrite Hb, (Hm b sb), Ho; [done | | done..]. intros Hr. apply Hne. eapply Hd; [exact Hsb | exact Hs | done..].
Qed.

Section Announced.
Context (cfg : BgpConfig).

(** Attributes that the policies make of some route for a neighbor. *)
Definition produced (addr : IPAddress) (n : Neighbor) (ses : PeerSession) (pa : PathAttribute) : Prop :=
  exists r (reflecting : bool), (reflecting = true -> isEbgp cfg n = false) /\
    (pa ← applyEgressPolicy cfg r addr n ses; if reflecting then reflect cfg r pa else Ret pa) = Ret pa.

Lemma withdraw_entries addr r nlri o k pa : peerOut r (withdrawFromPeer addr r nlri o) !! k = Some pa -> peerOut r o !! k = Some pa.
Proof.
  unfold withdrawFromPeer. destruct (_.*1); [done|]. unfold peerOut at 1. cbn. rewrite lookup_insert_eq. cbn.
  intros H. apply map_lookup_filter_Some in H as [H _]. exact H.
Qed.

Lemma advertisePaths_entries nlri (reflecting : bool) addr n ses routes : (reflecting = true -> isEbgp cfg n = false) -> forall acc acc' k pa,
  advertisePaths cfg nlri reflecting addr n ses routes acc = Ret acc' -> acc'.1 !! k = Some pa -> acc.1 !! k = Some pa \/ produced addr n ses pa.
Proof.
  intros Hr. induction routes as [|r routes IH]; intros acc acc' k pa H Hk; [injection H as <-; by left|].
  cbn [advertisePaths] in H. apply outcome_bind_ret_inv in H as (acc1 & H1 & H).
  destruct (IH _ _ _ _ H Hk) as [Hk1|]; [|by right]. clear H Hk IH.
  unfold advertisePath in H1. apply outcome_bind_ret_inv in H1 as (pa1 & Hp & H1). apply outcome_bind_ret_inv in H1 as (pa2 & Hp2 & H1).
  injection H1 as <-. case_bool_decide; [by left|]. cbn in Hk1.
  apply lookup_insert_Some in Hk1 as [[<- <-]|[_ Hk1]]; [|by left]. right. exists r, reflecting. split; [done|]. rewrite Hp. exact Hp2.
Qed.

Lemma gate_peerOut now r nlri addr n ses o v :
  neighbors o !! addr = Some n -> r = peerRid ses ->
  (if r =? mraiBypassPeer o then Ret (inr o)
   else match mraiGate now r nlri (ADVERTISE_INTERVAL (cfgs n)) o with
        | Some o => Ret (inl o)
        | None => slowGate now nlri addr n ses o
        end) = Ret v -> adjRibOut (match v with inl o' | inr o' => o' end) = adjRibOut o.
Proof.
  intros Hn -> H. assert (Hdefer : forall e x, adjRibOut (defer (peerRid ses) nlri e x) = adjRibOut x).
  { intros e x. unfold defer. destruct (timer _); done. }
  destruct (_ =? _); [injection H as <-; done|]. unfold mraiGate in H. destruct (_ && _); [injection H as <-; apply Hdefer|].
  unfold slowGate in H. apply outcome_bind_ret_inv in H as ((backlogged & o1) & H1 & H). injection H as <-.
  assert (Ho : adjRibOut o1 = adjRibOut o) by (revert H1; repeat case_match; try discriminate; intros [= <- <-]; done).
  destruct (_ || _); [rewrite Hdefer|]; exact Ho.
Qed.

Lemma detectSlow_peerOut now addr ses o r : peerOut r (detectSlow now addr ses o) = peerOut r o.
Proof. unfold detectSlow. repeat case_match; done. Qed.

Lemma advertise_entries now h nlri best (reflecting : bool) addr n ses o o' k pa : (reflecting = true -> isEbgp cfg n = false) ->
  advertise cfg now h nlri best reflecting addr n ses o = Ret o' -> peerOut (peerRid ses) o' !! k = Some pa ->
  peerOut (peerRid ses) o !! k = Some pa \/ produced addr n ses pa.
Proof.
  intros Hr. unfold advertise. intros (paths & _ & H)%outcome_bind_ret_inv. apply outcome_bind_ret_inv in H as (routes & _ & H).
  apply outcome_bind_ret_inv in H as ((t & anns) & Ha & H). injection H as <-. rewrite detectSlow_peerOut.
  set (gone := inactiveEntries _ _ _ _) in *. intros Hk.
  assert (Ht : t !! k = Some pa).
  { revert Hk. assert (forall x, peerOut (peerRid ses) (on_out (insert (peerRid ses) t) x) = t) as E.
    { intros x. unfold peerOut. cbn. rewrite lookup_insert_eq. done. }
    destruct gone, anns; unfold peerOut at 1; cbn; rewrite lookup_insert_eq; done. }
  destruct (advertisePaths_entries _ _ _ _ _ _ Hr _ _ _ _ Ha Ht) as [Hk'|]; [|by right]. left. cbn [fst] in Hk'.
  rewrite foldr_delete_lookup in Hk'. case_bool_decide; done.
Qed.

Lemma splitHorizon_reflecting r addr n o : splitHorizon cfg r addr n o = Ret (Some true) -> isEbgp cfg n = false.
Proof. unfold splitHorizon. destruct (isEbgp cfg n); [|done]. destruct (sourceNeighbor _); cbn; rewrite ?andb_false_r; discriminate. Qed.

Lemma eligible_inv r nlri addr n ses o (reflecting : bool) : eligible cfg r nlri addr n ses o = Ret (Some reflecting) ->
  activeFamily ses = true /\ ACTIVATE (cfgs n) = true /\ splitHorizon cfg r addr n o = Ret (Some reflecting).
Proof.
  unfold eligible. destruct (activeFamily ses); [|discriminate]. cbn [negb]. intros (v & Hv & H)%outcome_bind_ret_inv.
  destruct v as [b|]; [|discriminate]. destruct (ACTIVATE _); [|discriminate]. cbn [negb] in H.
  apply outcome_bind_ret_inv in H as ([] & _ & H); [discriminate|]. injection H as ->. done.
Qed.

(** The entries of a neighbor are old ones or made by the policies. *)
Lemma adjOutFor_entries now h reachable nlri best addr o o' n ses k pa :
  adjOutFor cfg now h reachable nlri best addr o = Ret o' -> neighbors o !! addr = Some n -> session n = Some ses ->
  peerOut (peerRid ses) o' !! k = Some pa -> peerOut (peerRid ses) o !! k = Some pa \/ produced addr n ses pa.
Proof.
  unfold adjOutFor. intros H Hn Hs Hk. rewrite Hn, Hs in H. destruct (established ses); cbn [negb] in H; [|injection H as <-; by left].
  destruct best as [lr|]; [|injection H as <-; left; eapply withdraw_entries, Hk].
  apply outcome_bind_ret_inv in H as (best & _ & H).
  destruct (suppressInactive _ _ _); [injection H as <-; left; eapply withdraw_entries, Hk|].
  apply outcome_bind_ret_inv in H as (gate & Hg & H). pose proof (gate_peerOut _ _ _ _ _ _ _ _ Hn eq_refl Hg) as Ho.
  destruct gate as [o1|o1]; [injection H as <-; left; unfold peerOut in *; rewrite <- Ho; exact Hk|].
  assert (Hp : forall r, peerOut r o1 = peerOut r o) by (intros r; unfold peerOut; rewrite Ho; done).
  apply outcome_bind_ret_inv in H as (v & Hv & H). destruct v as [reflecting|]; [|injection H as <-; left; rewrite <- Hp; eapply withdraw_entries, Hk].
  apply eligible_inv in Hv as (_ & _ & Hv). rewrite <- Hp. eapply advertise_entries; [|exact H | exact Hk].
  intros ->. eapply splitHorizon_reflecting, Hv.
Qed.

(** ** All neighbors *)

(** A property that every turn preserves is preserved. *)
Lemma forEachNeighbor_ind (P : Outbound -> Prop) f l : (forall addr o o', f addr o = Ret o' -> P o -> P o') ->
  forall o o', forEachNeighbor f l o = Ret o' -> P o -> P o'.
Proof.
  intros Hf. induction l as [|addr l IH]; intros o o' H HP; [injection H as <-; exact HP|].
  cbn in H. apply outcome_bind_ret_inv in H as (o1 & H1 & H). eapply IH; [exact H|]. eapply Hf; [exact H1 | exact HP].
Qed.

Lemma adjOutFor_same now h reachable nlri best addr o o' :
  adjOutFor cfg now h reachable nlri best addr o = Ret o' ->
  same_neighbors o o' /\ aggregateStates o' = aggregateStates o /\ defaultOriginatedPeers o' = defaultOriginatedPeers o /\ mraiBypassPeer o' = mraiBypassPeer o.
Proof. intros [->|(ses & _ & _ & [_ _ H1 H2])]%adjOutFor_turn; done. Qed.

Lemma recompute_same now h reachable nlri best o o' :
  recomputeAdjRibOut cfg now h reachable nlri best o = Ret o' ->
  same_neighbors o o' /\ aggregateStates o' = aggregateStates o /\ defaultOriginatedPeers o' = defaultOriginatedPeers o /\ mraiBypassPeer o' = mraiBypassPeer o.
Proof.
  intros H. apply (forEachNeighbor_ind (fun x => same_neighbors o x /\ aggregateStates x = aggregateStates o /\
    defaultOriginatedPeers x = defaultOriginatedPeers o /\ mraiBypassPeer x = mraiBypassPeer o) _ _) in H; [exact H | | done].
  intros addr o1 o2 H1 (Hs & Ha & Hd & Hb). apply adjOutFor_same in H1 as (Hs1 & Ha1 & Hd1 & Hb1).
  split; [eapply same_neighbors_trans; done|]. repeat split; congruence.
Qed.

Lemma recomputeOut_mirror now h reachable nlri best o o' :
  recomputeAdjRibOut cfg now h reachable nlri best o = Ret o' -> distinct_rids o -> mirror o -> mirror o'.
Proof.
  intros H Hd Hm. apply (forEachNeighbor_ind (fun x => same_neighbors o x /\ mirror x) _ _) in H; [apply H | | done].
  intros addr o1 o2 H1 [Hs Hm1]. pose proof (adjOutFor_same _ _ _ _ _ _ _ _ H1) as (Hs1 & _).
  split; [eapply same_neighbors_trans; done|]. apply adjOutFor_turn in H1 as [->|(ses & Hses & He & Ht)]; [done|].
  eapply turn_mirror; [exact Hses | done | exact Ht | eapply distinct_same; done | done].
Qed.

Lemma same_neighbors_lookup o o' b n' : same_neighbors o o' -> neighbors o' !! b = Some n' ->
  exists n, neighbors o !! b = Some n /\ cfgs n = cfgs n' /\ session n = session n' /\ nbr_rid n = nbr_rid n'.
Proof.
  intros Hs Hn. specialize (Hs b). rewrite Hn in Hs. destruct (neighbors o !! b) as [n|]; cbn in Hs; [|discriminate].
  exists n. split; [done|]. injection Hs as E1 E2 E3. done.
Qed.

(** ** What an external neighbor gets *)

(** Attributes fit to be sent to an external neighbor, the next hop aside. *)
Record external_core (c : NbrConfig) (pa : PathAttribute) : Prop := {
  ext_local : localPref (pa_attrs pa) = None /\ originatorId (pa_attrs pa) = None /\ clusterList (pa_attrs pa) = [];
  ext_confed : Forall (fun s => confedSegment s = false) (asPath (pa_attrs pa));
  ext_own : REMOVE_PRIVATE_AS c || REMOVE_PRIVATE_AS_ALL c = false ->
    exists tl rest, asPath (pa_attrs pa) = mkSegment BGP_AS_SEQUENCE (ownAses cfg c ++ tl) :: rest
}.

(** With the neighbor's own address as the next hop, unless it is left. *)
Definition external_attrs (addr : IPAddress) (c : NbrConfig) (pa : PathAttribute) : Prop :=
  external_core c pa /\ (NEXT_HOP_UNCHANGED c = false \/ NEXT_HOP_SELF_ALL c = true -> nextHop (pa_path pa) = addr).

Lemma withSegment_front f p : Forall (fun s => confedSegment s = false) p ->
  exists tl rest, withSegment BGP_AS_SEQUENCE f p = mkSegment BGP_AS_SEQUENCE (f tl) :: rest /\ Forall (fun s => confedSegment s = false) rest.
Proof.
  intros Hp. destruct Hp as [|seg rest H1 H2]; [exists [], []; done|]. cbn.
  destruct (segmentType seg =? BGP_AS_SEQUENCE); [exists (asns seg), rest; done|]. exists [], (seg :: rest). split; [done|]. by constructor.
Qed.

Lemma removePrivate_confed p : Forall (fun s => confedSegment s = false) p -> Forall (fun s => confedSegment s = false) (removePrivate p).
Proof.
  intros Hp. apply Forall_forall. intros s Hs. apply list_elem_of_In, filter_In in Hs as [Hs _].
  apply in_map_iff in Hs as (s' & <- & Hs). apply list_elem_of_In in Hs. rewrite Forall_forall in Hp. exact (Hp s' Hs).
Qed.

Lemma stripCommunities_keeps c a :
  localPref (stripCommunities c a) = localPref a /\ originatorId (stripCommunities c a) = originatorId a /\
  clusterList (stripCommunities c a) = clusterList a /\ asPath (stripCommunities c a) = asPath a.
Proof. unfold stripCommunities. repeat case_match; done. Qed.

Lemma produced_external addr n ses pa : isEbgp cfg n = true -> produced addr n ses pa -> external_attrs addr (cfgs n) pa.
Proof.
  intros Hx (r & reflecting & Hr & H). destruct reflecting; [rewrite Hr in Hx by done; discriminate|].
  apply outcome_bind_ret_inv in H as (pa0 & H & [= ->]). unfold applyEgressPolicy, applyMemberNexthop, applyGroupEgressPolicy in H.
  rewrite Hx in H. injection H as <-. cbn [pa_attrs pa_path].
  set (a0 := set_asPath (withSegment _ _ _) _). set (pa1 := if negb _ || _ then _ else _).
  assert (Ha : pa_attrs pa1 = a0) by (unfold pa1; destruct (_ || _); done).
  destruct (stripCommunities_keeps (cfgs n) (pa_attrs pa1)) as (S1 & S2 & S3 & S4). rewrite Ha in *.
  destruct (withSegment_front (app (ownAses cfg (cfgs n))) (List.filter (fun s => negb (confedSegment s)) (asPath (pa_attrs (node_pa r))))) as (tl & rest & Hw & Hc).
  { apply Forall_forall. intros s Hs. apply list_elem_of_In, filter_In in Hs as [_ Hs]. by apply negb_true_iff. }
  assert (Hp0 : asPath a0 = mkSegment BGP_AS_SEQUENCE (ownAses cfg (cfgs n) ++ tl) :: rest) by exact Hw.
  assert (Hcf : Forall (fun s => confedSegment s = false) (asPath (stripCommunities (cfgs n) a0))) by (rewrite S4, Hp0; constructor; done).
  assert (S123 : localPref (stripCommunities (cfgs n) a0) = None /\ originatorId (stripCommunities (cfgs n) a0) = None /\ clusterList (stripCommunities (cfgs n) a0) = [])
    by (rewrite S1, S2, S3; done).
  split; [split|]; cbn [pa_attrs pa_path].
  - destruct (REMOVE_PRIVATE_AS _ || _); exact S123.
  - destruct (REMOVE_PRIVATE_AS _ || _); [exact (removePrivate_confed _ Hcf) | exact Hcf].
  - intros ->. rewrite S4. exists tl, rest. exact Hp0.
  - intros Hh. unfold pa1. destruct (NEXT_HOP_UNCHANGED (cfgs n)), (NEXT_HOP_SELF_ALL (cfgs n)); cbn; destruct Hh; done.
Qed.

(** Every entry for an established external neighbor is fit for it. *)
Definition external_ok (o : Outbound) : Prop :=
  forall addr n ses k pa, neighbors o !! addr = Some n -> session n = Some ses -> established ses = true -> isEbgp cfg n = true ->
    peerOut (peerRid ses) o !! k = Some pa -> external_attrs addr (cfgs n) pa.

Lemma isEbgp_cfgs n n' : cfgs n' = cfgs n -> isEbgp cfg n' = isEbgp cfg n.
Proof. unfold isEbgp. intros ->. done. Qed.

Lemma adjOutFor_external now h reachable nlri best addr o o' :
  adjOutFor cfg now h reachable nlri best addr o = Ret o' -> distinct_rids o -> external_ok o -> external_ok o'.
Proof.
  intros H1 Hd Hm b n' ses k pa Hn' Hses He Hx Hk. pose proof (adjOutFor_same _ _ _ _ _ _ _ _ H1) as (Hs1 & _).
  destruct (same_neighbors_lookup _ _ _ _ Hs1 Hn') as (n & Hn & Hc & Hsn & _). rewrite <- Hsn in Hses.
  rewrite (isEbgp_cfgs n n') in Hx by done. rewrite <- Hc.
  assert (Hold : peerOut (peerRid ses) o !! k = Some pa -> external_attrs b (cfgs n) pa) by (intros Hk1; eapply Hm; done).
  pose proof (adjOutFor_turn _ _ _ _ _ _ _ _ _ H1) as [->|(sa & Hsa & Hea & [_ Ho _ _])]; [exact (Hold Hk)|].
  destruct (decide (addr = b)) as [->|Hne].
  - destruct (adjOutFor_entries _ _ _ _ _ _ _ _ _ _ _ _ H1 Hn Hses Hk) as [Hk1|]; [exact (Hold Hk1) | eapply produced_external; done].
  - apply Hold. rewrite <- Ho; [exact Hk|]. intros Hr. apply Hne.
    assert (Hsb : session_of o b = Some ses) by (unfold session_of; rewrite Hn; exact Hses).
    eapply Hd; [exact Hsa | exact Hsb | done..].
Qed.

(** ** What this router originates *)

Definition configured (agg : IPv4Prefix) : Prop := exists c, c ∈ AGGREGATE_ADDRESS cfg /\ agg_prefix c = agg.

(** The keys of what this router originates: the default prefix and the
    configured aggregates, without a path identifier. *)
Definition own_key (k : NlriPath) : Prop := np_pathId k = 0 /\ (np_nlri k = defaultNlri \/ configured (np_nlri k)).

Record own_update (o : Outbound) (addr : IPAddress) (u : Update) : Prop := {
  own_withdrawn : Forall own_key (upd_withdrawn u);
  own_announced : Forall (fun a => Forall own_key a.2) (upd_announcements u);
  own_external : forall n, neighbors o !! addr = Some n -> isEbgp cfg n = true -> Forall (fun a => external_core (cfgs n) a.1) (upd_announcements u)
}.

(** What was originated has such keys and, for an external neighbor, attributes
    fit for it; the aggregates with a state are configured. *)
Record own_ok (o : Outbound) : Prop := {
  own_updates : forall addr u, SendOriginated addr u ∈ log o -> own_update o addr u;
  own_states : forall agg, is_Some (aggregateStates o !! agg) -> configured agg
}.

Definition same_cfgs (o o' : Outbound) : Prop := forall b, cfgs <$> neighbors o' !! b = cfgs <$> neighbors o !! b.

Lemma same_neighbors_cfgs o o' : same_neighbors o o' -> same_cfgs o o'.
Proof.
  intros Hs b. specialize (Hs b). destruct (neighbors o' !! b), (neighbors o !! b); cbn in *; try done. injection Hs as -> _ _. done.
Qed.

Lemma own_update_cfgs o o' addr u : same_cfgs o o' -> own_update o addr u -> own_update o' addr u.
Proof.
  intros Hs [H1 H2 H3]. split; [done..|]. intros n' Hn' Hx. specialize (Hs addr). rewrite Hn' in Hs.
  destruct (neighbors o !! addr) as [n|] eqn:Hn; [|discriminate]. injection Hs as Hc.
  rewrite Hc. apply H3; [done|]. rewrite (isEbgp_cfgs n' n); done.
Qed.

Lemma own_ok_cfgs o o' acts : same_cfgs o o' -> log o' = log o ++ acts -> Forall routed acts ->
  (forall agg, is_Some (aggregateStates o' !! agg) -> is_Some (aggregateStates o !! agg) \/ configured agg) -> own_ok o -> own_ok o'.
Proof.
  intros Hs Hl Hr Ha [H1 H2]. split.
  - intros addr u. rewrite Hl, elem_of_app. intros [Hu|Hu]; [eapply own_update_cfgs, H1; done|].
    rewrite Forall_forall in Hr. by apply Hr in Hu.
  - intros agg [H|H]%Ha; [by apply H2 | exact H].
Qed.

Lemma own_ok_same o o' acts : same_neighbors o o' -> log o' = log o ++ acts -> Forall routed acts ->
  (forall agg, is_Some (aggregateStates o' !! agg) -> is_Some (aggregateStates o !! agg) \/ configured agg) -> own_ok o -> own_ok o'.
Proof. intros Hs. apply own_ok_cfgs, same_neighbors_cfgs, Hs. Qed.

Lemma originate_own addr u o : own_update o addr u -> own_ok o -> own_ok (originate addr u o).
Proof.
  intros Hu [H1 H2]. split; [|exact H2]. intros b v. cbn. rewrite elem_of_app, list_elem_of_singleton. intros [Hv|[= -> ->]].
  - eapply own_update_cfgs, H1; done.
  - eapply own_update_cfgs; [|exact Hu]; done.
Qed.

(** ** Steps that keep the neighbors in agreement *)

(** No established session has the identifier. *)
Definition unused (r : Z) (o : Outbound) : Prop := forall b ses, session_of o b = Some ses -> established ses = true -> peerRid ses <> r.

(** The sessions stay, and so do the agreement of the tables with what was
    told and their fitness for external neighbors. *)
Record kept (o o' : Outbound) : Prop := {
  kept_neighbors : same_neighbors o o';
  kept_mirror : distinct_rids o -> mirror o -> mirror o';
  kept_external : distinct_rids o -> external_ok o -> external_ok o';
  kept_unused : forall r, unused r o -> peerOut r o' = peerOut r o;
  kept_own : own_ok o -> own_ok o'
}.

Lemma unused_same o o' r : same_neighbors o o' -> unused r o -> unused r o'.
Proof. intros Hs Hu b ses. rewrite (same_neighbors_session o o') by done. apply Hu. Qed.

Lemma kept_refl o : kept o o.
Proof. split; done. Qed.

Lemma kept_trans o1 o2 o3 : kept o1 o2 -> kept o2 o3 -> kept o1 o3.
Proof.
  intros [N1 M1 E1 U1 W1] [N2 M2 E2 U2 W2]. split; [eapply same_neighbors_trans; done | | | | by auto].
  - intros Hd Hm. apply M2; [eapply distinct_same; done | by apply M1].
  - intros Hd Hm. apply E2; [eapply distinct_same; done | by apply E1].
  - intros r Hr. rewrite U2; [by apply U1 | eapply unused_same; done].
Qed.

Lemma adjOutFor_kept now h reachable nlri best addr o o' : adjOutFor cfg now h reachable nlri best addr o = Ret o' -> kept o o'.
Proof.
  intros H. pose proof (adjOutFor_same _ _ _ _ _ _ _ _ H) as (Hs & _). pose proof (adjOutFor_turn _ _ _ _ _ _ _ _ _ H) as Ht.
  split; [done | | intros; eapply adjOutFor_external; done | |].
  - intros Hd Hm. destruct Ht as [->|(ses & Hses & He & Ht)]; [done|]. eapply turn_mirror; done.
  - intros r Hr. destruct Ht as [->|(ses & Hses & He & [_ Ho _ _])]; [done|]. apply Ho. intros ->. by apply (Hr addr ses).
  - destruct Ht as [->|(ses & Hses & He & [(acts & Hl & Hf & _) _ _ (Ha & _)])]; [done|].
    apply (own_ok_same _ _ acts); [done..|]. intros agg. rewrite Ha. by left.
Qed.

Lemma recompute_kept now h reachable nlri best o o' : recomputeAdjRibOut cfg now h reachable nlri best o = Ret o' -> kept o o'.
Proof.
  intros H. apply (forEachNeighbor_ind (kept o) _ _) in H; [exact H | | apply kept_refl].
  intros addr o1 o2 H1 Hk. eapply kept_trans; [exact Hk | eapply adjOutFor_kept, H1].
Qed.

(** Changes that tell no neighbor of a route and that leave the tables. *)
Lemma quiet_kept o o' acts :
  log o' = log o ++ acts -> (forall b t, foldl (hear_rib b) t acts = t) -> adjRibOut o' = adjRibOut o -> same_neighbors o o' ->
  (own_ok o -> own_ok o') -> kept o o'.
Proof.
  intros Hl Ha Ho Hs Hw. assert (Hp : forall r, peerOut r o' = peerOut r o) by (intros r; unfold peerOut; rewrite Ho; done).
  split; [done | | | |done].
  - intros _ Hm b ses Hb He. rewrite (same_neighbors_session o o') in Hb by done. rewrite Hl, heard_rib_app, Ha, Hp. by apply Hm.
  - intros _ Hm b n' ses k pa Hn' Hses He Hx Hk. destruct (same_neighbors_lookup _ _ _ _ Hs Hn') as (n & Hn & Hc & Hsn & _).
    rewrite <- Hc. rewrite (isEbgp_cfgs n n') in Hx by done. rewrite Hp in Hk. eapply Hm; [exact Hn | rewrite Hsn; exact Hses | done..].
  - intros r _. apply Hp.
Qed.

Lemma silent_kept o o' : log o' = log o -> adjRibOut o' = adjRibOut o -> aggregateStates o' = aggregateStates o -> same_neighbors o o' -> kept o o'.
Proof.
  intros Hl Ho Ha Hs. apply (quiet_kept _ _ []); [rewrite app_nil_r; done | done..|].
  apply (own_ok_same _ _ []); [done | rewrite app_nil_r; done | constructor|]. intros agg. rewrite Ha. by left.
Qed.

Lemma aggregates_kept o f : (forall agg, is_Some (f (aggregateStates o) !! agg) -> is_Some (aggregateStates o !! agg) \/ configured agg) ->
  kept o (on_aggregates f o).
Proof.
  intros Hf. apply (quiet_kept _ _ []); [cbn; rewrite app_nil_r; done | done..|].
  apply (own_ok_same _ _ []); [done | cbn; rewrite app_nil_r; done | constructor | exact Hf].
Qed.

Lemma emit_kept a o : match a with Opened _ | SendUpdate _ _ | SendOriginated _ _ => False | _ => True end -> kept o (emit a o).
Proof.
  intros Ha. apply (quiet_kept _ _ [a]); [done | intros b t; by destruct a | done | done |].
  apply (own_ok_same _ _ [a]); [done | done | by destruct a; repeat constructor |]. intros agg. by left.
Qed.

(** Originated UPDATEs, whatever they are, change no table. *)
Record originated (o o' : Outbound) : Prop := {
  orig_log : exists acts, log o' = log o ++ acts /\ forall b t, foldl (hear_rib b) t acts = t;
  orig_out : adjRibOut o' = adjRibOut o;
  orig_neighbors : neighbors o' = neighbors o;
  orig_states : aggregateStates o' = aggregateStates o
}.

Lemma originated_refl o : originated o o.
Proof. split; [exists []; rewrite app_nil_r; done | done..]. Qed.

Lemma originated_emit addr u o : originated o (originate addr u o).
Proof. split; [exists [SendOriginated addr u]; done | done..]. Qed.

Lemma originated_trans o1 o2 o3 : originated o1 o2 -> originated o2 o3 -> originated o1 o3.
Proof.
  intros [(a1 & L1 & B1) O1 N1 S1] [(a2 & L2 & B2) O2 N2 S2]. split; [|congruence..].
  exists (a1 ++ a2). rewrite L2, L1, app_assoc. split; [done|]. intros b t. rewrite foldl_app, B1, B2. done.
Qed.

Lemma originated_foldl {A} (f : Outbound -> A -> Outbound) l : (forall o x, originated o (f o x)) -> forall o, originated o (foldl f o l).
Proof. intros Hf. induction l as [|x l IH]; intros o; cbn; [apply originated_refl | eapply originated_trans; [apply Hf | apply IH]]. Qed.

Lemma originated_kept o o' : originated o o' -> (own_ok o -> own_ok o') -> kept o o'.
Proof. intros [(acts & Hl & Hb) Ho Hn Ha] Hw. apply (quiet_kept _ _ acts); [done..| |exact Hw]. intros b. by rewrite Hn. Qed.

Lemma foldl_own {A} (f : Outbound -> A -> Outbound) (l : list A) (P : Outbound -> Prop) :
  (forall o x, x ∈ l -> P o -> own_ok o -> own_ok (f o x) /\ P (f o x)) -> forall o, P o -> own_ok o -> own_ok (foldl f o l).
Proof.
  intros Hf o HP Ho. enough (H : own_ok (foldl f o l) /\ P (foldl f o l)) by apply H. revert o HP Ho.
  induction l as [|x l IH]; intros o HP Ho; cbn; [done|]. destruct (Hf o x) as [H1 H2]; [left | done..|].
  apply IH; [|done..]. intros o' y Hy. apply Hf. by right.
Qed.

Lemma insert_static o addr n n' : neighbors o !! addr = Some n -> nbr_static n' = nbr_static n -> kept o (on_neighbors (insert addr n') o).
Proof. intros Hn Hc. apply silent_kept; [done | done | done | intros b; by apply (neighbors_insert_same o addr n)]. Qed.

Lemma alter_static o addr f : (forall n, nbr_static (f n) = nbr_static n) -> kept o (on_neighbors (alter f addr) o).
Proof.
  intros Hf. apply silent_kept; [done | done | done |]. intros b. cbn [neighbors on_neighbors]. destruct (decide (addr = b)) as [<-|Hne].
  - rewrite lookup_alter_eq. destruct (neighbors o !! addr); cbn; [rewrite Hf|]; done.
  - rewrite lookup_alter_ne by done. done.
Qed.

Lemma foldl_kept {A} (f : Outbound -> A -> Outbound) l : (forall o x, kept o (f o x)) -> forall o, kept o (foldl f o l).
Proof. intros Hf. induction l as [|x l IH]; intros o; cbn; [apply kept_refl | eapply kept_trans; [apply Hf | apply IH]]. Qed.

Lemma own_key_default : own_key (mkNlriPath defaultNlri 0).
Proof. split; [done | by left]. Qed.

Lemma own_key_aggregate agg : configured agg -> own_key (mkNlriPath agg 0).
Proof. intros Ha. split; [done | by right]. Qed.

Lemma defaultPa_external n ses : isEbgp cfg n = true -> external_core (cfgs n) (defaultPa cfg n ses).
Proof. intros Hx. unfold defaultPa. rewrite Hx. split; cbn; [done | by repeat constructor|]. intros _. exists [], []. rewrite app_nil_r. done. Qed.

Lemma aggregatePa_external pa n ses : isEbgp cfg n = true -> external_core (cfgs n) (applyAggregateEgressPolicy cfg pa n ses).
Proof.
  intros Hx. unfold applyAggregateEgressPolicy. rewrite Hx. set (a := set_asPath _ _).
  assert (Ha : forall q, pa_attrs (match localAddress ses with Some l => set_next l (mkPA a q) | None => mkPA a q end) = a) by (by destruct (localAddress ses)).
  destruct (withSegment_front (app (ownAses cfg (cfgs n))) (List.filter (fun s => negb (confedSegment s))
    (asPath (set_reflection None [] (set_localPref None (pa_attrs pa)))))) as (tl & rest & Hw & Hc).
  { apply Forall_forall. intros s Hs. apply list_elem_of_In, filter_In in Hs as [_ Hs]. by apply negb_true_iff. }
  assert (Hp : asPath a = mkSegment BGP_AS_SEQUENCE (ownAses cfg (cfgs n) ++ tl) :: rest) by exact Hw.
  split; rewrite Ha; [done | rewrite Hp; by constructor | intros _; by exists tl, rest].
Qed.

Lemma sendDefaultOriginate_kept addr n ses o : cfgs <$> neighbors o !! addr = Some (cfgs n) -> kept o (sendDefaultOriginate cfg addr n ses o).
Proof.
  intros Hn. unfold sendDefaultOriginate. destruct (_ && _); [|apply kept_refl]. set (u := mkUpd _ _).
  apply (kept_trans _ (originate addr u o)); [|by apply silent_kept]. apply originated_kept; [apply originated_emit|]. apply originate_own. split; cbn; [done | apply Forall_singleton, Forall_singleton, own_key_default|].
  intros n' Hn' Hx. rewrite Hn' in Hn. injection Hn as Hc. rewrite Hc. rewrite (isEbgp_cfgs n n') in Hx by done. apply Forall_singleton. by apply defaultPa_external.
Qed.

Lemma sendAggregateToPeer_own agg st addr n ses o : configured agg -> cfgs <$> neighbors o !! addr = Some (cfgs n) ->
  own_ok o -> own_ok (sendAggregateToPeer cfg agg st addr n ses o).
Proof.
  intros Ha Hn. apply originate_own. split; cbn; [done | by apply Forall_singleton, Forall_singleton, own_key_aggregate|].
  intros n' Hn' Hx. rewrite Hn' in Hn. injection Hn as Hc. rewrite Hc. rewrite (isEbgp_cfgs n n') in Hx by done. apply Forall_singleton. by apply aggregatePa_external.
Qed.

Lemma openPeer_neighbor o addr n ses : openPeer o addr = Some (n, ses) -> neighbors o !! addr = Some n.
Proof.
  unfold openPeer. destruct (neighbors o !! addr) as [m|]; [|done]. cbn. destruct (session m) as [s|]; [|done]. cbn. destruct (_ && _); [|done].
  intros [= -> _]. done.
Qed.

Lemma sendAggregateToAllPeers_originated agg st o : originated o (sendAggregateToAllPeers cfg agg st o).
Proof.
  apply originated_foldl. intros o' addr. destruct (openPeer o' addr) as [[n ses]|]; [|apply originated_refl].
  destruct (ACTIVATE _); [apply originated_emit | apply originated_refl].
Qed.

Lemma sendAggregateToAllPeers_kept agg st o : configured agg -> kept o (sendAggregateToAllPeers cfg agg st o).
Proof.
  intros Ha. apply originated_kept; [apply sendAggregateToAllPeers_originated|].
  apply (foldl_own _ _ (fun _ => True)); [|done]. intros o' addr _ _ Ho. split; [|done].
    destruct (openPeer o' addr) as [[n ses]|] eqn:E; [|exact Ho]. destruct (ACTIVATE _); [|exact Ho].
    apply sendAggregateToPeer_own; [done | apply openPeer_neighbor in E; by rewrite E | done].
Qed.

Lemma withdrawAggregate_originated agg o : originated o (withdrawAggregate agg o).
Proof. apply originated_foldl. intros o' addr. destruct (openPeer o' addr); [apply originated_emit | apply originated_refl]. Qed.

Lemma withdrawAggregate_kept agg o : configured agg -> kept o (withdrawAggregate agg o).
Proof.
  intros Ha. apply originated_kept; [apply withdrawAggregate_originated|].
  apply (foldl_own _ _ (fun _ => True)); [|done]. intros o' addr _ _ Ho. split; [|done]. destruct (openPeer o' addr); [|exact Ho].
  apply originate_own; [|exact Ho]. split; cbn; [by apply Forall_singleton, own_key_aggregate | constructor | constructor].
Qed.

Lemma sendActiveAggregatesToPeer_kept addr n ses o : cfgs <$> neighbors o !! addr = Some (cfgs n) -> kept o (sendActiveAggregatesToPeer cfg addr n ses o).
Proof.
  intros Hn. unfold sendActiveAggregatesToPeer. destruct (_ && _); [|apply kept_refl]. apply originated_kept.
  - apply originated_foldl. intros o' kv. destruct (active _); [apply originated_emit | apply originated_refl].
  - intros Ho. apply (foldl_own _ _ (fun x => neighbors x = neighbors o)); [|done..]. intros o' [agg st] Hin Hx Ho'. cbn [fst snd].
    destruct (active _); [|done]. split; [|exact Hx]. apply sendAggregateToPeer_own; [|by rewrite Hx | exact Ho'].
    apply elem_of_map_to_list in Hin. eapply own_states; [exact Ho | by eexists].
Qed.

(** Announcing again what a table has does not change it. *)
Definition repeats (t : gmap NlriPath PathAttribute) (anns : list (PathAttribute * list NlriPath)) : Prop :=
  Forall (fun a => Forall (fun k => t !! k = Some a.1) a.2) anns.

Lemma announce_again t pa keys : Forall (fun k => t !! k = Some pa) keys -> announce pa keys t = t.
Proof. unfold announce. induction 1 as [|k keys Hk _ IH]; cbn; [done|]. rewrite insert_id by exact Hk. exact IH. Qed.

Lemma repeats_apply t anns : repeats t anns -> apply_update (mkUpd [] anns) t = t.
Proof.
  unfold apply_update. cbn [upd_withdrawn upd_announcements foldr]. induction 1 as [|a anns Ha _ IH]; cbn; [done|].
  rewrite announce_again by exact Ha. exact IH.
Qed.

Lemma groupEntry_repeats t k pa anns : t !! k = Some pa -> repeats t anns -> repeats t (groupEntry k pa anns).
Proof.
  intros Hk. induction 1 as [|[pa' keys] anns Ha Hr IH]; cbn; [by repeat constructor|].
  case_bool_decide as E; [|by constructor]. constructor; [|done]. cbn in *. apply Forall_app. split; [done|]. subst. by constructor.
Qed.

Lemma regroup_repeats t : repeats t (foldl (fun l kv => groupEntry kv.1 kv.2 l) [] (map_to_list t)).
Proof.
  assert (Hg : forall l acc, (forall kv, kv ∈ l -> t !! kv.1 = Some kv.2) -> repeats t acc -> repeats t (foldl (fun l kv => groupEntry kv.1 kv.2 l) acc l)).
  { induction l as [|kv l IH]; intros acc Hl Ha; [done|]. cbn [foldl]. apply IH; [intros kv' H'; apply Hl; by right|].
    apply groupEntry_repeats; [apply Hl; left | exact Ha]. }
  apply Hg; [intros [k pa] H; by apply elem_of_map_to_list in H | constructor].
Qed.

Lemma send_again_kept addr ses anns o : session_of o addr = Some ses -> repeats (peerOut (peerRid ses) o) anns -> kept o (send addr (mkUpd [] anns) o).
Proof.
  intros Hses Hr. split; [done | | done | done | apply (own_ok_same _ _ [SendUpdate addr (mkUpd [] anns)]); [done | done | by repeat constructor | by left]].
  intros _ Hm b sb Hsb Heb. cbn [log send emit]. rewrite heard_rib_app. cbn [foldl hear_rib].
  specialize (Hm b sb Hsb Heb). case_bool_decide as E; [|exact Hm]. subst b. rewrite Hm.
  assert (sb = ses) as -> by (change (session_of o addr = Some sb) in Hsb; congruence). apply repeats_apply, Hr.
Qed.

Lemma originate_all_kept addr n ses o : cfgs <$> neighbors o !! addr = Some (cfgs n) ->
  kept o (sendActiveAggregatesToPeer cfg addr n ses (sendDefaultOriginate cfg addr n ses o)).
Proof.
  intros Hn. eapply kept_trans; [by apply sendDefaultOriginate_kept | apply sendActiveAggregatesToPeer_kept].
  unfold sendDefaultOriginate. by destruct (_ && _).
Qed.

Lemma refreshPeer_kept addr n ses o : neighbors o !! addr = Some n -> session n = Some ses -> kept o (refreshPeer cfg addr n ses o).
Proof.
  intros Hn Hs. unfold refreshPeer. set (o0 := if enhancedRR ses then emit _ o else o).
  assert (H0 : kept o o0 /\ neighbors o0 = neighbors o) by (unfold o0; destruct (enhancedRR ses); (split; [|done]); [by apply emit_kept | apply kept_refl]).
  destruct H0 as [H0 Hn0].
  assert (Hses : session_of o0 addr = Some ses) by (unfold session_of; rewrite Hn0, Hn; exact Hs).
  assert (Hend : forall x, kept x (if enhancedRR ses then emit (SendRouteRefresh addr false) x else x)).
  { intros x. destruct (enhancedRR ses); [by apply emit_kept | apply kept_refl]. }
  clearbody o0. pose proof (regroup_repeats (peerOut (peerRid ses) o0)) as Hr.
  eapply kept_trans; [exact H0|]. eapply kept_trans; [|apply Hend].
  destruct (foldl _ _ _) as [|a anns]; [apply originate_all_kept; by rewrite Hn0, Hn|].
  eapply kept_trans; [eapply send_again_kept; done|]. apply originate_all_kept. cbn. by rewrite Hn0, Hn.
Qed.

(** ** All that a neighbor was sent *)

Lemma announce_other pa keys k : forall t : gmap NlriPath PathAttribute, k ∉ keys -> announce pa keys t !! k = t !! k.
Proof.
  unfold announce. induction keys as [|x keys IH]; intros t Hk; cbn; [done|]. apply not_elem_of_cons in Hk as [Hne Hk].
  rewrite IH by done. rewrite lookup_insert_ne by done. done.
Qed.

Lemma announce_lookup pa keys k : forall t : gmap NlriPath PathAttribute, announce pa keys t !! k = if bool_decide (k ∈ keys) then Some pa else t !! k.
Proof.
  unfold announce. induction keys as [|x keys IH]; intros t; cbn; [done|]. rewrite IH. destruct (decide (k ∈ keys)) as [Hk|Hk].
  - rewrite !bool_decide_true by (done || by right). done.
  - rewrite bool_decide_false by done. destruct (decide (k = x)) as [->|Hne].
    + rewrite lookup_insert_eq, bool_decide_true by left. done.
    + rewrite lookup_insert_ne by done. rewrite bool_decide_false; [done|]. intros [?|?]%elem_of_cons; done.
Qed.

(** For one key, an UPDATE sets the entry or leaves it. *)
Lemma apply_update_cases u k : (exists q, forall t, apply_update u t !! k = q) \/ forall t, apply_update u t !! k = t !! k.
Proof.
  unfold apply_update. induction (upd_announcements u) as [|[pa keys] l IH] using rev_ind; cbn.
  - destruct (decide (k ∈ upd_withdrawn u)) as [Hk|Hk]; [left; exists None | right]; intros t; rewrite foldr_delete_lookup;
      [rewrite bool_decide_true | rewrite bool_decide_false]; done.
  - destruct (decide (k ∈ keys)) as [Hk|Hk].
    + left. exists (Some pa). intros t. rewrite foldl_app. cbn [foldl fst snd]. rewrite announce_lookup, bool_decide_true; done.
    + destruct IH as [[q Hq]|Hq]; [left; exists q | right]; intros t; rewrite foldl_app; cbn [foldl fst snd]; rewrite announce_lookup, bool_decide_false by done; apply Hq.
Qed.

Lemma apply_update_other o addr u t k : own_update o addr u -> ~ own_key k -> apply_update u t !! k = t !! k.
Proof.
  intros [H1 H2 _] Hk. unfold apply_update.
  assert (H0 : foldr delete t (upd_withdrawn u) !! k = t !! k).
  { rewrite foldr_delete_lookup, bool_decide_false; [done|]. intros Hin. rewrite Forall_forall in H1. by apply Hk, H1. }
  rewrite <- H0. generalize (foldr delete t (upd_withdrawn u)). induction H2 as [|a l Ha _ IH]; intros x; cbn; [done|].
  rewrite IH. apply announce_other. intros Hin. rewrite Forall_forall in Ha. by apply Hk, Ha.
Qed.

Lemma apply_update_entry u t k pa : apply_update u t !! k = Some pa -> t !! k = Some pa \/ exists keys, (pa, keys) ∈ upd_announcements u.
Proof.
  unfold apply_update. induction (upd_announcements u) as [|[q keys] l IH] using rev_ind; cbn.
  - rewrite foldr_delete_lookup. case_bool_decide; [done | by left].
  - rewrite foldl_app. cbn [foldl fst snd]. rewrite announce_lookup. case_bool_decide.
    + intros [= ->]. right. exists keys. rewrite elem_of_app. right. left.
    + intros [|(ks & Hk)]%IH; [by left|]. right. exists ks. rewrite elem_of_app. by left.
Qed.

(** Outside the keys of this router's own routes, a neighbor knows what it was
    told of the routes of Loc-RIB. *)
Lemma heard_others o addr l k : (forall u, SendOriginated addr u ∈ l -> own_update o addr u) -> ~ own_key k ->
  heard addr l !! k = heard_rib addr l !! k.
Proof.
  intros Hl Hk. unfold heard, heard_rib. induction l as [|a l IH] using rev_ind; [done|]. rewrite !foldl_app. cbn [foldl].
  assert (IH' : foldl (hear addr) ∅ l !! k = foldl (hear_rib addr) ∅ l !! k) by (apply IH; intros u Hu; apply Hl, elem_of_app; by left).
  destruct a as [b|b u|b u|? ?|?|?|?|?]; cbn [hear hear_rib]; try exact IH'; case_bool_decide as E; try done; subst b.
  - destruct (apply_update_cases u k) as [[q Hq]|Hq]; rewrite !Hq; done.
  - rewrite (apply_update_other o addr) by (done || apply Hl, elem_of_app; right; left). exact IH'.
Qed.

(** What a neighbor knows comes from the routes of Loc-RIB or was originated. *)
Lemma heard_entry addr l k pa : heard addr l !! k = Some pa ->
  heard_rib addr l !! k = Some pa \/ exists u keys, SendOriginated addr u ∈ l /\ (pa, keys) ∈ upd_announcements u.
Proof.
  unfold heard, heard_rib. revert pa. induction l as [|a l IH] using rev_ind; intros pa; [by left|]. rewrite !foldl_app. cbn [foldl].
  assert (Hl : forall pa, foldl (hear addr) ∅ l !! k = Some pa -> foldl (hear_rib addr) ∅ l !! k = Some pa \/
    exists u keys, SendOriginated addr u ∈ l ++ [a] /\ (pa, keys) ∈ upd_announcements u).
  { intros q [|(u & keys & Hu & Hk)]%IH; [by left|]. right. exists u, keys. rewrite elem_of_app. split; [by left | done]. }
  destruct a as [b|b u|b u|? ?|?|?|?|?]; cbn [hear hear_rib]; try apply Hl; case_bool_decide as E; try apply Hl; subst; [done| |].
  - destruct (apply_update_cases u k) as [[q Hq]|Hq]; rewrite !Hq; [by left | apply Hl].
  - intros [|(keys & Hk)]%apply_update_entry; [by apply Hl|]. right. exists u, keys. rewrite elem_of_app. split; [right; left | done].
Qed.

(** ** What is passed on between internal neighbors *)

(** The announcements of one turn come from an eligible best route. *)
Lemma adjOutFor_announces now h reachable nlri best addr o o' acts u :
  adjOutFor cfg now h reachable nlri best addr o = Ret o' -> log o' = log o ++ acts -> SendUpdate addr u ∈ acts -> upd_announcements u <> [] ->
  exists lr r n (reflecting : bool), best = Some lr /\ deref h (route lr) = Ret r /\ neighbors o !! addr = Some n /\ ACTIVATE (cfgs n) = true /\
    splitHorizon cfg r addr n o = Ret (Some reflecting).
Proof.
  unfold adjOutFor. intros H Hl Hu Ha. destruct (neighbors o !! addr) as [n|] eqn:Hn.
  2:{ injection H as <-. rewrite <- (app_nil_r (log o)) in Hl at 1. apply app_inv_head in Hl as <-. by apply elem_of_nil in Hu. }
  assert (Hquiet : forall l, log o' = log o ++ l -> Forall (fun a => match a with SendUpdate _ u => upd_announcements u = [] | _ => True end) l -> False).
  { intros l Hl' Hf. rewrite Hl in Hl'. apply app_inv_head in Hl' as ->. rewrite Forall_forall in Hf. exact (Ha (Hf _ Hu)). }
  assert (Hsame : o' = o -> False) by (intros ->; apply (Hquiet []); [rewrite app_nil_r; done | constructor]).
  assert (Hdefer : forall r e x, log (defer r nlri e x) = log x \/ log (defer r nlri e x) = log x ++ [PostAfter e]).
  { intros r e x. unfold defer. destruct (timer _); [by left | by right]. }
  assert (Hwd : forall r x, log (withdrawFromPeer addr r nlri x) = log x \/ exists w, log (withdrawFromPeer addr r nlri x) = log x ++ [SendUpdate addr (mkUpd w [])]).
  { intros r x. unfold withdrawFromPeer. destruct (_.*1) as [|k w]; [by left|]. right. exists (k :: w). done. }
  destruct (session n) as [ses|]; [|injection H as <-; by destruct Hsame].
  destruct (established ses); cbn [negb] in H; [|injection H as <-; by destruct Hsame].
  assert (Hwd' : o' = withdrawFromPeer addr (peerRid ses) nlri o -> False).
  { intros ->. destruct (Hwd (peerRid ses) o) as [E|[w E]]; [apply (Hquiet []); [rewrite app_nil_r; exact E | constructor] | apply (Hquiet _ E)].
    constructor; [done | constructor]. }
  destruct best as [lr|]; [|injection H as <-; by destruct Hwd'].
  apply outcome_bind_ret_inv in H as (r & Hd & H). destruct (suppressInactive _ _ _); [injection H as <-; by destruct Hwd'|].
  apply outcome_bind_ret_inv in H as (gate & Hg & H).
  assert (Hlog : log (match gate with inl o1 | inr o1 => o1 end) = log o \/ exists e, log (match gate with inl o1 | inr o1 => o1 end) = log o ++ [PostAfter e]).
  { destruct (_ =? _); [injection Hg as <-; by left|]. unfold mraiGate in Hg.
    destruct (_ && _); [injection Hg as <-; destruct (Hdefer (peerRid ses) (lastSent (mraiOf (peerRid ses) o) + seconds (ADVERTISE_INTERVAL (cfgs n))) o); [by left | right; eexists; done]|].
    unfold slowGate in Hg. apply outcome_bind_ret_inv in Hg as ((bl & o1) & H1 & Hg). injection Hg as <-.
    assert (Hlo : log o1 = log o) by (revert H1; repeat case_match; try discriminate; intros [= <- <-]; done).
    destruct (_ || _); [|by left]. rewrite <- Hlo.
    edestruct Hdefer as [E|E]; [left; exact E | right; eexists; exact E]. }
  destruct gate as [o1|o1].
  { injection H as <-. exfalso. destruct Hlog as [E|[e E]]; [apply (Hquiet []); [rewrite app_nil_r; exact E | constructor] | apply (Hquiet _ E)].
    constructor; [done | constructor]. }
  apply outcome_bind_ret_inv in H as (v & Hv & H). destruct v as [reflecting|].
  2:{ injection H as <-. exfalso. destruct (Hwd (peerRid ses) o1) as [E|[w E]]; destruct Hlog as [E1|[e E1]]; rewrite E1 in E.
      - apply (Hquiet []); [rewrite app_nil_r; exact E | constructor].
      - apply (Hquiet _ E). constructor; [done | constructor].
      - apply (Hquiet _ E). constructor; [done | constructor].
      - rewrite <- app_assoc in E. apply (Hquiet _ E). constructor; [done|]. constructor; [done | constructor]. }
  apply eligible_inv in Hv as (_ & Hact & Hsh). exists lr, r, n, reflecting. split; [done|]. split; [done|]. split; [done|]. split; [done|].
  revert Hsh. unfold splitHorizon. destruct (sourceNeighbor (rn_base r)) as [src|]; [|done].
  assert (Hcl : (ROUTE_REFLECTOR_CLIENT ∘ cfgs) <$> neighbors o1 !! neighborAddress src = (ROUTE_REFLECTOR_CLIENT ∘ cfgs) <$> neighbors o !! neighborAddress src).
  { pose proof (turn_gate _ _ _ _ _ _ _ _ Hn eq_refl Hg) as [_ _ Hs _]. specialize (Hs (neighborAddress src)).
    destruct (neighbors o1 !! neighborAddress src), (neighbors o !! neighborAddress src); cbn in *; try done. injection Hs as E _ _. rewrite E. done. }
  destruct (_ && _); [|done].
  destruct (neighbors o1 !! neighborAddress src) as [f1|], (neighbors o !! neighborAddress src) as [f|]; cbn in Hcl; try discriminate.
  injection Hcl as ->. done.
Qed.
End Announced.
