(* ===== verification/BgpAf.v ===== *)
(** * BgpAf: the routes of an address family

    The inbound half of routing/bgp/af/AddressFamilyInstance.h: what UPDATEs,
    sessions and timers do to Adj-RIB-In and Loc-RIB, and what follows for the
    global RIB and, through [BgpEgress], for the neighbors. Routes are objects
    with an address: Adj-RIB-In owns them, Loc-RIB refers to them, and a read
    through a reference to a destroyed one is undefined. *)

From S2P Require Import Prelude IPAddress BgpUpdate AttributeManager BestPath BgpDampening BgpEgress.
From Stdlib Require Import Sorting.Permutation.

(** [routing/bgp/rib/RibTypes.hpp:258-264] SoftPreEntry *)
Record SoftPreEntry := mkSoftPre { sp_pa : PathAttribute; sp_peerAs : Z; sp_ebgp : bool; sp_confedEbgp : bool }.

(** [routing/bgp/rib/RibTypes.hpp:123-128] ParsedUpdate *)
Record ParsedUpdate := mkParsed { pu_withdrawn : list NlriPath; pu_announcements : list NlriPath; pu_attrs : option PathAttribute }.

(** [routing/bgp/af/AddressFamilyInstance.h:2365-2372] NhtEntry *)
Record NhtEntry := mkNht { nht_reachable : bool; nht_nlris : gset IPv4Prefix }.

(** [routing/bgp/af/AddressFamilyInstance.h:2942-2978] AddressFamilyInstance, with the live route objects, the index of the
    neighbors by identifier, and the attribute sets whose references are never
    given back *)
Record AfState := mkAf {
  heap : Heap;
  preAdjRibIn : gmap Z (gmap NlriPath SoftPreEntry);
  adjRibIn : gmap Z (gmap NlriPath nat);
  locRib : gmap IPv4Prefix LocalRoute;
  networkLocalRoutes : gmap IPv4Prefix nat;
  nhtTable : gmap IPAddress NhtEntry;
  nlriToNextHop : gmap IPv4Prefix IPAddress;
  pendingNhtRecompute : gset IPv4Prefix;
  nhtTimer : bool;
  staleTimers : gmap Z (bool * bool);
  stalePeerNlris : gmap Z (gset IPv4Prefix);
  aggregateTimer : bool;
  peers : gmap Z IPAddress;
  leaked : list PathAttribute;
  dampenTable : gmap IPv4Prefix DampenState;
  dampenReuseTimer : bool;
  out : Outbound
}.

Definition on_heap f (s : AfState) := mkAf (f (heap s)) (preAdjRibIn s) (adjRibIn s) (locRib s) (networkLocalRoutes s) (nhtTable s) (nlriToNextHop s) (pendingNhtRecompute s) (nhtTimer s) (staleTimers s) (stalePeerNlris s) (aggregateTimer s) (peers s) (leaked s) (dampenTable s) (dampenReuseTimer s) (out s).
Definition on_pre f (s : AfState) := mkAf (heap s) (f (preAdjRibIn s)) (adjRibIn s) (locRib s) (networkLocalRoutes s) (nhtTable s) (nlriToNextHop s) (pendingNhtRecompute s) (nhtTimer s) (staleTimers s) (stalePeerNlris s) (aggregateTimer s) (peers s) (leaked s) (dampenTable s) (dampenReuseTimer s) (out s).
Definition on_in f (s : AfState) := mkAf (heap s) (preAdjRibIn s) (f (adjRibIn s)) (locRib s) (networkLocalRoutes s) (nhtTable s) (nlriToNextHop s) (pendingNhtRecompute s) (nhtTimer s) (staleTimers s) (stalePeerNlris s) (aggregateTimer s) (peers s) (leaked s) (dampenTable s) (dampenReuseTimer s) (out s).
Definition on_loc f (s : AfState) := mkAf (heap s) (preAdjRibIn s) (adjRibIn s) (f (locRib s)) (networkLocalRoutes s) (nhtTable s) (nlriToNextHop s) (pendingNhtRecompute s) (nhtTimer s) (staleTimers s) (stalePeerNlris s) (aggregateTimer s) (peers s) (leaked s) (dampenTable s) (dampenReuseTimer s) (out s).
Definition on_network f (s : AfState) := mkAf (heap s) (preAdjRibIn s) (adjRibIn s) (locRib s) (f (networkLocalRoutes s)) (nhtTable s) (nlriToNextHop s) (pendingNhtRecompute s) (nhtTimer s) (staleTimers s) (stalePeerNlris s) (aggregateTimer s) (peers s) (leaked s) (dampenTable s) (dampenReuseTimer s) (out s).
Definition set_nht t m p (s : AfState) := mkAf (heap s) (preAdjRibIn s) (adjRibIn s) (locRib s) (networkLocalRoutes s) t m p (nhtTimer s) (staleTimers s) (stalePeerNlris s) (aggregateTimer s) (peers s) (leaked s) (dampenTable s) (dampenReuseTimer s) (out s).
Definition set_nhtTimer b (s : AfState) := mkAf (heap s) (preAdjRibIn s) (adjRibIn s) (locRib s) (networkLocalRoutes s) (nhtTable s) (nlriToNextHop s) (pendingNhtRecompute s) b (staleTimers s) (stalePeerNlris s) (aggregateTimer s) (peers s) (leaked s) (dampenTable s) (dampenReuseTimer s) (out s).
Definition on_stale f g (s : AfState) := mkAf (heap s) (preAdjRibIn s) (adjRibIn s) (locRib s) (networkLocalRoutes s) (nhtTable s) (nlriToNextHop s) (pendingNhtRecompute s) (nhtTimer s) (f (staleTimers s)) (g (stalePeerNlris s)) (aggregateTimer s) (peers s) (leaked s) (dampenTable s) (dampenReuseTimer s) (out s).
Definition set_aggregateTimer b (s : AfState) := mkAf (heap s) (preAdjRibIn s) (adjRibIn s) (locRib s) (networkLocalRoutes s) (nhtTable s) (nlriToNextHop s) (pendingNhtRecompute s) (nhtTimer s) (staleTimers s) (stalePeerNlris s) b (peers s) (leaked s) (dampenTable s) (dampenReuseTimer s) (out s).
Definition on_peers f (s : AfState) := mkAf (heap s) (preAdjRibIn s) (adjRibIn s) (locRib s) (networkLocalRoutes s) (nhtTable s) (nlriToNextHop s) (pendingNhtRecompute s) (nhtTimer s) (staleTimers s) (stalePeerNlris s) (aggregateTimer s) (f (peers s)) (leaked s) (dampenTable s) (dampenReuseTimer s) (out s).
Definition leak pa (s : AfState) := mkAf (heap s) (preAdjRibIn s) (adjRibIn s) (locRib s) (networkLocalRoutes s) (nhtTable s) (nlriToNextHop s) (pendingNhtRecompute s) (nhtTimer s) (staleTimers s) (stalePeerNlris s) (aggregateTimer s) (peers s) (pa :: leaked s) (dampenTable s) (dampenReuseTimer s) (out s).
Definition on_dampen f (s : AfState) := mkAf (heap s) (preAdjRibIn s) (adjRibIn s) (locRib s) (networkLocalRoutes s) (nhtTable s) (nlriToNextHop s) (pendingNhtRecompute s) (nhtTimer s) (staleTimers s) (stalePeerNlris s) (aggregateTimer s) (peers s) (leaked s) (f (dampenTable s)) (dampenReuseTimer s) (out s).
Definition set_dampenTimer b (s : AfState) := mkAf (heap s) (preAdjRibIn s) (adjRibIn s) (locRib s) (networkLocalRoutes s) (nhtTable s) (nlriToNextHop s) (pendingNhtRecompute s) (nhtTimer s) (staleTimers s) (stalePeerNlris s) (aggregateTimer s) (peers s) (leaked s) (dampenTable s) b (out s).
Definition on_outbound f (s : AfState) := mkAf (heap s) (preAdjRibIn s) (adjRibIn s) (locRib s) (networkLocalRoutes s) (nhtTable s) (nlriToNextHop s) (pendingNhtRecompute s) (nhtTimer s) (staleTimers s) (stalePeerNlris s) (aggregateTimer s) (peers s) (leaked s) (dampenTable s) (dampenReuseTimer s) (f (out s)).

Definition act (a : Action) (s : AfState) : AfState := on_outbound (emit a) s.
Definition run_out (f : Outbound -> outcome Outbound) (s : AfState) : outcome AfState := o ← f (out s); Ret (on_outbound (fun _ => o) s).

Definition peerIn (r : Z) (s : AfState) : gmap NlriPath nat := default ∅ (adjRibIn s !! r).

Section Af.
(** The configuration; the metric of a next hop, which the process supplies;
    where the next route object is placed; the order in which the hash tables
    list their routes. *)
Context (cfg : BgpConfig) (resolveIgpMetric : IPAddress -> Z) (alloc : Heap -> nat) (order : list nat -> list nat).

(** ** Ingress policy *)

Definition countAs (f : AsPathSegment -> Z -> Z) (p : list AsPathSegment) : Z :=
  fold_left (fun n s => fold_left (fun n a => n + f s a) (asns s) n) p 0.

(** [routing/bgp/af/AddressFamilyInstance.h:1054-1059] applyIngressPolicy, an AS number counted as this router's: once as
    its own, once more as the confederation's *)
Definition ownAsWeight (s : AsPathSegment) (a : Z) : Z :=
  (if a =? asNumber cfg then 1 else 0) +
  (if negb (getConfedId cfg =? asNumber cfg) && (a =? getConfedId cfg) && ((segmentType s =? BGP_AS_SEQUENCE) || (segmentType s =? BGP_AS_SET)) then 1 else 0).

(** [routing/bgp/af/AddressFamilyInstance.h:1060-1061] applyIngressPolicy, the local AS of the neighbor *)
Definition localAsWeight (c : NbrConfig) (_ : AsPathSegment) (a : Z) : Z :=
  if LOCAL_AS c && negb (LOCAL_AS_DUAL_AS c) && (match LOCAL_AS_AS c with Some l => a =? l | None => false end) then 1 else 0.

(** [routing/bgp/af/AddressFamilyInstance.h:1028-1071] applyIngressPolicy, AS path loops *)
Definition asLoop (c : NbrConfig) (p : list AsPathSegment) : bool :=
  let maxOccurrences := if ALLOWAS_IN c then default 1 (ALLOWAS_IN_OCCURANCES c) else 1 in
  let own := countAs ownAsWeight p in
  (negb (ALLOWAS_IN c) && (0 <? own)) || (ALLOWAS_IN c && (maxOccurrences <? own)) || (0 <? countAs (localAsWeight c) p).

Definition exceeds (limit : option Z) (n : Z) : bool := match limit with Some m => m <? n | None => false end.

(** [routing/bgp/af/AddressFamilyInstance.h:1007-1105] applyIngressPolicy: whether the route is dropped *)
Definition applyIngressPolicy (r : InboundRoute) (c : NbrConfig) : bool :=
  let a := attrs r in
  (negb (ebgp r) && negb (confedEbgp r) &&
     (bool_decide (originatorId a = Some (routerRid cfg)) || existsb (Z.eqb (getClusterId cfg)) (clusterList a))) ||
  asLoop c (asPath a) ||
  (ebgp r && BGP_ENFORCE_FIRST_AS cfg && negb (firstAs a =? 0) && negb (firstAs a =? peerAs r)) ||
  exceeds (BGP_MAX_AS_LIMIT cfg) (asPathLength a) ||
  exceeds (BGP_MAX_COMMUNITY_LIMIT cfg) (Z.of_nat (length (communities a))) ||
  exceeds (BGP_MAX_EXT_COMMUNITY_LIMIT cfg) (Z.of_nat (length (extendedCommunities a))).

(** ** Selection *)

(** The routes for a prefix in the tables of the peers, and that of this
    router. *)
Definition tableRoutes (nlri : IPv4Prefix) (s : AfState) : list nat :=
  kv ← map_to_list (adjRibIn s); (filter (fun e => np_nlri e.1 = nlri) (map_to_list kv.2)).*2.
Definition localRoute (nlri : IPv4Prefix) (s : AfState) : list nat := option_list (networkLocalRoutes s !! nlri).
Definition candidates (nlri : IPv4Prefix) (s : AfState) : list nat := order (tableRoutes nlri s) ++ localRoute nlri s.

Definition set_igpCost (v : Z) (r : InboundRoute) : InboundRoute :=
  mkInboundRoute (attrs r) (sourceNeighbor r) (weigth r) (peerAs r) (ebgp r) (confedEbgp r) v (receivedTime r).

(** [routing/bgp/af/AddressFamilyInstance.h:727-731] recomputeNlri, the metric of a candidate is read again *)
Definition refresh (r : RouteNode) : RouteNode :=
  mkNode (set_igpCost (resolveIgpMetric (nextHop (rn_path r))) (rn_base r)) (rn_path r) (rn_nlri r).

(** The members of a route the decision process reads, by address. *)
Definition view (h : Heap) (p : nat) : InboundRoute :=
  match h !! p with Some r => rn_base r | None => InboundRoute_new Attributes_new None 0 end.

(** [routing/bgp/af/AddressFamilyInstance.h:759-773] recomputeNlri, the group of a candidate *)
Definition groupAs (r : InboundRoute) : Z :=
  match sourceNeighbor r with
  | None => 0
  | Some _ => if ebgp r then (if negb (firstAs (attrs r) =? 0) then firstAs (attrs r) else peerAs r) else peerAs r
  end.

Definition best_ptr (h : Heap) : nat -> nat -> bool := better_ptr (BGP_ALWAYS_COMPARE_MED cfg) (routerRid cfg) (BGP_BEST_PATH cfg) (view h).

(** [routing/bgp/af/AddressFamilyInstance.h:775-777] recomputeNlri, the best of a group so far *)
Fixpoint groupInsert (h : Heap) (g : Z) (r : nat) (groups : list (Z * nat)) : list (Z * nat) :=
  match groups with
  | [] => [(g, r)]
  | (g', b) :: groups => if g' =? g then (g', if best_ptr h r b then r else b) :: groups else (g', b) :: groupInsert h g r groups
  end.

(** [routing/bgp/af/AddressFamilyInstance.h:748-783] recomputeNlri, deterministic MED *)
Definition deterministicMed (h : Heap) (cands : list nat) : list nat :=
  if BGP_DETERMINISTIC_MED cfg
  then order (fold_left (fun groups r => groupInsert h (groupAs (view h r)) r groups) cands []).*2
  else cands.

(** [routing/bgp/af/AddressFamilyInstance.h:804-810] recomputeNlri, the paths that can be announced besides the best *)
Definition pathPool (h : Heap) (cands : list nat) (best : LocalRoute) : list nat :=
  List.filter (fun r => negb (Nat.eqb r (route best)) && negb (bool_decide (r ∈ multipaths best)))
    (rankCandidates (BGP_ALWAYS_COMPARE_MED cfg) (routerRid cfg) (BGP_BEST_PATH cfg) (view h) cands).

(** [routing/bgp/af/AddressFamilyInstance.h:792-851] recomputeNlri, the additional paths of the best route *)
Definition additional (h : Heap) (cands : list nat) (best : LocalRoute) : outcome (list nat) :=
  let selectBest := match ADVERTISE_BEST cfg with Some _ => true | None => false end in
  if ADVERTISE_ALL cfg || SELECT_BACKUP cfg || selectBest || SELECT_BEST_EXTERNAL cfg || ADVERTISE_GROUP_BEST cfg then
    let pool := pathPool h cands best in
    if ADVERTISE_ALL cfg then Ret pool
    else
      let paths := match ADVERTISE_BEST cfg with Some n => addBest n 0 pool [] | None => [] end in
      let paths := match pool with b :: _ => if SELECT_BACKUP cfg then tryAdd 0 b paths else paths | [] => paths end in
      paths ← (if SELECT_BEST_EXTERNAL cfg then addExternal h 0 pool paths else Ret paths);
      if ADVERTISE_GROUP_BEST cfg then
        seen ← mapM (deref h) (route best :: multipaths best);
        addGroups h 0 (map (fun x => peerAs (rn_base x)) seen) pool paths
      else Ret paths
  else Ret [].

(** [routing/bgp/af/AddressFamilyInstance.h:717-851] recomputeNlri, the selection *)
Definition selectRoute (h : Heap) (cands : list nat) : outcome (option LocalRoute) :=
  _ ← mapM (deref h) cands;
  let cands := deterministicMed h cands in
  match selectBest (BGP_ALWAYS_COMPARE_MED cfg) (routerRid cfg) (BGP_BEST_PATH cfg) (view h) cands (MAXIMUM_PATHS_EBGP cfg) (MAXIMUM_PATHS_IBGP cfg) with
  | None => Ret None
  | Some lr => extra ← additional h cands lr; Ret (Some (mkLocalRoute (route lr) (multipaths lr) extra))
  end.

(** ** Next hops and the global RIB *)

(** [routing/bgp/af/AddressFamilyInstance.h:2413-2435] registerNht *)
Definition registerNht (nlri : IPv4Prefix) (nh : IPAddress) (s : AfState) : AfState :=
  if negb (BGP_NEXT_HOP_TRACKING cfg) then s
  else
    let e := default (mkNht true ∅) (nhtTable s !! nh) in
    set_nht (<[nh := mkNht (nht_reachable e) (nht_nlris e ∪ {[nlri]})]> (nhtTable s)) (<[nlri := nh]> (nlriToNextHop s)) (pendingNhtRecompute s) s.

(** [routing/bgp/af/AddressFamilyInstance.h:2446-2470] unregisterNht *)
Definition unregisterNht (nlri : IPv4Prefix) (s : AfState) : AfState :=
  match nlriToNextHop s !! nlri with
  | None => s
  | Some nh =>
      let m := delete nlri (nlriToNextHop s) in
      match nhtTable s !! nh with
      | None => set_nht (nhtTable s) m (pendingNhtRecompute s) s
      | Some e =>
          let l := nht_nlris e ∖ {[nlri]} in
          set_nht (if bool_decide (l = ∅) then delete nh (nhtTable s) else <[nh := mkNht (nht_reachable e) l]> (nhtTable s)) m (pendingNhtRecompute s) s
      end
  end.

Definition reachability (s : AfState) (nh : IPAddress) : option bool := nht_reachable <$> nhtTable s !! nh.

(** [routing/bgp/af/AddressFamilyInstance.h:2540-2549] computeAdminDistance, an entry of a distance range *)
Definition rangeMatch (n : IPPrefix) (len : Z) (pfx : IPPrefix) : outcome bool :=
  if IPPrefix_eq pfx n then Ret true else if p_len pfx <=? len then IPPrefix_contains pfx n else Ret false.

Fixpoint anyMatch (n : IPPrefix) (len : Z) (l : list IPPrefix) : outcome bool :=
  match l with [] => Ret false | pfx :: l => b ← rangeMatch n len pfx; if b : bool then Ret true else anyMatch n len l end.

Fixpoint distanceRange (n : IPPrefix) (len : Z) (l : list (Z * list IPPrefix)) (dist : Z) : outcome Z :=
  match l with [] => Ret dist | (d, pfxs) :: l => b ← anyMatch n len pfxs; if b : bool then Ret d else distanceRange n len l dist end.

(** [routing/bgp/af/AddressFamilyInstance.h:2503-2555] computeAdminDistance, for IPv4 unicast *)
Definition computeAdminDistance (r : InboundRoute) (nlri : IPv4Prefix) : outcome Z :=
  let dist := match sourceNeighbor r with
              | None => DISTANCE_LOCAL cfg
              | Some _ => if ebgp r then DISTANCE_EXTERNAL cfg else DISTANCE_INTERNAL cfg
              end in
  match DISTANCE_RANGE cfg with
  | [] => Ret dist
  | l => n ← IPPrefix_u32 (p4_addr nlri) (p4_len nlri) false; distanceRange n (p4_len nlri) l dist
  end.

(** [routing/bgp/af/AddressFamilyInstance.h:2569-2597] buildInstall: prefix, attributes, metric, distance *)
Definition buildInstall (r : RouteNode) : outcome (IPv4Prefix * PathAttribute * Z * Z) :=
  distance ← computeAdminDistance (rn_base r) (rn_nlri r);
  let metric := match med (attrs (rn_base r)) with
                | Some m => m
                | None => match sourceNeighbor (rn_base r) with None => default 0 (DEFAULT_METRIC cfg) | Some _ => 0 end
                end in
  Ret (rn_nlri r, node_pa r, metric, distance).

(** [routing/bgp/af/AddressFamilyInstance.h:948-957] installToRib, for the route a recomputation installs *)
Definition installToRib (lr : LocalRoute) (s : AfState) : outcome AfState :=
  r ← deref (heap s) (route lr);
  install ← buildInstall r;
  Ret (registerNht (rn_nlri r) (nextHop (rn_path r)) (act (InstallRoutes [install]) s)).

(** [routing/bgp/af/AddressFamilyInstance.h:967-971] withdrawFromRib *)
Definition withdrawFromRib (nlri : IPv4Prefix) (s : AfState) : AfState := act (WithdrawRoute nlri) (unregisterNht nlri s).

(** [routing/bgp/af/AddressFamilyInstance.h:1985-1993] scheduleAggregateRecompute *)
Definition scheduleAggregateRecompute (now : Z) (s : AfState) : AfState :=
  if aggregateTimer s then s else set_aggregateTimer true (act (PostAfter (now + seconds (BGP_AGGREGATE_TIMER cfg))) s).

Definition adjOut (now : Z) (nlri : IPv4Prefix) (best : option LocalRoute) (s : AfState) : outcome AfState :=
  run_out (recomputeAdjRibOut cfg now (heap s) (reachability s) nlri best) s.

(** [routing/bgp/af/AddressFamilyInstance.h:2288-2295] startDampenReuseTimer *)
Definition startDampenReuseTimer (now : Z) (s : AfState) : AfState :=
  if dampenReuseTimer s then s else set_dampenTimer true (act (PostAfter (now + seconds 5)) s).

(** [routing/bgp/af/AddressFamilyInstance.h:856-893] recomputeNlri, dampening, for a prefix that has a best route or not and
    had a Loc-RIB entry or not; [true]: the route is held back *)
Definition dampen (now : Z) (nlri : IPv4Prefix) (reachable had : bool) (s : AfState) : outcome (AfState * bool) :=
  if negb (BGP_DAMPENING (DAMPENING cfg)) then Ret (s, false)
  else
    params ← getDampenParams (DAMPENING cfg);
    let state := default DampenState_new (dampenTable s !! nlri) in
    let store st := on_dampen (insert nlri st) s in
    if negb reachable && had then
      let state := onWithdraw (cmath (DAMPENING cfg)) params now state in
      Ret (if suppressed state then startDampenReuseTimer now (store state) else store state, false)
    else if reachable && negb had then
      if pendingReuse state then Ret (store (set_pendingReuse false state), false)
      else
        let state := onAnnounce (cmath (DAMPENING cfg)) params now state in
        if suppressed state then Ret (startDampenReuseTimer now (store state), true) else Ret (store state, false)
    else Ret (store state, false).

(** [routing/bgp/af/AddressFamilyInstance.h:895-920] recomputeNlri, the Loc-RIB and what follows *)
Definition updateLocRib (now : Z) (nlri : IPv4Prefix) (best : option LocalRoute) (s : AfState) : outcome AfState :=
  match best with
  | None =>
      match locRib s !! nlri with
      | None => Ret s
      | Some _ =>
          s ← adjOut now nlri None (on_loc (delete nlri) (withdrawFromRib nlri s));
          Ret (scheduleAggregateRecompute now s)
      end
  | Some lr =>
      let bestChanged := match locRib s !! nlri with None => true | Some old => negb (Nat.eqb (route old) (route lr)) end in
      s ← adjOut now nlri (Some lr) (on_loc (insert nlri lr) s);
      let s := scheduleAggregateRecompute now s in
      if bestChanged then installToRib lr s else Ret s
  end.

(** [routing/bgp/af/AddressFamilyInstance.h:712-921] recomputeNlri, for one prefix, as it is always called *)
Definition recomputeNlri (now : Z) (nlri : IPv4Prefix) (s : AfState) : outcome AfState :=
  let s := on_heap (fun h => foldr (alter refresh) h (tableRoutes nlri s)) s in
  best ← selectRoute (heap s) (candidates nlri s);
  '(s, hold) ← dampen now nlri (bool_decide (best <> None)) (bool_decide (is_Some (locRib s !! nlri))) s;
  if hold : bool then Ret s else updateLocRib now nlri best s.

Fixpoint recomputeAll (now : Z) (l : list IPv4Prefix) (s : AfState) : outcome AfState :=
  match l with [] => Ret s | n :: l => s ← recomputeNlri now n s; recomputeAll now l s end.

(** ** UPDATEs *)

(** A Loc-RIB entry that refers to a route about to be destroyed goes first. *)
Definition dropBest (nlri : IPv4Prefix) (p : nat) (s : AfState) : AfState :=
  match locRib s !! nlri with Some lr => if Nat.eqb (route lr) p then on_loc (delete nlri) s else s | None => s end.

(** [routing/bgp/af/AddressFamilyInstance.h:566-573] onParsedUpdateFromPeer, an entry of Adj-RIB-In is erased *)
Definition eraseIn (r : Z) (k : NlriPath) (s : AfState) : AfState :=
  match peerIn r s !! k with
  | Some p => on_heap (delete p) (on_in (insert r (delete k (peerIn r s))) (dropBest (np_nlri k) p s))
  | None => s
  end.

(** [routing/bgp/af/AddressFamilyInstance.h:580-585] onParsedUpdateFromPeer, a prefix is not stale any more *)
Definition unstale (r : Z) (nlri : IPv4Prefix) (s : AfState) : AfState :=
  match stalePeerNlris s !! r with Some l => on_stale id (insert r (l ∖ {[nlri]})) s | None => s end.

(** [routing/bgp/af/AddressFamilyInstance.h:564-587] onParsedUpdateFromPeer, a withdrawn prefix *)
Definition withdrawOne (r : Z) (softReconfig : bool) (k : NlriPath) (s : AfState) : AfState :=
  let s := eraseIn r k s in
  let s := if softReconfig then on_pre (alter (delete k) r) s else s in
  unstale r (np_nlri k) s.

(** Whether some object holds a reference to an attribute set, so that its
    identifier stays in use. *)
Definition held (pa : PathAttribute) (s : AfState) : bool :=
  existsb (fun kv => bool_decide (node_pa kv.2 = pa)) (map_to_list (heap s)) ||
  existsb (fun t => existsb (fun kv => bool_decide (kv.2 = pa)) (map_to_list t.2)) (map_to_list (adjRibOut (out s))) ||
  bool_decide (pa ∈ leaked s).

(** [routing/bgp/af/AddressFamilyInstance.h:615-624] onParsedUpdateFromPeer, the route of an announced prefix *)
Definition inbound (now : Z) (pa : PathAttribute) (addr : IPAddress) (nbr : Neighbor) (remoteAs : Z) : InboundRoute :=
  mkInboundRoute (pa_attrs pa) (Some (mkNeighborAf (nbr_rid nbr) addr)) (default 0 (WEIGHT (cfgs nbr))) remoteAs
    (isEbgp cfg nbr) (isConfedEbgp cfg nbr) (resolveIgpMetric (nextHop (pa_path pa))) now.

(** [routing/bgp/af/AddressFamilyInstance.h:608-648] onParsedUpdateFromPeer, the announced prefixes. A route that the
    policy drops gives back the reference it was made with; the next prefix
    then retains an identifier that may no longer be in use, and reading its
    attributes fails an assertion. *)
Fixpoint announceAll (r : Z) (pa : PathAttribute) (base : InboundRoute) (c : NbrConfig) (first : bool) (keys : list NlriPath) (s : AfState)
    (touched : gset IPv4Prefix) : outcome (AfState * gset IPv4Prefix) :=
  match keys with
  | [] => Ret (s, touched)
  | k :: keys =>
      if negb first && negb (held pa s) then Throw "assertion failed"
      else if applyIngressPolicy base c then announceAll r pa base c false keys s touched
      else
        let s := eraseIn r k s in
        let p := alloc (heap s) in
        let s := on_in (insert r (<[k := p]> (peerIn r s))) (on_heap (insert p (mkNode base (pa_path pa) (np_nlri k))) s) in
        announceAll r pa base c false keys (unstale r (np_nlri k) s) (touched ∪ {[np_nlri k]})
  end.

Definition setWarned (warned restart : bool) (n : Neighbor) : Neighbor :=
  mkNeighbor (cfgs n) (nbr_rid n) (session n) (isSlowPeer n) (slowFirstSeen n) warned restart.

(** [routing/bgp/af/AddressFamilyInstance.h:651-677] onParsedUpdateFromPeer, the limit on prefixes, for the neighbor [nbr]
    at [a] whose peer object is at [addr] *)
Definition maximumPrefix (r : Z) (a addr : IPAddress) (s : AfState) : AfState :=
  match neighbors (out s) !! a with
  | None => s
  | Some nbr =>
      match MAXIMUM_PREFIX (cfgs nbr) with
      | None => s
      | Some maxPfx =>
          let count := u32 (Z.of_nat (size (peerIn r s))) in
          let threshold := default 75 (MAXIMUM_PREFIX_THRESHOLD (cfgs nbr)) in
          let warned := maxPfxWarned nbr || (u32 (maxPfx * threshold) / 100 <=? count) in
          let hasSession := match neighbors (out s) !! addr with Some peer => match session peer with Some _ => true | None => false end | None => false end in
          let reached := (maxPfx <=? count) && negb (MAXIMUM_PREFIX_WARNING_ONLY (cfgs nbr)) && hasSession in
          let restart := maxPfxRestart nbr || (reached && match MAXIMUM_PREFIX_RESTART (cfgs nbr) with Some _ => true | None => false end) in
          let s := on_outbound (on_neighbors (insert a (setWarned warned restart nbr))) s in
          if reached then act (MaxPrefixReached addr) s else s
      end
  end.

(** [routing/bgp/af/AddressFamilyInstance.h:589-606] onParsedUpdateFromPeer, the attributes: acquired once, and never given
    back when nothing is announced *)
Definition announcements (now r : Z) (a : IPAddress) (nbr : Neighbor) (remoteAs : Z) (softReconfig : bool) (u : ParsedUpdate) (s : AfState)
    (touched : gset IPv4Prefix) : outcome (AfState * gset IPv4Prefix) :=
  match pu_attrs u with
  | None => Ret (s, touched)
  | Some pa =>
      let pre := mkSoftPre pa remoteAs (isEbgp cfg nbr) (isConfedEbgp cfg nbr) in
      let s := if softReconfig
               then on_pre (insert r (foldl (fun t k => <[k := pre]> t) (default ∅ (preAdjRibIn s !! r)) (pu_announcements u))) s else s in
      let s := match pu_announcements u with [] => leak pa s | _ => s end in
      announceAll r pa (inbound now pa a nbr remoteAs) (cfgs nbr) true (pu_announcements u) s touched
  end.

(** [routing/bgp/af/AddressFamilyInstance.h:549-681] onParsedUpdateFromPeer, for the neighbor at [addr] *)
Definition onParsedUpdateFromPeer (now : Z) (addr : IPAddress) (u : ParsedUpdate) (s : AfState) : outcome AfState :=
  match neighbors (out s) !! addr with
  | None => Ret s
  | Some peer =>
      let r := nbr_rid peer in
      match a ← peers s !! r; nbr ← neighbors (out s) !! a; Some (a, nbr) with
      | None => Ret s
      | Some (a, nbr) =>
          let softReconfig := SOFT_RECONFIGURATION (cfgs nbr) || BGP_SOFT_RECONFIG_BACKUP cfg in
          let s := foldl (fun s k => withdrawOne r softReconfig k s) s (pu_withdrawn u) in
          '(s, touched) ← announcements now r a nbr (default 0 (REMOTE_AS (cfgs peer))) softReconfig u s (list_to_set (np_nlri <$> pu_withdrawn u));
          recomputeAll now (elements touched) (maximumPrefix r a addr s)
      end
  end.

(** ** Sessions *)

(** [routing/bgp/af/AddressFamilyInstance.h:2928-2938] cancelStaleTimers *)
Definition cancelStaleTimers (r : Z) (s : AfState) : AfState :=
  match staleTimers s !! r with None => s | Some _ => on_stale (delete r) (delete r) s end.

Definition clearFlags (n : Neighbor) : Neighbor := mkNeighbor (cfgs n) (nbr_rid n) (session n) false 0 false false.

(** [routing/bgp/af/AddressFamilyInstance.h:514-522] invalidatePeer, the routes of the peer *)
Definition eraseAll (r : Z) (s : AfState) : AfState := foldr (fun k => eraseIn r k) s (map_to_list (peerIn r s)).*1.

(** [routing/bgp/af/AddressFamilyInstance.h:482-528] invalidatePeer *)
Definition invalidatePeer (now r : Z) (s : AfState) : outcome AfState :=
  let s := on_outbound (on_mrai (delete r)) s in
  let s := match peers s !! r with Some a => on_outbound (on_neighbors (alter clearFlags a)) s | None => s end in
  let s := cancelStaleTimers r s in
  let s := on_outbound (fun o => on_out (delete r) (on_defaults (fun d => d ∖ {[r]}) o)) (on_pre (delete r) s) in
  match adjRibIn s !! r with
  | None => Ret s
  | Some t => recomputeAll now (elements (list_to_set (np_nlri <$> (map_to_list t).*1) : gset IPv4Prefix)) (on_in (delete r) (eraseAll r s))
  end.

(** [routing/bgp/af/AddressFamilyInstance.h:335-365] onPeerBorr *)
Definition onPeerBorr (now : Z) (r : Z) (s : AfState) : AfState :=
  let s := cancelStaleTimers r s in
  let s := match adjRibIn s !! r with
           | Some t => on_stale id (insert r (default ∅ (stalePeerNlris s !! r) ∪ list_to_set (np_nlri <$> (map_to_list t).*1))) s
           | None => s
           end in
  act (PostAfter (now + seconds (BGP_REFRESH_MAX_EOR_TIME cfg))) (act (PostAfter (now + seconds (BGP_REFRESH_STALEPATH_TIME cfg)))
    (on_stale (insert r (true, true)) id s)).

(** [routing/bgp/af/AddressFamilyInstance.h:2891-2918] purgeStalePeer *)
Definition purgeStalePeer (now r : Z) (s : AfState) : outcome AfState :=
  match stalePeerNlris s !! r with
  | None => Ret s
  | Some l =>
      if bool_decide (l = ∅) then Ret s
      else
        let keys := List.filter (fun k => bool_decide (np_nlri k ∈ l)) (map_to_list (peerIn r s)).*1 in
        let s := foldr (fun k => eraseIn r k) s keys in
        recomputeAll now (elements l) (on_stale id (delete r) s)
  end.

(** [routing/bgp/af/AddressFamilyInstance.h:378-383] onPeerEorr *)
Definition onPeerEorr (now r : Z) (s : AfState) : outcome AfState := purgeStalePeer now r (cancelStaleTimers r s).

(** [routing/bgp/af/AddressFamilyInstance.h:357-364] onPeerBorr, one of the two timers fires *)
Definition staleTimerFires (now r : Z) (which : bool) (s : AfState) : outcome AfState :=
  let '(a, b) := default (false, false) (staleTimers s !! r) in
  purgeStalePeer now r (on_stale (insert r (if which then (false, b) else (a, false))) id s).

(** [routing/bgp/af/AddressFamilyInstance.h:1291-1307] drainMraiPending *)
Definition drainMraiPending (now r : Z) (s : AfState) : outcome AfState :=
  match mraiState (out s) !! r with
  | None => Ret s
  | Some ms =>
      let fix drain (l : list IPv4Prefix) (s : AfState) : outcome AfState :=
        match l with [] => Ret s | n :: l => s ← adjOut now n (locRib s !! n) s; drain l s end in
      let s := on_outbound (fun o => set_bypass r (on_mrai (insert r (mkMrai now ∅ None)) o)) s in
      s ← drain (elements (pending ms)) s;
      Ret (on_outbound (set_bypass 0) s)
  end.

(** [routing/bgp/af/AddressFamilyInstance.h:392-396] scan *)
Definition scan (now : Z) (s : AfState) : outcome AfState :=
  let fix go (l : list (IPv4Prefix * LocalRoute)) (s : AfState) : outcome AfState :=
    match l with [] => Ret s | (n, lr) :: l => s ← adjOut now n (Some lr) s; go l s end in
  go (map_to_list (locRib s)) s.

(** ** Next hops and own networks *)

(** [routing/bgp/af/AddressFamilyInstance.h:2832-2864] onNhtChange *)
Definition onNhtChange (now : Z) (nh : IPAddress) (reachable : bool) (s : AfState) : AfState :=
  match nhtTable s !! nh with
  | None => s
  | Some e =>
      if eqb (nht_reachable e) reachable then s
      else
        let s := set_nht (<[nh := mkNht reachable (nht_nlris e)]> (nhtTable s)) (nlriToNextHop s) (pendingNhtRecompute s ∪ nht_nlris e) s in
        if nhtTimer s then s else set_nhtTimer true (act (PostAfter (now + seconds (default 5 (BGP_NEXT_HOP_TRIGGER_DELAY cfg)))) s)
  end.

(** [routing/bgp/af/AddressFamilyInstance.h:2872-2877] processNhtPending, from its timer *)
Definition processNhtPending (now : Z) (s : AfState) : outcome AfState :=
  recomputeAll now (elements (pendingNhtRecompute s)) (set_nht (nhtTable s) (nlriToNextHop s) ∅ (set_nhtTimer false s)).

(** [routing/bgp/af/AddressFamilyInstance.h:2699-2706] onNetworkRibChanged, the attributes of a network of this router *)
Definition networkPa : PathAttribute :=
  mkPA (set_med (DEFAULT_METRIC cfg) (set_origin (Some 0) Attributes_new)) (mkPath (mkAfiSafi 1 1) (IPAddress_u128 0) None None).

(** [routing/bgp/af/AddressFamilyInstance.h:2695-2719] onNetworkRibChanged, the route of the network *)
Definition replaceNetwork (now : Z) (nlri : IPv4Prefix) (reachable : bool) (s : AfState) : AfState :=
  let s := match networkLocalRoutes s !! nlri with
           | Some p => on_heap (delete p) (on_network (delete nlri) s)
           | None => s
           end in
  if reachable then
    let p := alloc (heap s) in
    on_network (insert nlri p) (on_heap (insert p (mkNode (InboundRoute_new (pa_attrs networkPa) None now) (pa_path networkPa) nlri)) s)
  else s.

(** [routing/bgp/af/AddressFamilyInstance.h:2693-2722] onNetworkRibChanged *)
Definition onNetworkRibChanged (now : Z) (nlri : IPv4Prefix) (reachable : bool) (s : AfState) : outcome AfState :=
  recomputeNlri now nlri (replaceNetwork now nlri reachable s).

(** ** Reuse of dampened prefixes *)

(** [routing/bgp/af/AddressFamilyInstance.h:2315-2332] onDampenReuseTimer, what the scan makes of a state *)
Definition scanned (params : DampenParams) (now : Z) (st : DampenState) : DampenState :=
  let '(st, lifted) := checkReuse (cmath (DAMPENING cfg)) params now st in if lifted then set_pendingReuse true st else st.

(** [routing/bgp/af/AddressFamilyInstance.h:2307-2339] onDampenReuseTimer, from its timer (line 2294) *)
Definition onDampenReuseTimer (now : Z) (s : AfState) : outcome AfState :=
  let s := set_dampenTimer false s in
  params ← getDampenParams (DAMPENING cfg);
  let entries := map_to_list (dampenTable s) in
  let toReuse := (List.filter (fun kv => (checkReuse (cmath (DAMPENING cfg)) params now kv.2).2) entries).*1 in
  let anySuppressed := existsb (fun kv => suppressed (scanned params now kv.2)) entries in
  let s := on_dampen (omap (fun st => let st := scanned params now st in if isStale st then None else Some st)) s in
  s ← recomputeAll now toReuse s;
  Ret (if anySuppressed then startDampenReuseTimer now s else s).

(** ** Aggregates *)

(** [routing/bgp/af/AddressFamilyInstance.h:2051-2059] recomputeAggregate, the contributing routes *)
Fixpoint contributors (h : Heap) (agg : IPv4Prefix) (l : list (IPv4Prefix * LocalRoute)) : outcome (list RouteNode) :=
  match l with
  | [] => Ret []
  | (n, lr) :: l =>
      inside ← (if p4_len n <=? p4_len agg then Ret false else IPv4Prefix_contains agg n);
      rest ← contributors h agg l;
      if inside : bool then r ← deref h (route lr); Ret (r :: rest) else Ret rest
  end.

(** [routing/bgp/af/AddressFamilyInstance.h:2073-2117] recomputeAggregate, the attributes *)
Definition aggregatePa (buildAsSet : bool) (l : list RouteNode) : PathAttribute :=
  let worst := fold_left (fun w r => match origin (attrs (rn_base r)) with Some o => if w <? o then o else w | None => w end) l 0 in
  let a := set_origin (Some worst) Attributes_new in
  let asSet : gset Z := list_to_set (List.filter (fun x => negb (x =? asNumber cfg)) (r ← l; seg ← asPath (attrs (rn_base r)); asns seg)) in
  let a := if buildAsSet then (if bool_decide (asSet = ∅) then a else set_asPath [mkSegment BGP_AS_SET (elements asSet)] a)
           else mkAttributes (origin a) (asPath a) (as4Path a) (localPref a) true (med a) (asAggregator a) (as4Aggregator a) (communities a)
                  (extendedCommunities a) (largeCommunities a) (originatorId a) (clusterList a) (aigp a) (unknownTransitive a) in
  let a := set_aggregators (Some (mkAggregator (asNumber cfg) (IPAddress_u32 (routerRid cfg)))) (as4Aggregator a) a in
  mkPA a (mkPath (mkAfiSafi 1 1) (IPAddress_u128 0) None None).

(** [routing/bgp/af/AddressFamilyInstance.h:2046-2122] recomputeAggregate *)
Definition recomputeAggregate (c : AggregateCfg) (s : AfState) : outcome AfState :=
  let agg := agg_prefix c in
  l ← contributors (heap s) agg (map_to_list (locRib s));
  let st := default (mkAggregate false (mkPA Attributes_new (mkPath (mkAfiSafi 0 0) (IPAddress_u128 0) None None))) (aggregateStates (out s) !! agg) in
  Ret (match l with
       | [] => if active st
               then on_outbound (fun o => on_aggregates (insert agg (mkAggregate false (basePa st))) (withdrawAggregate agg o)) s
               else on_outbound (on_aggregates (insert agg st)) s
       | _ => let st' := mkAggregate true (aggregatePa (asConfedSet c) l) in
              on_outbound (fun o => on_aggregates (insert agg st') (sendAggregateToAllPeers cfg agg st' o)) s
       end).

Fixpoint recomputeAggregates (l : list AggregateCfg) (s : AfState) : outcome AfState :=
  match l with [] => Ret s | c :: l => s ← recomputeAggregate c s; recomputeAggregates l s end.

(** [routing/bgp/af/AddressFamilyInstance.h:2014-2027] recomputeAllAggregates, an aggregate that is not configured any more *)
Definition dropAggregate (kv : IPv4Prefix * AggregateState) (s : AfState) : AfState :=
  if existsb (fun c => bool_decide (agg_prefix c = kv.1)) (AGGREGATE_ADDRESS cfg) then s
  else on_outbound (fun o => on_aggregates (delete kv.1) (if active kv.2 then withdrawAggregate kv.1 o else o)) s.

(** [routing/bgp/af/AddressFamilyInstance.h:2004-2031] recomputeAllAggregates, from its timer *)
Definition recomputeAllAggregates (s : AfState) : outcome AfState :=
  let s := set_aggregateTimer false s in
  recomputeAggregates (AGGREGATE_ADDRESS cfg) (foldr dropAggregate s (map_to_list (aggregateStates (out s)))).

(** ** Steps *)

(** [routing/bgp/af/AddressFamilyInstance.h:250-264] onPeerEstablished *)
Definition onPeerEstablished (now : Z) (addr : IPAddress) (s : AfState) : outcome AfState :=
  match neighbors (out s) !! addr with
  | None => Ret s
  | Some n =>
      match session n with
      | None => Ret s
      | Some ses =>
          let s := if enhancedRR ses then act (SendRouteRefresh addr true) s else s in
          s ← scan now s;
          let s := on_outbound (fun o => sendActiveAggregatesToPeer cfg addr n ses (sendDefaultOriginate cfg addr n ses o)) s in
          Ret (if enhancedRR ses then act (SendRouteRefresh addr false) s else s)
      end
  end.

Definition setSession (r : Z) (ses : option PeerSession) (n : Neighbor) : Neighbor :=
  mkNeighbor (cfgs n) r ses (isSlowPeer n) (slowFirstSeen n) (maxPfxWarned n) (maxPfxRestart n).

(** [routing/bgp/BgpProcess.cpp:95-127] BgpProcess::onSessionEstablished, without BGP_UPDATE_DELAY *)
Definition onSessionEstablished (now : Z) (addr : IPAddress) (ses : PeerSession) (s : AfState) : outcome AfState :=
  let s := on_outbound (on_neighbors (alter (setSession (peerRid ses) (Some ses)) addr)) (on_peers (insert (peerRid ses) addr) s) in
  let s := act (Opened addr) s in
  if activeFamily ses then onPeerEstablished now addr s else Ret s.

(** [routing/bgp/BgpProcess.cpp:129-149] BgpProcess::onSessionDown *)
Definition onSessionDown (now : Z) (addr : IPAddress) (s : AfState) : outcome AfState :=
  match session_of (out s) addr with
  | None => Ret s
  | Some ses =>
      let r := peerRid ses in
      let s := on_outbound (on_neighbors (alter (fun n => setSession (nbr_rid n) None n) addr)) s in
      s ← (if r =? 0 then Ret s else s ← invalidatePeer now r s; Ret (on_peers (delete r) s));
      Ret (on_outbound (on_neighbors (alter (setSession 0 None) addr)) s)
  end.

(** The unsent bytes of a connection change. *)
Definition setPending (b : Z) (n : Neighbor) : Neighbor :=
  mkNeighbor (cfgs n) (nbr_rid n)
    ((fun x => mkPeerSession (peerRid x) (established x) (activeFamily x) (addPathSend x) (enhancedRR x) (localAddress x) b) <$> session n)
    (isSlowPeer n) (slowFirstSeen n) (maxPfxWarned n) (maxPfxRestart n).

Inductive Op :=
  | Established (addr : IPAddress) (ses : PeerSession)
  | Down (addr : IPAddress)
  | UpdateFrom (addr : IPAddress) (u : ParsedUpdate)
  | BorrFrom (addr : IPAddress)
  | EorrFrom (addr : IPAddress)
  | RefreshFrom (addr : IPAddress)
  | StaleTimer (r : Z) (which : bool)
  | MraiTimer (r : Z)
  | NextHop (nh : IPAddress) (reachable : bool)
  | NhtTimer
  | DampenTimer
  | Network (nlri : IPv4Prefix) (reachable : bool)
  | AggregateTimer
  | ScanTimer
  | Transmitted (addr : IPAddress) (n : Z).

(** One event, at a reading of the clock. *)
Definition step (now : Z) (op : Op) (s : AfState) : outcome AfState :=
  match op with
  | Established addr ses => onSessionEstablished now addr ses s
  | Down addr => onSessionDown now addr s
  | UpdateFrom addr u => onParsedUpdateFromPeer now addr u s
  | BorrFrom addr => match session_of (out s) addr with Some ses => Ret (onPeerBorr now (peerRid ses) s) | None => Ret s end
  | EorrFrom addr => match session_of (out s) addr with Some ses => onPeerEorr now (peerRid ses) s | None => Ret s end
  | RefreshFrom addr =>
      match neighbors (out s) !! addr with
      | Some n => match session n with Some ses => Ret (on_outbound (refreshPeer cfg addr n ses) s) | None => Ret s end
      | None => Ret s
      end
  | StaleTimer r which => staleTimerFires now r which s
  | MraiTimer r => drainMraiPending now r s
  | NextHop nh reachable => Ret (onNhtChange now nh reachable s)
  | NhtTimer => processNhtPending now s
  | DampenTimer => onDampenReuseTimer now s
  | Network nlri reachable => onNetworkRibChanged now nlri reachable s
  | AggregateTimer => recomputeAllAggregates s
  | ScanTimer => scan now s
  | Transmitted addr n => Ret (on_outbound (on_neighbors (alter (setPending n) addr)) s)
  end.

(** A session comes up for a known neighbor without one, with an identifier of
    its own. *)
Definition admissible (op : Op) (s : AfState) : Prop :=
  match op with
  | Established addr ses =>
      (exists n, neighbors (out s) !! addr = Some n /\ session n = None) /\ established ses = true /\ peerRid ses <> 0 /\
      localAddress ses <> None /\ peers s !! peerRid ses = None
  | _ => True
  end.

Definition Af_new (nbrs : gmap IPAddress Neighbor) : AfState :=
  mkAf ∅ ∅ ∅ ∅ ∅ ∅ ∅ ∅ false ∅ ∅ false ∅ [] ∅ false (mkOutbound nbrs ∅ ∅ 0 ∅ ∅ []).

(** The states of an address family whose neighbors have no session at first. *)
Inductive reach (nbrs : gmap IPAddress Neighbor) : AfState -> Prop :=
  | reach_new : (forall addr n, nbrs !! addr = Some n -> session n = None /\ nbr_rid n = 0) -> reach nbrs (Af_new nbrs)
  | reach_step s now op s' : reach nbrs s -> admissible op s -> step now op s = Ret s' -> reach nbrs s'.
End Af.

(** ** Selection picks from the candidates *)

Definition refs (lr : LocalRoute) : list nat := route lr :: multipaths lr ++ additionalPaths lr.

Lemma tryAdd_elem base r paths p : p ∈ tryAdd base r paths -> p = r \/ p ∈ paths.
Proof. unfold tryAdd. case_bool_decide; [by right|]. rewrite elem_of_app, list_elem_of_singleton. tauto. Qed.

Lemma addBest_elem n base l : forall paths p, p ∈ addBest n base l paths -> p ∈ l \/ p ∈ paths.
Proof.
  induction l as [|r l IH]; intros paths p; cbn; [by right|]. destruct (_ <=? _); [by right|].
  intros [H|H]%IH; [left; by right|]. apply tryAdd_elem in H as [->|H]; [left; by left | by right].
Qed.

Lemma addExternal_elem h base l : forall paths r p, addExternal h base l paths = Ret r -> p ∈ r -> p ∈ l \/ p ∈ paths.
Proof.
  induction l as [|x l IH]; intros paths r p; cbn; [intros [= <-]; by right|]. intros (n & _ & H)%outcome_bind_ret_inv Hp.
  destruct (ebgp _); [injection H as <-; apply tryAdd_elem in Hp as [->|Hp]; [left; by left | by right]|].
  destruct (IH _ _ _ H Hp); [left; by right | by right].
Qed.

Lemma addGroups_elem h base l : forall seen paths r p, addGroups h base seen l paths = Ret r -> p ∈ r -> p ∈ l \/ p ∈ paths.
Proof.
  induction l as [|x l IH]; intros seen paths r p; cbn; [intros [= <-]; by right|]. intros (n & _ & H)%outcome_bind_ret_inv Hp.
  case_bool_decide.
  - destruct (IH _ _ _ _ H Hp); [left; by right | by right].
  - destruct (IH _ _ _ _ H Hp) as [|Hq]; [left; by right|]. apply tryAdd_elem in Hq as [->|Hq]; [left; by left | by right].
Qed.

Section AfProofs.
Context (cfg : BgpConfig) (resolveIgpMetric : IPAddress -> Z) (alloc : Heap -> nat) (order : list nat -> list nat).
(** A new object is not placed on a live one, and a hash table lists all its
    routes. *)
Context (alloc_fresh : forall h, h !! alloc h = None) (order_perm : forall l, order l ≡ₚ l).
#[local] Abbreviation candidates := (candidates order).
#[local] Abbreviation selectRoute := (selectRoute cfg order).
#[local] Abbreviation recomputeNlri := (recomputeNlri cfg resolveIgpMetric order).
#[local] Abbreviation recomputeAll := (recomputeAll cfg resolveIgpMetric order).

Lemma groupInsert_elem h g r groups p : p ∈ (groupInsert cfg h g r groups).*2 -> p = r \/ p ∈ groups.*2.
Proof.
  induction groups as [|[g' b] groups IH]; cbn; [rewrite list_elem_of_singleton; by left|].
  destruct (g' =? g); cbn; rewrite !elem_of_cons; [destruct (best_ptr _ _ _ _); tauto|]. intros [->|H]; [tauto|]. apply IH in H. tauto.
Qed.

Lemma groups_elem h l : forall groups p, p ∈ (fold_left (fun groups r => groupInsert cfg h (groupAs (view h r)) r groups) l groups).*2 ->
  p ∈ l \/ p ∈ groups.*2.
Proof.
  induction l as [|r l IH]; intros groups p; cbn; [by right|]. intros [H|H]%IH; [left; by right|].
  apply groupInsert_elem in H as [->|H]; [left; by left | by right].
Qed.

Lemma groups_nonempty h l : forall groups, groups <> [] \/ l <> [] -> fold_left (fun groups r => groupInsert cfg h (groupAs (view h r)) r groups) l groups <> [].
Proof.
  assert (Hi : forall g r groups, groupInsert cfg h g r groups <> []) by (intros g r [|[g' b] gs]; cbn; [done|]; destruct (_ =? _); done).
  induction l as [|r l IH]; intros groups; cbn; [intros [?|?]; done|]. intros _. apply IH. left. apply Hi.
Qed.

Lemma deterministicMed_elem h cands p : p ∈ deterministicMed cfg order h cands -> p ∈ cands.
Proof.
  unfold deterministicMed. destruct (BGP_DETERMINISTIC_MED cfg); [|done]. rewrite order_perm.
  intros [H|H]%groups_elem; [done|]. by apply elem_of_nil in H.
Qed.

Lemma deterministicMed_nil h cands : deterministicMed cfg order h cands = [] -> cands = [].
Proof.
  unfold deterministicMed. destruct (BGP_DETERMINISTIC_MED cfg); [|done]. intros H. destruct cands as [|c cands]; [done|]. exfalso.
  apply (groups_nonempty h (c :: cands) []); [by right|].
  pose proof (order_perm (fold_left (fun groups r => groupInsert cfg h (groupAs (view h r)) r groups) (c :: cands) []).*2) as Hp.
  rewrite H in Hp. apply Permutation_nil_l in Hp. symmetry in Hp. by apply fmap_nil_inv in Hp.
Qed.

Lemma scanBest_elem am rid bp mem rest : forall first, scanBest am rid bp mem first rest ∈ first :: rest.
Proof.
  unfold scanBest. induction rest as [|c rest IH]; intros first; cbn; [left|].
  specialize (IH (if better_ptr am rid bp mem c first then c else first)). apply elem_of_cons in IH as [->|H]; [|right; by right].
  destruct (better_ptr _ _ _ _ c first); [right; left | left].
Qed.

Lemma collectMultipaths_elem am rid bp mem best m cands : forall acc p, p ∈ collectMultipaths am rid bp mem best m cands acc -> p ∈ cands \/ p ∈ acc.
Proof.
  induction cands as [|c cands IH]; intros acc p; cbn; [by right|].
  destruct (Nat.eqb c best); [intros [H|H]%IH; [left; by right | by right]|].
  destruct (_ && _); [|intros [H|H]%IH; [left; by right | by right]].
  case_match; [rewrite elem_of_app, list_elem_of_singleton; intros [H1|H1]; [by right | subst; left; left]|].
  intros [H1|H1]%IH; [left; by right|]. rewrite elem_of_app, list_elem_of_singleton in H1. destruct H1 as [H1|H1]; [by right | subst; left; left].
Qed.

Lemma selectBest_elem am rid bp mem cands mE mI :
  match selectBest am rid bp mem cands mE mI with
  | None => cands = []
  | Some lr => forall p, p ∈ route lr :: multipaths lr -> p ∈ cands
  end.
Proof.
  destruct cands as [|first rest]; [done|]. cbn [selectBest route multipaths]. intros p. rewrite elem_of_cons. intros [->|H].
  - apply scanBest_elem.
  - destruct (1 <? _)%nat; [|by apply elem_of_nil in H]. apply collectMultipaths_elem in H as [H|H]; [done | by apply elem_of_nil in H].
Qed.

Lemma pathPool_elem h cands lr p : p ∈ pathPool cfg h cands lr -> p ∈ cands.
Proof.
  unfold pathPool. intros H. apply list_elem_of_In, filter_In in H as [H _]. apply list_elem_of_In in H.
  unfold rankCandidates in H. rewrite stable_sort_Permutation in H. done.
Qed.

Lemma additional_elem h cands lr extra p : additional cfg h cands lr = Ret extra -> p ∈ extra -> p ∈ cands.
Proof.
  unfold additional. destruct (_ || _); [|intros [= <-] H; by apply elem_of_nil in H].
  intros H Hp. apply (pathPool_elem h cands lr). destruct (ADVERTISE_ALL cfg); [injection H as <-; done|].
  apply outcome_bind_ret_inv in H as (paths & H1 & H).
  set (start := match pathPool _ _ _ _ with b :: _ => _ | [] => _ end) in *.
  assert (Hs : forall q, q ∈ start -> q ∈ pathPool cfg h cands lr).
  { intros q. unfold start. assert (Hb : forall b, b ∈ match ADVERTISE_BEST cfg with Some n => addBest n 0 (pathPool cfg h cands lr) [] | None => [] end -> b ∈ pathPool cfg h cands lr).
    { intros b. destruct (ADVERTISE_BEST cfg); [intros [Hq|Hq]%addBest_elem; [done|] | intros Hq]; by apply elem_of_nil in Hq. }
    destruct (pathPool cfg h cands lr) as [|b l]; [apply Hb|]. destruct (SELECT_BACKUP cfg); [|apply Hb].
    intros [->|Hq]%tryAdd_elem; [left | by apply Hb]. }
  assert (Hq : forall q, q ∈ paths -> q ∈ pathPool cfg h cands lr).
  { intros q Hq. destruct (SELECT_BEST_EXTERNAL cfg); [|injection H1 as <-; by apply Hs].
    destruct (addExternal_elem _ _ _ _ _ _ H1 Hq); [done | by apply Hs]. }
  destruct (ADVERTISE_GROUP_BEST cfg); [|injection H as <-; by apply Hq].
  apply outcome_bind_ret_inv in H as (seen & _ & H). destruct (addGroups_elem _ _ _ _ _ _ _ H Hp); [done | by apply Hq].
Qed.

Lemma selectRoute_spec h cands o : selectRoute h cands = Ret o ->
  match o with None => cands = [] | Some lr => forall p, p ∈ refs lr -> p ∈ cands end.
Proof.
  unfold BgpAf.selectRoute. intros (l & _ & H)%outcome_bind_ret_inv.
  pose proof (selectBest_elem (BGP_ALWAYS_COMPARE_MED cfg) (routerRid cfg) (BGP_BEST_PATH cfg) (view h) (deterministicMed cfg order h cands) (MAXIMUM_PATHS_EBGP cfg) (MAXIMUM_PATHS_IBGP cfg)) as Hb.
  destruct (selectBest _ _ _ _ _ _ _) as [lr|]; [|injection H as <-; eapply deterministicMed_nil, Hb].
  apply outcome_bind_ret_inv in H as (extra & He & H). injection H as <-. intros p. unfold refs. cbn [route multipaths additionalPaths].
  rewrite elem_of_cons, elem_of_app. intros Hp. apply (deterministicMed_elem h).
  destruct Hp as [->|[Hp|Hp]]; [apply Hb; left | apply Hb; by right | eapply additional_elem; done].
Qed.

(** ** References are live *)

(** Where a route object is owned: in the table of a peer, or as a network of
    this router. *)
Inductive Holder := InTable (r : Z) (k : NlriPath) | OwnNetwork (n : IPv4Prefix).

Definition holder_nlri (w : Holder) : IPv4Prefix := match w with InTable _ k => np_nlri k | OwnNetwork n => n end.

Definition holds (s : AfState) (w : Holder) (p : nat) : Prop :=
  match w with InTable r k => peerIn r s !! k = Some p | OwnNetwork n => networkLocalRoutes s !! n = Some p end.

Record inv_heap (s : AfState) : Prop := {
  held_live : forall w p, holds s w p -> exists rn, heap s !! p = Some rn /\ rn_nlri rn = holder_nlri w;
  held_once : forall w w' p, holds s w p -> holds s w' p -> w = w'
}.

(** Dampening holds the prefix back. *)
Definition dampened (s : AfState) (n : IPv4Prefix) : Prop :=
  BGP_DAMPENING (DAMPENING cfg) = true /\ exists st, dampenTable s !! n = Some st /\ suppressed st = true.

(** Loc-RIB has entries only for prefixes with a route, and refers to routes
    for them; a prefix with a route has an entry unless it is dampened. The
    prefixes in [T] are left out. *)
Definition inv_loc (T : gset IPv4Prefix) (s : AfState) : Prop := forall n, n ∉ T ->
  (forall lr p, locRib s !! n = Some lr -> p ∈ refs lr -> exists w, holder_nlri w = n /\ holds s w p) /\
  (forall w p, holder_nlri w = n -> holds s w p -> is_Some (locRib s !! n) \/ dampened s n).

Lemma candidates_elem n s p : p ∈ candidates n s <-> exists w, holder_nlri w = n /\ holds s w p.
Proof.
  unfold BgpAf.candidates, tableRoutes, localRoute. rewrite elem_of_app, order_perm. split.
  - intros [H|H].
    + apply list_elem_of_bind in H as ([r t] & H & Hr). apply elem_of_map_to_list in Hr.
      apply list_elem_of_fmap in H as ([k q] & -> & H). apply list_elem_of_filter in H as [Hn H]. apply elem_of_map_to_list in H.
      exists (InTable r k). split; [exact Hn|]. cbn. unfold peerIn. rewrite Hr. exact H.
    + exists (OwnNetwork n). split; [done|]. cbn. destruct (networkLocalRoutes s !! n); cbn in H; [|by apply elem_of_nil in H].
      apply list_elem_of_singleton in H as ->. done.
  - intros ([r k|n'] & Hn & H); cbn in *.
    + left. unfold peerIn in H. destruct (adjRibIn s !! r) as [t|] eqn:E; cbn in H; [|by rewrite lookup_empty in H].
      apply list_elem_of_bind. exists (r, t). split; [|apply elem_of_map_to_list, E].
      apply list_elem_of_fmap. exists (k, p). split; [done|]. apply list_elem_of_filter. split; [exact Hn | apply elem_of_map_to_list, H].
    + right. subst n'. rewrite H. left.
Qed.

(** What is kept when only objects' metrics and other components change. *)
Lemma alter_refresh_lookup l : forall (h : Heap) p rn, foldr (alter (refresh resolveIgpMetric)) h l !! p = Some rn ->
  exists rn0, h !! p = Some rn0 /\ rn_nlri rn = rn_nlri rn0 /\ rn_path rn = rn_path rn0 /\ attrs (rn_base rn) = attrs (rn_base rn0) /\
    sourceNeighbor (rn_base rn) = sourceNeighbor (rn_base rn0).
Proof.
  induction l as [|q l IH]; intros h p rn; cbn [foldr]; [intros H; by exists rn|].
  destruct (decide (q = p)) as [->|Hne].
  - rewrite lookup_alter_eq. intros H.
    destruct (foldr (alter (refresh resolveIgpMetric)) h l !! p) as [r1|] eqn:E1; cbn in H; [|done]. injection H as <-.
    apply IH in E1 as (rn0 & H0 & H2 & H3 & H4 & H5). exists rn0. done.
  - rewrite lookup_alter_ne by done. apply IH.
Qed.

Lemma alter_refresh_is_Some l (h : Heap) p : is_Some (h !! p) -> is_Some (foldr (alter (refresh resolveIgpMetric)) h l !! p).
Proof.
  intros H. induction l as [|q l IH]; cbn [foldr]; [done|]. destruct (decide (q = p)) as [->|Hne].
  - rewrite lookup_alter_eq. by apply fmap_is_Some.
  - rewrite lookup_alter_ne by done. done.
Qed.

Lemma adjOut_frame now n b s s' : adjOut cfg now n b s = Ret s' ->
  exists o, s' = on_outbound (fun _ => o) s /\ recomputeAdjRibOut cfg now (heap s) (reachability s) n b (out s) = Ret o.
Proof. unfold adjOut, run_out. intros (o & Ho & [= <-])%outcome_bind_ret_inv. by exists o. Qed.

(** States with the same tables. *)
Definition same_tables (s s' : AfState) : Prop :=
  adjRibIn s' = adjRibIn s /\ networkLocalRoutes s' = networkLocalRoutes s /\ locRib s' = locRib s /\ heap s' = heap s /\ dampenTable s' = dampenTable s.

Lemma same_tables_refl s : same_tables s s.
Proof. done. Qed.
Lemma same_tables_trans s1 s2 s3 : same_tables s1 s2 -> same_tables s2 s3 -> same_tables s1 s3.
Proof. unfold same_tables. intros (?&?&?&?&?) (?&?&?&?&?). repeat split; congruence. Qed.

Lemma same_out f s s' : same_tables s s' -> same_tables s (on_outbound f s').
Proof. done. Qed.
Lemma same_pre f s s' : same_tables s s' -> same_tables s (on_pre f s').
Proof. done. Qed.

Lemma dampened_same s s' n : dampenTable s' !! n = dampenTable s !! n -> dampened s n -> dampened s' n.
Proof. intros E. unfold dampened. rewrite E. done. Qed.

Lemma same_tables_holds s s' w p : same_tables s s' -> holds s' w p <-> holds s w p.
Proof. intros (E1 & E2 & _ & _). destruct w; cbn; unfold peerIn; rewrite ?E1, ?E2; done. Qed.

Lemma same_tables_inv T s s' : same_tables s s' -> inv_heap s /\ inv_loc T s -> inv_heap s' /\ inv_loc T s'.
Proof.
  intros Hs [[H1 H2] H3]. pose proof Hs as (_ & _ & El & Eh & Ed). split; [split|].
  - intros w p Hw%(same_tables_holds s); [|done]. rewrite Eh. eapply H1, Hw.
  - intros w w' p Hw%(same_tables_holds s) Hw'%(same_tables_holds s); [|done..]. eapply H2; done.
  - intros n Hn. destruct (H3 n Hn) as [Ha Hb]. rewrite El. split.
    + intros lr p Hl Hp. destruct (Ha lr p Hl Hp) as (w & Hw & Hh). exists w. split; [done|]. by apply (same_tables_holds s).
    + intros w p Hw Hh%(same_tables_holds s); [|done]. destruct (Hb w p Hw Hh) as [|Hd]; [by left | right]. apply (dampened_same s); [by rewrite Ed | done].
Qed.

Lemma installToRib_same lr s s' : installToRib cfg lr s = Ret s' -> same_tables s s'.
Proof.
  unfold installToRib. intros (r & _ & H)%outcome_bind_ret_inv. apply outcome_bind_ret_inv in H as (i & _ & H). injection H as <-.
  unfold registerNht. destruct (negb _); done.
Qed.

Lemma scheduleAggregate_same now s : same_tables s (scheduleAggregateRecompute cfg now s).
Proof. unfold scheduleAggregateRecompute. destruct (aggregateTimer s); done. Qed.

Lemma unregisterNht_same n s : same_tables s (unregisterNht n s).
Proof. unfold unregisterNht. repeat case_match; done. Qed.

Lemma startDampen_same now s : same_tables s (startDampenReuseTimer now s).
Proof. unfold startDampenReuseTimer. by destruct (dampenReuseTimer s). Qed.

(** Dampening changes the state of its prefix only; what it holds back is
    reachable, has no Loc-RIB entry, and is marked. *)
Lemma dampen_tables now n reachable had s s1 hold : dampen cfg now n reachable had s = Ret (s1, hold) ->
  adjRibIn s1 = adjRibIn s /\ networkLocalRoutes s1 = networkLocalRoutes s /\ locRib s1 = locRib s /\ heap s1 = heap s /\
  (forall k, k <> n -> dampenTable s1 !! k = dampenTable s !! k) /\ (hold = true -> reachable = true /\ had = false /\ dampened s1 n).
Proof.
  unfold dampen. destruct (BGP_DAMPENING (DAMPENING cfg)) eqn:Eon; cbn [negb]; [|intros [= <- <-]; done]. intros (params & _ & H)%outcome_bind_ret_inv.
  set (st := default _ _) in H. cbv zeta in H.
  assert (Hput : forall st' b, same_tables (on_dampen (insert n st') s) s1 -> (b = true -> reachable = true /\ had = false /\ suppressed st' = true) ->
    adjRibIn s1 = adjRibIn s /\ networkLocalRoutes s1 = networkLocalRoutes s /\ locRib s1 = locRib s /\ heap s1 = heap s /\
    (forall k, k <> n -> dampenTable s1 !! k = dampenTable s !! k) /\ (b = true -> reachable = true /\ had = false /\ dampened s1 n)).
  { intros st' b (E1 & E2 & E3 & E4 & E5) Hb. rewrite E1, E2, E3, E4, E5. cbn. do 4 (split; [done|]). split.
    - intros k Hk. rewrite lookup_insert_ne by done. done.
    - intros (H1 & H2 & H3)%Hb. do 2 (split; [done|]). split; [exact Eon|]. exists st'. rewrite E5. cbn. rewrite lookup_insert_eq. done. }
  destruct (negb reachable && had) eqn:E1.
  - set (st' := onWithdraw _ _ _ _) in H. injection H as <- <-. apply (Hput st'); [|done].
    destruct (suppressed st'); [apply startDampen_same | done].
  - destruct (reachable && negb had) eqn:E2; [|injection H as <- <-; by apply (Hput st)].
    destruct (pendingReuse st); [injection H as <- <-; by apply (Hput (set_pendingReuse false st))|].
    set (st' := onAnnounce _ _ _ _) in H. apply andb_true_iff in E2 as [-> ->%negb_true_iff].
    destruct (suppressed st') eqn:E3; injection H as <- <-; apply (Hput st'); try done. apply startDampen_same.
Qed.

Lemma updateLocRib_tables now n best s s' : updateLocRib cfg now n best s = Ret s' ->
  same_tables (match best with Some lr => on_loc (insert n lr) s | None => on_loc (delete n) s end) s'.
Proof.
  unfold updateLocRib. destruct best as [lr|]; intros H.
  - apply outcome_bind_ret_inv in H as (s1 & H1 & H). apply adjOut_frame in H1 as (o & -> & _).
    set (s2 := on_loc (insert n lr) s) in *. eapply (same_tables_trans _ (scheduleAggregateRecompute cfg now (on_outbound (fun _ => o) s2)));
      [eapply (same_tables_trans _ (on_outbound (fun _ => o) s2)); [done | apply scheduleAggregate_same]|].
    destruct (match locRib s !! n with Some old => _ | None => true end); [eapply installToRib_same, H | injection H as <-; done].
  - destruct (locRib s !! n) as [old|] eqn:Eo.
    + apply outcome_bind_ret_inv in H as (s1 & H1 & H). apply adjOut_frame in H1 as (o & -> & _). injection H as <-.
      set (s2 := on_loc (delete n) (withdrawFromRib n s)).
      eapply (same_tables_trans _ s2); [|eapply (same_tables_trans _ (on_outbound (fun _ => o) s2)); [done | apply scheduleAggregate_same]].
      unfold s2, withdrawFromRib. destruct (unregisterNht_same n s) as (E1 & E2 & E3 & E4 & E5). unfold same_tables. cbn. rewrite E1, E2, E3, E4, E5. done.
    + injection H as <-. unfold same_tables. cbn. rewrite delete_id by exact Eo. done.
Qed.

(** The tables after a recomputation: the metrics are read again, and the
    Loc-RIB has what is selected among the candidates, unless dampening holds
    it back. *)
Lemma recomputeNlri_tables now n s s' : recomputeNlri now n s = Ret s' ->
  adjRibIn s' = adjRibIn s /\ networkLocalRoutes s' = networkLocalRoutes s /\
  heap s' = foldr (alter (refresh resolveIgpMetric)) (heap s) (tableRoutes n s) /\
  (forall k, k <> n -> dampenTable s' !! k = dampenTable s !! k) /\
  exists best, selectRoute (heap s') (candidates n s) = Ret best /\
    (locRib s' = (match best with Some lr => <[n := lr]> (locRib s) | None => delete n (locRib s) end) \/
     best <> None /\ locRib s !! n = None /\ locRib s' = locRib s /\ dampened s' n).
Proof.
  unfold BgpAf.recomputeNlri. set (s0 := on_heap _ s). intros (best & Hb & H)%outcome_bind_ret_inv.
  apply outcome_bind_ret_inv in H as ([s1 hold] & Hd & H). apply dampen_tables in Hd as (D1 & D2 & D3 & D4 & D5 & D6). destruct hold.
  - injection H as <-. rewrite D1, D2, D3, D4. do 4 (split; [done|]). exists best. split; [exact Hb|]. right.
    destruct (D6 eq_refl) as (Hr%bool_decide_eq_true & Hn%bool_decide_eq_false & Hd). split; [done|]. split; [|done].
    change (locRib s0) with (locRib s) in Hn. destruct (locRib s !! n); [exfalso; apply Hn; eauto | done].
  - apply updateLocRib_tables in H as (E1 & E2 & E3 & E4 & E5).
    assert (E : forall (A : Type) (f : AfState -> A), (forall g s, f (on_loc g s) = f s) ->
      f (match best with Some lr => on_loc (insert n lr) s1 | None => on_loc (delete n) s1 end) = f s1) by (intros A f Hf; destruct best; apply Hf).
    rewrite E1, E2, E4, E5, !E by done. rewrite D1, D2, D4. do 4 (split; [done|]). exists best. split; [exact Hb|]. left.
    rewrite E3. destruct best; cbn; rewrite D3; done.
Qed.

Lemma recomputeNlri_inv now n T s s' : recomputeNlri now n s = Ret s' -> inv_heap s /\ inv_loc T s -> inv_heap s' /\ inv_loc (T ∖ {[n]}) s'.
Proof.
  intros (E1 & E2 & E3 & Ed & best & Hb & El)%recomputeNlri_tables [[H1 H2] H3].
  assert (Hh : forall w p, holds s' w p <-> holds s w p) by (intros [r k|m] p; cbn; unfold peerIn; rewrite ?E1, ?E2; done).
  split; [split|].
  - intros w p Hw%Hh. destruct (H1 w p Hw) as (rn & Hp & Hn). rewrite E3.
    destruct (alter_refresh_is_Some (tableRoutes n s) (heap s) p) as [rn' Hp']; [by exists rn|]. exists rn'. split; [exact Hp'|].
    apply alter_refresh_lookup in Hp' as (rn0 & Hp0 & Hn0 & _). congruence.
  - intros w w' p Hw%Hh Hw'%Hh. eapply H2; done.
  - pose proof (selectRoute_spec _ _ _ Hb) as Hspec. intros m Hm. destruct (decide (m = n)) as [->|Hne].
    + destruct El as [El|(_ & Hnone & El & Hd)].
      2:{ rewrite El. split; [intros lr p; rewrite Hnone; done | intros w p _ _; by right]. }
      split.
      * intros lr p Hl Hp. rewrite El in Hl. destruct best as [lr'|]; [|by rewrite lookup_delete_eq in Hl]. rewrite lookup_insert_eq in Hl. injection Hl as ->.
        apply Hspec, candidates_elem in Hp as (w & Hw & Hp). exists w. split; [done|]. by apply Hh.
      * intros w p Hw Hp%Hh. left. rewrite El. destruct best as [lr'|]; [rewrite lookup_insert_eq; done|]. exfalso.
        assert (Hc : p ∈ candidates n s) by (apply candidates_elem; by exists w). rewrite Hspec in Hc. by apply elem_of_nil in Hc.
    + assert (Em : locRib s' !! m = locRib s !! m).
      { destruct El as [El|(_ & _ & El & _)]; rewrite El; [|done]. destruct best; [rewrite lookup_insert_ne | rewrite lookup_delete_ne]; done. }
      rewrite Em. assert (HmT : m ∉ T) by (intros Hx; apply Hm, elem_of_difference; split; [done | by intros ?%elem_of_singleton]).
      destruct (H3 m HmT) as [Ha Hb']. split.
      * intros lr p Hl Hp. destruct (Ha lr p Hl Hp) as (w & Hw & Hp'). exists w. split; [done|]. by apply Hh.
      * intros w p Hw Hp%Hh. destruct (Hb' w p Hw Hp); [by left | right]. eapply dampened_same; [by apply Ed | done].
Qed.

Lemma inv_loc_mono T T' s : T ⊆ T' -> inv_loc T s -> inv_loc T' s.
Proof. intros HT H n Hn. apply H. intros Hx. apply Hn, HT, Hx. Qed.

Lemma recomputeAll_inv now l : forall T s s', recomputeAll now l s = Ret s' -> inv_heap s /\ inv_loc T s -> inv_heap s' /\ inv_loc (T ∖ list_to_set l) s'.
Proof.
  induction l as [|n l IH]; intros T s s' H Hi.
  - injection H as <-. destruct Hi as [H1 H2]. split; [done|]. eapply inv_loc_mono; [|exact H2].
    intros x Hx. apply elem_of_difference. split; [exact Hx | apply not_elem_of_empty].
  - cbn [BgpAf.recomputeAll] in H. apply outcome_bind_ret_inv in H as (s1 & H1 & H). apply (recomputeNlri_inv _ _ T) in H1; [|done].
    destruct (IH _ _ _ H H1) as [H2 H3]. split; [done|]. cbn [list_to_set]. rewrite <- difference_difference_l_L. exact H3.
Qed.

(** ** Every event keeps the references live *)

Definition inv (T : gset IPv4Prefix) (s : AfState) : Prop := inv_heap s /\ inv_loc T s.

Lemma inv_same T s s' : same_tables s s' -> inv T s -> inv T s'.
Proof. apply same_tables_inv. Qed.

Lemma dropBest_other nlri p s n : n <> nlri -> locRib (dropBest nlri p s) !! n = locRib s !! n.
Proof. intros Hn. unfold dropBest. repeat case_match; try done. cbn. rewrite lookup_delete_ne by done. done. Qed.

Lemma dropBest_frame nlri p s :
  adjRibIn (dropBest nlri p s) = adjRibIn s /\ networkLocalRoutes (dropBest nlri p s) = networkLocalRoutes s /\ heap (dropBest nlri p s) = heap s /\
  dampenTable (dropBest nlri p s) = dampenTable s.
Proof. unfold dropBest. repeat case_match; done. Qed.

Lemma peerIn_on_in r r' t s : peerIn r' (on_in (insert r t) s) = if decide (r = r') then t else peerIn r' s.
Proof. unfold peerIn. cbn. destruct (decide (r = r')) as [<-|Hne]; [rewrite lookup_insert_eq | rewrite lookup_insert_ne by done]; done. Qed.

Lemma eraseIn_peerIn r k s : peerIn r (eraseIn r k s) = delete k (peerIn r s).
Proof.
  unfold eraseIn. destruct (peerIn r s !! k) as [q|] eqn:Eq; [|rewrite delete_id; done].
  unfold on_heap, peerIn at 1. cbn. rewrite lookup_insert_eq. done.
Qed.

(** Objects other than one that is destroyed stay live and held once. *)
Lemma forget_inv T n q w0 s s' :
  inv T s -> holds s w0 q -> holder_nlri w0 = n ->
  (forall w p, holds s' w p <-> holds s w p /\ w <> w0) -> heap s' = delete q (heap s) ->
  (forall m, m <> n -> locRib s' !! m = locRib s !! m) -> dampenTable s' = dampenTable s -> inv (T ∪ {[n]}) s'.
Proof.
  intros [[H1 H2] H3] Hq Hn Hh Eh El Ed. split; [split|].
  - intros w p [Hw Hne]%Hh. rewrite Eh, lookup_delete_ne; [by apply H1|]. intros ->. apply Hne. eapply H2; done.
  - intros w w' p [Hw _]%Hh [Hw' _]%Hh. eapply H2; done.
  - intros m Hm. assert (Hmn : m <> n) by (intros ->; apply Hm, elem_of_union; right; by apply elem_of_singleton).
    assert (HmT : m ∉ T) by (intros Hx; apply Hm, elem_of_union; by left).
    rewrite El by done. destruct (H3 m HmT) as [Ha Hb]. split.
    + intros lr p Hl Hp. destruct (Ha lr p Hl Hp) as (w & Hw & Hp'). exists w. split; [done|]. apply Hh. split; [done|]. congruence.
    + intros w p Hw [Hp _]%Hh. unfold dampened. rewrite Ed. eapply Hb; done.
Qed.

(** A new object joins. *)
Lemma create_inv T n q w0 rn s s' :
  inv T s -> (forall p, ~ holds s w0 p) -> holder_nlri w0 = n -> rn_nlri rn = n -> heap s !! q = None ->
  (forall w p, holds s' w p <-> holds s w p \/ w = w0 /\ p = q) -> heap s' = <[q := rn]> (heap s) ->
  locRib s' = locRib s -> dampenTable s' = dampenTable s -> inv (T ∪ {[n]}) s'.
Proof.
  intros [[H1 H2] H3] Hfree Hn Hrn Hq Hh Eh El Ed.
  assert (Hnq : forall w, ~ holds s w q) by (intros w Hw; destruct (H1 w q Hw) as (x & Hx & _); congruence).
  split; [split|].
  - intros w p [Hw|[-> ->]]%Hh; rewrite Eh; [|rewrite lookup_insert_eq; exists rn; split; [done | congruence]].
    rewrite lookup_insert_ne; [by apply H1|]. intros ->. by apply (Hnq w).
  - intros w w' p [Hw|[-> ->]]%Hh [Hw'|[-> Ep]]%Hh; [eapply H2; done | subst; by destruct (Hnq w) | by destruct (Hnq w') | done].
  - intros m Hm. assert (Hmn : m <> n) by (intros ->; apply Hm, elem_of_union; right; by apply elem_of_singleton).
    assert (HmT : m ∉ T) by (intros Hx; apply Hm, elem_of_union; by left).
    rewrite El. destruct (H3 m HmT) as [Ha Hb]. split.
    + intros lr p Hl Hp. destruct (Ha lr p Hl Hp) as (w & Hw & Hp'). exists w. split; [done|]. apply Hh. by left.
    + intros w p Hw [Hp|[-> ->]]%Hh; [unfold dampened; rewrite Ed; eapply Hb; done | congruence].
Qed.

Lemma inv_mono T T' s : T ⊆ T' -> inv T s -> inv T' s.
Proof. intros HT [H1 H2]. split; [done | eapply inv_loc_mono; done]. Qed.

(** What an erased entry leaves. *)
Lemma eraseIn_holds r k q s w p : peerIn r s !! k = Some q -> holds (eraseIn r k s) w p <-> holds s w p /\ w <> InTable r k.
Proof.
  intros Eq. pose proof (eraseIn_peerIn r k s) as Hp. unfold eraseIn in *. rewrite Eq in *.
  destruct (dropBest_frame (np_nlri k) q s) as (E1 & E2 & _ & _). destruct w as [r' k'|m]; cbn [holds].
  - destruct (decide (r' = r)) as [->|Hr].
    + rewrite Hp, lookup_delete_Some. split; [intros [Hk Hx]; split; [done | congruence] | intros [Hx Hk]; split; [congruence | done]].
    + unfold peerIn at 1. cbn. rewrite lookup_insert_ne, E1 by done. fold (peerIn r' s). split; [intros Hx; split; [done | congruence] | tauto].
  - cbn. rewrite E2. split; [intros Hx; split; done | tauto].
Qed.

Lemma eraseIn_inv T r k s : inv T s -> inv (T ∪ {[np_nlri k]}) (eraseIn r k s).
Proof.
  intros Hi. destruct (peerIn r s !! k) as [q|] eqn:Eq.
  2:{ unfold eraseIn. rewrite Eq. eapply inv_mono; [|exact Hi]. apply union_subseteq_l. }
  pose proof (fun w p => eraseIn_holds r k q s w p Eq) as Hh. unfold eraseIn in *. rewrite Eq in *.
  destruct (dropBest_frame (np_nlri k) q s) as (_ & _ & E3 & E4).
  apply (forget_inv T (np_nlri k) q (InTable r k) s); [done | exact Eq | done | exact Hh | cbn; by rewrite E3 | intros m Hm; by apply dropBest_other | exact E4].
Qed.

Lemma unstale_same r n s : same_tables s (unstale r n s).
Proof. unfold unstale. case_match; done. Qed.

Lemma withdrawOne_inv T r soft k s : inv T s -> inv (T ∪ {[np_nlri k]}) (withdrawOne r soft k s).
Proof.
  intros Hi. unfold withdrawOne. eapply inv_same; [apply unstale_same|].
  destruct soft; [eapply (inv_same _ (eraseIn r k s)); [done|]|]; apply eraseIn_inv, Hi.
Qed.

Lemma withdrawAll_inv r soft l : forall T s, inv T s -> inv (T ∪ list_to_set (np_nlri <$> l)) (foldl (fun s k => withdrawOne r soft k s) s l).
Proof. induction l as [|k l IH]; intros T s Hi; cbn; [rewrite union_empty_r_L; done|]. rewrite union_assoc_L. by apply IH, withdrawOne_inv. Qed.

Lemma insertIn_inv T r k rn s : inv T s -> peerIn r s !! k = None -> rn_nlri rn = np_nlri k ->
  inv (T ∪ {[np_nlri k]}) (on_in (insert r (<[k := alloc (heap s)]> (peerIn r s))) (on_heap (insert (alloc (heap s)) rn) s)).
Proof.
  intros Hi Hk Hrn. apply (create_inv T (np_nlri k) (alloc (heap s)) (InTable r k) rn s); try done.
  - intros p. cbn. congruence.
  - intros [r' k'|m] p; cbn [holds].
    + rewrite peerIn_on_in. destruct (decide (r = r')) as [<-|Hr].
      * rewrite lookup_insert_Some. split; [intros [[<- <-]|[_ Hx]]; [by right | by left] | intros [Hx|[[= <-] ->]]; [right | by left]].
        split; [congruence | done].
      * unfold peerIn. cbn. split; [by left | intros [Hx|[[= -> ->] _]]; done].
    + cbn. split; [by left | intros [Hx|[[=] _]]; done].
Qed.

Lemma announceAll_inv r pa base c keys : forall first s touched s' touched',
  announceAll cfg alloc r pa base c first keys s touched = Ret (s', touched') -> inv touched s -> inv touched' s'.
Proof.
  induction keys as [|k keys IH]; intros first s touched s' touched'; cbn [announceAll]; [intros [= <- <-]; done|].
  destruct (_ && _); [discriminate|]. destruct (applyIngressPolicy _ _ _); [apply IH|]. intros H Hi. eapply IH; [exact H|].
  eapply inv_same; [apply unstale_same|]. apply (inv_mono ((touched ∪ {[np_nlri k]}) ∪ {[np_nlri k]})); [rewrite <- union_assoc_L, union_idemp_L; done|].
  apply insertIn_inv; [apply eraseIn_inv, Hi | rewrite eraseIn_peerIn; apply lookup_delete_eq | done].
Qed.

Lemma maximumPrefix_same r a addr s : same_tables s (maximumPrefix r a addr s).
Proof. unfold maximumPrefix. repeat case_match; done. Qed.

Lemma recomputeAll_elements now T s s' : recomputeAll now (elements T) s = Ret s' -> inv T s -> inv ∅ s'.
Proof.
  intros H Hi. apply (recomputeAll_inv _ _ T) in H as [H1 H2]; [|done]. split; [done|]. eapply inv_loc_mono; [|exact H2].
  rewrite list_to_set_elements_L, difference_diag_L. done.
Qed.

Lemma update_inv now addr u s s' : onParsedUpdateFromPeer cfg resolveIgpMetric alloc order now addr u s = Ret s' -> inv ∅ s -> inv ∅ s'.
Proof.
  unfold onParsedUpdateFromPeer. destruct (neighbors (out s) !! addr) as [peer|]; [|intros [= <-]; done].
  destruct (a ← _; _) as [[a nbr]|]; [|intros [= <-]; done]. intros ((s1 & touched) & H1 & H)%outcome_bind_ret_inv Hi.
  eapply recomputeAll_elements; [exact H|]. eapply inv_same; [apply maximumPrefix_same|].
  set (r := nbr_rid peer) in *. set (soft := _ || _) in *. set (s0 := foldl _ s _) in *.
  assert (H0 : inv (list_to_set (np_nlri <$> pu_withdrawn u)) s0).
  { unfold s0. rewrite <- (union_empty_l_L (list_to_set _)). apply withdrawAll_inv, Hi. }
  unfold announcements in H1. destruct (pu_attrs u) as [pa|]; [|injection H1 as <- <-; exact H0].
  eapply announceAll_inv; [exact H1|]. destruct (pu_announcements u); destruct soft; (eapply inv_same; [|exact H0]; done).
Qed.

Lemma eraseKeys_inv T r l : forall s, inv T s -> inv (T ∪ list_to_set (np_nlri <$> l)) (foldr (fun k => eraseIn r k) s l).
Proof.
  induction l as [|k l IH]; intros s Hi; cbn; [rewrite union_empty_r_L; done|].
  apply IH, (eraseIn_inv _ r k) in Hi. eapply inv_mono; [|exact Hi].
  rewrite (union_comm_L {[np_nlri k]}), union_assoc_L. done.
Qed.

Lemma eraseKeys_peerIn r l s : peerIn r (foldr (fun k => eraseIn r k) s l) = foldr delete (peerIn r s) l.
Proof. induction l as [|k l IH]; cbn; [done|]. rewrite eraseIn_peerIn, IH. done. Qed.

Lemma eraseAll_peerIn r s : peerIn r (eraseAll r s) = ∅.
Proof.
  unfold eraseAll. rewrite eraseKeys_peerIn. apply map_eq. intros k. rewrite foldr_delete_lookup, lookup_empty.
  case_bool_decide as H; [done|]. destruct (peerIn r s !! k) as [p|] eqn:E; [|done]. exfalso. apply H.
  apply list_elem_of_fmap. exists (k, p). split; [done | apply elem_of_map_to_list, E].
Qed.

Lemma cancelStale_same r s : same_tables s (cancelStaleTimers r s).
Proof. unfold cancelStaleTimers. case_match; done. Qed.

(** An empty table can go. *)
Lemma dropTable_inv T r s : inv T s -> peerIn r s = ∅ -> inv T (on_in (delete r) s).
Proof.
  intros [[H1 H2] H3] He. assert (Hh : forall w p, holds (on_in (delete r) s) w p <-> holds s w p).
  { intros [r' k|m] p; cbn; [|done]. unfold peerIn at 1. cbn. destruct (decide (r = r')) as [<-|Hne].
    - rewrite lookup_delete_eq, He. done.
    - rewrite lookup_delete_ne by done. done. }
  split; [split|].
  - intros w p Hw%Hh. apply H1, Hw.
  - intros w w' p Hw%Hh Hw'%Hh. eapply H2; done.
  - intros n Hn. destruct (H3 n Hn) as [Ha Hb]. split.
    + intros lr p Hl Hp. destruct (Ha lr p Hl Hp) as (w & Hw & Hp'). exists w. split; [done|]. by apply Hh.
    + intros w p Hw Hp%Hh. eapply Hb; done.
Qed.

Lemma eraseAll_inv T r s : inv T s -> inv (T ∪ list_to_set (np_nlri <$> (map_to_list (peerIn r s)).*1)) (on_in (delete r) (eraseAll r s)).
Proof. intros Hi. apply dropTable_inv; [by apply eraseKeys_inv | apply eraseAll_peerIn]. Qed.

(** The state in which [invalidatePeer] looks for the routes of the peer. *)
Definition forgotten (r : Z) (s : AfState) : AfState :=
  let s := on_outbound (on_mrai (delete r)) s in
  let s := match peers s !! r with Some a => on_outbound (on_neighbors (alter clearFlags a)) s | None => s end in
  on_outbound (fun o => on_out (delete r) (on_defaults (fun d => d ∖ {[r]}) o)) (on_pre (delete r) (cancelStaleTimers r s)).

Lemma forgotten_same r s : same_tables s (forgotten r s).
Proof.
  unfold forgotten. apply same_out, same_pre. eapply same_tables_trans; [|apply cancelStale_same]. by destruct (peers _ !! r).
Qed.

Lemma invalidatePeer_inv now r s s' : invalidatePeer cfg resolveIgpMetric order now r s = Ret s' -> inv ∅ s -> inv ∅ s'.
Proof.
  unfold invalidatePeer. fold (forgotten r s). intros H Hi. apply (inv_same _ _ _ (forgotten_same r s)) in Hi.
  set (s0 := forgotten r s) in *. clearbody s0. destruct (adjRibIn s0 !! r) as [t|] eqn:Er; [|injection H as <-; exact Hi].
  assert (Et : t = peerIn r s0) by (unfold peerIn; rewrite Er; done). subst t.
  eapply recomputeAll_elements; [exact H|]. rewrite <- (union_empty_l_L (list_to_set _)). by apply eraseAll_inv.
Qed.

Lemma purgeStale_inv now r s s' : purgeStalePeer cfg resolveIgpMetric order now r s = Ret s' -> inv ∅ s -> inv ∅ s'.
Proof.
  unfold purgeStalePeer. destruct (stalePeerNlris s !! r) as [l|]; [|intros [= <-]; done]. case_bool_decide; [intros [= <-]; done|].
  set (keys := List.filter _ _). intros H' Hi. eapply recomputeAll_elements; [exact H'|].
  eapply (inv_same _ (foldr (fun k => eraseIn r k) s keys)); [done|]. eapply inv_mono; [|apply eraseKeys_inv, Hi].
  rewrite union_empty_l_L. intros n Hn. apply elem_of_list_to_set, list_elem_of_fmap in Hn as (k & -> & Hk).
  apply list_elem_of_In, filter_In in Hk as [_ Hk]. by apply bool_decide_eq_true in Hk.
Qed.

Lemma replaceNetwork_inv now n b s : inv ∅ s -> inv {[n]} (replaceNetwork cfg alloc now n b s).
Proof.
  intros Hi. unfold replaceNetwork. set (s0 := match networkLocalRoutes s !! n with Some p => _ | None => s end).
  assert (H0 : inv {[n]} s0 /\ networkLocalRoutes s0 !! n = None).
  { unfold s0. destruct (networkLocalRoutes s !! n) as [q|] eqn:Eq; [|split; [eapply inv_mono; [|exact Hi]; apply empty_subseteq | exact Eq]].
    split; [|apply lookup_delete_eq]. rewrite <- (union_empty_l_L {[n]}).
    apply (forget_inv ∅ n q (OwnNetwork n) s); [done | exact Eq | done | | done | done | done].
    intros [r k|m] p; cbn; [split; [done | tauto]|]. rewrite lookup_delete_Some. split; [intros [? ?]; split; [done | congruence] | intros [? ?]; split; [congruence | done]]. }
  clearbody s0. destruct H0 as [H0 Hnone]. destruct b; [|done]. rewrite <- (union_idemp_L {[n]}).
  eapply (create_inv {[n]} n (alloc (heap s0)) (OwnNetwork n)); [exact H0 | | done | | apply alloc_fresh | | done | done | done]; [cbn; congruence | done |].
  intros [r k|m] p; cbn; [split; [by left | intros [Hx|[[=] _]]; done]|]. rewrite lookup_insert_Some.
  split; [intros [[<- <-]|[_ Hx]]; [by right | by left] | intros [Hx|[[= ->] ->]]; [right | by left]]. split; [congruence | done].
Qed.

Lemma network_inv now n b s s' : onNetworkRibChanged cfg resolveIgpMetric alloc order now n b s = Ret s' -> inv ∅ s -> inv ∅ s'.
Proof.
  intros H Hi. apply (recomputeNlri_inv _ _ {[n]}) in H as [H1 H2]; [|by apply replaceNetwork_inv].
  split; [done|]. eapply inv_loc_mono; [|exact H2]. rewrite difference_diag_L. done.
Qed.

Lemma replaceNetwork_sop now n b s : peers (replaceNetwork cfg alloc now n b s) = peers s /\ out (replaceNetwork cfg alloc now n b s) = out s.
Proof. unfold replaceNetwork. by destruct (networkLocalRoutes s !! n), b. Qed.

Lemma adjOut_same now n b s s' : adjOut cfg now n b s = Ret s' -> same_tables s s'.
Proof. intros (o & -> & _)%adjOut_frame. done. Qed.

Lemma scan_same now s s' : scan cfg now s = Ret s' -> same_tables s s'.
Proof.
  unfold scan. generalize (map_to_list (locRib s)) as l. intros l. revert s. induction l as [|[n lr] l IH]; intros s; [intros [= <-]; done|].
  intros (s1 & H1%adjOut_same & H)%outcome_bind_ret_inv. eapply same_tables_trans; [exact H1 | by apply IH].
Qed.

Lemma drain_same now r s s' : drainMraiPending cfg now r s = Ret s' -> same_tables s s'.
Proof.
  unfold drainMraiPending. destruct (mraiState (out s) !! r) as [ms|]; [|intros [= <-]; done]. intros (s1 & H1 & H)%outcome_bind_ret_inv.
  injection H as <-. apply same_out. set (s0 := on_outbound _ s) in H1. eapply (same_tables_trans _ s0); [done|]. clearbody s0. revert H1.
  generalize (elements (pending ms)) as l. intros l. revert s0. induction l as [|n l IH]; intros s0; [intros [= <-]; done|].
  intros (s2 & H2%adjOut_same & H)%outcome_bind_ret_inv. eapply same_tables_trans; [exact H2 | by apply IH].
Qed.

Lemma onNhtChange_same now nh b s : same_tables s (onNhtChange cfg now nh b s).
Proof. unfold onNhtChange. repeat case_match; done. Qed.

Lemma recomputeAllAggregates_same s s' : recomputeAllAggregates cfg s = Ret s' -> same_tables s s'.
Proof.
  unfold recomputeAllAggregates. set (s0 := foldr _ _ _).
  assert (H0 : same_tables s s0).
  { unfold s0. generalize (map_to_list (aggregateStates (out (set_aggregateTimer false s)))) as l. intros l. induction l as [|kv l IH]; cbn [foldr]; [done|].
    unfold dropAggregate at 1. destruct (existsb _ _); [exact IH | apply same_out, IH]. }
  clearbody s0. generalize (AGGREGATE_ADDRESS cfg) as l. intros l. revert s0 H0. induction l as [|c l IH]; intros s0 H0; cbn [recomputeAggregates]; [intros [= <-]; done|].
  intros (s1 & H1 & H)%outcome_bind_ret_inv. apply (IH s1); [|exact H]. eapply same_tables_trans; [exact H0|].
  unfold recomputeAggregate in H1. apply outcome_bind_ret_inv in H1 as (ms & _ & H1). injection H1 as <-. destruct ms; [destruct (active _)|]; done.
Qed.

Lemma onPeerEstablished_same now addr s s' : onPeerEstablished cfg now addr s = Ret s' -> same_tables s s'.
Proof.
  unfold onPeerEstablished. destruct (neighbors (out s) !! addr) as [n|]; [|intros [= <-]; done].
  destruct (session n) as [ses|]; [|intros [= <-]; done]. set (s0 := if enhancedRR ses then _ else s). intros (s1 & H1 & H)%outcome_bind_ret_inv.
  injection H as <-. assert (H0 : same_tables s s0) by (unfold s0; by destruct (enhancedRR ses)). apply scan_same in H1.
  eapply same_tables_trans; [exact H0|]. eapply same_tables_trans; [exact H1|]. by destruct (enhancedRR ses).
Qed.

(** The scan of the dampened prefixes releases only those it recomputes. *)
Lemma scan_releases params now s n :
  n ∉ (List.filter (fun kv => (checkReuse (cmath (DAMPENING cfg)) params now kv.2).2) (map_to_list (dampenTable s))).*1 ->
  dampened s n ->
  dampened (on_dampen (omap (fun st => let st := scanned cfg params now st in if isStale st then None else Some st)) s) n.
Proof.
  intros Hn (Hon & st & Hst & Hsup). split; [exact Hon|]. destruct (checkReuse (cmath (DAMPENING cfg)) params now st) as [st' b] eqn:Ec.
  assert (Eb : b = false).
  { destruct b; [|done]. exfalso. apply Hn. apply list_elem_of_fmap. exists (n, st). split; [done|].
    rewrite list_elem_of_In, filter_In, <- list_elem_of_In, elem_of_map_to_list. cbn. rewrite Ec. done. }
  subst b. pose proof (checkReuse_false (cmath (DAMPENING cfg)) params now st) as Hs. rewrite Ec in Hs. cbn in Hs.
  exists st'. cbn. rewrite lookup_omap, Hst. cbn. unfold scanned. rewrite Ec. unfold isStale. rewrite Hs by done. rewrite Hsup. done.
Qed.

Lemma scan_inv params now s : inv ∅ s ->
  inv (list_to_set (List.filter (fun kv => (checkReuse (cmath (DAMPENING cfg)) params now kv.2).2) (map_to_list (dampenTable s))).*1)
    (on_dampen (omap (fun st => let st := scanned cfg params now st in if isStale st then None else Some st)) s).
Proof.
  intros [[A B] Hl]. split; [split; [exact A | exact B]|]. intros n Hn. rewrite elem_of_list_to_set in Hn.
  destruct (Hl n (not_elem_of_empty _)) as [Ha Hb]. split; [exact Ha|].
  intros w p Hw Hp. destruct (Hb w p Hw Hp) as [|Hd]; [by left|]. right. by apply scan_releases.
Qed.

Lemma dampenTimer_inv now s s' : onDampenReuseTimer cfg resolveIgpMetric order now s = Ret s' -> inv ∅ s -> inv ∅ s'.
Proof.
  unfold onDampenReuseTimer. intros (params & _ & H)%outcome_bind_ret_inv Hi. apply outcome_bind_ret_inv in H as (s2 & H2 & H). injection H as <-.
  assert (Hi' : inv ∅ (set_dampenTimer false s)) by (eapply inv_same; [|exact Hi]; done).
  eapply recomputeAll_inv in H2; [|apply (scan_inv params now _ Hi')]. rewrite difference_diag_L in H2.
  destruct (existsb _ _); [|exact H2]. eapply inv_same; [apply startDampen_same | exact H2].
Qed.

Lemma step_inv now op s s' : step cfg resolveIgpMetric alloc order now op s = Ret s' -> inv ∅ s -> inv ∅ s'.
Proof.
  intros H Hi. destruct op; cbn [step] in H.
  - unfold onSessionEstablished in H. set (s0 := act _ _) in H. apply (inv_same _ _ s0) in Hi; [|done].
    destruct (activeFamily ses); [|injection H as <-; exact Hi]. eapply inv_same; [eapply onPeerEstablished_same, H | exact Hi].
  - unfold onSessionDown in H. destruct (session_of (out s) addr) as [ses|]; [|injection H as <-; exact Hi].
    apply outcome_bind_ret_inv in H as (s1 & H1 & H). injection H as <-. eapply inv_same; [apply same_out, same_tables_refl|].
    destruct (peerRid ses =? 0); [injection H1 as <-; eapply inv_same; [|exact Hi]; done|].
    apply outcome_bind_ret_inv in H1 as (s2 & H2 & H1). injection H1 as <-. apply (inv_same _ s2); [done|].
    eapply invalidatePeer_inv; [exact H2|]. eapply inv_same; [|exact Hi]. done.
  - eapply update_inv; done.
  - destruct (session_of (out s) addr) as [ses|]; injection H as <-; [|exact Hi]. eapply inv_same; [|exact Hi].
    unfold onPeerBorr. eapply same_tables_trans; [apply (cancelStale_same (peerRid ses))|]. by destruct (adjRibIn _ !! _).
  - destruct (session_of (out s) addr) as [ses|]; [|injection H as <-; exact Hi].
    eapply purgeStale_inv; [exact H|]. eapply inv_same; [apply cancelStale_same | exact Hi].
  - destruct (neighbors (out s) !! addr) as [n|]; [destruct (session n) as [ses|]|]; injection H as <-; try exact Hi. eapply inv_same; [apply same_out, same_tables_refl | exact Hi].
  - unfold staleTimerFires in H. destruct (default _ _) as [a b]. eapply purgeStale_inv; [exact H|]. eapply inv_same; [|exact Hi]. done.
  - eapply inv_same; [eapply drain_same, H | exact Hi].
  - injection H as <-. eapply inv_same; [apply onNhtChange_same | exact Hi].
  - eapply recomputeAll_elements; [exact H|]. eapply inv_mono; [apply empty_subseteq|]. eapply inv_same; [|exact Hi]. done.
  - eapply dampenTimer_inv; done.
  - eapply network_inv; done.
  - eapply inv_same; [eapply recomputeAllAggregates_same, H | exact Hi].
  - eapply inv_same; [eapply scan_same, H | exact Hi].
  - injection H as <-. eapply inv_same; [apply same_out, same_tables_refl | exact Hi].
Qed.

Lemma reach_inv nbrs s : reach cfg resolveIgpMetric alloc order nbrs s -> inv ∅ s.
Proof.
  induction 1 as [H|s now op s' _ IH _ H]; [|eapply step_inv; done].
  assert (Hn : forall w p, ~ holds (Af_new nbrs) w p) by (intros [r k|n] p; cbn; unfold peerIn; cbn; rewrite ?lookup_empty; done).
  split; [split; intros w p; [|intros q] |]; [intros Hx; by apply Hn in Hx ..|]. intros n _. split; [intros lr p Hx; cbn in Hx; by rewrite lookup_empty in Hx|].
  intros w p _ Hx. by apply Hn in Hx.
Qed.

(** ** Sessions and the neighbors' tables *)

(** The sessions stay, and what the neighbors were told keeps agreeing with
    their tables. *)
Definition af_kept (s s' : AfState) : Prop := peers s' = peers s /\ kept cfg (out s) (out s').

Lemma af_kept_refl s : af_kept s s.
Proof. split; [done | apply kept_refl]. Qed.
Lemma af_kept_trans s1 s2 s3 : af_kept s1 s2 -> af_kept s2 s3 -> af_kept s1 s3.
Proof. intros [E1 K1] [E2 K2]. split; [congruence | eapply kept_trans; done]. Qed.

Lemma af_kept_out s s' : peers s' = peers s -> out s' = out s -> af_kept s s'.
Proof. intros Hp Ho. split; [done | rewrite Ho; apply kept_refl]. Qed.

Lemma act_kept a s : match a with Opened _ | SendUpdate _ _ | SendOriginated _ _ => False | _ => True end -> af_kept s (act a s).
Proof. intros Ha. split; [done | apply emit_kept, Ha]. Qed.

Lemma on_outbound_kept f s : kept cfg (out s) (f (out s)) -> af_kept s (on_outbound f s).
Proof. done. Qed.

Lemma adjOut_kept now n b s s' : adjOut cfg now n b s = Ret s' -> af_kept s s'.
Proof. intros (o & -> & H)%adjOut_frame. split; [done | eapply recompute_kept, H]. Qed.

Lemma scheduleAggregate_kept now s : af_kept s (scheduleAggregateRecompute cfg now s).
Proof.
  unfold scheduleAggregateRecompute. destruct (aggregateTimer s); [apply af_kept_refl|].
  eapply af_kept_trans; [by apply (act_kept (PostAfter (now + seconds (BGP_AGGREGATE_TIMER cfg)))) | by apply af_kept_out].
Qed.

Lemma registerNht_kept n nh s : af_kept s (registerNht cfg n nh s).
Proof. unfold registerNht. destruct (negb _); by apply af_kept_out. Qed.

Lemma unregisterNht_kept n s : af_kept s (unregisterNht n s).
Proof. unfold unregisterNht. repeat case_match; by apply af_kept_out. Qed.

Lemma installToRib_kept lr s s' : installToRib cfg lr s = Ret s' -> af_kept s s'.
Proof.
  unfold installToRib. intros (r & _ & H)%outcome_bind_ret_inv. apply outcome_bind_ret_inv in H as (i & _ & H). injection H as <-.
  eapply af_kept_trans; [by apply (act_kept (InstallRoutes [i])) | apply registerNht_kept].
Qed.

Lemma startDampen_kept now s : af_kept s (startDampenReuseTimer now s).
Proof.
  unfold startDampenReuseTimer. destruct (dampenReuseTimer s); [apply af_kept_refl|].
  eapply af_kept_trans; [by apply (act_kept (PostAfter (now + seconds 5))) | by apply af_kept_out].
Qed.

Lemma dampen_kept now n reachable had s s1 hold : dampen cfg now n reachable had s = Ret (s1, hold) -> af_kept s s1.
Proof.
  unfold dampen. destruct (negb _); [intros [= <- <-]; apply af_kept_refl|]. intros (params & _ & H)%outcome_bind_ret_inv. cbv zeta in H.
  assert (Hput : forall st, af_kept s (on_dampen (insert n st) s)) by (intros st; by apply af_kept_out).
  assert (Hstart : forall st, af_kept s (startDampenReuseTimer now (on_dampen (insert n st) s)))
    by (intros st; eapply af_kept_trans; [apply (Hput st) | apply startDampen_kept]).
  repeat case_match; simplify_eq; first [apply Hput | apply Hstart].
Qed.

Lemma updateLocRib_kept now n best s s' : updateLocRib cfg now n best s = Ret s' -> af_kept s s'.
Proof.
  unfold updateLocRib. destruct best as [lr|]; intros H.
  - apply outcome_bind_ret_inv in H as (s1 & H1%adjOut_kept & H). eapply af_kept_trans; [exact H1|].
    eapply af_kept_trans; [apply (scheduleAggregate_kept now)|]. destruct (match locRib s !! n with Some old => _ | None => true end);
      [eapply installToRib_kept, H | injection H as <-; apply af_kept_refl].
  - destruct (locRib s !! n); [|injection H as <-; apply af_kept_refl].
    apply outcome_bind_ret_inv in H as (s1 & H1%adjOut_kept & H). injection H as <-.
    eapply af_kept_trans; [|apply scheduleAggregate_kept]. eapply af_kept_trans; [|exact H1].
    eapply af_kept_trans; [apply (unregisterNht_kept n) | by apply (act_kept (WithdrawRoute n))].
Qed.

Lemma recomputeNlri_kept now n s s' : recomputeNlri now n s = Ret s' -> af_kept s s'.
Proof.
  unfold BgpAf.recomputeNlri. set (s0 := on_heap _ s). intros (best & _ & H)%outcome_bind_ret_inv.
  apply outcome_bind_ret_inv in H as ([s1 hold] & Hd%dampen_kept & H).
  apply (af_kept_trans _ s0); [by apply af_kept_out|]. eapply af_kept_trans; [exact Hd|].
  destruct hold; [injection H as <-; apply af_kept_refl | eapply updateLocRib_kept, H].
Qed.

Lemma recomputeAll_kept now l : forall s s', recomputeAll now l s = Ret s' -> af_kept s s'.
Proof.
  induction l as [|n l IH]; intros s s' H; [injection H as <-; apply af_kept_refl|].
  cbn [BgpAf.recomputeAll] in H. apply outcome_bind_ret_inv in H as (s1 & H1%recomputeNlri_kept & H). eapply af_kept_trans; [exact H1 | by apply IH].
Qed.

Lemma dampenTimer_kept now s s' : onDampenReuseTimer cfg resolveIgpMetric order now s = Ret s' -> af_kept s s'.
Proof.
  unfold onDampenReuseTimer. intros (params & _ & H)%outcome_bind_ret_inv. apply outcome_bind_ret_inv in H as (s2 & H2 & H). injection H as <-.
  eapply (af_kept_trans _ s2); [eapply af_kept_trans; [|eapply recomputeAll_kept, H2]; by apply af_kept_out|].
  destruct (existsb _ _); [apply startDampen_kept | apply af_kept_refl].
Qed.

(** Changes of the inbound half alone. *)
Definition same_out_peers (s s' : AfState) : Prop := peers s' = peers s /\ out s' = out s.

Lemma sop_kept s s' : same_out_peers s s' -> af_kept s s'.
Proof. intros [H1 H2]. by apply af_kept_out. Qed.
Lemma sop_trans s1 s2 s3 : same_out_peers s1 s2 -> same_out_peers s2 s3 -> same_out_peers s1 s3.
Proof. unfold same_out_peers. intros [? ?] [? ?]. split; congruence. Qed.

Lemma eraseIn_sop r k s : same_out_peers s (eraseIn r k s).
Proof. unfold eraseIn, dropBest. repeat case_match; done. Qed.

Lemma unstale_sop r n s : same_out_peers s (unstale r n s).
Proof. unfold unstale. case_match; done. Qed.

Lemma withdrawOne_sop r soft k s : same_out_peers s (withdrawOne r soft k s).
Proof.
  unfold withdrawOne. eapply sop_trans; [|apply unstale_sop]. eapply sop_trans; [apply (eraseIn_sop r k)|]. by destruct soft.
Qed.

Lemma withdrawAll_sop r soft l : forall s, same_out_peers s (foldl (fun s k => withdrawOne r soft k s) s l).
Proof. induction l as [|k l IH]; intros s; cbn; [done|]. eapply sop_trans; [apply withdrawOne_sop | apply IH]. Qed.

Lemma eraseKeys_sop r l s : same_out_peers s (foldr (fun k => eraseIn r k) s l).
Proof. induction l as [|k l IH]; cbn; [done | eapply sop_trans; [exact IH | apply eraseIn_sop]]. Qed.

Lemma announceAll_sop r pa base c keys : forall first s touched s' touched',
  announceAll cfg alloc r pa base c first keys s touched = Ret (s', touched') -> same_out_peers s s'.
Proof.
  induction keys as [|k keys IH]; intros first s touched s' touched'; cbn [announceAll]; [intros [= <- <-]; done|].
  destruct (_ && _); [discriminate|]. destruct (applyIngressPolicy _ _ _); [apply IH|]. intros H. eapply sop_trans; [|eapply IH, H].
  eapply sop_trans; [|apply unstale_sop]. eapply sop_trans; [apply (eraseIn_sop r k) | done].
Qed.

Lemma maximumPrefix_kept r a addr s : af_kept s (maximumPrefix r a addr s).
Proof.
  unfold maximumPrefix. destruct (neighbors (out s) !! a) as [nbr|] eqn:Ha; [|apply af_kept_refl].
  destruct (MAXIMUM_PREFIX _); [|apply af_kept_refl]. set (n' := setWarned _ _ nbr). set (s0 := on_outbound _ s).
  assert (H0 : af_kept s s0) by (split; [done|]; apply (insert_static cfg (out s) a nbr); done).
  set (hit := _ && _). destruct hit; [eapply af_kept_trans; [exact H0 | by apply act_kept] | exact H0].
Qed.

Lemma update_kept now addr u s s' : onParsedUpdateFromPeer cfg resolveIgpMetric alloc order now addr u s = Ret s' -> af_kept s s'.
Proof.
  unfold onParsedUpdateFromPeer. destruct (neighbors (out s) !! addr) as [peer|]; [|intros [= <-]; apply af_kept_refl].
  destruct (a ← _; _) as [[a nbr]|]; [|intros [= <-]; apply af_kept_refl]. intros ((s1 & touched) & H1 & H)%outcome_bind_ret_inv.
  eapply af_kept_trans; [|eapply recomputeAll_kept, H]. eapply af_kept_trans; [|apply maximumPrefix_kept]. apply sop_kept.
  set (r := nbr_rid peer) in *. set (soft := _ || _) in *. set (s0 := foldl _ s _) in *.
  assert (H0 : same_out_peers s s0) by apply withdrawAll_sop.
  eapply sop_trans; [exact H0|]. unfold announcements in H1. destruct (pu_attrs u) as [pa|]; [|injection H1 as <- <-; done].
  eapply sop_trans; [|eapply announceAll_sop, H1]. destruct (pu_announcements u), soft; done.
Qed.

Lemma cancelStale_sop r s : same_out_peers s (cancelStaleTimers r s).
Proof. unfold cancelStaleTimers. case_match; done. Qed.

Lemma purgeStale_kept now r s s' : purgeStalePeer cfg resolveIgpMetric order now r s = Ret s' -> af_kept s s'.
Proof.
  unfold purgeStalePeer. destruct (stalePeerNlris s !! r) as [l|]; [|intros [= <-]; apply af_kept_refl].
  case_bool_decide as El; [intros [= <-]; apply af_kept_refl|]. intros H%recomputeAll_kept. eapply af_kept_trans; [|exact H].
  apply sop_kept. eapply sop_trans; [apply eraseKeys_sop | done].
Qed.

Lemma scan_kept now s s' : scan cfg now s = Ret s' -> af_kept s s'.
Proof.
  unfold scan. generalize (map_to_list (locRib s)) as l. intros l. revert s. induction l as [|[n lr] l IH]; intros s; [intros [= <-]; apply af_kept_refl|].
  intros (s1 & H1%adjOut_kept & H)%outcome_bind_ret_inv. eapply af_kept_trans; [exact H1 | by apply IH].
Qed.

Lemma drain_kept now r s s' : drainMraiPending cfg now r s = Ret s' -> af_kept s s'.
Proof.
  unfold drainMraiPending. destruct (mraiState (out s) !! r) as [ms|]; [|intros [= <-]; apply af_kept_refl]. intros (s1 & H1 & H)%outcome_bind_ret_inv.
  injection H as <-. set (s0 := on_outbound _ s) in H1. assert (H0 : af_kept s s0) by (apply on_outbound_kept; by apply silent_kept).
  apply (af_kept_trans _ s1); [|apply on_outbound_kept; by apply silent_kept]. clearbody s0. revert s0 H0 H1.
  generalize (elements (pending ms)) as l. intros l. induction l as [|n l IH]; intros s0 H0; [intros [= <-]; done|].
  intros (s2 & H2%adjOut_kept & H)%outcome_bind_ret_inv. apply (IH s2); [eapply af_kept_trans; done | done].
Qed.

Lemma onNhtChange_kept now nh b s : af_kept s (onNhtChange cfg now nh b s).
Proof.
  unfold onNhtChange. destruct (nhtTable s !! nh) as [e|]; [|apply af_kept_refl]. destruct (eqb _ _); [apply af_kept_refl|].
  set (s0 := set_nht _ _ _ s). apply (af_kept_trans _ s0); [by apply af_kept_out|]. destruct (nhtTimer s0); [apply af_kept_refl|].
  by apply (act_kept (PostAfter (now + seconds (default 5 (BGP_NEXT_HOP_TRIGGER_DELAY cfg)))) s0).
Qed.

Lemma on_aggregates_kept f agg st s : kept cfg (out s) (f (out s)) -> configured cfg agg -> af_kept s (on_outbound (fun o => on_aggregates (insert agg st) (f o)) s).
Proof.
  intros H Ha. apply on_outbound_kept. eapply kept_trans; [exact H|]. apply aggregates_kept. intros n [x Hx].
  apply lookup_insert_Some in Hx as [[-> _]|[_ Hx]]; [by right | left; by exists x].
Qed.

(** An aggregate with a state is configured, so none is dropped while the
    settings stay. *)
Lemma dropAggregates_kept s l : l ⊆ map_to_list (aggregateStates (out s)) -> af_kept s (foldr (dropAggregate cfg) (set_aggregateTimer false s) l).
Proof.
  intros Hl. set (s0 := foldr _ _ _).
  assert (Ho : exists o, s0 = on_outbound (fun _ => o) (set_aggregateTimer false s) /\ adjRibOut o = adjRibOut (out s) /\ neighbors o = neighbors (out s) /\
    exists acts, log o = log (out s) ++ acts /\ forall b t, foldl (hear_rib b) t acts = t).
  { unfold s0. clear Hl. induction l as [|kv l (o & E & E1 & E2 & acts & E3 & E4)]; cbn [foldr].
    { exists (out s). repeat (split; [done|]). exists []. rewrite app_nil_r. done. }
    rewrite E. unfold dropAggregate. destruct (existsb _ _); [exists o; repeat (split; [done|]); by exists acts|].
    eexists. split; [reflexivity|]. cbn. destruct (active kv.2); [|repeat (split; [done|]); by exists acts].
    destruct (withdrawAggregate_originated kv.1 o) as [(acts' & L & B) A N _]. rewrite A, N. repeat (split; [done|]). exists (acts ++ acts').
    rewrite L, E3, app_assoc. split; [done|]. intros b t. rewrite foldl_app, E4, B. done. }
  destruct Ho as (o & E & E1 & E2 & acts & E3 & E4). split; [by rewrite E|]. apply (quiet_kept _ _ _ acts); rewrite ?E; [done..| | ].
  - intros b. cbn. by rewrite E2.
  - intros Hw. pose proof (own_states cfg _ Hw) as Hown. rewrite <- E.
    assert (Hs : s0 = set_aggregateTimer false s); [|rewrite Hs; exact Hw].
    unfold s0. clear - Hl Hown. induction l as [|[agg st] l IH]; cbn [foldr]; [done|]. rewrite IH by (intros x Hx; apply Hl; by right).
    unfold dropAggregate. assert (Hin : (agg, st) ∈ map_to_list (aggregateStates (out s))) by (apply Hl; left). apply elem_of_map_to_list in Hin.
    destruct (Hown agg) as (c & Hc & Ea); [by exists st|].
    assert (Hx : existsb (fun c => bool_decide (agg_prefix c = agg)) (AGGREGATE_ADDRESS cfg) = true)
      by (apply existsb_exists; exists c; split; [by apply list_elem_of_In | by apply bool_decide_eq_true]). cbn [fst]. rewrite Hx. done.
Qed.

Lemma recomputeAllAggregates_kept s s' : recomputeAllAggregates cfg s = Ret s' -> af_kept s s'.
Proof.
  unfold recomputeAllAggregates. set (s0 := foldr _ _ _). assert (H0 : af_kept s s0) by by apply dropAggregates_kept.
  clearbody s0. assert (Hl : AGGREGATE_ADDRESS cfg ⊆ AGGREGATE_ADDRESS cfg) by done. revert Hl. generalize (AGGREGATE_ADDRESS cfg) at 1 3 as l. intros l. revert s0 H0.
  induction l as [|c l IH]; intros s0 H0 Hl; cbn [recomputeAggregates]; [intros [= <-]; done|].
  intros (s1 & H1 & H)%outcome_bind_ret_inv. apply (IH s1); [|intros x Hx; apply Hl; by right | exact H]. eapply af_kept_trans; [exact H0|].
  assert (Hc : configured cfg (agg_prefix c)) by (exists c; split; [apply Hl; left | done]).
  unfold recomputeAggregate in H1. apply outcome_bind_ret_inv in H1 as (ms & _ & H1). injection H1 as <-. destruct ms as [|m ms].
  - destruct (active _); [apply (on_aggregates_kept (withdrawAggregate (agg_prefix c))); [by apply withdrawAggregate_kept | done] | apply (on_aggregates_kept id); [apply kept_refl | done]].
  - set (st' := mkAggregate true _). apply (on_aggregates_kept (sendAggregateToAllPeers cfg (agg_prefix c) st')); [by apply sendAggregateToAllPeers_kept | done].
Qed.

Lemma onPeerEstablished_kept now addr s s' : onPeerEstablished cfg now addr s = Ret s' -> af_kept s s'.
Proof.
  unfold onPeerEstablished. destruct (neighbors (out s) !! addr) as [n|] eqn:Hn; [|intros [= <-]; apply af_kept_refl].
  destruct (session n) as [ses|]; [|intros [= <-]; apply af_kept_refl]. set (s0 := if enhancedRR ses then _ else s). intros (s1 & H1 & H)%outcome_bind_ret_inv.
  injection H as <-. assert (Hn0 : neighbors (out s0) !! addr = Some n) by (unfold s0; by destruct (enhancedRR ses)). assert (H0 : af_kept s s0) by (unfold s0; destruct (enhancedRR ses); [by apply act_kept | apply af_kept_refl]). apply scan_kept in H1.
  eapply af_kept_trans; [exact H0|]. eapply af_kept_trans; [exact H1|]. set (s2 := on_outbound _ s1).
  apply (af_kept_trans _ s2); [|destruct (enhancedRR ses); [by apply act_kept | apply af_kept_refl]].
  apply on_outbound_kept, originate_all_kept. destruct H1 as [_ [Hs _ _ _ _]]. specialize (Hs addr). rewrite Hn0 in Hs.
  destruct (neighbors (out s1) !! addr); [|discriminate]. injection Hs as E _ _. cbn. rewrite E. done.
Qed.

(** What holds of the sessions and the neighbors' tables between events. *)
Record inv_out (s : AfState) : Prop := {
  io_sessions : forall addr ses, session_of (out s) addr = Some ses -> established ses = true /\ peerRid ses <> 0 /\ peers s !! peerRid ses = Some addr;
  io_peers : forall r a, peers s !! r = Some a -> exists ses, session_of (out s) a = Some ses /\ peerRid ses = r;
  io_rids : forall addr n, neighbors (out s) !! addr = Some n -> nbr_rid n = match session n with Some ses => peerRid ses | None => 0 end;
  io_empty : forall r, peers s !! r = None -> peerOut r (out s) = ∅;
  io_mirror : mirror (out s);
  io_external : external_ok cfg (out s);
  io_own : own_ok cfg (out s)
}.

Lemma sessions_distinct s : (forall addr ses, session_of (out s) addr = Some ses -> established ses = true /\ peerRid ses <> 0 /\ peers s !! peerRid ses = Some addr) ->
  distinct_rids (out s).
Proof. intros Hs a b sa sb (_ & _ & Ha)%Hs (_ & _ & Hb)%Hs _ _ E. congruence. Qed.

Lemma af_kept_inv s s' : af_kept s s' -> inv_out s -> inv_out s'.
Proof.
  intros [Ep [Hn Hm He Hu Hw]] [I1 I2 I3 I4 I5 I6 I7]. pose proof (sessions_distinct s I1) as Hd. split.
  - intros addr ses. rewrite (same_neighbors_session (out s) (out s')), Ep by done. apply I1.
  - intros r a. rewrite Ep. intros (ses & Hs & Hr)%I2. exists ses. rewrite (same_neighbors_session (out s) (out s')) by done. done.
  - intros addr n' Hn'. destruct (same_neighbors_lookup _ _ _ _ Hn Hn') as (n & Hx & _ & Hs & Hr). rewrite <- Hs, <- Hr. by apply (I3 addr).
  - intros r. rewrite Ep. intros Hr. rewrite Hu; [by apply I4|]. intros b ses Hs _ E. apply I1 in Hs as (_ & _ & Hs). congruence.
  - by apply Hm.
  - by apply He.
  - by apply Hw.
Qed.

Lemma session_of_alter f addr o b :
  session_of (on_neighbors (alter f addr) o) b = if decide (b = addr) then n ← neighbors o !! b; session (f n) else session_of o b.
Proof.
  unfold session_of. cbn [neighbors on_neighbors]. destruct (decide (b = addr)) as [->|Hne].
  - rewrite lookup_alter_eq. by destruct (neighbors o !! addr).
  - rewrite lookup_alter_ne by done. done.
Qed.

Lemma neighbors_alter_Some f addr (o : Outbound) b n' : neighbors (on_neighbors (alter f addr) o) !! b = Some n' ->
  exists n, neighbors o !! b = Some n /\ n' = if decide (b = addr) then f n else n.
Proof.
  cbn [neighbors on_neighbors]. destruct (decide (b = addr)) as [->|Hne].
  - rewrite lookup_alter_eq. destruct (neighbors o !! addr) as [n|]; cbn; [intros [= <-]; by exists n | done].
  - rewrite lookup_alter_ne by done. intros H. by exists n'.
Qed.

(** Settings are not changed by what is done to a session. *)
Lemma own_ok_alter f addr (o : Outbound) acts o' : (forall n, cfgs (f n) = cfgs n) -> neighbors o' = alter f addr (neighbors o) ->
  log o' = log o ++ acts -> Forall routed acts -> aggregateStates o' = aggregateStates o -> own_ok cfg o -> own_ok cfg o'.
Proof.
  intros Hf Hn Hl Hr Ha. apply (own_ok_cfgs _ _ _ acts); [|done..|].
  - intros b. rewrite Hn. destruct (decide (b = addr)) as [->|Hne]; [rewrite lookup_alter_eq | rewrite lookup_alter_ne by done; done].
    destruct (neighbors o !! addr); cbn; [rewrite Hf|]; done.
  - intros agg. rewrite Ha. by left.
Qed.

Lemma established_inv now addr ses s s' n :
  neighbors (out s) !! addr = Some n -> session n = None -> established ses = true -> peerRid ses <> 0 -> peers s !! peerRid ses = None ->
  onSessionEstablished cfg now addr ses s = Ret s' -> inv_out s -> inv_out s'.
Proof.
  intros Hn Hnone He H0 Hfree H [I1 I2 I3 I4 I5 I6 I7]. unfold onSessionEstablished in H. set (s0 := act _ _) in H.
  assert (Hk : af_kept s0 s') by (destruct (activeFamily ses); [eapply onPeerEstablished_kept, H | injection H as <-; apply af_kept_refl]).
  eapply af_kept_inv; [exact Hk|]. clear H Hk.
  assert (Hses : forall b, session_of (out s0) b = if decide (b = addr) then Some ses else session_of (out s) b).
  { intros b. change (session_of (out s0) b) with (session_of (on_neighbors (alter (setSession (peerRid ses) (Some ses)) addr) (out s)) b).
    rewrite session_of_alter. destruct (decide (b = addr)) as [->|]; [rewrite Hn|]; done. }
  assert (Hother : forall b sb, session_of (out s) b = Some sb -> b <> addr /\ peerRid sb <> peerRid ses).
  { intros b sb Hb. split; [intros ->; unfold session_of in Hb; rewrite Hn in Hb; cbn in Hb; congruence|].
    apply I1 in Hb as (_ & _ & Hb). congruence. }
  assert (Hout : forall r, peerOut r (out s0) = peerOut r (out s)) by done.
  split.
  - intros b sb. rewrite Hses. cbn [peers s0 act on_outbound on_peers]. destruct (decide (b = addr)) as [->|Hne].
    + intros [= <-]. rewrite lookup_insert_eq. done.
    + intros Hb. pose proof (Hother _ _ Hb) as [_ Hr]. apply I1 in Hb as (? & ? & Hb). rewrite lookup_insert_ne by done. done.
  - intros r a. cbn [peers s0 act on_outbound on_peers]. intros [[<- <-]|[Hr Ha]]%lookup_insert_Some.
    + exists ses. rewrite Hses, decide_True by done. done.
    + apply I2 in Ha as (sa & Ha & Hra). exists sa. pose proof (Hother _ _ Ha) as [Hne _]. rewrite Hses, decide_False by done. done.
  - intros b n' Hb. apply neighbors_alter_Some in Hb as (m & Hm & ->). destruct (decide (b = addr)); [done | by apply (I3 b)].
  - intros r. cbn [peers s0 act on_outbound on_peers]. intros [Hr _]%lookup_insert_None. rewrite Hout. by apply I4.
  - intros b sb Hb Heb. rewrite Hses in Hb. rewrite Hout. cbn [log s0 act on_outbound on_peers out emit on_neighbors]. rewrite heard_rib_app. cbn [foldl hear_rib].
    destruct (decide (b = addr)) as [->|Hne].
    + injection Hb as <-. rewrite bool_decide_true by done. symmetry. by apply I4.
    + rewrite bool_decide_false by done. by apply I5.
  - intros b n' sb k pa Hb Hsb Heb Hx Hk. rewrite Hout in Hk. apply neighbors_alter_Some in Hb as (m & Hm & ->).
    destruct (decide (b = addr)) as [->|Hne]; [|eapply I6; done]. cbn in Hsb. injection Hsb as <-. rewrite I4, lookup_empty in Hk; done.
  - apply (own_ok_alter (setSession (peerRid ses) (Some ses)) addr (out s) [Opened addr]); [done | done | done | by repeat constructor | done | exact I7].
Qed.

(** [invalidatePeer] forgets what a neighbor was told, then recomputes. *)
Lemma forgotten_frame r s : peers (forgotten r s) = peers s /\ log (out (forgotten r s)) = log (out s) /\
  adjRibOut (out (forgotten r s)) = delete r (adjRibOut (out s)) /\ same_neighbors (out s) (out (forgotten r s)).
Proof.
  unfold forgotten. set (s0 := on_outbound _ s). set (sa := match peers s0 !! r with Some a => _ | None => s0 end).
  set (sb := cancelStaleTimers r sa). assert (Hb : same_out_peers sa sb) by apply cancelStale_sop.
  assert (Ha : peers sa = peers s /\ log (out sa) = log (out s) /\ adjRibOut (out sa) = adjRibOut (out s) /\ same_neighbors (out s) (out sa)).
  { unfold sa. destruct (peers s0 !! r) as [a|]; [|done]. split; [done|]. split; [done|]. split; [done|].
    apply (kept_neighbors cfg), (kept_trans _ _ (out s0)); [by apply silent_kept | by apply alter_static]. }
  destruct Ha as (A1 & A2 & A3 & A4), Hb as [B1 B2]. split; [cbn; congruence|]. split; [cbn; congruence|]. split; [cbn; congruence|].
  intros b. cbn. rewrite B2. apply A4.
Qed.

Lemma forgotten_own r s : own_ok cfg (out s) -> own_ok cfg (out (forgotten r s)).
Proof.
  destruct (forgotten_frame r s) as (_ & L & _ & N). apply (own_ok_same _ _ _ []); [exact N | rewrite app_nil_r; exact L | constructor|].
  intros agg. unfold forgotten. cbn. set (sa := match peers _ !! r with Some a => _ | None => _ end).
  destruct (cancelStale_sop r sa) as [_ ->]. unfold sa. destruct (peers _ !! r); by left.
Qed.

Lemma invalidatePeer_kept now r s s' : invalidatePeer cfg resolveIgpMetric order now r s = Ret s' -> af_kept (forgotten r s) s'.
Proof.
  unfold invalidatePeer. fold (forgotten r s). set (s1 := forgotten r s). clearbody s1. intros H.
  destruct (adjRibIn s1 !! r); [|injection H as <-; apply af_kept_refl].
  eapply af_kept_trans; [|eapply recomputeAll_kept, H]. apply sop_kept. eapply sop_trans; [apply eraseKeys_sop | done].
Qed.

Lemma down_inv now addr s s' : onSessionDown cfg resolveIgpMetric order now addr s = Ret s' -> inv_out s -> inv_out s'.
Proof.
  unfold onSessionDown. destruct (session_of (out s) addr) as [ses|] eqn:Hses; [|intros [= <-]; done].
  intros (s3 & H3 & H)%outcome_bind_ret_inv [I1 I2 I3 I4 I5 I6 I7]. injection H as <-. pose proof (I1 _ _ Hses) as (He & H0 & Hp).
  rewrite (proj2 (Z.eqb_neq _ _) H0) in H3. apply outcome_bind_ret_inv in H3 as (s2 & H2 & H3). injection H3 as <-.
  set (s0 := on_outbound _ s) in H2. apply invalidatePeer_kept in H2 as [P2 [N2 M2 E2 U2 W2]].
  set (r := peerRid ses) in *. destruct (forgotten_frame r s0) as (P1 & L1 & O1 & N1).
  assert (W1 : own_ok cfg (out (forgotten r s0))).
  { apply forgotten_own. apply (own_ok_alter (fun n => setSession (nbr_rid n) None n) addr (out s) []);
      [done | done | cbn; rewrite app_nil_r; done | constructor | done | exact I7]. } set (s1 := forgotten r s0) in *. clearbody s1.
  assert (HsB : forall b, session_of (out s1) b = if decide (b = addr) then None else session_of (out s) b).
  { intros b. rewrite (same_neighbors_session (out s0) (out s1)) by done. unfold s0. cbn [out on_outbound]. rewrite session_of_alter.
    destruct (decide (b = addr)); [by destruct (neighbors (out s) !! b) | done]. }
  assert (Hother : forall b sb, b <> addr -> session_of (out s) b = Some sb -> peerRid sb <> r).
  { intros b sb Hne Hb E. apply I1 in Hb as (_ & _ & Hb). rewrite E in Hb. congruence. }
  assert (Hout : forall r', peerOut r' (out s1) = if decide (r' = r) then ∅ else peerOut r' (out s)).
  { intros r'. unfold peerOut. rewrite O1. destruct (decide (r' = r)) as [->|Hne]; [rewrite lookup_delete_eq | rewrite lookup_delete_ne by done]; done. }
  assert (Hd : distinct_rids (out s1)).
  { intros a b sa sb. rewrite !HsB. destruct (decide (a = addr)), (decide (b = addr)); try done. intros Ha Hb _ _ E.
    apply I1 in Ha as (_ & _ & Ha). apply I1 in Hb as (_ & _ & Hb). congruence. }
  assert (Hm : mirror (out s1)).
  { intros b sb. rewrite HsB. destruct (decide (b = addr)) as [|Hne]; [done|]. intros Hb Heb. rewrite L1, Hout.
    rewrite decide_False by (by apply (Hother b)). by apply I5. }
  assert (Hnb : forall b n1, neighbors (out s1) !! b = Some n1 -> exists n, neighbors (out s) !! b = Some n /\ cfgs n1 = cfgs n /\
    (if decide (b = addr) then True else session n1 = session n /\ nbr_rid n1 = nbr_rid n)).
  { intros b n1 Hb. destruct (same_neighbors_lookup _ _ _ _ N1 Hb) as (n0 & Hn0 & Hc & Hsn & Hr).
    apply neighbors_alter_Some in Hn0 as (n & Hn & ->). exists n. split; [done|]. destruct (decide (b = addr)); split; try done; congruence. }
  assert (Hx : external_ok cfg (out s1)).
  { intros b n1 sb k pa Hb Hsb Heb Hxb Hk. destruct (Hnb _ _ Hb) as (n & Hn & Hc & Hr).
    assert (Hsb1 : session_of (out s1) b = Some sb) by (unfold session_of; rewrite Hb; exact Hsb). rewrite HsB in Hsb1.
    destruct (decide (b = addr)) as [|Hne]; [done|]. destruct Hr as [Hr _]. rewrite Hout, decide_False in Hk by (by apply (Hother b)). rewrite Hc.
    rewrite (isEbgp_cfgs cfg n n1) in Hxb by done. eapply I6; [exact Hn | rewrite <- Hr; exact Hsb | done..]. }
  specialize (M2 Hd Hm). specialize (E2 Hd Hx).
  assert (Hs2 : forall b, session_of (out s2) b = if decide (b = addr) then None else session_of (out s) b).
  { intros b. rewrite (same_neighbors_session (out s1) (out s2)) by done. apply HsB. }
  set (s4 := on_outbound _ (on_peers _ s2)).
  assert (Hs4 : forall b, session_of (out s4) b = if decide (b = addr) then None else session_of (out s) b).
  { intros b. unfold s4. cbn [out on_outbound on_peers]. rewrite session_of_alter, Hs2. destruct (decide (b = addr)); [|done].
    by destruct (neighbors (out s2) !! b). }
  assert (Ep : peers s4 = delete r (peers s)) by (unfold s4; cbn; rewrite P2, P1; done). split.
  - intros b sb. rewrite Hs4, Ep. destruct (decide (b = addr)); [done|]. intros Hb. pose proof (Hother _ _ ltac:(done) Hb) as Hr.
    apply I1 in Hb as (? & ? & ?). rewrite lookup_delete_ne by done. done.
  - intros r' a. rewrite Ep. intros [Hr Ha]%lookup_delete_Some. apply I2 in Ha as (sa & Ha & Hra). exists sa. rewrite Hs4.
    rewrite decide_False; [done|]. intros ->. apply Hr; unfold r; congruence.
  - intros b n' Hb. apply neighbors_alter_Some in Hb as (n2 & Hn2 & ->). destruct (decide (b = addr)) as [|Hne]; [done|].
    destruct (same_neighbors_lookup _ _ _ _ N2 Hn2) as (n1 & Hn1 & _ & Hsn & Hr). destruct (Hnb _ _ Hn1) as (n & Hn & _ & Hk).
    rewrite decide_False in Hk by done. destruct Hk as [Hk1 Hk2]. rewrite <- Hsn, <- Hr, Hk1, Hk2. by apply (I3 b).
  - intros r'. rewrite Ep. intros Hr'. change (peerOut r' (out s4)) with (peerOut r' (out s2)).
    assert (Hr : r' = r \/ peers s !! r' = None) by (apply lookup_delete_None in Hr' as [->|?]; tauto).
    rewrite U2, Hout.
    + destruct (decide (r' = r)) as [|Hne]; [done|]. destruct Hr; [done | by apply I4].
    + intros b sb. rewrite HsB. destruct (decide (b = addr)); [done|]. intros Hb _ E. pose proof (Hother _ _ ltac:(done) Hb).
      apply I1 in Hb as (_ & _ & Hb). destruct Hr; congruence.
  - intros b sb Hb Heb. rewrite Hs4 in Hb. apply M2; [rewrite Hs2; exact Hb | done].
  - intros b n' sb k pa Hb Hsb Heb Hxb Hk. apply neighbors_alter_Some in Hb as (n2 & Hn2 & ->).
    destruct (decide (b = addr)) as [|Hne]; [done|]. eapply E2; done.
  - apply (own_ok_alter (setSession 0 None) addr (out s2) []); [done | done | cbn; rewrite app_nil_r; done | constructor | done | by apply W2].
Qed.

Lemma transmitted_inv addr n s : inv_out s -> inv_out (on_outbound (on_neighbors (alter (setPending n) addr)) s).
Proof.
  intros [I1 I2 I3 I4 I5 I6 I7]. set (s' := on_outbound _ s).
  assert (Hs : forall b ses', session_of (out s') b = Some ses' -> exists ses, session_of (out s) b = Some ses /\
    established ses' = established ses /\ peerRid ses' = peerRid ses).
  { intros b ses'. unfold s'. cbn [out on_outbound]. rewrite session_of_alter. destruct (decide (b = addr)) as [->|]; [|intros H; by exists ses'].
    unfold session_of. destruct (neighbors (out s) !! addr) as [m|]; [|done]. cbn. destruct (session m) as [ses|]; [|done]. cbn. intros [= <-]. by exists ses. }
  split.
  - intros b ses' (ses & Hb & -> & ->)%Hs. by apply I1.
  - intros r a (ses & Ha & Hr)%I2. unfold s'. cbn [out on_outbound]. rewrite session_of_alter. destruct (decide (a = addr)) as [->|]; [|by exists ses].
    unfold session_of in Ha. destruct (neighbors (out s) !! addr) as [m|]; [|done]. cbn in *. rewrite Ha. cbn. by eexists.
  - intros b m Hb. apply neighbors_alter_Some in Hb as (m0 & Hm & ->). specialize (I3 _ _ Hm). destruct (decide (b = addr)); [|done].
    cbn. rewrite I3. by destruct (session m0).
  - exact I4.
  - intros b ses' (ses & Hb & E & Er)%Hs He. rewrite Er. apply I5; [done | congruence].
  - intros b m sb k pa Hb Hsb Heb Hx Hk.
    assert (Hsb' : session_of (out s') b = Some sb) by (unfold session_of; cbn [out on_outbound s'] in Hb |- *; rewrite Hb; exact Hsb).
    apply Hs in Hsb' as (ses & Hses & E & Er). apply neighbors_alter_Some in Hb as (m0 & Hm & ->).
    assert (Hm0 : session m0 = Some ses) by (unfold session_of in Hses; rewrite Hm in Hses; exact Hses).
    assert (Hc : cfgs (if decide (b = addr) then setPending n m0 else m0) = cfgs m0) by (by destruct (decide (b = addr))).
    rewrite Hc. rewrite (isEbgp_cfgs cfg m0) in Hx by done. rewrite Er in Hk. eapply I6; [exact Hm | exact Hm0 | congruence | done | exact Hk].
  - apply (own_ok_alter (setPending n) addr (out s) []); [done | done | cbn; rewrite app_nil_r; done | constructor | done | exact I7].
Qed.

(** Events other than those of sessions and connections. *)
Definition routine (op : Op) : bool := match op with Established _ _ | Down _ | Transmitted _ _ => false | _ => true end.

Lemma step_kept now op s s' : routine op = true -> step cfg resolveIgpMetric alloc order now op s = Ret s' -> af_kept s s'.
Proof.
  intros Hop H. destruct op; try discriminate; cbn [step] in *.
  - eapply update_kept, H.
  - destruct (session_of (out s) addr) as [ses|]; injection H as <-; [|apply af_kept_refl]. unfold onPeerBorr.
    eapply af_kept_trans; [apply sop_kept, (cancelStale_sop (peerRid ses))|]. set (s1 := cancelStaleTimers _ s).
    set (s2 := match adjRibIn s1 !! peerRid ses with Some t => _ | None => s1 end).
    apply (af_kept_trans _ s2); [apply sop_kept; unfold s2; by destruct (adjRibIn s1 !! _)|].
    set (s3 := on_stale _ _ s2). apply (af_kept_trans _ s3); [by apply af_kept_out|].
    eapply af_kept_trans; [by apply (act_kept (PostAfter (now + seconds (BGP_REFRESH_STALEPATH_TIME cfg))) s3) | by apply act_kept].
  - destruct (session_of (out s) addr) as [ses|]; [|injection H as <-; apply af_kept_refl].
    eapply af_kept_trans; [apply sop_kept, (cancelStale_sop (peerRid ses)) | eapply purgeStale_kept, H].
  - destruct (neighbors (out s) !! addr) as [n|] eqn:Hn; [destruct (session n) as [ses|] eqn:Hs|]; injection H as <-; try apply af_kept_refl.
    by apply on_outbound_kept, refreshPeer_kept.
  - unfold staleTimerFires in H. destruct (default _ _) as [a b].
    eapply af_kept_trans; [|eapply purgeStale_kept, H]. by apply af_kept_out.
  - eapply drain_kept, H.
  - injection H as <-. apply onNhtChange_kept.
  - eapply af_kept_trans; [|eapply recomputeAll_kept, H]. by apply af_kept_out.
  - eapply dampenTimer_kept, H.
  - eapply af_kept_trans; [|eapply recomputeNlri_kept, H]. apply af_kept_out; apply replaceNetwork_sop.
  - eapply recomputeAllAggregates_kept, H.
  - eapply scan_kept, H.
Qed.

Lemma step_inv_out now op s s' : admissible op s -> step cfg resolveIgpMetric alloc order now op s = Ret s' -> inv_out s -> inv_out s'.
Proof.
  intros Ha H Hi. destruct (routine op) eqn:Hop; [by eapply af_kept_inv; [eapply step_kept|]|].
  destruct op; try discriminate; cbn [step admissible] in *.
  - destruct Ha as ((n & Hn & Hnone) & He & H0 & _ & Hp).
    eapply (established_inv now addr ses s s' n); [exact Hn | exact Hnone | exact He | exact H0 | exact Hp | exact H | exact Hi].
  - eapply down_inv; done.
  - injection H as <-. by apply transmitted_inv.
Qed.

Lemma reach_inv_out nbrs s : reach cfg resolveIgpMetric alloc order nbrs s -> inv_out s.
Proof.
  induction 1 as [Hn|s now op s' _ IH Ha H]; [|eapply step_inv_out; done].
  assert (Hs : forall b, session_of (out (Af_new nbrs)) b = None).
  { intros b. unfold session_of. cbn. destruct (nbrs !! b) as [n|] eqn:E; [|done]. apply Hn in E as [E _]. exact E. }
  split; cbn [Af_new peers out neighbors].
  - intros b ses. rewrite Hs. done.
  - intros r a H. by rewrite lookup_empty in H.
  - intros b n Hb. destruct (Hn _ _ Hb) as [-> E]. exact E.
  - done.
  - intros b ses. rewrite Hs. done.
  - intros b n ses k pa Hb Hses. apply Hn in Hb as [Hb _]. congruence.
  - split; cbn; [intros addr u Hu; by apply elem_of_nil in Hu | intros agg [x Hx]; by rewrite lookup_empty in Hx].
Qed.
End AfProofs.
