(* ===== verification/BgpAfProps.v ===== *)
(** * BgpAfProps: what an address family guarantees

    Properties of the events of [BgpAf] over all the states that its sessions,
    UPDATEs, timers and networks can reach: the references of Loc-RIB, the
    agreement of each neighbor's table with the UPDATEs it was sent, the
    attributes external neighbors get, what an UPDATE does to Adj-RIB-In, and
    the cases the code gets wrong. *)

From S2P Require Import Prelude IPAddress BgpUpdate AttributeManager BestPath BgpDampening BgpEgress BgpAf.
From Stdlib Require Import Sorting.Permutation.

(** ** A router to run *)

(** A route object is placed past all live ones. *)
Definition next_free (h : Heap) : nat := S (foldr Nat.max 0%nat (map_to_list h).*1).

Lemma foldr_max_ge l (p : nat) : p ∈ l -> (p <= foldr Nat.max 0 l)%nat.
Proof. induction l as [|x l IH]; [by intros ?%elem_of_nil|]. rewrite elem_of_cons. cbn. intros [->|H%IH]; lia. Qed.

Lemma next_free_fresh h : h !! next_free h = None.
Proof.
  destruct (h !! next_free h) as [r|] eqn:E; [|done]. exfalso.
  assert (H : next_free h ∈ (map_to_list h).*1) by (apply list_elem_of_fmap; exists (next_free h, r); split; [done | by apply elem_of_map_to_list]).
  apply foldr_max_ge in H. unfold next_free in H. lia.
Qed.

(** The settings of a neighbor in the given AS, slow peers moved as they are
    found, everything else off. *)
Definition plain_nbr (remoteAs : Z) : NbrConfig :=
  mkNbrConfig (Some remoteAs) true 0 false None false false false false false false false false false false false false false false (Some DYNAMIC)
    false 0 false false None None false None None false None.

(** A router of AS 65001 with identifier 10.0.0.1. *)
Definition plain_cfg : BgpConfig :=
  mkBgpConfig 65001 167772161 None None [] false true true None None None false false (mkBestPathConfig false false false) 1 1
    false false false None false [] 30 false false None 120 600 20 200 200 [] None false
    (mkDampenConfig false 15 750 2000 60 ex_cmath).

(** Events in order, each at its time and each admissible. *)
Definition admissibleb (op : Op) (s : AfState) : bool :=
  match op with
  | Established addr ses =>
      match neighbors (out s) !! addr with
      | Some n => match session n, localAddress ses, peers s !! peerRid ses with
                  | None, Some _, None => established ses && negb (peerRid ses =? 0)
                  | _, _, _ => false
                  end
      | None => false
      end
  | _ => true
  end.

Lemma admissibleb_spec op s : admissibleb op s = true -> admissible op s.
Proof.
  destruct op; cbn; try done. destruct (neighbors (out s) !! addr) as [n|]; [|done].
  destruct (session n) eqn:Hn, (localAddress ses), (peers s !! peerRid ses); try done. intros [He H0]%andb_true_iff.
  split; [by exists n|]. split; [done|]. apply negb_true_iff, Z.eqb_neq in H0. done.
Qed.

Fixpoint exec cfg metric alloc order (ops : list (Z * Op)) (s : AfState) : outcome AfState :=
  match ops with
  | [] => Ret s
  | (now, op) :: ops => if admissibleb op s then s ← step cfg metric alloc order now op s; exec cfg metric alloc order ops s else Throw "not admissible"
  end.

Lemma exec_reach cfg metric alloc order nbrs ops : forall s s', exec cfg metric alloc order ops s = Ret s' -> reach cfg metric alloc order nbrs s -> reach cfg metric alloc order nbrs s'.
Proof.
  induction ops as [|[now op] ops IH]; intros s s' H Hr; [injection H as <-; done|]. cbn [exec] in H.
  destruct (admissibleb op s) eqn:Ha; [|discriminate]. apply outcome_bind_ret_inv in H as (s1 & H1 & H).
  eapply IH; [exact H|]. eapply reach_step; [exact Hr | apply admissibleb_spec, Ha | exact H1].
Qed.

Definition addr_a : IPAddress := IPAddress_u32 167772170.
Definition addr_b : IPAddress := IPAddress_u32 167772180.
Definition addr_c : IPAddress := IPAddress_u32 167772190.

(** An external neighbor, two internal ones. *)
Definition idle (c : NbrConfig) : Neighbor := mkNeighbor c 0 None false 0 false false.
Definition plain_nbrs : gmap IPAddress Neighbor := {[ addr_a := idle (plain_nbr 65002); addr_b := idle (plain_nbr 65001); addr_c := idle (plain_nbr 65003) ]}.
Definition plain_session (rid : Z) : PeerSession := mkPeerSession rid true true false false (Some (IPAddress_u32 167772161)) 0.

Definition net_1 : IPv4Prefix := mkIPv4Prefix 3232235520 16.
Definition net_2 : IPv4Prefix := mkIPv4Prefix 2886729728 12.
Definition plain_pa (asns : list Z) (nh : IPAddress) : PathAttribute :=
  mkPA (set_asPath [mkSegment BGP_AS_SEQUENCE asns] (set_origin (Some 0) Attributes_new)) (mkPath (mkAfiSafi 1 1) nh None None).

(** The sessions come up, and both external neighbors announce a network. *)
Definition plain_ops : list (Z * Op) :=
  [ (1, Established addr_a (plain_session 11)); (2, Established addr_b (plain_session 12)); (3, Established addr_c (plain_session 13));
    (4, UpdateFrom addr_a (mkParsed [] [mkNlriPath net_1 0; mkNlriPath net_2 0] (Some (plain_pa [65002] addr_a))));
    (5, UpdateFrom addr_c (mkParsed [] [mkNlriPath net_2 0] (Some (plain_pa [65003] addr_c)))) ].

Definition plain_exec (ops : list (Z * Op)) : outcome AfState := exec plain_cfg (fun _ => 0) next_free id ops (Af_new plain_nbrs).

Lemma plain_new_reach : reach plain_cfg (fun _ => 0) next_free id plain_nbrs (Af_new plain_nbrs).
Proof.
  apply reach_new. intros addr n H. unfold plain_nbrs in H.
  apply lookup_insert_Some in H as [[_ <-]|[_ H]]; [done|]. apply lookup_insert_Some in H as [[_ <-]|[_ H]]; [done|].
  apply lookup_singleton_Some in H as [_ <-]. done.
Qed.

(** The state after [plain_ops]. *)
Definition plain_state : AfState := match plain_exec plain_ops with Ret s => s | _ => Af_new plain_nbrs end.

Lemma plain_state_reach : reach plain_cfg (fun _ => 0) next_free id plain_nbrs plain_state.
Proof.
  unfold plain_state. destruct (plain_exec plain_ops) as [s| |] eqn:E; try exact plain_new_reach.
  eapply exec_reach; [exact E | exact plain_new_reach].
Qed.

(** ** The contents of Adj-RIB-In *)

(** The attributes a peer's routes have, by prefix and path identifier. *)
Definition inTable (r : Z) (s : AfState) : gmap NlriPath PathAttribute := omap (fun p => node_pa <$> heap s !! p) (peerIn r s).

Section InTable.
Context (cfg : BgpConfig) (resolveIgpMetric : IPAddress -> Z) (alloc : Heap -> nat) (order : list nat -> list nat).
Context (alloc_fresh : forall h, h !! alloc h = None) (order_perm : forall l, order l ≡ₚ l).
#[local] Abbreviation inv := (inv cfg).

Lemma inTable_same r s s' : same_tables s s' -> inTable r s' = inTable r s.
Proof. intros (E1 & _ & _ & E4 & _). unfold inTable, peerIn. rewrite E1, E4. done. Qed.

Lemma refreshed_pa (h : Heap) l p : node_pa <$> foldr (alter (refresh resolveIgpMetric)) h l !! p = node_pa <$> h !! p.
Proof.
  destruct (foldr _ h l !! p) as [rn|] eqn:E.
  - apply alter_refresh_lookup in E as (rn0 & -> & _ & Hp & Ha & _). cbn. unfold node_pa. rewrite Hp, Ha. done.
  - destruct (h !! p) as [rn|] eqn:E'; [|done]. destruct (alter_refresh_is_Some resolveIgpMetric l h p) as [x Hx]; [by exists rn | congruence].
Qed.

Lemma recomputeAll_inTable now l r : forall s s', recomputeAll cfg resolveIgpMetric order now l s = Ret s' -> inTable r s' = inTable r s.
Proof.
  induction l as [|n l IH]; intros s s' H; [injection H as <-; done|]. cbn [recomputeAll] in H.
  apply outcome_bind_ret_inv in H as (s1 & H1 & H). rewrite (IH _ _ H). apply recomputeNlri_tables in H1 as (E1 & _ & E3 & _ & _).
  unfold inTable, peerIn. rewrite E1. apply map_eq. intros k. rewrite !lookup_omap. destruct (default ∅ _ !! k) as [p|]; [|done].
  cbn [mbind option_bind]. rewrite E3. apply refreshed_pa.
Qed.

Lemma eraseIn_inTable T r k r' s : inv T s -> inTable r' (eraseIn r k s) = if decide (r' = r) then delete k (inTable r s) else inTable r' s.
Proof.
  intros [[_ H2] _]. pose proof (eraseIn_peerIn r k s) as Hp. apply map_eq. intros k'.
  destruct (peerIn r s !! k) as [q|] eqn:Eq.
  2:{ unfold eraseIn in *. rewrite Eq in *. destruct (decide (r' = r)) as [->|]; [|done].
      destruct (decide (k = k')) as [<-|Hk]; [rewrite lookup_delete_eq; unfold inTable; rewrite lookup_omap, Eq; done | rewrite lookup_delete_ne by done; done]. }
  assert (Hh : heap (eraseIn r k s) = delete q (heap s)).
  { unfold eraseIn. rewrite Eq. cbn. destruct (dropBest_frame (np_nlri k) q s) as (_ & _ & -> & _). done. }
  assert (Hp' : r' <> r -> peerIn r' (eraseIn r k s) = peerIn r' s).
  { intros Hr. unfold eraseIn. rewrite Eq. unfold peerIn. cbn. destruct (dropBest_frame (np_nlri k) q s) as (-> & _). rewrite lookup_insert_ne by done. done. }
  assert (Hin : (r', k') <> (r, k) -> inTable r' (eraseIn r k s) !! k' = inTable r' s !! k').
  { intros Hne. unfold inTable. rewrite !lookup_omap, Hh.
    assert (Hl : peerIn r' (eraseIn r k s) !! k' = peerIn r' s !! k').
    { destruct (decide (r' = r)) as [->|Hr]; [rewrite Hp, lookup_delete_ne by congruence | rewrite Hp' by done]; done. }
    rewrite Hl. destruct (peerIn r' s !! k') as [p|] eqn:Ep; [|done]. cbn [mbind option_bind]. rewrite lookup_delete_ne; [done|].
    intros ->. assert (E : InTable r k = InTable r' k') by (eapply H2; [exact Eq | exact Ep]). congruence. }
  destruct (decide (r' = r)) as [->|Hr]; [|apply Hin; congruence].
  destruct (decide (k = k')) as [<-|Hk]; [|rewrite lookup_delete_ne by done; apply Hin; congruence].
  rewrite lookup_delete_eq. unfold inTable. rewrite lookup_omap, Hp, lookup_delete_eq. done.
Qed.

Lemma withdrawOne_inTable T r soft k r' s : inv T s ->
  inTable r' (withdrawOne r soft k s) = if decide (r' = r) then delete k (inTable r s) else inTable r' s.
Proof.
  intros Hi. unfold withdrawOne. rewrite (inTable_same r' _ _ (unstale_same _ _ _)).
  destruct soft; [rewrite (inTable_same r' (eraseIn r k s) (on_pre _ _)) by done|]; by apply (eraseIn_inTable T).
Qed.

Lemma withdrawAll_inTable r soft r' l : forall T s, inv T s ->
  inTable r' (foldl (fun s k => withdrawOne r soft k s) s l) = if decide (r' = r) then foldl (fun t k => delete k t) (inTable r s) l else inTable r' s.
Proof.
  induction l as [|k l IH]; intros T s Hi; cbn [foldl]; [destruct (decide (r' = r)) as [->|]; done|].
  rewrite (IH (T ∪ {[np_nlri k]})) by (by apply withdrawOne_inv). rewrite !(withdrawOne_inTable T) by done.
  destruct (decide (r' = r)); [rewrite decide_True by done|]; done.
Qed.

Lemma insertIn_inTable T r k rn r' s : inv T s ->
  inTable r' (on_in (insert r (<[k := alloc (heap s)]> (peerIn r s))) (on_heap (insert (alloc (heap s)) rn) s)) =
  if decide (r' = r) then <[k := node_pa rn]> (inTable r s) else inTable r' s.
Proof.
  intros [[H1 _] _]. set (p := alloc (heap s)). set (s' := on_in _ _).
  assert (Hold : forall r0 k0 q, peerIn r0 s !! k0 = Some q -> heap s' !! q = heap s !! q).
  { intros r0 k0 q Hq. cbn. rewrite lookup_insert_ne; [done|]. intros <-. destruct (H1 (InTable r0 k0) p Hq) as (x & Hx & _).
    unfold p in Hx. rewrite alloc_fresh in Hx. done. }
  assert (Hp : peerIn r' s' = if decide (r' = r) then <[k := p]> (peerIn r s) else peerIn r' s).
  { unfold s'. rewrite peerIn_on_in. destruct (decide (r = r')) as [<-|Hne]; [rewrite decide_True | rewrite decide_False]; done. }
  apply map_eq. intros k'. unfold inTable. rewrite lookup_omap, Hp. destruct (decide (r' = r)) as [->|Hr].
  - destruct (decide (k = k')) as [<-|Hk].
    + rewrite !lookup_insert_eq. cbn. rewrite lookup_insert_eq. done.
    + rewrite !lookup_insert_ne, lookup_omap by done. destruct (peerIn r s !! k') as [q|] eqn:E; [|done]. cbn [mbind option_bind].
      rewrite (Hold r k') by done. done.
  - rewrite lookup_omap. destruct (peerIn r' s !! k') as [q|] eqn:E; [|done]. cbn [mbind option_bind]. rewrite (Hold r' k') by done. done.
Qed.

Lemma announceAll_inTable r pa base c r' keys : attrs base = pa_attrs pa -> applyIngressPolicy cfg base c = false -> forall first s touched s' touched',
  announceAll cfg alloc r pa base c first keys s touched = Ret (s', touched') -> inv touched s ->
  inTable r' s' = if decide (r' = r) then announce pa keys (inTable r s) else inTable r' s.
Proof.
  intros Hb Hacc. induction keys as [|k keys IH]; intros first s touched s' touched'; cbn [announceAll].
  - intros [= <- <-] _. by destruct (decide (r' = r)) as [->|].
  - destruct (_ && _); [discriminate|]. rewrite Hacc. intros H Hi.
    set (s1 := eraseIn r k s) in *. assert (Hi1 : inv (touched ∪ {[np_nlri k]}) s1) by apply eraseIn_inv, Hi.
    rewrite (IH _ _ _ _ _ H).
    + rewrite !(inTable_same _ _ _ (unstale_same _ _ _)), !(insertIn_inTable _ _ _ _ _ _ Hi1).
      unfold s1. rewrite !(eraseIn_inTable _ _ _ _ _ Hi). destruct (decide (r' = r)); [rewrite !decide_True by done | done].
      cbn [announce foldl]. unfold node_pa. cbn [rn_base rn_path]. rewrite Hb. destruct pa. rewrite insert_delete_eq. done.
    + eapply inv_same; [apply unstale_same|]. eapply inv_mono; [|apply insertIn_inv; [exact alloc_fresh | exact Hi1 | unfold s1; rewrite eraseIn_peerIn; apply lookup_delete_eq | done]].
      rewrite <- union_assoc_L, union_idemp_L. done.
Qed.

(** The announcements of an UPDATE that the policy lets in. *)
Definition accepted (now : Z) (addr : IPAddress) (n : Neighbor) (u : ParsedUpdate) : list (PathAttribute * list NlriPath) :=
  match pu_attrs u with
  | None => []
  | Some pa =>
      if applyIngressPolicy cfg (inbound cfg resolveIgpMetric now pa addr n (default 0 (REMOTE_AS (cfgs n)))) (cfgs n)
      then [] else [(pa, pu_announcements u)]
  end.

Lemma foldl_delete_foldr (l : list NlriPath) (t : gmap NlriPath PathAttribute) : foldl (fun t k => delete k t) t l = foldr delete t l.
Proof.
  revert t. induction l as [|k l IH]; intros t; cbn; [done|]. rewrite IH. clear IH. induction l as [|x l IH]; cbn; [done|]. rewrite IH. apply delete_delete.
Qed.

Lemma announceAll_dropped r pa base c keys : applyIngressPolicy cfg base c = true -> forall first s touched s' touched',
  announceAll cfg alloc r pa base c first keys s touched = Ret (s', touched') -> s' = s.
Proof.
  intros Hd. induction keys as [|k keys IH]; intros first s touched s' touched'; cbn [announceAll]; [intros [= <- <-]; done|].
  destruct (_ && _); [discriminate|]. rewrite Hd. apply IH.
Qed.

Lemma update_inTable now addr u s s' n : inv ∅ s -> neighbors (out s) !! addr = Some n -> peers s !! nbr_rid n = Some addr ->
  onParsedUpdateFromPeer cfg resolveIgpMetric alloc order now addr u s = Ret s' ->
  forall r', inTable r' s' = if decide (r' = nbr_rid n) then apply_update (mkUpd (pu_withdrawn u) (accepted now addr n u)) (inTable (nbr_rid n) s) else inTable r' s.
Proof.
  intros Hi Hn Hp H r'. unfold onParsedUpdateFromPeer in H. rewrite Hn in H. cbn [mbind option_bind] in H. rewrite Hp in H. cbn [mbind option_bind] in H.
  rewrite Hn in H. cbn [mbind option_bind] in H. apply outcome_bind_ret_inv in H as ((s1 & touched) & H1 & H).
  rewrite (recomputeAll_inTable _ _ _ _ _ H), (inTable_same _ _ _ (maximumPrefix_same _ _ _ _)). clear H.
  set (r := nbr_rid n) in *. set (soft := _ || _) in *. set (s0 := foldl _ s _) in *.
  assert (Ht : forall x, inTable x s0 = if decide (x = r) then foldr delete (inTable r s) (pu_withdrawn u) else inTable x s).
  { intros x. unfold s0. rewrite (withdrawAll_inTable _ _ _ _ _ _ Hi), foldl_delete_foldr. done. }
  assert (H0 : inv (list_to_set (np_nlri <$> pu_withdrawn u)) s0).
  { unfold s0. rewrite <- (union_empty_l_L (list_to_set _)). apply withdrawAll_inv, Hi. }
  unfold announcements in H1. unfold apply_update, accepted. cbn [upd_withdrawn upd_announcements].
  destruct (pu_attrs u) as [pa|]; [|injection H1 as <- <-; cbn; apply Ht].
  set (s2 := match pu_announcements u with [] => _ | _ => _ end) in *.
  assert (E2 : same_tables s0 s2) by (unfold s2; destruct (pu_announcements u), soft; done).
  assert (Hi2 : inv (list_to_set (np_nlri <$> pu_withdrawn u)) s2) by (eapply inv_same; done).
  destruct (applyIngressPolicy _ _ _) eqn:Ea.
  - apply announceAll_dropped in H1; [|exact Ea]. subst s1. rewrite (inTable_same _ _ _ E2). apply Ht.
  - rewrite (announceAll_inTable r pa (inbound cfg resolveIgpMetric now pa addr n (default 0 (REMOTE_AS (cfgs n)))) (cfgs n) r' _ eq_refl Ea _ _ _ _ _ H1 Hi2), !(inTable_same _ _ _ E2), !Ht.
    destruct (decide (r' = r)); [rewrite decide_True by done|]; done.
Qed.
End InTable.

(** ** Properties *)

Section Guarantees.
Context (cfg : BgpConfig) (resolveIgpMetric : IPAddress -> Z) (alloc : Heap -> nat) (order : list nat -> list nat).
Context (alloc_fresh : forall h, h !! alloc h = None) (order_perm : forall l, order l ≡ₚ l).
#[local] Abbreviation inv := (inv cfg).

(** C6: In every reachable state each reference of a Loc-RIB entry, to the best
    route, its multipaths and its additional paths, is to a live route object
    for that prefix that is still in some table. Loc-RIB has no entry for a
    prefix for which neither a neighbor nor this router has a route, and one
    for every other prefix, unless dampening is configured and has the prefix
    marked as suppressed. *)
Theorem loc_rib_sound nbrs s n : reach cfg resolveIgpMetric alloc order nbrs s ->
  (forall lr p, locRib s !! n = Some lr -> p ∈ refs lr ->
     p ∈ candidates order n s /\ exists rn, heap s !! p = Some rn /\ rn_nlri rn = n) /\
  (candidates order n s = [] -> locRib s !! n = None) /\
  (locRib s !! n = None -> candidates order n s = [] \/
     (BGP_DAMPENING (DAMPENING cfg) = true /\ exists st, dampenTable s !! n = Some st /\ suppressed st = true)).
Proof.
  intros [[H1 _] H3]%reach_inv; [|done..]. destruct (H3 n (not_elem_of_empty n)) as [Ha Hb]. split; [|split].
  - intros lr p Hl Hp. destruct (Ha lr p Hl Hp) as (w & Hw & Hh). split; [apply candidates_elem; [done | by exists w]|].
    destruct (H1 w p Hh) as (rn & ? & ?). exists rn. split; [done | congruence].
  - intros Hc. destruct (locRib s !! n) as [lr|] eqn:El; [|done]. exfalso.
    destruct (Ha lr (route lr) eq_refl ltac:(left)) as (w & Hw & Hh).
    assert (Hp : route lr ∈ candidates order n s) by (apply candidates_elem; [done | by exists w]). rewrite Hc in Hp. by apply elem_of_nil in Hp.
  - intros Hn. destruct (candidates order n s) as [|p l] eqn:E; [by left|]. right.
    assert (Hp : p ∈ candidates order n s) by (rewrite E; left). apply candidates_elem in Hp as (w & Hw & Hh); [|done].
    destruct (Hb w p Hw Hh) as [[? ?]|Hd]; [congruence | exact Hd].
Qed.

(** C7: In every reachable state, for each key other than those this router
    originates itself (the default prefix and the configured aggregates,
    without a path identifier), the Adj-RIB-Out of a neighbor has what the
    neighbor knows after all the UPDATEs of its session, originated ones
    included, read in order. *)
Theorem adj_rib_out_is_heard nbrs s addr ses k : reach cfg resolveIgpMetric alloc order nbrs s ->
  session_of (out s) addr = Some ses -> ~ own_key cfg k -> heard addr (log (out s)) !! k = peerOut (peerRid ses) (out s) !! k.
Proof.
  intros [I1 _ _ _ I5 _ I7]%reach_inv_out Hs Hk. rewrite (heard_others cfg (out s)) by (done || intros u Hu; by apply (own_updates cfg _ I7)).
  rewrite (I5 addr ses); [done | done | by apply (I1 addr)].
Qed.

(** C10: In every reachable state a route an external neighbor was told, whether it
    comes from Loc-RIB or is the default route or an aggregate of this router,
    has no local preference and no trace of route reflection or of the
    confederation, and starts with the numbers of this AS unless private
    numbers are removed. For the keys this router does not originate its next
    hop is the neighbor's own address, unless the next hop is left unchanged
    and not set to this router's. *)
Theorem external_announcements nbrs s addr n ses k pa : reach cfg resolveIgpMetric alloc order nbrs s ->
  neighbors (out s) !! addr = Some n -> session n = Some ses -> isEbgp cfg n = true ->
  heard addr (log (out s)) !! k = Some pa ->
  external_core cfg (cfgs n) pa /\
  (~ own_key cfg k -> NEXT_HOP_UNCHANGED (cfgs n) = false \/ NEXT_HOP_SELF_ALL (cfgs n) = true -> nextHop (pa_path pa) = addr).
Proof.
  intros [I1 _ _ _ I5 I6 I7]%reach_inv_out Hn Hs Hx Hk.
  assert (Hses : session_of (out s) addr = Some ses) by (unfold session_of; rewrite Hn; exact Hs).
  pose proof (I1 _ _ Hses) as (He & _). pose proof (I5 addr ses Hses He) as Hm.
  assert (Htable : heard_rib addr (log (out s)) !! k = Some pa -> external_attrs cfg addr (cfgs n) pa)
    by (rewrite Hm; intros Hk'; eapply I6; done).
  split.
  - apply heard_entry in Hk as [Hk|(u & keys & Hu & Hin)]; [by apply Htable|].
    pose proof (own_external cfg _ _ _ (own_updates cfg _ I7 addr u Hu) n Hn Hx) as Hf. rewrite Forall_forall in Hf. exact (Hf _ Hin).
  - intros Ho. rewrite (heard_others cfg (out s)) in Hk by (done || intros u Hu; by apply (own_updates cfg _ I7)). by apply Htable.
Qed.

(** C14: After an UPDATE the routes of its sender, by prefix and path identifier,
    are those before it changed as an UPDATE says: withdrawals first, then the
    announcements, if the ingress policy lets the attributes in. The routes of
    the other neighbors stay. *)
Theorem adj_rib_in_is_received nbrs s now addr u s' n ses : reach cfg resolveIgpMetric alloc order nbrs s ->
  neighbors (out s) !! addr = Some n -> session n = Some ses -> step cfg resolveIgpMetric alloc order now (UpdateFrom addr u) s = Ret s' ->
  inTable (peerRid ses) s' = apply_update (mkUpd (pu_withdrawn u) (accepted cfg resolveIgpMetric now addr n u)) (inTable (peerRid ses) s) /\
  forall r, r <> peerRid ses -> inTable r s' = inTable r s.
Proof.
  intros Hr Hn Hs H. pose proof (reach_inv_out _ _ _ _ _ _ Hr) as [I1 _ I3 _ _ _ _]. apply reach_inv in Hr; [|done..].
  assert (Hses : session_of (out s) addr = Some ses) by (unfold session_of; rewrite Hn; exact Hs).
  destruct (I1 _ _ Hses) as (_ & _ & Hp). assert (E : nbr_rid n = peerRid ses) by (rewrite (I3 _ _ Hn), Hs; done). rewrite <- E in *.
  pose proof (update_inTable _ _ _ _ alloc_fresh _ _ _ _ _ _ Hr Hn Hp H) as Ht. split; [rewrite Ht, decide_True; done|].
  intros r Hne. rewrite Ht, decide_False; done.
Qed.

Lemma selectRoute_nil h : selectRoute cfg order h [] = Ret None.
Proof.
  assert (Ho : order [] = []) by (apply Permutation_nil_r, order_perm).
  unfold selectRoute, deterministicMed. cbn. destruct (BGP_DETERMINISTIC_MED cfg); cbn; rewrite ?Ho; done.
Qed.

(** When Loc-RIB has no entry and no route is left, a recomputation does
    nothing. *)
Lemma recomputeNlri_nothing now n s : BGP_DAMPENING_HALF_LIFE (DAMPENING cfg) <> 0 -> candidates order n s = [] -> locRib s !! n = None ->
  exists s', recomputeNlri cfg resolveIgpMetric order now n s = Ret s' /\ locRib s' = locRib s /\ out s' = out s.
Proof.
  intros Hlife Hc Hl. unfold recomputeNlri. set (s0 := on_heap _ s).
  change (candidates order n s0) with (candidates order n s). rewrite Hc, selectRoute_nil. cbn [mbind outcome_bind].
  change (locRib s0) with (locRib s). rewrite Hl. rewrite !bool_decide_eq_false_2 by (by intros []). unfold dampen, updateLocRib. cbn [negb andb].
  destruct (negb _); [cbn [mbind outcome_bind]; change (locRib s0) with (locRib s); rewrite Hl; by exists s0|].
  unfold getDampenParams. rewrite (proj2 (Z.eqb_neq _ _)) by lia. cbn [mbind outcome_bind]. cbv zeta. cbn [mbind outcome_bind].
  set (s1 := on_dampen _ s0). change (locRib s1) with (locRib s). rewrite Hl. by exists s1.
Qed.

Lemma maximumPrefix_log r a addr s : locRib (maximumPrefix r a addr s) = locRib s /\
  exists l, log (out (maximumPrefix r a addr s)) = log (out s) ++ l /\ l ⊆ [MaxPrefixReached addr].
Proof.
  unfold maximumPrefix. destruct (neighbors (out s) !! a) as [nbr|]; [|split; [done|]; exists []; rewrite app_nil_r; set_solver].
  destruct (MAXIMUM_PREFIX _); [|split; [done|]; exists []; rewrite app_nil_r; set_solver].
  set (hit := _ && _). destruct hit; (split; [done|]); [exists [MaxPrefixReached addr]; done | exists []; cbn; rewrite app_nil_r; set_solver].
Qed.

Lemma withdrawOne_holds r soft k p s w q : peerIn r s !! k = Some p -> holds (withdrawOne r soft k s) w q -> holds s w q /\ w <> InTable r k.
Proof.
  intros Hk Hw. apply (eraseIn_holds r k p); [exact Hk|]. apply (same_tables_holds (eraseIn r k s) (withdrawOne r soft k s)); [|exact Hw].
  unfold withdrawOne. eapply same_tables_trans; [|apply unstale_same]. by destruct soft.
Qed.

(** Without the only route for its prefix, no candidate and no Loc-RIB entry
    are left. *)
Lemma sole_withdrawn r soft k p s : inv ∅ s -> peerIn r s !! k = Some p -> candidates order (np_nlri k) s = [p] ->
  candidates order (np_nlri k) (withdrawOne r soft k s) = [] /\ locRib (withdrawOne r soft k s) !! np_nlri k = None.
Proof.
  intros [[_ G2] G3] Hk Hc. split.
  - destruct (candidates order (np_nlri k) (withdrawOne r soft k s)) as [|q l] eqn:Eq; [done|]. exfalso.
    assert (Hq : q ∈ candidates order (np_nlri k) (withdrawOne r soft k s)) by (rewrite Eq; left). apply candidates_elem in Hq as (w & Hw & Hq); [|done].
    apply (withdrawOne_holds _ _ _ p) in Hq as [Hq Hne]; [|done].
    assert (Hq' : q ∈ candidates order (np_nlri k) s) by (apply candidates_elem; [done | by exists w]).
    rewrite Hc in Hq'. apply list_elem_of_singleton in Hq' as ->. apply Hne. eapply G2; [exact Hq | exact Hk].
  - assert (El : locRib (withdrawOne r soft k s) = locRib (dropBest (np_nlri k) p s)).
    { unfold withdrawOne, eraseIn, unstale. rewrite Hk. destruct soft; cbn; by destruct (stalePeerNlris _ !! r). }
    rewrite El. unfold dropBest. destruct (locRib s !! np_nlri k) as [lr|] eqn:Elr; [|done].
    destruct (G3 (np_nlri k) (not_elem_of_empty _)) as [Ga _]. destruct (Ga lr (route lr) Elr ltac:(left)) as (w & Hw & Hq).
    assert (Hq' : route lr ∈ candidates order (np_nlri k) s) by (apply candidates_elem; [done | by exists w]). rewrite Hc in Hq'.
    apply list_elem_of_singleton in Hq' as ->. rewrite Nat.eqb_refl. cbn. apply lookup_delete_eq.
Qed.

Lemma heard_quiet addr b l l' : l' ⊆ [MaxPrefixReached addr] -> heard b (l ++ l') = heard b l.
Proof.
  intros Hs. rewrite heard_app. induction l' as [|a l' IH]; [done|]. cbn [foldl].
  assert (Ha : a = MaxPrefixReached addr) by (apply list_elem_of_singleton, Hs; left). subst a. apply IH. intros x Hx. apply Hs. by right.
Qed.

(** When the neighbor whose route is the only one for a prefix withdraws it,
    the route leaves Adj-RIB-In and Loc-RIB, but neither the global RIB nor any
    neighbor is told: the entry is erased before the recomputation, which then
    takes the prefix for one that had no route. *)
Theorem withdrawal_not_propagated nbrs s now addr ses k p : BGP_DAMPENING_HALF_LIFE (DAMPENING cfg) <> 0 -> reach cfg resolveIgpMetric alloc order nbrs s ->
  session_of (out s) addr = Some ses -> peerIn (peerRid ses) s !! k = Some p -> candidates order (np_nlri k) s = [p] ->
  exists s' l, step cfg resolveIgpMetric alloc order now (UpdateFrom addr (mkParsed [k] [] None)) s = Ret s' /\
    locRib s' !! np_nlri k = None /\ log (out s') = log (out s) ++ l /\ l ⊆ [MaxPrefixReached addr] /\
    forall b, heard b (log (out s')) = heard b (log (out s)).
Proof.
  intros Hlife Hr Hses Hk Hc. pose proof (reach_inv_out _ _ _ _ _ _ Hr) as [I1 _ I3 _ _ _ _]. apply reach_inv in Hr; [|done..].
  destruct (I1 _ _ Hses) as (_ & _ & Hp). unfold session_of in Hses. destruct (neighbors (out s) !! addr) as [n|] eqn:Hn; [|done]. cbn in Hses.
  assert (E : nbr_rid n = peerRid ses) by (rewrite (I3 _ _ Hn), Hses; done).
  cbn [step]. unfold onParsedUpdateFromPeer. rewrite Hn, E, Hp. cbn [mbind option_bind]. rewrite Hn. cbn [mbind option_bind pu_withdrawn foldl announcements pu_attrs].
  set (soft := _ || _). set (r := peerRid ses) in *. destruct (sole_withdrawn r soft k p s Hr Hk Hc) as [Hc1 Hl1]. set (s1 := withdrawOne r soft k s) in *.
  cbn [outcome_bind]. set (s2 := maximumPrefix r addr addr s1).
  match goal with |- context [elements ?T] => assert (E1 : elements T = [np_nlri k]) end.
  { rewrite <- (elements_singleton (C := gset IPv4Prefix) (np_nlri k)). f_equal. apply union_empty_r_L. }
  rewrite E1. cbn [recomputeAll]. destruct (maximumPrefix_log r addr addr s1) as (L1 & l & L2 & L3). fold s2 in L1, L2.
  assert (Hc2 : candidates order (np_nlri k) s2 = []).
  { unfold candidates, tableRoutes, localRoute. destruct (maximumPrefix_same r addr addr s1) as (E2 & E3 & _ & _). fold s2 in E2, E3. rewrite E2, E3. exact Hc1. }
  destruct (recomputeNlri_nothing now (np_nlri k) s2) as (s3 & H4 & El & Eo); [exact Hlife | exact Hc2 | rewrite L1; exact Hl1|].
  rewrite H4. cbn [mbind outcome_bind]. exists s3, l. split; [done|]. split; [rewrite El, L1; exact Hl1|].
  assert (Eout : out s1 = out s) by apply (withdrawOne_sop r soft k s). rewrite Eo, L2, Eout. split; [done|]. split; [done|].
  intros b. by apply (heard_quiet addr).
Qed.

(** The End-of-RIB marker of a route refresh purges none of the routes the
    neighbor did not announce again: the set of stale prefixes is cleared with
    the timers, just before the purge looks at it. *)
Theorem eorr_purges_nothing now addr ses s b : session_of (out s) addr = Some ses -> staleTimers s !! peerRid ses = Some b ->
  step cfg resolveIgpMetric alloc order now (EorrFrom addr) s = Ret (on_stale (delete (peerRid ses)) (delete (peerRid ses)) s).
Proof.
  intros Hs Hb. cbn [step]. rewrite Hs. unfold onPeerEorr, cancelStaleTimers. rewrite Hb. unfold purgeStalePeer. cbn [stalePeerNlris on_stale].
  rewrite lookup_delete_eq. done.
Qed.

(** An UPDATE that announces two prefixes with attributes that the ingress
    policy drops, and that no route has, stops the process: the first prefix
    gives back the only reference to the attributes, the second reads them. *)
Theorem rejected_update_aborts now addr n ses u s pa k k' l : session_of (out s) addr = Some ses ->
  neighbors (out s) !! addr = Some n -> nbr_rid n = peerRid ses -> peers s !! peerRid ses = Some addr ->
  pu_attrs u = Some pa -> pu_withdrawn u = [] -> pu_announcements u = k :: k' :: l ->
  applyIngressPolicy cfg (inbound cfg resolveIgpMetric now pa addr n (default 0 (REMOTE_AS (cfgs n)))) (cfgs n) = true -> held pa s = false ->
  step cfg resolveIgpMetric alloc order now (UpdateFrom addr u) s = Throw "assertion failed".
Proof.
  intros Hs Hn Hr Hp Hpa Hw Ha Hd Hh. cbn [step]. unfold onParsedUpdateFromPeer. rewrite Hn, Hr, Hp. cbn [mbind option_bind]. rewrite Hn.
  cbn [mbind option_bind]. rewrite Hw. cbn [foldl]. unfold announcements. rewrite Hpa, Ha. set (s1 := if _ || _ then _ else s).
  assert (E : held pa s1 = false) by (unfold s1; destruct (_ || _); exact Hh). cbn [announceAll negb andb]. rewrite Hd. cbn [announceAll negb andb]. rewrite E. done.
Qed.

Lemma fold_weight_ge (f : AsPathSegment -> Z -> Z) seg l : (forall a, 0 <= f seg a) -> forall n, n <= fold_left (fun n a => n + f seg a) l n.
Proof. intros Hf. induction l as [|a l IH]; intros n; cbn; [lia|]. specialize (IH (n + f seg a)). specialize (Hf a). lia. Qed.

Lemma countAs_ge f p : (forall seg a, 0 <= f seg a) -> forall n, n <= fold_left (fun n s => fold_left (fun n a => n + f s a) (asns s) n) p n.
Proof.
  intros Hf. induction p as [|s p IH]; intros n; cbn; [lia|]. pose proof (fold_weight_ge f s (asns s) (Hf s) n).
  specialize (IH (fold_left (fun n a => n + f s a) (asns s) n)). lia.
Qed.

(** A number that counts in the first segment makes the count positive. *)
Lemma countAs_pos f seg p a l1 l2 : (forall seg a, 0 <= f seg a) -> asns seg = l1 ++ a :: l2 -> 0 < f seg a -> 0 < countAs f (seg :: p).
Proof.
  intros Hf Hs Ha. unfold countAs. cbn [fold_left]. rewrite Hs, fold_left_app. cbn [fold_left].
  set (n1 := fold_left (fun n a => n + f seg a) l1 0). pose proof (fold_weight_ge f seg l1 (Hf seg) 0) as H1. fold n1 in H1.
  pose proof (fold_weight_ge f seg l2 (Hf seg) (n1 + f seg a)) as H2. set (n2 := fold_left _ l2 _) in *.
  pose proof (countAs_ge f p Hf n2). lia.
Qed.

Lemma ownAsWeight_nonneg seg a : 0 <= ownAsWeight cfg seg a.
Proof. unfold ownAsWeight. repeat case_match; lia. Qed.

Lemma ownAsWeight_confed l : 0 < ownAsWeight cfg (mkSegment BGP_AS_SEQUENCE l) (getConfedId cfg).
Proof.
  unfold ownAsWeight. cbn [segmentType]. rewrite !Z.eqb_refl. destruct (getConfedId cfg =? asNumber cfg); cbn; lia.
Qed.

Lemma ownAses_confed c : LOCAL_AS c && LOCAL_AS_REPLACE_AS c = false -> exists l1 l2, ownAses cfg c = l1 ++ getConfedId cfg :: l2.
Proof.
  unfold ownAses. intros H. destruct (LOCAL_AS c); [|exists [], []; done]. cbn in H. rewrite H. destruct (LOCAL_AS_AS c) as [a|]; [|exists [], []; done].
  destruct (LOCAL_AS_NO_PREPEND c); [exists [], [] | exists [a], []]; done.
Qed.

(** C16: A route that an external neighbor was sent is dropped when it comes back
    from any neighbor, with any AS numbers put in front of its path on the way,
    unless private AS numbers are removed, the AS is replaced by a local one,
    or the neighbor may send this AS. *)
Theorem returned_route_dropped r addr n ses pa r' c l : applyEgressPolicy cfg r addr n ses = Ret pa -> isEbgp cfg n = true ->
  REMOVE_PRIVATE_AS (cfgs n) || REMOVE_PRIVATE_AS_ALL (cfgs n) = false -> LOCAL_AS (cfgs n) && LOCAL_AS_REPLACE_AS (cfgs n) = false ->
  asPath (attrs r') = withSegment BGP_AS_SEQUENCE (app l) (asPath (pa_attrs pa)) -> ALLOWAS_IN c = false -> applyIngressPolicy cfg r' c = true.
Proof.
  intros He Hx Hp Hr Hpath Hallow.
  assert (Hpr : produced cfg addr n ses pa) by (exists r, false; split; [done|]; rewrite He; done).
  apply produced_external in Hpr as [[_ _ Hown] _]; [|done]. destruct (Hown Hp) as (tl & rest & Hseg). rewrite Hseg in Hpath. cbn in Hpath.
  destruct (ownAses_confed (cfgs n) Hr) as (l1 & l2 & Eo).
  assert (Hl : asLoop cfg c (asPath (attrs r')) = true).
  { unfold asLoop. rewrite Hallow, Hpath. cbn [negb andb]. apply orb_true_iff. left. apply orb_true_iff. left. apply Z.ltb_lt.
    eapply (countAs_pos _ _ _ (getConfedId cfg) (l ++ l1) (l2 ++ tl)); [apply ownAsWeight_nonneg | | apply ownAsWeight_confed].
    cbn [asns]. rewrite Eo, <- !app_assoc. done. }
  unfold applyIngressPolicy. rewrite Hl. rewrite !orb_true_r. done.
Qed.

(** C20: An internal neighbor is announced something on account of the best route of
    another internal neighbor only if one of the two is a route-reflector
    client, and never on account of its own. *)
Theorem internal_split_horizon now h reachable nlri best addr o o' acts u : adjOutFor cfg now h reachable nlri best addr o = Ret o' ->
  log o' = log o ++ acts -> SendUpdate addr u ∈ acts -> upd_announcements u <> [] ->
  exists lr r n, best = Some lr /\ h !! route lr = Some r /\ neighbors o !! addr = Some n /\
    forall src, sourceNeighbor (rn_base r) = Some src -> ebgp (rn_base r) = false -> confedEbgp (rn_base r) = false ->
      isEbgp cfg n = false -> isConfedEbgp cfg n = false ->
      neighborAddress src <> addr /\ exists from, neighbors o !! neighborAddress src = Some from /\
        ROUTE_REFLECTOR_CLIENT (cfgs from) || ROUTE_REFLECTOR_CLIENT (cfgs n) = true.
Proof.
  intros H Hl Hu Ha. destruct (adjOutFor_announces _ _ _ _ _ _ _ _ _ _ _ H Hl Hu Ha) as (lr & r & n & reflecting & Hb & Hd & Hn & _ & Hs).
  unfold deref in Hd. destruct (h !! route lr) as [r0|] eqn:Er; [|discriminate]. injection Hd as ->.
  exists lr, r, n. split; [done|]. split; [done|]. split; [done|]. intros src Hsrc Hi Hc Hn1 Hn2. unfold splitHorizon in Hs.
  rewrite Hsrc, Hi, Hc, Hn1, Hn2 in Hs. cbn [negb andb] in Hs. destruct (neighbors o !! neighborAddress src) as [from|]; [|discriminate].
  destruct (ROUTE_REFLECTOR_CLIENT (cfgs from)) eqn:E1, (ROUTE_REFLECTOR_CLIENT (cfgs n)) eqn:E2; cbn [negb andb] in Hs; try discriminate;
    case_bool_decide as Ea; try discriminate; (split; [done|]; exists from; rewrite E1; done).
Qed.
End Guarantees.

Lemma loc_rib_sound_witness :
  (forall lr p, locRib plain_state !! net_2 = Some lr -> p ∈ refs lr ->
     p ∈ candidates id net_2 plain_state /\ exists rn, heap plain_state !! p = Some rn /\ rn_nlri rn = net_2) /\
  locRib plain_state !! net_2 = Some (mkLocalRoute 2 [] []).
Proof.
  split; [apply (loc_rib_sound plain_cfg (fun _ => 0) next_free id next_free_fresh (fun l => Permutation_refl l) plain_nbrs), plain_state_reach | vm_compute; reflexivity].
Defined.

Lemma plain_own_keys k : own_key plain_cfg k -> k = mkNlriPath defaultNlri 0.
Proof. destruct k as [n i]. intros [Hi [Hn|(c & Hc & _)]]; cbn in *; [congruence | by apply elem_of_nil in Hc]. Qed.

Lemma adj_rib_out_is_heard_witness :
  ~ own_key plain_cfg (mkNlriPath net_1 0) /\
  heard addr_b (log (out plain_state)) !! mkNlriPath net_1 0 = peerOut 12 (out plain_state) !! mkNlriPath net_1 0 /\
  is_Some (peerOut 12 (out plain_state) !! mkNlriPath net_1 0).
Proof.
  assert (Hk : ~ own_key plain_cfg (mkNlriPath net_1 0)) by (intros H; apply plain_own_keys in H; discriminate).
  split; [exact Hk|]. split; [|by_compute].
  apply (adj_rib_out_is_heard plain_cfg (fun _ => 0) next_free id plain_nbrs plain_state addr_b (plain_session 12) (mkNlriPath net_1 0) plain_state_reach);
    [vm_compute; reflexivity | exact Hk].
Defined.

Lemma external_announcements_witness :
  exists pa, heard addr_c (log (out plain_state)) !! mkNlriPath net_1 0 = Some pa /\ external_core plain_cfg (plain_nbr 65003) pa /\ nextHop (pa_path pa) = addr_c.
Proof.
  set (n := mkNeighbor (plain_nbr 65003) 13 (Some (plain_session 13)) false 0 false false).
  exists (mkPA (set_asPath [mkSegment BGP_AS_SEQUENCE [65001; 65002]] (set_origin (Some 0) Attributes_new)) (mkPath (mkAfiSafi 1 1) addr_c None None)).
  assert (H : heard addr_c (log (out plain_state)) !! mkNlriPath net_1 0 =
    Some (mkPA (set_asPath [mkSegment BGP_AS_SEQUENCE [65001; 65002]] (set_origin (Some 0) Attributes_new)) (mkPath (mkAfiSafi 1 1) addr_c None None))) by by_compute.
  split; [exact H|].
  destruct (external_announcements plain_cfg (fun _ => 0) next_free id plain_nbrs plain_state addr_c n (plain_session 13) (mkNlriPath net_1 0) _ plain_state_reach
    ltac:(vm_compute; reflexivity) eq_refl ltac:(vm_compute; reflexivity) H) as [Hc Hh].
  split; [exact Hc|]. apply Hh; [|by left]. intros Ho. apply plain_own_keys in Ho. discriminate.
Defined.

(** The neighbor in AS 65002 withdraws one network and announces the other
    again with another path. *)
Lemma adj_rib_in_is_received_witness :
  let u := mkParsed [mkNlriPath net_1 0] [mkNlriPath net_2 0] (Some (plain_pa [65002; 65010] addr_a)) in
  exists s', step plain_cfg (fun _ => 0) next_free id 6 (UpdateFrom addr_a u) plain_state = Ret s' /\
    inTable 11 s' = apply_update (mkUpd [mkNlriPath net_1 0] [(plain_pa [65002; 65010] addr_a, [mkNlriPath net_2 0])]) (inTable 11 plain_state) /\
    inTable 11 s' = {[mkNlriPath net_2 0 := plain_pa [65002; 65010] addr_a]}.
Proof.
  intros u. destruct (step plain_cfg (fun _ => 0) next_free id 6 (UpdateFrom addr_a u) plain_state) as [s'| |] eqn:E;
    [|vm_compute in E; discriminate E | vm_compute in E; discriminate E].
  exists s'. split; [done|]. set (n := mkNeighbor (plain_nbr 65002) 11 (Some (plain_session 11)) false 0 false false).
  assert (H : inTable 11 s' = apply_update (mkUpd (pu_withdrawn u) (accepted plain_cfg (fun _ => 0) 6 addr_a n u)) (inTable 11 plain_state)).
  { apply (adj_rib_in_is_received plain_cfg (fun _ => 0) next_free id next_free_fresh (fun l => Permutation_refl l) plain_nbrs plain_state 6 addr_a u s' n (plain_session 11));
      [exact plain_state_reach | vm_compute; reflexivity | reflexivity | exact E]. }
  split; [exact H|]. rewrite H. by_compute.
Defined.

(** The first network has one route, from the neighbor in AS 65002. *)
Lemma withdrawal_not_propagated_witness :
  locRib plain_state !! net_1 = Some (mkLocalRoute 1 [] []) /\ is_Some (heard addr_c (log (out plain_state)) !! mkNlriPath net_1 0) /\
  exists s' l, step plain_cfg (fun _ => 0) next_free id 6 (UpdateFrom addr_a (mkParsed [mkNlriPath net_1 0] [] None)) plain_state = Ret s' /\
    locRib s' !! net_1 = None /\ log (out s') = log (out plain_state) ++ l /\ l ⊆ [MaxPrefixReached addr_a] /\
    forall b, heard b (log (out s')) = heard b (log (out plain_state)).
Proof.
  split; [vm_compute; reflexivity|]. split; [by_compute|].
  apply (withdrawal_not_propagated plain_cfg (fun _ => 0) next_free id next_free_fresh (fun l => Permutation_refl l) plain_nbrs plain_state 6 addr_a
    (plain_session 11) (mkNlriPath net_1 0) 1%nat ltac:(done) plain_state_reach); vm_compute; reflexivity.
Defined.

(** The neighbor in AS 65002 starts a refresh, announces nothing and ends it. *)
Definition refreshing_state : AfState := onPeerBorr plain_cfg 6 11 plain_state.

Lemma eorr_purges_nothing_witness :
  step plain_cfg (fun _ => 0) next_free id 6 (BorrFrom addr_a) plain_state = Ret refreshing_state /\
  stalePeerNlris refreshing_state !! 11 = Some {[net_1; net_2]} /\
  step plain_cfg (fun _ => 0) next_free id 7 (EorrFrom addr_a) refreshing_state = Ret (on_stale (delete 11) (delete 11) refreshing_state) /\
  size (inTable 11 (on_stale (delete 11) (delete 11) refreshing_state)) = 2%nat.
Proof.
  assert (Hs : session_of (out plain_state) addr_a = Some (plain_session 11)) by (vm_compute; reflexivity).
  split; [cbn [step]; rewrite Hs; reflexivity|]. split; [vm_compute; reflexivity|]. split; [|vm_compute; reflexivity].
  apply (eorr_purges_nothing plain_cfg (fun _ => 0) next_free id 7 addr_a (plain_session 11) refreshing_state (true, true)); vm_compute; reflexivity.
Defined.

(** The neighbor in AS 65002 announces two networks with a path through this
    AS. *)
Lemma rejected_update_aborts_witness :
  let u := mkParsed [] [mkNlriPath net_1 0; mkNlriPath net_2 0] (Some (plain_pa [65002; 65001] addr_a)) in
  step plain_cfg (fun _ => 0) next_free id 6 (UpdateFrom addr_a u) plain_state = Throw "assertion failed".
Proof.
  set (n := mkNeighbor (plain_nbr 65002) 11 (Some (plain_session 11)) false 0 false false).
  intros u. apply (rejected_update_aborts plain_cfg (fun _ => 0) next_free id 6 addr_a n (plain_session 11) u plain_state (plain_pa [65002; 65001] addr_a)
    (mkNlriPath net_1 0) (mkNlriPath net_2 0) []); vm_compute; reflexivity.
Defined.

(** The route the neighbor in AS 65002 sent comes back from AS 65003 through
    AS 65010. *)
Lemma returned_route_dropped_witness :
  let r := mkNode (InboundRoute_new (pa_attrs (plain_pa [65002] addr_a)) (Some (mkNeighborAf 11 addr_a)) 4) (pa_path (plain_pa [65002] addr_a)) net_1 in
  let back := inbound plain_cfg (fun _ => 0) 9 (plain_pa [65003; 65010; 65001; 65002] addr_c) addr_c (idle (plain_nbr 65003)) 65003 in
  applyEgressPolicy plain_cfg r addr_c (idle (plain_nbr 65003)) (plain_session 13) = Ret (plain_pa [65001; 65002] addr_c) /\
  applyIngressPolicy plain_cfg back (plain_nbr 65003) = true.
Proof.
  intros r back. split; [reflexivity|].
  apply (returned_route_dropped plain_cfg r addr_c (idle (plain_nbr 65003)) (plain_session 13) (plain_pa [65001; 65002] addr_c) back (plain_nbr 65003) [65003; 65010]);
    reflexivity.
Defined.

(** A client gets what a non-client announced. *)
Definition client_nbr : NbrConfig :=
  mkNbrConfig (Some 65001) true 0 false None false false false false false false false false false false false false true false None
    false 0 false false None None false None None false None.

Lemma internal_split_horizon_witness :
  let o := mkOutbound {[ addr_b := idle (plain_nbr 65001); addr_c := mkNeighbor client_nbr 13 (Some (plain_session 13)) false 0 false false ]} ∅ ∅ 0 ∅ ∅ [] in
  let src := mkNeighborAf 12 addr_b in
  let r := mkNode (mkInboundRoute (pa_attrs (plain_pa [65002] addr_b)) (Some src) 0 65001 false false 0 4) (pa_path (plain_pa [65002] addr_b)) net_1 in
  neighborAddress src <> addr_c /\ exists from, neighbors o !! neighborAddress src = Some from /\
    ROUTE_REFLECTOR_CLIENT (cfgs from) || ROUTE_REFLECTOR_CLIENT client_nbr = true.
Proof.
  intros o src r. destruct (adjOutFor plain_cfg 5 {[1%nat := r]} (fun _ => None) net_1 (Some (mkLocalRoute 1 [] [])) addr_c o) as [o'| |] eqn:E;
    [|vm_compute in E; discriminate E | vm_compute in E; discriminate E].
  assert (Hl : exists u, log o' = log o ++ [SendUpdate addr_c u] /\ upd_announcements u <> []).
  { vm_compute in E. injection E as <-. eexists. split; [reflexivity | discriminate]. }
  destruct Hl as (u & Hl & Hu).
  destruct (internal_split_horizon plain_cfg 5 {[1%nat := r]} (fun _ => None) net_1 (Some (mkLocalRoute 1 [] [])) addr_c o o' [SendUpdate addr_c u] u E Hl) as
    (lr & r' & n & [= <-] & Hr & Hn & H); [left | exact Hu|].
  assert (Er : Some r = Some r') by (rewrite <- Hr; vm_compute; reflexivity). injection Er as <-.
  assert (En : Some (mkNeighbor client_nbr 13 (Some (plain_session 13)) false 0 false false) = Some n) by (rewrite <- Hn; vm_compute; reflexivity). injection En as <-.
  apply (H src); reflexivity.
Defined.
