(* ===== verification/BgpAfDefined.v ===== *)
(** * BgpAfDefined: the events of an address family that go through

    Reads through references, assertions and shifts can stop the process or be
    undefined. Here the settings and UPDATEs are delimited under which every
    event of a reachable state has a result. *)

From S2P Require Import Prelude IPAddress BgpUpdate AttributeManager BestPath BgpDampening BgpEgress BgpAf BgpAfProps.
From Stdlib Require Import Sorting.Permutation.

Definition defined {A} (o : outcome A) : Prop := exists a, o = Ret a.

Lemma defined_ret {A} (a : A) : defined (Ret a).
Proof. by exists a. Qed.






(** Settings without distance ranges, aggregates that are prefixes, and a half
    life for dampening. *)
Record settings_ok (cfg : BgpConfig) : Prop := {
  ok_distance : DISTANCE_RANGE cfg = [];
  ok_aggregates : Forall (fun c => 0 <= p4_len (agg_prefix c) <= 32) (AGGREGATE_ADDRESS cfg);
  ok_half_life : BGP_DAMPENING_HALF_LIFE (DAMPENING cfg) <> 0
}.

Definition nbr_ok (n : Neighbor) : Prop :=
  NEXT_HOP_SELF (cfgs n) = false /\ SLOW_PEER_MODE (cfgs n) <> None /\
  match session n with Some ses => addPathSend ses = false /\ localAddress ses <> None | None => True end.

#[export] Instance nbr_ok_dec n : Decision (nbr_ok n).
Proof. unfold nbr_ok. destruct (session n); apply _. Defined.





Section Defined.
Context (cfg : BgpConfig) (cfg_ok : settings_ok cfg).

(** ** Announcements *)










End Defined.

(** ** The sources of all routes stay known *)








Section Grows.
Context (cfg : BgpConfig) (resolveIgpMetric : IPAddress -> Z) (alloc : Heap -> nat) (order : list nat -> list nat).
#[local] Abbreviation recomputeNlri := (recomputeNlri cfg resolveIgpMetric order).
#[local] Abbreviation recomputeAll := (recomputeAll cfg resolveIgpMetric order).





















End Grows.

(** ** Every event goes through *)

Section Total.
Context (cfg : BgpConfig) (resolveIgpMetric : IPAddress -> Z) (alloc : Heap -> nat) (order : list nat -> list nat).
Context (cfg_ok : settings_ok cfg) (alloc_fresh : forall h, h !! alloc h = None) (order_perm : forall l, order l ≡ₚ l).
#[local] Abbreviation inv := (inv cfg).
#[local] Abbreviation recomputeNlri := (recomputeNlri cfg resolveIgpMetric order).
#[local] Abbreviation recomputeAll := (recomputeAll cfg resolveIgpMetric order).





















(** ** The other events *)





















End Total.

