(* ===== verification/BgpBuild.v ===== *)
(** * BgpBuild: UPDATE messages from what a neighbor is told

    BgpTx::buildUpdate for IPv4 unicast (routing/bgp/transport/BgpTx.h): the
    announcements and withdrawals of [BgpEgress] are packed into messages of
    limited size. A message is here the pieces that the builder reserves and
    writes for it, laid end to end (see [BgpTx]: the code never commits them, so
    that no message ever leaves); read that way they meet the receiver of
    [BgpUpdate]. A loop of the builder is given a number of turns; [None] means
    that they are used up. *)

From S2P Require Import Prelude BgpFsm ByteUtils IPAddress BgpRx BgpUpdate AttributeManager BestPath BgpTx BgpEgress.

(** ** Building *)

Section Build.
(** What the session negotiated: long messages, ADD-PATH for the family, AS
    numbers of four bytes; whether the neighbor is external. *)
Context (extended addPath use4 ebgp : bool).

(** [routing/bgp/transport/BgpTx.h:365-365] BgpTx::buildUpdate *)
Definition maxMsg : Z := if extended then 65535 else 4096.

Definition entrySize (k : NlriPath) : Z := (if addPath then 4 else 0) + Z.of_nat (nlriEncodedSize (np_nlri k)).

(** [routing/bgp/transport/BgpTx.h:221-237] computeNlriLen, from an entry on *)
Fixpoint computeNlriLen (maxNlriSize : Z) (l : list NlriPath) (total : Z) : nat * Z :=
  match l with
  | [] => (0%nat, total)
  | k :: l =>
      if maxNlriSize <? total + entrySize k then (0%nat, total)
      else let r := computeNlriLen maxNlriSize l (total + entrySize k) in (S r.1, r.2)
  end.

(** [routing/bgp/transport/BgpTx.h:253-263] appendNlri *)
Fixpoint appendNlri (l : list NlriPath) (o : Out) : outcome Out :=
  match l with
  | [] => Ret o
  | k :: l =>
      tl ← encodeNlri (replicate (nlriEncodedSize (np_nlri k)) 0) (np_nlri k);
      appendNlri l (reserve ((if addPath then be_encode 4 (np_pathId k) else []) ++ tl) o)
  end.

(** The header and the two lengths are reserved first and written last. *)
Definition assemble (wdBytes attrBytes nlriBytes : Z) (o : Out) : bytes :=
  buildHeader 2 (u16 (4 + wdBytes + attrBytes + nlriBytes)) ++ be_encode 2 (u16 wdBytes) ++ be_encode 2 (u16 attrBytes) ++ wire o.

(** [routing/bgp/transport/BgpTx.h:379-433] BgpTx::buildUpdate, one message of an announcement, and what is left to withdraw
    and to announce *)
Definition announceOne (pa : PathAttribute) (withdrawn nlri : list NlriPath) : outcome (bytes * list NlriPath * list NlriPath) :=
  let o := appendPathAttrs use4 ebgp (pa_attrs pa) (pa_path pa) (mkOut 0 []) in
  let attrBytes := Z.of_nat (attrsSize o) in
  let wdBudget := u64 (maxMsg - Z.of_nat headerSize - 4 - attrBytes) in
  let '(wdEntries, wdBytes) := computeNlriLen wdBudget withdrawn 0 in
  o ← appendNlri (take wdEntries withdrawn) o;
  let nlriBudget := u64 (maxMsg - Z.of_nat headerSize - 4 - attrBytes - wdBytes) in
  let '(nlriEntries, nlriBytes) := computeNlriLen nlriBudget nlri 0 in
  o ← appendNlri (take nlriEntries nlri) o;
  Ret (assemble wdBytes attrBytes nlriBytes o, drop wdEntries withdrawn, drop nlriEntries nlri).

(** [routing/bgp/transport/BgpTx.h:375-435] BgpTx::buildUpdate, one announcement: the messages, and what is left to
    withdraw *)
Fixpoint announceLoop (fuel : nat) (pa : PathAttribute) (withdrawn nlri : list NlriPath) (out : list bytes) : outcome (option (list bytes * list NlriPath)) :=
  match nlri, withdrawn with
  | [], [] => Ret (Some (out, []))
  | _, _ =>
      match fuel with
      | O => Ret None
      | S fuel => '(m, withdrawn, nlri) ← announceOne pa withdrawn nlri; announceLoop fuel pa withdrawn nlri (out ++ [m])
      end
  end.

(** [routing/bgp/transport/BgpTx.h:373-436] BgpTx::buildUpdate, the announcements *)
Fixpoint announceEach (fuel : nat) (l : list (PathAttribute * list NlriPath)) (withdrawn : list NlriPath) (out : list bytes) : outcome (option (list bytes * list NlriPath)) :=
  match l with
  | [] => Ret (Some (out, withdrawn))
  | a :: l =>
      r ← announceLoop fuel a.1 withdrawn a.2 out;
      match r with Some (out, withdrawn) => announceEach fuel l withdrawn out | None => Ret None end
  end.

(** [routing/bgp/transport/BgpTx.h:439-472] BgpTx::buildUpdate, the withdrawals that are left *)
Fixpoint withdrawLoop (fuel : nat) (withdrawn : list NlriPath) (out : list bytes) : outcome (option (list bytes)) :=
  match withdrawn with
  | [] => Ret (Some out)
  | _ =>
      match fuel with
      | O => Ret None
      | S fuel =>
          let '(wdEntries, wdBytes) := computeNlriLen (u64 (maxMsg - Z.of_nat headerSize - 4)) withdrawn 0 in
          o ← appendNlri (take wdEntries withdrawn) (mkOut 0 []);
          withdrawLoop fuel (drop wdEntries withdrawn) (out ++ [assemble wdBytes 0 0 o])
      end
  end.

(** [routing/bgp/transport/BgpTx.h:358-473] BgpTx::buildUpdate *)
Definition buildUpdate (fuel : nat) (u : Update) : outcome (option (list bytes)) :=
  r ← announceEach fuel (upd_announcements u) (upd_withdrawn u) [];
  match r with Some (out, withdrawn) => withdrawLoop fuel withdrawn out | None => Ret None end.
End Build.

(** ** What is written *)

Definition entry_wire (addPath : bool) (k : NlriPath) : bytes := (if addPath then be_encode 4 (np_pathId k) else []) ++ nlri_wire (np_nlri k).
Definition entries_wire (addPath : bool) (l : list NlriPath) : bytes := concat (entry_wire addPath <$> l).

Definition key_ok (k : NlriPath) : Prop := in_width 8 (p4_len (np_nlri k)) /\ p4_len (np_nlri k) <= 32.

#[export] Instance key_ok_dec k : Decision (key_ok k).
Proof. unfold key_ok. apply _. Defined.

Section BuildProofs.
Context (extended addPath use4 ebgp : bool).
#[local] Abbreviation entrySize := (entrySize addPath).
#[local] Abbreviation computeNlriLen := (computeNlriLen addPath).
#[local] Abbreviation maxMsg := (maxMsg extended).
#[local] Abbreviation attrs_out pa := (appendPathAttrs use4 ebgp (pa_attrs pa) (pa_path pa) (mkOut 0 [])).

Lemma entry_wire_length k : key_ok k -> Z.of_nat (length (entry_wire addPath k)) = entrySize k.
Proof.
  intros [_ H]. unfold entry_wire, BgpBuild.entrySize. rewrite length_app, nlri_wire_length by done.
  destruct addPath; [rewrite be_encode_length|]; cbn; lia.
Qed.

(** The largest entry. *)
Definition maxEntry : Z := (if addPath then 4 else 0) + 5.

Lemma entrySize_bounds k : key_ok k -> 1 <= entrySize k <= maxEntry.
Proof.
  intros [_ H]. unfold BgpBuild.entrySize, maxEntry, nlriEncodedSize. pose proof (octets_le _ H). destruct addPath; lia.
Qed.

Fixpoint total (l : list NlriPath) : Z := match l with [] => 0 | k :: l => entrySize k + total l end.

Lemma total_nonneg l : Forall key_ok l -> 0 <= total l.
Proof. induction 1 as [|k l Hk _ IH]; cbn [total]; [lia|]. pose proof (entrySize_bounds k Hk). lia. Qed.

Lemma entries_wire_length l : Forall key_ok l -> Z.of_nat (length (entries_wire addPath l)) = total l.
Proof.
  unfold entries_wire. induction 1 as [|k l Hk _ IH]; [done|]. cbn [fmap list_fmap concat total].
  rewrite length_app, Nat2Z.inj_add, entry_wire_length, IH by done. done.
Qed.

Lemma computeNlriLen_spec max l : forall t, t <= max ->
  (computeNlriLen max l t).2 = t + total (take (computeNlriLen max l t).1 l) /\ (computeNlriLen max l t).2 <= max /\
  match l with [] => True | k :: _ => t + entrySize k <= max -> (0 < (computeNlriLen max l t).1)%nat end.
Proof.
  induction l as [|k l IH]; intros t Ht; cbn [BgpBuild.computeNlriLen]; [cbn; lia|].
  destruct (Z.ltb_spec max (t + entrySize k)) as [H|H]; cbn [fst snd take total]; [split; [lia|]; split; [lia|]; lia|].
  destruct (IH (t + entrySize k) H) as (H1 & H2 & _).
  split; [rewrite H1 at 1; lia|]. split; [done|]. lia.
Qed.

Lemma computeNlriLen_none max k l : max < entrySize k -> computeNlriLen max (k :: l) 0 = (0%nat, 0).
Proof. intros H. cbn. rewrite (proj2 (Z.ltb_lt _ _)) by lia. done. Qed.

Lemma appendNlri_spec l : Forall key_ok l -> forall o,
  exists o', appendNlri addPath l o = Ret o' /\ wire o' = wire o ++ entries_wire addPath l /\ attrsSize o' = attrsSize o.
Proof.
  induction 1 as [|k l [Hw Hl] _ IH]; intros o; cbn [appendNlri]; [exists o; rewrite app_nil_r; done|].
  rewrite encodeNlri_spec by (try done; rewrite length_replicate; lia). rewrite outcome_bind_ret_l, drop_ge, app_nil_r by (rewrite length_replicate; lia).
  fold (entry_wire addPath k). destruct (IH (reserve (entry_wire addPath k) o)) as (o' & -> & H1 & H2). exists o'. split; [done|]. split; [|exact H2].
  rewrite H1, wire_reserve, <- app_assoc. done.
Qed.

Lemma assemble_message wd at_ nl o : 0 <= wd -> 0 <= at_ -> 0 <= nl -> 23 + wd + at_ + nl <= 65535 -> Z.of_nat (length (wire o)) = wd + at_ + nl ->
  assemble wd at_ nl o = message (2, be_encode 2 wd ++ be_encode 2 at_ ++ wire o).
Proof.
  intros H1 H2 H3 H4 Hl. unfold assemble, message, buildHeader, headerSize. cbn [fst snd].
  assert (E : 19 + Z.of_nat (length (be_encode 2 wd ++ be_encode 2 at_ ++ wire o)) = 4 + wd + at_ + nl + 19) by (rewrite !length_app, !be_encode_length; lia).
  rewrite E, (wrap_small 16 (4 + wd + at_ + nl)), !(wrap_small 16) by (unfold in_width; lia). rewrite <- !app_assoc. done.
Qed.

Lemma message_length m : length (message m) = (19 + length m.2)%nat.
Proof. unfold message. rewrite !length_app, be_encode_length. cbn. lia. Qed.

Lemma maxMsg_bounds : 4096 <= maxMsg <= 65535.
Proof. unfold BgpBuild.maxMsg. destruct extended; lia. Qed.

(** The attributes leave room for an entry of any size. *)
Definition room (pa : PathAttribute) : Prop := 23 + Z.of_nat (attrsSize (attrs_out pa)) + maxEntry <= maxMsg.

Lemma u64_small x : 0 <= x < 2 ^ 64 -> u64 x = x.
Proof. intros H. apply wrap_small. exact H. Qed.

(** The size that is counted is the size that is written. *)
Definition counted (pa : PathAttribute) : Prop := attrsSize (attrs_out pa) = length (wire (attrs_out pa)).

Definition body (pa : PathAttribute) (wd nl : list NlriPath) : bytes :=
  be_encode 2 (total wd) ++ be_encode 2 (Z.of_nat (length (wire (attrs_out pa)))) ++ wire (attrs_out pa) ++ entries_wire addPath wd ++ entries_wire addPath nl.

(** One message: what it says, and that it gets on. *)
Lemma announceOne_spec pa wd nl : counted pa -> room pa -> Forall key_ok wd -> Forall key_ok nl ->
  exists i j, announceOne extended addPath use4 ebgp pa wd nl = Ret (message (2, body pa (take i wd) (take j nl)), drop i wd, drop j nl) /\
    23 + Z.of_nat (length (wire (attrs_out pa))) + total (take i wd) + total (take j nl) <= maxMsg /\
    (wd <> [] -> (0 < i)%nat) /\ (wd = [] -> nl <> [] -> (0 < j)%nat).
Proof.
  intros Hc Hroom Hwd Hnl. unfold room, maxEntry in Hroom. pose proof maxMsg_bounds as Hm. unfold announceOne, body. rewrite Hc in *.
  set (o := attrs_out pa) in *. set (b1 := maxMsg - Z.of_nat headerSize - 4 - Z.of_nat (length (wire o))).
  assert (H0 : (if addPath then 4 else 0) + 5 <= b1 < 65536) by (unfold b1, headerSize; lia).
  assert (Hap : 0 <= (if addPath then 4 else 0)) by (destruct addPath; lia).
  rewrite (u64_small b1) by lia. destruct (computeNlriLen_spec b1 wd 0) as (E1 & B1 & P1); [lia|].
  destruct (computeNlriLen b1 wd 0) as [i wdBytes]. cbn [fst snd] in *.
  assert (Hti : 0 <= total (take i wd)) by (apply total_nonneg, Forall_take, Hwd).
  destruct (appendNlri_spec (take i wd) (Forall_take _ _ _ Hwd) o) as (o1 & A1 & W1 & _). rewrite A1, outcome_bind_ret_l.
  change (maxMsg - Z.of_nat headerSize - 4 - Z.of_nat (length (wire o)) - wdBytes) with (b1 - wdBytes).
  rewrite (u64_small (b1 - wdBytes)) by lia. destruct (computeNlriLen_spec (b1 - wdBytes) nl 0) as (E2 & B2 & P2); [lia|].
  destruct (computeNlriLen (b1 - wdBytes) nl 0) as [j nlBytes]. cbn [fst snd] in *.
  assert (Htj : 0 <= total (take j nl)) by (apply total_nonneg, Forall_take, Hnl).
  destruct (appendNlri_spec (take j nl) (Forall_take _ _ _ Hnl) o1) as (o2 & A2 & W2 & _). rewrite A2, outcome_bind_ret_l.
  assert (W : wire o2 = wire o ++ entries_wire addPath (take i wd) ++ entries_wire addPath (take j nl)) by (rewrite W2, W1, <- app_assoc; done).
  exists i, j. rewrite Z.add_0_l in E1, E2. subst wdBytes nlBytes. split; [|split; [unfold b1, headerSize in *; lia|split]].
  - do 3 f_equal. rewrite assemble_message; [|lia|lia|lia|unfold b1, headerSize in *; lia|].
    + rewrite W. done.
    + rewrite W, !length_app, !Nat2Z.inj_add, !entries_wire_length by (by apply Forall_take). lia.
  - intros Hne. destruct wd as [|k wd]; [done|]. apply P1. apply Forall_cons in Hwd as [Hk _]. pose proof (entrySize_bounds k Hk). unfold maxEntry in *. lia.
  - intros -> Hne. destruct nl as [|k nl]; [done|]. apply P2. apply Forall_cons in Hnl as [Hk _]. pose proof (entrySize_bounds k Hk). unfold maxEntry in *.
    rewrite take_nil in *. cbn [total] in *. lia.
Qed.

(** A message of an announcement: attributes, what it withdraws and what it
    announces. *)
Abbreviation part := (PathAttribute * list NlriPath * list NlriPath)%type.
Definition said (x : part) : bytes := message (2, body x.1.1 x.1.2 x.2).
Definition fits (x : part) : Prop := 23 + Z.of_nat (length (wire (attrs_out x.1.1))) + total x.1.2 + total x.2 <= maxMsg.

Lemma announceLoop_spec fuel pa : counted pa -> room pa -> forall wd nl out, Forall key_ok wd -> Forall key_ok nl -> (length wd + length nl <= fuel)%nat ->
  exists parts, announceLoop extended addPath use4 ebgp fuel pa wd nl out = Ret (Some (out ++ (said <$> parts), [])) /\
    Forall (fun x => x.1.1 = pa /\ fits x) parts /\ (x ← parts; x.1.2) = wd /\ (x ← parts; x.2) = nl.
Proof.
  intros Hc Hr. induction fuel as [|fuel IH]; intros wd nl out Hwd Hnl Hf.
  - destruct wd, nl; cbn in Hf; try lia. exists []. cbn. rewrite app_nil_r. done.
  - assert (Hdone : wd = [] /\ nl = [] \/ (wd <> [] \/ nl <> [])) by (destruct wd, nl; auto).
    destruct Hdone as [[-> ->]|Hne]; [exists []; cbn; rewrite app_nil_r; done|].
    destruct (announceOne_spec pa wd nl Hc Hr Hwd Hnl) as (i & j & E & Hfit & Hi & Hj).
    assert (Hless : (length (drop i wd) + length (drop j nl) <= fuel)%nat).
    { rewrite !length_drop. destruct wd as [|k wd]; [|specialize (Hi ltac:(done)); cbn in *; lia].
      destruct nl as [|k nl]; [destruct Hne; done|]. specialize (Hj eq_refl ltac:(done)). cbn in *. lia. }
    destruct (IH (drop i wd) (drop j nl) (out ++ [said (pa, take i wd, take j nl)])) as (parts & E2 & Hp & Hw & Hn); [by apply Forall_drop | by apply Forall_drop | done|].
    exists ((pa, take i wd, take j nl) :: parts). split; [|split; [by constructor|]].
    + assert (E3 : announceLoop extended addPath use4 ebgp (S fuel) pa wd nl out =
        announceLoop extended addPath use4 ebgp fuel pa (drop i wd) (drop j nl) (out ++ [said (pa, take i wd, take j nl)])).
      { cbn [announceLoop]. rewrite E. cbn [mbind outcome_bind]. destruct wd, nl; try done. destruct Hne; done. }
      rewrite E3, E2, <- app_assoc. done.
    + rewrite !bind_cons; cbn [fst snd]. rewrite Hw, Hn, !take_drop. done.
Qed.

Lemma announceEach_spec fuel l : Forall (fun a => counted a.1 /\ room a.1 /\ Forall key_ok a.2) l -> forall wd out, Forall key_ok wd ->
  (length wd + length (a ← l; a.2) <= fuel)%nat ->
  exists parts wd', announceEach extended addPath use4 ebgp fuel l wd out = Ret (Some (out ++ (said <$> parts), wd')) /\
    Forall fits parts /\ (x ← parts; x.1.2) ++ wd' = wd /\ (x ← parts; pair x.1.1 <$> x.2) = (a ← l; pair a.1 <$> a.2) /\
    Forall (fun x => x.1.1 ∈ l.*1) parts.
Proof.
  induction 1 as [|a l (Hc & Hr & Hk) _ IH]; intros wd out Hwd Hf; [exists [], wd; cbn; rewrite app_nil_r; done|].
  cbn [announceEach]. cbn [mbind list_bind] in Hf. rewrite length_app in Hf.
  destruct (announceLoop_spec fuel a.1 Hc Hr wd a.2 out Hwd Hk ltac:(lia)) as (parts & E & Hp & Hw & Hn).
  rewrite E. cbn [mbind outcome_bind]. destruct (IH [] (out ++ (said <$> parts)) (Forall_nil_2 _)) as (parts' & wd' & E' & Hp' & Hw' & Hn' & Ha'); [cbn; lia|].
  exists (parts ++ parts'), wd'. rewrite E'. split; [rewrite fmap_app, app_assoc; done|]. split; [|split; [|split]].
  - apply Forall_app. split; [eapply Forall_impl; [exact Hp | intros x [_ H]; exact H] | exact Hp'].
  - rewrite bind_app, <- app_assoc, Hw, Hw', app_nil_r. done.
  - rewrite bind_app, Hn'. cbn [mbind list_bind]. f_equal. rewrite <- Hn. clear - Hp. induction Hp as [|x parts [E _] _ IH]; [done|].
    cbn [mbind list_bind]. rewrite fmap_app, E. f_equal. exact IH.
  - apply Forall_app. split; [eapply Forall_impl; [exact Hp | intros x [-> _]; cbn; left]|].
    eapply Forall_impl; [exact Ha' | intros x Hx; cbn; by right].
Qed.

Definition wbody (wd : list NlriPath) : bytes := be_encode 2 (total wd) ++ be_encode 2 0 ++ entries_wire addPath wd.

Lemma withdrawLoop_spec fuel : forall wd out, Forall key_ok wd -> (length wd <= fuel)%nat ->
  exists parts, withdrawLoop extended addPath fuel wd out = Ret (Some (out ++ ((fun x => message (2, wbody x)) <$> parts))) /\
    Forall (fun x => 23 + total x <= maxMsg) parts /\ concat parts = wd.
Proof.
  induction fuel as [|fuel IH]; intros wd out Hwd Hf; (destruct wd as [|k wd]; [exists []; cbn; rewrite app_nil_r; done|]); [cbn in Hf; lia|].
  pose proof maxMsg_bounds as Hm. cbn [withdrawLoop]. set (l := k :: wd) in *. set (b := maxMsg - Z.of_nat headerSize - 4).
  rewrite (u64_small b) by (unfold b, headerSize; lia). destruct (computeNlriLen_spec b l 0) as (E & B & P); [unfold b, headerSize; lia|].
  destruct (computeNlriLen b l 0) as [i wdBytes]. cbn [fst snd] in *.
  assert (Hi : (0 < i)%nat).
  { apply P. apply Forall_cons in Hwd as [Hk _]. pose proof (entrySize_bounds k Hk) as Hb. unfold maxEntry in Hb. unfold b, headerSize. destruct addPath; lia. }
  destruct (appendNlri_spec (take i l) (Forall_take _ _ _ Hwd) (mkOut 0 [])) as (o & A & W & _). rewrite A. cbn [mbind outcome_bind].
  assert (Ht : 0 <= total (take i l)) by (apply total_nonneg, Forall_take, Hwd). rewrite Z.add_0_l in E. subst wdBytes.
  destruct (IH (drop i l) (out ++ [assemble (total (take i l)) 0 0 o])) as (parts & E2 & Hp & Hw); [by apply Forall_drop | rewrite length_drop; cbn in *; lia|].
  exists (take i l :: parts). rewrite E2, <- app_assoc. split; [|split; [constructor; [unfold b, headerSize in B; lia | exact Hp] | cbn [concat]; rewrite Hw; apply take_drop]].
  do 3 f_equal. cbn [app fmap list_fmap]. f_equal. change (wire (mkOut 0 [])) with (@nil Z) in W. cbn [app] in W.
  rewrite assemble_message; [unfold wbody; rewrite W; done | lia | lia | lia | unfold b, headerSize in B; lia|].
  rewrite W, entries_wire_length by (by apply Forall_take). lia.
Qed.
End BuildProofs.

(** ** Sending and receiving *)

Section Messages.
Context (extended addPath ebgp : bool).

Lemma counted_sizes pa : sizes_ok (pa_attrs pa) -> counted true ebgp pa.
Proof. intros Hs. unfold counted. destruct (writes_attrs ebgp (pa_attrs pa) (pa_path pa) Hs (mkOut 0 [])) as [-> ->]. done. Qed.

(** What an UPDATE needs for the builder to get on: attributes whose lists fit
    their length fields and leave room for an entry, prefixes of at most 32
    bits. *)
Definition sendable (u : Update) : Prop :=
  Forall key_ok (upd_withdrawn u) /\
  Forall (fun a => sizes_ok (pa_attrs a.1) /\ room extended addPath true ebgp a.1 /\ Forall key_ok a.2) (upd_announcements u).

(** For an update whose attributes leave room for a prefix ([sendable]) the
    builder finishes within one turn for each prefix. The pieces of every
    message, laid end to end, are a whole UPDATE message of at most the length
    that was negotiated, and the messages withdraw and announce, in order,
    exactly the prefixes of the update, with their attributes. *)
Theorem update_messages fuel u : sendable u -> (length (upd_withdrawn u) + length (a ← upd_announcements u; a.2) <= fuel)%nat ->
  exists parts wparts,
    buildUpdate extended addPath true ebgp fuel u =
      Ret (Some ((said addPath true ebgp <$> parts) ++ ((fun x => message (2, wbody addPath x)) <$> wparts))) /\
    Forall (fun m => Z.of_nat (length m) <= maxMsg extended) ((said addPath true ebgp <$> parts) ++ ((fun x => message (2, wbody addPath x)) <$> wparts)) /\
    (x ← parts; x.1.2) ++ concat wparts = upd_withdrawn u /\
    (x ← parts; pair x.1.1 <$> x.2) = (a ← upd_announcements u; pair a.1 <$> a.2).
Proof.
  intros [Hw Ha] Hf. unfold buildUpdate.
  assert (Ha' : Forall (fun a => counted true ebgp a.1 /\ room extended addPath true ebgp a.1 /\ Forall key_ok a.2) (upd_announcements u)).
  { eapply Forall_impl; [exact Ha|]. intros a (H1 & H2 & H3). split; [by apply counted_sizes | done]. }
  destruct (announceEach_spec extended addPath true ebgp fuel _ Ha' (upd_withdrawn u) [] Hw Hf) as (parts & wd' & E & Hp & Hwd & Hn & _).
  rewrite E. cbn [mbind outcome_bind]. assert (Hwd' : Forall key_ok wd') by (rewrite <- Hwd in Hw; apply Forall_app in Hw as [_ Hw]; exact Hw).
  destruct (withdrawLoop_spec extended addPath fuel wd' ([] ++ (said addPath true ebgp <$> parts)) Hwd') as (wparts & E' & Hp' & Hc).
  { apply (f_equal length) in Hwd. rewrite length_app in Hwd. lia. }
  exists parts, wparts. rewrite E'. split; [done|]. split; [|split; [by rewrite Hc | exact Hn]].
  assert (Hx : Forall (fun x : PathAttribute * list NlriPath * list NlriPath => Forall key_ok x.1.2 /\ Forall key_ok x.2) parts).
  { apply Forall_forall. intros x Hx. split; apply Forall_forall; intros k Hk.
    - rewrite <- Hwd in Hw. apply Forall_app in Hw as [Hw _]. rewrite Forall_forall in Hw. apply Hw. rewrite list_elem_of_bind. exists x. done.
    - assert (Hin : (x.1.1, k) ∈ (a ← upd_announcements u; pair a.1 <$> a.2)).
      { rewrite <- Hn. apply list_elem_of_bind. exists x. split; [|done]. apply list_elem_of_fmap. by exists k. }
      apply list_elem_of_bind in Hin as (a & Hin & Hina). apply list_elem_of_fmap in Hin as (k' & [= _ ->] & Hk').
      rewrite Forall_forall in Ha. destruct (Ha a Hina) as (_ & _ & Hok). rewrite Forall_forall in Hok. by apply Hok. }
  apply Forall_app. split; apply Forall_fmap.
  - apply Forall_forall. intros x Hxp. rewrite Forall_forall in Hp, Hx. specialize (Hp x Hxp). destruct (Hx x Hxp) as [K1 K2].
    unfold fits in Hp. unfold compose, said. rewrite message_length. cbn [snd]. unfold body.
    rewrite !length_app, !be_encode_length, !Nat2Z.inj_add, !entries_wire_length by done. lia.
  - apply Forall_forall. intros x Hxp. rewrite Forall_forall in Hp'. specialize (Hp' x Hxp).
    assert (K : Forall key_ok x). { apply Forall_forall. intros k Hk. rewrite <- Hc, Forall_forall in Hwd'. apply Hwd'. apply list_elem_of_In, in_concat. exists x. split; by apply list_elem_of_In. }
    unfold compose. rewrite message_length. cbn [snd]. unfold wbody. rewrite !length_app, !be_encode_length, !Nat2Z.inj_add, entries_wire_length by done. lia.
Qed.

(** When the attributes of an announcement leave less room than its first
    prefix takes, the builder writes messages without prefixes for ever. *)
Theorem update_never_ends pa k keys fuel : sizes_ok (pa_attrs pa) ->
  let n := 23 + Z.of_nat (length (wire (appendPathAttrs true ebgp (pa_attrs pa) (pa_path pa) (mkOut 0 [])))) in
  n <= maxMsg extended < n + entrySize addPath k ->
  buildUpdate extended addPath true ebgp fuel (mkUpd [] [(pa, k :: keys)]) = Ret None.
Proof.
  intros Hs n Hn. pose proof (counted_sizes pa Hs) as Hc. unfold counted in Hc. set (o := appendPathAttrs true ebgp (pa_attrs pa) (pa_path pa) (mkOut 0 [])) in *.
  pose proof (maxMsg_bounds extended) as Hm.
  assert (E : announceOne extended addPath true ebgp pa [] (k :: keys) = Ret (assemble 0 (Z.of_nat (attrsSize o)) 0 o, [], k :: keys)).
  { assert (E0 : forall b, computeNlriLen addPath b [] 0 = (0%nat, 0)) by done.
    unfold announceOne. fold o. rewrite E0. cbn [take appendNlri mbind outcome_bind]. rewrite Z.sub_0_r. rewrite (u64_small _) by (rewrite Hc; unfold headerSize; lia).
    rewrite computeNlriLen_none by (rewrite Hc; unfold headerSize; lia). done. }
  unfold buildUpdate. cbn [upd_announcements upd_withdrawn announceEach fst snd].
  assert (Hl : forall fuel out, announceLoop extended addPath true ebgp fuel pa [] (k :: keys) out = Ret None).
  { clear fuel. intros fuel. induction fuel as [|fuel IH]; intros out; cbn [announceLoop]; [done|]. rewrite E. cbn [mbind outcome_bind]. apply IH. }
  rewrite Hl. done.
Qed.
End Messages.

(** ** What the neighbor reads *)

Section Received.
Context {S : Type} `{RxSession S} (findAddressFamily : AfiSafi -> bool) (onUpdateFromPeer : IncomingUpdate -> S -> outcome (S * bool * Notification)).

Definition payload_of (b : bytes) : span := mkSpan b (length b).

(** The NEXT HOP is always written, so the attributes are never empty. *)
Lemma attrs_nonempty ebgp a p : sizes_ok a -> (0 < length (wire (appendPathAttrs true ebgp a p (mkOut 0 []))))%nat.
Proof.
  intros Hs. destruct (writes_attrs ebgp a p Hs (mkOut 0 [])) as [Hw _]. cbn [wire chunks concat app] in Hw. rewrite Hw.
  eapply Nat.lt_le_trans; [|apply (tlvs_count (attr_list ebgp a p))]. rewrite attr_list_split. unfold attr_front. rewrite !length_app. cbn [length]. lia.
Qed.

Lemma body_length addPath ebgp pa wd nl : Forall key_ok wd -> Forall key_ok nl ->
  Z.of_nat (length (body addPath true ebgp pa wd nl)) = 4 + Z.of_nat (length (wire (appendPathAttrs true ebgp (pa_attrs pa) (pa_path pa) (mkOut 0 [])))) + total addPath wd + total addPath nl.
Proof. intros H1 H2. unfold body. rewrite !length_app, !be_encode_length, !Nat2Z.inj_add, !entries_wire_length by done. lia. Qed.

Lemma entries_wire_plain l : entries_wire false l = concat (nlri_wire <$> (np_nlri <$> l)).
Proof. unfold entries_wire, entry_wire. rewrite <- list_fmap_compose. done. Qed.

Lemma entries_bytes addPath l : Forall key_ok l -> is_bytes (entries_wire addPath l).
Proof.
  induction 1 as [|k l [Hk _] _ IH]; [constructor|]. unfold entries_wire. cbn [fmap list_fmap concat]. apply Forall_app. split; [|exact IH].
  unfold entry_wire. apply Forall_app. split; [destruct addPath; [apply be_encode_bytes | constructor] | apply nlri_wire_bytes, Hk].
Qed.

(** A message of well-formed parts, up to its prefixes. *)
Lemma process_parts (s : S) (w a tl : bytes) :
  Z.of_nat (length w) < 65536 -> Z.of_nat (length a) < 65536 -> (0 < length a)%nat -> is_bytes w -> is_bytes a -> is_bytes tl ->
  let at_ := be_encode 2 (Z.of_nat (length a)) ++ a ++ tl in
  let payload := payload_of (be_encode 2 (Z.of_nat (length w)) ++ w ++ at_) in
  processUpdateMsg findAddressFamily onUpdateFromPeer payload s =
    r ← parsePathAttributes s (mkSpan (a ++ tl) (length a)) (readStart (mkDataSpan (w ++ at_) (Z.of_nat (length w))) (mkDataSpan [] 0));
    match r with
    | inr e => Ret (s, code e =? 0, e)
    | inl u => finishUpdate findAddressFamily onUpdateFromPeer payload (4 + length w + length a) u s
    end.
Proof.
  intros Hw Ha Hne Bw Ba Bt at_ payload. unfold processUpdateMsg. unfold payload, payload_of. cbn [sp_ptr sp_size].
  assert (Hat : length at_ = (2 + (length a + length tl))%nat) by (unfold at_; rewrite !length_app, be_encode_length; done).
  assert (Bat : is_bytes at_) by (unfold at_; repeat (apply Forall_app; split); done || apply be_encode_bytes).
  rewrite !length_app, be_encode_length, Hat. set (size := (2 + (length w + _))%nat).
  rewrite readU16_wire by (unfold in_width; (lia || (apply Forall_app; done))). rewrite !(proj2 (Nat.ltb_ge _ _)) by (unfold size; lia). rewrite outcome_bind_ret_l, Nat2Z.id.
  rewrite !(proj2 (Nat.ltb_ge _ _)) by (unfold size; lia).
  replace (drop (2 + length w) _) with at_ by (rewrite app_assoc, drop_app_ge, length_app, be_encode_length, Nat.sub_diag by (rewrite length_app, be_encode_length; lia); done).
  change (readU16 at_) with (readU16 (be_encode 2 (Z.of_nat (length a)) ++ a ++ tl)). rewrite readU16_wire by (unfold in_width; (lia || (apply Forall_app; done))). rewrite outcome_bind_ret_l, Nat2Z.id.
  rewrite (proj2 (Nat.ltb_ge _ _)), (proj2 (Nat.eqb_neq _ _)) by (unfold size; lia).
  replace (drop (2 + length w + 2) _) with (a ++ tl).
  2:{ unfold at_. rewrite !app_assoc, <- (app_assoc _ a tl), drop_app_ge by (rewrite !length_app, !be_encode_length; lia).
      rewrite !length_app, !be_encode_length. replace (_ - _)%nat with 0%nat by lia. done. }
  change (drop 2 (be_encode 2 (Z.of_nat (length w)) ++ w ++ at_)) with (w ++ at_).
  replace (2 + length w + 2 + length a)%nat with (4 + length w + length a)%nat by lia. done.
Qed.

Lemma parse_nothing fuel p : parseNlri (Datatypes.S fuel) false (mkDataSpan p 0) 0 [] = Ret (inl []).
Proof. done. Qed.

(** A message body that announces prefixes, read by the neighbor. *)
Lemma body_read (s : S) (ebgp : bool) (pa : PathAttribute) (keys : list NlriPath) :
  asn32bit s = true -> (forall t, attrDiscard s t = false /\ attrWithdraw s t = false) ->
  sizes_ok (pa_attrs pa) -> values_ok (pa_attrs pa) -> Forall key_ok keys -> fits true false true ebgp (pa, [], keys) ->
  findAddressFamily (mkAfiSafi 1 1) = true ->
  exists u,
    processUpdateMsg findAddressFamily onUpdateFromPeer (payload_of (body false true ebgp pa [] keys)) s = onUpdateFromPeer u s /\
    BgpUpdate.attrs u = received ebgp (pa_attrs pa) /\
    nextHop (BgpUpdate.path u) = IPAddress_u32 (IPAddress_v4 (nextHop (pa_path pa))) /\ u_afi u = mkAfiSafi 1 1 /\
    parseUpdate false u = Ret (inl ([], (fun k => (misread (np_nlri k), 0)) <$> keys)).
Proof.
  intros Ha Hp Hs Hv Hk Hfit Hf. unfold fits in Hfit. cbn [fst snd total] in Hfit.
  pose proof (maxMsg_bounds true) as Hm. pose proof (attrs_nonempty ebgp _ (pa_path pa) Hs) as Hne. pose proof (total_nonneg false keys Hk) as Ht.
  pose proof (entries_bytes false keys Hk) as Hb. pose proof (attributes_are_bytes ebgp _ (pa_path pa) Hs Hv) as Hab.
  pose proof (attributes_read_back s ebgp (pa_attrs pa) (pa_path pa) (entries_wire false keys)) as R. cbv zeta in R.
  set (a := wire _) in *. unfold body. change (total false []) with 0. change (entries_wire false []) with (@nil Z). fold a.
  pose proof (process_parts s [] a (entries_wire false keys) ltac:(done) ltac:(lia) Hne ltac:(constructor) Hab Hb) as P. cbv zeta in P. cbn [app length] in P |- *.
  change (Z.of_nat 0) with 0 in P. rewrite P, R, outcome_bind_ret_l by done. clear P R. unfold finishUpdate. cbn [u_afi BgpUpdate.attrs BgpUpdate.path withdrawnData].
  cbn [afi safi]. change ((BGP_AFI_IPV4 =? BGP_AFI_IPV4) && (BGP_SAFI_UNICAST =? BGP_SAFI_UNICAST)) with true. cbn [u_afi].
  change (mkAfiSafi BGP_AFI_IPV4 BGP_SAFI_UNICAST) with (mkAfiSafi 1 1). rewrite Hf. eexists. split; [reflexivity|].
  cbn [BgpUpdate.attrs BgpUpdate.path u_afi nextHop]. do 3 (split; [done|]). unfold parseUpdate. cbn [withdrawnData nlriData].
  rewrite parse_nothing. cbn [mbind outcome_bind].
  unfold payload_of. cbn [sp_ptr sp_size]. rewrite !length_app, !be_encode_length.
  replace (drop _ _) with (entries_wire false keys).
  2:{ rewrite (app_assoc (be_encode 2 0)), (app_assoc (be_encode 2 0 ++ _)), drop_app_ge by (rewrite !length_app, !be_encode_length; lia).
      rewrite !length_app, !be_encode_length. replace (_ - _)%nat with 0%nat by lia. done. }
  replace (2 + (2 + (length a + _)) - _)%nat with (length (entries_wire false keys)) by lia. cbn [ds_ptr].
  rewrite entries_wire_plain. pose proof (parseNlri_wire (np_nlri <$> keys) [] [] (Datatypes.S (length (concat (nlri_wire <$> (np_nlri <$> keys))))) []) as W.
  cbv zeta in W. cbn [app length Nat.add] in W. rewrite app_nil_r in W. rewrite W; [|by apply Forall_fmap | constructor | lia].
  cbn [mbind outcome_bind]. rewrite <- list_fmap_compose. done.
Qed.

(** The first message written for an announcement, read by the neighbor: the
    attributes come out as [path_attributes_roundtrip] says, in an update
    without withdrawals whose prefixes are the first ones to announce, in
    order, each as [nlri_misread] says; the others are left for the next
    message. *)
Theorem update_roundtrip (s : S) (extended ebgp : bool) (pa : PathAttribute) (keys : list NlriPath) :
  asn32bit s = true -> (forall t, attrDiscard s t = false /\ attrWithdraw s t = false) ->
  sizes_ok (pa_attrs pa) -> values_ok (pa_attrs pa) -> Forall key_ok keys -> keys <> [] -> room extended false true ebgp pa ->
  findAddressFamily (mkAfiSafi 1 1) = true ->
  exists payload n u,
    announceOne extended false true ebgp pa [] keys = Ret (message (2, payload), [], drop n keys) /\ (0 < n)%nat /\
    processUpdateMsg findAddressFamily onUpdateFromPeer (payload_of payload) s = onUpdateFromPeer u s /\
    BgpUpdate.attrs u = received ebgp (pa_attrs pa) /\
    nextHop (BgpUpdate.path u) = IPAddress_u32 (IPAddress_v4 (nextHop (pa_path pa))) /\
    parseUpdate false u = Ret (inl ([], (fun k => (misread (np_nlri k), 0)) <$> take n keys)).
Proof.
  intros Ha Hp Hs Hv Hk Hne Hr Hf. pose proof (maxMsg_bounds extended) as Hm.
  destruct (announceOne_spec extended false true ebgp pa [] keys (counted_sizes ebgp pa Hs) Hr (Forall_nil_2 _) Hk) as (i & n & E & Hfit & _ & Hn).
  rewrite take_nil, drop_nil in E. rewrite take_nil in Hfit.
  destruct (body_read s ebgp pa (take n keys) Ha Hp Hs Hv) as (u & H1 & H2 & H3 & _ & H4); [by apply Forall_take | unfold fits; cbn in *; lia | done|].
  exists (body false true ebgp pa [] (take n keys)), n, u. split; [exact E|]. split; [by apply Hn|]. done.
Qed.


(** The builder writes the withdrawn prefixes behind the length of the path
    attributes, where they belong before it. So a neighbor that reads a message
    of withdrawals takes the two zeros of that length for two default routes,
    and the last two octets of the prefixes for the length: unless both are
    zero, the message is malformed for it, and it closes the session. *)
Theorem withdrawal_refused (s : S) (wd : list NlriPath) :
  Forall key_ok wd -> wd <> [] -> 23 + total false wd <= 65535 ->
  let read := [0; 0] ++ entries_wire false wd in
  let payload := payload_of (wbody false wd) in
  (drop (length (entries_wire false wd)) read <> [0; 0] ->
     processUpdateMsg findAddressFamily onUpdateFromPeer payload s = Ret (s, false, mkNotification 0x0301 [])) /\
  (drop (length (entries_wire false wd)) read = [0; 0] -> findAddressFamily (mkAfiSafi 1 1) = true ->
     exists u, processUpdateMsg findAddressFamily onUpdateFromPeer payload s = onUpdateFromPeer u s /\
       withdrawnData u = mkDataSpan read (Z.of_nat (length (entries_wire false wd)))).
Proof.
  intros Hk Hne Hm read payload. pose proof (entries_bytes false wd Hk) as Hb. pose proof (entries_wire_length false wd Hk) as Hl.
  assert (Hpos : 0 < total false wd). { destruct wd as [|k wd]; [done|]. apply Forall_cons in Hk as [Hk1 Hk]. cbn [total]. pose proof (entrySize_bounds false k Hk1). pose proof (total_nonneg false wd Hk). lia. }
  set (E := entries_wire false wd) in *. set (tl := drop (length E) read).
  assert (Hrl : length read = (2 + length E)%nat) by (unfold read; rewrite length_app; done).
  assert (Htl : length tl = 2%nat) by (unfold tl; rewrite length_drop; lia).
  assert (Hrb : is_bytes read) by (apply Forall_app; split; [by_compute | exact Hb]).
  assert (Htb : is_bytes tl) by (apply Forall_drop, Hrb).
  assert (Hp : sp_ptr payload = be_encode 2 (total false wd) ++ read) by done.
  assert (Hs : sp_size payload = (4 + length E)%nat) by (unfold payload, payload_of; cbn [sp_size]; fold (sp_ptr payload); unfold wbody; rewrite !length_app, !be_encode_length; fold E; lia).
  assert (Hd : drop (2 + length E) (sp_ptr payload) = tl).
  { rewrite Hp, drop_app_ge by (rewrite be_encode_length; lia). rewrite be_encode_length. unfold tl. f_equal. lia. }
  assert (R : processUpdateMsg findAddressFamily onUpdateFromPeer payload s =
    attrLen ← readU16 tl;
    if (sp_size payload <? 4 + length E + Z.to_nat attrLen)%nat then Ret (s, false, mkNotification 0x0301 [])
    else
      r ← (if (Z.to_nat attrLen =? 0)%nat then Ret (inl (readStart (mkDataSpan read (Z.of_nat (length E))) (mkDataSpan [] 0)))
           else parsePathAttributes s (mkSpan (drop (4 + length E) (sp_ptr payload)) (Z.to_nat attrLen)) (readStart (mkDataSpan read (Z.of_nat (length E))) (mkDataSpan [] 0)));
      match r with
      | inr e => Ret (s, code e =? 0, e)
      | inl u => finishUpdate findAddressFamily onUpdateFromPeer payload (4 + length E + Z.to_nat attrLen) u s
      end).
  { unfold processUpdateMsg. rewrite Hs, (proj2 (Nat.ltb_ge _ _)) by lia. rewrite Hp at 1. rewrite readU16_wire by (unfold in_width; done || lia).
    rewrite outcome_bind_ret_l. replace (Z.to_nat (total false wd)) with (length E) by lia. rewrite !(proj2 (Nat.ltb_ge _ _)) by lia.
    rewrite Hd. replace (2 + length E + 2)%nat with (4 + length E)%nat by lia. change (drop 2 (sp_ptr payload)) with read. done. }
  rewrite R. clear R. rewrite readU16_spec by (done || lia). rewrite outcome_bind_ret_l, take_ge by lia. rewrite Hs.
  split.
  - intros Hnz. assert (0 < be_decode tl).
    { pose proof (be_decode_take_in_width 2 tl 16 Htb ltac:(lia) ltac:(lia)) as Hw. rewrite take_ge in Hw by lia. unfold in_width in Hw. destruct (Z.eq_dec (be_decode tl) 0) as [Hz|]; [|lia]. exfalso. apply Hnz.
      apply be_decode_inj; [done | done | by_compute | rewrite Hz; done]. }
    rewrite (proj2 (Nat.ltb_lt _ _)) by lia. done.
  - intros Hz Hf. rewrite Hz. change (be_decode [0; 0]) with 0. change (Z.to_nat 0) with 0%nat. rewrite (proj2 (Nat.ltb_ge _ _)) by lia. cbn [Nat.eqb mbind outcome_bind].
    unfold finishUpdate, readStart. cbn [u_afi IncomingUpdate_new afi safi]. change ((BGP_AFI_IPV4 =? BGP_AFI_IPV4) && (BGP_SAFI_UNICAST =? BGP_SAFI_UNICAST)) with true.
    cbn [u_afi]. change (mkAfiSafi BGP_AFI_IPV4 BGP_SAFI_UNICAST) with (mkAfiSafi 1 1). rewrite Hf. eexists. split; [reflexivity|]. done.
Qed.
End Received.

(** ** Examples *)

#[local] Instance room_dec e a u b pa : Decision (room e a u b pa).
Proof. unfold room. apply _. Defined.

#[local] Instance fits_dec e a u b x : Decision (fits e a u b x).
Proof. unfold fits. apply _. Defined.


Definition demo_pa : PathAttribute := mkPA demo_attrs demo_path.
Definition demo_keys : list NlriPath := [mkNlriPath (mkIPv4Prefix 167837696 16) 0; mkNlriPath (mkIPv4Prefix 3232235776 24) 0].

Definition demo_update : Update := mkUpd demo_keys [(demo_pa, demo_keys)].

Lemma demo_sendable : sendable false false false demo_update.
Proof. split; [by_compute|]. constructor; [|constructor]. split; [exact demo_sizes|]. split; [by_compute | by_compute]. Qed.

Lemma update_messages_witness :
  exists parts wparts,
    buildUpdate false false true false 4 demo_update = Ret (Some ((said false true false <$> parts) ++ ((fun x => message (2, wbody false x)) <$> wparts))) /\
    (x ← parts; x.1.2) ++ concat wparts = demo_keys /\ (x ← parts; pair x.1.1 <$> x.2) = pair demo_pa <$> demo_keys.
Proof.
  destruct (update_messages false false false 4 demo_update demo_sendable ltac:(by_compute)) as (parts & wparts & E & _ & Hw & Hn).
  exists parts, wparts. split; [exact E|]. split; [exact Hw|]. rewrite Hn. reflexivity.
Defined.

(** Attributes of 4064 bytes in messages of 4096. *)
Definition long_pa : PathAttribute :=
  mkPA (set_unknown [mkUnknown 0xC0 99 (replicate 4060 0)] Attributes_new) demo_path.

Lemma update_never_ends_witness :
  buildUpdate false false true true 1000 (mkUpd [] [(long_pa, [mkNlriPath (mkIPv4Prefix 3232235776 24) 0])]) = Ret None.
Proof. apply (update_never_ends false false true long_pa); [by_compute | by_compute]. Defined.

Lemma update_roundtrip_witness :
  exists payload n u,
    announceOne false false true false demo_pa [] demo_keys = Ret (message (2, payload), [], drop n demo_keys) /\ (0 < n)%nat /\
    processUpdateMsg (fun _ => true) (fun _ s => Ret (s, true, NoError)) (payload_of payload) test_new = Ret (test_new, true, NoError) /\
    BgpUpdate.attrs u = received false demo_attrs /\
    parseUpdate false u = Ret (inl ([], take n [(mkIPv4Prefix 269090816 16, 0); (mkIPv4Prefix 415279104 24, 0)])).
Proof.
  destruct (update_roundtrip (S := TestSession) (H := test_session) (fun _ => true) (fun _ s => Ret (s, true, NoError)) test_new false false demo_pa demo_keys
    ltac:(reflexivity) (fun _ => conj eq_refl eq_refl) demo_sizes demo_values ltac:(by_compute) ltac:(discriminate) ltac:(by_compute) ltac:(reflexivity))
    as (payload & n & u & H0 & Hn & H1 & H2 & _ & H3).
  exists payload, n, u. split; [exact H0|]. split; [exact Hn|]. split; [exact H1|]. split; [exact H2|]. rewrite H3, fmap_take. reflexivity.
Defined.

Lemma withdrawal_refused_witness :
  processUpdateMsg (fun _ => true) (fun _ s => Ret (s, true, NoError)) (payload_of (wbody false demo_keys)) test_new = Ret (test_new, false, mkNotification 0x0301 []).
Proof.
  destruct (withdrawal_refused (S := TestSession) (H := test_session) (fun _ => true) (fun _ s => Ret (s, true, NoError)) test_new demo_keys ltac:(by_compute) ltac:(by_compute) ltac:(by_compute)) as [R _].
  apply R. vm_compute. discriminate.
Defined.
