(* ===== verification/EigrpTopology.v ===== *)
(** * EigrpTopology: the EIGRP topology table (routing/eigrp/topology, core/RouteManager.h, interface)

    The routes of each prefix by neighbor, the composite metric, the choice of
    the successors, and what the RIB and the neighbors are told. Routes are
    objects with an identity, since queries point at them; hash tables are
    finite maps whose order of iteration is a parameter. Summary routes are not
    modelled: the set of interfaces a prefix is suppressed on is data. *)

From S2P Require Import Prelude IPAddress RibBucket.

(** ** Data *)

(** [routing/eigrp/topology/TopologyTable.h:34-42] RouteType *)
Inductive RouteType := INTERNAL | EXTERNAL | SUMMARY | CONNECTED | STATIC | WITHDRAW.

#[export] Instance RouteType_eq_dec : EqDecision RouteType.
Proof. solve_decision. Defined.

(** [routing/eigrp/topology/TopologyTable.h:80-86] ReceivedRoute::External *)
Record External := mkExternal { originRouter : Z; originAS : Z; externalMetric : Z; ex_type : Z; ex_flags : Z }.

(** [routing/eigrp/topology/TopologyTable.h:107-130] ReceivedRoute::Wide *)
Record Wide := mkWide { isWide : bool; w_topology : Z; w_afi : Z; w_rid : Z; w_priority : Z; w_data : bytes }.

(** [routing/eigrp/topology/TopologyTable.h:60-159] ReceivedRoute *)
Record ReceivedRoute := mkReceived {
  r_prefix : IPPrefix; r_nextHop : IPAddress; originInterface : Z;
  reportedDistance : Z; feasibleDistance : Z; delay : Z; bandwidth : Z;
  mtu : Z; reliability : Z; load : Z; hopCount : Z; r_tag : Z; r_adminDistance : Z;
  external : External; wide : Wide; flags : Z; routeType : RouteType }.

#[export] Instance External_eq_dec : EqDecision External.
Proof. solve_decision. Defined.
#[export] Instance Wide_eq_dec : EqDecision Wide.
Proof. solve_decision. Defined.
#[export] Instance ReceivedRoute_eq_dec : EqDecision ReceivedRoute.
Proof. solve_decision. Defined.

(** [routing/eigrp/topology/TopologyTable.h:137-143] ReceivedRoute::RouteFlags *)
Definition WITHDRAWL : Z := 1.
(** [routing/eigrp/topology/TopologyTable.h:141-141] ReceivedRoute::RouteFlags::ACTIVE *)
Definition ACTIVE_FLAG : Z := 4.

(** [std::numeric_limits<uint64_t>::max()], an unreachable distance. *)
Definition max64 : Z := 18446744073709551615.

(** [routing/eigrp/topology/TopologyTable.h:172-181] RouteInfo: the object and its fields; the back-pointer to the entry is
    the key under which it is found *)
Record RouteInfo := mkRouteInfo {
  ri_id : nat; routeInfo : ReceivedRoute; isSuccessor : bool; isFeasibleSuccessor : bool; notFeasible : bool; lastUpdate : Z }.

(** [routing/eigrp/topology/TopologyTable.h:232-237] TopologyEntry::State *)
Inductive EntryState := ACTIVE | PASSIVE | POISENED.

#[export] Instance EntryState_eq_dec : EqDecision EntryState.
Proof. solve_decision. Defined.

(** [routing/eigrp/topology/TopologyTable.h:227-261] TopologyEntry *)
Record TopologyEntry := mkEntry {
  routesBySource : gmap IPAddress RouteInfo;
  feasibleSuccessors : list IPAddress;
  successors : list IPAddress;
  bestFD : Z; bestAD : Z; bestNeighbor : IPAddress;
  suppression : gset Z;
  e_state : EntryState;
  valid : option Z }.

(** An entry as it is made: [IPAddress] is all zero bits. *)
Definition TopologyEntry_new : TopologyEntry := mkEntry ∅ [] [] max64 255 (mkIPAddress 0) ∅ PASSIVE None.

Definition set_route v (r : RouteInfo) := mkRouteInfo (ri_id r) v (isSuccessor r) (isFeasibleSuccessor r) (notFeasible r) (lastUpdate r).
Definition set_marks s f n (r : RouteInfo) := mkRouteInfo (ri_id r) (routeInfo r) s f n (lastUpdate r).
Definition set_flags v (r : ReceivedRoute) := mkReceived (r_prefix r) (r_nextHop r) (originInterface r) (reportedDistance r) (feasibleDistance r) (delay r)
  (bandwidth r) (mtu r) (reliability r) (load r) (hopCount r) (r_tag r) (r_adminDistance r) (external r) (wide r) v (routeType r).
Definition set_distances rd fd (r : ReceivedRoute) := mkReceived (r_prefix r) (r_nextHop r) (originInterface r) rd fd (delay r)
  (bandwidth r) (mtu r) (reliability r) (load r) (hopCount r) (r_tag r) (r_adminDistance r) (external r) (wide r) (flags r) (routeType r).
Definition set_delay v (r : ReceivedRoute) := mkReceived (r_prefix r) (r_nextHop r) (originInterface r) (reportedDistance r) (feasibleDistance r) v
  (bandwidth r) (mtu r) (reliability r) (load r) (hopCount r) (r_tag r) (r_adminDistance r) (external r) (wide r) (flags r) (routeType r).

(** [routing/eigrp/topology/TopologyTable.h:145-145] ReceivedRoute::setFlag *)
Definition setFlag (bit : Z) (r : ReceivedRoute) : ReceivedRoute := set_flags (Z.lor (flags r) bit) r.
(** [routing/eigrp/topology/TopologyTable.h:146-146] ReceivedRoute::clearFlag *)
Definition clearFlag (bit : Z) (r : ReceivedRoute) : ReceivedRoute := set_flags (Z.land (flags r) (bnot 8 bit)) r.

Definition on_routes (f : gmap IPAddress RouteInfo -> gmap IPAddress RouteInfo) (e : TopologyEntry) : TopologyEntry :=
  mkEntry (f (routesBySource e)) (feasibleSuccessors e) (successors e) (bestFD e) (bestAD e) (bestNeighbor e) (suppression e) (e_state e) (valid e).
Definition set_lists fs s (e : TopologyEntry) : TopologyEntry :=
  mkEntry (routesBySource e) fs s (bestFD e) (bestAD e) (bestNeighbor e) (suppression e) (e_state e) (valid e).
Definition set_best fd ad n (e : TopologyEntry) : TopologyEntry :=
  mkEntry (routesBySource e) (feasibleSuccessors e) (successors e) fd ad n (suppression e) (e_state e) (valid e).
Definition set_state v (e : TopologyEntry) : TopologyEntry :=
  mkEntry (routesBySource e) (feasibleSuccessors e) (successors e) (bestFD e) (bestAD e) (bestNeighbor e) (suppression e) v (valid e).
Definition set_valid v (e : TopologyEntry) : TopologyEntry :=
  mkEntry (routesBySource e) (feasibleSuccessors e) (successors e) (bestFD e) (bestAD e) (bestNeighbor e) (suppression e) (e_state e) v.

(** ** Configuration *)

(** [routing/eigrp/EigrpTypes.hpp:35-56] KValue *)
Record KValue := mkKValue { k1_Bandwidth : Z; k2_Load : Z; k3_Delay : Z; k4_Reliability : Z; k5_MTU : Z; k6_Power : Z }.

(** [routing/eigrp/EigrpTypes.hpp:71-80] StubConfig *)
Record StubConfig := mkStub { isStub : bool; advertiseConnected : bool; advertiseStatic : bool; advertiseSummary : bool; advertiseRedistributed : bool }.

(** The values of the process configuration that are used. *)
Record EigrpConfig := mkEigrpConfig {
  variance : Z;
  minimumShare : bool;
  maxHops : Z;
  ribScale : Z;
  stubEnabled : bool;
  stubConfig : StubConfig;
  kValues : KValue;
  siaTime : Z }.

(** [routing/eigrp/core/EigrpConfig.h:205-205] EigrpConfig::getDelTimer *)
Definition getDelTimer : Z := 120.

(** ** The composite metric *)

(** [routing/eigrp/interface/InterfaceMetrics.cpp:44-87] InterfaceMetrics::calculateCompositeMetric *)
Definition calculateCompositeMetric (k : KValue) (load reliability delay bandwidth : Z) : Z :=
  let delayMicroseconds := delay / 1000000 in
  let scaledBW := if 0 <? bandwidth then (10000000 * 65536) / bandwidth else 0 in
  let scaledDelay := u64 (delayMicroseconds * 65536) in
  let loadTerm := if negb (k2_Load k =? 0) && (load <? 256) then u64 (k2_Load k * scaledBW) / (256 - load) else 0 in
  let base := u128 (k1_Bandwidth k * scaledBW + loadTerm + k3_Delay k * scaledDelay) in
  if k5_MTU k =? 0 then u64 base
  else
    let denominator := k4_Reliability k + reliability in
    if denominator =? 0 then max64 else u64 (u128 (base * k5_MTU k) / denominator).

(** [routing/eigrp/interface/InterfaceMetrics.cpp:32-42] InterfaceMetrics::getLocalMetric, on an interface with the given
    bandwidth in bits a second *)
Definition getLocalMetric (k : KValue) (hwBandwidth : Z) : Z := calculateCompositeMetric k 1 255 0 (hwBandwidth / 1000).

(** [routing/eigrp/interface/InterfaceMetrics.cpp:15-30] InterfaceMetrics::addRouteMetrics *)
Definition addRouteMetrics (k : KValue) (hwBandwidth : Z) (routes : list ReceivedRoute) : list ReceivedRoute :=
  let local := getLocalMetric k hwBandwidth in
  (fun r =>
     if delay r =? max64 then set_distances max64 max64 r
     else
       let rd := calculateCompositeMetric k (load r) (reliability r) (delay r) (bandwidth r) in
       set_distances rd (u64 (rd + local)) r) <$> routes.

(** ** The table *)

(** The distance of a route through a neighbor; unreachable ones are left out
    everywhere. *)
Definition fd (r : RouteInfo) : Z := feasibleDistance (routeInfo r).
Definition rd (r : RouteInfo) : Z := reportedDistance (routeInfo r).

(** [routing/eigrp/topology/TopologyTable.cpp:14-41] TopologyTable::addRouteUpdate, of the neighbor [nbr], or the next hop for
    a connected route; [id] is the identity of the object if one is made *)
Definition addRouteUpdate (now : Z) (id : nat) (route : ReceivedRoute) (neighbor : option IPAddress) (e : TopologyEntry) : TopologyEntry :=
  let neighborIp := default (r_nextHop route) neighbor in
  let old := default (mkRouteInfo id route false false false now) (routesBySource e !! neighborIp) in
  let new := mkRouteInfo (ri_id old) route (isSuccessor old) (isFeasibleSuccessor old) (notFeasible old) now in
  let new := if delay route =? max64
             then set_route (if isWide (wide route) then setFlag WITHDRAWL route else route) (set_marks false false true new)
             else new in
  on_routes (insert neighborIp new) e.

(** [routing/eigrp/topology/TopologyTable.cpp:69-77] TopologyTable::markRouteUnreachable, the route *)
Definition unreachable (r : RouteInfo) : RouteInfo :=
  set_marks false false true (set_route (setFlag WITHDRAWL (set_delay max64 (set_distances (reportedDistance (routeInfo r)) max64 (routeInfo r)))) r).

(** [routing/eigrp/topology/TopologyTable.cpp:79-86] TopologyTable::markRouteUnreachable, the successors *)
Definition removeSuccessor (neighborIp : IPAddress) (e : TopologyEntry) : TopologyEntry :=
  set_lists (filter (fun n => n <> neighborIp) (feasibleSuccessors e)) (filter (fun n => n <> neighborIp) (successors e)) e.

(** [routing/eigrp/topology/TopologyTable.cpp:69-86] TopologyTable::markRouteUnreachable *)
Definition markRouteUnreachable (neighborIp : IPAddress) (e : TopologyEntry) : TopologyEntry :=
  removeSuccessor neighborIp (on_routes (alter unreachable neighborIp) e).

(** [routing/eigrp/topology/TopologyTable.cpp:104-113] TopologyTable::pruneNeighbor, one entry *)
Definition pruneEntry (neighborIp : IPAddress) (e : TopologyEntry) : TopologyEntry :=
  match routesBySource e !! neighborIp with
  | Some _ => on_routes (delete neighborIp) (removeSuccessor neighborIp e)
  | None => e
  end.

Abbreviation Entries := (gmap IPPrefix TopologyEntry).

(** [routing/eigrp/topology/TopologyTable.cpp:93-93] TopologyTable::pruneExpired, its condition *)
Definition expired (now : Z) (e : TopologyEntry) : bool := match valid e with Some v => v <? now | None => false end.

(** [routing/eigrp/topology/TopologyTable.cpp:88-98] TopologyTable::pruneExpired *)
Definition pruneExpired (now : Z) (t : Entries) : Entries :=
  filter (fun kv => expired now kv.2 = false) t.

(** [routing/eigrp/topology/TopologyTable.cpp:100-117] TopologyTable::pruneNeighbor *)
Definition pruneNeighbor (now : Z) (neighborIp : IPAddress) (t : Entries) : Entries := pruneExpired now (pruneEntry neighborIp <$> t).

(** [routing/eigrp/topology/TopologyTable.cpp:51-60] TopologyTable::ensure *)
Definition ensure (p : IPPrefix) (t : Entries) : Entries := match t !! p with Some _ => t | None => <[p := TopologyEntry_new]> t end.

Section Selection.
(** The configuration, and the order in which a hash table of neighbors is
    iterated over. *)
Context (cfg : EigrpConfig) (order : gset IPAddress -> list IPAddress).

(** The routes of an entry as they are iterated over. *)
Definition iterate (m : gmap IPAddress RouteInfo) : list (IPAddress * RouteInfo) := omap (fun n => pair n <$> m !! n) (order (dom m)).

(** [routing/eigrp/topology/DuelEngine.cpp:110-121] DuelEngine::recalculateSuccessors, the best distance *)
Definition scanBest (best : Z * Z * IPAddress) (kv : IPAddress * RouteInfo) : Z * Z * IPAddress :=
  let '(bestFD, bestAD, bestNeighbor) := best in
  if fd kv.2 =? max64 then best
  else if fd kv.2 <? bestFD then (fd kv.2, r_adminDistance (routeInfo kv.2), kv.1) else best.

Definition reachable (r : RouteInfo) : bool := negb (fd r =? max64).

(** [routing/eigrp/topology/DuelEngine.cpp:132-132] DuelEngine::recalculateSuccessors, the feasibility condition *)
Definition feasible (bestFD : Z) (r : RouteInfo) : bool := reachable r && (rd r <? bestFD).

(** [routing/eigrp/topology/DuelEngine.cpp:136-136] DuelEngine::recalculateSuccessors, the successor condition *)
Definition inVariance (bestFD : Z) (r : RouteInfo) : bool := reachable r && (fd r <=? u64 (bestFD * variance cfg)).

(** [routing/eigrp/topology/DuelEngine.cpp:90-157] DuelEngine::recalculateSuccessors *)
Definition recalculateSuccessors (e : TopologyEntry) : TopologyEntry * bool :=
  if decide (routesBySource e = ∅) then (e, false)
  else
    let routes := iterate (routesBySource e) in
    let '(bestFD, bestAD, bestNeighbor) := foldl scanBest (max64, 255, bestNeighbor e) routes in
    let feasibles := (List.filter (fun kv => feasible bestFD kv.2) routes).*1 in
    let succs := (List.filter (fun kv => inVariance bestFD kv.2) routes).*1 in
    let mark r := set_route (clearFlag ACTIVE_FLAG (routeInfo r)) (set_marks (inVariance bestFD r) (feasible bestFD r) (notFeasible r) r) in
    let e := set_lists feasibles succs (set_best bestFD bestAD bestNeighbor (on_routes (fmap mark) e)) in
    match succs with
    | [] => (set_best max64 bestAD bestNeighbor e, false)
    | s :: _ => (set_state PASSIVE (if minimumShare cfg then set_lists feasibles [s] e else e), true)
    end.

(** [routing/eigrp/topology/DuelEngine.cpp:169-180] DuelEngine::recalculateDistances, one route *)
Definition scanDistance (localMetric : Z) (best : Z * Z * IPAddress) (kv : IPAddress * RouteInfo) : Z * Z * IPAddress :=
  let '(bestFD, bestAD, bestNeighbor) := best in
  let d := u64 (rd kv.2 + localMetric) in
  let ad := r_adminDistance (routeInfo kv.2) in
  if (d <? bestFD) || ((d =? bestFD) && (ad <? bestAD)) then (d, ad, kv.1) else best.

(** [routing/eigrp/topology/DuelEngine.cpp:159-193] DuelEngine::recalculateDistances; [none] is the zero address of the
    family *)
Definition recalculateDistances (none : IPAddress) (localMetric : Z) (e : TopologyEntry) : TopologyEntry * bool :=
  let '(fd', ad', n') := foldl (scanDistance localMetric) (max64, 255, none) (iterate (routesBySource e)) in
  let e := on_routes (fmap (fun r => set_route (set_distances (rd r) (u64 (rd r + localMetric)) (routeInfo r)) r)) e in
  if negb (fd' =? bestFD e) || negb (bool_decide (n' = bestNeighbor e)) then (set_best fd' ad' n' e, true) else (e, false).

(** [routing/eigrp/topology/DuelEngine.cpp:53-61] DuelEngine::findBestRoute: the neighbor of the route *)
Definition findBestRoute (t : Entries) (p : IPPrefix) : option IPAddress :=
  e ← t !! p;
  match successors e with [] => None | s :: _ => if decide (is_Some (routesBySource e !! s)) then Some s else None end.

(** [routing/eigrp/topology/DuelEngine.cpp:15-20] DuelEngine::isRouteAdvertised *)
Definition isRouteAdvertised (t : Entries) (p : IPPrefix) : bool :=
  match t !! p with Some e => match successors e with [] => false | _ => true end | None => false end.

(** [routing/eigrp/topology/DuelEngine.cpp:63-67] DuelEngine::recalculateAllRoutes *)
Definition recalculateAllRoutes (t : Entries) : Entries := (fun e => (recalculateSuccessors e).1) <$> t.

(** ** The RIB *)

(** What the RIB is told: a removal is for both sources of EIGRP routes. *)
Inductive RibAction := RibRemove (p : IPPrefix) | RibAdd (e : RibEntry).

(** [routing/eigrp/core/RouteManager.h:124-139] RouteManager::syncRoute, the next hops *)
Definition syncHops (addr : IPAddress -> Z) (hops : list (IPAddress * RouteInfo)) (e : RibEntry) : RibEntry :=
  foldl (fun e h => (addNextHop e (addr h.1) (originInterface (routeInfo h.2)) 1).1) e hops.

(** [routing/eigrp/core/RouteManager.h:111-158] RouteManager::syncRoute, for process [asn] of the family [v4]: what the RIB is
    told, and the neighbor of the best route when it is installed *)
Definition syncRoute (v4 : bool) (asn : Z) (p : IPPrefix) (e : TopologyEntry) : outcome (RibAction * option IPAddress) :=
  match successors e, routesBySource e !! bestNeighbor e with
  | [], _ | _, None => Ret (RibRemove p, None)
  | succs, Some best =>
      let hops := omap (fun n => pair n <$> routesBySource e !! n) succs in
      match hops with
      | [] => UB
      | first :: _ =>
          let pfx := r_prefix (routeInfo best) in
          let src := if bool_decide (routeType (routeInfo first.2) = EXTERNAL) then EIGRP_EXTERNAL else EIGRP_INTERNAL in
          let ribEntry := mkRibEntry (if v4 then IPPrefix_v4 pfx else IPPrefix_v6 pfx) (p_len pfx) src asn
                            (r_adminDistance (routeInfo best)) (u64 (fd best * ribScale cfg)) 0 0 [] in
          Ret (RibAdd (syncHops (if v4 then IPAddress_v4 else IPAddress_v6) hops ribEntry), Some (bestNeighbor e))
      end
  end.

(** ** What neighbors are told *)

(** [routing/eigrp/interface/TopologyController.cpp:49-61] TopologyController::getAdvertisableRoutes, a stub router; the other
    function has the same test *)
Definition stubAllows (r : RouteInfo) : bool :=
  let c := stubConfig cfg in
  negb (isStub c) ||
  match routeType (routeInfo r) with
  | CONNECTED => advertiseConnected c
  | STATIC => advertiseStatic c
  | EXTERNAL => advertiseRedistributed c
  | SUMMARY => advertiseSummary c
  | _ => true
  end.

(** [routing/eigrp/interface/TopologyController.cpp:77-112] TopologyController::filterAdvertisableRoutes, on interface [key],
    whether a route of the entry [e] is let out *)
Definition advertisable (key : Z) (splitHorizon : bool) (e : TopologyEntry) (r : RouteInfo) : bool :=
  negb (bool_decide (key ∈ suppression e)) && negb (bool_decide (e_state e = ACTIVE)) &&
  negb (splitHorizon && (originInterface (routeInfo r) =? key) && negb (bool_decide (routeType (routeInfo r) = SUMMARY))) &&
  stubAllows r.

(** [routing/eigrp/interface/TopologyController.cpp:24-66] TopologyController::getAdvertisableRoutes, of the entries as they are
    iterated over *)
Definition getAdvertisableRoutes (passive : bool) (key : Z) (splitHorizon : bool) (l : list TopologyEntry) : list RouteInfo :=
  if passive then []
  else omap (fun e => r ← routesBySource e !! bestNeighbor e; if advertisable key splitHorizon e r then Some r else None) l.

(** [routing/eigrp/interface/TopologyController.cpp:68-115] TopologyController::filterAdvertisableRoutes *)
Definition filterAdvertisableRoutes (passive : bool) (key : Z) (splitHorizon : bool) (l : list (TopologyEntry * RouteInfo)) : list RouteInfo :=
  if passive then [] else (List.filter (fun er => advertisable key splitHorizon er.1 er.2) l).*2.
End Selection.

(** ** What the selection finds *)

Section SelectionSpec.
Context (cfg : EigrpConfig) (order : gset IPAddress -> list IPAddress) (order_perm : forall X, order X ≡ₚ elements X).

Lemma order_elem X n : n ∈ order X <-> n ∈ X.
Proof. rewrite order_perm, elem_of_elements. done. Qed.

Lemma iterate_elem m n r : (n, r) ∈ iterate order m <-> m !! n = Some r.
Proof.
  unfold iterate. rewrite list_elem_of_omap. split.
  - intros (x & _ & Hx). destruct (m !! x) eqn:E; [|done]. injection Hx as -> ->. exact E.
  - intros Hm. exists n. rewrite order_elem, Hm. split; [apply elem_of_dom_2 in Hm; exact Hm | done].
Qed.

Lemma iterate_nodup m : NoDup (iterate order m).*1.
Proof.
  unfold iterate. assert (Hn : NoDup (order (dom m))) by (rewrite order_perm; apply NoDup_elements). revert Hn. generalize (order (dom m)). intros ks Hn.
  induction Hn as [|n l Hn _ IH]; [constructor|]. cbn [omap list_omap]. destruct (m !! n) as [r|]; cbn [fmap option_fmap option_map]; [|exact IH].
  cbn [fmap list_fmap fst]. constructor; [|exact IH]. intros Hin. apply list_elem_of_fmap in Hin as ([x r'] & E & Hx). cbn in E. subst x.
  apply list_elem_of_omap in Hx as (y & Hy & Hxy). destruct (m !! y); [|done]. injection Hxy as <- <-. done.
Qed.

Lemma iterate_nil m : iterate order m = [] -> m = ∅.
Proof.
  intros Hn. apply map_empty. intros n. destruct (m !! n) as [r|] eqn:E; [|done]. apply iterate_elem in E. rewrite Hn in E. by apply elem_of_nil in E.
Qed.

(** The scan for the best distance, from any start. *)
Lemma scanBest_spec l : forall fd0 ad0 n0, fd0 <= max64 ->
  let '(fd', ad', n') := foldl scanBest (fd0, ad0, n0) l in
  fd' <= fd0 /\ (forall n r, (n, r) ∈ l -> reachable r = true -> fd' <= fd r) /\
  ((fd', ad', n') = (fd0, ad0, n0) \/ exists r, (n', r) ∈ l /\ fd r = fd' /\ r_adminDistance (routeInfo r) = ad' /\ fd' < fd0 /\ reachable r = true).
Proof.
  induction l as [|[n r] l IH]; intros fd0 ad0 n0 H0; cbn [foldl]; [split; [lia|]; split; [intros ? ? []%elem_of_nil | by left]|].
  assert (Hstep : exists fd1 ad1 n1, scanBest (fd0, ad0, n0) (n, r) = (fd1, ad1, n1) /\ fd1 <= fd0 /\ (reachable r = true -> fd1 <= fd r) /\
    ((fd1, ad1, n1) = (fd0, ad0, n0) \/ (n1 = n /\ fd r = fd1 /\ r_adminDistance (routeInfo r) = ad1 /\ fd1 < fd0 /\ reachable r = true))).
  { unfold scanBest, reachable. cbn [fst snd]. destruct (Z.eqb_spec (fd r) max64) as [E|E]; [exists fd0, ad0, n0; split; [done|]; split; [lia|]; split; [done | by left]|].
    destruct (Z.ltb_spec (fd r) fd0); [exists (fd r), (r_adminDistance (routeInfo r)), n | exists fd0, ad0, n0]; (split; [done|]); (split; [lia|]); (split; [lia|]); [right | left]; done. }
  destruct Hstep as (fd1 & ad1 & n1 & -> & H1 & H2 & H3). specialize (IH fd1 ad1 n1 ltac:(lia)).
  destruct (foldl scanBest (fd1, ad1, n1) l) as [[fd' ad'] n']. destruct IH as (I1 & I2 & I3).
  split; [lia|]. split.
  - intros n2 r2 [[= -> ->]|Hin]%elem_of_cons Hr; [specialize (H2 Hr); lia | by eapply I2].
  - destruct I3 as [[= -> -> ->]|(r2 & Hin & E1 & E2 & Hlt & Hr)].
    + destruct H3 as [E|(-> & E1 & E2 & Hlt & Hr)]; [by left | right; exists r; split; [left | done]].
    + right. exists r2. split; [by right|]. split; [done|]. split; [done|]. split; [|done].
      destruct H3 as [[= <- <- <-]|(_ & _ & _ & Hl & _)]; lia.
Qed.

Lemma filter_iterate_elem (f : RouteInfo -> bool) m n :
  n ∈ (List.filter (fun kv => f kv.2) (iterate order m)).*1 <-> exists r, m !! n = Some r /\ f r = true.
Proof.
  rewrite list_elem_of_fmap. split.
  - intros ([n' r] & -> & Hin). apply list_elem_of_In, filter_In in Hin as [Hin Hf]. apply list_elem_of_In, iterate_elem in Hin. by exists r.
  - intros (r & Hm & Hf). exists (n, r). split; [done|]. apply list_elem_of_In, filter_In. split; [by apply list_elem_of_In, iterate_elem | exact Hf].
Qed.

(** What a recomputation leaves of the routes. *)
Lemma recalc_routes e : exists f, routesBySource (recalculateSuccessors cfg order e).1 = f <$> routesBySource e /\
  forall r, ri_id (f r) = ri_id r /\ fd (f r) = fd r /\ rd (f r) = rd r /\ r_prefix (routeInfo (f r)) = r_prefix (routeInfo r).
Proof.
  unfold recalculateSuccessors. destruct (decide _) as [E|E]; [exists id; rewrite E, fmap_empty; done|].
  destruct (foldl _ _ _) as [[fd' ad'] n']. eexists. split; [destruct (_.*1); [reflexivity|]; destruct (minimumShare cfg); reflexivity|]. done.
Qed.

Definition distances_ok (e : TopologyEntry) : Prop :=
  forall n r, routesBySource e !! n = Some r -> 0 <= fd r <= max64 /\ (reachable r = true -> fd r * variance cfg < 2 ^ 64).

(** C15: For a prefix with routes, a variance of at least one and distances whose
    multiples do not wrap around ([distances_ok]), a recomputation answers true
    exactly when some route is reachable, whether the successors have changed or
    not (its declaration says that it answers whether they have). Then the
    best distance is the least one, of the best neighbor, the feasible
    successors are the neighbors that are nearer than it, successors among them
    (the comments of [RouteInfo] say that a feasible successor is not one), and
    the successors those within the variance of it, or one of them when traffic
    is not shared; with a variance of one, when every reachable neighbor is
    nearer than the route through it, the successors are feasible. Otherwise
    nothing is left but the name of the best neighbor. *)
Theorem recalculateSuccessors_spec e e' ok :
  recalculateSuccessors cfg order e = (e', ok) -> routesBySource e <> ∅ -> 1 <= variance cfg -> distances_ok e ->
  (ok = true <-> exists n r, routesBySource e !! n = Some r /\ reachable r = true) /\
  (ok = true -> e_state e' = PASSIVE /\
     (exists r, routesBySource e !! bestNeighbor e' = Some r /\ reachable r = true /\ fd r = bestFD e') /\
     (forall n r, routesBySource e !! n = Some r -> reachable r = true -> bestFD e' <= fd r) /\
     (forall n, n ∈ feasibleSuccessors e' <-> exists r, routesBySource e !! n = Some r /\ reachable r = true /\ rd r < bestFD e') /\
     (forall n, n ∈ successors e' -> exists r, routesBySource e !! n = Some r /\ reachable r = true /\ fd r <= bestFD e' * variance cfg) /\
     (if minimumShare cfg then length (successors e') = 1%nat
      else forall n r, routesBySource e !! n = Some r -> reachable r = true -> fd r <= bestFD e' * variance cfg -> n ∈ successors e') /\
     (variance cfg = 1 -> (forall n r, routesBySource e !! n = Some r -> reachable r = true -> rd r < fd r) -> successors e' ⊆ feasibleSuccessors e')) /\
  (ok = false -> bestFD e' = max64 /\ successors e' = [] /\ feasibleSuccessors e' = [] /\ e_state e' = e_state e /\ bestNeighbor e' = bestNeighbor e).
Proof.
  unfold recalculateSuccessors. destruct (decide _) as [|_]; [done|]. intros H _ Hv Hd.
  pose proof (scanBest_spec (iterate order (routesBySource e)) max64 255 (bestNeighbor e) ltac:(lia)) as Hs.
  destruct (foldl scanBest _ _) as [[fd' ad'] n'] eqn:Ef. destruct Hs as (_ & Hmin & Hat). cbn [fst snd] in *.
  assert (Hreach : forall n r, routesBySource e !! n = Some r -> reachable r = true -> fd' <= fd r) by (intros n r Hr; apply (Hmin n), iterate_elem; done).
  (* the best distance is that of a reachable route, or there is none *)
  assert (Hcase : (exists n r, routesBySource e !! n = Some r /\ reachable r = true) -> exists r, routesBySource e !! n' = Some r /\ reachable r = true /\ fd r = fd').
  { intros (n & r & Hr & Hok). destruct Hat as [[= -> -> ->]|(r' & Hin & E & _ & _ & Hr')]; [|exists r'; by apply iterate_elem in Hin].
    exfalso. pose proof (Hreach n r Hr Hok). destruct (Hd n r Hr) as [Hb _]. apply negb_true_iff, Z.eqb_neq in Hok. lia. }
  assert (Hvar : forall n r, routesBySource e !! n = Some r -> inVariance cfg fd' r = true <-> reachable r = true /\ fd r <= fd' * variance cfg).
  { intros n r Hr. unfold inVariance. rewrite andb_true_iff. split; intros [Hok Hle]; (split; [done|]);
      destruct (Hcase ltac:(by eauto)) as (r' & Hr' & Hok' & <-); destruct (Hd n' r' Hr') as [Hb Hw]; specialize (Hw Hok');
      rewrite Z.leb_le, wrap_small in * by (unfold in_width; nia); exact Hle. }
  assert (Hself : forall r, routesBySource e !! n' = Some r -> reachable r = true -> fd r = fd' -> inVariance cfg fd' r = true).
  { intros r Hr Hok E. apply (Hvar n' r Hr). split; [done|]. destruct (Hd n' r Hr) as [Hb _]. nia. }
  set (succs := (List.filter (fun kv => inVariance cfg fd' kv.2) _).*1) in H. set (feas := (List.filter (fun kv => feasible fd' kv.2) _).*1) in H.
  assert (Hsuccs : forall n, n ∈ succs <-> exists r, routesBySource e !! n = Some r /\ inVariance cfg fd' r = true) by (intros; apply (filter_iterate_elem (inVariance cfg fd'))).
  assert (Hfeas : forall n, n ∈ feas <-> exists r, routesBySource e !! n = Some r /\ feasible fd' r = true) by (intros; apply (filter_iterate_elem (feasible fd'))).
  assert (Hnone : succs = [] -> forall n r, routesBySource e !! n = Some r -> reachable r = false).
  { intros Hnil n r Hr. destruct (reachable r) eqn:Hok; [|done]. destruct (Hcase ltac:(by eauto)) as (r' & Hr' & Hok' & E).
    assert (Hin : n' ∈ succs) by (apply Hsuccs; exists r'; split; [done | by apply Hself]). rewrite Hnil in Hin. by apply elem_of_nil in Hin. }
  assert (Hsome : forall n, n ∈ succs -> exists r, routesBySource e !! n = Some r /\ reachable r = true /\ fd r <= fd' * variance cfg).
  { intros n (r & Hr & Hi)%Hsuccs. exists r. split; [done|]. by apply (Hvar n). }
  destruct succs as [|s0 succs'] eqn:Es.
  - injection H as <- <-. specialize (Hnone eq_refl). split; [split; [done | intros (n & r & Hr & Hok); by rewrite (Hnone n r Hr) in Hok]|]. split; [done|]. intros _.
    assert (E : feas = []).
    { destruct feas as [|n l] eqn:Ef'; [done|]. destruct (proj1 (Hfeas n) ltac:(left)) as (r & Hr & Hi). unfold feasible in Hi. rewrite (Hnone n r Hr) in Hi. done. }
    cbn. rewrite E. repeat (split; [done|]). destruct Hat as [[= -> -> ->]|(r & Hin & _ & _ & _ & Hok)]; [done|].
    apply iterate_elem in Hin. rewrite (Hnone _ _ Hin) in Hok. done.
  - rewrite <- Es in *. assert (Hs0 : s0 ∈ succs) by (rewrite Es; left).
    assert (Hex : exists n r, routesBySource e !! n = Some r /\ reachable r = true) by (destruct (Hsome s0 Hs0) as (r & Hr & Hok & _); by exists s0, r).
    assert (Heq : bestFD e' = fd' /\ bestNeighbor e' = n' /\ feasibleSuccessors e' = feas /\ e_state e' = PASSIVE /\ ok = true /\
      successors e' = if minimumShare cfg then [s0] else succs) by (rewrite Es in *; destruct (minimumShare cfg); injection H as <- <-; done).
    destruct Heq as (-> & -> & -> & -> & -> & Hsc). split; [done|]. split; [|done]. intros _. split; [done|]. split; [by apply Hcase|]. split; [exact Hreach|].
    assert (Hf : forall n, n ∈ feas <-> exists r, routesBySource e !! n = Some r /\ reachable r = true /\ rd r < fd').
    { intros n. rewrite Hfeas. unfold feasible. setoid_rewrite andb_true_iff. setoid_rewrite Z.ltb_lt. done. }
    assert (Hsub : forall n, n ∈ successors e' -> n ∈ succs).
    { rewrite Hsc. destruct (minimumShare cfg); [|done]. intros n ->%list_elem_of_singleton. exact Hs0. }
    split; [exact Hf|]. split; [intros n Hn; by apply Hsome, Hsub|]. split.
    + destruct (minimumShare cfg); [rewrite Hsc; done|]. intros n r Hr Hok Hle. rewrite Hsc. apply Hsuccs. exists r. split; [done|]. by apply (Hvar n).
    + intros Hv1 Hcost n Hn. apply Hf. destruct (Hsome n (Hsub n Hn)) as (r & Hr & Hok & Hle). exists r. split; [done|]. split; [done|].
      rewrite Hv1, Z.mul_1_r in Hle. pose proof (Hcost n r Hr Hok). lia.
Qed.
End SelectionSpec.

(** ** The default metric *)

(** With the default weights the metric never wraps: it is the scaled inverse
    of the bandwidth and the delay in units of a microsecond, grows with the
    delay and falls with the bandwidth, except that an unknown bandwidth
    counts as an infinite one. *)
Theorem default_metric l r l' r' d d' b b' : 0 <= d <= max64 -> 0 <= d' <= max64 -> 0 <= b -> 0 <= b' ->
  let k := mkKValue 1 0 1 0 0 0 in
  calculateCompositeMetric k l r d b = (if 0 <? b then 655360000000 / b else 0) + 65536 * (d / 1000000) /\
  calculateCompositeMetric k l r d b < 2 ^ 61 /\
  (d <= d' -> (0 < b' <= b) -> calculateCompositeMetric k l r d b <= calculateCompositeMetric k l' r' d' b') /\
  calculateCompositeMetric k l r d 0 <= calculateCompositeMetric k l' r' d b.
Proof.
  assert (Hval : forall l r d b, 0 <= d <= max64 -> 0 <= b ->
    calculateCompositeMetric (mkKValue 1 0 1 0 0 0) l r d b = (if 0 <? b then 655360000000 / b else 0) + 65536 * (d / 1000000) /\
    0 <= (if 0 <? b then 655360000000 / b else 0) <= 655360000000 /\ 0 <= d / 1000000 <= 18446744073709).
  { clear. intros l r d b Hd Hb. unfold calculateCompositeMetric. cbn [k2_Load k1_Bandwidth k3_Delay k5_MTU Z.eqb negb andb]. unfold max64 in Hd.
    assert (H1 : 0 <= d / 1000000 <= 18446744073709) by (split; [apply Z.div_pos; lia | apply Z.lt_succ_r, Z.div_lt_upper_bound; lia]).
    assert (H2 : 0 <= (if 0 <? b then 655360000000 / b else 0) <= 655360000000).
    { destruct (Z.ltb_spec 0 b); [|lia]. split; [apply Z.div_pos; lia | apply Z.div_le_upper_bound; nia]. }
    change (10000000 * 65536) with 655360000000. set (bw := if 0 <? b then 655360000000 / b else 0) in *. set (us := d / 1000000) in *.
    clearbody bw us. rewrite (wrap_small 64 (us * 65536)) by (unfold in_width; lia).
    rewrite (wrap_small 128), (wrap_small 64) by (unfold in_width; lia). split; [lia | done]. }
  intros Hd Hd' Hb Hb' k. destruct (Hval l r d b Hd Hb) as (E1 & B1 & C1). destruct (Hval l' r' d' b' Hd' Hb') as (E2 & B2 & C2).
  fold k in E1, E2. split; [exact E1|]. split; [rewrite E1; lia|]. split.
  - intros Hdd [Hb0 Hbb]. rewrite E1, E2. rewrite !(proj2 (Z.ltb_lt _ _)) by lia.
    assert (655360000000 / b <= 655360000000 / b') by (apply Z.div_le_compat_l; lia). assert (d / 1000000 <= d' / 1000000) by (apply Z.div_le_mono; lia). lia.
  - destruct (Hval l r d 0 Hd ltac:(lia)) as (E3 & _). destruct (Hval l' r' d b Hd Hb) as (E4 & B4 & _). fold k in E3, E4. rewrite E3, E4. cbn [Z.ltb Z.compare]. lia.
Qed.

(** ** Examples *)

Definition plain_route (p : IPPrefix) (rd fd : Z) : ReceivedRoute :=
  mkReceived p (mkIPAddress 0) 1 rd fd 10000000 100000 1500 255 1 1 0 0 (mkExternal 0 0 0 0 0) (mkWide false 0 0 0 0 []) 0 INTERNAL.

Definition plain_eigrp (v : Z) : EigrpConfig :=
  mkEigrpConfig v false 100 128 false (mkStub false true true true true) (mkKValue 1 0 1 0 0 0) 90.

Definition nbr_a : IPAddress := IPAddress_u32 167772161.
Definition nbr_b : IPAddress := IPAddress_u32 167772162.
Definition nbr_c : IPAddress := IPAddress_u32 167772163.
Definition net_p : IPPrefix := mkIPPrefix (Z.lor 3232235776 mapped) 24.

(** Routes of two neighbors; the second is as far from the prefix as this
    router is. *)
Definition two_routes : TopologyEntry :=
  on_routes (insert nbr_a (mkRouteInfo 1 (plain_route net_p 100 300) false false false 0))
    (on_routes (insert nbr_b (mkRouteInfo 2 (plain_route net_p 300 500) false false false 0)) TopologyEntry_new).

Lemma elements_perm (X : gset IPAddress) : elements X ≡ₚ elements X.
Proof. done. Qed.

Lemma recalculateSuccessors_spec_witness :
  let '(e', ok) := recalculateSuccessors (plain_eigrp 1) elements two_routes in
  ok = true /\ successors e' = [nbr_a] /\ successors e' ⊆ feasibleSuccessors e'.
Proof.
  destruct (recalculateSuccessors (plain_eigrp 1) elements two_routes) as [e' ok] eqn:E.
  assert (Hd : distances_ok (plain_eigrp 1) two_routes).
  { intros n r Hr. assert (Hall : map_Forall (fun _ r => (0 <= fd r <= max64) /\ fd r * 1 < 2 ^ 64) (routesBySource two_routes)) by by_compute.
    destruct (Hall n r Hr) as [H1 H2]. split; [exact H1 | intros _; exact H2]. }
  destruct (recalculateSuccessors_spec (plain_eigrp 1) elements elements_perm two_routes e' ok E ltac:(by_compute) ltac:(by_compute) Hd) as (_ & Hok & _).
  assert (Hs : (recalculateSuccessors (plain_eigrp 1) elements two_routes).2 = true /\ successors (recalculateSuccessors (plain_eigrp 1) elements two_routes).1 = [nbr_a])
    by (vm_compute; split; reflexivity).
  rewrite E in Hs. cbn [fst snd] in Hs. destruct Hs as [-> Hs]. split; [reflexivity|]. split; [exact Hs|].
  destruct (Hok eq_refl) as (_ & _ & _ & _ & _ & _ & Hsub). apply Hsub; [done|]. intros n r Hr _.
  assert (Hall : map_Forall (fun _ r => rd r < fd r) (routesBySource two_routes)) by by_compute. exact (Hall n r Hr).
Defined.

(** With a variance of two the second route becomes a successor although its
    neighbor is not nearer to the prefix than this router. *)
Example infeasible_successor : let e := (recalculateSuccessors (plain_eigrp 2) elements two_routes).1 in
  nbr_b ∈ successors e /\ nbr_b ∉ feasibleSuccessors e.
Proof. cbv zeta. split; by_compute. Qed.

Lemma default_metric_witness :
  calculateCompositeMetric (mkKValue 1 0 1 0 0 0) 1 255 10000000 1000000 = 1310720 /\
  calculateCompositeMetric (mkKValue 1 0 1 0 0 0) 1 255 10000000 1000000 < 2 ^ 61.
Proof. destruct (default_metric 1 255 1 255 10000000 10000000 1000000 1000000) as (E & B & _); [unfold max64; lia..|]. split; [rewrite E; reflexivity | exact B]. Defined.
