(* ===== verification/EigrpDual.v ===== *)
(** * EigrpDual: the DUAL engine of EIGRP (routing/eigrp/topology/DuelEngine.cpp)

    Prefixes without a reachable route become active: the neighbors are
    queried, each query is watched by a timer, and when the last reply is in
    the prefix is decided. The engine with its timers, the neighbors and the
    events of interfaces is a transition system. Queries and routes are
    objects: a timer or an active route points at them, and using a pointer
    whose object is gone is [UB]. The reliable transport is a log of what it
    is asked to send; the sequence numbers it assigns are arguments. *)

From S2P Require Import Prelude IPAddress RibBucket EigrpTopology.

(** ** Data *)

(** [routing/eigrp/topology/DuelEngine.h:39-46] OutgoingQuery: the object and its fields; the number of the query is written
    by the transport and never read *)
Record OutgoingQuery := mkQuery { q_id : nat; siaSequence : Z; siaTimerId : Z; siaAttempts : Z }.

(** [routing/eigrp/topology/DuelEngine.h:62-80] ActiveRoute: the key is its prefix *)
Record ActiveRoute := mkActive {
  pendingQueries : gmap IPAddress OutgoingQuery;
  possibleRoutes : list (IPAddress * ReceivedRoute);
  remoteSources : gset (IPAddress * Z);
  originRoute : option nat;
  originNeighbor : IPAddress }.

Definition ActiveRoute_new : ActiveRoute := mkActive ∅ [] ∅ None (mkIPAddress 0).

(** What DUAL reads of a neighbor. *)
Record NeighborInfo := mkNeighborInfo { n_iface : Z; n_unicast : bool; n_isStub : bool }.

(** A scheduled watchdog: the query it points at and where it was. *)
Record Timer := mkTimer { t_prefix : IPPrefix; t_nbr : IPAddress; t_query : nat }.

Inductive Action :=
| Rib (a : RibAction)
| Broadcast (l : list RouteInfo)
| SendPoisoned (iface : Z) (l : list RouteInfo)
| SendReply (nbr : IPAddress) (l : list RouteInfo)
| SendQuery (iface : Z) (l : list RouteInfo)
| SendUnicastQuery (nbr : IPAddress) (r : RouteInfo)
| SendSIAQuery (nbr : IPAddress) (r : RouteInfo)
| NeighborReset (nbr : IPAddress).

Record Dual := mkDual {
  entries : Entries;
  activeRoutes : gmap IPPrefix ActiveRoute;
  allNeighbors : gmap IPAddress NeighborInfo;
  timers : gmap Z Timer;
  nextTimer : Z;
  nextId : nat;
  connectedRoutes : gmap Z (gset IPPrefix);
  log : list Action }.

Definition Dual_new : Dual := mkDual ∅ ∅ ∅ ∅ 1 0 ∅ [].

Definition on_entries f (s : Dual) := mkDual (f (entries s)) (activeRoutes s) (allNeighbors s) (timers s) (nextTimer s) (nextId s) (connectedRoutes s) (log s).
Definition on_active f (s : Dual) := mkDual (entries s) (f (activeRoutes s)) (allNeighbors s) (timers s) (nextTimer s) (nextId s) (connectedRoutes s) (log s).
Definition on_neighbors f (s : Dual) := mkDual (entries s) (activeRoutes s) (f (allNeighbors s)) (timers s) (nextTimer s) (nextId s) (connectedRoutes s) (log s).
Definition on_timers f (s : Dual) := mkDual (entries s) (activeRoutes s) (allNeighbors s) (f (timers s)) (nextTimer s) (nextId s) (connectedRoutes s) (log s).
Definition next_timer (s : Dual) := mkDual (entries s) (activeRoutes s) (allNeighbors s) (timers s) (nextTimer s + 1) (nextId s) (connectedRoutes s) (log s).
Definition next_id (s : Dual) := mkDual (entries s) (activeRoutes s) (allNeighbors s) (timers s) (nextTimer s) (S (nextId s)) (connectedRoutes s) (log s).
Definition on_connected f (s : Dual) := mkDual (entries s) (activeRoutes s) (allNeighbors s) (timers s) (nextTimer s) (nextId s) (f (connectedRoutes s)) (log s).
Definition logged l (s : Dual) := mkDual (entries s) (activeRoutes s) (allNeighbors s) (timers s) (nextTimer s) (nextId s) (connectedRoutes s) (log s ++ l).

Definition set_pending f (ar : ActiveRoute) := mkActive (f (pendingQueries ar)) (possibleRoutes ar) (remoteSources ar) (originRoute ar) (originNeighbor ar).
Definition set_possible f (ar : ActiveRoute) := mkActive (pendingQueries ar) (f (possibleRoutes ar)) (remoteSources ar) (originRoute ar) (originNeighbor ar).

(** Using a pointer to something that may be gone. *)
Definition deref {A} (x : option A) : outcome A := match x with Some a => Ret a | None => UB end.

(** The loops of the engine, each turn of which can go wrong. *)
Fixpoint each {A S} (f : A -> S -> outcome S) (l : list A) (s : S) : outcome S :=
  match l with [] => Ret s | a :: l => s ← f a s; each f l s end.

Section Engine.
(** The configuration; the family and the number of the process; the orders in
    which hash tables of neighbors and of prefixes are iterated over. *)
Context (cfg : EigrpConfig) (v4 : bool) (asn : Z).
Context (order : gset IPAddress -> list IPAddress) (orderP : gset IPPrefix -> list IPPrefix).

(** ** Timers *)

(** [routing/eigrp/topology/TimerManager.cpp:15-25] TimerManager::startSIATimer, for the query [q] of prefix [p] to neighbor [n]:
    a running timer is not cancelled *)
Definition startSIATimer (p : IPPrefix) (n : IPAddress) (q : OutgoingQuery) (s : Dual) : Dual :=
  let id := nextTimer s in
  let s := next_timer (on_timers (insert id (mkTimer p n (q_id q))) s) in
  on_active (alter (set_pending (insert n (mkQuery (q_id q) (siaSequence q) id (siaAttempts q)))) p) s.

(** [routing/eigrp/topology/TimerManager.cpp:27-34] TimerManager::cancelSIATimer, of a query that is erased or restarted next *)
Definition cancelSIATimer (q : OutgoingQuery) (s : Dual) : Dual :=
  if siaTimerId q =? 0 then s else on_timers (delete (siaTimerId q)) s.

(** ** Deciding a prefix *)

(** A route of neighbor [n] is stored in the entry of its prefix. *)
Definition storeRoute (now : Z) (route : ReceivedRoute) (neighbor : option IPAddress) (p : IPPrefix) (s : Dual) : Dual :=
  next_id (on_entries (alter (addRouteUpdate now (nextId s) route neighbor) p) s).

(** [routing/eigrp/core/RouteManager.cpp:33-55] RouteManager::synchronizeRoutes *)
Definition synchronizeRoutes (ps : list IPPrefix) (s : Dual) : outcome Dual :=
  '(s, changed) ← each (fun p sc =>
      e ← deref (entries sc.1 !! p);
      '(a, best) ← syncRoute cfg v4 asn p e;
      Ret (logged [Rib a] sc.1, sc.2 ++ match best with Some n => option_list (routesBySource e !! n) | None => [] end)) ps (s, []);
  Ret (match changed with [] => s | _ => logged [Broadcast changed] s end).

(** [routing/eigrp/topology/DuelEngine.cpp:434-439] DuelEngine::concludeActive, the routes that came in *)
Definition storePossible (now : Z) (p : IPPrefix) (l : list (IPAddress * ReceivedRoute)) (s : Dual) : Dual :=
  foldl (fun s nr => match allNeighbors s !! nr.1 with Some _ => storeRoute now nr.2 (Some nr.1) p s | None => s end) s l.

(** [routing/eigrp/topology/DuelEngine.cpp:441-447] DuelEngine::concludeActive, the decision *)
Definition decideEntry (now : Z) (e : TopologyEntry) : TopologyEntry :=
  let '(e, ok) := recalculateSuccessors cfg order e in
  if ok then set_state PASSIVE e else set_valid (Some (now + getDelTimer)) (set_state POISENED e).

(** [routing/eigrp/topology/DuelEngine.cpp:429-470] DuelEngine::concludeActive; times are in seconds, and the replies go out in some
    order *)
Definition concludeActive (now : Z) (p : IPPrefix) (s : Dual) : outcome Dual :=
  ar ← deref (activeRoutes s !! p);
  match entries s !! p with
  | None => Ret s
  | Some _ =>
      let s := on_entries (alter (decideEntry now) p) (storePossible now p (possibleRoutes ar) s) in
      e ← deref (entries s !! p);
      let replies := omap (fun n => routesBySource e !! n) (successors e) in
      let to := List.filter (fun src => bool_decide (is_Some (allNeighbors s !! src))) (elements (remoteSources ar)).*1 in
      let s := logged ((fun src => SendReply src replies) <$> to) s in
      synchronizeRoutes [p] (on_active (delete p) s)
  end.

(** ** Going active *)

(** [routing/eigrp/topology/DuelEngine.cpp:275-300] DuelEngine::setActive, the record of a prefix that goes active *)
Definition openActive (p : IPPrefix) (e : TopologyEntry) (r : RouteInfo) (seq : option Z) (s : Dual) : Dual :=
  let failed := bestNeighbor e in
  let ar := default ActiveRoute_new (activeRoutes s !! p) in
  let ar := mkActive (pendingQueries ar) (possibleRoutes ar)
              (match seq with Some q => {[(failed, q)]} ∪ remoteSources ar | None => remoteSources ar end) (Some (ri_id r)) failed in
  let e := set_state ACTIVE (on_routes (fmap (fun r => set_route (setFlag ACTIVE_FLAG (routeInfo r)) r)) (markRouteUnreachable failed e)) in
  on_entries (insert p e) (on_active (insert p ar) s).

(** [routing/eigrp/topology/DuelEngine.cpp:267-301] DuelEngine::setActive, its first loop: the prefixes that went active *)
Definition beginActive (seq : option Z) (p : IPPrefix) (sr : Dual * list IPPrefix) : outcome (Dual * list IPPrefix) :=
  e ← deref (entries sr.1 !! p);
  match routesBySource e !! bestNeighbor e with
  | Some r =>
      if bool_decide (e_state e = ACTIVE) then Ret sr
      else Ret (openActive p e r seq (logged [Rib (RibRemove p)] sr.1), sr.2 ++ [p])
  | None => Ret sr
  end.

(** The route an active prefix was opened with, which the queries are about. *)
Definition originOf (p : IPPrefix) (s : Dual) : outcome RouteInfo :=
  ar ← deref (activeRoutes s !! p);
  e ← deref (entries s !! p);
  r ← deref (routesBySource e !! originNeighbor ar);
  if bool_decide (originRoute ar = Some (ri_id r)) then Ret r else UB.

Abbreviation Buckets := (gmap Z (list IPPrefix)).

(** [routing/eigrp/topology/DuelEngine.cpp:315-338] DuelEngine::setActive, one neighbor for one prefix *)
Definition queryNeighbor (p : IPPrefix) (n : IPAddress) (sb : Dual * Buckets) : outcome (Dual * Buckets) :=
  let '(s, buckets) := sb in
  ar ← deref (activeRoutes s !! p);
  nbr ← deref (allNeighbors s !! n);
  if bool_decide (n = originNeighbor ar) || n_isStub nbr then Ret (s, buckets)
  else
    let q := default (mkQuery (nextId s) 0 0 0) (pendingQueries ar !! n) in
    let s := startSIATimer p n q (next_id s) in
    if n_unicast nbr then r ← originOf p s; Ret (logged [SendUnicastQuery n r] s, buckets)
    else Ret (s, <[n_iface nbr := default [] (buckets !! n_iface nbr) ++ [p]]> buckets).

(** [routing/eigrp/topology/DuelEngine.cpp:309-340] DuelEngine::setActive, its second loop *)
Definition queryNeighbors (p : IPPrefix) (sb : Dual * Buckets) : outcome (Dual * Buckets) :=
  each (queryNeighbor p) (order (dom (allNeighbors sb.1))) sb.

(** [routing/eigrp/topology/DuelEngine.cpp:342-345] DuelEngine::setActive, the queries of one interface *)
Definition sendBucket (b : Z * list IPPrefix) (s : Dual) : outcome Dual :=
  l ← each (fun p l => r ← originOf p s; Ret (l ++ [r])) b.2 [];
  Ret (logged [SendQuery b.1 l] s).

(** [routing/eigrp/topology/DuelEngine.cpp:349-350] DuelEngine::setActive, a prefix without queries *)
Definition concludeEmpty (now : Z) (p : IPPrefix) (s : Dual) : outcome Dual :=
  ar ← deref (activeRoutes s !! p);
  if decide (pendingQueries ar = ∅) then concludeActive now p s else Ret s.

(** [routing/eigrp/topology/DuelEngine.cpp:263-352] DuelEngine::setActive *)
Definition setActive (now : Z) (ps : list IPPrefix) (seq : option Z) (s : Dual) : outcome Dual :=
  '(s, routes) ← each (beginActive seq) ps (s, []);
  '(s, buckets) ← each queryNeighbors routes (s, ∅);
  s ← each sendBucket (map_to_list buckets) s;
  each (concludeEmpty now) routes s.

(** [routing/eigrp/topology/DuelEngine.cpp:69-88] DuelEngine::updateSuccessors *)
Definition updateSuccessors (now : Z) (ps : list IPPrefix) (s : Dual) : outcome Dual :=
  '(s, active) ← each (fun p sa =>
      e ← deref (entries sa.1 !! p);
      let '(e, ok) := recalculateSuccessors cfg order e in
      Ret (on_entries (insert p e) sa.1, if ok then sa.2 else sa.2 ++ [p])) ps (s, []);
  s ← synchronizeRoutes ps s;
  match active with [] => Ret s | _ => setActive now active None s end.

(** ** What neighbors send *)

(** [routing/eigrp/topology/DuelEngine.cpp:354-376] DuelEngine::processReceivedActiveRoute *)
Definition processReceivedActiveRoute (now : Z) (n : IPAddress) (route : ReceivedRoute) (s : Dual) : outcome Dual :=
  let p := r_prefix route in
  match activeRoutes s !! p with
  | None => Ret s
  | Some ar =>
      let come := set_possible (fun l => l ++ [(n, route)]) ar in
      let '(ar, s) :=
        if bool_decide (n = originNeighbor ar) then (come, s)
        else match pendingQueries ar !! n with
             | Some q => (set_pending (delete n) come, cancelSIATimer q s)
             | None => (ar, s)
             end in
      let s := on_active (insert p ar) s in
      if decide (pendingQueries ar = ∅) then concludeActive now p s else Ret s
  end.

(** [routing/eigrp/topology/DuelEngine.cpp:222-226] DuelEngine::processReceivedActiveRoutes *)
Definition processReceivedActiveRoutes (now : Z) (n : IPAddress) (routes : list ReceivedRoute) (s : Dual) : outcome Dual :=
  each (processReceivedActiveRoute now n) routes s.

(** The route of neighbor [n] in the entry of [p]. *)
Definition routeOf (p : IPPrefix) (n : IPAddress) (s : Dual) : outcome RouteInfo := e ← deref (entries s !! p); deref (routesBySource e !! n).

(** The prefixes to update, and those the neighbors are told not to use. *)
Record Received := mkReceivedState { rc_updates : list IPPrefix; rc_poison : list IPPrefix }.

(** [routing/eigrp/topology/DuelEngine.cpp:200-214] DuelEngine::processReceivedRoutes, one route *)
Definition receiveRoute (now : Z) (n : IPAddress) (route : ReceivedRoute) (sr : Dual * Received) : outcome (Dual * Received) :=
  let '(s, rc) := sr in
  if (maxHops cfg <=? hopCount route) || (feasibleDistance route <? reportedDistance route) then Ret (s, rc)
  else
    let p := r_prefix route in
    let s := on_entries (ensure p) s in
    e ← deref (entries s !! p);
    let s := storeRoute now route (Some n) p s in
    let poison := if decide (routesBySource e = ∅) then rc_poison rc ++ [p] else rc_poison rc in
    if bool_decide (e_state e = ACTIVE) then
      s ← processReceivedActiveRoute now n route s; Ret (s, mkReceivedState (rc_updates rc) poison)
    else Ret (s, mkReceivedState (rc_updates rc ++ [p]) poison).

(** [routing/eigrp/topology/DuelEngine.cpp:195-220] DuelEngine::processReceivedRoutes *)
Definition processReceivedRoutes (now : Z) (n : IPAddress) (routes : list ReceivedRoute) (s : Dual) : outcome Dual :=
  nbr ← deref (allNeighbors s !! n);
  '(s, rc) ← each (receiveRoute now n) routes (s, mkReceivedState [] []);
  s ← match rc_poison rc with
      | [] => Ret s
      | ps => l ← each (fun p l => r ← routeOf p n s; Ret (l ++ [r])) ps []; Ret (logged [SendPoisoned (n_iface nbr) l] s)
      end;
  updateSuccessors now (rc_updates rc) s.

(** The replies to a query and the prefixes to ask further, by prefix and
    neighbor. *)
Record Queried := mkQueried { qd_replies : list (IPPrefix * IPAddress); qd_activate : list IPPrefix }.

(** [routing/eigrp/topology/DuelEngine.cpp:235-254] DuelEngine::processReceivedQueryRoutes, one route *)
Definition queryRoute (now : Z) (n : IPAddress) (route : ReceivedRoute) (sq : Dual * Queried) : outcome (Dual * Queried) :=
  let '(s, qd) := sq in
  let p := r_prefix route in
  let s := storeRoute now route (Some n) p (on_entries (ensure p) s) in
  e ← deref (entries s !! p);
  let '(e, ok) := recalculateSuccessors cfg order e in
  let s := on_entries (insert p e) s in
  match (if ok then findBestRoute (entries s) p else None) with
  | Some best => Ret (s, mkQueried (qd_replies qd ++ [(p, best)]) (qd_activate qd))
  | None =>
      Ret (s, if stubEnabled cfg then mkQueried (qd_replies qd ++ [(p, n)]) (qd_activate qd)
              else mkQueried (qd_replies qd) (qd_activate qd ++ [p]))
  end.

(** [routing/eigrp/topology/DuelEngine.cpp:228-261] DuelEngine::processReceivedQueryRoutes *)
Definition processReceivedQueryRoutes (now : Z) (n : IPAddress) (routes : list ReceivedRoute) (recvSeq : Z) (s : Dual) : outcome Dual :=
  '(s, qd) ← each (queryRoute now n) routes (s, mkQueried [] []);
  s ← match qd_replies qd with
      | [] => Ret s
      | ps => l ← each (fun pn l => r ← routeOf pn.1 pn.2 s; Ret (l ++ [r])) ps []; Ret (logged [SendReply n l] s)
      end;
  match qd_activate qd with [] => Ret s | ps => setActive now ps (Some recvSeq) s end.

(** [routing/eigrp/topology/DuelEngine.cpp:378-391] DuelEngine::processSIAReply *)
Definition processSIAReply (n : IPAddress) (seq : Z) (s : Dual) : Dual :=
  foldl (fun s p =>
    match activeRoutes s !! p with
    | Some ar =>
        match pendingQueries ar !! n with
        | Some q => if siaSequence q =? seq then startSIATimer p n q (cancelSIATimer q s) else s
        | None => s
        end
    | None => s
    end) s (orderP (dom (activeRoutes s))).

(** ** Neighbors that go down *)

(** [routing/eigrp/topology/DuelEngine.cpp:397-403] DuelEngine::removeActiveNeighbor, one prefix *)
Definition removePending (now : Z) (n : IPAddress) (p : IPPrefix) (s : Dual) : outcome Dual :=
  ar ← deref (activeRoutes s !! p);
  match pendingQueries ar !! n with
  | None => Ret s
  | Some _ =>
      let ar := set_pending (delete n) ar in
      let s := on_active (insert p ar) s in
      if decide (pendingQueries ar = ∅) then concludeActive now p s else Ret s
  end.

(** [routing/eigrp/topology/DuelEngine.cpp:393-405] DuelEngine::removeActiveNeighbor *)
Definition removeActiveNeighbor (now : Z) (n : IPAddress) (s : Dual) : outcome Dual :=
  each (removePending now n) (orderP (dom (activeRoutes s))) s.

(** The prefixes a neighbor has a route for, as they are iterated over. *)
Definition affectedBy (n : IPAddress) (t : Entries) : list IPPrefix :=
  List.filter (fun p => match t !! p with Some e => bool_decide (is_Some (routesBySource e !! n)) | None => false end) (orderP (dom t)).

Definition loseRoute (n : IPAddress) (e : TopologyEntry) : TopologyEntry :=
  match routesBySource e !! n with Some _ => markRouteUnreachable n e | None => e end.

(** [routing/eigrp/interface/TopologyController.cpp:117-142] TopologyController::onNeighborDown; what it does to the transport of
    the neighbor is left out *)
Definition onNeighborDown (now : Z) (n : IPAddress) (s : Dual) : outcome Dual :=
  let affected := affectedBy n (entries s) in
  s ← removeActiveNeighbor now n (on_entries (fmap (loseRoute n)) s);
  updateSuccessors now affected (on_entries (pruneNeighbor now n) s).

(** [routing/eigrp/rtp/NeighborTable.cpp:135-144] NeighborTable::onDown, with the destructor of the neighbor *)
Definition onDown (now : Z) (n : IPAddress) (s : Dual) : outcome Dual := onNeighborDown now n (logged [NeighborReset n] (on_neighbors (delete n) s)).

(** [routing/eigrp/topology/DuelEngine.cpp:407-427] DuelEngine::handleSIATimeout, of the query of [p] to [n]; [seq] is the
    number the transport gives to the packet *)
Definition handleSIATimeout (now : Z) (seq : Z) (p : IPPrefix) (n : IPAddress) (q : OutgoingQuery) (s : Dual) : outcome Dual :=
  if siaAttempts q <? 4 then
    r ← originOf p s;
    Ret (startSIATimer p n (mkQuery (q_id q) seq (siaTimerId q) (siaAttempts q + 1)) (logged [SendSIAQuery n r] s))
  else
    let s := on_active (alter (set_pending (delete n)) p) s in
    ar ← deref (activeRoutes s !! p);
    s ← onDown now n s;
    if decide (pendingQueries ar = ∅) then concludeActive now p s else Ret s.

(** [routing/eigrp/topology/TimerManager.cpp:20-24] TimerManager::startSIATimer, its callback: the timer points at the query and at
    the neighbor *)
Definition fireTimer (now : Z) (seq : Z) (t : Timer) (s : Dual) : outcome Dual :=
  ar ← deref (activeRoutes s !! t_prefix t);
  q ← deref (pendingQueries ar !! t_nbr t);
  _ ← deref (allNeighbors s !! t_nbr t);
  if (q_id q =? t_query t)%nat then handleSIATimeout now seq (t_prefix t) (t_nbr t) q s else UB.

(** ** Connected routes *)

(** [routing/eigrp/core/Topology.cpp:63-73] EigrpTopology::synchronizeConnected, one prefix of the interface *)
Definition installConnected (now : Z) (route : ReceivedRoute) (p : IPPrefix) (s : Dual) : Dual :=
  let r := mkReceived p (r_nextHop route) (originInterface route) (reportedDistance route) (feasibleDistance route) (delay route) (bandwidth route)
             (mtu route) (reliability route) (load route) (hopCount route) (r_tag route) (r_adminDistance route) (external route) (wide route)
             (flags route) (routeType route) in
  storeRoute now r None p (on_entries (ensure p) s).

(** [routing/eigrp/core/Topology.cpp:91-100] EigrpTopology::synchronizeConnected, the prefixes with a connected route that is lost *)
Definition lostConnected (connected : IPAddress) (t : Entries) (l : list IPPrefix) : list IPPrefix :=
  List.filter (fun p => match t !! p with Some e => bool_decide (is_Some (routesBySource e !! connected)) | None => false end) l.

Definition dropConnected (connected : IPAddress) (ps : list IPPrefix) (s : Dual) : Dual :=
  foldl (fun s p => on_entries (alter (markRouteUnreachable connected) p) s) s ps.

(** [routing/eigrp/core/Topology.cpp:36-103] EigrpTopology::synchronizeConnected, of interface [key] with the given prefixes;
    [route] is the route made for them, whose next hop is the zero address *)
Definition synchronizeConnected (now : Z) (key : Z) (route : ReceivedRoute) (ps : list IPPrefix) (s : Dual) : outcome Dual :=
  let old := default ∅ (connectedRoutes s !! key) in
  let s := foldl (fun s p => installConnected now route p s) (on_connected (insert key (list_to_set ps)) s) ps in
  let lost := lostConnected (r_nextHop route) (entries s) (orderP (old ∖ list_to_set ps)) in
  updateSuccessors now (ps ++ lost) (dropConnected (r_nextHop route) lost s).

(** [routing/eigrp/core/Topology.cpp:105-121] EigrpTopology::clearConnected *)
Definition clearConnected (now : Z) (connected : IPAddress) (key : Z) (s : Dual) : outcome Dual :=
  let lost := lostConnected connected (entries s) (orderP (default ∅ (connectedRoutes s !! key))) in
  s ← updateSuccessors now lost (dropConnected connected lost (on_connected (delete key) s));
  synchronizeRoutes lost s.

(** ** Events *)

Inductive Event :=
| Update (n : IPAddress) (l : list ReceivedRoute)
| Reply (n : IPAddress) (l : list ReceivedRoute)
| Query (n : IPAddress) (l : list ReceivedRoute) (seq : Z)
| SIAReply (n : IPAddress) (seq : Z)
| NeighborUp (n : IPAddress) (i : NeighborInfo)
| NeighborDown (n : IPAddress)
| Resync (n : IPAddress)
| SIATimer (id : Z) (seq : Z)
| Prune
| Connected (key : Z) (route : ReceivedRoute) (ps : list IPPrefix)
| Disconnected (connected : IPAddress) (key : Z).

(** What the packets of a neighbor, the timers and the interfaces make the
    engine do: packets come from neighbors that are up, a timer fires once. *)
Definition handle (now : Z) (ev : Event) (s : Dual) : outcome Dual :=
  match ev with
  | Update n l => if decide (is_Some (allNeighbors s !! n)) then processReceivedRoutes now n l s else Ret s
  | Reply n l => if decide (is_Some (allNeighbors s !! n)) then processReceivedActiveRoutes now n l s else Ret s
  | Query n l seq => if decide (is_Some (allNeighbors s !! n)) then processReceivedQueryRoutes now n l seq s else Ret s
  | SIAReply n seq => Ret (processSIAReply n seq s)
  | NeighborUp n i => Ret (match allNeighbors s !! n with Some _ => s | None => on_neighbors (insert n i) s end)
  | NeighborDown n => if decide (is_Some (allNeighbors s !! n)) then onDown now n s else Ret s
  | Resync n => if decide (is_Some (allNeighbors s !! n)) then onNeighborDown now n s else Ret s
  | SIATimer id seq => match timers s !! id with Some t => fireTimer now seq t (on_timers (delete id) s) | None => Ret s end
  | Prune => Ret (on_entries (pruneExpired now) s)
  | Connected key route ps => synchronizeConnected now key route ps s
  | Disconnected connected key => clearConnected now connected key s
  end.

Inductive reach : Dual -> Prop :=
| reach_new : reach Dual_new
| reach_step now ev s s' : reach s -> handle now ev s = Ret s' -> reach s'.
End Engine.

(** ** Loops *)

Lemma each_inv {A S} (P : S -> Prop) (f : A -> S -> outcome S) l : forall s s',
  (forall a s s', a ∈ l -> P s -> f a s = Ret s' -> P s') -> P s -> each f l s = Ret s' -> P s'.
Proof.
  induction l as [|a l IH]; intros s s' Hf Hp H; cbn [each] in H; [by injection H as <-|].
  apply outcome_bind_ret_inv in H as (s1 & H1 & H). apply (IH s1 s'); [intros b t t' Hb; apply Hf; by right | by eapply (Hf a s); [left|..] | exact H].
Qed.

(** ** The lists of an entry *)

(** Successors have a route. *)
Definition lists_ok (e : TopologyEntry) : Prop := forall n, n ∈ successors e \/ n ∈ feasibleSuccessors e -> is_Some (routesBySource e !! n).

Lemma lists_ok_new : lists_ok TopologyEntry_new.
Proof. intros n [H|H]; by apply elem_of_nil in H. Qed.

Lemma addRouteUpdate_ok now id route nbr e : lists_ok e -> lists_ok (addRouteUpdate now id route nbr e).
Proof.
  intros H n Hn. unfold addRouteUpdate. cbn [routesBySource on_routes]. apply lookup_insert_is_Some'. right. apply H. exact Hn.
Qed.

Lemma removed_ok n (f : gmap IPAddress RouteInfo -> gmap IPAddress RouteInfo) e :
  lists_ok e -> (forall m, m <> n -> is_Some (routesBySource e !! m) -> is_Some (f (routesBySource e) !! m)) -> lists_ok (on_routes f (removeSuccessor n e)).
Proof.
  intros H Hf m Hm. cbn in Hm |- *. assert (Hne : m <> n /\ (m ∈ successors e \/ m ∈ feasibleSuccessors e)).
  { destruct Hm as [Hm|Hm]; apply list_elem_of_filter in Hm as [Hne Hin]; auto. }
  destruct Hne as [Hne Hin]. apply Hf; [exact Hne | by apply H].
Qed.

Lemma markRouteUnreachable_ok n e : lists_ok e -> lists_ok (markRouteUnreachable n e).
Proof. intros H. apply (removed_ok n (alter unreachable n) e H). intros m Hm Hs. rewrite lookup_alter_ne by done. exact Hs. Qed.

Lemma pruneEntry_ok n e : lists_ok e -> lists_ok (pruneEntry n e).
Proof.
  intros H. unfold pruneEntry. destruct (routesBySource e !! n); [|exact H]. apply (removed_ok n (delete n) e H). intros m Hm Hs. rewrite lookup_delete_ne by done. exact Hs.
Qed.

Lemma loseRoute_ok n e : lists_ok e -> lists_ok (loseRoute n e).
Proof. intros H. unfold loseRoute. destruct (routesBySource e !! n); [by apply markRouteUnreachable_ok | exact H]. Qed.

Section EntryProofs.
Context (cfg : EigrpConfig) (order : gset IPAddress -> list IPAddress) (order_perm : forall X, order X ≡ₚ elements X).

Lemma recalculateSuccessors_ok e : lists_ok (recalculateSuccessors cfg order e).1 \/ routesBySource e = ∅.
Proof.
  destruct (decide (routesBySource e = ∅)) as [E|E]; [by right | left]. unfold recalculateSuccessors. rewrite decide_False by done.
  destruct (foldl _ _ _) as [[fd' ad'] n']. set (succs := (List.filter (fun kv => inVariance cfg fd' kv.2) _).*1). set (feas := (List.filter (fun kv => feasible fd' kv.2) _).*1).
  assert (Hs : forall n, n ∈ succs \/ n ∈ feas -> is_Some (routesBySource e !! n)).
  { intros n [Hn|Hn]; [apply (filter_iterate_elem order order_perm (inVariance cfg fd')) in Hn | apply (filter_iterate_elem order order_perm (feasible fd')) in Hn];
      destruct Hn as (r & Hr & _); by exists r. }
  assert (Hf : forall (m : gmap IPAddress RouteInfo) (g : RouteInfo -> RouteInfo) n, is_Some (m !! n) -> is_Some ((g <$> m) !! n)) by (intros; rewrite lookup_fmap; by apply fmap_is_Some).
  destruct succs as [|s0 l] eqn:Es; [|destruct (minimumShare cfg)]; intros n Hn; cbn [fst routesBySource set_best set_lists set_state on_routes] in Hn |- *; apply Hf, Hs;
    cbn [successors feasibleSuccessors set_best set_lists set_state] in Hn.
  - exact Hn.
  - destruct Hn as [->%list_elem_of_singleton|Hn]; [left; left | by right].
  - exact Hn.
Qed.

Lemma recalc_ok e : lists_ok e -> lists_ok (recalculateSuccessors cfg order e).1.
Proof.
  intros H. destruct (recalculateSuccessors_ok e) as [|E]; [done|]. unfold recalculateSuccessors. rewrite decide_True by done. exact H.
Qed.

(** A recomputation never makes a prefix active. *)
Lemma recalc_state e : e_state (recalculateSuccessors cfg order e).1 = e_state e \/ e_state (recalculateSuccessors cfg order e).1 = PASSIVE.
Proof.
  unfold recalculateSuccessors. destruct (decide _); [by left|]. destruct (foldl _ _ _) as [[? ?] ?]. destruct (_.*1); [by left | right; by destruct (minimumShare cfg)].
Qed.

Lemma decideEntry_ok now e : lists_ok e -> lists_ok (decideEntry cfg order now e) /\ e_state (decideEntry cfg order now e) <> ACTIVE.
Proof.
  intros H. apply recalc_ok in H. unfold decideEntry. destruct (recalculateSuccessors cfg order e) as [e' ok]. destruct ok; (split; [exact H | done]).
Qed.
End EntryProofs.

(** ** The invariant *)

(** What holds of the engine between two events, and within one except for the
    prefixes [X] that are being opened or decided, and for the neighbors [Y]
    that are going down: successors have a route; an active prefix waits for a
    reply; a query is watched by a scheduled timer and its neighbor is there;
    timers are numbered from one. *)
Record inv (X : gset IPPrefix) (Y : gset IPAddress) (s : Dual) : Prop := mkInv {
  i_lists p e : entries s !! p = Some e -> lists_ok e;
  i_waits p e : entries s !! p = Some e -> e_state e = ACTIVE -> p ∉ X -> exists ar, activeRoutes s !! p = Some ar /\ pendingQueries ar <> ∅;
  i_timer p ar n q : activeRoutes s !! p = Some ar -> pendingQueries ar !! n = Some q -> timers s !! siaTimerId q = Some (mkTimer p n (q_id q));
  i_known p ar n q : activeRoutes s !! p = Some ar -> pendingQueries ar !! n = Some q -> n ∉ Y -> is_Some (allNeighbors s !! n);
  i_fresh id t : timers s !! id = Some t -> 0 < id < nextTimer s;
  i_next : 0 < nextTimer s }.

Lemma inv_new : inv ∅ ∅ Dual_new.
Proof. split; intros *; unfold Dual_new; cbn; try (rewrite lookup_empty; discriminate). lia. Qed.

Lemma inv_weaken X X' Y Y' s : X ⊆ X' -> Y ⊆ Y' -> inv X Y s -> inv X' Y' s.
Proof.
  intros HX HY [H1 H2 H3 H4 H5 H6]. split; [exact H1 | | exact H3 | | exact H5 | exact H6].
  - intros p e Hp Ha Hn. apply (H2 p e Hp Ha). intros Hx. by apply Hn, HX.
  - intros p ar n q Hp Hq Hn. apply (H4 p ar n q Hp Hq). intros Hx. by apply Hn, HY.
Qed.

(** A step that leaves the active prefixes, the neighbors and the timers. *)
Lemma inv_entries X Y f s :
  (forall p e', f (entries s) !! p = Some e' -> lists_ok e' /\ (e_state e' = ACTIVE -> p ∉ X -> exists e, entries s !! p = Some e /\ e_state e = ACTIVE)) ->
  inv X Y s -> inv X Y (on_entries f s).
Proof.
  intros Hf [H1 H2 H3 H4 H5 H6]. split; [ | | exact H3 | exact H4 | exact H5 | exact H6].
  - intros p e Hp. by apply (Hf p e).
  - intros p e Hp Ha Hn. destruct (Hf p e Hp) as [_ Hs]. destruct (Hs Ha Hn) as (e0 & He0 & Ha0). by apply (H2 p e0).
Qed.

Lemma inv_logged X Y l s : inv X Y s -> inv X Y (logged l s).
Proof. intros [H1 H2 H3 H4 H5 H6]. by split. Qed.

Lemma inv_next_id X Y s : inv X Y s -> inv X Y (next_id s).
Proof. intros [H1 H2 H3 H4 H5 H6]. by split. Qed.

Lemma inv_connected X Y f s : inv X Y s -> inv X Y (on_connected f s).
Proof. intros [H1 H2 H3 H4 H5 H6]. by split. Qed.

Lemma inv_alter X Y p f s : (forall e, lists_ok e -> lists_ok (f e) /\ (e_state (f e) = ACTIVE -> e_state e = ACTIVE)) -> inv X Y s -> inv X Y (on_entries (alter f p) s).
Proof.
  intros Hf Hi. apply inv_entries; [|exact Hi]. intros p' e' He'. destruct (decide (p' = p)) as [->|Hne].
  - rewrite lookup_alter_eq in He'. apply fmap_Some in He' as (e & He & ->). destruct (Hf e (i_lists _ _ _ Hi p e He)) as [Hl Hs]. split; [exact Hl|]. intros Ha _. exists e. auto.
  - rewrite lookup_alter_ne in He' by done. split; [by eapply i_lists|]. intros Ha _. by exists e'.
Qed.

Lemma inv_insert X Y p e s : lists_ok e -> (e_state e = ACTIVE -> p ∈ X \/ exists e0, entries s !! p = Some e0 /\ e_state e0 = ACTIVE) -> inv X Y s -> inv X Y (on_entries (insert p e) s).
Proof.
  intros Hl Hs Hi. apply inv_entries; [|exact Hi]. intros p' e' He'. destruct (decide (p' = p)) as [->|Hne].
  - rewrite lookup_insert_eq in He'. injection He' as <-. split; [exact Hl|]. intros Ha Hn. destruct (Hs Ha); [done|by auto].
  - rewrite lookup_insert_ne in He' by done. split; [by eapply i_lists|]. intros Ha _. by exists e'.
Qed.

Lemma inv_ensure X Y p s : inv X Y s -> inv X Y (on_entries (ensure p) s).
Proof.
  intros Hi. unfold ensure. destruct (entries s !! p) eqn:E; [apply (inv_entries X Y (fun t => match t !! p with Some _ => t | None => _ end)); [|exact Hi]|].
  - intros p' e' He'. cbn in He'. rewrite E in He'. split; [by eapply i_lists|]. intros Ha _. by exists e'.
  - apply (inv_entries X Y (fun t => match t !! p with Some _ => t | None => _ end)); [|exact Hi]. intros p' e' He'. cbn in He'. rewrite E in He'. destruct (decide (p' = p)) as [->|Hne].
    + rewrite lookup_insert_eq in He'. injection He' as <-. split; [apply lists_ok_new | done].
    + rewrite lookup_insert_ne in He' by done. split; [by eapply i_lists|]. intros Ha _. by exists e'.
Qed.

Lemma inv_storeRoute X Y now route nbr p s : inv X Y s -> inv X Y (storeRoute now route nbr p s).
Proof.
  intros Hi. apply inv_next_id, inv_alter; [|exact Hi]. intros e He. split; [by apply addRouteUpdate_ok | done].
Qed.

(** The record of a prefix whose entry is not active is dropped. *)
Lemma inv_delete_active X Y p s : (forall e, entries s !! p = Some e -> e_state e = ACTIVE -> p ∈ X) -> inv X Y s -> inv X Y (on_active (delete p) s).
Proof.
  intros Hp [H1 H2 H3 H4 H5 H6]. split; [exact H1 | | | | exact H5 | exact H6].
  - intros p' e He Ha Hn. destruct (H2 p' e He Ha Hn) as (ar & Har & Hq). exists ar. split; [|exact Hq]. cbn. rewrite lookup_delete_ne; [exact Har|].
    intros <-. by apply Hn, (Hp e).
  - intros p' ar n q Hr. cbn [activeRoutes on_active] in Hr. apply lookup_delete_Some in Hr as [_ Hr]. by apply H3.
  - intros p' ar n q Hr. cbn [activeRoutes on_active] in Hr. apply lookup_delete_Some in Hr as [_ Hr]. by eapply H4.
Qed.

(** The record of a prefix is replaced by one with fewer queries. *)
Lemma inv_fewer X Y p ar s :
  (forall n q, pendingQueries ar !! n = Some q -> exists ar0, activeRoutes s !! p = Some ar0 /\ pendingQueries ar0 !! n = Some q) -> p ∈ X \/ pendingQueries ar <> ∅ ->
  inv X Y s -> inv X Y (on_active (insert p ar) s).
Proof.
  intros Hf Hx [H1 H2 H3 H4 H5 H6]. split; [exact H1 | | | | exact H5 | exact H6].
  - intros p' e He Ha Hn. destruct (decide (p' = p)) as [->|Hne].
    + exists ar. split; [apply lookup_insert_eq|]. destruct Hx; done.
    + destruct (H2 p' e He Ha Hn) as (ar' & Hr & Hq). exists ar'. split; [|exact Hq]. cbn. rewrite lookup_insert_ne; done.
  - intros p' ar' n q Hr Hq. destruct (decide (p' = p)) as [->|Hne].
    + cbn in Hr. rewrite lookup_insert_eq in Hr. injection Hr as <-. destruct (Hf n q Hq) as (ar0 & Hr0 & Hq0). by apply (H3 p ar0).
    + cbn in Hr. rewrite lookup_insert_ne in Hr by done. by apply (H3 p' ar').
  - intros p' ar' n q Hr Hq. destruct (decide (p' = p)) as [->|Hne].
    + cbn in Hr. rewrite lookup_insert_eq in Hr. injection Hr as <-. destruct (Hf n q Hq) as (ar0 & Hr0 & Hq0). by apply (H4 p ar0 n q).
    + cbn in Hr. rewrite lookup_insert_ne in Hr by done. by apply (H4 p' ar' n q).
Qed.

(** A prefix that waits for a reply needs no exemption. *)
Lemma inv_waiting X Y p ar s : activeRoutes s !! p = Some ar -> pendingQueries ar <> ∅ -> inv ({[p]} ∪ X) Y s -> inv X Y s.
Proof.
  intros Hr Hq [H1 H2 H3 H4 H5 H6]. split; [exact H1 | | exact H3 | exact H4 | exact H5 | exact H6].
  intros p' e He Ha Hn. destruct (decide (p' = p)) as [->|Hne]; [by exists ar|]. apply (H2 p' e He Ha). rewrite elem_of_union, elem_of_singleton. tauto.
Qed.

(** So does one that is not active. *)
Lemma inv_decided X Y p s : (forall e, entries s !! p = Some e -> e_state e <> ACTIVE) -> inv ({[p]} ∪ X) Y s -> inv X Y s.
Proof.
  intros Hd [H1 H2 H3 H4 H5 H6]. split; [exact H1 | | exact H3 | exact H4 | exact H5 | exact H6].
  intros p' e He Ha Hn. destruct (decide (p' = p)) as [->|Hne]; [by destruct (Hd e)|]. apply (H2 p' e He Ha). rewrite elem_of_union, elem_of_singleton. tauto.
Qed.

(** A timer no query uses is cancelled. *)
Lemma inv_cancel X Y id s :
  (forall p ar n q, activeRoutes s !! p = Some ar -> pendingQueries ar !! n = Some q -> siaTimerId q <> id) -> inv X Y s -> inv X Y (on_timers (delete id) s).
Proof.
  intros Hu [H1 H2 H3 H4 H5 H6]. split; [exact H1 | exact H2 | | exact H4 | | exact H6].
  - intros p ar n q Hr Hq. cbn [timers on_timers]. rewrite lookup_delete_ne; [by apply (H3 p ar)|]. intros E. by apply (Hu p ar n q).
  - intros i t Ht. cbn [timers on_timers] in Ht. apply lookup_delete_Some in Ht as [_ Ht]. by apply (H5 i t).
Qed.

(** A query is sent, or sent again, and watched. *)
Lemma inv_start X Y p n q s : n ∈ Y \/ is_Some (allNeighbors s !! n) -> inv X Y s -> inv X Y (startSIATimer p n q s).
Proof.
  intros Hn [H1 H2 H3 H4 H5 H6]. unfold startSIATimer. cbn zeta.
  assert (Hrec : forall p' ar, alter (set_pending (insert n (mkQuery (q_id q) (siaSequence q) (nextTimer s) (siaAttempts q)))) p (activeRoutes s) !! p' = Some ar ->
    exists ar0, activeRoutes s !! p' = Some ar0 /\ forall m q', pendingQueries ar !! m = Some q' ->
      pendingQueries ar0 !! m = Some q' \/ (p' = p /\ m = n /\ q' = mkQuery (q_id q) (siaSequence q) (nextTimer s) (siaAttempts q))).
  { intros p' ar Hr. destruct (decide (p' = p)) as [->|Hne].
    - rewrite lookup_alter_eq in Hr. apply fmap_Some in Hr as (ar0 & Hr0 & ->). exists ar0. split; [exact Hr0|]. intros m q' Hq. cbn in Hq.
      apply lookup_insert_Some in Hq as [[<- <-]|[_ Hq]]; auto.
    - rewrite lookup_alter_ne in Hr by done. exists ar. auto. }
  split; cbn [entries activeRoutes allNeighbors timers nextTimer on_active next_timer on_timers]; [exact H1 | | | | | lia].
  - intros p' e He Ha Hx. destruct (H2 p' e He Ha Hx) as (ar & Hr & Hq). destruct (decide (p' = p)) as [->|Hne].
    + rewrite lookup_alter_eq, Hr. eexists. split; [reflexivity|]. cbn. apply insert_non_empty.
    + rewrite lookup_alter_ne by done. by exists ar.
  - intros p' ar m q' Hr Hq. destruct (Hrec p' ar Hr) as (ar0 & Hr0 & Hall). destruct (Hall m q' Hq) as [Hq0|(-> & -> & ->)]; [|by rewrite lookup_insert_eq].
    pose proof (H3 p' ar0 m q' Hr0 Hq0) as Ht. destruct (H5 _ _ Ht). rewrite lookup_insert_ne; [exact Ht | lia].
  - intros p' ar m q' Hr Hq Hm. destruct (Hrec p' ar Hr) as (ar0 & Hr0 & Hall). destruct (Hall m q' Hq) as [Hq0|(-> & -> & ->)]; [by apply (H4 p' ar0 m q')|].
    by destruct Hn.
  - intros i t Ht. apply lookup_insert_Some in Ht as [[<- _]|[_ Ht]]; [lia|]. destruct (H5 i t Ht). lia.
Qed.

(** One query of a prefix is dropped. *)
Lemma inv_drop X Y p ar n s : activeRoutes s !! p = Some ar -> inv X Y s -> inv ({[p]} ∪ X) Y (on_active (insert p (set_pending (delete n) ar)) s).
Proof.
  intros Hr Hi. apply inv_fewer; [|left; set_solver|by eapply inv_weaken, Hi; set_solver]. intros m q Hq. cbn in Hq. apply lookup_delete_Some in Hq as [_ Hq]. by exists ar.
Qed.

(** No other query has the timer of a query. *)
Lemma inv_drop_cancel X Y p ar n q s id : activeRoutes s !! p = Some ar -> pendingQueries ar !! n = Some q -> (forall t, timers s !! id = Some t -> t_prefix t = p /\ t_nbr t = n) ->
  inv X Y s -> inv ({[p]} ∪ X) Y (on_timers (delete id) (on_active (insert p (set_pending (delete n) ar)) s)).
Proof.
  intros Hr Hq Hid Hi. pose proof (inv_drop X Y p ar n s Hr Hi) as Hd. apply inv_cancel; [|exact Hd]. intros p' ar' m q' Hr' Hq' E.
  pose proof (i_timer _ _ _ Hd p' ar' m q' Hr' Hq') as Ht. cbn [timers on_active] in Ht. rewrite E in Ht. destruct (Hid _ Ht) as [E1 E2]. cbn in E1, E2. subst p' m.
  cbn [activeRoutes on_active] in Hr'. rewrite lookup_insert_eq in Hr'. injection Hr' as <-. cbn in Hq'. by rewrite lookup_delete_eq in Hq'.
Qed.

(** A query is restarted after its timer, or an older one of it, is gone. *)
Lemma inv_restart X Y p ar n q q' id s : activeRoutes s !! p = Some ar -> pendingQueries ar !! n = Some q -> (forall t, timers s !! id = Some t -> t_prefix t = p /\ t_nbr t = n) ->
  inv X Y s -> inv X Y (startSIATimer p n q' (on_timers (delete id) s)).
Proof.
  intros Hr Hq Hid Hi. pose proof (inv_drop_cancel X Y p ar n q s id Hr Hq Hid Hi) as Hd.
  assert (Hn : n ∈ Y \/ is_Some (allNeighbors s !! n)) by (destruct (decide (n ∈ Y)); [by left | right; by eapply i_known]).
  pose proof (inv_start _ _ p n q' (on_timers (delete id) (on_active (insert p (set_pending (delete n) ar)) s)) Hn Hd) as Hs. clear Hd. rename Hs into Hd.
  assert (E : startSIATimer p n q' (on_timers (delete id) (on_active (insert p (set_pending (delete n) ar)) s)) = startSIATimer p n q' (on_timers (delete id) s)).
  { unfold startSIATimer. cbn zeta. cbn [timers nextTimer on_timers on_active next_timer activeRoutes]. unfold on_active. cbn. f_equal.
    apply map_eq. intros p'. destruct (decide (p' = p)) as [->|Hne].
    - rewrite !lookup_alter_eq, lookup_insert_eq, Hr. cbn. unfold set_pending. cbn. by rewrite insert_delete_eq.
    - rewrite !lookup_alter_ne, lookup_insert_ne by done. done. }
  rewrite E in Hd. eapply inv_waiting, Hd; unfold startSIATimer; cbn; [rewrite lookup_alter_eq, Hr; reflexivity | apply insert_non_empty].
Qed.

(** ** The steps keep the invariant *)

Section Steps.
Context (cfg : EigrpConfig) (v4 : bool) (asn : Z).
Context (order : gset IPAddress -> list IPAddress) (orderP : gset IPPrefix -> list IPPrefix).
Context (order_perm : forall X, order X ≡ₚ elements X) (orderP_perm : forall X, orderP X ≡ₚ elements X).

(** The RIB and the neighbors are told, nothing else. *)
Lemma synchronize_logs ps s s' : synchronizeRoutes cfg v4 asn ps s = Ret s' -> exists l, s' = logged l s.
Proof.
  unfold synchronizeRoutes. intros H. apply outcome_bind_ret_inv in H as ([s1 changed] & H1 & H).
  assert (Hl : exists l, s1 = logged l s).
  { change s1 with (s1, changed).1. eapply (each_inv (fun sc => exists l, sc.1 = logged l s)), H1; [|exists []; unfold logged; rewrite app_nil_r; by destruct s].
    intros p [s2 c2] [s3 c3] _ [l Hl] H2. cbn [fst] in Hl. subst s2. apply outcome_bind_ret_inv in H2 as (e & _ & H2).
    apply outcome_bind_ret_inv in H2 as ([a best] & _ & H2). injection H2 as <- <-. exists (l ++ [Rib a]). unfold logged. cbn. by rewrite app_assoc. }
  destruct Hl as [l ->]. destruct changed; injection H as <-; [by exists l|]. eexists. unfold logged. cbn. by rewrite <- app_assoc.
Qed.

Lemma synchronize_inv X Y ps s s' : synchronizeRoutes cfg v4 asn ps s = Ret s' -> inv X Y s -> inv X Y s'.
Proof. intros [l ->]%synchronize_logs Hi. by apply inv_logged. Qed.

Lemma storePossible_inv X Y now p l : forall s, inv X Y s -> inv X Y (storePossible now p l s).
Proof.
  unfold storePossible. induction l as [|[n r] l IH]; intros s Hi; cbn [foldl fst snd]; [exact Hi|]. apply IH. destruct (allNeighbors s !! n); [by apply inv_storeRoute | exact Hi].
Qed.

Lemma storePossible_active now p l : forall s, activeRoutes (storePossible now p l s) = activeRoutes s.
Proof.
  unfold storePossible. induction l as [|[n r] l IH]; intros s; cbn [foldl fst snd]; [done|]. rewrite IH. by destruct (allNeighbors s !! n).
Qed.

(** A decided prefix is not active, and only its record is gone. *)
Lemma conclude_inv X Y now p s s' : concludeActive cfg v4 asn order now p s = Ret s' -> inv ({[p]} ∪ X) Y s ->
  inv X Y s' /\ (activeRoutes s' = activeRoutes s \/ activeRoutes s' = delete p (activeRoutes s)).
Proof.
  unfold concludeActive. intros H Hi. apply outcome_bind_ret_inv in H as (ar & Har & H).
  destruct (entries s !! p) as [e0|] eqn:E0; [|injection H as <-; split; [|by left]; eapply inv_decided, Hi; intros e He; congruence].
  cbn zeta in H. apply outcome_bind_ret_inv in H as (e & He & H).
  pose proof (storePossible_inv _ _ now p (possibleRoutes ar) s Hi) as Hp. pose proof (storePossible_active now p (possibleRoutes ar) s) as Ea.
  set (s1 := storePossible now p (possibleRoutes ar) s) in *. clearbody s1.
  assert (H2 : inv X Y (on_entries (alter (decideEntry cfg order now) p) s1)).
  { eapply (inv_decided X Y p); [|apply inv_alter, Hp; intros e1 H1; destruct (decideEntry_ok cfg order order_perm now e1 H1); done].
    intros e1 H1. cbn in H1. rewrite lookup_alter_eq in H1. apply fmap_Some in H1 as (e2 & He2 & ->).
    by destruct (decideEntry_ok cfg order order_perm now e2 (i_lists _ _ _ Hp p e2 He2)). }
  apply synchronize_logs in H as [l ->]. split; [|right; cbn; by rewrite Ea].
  apply inv_logged, inv_delete_active; [|by apply inv_logged]. intros e1 H1 Ha. cbn in H1. rewrite lookup_alter_eq in H1. apply fmap_Some in H1 as (e2 & He2 & ->).
  by destruct (decideEntry_ok cfg order order_perm now e2 (i_lists _ _ _ Hp p e2 He2)).
Qed.

Lemma conclude_or_wait X Y now p ar s s' :
  activeRoutes s !! p = Some ar -> (if decide (pendingQueries ar = ∅) then concludeActive cfg v4 asn order now p s else Ret s) = Ret s' -> inv ({[p]} ∪ X) Y s ->
  inv X Y s' /\ (activeRoutes s' = activeRoutes s \/ activeRoutes s' = delete p (activeRoutes s)).
Proof.
  intros Hr H Hi. destruct (decide _) as [E|E]; [by eapply conclude_inv|]. injection H as <-. split; [by eapply inv_waiting | by left].
Qed.

Lemma originOf_inv p s r : originOf p s = Ret r -> exists ar, activeRoutes s !! p = Some ar.
Proof. intros H. apply outcome_bind_ret_inv in H as (ar & H & _). exists ar. destruct (activeRoutes s !! p); [by injection H as -> | done]. Qed.

Lemma deref_inv {A} (x : option A) a : deref x = Ret a -> x = Some a.
Proof. by destruct x; [intros [= ->]|]. Qed.

Lemma begin_inv X Y seq p s rs s' rs' : beginActive seq p (s, rs) = Ret (s', rs') ->
  inv (list_to_set rs ∪ X) Y s -> inv (list_to_set rs' ∪ X) Y s'.
Proof.
  unfold beginActive. cbn [fst snd]. intros H Hi. apply outcome_bind_ret_inv in H as (e & He%deref_inv & H).
  destruct (routesBySource e !! bestNeighbor e) as [r|]; [|by injection H as <- <-]. destruct (bool_decide _) eqn:Ea; [by injection H as <- <-|]. injection H as <- <-.
  assert (Hi' : inv (list_to_set (rs ++ [p]) ∪ X) Y (logged [Rib (RibRemove p)] s)).
  { apply inv_logged. eapply inv_weaken, Hi; [|done]. rewrite list_to_set_app_L. set_solver -. }
  unfold openActive. apply inv_insert; [| |apply inv_fewer; [| |exact Hi']].
  - assert (Hl : lists_ok (markRouteUnreachable (bestNeighbor e) e)) by (apply markRouteUnreachable_ok; by eapply i_lists).
    intros n Hn. specialize (Hl n Hn). cbn [routesBySource set_state on_routes]. rewrite lookup_fmap. by apply fmap_is_Some.
  - intros _. left. rewrite list_to_set_app_L. set_solver -.
  - intros n q Hq. cbn [pendingQueries] in Hq. cbn [activeRoutes logged] in *. destruct (activeRoutes s !! p) as [ar0|]; [by exists ar0|]. cbn in Hq. by rewrite lookup_empty in Hq.
  - left. rewrite list_to_set_app_L. set_solver -.
Qed.

Lemma queryNeighbor_inv X Y p n s b s' b' : queryNeighbor p n (s, b) = Ret (s', b') -> inv X Y s -> inv X Y s'.
Proof.
  unfold queryNeighbor. intros H Hi. apply outcome_bind_ret_inv in H as (ar & Har & H). apply outcome_bind_ret_inv in H as (nbr & Hnbr%deref_inv & H).
  destruct (_ || _); [by injection H as <- <-|]. cbv zeta in H. set (q := default _ _) in H. clearbody q.
  assert (Hs : inv X Y (startSIATimer p n q (next_id s))) by (apply inv_start; [right; by exists nbr | by apply inv_next_id]).
  destruct (n_unicast nbr); [|by injection H as <- <-]. apply outcome_bind_ret_inv in H as (r & _ & H). injection H as <- <-. by apply inv_logged.
Qed.

Lemma concludeEmpty_inv X Y now p s s' : concludeEmpty cfg v4 asn order now p s = Ret s' -> inv ({[p]} ∪ X) Y s -> inv X Y s'.
Proof.
  unfold concludeEmpty. intros H Hi. apply outcome_bind_ret_inv in H as (ar & Har%deref_inv & H). refine (proj1 (conclude_or_wait X Y now p ar s s' Har H Hi)).
Qed.

(** The prefixes that are opened wait for replies, or are decided at once. *)
Lemma setActive_inv X Y now ps seq s s' : setActive cfg v4 asn order now ps seq s = Ret s' -> inv X Y s -> inv X Y s'.
Proof.
  unfold setActive. intros H Hi. apply outcome_bind_ret_inv in H as ([s1 rs] & H1 & H). apply outcome_bind_ret_inv in H as ([s2 b] & H2 & H).
  apply outcome_bind_ret_inv in H as (s3 & H3 & H).
  assert (I1 : inv (list_to_set rs ∪ X) Y s1).
  { change (inv (list_to_set (s1, rs).2 ∪ X) Y (s1, rs).1). eapply (each_inv (fun sr => inv (list_to_set sr.2 ∪ X) Y sr.1)), H1; [intros p [t tr] [t' tr'] _ Ht Hb; by eapply begin_inv|].
    cbn. eapply inv_weaken, Hi; [|done]. set_solver -. }
  assert (I2 : inv (list_to_set rs ∪ X) Y s2).
  { change (inv (list_to_set rs ∪ X) Y (s2, b).1). eapply (each_inv (fun sb => inv (list_to_set rs ∪ X) Y sb.1)), H2; [|exact I1].
    intros p [t tb] t' _ Ht Hq. unfold queryNeighbors in Hq. eapply (each_inv (fun sb => inv (list_to_set rs ∪ X) Y sb.1)), Hq; [|exact Ht].
    intros n [u ub] [u' ub'] _ Hu Hn. by eapply queryNeighbor_inv. }
  assert (I3 : inv (list_to_set rs ∪ X) Y s3).
  { eapply (each_inv (inv (list_to_set rs ∪ X) Y)), H3; [|exact I2]. intros [i ps'] t t' _ Ht Hb. unfold sendBucket in Hb. apply outcome_bind_ret_inv in Hb as (l & _ & Hb).
    injection Hb as <-. by apply inv_logged. }
  clear -H I3 order_perm. revert s3 H I3. induction rs as [|p rs IH]; intros s3 H I3; cbn [each] in H.
  - injection H as <-. eapply inv_weaken, I3; [|done]. cbn. set_solver -.
  - apply outcome_bind_ret_inv in H as (s4 & H4 & H). apply (IH s4 H). eapply concludeEmpty_inv; [exact H4|]. eapply inv_weaken, I3; [|done]. cbn. set_solver -.
Qed.

Lemma updateSuccessors_inv X Y now ps s s' : updateSuccessors cfg v4 asn order now ps s = Ret s' -> inv X Y s -> inv X Y s'.
Proof.
  unfold updateSuccessors. intros H Hi. apply outcome_bind_ret_inv in H as ([s1 active] & H1 & H). apply outcome_bind_ret_inv in H as (s2 & H2 & H).
  assert (I1 : inv X Y s1).
  { change (inv X Y (s1, active).1). eapply (each_inv (fun sa => inv X Y sa.1)), H1; [|exact Hi]. intros p [t a] [t' a'] _ Ht Hb. cbn [fst snd] in *.
    apply outcome_bind_ret_inv in Hb as (e & He%deref_inv & Hb). pose proof (recalc_ok cfg order order_perm e (i_lists _ _ _ Ht p e He)) as Hl.
    pose proof (recalc_state cfg order e) as Hs. destruct (recalculateSuccessors cfg order e) as [e' ok]. cbn [fst] in *. injection Hb as <- <-.
    apply inv_insert; [exact Hl | | exact Ht]. intros Ha. right. exists e. split; [exact He|]. destruct Hs; congruence. }
  assert (I2 : inv X Y s2) by (by eapply synchronize_inv).
  destruct active; [by injection H as <- | by eapply setActive_inv].
Qed.

(** ** What neighbors send *)

Lemma receivedActive_inv X Y now n route s s' : processReceivedActiveRoute cfg v4 asn order now n route s = Ret s' -> inv X Y s -> inv X Y s'.
Proof.
  unfold processReceivedActiveRoute. intros H Hi. set (p := r_prefix route) in *. destruct (activeRoutes s !! p) as [ar|] eqn:Er; [|by injection H as <-].
  assert (Hsame : forall ar', pendingQueries ar' = pendingQueries ar -> inv ({[p]} ∪ X) Y (on_active (insert p ar') s)).
  { intros ar' E. apply inv_fewer; [|left; set_solver -|by eapply inv_weaken, Hi; [set_solver -|]]. intros m q Hq. exists ar. by rewrite <- E. }
  destruct (bool_decide (n = originNeighbor ar)); [|destruct (pendingQueries ar !! n) as [q|] eqn:Eq]; cbv beta iota zeta in H.
  1, 3: refine (proj1 (conclude_or_wait X Y now p _ _ s' _ H _)); [cbn; apply lookup_insert_eq | by apply Hsame].
  refine (proj1 (conclude_or_wait X Y now p _ _ s' _ H _)); [cbn [activeRoutes on_active]; apply lookup_insert_eq |].
  set (come := set_possible _ ar).
  assert (Hc : inv X Y (on_active (insert p come) s)).
  { apply inv_fewer; [intros m q' Hq'; by exists ar | right; intros E; change (pendingQueries ar = ∅) in E; by rewrite E, lookup_empty in Eq | exact Hi]. }
  assert (Hcr : activeRoutes (on_active (insert p come) s) !! p = Some come) by (cbn; apply lookup_insert_eq).
  assert (Eins : forall t, on_active (insert p (set_pending (delete n) come)) (on_active (insert p come) t) = on_active (insert p (set_pending (delete n) come)) t)
    by (intros t; unfold on_active; cbn; by rewrite insert_insert_eq).
  unfold cancelSIATimer. destruct (siaTimerId q =? 0).
  - rewrite <- Eins. by apply inv_drop.
  - assert (Hd := inv_drop_cancel X Y p come n q _ (siaTimerId q) Hcr Eq).
    rewrite Eins in Hd. apply Hd; [|exact Hc]. intros t Ht. pose proof (i_timer _ _ _ Hi p ar n q Er Eq) as Ht'. cbn in Ht. rewrite Ht' in Ht. by injection Ht as <-.
Qed.

Lemma receivedUpdate_inv X Y now n l s s' : processReceivedRoutes cfg v4 asn order now n l s = Ret s' -> inv X Y s -> inv X Y s'.
Proof.
  unfold processReceivedRoutes. intros H Hi. apply outcome_bind_ret_inv in H as (nbr & _ & H). apply outcome_bind_ret_inv in H as ([s1 rc] & H1 & H).
  apply outcome_bind_ret_inv in H as (s2 & H2 & H).
  assert (I1 : inv X Y s1).
  { change (inv X Y (s1, rc).1). eapply (each_inv (fun sr => inv X Y sr.1)), H1; [|exact Hi]. intros route [t r] [t' r'] _ Ht Hb. cbn [fst snd] in *.
    unfold receiveRoute in Hb. destruct (_ || _); [by injection Hb as <- <-|]. cbv zeta in Hb. apply outcome_bind_ret_inv in Hb as (e & _ & Hb).
    assert (It : inv X Y (storeRoute now route (Some n) (r_prefix route) (on_entries (ensure (r_prefix route)) t))) by (apply inv_storeRoute, inv_ensure, Ht).
    destruct (bool_decide _); [|by injection Hb as <- <-]. apply outcome_bind_ret_inv in Hb as (s3 & H3 & Hb). injection Hb as <- <-. by eapply receivedActive_inv. }
  assert (I2 : inv X Y s2).
  { destruct (rc_poison rc); [by injection H2 as <-|]. apply outcome_bind_ret_inv in H2 as (l' & _ & H2). injection H2 as <-. by apply inv_logged. }
  by eapply updateSuccessors_inv.
Qed.

Lemma query_inv X Y now n l seq s s' : processReceivedQueryRoutes cfg v4 asn order now n l seq s = Ret s' -> inv X Y s -> inv X Y s'.
Proof.
  unfold processReceivedQueryRoutes. intros H Hi. apply outcome_bind_ret_inv in H as ([s1 qd] & H1 & H). apply outcome_bind_ret_inv in H as (s2 & H2 & H).
  assert (I1 : inv X Y s1).
  { change (inv X Y (s1, qd).1). eapply (each_inv (fun sr => inv X Y sr.1)), H1; [|exact Hi]. intros route [t r] [t' r'] _ Ht Hb. cbn [fst snd] in *.
    unfold queryRoute in Hb. cbv zeta in Hb. apply outcome_bind_ret_inv in Hb as (e & He%deref_inv & Hb). set (p := r_prefix route) in *.
    assert (It : inv X Y (storeRoute now route (Some n) p (on_entries (ensure p) t))) by (apply inv_storeRoute, inv_ensure, Ht).
    pose proof (recalc_ok cfg order order_perm e (i_lists _ _ _ It p e He)) as Hl. pose proof (recalc_state cfg order e) as Hs.
    destruct (recalculateSuccessors cfg order e) as [e' ok]. cbn [fst] in *.
    assert (Hins : inv X Y (on_entries (insert p e') (storeRoute now route (Some n) p (on_entries (ensure p) t)))).
    { apply inv_insert; [exact Hl | | exact It]. intros Ha. right. exists e. split; [exact He|]. destruct Hs; congruence. }
    destruct (if ok then _ else _); injection Hb as <- _; exact Hins. }
  assert (I2 : inv X Y s2).
  { destruct (qd_replies qd); [by injection H2 as <-|]. apply outcome_bind_ret_inv in H2 as (l' & _ & H2). injection H2 as <-. by apply inv_logged. }
  destruct (qd_activate qd); [by injection H as <- | by eapply setActive_inv].
Qed.

Lemma siaReply_inv X Y n seq s : inv X Y s -> inv X Y (processSIAReply orderP n seq s).
Proof.
  unfold processSIAReply. generalize (orderP (dom (activeRoutes s))). intros l. revert s. induction l as [|p l IH]; intros s Hi; cbn [foldl]; [exact Hi|]. apply IH.
  destruct (activeRoutes s !! p) as [ar|] eqn:Er; [|exact Hi]. destruct (pendingQueries ar !! n) as [q|] eqn:Eq; [|exact Hi]. destruct (siaSequence q =? seq); [|exact Hi].
  pose proof (i_timer _ _ _ Hi p ar n q Er Eq) as Ht. pose proof (i_fresh _ _ _ Hi _ _ Ht). unfold cancelSIATimer. destruct (Z.eqb_spec (siaTimerId q) 0); [lia|].
  eapply inv_restart; [exact Er | exact Eq | | exact Hi]. intros t Ht'. rewrite Ht in Ht'. by injection Ht' as <-.
Qed.

(** ** Neighbors that go down *)

(** Once the queries to a neighbor are gone from every record, it may be. *)
Lemma removePending_inv X Y now n l : forall s s', each (removePending cfg v4 asn order now n) l s = Ret s' ->
  (forall p ar, activeRoutes s !! p = Some ar -> is_Some (pendingQueries ar !! n) -> p ∈ l) -> inv X ({[n]} ∪ Y) s -> inv X Y s'.
Proof.
  induction l as [|p l IH]; intros s s' H Hin Hi; cbn [each] in H.
  - injection H as <-. destruct Hi as [H1 H2 H3 H4 H5 H6]. split; try assumption. intros p ar m q Hr Hq Hm. apply (H4 p ar m q Hr Hq).
    rewrite elem_of_union, elem_of_singleton. intros [->|]; [|done]. apply (not_elem_of_nil p), (Hin p ar Hr). by exists q.
  - apply outcome_bind_ret_inv in H as (s1 & H1 & H). unfold removePending in H1. apply outcome_bind_ret_inv in H1 as (ar & Har%deref_inv & H1).
    destruct (pendingQueries ar !! n) as [q|] eqn:Eq.
    + cbv zeta in H1. set (s2 := on_active _ s) in H1.
      assert (Hr2 : activeRoutes s2 !! p = Some (set_pending (delete n) ar)) by (cbn; apply lookup_insert_eq).
      destruct (conclude_or_wait X ({[n]} ∪ Y) now p _ s2 s1 Hr2 H1 (inv_drop _ _ p ar n s Har Hi)) as [I1 Ha]. apply (IH s1 s' H); [|exact I1].
      intros p' ar' Hr' Hs. assert (Hr2' : activeRoutes s2 !! p' = Some ar') by (destruct Ha as [Ha|Ha]; rewrite Ha in Hr'; [done | by apply lookup_delete_Some in Hr' as [_ ?]]).
      destruct (decide (p' = p)) as [->|Hne].
      * rewrite Hr2 in Hr2'. injection Hr2' as <-. cbn in Hs. rewrite lookup_delete_eq in Hs. by destruct Hs.
      * cbn in Hr2'. rewrite lookup_insert_ne in Hr2' by done. by pose proof (Hin p' ar' Hr2' Hs) as [|]%elem_of_cons.
    + injection H1 as <-. apply (IH s s' H); [|exact Hi]. intros p' ar' Hr' Hs. pose proof (Hin p' ar' Hr' Hs) as [->|]%elem_of_cons; [|done].
      rewrite Har in Hr'. injection Hr' as <-. rewrite Eq in Hs. by destruct Hs.
Qed.

Lemma pruneNeighbor_inv X Y now n s : inv X Y s -> inv X Y (on_entries (pruneNeighbor now n) s).
Proof.
  intros Hi. apply inv_entries; [|exact Hi]. intros p e' He. unfold pruneNeighbor, pruneExpired in He. apply map_lookup_filter_Some in He as [He _].
  rewrite lookup_fmap in He. apply fmap_Some in He as (e & He & ->). split; [apply pruneEntry_ok; by eapply i_lists|]. intros Ha _. exists e. split; [exact He|].
  unfold pruneEntry in Ha. by destruct (routesBySource e !! n).
Qed.

Lemma neighborDown_inv X Y now n s s' : onNeighborDown cfg v4 asn order orderP now n s = Ret s' -> inv X ({[n]} ∪ Y) s -> inv X Y s'.
Proof.
  unfold onNeighborDown. intros H Hi. cbv zeta in H. apply outcome_bind_ret_inv in H as (s1 & H1 & H). eapply updateSuccessors_inv; [exact H|]. apply pruneNeighbor_inv.
  unfold removeActiveNeighbor in H1. eapply removePending_inv; [exact H1 | |].
  - intros p ar Hr _. rewrite orderP_perm, elem_of_elements. by apply elem_of_dom_2 in Hr.
  - apply inv_entries; [|exact Hi]. intros p e' He. rewrite lookup_fmap in He. apply fmap_Some in He as (e & He & ->).
    split; [apply loseRoute_ok; by eapply i_lists|]. intros Ha _. exists e. split; [exact He|]. unfold loseRoute in Ha. by destruct (routesBySource e !! n).
Qed.

Lemma onDown_inv X Y now n s s' : onDown cfg v4 asn order orderP now n s = Ret s' -> inv X Y s -> inv X Y s'.
Proof.
  unfold onDown. intros H Hi. eapply neighborDown_inv; [exact H|]. apply inv_logged. destruct Hi as [H1 H2 H3 H4 H5 H6]. split; try assumption.
  intros p ar m q Hr Hq Hm. cbn. rewrite elem_of_union, elem_of_singleton in Hm. rewrite lookup_delete_ne; [eapply H4; eauto | intros ->]; tauto.
Qed.

(** A timer that fires is gone; the query is sent again with a new one, or its
    neighbor goes down. *)
Lemma fireTimer_inv X Y now seq id t s s' : timers s !! id = Some t -> fireTimer cfg v4 asn order orderP now seq t (on_timers (delete id) s) = Ret s' -> inv X Y s -> inv X Y s'.
Proof.
  intros Ht H Hi. unfold fireTimer in H. apply outcome_bind_ret_inv in H as (ar & Har%deref_inv & H). apply outcome_bind_ret_inv in H as (q & Hq%deref_inv & H).
  apply outcome_bind_ret_inv in H as (nbr & _ & H). destruct (_ =? _)%nat; [|done]. set (p := t_prefix t) in *. set (n := t_nbr t) in *. cbn [activeRoutes on_timers] in Har.
  assert (Hid : forall t', timers s !! id = Some t' -> t_prefix t' = p /\ t_nbr t' = n) by (intros t' Ht'; rewrite Ht in Ht'; by injection Ht' as <-).
  unfold handleSIATimeout in H. destruct (siaAttempts q <? 4).
  - apply outcome_bind_ret_inv in H as (r & _ & H). injection H as <-.
    exact (inv_restart X Y p ar n q _ id (logged [SendSIAQuery n r] s) Har Hq Hid (inv_logged _ _ _ _ Hi)).
  - cbv zeta in H. pose proof (inv_drop_cancel X Y p ar n q s id Har Hq Hid Hi) as Hd.
    assert (E : on_active (alter (set_pending (delete n)) p) (on_timers (delete id) s) = on_timers (delete id) (on_active (insert p (set_pending (delete n) ar)) s)).
    { unfold on_active, on_timers. cbn. f_equal. apply map_eq. intros p'. destruct (decide (p' = p)) as [->|Hne];
        [by rewrite lookup_alter_eq, lookup_insert_eq, Har | by rewrite lookup_alter_ne, lookup_insert_ne]. }
    rewrite E in H. set (s1 := on_timers _ _) in *. apply outcome_bind_ret_inv in H as (ar1 & Har1%deref_inv & H). apply outcome_bind_ret_inv in H as (s2 & H2 & H).
    destruct (decide (pendingQueries ar1 = ∅)).
    + eapply conclude_inv; [exact H|]. by eapply onDown_inv.
    + injection H as <-. eapply onDown_inv; [exact H2|]. by eapply inv_waiting.
Qed.

(** ** Connected routes *)

Lemma installConnected_inv X Y now route ps : forall s, inv X Y s -> inv X Y (foldl (fun s p => installConnected now route p s) s ps).
Proof. induction ps as [|p ps IH]; intros s Hi; cbn [foldl]; [exact Hi|]. apply IH. unfold installConnected. cbv zeta. by apply inv_storeRoute, inv_ensure. Qed.

Lemma dropConnected_inv X Y c ps : forall s, inv X Y s -> inv X Y (dropConnected c ps s).
Proof.
  unfold dropConnected. induction ps as [|p ps IH]; intros s Hi; cbn [foldl]; [exact Hi|]. apply IH, inv_alter, Hi. intros e He. split; [by apply markRouteUnreachable_ok | done].
Qed.

(** ** Every event keeps the invariant *)

Lemma handle_inv now ev s s' : handle cfg v4 asn order orderP now ev s = Ret s' -> inv ∅ ∅ s -> inv ∅ ∅ s'.
Proof.
  intros H Hi. destruct ev; cbn [handle] in H.
  - destruct (decide _); [by eapply receivedUpdate_inv | by injection H as <-].
  - destruct (decide _); [|by injection H as <-]. unfold processReceivedActiveRoutes in H. eapply (each_inv (inv ∅ ∅)), H; [|exact Hi]. intros r t t' _ Ht Hr. by eapply receivedActive_inv.
  - destruct (decide _); [by eapply query_inv | by injection H as <-].
  - injection H as <-. by apply siaReply_inv.
  - injection H as <-. destruct (allNeighbors s !! n); [exact Hi|]. destruct Hi as [H1 H2 H3 H4 H5 H6]. split; try assumption.
    intros p ar m q Hr Hq Hm. cbn. apply lookup_insert_is_Some'. right. by eapply H4.
  - destruct (decide _); [by eapply onDown_inv | by injection H as <-].
  - destruct (decide _); [|by injection H as <-]. eapply neighborDown_inv; [exact H|]. eapply inv_weaken, Hi; [done | apply empty_subseteq].
  - destruct (timers s !! id) as [t|] eqn:Et; [by eapply fireTimer_inv | by injection H as <-].
  - injection H as <-. apply inv_entries; [|exact Hi]. intros p e He. unfold pruneExpired in He. apply map_lookup_filter_Some in He as [He _]. split; [by eapply i_lists|]. intros Ha _. by exists e.
  - unfold synchronizeConnected in H. cbv zeta in H. eapply updateSuccessors_inv; [exact H|]. apply dropConnected_inv, installConnected_inv, inv_connected, Hi.
  - unfold clearConnected in H. cbv zeta in H. apply outcome_bind_ret_inv in H as (s1 & H1 & H). eapply synchronize_inv; [exact H|].
    eapply updateSuccessors_inv; [exact H1|]. by apply dropConnected_inv, inv_connected.
Qed.

Lemma dual_reach_inv s : reach cfg v4 asn order orderP s -> inv ∅ ∅ s.
Proof. induction 1 as [|now ev s s' _ IH H]; [apply inv_new | by eapply handle_inv]. Qed.

(** C5: Whatever packets, timers and changes of neighbors and interfaces the engine
    has gone through: a prefix that is active waits for the reply of some
    neighbor, the neighbor is there, and a scheduled timer watches the query;
    the successors of every prefix have a route. So an active prefix never
    waits for nothing. *)
Theorem active_prefix_waits s : reach cfg v4 asn order orderP s ->
  (forall p e, entries s !! p = Some e -> e_state e = ACTIVE ->
     exists ar n q, activeRoutes s !! p = Some ar /\ pendingQueries ar !! n = Some q /\ is_Some (allNeighbors s !! n) /\
       timers s !! siaTimerId q = Some (mkTimer p n (q_id q))) /\
  (forall p e n, entries s !! p = Some e -> n ∈ successors e -> is_Some (routesBySource e !! n)).
Proof.
  intros Hr. apply dual_reach_inv in Hr. split.
  - intros p e He Ha. destruct (i_waits _ _ _ Hr p e He Ha (not_elem_of_empty p)) as (ar & Har & Hne).
    apply map_choose in Hne as (n & q & Hq). exists ar, n, q. split; [exact Har|]. split; [exact Hq|]. split; [|by eapply i_timer].
    by apply (i_known _ _ _ Hr p ar n q Har Hq), not_elem_of_empty.
  - intros p e n He Hn. apply (i_lists _ _ _ Hr p e He). by left.
Qed.
End Steps.
