(* ===== verification/EigrpEvents.v ===== *)
(** * EigrpEvents: what the DUAL engine does with three events

    Neighbors that go down, and queries for prefixes that are active already.
    A frame relation says what a step of the engine leaves alone: the
    neighbors, the timers that are scheduled, and the prefixes it is not
    about. *)

From S2P Require Import Prelude IPAddress RibBucket EigrpTopology EigrpDual.

(** ** What a step leaves alone *)

Record frame (P : IPPrefix -> Prop) (s s' : Dual) : Prop := mkFrame {
  f_neighbors : allNeighbors s' = allNeighbors s;
  f_next : nextTimer s <= nextTimer s';
  f_timers id : id < nextTimer s -> timers s' !! id = timers s !! id;
  f_prefix p : ~ P p -> entries s' !! p = entries s !! p /\ activeRoutes s' !! p = activeRoutes s !! p }.

Lemma untouched_refl P s : frame P s s.
Proof. by split. Qed.

Lemma untouched_trans P s1 s2 s3 : frame P s1 s2 -> frame P s2 s3 -> frame P s1 s3.
Proof.
  intros [A1 A2 A3 A4] [B1 B2 B3 B4]. split; [congruence | lia | |].
  - intros id Hid. rewrite B3, A3; [done | lia..].
  - intros p Hp. destruct (A4 p Hp), (B4 p Hp). split; congruence.
Qed.

Lemma frame_mono (P Q : IPPrefix -> Prop) s s' : (forall p, P p -> Q p) -> frame P s s' -> frame Q s s'.
Proof. intros HPQ [A1 A2 A3 A4]. split; [exact A1 | exact A2 | exact A3 |]. intros p Hp. apply A4. auto. Qed.

Lemma frame_logged P l s : frame P s (logged l s).
Proof. by split. Qed.

Lemma frame_next_id P s : frame P s (next_id s).
Proof. by split. Qed.

Lemma frame_insert (P : IPPrefix -> Prop) p e s : P p -> frame P s (on_entries (insert p e) s).
Proof. intros Hp. split; [done | done | done |]. intros q Hq. cbn. by rewrite lookup_insert_ne by congruence. Qed.

Lemma frame_alter (P : IPPrefix -> Prop) p f s : P p -> frame P s (on_entries (alter f p) s).
Proof. intros Hp. split; [done | done | done |]. intros q Hq. cbn. by rewrite lookup_alter_ne by congruence. Qed.

Lemma frame_active (P : IPPrefix -> Prop) p ar s : P p -> frame P s (on_active (insert p ar) s).
Proof. intros Hp. split; [done | done | done |]. intros q Hq. cbn. by rewrite lookup_insert_ne by congruence. Qed.

Lemma frame_conclude (P : IPPrefix -> Prop) p s : P p -> frame P s (on_active (delete p) s).
Proof. intros Hp. split; [done | done | done |]. intros q Hq. cbn. by rewrite lookup_delete_ne by congruence. Qed.

Lemma frame_start (P : IPPrefix -> Prop) p n q s : P p -> frame P s (startSIATimer p n q s).
Proof.
  intros Hp. split; unfold startSIATimer; cbn; [done | lia | |].
  - intros id Hid. by rewrite lookup_insert_ne by lia.
  - intros p' Hp'. by rewrite lookup_alter_ne by congruence.
Qed.

Lemma frame_each {A} P (f : A -> Dual -> outcome Dual) l s s' :
  (forall a t t', a ∈ l -> f a t = Ret t' -> frame P t t') -> each f l s = Ret s' -> frame P s s'.
Proof.
  intros Hf H. eapply (each_inv (frame P s)), H; [|apply untouched_refl]. intros a t t' Ha Ht Hft. eapply untouched_trans; [exact Ht | by eapply (Hf a)].
Qed.

(** ** The steps *)

Section Frames.
Context (cfg : EigrpConfig) (v4 : bool) (asn : Z).
Context (order : gset IPAddress -> list IPAddress) (orderP : gset IPPrefix -> list IPPrefix).
Context (order_perm : forall X, order X ≡ₚ elements X) (orderP_perm : forall X, orderP X ≡ₚ elements X).

Lemma storePossible_frame (P : IPPrefix -> Prop) now p l : P p -> forall s, frame P s (storePossible now p l s).
Proof.
  intros Hp. unfold storePossible. induction l as [|[n r] l IH]; intros s; cbn [foldl fst snd]; [apply untouched_refl|].
  eapply untouched_trans, IH. destruct (allNeighbors s !! n); [|apply untouched_refl]. eapply untouched_trans, frame_next_id. by apply frame_alter.
Qed.

Lemma conclude_frame (P : IPPrefix -> Prop) now p s s' : P p -> concludeActive cfg v4 asn order now p s = Ret s' -> frame P s s'.
Proof.
  intros Hp H. unfold concludeActive in H. apply outcome_bind_ret_inv in H as (ar & _ & H). destruct (entries s !! p); [|injection H as <-; apply untouched_refl].
  cbv zeta in H. apply outcome_bind_ret_inv in H as (e & _ & H). apply synchronize_logs in H as [l ->].
  eapply untouched_trans; [apply (storePossible_frame P now p (possibleRoutes ar) Hp)|]. eapply untouched_trans; [by apply (frame_alter P p (decideEntry cfg order now))|].
  eapply untouched_trans, frame_logged. eapply untouched_trans; [apply frame_logged|]. by apply frame_conclude.
Qed.

(** Whether a prefix that lost its successors goes active. *)
Definition opens (e : TopologyEntry) : Prop := is_Some (routesBySource e !! bestNeighbor e) /\ e_state e <> ACTIVE.

#[local] Instance opens_dec e : Decision (opens e).
Proof. unfold opens. apply _. Defined.

Lemma begin_frame (P : IPPrefix -> Prop) seq p s rs s' rs' : (forall e, entries s !! p = Some e -> opens e -> P p) -> Forall P rs ->
  beginActive seq p (s, rs) = Ret (s', rs') -> frame P s s' /\ Forall P rs'.
Proof.
  intros Hp Hrs H. unfold beginActive in H. cbn [fst snd] in H. apply outcome_bind_ret_inv in H as (e & He%deref_inv & H).
  destruct (routesBySource e !! bestNeighbor e) as [r|] eqn:Er; [|injection H as <- <-; split; [apply untouched_refl | done]].
  case_bool_decide as Ea; injection H as <- <-; [split; [apply untouched_refl | done]|].
  assert (HP : P p) by (apply (Hp e He); split; [by exists r | exact Ea]). split; [|by apply Forall_app; split; [|constructor]].
  unfold openActive. eapply untouched_trans; [|by apply frame_insert]. eapply untouched_trans; [|by apply frame_active]. apply frame_logged.
Qed.

Lemma queryNeighbor_frame (P : IPPrefix -> Prop) p n s b s' b' : P p -> queryNeighbor p n (s, b) = Ret (s', b') -> frame P s s'.
Proof.
  intros Hp H. unfold queryNeighbor in H. apply outcome_bind_ret_inv in H as (ar & _ & H). apply outcome_bind_ret_inv in H as (nbr & _ & H).
  destruct (_ || _); [injection H as <- <-; apply untouched_refl|]. cbv zeta in H. set (q := default _ _) in H.
  assert (Hf : frame P s (startSIATimer p n q (next_id s))) by (eapply untouched_trans; [apply frame_next_id | by apply frame_start]).
  destruct (n_unicast nbr); [|by injection H as <- <-]. apply outcome_bind_ret_inv in H as (r & _ & H). injection H as <- <-. eapply untouched_trans; [exact Hf | apply frame_logged].
Qed.

(** Only prefixes that open are touched, and of those that do nothing else is. *)
Lemma setActive_frame now ps seq s s' : setActive cfg v4 asn order now ps seq s = Ret s' ->
  frame (fun p => p ∈ ps /\ exists e, entries s !! p = Some e /\ opens e) s s'.
Proof.
  set (P := fun p => _). intros H. unfold setActive in H. apply outcome_bind_ret_inv in H as ([s1 rs] & H1 & H). apply outcome_bind_ret_inv in H as ([s2 b] & H2 & H).
  apply outcome_bind_ret_inv in H as (s3 & H3 & H).
  assert (I1 : frame P s s1 /\ Forall P rs).
  { change (frame P s (s1, rs).1 /\ Forall P (s1, rs).2). eapply (each_inv (fun sr => frame P s sr.1 /\ Forall P sr.2)), H1; [|split; [apply untouched_refl | constructor]].
    intros p [t tr] [t' tr'] Hin [Ht Htr] Hb. cbn [fst snd] in *.
    apply (begin_frame P) in Hb as [Hf Hall]; [split; [by eapply untouched_trans | exact Hall] | | exact Htr].
    intros e He Ho. split; [exact Hin|].
    assert (Hnot : ~ P p -> entries s !! p = Some e) by (intros Hn; destruct (f_prefix _ _ _ Ht p Hn) as [E _]; congruence).
    destruct (entries s !! p) as [e0|] eqn:E0; [destruct (decide (opens e0)) as [|Hc]; [by exists e0|]|];
      (assert (Hn : ~ P p) by (intros (_ & e1 & He1 & Ho1); congruence)); specialize (Hnot Hn); exists e; by split. }
  destruct I1 as [I1 Hall]. rewrite Forall_forall in Hall.
  assert (I2 : frame P s1 s2).
  { change (frame P s1 (s2, b).1). eapply (each_inv (fun sb => frame P s1 sb.1)), H2; [|apply untouched_refl].
    intros p [t tb] t' Hin Ht Hq. unfold queryNeighbors in Hq. eapply (each_inv (fun sb => frame P s1 sb.1)), Hq; [|exact Ht].
    intros n [u ub] [u' ub'] _ Hu Hn. cbn [fst] in *. eapply untouched_trans; [exact Hu|]. eapply queryNeighbor_frame; [by apply Hall | exact Hn]. }
  assert (I3 : frame P s2 s3).
  { eapply frame_each; [|exact H3]. intros [i ps'] t t' _ Hb. unfold sendBucket in Hb. apply outcome_bind_ret_inv in Hb as (l & _ & Hb). injection Hb as <-. apply frame_logged. }
  eapply untouched_trans; [exact I1|]. eapply untouched_trans; [exact I2|]. eapply untouched_trans; [exact I3|]. eapply frame_each; [|exact H].
  intros p t t' Hin Hc. unfold concludeEmpty in Hc. apply outcome_bind_ret_inv in Hc as (ar & _ & Hc). destruct (decide _); [|injection Hc as <-; apply untouched_refl].
  eapply conclude_frame; [by apply Hall | exact Hc].
Qed.

(** The recomputation of a list of prefixes without repetitions. *)
Lemma recalc_loop ps : forall s a s' a', NoDup ps ->
  each (fun p (sa : Dual * list IPPrefix) =>
      e ← deref (entries sa.1 !! p);
      let '(e, ok) := recalculateSuccessors cfg order e in
      Ret (on_entries (insert p e) sa.1, if ok then sa.2 else sa.2 ++ [p])) ps (s, a) = Ret (s', a') ->
  frame (fun p => p ∈ ps) s s' /\ activeRoutes s' = activeRoutes s /\
  (forall p, p ∈ ps -> exists e, entries s !! p = Some e /\ entries s' !! p = Some (recalculateSuccessors cfg order e).1) /\ (forall p, p ∈ a' -> p ∈ ps \/ p ∈ a).
Proof.
  induction ps as [|p ps IH]; intros s a s' a' Hd H; cbn [each] in H.
  - injection H as <- <-. split; [apply untouched_refl|]. split; [done|]. split; [intros p Hp; by apply elem_of_nil in Hp | auto].
  - apply NoDup_cons in Hd as [Hp Hd]. apply outcome_bind_ret_inv in H as ([s1 a1] & H1 & H). cbn [fst snd] in H1.
    apply outcome_bind_ret_inv in H1 as (e & He%deref_inv & H1). destruct (recalculateSuccessors cfg order e) as [e1 ok] eqn:Er. injection H1 as <- <-.
    destruct (IH _ _ _ _ Hd H) as (Hf & Ha & Hall & Hin). split; [|split; [exact Ha|split]].
    + eapply untouched_trans; [|eapply frame_mono, Hf; intros q Hq; by right]. apply frame_insert. left.
    + intros q [->|Hq]%elem_of_cons.
      * exists e. split; [exact He|]. rewrite (proj1 (f_prefix _ _ _ Hf p Hp)), Er. apply lookup_insert_eq.
      * destruct (Hall q Hq) as (e2 & He2 & Hs'). exists e2. split; [|exact Hs']. cbn in He2. rewrite lookup_insert_ne in He2 by congruence. exact He2.
    + intros q Hq. destruct (Hin q Hq) as [|Hq']; [left; by right|]. destruct ok; [by right|]. apply elem_of_app in Hq' as [| ->%list_elem_of_singleton]; [by right | left; left].
Qed.

(** An update touches the given prefixes; one that does not open keeps what the
    recomputation gives it. *)
Lemma update_frame now ps s s' : NoDup ps -> updateSuccessors cfg v4 asn order now ps s = Ret s' ->
  frame (fun p => p ∈ ps) s s' /\
  (forall p, p ∈ ps -> exists e, entries s !! p = Some e /\
     (~ opens (recalculateSuccessors cfg order e).1 -> entries s' !! p = Some (recalculateSuccessors cfg order e).1 /\ activeRoutes s' !! p = activeRoutes s !! p)).
Proof.
  intros Hd H. unfold updateSuccessors in H. apply outcome_bind_ret_inv in H as ([s1 a] & H1 & H). apply outcome_bind_ret_inv in H as (s2 & [l ->]%synchronize_logs & H).
  destruct (recalc_loop ps s [] s1 a Hd H1) as (Hf & Ha & Hall & Hin).
  assert (Hset : frame (fun p => p ∈ a /\ exists e, entries s1 !! p = Some e /\ opens e) s1 s').
  { destruct a as [|p0 a0]; [injection H as <-; apply frame_logged|]. apply setActive_frame in H.
    eapply untouched_trans; [apply frame_logged|]. exact H. }
  split.
  - eapply untouched_trans; [exact Hf|]. eapply frame_mono, Hset. intros p [Hp _]. destruct (Hin p Hp) as [|Hn]; [done | by apply elem_of_nil in Hn].
  - intros p Hp. destruct (Hall p Hp) as (e & He & He1). exists e. split; [exact He|]. intros Hn. destruct (f_prefix _ _ _ Hset p) as [E1 E2].
    + intros (_ & e1 & He1' & Ho). rewrite He1 in He1'. by injection He1' as <-.
    + by rewrite E1, E2, He1, Ha.
Qed.

Lemma removeActive_frame now n s s' : removeActiveNeighbor cfg v4 asn order orderP now n s = Ret s' -> frame (fun p => is_Some (activeRoutes s !! p)) s s'.
Proof.
  unfold removeActiveNeighbor. intros H. eapply frame_each; [|exact H]. intros p t t' Hin Hr. rewrite orderP_perm, elem_of_elements, elem_of_dom in Hin.
  unfold removePending in Hr. apply outcome_bind_ret_inv in Hr as (ar & _ & Hr). destruct (pendingQueries ar !! n); [|injection Hr as <-; apply untouched_refl]. cbv zeta in Hr.
  set (t1 := on_active _ t) in Hr. assert (H1 : frame (fun p => is_Some (activeRoutes s !! p)) t t1) by (by apply frame_active).
  destruct (decide _); [|by injection Hr as <-]. eapply untouched_trans; [exact H1|]. eapply conclude_frame; [exact Hin | exact Hr].
Qed.

Lemma affected_elem n t p : p ∈ affectedBy orderP n t <-> exists e, t !! p = Some e /\ is_Some (routesBySource e !! n).
Proof.
  unfold affectedBy. rewrite list_elem_of_In, filter_In, <- list_elem_of_In, orderP_perm, elem_of_elements, elem_of_dom. split.
  - intros [[e He] Hb]. exists e. rewrite He in *. split; [done|]. by apply bool_decide_eq_true in Hb.
  - intros (e & He & Hr). split; [by exists e|]. rewrite He. by apply bool_decide_eq_true.
Qed.

Lemma affected_nodup n t : NoDup (affectedBy orderP n t).
Proof. apply NoDup_ListNoDup, List.NoDup_filter, NoDup_ListNoDup. rewrite orderP_perm. apply NoDup_elements. Qed.

(** Neighbors and timers, when a neighbor goes down. *)
Lemma neighborDown_timers now n s s' : onNeighborDown cfg v4 asn order orderP now n s = Ret s' ->
  allNeighbors s' = allNeighbors s /\ forall id, id < nextTimer s -> timers s' !! id = timers s !! id.
Proof.
  unfold onNeighborDown. cbv zeta. intros H. apply outcome_bind_ret_inv in H as (s1 & H1%removeActive_frame & H).
  apply update_frame in H as [H2 _]; [|apply affected_nodup]. destruct H1 as [A1 A2 A3 _], H2 as [B1 B2 B3 _]. cbn in *. split; [congruence|]. intros id Hid. rewrite B3, A3; [done | lia..].
Qed.
End Frames.

(** ** The events *)

Section Events.
Context (cfg : EigrpConfig) (v4 : bool) (asn : Z).
Context (order : gset IPAddress -> list IPAddress) (orderP : gset IPPrefix -> list IPPrefix).
Context (order_perm : forall X, order X ≡ₚ elements X) (orderP_perm : forall X, orderP X ≡ₚ elements X).

(** Without a reachable route a recomputation empties the lists of an entry and
    changes nothing else that is read here. *)
Lemma recalc_unreachable e : (forall n r, routesBySource e !! n = Some r -> reachable r = false) ->
  (forall n, n ∉ successors e) ->
  let (e', ok) := recalculateSuccessors cfg order e in
  ok = false /\ successors e' = [] /\ e_state e' = e_state e /\ valid e' = valid e /\ bestNeighbor e' = bestNeighbor e /\ dom (routesBySource e') = dom (routesBySource e).
Proof.
  intros Hu He. unfold recalculateSuccessors. destruct (decide _) as [E|E].
  { split; [done|]. split; [|done]. destruct (successors e) as [|x l]; [done|]. destruct (He x). left. }
  pose proof (scanBest_spec (iterate order (routesBySource e)) max64 255 (bestNeighbor e) ltac:(lia)) as Hs.
  destruct (foldl scanBest _ _) as [[fd' ad'] n']. destruct Hs as (_ & _ & Hc).
  assert (Hn : forall f : RouteInfo -> bool, (forall r, f r = true -> reachable r = true) -> (List.filter (fun kv => f kv.2) (iterate order (routesBySource e))).*1 = []).
  { intros f Hf. destruct (_.*1) as [|x l] eqn:El; [done|]. assert (Hx : x ∈ x :: l) by left. rewrite <- El in Hx.
    apply (filter_iterate_elem order order_perm f) in Hx as (r & Hr & Hfr). apply Hf in Hfr. rewrite (Hu x r Hr) in Hfr. done. }
  rewrite (Hn (inVariance cfg fd')) by (intros r Hr; by apply andb_true_iff in Hr as [? _]). cbn. repeat (split; [done|]). split; [|by rewrite dom_fmap_L].
  destruct Hc as [[= _ _ ->]|(r & Hin & _ & _ & _ & Hr)]; [done|]. apply (iterate_elem order order_perm) in Hin. by rewrite (Hu _ _ Hin) in Hr.
Qed.

(** When a neighbor goes down the queries it has not answered are forgotten,
    their timers are not: each is still scheduled after that, and when it fires
    it uses the neighbor, which is gone. *)
Theorem dead_neighbor_timer now n s s' p ar q : reach cfg v4 asn order orderP s -> handle cfg v4 asn order orderP now (NeighborDown n) s = Ret s' ->
  activeRoutes s !! p = Some ar -> pendingQueries ar !! n = Some q ->
  timers s' !! siaTimerId q = Some (mkTimer p n (q_id q)) /\ forall now' seq, handle cfg v4 asn order orderP now' (SIATimer (siaTimerId q) seq) s' = UB.
Proof.
  intros Hr%dual_reach_inv H Har Hq; [|done..]. cbn [handle] in H. rewrite decide_True in H by (by eapply (i_known _ _ _ Hr); [..|apply not_elem_of_empty]).
  apply neighborDown_timers in H as [Hn Ht]; [|done..]. pose proof (i_timer _ _ _ Hr p ar n q Har Hq) as Hs. destruct (i_fresh _ _ _ Hr _ _ Hs) as [_ Hlt].
  assert (Hs' : timers s' !! siaTimerId q = Some (mkTimer p n (q_id q))) by (rewrite Ht; [exact Hs | exact Hlt]).
  split; [exact Hs'|]. intros now' seq. cbn [handle]. rewrite Hs'. unfold fireTimer. cbn [t_prefix t_nbr activeRoutes allNeighbors on_timers].
  destruct (activeRoutes s' !! p) as [ar'|]; [|done]. cbn [deref]. rewrite outcome_bind_ret_l. destruct (pendingQueries ar' !! n); [|done].
  cbn [deref]. rewrite outcome_bind_ret_l, Hn. cbn. by rewrite lookup_delete_eq.
Qed.

(** The neighbor whose route was the best goes down and no other route is
    reachable: the prefix is not queried about. The route is removed from the
    entry before the successors are looked for, and a prefix goes active only
    while it has a route of its best neighbor; the entry stays, passive, without
    successors, and is never set to expire. *)
Theorem lost_prefix_not_queried now n s s' p e : handle cfg v4 asn order orderP now (NeighborDown n) s = Ret s' -> is_Some (allNeighbors s !! n) ->
  entries s !! p = Some e -> lists_ok e -> bestNeighbor e = n -> is_Some (routesBySource e !! n) ->
  (forall m r, routesBySource e !! m = Some r -> m <> n -> reachable r = false /\ m ∉ successors e) -> valid e = None -> activeRoutes s !! p = None ->
  activeRoutes s' !! p = None /\
  exists e', entries s' !! p = Some e' /\ successors e' = [] /\ e_state e' = e_state e /\ valid e' = None /\ routesBySource e' !! n = None.
Proof.
  intros H Hn He Hl Hb Hr Hu Hv Ha. cbn [handle] in H. rewrite decide_True in H by done. unfold onDown, onNeighborDown in H. cbv zeta in H.
  apply outcome_bind_ret_inv in H as (s1 & H1 & H). apply removeActive_frame in H1; [|done..]. cbn [entries logged on_neighbors on_entries] in H.
  destruct (f_prefix _ _ _ H1 p) as [E1 A1]; [cbn; rewrite Ha; by intros [? ?]|]. cbn in E1, A1. rewrite lookup_fmap, He in E1. cbn in E1.
  apply update_frame in H as [_ H]; [|by apply affected_nodup]. destruct (H p) as (e0 & He0 & Hk); [by apply (affected_elem orderP orderP_perm); exists e|].
  set (e1 := pruneEntry n (loseRoute n e)).
  assert (E1' : e1 = on_routes (delete n) (removeSuccessor n (markRouteUnreachable n e))).
  { unfold e1, loseRoute. destruct Hr as [r0 Hr0]. rewrite Hr0. unfold pruneEntry, markRouteUnreachable. cbn. by rewrite lookup_alter_eq, Hr0. }
  assert (He1 : e0 = e1).
  { cbn in He0. unfold pruneNeighbor, pruneExpired in He0. apply map_lookup_filter_Some in He0 as [He0 _]. rewrite lookup_fmap, E1 in He0. by injection He0 as <-. }
  subst e0. assert (Hroutes : forall m r, routesBySource e1 !! m = Some r -> routesBySource e !! m = Some r /\ m <> n).
  { intros m r Hm. rewrite E1' in Hm. cbn in Hm. apply lookup_delete_Some in Hm as [Hne Hm]. by rewrite lookup_alter_ne in Hm by done. }
  assert (Hsucc : forall m, m ∉ successors e1).
  { intros m Hm. rewrite E1' in Hm. cbn in Hm. apply list_elem_of_filter in Hm as [Hne Hm]. apply list_elem_of_filter in Hm as [_ Hm].
    destruct (Hl m (or_introl Hm)) as [r Hmr]. by destruct (Hu m r Hmr Hne). }
  pose proof (recalc_unreachable e1 (fun m r Hm => proj1 (Hu m r (proj1 (Hroutes m r Hm)) (proj2 (Hroutes m r Hm)))) Hsucc) as Hc.
  destruct (recalculateSuccessors cfg order e1) as [e2 ok]. cbn [fst] in Hk. destruct Hc as (_ & C1 & C2 & C3 & C4 & C5).
  assert (Hgone : routesBySource e2 !! n = None).
  { apply not_elem_of_dom. rewrite C5, E1'. cbn. rewrite dom_delete_L, elem_of_difference, elem_of_singleton. tauto. }
  destruct Hk as [K1 K2].
  { intros [[r2 Ho] _]. rewrite C4, E1' in Ho. cbn in Ho. rewrite Hb, Hgone in Ho. done. }
  rewrite K2. cbn [activeRoutes on_entries]. split; [by rewrite A1|]. exists e2. split; [exact K1|]. split; [exact C1|]. split; [by rewrite C2, E1'|]. split; [by rewrite C3, E1' | exact Hgone].
Qed.

(** A query about a prefix that is active already, from a neighbor without a
    route to it: nothing is sent, now or, since the query is not remembered,
    when the prefix is decided. *)
Theorem query_in_active_unanswered now n route seq s s' e : let p := r_prefix route in
  handle cfg v4 asn order orderP now (Query n [route] seq) s = Ret s' -> stubEnabled cfg = false ->
  entries s !! p = Some e -> e_state e = ACTIVE -> feasibleDistance route = max64 ->
  (forall m r, routesBySource e !! m = Some r -> reachable r = false) -> successors e = [] ->
  log s' = log s /\ activeRoutes s' = activeRoutes s /\ timers s' = timers s.
Proof.
  intros p H Hstub He Ha Hf Hu Hs. cbn [handle] in H. destruct (decide _); [|by injection H as <-]. unfold processReceivedQueryRoutes in H. cbn [each] in H.
  assert (Hens : entries (on_entries (ensure p) s) = entries s) by (cbn; unfold ensure; by rewrite He).
  unfold queryRoute in H. cbv zeta in H. fold p in H.
  assert (Hst : entries (storeRoute now route (Some n) p (on_entries (ensure p) s)) !! p = Some (addRouteUpdate now (nextId s) route (Some n) e)).
  { unfold storeRoute. cbn [entries next_id on_entries]. change (ensure p (entries s)) with (entries (on_entries (ensure p) s)). rewrite Hens, lookup_alter_eq, He. done. }
  rewrite Hst in H. cbn [deref] in H. rewrite outcome_bind_ret_l in H.
  set (e1 := addRouteUpdate now (nextId s) route (Some n) e) in *.
  assert (Hu1 : forall m r, routesBySource e1 !! m = Some r -> reachable r = false).
  { intros m r Hm. unfold e1, addRouteUpdate in Hm. cbn [routesBySource on_routes default] in Hm. apply lookup_insert_Some in Hm as [[<- <-]|[_ Hm]]; [|by eapply Hu].
    unfold reachable, fd. destruct (delay route =? max64); [destruct (isWide (wide route))|]; cbn; by rewrite Hf. }
  pose proof (recalc_unreachable e1 Hu1) as Hc. destruct (recalculateSuccessors cfg order e1) as [e2 ok].
  destruct Hc as (-> & C1 & C2 & C3 & C4 & C5); [intros m Hm; unfold e1, addRouteUpdate in Hm; cbn in Hm; rewrite Hs in Hm; by apply elem_of_nil in Hm|].
  rewrite Hstub in H. do 3 (rewrite outcome_bind_ret_l in H; cbn [qd_replies qd_activate app] in H). unfold setActive in H. cbn [each] in H.
  unfold beginActive in H. cbn [fst snd] in H. cbn [entries on_entries] in H. rewrite lookup_insert_eq in H. cbn [deref] in H. rewrite !outcome_bind_ret_l in H.
  rewrite bool_decide_eq_true_2 in H by (rewrite C2; exact Ha).
  destruct (routesBySource e2 !! bestNeighbor e2); rewrite !outcome_bind_ret_l in H; cbn [each] in H; rewrite !outcome_bind_ret_l in H; injection H as <-; done.
Qed.
End Events.

(** ** Examples *)

(** Runs of the engine of a process with a variance of one. *)
Definition run (evs : list (Z * Event)) (s : Dual) : outcome Dual :=
  each (fun ev s => handle (plain_eigrp 1) true 1 elements elements ev.1 ev.2 s) evs s.

Definition is_ret {A} (o : outcome A) : bool := match o with Ret _ => true | _ => false end.

Lemma is_ret_or {A} (d : A) o : is_ret o = true -> o = Ret (ret_or d o).
Proof. by destruct o. Qed.

Lemma run_reach evs s s' : run evs s = Ret s' -> reach (plain_eigrp 1) true 1 elements elements s -> reach (plain_eigrp 1) true 1 elements elements s'.
Proof.
  intros H Hr. eapply (each_inv (reach (plain_eigrp 1) true 1 elements elements)), H; [|exact Hr]. intros [now ev] t t' _ Ht Hh. by eapply reach_step.
Qed.

Lemma run_one now ev s : is_ret (run [(now, ev)] s) = true ->
  handle (plain_eigrp 1) true 1 elements elements now ev s = Ret (ret_or Dual_new (run [(now, ev)] s)).
Proof. unfold run. cbn [each fst snd]. by destruct (handle _ _ _ _ _ _ _ _). Qed.

Definition reached (evs : list (Z * Event)) : Dual := ret_or Dual_new (run evs Dual_new).

Lemma reached_reach evs : is_ret (run evs Dual_new) = true -> reach (plain_eigrp 1) true 1 elements elements (reached evs).
Proof. intros H. eapply run_reach; [by apply is_ret_or | constructor]. Qed.

Definition lost_route (p : IPPrefix) : ReceivedRoute := set_delay max64 (set_distances max64 max64 (plain_route p 100 300)).

Definition link_info : NeighborInfo := mkNeighborInfo 1 false false.

(** Two neighbors, one of which loses its route to [net_p]: the prefix is
    active and the other one is asked. *)
Definition asking : list (Z * Event) :=
  [(0, NeighborUp nbr_a link_info); (0, NeighborUp nbr_b link_info); (1, Update nbr_a [plain_route net_p 100 300]); (2, Update nbr_a [lost_route net_p])].

Example asking_is_active : (e_state <$> entries (reached asking) !! net_p) = Some ACTIVE /\
  (dom ∘ pendingQueries <$> activeRoutes (reached asking) !! net_p) = Some {[nbr_b]}.
Proof. split; by_compute. Qed.

Lemma active_prefix_waits_witness : exists ar q,
  activeRoutes (reached asking) !! net_p = Some ar /\ pendingQueries ar !! nbr_b = Some q /\ is_Some (allNeighbors (reached asking) !! nbr_b).
Proof.
  assert (Hr := reached_reach asking ltac:(vm_compute; reflexivity)).
  destruct (active_prefix_waits (plain_eigrp 1) true 1 elements elements (fun _ => reflexivity _) (fun _ => reflexivity _) _ Hr) as [Hw _].
  assert (Hd : (dom ∘ pendingQueries <$> activeRoutes (reached asking) !! net_p) = Some {[nbr_b]} /\ (e_state <$> entries (reached asking) !! net_p) = Some ACTIVE) by (split; by_compute).
  destruct Hd as [Hd Hs]. apply fmap_Some in Hs as (e & He & Ha). destruct (Hw net_p e He (eq_sym Ha)) as (ar & n & q & Har & Hq & Hn & _).
  assert (E : n = nbr_b).
  { rewrite Har in Hd. injection Hd as Hd. apply (elem_of_singleton (C := gset IPAddress)). rewrite <- Hd. apply elem_of_dom. by exists q. }
  subst n. exists ar, q. auto.
Defined.

(** The neighbor that is asked goes down. *)
Lemma dead_neighbor_timer_witness : exists id,
  let s' := ret_or Dual_new (run [(3, NeighborDown nbr_b)] (reached asking)) in
  is_Some (timers s' !! id) /\ handle (plain_eigrp 1) true 1 elements elements 93 (SIATimer id 7) s' = UB.
Proof.
  assert (Hr := reached_reach asking ltac:(vm_compute; reflexivity)).
  assert (Hret : is_ret (run [(3, NeighborDown nbr_b)] (reached asking)) = true) by (vm_compute; reflexivity).
  pose proof (run_one _ _ _ Hret) as H1. clear Hret. set (s' := ret_or Dual_new _) in *. cbv zeta.
  assert (Hq : (q ← activeRoutes (reached asking) !! net_p; siaTimerId <$> pendingQueries q !! nbr_b) = Some 1) by by_compute.
  destruct (activeRoutes (reached asking) !! net_p) as [ar|] eqn:Ea; [|done]. cbn [mbind option_bind] in Hq. apply fmap_Some in Hq as (q & Hq & Hid).
  destruct (dead_neighbor_timer (plain_eigrp 1) true 1 elements elements (fun _ => reflexivity _) (fun _ => reflexivity _) 3 nbr_b (reached asking) s' net_p ar q Hr H1 Ea Hq) as [Ht Hub].
  exists (siaTimerId q). split; [by eexists | apply Hub].
Defined.

(** The only neighbor with a route goes down. *)
Lemma lost_prefix_not_queried_witness :
  let s := reached [(0, NeighborUp nbr_a link_info); (0, NeighborUp nbr_b link_info); (1, Update nbr_a [plain_route net_p 100 300])] in
  let s' := ret_or Dual_new (run [(3, NeighborDown nbr_a)] s) in
  activeRoutes s' !! net_p = None /\ exists e', entries s' !! net_p = Some e' /\ successors e' = [] /\ valid e' = None.
Proof.
  cbv zeta. set (evs := [_; _; _]).
  assert (Hr := reached_reach evs ltac:(vm_compute; reflexivity)).
  assert (Hret : is_ret (run [(3, NeighborDown nbr_a)] (reached evs)) = true) by (vm_compute; reflexivity).
  pose proof (run_one _ _ _ Hret) as H1. clear Hret. set (s' := ret_or Dual_new _) in *.
  assert (He : ((fun e => (bestNeighbor e, valid e, bool_decide (dom (routesBySource e) = {[nbr_a]}))) <$> entries (reached evs) !! net_p) = Some (nbr_a, None, true)) by by_compute.
  apply fmap_Some in He as (e & He & E). injection E as E1 E2 E3. symmetry in E1, E2, E3. apply bool_decide_eq_true in E3.
  destruct (lost_prefix_not_queried (plain_eigrp 1) true 1 elements elements (fun _ => reflexivity _) (fun _ => reflexivity _) 3 nbr_a (reached evs) s' net_p e H1) as (Ha & e' & He' & Hsu & _ & Hv & _).
  - by_compute.
  - exact He.
  - exact (i_lists _ _ _ (dual_reach_inv _ _ _ _ _ (fun _ => reflexivity _) (fun _ => reflexivity _) _ Hr) net_p e He).
  - exact E1.
  - apply elem_of_dom. rewrite E3. by apply (elem_of_singleton (C := gset IPAddress)).
  - intros m r Hm Hne. exfalso. apply Hne, (elem_of_singleton (C := gset IPAddress)). rewrite <- E3. apply elem_of_dom. by exists r.
  - exact E2.
  - by_compute.
  - exact (conj Ha (ex_intro _ e' (conj He' (conj Hsu Hv)))).
Defined.

(** Both neighbors of an active prefix lost their routes; the one that is asked
    asks back. *)
Lemma query_in_active_unanswered_witness :
  let s := reached asking in
  let s' := ret_or Dual_new (run [(3, Query nbr_b [lost_route net_p] 9)] s) in log s' = log s.
Proof.
  cbv zeta. assert (Hret : is_ret (run [(3, Query nbr_b [lost_route net_p] 9)] (reached asking)) = true) by (vm_compute; reflexivity).
  pose proof (run_one _ _ _ Hret) as H1. clear Hret. set (s' := ret_or Dual_new _) in *.
  assert (He : ((fun e => (e_state e, successors e, bool_decide (map_Forall (fun _ r => reachable r = false) (routesBySource e)))) <$> entries (reached asking) !! net_p) = Some (ACTIVE, [], true)) by by_compute.
  apply fmap_Some in He as (e & He & E). injection E as E1 E2 E3. symmetry in E1, E2, E3. apply bool_decide_eq_true in E3.
  destruct (query_in_active_unanswered (plain_eigrp 1) true 1 elements elements (fun _ => reflexivity _) 3 nbr_b (lost_route net_p) 9 (reached asking) s' e) as [Hl _].
  - exact H1.
  - reflexivity.
  - exact He.
  - exact E1.
  - reflexivity.
  - exact E3.
  - exact E2.
  - exact Hl.
Defined.
