(* ===== verification/Locks.v ===== *)
(** * Locks: methods of objects that are guarded by mutexes

    A method is a function of the object's state that can fail as C++ code
    does. A [std::lock_guard] holds a mutex of the object until the end of its
    scope; locking a [std::mutex] that the thread holds already is undefined
    (in practice the thread waits for itself). *)

From S2P Require Import Prelude.

(** A method of an object with state [S]. *)
Definition M (S A : Type) : Type := S -> outcome (A * S).

#[export] Instance M_ret {S} : MRet (M S) := fun A a s => Ret (a, s).
#[export] Instance M_bind {S} : MBind (M S) := fun A B f m s => '(a, s) ← m s; f a s.

Definition gets {S A} (f : S -> A) : M S A := fun s => Ret (f s, s).
Definition modify {S} (f : S -> S) : M S unit := fun s => Ret (tt, f s).

(** Something that may be undefined and leaves the state. *)
Definition undefined {S A} : M S A := fun _ => UB.
Definition lift {S A} (o : outcome A) : M S A := fun s => a ← o; Ret (a, s).

(** A mutex of the object: whether it is held, in its state. *)
Record Mutex (S : Type) := mkMutex { held : S -> bool; set_held : bool -> S -> S }.
Arguments mkMutex {S} _ _.
Arguments held {S} _ _.
Arguments set_held {S} _ _ _.

(** The scope of a [std::lock_guard]. *)
Definition lock_guard {S A} (m : Mutex S) (body : M S A) : M S A := fun s =>
  if held m s then UB else '(a, s) ← body (set_held m true s); Ret (a, set_held m false s).

(** A loop of at most [n] turns that ends with the first result. *)
Fixpoint search {S A} (n : nat) (i : Z) (f : Z -> M S (option A)) : M S (option A) :=
  match n with
  | O => mret None
  | S n => r ← f i; match r with Some a => mret (Some a) | None => search n (i + 1) f end
  end.

(** ** Facts *)

(** A mutex that is held makes a method of the object that locks it undefined. *)
Lemma relock {S A} (m : Mutex S) (body : M S A) s : held m s = true -> lock_guard m body s = UB.
Proof. unfold lock_guard. by intros ->. Qed.

(** A search whose first turn is undefined is. *)
Lemma search_first {S A} n i (f : Z -> M S (option A)) s : (0 < n)%nat -> f i s = UB -> search n i f s = UB.
Proof. intros Hn Hf. destruct n; [lia|]. cbn [search]. unfold mbind, M_bind. by rewrite Hf. Qed.

Lemma bind_M {S A B} (m : M S A) (f : A -> M S B) s : (m ≫= f) s = '(a, s) ← m s; f a s.
Proof. done. Qed.

(** A search whose turns find nothing finds nothing. *)
Definition barren {S A} (f : Z -> M S (option A)) (s : S) : Prop := forall i, f i s = UB \/ f i s = Ret (None, s).

Lemma search_barren {S A} (f : Z -> M S (option A)) s n : barren f s -> forall i, search n i f s = UB \/ search n i f s = Ret (None, s).
Proof.
  intros Hf. induction n as [|n IH]; intros i; cbn [search]; [by right|]. rewrite bind_M. destruct (Hf i) as [->| ->]; [by left|]. rewrite outcome_bind_ret_l. apply IH.
Qed.

(** One whose turns all return without a result has none. *)
Lemma search_none {S A} (f : Z -> M S (option A)) s n : (forall i, f i s = Ret (None, s)) -> forall i, search n i f s = Ret (None, s).
Proof.
  intros Hf. induction n as [|n IH]; intros i; cbn [search]; [done|]. rewrite bind_M, Hf, outcome_bind_ret_l. apply IH.
Qed.

Lemma bind_modify {S B} (f : S -> S) (k : unit -> M S B) s : (modify f ≫= k) s = k tt (f s).
Proof. done. Qed.

Lemma run_gets {S A} (f : S -> A) s : gets f s = Ret (f s, s).
Proof. done. Qed.

Lemma bind_gets {S A B} (f : S -> A) (k : A -> M S B) s : (gets f ≫= k) s = k (f s) s.
Proof. done. Qed.

Lemma bind_lift {S A B} (a : A) (k : A -> M S B) s : (lift (Ret a) ≫= k) s = k a s.
Proof. done. Qed.

(** A method that is undefined or returns in the same state. *)
Definition inert {S A} (m : M S A) (s : S) : Prop := m s = UB \/ exists a, m s = Ret (a, s).

Definition ignore {S A} (m : M S A) : M S unit := m;; mret tt.

Lemma inert_ignore {S A} (m : M S A) s s' : inert m s -> ignore m s = Ret (tt, s') -> s' = s.
Proof. unfold ignore. rewrite bind_M. intros [->|[a ->]] H; [done|]. by injection H as <-. Qed.

Lemma inert_unit {S} (m : M S unit) s s' : inert m s -> m s = Ret (tt, s') -> s' = s.
Proof. intros [->|[a ->]] H; [done|]. by injection H as _ <-. Qed.

(** Runs the basic methods. *)
Ltac mrun := cbv [mbind M_bind mret M_ret gets modify undefined lift outcome_bind outcome_ret]; cbn.
