(* ===== verification/Dhcp4.v ===== *)
(** * Dhcp4: the DHCPv4 address pool and its leases (services/dhcp/dhcpv4)

    [IPv4Pool] hands out the addresses of a network, temporarily while they are
    offered and then for a lease that [IPv4LeaseManager] watches with a timer.
    Both guard every method with a [std::mutex]; methods call one another with
    the mutex held. The pool, the leases and their timers are one state;
    [core/TimeManager.cpp] is the table of the callbacks that are scheduled,
    without their times: any scheduled callback can run next. *)

From S2P Require Import Prelude Locks.

(** ** Data *)

(** [ClientID] of DhcpInfo.hpp: its bytes. *)
Abbreviation ClientID := (list Z).

(** [services/dhcp/dhcpv4/IPv4LeaseManager.h:38-46] IPv4LeaseManager::Lease; the expiry is the time of its timer *)
Record Lease := mkLease { l_ip : Z; leaseTime : Z; l_t1 : Z; l_t2 : Z; l_timerId : Z }.

(** The callbacks of timers, with what they capture. *)
Inductive Callback :=
| EndTemporary (ip : Z) (c : ClientID)
| EndQuarantine (ip : Z) (c : ClientID)
| EndConflict (ip : Z)
| ExpireLease (c : ClientID).

(** The numbers of a pool. *)
Record Range := mkRange { baseAddress : Z; lastAddress : Z; currentAddress : Z; poolSize : Z; gateway : Z; broadcast : Z }.

(** [services/dhcp/dhcpv4/IPv4Pool.h:87-106] IPv4Pool, with the leases of its IPv4LeaseManager (IPv4LeaseManager.h:51-55) and the
    timers *)
Record Dhcp4 := mkDhcp4 {
  pool : Range;
  init : bool;
  allocated : gmap Z ClientID;
  reverseAllocated : gmap ClientID Z;
  temporary : gmap Z (ClientID * Z);
  reverseTemporary : gmap ClientID Z;
  quarantined : gmap Z (ClientID * Z);
  reverseQuarantined : gmap ClientID Z;
  bad : gmap Z Z;
  excluded : gset Z;
  release : list Z;
  leaseManager : bool;
  poolMutex : bool;
  leases : gmap ClientID Lease;
  leaseMutex : bool;
  timers : gmap Z Callback;
  nextTimerId : Z }.

Definition on_pool f (s : Dhcp4) := mkDhcp4 (f (pool s)) (init s) (allocated s) (reverseAllocated s) (temporary s) (reverseTemporary s) (quarantined s) (reverseQuarantined s) (bad s) (excluded s) (release s) (leaseManager s) (poolMutex s) (leases s) (leaseMutex s) (timers s) (nextTimerId s).
Definition on_init f (s : Dhcp4) := mkDhcp4 (pool s) (f (init s)) (allocated s) (reverseAllocated s) (temporary s) (reverseTemporary s) (quarantined s) (reverseQuarantined s) (bad s) (excluded s) (release s) (leaseManager s) (poolMutex s) (leases s) (leaseMutex s) (timers s) (nextTimerId s).
Definition on_allocated f (s : Dhcp4) := mkDhcp4 (pool s) (init s) (f (allocated s)) (reverseAllocated s) (temporary s) (reverseTemporary s) (quarantined s) (reverseQuarantined s) (bad s) (excluded s) (release s) (leaseManager s) (poolMutex s) (leases s) (leaseMutex s) (timers s) (nextTimerId s).
Definition on_reverseAllocated f (s : Dhcp4) := mkDhcp4 (pool s) (init s) (allocated s) (f (reverseAllocated s)) (temporary s) (reverseTemporary s) (quarantined s) (reverseQuarantined s) (bad s) (excluded s) (release s) (leaseManager s) (poolMutex s) (leases s) (leaseMutex s) (timers s) (nextTimerId s).
Definition on_temporary f (s : Dhcp4) := mkDhcp4 (pool s) (init s) (allocated s) (reverseAllocated s) (f (temporary s)) (reverseTemporary s) (quarantined s) (reverseQuarantined s) (bad s) (excluded s) (release s) (leaseManager s) (poolMutex s) (leases s) (leaseMutex s) (timers s) (nextTimerId s).
Definition on_reverseTemporary f (s : Dhcp4) := mkDhcp4 (pool s) (init s) (allocated s) (reverseAllocated s) (temporary s) (f (reverseTemporary s)) (quarantined s) (reverseQuarantined s) (bad s) (excluded s) (release s) (leaseManager s) (poolMutex s) (leases s) (leaseMutex s) (timers s) (nextTimerId s).
Definition on_quarantined f (s : Dhcp4) := mkDhcp4 (pool s) (init s) (allocated s) (reverseAllocated s) (temporary s) (reverseTemporary s) (f (quarantined s)) (reverseQuarantined s) (bad s) (excluded s) (release s) (leaseManager s) (poolMutex s) (leases s) (leaseMutex s) (timers s) (nextTimerId s).
Definition on_reverseQuarantined f (s : Dhcp4) := mkDhcp4 (pool s) (init s) (allocated s) (reverseAllocated s) (temporary s) (reverseTemporary s) (quarantined s) (f (reverseQuarantined s)) (bad s) (excluded s) (release s) (leaseManager s) (poolMutex s) (leases s) (leaseMutex s) (timers s) (nextTimerId s).
Definition on_bad f (s : Dhcp4) := mkDhcp4 (pool s) (init s) (allocated s) (reverseAllocated s) (temporary s) (reverseTemporary s) (quarantined s) (reverseQuarantined s) (f (bad s)) (excluded s) (release s) (leaseManager s) (poolMutex s) (leases s) (leaseMutex s) (timers s) (nextTimerId s).
Definition on_excluded f (s : Dhcp4) := mkDhcp4 (pool s) (init s) (allocated s) (reverseAllocated s) (temporary s) (reverseTemporary s) (quarantined s) (reverseQuarantined s) (bad s) (f (excluded s)) (release s) (leaseManager s) (poolMutex s) (leases s) (leaseMutex s) (timers s) (nextTimerId s).
Definition on_release f (s : Dhcp4) := mkDhcp4 (pool s) (init s) (allocated s) (reverseAllocated s) (temporary s) (reverseTemporary s) (quarantined s) (reverseQuarantined s) (bad s) (excluded s) (f (release s)) (leaseManager s) (poolMutex s) (leases s) (leaseMutex s) (timers s) (nextTimerId s).
Definition on_leaseManager f (s : Dhcp4) := mkDhcp4 (pool s) (init s) (allocated s) (reverseAllocated s) (temporary s) (reverseTemporary s) (quarantined s) (reverseQuarantined s) (bad s) (excluded s) (release s) (f (leaseManager s)) (poolMutex s) (leases s) (leaseMutex s) (timers s) (nextTimerId s).
Definition on_poolMutex f (s : Dhcp4) := mkDhcp4 (pool s) (init s) (allocated s) (reverseAllocated s) (temporary s) (reverseTemporary s) (quarantined s) (reverseQuarantined s) (bad s) (excluded s) (release s) (leaseManager s) (f (poolMutex s)) (leases s) (leaseMutex s) (timers s) (nextTimerId s).
Definition on_leases f (s : Dhcp4) := mkDhcp4 (pool s) (init s) (allocated s) (reverseAllocated s) (temporary s) (reverseTemporary s) (quarantined s) (reverseQuarantined s) (bad s) (excluded s) (release s) (leaseManager s) (poolMutex s) (f (leases s)) (leaseMutex s) (timers s) (nextTimerId s).
Definition on_leaseMutex f (s : Dhcp4) := mkDhcp4 (pool s) (init s) (allocated s) (reverseAllocated s) (temporary s) (reverseTemporary s) (quarantined s) (reverseQuarantined s) (bad s) (excluded s) (release s) (leaseManager s) (poolMutex s) (leases s) (f (leaseMutex s)) (timers s) (nextTimerId s).
Definition on_timers f (s : Dhcp4) := mkDhcp4 (pool s) (init s) (allocated s) (reverseAllocated s) (temporary s) (reverseTemporary s) (quarantined s) (reverseQuarantined s) (bad s) (excluded s) (release s) (leaseManager s) (poolMutex s) (leases s) (leaseMutex s) (f (timers s)) (nextTimerId s).
Definition on_nextTimerId f (s : Dhcp4) := mkDhcp4 (pool s) (init s) (allocated s) (reverseAllocated s) (temporary s) (reverseTemporary s) (quarantined s) (reverseQuarantined s) (bad s) (excluded s) (release s) (leaseManager s) (poolMutex s) (leases s) (leaseMutex s) (timers s) (f (nextTimerId s)).

(** [services/dhcp/dhcpv4/IPv4Pool.cpp:13-15] IPv4Pool::IPv4Pool *)
Definition Dhcp4_new : Dhcp4 := mkDhcp4 (mkRange 0 0 0 0 0 0) false ∅ ∅ ∅ ∅ ∅ ∅ ∅ ∅ [] false false ∅ false ∅ 1.

Definition get {A} (f : Dhcp4 -> A) : M Dhcp4 A := gets f.

Definition poolLock : Mutex Dhcp4 := mkMutex poolMutex (fun b => on_poolMutex (fun _ => b)).
Definition leaseLock : Mutex Dhcp4 := mkMutex leaseMutex (fun b => on_leaseMutex (fun _ => b)).

(** ** Timers *)

(** [core/TimeManager.cpp:19-27] TimeManager::addTimer *)
Definition addTimer (cb : Callback) : M Dhcp4 Z :=
  id ← get nextTimerId; modify (on_timers (insert id cb));; modify (on_nextTimerId (fun n => u32 (n + 1)));; mret id.

(** [TimeManager::cancelTimer], of a timer that has not run. *)
Definition cancelTimer (id : Z) : M Dhcp4 unit := modify (on_timers (delete id)).

(** ** Queries *)

(** [services/dhcp/dhcpv4/IPv4Pool.cpp:310-314] IPv4Pool::isAllocated *)
Definition isAllocated (ip : Z) : M Dhcp4 bool := lock_guard poolLock (get (fun s => bool_decide (is_Some (allocated s !! ip)))).
(** [services/dhcp/dhcpv4/IPv4Pool.cpp:316-320] IPv4Pool::isExcluded *)
Definition isExcluded (ip : Z) : M Dhcp4 bool := lock_guard poolLock (get (fun s => bool_decide (ip ∈ excluded s))).
(** [services/dhcp/dhcpv4/IPv4Pool.cpp:322-326] IPv4Pool::isConflicted *)
Definition isConflicted (ip : Z) : M Dhcp4 bool := lock_guard poolLock (get (fun s => bool_decide (is_Some (bad s !! ip)))).
(** [services/dhcp/dhcpv4/IPv4Pool.cpp:328-332] IPv4Pool::isTemporarilyOffered *)
Definition isTemporarilyOffered (ip : Z) : M Dhcp4 bool := lock_guard poolLock (get (fun s => bool_decide (is_Some (temporary s !! ip)))).
(** [services/dhcp/dhcpv4/IPv4Pool.cpp:334-339] IPv4Pool::isTemporarilyOffered, by a client *)
Definition isTemporarilyOfferedTo (ip : Z) (c : ClientID) : M Dhcp4 bool := lock_guard poolLock (get (fun s => bool_decide (fst <$> temporary s !! ip = Some c))).
(** [services/dhcp/dhcpv4/IPv4Pool.cpp:341-346] IPv4Pool::matchIPToClient *)
Definition matchIPToClient (ip : Z) (c : ClientID) : M Dhcp4 bool := lock_guard poolLock (get (fun s => bool_decide (allocated s !! ip = Some c))).
(** [services/dhcp/dhcpv4/IPv4Pool.cpp:382-385] IPv4Pool::withinRange *)
Definition withinRange (ip : Z) : M Dhcp4 bool := get (fun s => (baseAddress (pool s) <? ip) && (ip <? lastAddress (pool s))).

(** The short-circuit disjunction. *)
Definition orM {S} (m1 m2 : M S bool) : M S bool := b ← m1; if b : bool then mret true else m2.

(** [services/dhcp/dhcpv4/IPv4Pool.cpp:387-390] IPv4Pool::isReserved *)
Definition isReserved (ip : Z) : M Dhcp4 bool := orM (isAllocated ip) (orM (isExcluded ip) (isConflicted ip)).

(** ** Handing addresses out *)

Definition assign (ip : Z) (c : ClientID) : M Dhcp4 unit :=
  modify (on_allocated (insert ip c));; modify (on_reverseAllocated (insert c ip)).

Definition offer (ip : Z) (c : ClientID) : M Dhcp4 unit :=
  id ← addTimer (EndTemporary ip c); modify (on_temporary (insert ip (c, id)));; modify (on_reverseTemporary (insert c ip)).

Definition setCurrent (a : Z) (r : Range) : Range := mkRange (baseAddress r) (lastAddress r) a (poolSize r) (gateway r) (broadcast r).

(** [services/dhcp/dhcpv4/IPv4Pool.cpp:38-51] IPv4Pool::allocateIP, the address the client had; so in allocateTemporaryIP *)
Definition takeQuarantined (c : ClientID) : M Dhcp4 (option Z) :=
  rit ← get (fun s => reverseQuarantined s !! c);
  match rit with
  | None => mret None
  | Some ip =>
      it ← get (fun s => quarantined s !! ip);
      match it with
      | Some (_, t) =>
          cancelTimer t;; modify (on_quarantined (delete ip));; modify (on_reverseQuarantined (delete c));; mret (Some ip)
      | None => modify (on_reverseQuarantined (delete c));; mret None
      end
  end.

(** [services/dhcp/dhcpv4/IPv4Pool.cpp:53-60] IPv4Pool::allocateIP, the first address that was given back *)
Definition takeReleased : M Dhcp4 (option Z) :=
  l ← get release;
  match l with [] => mret None | ip :: l => modify (on_release (fun _ => l));; mret (Some ip) end.

(** [services/dhcp/dhcpv4/IPv4Pool.cpp:64-65] IPv4Pool::allocateIP, the [i]th address of the search *)
Definition candidate (i : Z) : M Dhcp4 Z :=
  r ← get pool;
  if u32 (poolSize r - 2) =? 0 then undefined
  else mret (u32 (baseAddress r + 1 + u32 (currentAddress r - baseAddress r - 1 + i) mod u32 (poolSize r - 2))).

(** [services/dhcp/dhcpv4/IPv4Pool.cpp:62-73] IPv4Pool::allocateIP, one turn of the search *)
Definition allocateAt (c : ClientID) (i : Z) : M Dhcp4 (option Z) :=
  ip ← candidate i;
  g ← get (fun s => gateway (pool s));
  skip ← orM (mret (ip =? g)) (isReserved ip);
  if skip : bool then mret None
  else assign ip c;; modify (on_pool (setCurrent (u32 (ip + 1))));; mret (Some ip).

(** [services/dhcp/dhcpv4/IPv4Pool.cpp:28-76] IPv4Pool::allocateIP *)
Definition allocateIP (c : ClientID) : M Dhcp4 Z := lock_guard poolLock (
  al ← get (fun s => reverseAllocated s !! c);
  match al with
  | Some ip => mret ip
  | None =>
      q ← takeQuarantined c;
      r ← match q with Some ip => mret (Some ip) | None => takeReleased end;
      match r with
      | Some ip => assign ip c;; mret ip
      | None =>
          n ← get (fun s => u32 (poolSize (pool s) - 2));
          found ← search (Z.to_nat n) 0 (allocateAt c);
          mret (default 0 found)
      end
  end).

(** [services/dhcp/dhcpv4/IPv4Pool.cpp:140-159] IPv4Pool::allocateTemporaryIP, one turn of the search *)
Definition offerAt (c : ClientID) (i : Z) : M Dhcp4 (option Z) :=
  ip ← candidate i;
  g ← get (fun s => gateway (pool s));
  skip ← orM (mret (ip =? g)) (orM (isReserved ip) (isTemporarilyOffered ip));
  if skip : bool then mret None
  else offer ip c;; modify (on_pool (setCurrent (u32 (ip + 1))));; mret (Some ip).

(** [services/dhcp/dhcpv4/IPv4Pool.cpp:82-97] IPv4Pool::allocateTemporaryIP, the address the client is offered already *)
Definition renewOffer (c : ClientID) : M Dhcp4 (option Z) :=
  rit ← get (fun s => reverseTemporary s !! c);
  match rit with
  | None => mret None
  | Some ip =>
      it ← get (fun s => temporary s !! ip);
      match it with
      | Some (owner, t) =>
          cancelTimer t;; id ← addTimer (EndTemporary ip c); modify (on_temporary (insert ip (owner, id)));; mret (Some ip)
      | None => modify (on_reverseTemporary (delete c));; mret None
      end
  end.

(** [services/dhcp/dhcpv4/IPv4Pool.cpp:78-162] IPv4Pool::allocateTemporaryIP *)
Definition allocateTemporaryIP (c : ClientID) : M Dhcp4 Z := lock_guard poolLock (
  o ← renewOffer c;
  match o with
  | Some ip => mret ip
  | None =>
      q ← takeQuarantined c;
      r ← match q with Some ip => mret (Some ip) | None => takeReleased end;
      match r with
      | Some ip => offer ip c;; mret ip
      | None =>
          n ← get (fun s => poolSize (pool s));
          found ← search (Z.to_nat n) 0 (offerAt c);
          mret (default 0 found)
      end
  end).

(** [services/dhcp/dhcpv4/IPv4Pool.cpp:168-174] IPv4Pool::allocateRequestedTemporaryIP, an address held back for a client *)
Definition claimQuarantined (ip : Z) (c : ClientID) : M Dhcp4 bool :=
  it ← get (fun s => quarantined s !! ip);
  match it with
  | None => mret true
  | Some (owner, t) =>
      if bool_decide (owner = c) then cancelTimer t;; modify (on_quarantined (delete ip));; modify (on_reverseQuarantined (delete c));; mret true
      else mret false
  end.

(** [services/dhcp/dhcpv4/IPv4Pool.cpp:176-176] IPv4Pool::allocateRequestedTemporaryIP, whether the address can be had *)
Definition unavailable (ip : Z) : M Dhcp4 bool :=
  orM (b ← withinRange ip; mret (negb b)) (orM (isReserved ip) (isTemporarilyOffered ip)).

Definition unrelease (ip : Z) : M Dhcp4 unit := modify (on_release (fun l => match list_find (eq ip) l with Some (i, _) => delete i l | None => l end)).

(** [services/dhcp/dhcpv4/IPv4Pool.cpp:164-192] IPv4Pool::allocateRequestedTemporaryIP *)
Definition allocateRequestedTemporaryIP (ip : Z) (c : ClientID) : M Dhcp4 bool := lock_guard poolLock (
  ok ← claimQuarantined ip c;
  if negb ok then mret false else
  no ← unavailable ip;
  if no : bool then mret false else unrelease ip;; offer ip c;; mret true).

(** [services/dhcp/dhcpv4/IPv4Pool.cpp:194-215] IPv4Pool::allocateRequestedIP *)
Definition allocateRequestedIP (ip : Z) (c : ClientID) : M Dhcp4 bool := lock_guard poolLock (
  ok ← claimQuarantined ip c;
  if negb ok then mret false else
  no ← unavailable ip;
  if no : bool then mret false else unrelease ip;; assign ip c;; mret true).

(** [services/dhcp/dhcpv4/IPv4Pool.cpp:217-223] IPv4Pool::getTemporaryIPForClient *)
Definition getTemporaryIPForClient (c : ClientID) : M Dhcp4 Z := lock_guard poolLock (get (fun s => default 0 (reverseTemporary s !! c))).

(** [services/dhcp/dhcpv4/IPv4Pool.cpp:225-237] IPv4Pool::activateTemporaryIP *)
Definition activateTemporaryIP (ip : Z) (c : ClientID) : M Dhcp4 bool := lock_guard poolLock (
  it ← get (fun s => temporary s !! ip);
  match it with
  | Some (owner, t) =>
      if bool_decide (c = owner) then
        cancelTimer t;; modify (on_temporary (delete ip));; modify (on_reverseTemporary (delete c));; assign ip c;; mret true
      else mret false
  | None => mret false
  end).

(** [services/dhcp/dhcpv4/IPv4Pool.cpp:239-249] IPv4Pool::clearTemporaryOffer *)
Definition clearTemporaryOffer (ip : Z) : M Dhcp4 unit := lock_guard poolLock (
  it ← get (fun s => temporary s !! ip);
  match it with
  | Some (owner, t) => cancelTimer t;; modify (on_reverseTemporary (delete owner));; modify (on_temporary (delete ip))
  | None => mret tt
  end).

(** ** Taking addresses back *)

(** [services/dhcp/dhcpv4/IPv4Pool.cpp:251-257] IPv4Pool::excludeIP *)
Definition excludeIP (ip : Z) : M Dhcp4 bool := lock_guard poolLock (
  no ← orM (b ← withinRange ip; mret (negb b)) (isAllocated ip);
  if no : bool then mret false else modify (on_excluded (union {[ip]}));; mret true).

(** [services/dhcp/dhcpv4/IPv4Pool.cpp:259-263] IPv4Pool::removeExclusion *)
Definition removeExclusion (ip : Z) : M Dhcp4 bool := lock_guard poolLock (
  b ← get (fun s => bool_decide (ip ∈ excluded s)); modify (on_excluded (fun x => x ∖ {[ip]}));; mret b).

Definition unassign (ip : Z) (c : ClientID) : M Dhcp4 unit := modify (on_allocated (delete ip));; modify (on_reverseAllocated (delete c)).

(** [services/dhcp/dhcpv4/IPv4Pool.cpp:265-284] IPv4Pool::expireIP *)
Definition expireIP (ip : Z) (c : ClientID) : M Dhcp4 unit := lock_guard poolLock (
  a ← isAllocated ip;
  if negb a then mret tt
  else
    unassign ip c;; id ← addTimer (EndQuarantine ip c);
    modify (on_quarantined (insert ip (c, id)));; modify (on_reverseQuarantined (insert c ip))).

(** [services/dhcp/dhcpv4/IPv4Pool.cpp:286-292] IPv4Pool::releaseIP *)
Definition releaseIP (ip : Z) (c : ClientID) : M Dhcp4 unit := lock_guard poolLock (
  a ← isAllocated ip; if negb a then mret tt else unassign ip c).

(** [services/dhcp/dhcpv4/IPv4Pool.cpp:294-308] IPv4Pool::setConflicted *)
Definition setConflicted (ip : Z) : M Dhcp4 bool := lock_guard poolLock (
  a ← isAllocated ip;
  if negb a then mret false
  else
    c ← get (fun s => default [] (allocated s !! ip));
    unassign ip c;; id ← addTimer (EndConflict ip); modify (on_bad (insert ip id));; mret true).

(** [services/dhcp/dhcpv4/IPv4Pool.cpp:348-375] IPv4Pool::adjustPool *)
Definition adjustPool (net len gw : option Z) : M Dhcp4 bool := lock_guard poolLock (
  r ← get pool;
  size ← match len with Some l => if l <=? 32 then lift (shl 32 1 (32 - l)) else mret (poolSize r) | None => mret (poolSize r) end;
  let base := default (baseAddress r) net in
  let last := u32 (base + size - 1) in
  modify (on_pool (fun _ => mkRange base last (currentAddress r) size (default (gateway r) gw) (u32 (last + 1))));;
  m ← get leaseManager;
  (if m : bool then
     modify (on_allocated (fun _ => ∅));; modify (on_temporary (fun _ => ∅));; modify (on_release (fun _ => []));; modify (on_bad (fun _ => ∅))
   else mret tt);;
  modify (on_init (fun _ => (0 <? size) && m));; mret true).

(** [services/dhcp/dhcpv4/IPv4Pool.cpp:377-380] IPv4Pool::setLeaseManager *)
Definition setLeaseManager : M Dhcp4 unit := modify (on_leaseManager (fun _ => true)).

(** ** Leases *)

(** The timer of a lease, and the lease. *)
Definition startLease (c : ClientID) (ip lt t1 t2 : Z) : M Dhcp4 unit :=
  id ← addTimer (ExpireLease c); modify (on_leases (insert c (mkLease ip lt t1 t2 id))).

Definition leaseOf (c : ClientID) : M Dhcp4 (option Lease) := get (fun s => leases s !! c).

(** [services/dhcp/dhcpv4/IPv4LeaseManager.cpp:13-28] IPv4LeaseManager::createLeaseFromTemp *)
Definition createLeaseFromTemp (c : ClientID) (ip lt t1 t2 : Z) : M Dhcp4 bool := lock_guard leaseLock (
  l ← leaseOf c;
  match l with
  | Some _ => mret false
  | None => ok ← activateTemporaryIP ip c; if negb ok then mret false else startLease c ip lt t1 t2;; mret true
  end).

(** [services/dhcp/dhcpv4/IPv4LeaseManager.cpp:30-45] IPv4LeaseManager::createLease *)
Definition createLease (c : ClientID) (lt t1 t2 : Z) : M Dhcp4 Z := lock_guard leaseLock (
  l ← leaseOf c;
  match l with
  | Some _ => mret 0
  | None => ip ← allocateIP c; if ip =? 0 then mret 0 else startLease c ip lt t1 t2;; mret ip
  end).

(** [services/dhcp/dhcpv4/IPv4LeaseManager.cpp:47-62] IPv4LeaseManager::createLeaseFromReq *)
Definition createLeaseFromReq (c : ClientID) (ip lt t1 t2 : Z) : M Dhcp4 bool := lock_guard leaseLock (
  l ← leaseOf c;
  match l with
  | Some _ => mret false
  | None => ok ← allocateRequestedIP ip c; if negb ok then mret false else startLease c ip lt t1 t2;; mret true
  end).

(** [services/dhcp/dhcpv4/IPv4LeaseManager.cpp:64-82] IPv4LeaseManager::renewLease *)
Definition renewLease (c : ClientID) (lt t1 t2 : Z) : M Dhcp4 bool := lock_guard leaseLock (
  l ← leaseOf c;
  match l with
  | None => mret false
  | Some l => cancelTimer (l_timerId l);; startLease c (l_ip l) lt t1 t2;; mret true
  end).

(** [services/dhcp/dhcpv4/IPv4LeaseManager.cpp:84-92] IPv4LeaseManager::rebindLease *)
Definition rebindLease (c : ClientID) (ip lt t1 t2 : Z) : M Dhcp4 bool := lock_guard leaseLock (
  l ← leaseOf c;
  match l with
  | None => mret false
  | Some l => if l_ip l =? ip then renewLease c lt t1 t2 else mret false
  end).

(** [services/dhcp/dhcpv4/IPv4LeaseManager.cpp:94-104] IPv4LeaseManager::releaseLease *)
Definition releaseLease (c : ClientID) : M Dhcp4 bool := lock_guard leaseLock (
  l ← leaseOf c;
  match l with
  | None => mret false
  | Some l => cancelTimer (l_timerId l);; releaseIP (l_ip l) c;; modify (on_leases (delete c));; mret true
  end).

(** [services/dhcp/dhcpv4/IPv4LeaseManager.cpp:106-116] IPv4LeaseManager::declineLease: its test looks at the lease when there is
    none *)
Definition declineLease (c : ClientID) (ip : Z) : M Dhcp4 bool := lock_guard leaseLock (
  l ← leaseOf c;
  match l with
  | None => undefined
  | Some l => cancelTimer (l_timerId l);; modify (on_leases (delete c));; setConflicted ip
  end).

(** [services/dhcp/dhcpv4/IPv4LeaseManager.cpp:118-123] IPv4LeaseManager::hasLease; match at lines 132-137 is the same *)
Definition hasLease (c : ClientID) (ip : Z) : M Dhcp4 bool := lock_guard leaseLock (l ← leaseOf c; mret (bool_decide (l_ip <$> l = Some ip))).

(** [services/dhcp/dhcpv4/IPv4LeaseManager.cpp:125-130] IPv4LeaseManager::getIP *)
Definition getIP (c : ClientID) : M Dhcp4 Z := lock_guard leaseLock (l ← leaseOf c; mret (default 0 (l_ip <$> l))).

(** [services/dhcp/dhcpv4/IPv4LeaseManager.cpp:149-153] IPv4LeaseManager::size *)
Definition leaseCount : M Dhcp4 nat := lock_guard leaseLock (get (fun s => size (leases s))).

(** [services/dhcp/dhcpv4/IPv4LeaseManager.cpp:139-147] IPv4LeaseManager::expireLease *)
Definition expireLease (c : ClientID) : M Dhcp4 unit := lock_guard leaseLock (
  l ← leaseOf c;
  match l with
  | None => mret tt
  | Some l => expireIP (l_ip l) c;; modify (on_leases (delete c))
  end).

(** [services/dhcp/dhcpv4/IPv4Pool.cpp:275-281] the callbacks of the pool: IPv4Pool.cpp:89-93, 275-281 and 303-306,
    IPv4LeaseManager.cpp:22-24 *)
Definition runCallback (cb : Callback) : M Dhcp4 unit :=
  match cb with
  | EndTemporary ip c => lock_guard poolLock (modify (on_temporary (delete ip));; modify (on_reverseTemporary (delete c)))
  | EndQuarantine ip c => lock_guard poolLock (
      no ← orM (isExcluded ip) (isConflicted ip);
      (if no : bool then mret tt else modify (on_release (fun l => l ++ [ip])));;
      modify (on_quarantined (delete ip));; modify (on_reverseQuarantined (delete c)))
  | EndConflict ip => lock_guard poolLock (modify (on_bad (delete ip)))
  | ExpireLease c => expireLease c
  end.

(** A scheduled timer runs. *)
Definition fire (id : Z) : M Dhcp4 unit :=
  cb ← get (fun s => timers s !! id);
  match cb with Some cb => cancelTimer id;; runCallback cb | None => mret tt end.

(** ** Events *)

Inductive Event4 :=
| AllocateIP (c : ClientID) | AllocateTemporaryIP (c : ClientID)
| AllocateRequestedIP (ip : Z) (c : ClientID) | AllocateRequestedTemporaryIP (ip : Z) (c : ClientID)
| ActivateTemporaryIP (ip : Z) (c : ClientID) | ClearTemporaryOffer (ip : Z)
| ExcludeIP (ip : Z) | RemoveExclusion (ip : Z) | ReleaseIP (ip : Z) (c : ClientID) | ExpireIP (ip : Z) (c : ClientID) | SetConflicted (ip : Z)
| AdjustPool (net len gw : option Z) | SetLeaseManager
| CreateLeaseFromTemp (c : ClientID) (ip lt t1 t2 : Z) | CreateLease (c : ClientID) (lt t1 t2 : Z) | CreateLeaseFromReq (c : ClientID) (ip lt t1 t2 : Z)
| RenewLease (c : ClientID) (lt t1 t2 : Z) | RebindLease (c : ClientID) (ip lt t1 t2 : Z)
| ReleaseLease (c : ClientID) | DeclineLease (c : ClientID) (ip : Z)
| Fire (id : Z).

(** The calls of the server, of the configuration and of the timers. *)
Definition handle4 (ev : Event4) : M Dhcp4 unit :=
  match ev with
  | AllocateIP c => ignore (allocateIP c) | AllocateTemporaryIP c => ignore (allocateTemporaryIP c)
  | AllocateRequestedIP ip c => ignore (allocateRequestedIP ip c) | AllocateRequestedTemporaryIP ip c => ignore (allocateRequestedTemporaryIP ip c)
  | ActivateTemporaryIP ip c => ignore (activateTemporaryIP ip c) | ClearTemporaryOffer ip => clearTemporaryOffer ip
  | ExcludeIP ip => ignore (excludeIP ip) | RemoveExclusion ip => ignore (removeExclusion ip)
  | ReleaseIP ip c => releaseIP ip c | ExpireIP ip c => expireIP ip c | SetConflicted ip => ignore (setConflicted ip)
  | AdjustPool net len gw => ignore (adjustPool net len gw) | SetLeaseManager => setLeaseManager
  | CreateLeaseFromTemp c ip lt t1 t2 => ignore (createLeaseFromTemp c ip lt t1 t2) | CreateLease c lt t1 t2 => ignore (createLease c lt t1 t2)
  | CreateLeaseFromReq c ip lt t1 t2 => ignore (createLeaseFromReq c ip lt t1 t2)
  | RenewLease c lt t1 t2 => ignore (renewLease c lt t1 t2) | RebindLease c ip lt t1 t2 => ignore (rebindLease c ip lt t1 t2)
  | ReleaseLease c => ignore (releaseLease c) | DeclineLease c ip => ignore (declineLease c ip)
  | Fire id => fire id
  end.

Inductive reach4 : Dhcp4 -> Prop :=
| reach4_new : reach4 Dhcp4_new
| reach4_step ev s s' : reach4 s -> handle4 ev s = Ret (tt, s') -> reach4 s'.

(** ** Nothing is handed out *)

(** A pool that has given nothing away: its numbers, whether it is configured,
    and the number of the next timer. *)
Definition quiet (r : Range) (i lm : bool) (n : Z) : Dhcp4 := mkDhcp4 r i ∅ ∅ ∅ ∅ ∅ ∅ ∅ ∅ [] lm false ∅ false ∅ n.

(** Inside a method no other method of the pool can be called. *)
Lemma isAllocated_relock ip s : poolMutex s = true -> isAllocated ip s = UB.
Proof. exact (relock poolLock _ s). Qed.

Lemma isReserved_relock ip s : poolMutex s = true -> isReserved ip s = UB.
Proof. intros H. unfold isReserved, orM. rewrite bind_M, isAllocated_relock by done. done. Qed.

Lemma candidate_cases i s : candidate i s = UB \/ exists ip, candidate i s = Ret (ip, s).
Proof. unfold candidate, get. mrun. destruct (_ =? 0); [by left | right; by eexists]. Qed.

Lemma allocateAt_barren c s : poolMutex s = true -> barren (allocateAt c) s.
Proof.
  intros H i. unfold allocateAt. rewrite bind_M. destruct (candidate_cases i s) as [->|[ip ->]]; [by left|]. rewrite outcome_bind_ret_l. unfold orM, get. mrun.
  destruct (ip =? gateway (pool s)); [by right|]. left. by rewrite isReserved_relock.
Qed.

Lemma offerAt_barren c s : poolMutex s = true -> barren (offerAt c) s.
Proof.
  intros H i. unfold offerAt. rewrite bind_M. destruct (candidate_cases i s) as [->|[ip ->]]; [by left|]. rewrite outcome_bind_ret_l. unfold orM, get. mrun.
  destruct (ip =? gateway (pool s)); [by right|]. left. by rewrite isReserved_relock.
Qed.

(** Runs a method on such a pool. *)
Ltac quiet_run := unfold quiet, get; mrun; repeat (rewrite lookup_empty; cbn).

Lemma allocateIP_quiet c r i lm n : allocateIP c (quiet r i lm n) = UB \/ allocateIP c (quiet r i lm n) = Ret (0, quiet r i lm n).
Proof.
  unfold allocateIP, lock_guard, takeQuarantined, takeReleased. quiet_run.
  match goal with |- context [search ?k 0 (allocateAt c) ?s] => destruct (search_barren (allocateAt c) s k (allocateAt_barren c s eq_refl) 0) as [->| ->] end; [by left | by right].
Qed.

Lemma allocateTemporaryIP_quiet c r i lm n : allocateTemporaryIP c (quiet r i lm n) = UB \/ allocateTemporaryIP c (quiet r i lm n) = Ret (0, quiet r i lm n).
Proof.
  unfold allocateTemporaryIP, lock_guard, renewOffer, takeQuarantined, takeReleased. quiet_run.
  match goal with |- context [search ?k 0 (offerAt c) ?s] => destruct (search_barren (offerAt c) s k (offerAt_barren c s eq_refl) 0) as [->| ->] end; [by left | by right].
Qed.

(** Asking for an address in the range locks the pool twice. *)
Lemma requested_quiet ip c r i lm n : allocateRequestedIP ip c (quiet r i lm n) = Ret (false, quiet r i lm n) \/ allocateRequestedIP ip c (quiet r i lm n) = UB.
Proof.
  unfold allocateRequestedIP, claimQuarantined, unavailable, orM, withinRange, lock_guard. quiet_run. destruct (negb _); [by left|right].
  rewrite isReserved_relock by done. done.
Qed.

Lemma requestedTemporary_quiet ip c r i lm n :
  allocateRequestedTemporaryIP ip c (quiet r i lm n) = Ret (false, quiet r i lm n) \/ allocateRequestedTemporaryIP ip c (quiet r i lm n) = UB.
Proof.
  unfold allocateRequestedTemporaryIP, claimQuarantined, unavailable, orM, withinRange, lock_guard. quiet_run. destruct (negb _); [by left|right].
  rewrite isReserved_relock by done. done.
Qed.

(** A pool is as large as a network, or not configured. *)
Definition sized (n : Z) : Prop := n = 0 \/ exists k, 0 <= k < 32 /\ n = 2 ^ k.

Lemma adjustPool_quiet net len gw r i lm n b s' : adjustPool net len gw (quiet r i lm n) = Ret (b, s') ->
  exists r' i', s' = quiet r' i' lm n /\ (sized (poolSize r) -> sized (poolSize r')).
Proof.
  unfold adjustPool, lock_guard, quiet, get. mrun.
  destruct len as [l|]; [destruct (l <=? 32); [destruct (shl 32 1 (32 - l)) as [z| |] eqn:Es; [|done..]|]|]; cbn; destruct lm; cbn; intros [= <- <-]; eexists _, _; (split; [reflexivity|]); cbn; try done.
  all: intros _; right; unfold shl in Es; destruct ((0 <=? 32 - l) && (32 - l <? 32)) eqn:Eb; [|done]; apply andb_true_iff in Eb as [E1%Z.leb_le E2%Z.ltb_lt];
    injection Es as <-; exists (32 - l); (split; [lia|]); rewrite Z.shiftl_1_l; apply wrap_small; unfold in_width; split; [lia | apply Z.pow_lt_mono_r; lia].
Qed.

Lemma inert_calls r i lm n : let s := quiet r i lm n in
  (forall ip c, inert (activateTemporaryIP ip c) s) /\ (forall ip, inert (clearTemporaryOffer ip) s) /\ (forall ip, inert (excludeIP ip) s) /\
  (forall ip, inert (removeExclusion ip) s) /\ (forall ip c, inert (releaseIP ip c) s) /\ (forall ip c, inert (expireIP ip c) s) /\ (forall ip, inert (setConflicted ip) s).
Proof.
  cbv zeta. repeat match goal with |- _ /\ _ => split end; intros; unfold inert, activateTemporaryIP, clearTemporaryOffer, excludeIP, removeExclusion, releaseIP, expireIP, setConflicted, orM, withinRange, lock_guard;
    quiet_run; try (by left); try (right; by eexists).
  - destruct (negb _); [right; by eexists | left; by rewrite isAllocated_relock].
  - right. eexists. unfold on_excluded. cbn. replace (∅ ∖ {[ip]} : gset Z) with (∅ : gset Z) by set_solver. reflexivity.
Qed.

(** Calls of the lease manager, whose mutex is held while it calls the pool. *)
Lemma inert_leases r i lm n : let s := quiet r i lm n in
  (forall c ip lt t1 t2, inert (createLeaseFromTemp c ip lt t1 t2) s) /\ (forall c lt t1 t2, inert (createLease c lt t1 t2) s) /\
  (forall c ip lt t1 t2, inert (createLeaseFromReq c ip lt t1 t2) s) /\ (forall c lt t1 t2, inert (renewLease c lt t1 t2) s) /\
  (forall c ip lt t1 t2, inert (rebindLease c ip lt t1 t2) s) /\ (forall c, inert (releaseLease c) s) /\ (forall c ip, inert (declineLease c ip) s) /\ (forall id, inert (fire id) s).
Proof.
  cbv zeta. repeat match goal with |- _ /\ _ => split end; intros; unfold inert.
  - unfold createLeaseFromTemp, leaseOf, activateTemporaryIP, lock_guard. quiet_run. right. by eexists.
  - unfold createLease, leaseOf, allocateIP, takeQuarantined, takeReleased, lock_guard. quiet_run.
    match goal with |- context [search ?k 0 (allocateAt c) ?s] => destruct (search_barren (allocateAt c) s k (allocateAt_barren c s eq_refl) 0) as [->| ->] end; [by left | right; by eexists].
  - unfold createLeaseFromReq, leaseOf, allocateRequestedIP, claimQuarantined, unavailable, orM, withinRange, lock_guard. quiet_run.
    destruct (negb _); [right; by eexists | left; by rewrite isReserved_relock].
  - unfold renewLease, leaseOf, lock_guard. quiet_run. right. by eexists.
  - unfold rebindLease, leaseOf, lock_guard. quiet_run. right. by eexists.
  - unfold releaseLease, leaseOf, lock_guard. quiet_run. right. by eexists.
  - unfold declineLease, leaseOf, lock_guard. quiet_run. by left.
  - unfold fire. quiet_run. right. by eexists.
Qed.

Lemma handle4_quiet ev r i lm n s' : handle4 ev (quiet r i lm n) = Ret (tt, s') ->
  exists r' i' lm', s' = quiet r' i' lm' n /\ (sized (poolSize r) -> sized (poolSize r')).
Proof.
  destruct (inert_calls r i lm n) as (C1 & C2 & C3 & C4 & C5 & C6 & C7). destruct (inert_leases r i lm n) as (L1 & L2 & L3 & L4 & L5 & L6 & L7 & L8).
  assert (A1 : forall c, inert (allocateIP c) (quiet r i lm n)) by (intros c; destruct (allocateIP_quiet c r i lm n) as [E|E]; [by left | right; by eexists]).
  assert (A2 : forall c, inert (allocateTemporaryIP c) (quiet r i lm n)) by (intros c; destruct (allocateTemporaryIP_quiet c r i lm n) as [E|E]; [by left | right; by eexists]).
  assert (A3 : forall ip c, inert (allocateRequestedIP ip c) (quiet r i lm n)) by (intros ip c; destruct (requested_quiet ip c r i lm n) as [E|E]; [right; by eexists | by left]).
  assert (A4 : forall ip c, inert (allocateRequestedTemporaryIP ip c) (quiet r i lm n)) by (intros ip c; destruct (requestedTemporary_quiet ip c r i lm n) as [E|E]; [right; by eexists | by left]).
  destruct ev; cbn [handle4]; intros H;
    try (apply inert_ignore in H; [subst s'; by eexists _, _, _ | by auto]); try (apply inert_unit in H; [subst s'; by eexists _, _, _ | by auto]).
  - unfold ignore in H. rewrite bind_M in H. apply outcome_bind_ret_inv in H as ([b s1] & H1 & H). apply adjustPool_quiet in H1 as (r' & i' & -> & Hs). injection H as <-. by eexists _, _, _.
  - injection H as <-. by eexists _, _, _.
Qed.

Lemma reach4_quiet s : reach4 s -> exists r i lm, s = quiet r i lm 1 /\ sized (poolSize r).
Proof.
  induction 1 as [|ev s s' _ (r & i & lm & -> & Hs) H]; [by eexists _, _, _; split; [|left]|].
  apply handle4_quiet in H as (r' & i' & lm' & -> & Hs'). eexists _, _, _. split; [reflexivity | by apply Hs'].
Qed.

(** ** A configured pool *)

(** The first two addresses that are looked at are different. *)
Lemma two_candidates x b d : 2 <= d < 2 ^ 32 -> d mod 2 = 0 -> u32 (b + u32 x mod d) <> u32 (b + u32 (x + 1) mod d).
Proof.
  intros Hd He H. unfold u32, wrap in H. set (y := x mod 2 ^ 32) in *.
  assert (Hy : 0 <= y < 2 ^ 32) by (apply Z.mod_pos_bound; lia).
  assert (Hs : (x + 1) mod 2 ^ 32 = if y =? 2 ^ 32 - 1 then 0 else y + 1).
  { rewrite Z.add_mod by lia. fold y. change (1 mod 2 ^ 32) with 1. destruct (Z.eqb_spec y (2 ^ 32 - 1)) as [E|E]; [rewrite E; reflexivity | apply Z.mod_small; lia]. }
  rewrite Hs in H. pose proof (Z.mod_pos_bound y d ltac:(lia)). set (z := if y =? 2 ^ 32 - 1 then 0 else y + 1) in *. pose proof (Z.mod_pos_bound z d ltac:(lia)).
  assert (Hm : y mod d = z mod d).
  { assert (Hdiv : ((b + y mod d) - (b + z mod d)) mod 2 ^ 32 = 0) by (rewrite Zminus_mod, H, Z.sub_diag; reflexivity).
    apply Z.mod_divide in Hdiv as [q Hq]; [|lia]. nia. }
  assert (Hd' : y - z = 2 * (d / 2 * (y / d - z / d))).
  { pose proof (Z.div_mod y d ltac:(lia)). pose proof (Z.div_mod z d ltac:(lia)). pose proof (Z.div_mod d 2 ltac:(lia)). nia. }
  unfold z in Hd'. destruct (Z.eqb_spec y (2 ^ 32 - 1)); lia.
Qed.

Lemma sized_even n : sized n -> 4 <= n -> 2 <= n - 2 < 2 ^ 32 /\ (n - 2) mod 2 = 0.
Proof.
  intros [->|(k & Hk & ->)] Hn; [lia|]. assert (Hk2 : 1 <= k) by (destruct (decide (k = 0)) as [->|]; lia).
  assert (2 ^ k < 2 ^ 32) by (apply Z.pow_lt_mono_r; lia). split; [lia|].
  replace k with (Z.succ (k - 1)) by lia. rewrite Z.pow_succ_r by lia. replace (2 * 2 ^ (k - 1) - 2) with ((2 ^ (k - 1) - 1) * 2) by lia. apply Z.mod_mul. lia.
Qed.

(** A search that looks at two addresses finds one that is not the gateway, and
    asks whether it is reserved. *)
Lemma search_undefined (f : Z -> M Dhcp4 (option Z)) s k : sized (poolSize (pool s)) -> 4 <= poolSize (pool s) ->
  (forall i ip, candidate i s = Ret (ip, s) -> f i s = if ip =? gateway (pool s) then Ret (None, s) else UB) -> (2 <= k)%nat -> search k 0 f s = UB.
Proof.
  intros Hs Hn Hf Hk. destruct (sized_even _ Hs Hn) as [Hd He]. destruct k as [|[|k]]; [lia..|].
  assert (Hc : forall i, candidate i s = Ret (u32 (baseAddress (pool s) + 1 + u32 (currentAddress (pool s) - baseAddress (pool s) - 1 + i) mod (poolSize (pool s) - 2)), s)).
  { intros i. unfold candidate, get. mrun. rewrite (wrap_small 32 (poolSize (pool s) - 2)) by (unfold in_width; lia). destruct (Z.eqb_spec (poolSize (pool s) - 2) 0); [lia | done]. }
  cbn [search]. rewrite bind_M, (Hf 0 _ (Hc 0)). destruct (_ =? _) eqn:E; [|done]. rewrite outcome_bind_ret_l, bind_M. change (0 + 1) with 1.
  rewrite (Hf 1 _ (Hc 1)), (proj2 (Z.eqb_neq _ _)); [done|]. apply Z.eqb_eq in E. rewrite <- E, Z.add_0_r. apply not_eq_sym. by apply two_candidates.
Qed.

(** C39: Nobody ever gets an address. Whatever the server, the configuration and the
    timers do, as long as it has a result no address is allocated or offered and
    no lease exists; and on a configured pool of four addresses or more, asking
    for any address, or for one in the range, has none: the method holds the
    mutex of the pool and calls another one that locks it. *)
Theorem no_address_is_leased s : reach4 s ->
  leases s = ∅ /\ allocated s = ∅ /\ temporary s = ∅ /\
  (4 <= poolSize (pool s) -> forall c, allocateIP c s = UB /\ allocateTemporaryIP c s = UB) /\
  (forall ip c, baseAddress (pool s) < ip < lastAddress (pool s) -> allocateRequestedIP ip c s = UB /\ allocateRequestedTemporaryIP ip c s = UB).
Proof.
  intros (r & i & lm & -> & Hs)%reach4_quiet. split; [done|]. split; [done|]. split; [done|]. split.
  - intros Hn c. change (poolSize (pool _)) with (poolSize r) in Hn. pose proof (sized_even _ Hs Hn) as [Hd _].
    assert (Hk : (2 <= Z.to_nat (poolSize r - 2))%nat) by lia. split.
    + unfold allocateIP, takeQuarantined, takeReleased, lock_guard. quiet_run. rewrite (wrap_small 32 (poolSize r - 2)) by (unfold in_width; lia).
      rewrite (search_undefined (allocateAt c)); [done | exact Hs | exact Hn | | exact Hk].
      intros j ip Hc. unfold allocateAt. rewrite bind_M, Hc, outcome_bind_ret_l. unfold orM, get. mrun. destruct (ip =? gateway r); [done|]. by rewrite isReserved_relock.
    + unfold allocateTemporaryIP, renewOffer, takeQuarantined, takeReleased, lock_guard. quiet_run.
      rewrite (search_undefined (offerAt c)); [done | exact Hs | exact Hn | | lia].
      intros j ip Hc. unfold offerAt. rewrite bind_M, Hc, outcome_bind_ret_l. unfold orM, get. mrun. destruct (ip =? gateway r); [done|]. by rewrite isReserved_relock.
  - intros ip c Hr. change (baseAddress (pool _)) with (baseAddress r) in Hr. change (lastAddress (pool _)) with (lastAddress r) in Hr.
    assert (Hb : negb ((baseAddress r <? ip) && (ip <? lastAddress r)) = false) by (apply negb_false_iff, andb_true_iff; rewrite !Z.ltb_lt; lia).
    split; unfold allocateRequestedIP, allocateRequestedTemporaryIP, claimQuarantined, unavailable, orM, withinRange, lock_guard; quiet_run; rewrite Hb; cbn; by rewrite isReserved_relock.
Qed.

(** A network of eight addresses. *)
Lemma no_address_is_leased_witness : exists s, reach4 s /\ poolSize (pool s) = 8 /\ leases s = ∅ /\ allocateTemporaryIP [1; 2] s = UB.
Proof.
  set (s1 := ret_or Dhcp4_new (snd <$> handle4 SetLeaseManager Dhcp4_new)).
  set (s2 := ret_or Dhcp4_new (snd <$> handle4 (AdjustPool (Some 167772160) (Some 29) (Some 167772161)) s1)).
  assert (Hr : reach4 s2).
  { apply (reach4_step (AdjustPool (Some 167772160) (Some 29) (Some 167772161)) s1); [|reflexivity]. apply (reach4_step SetLeaseManager Dhcp4_new); [constructor | reflexivity]. }
  exists s2. destruct (no_address_is_leased s2 Hr) as (Hl & _ & _ & Hu & _). split; [exact Hr|]. split; [reflexivity|]. split; [exact Hl|].
  apply Hu. change (4 <= 8). lia.
Defined.
