(* ===== verification/Dhcp6.v ===== *)
(** * Dhcp6: the DHCPv6 address pool and its leases (services/dhcp/dhcpv6)

    [IPv6Pool] draws addresses at random, advertises them for a while, hands
    them out and holds them back after a lease; [IPv6LeaseManager] keeps the
    leases by identity association, with a timer each. As for DHCPv4 each method
    holds a [std::mutex] while it calls others, and any scheduled callback can
    run next. The random numbers are arguments. *)

From S2P Require Import Prelude Locks.

(** ** Data *)

(** [services/dhcp/dhcpv6/Dhcpv6.h:22-40] Dhcpv6StatusCode; the messages are left out *)
Inductive Status :=
| Success | UnspecFail | NoAddrsAvail | NoBinding | NotOnLink | UseMulticast | NoPrefixAvail | UnknownQueryType | MalformedQuery
| NotConfigured | NotAllowed | QueryTerminated | DataMissing | CatchUpComplete | NotSupported | NoStatus.

#[export] Instance Status_eq_dec : EqDecision Status.
Proof. solve_decision. Defined.

Abbreviation ClientID := (list Z).

(** [IAKey] and [IALeaseKey] of Dhcpv6.h: the client, its association, the
    address, and whether the association is a temporary one. *)
Abbreviation IAKey := (ClientID * Z * bool)%type.
Abbreviation IALeaseKey := (ClientID * Z * Z * bool)%type.

(** The key an association has with an address, and back: the kind is left out
    of the braces, and so is that of non-temporary addresses. *)
Definition leaseKey (k : IAKey) (addr : Z) : IALeaseKey := (k.1.1, k.1.2, addr, false).
Definition groupKey (k : IALeaseKey) : IAKey := (k.1.1.1, k.1.1.2, false).
Definition addressOf (k : IALeaseKey) : Z := k.1.2.

(** The callbacks of timers, with what they capture. *)
Inductive Callback :=
| EndAdvertised (k : IALeaseKey)
| EndQuarantine (k : IALeaseKey)
| EndConflict (addr : Z)
| ExpireLease (addr : Z) (k : IAKey).

(** [services/dhcp/dhcpv6/IPv6Pool.h:66-89] IPv6Pool, with the leases of its IPv6LeaseManager (IPv6LeaseManager.h:56-60) and
    the timers *)
Record Dhcp6 := mkDhcp6 {
  base : Z;
  psize : Z;
  init : bool;
  allocated : gset Z;
  advertised : gmap IALeaseKey Z;
  advertisedIPs : gset Z;
  advertisedGroups : gmap IAKey (gset Z);
  quarantined : gmap IALeaseKey Z;
  quarantinedIPs : gset Z;
  excluded : gset Z;
  bad : gmap Z Z;
  poolMutex : bool;
  leases : gmap IAKey (gset Z);
  leaseKeys : gmap Z IAKey;
  leaseTimerIDs : gmap Z Z;
  leaseMutex : bool;
  timers : gmap Z Callback;
  nextTimerId : Z }.

Definition on_base f (s : Dhcp6) := mkDhcp6 (f (base s)) (psize s) (init s) (allocated s) (advertised s) (advertisedIPs s) (advertisedGroups s) (quarantined s) (quarantinedIPs s) (excluded s) (bad s) (poolMutex s) (leases s) (leaseKeys s) (leaseTimerIDs s) (leaseMutex s) (timers s) (nextTimerId s).
Definition on_psize f (s : Dhcp6) := mkDhcp6 (base s) (f (psize s)) (init s) (allocated s) (advertised s) (advertisedIPs s) (advertisedGroups s) (quarantined s) (quarantinedIPs s) (excluded s) (bad s) (poolMutex s) (leases s) (leaseKeys s) (leaseTimerIDs s) (leaseMutex s) (timers s) (nextTimerId s).
Definition on_init f (s : Dhcp6) := mkDhcp6 (base s) (psize s) (f (init s)) (allocated s) (advertised s) (advertisedIPs s) (advertisedGroups s) (quarantined s) (quarantinedIPs s) (excluded s) (bad s) (poolMutex s) (leases s) (leaseKeys s) (leaseTimerIDs s) (leaseMutex s) (timers s) (nextTimerId s).
Definition on_allocated f (s : Dhcp6) := mkDhcp6 (base s) (psize s) (init s) (f (allocated s)) (advertised s) (advertisedIPs s) (advertisedGroups s) (quarantined s) (quarantinedIPs s) (excluded s) (bad s) (poolMutex s) (leases s) (leaseKeys s) (leaseTimerIDs s) (leaseMutex s) (timers s) (nextTimerId s).
Definition on_advertised f (s : Dhcp6) := mkDhcp6 (base s) (psize s) (init s) (allocated s) (f (advertised s)) (advertisedIPs s) (advertisedGroups s) (quarantined s) (quarantinedIPs s) (excluded s) (bad s) (poolMutex s) (leases s) (leaseKeys s) (leaseTimerIDs s) (leaseMutex s) (timers s) (nextTimerId s).
Definition on_advertisedIPs f (s : Dhcp6) := mkDhcp6 (base s) (psize s) (init s) (allocated s) (advertised s) (f (advertisedIPs s)) (advertisedGroups s) (quarantined s) (quarantinedIPs s) (excluded s) (bad s) (poolMutex s) (leases s) (leaseKeys s) (leaseTimerIDs s) (leaseMutex s) (timers s) (nextTimerId s).
Definition on_advertisedGroups f (s : Dhcp6) := mkDhcp6 (base s) (psize s) (init s) (allocated s) (advertised s) (advertisedIPs s) (f (advertisedGroups s)) (quarantined s) (quarantinedIPs s) (excluded s) (bad s) (poolMutex s) (leases s) (leaseKeys s) (leaseTimerIDs s) (leaseMutex s) (timers s) (nextTimerId s).
Definition on_quarantined f (s : Dhcp6) := mkDhcp6 (base s) (psize s) (init s) (allocated s) (advertised s) (advertisedIPs s) (advertisedGroups s) (f (quarantined s)) (quarantinedIPs s) (excluded s) (bad s) (poolMutex s) (leases s) (leaseKeys s) (leaseTimerIDs s) (leaseMutex s) (timers s) (nextTimerId s).
Definition on_quarantinedIPs f (s : Dhcp6) := mkDhcp6 (base s) (psize s) (init s) (allocated s) (advertised s) (advertisedIPs s) (advertisedGroups s) (quarantined s) (f (quarantinedIPs s)) (excluded s) (bad s) (poolMutex s) (leases s) (leaseKeys s) (leaseTimerIDs s) (leaseMutex s) (timers s) (nextTimerId s).
Definition on_excluded f (s : Dhcp6) := mkDhcp6 (base s) (psize s) (init s) (allocated s) (advertised s) (advertisedIPs s) (advertisedGroups s) (quarantined s) (quarantinedIPs s) (f (excluded s)) (bad s) (poolMutex s) (leases s) (leaseKeys s) (leaseTimerIDs s) (leaseMutex s) (timers s) (nextTimerId s).
Definition on_bad f (s : Dhcp6) := mkDhcp6 (base s) (psize s) (init s) (allocated s) (advertised s) (advertisedIPs s) (advertisedGroups s) (quarantined s) (quarantinedIPs s) (excluded s) (f (bad s)) (poolMutex s) (leases s) (leaseKeys s) (leaseTimerIDs s) (leaseMutex s) (timers s) (nextTimerId s).
Definition on_poolMutex f (s : Dhcp6) := mkDhcp6 (base s) (psize s) (init s) (allocated s) (advertised s) (advertisedIPs s) (advertisedGroups s) (quarantined s) (quarantinedIPs s) (excluded s) (bad s) (f (poolMutex s)) (leases s) (leaseKeys s) (leaseTimerIDs s) (leaseMutex s) (timers s) (nextTimerId s).
Definition on_leases f (s : Dhcp6) := mkDhcp6 (base s) (psize s) (init s) (allocated s) (advertised s) (advertisedIPs s) (advertisedGroups s) (quarantined s) (quarantinedIPs s) (excluded s) (bad s) (poolMutex s) (f (leases s)) (leaseKeys s) (leaseTimerIDs s) (leaseMutex s) (timers s) (nextTimerId s).
Definition on_leaseKeys f (s : Dhcp6) := mkDhcp6 (base s) (psize s) (init s) (allocated s) (advertised s) (advertisedIPs s) (advertisedGroups s) (quarantined s) (quarantinedIPs s) (excluded s) (bad s) (poolMutex s) (leases s) (f (leaseKeys s)) (leaseTimerIDs s) (leaseMutex s) (timers s) (nextTimerId s).
Definition on_leaseTimerIDs f (s : Dhcp6) := mkDhcp6 (base s) (psize s) (init s) (allocated s) (advertised s) (advertisedIPs s) (advertisedGroups s) (quarantined s) (quarantinedIPs s) (excluded s) (bad s) (poolMutex s) (leases s) (leaseKeys s) (f (leaseTimerIDs s)) (leaseMutex s) (timers s) (nextTimerId s).
Definition on_leaseMutex f (s : Dhcp6) := mkDhcp6 (base s) (psize s) (init s) (allocated s) (advertised s) (advertisedIPs s) (advertisedGroups s) (quarantined s) (quarantinedIPs s) (excluded s) (bad s) (poolMutex s) (leases s) (leaseKeys s) (leaseTimerIDs s) (f (leaseMutex s)) (timers s) (nextTimerId s).
Definition on_timers f (s : Dhcp6) := mkDhcp6 (base s) (psize s) (init s) (allocated s) (advertised s) (advertisedIPs s) (advertisedGroups s) (quarantined s) (quarantinedIPs s) (excluded s) (bad s) (poolMutex s) (leases s) (leaseKeys s) (leaseTimerIDs s) (leaseMutex s) (f (timers s)) (nextTimerId s).
Definition on_nextTimerId f (s : Dhcp6) := mkDhcp6 (base s) (psize s) (init s) (allocated s) (advertised s) (advertisedIPs s) (advertisedGroups s) (quarantined s) (quarantinedIPs s) (excluded s) (bad s) (poolMutex s) (leases s) (leaseKeys s) (leaseTimerIDs s) (leaseMutex s) (timers s) (f (nextTimerId s)).

(** [services/dhcp/dhcpv6/IPv6Pool.cpp:11-11] IPv6Pool::IPv6Pool *)
Definition Dhcp6_new : Dhcp6 := mkDhcp6 0 0 false ∅ ∅ ∅ ∅ ∅ ∅ ∅ ∅ false ∅ ∅ ∅ false ∅ 1.

Definition get {A} (f : Dhcp6 -> A) : M Dhcp6 A := gets f.

Definition poolLock : Mutex Dhcp6 := mkMutex poolMutex (fun b => on_poolMutex (fun _ => b)).
Definition leaseLock : Mutex Dhcp6 := mkMutex leaseMutex (fun b => on_leaseMutex (fun _ => b)).

(** [core/TimeManager.cpp:19-27] TimeManager::addTimer *)
Definition addTimer (cb : Callback) : M Dhcp6 Z :=
  id ← get nextTimerId; modify (on_timers (insert id cb));; modify (on_nextTimerId (fun n => u32 (n + 1)));; mret id.

(** [TimeManager::cancelTimer], of a timer that has not run. *)
Definition cancelTimer (id : Z) : M Dhcp6 unit := modify (on_timers (delete id)).

(** The short-circuit disjunction. *)
Definition orM {S} (m1 m2 : M S bool) : M S bool := b ← m1; if b : bool then mret true else m2.

(** ** Queries *)

(** [services/dhcp/dhcpv6/IPv6Pool.h:73-73] IPv6Pool::SLAAC_SAFE_OFFSET *)
Definition SLAAC_SAFE_OFFSET : Z := 4096.
(** [services/dhcp/dhcpv6/IPv6Pool.h:74-74] IPv6Pool::MAX_GENERATION_ATTEMPTS *)
Definition MAX_GENERATION_ATTEMPTS : nat := 10 * 1000.

(** [services/dhcp/dhcpv6/IPv6Pool.cpp:300-303] IPv6Pool::isEUI64 *)
Definition isEUI64 (addr : Z) : bool := Z.land (Z.shiftr addr 40) 65535 =? 65534.

(** [services/dhcp/dhcpv6/IPv6Pool.cpp:220-224] IPv6Pool::isAllocated *)
Definition isAllocated (addr : Z) : M Dhcp6 bool := lock_guard poolLock (get (fun s => bool_decide (addr ∈ allocated s))).
(** [services/dhcp/dhcpv6/IPv6Pool.cpp:226-230] IPv6Pool::isQuarantined *)
Definition isQuarantined (addr : Z) : M Dhcp6 bool := lock_guard poolLock (get (fun s => bool_decide (addr ∈ quarantinedIPs s))).
(** [services/dhcp/dhcpv6/IPv6Pool.cpp:232-236] IPv6Pool::isExcluded *)
Definition isExcluded (addr : Z) : M Dhcp6 bool := lock_guard poolLock (get (fun s => bool_decide (addr ∈ excluded s) || isEUI64 addr)).
(** [services/dhcp/dhcpv6/IPv6Pool.cpp:238-242] IPv6Pool::isConflicted *)
Definition isConflicted (addr : Z) : M Dhcp6 bool := lock_guard poolLock (get (fun s => bool_decide (is_Some (bad s !! addr)))).
(** [services/dhcp/dhcpv6/IPv6Pool.cpp:244-248] IPv6Pool::isAdvertised, of an address *)
Definition isAdvertised (addr : Z) : M Dhcp6 bool := lock_guard poolLock (get (fun s => bool_decide (addr ∈ advertisedIPs s))).
(** [services/dhcp/dhcpv6/IPv6Pool.cpp:250-255] IPv6Pool::isAdvertised, of a key *)
Definition isAdvertisedTo (k : IALeaseKey) : M Dhcp6 bool := lock_guard poolLock (get (fun s => bool_decide (is_Some (advertised s !! k)))).
(** [services/dhcp/dhcpv6/IPv6Pool.cpp:290-293] IPv6Pool::withinRange *)
Definition withinRange (addr : Z) : M Dhcp6 bool := get (fun s => (base s <? addr) && (addr <? u128 (base s + psize s))).
(** [services/dhcp/dhcpv6/IPv6Pool.cpp:20-25] IPv6Pool::getIAID *)
Definition getIAID (k : IAKey) : M Dhcp6 (option (gset Z)) := get (fun s => advertisedGroups s !! k).

(** [services/dhcp/dhcpv6/IPv6Pool.cpp:305-312] IPv6Pool::generateRandomIP *)
Definition generateRandomIP (r : Z * Z) : M Dhcp6 Z :=
  s ← get id;
  let offset := u128 (Z.lor (Z.shiftl r.1 64) r.2) in
  let m := u128 (psize s - SLAAC_SAFE_OFFSET - 2) in
  if m =? 0 then undefined else mret (u128 (base s + u128 (SLAAC_SAFE_OFFSET + 1 + offset mod m))).

(** ** Addresses *)

Definition intoGroup (addr : Z) (k : IAKey) (m : gmap IAKey (gset Z)) : gmap IAKey (gset Z) := <[k := {[addr]} ∪ default ∅ (m !! k)]> m.
Definition outOfGroup (addr : Z) (k : IAKey) (m : gmap IAKey (gset Z)) : gmap IAKey (gset Z) :=
  let g := default ∅ (m !! k) ∖ {[addr]} in if decide (g = ∅) then delete k m else <[k := g]> m.

(** An address is advertised under a key. *)
Definition advertise (k : IALeaseKey) : M Dhcp6 unit :=
  id ← addTimer (EndAdvertised k); modify (on_advertised (insert k id));; modify (on_advertisedIPs (union {[addressOf k]}));;
  modify (on_advertisedGroups (intoGroup (addressOf k) (groupKey k))).

(** It no longer is. *)
Definition unadvertise (k : IALeaseKey) : M Dhcp6 unit :=
  modify (on_advertised (delete k));; modify (on_advertisedIPs (fun x => x ∖ {[addressOf k]}));; modify (on_advertisedGroups (outOfGroup (addressOf k) (groupKey k))).

(** [services/dhcp/dhcpv6/IPv6Pool.cpp:34-34] IPv6Pool::allocate, whether an address is taken; so in allocateAdvertised *)
Definition taken (addr : Z) : M Dhcp6 bool := orM (isExcluded addr) (orM (isConflicted addr) (orM (isAllocated addr) (isQuarantined addr))).

(** [services/dhcp/dhcpv6/IPv6Pool.cpp:27-40] IPv6Pool::allocate *)
Definition allocate (rng : Z -> Z * Z) : M Dhcp6 Z := lock_guard poolLock (
  found ← search MAX_GENERATION_ATTEMPTS 0 (fun i =>
    addr ← generateRandomIP (rng i);
    no ← taken addr;
    if no : bool then mret None else modify (on_allocated (union {[addr]}));; mret (Some addr));
  mret (default 0 found)).

(** [services/dhcp/dhcpv6/IPv6Pool.cpp:42-70] IPv6Pool::allocateAdvertised *)
Definition allocateAdvertised (rng : Z -> Z * Z) (k : IAKey) : M Dhcp6 Z := lock_guard poolLock (
  found ← search MAX_GENERATION_ATTEMPTS 0 (fun i =>
    addr ← generateRandomIP (rng i);
    no ← taken addr;
    if no : bool then mret None else advertise (leaseKey k addr);; mret (Some addr));
  mret (default 0 found)).

(** [services/dhcp/dhcpv6/IPv6Pool.cpp:91-96] IPv6Pool::allocateRequestedAdvertised, an address held back for the client: the
    iterator is used after it is erased *)
Definition claimQuarantined (k : IALeaseKey) : M Dhcp6 unit :=
  it ← get (fun s => quarantined s !! k);
  match it with None => mret tt | Some _ => undefined end.

(** [services/dhcp/dhcpv6/IPv6Pool.cpp:98-102] IPv6Pool::allocateRequestedAdvertised, its tests; so in allocateRequested *)
Definition requestStatus (addr : Z) : M Dhcp6 Status :=
  ok ← withinRange addr;
  if negb ok then mret NotOnLink else
  no ← orM (isExcluded addr) (orM (isConflicted addr) (isAdvertised addr));
  mret (if no : bool then NoAddrsAvail else Success).

(** [services/dhcp/dhcpv6/IPv6Pool.cpp:72-108] IPv6Pool::allocateRequestedAdvertised *)
Definition allocateRequestedAdvertised (k : IALeaseKey) : M Dhcp6 Status := lock_guard poolLock (
  claimQuarantined k;; st ← requestStatus (addressOf k);
  if bool_decide (st = Success) then advertise k;; mret Success else mret st).

(** [services/dhcp/dhcpv6/IPv6Pool.cpp:110-129] IPv6Pool::allocateRequested *)
Definition allocateRequested (k : IALeaseKey) : M Dhcp6 Status := lock_guard poolLock (
  claimQuarantined k;; st ← requestStatus (addressOf k);
  if bool_decide (st = Success) then modify (on_allocated (union {[addressOf k]}));; mret Success else mret st).

(** [services/dhcp/dhcpv6/IPv6Pool.cpp:131-145] IPv6Pool::activateAdvertised *)
Definition activateAdvertised (k : IALeaseKey) : M Dhcp6 bool := lock_guard poolLock (
  it ← get (fun s => advertised s !! k);
  match it with
  | None => mret false
  | Some t => cancelTimer t;; unadvertise k;; modify (on_allocated (union {[addressOf k]}));; mret true
  end).

(** [services/dhcp/dhcpv6/IPv6Pool.cpp:147-155] IPv6Pool::clearAdvertisedIP *)
Definition clearAdvertisedIP (k : IALeaseKey) : M Dhcp6 unit := lock_guard poolLock (unadvertise k).

(** [services/dhcp/dhcpv6/IPv6Pool.cpp:157-161] IPv6Pool::release *)
Definition release (addr : Z) : M Dhcp6 unit := lock_guard poolLock (modify (on_allocated (fun x => x ∖ {[addr]}))).

(** [services/dhcp/dhcpv6/IPv6Pool.cpp:163-178] IPv6Pool::expire *)
Definition expire (k : IALeaseKey) : M Dhcp6 unit := lock_guard poolLock (
  a ← isAllocated (addressOf k);
  if negb a then mret tt
  else
    modify (on_allocated (fun x => x ∖ {[addressOf k]}));; id ← addTimer (EndQuarantine k);
    modify (on_quarantined (insert k id));; modify (on_quarantinedIPs (union {[addressOf k]}))).

(** [services/dhcp/dhcpv6/IPv6Pool.cpp:180-185] IPv6Pool::excludeIP *)
Definition excludeIP (addr : Z) : M Dhcp6 bool := lock_guard poolLock (modify (on_excluded (union {[addr]}));; mret true).

(** [services/dhcp/dhcpv6/IPv6Pool.cpp:187-191] IPv6Pool::removeExclusion *)
Definition removeExclusion (addr : Z) : M Dhcp6 bool := lock_guard poolLock (
  b ← get (fun s => bool_decide (addr ∈ excluded s)); modify (on_excluded (fun x => x ∖ {[addr]}));; mret b).

(** [services/dhcp/dhcpv6/IPv6Pool.cpp:193-211] IPv6Pool::setConflicted *)
Definition setConflicted (k : IALeaseKey) : M Dhcp6 bool := lock_guard poolLock (
  a ← isAdvertisedTo k;
  if negb a then mret false
  else unadvertise k;; id ← addTimer (EndConflict (addressOf k)); modify (on_bad (insert (addressOf k) id));; mret true).

(** [services/dhcp/dhcpv6/IPv6Pool.cpp:213-218] IPv6Pool::cleanupBadIPs *)
Definition cleanupBadIPs : M Dhcp6 unit := lock_guard poolLock (
  b ← get bad; modify (on_timers (fun t => foldr delete t (map_to_list b).*2));; modify (on_bad (fun _ => ∅))).

(** [services/dhcp/dhcpv6/IPv6Pool.cpp:262-288] IPv6Pool::adjustPool *)
Definition adjustPool (network len : Z) : M Dhcp6 bool :=
  if 128 <? len then mret false else lock_guard poolLock (
  size ← lift (shl 128 1 (128 - len));
  modify (on_psize (fun _ => size));;
  if size <=? SLAAC_SAFE_OFFSET + 2 then mret false
  else
    modify (on_base (fun _ => network));;
    s ← get id;
    modify (on_timers (fun t => foldr delete t ((map_to_list (advertised s)).*2 ++ (map_to_list (bad s)).*2 ++ (map_to_list (quarantined s)).*2)));;
    modify (on_allocated (fun _ => ∅));; modify (on_advertised (fun _ => ∅));; modify (on_advertisedIPs (fun _ => ∅));; modify (on_advertisedGroups (fun _ => ∅));;
    modify (on_quarantined (fun _ => ∅));; modify (on_quarantinedIPs (fun _ => ∅));; modify (on_excluded (fun _ => ∅));; modify (on_bad (fun _ => ∅));;
    modify (on_init (fun _ => true));; mret true).

(** ** Leases *)

Definition startLease (addr : Z) (k : IAKey) : M Dhcp6 unit := id ← addTimer (ExpireLease addr k); modify (on_leaseTimerIDs (insert addr id)).

Definition recordLease (addr : Z) (k : IAKey) : M Dhcp6 unit := modify (on_leases (intoGroup addr k));; modify (on_leaseKeys (insert addr k)).

(** [services/dhcp/dhcpv6/IPv6LeaseManager.cpp:12-29] IPv6LeaseManager::createLease *)
Definition createLease (rng : Z -> Z * Z) (k : IAKey) : M Dhcp6 (gset Z) := lock_guard leaseLock (
  addr ← allocate rng;
  if addr =? 0 then mret ∅
  else startLease addr k;; recordLease addr k;; get (fun s => default ∅ (leases s !! k))).

(** [services/dhcp/dhcpv6/IPv6LeaseManager.cpp:41-51] IPv6LeaseManager::createLeaseFromAdvertised, an address that is leased
    already; so in createLeaseFromRequest *)
Definition leasedAlready (addr : Z) (k : IAKey) : M Dhcp6 (option Status) :=
  owner ← get (fun s => leaseKeys s !! addr);
  timer ← get (fun s => leaseTimerIDs s !! addr);
  match owner, timer with
  | Some owner, Some t => if bool_decide (owner = k) then cancelTimer t;; startLease addr k;; mret (Some Success) else mret (Some NotOnLink)
  | _, _ => mret None
  end.

(** [services/dhcp/dhcpv6/IPv6LeaseManager.cpp:31-61] IPv6LeaseManager::createLeaseFromAdvertised *)
Definition createLeaseFromAdvertised (addr : Z) (k : IAKey) : M Dhcp6 Status := lock_guard leaseLock (
  st ← leasedAlready addr k;
  match st with
  | Some st => mret st
  | None =>
      ok ← activateAdvertised (leaseKey k addr);
      if negb ok then mret NoAddrsAvail else startLease addr k;; recordLease addr k;; mret Success
  end).

(** [services/dhcp/dhcpv6/IPv6LeaseManager.cpp:63-92] IPv6LeaseManager::createLeaseFromRequest *)
Definition createLeaseFromRequest (addr : Z) (k : IAKey) : M Dhcp6 Status := lock_guard leaseLock (
  st ← leasedAlready addr k;
  match st with
  | Some st => mret st
  | None =>
      code ← allocateRequested (leaseKey k addr);
      if bool_decide (code = Success) then startLease addr k;; recordLease addr k;; mret Success else mret code
  end).

(** The timer of a lease of the association. *)
Definition bound (addr : Z) (k : IAKey) : M Dhcp6 (option Z) :=
  get (fun s => g ← leases s !! k; t ← leaseTimerIDs s !! addr; if decide (addr ∈ g) then Some t else None).

(** [services/dhcp/dhcpv6/IPv6LeaseManager.cpp:94-108] IPv6LeaseManager::renewLease *)
Definition renewLease (addr : Z) (k : IAKey) : M Dhcp6 Status := lock_guard leaseLock (
  t ← bound addr k;
  match t with None => mret NoBinding | Some t => cancelTimer t;; startLease addr k;; mret Success end).

(** [services/dhcp/dhcpv6/IPv6LeaseManager.cpp:110-113] IPv6LeaseManager::rebindLease *)
Definition rebindLease (addr : Z) (k : IAKey) : M Dhcp6 Status := renewLease addr k.

Definition dropLease (addr : Z) (k : IAKey) : M Dhcp6 unit :=
  modify (on_leases (outOfGroup addr k));; modify (on_leaseTimerIDs (delete addr));; modify (on_leaseKeys (delete addr)).

(** [services/dhcp/dhcpv6/IPv6LeaseManager.cpp:115-132] IPv6LeaseManager::releaseLease *)
Definition releaseLease (addr : Z) (k : IAKey) : M Dhcp6 Status := lock_guard leaseLock (
  t ← bound addr k;
  match t with None => mret NoBinding | Some t => cancelTimer t;; release addr;; dropLease addr k;; mret Success end).

(** [services/dhcp/dhcpv6/IPv6LeaseManager.cpp:134-139] IPv6LeaseManager::declineLease *)
Definition declineLease (addr : Z) (k : IAKey) : M Dhcp6 Status := lock_guard leaseLock (
  ok ← setConflicted (leaseKey k addr); mret (if ok : bool then Success else NotOnLink)).

(** [services/dhcp/dhcpv6/IPv6LeaseManager.cpp:141-147] IPv6LeaseManager::getIANA *)
Definition getIANA (k : IAKey) : M Dhcp6 (option (gset Z)) := lock_guard leaseLock (get (fun s => leases s !! k)).

(** [services/dhcp/dhcpv6/IPv6LeaseManager.cpp:149-154] IPv6LeaseManager::isLeased *)
Definition isLeased (addr : Z) (k : IAKey) : M Dhcp6 bool := get (fun s => bool_decide (addr ∈ default ∅ (leases s !! k))).

(** [services/dhcp/dhcpv6/IPv6LeaseManager.cpp:162-177] IPv6LeaseManager::expireLease *)
Definition expireLease (addr : Z) (k : IAKey) : M Dhcp6 unit := lock_guard leaseLock (
  g ← get (fun s => leases s !! k);
  t ← get (fun s => leaseTimerIDs s !! addr);
  match g, t with
  | Some _, Some t => cancelTimer t;; expire (leaseKey k addr);; dropLease addr k
  | _, _ => mret tt
  end).

(** [services/dhcp/dhcpv6/IPv6Pool.cpp:55-62] the callbacks of the pool: IPv6Pool.cpp:55-62, 171-175 and 206-209, and
    IPv6LeaseManager.cpp:20-22 *)
Definition runCallback (cb : Callback) : M Dhcp6 unit :=
  match cb with
  | EndAdvertised k => lock_guard poolLock (unadvertise k)
  | EndQuarantine k => lock_guard poolLock (modify (on_quarantined (delete k));; modify (on_quarantinedIPs (fun x => x ∖ {[addressOf k]})))
  | EndConflict addr => lock_guard poolLock (modify (on_bad (delete addr)))
  | ExpireLease addr k => expireLease addr k
  end.

(** A scheduled timer runs. *)
Definition fire (id : Z) : M Dhcp6 unit :=
  cb ← get (fun s => timers s !! id);
  match cb with Some cb => cancelTimer id;; runCallback cb | None => mret tt end.

(** ** Events *)

Inductive Event6 :=
| Allocate (rng : Z -> Z * Z) | AllocateAdvertised (rng : Z -> Z * Z) (k : IAKey)
| AllocateRequested (k : IALeaseKey) | AllocateRequestedAdvertised (k : IALeaseKey)
| ActivateAdvertised (k : IALeaseKey) | ClearAdvertisedIP (k : IALeaseKey) | Release (addr : Z) | Expire (k : IALeaseKey)
| ExcludeIP (addr : Z) | RemoveExclusion (addr : Z) | SetConflicted (k : IALeaseKey) | CleanupBadIPs | AdjustPool (network len : Z)
| CreateLease (rng : Z -> Z * Z) (k : IAKey) | CreateLeaseFromAdvertised (addr : Z) (k : IAKey) | CreateLeaseFromRequest (addr : Z) (k : IAKey)
| RenewLease (addr : Z) (k : IAKey) | ReleaseLease (addr : Z) (k : IAKey) | DeclineLease (addr : Z) (k : IAKey)
| Fire (id : Z).

(** The calls of the server, of the configuration and of the timers. *)
Definition handle6 (ev : Event6) : M Dhcp6 unit :=
  match ev with
  | Allocate rng => ignore (allocate rng) | AllocateAdvertised rng k => ignore (allocateAdvertised rng k)
  | AllocateRequested k => ignore (allocateRequested k) | AllocateRequestedAdvertised k => ignore (allocateRequestedAdvertised k)
  | ActivateAdvertised k => ignore (activateAdvertised k) | ClearAdvertisedIP k => clearAdvertisedIP k | Release addr => release addr | Expire k => expire k
  | ExcludeIP addr => ignore (excludeIP addr) | RemoveExclusion addr => ignore (removeExclusion addr) | SetConflicted k => ignore (setConflicted k)
  | CleanupBadIPs => cleanupBadIPs | AdjustPool network len => ignore (adjustPool network len)
  | CreateLease rng k => ignore (createLease rng k) | CreateLeaseFromAdvertised addr k => ignore (createLeaseFromAdvertised addr k)
  | CreateLeaseFromRequest addr k => ignore (createLeaseFromRequest addr k)
  | RenewLease addr k => ignore (renewLease addr k) | ReleaseLease addr k => ignore (releaseLease addr k) | DeclineLease addr k => ignore (declineLease addr k)
  | Fire id => fire id
  end.

Inductive reach6 : Dhcp6 -> Prop :=
| reach6_new : reach6 Dhcp6_new
| reach6_step ev s s' : reach6 s -> handle6 ev s = Ret (tt, s') -> reach6 s'.

(** ** Nothing is handed out *)

(** A pool that has given nothing away: its numbers and the exclusions. *)
Definition quiet6 (b n : Z) (i : bool) (ex : gset Z) : Dhcp6 := mkDhcp6 b n i ∅ ∅ ∅ ∅ ∅ ∅ ex ∅ false ∅ ∅ ∅ false ∅ 1.

(** Inside a method no other method of the pool can be called. *)
Lemma isExcluded_relock addr s : poolMutex s = true -> isExcluded addr s = UB.
Proof. exact (relock poolLock _ s). Qed.

Lemma attempts : (0 < MAX_GENERATION_ATTEMPTS)%nat.
Proof. apply Nat.ltb_lt. vm_compute. reflexivity. Qed.

Lemma taken_relock addr s : poolMutex s = true -> taken addr s = UB.
Proof. intros H. unfold taken, orM. rewrite bind_M. by rewrite isExcluded_relock. Qed.

(** A turn of a search: a random address is drawn, and whether it is taken is
    asked. *)
Lemma draw_undefined {A} (rng : Z -> Z * Z) s (f : Z -> bool -> M Dhcp6 (option A)) i : poolMutex s = true ->
  (addr ← generateRandomIP (rng i); no ← taken addr; f addr no) s = UB.
Proof.
  intros H. rewrite bind_M. unfold generateRandomIP, get. mrun. destruct (_ =? 0); [done|]. by rewrite taken_relock.
Qed.

(** Runs a method on such a pool. *)
Ltac quiet_run6 := unfold quiet6, get; mrun; repeat (rewrite lookup_empty; cbn).

Lemma allocate_undefined rng b n i ex : allocate rng (quiet6 b n i ex) = UB.
Proof.
  unfold allocate, lock_guard. cbn [held poolLock poolMutex quiet6]. rewrite bind_M, search_first; [done | apply attempts | by apply draw_undefined].
Qed.

Lemma allocateAdvertised_undefined rng k b n i ex : allocateAdvertised rng k (quiet6 b n i ex) = UB.
Proof.
  unfold allocateAdvertised, lock_guard. cbn [held poolLock poolMutex quiet6]. rewrite bind_M, search_first; [done | apply attempts | by apply draw_undefined].
Qed.

(** An address in the range cannot be asked for. *)
Lemma requested6 k b n i ex : let no := negb ((b <? addressOf k) && (addressOf k <? u128 (b + n))) in
  allocateRequested k (quiet6 b n i ex) = (if no then Ret (NotOnLink, quiet6 b n i ex) else UB) /\
  allocateRequestedAdvertised k (quiet6 b n i ex) = (if no then Ret (NotOnLink, quiet6 b n i ex) else UB).
Proof.
  unfold allocateRequested, allocateRequestedAdvertised, claimQuarantined, requestStatus, withinRange, orM, lock_guard. quiet_run6.
  by destruct (negb _).
Qed.

Lemma difference_empty_l (addr : Z) : (∅ ∖ {[addr]} : gset Z) = ∅.
Proof. set_solver. Qed.

Lemma outOfGroup_empty addr k : outOfGroup addr k ∅ = ∅.
Proof. unfold outOfGroup. rewrite lookup_empty. cbn. by rewrite decide_True, delete_empty by apply difference_empty_l. Qed.

Lemma inert_calls6 b n i ex : let s := quiet6 b n i ex in
  (forall rng, inert (allocate rng) s) /\ (forall rng k, inert (allocateAdvertised rng k) s) /\ (forall k, inert (allocateRequested k) s) /\ (forall k, inert (allocateRequestedAdvertised k) s) /\
  (forall k, inert (activateAdvertised k) s) /\ (forall k, inert (clearAdvertisedIP k) s) /\ (forall addr, inert (release addr) s) /\ (forall k, inert (expire k) s) /\
  (forall k, inert (setConflicted k) s) /\ inert cleanupBadIPs s.
Proof.
  cbv zeta. repeat match goal with |- _ /\ _ => split end; intros; unfold inert.
  - left. apply allocate_undefined.
  - left. apply allocateAdvertised_undefined.
  - destruct (requested6 k b n i ex) as [-> _]. destruct (negb _); [right; by eexists | by left].
  - destruct (requested6 k b n i ex) as [_ ->]. destruct (negb _); [right; by eexists | by left].
  - unfold activateAdvertised, lock_guard. quiet_run6. right. by eexists.
  - unfold clearAdvertisedIP, unadvertise, lock_guard. quiet_run6. right. exists tt. unfold on_advertisedGroups, on_advertisedIPs, on_advertised. cbn.
    by rewrite outOfGroup_empty, difference_empty_l, delete_empty.
  - unfold release, lock_guard. quiet_run6. right. exists tt. unfold on_allocated. cbn. by rewrite difference_empty_l.
  - unfold expire, lock_guard. quiet_run6. by left.
  - unfold setConflicted, lock_guard. quiet_run6. by left.
  - unfold cleanupBadIPs, lock_guard. quiet_run6. right. by eexists.
Qed.

(** Calls of the lease manager, whose mutex is held while it calls the pool. *)
Lemma inert_leases6 b n i ex : let s := quiet6 b n i ex in
  (forall rng k, inert (createLease rng k) s) /\ (forall addr k, inert (createLeaseFromAdvertised addr k) s) /\ (forall addr k, inert (createLeaseFromRequest addr k) s) /\
  (forall addr k, inert (renewLease addr k) s) /\ (forall addr k, inert (releaseLease addr k) s) /\ (forall addr k, inert (declineLease addr k) s) /\ (forall id, inert (fire id) s).
Proof.
  cbv zeta. repeat match goal with |- _ /\ _ => split end; intros; unfold inert.
  - left. unfold createLease, allocate, lock_guard. cbn [held leaseLock leaseMutex quiet6]. rewrite bind_M. cbn [held poolLock poolMutex set_held].
    rewrite bind_M, search_first; [done | apply attempts | by apply draw_undefined].
  - unfold createLeaseFromAdvertised, leasedAlready, activateAdvertised, lock_guard. quiet_run6. right. by eexists.
  - unfold createLeaseFromRequest, leasedAlready, allocateRequested, claimQuarantined, requestStatus, withinRange, orM, lock_guard. quiet_run6.
    destruct (negb _); [right; by eexists | by left].
  - unfold renewLease, bound, lock_guard. quiet_run6. right. by eexists.
  - unfold releaseLease, bound, lock_guard. quiet_run6. right. by eexists.
  - unfold declineLease, setConflicted, lock_guard. quiet_run6. by left.
  - unfold fire. quiet_run6. right. by eexists.
Qed.

(** A new configuration of the pool, after its size is known. *)
Lemma adjustPool6_body network size b n i ex r s' :
  (modify (on_psize (fun _ => size));;
  if size <=? SLAAC_SAFE_OFFSET + 2 then mret false
  else
    modify (on_base (fun _ => network));;
    s ← get id;
    modify (on_timers (fun t => foldr delete t ((map_to_list (advertised s)).*2 ++ (map_to_list (bad s)).*2 ++ (map_to_list (quarantined s)).*2)));;
    modify (on_allocated (fun _ => ∅));; modify (on_advertised (fun _ => ∅));; modify (on_advertisedIPs (fun _ => ∅));; modify (on_advertisedGroups (fun _ => ∅));;
    modify (on_quarantined (fun _ => ∅));; modify (on_quarantinedIPs (fun _ => ∅));; modify (on_excluded (fun _ => ∅));; modify (on_bad (fun _ => ∅));;
    modify (on_init (fun _ => true));; mret true) (on_poolMutex (fun _ => true) (quiet6 b n i ex)) = Ret (r, s') ->
  exists b' n' i' ex', s' = on_poolMutex (fun _ => true) (quiet6 b' n' i' ex').
Proof.
  intros H. rewrite bind_modify in H. destruct (size <=? _); [injection H as <- <-; by eexists _, _, _, _|].
  unfold get in H. rewrite bind_modify, bind_gets in H.
  set (l := (map_to_list (advertised _)).*2 ++ _) in H. assert (El : l = []) by (unfold l; cbn; by rewrite !map_to_list_empty). clearbody l. subst l.
  rewrite !bind_modify in H. injection H as _ <-. by eexists _, _, _, _.
Qed.

Lemma adjustPool6 network len b n i ex r s' : adjustPool network len (quiet6 b n i ex) = Ret (r, s') -> exists b' n' i' ex', s' = quiet6 b' n' i' ex'.
Proof.
  unfold adjustPool. destruct (128 <? len); [intros [= <- <-]; by eexists _, _, _, _|].
  unfold lock_guard. cbn [held poolLock poolMutex quiet6 set_held]. intros H. apply outcome_bind_ret_inv in H as ([r1 s1] & H & [= <- <-]).
  rewrite bind_M in H. apply outcome_bind_ret_inv in H as ([size s2] & Hs & H). unfold lift in Hs. apply outcome_bind_ret_inv in Hs as (z & _ & Hs). injection Hs as <- <-.
  apply adjustPool6_body in H as (b' & n' & i' & ex' & ->). by eexists _, _, _, _.
Qed.

Lemma handle6_quiet ev b n i ex s' : handle6 ev (quiet6 b n i ex) = Ret (tt, s') -> exists b' n' i' ex', s' = quiet6 b' n' i' ex'.
Proof.
  destruct (inert_calls6 b n i ex) as (C1 & C2 & C3 & C4 & C5 & C6 & C7 & C8 & C9 & C10). destruct (inert_leases6 b n i ex) as (L1 & L2 & L3 & L4 & L5 & L6 & L7).
  destruct ev; cbn [handle6]; intros H;
    try (apply inert_ignore in H; [subst s'; by eexists _, _, _, _ | by auto]); try (apply inert_unit in H; [subst s'; by eexists _, _, _, _ | by auto]).
  - injection H as <-. by eexists _, _, _, _.
  - injection H as <-. by eexists _, _, _, _.
  - unfold ignore in H. rewrite bind_M in H. apply outcome_bind_ret_inv in H as ([r s1] & H1 & H). apply adjustPool6 in H1 as (b' & n' & i' & ex' & ->). injection H as <-. by eexists _, _, _, _.
Qed.

Lemma reach6_quiet s : reach6 s -> exists b n i ex, s = quiet6 b n i ex.
Proof. induction 1 as [|ev s s' _ (b & n & i & ex & ->) H]; [by eexists _, _, _, _ | by apply handle6_quiet in H]. Qed.

(** No client ever gets an IPv6 address. Whatever the server, the configuration
    and the timers do, as long as it has a result no address is allocated or
    advertised and no lease exists: drawing an address never has a result, nor
    has asking for one in the range, since a method that holds the mutex of the
    pool calls another one that locks it. *)
Theorem no_ipv6_address_is_leased s : reach6 s ->
  leases s = ∅ /\ allocated s = ∅ /\ advertised s = ∅ /\
  (forall rng k, allocate rng s = UB /\ allocateAdvertised rng k s = UB) /\
  (forall k, base s < addressOf k < u128 (base s + psize s) -> allocateRequested k s = UB /\ allocateRequestedAdvertised k s = UB).
Proof.
  intros (b & n & i & ex & ->)%reach6_quiet. repeat (split; [done|]). split.
  - intros rng k. split; [apply allocate_undefined | apply allocateAdvertised_undefined].
  - intros k Hr. cbn in Hr. destruct (requested6 k b n i ex) as [-> ->]. assert (E : negb ((b <? addressOf k) && (addressOf k <? u128 (b + n))) = false); [|by rewrite E].
    apply negb_false_iff, andb_true_iff. rewrite !Z.ltb_lt. exact Hr.
Qed.

(** A network of 2^64 addresses. *)
Lemma no_ipv6_address_is_leased_witness : exists s, reach6 s /\ psize s = 2 ^ 64 /\ leases s = ∅ /\ forall rng, allocate rng s = UB.
Proof.
  set (s := ret_or Dhcp6_new (snd <$> handle6 (AdjustPool (Z.shiftl 2306139568115548160 64) 64) Dhcp6_new)).
  assert (Hr : reach6 s) by (apply (reach6_step (AdjustPool (Z.shiftl 2306139568115548160 64) 64) Dhcp6_new); [constructor | reflexivity]).
  exists s. destruct (no_ipv6_address_is_leased s Hr) as (Hl & _ & _ & Hu & _). split; [exact Hr|]. split; [reflexivity|]. split; [exact Hl|]. intros rng. apply (Hu rng ([], 0, false)).
Defined.
