(* ===== verification/DhcpPd.v ===== *)
(** * DhcpPd: the pool of delegated prefixes and their leases (services/dhcp/dhcpv6)

    [PrefixPool] cuts a prefix into longer ones and delegates them;
    [PrefixLeaseManager] keeps the delegations by identity association, with a
    timer each. The methods are like those of the address pool; the prefix of a
    request is made by the constructor of [IPv6Prefix]. *)

From S2P Require Import Prelude IPAddress Locks Dhcp6.

#[export] Instance IPv6Prefix_eq_dec : EqDecision IPv6Prefix.
Proof. solve_decision. Defined.
#[export] Instance IPv6Prefix_countable : Countable IPv6Prefix.
Proof. refine (inj_countable' (fun p => (p6_addr p, p6_len p)) (fun q => mkIPv6Prefix q.1 q.2) _). by intros []. Defined.

(** ** Data *)

(** [IAPrefixKey] of Dhcpv6.h: the client, its association, and the prefix as
    it is asked for. *)
Abbreviation IAPrefixKey := (ClientID * Z * Z * Z)%type.

Definition kAddr (k : IAPrefixKey) : Z := k.1.2.
Definition kLen (k : IAPrefixKey) : Z := k.2.
Definition prefixKey (k : IAKey) (p : IPv6Prefix) : IAPrefixKey := (k.1.1, k.1.2, p6_addr p, p6_len p).
Definition prefixGroup (k : IAPrefixKey) : IAKey := (k.1.1.1, k.1.1.2, false).

(** The callbacks of timers, with what they capture. *)
Inductive Callback :=
| EndAdvertised (k : IAPrefixKey) (p : IPv6Prefix)
| EndRequested (k : IAPrefixKey)
| EndQuarantine (k : IAPrefixKey)
| EndConflict (p : IPv6Prefix)
| ExpirePrefix (p : IPv6Prefix) (k : IAKey).

(** [services/dhcp/dhcpv6/PrefixPool.h:55-77] PrefixPool, with the delegations of its PrefixLeaseManager
    (PrefixLeaseManager.h:54-58) and the timers *)
Record DhcpPd := mkDhcpPd {
  base : IPv6Prefix;
  delegationLength : Z;
  psize : Z;
  allocated : gset IPv6Prefix;
  advertised : gmap IAPrefixKey Z;
  advertisedPDs : gset IPv6Prefix;
  advertisedGroups : gmap IAKey (gset IPv6Prefix);
  quarantined : gmap IAPrefixKey Z;
  quarantinedPDs : gset IPv6Prefix;
  excluded : gset IPv6Prefix;
  bad : gmap IPv6Prefix Z;
  poolMutex : bool;
  prefixes : gmap IAKey (gset IPv6Prefix);
  prefixKeys : gmap IPv6Prefix IAKey;
  prefixTimerIDs : gmap IPv6Prefix Z;
  leaseMutex : bool;
  timers : gmap Z Callback;
  nextTimerId : Z }.

Definition on_base f (s : DhcpPd) := mkDhcpPd (f (base s)) (delegationLength s) (psize s) (allocated s) (advertised s) (advertisedPDs s) (advertisedGroups s) (quarantined s) (quarantinedPDs s) (excluded s) (bad s) (poolMutex s) (prefixes s) (prefixKeys s) (prefixTimerIDs s) (leaseMutex s) (timers s) (nextTimerId s).
Definition on_delegationLength f (s : DhcpPd) := mkDhcpPd (base s) (f (delegationLength s)) (psize s) (allocated s) (advertised s) (advertisedPDs s) (advertisedGroups s) (quarantined s) (quarantinedPDs s) (excluded s) (bad s) (poolMutex s) (prefixes s) (prefixKeys s) (prefixTimerIDs s) (leaseMutex s) (timers s) (nextTimerId s).
Definition on_psize f (s : DhcpPd) := mkDhcpPd (base s) (delegationLength s) (f (psize s)) (allocated s) (advertised s) (advertisedPDs s) (advertisedGroups s) (quarantined s) (quarantinedPDs s) (excluded s) (bad s) (poolMutex s) (prefixes s) (prefixKeys s) (prefixTimerIDs s) (leaseMutex s) (timers s) (nextTimerId s).
Definition on_allocated f (s : DhcpPd) := mkDhcpPd (base s) (delegationLength s) (psize s) (f (allocated s)) (advertised s) (advertisedPDs s) (advertisedGroups s) (quarantined s) (quarantinedPDs s) (excluded s) (bad s) (poolMutex s) (prefixes s) (prefixKeys s) (prefixTimerIDs s) (leaseMutex s) (timers s) (nextTimerId s).
Definition on_advertised f (s : DhcpPd) := mkDhcpPd (base s) (delegationLength s) (psize s) (allocated s) (f (advertised s)) (advertisedPDs s) (advertisedGroups s) (quarantined s) (quarantinedPDs s) (excluded s) (bad s) (poolMutex s) (prefixes s) (prefixKeys s) (prefixTimerIDs s) (leaseMutex s) (timers s) (nextTimerId s).
Definition on_advertisedPDs f (s : DhcpPd) := mkDhcpPd (base s) (delegationLength s) (psize s) (allocated s) (advertised s) (f (advertisedPDs s)) (advertisedGroups s) (quarantined s) (quarantinedPDs s) (excluded s) (bad s) (poolMutex s) (prefixes s) (prefixKeys s) (prefixTimerIDs s) (leaseMutex s) (timers s) (nextTimerId s).
Definition on_advertisedGroups f (s : DhcpPd) := mkDhcpPd (base s) (delegationLength s) (psize s) (allocated s) (advertised s) (advertisedPDs s) (f (advertisedGroups s)) (quarantined s) (quarantinedPDs s) (excluded s) (bad s) (poolMutex s) (prefixes s) (prefixKeys s) (prefixTimerIDs s) (leaseMutex s) (timers s) (nextTimerId s).
Definition on_quarantined f (s : DhcpPd) := mkDhcpPd (base s) (delegationLength s) (psize s) (allocated s) (advertised s) (advertisedPDs s) (advertisedGroups s) (f (quarantined s)) (quarantinedPDs s) (excluded s) (bad s) (poolMutex s) (prefixes s) (prefixKeys s) (prefixTimerIDs s) (leaseMutex s) (timers s) (nextTimerId s).
Definition on_quarantinedPDs f (s : DhcpPd) := mkDhcpPd (base s) (delegationLength s) (psize s) (allocated s) (advertised s) (advertisedPDs s) (advertisedGroups s) (quarantined s) (f (quarantinedPDs s)) (excluded s) (bad s) (poolMutex s) (prefixes s) (prefixKeys s) (prefixTimerIDs s) (leaseMutex s) (timers s) (nextTimerId s).
Definition on_excluded f (s : DhcpPd) := mkDhcpPd (base s) (delegationLength s) (psize s) (allocated s) (advertised s) (advertisedPDs s) (advertisedGroups s) (quarantined s) (quarantinedPDs s) (f (excluded s)) (bad s) (poolMutex s) (prefixes s) (prefixKeys s) (prefixTimerIDs s) (leaseMutex s) (timers s) (nextTimerId s).
Definition on_bad f (s : DhcpPd) := mkDhcpPd (base s) (delegationLength s) (psize s) (allocated s) (advertised s) (advertisedPDs s) (advertisedGroups s) (quarantined s) (quarantinedPDs s) (excluded s) (f (bad s)) (poolMutex s) (prefixes s) (prefixKeys s) (prefixTimerIDs s) (leaseMutex s) (timers s) (nextTimerId s).
Definition on_poolMutex f (s : DhcpPd) := mkDhcpPd (base s) (delegationLength s) (psize s) (allocated s) (advertised s) (advertisedPDs s) (advertisedGroups s) (quarantined s) (quarantinedPDs s) (excluded s) (bad s) (f (poolMutex s)) (prefixes s) (prefixKeys s) (prefixTimerIDs s) (leaseMutex s) (timers s) (nextTimerId s).
Definition on_prefixes f (s : DhcpPd) := mkDhcpPd (base s) (delegationLength s) (psize s) (allocated s) (advertised s) (advertisedPDs s) (advertisedGroups s) (quarantined s) (quarantinedPDs s) (excluded s) (bad s) (poolMutex s) (f (prefixes s)) (prefixKeys s) (prefixTimerIDs s) (leaseMutex s) (timers s) (nextTimerId s).
Definition on_prefixKeys f (s : DhcpPd) := mkDhcpPd (base s) (delegationLength s) (psize s) (allocated s) (advertised s) (advertisedPDs s) (advertisedGroups s) (quarantined s) (quarantinedPDs s) (excluded s) (bad s) (poolMutex s) (prefixes s) (f (prefixKeys s)) (prefixTimerIDs s) (leaseMutex s) (timers s) (nextTimerId s).
Definition on_prefixTimerIDs f (s : DhcpPd) := mkDhcpPd (base s) (delegationLength s) (psize s) (allocated s) (advertised s) (advertisedPDs s) (advertisedGroups s) (quarantined s) (quarantinedPDs s) (excluded s) (bad s) (poolMutex s) (prefixes s) (prefixKeys s) (f (prefixTimerIDs s)) (leaseMutex s) (timers s) (nextTimerId s).
Definition on_leaseMutex f (s : DhcpPd) := mkDhcpPd (base s) (delegationLength s) (psize s) (allocated s) (advertised s) (advertisedPDs s) (advertisedGroups s) (quarantined s) (quarantinedPDs s) (excluded s) (bad s) (poolMutex s) (prefixes s) (prefixKeys s) (prefixTimerIDs s) (f (leaseMutex s)) (timers s) (nextTimerId s).
Definition on_timers f (s : DhcpPd) := mkDhcpPd (base s) (delegationLength s) (psize s) (allocated s) (advertised s) (advertisedPDs s) (advertisedGroups s) (quarantined s) (quarantinedPDs s) (excluded s) (bad s) (poolMutex s) (prefixes s) (prefixKeys s) (prefixTimerIDs s) (leaseMutex s) (f (timers s)) (nextTimerId s).
Definition on_nextTimerId f (s : DhcpPd) := mkDhcpPd (base s) (delegationLength s) (psize s) (allocated s) (advertised s) (advertisedPDs s) (advertisedGroups s) (quarantined s) (quarantinedPDs s) (excluded s) (bad s) (poolMutex s) (prefixes s) (prefixKeys s) (prefixTimerIDs s) (leaseMutex s) (timers s) (f (nextTimerId s)).

(** [services/dhcp/dhcpv6/PrefixPool.cpp:8-12] PrefixPool::PrefixPool *)
Definition DhcpPd_new (b : IPv6Prefix) (dl : Z) : outcome DhcpPd :=
  n ← shl 128 1 (dl - p6_len b); Ret (mkDhcpPd b dl n ∅ ∅ ∅ ∅ ∅ ∅ ∅ ∅ false ∅ ∅ ∅ false ∅ 1).

Definition get {A} (f : DhcpPd -> A) : M DhcpPd A := gets f.

Definition poolLock : Mutex DhcpPd := mkMutex poolMutex (fun b => on_poolMutex (fun _ => b)).
Definition leaseLock : Mutex DhcpPd := mkMutex leaseMutex (fun b => on_leaseMutex (fun _ => b)).

(** [core/TimeManager.cpp:19-27] TimeManager::addTimer *)
Definition addTimer (cb : Callback) : M DhcpPd Z :=
  id ← get nextTimerId; modify (on_timers (insert id cb));; modify (on_nextTimerId (fun n => u32 (n + 1)));; mret id.

(** [TimeManager::cancelTimer], of a timer that has not run. *)
Definition cancelTimer (id : Z) : M DhcpPd unit := modify (on_timers (delete id)).

(** ** Queries *)

(** [services/dhcp/dhcpv6/PrefixPool.h:72-72] PrefixPool::MAX_GENERATION_ATTEMPTS *)
Definition MAX_GENERATION_ATTEMPTS : Z := 1000.

(** [services/dhcp/dhcpv6/PrefixPool.cpp:233-237] PrefixPool::isAllocated *)
Definition isAllocated (p : IPv6Prefix) : M DhcpPd bool := lock_guard poolLock (get (fun s => bool_decide (p ∈ allocated s))).
(** [services/dhcp/dhcpv6/PrefixPool.cpp:239-243] PrefixPool::isAdvertised *)
Definition isAdvertised (p : IPv6Prefix) : M DhcpPd bool := lock_guard poolLock (get (fun s => bool_decide (p ∈ advertisedPDs s))).
(** [services/dhcp/dhcpv6/PrefixPool.cpp:245-249] PrefixPool::isQuarantined *)
Definition isQuarantined (p : IPv6Prefix) : M DhcpPd bool := lock_guard poolLock (get (fun s => bool_decide (p ∈ quarantinedPDs s))).
(** [services/dhcp/dhcpv6/PrefixPool.cpp:251-255] PrefixPool::isExcluded *)
Definition isExcluded (p : IPv6Prefix) : M DhcpPd bool := lock_guard poolLock (get (fun s => bool_decide (p ∈ excluded s))).
(** [services/dhcp/dhcpv6/PrefixPool.cpp:257-261] PrefixPool::isConflicted *)
Definition isConflicted (p : IPv6Prefix) : M DhcpPd bool := lock_guard poolLock (get (fun s => bool_decide (is_Some (bad s !! p)))).
(** [services/dhcp/dhcpv6/PrefixPool.cpp:21-26] PrefixPool::getIAID *)
Definition getIAID (k : IAKey) : M DhcpPd (option (gset IPv6Prefix)) := get (fun s => advertisedGroups s !! k).
(** [services/dhcp/dhcpv6/PrefixPool.cpp:287-298] PrefixPool::isFull: the sum is a size_t *)
Definition isFull : M DhcpPd bool := lock_guard poolLock (get (fun s =>
  bool_decide (psize s <= u64 (Z.of_nat (size (allocated s) + size (advertisedPDs s) + size (quarantinedPDs s) + size (bad s) + size (excluded s)))))).

(** [services/dhcp/dhcpv6/PrefixPool.cpp:35-35] PrefixPool::withinRange, its test *)
Definition inRange (b : IPv6Prefix) (n : Z) (p : IPv6Prefix) : bool :=
  (p6_addr b <=? p6_addr p) && (p6_addr p <? u128 (p6_addr b + n)) && (p6_len p <=? p6_len b).
(** [services/dhcp/dhcpv6/PrefixPool.cpp:33-36] PrefixPool::withinRange *)
Definition withinRange (p : IPv6Prefix) : M DhcpPd bool := get (fun s => inRange (base s) (psize s) p).

(** [services/dhcp/dhcpv6/PrefixPool.cpp:44-51] PrefixPool::generatePrefix *)
Definition generatePrefix (index len : Z) : M DhcpPd IPv6Prefix :=
  step ← lift (shl 128 1 (128 - len));
  get (fun s => mkIPv6Prefix (u128 (p6_addr (base s) + index * step)) len).

(** [services/dhcp/dhcpv6/PrefixPool.cpp:38-42] PrefixPool::prefixMatches *)
Definition prefixMatches (a b len : Z) : outcome bool :=
  mask ← shl 128 (2 ^ 128 - 1) (128 - len); Ret (Z.land a mask =? Z.land b mask).

(** ** Delegating *)

(** [services/dhcp/dhcpv6/PrefixPool.cpp:57-58] PrefixPool::allocatePrefix, the length of the prefix, if it is not too short; so in
    the other methods *)
Definition effectiveLength (requested : Z) : M DhcpPd (option Z) :=
  s ← get id;
  let e := if 64 <? requested then delegationLength s else Z.max requested (delegationLength s) in
  mret (if e <? p6_len (base s) then None else Some e).

(** [services/dhcp/dhcpv6/PrefixPool.cpp:67-67] PrefixPool::allocatePrefix, whether a prefix cannot be had *)
Definition taken (p : IPv6Prefix) : M DhcpPd bool :=
  orM (b ← withinRange p; mret (negb b)) (orM (isAllocated p) (orM (isExcluded p) (orM (isConflicted p) (isAdvertised p)))).

(** [services/dhcp/dhcpv6/PrefixPool.cpp:60-72] PrefixPool::allocatePrefix, the search *)
Definition searchPrefix (e : Z) (use : IPv6Prefix -> M DhcpPd unit) : M DhcpPd (option IPv6Prefix) :=
  b ← get base;
  count ← lift (shl 128 1 (e - p6_len b));
  search (Z.to_nat (Z.min count MAX_GENERATION_ATTEMPTS)) 0 (fun i =>
    p ← generatePrefix i e;
    no ← taken p;
    if no : bool then mret None else use p;; mret (Some p)).

(** A prefix without a value. *)
Definition noPrefix : IPv6Prefix := mkIPv6Prefix 0 0.

(** [services/dhcp/dhcpv6/PrefixPool.cpp:53-74] PrefixPool::allocatePrefix *)
Definition allocatePrefix (requested : Z) : M DhcpPd (IPv6Prefix * Status) := lock_guard poolLock (
  e ← effectiveLength requested;
  match e with
  | None => mret (noPrefix, UnspecFail)
  | Some e =>
      found ← searchPrefix e (fun p => modify (on_allocated (union {[p]})));
      mret (match found with Some p => (p, Success) | None => (noPrefix, NoPrefixAvail) end)
  end).

Definition advertise (k : IAPrefixKey) (p : IPv6Prefix) (cb : Callback) : M DhcpPd unit :=
  id ← addTimer cb; modify (on_advertised (insert k id));; modify (on_advertisedPDs (union {[p]})).

Definition intoGroup (p : IPv6Prefix) (k : IAKey) (m : gmap IAKey (gset IPv6Prefix)) : gmap IAKey (gset IPv6Prefix) := <[k := {[p]} ∪ default ∅ (m !! k)]> m.
Definition outOfGroup (p : IPv6Prefix) (k : IAKey) (m : gmap IAKey (gset IPv6Prefix)) : gmap IAKey (gset IPv6Prefix) :=
  let g := default ∅ (m !! k) ∖ {[p]} in if decide (g = ∅) then delete k m else <[k := g]> m.

(** [services/dhcp/dhcpv6/PrefixPool.cpp:76-112] PrefixPool::allocateAdvertisedPrefix *)
Definition allocateAdvertisedPrefix (k : IAKey) (requested : Z) : M DhcpPd (IPv6Prefix * Status) := lock_guard poolLock (
  e ← effectiveLength requested;
  match e with
  | None => mret (noPrefix, UnspecFail)
  | Some e =>
      found ← searchPrefix e (fun p =>
        let pk := prefixKey k p in
        member ← lift (IPv6Prefix_u128 (kAddr pk) (kLen pk) false);
        advertise pk p (EndAdvertised pk p);; modify (on_advertisedGroups (intoGroup member (prefixGroup pk))));
      mret (match found with Some p => (p, Success) | None => (noPrefix, NoPrefixAvail) end)
  end).

(** [services/dhcp/dhcpv6/PrefixPool.cpp:122-127] PrefixPool::allocateRequestedAdvertisedPrefix, a prefix held back for the client *)
Definition claimQuarantined (k : IAPrefixKey) (p : IPv6Prefix) : M DhcpPd unit :=
  it ← get (fun s => quarantined s !! k);
  match it with
  | None => mret tt
  | Some t => cancelTimer t;; modify (on_quarantined (delete k));; modify (on_quarantinedPDs (fun x => x ∖ {[p]}))
  end.

(** [services/dhcp/dhcpv6/PrefixPool.cpp:114-144] PrefixPool::allocateRequestedAdvertisedPrefix *)
Definition allocateRequestedAdvertisedPrefix (k : IAPrefixKey) : M DhcpPd (Z * Status) := lock_guard poolLock (
  e ← effectiveLength (kLen k);
  match e with
  | None => mret (0, UnspecFail)
  | Some e =>
      p ← lift (IPv6Prefix_u128 (kAddr k) e false);
      claimQuarantined k p;;
      ok ← withinRange p;
      if negb ok then mret (0, NotOnLink) else
      no ← orM (isAllocated p) (orM (isExcluded p) (isConflicted p));
      if no : bool then mret (0, NoPrefixAvail) else advertise k p (EndRequested k);; mret (e, Success)
  end).

(** [services/dhcp/dhcpv6/PrefixPool.cpp:146-169] PrefixPool::allocateRequestedPrefix *)
Definition allocateRequestedPrefix (k : IAPrefixKey) : M DhcpPd (Z * Status) := lock_guard poolLock (
  e ← effectiveLength (kLen k);
  match e with
  | None => mret (0, UnspecFail)
  | Some e =>
      p ← lift (IPv6Prefix_u128 (kAddr k) (kLen k) false);
      claimQuarantined k p;;
      ok ← withinRange p;
      if negb ok then mret (0, NotOnLink) else
      no ← orM (isAllocated p) (orM (isExcluded p) (orM (isConflicted p) (isAdvertised p)));
      if no : bool then mret (0, NoPrefixAvail) else modify (on_allocated (union {[p]}));; mret (e, Success)
  end).

(** [services/dhcp/dhcpv6/PrefixPool.cpp:171-183] PrefixPool::activateAdvertisedPrefix *)
Definition activateAdvertisedPrefix (k : IAPrefixKey) : M DhcpPd bool := lock_guard poolLock (
  it ← get (fun s => advertised s !! k);
  match it with
  | None => mret false
  | Some t =>
      cancelTimer t;; modify (on_advertised (delete k));; p ← lift (IPv6Prefix_u128 (kAddr k) (kLen k) false);
      modify (on_advertisedPDs (fun x => x ∖ {[p]}));; modify (on_allocated (union {[p]}));; mret true
  end).

(** [services/dhcp/dhcpv6/PrefixPool.cpp:185-189] PrefixPool::releasePrefix *)
Definition poolRelease (p : IPv6Prefix) : M DhcpPd unit := lock_guard poolLock (modify (on_allocated (fun x => x ∖ {[p]}))).

(** [services/dhcp/dhcpv6/PrefixPool.cpp:191-206] PrefixPool::expirePrefix *)
Definition poolExpire (k : IAPrefixKey) : M DhcpPd unit := lock_guard poolLock (
  p ← lift (IPv6Prefix_u128 (kAddr k) (kLen k) false);
  a ← isAllocated p;
  if negb a then mret tt
  else
    modify (on_allocated (fun x => x ∖ {[p]}));; id ← addTimer (EndQuarantine k);
    modify (on_quarantined (insert k id));; modify (on_quarantinedPDs (union {[p]}))).

(** [services/dhcp/dhcpv6/PrefixPool.cpp:208-219] PrefixPool::setConflicted *)
Definition setConflicted (k : IAPrefixKey) : M DhcpPd bool := lock_guard poolLock (
  p ← lift (IPv6Prefix_u128 (kAddr k) (kLen k) false);
  a ← isAllocated p;
  if a : bool then mret false else id ← addTimer (EndConflict p); modify (on_bad (insert p id));; mret true).

(** [services/dhcp/dhcpv6/PrefixPool.cpp:221-225] PrefixPool::excludePrefix *)
Definition excludePrefix (p : IPv6Prefix) : M DhcpPd bool := lock_guard poolLock (
  b ← get (fun s => bool_decide (p ∉ excluded s)); modify (on_excluded (union {[p]}));; mret b).

(** [services/dhcp/dhcpv6/PrefixPool.cpp:227-231] PrefixPool::removeExclusion *)
Definition removeExclusion (p : IPv6Prefix) : M DhcpPd bool := lock_guard poolLock (
  b ← get (fun s => bool_decide (p ∈ excluded s)); modify (on_excluded (fun x => x ∖ {[p]}));; mret b).

(** [services/dhcp/dhcpv6/PrefixPool.cpp:263-285] PrefixPool::adjustPool: the groups of what was advertised stay *)
Definition adjustPool (b : IPv6Prefix) (dl : Z) : M DhcpPd bool :=
  if (128 <? p6_len b) || (128 <? dl) || (dl <? p6_len b) then mret false else lock_guard poolLock (
  modify (on_base (fun _ => b));; modify (on_delegationLength (fun _ => dl));;
  n ← lift (shl 128 1 (dl - p6_len b));
  modify (on_psize (fun _ => n));;
  s ← get id;
  modify (on_timers (fun t => foldr delete t ((map_to_list (bad s)).*2 ++ (map_to_list (advertised s)).*2 ++ (map_to_list (quarantined s)).*2)));;
  modify (on_allocated (fun _ => ∅));; modify (on_advertised (fun _ => ∅));; modify (on_advertisedPDs (fun _ => ∅));;
  modify (on_quarantined (fun _ => ∅));; modify (on_quarantinedPDs (fun _ => ∅));; modify (on_excluded (fun _ => ∅));; modify (on_bad (fun _ => ∅));; mret true).

(** ** Delegations *)

Definition startLease (p : IPv6Prefix) (k : IAKey) : M DhcpPd unit := id ← addTimer (ExpirePrefix p k); modify (on_prefixTimerIDs (insert p id)).

Definition recordLease (p : IPv6Prefix) (k : IAKey) : M DhcpPd unit := modify (on_prefixes (intoGroup p k));; modify (on_prefixKeys (insert p k)).

(** [services/dhcp/dhcpv6/PrefixLeaseManager.cpp:12-29] PrefixLeaseManager::createPrefix, with the length; the one without asks
    for length 0 *)
Definition createPrefix (k : IAKey) (len : Z) : M DhcpPd (IPv6Prefix * Status) := lock_guard leaseLock (
  r ← allocatePrefix len;
  if bool_decide (r.2 = Success) then startLease r.1 k;; recordLease r.1 k;; mret r else mret r).

(** [services/dhcp/dhcpv6/PrefixLeaseManager.cpp:60-72] PrefixLeaseManager::createPrefixFromAdvertised, a prefix that is delegated
    already; so in createPrefixFromRequest *)
Definition delegatedAlready (p : IPv6Prefix) (k : IAKey) : M DhcpPd (option Status) :=
  owner ← get (fun s => prefixKeys s !! p);
  timer ← get (fun s => prefixTimerIDs s !! p);
  match owner, timer with
  | Some owner, Some t => if bool_decide (owner = k) then cancelTimer t;; startLease p k;; mret (Some Success) else mret (Some NotOnLink)
  | _, _ => mret None
  end.

(** [services/dhcp/dhcpv6/PrefixLeaseManager.cpp:50-82] PrefixLeaseManager::createPrefixFromAdvertised *)
Definition createPrefixFromAdvertised (p : IPv6Prefix) (k : IAKey) : M DhcpPd Status := lock_guard leaseLock (
  st ← delegatedAlready p k;
  match st with
  | Some st => mret st
  | None =>
      ok ← activateAdvertisedPrefix (prefixKey k p);
      if negb ok then mret NotOnLink else startLease p k;; recordLease p k;; mret Success
  end).

(** [services/dhcp/dhcpv6/PrefixLeaseManager.cpp:84-116] PrefixLeaseManager::createPrefixFromRequest *)
Definition createPrefixFromRequest (p : IPv6Prefix) (k : IAKey) : M DhcpPd Status := lock_guard leaseLock (
  st ← delegatedAlready p k;
  match st with
  | Some st => mret st
  | None =>
      r ← allocateRequestedPrefix (prefixKey k p);
      if bool_decide (r.2 = Success) then startLease p k;; recordLease p k;; mret Success else mret r.2
  end).

(** The timer of a delegation to the association. *)
Definition bound (p : IPv6Prefix) (k : IAKey) : M DhcpPd (option Z) :=
  get (fun s => g ← prefixes s !! k; t ← prefixTimerIDs s !! p; if decide (p ∈ g) then Some t else None).

(** [services/dhcp/dhcpv6/PrefixLeaseManager.cpp:118-132] PrefixLeaseManager::renewPrefix *)
Definition renewPrefix (p : IPv6Prefix) (k : IAKey) : M DhcpPd Status := lock_guard leaseLock (
  t ← bound p k;
  match t with None => mret NoBinding | Some t => cancelTimer t;; startLease p k;; mret Success end).

(** [services/dhcp/dhcpv6/PrefixLeaseManager.cpp:134-136] PrefixLeaseManager::rebindPrefix *)
Definition rebindPrefix (p : IPv6Prefix) (k : IAKey) : M DhcpPd Status := renewPrefix p k.

Definition dropLease (p : IPv6Prefix) (k : IAKey) : M DhcpPd unit :=
  modify (on_prefixes (outOfGroup p k));; modify (on_prefixTimerIDs (delete p));; modify (on_prefixKeys (delete p)).

(** [services/dhcp/dhcpv6/PrefixLeaseManager.cpp:138-156] PrefixLeaseManager::releasePrefix *)
Definition releasePrefix (p : IPv6Prefix) (k : IAKey) : M DhcpPd Status := lock_guard leaseLock (
  t ← bound p k;
  match t with None => mret NoBinding | Some t => cancelTimer t;; poolRelease p;; dropLease p k;; mret Success end).

(** [services/dhcp/dhcpv6/PrefixLeaseManager.cpp:158-163] PrefixLeaseManager::declinePrefix *)
Definition declinePrefix (p : IPv6Prefix) (k : IAKey) : M DhcpPd Status := lock_guard leaseLock (
  ok ← setConflicted (prefixKey k p); mret (if ok : bool then Success else NotOnLink)).

(** [services/dhcp/dhcpv6/PrefixLeaseManager.cpp:165-171] PrefixLeaseManager::getPrefixes *)
Definition getPrefixes (k : IAKey) : M DhcpPd (gset IPv6Prefix) := lock_guard leaseLock (get (fun s => default ∅ (prefixes s !! k))).

(** [services/dhcp/dhcpv6/PrefixLeaseManager.cpp:173-177] PrefixLeaseManager::match *)
Definition match_prefix (k : IAKey) (p : IPv6Prefix) : M DhcpPd bool := lock_guard leaseLock (get (fun s => bool_decide (prefixKeys s !! p = Some k))).

(** [services/dhcp/dhcpv6/PrefixLeaseManager.cpp:185-200] PrefixLeaseManager::expirePrefix *)
Definition expirePrefix (p : IPv6Prefix) (k : IAKey) : M DhcpPd unit := lock_guard leaseLock (
  g ← get (fun s => prefixes s !! k);
  t ← get (fun s => prefixTimerIDs s !! p);
  match g, t with
  | Some _, Some t => cancelTimer t;; poolExpire (prefixKey k p);; dropLease p k
  | _, _ => mret tt
  end).

(** [services/dhcp/dhcpv6/PrefixPool.cpp:96-103] the callbacks of the pool: PrefixPool.cpp:96-103, 136-140, 199-203 and 214-217,
    and PrefixLeaseManager.cpp:20-22 *)
Definition runCallback (cb : Callback) : M DhcpPd unit :=
  match cb with
  | EndAdvertised k p => lock_guard poolLock (
      modify (on_advertised (delete k));; modify (on_advertisedPDs (fun x => x ∖ {[p]}));;
      member ← lift (IPv6Prefix_u128 (kAddr k) (kLen k) false); modify (on_advertisedGroups (outOfGroup member (prefixGroup k))))
  | EndRequested k => lock_guard poolLock (
      modify (on_advertised (delete k));; p ← lift (IPv6Prefix_u128 (kAddr k) (kLen k) false); modify (on_advertisedPDs (fun x => x ∖ {[p]})))
  | EndQuarantine k => lock_guard poolLock (
      modify (on_quarantined (delete k));; p ← lift (IPv6Prefix_u128 (kAddr k) (kLen k) false); modify (on_quarantinedPDs (fun x => x ∖ {[p]})))
  | EndConflict p => lock_guard poolLock (modify (on_bad (delete p)))
  | ExpirePrefix p k => expirePrefix p k
  end.

(** A scheduled timer runs. *)
Definition fire (id : Z) : M DhcpPd unit :=
  cb ← get (fun s => timers s !! id);
  match cb with Some cb => cancelTimer id;; runCallback cb | None => mret tt end.

(** ** Events *)

Inductive EventPd :=
| AllocatePrefix (len : Z) | AllocateAdvertisedPrefix (k : IAKey) (len : Z)
| AllocateRequestedPrefix (k : IAPrefixKey) | AllocateRequestedAdvertisedPrefix (k : IAPrefixKey)
| ActivateAdvertisedPrefix (k : IAPrefixKey) | PoolRelease (p : IPv6Prefix) | PoolExpire (k : IAPrefixKey) | SetConflicted (k : IAPrefixKey)
| ExcludePrefix (p : IPv6Prefix) | RemoveExclusion (p : IPv6Prefix) | AdjustPool (b : IPv6Prefix) (dl : Z)
| CreatePrefix (k : IAKey) (len : Z) | CreatePrefixFromAdvertised (p : IPv6Prefix) (k : IAKey) | CreatePrefixFromRequest (p : IPv6Prefix) (k : IAKey)
| RenewPrefix (p : IPv6Prefix) (k : IAKey) | ReleasePrefix (p : IPv6Prefix) (k : IAKey) | DeclinePrefix (p : IPv6Prefix) (k : IAKey)
| Fire (id : Z).

(** The calls of the server, of the configuration and of the timers. *)
Definition handlePd (ev : EventPd) : M DhcpPd unit :=
  match ev with
  | AllocatePrefix len => ignore (allocatePrefix len) | AllocateAdvertisedPrefix k len => ignore (allocateAdvertisedPrefix k len)
  | AllocateRequestedPrefix k => ignore (allocateRequestedPrefix k) | AllocateRequestedAdvertisedPrefix k => ignore (allocateRequestedAdvertisedPrefix k)
  | ActivateAdvertisedPrefix k => ignore (activateAdvertisedPrefix k) | PoolRelease p => poolRelease p | PoolExpire k => poolExpire k
  | SetConflicted k => ignore (setConflicted k) | ExcludePrefix p => ignore (excludePrefix p) | RemoveExclusion p => ignore (removeExclusion p)
  | AdjustPool b dl => ignore (adjustPool b dl)
  | CreatePrefix k len => ignore (createPrefix k len) | CreatePrefixFromAdvertised p k => ignore (createPrefixFromAdvertised p k)
  | CreatePrefixFromRequest p k => ignore (createPrefixFromRequest p k)
  | RenewPrefix p k => ignore (renewPrefix p k) | ReleasePrefix p k => ignore (releasePrefix p k) | DeclinePrefix p k => ignore (declinePrefix p k)
  | Fire id => fire id
  end.

Inductive reachPd : DhcpPd -> Prop :=
| reachPd_new b dl s : DhcpPd_new b dl = Ret s -> reachPd s
| reachPd_step ev s s' : reachPd s -> handlePd ev s = Ret (tt, s') -> reachPd s'.

(** ** Nothing is delegated *)

(** A pool that has given nothing away: its numbers and the exclusions. *)
Definition quietPd (b : IPv6Prefix) (dl n : Z) (ex : gset IPv6Prefix) : DhcpPd := mkDhcpPd b dl n ∅ ∅ ∅ ∅ ∅ ∅ ex ∅ false ∅ ∅ ∅ false ∅ 1.

(** Runs a method on such a pool. *)
Ltac quiet_runPd := unfold quietPd, get; mrun; repeat (rewrite lookup_empty; cbn).

Lemma isAllocated_relockPd p s : poolMutex s = true -> isAllocated p s = UB.
Proof. exact (relock poolLock _ s). Qed.

(** Inside a method, whether a prefix in the range is taken cannot be asked. *)
Lemma taken_relockPd p s : poolMutex s = true -> taken p s = if inRange (base s) (psize s) p then UB else Ret (true, s).
Proof.
  intros H. unfold taken, orM, withinRange, get. mrun. destruct (inRange _ _ _); [|done]. cbn. by rewrite isAllocated_relockPd.
Qed.

Lemma searchPrefix_barren e use s : poolMutex s = true -> searchPrefix e use s = UB \/ searchPrefix e use s = Ret (None, s).
Proof.
  intros H. unfold searchPrefix, get. rewrite bind_gets. destruct (shl 128 1 _) as [c| |] eqn:Ec.
  - rewrite bind_lift. apply search_barren. intros i. rewrite bind_M. unfold generatePrefix.
    destruct (shl 128 1 (128 - e)) as [st| |] eqn:Es; [|unfold shl in Es; by destruct (_ && _)|left; reflexivity].
    rewrite bind_lift. unfold get. rewrite !run_gets, !outcome_bind_ret_l.
    rewrite bind_M, taken_relockPd by done. destruct (inRange _ _ _); [by left | by right].
  - unfold shl in Ec. by destruct (_ && _).
  - left. reflexivity.
Qed.

(** The length of a prefix for a request. *)
Definition lengthFor (requested : Z) (s : DhcpPd) : Z := if 64 <? requested then delegationLength s else Z.max requested (delegationLength s).

Lemma run_effectiveLength len s : effectiveLength len s = Ret (if lengthFor len s <? p6_len (base s) then None else Some (lengthFor len s), s).
Proof. done. Qed.

(** An allocation that returns fails and changes nothing. *)
Definition fails {A} (m : M DhcpPd (A * Status)) (s : DhcpPd) : Prop := m s = UB \/ exists a st, st <> Success /\ m s = Ret ((a, st), s).

Lemma fails_inert {A} (m : M DhcpPd (A * Status)) s : fails m s -> inert m s.
Proof. intros [H|(a & st & _ & H)]; [by left | right; by eexists]. Qed.

Lemma allocate_quiet len use b dl n ex : let s := quietPd b dl n ex in
  fails (lock_guard poolLock (
    e ← effectiveLength len;
    match e with
    | None => mret (noPrefix, UnspecFail)
    | Some e => found ← searchPrefix e use; mret (match found with Some p => (p, Success) | None => (noPrefix, NoPrefixAvail) end)
    end)) s.
Proof.
  cbv zeta. unfold fails, lock_guard. cbn [held poolLock poolMutex quietPd set_held]. rewrite bind_M, run_effectiveLength, outcome_bind_ret_l.
  destruct (_ <? _); [right; exists noPrefix, UnspecFail; by split|].
  rewrite bind_M. match goal with |- context [searchPrefix ?e ?u ?s] => destruct (searchPrefix_barren e u s eq_refl) as [->| ->] end; [by left | right; exists noPrefix, NoPrefixAvail; by split].
Qed.

Lemma prefix_cases a l : IPv6Prefix_u128 a l false = UB \/ exists p, IPv6Prefix_u128 a l false = Ret p.
Proof.
  unfold IPv6Prefix_u128, IPv6Prefix_addPrefixLen. cbn [p6_addr p6_len]. destruct (mask_addr 128 a l) as [x| |] eqn:E; [right; by eexists | | by left].
  exfalso. revert E. unfold mask_addr, v6Mask, shl. by repeat case_match.
Qed.

Lemma requested_quietPd k b dl n ex : let s := quietPd b dl n ex in fails (allocateRequestedPrefix k) s /\ fails (allocateRequestedAdvertisedPrefix k) s.
Proof.
  cbv zeta. unfold fails, allocateRequestedPrefix, allocateRequestedAdvertisedPrefix, lock_guard. cbn [held poolLock poolMutex quietPd set_held]. rewrite !bind_M, run_effectiveLength, !outcome_bind_ret_l.
  destruct (_ <? _); [split; right; exists 0, UnspecFail; by split|].
  split; [destruct (prefix_cases (kAddr k) (kLen k)) as [->|[p ->]] | destruct (prefix_cases (kAddr k) (lengthFor (kLen k) (on_poolMutex (fun _ => true) (quietPd b dl n ex)))) as [->|[p ->]]]; [by left| |by left|].
  all: unfold claimQuarantined, withinRange, orM; quiet_runPd; destruct (inRange b n p); cbn; [left; by rewrite ?isAllocated_relockPd | right; exists 0, NotOnLink; by split].
Qed.

Lemma difference_empty_Pd (p : IPv6Prefix) : (∅ ∖ {[p]} : gset IPv6Prefix) = ∅.
Proof. set_solver. Qed.

Lemma inert_callsPd b dl n ex : let s := quietPd b dl n ex in
  (forall len, inert (allocatePrefix len) s) /\ (forall k len, inert (allocateAdvertisedPrefix k len) s) /\ (forall k, inert (allocateRequestedPrefix k) s) /\
  (forall k, inert (allocateRequestedAdvertisedPrefix k) s) /\ (forall k, inert (activateAdvertisedPrefix k) s) /\ (forall p, inert (poolRelease p) s) /\
  (forall k, inert (poolExpire k) s) /\ (forall k, inert (setConflicted k) s).
Proof.
  cbv zeta. repeat match goal with |- _ /\ _ => split end; intros.
  - apply fails_inert, allocate_quiet.
  - apply fails_inert, allocate_quiet.
  - apply fails_inert, requested_quietPd.
  - apply fails_inert, requested_quietPd.
  - unfold inert, activateAdvertisedPrefix, lock_guard. quiet_runPd. right. by eexists.
  - unfold inert, poolRelease, lock_guard. quiet_runPd. right. exists tt. unfold on_allocated. cbn. by rewrite difference_empty_Pd.
  - unfold inert, poolExpire, lock_guard. destruct (prefix_cases (kAddr k) (kLen k)) as [->|[p ->]]; quiet_runPd; by left.
  - unfold inert, setConflicted, lock_guard. destruct (prefix_cases (kAddr k) (kLen k)) as [->|[p ->]]; quiet_runPd; by left.
Qed.

(** Calls of the lease manager, whose mutex is held while it calls the pool. *)
Definition quietHeld (b : IPv6Prefix) (dl n : Z) (ex : gset IPv6Prefix) : DhcpPd := on_leaseMutex (fun _ => true) (quietPd b dl n ex).

Lemma createPrefix_inert k len b dl n ex : inert (createPrefix k len) (quietPd b dl n ex).
Proof.
  unfold createPrefix, lock_guard at 1, inert. cbn [held leaseLock leaseMutex quietPd set_held]. rewrite bind_M. unfold allocatePrefix, lock_guard. cbn [held poolLock poolMutex on_leaseMutex set_held].
  rewrite bind_M, run_effectiveLength, outcome_bind_ret_l. destruct (_ <? _); [right; by eexists|].
  rewrite bind_M. match goal with |- context [searchPrefix ?e ?u ?s] => destruct (searchPrefix_barren e u s eq_refl) as [->| ->] end; [by left | right; by eexists].
Qed.

Lemma createFromRequest_inert p k b dl n ex : inert (createPrefixFromRequest p k) (quietPd b dl n ex).
Proof.
  unfold createPrefixFromRequest, delegatedAlready, allocateRequestedPrefix, effectiveLength, lock_guard, inert.
  destruct (prefix_cases (kAddr (prefixKey k p)) (kLen (prefixKey k p))) as [->|[q ->]]; quiet_runPd.
  all: match goal with |- context [if ?c then None else _] => destruct c end; cbn; [right; by eexists|]. { by left. }
  unfold claimQuarantined, withinRange, orM. quiet_runPd. destruct (inRange b n q); cbn; [left; by rewrite ?isAllocated_relockPd | right; by eexists].
Qed.

Lemma inert_leasesPd b dl n ex : let s := quietPd b dl n ex in
  (forall p k, inert (createPrefixFromAdvertised p k) s) /\ (forall p k, inert (renewPrefix p k) s) /\ (forall p k, inert (releasePrefix p k) s) /\
  (forall p k, inert (declinePrefix p k) s) /\ (forall id, inert (fire id) s).
Proof.
  cbv zeta. repeat match goal with |- _ /\ _ => split end; intros; unfold inert.
  - unfold createPrefixFromAdvertised, delegatedAlready, activateAdvertisedPrefix, lock_guard. quiet_runPd. right. by eexists.
  - unfold renewPrefix, bound, lock_guard. quiet_runPd. right. by eexists.
  - unfold releasePrefix, bound, lock_guard. quiet_runPd. right. by eexists.
  - unfold declinePrefix, setConflicted, lock_guard. destruct (prefix_cases (kAddr (prefixKey k p)) (kLen (prefixKey k p))) as [->|[q ->]]; quiet_runPd; by left.
  - unfold fire. quiet_runPd. right. by eexists.
Qed.

Lemma no_timers s : bad s = ∅ -> advertised s = ∅ -> quarantined s = ∅ ->
  (map_to_list (bad s)).*2 ++ (map_to_list (advertised s)).*2 ++ (map_to_list (quarantined s)).*2 = [].
Proof. intros -> -> ->. by rewrite !map_to_list_empty. Qed.

Lemma adjust_start size b dl n ex k (r : bool * DhcpPd) :
  (modify (on_psize (fun _ => size));; s ← get id; k s) (on_poolMutex (fun _ => true) (quietPd b dl n ex)) = Ret r ->
  k (on_psize (fun _ => size) (on_poolMutex (fun _ => true) (quietPd b dl n ex)))
    (on_psize (fun _ => size) (on_poolMutex (fun _ => true) (quietPd b dl n ex))) = Ret r.
Proof. intros H. unfold get in H. rewrite bind_modify, bind_gets in H. exact H.
Qed.

Lemma adjust_rest s l r s' :
  (modify (on_timers (fun t => foldr delete t l));;
  modify (on_allocated (fun _ => ∅));; modify (on_advertised (fun _ => ∅));; modify (on_advertisedPDs (fun _ => ∅));;
  modify (on_quarantined (fun _ => ∅));; modify (on_quarantinedPDs (fun _ => ∅));; modify (on_excluded (fun _ => ∅));; modify (on_bad (fun _ => ∅));; mret true) s = Ret (r, s') -> 
  s' = on_bad (fun _ => ∅) (on_excluded (fun _ => ∅) (on_quarantinedPDs (fun _ => ∅) (on_quarantined (fun _ => ∅) (on_advertisedPDs (fun _ => ∅) (on_advertised (fun _ => ∅) (on_allocated (fun _ => ∅) (on_timers (fun t => foldr delete t l) s))))))).
Proof. rewrite !bind_modify. intros H. injection H as _ <-. reflexivity.
Qed.

(** A new configuration of the pool, after its size is known. *)
Lemma adjust_body size b dl n ex r s' :
  (modify (on_psize (fun _ => size));;
  s ← get id;
  modify (on_timers (fun t => foldr delete t ((map_to_list (bad s)).*2 ++ (map_to_list (advertised s)).*2 ++ (map_to_list (quarantined s)).*2)));;
  modify (on_allocated (fun _ => ∅));; modify (on_advertised (fun _ => ∅));; modify (on_advertisedPDs (fun _ => ∅));;
  modify (on_quarantined (fun _ => ∅));; modify (on_quarantinedPDs (fun _ => ∅));; modify (on_excluded (fun _ => ∅));; modify (on_bad (fun _ => ∅));; mret true)
    (on_poolMutex (fun _ => true) (quietPd b dl n ex)) = Ret (r, s') ->
  s' = on_poolMutex (fun _ => true) (quietPd b dl size ∅).
Proof.
  intros H. apply adjust_start in H. apply adjust_rest in H. rewrite no_timers in H by reflexivity. exact H.
Qed.

Lemma adjustPoolPd b' dl' b dl n ex r s' : adjustPool b' dl' (quietPd b dl n ex) = Ret (r, s') -> exists b dl n ex, s' = quietPd b dl n ex.
Proof.
  unfold adjustPool. destruct (_ || _); [intros [= <- <-]; by eexists _, _, _, _|].
  unfold lock_guard. cbn [held poolLock poolMutex quietPd set_held]. intros H. apply outcome_bind_ret_inv in H as ([r1 s1] & H & [= <- <-]).
  rewrite !bind_modify, bind_M in H. apply outcome_bind_ret_inv in H as ([size s2] & Hs & H). unfold lift in Hs. apply outcome_bind_ret_inv in Hs as (z & _ & Hs). injection Hs as <- <-.
  apply (adjust_body z b' dl' n ex) in H. subst s1. by exists b', dl', z, ∅.
Qed.

Lemma handlePd_quiet ev b dl n ex s' : handlePd ev (quietPd b dl n ex) = Ret (tt, s') -> exists b dl n ex, s' = quietPd b dl n ex.
Proof.
  destruct (inert_callsPd b dl n ex) as (C1 & C2 & C3 & C4 & C5 & C6 & C7 & C8). destruct (inert_leasesPd b dl n ex) as (L1 & L2 & L3 & L4 & L5).
  pose proof (fun k len => createPrefix_inert k len b dl n ex) as L6. pose proof (fun p k => createFromRequest_inert p k b dl n ex) as L7.
  destruct ev; cbn [handlePd]; intros H;
    try (apply inert_ignore in H; [subst s'; by eexists _, _, _, _ | by auto]); try (apply inert_unit in H; [subst s'; by eexists _, _, _, _ | by auto]).
  - injection H as <-. by eexists _, _, _, _.
  - injection H as <-. by eexists _, _, _, _.
  - unfold ignore in H. rewrite bind_M in H. apply outcome_bind_ret_inv in H as ([r s1] & H1 & H). apply adjustPoolPd in H1 as (b' & dl' & n' & ex' & ->). injection H as <-. by eexists _, _, _, _.
Qed.

Lemma reachPd_quiet s : reachPd s -> exists b dl n ex, s = quietPd b dl n ex.
Proof.
  induction 1 as [b dl s H|ev s s' _ (b & dl & n & ex & ->) H]; [|by apply handlePd_quiet in H].
  unfold DhcpPd_new in H. apply outcome_bind_ret_inv in H as (n & _ & H). injection H as <-. by eexists _, _, _, _.
Qed.

(** C40: No prefix is ever delegated. Whatever the server, the configuration and the
    timers do, as long as it has a result there is no delegation; an allocation
    that returns fails, and when the prefix to be cut off is longer than the
    pool's, as delegated prefixes are, it returns that none is left: the range
    of the pool has room only for prefixes that are not longer. *)
Theorem no_prefix_is_delegated s : reachPd s ->
  prefixes s = ∅ /\ allocated s = ∅ /\ advertised s = ∅ /\
  (forall len r s', allocatePrefix len s = Ret (r, s') -> r.2 <> Success) /\
  (forall len, 0 <= p6_len (base s) < lengthFor len s -> lengthFor len s <= 128 -> lengthFor len s - p6_len (base s) < 128 -> allocatePrefix len s = Ret ((noPrefix, NoPrefixAvail), s)).
Proof.
  intros (b & dl & n & ex & ->)%reachPd_quiet. repeat (split; [done|]). split.
  - intros len r s' H. destruct (allocate_quiet len (fun p => modify (on_allocated (union {[p]}))) b dl n ex) as [E|(a & st & Hst & E)];
      unfold allocatePrefix in H; rewrite E in H; [done|]. by injection H as <- _.
  - intros len Hl He Hd. unfold allocatePrefix, lock_guard. cbn [held poolLock poolMutex quietPd set_held]. rewrite bind_M, run_effectiveLength, outcome_bind_ret_l.
    change (lengthFor len (on_poolMutex _ _)) with (lengthFor len (quietPd b dl n ex)). set (e := lengthFor len (quietPd b dl n ex)) in *.
    change (base (on_poolMutex _ _)) with b. change (base (quietPd b dl n ex)) with b in Hl, Hd.
    rewrite (proj2 (Z.ltb_ge e (p6_len b))) by lia. rewrite bind_M. unfold searchPrefix, get. rewrite bind_gets. change (base (on_poolMutex _ _)) with b.
    rewrite shl_ret by lia. rewrite bind_lift, search_none; [done|].
    intros i. rewrite bind_M. unfold generatePrefix. rewrite shl_ret by lia. rewrite bind_lift. unfold get. rewrite !run_gets, !outcome_bind_ret_l, bind_M, taken_relockPd by done.
    unfold inRange. cbn [p6_len base quietPd on_poolMutex]. rewrite (proj2 (Z.leb_gt e (p6_len b))), andb_false_r by lia. done.
Qed.

(** A prefix of 48 bits that is to be cut into prefixes of 56. *)
Lemma no_prefix_is_delegated_witness : exists s, reachPd s /\ prefixes s = ∅ /\ allocatePrefix 56 s = Ret ((noPrefix, NoPrefixAvail), s).
Proof.
  set (b := mkIPv6Prefix (Z.shiftl 536939960 96) 48). destruct (DhcpPd_new b 56) as [s| |] eqn:E; [|done..].
  assert (Hr : reachPd s) by (by apply (reachPd_new b 56)). exists s. destruct (no_prefix_is_delegated s Hr) as (Hp & _ & _ & _ & Hn). split; [exact Hr|]. split; [exact Hp|].
  unfold DhcpPd_new in E. apply outcome_bind_ret_inv in E as (n & _ & E). injection E as <-. apply Hn; cbn; lia.
Defined.
