(* ===== verification/OspfElection.v ===== *)
(** * OspfElection: the election of the designated router

    [OspfInterface::election] (routing/ospf/interface/OspfInterface.cpp)
    scans the eligible routers of a network, which it reads from a hash map,
    and runs two passes with the router's own claims set to the result of the
    first. The scans choose the first in the order of priority and router id,
    so that the order of the map does not matter; a designated router and a
    backup that are in office stay, whatever the priorities. The outcome is then
    recorded only if it is a neighbor: a router that elects itself never records
    it ([own_election_not_recorded]). *)

From S2P Require Import Prelude.

(** ** The election *)

(** [routing/ospf/interface/OspfInterface.cpp:123-123] Candidate *)
Record Candidate := mkCandidate { c_rid : Z; c_priority : Z; c_dr : Z; c_bdr : Z }.

#[export] Instance Candidate_eq_dec : EqDecision Candidate.
Proof. solve_decision. Defined.

(** [routing/ospf/interface/OspfInterface.cpp:155-158] best *)
Definition best (a b : Candidate) : bool :=
  if negb (c_priority a =? c_priority b) then c_priority b <? c_priority a else c_rid b <? c_rid a.

(** [routing/ospf/interface/OspfInterface.cpp:177-178] the candidate of a scan, so also at lines 180-181 and 195-196 *)
Definition keep (cand : option Candidate) (c : Candidate) : option Candidate :=
  match cand with None => Some c | Some b => if best c b then Some c else cand end.

(** [routing/ospf/interface/OspfInterface.cpp:170-171] runElection, whether a candidate claims to be the designated router; so also at line 193 *)
Definition claimsDr (c : Candidate) : bool := c_dr c =? c_rid c.
(** [routing/ospf/interface/OspfInterface.cpp:173-173] runElection, whether it claims to be the backup *)
Definition claimsBdr (c : Candidate) : bool := c_bdr c =? c_rid c.

(** [routing/ospf/interface/OspfInterface.cpp:165-182] runElection, the scan for the backup: the best that claims to be it and the best there is *)
Definition scanBdr (eligible : list Candidate) : option Candidate * option Candidate :=
  foldl (fun acc c =>
    if claimsDr c then acc else (if claimsBdr c then keep acc.1 c else acc.1, keep acc.2 c)) (None, None) eligible.

(** [routing/ospf/interface/OspfInterface.cpp:190-198] runElection, the scan for the designated router *)
Definition scanDr (eligible : list Candidate) : option Candidate :=
  foldl (fun cand c => if claimsDr c then keep cand c else cand) None eligible.

(** [routing/ospf/interface/OspfInterface.cpp:160-203] runElection: the designated router and the backup *)
Definition runElection (eligible : list Candidate) : Z * Z :=
  let '(newBdrCand, fallbackBdrCand) := scanBdr eligible in
  let newBdr := match newBdrCand with
                | Some c => c_rid c
                | None => match fallbackBdrCand with Some c => c_rid c | None => 0 end
                end in
  (match scanDr eligible with Some c => c_rid c | None => newBdr end, newBdr).

(** [routing/ospf/interface/OspfInterface.cpp:213-224] the router's own claims become what was elected *)
Fixpoint claim (selfRid newDr newBdr : Z) (eligible : list Candidate) : list Candidate :=
  match eligible with
  | [] => []
  | c :: l =>
      if c_rid c =? selfRid
      then mkCandidate (c_rid c) (c_priority c) (if newDr =? selfRid then selfRid else 0) (if newBdr =? selfRid then selfRid else 0) :: l
      else c :: claim selfRid newDr newBdr l
  end.

(** [routing/ospf/interface/OspfInterface.cpp:208-227] both passes *)
Definition elect (selfRid : Z) (eligible : list Candidate) : Z * Z :=
  let '(newDr, newBdr) := runElection eligible in
  runElection (claim selfRid newDr newBdr eligible).

(** ** The election of an interface *)

(** [routing/ospf/neighbor/Neighbor.h:79-89] Neighbor::State *)
Inductive NbrState := DOWN | ATTEMPT | INIT | TWOWAY | EXSTART | EXCHANGE | LOADING | FULL.

#[export] Instance NbrState_eq_dec : EqDecision NbrState.
Proof. solve_decision. Defined.

Definition at_least_two_way (st : NbrState) : bool := match st with DOWN | ATTEMPT | INIT => false | _ => true end.

(** What an election reads of a neighbor. *)
Record Nbr := mkNbr { n_rid : Z; n_state : NbrState; n_priority : Z; n_dr : Z; n_bdr : Z; n_ip : Z }.

(** What an interface records of its segment: the router ids and addresses, and
    whether it is one of them itself. *)
Record Segment := mkSegment { dr_rid : Z; dr_ip : Z; bdr_rid : Z; bdr_ip : Z; isDr : bool; isBdr : bool }.

(** [routing/ospf/neighbor/NeighborTable.cpp:138-144] NeighborTable::lookup *)
Definition lookup_nbr (rid : Z) (ns : list Nbr) : option Nbr := List.find (fun n => n_rid n =? rid) ns.

(** [routing/ospf/interface/OspfInterface.cpp:100-108] OspfInterface::setDr *)
Definition setDr (ns : list Nbr) (cand : Z) (s : Segment) : Segment :=
  match lookup_nbr cand ns with
  | None => s
  | Some n => mkSegment cand (n_ip n) (bdr_rid s) (bdr_ip s) (isDr s) (isBdr s)
  end.

(** [routing/ospf/interface/OspfInterface.cpp:110-118] OspfInterface::setBdr *)
Definition setBdr (ns : list Nbr) (cand : Z) (s : Segment) : Segment :=
  match lookup_nbr cand ns with
  | None => s
  | Some n => mkSegment (dr_rid s) (dr_ip s) cand (n_ip n) (isDr s) (isBdr s)
  end.

(** [routing/ospf/interface/OspfInterface.cpp:129-150] OspfInterface::election, who is eligible *)
Definition eligibleOf (selfRid selfPrio : Z) (s : Segment) (ns : list Nbr) : list Candidate :=
  (if 0 <? selfPrio then [mkCandidate selfRid selfPrio (dr_rid s) (bdr_rid s)] else []) ++
  map (fun n => mkCandidate (n_rid n) (n_priority n) (n_dr n) (n_bdr n))
    (List.filter (fun n => at_least_two_way (n_state n) && negb (n_priority n =? 0)) ns).

(** [routing/ospf/interface/OspfInterface.cpp:120-250] OspfInterface::election: what is recorded, which neighbors are told
    to go on to EXSTART, and whether the originator is told *)
Definition election (selfRid selfPrio : Z) (ns : list Nbr) (s : Segment) : Segment * list Z * bool :=
  match eligibleOf selfRid selfPrio s ns with
  | [] => (s, [], false)
  | eligible =>
      let '(finalDr, finalBdr) := elect selfRid eligible in
      let changed := negb (finalDr =? dr_rid s) || negb (finalBdr =? bdr_rid s) in
      let s' := setBdr ns finalBdr (setDr ns finalDr s) in
      (mkSegment (dr_rid s') (dr_ip s') (bdr_rid s') (bdr_ip s') (finalDr =? selfRid) (finalBdr =? selfRid),
       if changed then map n_rid (List.filter (fun n => bool_decide (n_state n = TWOWAY)) ns) else [], changed)
  end.

(** ** The order of candidates *)

Lemma best_irrefl a : best a a = false.
Proof. unfold best. rewrite Z.eqb_refl. apply Z.ltb_irrefl. Qed.

Lemma best_trans a b c : best a b = true -> best b c = true -> best a c = true.
Proof.
  unfold best. destruct (Z.eqb_spec (c_priority a) (c_priority b)), (Z.eqb_spec (c_priority b) (c_priority c)), (Z.eqb_spec (c_priority a) (c_priority c));
    cbn [negb]; rewrite ?Z.ltb_lt; lia.
Qed.

Lemma best_total a b : c_rid a <> c_rid b -> best a b = true \/ best b a = true.
Proof.
  unfold best. rewrite (Z.eqb_sym (c_priority b)). destruct (Z.eqb_spec (c_priority a) (c_priority b)); cbn [negb]; rewrite !Z.ltb_lt; lia.
Qed.

Lemma best_asym a b : best a b = true -> best b a = true -> False.
Proof. intros H1 H2. pose proof (best_trans _ _ _ H1 H2). by rewrite best_irrefl in *. Qed.

(** ** What a scan finds *)

(** [c] is the first of the candidates that satisfy [P]. *)
Definition leads (P : Candidate -> bool) (l : list Candidate) (c : Candidate) : Prop :=
  c ∈ l /\ P c = true /\ forall c', c' ∈ l -> P c' = true -> c' = c \/ best c c' = true.

Definition scan (P : Candidate -> bool) (cand : option Candidate) (l : list Candidate) : option Candidate :=
  foldl (fun cand c => if P c then keep cand c else cand) cand l.

Definition distinct (l : list Candidate) : Prop := NoDup (c_rid <$> l).

Lemma leads_unique P l c c' : leads P l c -> leads P l c' -> c = c'.
Proof.
  intros (Hin & Hp & Hm) (Hin' & Hp' & Hm'). destruct (Hm c' Hin' Hp') as [|H1]; [done|]. destruct (Hm' c Hin Hp) as [|H2]; [done|].
  destruct (best_asym _ _ H1 H2).
Qed.

Lemma leads_perm P l l' c : l ≡ₚ l' -> leads P l c -> leads P l' c.
Proof. intros Hl (Hin & Hp & Hm). repeat split; [by rewrite <- Hl | done|]. intros c' Hc'. apply Hm. by rewrite Hl. Qed.

(** A scan that holds a candidate goes on with the first of it and the rest. *)
Lemma scan_from P l : forall b, distinct (b :: l) -> P b = true -> exists c, scan P (Some b) l = Some c /\ leads P (b :: l) c.
Proof.
  induction l as [|a l IH]; intros b Hd Hb; cbn [scan foldl].
  { exists b. split; [done|]. split; [left|]. split; [done|]. intros c' [->|H]%elem_of_cons _; [by left | by apply elem_of_nil in H]. }
  change (foldl _ ?x l) with (scan P x l). unfold distinct in Hd. cbn [fmap list_fmap] in Hd.
  assert (Hab : c_rid a <> c_rid b). { intros E. apply NoDup_cons in Hd as [Hn _]. apply Hn. rewrite E. left. }
  assert (Hdb : distinct (b :: l)). { apply NoDup_cons in Hd as [Hn Hd]. apply NoDup_cons in Hd as [_ Hd]. apply NoDup_cons. split; [|exact Hd]. intros H. apply Hn. by right. }
  assert (Hda : distinct (a :: l)) by (by apply NoDup_cons in Hd as [_ Hd]).
  destruct (P a) eqn:Ea; [cbn [keep]; destruct (best a b) eqn:Eb|].
  - destruct (IH a Hda Ea) as (c & Hc & Hin & Hpc & Hm). exists c. split; [exact Hc|]. split; [by right|]. split; [done|].
    intros c' [->|Hc']%elem_of_cons Hp'; [|by apply Hm]. destruct (Hm a ltac:(left) Ea) as [->|H]; [by right | right; by eapply best_trans].
  - destruct (IH b Hdb Hb) as (c & Hc & Hin & Hpc & Hm). exists c. split; [exact Hc|]. split; [apply elem_of_cons in Hin as [->|H]; [left | by right; right]|]. split; [done|].
    intros c' [->|[->|Hc']%elem_of_cons]%elem_of_cons Hp'; [apply Hm; [left | done] | | apply Hm; [by right | done]].
    destruct (best_total a b Hab) as [|Hba]; [congruence|]. destruct (Hm b ltac:(left) Hb) as [->|H]; [by right | right; by eapply best_trans].
  - destruct (IH b Hdb Hb) as (c & Hc & Hin & Hpc & Hm). exists c. split; [exact Hc|]. split; [apply elem_of_cons in Hin as [->|H]; [left | by right; right]|]. split; [done|].
    intros c' [->|[->|Hc']%elem_of_cons]%elem_of_cons Hp'; [apply Hm; [left | done] | congruence | apply Hm; [by right | done]].
Qed.

(** A scan finds the first of those that satisfy [P]. *)
Lemma scan_leads P l : distinct l -> match scan P None l with Some c => leads P l c | None => forall c, c ∈ l -> P c = false end.
Proof.
  induction l as [|a l IH]; intros Hd; cbn [scan foldl]; [by intros c ?%elem_of_nil|]. change (foldl _ ?x l) with (scan P x l).
  destruct (P a) eqn:Ea; [cbn [keep]; destruct (scan_from P l a Hd Ea) as (c & -> & Hc); exact Hc|].
  assert (Hdl : distinct l) by (by apply NoDup_cons in Hd as [_ Hd]). specialize (IH Hdl). destruct (scan P None l) as [c|].
  - destruct IH as (Hin & Hp & Hm). split; [by right|]. split; [done|]. intros c' [->|Hc']%elem_of_cons Hp'; [congruence | by apply Hm].
  - intros c [->|Hc]%elem_of_cons; [done | by apply IH].
Qed.

Lemma scan_some P l c : distinct l -> leads P l c -> scan P None l = Some c.
Proof.
  intros Hd Hc. pose proof (scan_leads P l Hd) as H. destruct (scan P None l) as [c'|]; [by rewrite (leads_unique P l c c')|].
  destruct Hc as (Hin & Hp & _). by rewrite H in Hp.
Qed.

Lemma scan_none P l : distinct l -> (forall c, c ∈ l -> P c = false) -> scan P None l = None.
Proof.
  intros Hd Hn. pose proof (scan_leads P l Hd) as H. destruct (scan P None l) as [c|]; [|done]. destruct H as (Hin & Hp & _). by rewrite Hn in Hp.
Qed.

Lemma distinct_perm l l' : l ≡ₚ l' -> distinct l -> distinct l'.
Proof. unfold distinct. intros Hl. by rewrite Hl. Qed.

Lemma scan_perm P l l' : l ≡ₚ l' -> distinct l -> scan P None l = scan P None l'.
Proof.
  intros Hl Hd. pose proof (scan_leads P l Hd) as H. destruct (scan P None l) as [c|]; symmetry.
  - apply scan_some; [by eapply distinct_perm | by eapply leads_perm].
  - apply scan_none; [by eapply distinct_perm|]. intros c Hc. apply H. by rewrite Hl.
Qed.

(** The scans of the code. *)
Definition backup (c : Candidate) : bool := negb (claimsDr c) && claimsBdr c.
Definition ordinary (c : Candidate) : bool := negb (claimsDr c).

Lemma scanBdr_scans l : scanBdr l = (scan backup None l, scan ordinary None l).
Proof.
  enough (H : forall a b, foldl (fun acc c => if claimsDr c then acc else (if claimsBdr c then keep acc.1 c else acc.1, keep acc.2 c)) (a, b) l
    = (scan backup a l, scan ordinary b l)) by apply H.
  unfold scan. induction l as [|c l IH]; intros a b; cbn [foldl]; [done|].
  unfold backup at 2, ordinary at 2. destruct (claimsDr c); cbn [negb andb fst snd]; [apply IH|]. destruct (claimsBdr c); apply IH.
Qed.

Lemma scanDr_scan l : scanDr l = scan claimsDr None l.
Proof. done. Qed.

(** ** What is elected *)

(** The routers a pass elects: the first of those that claim to be the
    designated router, or else the backup; the backup is the first of the others
    that claim to be it, or else the first of the others at all. *)
Definition elected (l : list Candidate) (dr bdr : Z) : Prop :=
  ((exists c, leads claimsDr l c /\ dr = c_rid c) \/ (Forall (fun c => claimsDr c = false) l /\ dr = bdr)) /\
  ((exists c, leads backup l c /\ bdr = c_rid c) \/
   (Forall (fun c => backup c = false) l /\ (exists c, leads ordinary l c /\ bdr = c_rid c)) \/
   (Forall (fun c => claimsDr c = true) l /\ bdr = 0)).

Lemma runElection_elected l : distinct l -> elected l (runElection l).1 (runElection l).2.
Proof.
  intros Hd. unfold runElection. rewrite scanBdr_scans, scanDr_scan.
  pose proof (scan_leads claimsDr l Hd) as H1. pose proof (scan_leads backup l Hd) as H2. pose proof (scan_leads ordinary l Hd) as H3.
  split; cbn [fst snd].
  - destruct (scan claimsDr None l) as [c|]; [left; by exists c | right; split; [by apply Forall_forall | done]].
  - destruct (scan backup None l) as [c|]; [left; by exists c | right]. destruct (scan ordinary None l) as [c|]; [left | right]; (split; [apply Forall_forall|]); [exact H2 | by exists c | | done].
    intros c Hc. specialize (H3 c Hc). unfold ordinary in H3. by apply negb_false_iff in H3.
Qed.

Lemma elected_perm l l' dr bdr : l ≡ₚ l' -> elected l dr bdr -> elected l' dr bdr.
Proof.
  intros Hl [H1 H2]. split.
  - destruct H1 as [(c & Hc & E)|[H E]]; [left; exists c; split; [by eapply leads_perm | done] | right; by rewrite <- Hl].
  - destruct H2 as [(c & Hc & E)|[(H & c & Hc & E)|[H E]]].
    + left. exists c. split; [by eapply leads_perm | done].
    + right; left. split; [by rewrite <- Hl|]. exists c. split; [by eapply leads_perm | done].
    + right; right. by rewrite <- Hl.
Qed.

Lemma runElection_perm l l' : l ≡ₚ l' -> distinct l -> runElection l = runElection l'.
Proof.
  intros Hl Hd. unfold runElection. rewrite !scanBdr_scans, !scanDr_scan, !(scan_perm _ l l') by done. done.
Qed.

Lemma claim_rids self d b l : c_rid <$> claim self d b l = c_rid <$> l.
Proof. induction l as [|c l IH]; [done|]. cbn [claim]. destruct (Z.eqb_spec (c_rid c) self); cbn; [done|]. by rewrite IH. Qed.

Lemma claim_distinct self d b l : distinct l -> distinct (claim self d b l).
Proof. unfold distinct. by rewrite claim_rids. Qed.

(** Among distinct routers the claims of the one are set, the rest stays. *)
Definition claimed (self d b : Z) (c : Candidate) : Candidate :=
  if c_rid c =? self then mkCandidate (c_rid c) (c_priority c) (if d =? self then self else 0) (if b =? self then self else 0) else c.

Lemma claim_map self d b l : distinct l -> claim self d b l = claimed self d b <$> l.
Proof.
  induction l as [|c l IH]; intros Hd; [done|]. unfold distinct in Hd. cbn [claim fmap list_fmap] in *. apply NoDup_cons in Hd as [Hn Hd].
  unfold claimed at 1. destruct (Z.eqb_spec (c_rid c) self) as [E|]; f_equal; [|by apply IH].
  symmetry. rewrite <- (list_fmap_id l) at 2. apply list_fmap_ext. intros i c' Hc'. unfold claimed. destruct (Z.eqb_spec (c_rid c') self) as [E'|]; [|done].
  destruct Hn. rewrite E, <- E'. apply list_elem_of_fmap. exists c'. split; [done|]. by eapply list_elem_of_lookup_2.
Qed.

Lemma claim_perm self d b l l' : l ≡ₚ l' -> distinct l -> claim self d b l ≡ₚ claim self d b l'.
Proof. intros Hl Hd. rewrite !claim_map by (done || by eapply distinct_perm). by rewrite Hl. Qed.

(** The order in which the neighbors are met does not matter. *)
Lemma elect_perm self l l' : l ≡ₚ l' -> distinct l -> elect self l = elect self l'.
Proof.
  intros Hl Hd. unfold elect. rewrite (runElection_perm l l') by done. destruct (runElection l') as [d b].
  apply runElection_perm; [by apply claim_perm | by apply claim_distinct].
Qed.

(** ** In office *)

(** [d] and [b] are the only eligible routers that claim to be the designated
    router and its backup. *)
Record in_office (l : list Candidate) (d b : Candidate) : Prop := mkInOffice {
  o_dr : d ∈ l; o_claimsDr : claimsDr d = true; o_only_dr c : c ∈ l -> claimsDr c = true -> c = d;
  o_bdr : b ∈ l; o_backup : backup b = true; o_only_bdr c : c ∈ l -> backup c = true -> c = b }.

Lemma run_in_office l d b : distinct l -> in_office l d b -> runElection l = (c_rid d, c_rid b).
Proof.
  intros Hd [H1 H2 H3 H4 H5 H6]. unfold runElection. rewrite scanBdr_scans, scanDr_scan.
  rewrite (scan_some claimsDr l d Hd) by (split; [done|split; [done|]]; intros c Hc Hp; left; by apply H3).
  rewrite (scan_some backup l b Hd) by (split; [done|split; [done|]]; intros c Hc Hp; left; by apply H6). done.
Qed.

Lemma distinct_rid l c c' : distinct l -> c ∈ l -> c' ∈ l -> c_rid c = c_rid c' -> c = c'.
Proof.
  unfold distinct. intros Hd [i Hi]%list_elem_of_lookup [j Hj]%list_elem_of_lookup E.
  assert (i = j) by (eapply (NoDup_lookup _ _ _ (c_rid c) Hd); rewrite list_lookup_fmap, ?Hi, ?Hj; cbn; congruence). congruence.
Qed.

(** What the second pass sees are the same routers in office. *)
Lemma claimed_in_office self l d b : distinct l -> self <> 0 -> in_office l d b ->
  in_office (claim self (c_rid d) (c_rid b) l) (claimed self (c_rid d) (c_rid b) d) (claimed self (c_rid d) (c_rid b) b).
Proof.
  intros Hd H0 Hio. pose proof Hio as [H1 H2 H3 H4 H5 H6]. rewrite claim_map by done. set (f := claimed self (c_rid d) (c_rid b)).
  assert (Hne : c_rid d <> c_rid b). { intros E. rewrite (distinct_rid l d b) in H2 by done. unfold backup in H5. by rewrite H2 in H5. }
  assert (Hdr : forall c, c ∈ l -> claimsDr (f c) = true -> c = d).
  { intros c Hc. unfold f, claimed, claimsDr. destruct (Z.eqb_spec (c_rid c) self) as [E|]; cbn; [|by apply H3].
    destruct (Z.eqb_spec (c_rid d) self); rewrite Z.eqb_eq; intros; [apply (distinct_rid l); [done..|]; lia | lia]. }
  assert (Hbk : forall c, c ∈ l -> backup (f c) = true -> c = b).
  { intros c Hc. unfold f, claimed, backup, claimsDr, claimsBdr. destruct (Z.eqb_spec (c_rid c) self) as [E|]; cbn; [|by apply H6].
    rewrite andb_true_iff. intros [_ Hb]. destruct (Z.eqb_spec (c_rid b) self); rewrite Z.eqb_eq in Hb; [apply (distinct_rid l); [done..|]; lia | lia]. }
  split.
  - apply list_elem_of_fmap. by exists d.
  - unfold f, claimed. destruct (Z.eqb_spec (c_rid d) self) as [E|]; [|done]. unfold claimsDr. cbn. lia.
  - intros c [c' [-> Hc']]%list_elem_of_fmap Hp. by rewrite (Hdr c' Hc' Hp).
  - apply list_elem_of_fmap. by exists b.
  - unfold f, claimed. destruct (Z.eqb_spec (c_rid b) self) as [E|]; [|done]. unfold backup, claimsDr, claimsBdr. cbn.
    rewrite (proj2 (Z.eqb_neq (c_rid d) self)) by lia. apply andb_true_iff. split; [apply negb_true_iff, Z.eqb_neq | apply Z.eqb_eq]; lia.
  - intros c [c' [-> Hc']]%list_elem_of_fmap Hp. by rewrite (Hbk c' Hc' Hp).
Qed.

Lemma claimed_rid self d b c : c_rid (claimed self d b c) = c_rid c.
Proof. unfold claimed. by destruct (c_rid c =? self). Qed.

(** Routers in office stay in office. *)
Lemma elect_in_office self l d b : distinct l -> self <> 0 -> in_office l d b -> elect self l = (c_rid d, c_rid b).
Proof.
  intros Hd H0 Hio. unfold elect. rewrite (run_in_office l d b) by done.
  rewrite (run_in_office _ _ _ (claim_distinct _ _ _ _ Hd) (claimed_in_office self l d b Hd H0 Hio)), !claimed_rid. done.
Qed.

(** ** The properties *)

(** C38: What an election finds does not depend on the order in which the hash map
    gives the neighbors, and it is what RFC 2328, section 9.4, asks for: with
    the router's own claims set to the result of a first pass, the designated
    router is the first in the order of priority and router id of those that
    claim to be it, and the backup otherwise; the backup is the first of the
    others that claim to be it, the first of the others if none does, and none
    if there are no others. *)
Theorem election_outcome self l l' : distinct l -> l' ≡ₚ l ->
  elect self l' = elect self l /\
  elected (claim self (runElection l).1 (runElection l).2 l) (elect self l).1 (elect self l).2.
Proof.
  intros Hd Hl. split; [symmetry; by apply elect_perm|].
  unfold elect. destruct (runElection l) as [d b]. by apply runElection_elected, claim_distinct.
Qed.

(** Three routers, none in office; the first, of highest priority, runs the
    election: it becomes the designated router, and the router with the larger id of the
    others the backup. *)
Definition ex_segment : list Candidate := [mkCandidate 1 9 0 0; mkCandidate 2 5 0 0; mkCandidate 3 5 0 0].

Lemma election_outcome_witness :
  distinct ex_segment /\ elect 1 (reverse ex_segment) = (1, 3) /\ elected (claim 1 1 1 ex_segment) 1 3.
Proof.
  assert (Hd : distinct ex_segment) by (apply (bool_decide_unpack _); vm_compute; exact I).
  destruct (election_outcome 1 ex_segment (reverse ex_segment) Hd (reverse_Permutation _)) as [E H].
  split; [exact Hd|]. split; [exact E | exact H].
Defined.

(** Routers in office stay. When one eligible router claims to be the
    designated router and one other to be its backup, every router that runs
    an election over these routers, in whatever order and with whatever
    priorities, elects these two: routers agree, and a router that joins with
    a higher priority takes over from neither. *)
Theorem incumbents_stay self l l' d b : distinct l -> in_office l d b -> self <> 0 -> l' ≡ₚ l ->
  elect self l' = (c_rid d, c_rid b).
Proof. intros Hd Hio H0 Hl. rewrite <- (elect_perm self l l') by done. by apply elect_in_office. Qed.

(** Routers 2 and 3 are in office; router 1 joins with the highest priority. *)
Lemma incumbents_stay_witness :
  exists l d b, in_office l d b /\ c_rid d = 2 /\ c_rid b = 3 /\ (forall self, self <> 0 -> elect self l = (2, 3)) /\ exists c, c ∈ l /\ best c d = true.
Proof.
  set (d := mkCandidate 2 5 2 3). set (b := mkCandidate 3 5 2 3). set (c := mkCandidate 1 9 2 3). exists [c; d; b], d, b.
  assert (Hd : distinct [c; d; b]) by (apply (bool_decide_unpack _); vm_compute; exact I).
  assert (Hio : in_office [c; d; b] d b).
  { split; [set_solver | reflexivity | | set_solver | reflexivity |];
      intros x; rewrite !elem_of_cons; intros [->|[->|[->|[]%elem_of_nil]]] H; first [reflexivity | discriminate H]. }
  split; [exact Hio|]. split; [reflexivity|]. split; [reflexivity|]. split; [|exists c; split; [left | reflexivity]].
  intros self H0. exact (incumbents_stay self _ _ d b Hd Hio H0 (reflexivity _)).
Defined.

(** ** What is recorded *)

(** A router is not its own neighbor, so that an election it wins is never
    recorded: the designated router of its interface stays who it was, and as
    long as that is another router every further election with the same outcome
    is taken for a change, which starts the neighbors' exchange and the
    origination again. *)
Theorem own_election_not_recorded self prio ns s c l :
  eligibleOf self prio s ns = c :: l -> (elect self (c :: l)).1 = self -> Forall (fun n => n_rid n <> self) ns -> dr_rid s <> self ->
  exists s' told, election self prio ns s = (s', told, true) /\
    dr_rid s' = dr_rid s /\ dr_ip s' = dr_ip s /\ isDr s' = true /\
    forall n, n ∈ ns -> n_state n = TWOWAY -> n_rid n ∈ told.
Proof.
  intros He Hd Hn Hs. unfold election. rewrite He. destruct (elect self (c :: l)) as [d b]. cbn [fst] in Hd. subst d.
  assert (Hl : lookup_nbr self ns = None).
  { clear He Hs. unfold lookup_nbr. induction Hn as [|n ns Hne _ IH]; [done|]. cbn. by rewrite (proj2 (Z.eqb_neq _ _)). }
  rewrite (proj2 (Z.eqb_neq self (dr_rid s))) by done. cbn [negb orb]. eexists _, _. split; [reflexivity|].
  unfold setDr. rewrite Hl. cbn [isDr dr_rid dr_ip]. unfold setBdr. destruct (lookup_nbr b ns) as [x|]; cbn [dr_rid dr_ip];
    (split; [done|]; split; [done|]; split; [apply Z.eqb_refl|]; intros n Hin Hst;
     apply list_elem_of_In, List.in_map, List.filter_In; split; [by apply list_elem_of_In | by apply bool_decide_eq_true]).
Qed.

(** The router with the highest priority of a segment where another router is
    recorded as the designated one. *)
Lemma own_election_not_recorded_witness :
  exists s' told, election 9 5 [mkNbr 2 TWOWAY 1 0 0 77] (mkSegment 0 0 0 0 false false) = (s', told, true) /\ dr_rid s' = 0 /\ isDr s' = true.
Proof.
  destruct (own_election_not_recorded 9 5 [mkNbr 2 TWOWAY 1 0 0 77] (mkSegment 0 0 0 0 false false) (mkCandidate 9 5 0 0) [mkCandidate 2 1 0 0])
    as (s' & told & H1 & H2 & _ & H3 & _); [reflexivity | reflexivity | repeat constructor; discriminate | discriminate|].
  exists s', told. split; [exact H1|]. split; [exact H2 | exact H3].
Defined.
