(* ===== verification/TcpEngine.v ===== *)
(** * TcpEngine: the connections and listeners of the TCP stack

    [TcpEngine] (transport/tcp/TcpEngine.h, TcpEngine.cpp) keeps the sockets of
    the kernel that the program uses, dispatches what [epoll] reports about
    them, and sends what the connections' buffers hold. The kernel is a list
    of answers, one per system call, that the engine uses up; an answer no
    kernel gives (a descriptor that is open already, more bytes than were
    asked for) makes the run one that is not a run of the program, and when
    the answers are used up the engine waits for the kernel. The callbacks of
    the program are function pointers; what they do is a parameter: each is a
    sequence of operations of the engine. The counters of identifiers, of 64
    bits, are not taken to wrap around, and of the exceptions only that they
    are thrown is kept. *)

From S2P Require Import Prelude IPAddress TcpBuffers RxBuffer.

(** ** Errors, states and options *)

(** [transport/tcp/TcpTypes.hpp:82-108] TcpErrc *)
Inductive TcpErrc := SUCCESS | INVALID_ARGUMENT | NOT_FOUND | NO_RESOURCES | NOT_SUPPORTED | PERMISSION | WOULD_BLOCK | IN_PROGRESS
  | TIMED_OUT | CONNECTION_REFUSED | CONNECTION_RESET | NOT_CONNECTED | BROKEN_PIPE | ADDRESS_IN_USE | ADDRESS_NOT_AVAILABLE
  | NETWORK_UNREACHABLE | HOST_UNREACHABLE | SYSTEM_ERROR.

#[export] Instance TcpErrc_eq_dec : EqDecision TcpErrc.
Proof. solve_decision. Defined.

(** [transport/tcp/TcpTypes.hpp:114-120] TcpError *)
Record TcpError := mkTcpError { code : TcpErrc; osErrno : Z }.
Definition noError : TcpError := mkTcpError SUCCESS 0.

#[export] Instance TcpError_eq_dec : EqDecision TcpError.
Proof. solve_decision. Defined.

(** The numbers of Linux. *)
Definition EINTR : Z := 4.
Definition EAGAIN : Z := 11.
Definition ENOTCONN : Z := 107.
Definition EINPROGRESS : Z := 115.

(** [transport/tcp/TcpEngine.cpp:23-54] mapErrno: EPERM 1, ENOMEM 12, EACCES 13, EPIPE 32, EADDRINUSE 98,
    EADDRNOTAVAIL 99, ENETUNREACH 101, ECONNRESET 104, ENOBUFS 105, ETIMEDOUT 110, ECONNREFUSED 111, EHOSTUNREACH 113,
    EALREADY 114 *)
Definition mapErrno (e : Z) : TcpError :=
  mkTcpError (
    if e =? 0 then SUCCESS
    else if e =? EAGAIN then WOULD_BLOCK
    else if (e =? EINPROGRESS) || (e =? 114) then IN_PROGRESS
    else if e =? 110 then TIMED_OUT
    else if e =? 111 then CONNECTION_REFUSED
    else if e =? 104 then CONNECTION_RESET
    else if e =? ENOTCONN then NOT_CONNECTED
    else if e =? 32 then BROKEN_PIPE
    else if e =? 98 then ADDRESS_IN_USE
    else if e =? 99 then ADDRESS_NOT_AVAILABLE
    else if e =? 101 then NETWORK_UNREACHABLE
    else if e =? 113 then HOST_UNREACHABLE
    else if (e =? 1) || (e =? 13) then PERMISSION
    else if (e =? 12) || (e =? 105) then NO_RESOURCES
    else SYSTEM_ERROR) e.

(** [transport/tcp/TcpEngine.cpp:56-61] shouldStickify *)
Definition shouldStickify (e : TcpError) : bool :=
  negb (bool_decide (code e = SUCCESS)) && negb (bool_decide (code e = WOULD_BLOCK)) && negb (bool_decide (code e = IN_PROGRESS)).

(** [transport/tcp/TcpTypes.hpp:46-60] TcpState *)
Inductive TcpState := CLOSED | LISTEN | SYN_SENT | SYN_RECEIVED | ESTABLISHED | FIN_WAIT_1 | FIN_WAIT_2 | CLOSE_WAIT | CLOSING | LAST_ACK | TIME_ACK | TIME_WAIT.

(** [transport/tcp/TcpEngine.cpp:144-161] mapLinuxTcpState *)
Definition mapLinuxTcpState (s : Z) : TcpState :=
  match s with
  | 1 => ESTABLISHED | 2 => SYN_SENT | 3 => SYN_RECEIVED | 4 => FIN_WAIT_1 | 5 => FIN_WAIT_2 | 6 => TIME_WAIT
  | 7 => CLOSED | 8 => CLOSE_WAIT | 9 => LAST_ACK | 10 => LISTEN | 11 => CLOSING | _ => CLOSED
  end.

(** [transport/tcp/TcpTypes.hpp:128-147] TcpEndpoint *)
Record TcpEndpoint := mkEndpoint { address : IPAddress; port : Z }.
(** [transport/tcp/TcpTypes.hpp:156-193] TcpSocketKey *)
Record TcpSocketKey := mkKey { local : TcpEndpoint; remote : TcpEndpoint }.
Definition noEndpoint : TcpEndpoint := mkEndpoint (mkIPAddress 0) 0.

(** [transport/tcp/TcpTypes.hpp:204-211] TcpSocketPolicy *)
Record TcpSocketPolicy := mkPolicy { ttl : option Z; tos : option Z; lowLatency : bool; keepAlive : bool; pathMtuDiscovery : bool }.

(** [transport/tcp/TcpEngine.cpp:133-142] mergePolicy *)
Definition mergePolicy (defaults overrides : TcpSocketPolicy) : TcpSocketPolicy :=
  mkPolicy (match ttl overrides with None => ttl defaults | v => v end) (match tos overrides with None => tos defaults | v => v end)
    (lowLatency overrides || lowLatency defaults) (keepAlive overrides || keepAlive defaults)
    (pathMtuDiscovery overrides || pathMtuDiscovery defaults).

(** [transport/tcp/TcpTypes.hpp:333-343] Config, without the configuration of the pool *)
Record Config := mkConfig { ephemeralMin : Z; ephemeralMax : Z; maxConnections : Z; defaults : TcpSocketPolicy }.

(** [transport/tcp/TcpTypes.hpp:355-370] ListenOptions: callbacks are function pointers, [l_device] is whether an interface
    is named *)
Record ListenOptions := mkListenOptions {
  l_policy : TcpSocketPolicy; l_device : bool; l_onAccept : option Z; l_connCallback : option Z; l_recvCallback : option Z }.
(** [transport/tcp/TcpTypes.hpp:376-387] ConnectOptions *)
Record ConnectOptions := mkConnectOptions { o_policy : TcpSocketPolicy; o_device : bool; o_callback : option Z; o_recvCallback : option Z }.

(** [transport/tcp/TcpTypes.hpp:233-242] TcpEventType, of which an engine never makes ACCEPT_READY *)
Inductive TcpEventType := ACCEPTED | CONNECTED | READABLE | WRITABLE | PEER_CLOSED | ERROR.
(** [transport/tcp/TcpTypes.hpp:251-256] TcpEvent *)
Record TcpEvent := mkEvent { ev_type : TcpEventType; ev_id : Z; ev_error : TcpError }.

(** [transport/tcp/TcpEngine.h:191-212] ListenerState *)
Record ListenerState := mkListener {
  lfd : Z; policyApplied : TcpSocketPolicy; rxSize : nat; onAccept : option Z; acceptedConnCallback : option Z; recvCallback : option Z;
  accepted : list Z }.

(** [transport/tcp/TcpEngine.h:215-246] ConnectionState *)
Record ConnectionState := mkConn {
  fd : Z; key : TcpSocketKey; ownerListener : Z; connectPending : bool; peerClosed : bool; stickyError : TcpError;
  cb : option Z; recvCb : option Z; bufferTx : TxBuffer; bufferRx : RxBuffer }.

Definition on_accepted (f : list Z -> list Z) (l : ListenerState) : ListenerState :=
  mkListener (lfd l) (policyApplied l) (rxSize l) (onAccept l) (acceptedConnCallback l) (recvCallback l) (f (accepted l)).
Definition set_pending (b : bool) (c : ConnectionState) : ConnectionState :=
  mkConn (fd c) (key c) (ownerListener c) b (peerClosed c) (stickyError c) (cb c) (recvCb c) (bufferTx c) (bufferRx c).
Definition set_peerClosed (c : ConnectionState) : ConnectionState :=
  mkConn (fd c) (key c) (ownerListener c) (connectPending c) true (stickyError c) (cb c) (recvCb c) (bufferTx c) (bufferRx c).
Definition set_error (e : TcpError) (c : ConnectionState) : ConnectionState :=
  mkConn (fd c) (key c) (ownerListener c) (connectPending c) (peerClosed c) e (cb c) (recvCb c) (bufferTx c) (bufferRx c).
Definition set_tx (t : TxBuffer) (c : ConnectionState) : ConnectionState :=
  mkConn (fd c) (key c) (ownerListener c) (connectPending c) (peerClosed c) (stickyError c) (cb c) (recvCb c) t (bufferRx c).
Definition set_rx (r : RxBuffer) (c : ConnectionState) : ConnectionState :=
  mkConn (fd c) (key c) (ownerListener c) (connectPending c) (peerClosed c) (stickyError c) (cb c) (recvCb c) (bufferTx c) r.

(** [transport/tcp/TcpEngine.h:249-249] kListenerTag *)
Definition kListenerTag : Z := 2 ^ 63.
(** [transport/tcp/TcpEngine.h:250-250] kIdMask *)
Definition kIdMask : Z := 2 ^ 63 - 1.
(** [transport/tcp/TcpEngine.h:252-252] TcpEngine::packListener *)
Definition packListener (id : Z) : Z := Z.lor kListenerTag (Z.land id kIdMask).
(** [transport/tcp/TcpEngine.h:253-253] TcpEngine::packConn *)
Definition packConn (id : Z) : Z := Z.land id kIdMask.
(** [transport/tcp/TcpEngine.h:254-254] TcpEngine::isListenerTag *)
Definition isListenerTag (v : Z) : bool := negb (Z.land v kListenerTag =? 0).
(** [transport/tcp/TcpEngine.h:255-255] TcpEngine::unpackId *)
Definition unpackId (v : Z) : Z := Z.land v kIdMask.

(** ** The kernel and the engine *)

(** What the kernel answers to a call: its value, [errno] or the socket's
    error, and what it writes. *)
Record Answer := mkAnswer { ret : Z; errno : Z; endpoint : TcpEndpoint; written : bytes }.

(** What the engine does that others see. *)
Inductive Output :=
  | Opened (fd : Z)
  | Closed (fd : Z)
  | Sent (fd : Z) (data : bytes)
  | Called (function : Z) (e : TcpEvent)
  | Accepted (function cid : Z)
  | Received (function cid : Z) (data : bytes).

Section Engine.
Context {P : Type} `{BlockPool P} (cfg : Config).

(** [transport/tcp/TcpEngine.h:321-335] TcpEngine, with the answers of the kernel, the descriptors of the sockets that are
    open, and what the engine has done *)
Record Engine := mkEngine {
  pool : P; epfd : bool; nextListenId : Z; nextConnId : Z; nextEphemeral : Z;
  listeners : gmap Z ListenerState; connections : gmap Z ConnectionState; ioScratch : bytes;
  answers : list Answer; fds : gset Z; log : list Output }.

Definition on_pool (p : P) (s : Engine) : Engine :=
  mkEngine p (epfd s) (nextListenId s) (nextConnId s) (nextEphemeral s) (listeners s) (connections s) (ioScratch s) (answers s) (fds s) (log s).
Definition set_listenId (n : Z) (s : Engine) : Engine :=
  mkEngine (pool s) (epfd s) n (nextConnId s) (nextEphemeral s) (listeners s) (connections s) (ioScratch s) (answers s) (fds s) (log s).
Definition set_connId (n : Z) (s : Engine) : Engine :=
  mkEngine (pool s) (epfd s) (nextListenId s) n (nextEphemeral s) (listeners s) (connections s) (ioScratch s) (answers s) (fds s) (log s).
Definition set_ephemeral (n : Z) (s : Engine) : Engine :=
  mkEngine (pool s) (epfd s) (nextListenId s) (nextConnId s) n (listeners s) (connections s) (ioScratch s) (answers s) (fds s) (log s).
Definition on_listeners (f : gmap Z ListenerState -> gmap Z ListenerState) (s : Engine) : Engine :=
  mkEngine (pool s) (epfd s) (nextListenId s) (nextConnId s) (nextEphemeral s) (f (listeners s)) (connections s) (ioScratch s) (answers s) (fds s) (log s).
Definition on_connections (f : gmap Z ConnectionState -> gmap Z ConnectionState) (s : Engine) : Engine :=
  mkEngine (pool s) (epfd s) (nextListenId s) (nextConnId s) (nextEphemeral s) (listeners s) (f (connections s)) (ioScratch s) (answers s) (fds s) (log s).
Definition on_scratch (f : bytes -> bytes) (s : Engine) : Engine :=
  mkEngine (pool s) (epfd s) (nextListenId s) (nextConnId s) (nextEphemeral s) (listeners s) (connections s) (f (ioScratch s)) (answers s) (fds s) (log s).
Definition set_answers (l : list Answer) (s : Engine) : Engine :=
  mkEngine (pool s) (epfd s) (nextListenId s) (nextConnId s) (nextEphemeral s) (listeners s) (connections s) (ioScratch s) l (fds s) (log s).
Definition on_fds (f : gset Z -> gset Z) (s : Engine) : Engine :=
  mkEngine (pool s) (epfd s) (nextListenId s) (nextConnId s) (nextEphemeral s) (listeners s) (connections s) (ioScratch s) (answers s) (f (fds s)) (log s).
Definition put (o : Output) (s : Engine) : Engine :=
  mkEngine (pool s) (epfd s) (nextListenId s) (nextConnId s) (nextEphemeral s) (listeners s) (connections s) (ioScratch s) (answers s) (fds s) (log s ++ [o]).

(** How a call ends: it returns, throws, ends the program (an exception that
    leaves a [noexcept] function), is undefined, waits for the kernel, or met an
    answer that no kernel gives. *)
Inductive result (A : Type) :=
  | Done (a : A) (s : Engine)
  | Thrown (s : Engine)
  | Terminated
  | Undefined
  | Waiting
  | NotKernel.
#[global] Arguments Done {A} _ _.
#[global] Arguments Thrown {A} _.
#[global] Arguments Terminated {A}.
#[global] Arguments Undefined {A}.
#[global] Arguments Waiting {A}.
#[global] Arguments NotKernel {A}.

Definition IO (A : Type) : Type := Engine -> result A.

#[global] Instance IO_ret : MRet IO := fun A a s => Done a s.
#[global] Instance IO_bind : MBind IO := fun A B f m s =>
  match m s with
  | Done a s => f a s | Thrown s => Thrown s | Terminated => Terminated
  | Undefined => Undefined | Waiting => Waiting | NotKernel => NotKernel
  end.

Definition asks {A} (f : Engine -> A) : IO A := fun s => Done (f s) s.
Definition does (f : Engine -> Engine) : IO unit := fun s => Done tt (f s).
Definition throw {A} : IO A := fun s => Thrown s.
Definition undef {A} : IO A := fun _ => Undefined.
Definition calls {A} (o : outcome A) : IO A := fun s => match o with Ret a => Done a s | _ => Undefined end.

(** The end of a [noexcept] function. *)
Definition noexcept {A} (m : IO A) : IO A := fun s => match m s with Thrown _ => Terminated | r => r end.

(** A system call, with what a kernel can answer. *)
Definition sys (ok : Engine -> Answer -> bool) : IO Answer := fun s =>
  match answers s with
  | [] => Waiting
  | a :: l => if ok s a then Done a (set_answers l s) else NotKernel
  end.

(** Calls that answer 0 or fail. *)
Definition call : IO Answer := sys (fun _ _ => true).
Definition succeeds : IO bool := a ← call; mret (ret a =? 0).

(** [socket] and [accept4]: the descriptor is a new one. *)
Definition open_fd : IO Answer :=
  a ← sys (fun s a => (ret a <? 0) || bool_decide (ret a ∉ fds s));
  if ret a <? 0 then mret a else does (fun s => put (Opened (ret a)) (on_fds (union {[ret a]}) s));; mret a.
Definition close_fd (d : Z) : IO unit := does (fun s => put (Closed d) (on_fds (.∖ {[d]}) s)).

Definition connection (cid : Z) : IO ConnectionState :=
  c ← asks (fun s => connections s !! cid); match c with Some c => mret c | None => undef end.
Definition listener (lid : Z) : IO ListenerState :=
  l ← asks (fun s => listeners s !! lid); match l with Some l => mret l | None => undef end.
Definition alters (cid : Z) (f : ConnectionState -> ConnectionState) : IO unit :=
  c ← connection cid; does (on_connections (insert cid (f c))).

(** ** Opening *)

(** [transport/tcp/TcpEngine.cpp:189-198] TcpEngine::allocateEphemeral *)
Definition allocateEphemeral (next : Z) : Z * Z :=
  if ephemeralMax cfg <? ephemeralMin cfg then (0, next)
  else
    let next := if (next <? ephemeralMin cfg) || (ephemeralMax cfg <? next) then ephemeralMin cfg else next in
    let p := next in
    let next := u16 (next + 1) in
    (p, if ephemeralMax cfg <? next then ephemeralMin cfg else next).

(** [transport/tcp/TcpEngine.cpp:200-207] TcpEngine::epAdd *)
Definition epAdd : IO unit := e ← asks epfd; if e : bool then call;; mret tt else mret tt.
(** [transport/tcp/TcpEngine.cpp:209-213] TcpEngine::epDel *)
Definition epDel : IO unit := e ← asks epfd; if e : bool then call;; mret tt else mret tt.

(** [transport/tcp/TcpEngine.cpp:63-69] setNonBlocking *)
Definition setNonBlocking : IO bool :=
  a ← call;
  if ret a <? 0 then mret false else a ← call; mret (negb (ret a <? 0)).

(** [transport/tcp/TcpEngine.cpp:215-221] TcpEngine::bindToDeviceIfRequested *)
Definition bindToDeviceIfRequested (device : bool) : IO unit :=
  if negb device then mret tt else ok ← succeeds; if ok : bool then mret tt else throw.

(** One option that has to be set. *)
Definition option_set (wanted : bool) : IO unit :=
  if negb wanted then mret tt else ok ← succeeds; if ok : bool then mret tt else throw.

(** [transport/tcp/TcpEngine.cpp:71-131] applyPolicy, for a socket of one of the two address families, which is every
    socket the engine opens *)
Definition applyPolicy (p : TcpSocketPolicy) : IO unit :=
  option_set (lowLatency p);; option_set (keepAlive p);; option_set (bool_decide (is_Some (tos p)));;
  option_set (bool_decide (is_Some (ttl p)));; option_set true.

(** [transport/tcp/TcpEngine.cpp:223-232] TcpEngine::bindEndpoint *)
Definition bindEndpoint : IO bool := succeeds.

(** [transport/tcp/TcpEngine.cpp:234-264] TcpEngine::getLiveKey *)
Definition getLiveKey : IO (option TcpSocketKey) :=
  a ← call;
  if negb (ret a =? 0) then mret None else
  b ← call;
  if ret b =? 0 then mret (Some (mkKey (endpoint a) (endpoint b)))
  else if errno b =? ENOTCONN then mret (Some (mkKey (endpoint a) noEndpoint)) else mret None.

(** [transport/tcp/TcpEngine.cpp:266-274] TcpEngine::linuxState: the state is in what the kernel answers *)
Definition linuxState : IO TcpState :=
  a ← call; if ret a =? 0 then mret (mapLinuxTcpState (errno a)) else throw.

(** [transport/tcp/TcpEngine.cpp:284-291] TcpEngine::getAcceptedConnectionChecked *)
Definition getAcceptedConnectionChecked (lid cid : Z) : IO (option ConnectionState) :=
  c ← asks (fun s => connections s !! cid);
  mret (match c with Some c => if negb (ownerListener c =? lid) then None else Some c | None => None end).

(** [transport/tcp/TcpEngine.cpp:293-347] TcpEngine::createListener: that the address cannot be bound is ignored *)
Definition createListener (opt : ListenOptions) : IO Z :=
  a ← open_fd;
  if ret a <? 0 then throw else
  nb ← setNonBlocking;
  if negb nb then throw else
  call;;
  bindToDeviceIfRequested (l_device opt);;
  let p := mergePolicy (defaults cfg) (l_policy opt) in
  applyPolicy p;;
  bindEndpoint;;
  ok ← succeeds;
  if negb ok then close_fd (ret a);; throw else
  id ← asks nextListenId;
  does (fun s => set_listenId (id + 1) s);;
  does (on_listeners (insert id (mkListener (ret a) p 2048 (l_onAccept opt) (l_connCallback opt) (l_recvCallback opt) [])));;
  epAdd;;
  mret id.

(** [transport/tcp/TcpEngine.cpp:383-391] TcpEngine::createConnection, the loop over the ephemeral ports *)
Fixpoint bindEphemeral (n : nat) : IO (option Z) :=
  match n with
  | O => mret None
  | S n =>
      next ← asks nextEphemeral;
      let '(p, next) := allocateEphemeral next in
      does (set_ephemeral next);;
      ok ← bindEndpoint;
      if ok : bool then mret (Some p) else bindEphemeral n
  end.

(** [transport/tcp/TcpEngine.cpp:370-402] TcpEngine::createConnection, the local port *)
Definition bindLocal (d p : Z) : IO Z :=
  if p =? 0 then
    if ephemeralMax cfg <? ephemeralMin cfg then close_fd d;; throw
    else
      bound ← bindEphemeral (Z.to_nat (u32 (ephemeralMax cfg - ephemeralMin cfg + 1)));
      match bound with Some p => mret p | None => close_fd d;; throw end
  else bindEndpoint;; mret p.

(** [transport/tcp/TcpEngine.cpp:349-449] TcpEngine::createConnection *)
Definition createConnection (lcl rmt : TcpEndpoint) (opt : ConnectOptions) : IO Z :=
  n ← asks (fun s => Z.of_nat (size (connections s)));
  if maxConnections cfg <=? n then throw else
  a ← open_fd;
  if ret a <? 0 then throw else
  nb ← setNonBlocking;
  if negb nb then throw else
  bindToDeviceIfRequested (o_device opt);;
  applyPolicy (mergePolicy (defaults cfg) (o_policy opt));;
  p ← bindLocal (ret a) (port lcl);
  rc ← call;
  if negb (ret rc =? 0) && negb (errno rc =? EINPROGRESS) then close_fd (ret a);; throw else
  cid ← asks nextConnId;
  does (set_connId (cid + 1));;
  live ← getLiveKey;
  let bound := mkEndpoint (address lcl) p in
  let k := mkKey (match live with Some k => local k | None => bound end) rmt in
  does (on_connections (insert cid (mkConn (ret a) k 0 (negb (ret rc =? 0)) false noError
    (o_callback opt) (o_recvCallback opt) TxBufferPool_acquire (RxBuffer_new 2048))));;
  epAdd;;
  mret cid.

(** [transport/tcp/TcpEngine.cpp:451-488] TcpEngine::adoptAcceptedSocket *)
Definition adoptAcceptedSocket (lid d : Z) : IO Z :=
  l ← listener lid;
  n ← asks (fun s => Z.of_nat (size (connections s)));
  if maxConnections cfg <=? n then close_fd d;; throw else
  applyPolicy (policyApplied l);;
  cid ← asks nextConnId;
  does (set_connId (cid + 1));;
  live ← getLiveKey;
  match live with
  | None => throw
  | Some k =>
      does (on_connections (insert cid (mkConn d k lid false false noError (acceptedConnCallback l) (recvCallback l)
        TxBufferPool_acquire (RxBuffer_new (rxSize l)))));;
      does (on_listeners (alter (on_accepted (fun v => v ++ [cid])) lid));;
      epAdd;;
      mret cid
  end.

(** ** Closing *)

(** [transport/tcp/TcpEngine.cpp:632-657] TcpEngine::closeConnectionInternal: the buffer goes with the connection *)
Definition closeConnectionInternal (cid : Z) : IO unit :=
  it ← asks (fun s => connections s !! cid);
  match it with
  | None => mret tt
  | Some c =>
      does (on_connections (delete cid));;
      (if 0 <=? fd c then epDel else mret tt);;
      (if 0 <=? fd c then call;; close_fd (fd c) else mret tt);;
      (if negb (ownerListener c =? 0)
       then does (on_listeners (alter (on_accepted (filter (fun x => x <> cid))) (ownerListener c)))
       else mret tt);;
      p ← asks pool;
      r ← calls (reset p (bufferTx c));
      does (on_pool r.1)
  end.

(** [transport/tcp/TcpEngine.cpp:659-669] TcpEngine::closeConnection *)
Definition closeConnection (cid : Z) : IO unit :=
  it ← asks (fun s => connections s !! cid);
  match it with
  | None => mret tt
  | Some c => if negb (ownerListener c =? 0) then mret tt else closeConnectionInternal cid
  end.

(** The connections of a list, one after the other. *)
Fixpoint closeAll (l : list Z) : IO unit :=
  match l with [] => mret tt | cid :: l => closeConnectionInternal cid;; closeAll l end.

(** [transport/tcp/TcpEngine.cpp:671-687] TcpEngine::closeListener *)
Definition closeListener (lid : Z) : IO unit :=
  it ← asks (fun s => listeners s !! lid);
  match it with
  | None => mret tt
  | Some l =>
      does (on_listeners (delete lid));;
      (if 0 <=? lfd l then epDel else mret tt);;
      (if 0 <=? lfd l then close_fd (lfd l) else mret tt);;
      closeAll (accepted l)
  end.

(** [transport/tcp/TcpEngine.cpp:608-618] TcpEngine::listenerDisconnect *)
Definition listenerDisconnect (lid cid : Z) : IO unit :=
  it ← asks (fun s => listeners s !! lid);
  match it with
  | None => mret tt
  | Some _ =>
      c ← getAcceptedConnectionChecked lid cid;
      match c with None => mret tt | Some _ => closeConnectionInternal cid end
  end.

(** [transport/tcp/TcpEngine.cpp:620-630] TcpEngine::dropLocalConnections *)
Definition dropLocalConnections (addr : IPAddress) : IO unit :=
  toClose ← asks (fun s => (map_to_list (filter (fun ic => address (local (key ic.2)) = addr) (connections s))).*1);
  closeAll toClose.

(** [transport/tcp/TcpEngine.cpp:175-187] TcpEngine::~TcpEngine: its loops go over maps that their bodies erase from, so
    that it is defined when both are empty *)
Definition destroy : IO unit :=
  n ← asks (fun s => (size (listeners s) + size (connections s))%nat);
  if (n =? 0)%nat then mret tt else undef.

(** ** Sending *)

(** [transport/tcp/TcpEngine.cpp:563-591] TcpEngine::flush, the loop: each turn is a call of [send] *)
Fixpoint flushLoop (fuel : nat) (cid : Z) (totalSent : nat) : IO nat :=
  match fuel with
  | O => fun _ => Waiting
  | S fuel =>
      c ← connection cid;
      if (sizeBytes (bufferTx c) =? 0)%nat then mret totalSent else
      p ← asks pool;
      span ← calls (peek p (bufferTx c) 0);
      if (length span =? 0)%nat then mret totalSent else
      a ← sys (fun _ a => ret a <=? Z.of_nat (length span));
      if 0 <? ret a then
        let sent := Z.to_nat (ret a) in
        does (put (Sent (fd c) (take sent span)));;
        r ← calls (consume p (bufferTx c) sent);
        does (on_pool r.1.1);;
        alters cid (set_tx r.1.2);;
        flushLoop fuel cid (totalSent + sent)
      else if ret a =? 0 then mret totalSent
      else if errno a =? EINTR then flushLoop fuel cid totalSent
      else if errno a =? EAGAIN then mret totalSent
      else
        let e := mapErrno (errno a) in
        (if shouldStickify e then alters cid (set_error e) else mret tt);;
        mret totalSent
  end.

(** [transport/tcp/TcpEngine.cpp:553-594] TcpEngine::flush *)
Definition flush (cid : Z) : IO nat :=
  c ← asks (fun s => connections s !! cid);
  match c with
  | None => mret 0%nat
  | Some c =>
      if negb (bool_decide (code (stickyError c) = SUCCESS)) then mret 0%nat
      else n ← asks (fun s => length (answers s)); flushLoop (S n) cid 0
  end.

(** [transport/tcp/TcpEngine.cpp:596-606] TcpEngine::listenerFlush *)
Definition listenerFlush (lid cid : Z) : IO nat :=
  it ← asks (fun s => listeners s !! lid);
  match it with
  | None => mret 0%nat
  | Some _ => c ← getAcceptedConnectionChecked lid cid; match c with None => mret 0%nat | Some _ => flush cid end
  end.

(** [transport/tcp/Connection.cpp:39-42] Connection::reserveSpan: and the piece of a message that its callers write to the
    span, which none of them looks at *)
Definition writePiece (cid : Z) (m : bytes) : IO unit :=
  c ← connection cid;
  p ← asks pool;
  r ← calls (reserveSpan p (bufferTx c) (length m));
  does (on_pool r.1.1);;
  alters cid (set_tx r.1.2);;
  match r.2 with
  | None => if (length m =? 0)%nat then mret tt else undef
  | Some sp => p ← calls (writeSpan r.1.1 sp m); does (on_pool p)
  end.

(** The commit of bytes written to a connection's buffer, which nothing in the
    repository calls. *)
Definition commitPiece (cid : Z) (n : nat) : IO unit :=
  c ← connection cid;
  p ← asks pool;
  w ← calls (commit p (bufferTx c) n);
  does (on_pool w.1);;
  alters cid (set_tx w.2).

(** ** Callbacks *)

(** What a callback does with the engine. *)
Inductive Op :=
  | OpConnect (lcl rmt : TcpEndpoint) (opt : ConnectOptions)
  | OpListen (opt : ListenOptions)
  | OpClose (cid : Z)
  | OpCloseListener (lid : Z)
  | OpDisconnect (lid cid : Z)
  | OpDrop (addr : IPAddress)
  | OpFlush (cid : Z)
  | OpListenerFlush (lid cid : Z)
  | OpWrite (cid : Z) (m : bytes)
  | OpCommit (cid : Z) (n : nat).

Definition run_op (o : Op) : IO unit :=
  match o with
  | OpConnect lcl rmt opt => createConnection lcl rmt opt;; mret tt
  | OpListen opt => createListener opt;; mret tt
  | OpClose cid => closeConnection cid
  | OpCloseListener lid => closeListener lid
  | OpDisconnect lid cid => listenerDisconnect lid cid
  | OpDrop addr => dropLocalConnections addr
  | OpFlush cid => flush cid;; mret tt
  | OpListenerFlush lid cid => listenerFlush lid cid;; mret tt
  | OpWrite cid m => writePiece cid m
  | OpCommit cid n => commitPiece cid n
  end.

Fixpoint run_ops (l : list Op) : IO unit :=
  match l with [] => mret tt | o :: l => run_op o;; run_ops l end.

(** What the function a pointer refers to does, after what has happened: for an
    event of a connection, for a new connection of a listener, and for bytes
    received, of which it takes some from the front. *)
Context (onEvent : Z -> list Output -> TcpEvent -> list Op).
Context (onAccepted : Z -> list Output -> Z -> list Op).
Context (onReceived : Z -> list Output -> bytes -> list Op * nat).

Definition call_event (f : Z) (e : TcpEvent) : IO unit :=
  does (put (Called f e));; h ← asks log; noexcept (run_ops (onEvent f h e)).
Definition call_accept (f cid : Z) : IO unit :=
  does (put (Accepted f cid));; h ← asks log; noexcept (run_ops (onAccepted f h cid)).

(** [transport/tcp/TcpEngine.cpp:536-551] TcpEngine::dispatchConnectEvent *)
Definition dispatchConnectEvent (cid : Z) (t : TcpEventType) (e : TcpError) : IO unit :=
  it ← asks (fun s => connections s !! cid);
  match it with
  | None => mret tt
  | Some c => match cb c with None => mret tt | Some f => call_event f (mkEvent t cid e) end
  end.

(** [transport/tcp/TcpEngine.cpp:509-530] TcpEngine::acceptLoop, the callbacks of a new connection *)
Definition accept_callbacks (lid cid : Z) : IO unit :=
  itc ← asks (fun s => connections s !! cid);
  match itc with
  | None => mret tt
  | Some _ =>
      l ← listener lid;
      (match onAccept l with None => mret tt | Some f => call_accept f cid end);;
      c ← connection cid;
      match cb c with None => mret tt | Some f => call_event f (mkEvent ACCEPTED cid noError) end
  end.

(** [transport/tcp/TcpEngine.cpp:494-531] TcpEngine::acceptLoop, the loop: each turn is a call of [accept4]; [room] is how
    many events fit *)
Fixpoint acceptTurns (fuel : nat) (lid : Z) (invoke : bool) (room : nat) : IO (nat * list TcpEvent) :=
  match fuel with
  | O => fun _ => Waiting
  | S fuel =>
      listener lid;;
      a ← open_fd;
      if ret a <? 0 then
        if errno a =? EINTR then acceptTurns fuel lid invoke room else mret (0%nat, [])
      else
        cid ← noexcept (adoptAcceptedSocket lid (ret a));
        (if invoke then accept_callbacks lid cid else mret tt);;
        r ← acceptTurns fuel lid invoke (room - 1);
        mret (S r.1, if (0 <? room)%nat then mkEvent ACCEPTED cid noError :: r.2 else r.2)
  end.

(** [transport/tcp/TcpEngine.cpp:490-534] TcpEngine::acceptLoop *)
Definition acceptLoop (lid : Z) (invoke : bool) (room : nat) : IO (nat * list TcpEvent) :=
  n ← asks (fun s => length (answers s)); acceptTurns (S n) lid invoke room.

(** [transport/tcp/TcpEngine.cpp:689-700] TcpEngine::connectionSocketKey *)
Definition connectionSocketKey (cid : Z) : IO (option TcpSocketKey) :=
  it ← asks (fun s => connections s !! cid);
  match it with None => mret None | Some _ => getLiveKey end.

(** ** Events *)

Definition EPOLLIN : Z := 1.
Definition EPOLLOUT : Z := 4.
Definition EPOLLERR : Z := 8.
Definition EPOLLHUP : Z := 16.
Definition EPOLLRDHUP : Z := 8192.
Definition has (e m : Z) : bool := negb (Z.land e m =? 0).

(** The result of a connect, which the kernel gives as the error of the socket. *)
Definition connectError (a : Answer) : option TcpError :=
  if (ret a =? 0) && (errno a =? 0) then None else Some (mapErrno (errno a)).

(** [transport/tcp/TcpEngine.cpp:777-782] TcpEngine::pollEvents, the error of a socket; so in pump at lines 919-924 *)
Definition takeError (cid : Z) : IO TcpError :=
  a ← call;
  let e := if (ret a =? 0) && negb (errno a =? 0) then mapErrno (errno a) else mkTcpError SYSTEM_ERROR 0 in
  alters cid (set_error e);; mret e.

Definition emit (room : nat) (e : TcpEvent) (l : list TcpEvent) : list TcpEvent := if (length l <? room)%nat then l ++ [e] else l.

(** [transport/tcp/TcpEngine.cpp:740-764] TcpEngine::pollEvents, a connect that is pending: the events, and whether the
    connection is done with *)
Definition pollConnect (cid : Z) (c : ConnectionState) (e : Z) : IO (list TcpEvent * bool) :=
  if connectPending c && has e (Z.lor EPOLLOUT (Z.lor EPOLLERR EPOLLHUP)) then
    a ← call;
    match connectError a with
    | None => alters cid (set_pending false);; mret ([mkEvent CONNECTED cid noError], false)
    | Some er => alters cid (set_error er);; mret ([mkEvent ERROR cid er], true)
    end
  else mret ([], false).

(** [transport/tcp/TcpEngine.cpp:720-785] TcpEngine::pollEvents, one event of the kernel; [room] is how many events
    fit *)
Definition pollOne (room : nat) (e tag : Z) : IO (list TcpEvent) :=
  if isListenerTag tag then
    itl ← asks (fun s => listeners s !! unpackId tag);
    match itl with
    | None => mret []
    | Some _ => r ← acceptLoop (unpackId tag) false room; mret r.2
    end
  else
    let cid := unpackId tag in
    itc ← asks (fun s => connections s !! cid);
    match itc with
    | None => mret []
    | Some c =>
        r ← pollConnect cid c e;
        if (r.2 : bool) then mret r.1 else
        let l := if has e EPOLLIN then emit room (mkEvent READABLE cid noError) r.1 else r.1 in
        let l := if has e EPOLLOUT then emit room (mkEvent WRITABLE cid noError) l else l in
        let l := if has e EPOLLRDHUP then emit room (mkEvent PEER_CLOSED cid noError) l else l in
        if has e EPOLLERR && (length l <? room)%nat then er ← takeError cid; mret (l ++ [mkEvent ERROR cid er]) else mret l
    end.

(** [transport/tcp/TcpEngine.cpp:718-788] TcpEngine::pollEvents, the loop *)
Fixpoint pollLoop (room : nat) (ready : list (Z * Z)) : IO (list TcpEvent) :=
  match ready with
  | [] => mret []
  | (e, tag) :: ready =>
      if (room =? 0)%nat then mret [] else
      l ← pollOne room e tag;
      r ← pollLoop (room - length l) ready;
      mret (l ++ r)
  end.
(** [transport/tcp/TcpEngine.cpp:702-789] TcpEngine::pollEvents, with what [epoll_wait] reports *)
Definition pollEvents (room : nat) (ready : list (Z * Z)) : IO (list TcpEvent) :=
  ok ← asks epfd;
  if negb ok || (room =? 0)%nat then mret [] else pollLoop room (take room ready).

(** [transport/tcp/TcpEngine.cpp:831-858] TcpEngine::pump, a connect that is pending: how many events, and whether the
    connection is done with *)
Definition pumpConnect (cid : Z) (c : ConnectionState) (e : Z) : IO (nat * bool) :=
  if connectPending c && has e (Z.lor EPOLLOUT (Z.lor EPOLLERR EPOLLHUP)) then
    a ← call;
    match connectError a with
    | None => alters cid (set_pending false);; dispatchConnectEvent cid CONNECTED noError;; mret (1%nat, false)
    | Some er => alters cid (set_error er);; dispatchConnectEvent cid ERROR er;; mret (1%nat, true)
    end
  else mret (0%nat, false).

(** [transport/tcp/TcpEngine.cpp:889-892] TcpEngine::pump, bytes received: the consumer goes when the callback has returned *)
Definition deliver (cid f : Z) (data : bytes) : IO unit :=
  does (on_scratch (fun io => data ++ drop (length data) io));;
  io ← asks ioScratch;
  c ← connection cid;
  let '(rx, consumer) := RxBuffer_consume io (bufferRx c) in
  alters cid (set_rx rx);;
  does (put (Received f cid (rxView consumer)));;
  h ← asks log;
  let '(ops, n) := onReceived f h (rxView consumer) in
  noexcept (run_ops ops);;
  consumer ← calls (RxConsumer_commit n consumer);
  c ← connection cid;
  rx ← calls (RxConsumer_destroy consumer (bufferRx c));
  alters cid (set_rx rx).

(** [transport/tcp/TcpEngine.cpp:865-895] TcpEngine::pump, the loop that receives: each turn is a call of [recv], which is
    given the size of the scratch buffer *)
Fixpoint recvLoop (fuel : nat) (cid : Z) (dispatched : nat) : IO nat :=
  match fuel with
  | O => fun _ => Waiting
  | S fuel =>
      connection cid;;
      a ← sys (fun s a => (ret a <=? Z.of_nat (length (ioScratch s))) && ((ret a <? 0) || bool_decide (length (written a) = Z.to_nat (ret a))));
      if ret a <? 0 then
        if errno a =? EINTR then recvLoop fuel cid dispatched
        else if errno a =? EAGAIN then mret dispatched
        else
          let er := mapErrno (errno a) in
          (if shouldStickify er then alters cid (set_error er) else mret tt);;
          dispatchConnectEvent cid ERROR er;; mret (S dispatched)
      else if ret a =? 0 then
        alters cid set_peerClosed;; dispatchConnectEvent cid PEER_CLOSED noError;; mret (S dispatched)
      else
        c ← connection cid;
        match recvCb c with
        | None => undef
        | Some f => deliver cid f (written a);; recvLoop fuel cid (S dispatched)
        end
  end.

(** [transport/tcp/TcpEngine.cpp:860-902] TcpEngine::pump, a readable connection *)
Definition pumpIn (cid : Z) : IO nat :=
  c ← connection cid;
  match recvCb c with
  | Some _ => n ← asks (fun s => length (answers s)); recvLoop (S n) cid 0
  | None => dispatchConnectEvent cid READABLE noError;; mret 1%nat
  end.

(** [transport/tcp/TcpEngine.cpp:809-928] TcpEngine::pump, one event of the kernel *)
Definition pumpOne (e tag : Z) : IO nat :=
  if isListenerTag tag then
    itl ← asks (fun s => listeners s !! unpackId tag);
    match itl with
    | None => mret 0%nat
    | Some _ => r ← acceptLoop (unpackId tag) true 0; mret r.1
    end
  else
    let cid := unpackId tag in
    itc ← asks (fun s => connections s !! cid);
    match itc with
    | None => mret 0%nat
    | Some c =>
        r ← pumpConnect cid c e;
        if (r.2 : bool) then mret r.1 else
        i ← (if has e EPOLLIN then pumpIn cid else mret 0%nat);
        o ← (if has e EPOLLOUT then dispatchConnectEvent cid WRITABLE noError;; mret 1%nat else mret 0%nat);
        h ← (if has e EPOLLRDHUP then alters cid set_peerClosed;; dispatchConnectEvent cid PEER_CLOSED noError;; mret 1%nat else mret 0%nat);
        x ← (if has e EPOLLERR then er ← takeError cid; dispatchConnectEvent cid ERROR er;; mret 1%nat else mret 0%nat);
        mret (r.1 + i + o + h + x)%nat
    end.

(** [transport/tcp/TcpEngine.cpp:807-931] TcpEngine::pump, the loop *)
Fixpoint pumpLoop (ready : list (Z * Z)) : IO nat :=
  match ready with
  | [] => mret 0%nat
  | (e, tag) :: ready => n ← pumpOne e tag; m ← pumpLoop ready; mret (n + m)%nat
  end.
(** [transport/tcp/TcpEngine.cpp:791-932] TcpEngine::pump, with what [epoll_wait] reports *)
Definition pump (maxEvents : nat) (ready : list (Z * Z)) : IO nat :=
  ok ← asks epfd;
  if negb ok || (maxEvents =? 0)%nat then mret 0%nat else noexcept (pumpLoop (take maxEvents ready)).

(** ** Runs *)

(** What the program does with an engine. *)
Inductive Call :=
  | CallOp (o : Op)
  | CallPoll (room : nat) (ready : list (Z * Z))
  | CallPump (maxEvents : nat) (ready : list (Z * Z)).

Definition run_call (c : Call) : IO unit :=
  match c with
  | CallOp o => run_op o
  | CallPoll room ready => noexcept (pollEvents room ready);; mret tt
  | CallPump n ready => pump n ready;; mret tt
  end.

(** [transport/tcp/TcpEngine.cpp:163-173] TcpEngine::TcpEngine *)
Definition TcpEngine_new (p : P) (epoll : bool) (l : list Answer) : Engine :=
  mkEngine p epoll 1 1 0 ∅ ∅ [] l ∅ [].

(** The engines a program can have, whatever the kernel answers; after a call
    that throws the program goes on. *)
Inductive reach : Engine -> Prop :=
  | reach_new p e l : reach (TcpEngine_new p e l)
  | reach_done c s a s' : reach s -> run_call c s = Done a s' -> reach s'
  | reach_thrown c s s' : reach s -> run_call c s = Thrown s' -> reach s'.

End Engine.
