(* ===== verification/TcpEngineProps.v ===== *)
(** * TcpEngineProps: what the TCP engine keeps and does

    The bookkeeping of the engine (listeners, the connections they own, the
    descriptors of both) is coherent whatever the kernel answers and whatever
    the callbacks do; the ephemeral ports are tried one after the other; no
    byte that is written is ever sent, since nothing commits it, and nothing
    that is received reaches a receive callback. *)

From S2P Require Import Prelude IPAddress TcpBuffers RxBuffer TcpEngine.

(** ** Rules for calls of the engine *)

Section Rules.
Context {P : Type}.
#[local] Abbreviation Eng := (Engine (P := P)).

(** What holds when a call returns, and when it throws. *)
Definition post {A} (r : result (P := P) A) (Q : A -> Eng -> Prop) (R : Eng -> Prop) : Prop :=
  match r with Done a s => Q a s | Thrown s => R s | _ => True end.

Lemma post_bind {A B} (m : IO A) (f : A -> IO B) s Q1 (Q : B -> Eng -> Prop) R :
  post (m s) Q1 R -> (forall a s1, Q1 a s1 -> post (f a s1) Q R) -> post ((m ≫= f) s) Q R.
Proof. unfold mbind, IO_bind. destruct (m s); cbn; auto. Qed.

Lemma post_weaken {A} (r : result (P := P) A) (Q Q' : A -> Eng -> Prop) (R R' : Eng -> Prop) :
  post r Q R -> (forall a s, Q a s -> Q' a s) -> (forall s, R s -> R' s) -> post r Q' R'.
Proof. destruct r; cbn; auto. Qed.

Lemma post_noexcept {A} (m : IO A) s (Q : A -> Eng -> Prop) R : post (m s) Q R -> post (noexcept m s) Q (fun _ => False).
Proof. unfold noexcept. destruct (m s); cbn; auto. Qed.

(** [m] keeps [I]. *)
Definition keeps {A} (I : Eng -> Prop) (m : IO A) : Prop := forall s, I s -> post (m s) (fun _ => I) I.

Lemma keeps_bind {A B} I (m : IO A) (f : A -> IO B) : keeps I m -> (forall a, keeps I (f a)) -> keeps I (m ≫= f).
Proof. intros Hm Hf s Hs. eapply post_bind; [by apply Hm|]. intros a s1 H1. by apply Hf. Qed.
Lemma keeps_ret {A} I (a : A) : keeps I (mret a).
Proof. by intros s Hs. Qed.
Lemma keeps_asks {A} I (f : Eng -> A) : keeps I (asks f).
Proof. by intros s Hs. Qed.
Lemma keeps_does I (f : Eng -> Eng) : (forall s, I s -> I (f s)) -> keeps I (does f).
Proof. intros Hf s Hs. by apply Hf. Qed.
Lemma keeps_throw {A} I : keeps I (throw (A := A)).
Proof. by intros s Hs. Qed.
Lemma keeps_undef {A} I : keeps I (undef (A := A)).
Proof. by intros s Hs. Qed.
Lemma keeps_calls {A} I (o : outcome A) : keeps I (calls o).
Proof. intros s Hs. by destruct o. Qed.
Lemma keeps_noexcept {A} I (m : IO A) : keeps I m -> keeps I (noexcept m).
Proof. intros Hm s Hs. eapply post_weaken; [eapply post_noexcept; exact (Hm s Hs) | done | done]. Qed.
Lemma keeps_waiting {A} I : keeps I (fun _ => Waiting : result A).
Proof. by intros s Hs. Qed.

Lemma bind_asks {A B} (g : Eng -> A) (f : A -> IO B) s : (asks g ≫= f) s = f (g s) s.
Proof. done. Qed.
Lemma bind_does {B} (g : Eng -> Eng) (f : unit -> IO B) s : (does g ≫= f) s = f tt (g s).
Proof. done. Qed.

End Rules.

(** ** The bookkeeping *)

(** The descriptors that are open after a history in which only new ones are
    opened and only open ones closed. *)
Fixpoint replay (open : gset Z) (l : list Output) : option (gset Z) :=
  match l with
  | [] => Some open
  | Opened d :: l => if decide (d ∈ open) then None else replay ({[d]} ∪ open) l
  | Closed d :: l => if decide (d ∈ open) then replay (open ∖ {[d]}) l else None
  | _ :: l => replay open l
  end.

Lemma replay_snoc o l a : replay a (l ++ [o]) = replay a l ≫= fun a => replay a [o].
Proof.
  revert a. induction l as [|x l IH]; intros a; [done|]. destruct x; cbn [replay app]; try apply IH; case_decide; [done | apply IH | apply IH | done].
Qed.

(** What of an engine the bookkeeping is about. *)
Record Books := mkBooks {
  b_conns : gmap Z (Z * Z); b_lsts : gmap Z (Z * list Z); b_fds : gset Z; b_history : option (gset Z); b_listen : Z; b_conn : Z; b_mute : bool }.

Definition entry (c : ConnectionState) : Z * Z := (fd c, ownerListener c).
Definition lentry (l : ListenerState) : Z * list Z := (lfd l, accepted l).
(** Not a delivery of bytes. *)
Definition unheard (o : Output) : bool := match o with Received _ _ _ => false | _ => true end.

Definition books {P} (s : Engine (P := P)) : Books :=
  mkBooks (entry <$> connections s) (lentry <$> listeners s) (fds s) (replay ∅ (log s)) (nextListenId s) (nextConnId s)
    (bool_decide (ioScratch s = []) && forallb unheard (log s)).

(** The books are in order: identifiers are below the counters; a connection
    that a listener owns is in the listener's list, and the lists hold nothing
    else; descriptors are open, nobody shares one, and the history opened only
    new and closed only open ones; the scratch buffer is empty and no callback
    was given bytes. [X] are connections whose listener is gone. *)
Record in_order (X : gset Z) (b : Books) : Prop := mkInOrder {
  i_ids : 0 < b_listen b /\ 0 < b_conn b;
  i_conn cid d o : b_conns b !! cid = Some (d, o) -> 0 < cid < b_conn b /\ 0 <= d /\ d ∈ b_fds b;
  i_owner cid d o : b_conns b !! cid = Some (d, o) -> o <> 0 ->
    match b_lsts b !! o with Some l => cid ∈ l.2 | None => cid ∈ X end;
  i_lst lid d v : b_lsts b !! lid = Some (d, v) -> 0 < lid < b_listen b /\ 0 <= d /\ d ∈ b_fds b /\ NoDup v;
  i_owned lid d v cid : b_lsts b !! lid = Some (d, v) -> cid ∈ v -> exists d', b_conns b !! cid = Some (d', lid);
  i_conns cid cid' d o o' : b_conns b !! cid = Some (d, o) -> b_conns b !! cid' = Some (d, o') -> cid = cid';
  i_lsts lid lid' d v v' : b_lsts b !! lid = Some (d, v) -> b_lsts b !! lid' = Some (d, v') -> lid = lid';
  i_apart cid lid d o v : b_conns b !! cid = Some (d, o) -> b_lsts b !! lid = Some (d, v) -> False;
  i_history : b_history b = Some (b_fds b);
  i_mute : b_mute b = true }.

(** A descriptor that is open and that nobody has. *)
Record spare (d : Z) (b : Books) : Prop := mkSpare {
  sp_open : 0 <= d /\ d ∈ b_fds b;
  sp_conn cid o : b_conns b !! cid <> Some (d, o);
  sp_lst lid v : b_lsts b !! lid <> Some (d, v) }.

(** ** How the books change *)

Definition b_open (d : Z) (b : Books) : Books := mkBooks (b_conns b) (b_lsts b) ({[d]} ∪ b_fds b) (Some ({[d]} ∪ b_fds b)) (b_listen b) (b_conn b) (b_mute b).
Definition b_close (d : Z) (b : Books) : Books := mkBooks (b_conns b) (b_lsts b) (b_fds b ∖ {[d]}) (Some (b_fds b ∖ {[d]})) (b_listen b) (b_conn b) (b_mute b).

Lemma order_open X d b : in_order X b -> 0 <= d -> d ∉ b_fds b -> in_order X (b_open d b) /\ spare d (b_open d b).
Proof.
  intros Hb H0 Hd. split; [split; cbn|split; cbn].
  - apply Hb.
  - intros cid d' o Hc. destruct (i_conn _ _ Hb _ _ _ Hc) as (? & ? & ?). repeat split; [lia..|]. by apply elem_of_union_r.
  - apply Hb.
  - intros lid d' v Hl. destruct (i_lst _ _ Hb _ _ _ Hl) as (? & ? & ? & ?). repeat split; [lia..| |done]. by apply elem_of_union_r.
  - apply Hb.
  - apply Hb.
  - apply Hb.
  - apply Hb.
  - done.
  - apply Hb.
  - split; [done|]. by apply elem_of_union_l, elem_of_singleton.
  - intros cid o Hc. by destruct (i_conn _ _ Hb _ _ _ Hc) as (_ & _ & ?).
  - intros lid v Hl. by destruct (i_lst _ _ Hb _ _ _ Hl) as (_ & _ & ? & _).
Qed.

Lemma order_close X d b : in_order X b -> spare d b -> in_order X (b_close d b).
Proof.
  intros Hb [_ Hc Hl]. split; cbn; try apply Hb; [| |done].
  - intros cid d' o E. destruct (i_conn _ _ Hb _ _ _ E) as (? & ? & ?). repeat split; [lia..|]. apply elem_of_difference. split; [done|].
    intros ->%elem_of_singleton. by apply (Hc cid o).
  - intros lid d' v E. destruct (i_lst _ _ Hb _ _ _ E) as (? & ? & ? & ?). repeat split; [lia..| |done]. apply elem_of_difference. split; [done|].
    intros ->%elem_of_singleton. by apply (Hl lid v).
Qed.

(** A listener of a descriptor that was spare. *)
Definition b_listener (d : Z) (b : Books) : Books :=
  mkBooks (b_conns b) (<[b_listen b := (d, [])]> (b_lsts b)) (b_fds b) (b_history b) (b_listen b + 1) (b_conn b) (b_mute b).

Lemma lookup_insert_cases {A} (m : gmap Z A) i a j b : <[i := a]> m !! j = Some b -> (j = i /\ b = a) \/ (j <> i /\ m !! j = Some b).
Proof. intros H. apply lookup_insert_Some in H as [[-> ->]|[Hne H]]; [by left | by right]. Qed.

Lemma order_listener X d b : in_order X b -> spare d b -> (forall cid, cid ∈ X -> b_conns b !! cid = None) -> in_order X (b_listener d b).
Proof.
  intros Hb [[H0 Hd] Hc Hl] HX. pose proof (i_ids _ _ Hb) as Hids. split; cbn.
  - lia.
  - apply Hb.
  - intros cid d' o E Ho. pose proof (i_owner _ _ Hb _ _ _ E Ho) as Hw. destruct (decide (o = b_listen b)) as [->|Hne].
    + destruct (b_lsts b !! b_listen b) as [[d1 v1]|] eqn:E1; [destruct (i_lst _ _ Hb _ _ _ E1); lia|]. rewrite (HX cid Hw) in E. discriminate E.
    + by rewrite lookup_insert_ne by congruence.
  - intros lid d' v [[-> [= -> ->]]|[_ E]]%lookup_insert_cases; [repeat split; [lia..| done | done | constructor]|].
    destruct (i_lst _ _ Hb _ _ _ E) as (? & ? & ? & ?). repeat split; [lia..| done | done].
  - intros lid d' v cid [[-> [= -> ->]]|[_ E]]%lookup_insert_cases Hin; [by apply elem_of_nil in Hin|]. by eapply (i_owned _ _ Hb).
  - apply Hb.
  - intros l l' d' v v' [[-> H1]|[_ E]]%lookup_insert_cases [[-> H2]|[_ E']]%lookup_insert_cases; simplify_eq; [done | by destruct (Hl _ _ E') | by destruct (Hl _ _ E) |].
    by eapply (i_lsts _ _ Hb).
  - intros cid lid d' o v E [[-> [= -> ->]]|[_ E']]%lookup_insert_cases; [by destruct (Hc cid o) | by eapply (i_apart _ _ Hb)].
  - apply Hb.
  - apply Hb.
Qed.

(** A connection of a descriptor that was spare, of no listener or of one that
    takes it into its list. *)
Definition b_connect (d : Z) (b : Books) : Books :=
  mkBooks (<[b_conn b := (d, 0)]> (b_conns b)) (b_lsts b) (b_fds b) (b_history b) (b_listen b) (b_conn b + 1) (b_mute b).
Definition b_accept (d lid : Z) (b : Books) : Books :=
  mkBooks (<[b_conn b := (d, lid)]> (b_conns b)) (alter (fun l => (l.1, l.2 ++ [b_conn b])) lid (b_lsts b)) (b_fds b) (b_history b) (b_listen b) (b_conn b + 1) (b_mute b).

Lemma conn_fresh X b : in_order X b -> b_conns b !! b_conn b = None.
Proof. intros Hb. destruct (b_conns b !! b_conn b) as [[d o]|] eqn:E; [|done]. destruct (i_conn _ _ Hb _ _ _ E). lia. Qed.

Lemma order_connect X d b : in_order X b -> spare d b -> in_order X (b_connect d b).
Proof.
  intros Hb [[H0 Hd] Hc Hl]. pose proof (i_ids _ _ Hb) as Hids. pose proof (conn_fresh _ _ Hb) as Hf. split; cbn.
  - lia.
  - intros cid d' o [[-> [= -> ->]]|[_ E]]%lookup_insert_cases; [repeat split; [lia..|done]|]. destruct (i_conn _ _ Hb _ _ _ E) as (? & ? & ?). repeat split; [lia..|done].
  - intros cid d' o [[-> [= -> ->]]|[_ E]]%lookup_insert_cases Ho; [done | by eapply (i_owner _ _ Hb)].
  - apply Hb.
  - intros lid d' v cid E Hin. destruct (i_owned _ _ Hb _ _ _ _ E Hin) as [d1 E1]. exists d1. rewrite lookup_insert_ne; [done|]. intros E2. rewrite E2 in Hf. congruence.
  - intros c c' d' o o' [[-> H1]|[_ E]]%lookup_insert_cases [[-> H2]|[_ E']]%lookup_insert_cases; simplify_eq; [done | by destruct (Hc _ _ E') | by destruct (Hc _ _ E) |].
    by eapply (i_conns _ _ Hb).
  - apply Hb.
  - intros cid lid d' o v [[-> [= -> ->]]|[_ E]]%lookup_insert_cases E'; [by destruct (Hl lid v) | by eapply (i_apart _ _ Hb)].
  - apply Hb.
  - apply Hb.
Qed.

Lemma lookup_alter_cases {A} (f : A -> A) (m : gmap Z A) i j b : alter f i m !! j = Some b ->
  (j = i /\ exists a, m !! i = Some a /\ b = f a) \/ (j <> i /\ m !! j = Some b).
Proof.
  destruct (decide (i = j)) as [->|Hne]; [rewrite lookup_alter_eq; intros [a [-> E]]%fmap_Some; left; eauto | rewrite lookup_alter_ne by done; right; split; [congruence | done]].
Qed.

Lemma order_accept X d lid b : in_order X b -> spare d b -> is_Some (b_lsts b !! lid) -> in_order X (b_accept d lid b).
Proof.
  intros Hb [[H0 Hd] Hc Hl] [[dl vl] El]. pose proof (i_ids _ _ Hb) as Hids. pose proof (conn_fresh _ _ Hb) as Hf.
  assert (Hold : forall c, b_conns b !! c <> None -> c <> b_conn b) by congruence.
  destruct (i_lst _ _ Hb _ _ _ El) as (Hlid & Hdl & Hdl2 & Hnd).
  assert (Hnv : b_conn b ∉ vl). { intros Hin. destruct (i_owned _ _ Hb _ _ _ _ El Hin) as [d1 E1]. congruence. }
  split; cbn.
  - lia.
  - intros cid d' o [[-> [= -> ->]]|[_ E]]%lookup_insert_cases; [repeat split; [lia..|done]|]. destruct (i_conn _ _ Hb _ _ _ E) as (? & ? & ?). repeat split; [lia..|done].
  - intros cid d' o [[-> [= -> ->]]|[_ E]]%lookup_insert_cases Ho.
    + rewrite lookup_alter_eq, El. cbn. apply elem_of_app. right. by apply list_elem_of_singleton.
    + pose proof (i_owner _ _ Hb _ _ _ E Ho) as Hw. destruct (decide (lid = o)) as [->|Hne].
      * rewrite lookup_alter_eq, El. rewrite El in Hw. cbn in *. apply elem_of_app. by left.
      * by rewrite lookup_alter_ne.
  - intros l d' v [[-> [[d1 v1] [E [= -> ->]]]]|[_ E]]%lookup_alter_cases.
    + rewrite El in E. injection E as <- <-. repeat split; [lia..| done |]. cbn. apply NoDup_app. split; [done|]. split; [|apply NoDup_singleton].
      intros x Hx ->%list_elem_of_singleton. done.
    + destruct (i_lst _ _ Hb _ _ _ E) as (? & ? & ? & ?). repeat split; [lia..| done | done].
  - intros l d' v cid [[-> [[d1 v1] [E [= -> ->]]]]|[_ E]]%lookup_alter_cases Hin.
    + cbn in Hin. apply elem_of_app in Hin as [Hin| ->%list_elem_of_singleton]; [|exists d; by rewrite lookup_insert_eq].
      destruct (i_owned _ _ Hb _ _ _ _ E Hin) as [d2 E2]. exists d2. rewrite lookup_insert_ne; [done|]. symmetry. apply Hold. congruence.
    + destruct (i_owned _ _ Hb _ _ _ _ E Hin) as [d2 E2]. exists d2. rewrite lookup_insert_ne; [done|]. symmetry. apply Hold. congruence.
  - intros c c' d' o o' [[-> H1]|[_ E]]%lookup_insert_cases [[-> H2]|[_ E']]%lookup_insert_cases; simplify_eq; [done | by destruct (Hc _ _ E') | by destruct (Hc _ _ E) |].
    by eapply (i_conns _ _ Hb).
  - intros l l' d' v v' H1 H2.
    assert (Hor : forall l d' v, alter (fun l : Z * list Z => (l.1, l.2 ++ [b_conn b])) lid (b_lsts b) !! l = Some (d', v) -> exists v0, b_lsts b !! l = Some (d', v0)).
    { clear. intros l d' v [[-> [[d1 v1] [E [= -> ->]]]]|[_ E]]%lookup_alter_cases; eauto. }
    destruct (Hor _ _ _ H1) as [w Hw], (Hor _ _ _ H2) as [w' Hw']. by eapply (i_lsts _ _ Hb).
  - intros cid l d' o v E1 E2.
    assert (exists v0, b_lsts b !! l = Some (d', v0)) as [w Hw].
    { clear -E2. apply lookup_alter_cases in E2 as [[-> [[d1 v1] [E [= -> ->]]]]|[_ E]]; eauto. }
    apply lookup_insert_cases in E1 as [[-> [= -> ->]]|[_ E]]; [by destruct (Hl l w) | by eapply (i_apart _ _ Hb)].
  - apply Hb.
  - apply Hb.
Qed.

(** A connection that goes, and is taken off the list of its listener. *)
Definition b_drop (cid d o : Z) (b : Books) : Books :=
  mkBooks (delete cid (b_conns b)) (if o =? 0 then b_lsts b else alter (fun l => (l.1, filter (fun x => x <> cid) l.2)) o (b_lsts b))
    (b_fds b ∖ {[d]}) (Some (b_fds b ∖ {[d]})) (b_listen b) (b_conn b) (b_mute b).

Lemma drop_lsts cid o (m : gmap Z (Z * list Z)) lid d v :
  (if o =? 0 then m else alter (fun l => (l.1, filter (fun x => x <> cid) l.2)) o m) !! lid = Some (d, v) ->
  exists v0, m !! lid = Some (d, v0) /\ ((v = v0 /\ (o = 0 \/ lid <> o)) \/ (lid = o /\ v = filter (fun x => x <> cid) v0)).
Proof.
  destruct (Z.eqb_spec o 0); [eauto 10|]. intros [[-> [[d1 v1] [E [= -> ->]]]]|[Hne E]]%lookup_alter_cases; [exists v1; auto | exists v; auto].
Qed.

Lemma lookup_delete_cases {A} (m : gmap Z A) i j b : delete i m !! j = Some b -> j <> i /\ m !! j = Some b.
Proof. intros [? ?]%lookup_delete_Some. done. Qed.

Lemma order_drop X cid d o b : in_order X b -> b_conns b !! cid = Some (d, o) -> in_order (X ∖ {[cid]}) (b_drop cid d o b).
Proof.
  intros Hb Hc. destruct (i_conn _ _ Hb _ _ _ Hc) as (_ & Hd0 & Hd). split; cbn.
  - apply Hb.
  - intros c d' o' [Hne E]%lookup_delete_cases. destruct (i_conn _ _ Hb _ _ _ E) as (? & ? & ?). repeat split; [lia..|].
    apply elem_of_difference. split; [done|]. intros ->%elem_of_singleton. apply Hne. by eapply (i_conns _ _ Hb).
  - intros c d' o' [Hne E]%lookup_delete_cases Ho. pose proof (i_owner _ _ Hb _ _ _ E Ho) as Hw.
    destruct (Z.eqb_spec o 0) as [->|Hno]; [destruct (b_lsts b !! o'); [done | set_solver]|].
    destruct (decide (o = o')) as [->|Hoo].
    + rewrite lookup_alter_eq. destruct (b_lsts b !! o') as [[dl vl]|]; cbn in *; [|set_solver]. apply list_elem_of_filter. by split.
    + rewrite lookup_alter_ne by done. destruct (b_lsts b !! o'); [done | set_solver].
  - intros lid d' v E. apply drop_lsts in E as (v0 & E & Hv). destruct (i_lst _ _ Hb _ _ _ E) as (? & ? & ? & ?). repeat split; [lia..| |].
    + apply elem_of_difference. split; [done|]. intros ->%elem_of_singleton. by eapply (i_apart _ _ Hb).
    + destruct Hv as [[-> _]|[_ ->]]; [done | by apply NoDup_filter].
  - intros lid d' v c E Hin. apply drop_lsts in E as (v0 & E & Hv).
    assert (Hin0 : c ∈ v0). { destruct Hv as [[-> _]|[_ ->]]; [done|]. by apply list_elem_of_filter in Hin as [_ ?]. }
    destruct (i_owned _ _ Hb _ _ _ _ E Hin0) as [d2 E2]. exists d2. rewrite lookup_delete_ne; [done|]. intros <-.
    rewrite Hc in E2. injection E2 as <- <-. destruct (i_lst _ _ Hb _ _ _ E) as (Hpos & _).
    destruct Hv as [[_ [->|Hno]]|[_ ->]]; [lia | done | by apply list_elem_of_filter in Hin as [? _]].
  - intros c c' d' o1 o2 [_ E1]%lookup_delete_cases [_ E2]%lookup_delete_cases. by eapply (i_conns _ _ Hb).
  - intros l l' d' v v' E1 E2. apply drop_lsts in E1 as (w & E1 & _), E2 as (w' & E2 & _). by eapply (i_lsts _ _ Hb).
  - intros c l d' o' v [_ E1]%lookup_delete_cases E2. apply drop_lsts in E2 as (w & E2 & _). by eapply (i_apart _ _ Hb).
  - done.
  - apply Hb.
Qed.

(** A listener that goes leaves its connections without one. *)
Definition b_unlist (lid d : Z) (b : Books) : Books :=
  mkBooks (b_conns b) (delete lid (b_lsts b)) (b_fds b ∖ {[d]}) (Some (b_fds b ∖ {[d]})) (b_listen b) (b_conn b) (b_mute b).

Lemma order_unlist lid d v b : in_order ∅ b -> b_lsts b !! lid = Some (d, v) -> in_order (list_to_set v) (b_unlist lid d b).
Proof.
  intros Hb Hl. split; cbn.
  - apply Hb.
  - intros c d' o E. destruct (i_conn _ _ Hb _ _ _ E) as (? & ? & ?). repeat split; [lia..|]. apply elem_of_difference. split; [done|].
    intros ->%elem_of_singleton. by eapply (i_apart _ _ Hb).
  - intros c d' o E Ho. pose proof (i_owner _ _ Hb _ _ _ E Ho) as Hw. destruct (decide (lid = o)) as [->|Hne].
    + rewrite lookup_delete_eq. rewrite Hl in Hw. by apply elem_of_list_to_set.
    + rewrite lookup_delete_ne by done. destruct (b_lsts b !! o); [done | by apply not_elem_of_empty in Hw].
  - intros l d' v' [Hne E]%lookup_delete_cases. destruct (i_lst _ _ Hb _ _ _ E) as (? & ? & ? & ?). repeat split; [lia..| | done].
    apply elem_of_difference. split; [done|]. intros ->%elem_of_singleton. apply Hne. by eapply (i_lsts _ _ Hb).
  - intros l d' v' c [_ E]%lookup_delete_cases Hin. exact (i_owned _ _ Hb _ _ _ _ E Hin).
  - apply Hb.
  - intros l l' d' v1 v2 [_ E1]%lookup_delete_cases [_ E2]%lookup_delete_cases. by eapply (i_lsts _ _ Hb).
  - intros c l d' o v' E1 [_ E2]%lookup_delete_cases. by eapply (i_apart _ _ Hb).
  - done.
  - apply Hb.
Qed.

(** Whether a connection that is not there has lost its listener does not
    matter. *)
Lemma order_gone X cid b : in_order X b -> b_conns b !! cid = None -> in_order (X ∖ {[cid]}) b.
Proof.
  intros Hb Hc. split; try apply Hb. intros c d o E Ho. pose proof (i_owner _ _ Hb _ _ _ E Ho) as Hw.
  destruct (b_lsts b !! o); [done|]. apply elem_of_difference. split; [done|]. intros ->%elem_of_singleton. congruence.
Qed.

Lemma order_subset X Y b : X ⊆ Y -> in_order X b -> in_order Y b.
Proof.
  intros HXY Hb. split; try apply Hb. intros c d o E Ho. pose proof (i_owner _ _ Hb _ _ _ E Ho) as Hw. destruct (b_lsts b !! o); [done | by apply HXY].
Qed.

(** A number that is not used. *)
Definition b_bump (b : Books) : Books := mkBooks (b_conns b) (b_lsts b) (b_fds b) (b_history b) (b_listen b) (b_conn b + 1) (b_mute b).

Lemma order_bump X b : in_order X b -> in_order X (b_bump b).
Proof.
  intros Hb. destruct (i_ids _ _ Hb). split; try apply Hb; cbn; [lia|]. intros c d o E. destruct (i_conn _ _ Hb _ _ _ E) as (? & ? & ?). repeat split; [lia..|done].
Qed.

(** ** Calls that leave the books *)

Section Quiet.
Context {P : Type} `{BlockPool P} (cfg : Config).
#[local] Abbreviation Eng := (Engine (P := P)).

Definition quiet {A} (m : IO (P := P) A) : Prop := forall b, keeps (fun s => books s = b) m.

Lemma quiet_bind {A B} (m : IO A) (f : A -> IO B) : quiet m -> (forall a, quiet (f a)) -> quiet (m ≫= f).
Proof. intros Hm Hf b. apply keeps_bind; [apply Hm | intros a; apply Hf]. Qed.
Lemma quiet_ret {A} (a : A) : quiet (mret a).
Proof. intros b. apply keeps_ret. Qed.
Lemma quiet_asks {A} (f : Eng -> A) : quiet (asks f).
Proof. intros b. apply keeps_asks. Qed.
Lemma quiet_throw {A} : quiet (throw (A := A)).
Proof. intros b. apply keeps_throw. Qed.
Lemma quiet_undef {A} : quiet (undef (A := A)).
Proof. intros b. apply keeps_undef. Qed.
Lemma quiet_calls {A} (o : outcome A) : quiet (calls o).
Proof. intros b. apply keeps_calls. Qed.
Lemma quiet_does f : (forall s : Eng, books (f s) = books s) -> quiet (does f).
Proof. intros Hf b. apply keeps_does. intros s <-. apply Hf. Qed.
Lemma quiet_sys ok : quiet (sys ok).
Proof. intros b s Hs. unfold sys. destruct (answers s); [done|]. by destruct (ok s a). Qed.
Lemma quiet_waiting {A} : quiet (fun _ => Waiting : result A).
Proof. intros b. apply keeps_waiting. Qed.

(** What an operation that leaves the books says of any invariant of theirs. *)
Lemma quiet_keeps {A} (I : Books -> Prop) (m : IO A) : quiet m -> keeps (fun s => I (books s)) m.
Proof. intros Hm s Hs. eapply post_weaken; [exact (Hm (books s) s eq_refl) | |]; cbn; [intros _ s' E | intros s' E]; by rewrite E. Qed.

Lemma quiet_connection cid : quiet (connection cid).
Proof. apply quiet_bind; [apply quiet_asks|]. intros [c|]; [apply quiet_ret | apply quiet_undef]. Qed.
Lemma quiet_listener lid : quiet (listener lid).
Proof. apply quiet_bind; [apply quiet_asks|]. intros [c|]; [apply quiet_ret | apply quiet_undef]. Qed.

Lemma books_conn cid c c' (s : Eng) : connections s !! cid = Some c -> entry c' = entry c -> books (on_connections (insert cid c') s) = books s.
Proof. intros Hc E. unfold books. cbn. rewrite fmap_insert, E, insert_id; [done|]. by rewrite lookup_fmap, Hc. Qed.

(** A change of a connection that leaves its descriptor and its listener. *)
Lemma quiet_alters cid f : (forall c, entry (f c) = entry c) -> quiet (alters cid f).
Proof.
  intros Hf b s Hs. unfold alters, connection. unfold mbind at 1 2, IO_bind, asks. destruct (connections s !! cid) as [c|] eqn:Ec; [|done].
  cbn. by rewrite (books_conn cid c).
Qed.

Lemma quiet_call : quiet (call (P := P)).
Proof. apply quiet_sys. Qed.
Lemma quiet_succeeds : quiet (succeeds (P := P)).
Proof. apply quiet_bind; [apply quiet_call|]. intros a. apply quiet_ret. Qed.
End Quiet.

Create HintDb quiet.
#[export] Hint Resolve quiet_ret quiet_asks quiet_throw quiet_undef quiet_calls quiet_sys quiet_waiting quiet_connection quiet_listener quiet_call quiet_succeeds : quiet.

(** Takes a call apart. *)
Ltac qstep :=
  match goal with
  | |- quiet (mbind _ _) => apply quiet_bind; [|intros ?]
  | |- quiet (match ?x with _ => _ end) => destruct x
  | |- quiet (does _) => apply quiet_does; done
  | |- quiet (alters _ _) => apply quiet_alters; done
  | |- _ => solve [auto with quiet nocore]
  end.
Ltac quietly := intros; cbv zeta; repeat qstep.

Section QuietOps.
Context {P : Type} `{BlockPool P} (cfg : Config).

Lemma quiet_epAdd : quiet (epAdd (P := P)).
Proof. unfold epAdd. quietly. Qed.
Lemma quiet_epDel : quiet (epDel (P := P)).
Proof. unfold epDel. quietly. Qed.
Lemma quiet_setNonBlocking : quiet (setNonBlocking (P := P)).
Proof. unfold setNonBlocking. quietly. Qed.
Lemma quiet_bindToDevice d : quiet (bindToDeviceIfRequested (P := P) d).
Proof. unfold bindToDeviceIfRequested. quietly. Qed.
Lemma quiet_option_set b : quiet (option_set (P := P) b).
Proof. unfold option_set. quietly. Qed.
#[local] Hint Resolve quiet_option_set : quiet.
Lemma quiet_applyPolicy p : quiet (applyPolicy (P := P) p).
Proof. unfold applyPolicy. quietly. Qed.
Lemma quiet_bindEndpoint : quiet (bindEndpoint (P := P)).
Proof. unfold bindEndpoint. auto with quiet. Qed.
#[local] Hint Resolve quiet_bindEndpoint : quiet.
Lemma quiet_getLiveKey : quiet (getLiveKey (P := P)).
Proof. unfold getLiveKey. quietly. Qed.
Lemma quiet_bindEphemeral n : quiet (bindEphemeral (P := P) cfg n).
Proof. induction n as [|n IH]; cbn [bindEphemeral]; [quietly|]. apply quiet_bind; [quietly|]. intros x. destruct (allocateEphemeral cfg x). quietly. Qed.
Lemma quiet_getAccepted lid cid : quiet (getAcceptedConnectionChecked (P := P) lid cid).
Proof. unfold getAcceptedConnectionChecked. quietly. Qed.
Lemma books_sent d l (s : Engine (P := P)) : books (put (Sent d l) s) = books s.
Proof. unfold books. cbn. rewrite replay_snoc, forallb_app, andb_true_r. by destruct (replay ∅ (log s)). Qed.
Lemma books_called f e (s : Engine (P := P)) : books (put (Called f e) s) = books s.
Proof. unfold books. cbn. rewrite replay_snoc, forallb_app, andb_true_r. by destruct (replay ∅ (log s)). Qed.
Lemma books_accepted f c (s : Engine (P := P)) : books (put (Accepted f c) s) = books s.
Proof. unfold books. cbn. rewrite replay_snoc, forallb_app, andb_true_r. by destruct (replay ∅ (log s)). Qed.

Lemma quiet_flushLoop fuel cid : forall n, quiet (flushLoop fuel cid n).
Proof.
  induction fuel as [|fuel IH]; intros n; cbn [flushLoop]; [apply quiet_waiting|]. quietly; [apply quiet_does; intros; apply books_sent | ..]; quietly.
Qed.
#[local] Hint Resolve quiet_flushLoop : quiet.
Lemma quiet_flush cid : quiet (flush cid).
Proof. unfold flush. quietly. Qed.
#[local] Hint Resolve quiet_flush quiet_getAccepted : quiet.
Lemma quiet_listenerFlush lid cid : quiet (listenerFlush lid cid).
Proof. unfold listenerFlush. quietly. Qed.
Lemma quiet_write cid m : quiet (writePiece cid m).
Proof. unfold writePiece. quietly. Qed.
Lemma quiet_commit cid n : quiet (commitPiece cid n).
Proof. unfold commitPiece. quietly. Qed.
End QuietOps.

#[export] Hint Resolve quiet_epAdd quiet_epDel quiet_setNonBlocking quiet_bindToDevice quiet_applyPolicy quiet_bindEndpoint quiet_getLiveKey
  quiet_bindEphemeral quiet_getAccepted quiet_flush quiet_listenerFlush quiet_write quiet_commit : quiet.

(** ** Every operation keeps the books in order *)

Section Order.
Context {P : Type} `{BlockPool P} (cfg : Config).
#[local] Abbreviation Eng := (Engine (P := P)).

Definition ordered (s : Eng) : Prop := in_order ∅ (books s).
Definition held (d : Z) (s : Eng) : Prop := in_order ∅ (books s) /\ spare d (books s).

Lemma quiet_ordered {A} (m : IO A) : quiet m -> keeps ordered m.
Proof. intros Hm. exact (quiet_keeps (in_order ∅) m Hm). Qed.
Lemma quiet_held {A} d (m : IO A) : quiet m -> keeps (held d) m.
Proof. intros Hm. exact (quiet_keeps (fun b => in_order ∅ b /\ spare d b) m Hm). Qed.

Lemma books_opened d (s : Eng) : in_order ∅ (books s) -> d ∉ fds s -> books (put (Opened d) (on_fds (union {[d]}) s)) = b_open d (books s).
Proof.
  intros Hb Hd. pose proof (i_history _ _ Hb) as Hh. cbn in Hh. unfold books, b_open. cbn. rewrite replay_snoc, forallb_app, Hh. cbn. rewrite andb_true_r. by rewrite decide_False.
Qed.

Lemma books_closed d (s : Eng) : b_history (books s) = Some (fds s) -> d ∈ fds s -> books (put (Closed d) (on_fds (.∖ {[d]}) s)) = b_close d (books s).
Proof. intros Hh Hd. cbn in Hh. unfold books, b_close. cbn. rewrite replay_snoc, forallb_app, Hh. cbn. rewrite andb_true_r. by rewrite decide_True. Qed.

Lemma open_fd_post s : ordered s ->
  post (open_fd s) (fun a s' => if ret a <? 0 then ordered s' else held (ret a) s') ordered.
Proof.
  intros Hs. unfold open_fd, sys. unfold mbind, IO_bind. destruct (answers s) as [|a l]; [done|].
  destruct (ret a <? 0) eqn:Ea; cbn [orb]; [cbn; rewrite Ea; cbn; by rewrite Ea|].
  case_bool_decide as Hn; [|done]. cbn. rewrite Ea. cbn. rewrite Ea. unfold held. apply Z.ltb_ge in Ea.
  rewrite (books_opened (ret a) (set_answers l s)) by done. by apply order_open.
Qed.

Lemma close_fd_post d s : held d s -> post (close_fd d s) (fun _ => ordered) ordered.
Proof.
  intros [Hb Hd]. cbn. unfold ordered. rewrite books_closed; [by apply order_close | apply Hb | apply Hd].
Qed.

(** A call that closes a descriptor it holds and throws. *)
Lemma close_throw {A} d s (Q : A -> Eng -> Prop) : held d s -> post ((close_fd d;; throw) s) Q ordered.
Proof. intros Hd. eapply post_bind; [by apply close_fd_post|]. intros [] s1 H1. exact H1. Qed.

Lemma held_ordered d s : held d s -> ordered s.
Proof. by intros [? _]. Qed.

(** Goes on with a descriptor that is held. *)
Lemma post_held {A B} d (m : IO A) (f : A -> IO B) s (Q : B -> Eng -> Prop) :
  quiet m -> held d s -> (forall a s1, held d s1 -> post (f a s1) Q ordered) -> post ((m ≫= f) s) Q ordered.
Proof. intros Hm Hs Hf. eapply post_bind; [|exact Hf]. eapply post_weaken; [by apply quiet_held | done | apply held_ordered]. Qed.

Lemma post_ordered {A B} (m : IO A) (f : A -> IO B) s (Q : B -> Eng -> Prop) :
  quiet m -> ordered s -> (forall a s1, ordered s1 -> post (f a s1) Q ordered) -> post ((m ≫= f) s) Q ordered.
Proof. intros Hm Hs Hf. eapply post_bind; [|exact Hf]. by apply quiet_ordered. Qed.

Lemma createListener_keeps opt : keeps ordered (createListener cfg opt).
Proof.
  intros s Hs. unfold createListener. eapply post_bind; [by apply open_fd_post|]. intros a s1; cbv beta. destruct (ret a <? 0); intros H1; [exact H1|].
  apply (post_held (ret a)); [auto with quiet | done|]. intros nb s2 H2. destruct (negb nb); [by apply held_ordered in H2|].
  apply (post_held (ret a)); [auto with quiet | done|]. intros _ s3 H3.
  apply (post_held (ret a)); [auto with quiet | done|]. intros _ s4 H4. cbv zeta.
  apply (post_held (ret a)); [auto with quiet | done|]. intros _ s5 H5.
  apply (post_held (ret a)); [auto with quiet | done|]. intros _ s6 H6.
  apply (post_held (ret a)); [auto with quiet | done|]. intros ok s7 H7. destruct (negb ok); [by apply close_throw|].
  rewrite bind_asks, !bind_does. set (l := mkListener _ _ _ _ _ _ _).
  apply post_ordered; [auto with quiet | | done]. destruct H7 as [Hb Hd].
  assert (E : books (on_listeners (insert (nextListenId s7) l) (set_listenId (nextListenId s7 + 1) s7)) = b_listener (ret a) (books s7)).
  { unfold books, b_listener. cbn. by rewrite fmap_insert. }
  unfold ordered. rewrite E. apply order_listener; [done | done | set_solver].
Qed.

Lemma bindLocal_post d p s : held d s -> post (bindLocal cfg d p s) (fun _ => held d) ordered.
Proof.
  intros Hs. unfold bindLocal. destruct (p =? 0).
  - destruct (ephemeralMax cfg <? ephemeralMin cfg); [by apply close_throw|]. apply (post_held d); [auto with quiet | done|].
    intros [q|] s1 H1; [exact H1 | by apply close_throw].
  - apply (post_held d); [auto with quiet | done|]. intros _ s1 H1. exact H1.
Qed.

(** The books with a connection number that is taken, before its connection. *)
Definition taken (d : Z) (cid : Z) (s : Eng) : Prop := exists b, in_order ∅ b /\ spare d b /\ cid = b_conn b /\ books s = b_bump b.

Lemma quiet_taken {A} d cid (m : IO A) : quiet m -> keeps (taken d cid) m.
Proof. intros Hm. exact (quiet_keeps (fun b' => exists b, in_order ∅ b /\ spare d b /\ cid = b_conn b /\ b' = b_bump b) m Hm). Qed.

Lemma taken_ordered d cid s : taken d cid s -> ordered s.
Proof. intros (b & Hb & _ & _ & E). unfold ordered. rewrite E. by apply order_bump. Qed.

Lemma take_number d (s : Eng) : held d s -> taken d (nextConnId s) (set_connId (nextConnId s + 1) s).
Proof. intros [Hb Hd]. by exists (books s). Qed.

Lemma createConnection_keeps lcl rmt opt : keeps ordered (createConnection cfg lcl rmt opt).
Proof.
  intros s Hs. unfold createConnection. rewrite bind_asks. destruct (_ <=? _); [exact Hs|].
  eapply post_bind; [by apply open_fd_post|]. intros a s1; cbv beta. destruct (ret a <? 0); intros H1; [exact H1|].
  apply (post_held (ret a)); [auto with quiet | done|]. intros nb s2 H2. destruct (negb nb); [by apply held_ordered in H2|].
  apply (post_held (ret a)); [auto with quiet | done|]. intros _ s3 H3.
  apply (post_held (ret a)); [auto with quiet | done|]. intros _ s4 H4.
  eapply post_bind; [by apply bindLocal_post|]. intros p s5 H5.
  apply (post_held (ret a)); [auto with quiet | done|]. intros rc s6 H6. destruct (_ && _); [by apply close_throw|].
  rewrite bind_asks, bind_does.
  eapply post_bind with (Q1 := fun _ => taken (ret a) (nextConnId s6)).
  { eapply post_weaken; [apply quiet_taken; [auto with quiet | by apply take_number] | done | apply taken_ordered]. }
  intros live s7 (b & Hb & Hd & Ec & E). cbv zeta. rewrite bind_does. set (c := mkConn _ _ _ _ _ _ _ _ _ _).
  apply post_ordered; [auto with quiet | | done].
  assert (E' : books (on_connections (insert (nextConnId s6) c) s7) = b_connect (ret a) b).
  { rewrite Ec. unfold books, b_bump in *. injection E as E1 E2 E3 E4 E5 E6 E7. unfold b_connect. cbn. by rewrite fmap_insert, E1, E2, E3, E4, E5, E6, E7. }
  unfold ordered. rewrite E'. by apply order_connect.
Qed.

(** Goes on with any fact about the books. *)
Lemma post_quiet (I : Books -> Prop) {A B} (m : IO A) (f : A -> IO B) s (Q : B -> Eng -> Prop) :
  quiet m -> I (books s) -> (forall b, I b -> in_order ∅ b) -> (forall a s1, I (books s1) -> post (f a s1) Q ordered) -> post ((m ≫= f) s) Q ordered.
Proof.
  intros Hm Hs HI Hf. eapply post_bind; [|exact Hf]. eapply post_weaken; [exact (quiet_keeps I m Hm s Hs) | done |]. intros s'. apply HI.
Qed.

Lemma adopt_post lid d s : held d s -> post (adoptAcceptedSocket cfg lid d s) (fun _ => ordered) ordered.
Proof.
  intros Hs. unfold adoptAcceptedSocket, listener. set (I := fun b => (in_order ∅ b /\ spare d b) /\ is_Some (b_lsts b !! lid)).
  change ((asks (fun s0 => listeners s0 !! lid) ≫= ?f) ≫= ?g) with (asks (fun s0 : Eng => listeners s0 !! lid) ≫= fun x => f x ≫= g).
  rewrite bind_asks. destruct (listeners s !! lid) as [l|] eqn:El; [|exact Logic.I].
  assert (H1 : I (books s)) by (split; [exact Hs | cbn; rewrite lookup_fmap, El; by eexists]).
  assert (HI : forall b, I b -> in_order ∅ b) by (intros b [[? _] _]; done).
  change (mret l ≫= ?g) with (g l). cbv beta. rewrite bind_asks. destruct (_ <=? _); [by apply close_throw|].
  apply (post_quiet I); [auto with quiet | done | done|]. intros [] s1 H2. rewrite bind_asks, bind_does. destruct H2 as [Hh Hlid].
  eapply post_bind with (Q1 := fun _ s' => exists b, I b /\ nextConnId s1 = b_conn b /\ books s' = b_bump b).
  { eapply post_weaken; [apply (quiet_keeps (fun b' => exists b, I b /\ nextConnId s1 = b_conn b /\ b' = b_bump b)); [auto with quiet|] | done |].
    - exists (books s1). done.
    - intros s' (b & [[Hb _] _] & _ & E). unfold ordered. rewrite E. by apply order_bump. }
  intros live s2 (b & [[Hb Hd] Hl] & Ec & E). destruct live as [k|]; [|cbn; unfold ordered; rewrite E; by apply order_bump].
  rewrite !bind_does. set (c := mkConn _ _ _ _ _ _ _ _ _ _). apply post_ordered; [auto with quiet | | done].
  set (s3 := on_listeners _ _). assert (E' : books s3 = b_accept d lid b).
  { unfold s3. unfold books, b_bump in *. injection E as E1 E2 E3 E4 E5 E6 E7. unfold b_accept. cbn. rewrite fmap_insert, E1, E3, E4, E5, E6, E7, <- E2, Ec. f_equal.
    apply map_eq. intros i. rewrite lookup_fmap. destruct (decide (lid = i)) as [->|Hne].
    - rewrite !lookup_alter_eq, lookup_fmap. by destruct (listeners s2 !! i).
    - by rewrite !lookup_alter_ne, lookup_fmap. }
  unfold ordered. rewrite E'. by apply order_accept.
Qed.

(** ** Closing *)

(** Calls that leave the books and do not throw. *)
Definition calm {A} (m : IO (P := P) A) : Prop := forall s, post (m s) (fun _ s' => books s' = books s) (fun _ => False).

Lemma calm_bind {A B} (m : IO A) (f : A -> IO B) : calm m -> (forall a, calm (f a)) -> calm (m ≫= f).
Proof. intros Hm Hf s. eapply post_bind; [apply Hm|]. intros a s1 E. eapply post_weaken; [apply Hf | | done]. intros b s2 E2. by rewrite E2. Qed.
Lemma calm_call : calm (call (P := P)).
Proof. intros s. unfold call, sys. by destruct (answers s). Qed.
Lemma calm_epDel : calm (epDel (P := P)).
Proof. intros s. unfold epDel. rewrite bind_asks. destruct (epfd s); [|done]. by apply (calm_bind call); [apply calm_call|]. Qed.

Lemma post_calm {A B} (m : IO A) (f : A -> IO B) s b (Q : B -> Eng -> Prop) R :
  calm m -> books s = b -> (forall a s1, books s1 = b -> post (f a s1) Q R) -> post ((m ≫= f) s) Q R.
Proof. intros Hm <- Hf. eapply post_bind; [|exact Hf]. eapply post_weaken; [apply Hm | done | by intros]. Qed.

Lemma drop_books cid c (s s1 : Eng) : connections s !! cid = Some c -> b_history (books s) = Some (fds s) -> fd c ∈ fds s ->
  books s1 = books (on_connections (delete cid) s) ->
  books (if negb (ownerListener c =? 0)
         then on_listeners (alter (on_accepted (filter (fun x => x <> cid))) (ownerListener c)) (put (Closed (fd c)) (on_fds (.∖ {[fd c]}) s1))
         else put (Closed (fd c)) (on_fds (.∖ {[fd c]}) s1)) = b_drop cid (fd c) (ownerListener c) (books s).
Proof.
  intros Hc Hh Hd E. assert (Ecl : books (put (Closed (fd c)) (on_fds (.∖ {[fd c]}) s1)) = b_close (fd c) (books s1)).
  { unfold books in E. injection E as E1 E2 E3 E4 E5 E6 E7. apply books_closed; [cbn in *; congruence | by rewrite E3]. }
  destruct (Z.eqb_spec (ownerListener c) 0) as [E0|Hne]; cbn [negb].
  - rewrite Ecl, E. unfold b_close, b_drop. cbn. by rewrite E0, fmap_delete.
  - set (s2 := put _ _) in *. transitivity (mkBooks (b_conns (books s2)) (alter (fun l => (l.1, filter (fun x => x <> cid) l.2)) (ownerListener c) (b_lsts (books s2))) (b_fds (books s2)) (b_history (books s2)) (b_listen (books s2)) (b_conn (books s2)) (b_mute (books s2))).
    + unfold books. cbn. f_equal. apply map_eq. intros i. rewrite lookup_fmap. destruct (decide (ownerListener c = i)) as [->|Hi].
      * rewrite !lookup_alter_eq, lookup_fmap. by destruct (listeners s1 !! i).
      * by rewrite !lookup_alter_ne, lookup_fmap.
    + rewrite Ecl, E. unfold b_close, b_drop. cbn. by rewrite (proj2 (Z.eqb_neq _ _) Hne), fmap_delete.
Qed.

Lemma closeInternal_post X cid s : in_order X (books s) ->
  post (closeConnectionInternal cid s) (fun _ s' => in_order (X ∖ {[cid]}) (books s')) (fun _ => False).
Proof.
  intros Hb. unfold closeConnectionInternal. rewrite bind_asks. destruct (connections s !! cid) as [c|] eqn:Ec.
  2: { apply order_gone; [done|]. cbn. by rewrite lookup_fmap, Ec. }
  assert (Hc : b_conns (books s) !! cid = Some (fd c, ownerListener c)) by (cbn; by rewrite lookup_fmap, Ec).
  destruct (i_conn _ _ Hb _ _ _ Hc) as (_ & Hd0 & Hd). rewrite bind_does, (proj2 (Z.leb_le _ _) Hd0).
  eapply (post_calm epDel _ _ _ _ _ calm_epDel eq_refl). intros [] s1 E1.
  eapply post_bind with (Q1 := fun _ s' => exists s2, books s2 = books (on_connections (delete cid) s) /\ s' = put (Closed (fd c)) (on_fds (.∖ {[fd c]}) s2)).
  { eapply (post_calm call _ _ _ _ _ calm_call E1). intros [] s2 E2. by exists s2. }
  intros [] s3 (s2 & E2 & ->). pose proof (drop_books cid c s s2 Ec (i_history _ _ Hb) Hd E2) as E4.
  eapply post_bind with (Q1 := fun _ s' => books s' = b_drop cid (fd c) (ownerListener c) (books s)); [destruct (negb _); exact E4|].
  intros [] s5 E5. rewrite bind_asks. unfold calls. destruct (reset (pool s5) (bufferTx c)) as [r| |]; [|done..].
  change (in_order (X ∖ {[cid]}) (books s5)). rewrite E5. by apply order_drop.
Qed.

Lemma closeAll_post l : forall X s, X ⊆ list_to_set l -> in_order X (books s) -> post (closeAll l s) (fun _ => ordered) (fun _ => False).
Proof.
  induction l as [|cid l IH]; intros X s HX Hb; cbn [closeAll].
  - cbn. eapply order_subset, Hb. set_solver.
  - eapply post_bind; [by apply closeInternal_post|]. intros [] s1 H1. apply (IH (X ∖ {[cid]})); [|exact H1].
    intros x [Hx%HX Hn]%elem_of_difference. rewrite list_to_set_cons in Hx. by apply elem_of_union in Hx as [Hx|Hx].
Qed.

(** What does not throw can be said to keep the books when it throws. *)
Lemma post_never {A} (r : result (P := P) A) Q R : post r Q (fun _ => False) -> post r Q R.
Proof. intros Hr. eapply post_weaken; [exact Hr | done | by intros]. Qed.

Lemma closeInternal_keeps cid : keeps ordered (closeConnectionInternal cid).
Proof.
  intros s Hs. apply post_never. eapply post_weaken; [by apply closeInternal_post | | done]. intros [] s'. apply order_subset. by intros x [Hx _]%elem_of_difference.
Qed.

Lemma closeConnection_keeps cid : keeps ordered (closeConnection cid).
Proof.
  unfold closeConnection. apply keeps_bind; [apply keeps_asks|]. intros [c|]; [|apply keeps_ret]. destruct (negb _); [apply keeps_ret | apply closeInternal_keeps].
Qed.

Lemma closeListener_keeps lid : keeps ordered (closeListener lid).
Proof.
  intros s Hs. unfold closeListener. rewrite bind_asks. destruct (listeners s !! lid) as [l|] eqn:El; [|exact Hs]. apply post_never.
  assert (Hl : b_lsts (books s) !! lid = Some (lfd l, accepted l)) by (cbn; by rewrite lookup_fmap, El).
  destruct (i_lst _ _ Hs _ _ _ Hl) as (_ & Hd0 & Hd & _). rewrite bind_does, (proj2 (Z.leb_le _ _) Hd0).
  eapply (post_calm epDel _ _ _ _ _ calm_epDel eq_refl). intros [] s1 E1. unfold close_fd. rewrite bind_does.
  apply (closeAll_post _ (list_to_set (accepted l))); [done|].
  rewrite books_closed; [rewrite E1; unfold books at 1; cbn; rewrite fmap_delete; exact (order_unlist lid (lfd l) (accepted l) (books s) Hs Hl) | ..].
  - rewrite E1. pose proof (i_history _ _ Hs) as Hh. cbn in *. rewrite Hh. by injection E1 as _ _ -> _ _ _ _.
  - by injection E1 as _ _ -> _ _ _ _.
Qed.

Lemma listenerDisconnect_keeps lid cid : keeps ordered (listenerDisconnect lid cid).
Proof.
  unfold listenerDisconnect. apply keeps_bind; [apply keeps_asks|]. intros [l|]; [|apply keeps_ret].
  apply keeps_bind; [apply quiet_ordered; auto with quiet|]. intros [c|]; [apply closeInternal_keeps | apply keeps_ret].
Qed.

Lemma dropLocal_keeps addr : keeps ordered (dropLocalConnections addr).
Proof.
  intros s Hs. unfold dropLocalConnections. rewrite bind_asks. apply post_never. apply (closeAll_post _ ∅); [set_solver | exact Hs].
Qed.

Lemma run_op_keeps o : keeps ordered (run_op cfg o).
Proof.
  destruct o; cbn [run_op].
  - apply keeps_bind; [apply createConnection_keeps | intros; apply keeps_ret].
  - apply keeps_bind; [apply createListener_keeps | intros; apply keeps_ret].
  - apply closeConnection_keeps.
  - apply closeListener_keeps.
  - apply listenerDisconnect_keeps.
  - apply dropLocal_keeps.
  - apply quiet_ordered. quietly.
  - apply quiet_ordered. quietly.
  - apply quiet_ordered. quietly.
  - apply quiet_ordered. quietly.
Qed.

Lemma run_ops_keeps l : keeps ordered (run_ops cfg l).
Proof. induction l as [|o l IH]; cbn [run_ops]; [apply keeps_ret|]. apply keeps_bind; [apply run_op_keeps | done]. Qed.

(** ** Events *)

Context (onEvent : Z -> list Output -> TcpEvent -> list Op).
Context (onAccepted : Z -> list Output -> Z -> list Op).
Context (onReceived : Z -> list Output -> bytes -> list Op * nat).

Lemma call_event_keeps f e : keeps ordered (call_event cfg onEvent f e).
Proof.
  unfold call_event. apply keeps_bind; [apply quiet_ordered, quiet_does, books_called|]. intros _. apply keeps_bind; [apply keeps_asks|].
  intros h. apply keeps_noexcept, run_ops_keeps.
Qed.

Lemma call_accept_keeps f cid : keeps ordered (call_accept cfg onAccepted f cid).
Proof.
  unfold call_accept. apply keeps_bind; [apply quiet_ordered, quiet_does, books_accepted|]. intros _. apply keeps_bind; [apply keeps_asks|].
  intros h. apply keeps_noexcept, run_ops_keeps.
Qed.

Lemma dispatch_keeps cid t e : keeps ordered (dispatchConnectEvent cfg onEvent cid t e).
Proof.
  unfold dispatchConnectEvent. apply keeps_bind; [apply keeps_asks|]. intros [c|]; [|apply keeps_ret]. destruct (cb c); [apply call_event_keeps | apply keeps_ret].
Qed.

(** Takes a call apart whose parts keep the books in order. *)
Ltac kstep :=
  match goal with
  | |- keeps _ (mbind _ _) => apply keeps_bind; [|intros ?]
  | |- keeps _ (if ?x then _ else _) => destruct x
  | |- keeps _ (match ?x with _ => _ end) => destruct x
  | |- keeps _ (mret _) => apply keeps_ret
  | |- keeps _ (asks _) => apply keeps_asks
  | |- keeps _ undef => apply keeps_undef
  | |- keeps _ (calls _) => apply keeps_calls
  | |- keeps _ (fun _ => Waiting) => apply keeps_waiting
  | |- keeps _ (dispatchConnectEvent _ _ _ _ _) => apply dispatch_keeps
  | |- keeps _ (call_event _ _ _ _) => apply call_event_keeps
  | |- keeps _ (call_accept _ _ _ _) => apply call_accept_keeps
  | |- keeps _ (noexcept _) => apply keeps_noexcept
  | |- keeps _ (run_ops _ _) => apply run_ops_keeps
  | |- keeps _ (alters _ _) => apply quiet_ordered, quiet_alters; done
  | |- _ => apply quiet_ordered; solve [auto with quiet nocore]
  end.
Ltac keeping := intros; cbv zeta; repeat kstep.

Lemma accept_callbacks_keeps lid cid : keeps ordered (accept_callbacks cfg onEvent onAccepted lid cid).
Proof. unfold accept_callbacks. keeping. Qed.

Lemma acceptTurns_keeps fuel lid invoke : forall room, keeps ordered (acceptTurns cfg onEvent onAccepted fuel lid invoke room).
Proof.
  induction fuel as [|fuel IH]; intros room; cbn [acceptTurns]; [apply keeps_waiting|]. apply keeps_bind; [apply quiet_ordered; auto with quiet|].
  intros _ s Hs. eapply post_bind; [by apply open_fd_post|]. intros a s1; cbv beta. destruct (ret a <? 0); intros H1.
  - destruct (_ =? _); [by apply IH | exact H1].
  - eapply post_bind; [eapply post_never, post_noexcept, adopt_post, H1|]. intros cid s2 H2.
    eapply post_bind; [destruct invoke; [by apply accept_callbacks_keeps | exact H2]|]. intros [] s3 H3.
    eapply post_bind; [by apply IH|]. intros r s4 H4. exact H4.
Qed.

Lemma acceptLoop_keeps lid invoke room : keeps ordered (acceptLoop cfg onEvent onAccepted lid invoke room).
Proof. unfold acceptLoop. apply keeps_bind; [apply keeps_asks|]. intros n. apply acceptTurns_keeps. Qed.

Lemma takeError_keeps cid : keeps ordered (takeError (P := P) cid).
Proof. unfold takeError. keeping. Qed.

Lemma pollConnect_keeps cid c e : keeps ordered (pollConnect (P := P) cid c e).
Proof. unfold pollConnect. keeping. Qed.

Lemma pollOne_keeps room e tag : keeps ordered (pollOne cfg onEvent onAccepted room e tag).
Proof.
  unfold pollOne. keeping; [apply acceptLoop_keeps | apply pollConnect_keeps | apply takeError_keeps].
Qed.

Lemma pollLoop_keeps ready : forall room, keeps ordered (pollLoop cfg onEvent onAccepted room ready).
Proof.
  induction ready as [|[e tag] ready IH]; intros room; cbn [pollLoop]; [apply keeps_ret|]. destruct (room =? 0)%nat; [apply keeps_ret|].
  apply keeps_bind; [apply pollOne_keeps|]. intros l. apply keeps_bind; [apply IH|]. intros r. apply keeps_ret.
Qed.

Lemma pumpConnect_keeps cid c e : keeps ordered (pumpConnect cfg onEvent cid c e).
Proof. unfold pumpConnect. keeping. Qed.

(** The size of the scratch buffer is what [recv] is given. *)
Lemma ordered_scratch (s : Eng) : ordered s -> ioScratch s = [].
Proof. intros Hs. pose proof (i_mute _ _ Hs) as Hm. cbn in Hm. apply andb_true_iff in Hm as [Hm _]. by apply bool_decide_eq_true in Hm. Qed.

Lemma recvLoop_keeps fuel cid : forall n, keeps ordered (recvLoop cfg onEvent onReceived fuel cid n).
Proof.
  induction fuel as [|fuel IH]; intros n; cbn [recvLoop]; [apply keeps_waiting|]. apply keeps_bind; [apply quiet_ordered; auto with quiet|]. intros _ s Hs.
  eapply post_bind with (Q1 := fun a s' => ordered s' /\ ret a <= 0).
  { unfold sys. destruct (answers s) as [|a l]; [done|]. rewrite (ordered_scratch s Hs). destruct (Z.leb_spec (ret a) (Z.of_nat (length (@nil Z)))) as [Hle|]; cbn [andb]; [|done].
    destruct (_ || _); [|done]. split; [exact Hs | exact Hle]. }
  intros a s1 [H1 Hle]. destruct (ret a <? 0) eqn:Ea; [|rewrite (proj2 (Z.eqb_eq (ret a) 0)) by (apply Z.ltb_ge in Ea; lia)].
  - revert s1 H1. change (keeps ordered (if errno a =? EINTR then recvLoop cfg onEvent onReceived fuel cid n else
      if errno a =? EAGAIN then mret n else let er := mapErrno (errno a) in
        (if shouldStickify er then alters cid (set_error er) else mret tt);; dispatchConnectEvent cfg onEvent cid ERROR er;; mret (S n))).
    keeping. apply IH.
  - revert s1 H1. change (keeps ordered (alters cid set_peerClosed;; dispatchConnectEvent cfg onEvent cid PEER_CLOSED noError;; mret (S n))). keeping.
Qed.

Lemma pumpIn_keeps cid : keeps ordered (pumpIn cfg onEvent onReceived cid).
Proof. unfold pumpIn. keeping. apply recvLoop_keeps. Qed.

Lemma pumpOne_keeps e tag : keeps ordered (pumpOne cfg onEvent onAccepted onReceived e tag).
Proof.
  unfold pumpOne. keeping; first [apply acceptLoop_keeps | apply pumpConnect_keeps | apply pumpIn_keeps | apply takeError_keeps].
Qed.

Lemma pumpLoop_keeps ready : keeps ordered (pumpLoop cfg onEvent onAccepted onReceived ready).
Proof. induction ready as [|[e tag] ready IH]; cbn [pumpLoop]; [apply keeps_ret|]. apply keeps_bind; [apply pumpOne_keeps|]. intros n. apply keeps_bind; [exact IH|]. intros m. apply keeps_ret. Qed.

Lemma run_call_keeps c : keeps ordered (run_call cfg onEvent onAccepted onReceived c).
Proof.
  destruct c; cbn [run_call]; [apply run_op_keeps | | ]; (apply keeps_bind; [|intros; apply keeps_ret]).
  - apply keeps_noexcept. unfold pollEvents. apply keeps_bind; [apply keeps_asks|]. intros ok. destruct (_ || _); [apply keeps_ret | apply pollLoop_keeps].
  - unfold pump. apply keeps_bind; [apply keeps_asks|]. intros ok. destruct (_ || _); [apply keeps_ret | apply keeps_noexcept, pumpLoop_keeps].
Qed.

Lemma new_ordered p e l : ordered (TcpEngine_new p e l).
Proof.
  unfold ordered, TcpEngine_new, books. cbn. split; cbn; try done; try lia; try (intros; by rewrite fmap_empty, lookup_empty in * ).
Qed.

Lemma reach_ordered s : reach cfg onEvent onAccepted onReceived s -> ordered s.
Proof.
  induction 1 as [p e l|c s a s' _ IH E|c s s' _ IH E]; [apply new_ordered | |];
    pose proof (run_call_keeps c s IH) as Hp; rewrite E in Hp; exact Hp.
Qed.
End Order.

(** ** Sending *)

(** [newBlock], [appendNewBlock] and [reserveSpan] count no byte. *)
Lemma append_size {P} `{BlockPool P} (p p' : P) t t' : appendNewBlock p t = Ret (p', t') -> sizeBytes t' = sizeBytes t.
Proof.
  unfold appendNewBlock. intros ([p1 [b|]] & _ & E)%outcome_bind_ret_inv; [|by injection E as _ <-].
  destruct (head t); [|by injection E as _ <-]. destruct (tail t); [|discriminate]. apply outcome_bind_ret_inv in E as (x & _ & E). by injection E as _ <-.
Qed.

Lemma reserve_size {P} `{BlockPool P} (p p' : P) t t' n sp : reserveSpan p t n = Ret (p', t', sp) -> sizeBytes t' = sizeBytes t.
Proof.
  unfold reserveSpan. destruct (negb _); [by intros [= _ <- _]|]. intros ([p1 t1] & E1 & E)%outcome_bind_ret_inv.
  assert (H1 : sizeBytes t1 = sizeBytes t) by (destruct (tail t); [by injection E1 as _ <- | by eapply append_size]). rewrite <- H1. revert E.
  destruct (tail t1); [|by intros [= _ <- _]]. intros (k & _ & E)%outcome_bind_ret_inv. apply outcome_bind_ret_inv in E as ([p2 t2] & E2 & E).
  assert (H2 : sizeBytes t2 = sizeBytes t1) by (destruct (k <? n)%nat; [by eapply append_size | by injection E2 as _ <-]). rewrite <- H2. revert E.
  destruct (tail t2); [|by intros [= _ <- _]]. intros (x & _ & E)%outcome_bind_ret_inv. by injection E as _ <- _.
Qed.

(** What does not commit: everything the repository does with a connection. *)
Definition uncommitted (o : Op) : Prop := match o with OpCommit _ _ => False | _ => True end.
Definition unsent (o : Output) : Prop := match o with Sent _ _ => False | _ => True end.

Section Silent.
Context {P : Type} `{BlockPool P} (cfg : Config).
#[local] Abbreviation Eng := (Engine (P := P)).

(** No connection has bytes to send, and none were sent. *)
Definition silent (s : Eng) : Prop :=
  map_Forall (fun _ c => sizeBytes (bufferTx c) = 0%nat) (connections s) /\ Forall unsent (log s).

Lemma silent_sys ok : keeps silent (sys ok).
Proof. intros s Hs. unfold sys. destruct (answers s); [done|]. by destruct (ok s a). Qed.
Lemma silent_put o : unsent o -> keeps silent (does (put o)).
Proof. intros Ho. apply keeps_does. intros s [Hc Hl]. split; [done|]. apply Forall_app. split; [done|]. by constructor. Qed.
Lemma silent_insert cid c : sizeBytes (bufferTx c) = 0%nat -> keeps silent (does (on_connections (insert cid c))).
Proof. intros Hz. apply keeps_does. intros s [Hc Hl]. split; [|done]. by apply map_Forall_insert_2. Qed.
Lemma silent_delete cid : keeps silent (does (on_connections (delete cid))).
Proof. apply keeps_does. intros s [Hc Hl]. split; [|done]. by apply map_Forall_delete. Qed.

Lemma silent_connection {B} cid (f : ConnectionState -> IO B) :
  (forall c, sizeBytes (bufferTx c) = 0%nat -> keeps silent (f c)) -> keeps silent (connection cid ≫= f).
Proof.
  intros Hf s Hs. unfold connection, mbind, IO_bind, asks. destruct (connections s !! cid) as [c|] eqn:Ec; [|done].
  apply Hf; [|done]. destruct Hs as [Hc _]. exact (Hc cid c Ec).
Qed.
Lemma silent_alters cid f : (forall c, sizeBytes (bufferTx (f c)) = sizeBytes (bufferTx c)) -> keeps silent (alters cid f).
Proof. intros Hf. apply silent_connection. intros c Hz. apply silent_insert. by rewrite Hf. Qed.
Lemma silent_set_tx cid t : sizeBytes t = 0%nat -> keeps silent (alters (P := P) cid (set_tx t)).
Proof. intros Ht. apply silent_connection. intros c Hz. by apply silent_insert. Qed.
Lemma silent_peek {B} cid (f : ConnectionState -> IO B) :
  (forall c, keeps silent (f c)) -> keeps silent (connection cid ≫= f).
Proof. intros Hf. apply silent_connection. intros c _. apply Hf. Qed.
End Silent.

(** Takes a call apart whose parts keep the engine silent. *)
Ltac sstep :=
  match goal with
  | |- keeps _ (connection _ ≫= _) => apply silent_peek; intros ?
  | |- keeps _ (mbind _ _) => apply keeps_bind; [|intros ?]
  | |- keeps _ (if ?x then _ else _) => destruct x
  | |- keeps _ (match ?x with _ => _ end) => destruct x eqn:?
  | |- keeps _ (mret _) => apply keeps_ret
  | |- keeps _ (asks _) => apply keeps_asks
  | |- keeps _ undef => apply keeps_undef
  | |- keeps _ throw => apply keeps_throw
  | |- keeps _ (calls _) => apply keeps_calls
  | |- keeps _ (fun _ => Waiting) => apply keeps_waiting
  | |- keeps _ (noexcept _) => apply keeps_noexcept
  | |- keeps _ (sys _) => apply silent_sys
  | |- keeps _ (does (put _)) => apply silent_put; exact I
  | |- keeps _ (does (on_connections (insert _ _))) => apply silent_insert; reflexivity
  | |- keeps _ (does (on_connections (delete _))) => apply silent_delete
  | |- keeps _ (does _) => apply keeps_does; intros ? Hsilent; exact Hsilent
  | |- keeps _ (alters _ _) => apply silent_alters; reflexivity
  end.
Ltac silently := intros; cbv zeta; repeat first [sstep | solve [auto with silent nocore]].
Create HintDb silent.

Section SilentOps.
Context {P : Type} `{BlockPool P} (cfg : Config).
#[local] Abbreviation Eng := (Engine (P := P)).
#[local] Abbreviation silent := (silent (P := P)).
#[local] Abbreviation keeps := (keeps (P := P)).

Lemma silent_succeeds : keeps silent succeeds.
Proof. unfold succeeds, call. silently. Qed.
#[local] Hint Resolve silent_succeeds : silent.
Lemma silent_call : keeps silent call.
Proof. unfold call. silently. Qed.
#[local] Hint Resolve silent_call : silent.
Lemma silent_open_fd : keeps silent open_fd.
Proof. unfold open_fd. silently. apply keeps_does. intros s [Hc Hl]. split; [done|]. apply Forall_app. split; [done | by repeat constructor]. Qed.
Lemma silent_close_fd d : keeps silent (close_fd d).
Proof. apply keeps_does. intros s [Hc Hl]. split; [done|]. apply Forall_app. split; [done | by repeat constructor]. Qed.
Lemma silent_listener lid : keeps silent (listener lid).
Proof. unfold listener. silently. Qed.
Lemma silent_epAdd : keeps silent epAdd.
Proof. unfold epAdd. silently. Qed.
Lemma silent_epDel : keeps silent epDel.
Proof. unfold epDel. silently. Qed.
Lemma silent_setNonBlocking : keeps silent setNonBlocking.
Proof. unfold setNonBlocking. silently. Qed.
Lemma silent_bindToDevice d : keeps silent (bindToDeviceIfRequested d).
Proof. unfold bindToDeviceIfRequested. silently. Qed.
Lemma silent_option_set b : keeps silent (option_set b).
Proof. unfold option_set. silently. Qed.
#[local] Hint Resolve silent_open_fd silent_close_fd silent_listener silent_epAdd silent_epDel silent_setNonBlocking silent_bindToDevice silent_option_set : silent.
Lemma silent_applyPolicy p : keeps silent (applyPolicy p).
Proof. unfold applyPolicy. silently. Qed.
Lemma silent_bindEndpoint : keeps silent bindEndpoint.
Proof. unfold bindEndpoint. silently. Qed.
Lemma silent_getLiveKey : keeps silent getLiveKey.
Proof. unfold getLiveKey. silently. Qed.
#[local] Hint Resolve silent_applyPolicy silent_bindEndpoint silent_getLiveKey : silent.
Lemma silent_getAccepted lid cid : keeps silent (getAcceptedConnectionChecked lid cid).
Proof. unfold getAcceptedConnectionChecked. silently. Qed.
Lemma silent_bindEphemeral n : keeps silent (bindEphemeral cfg n).
Proof. induction n as [|n IH]; cbn [bindEphemeral]; silently. Qed.
#[local] Hint Resolve silent_getAccepted silent_bindEphemeral : silent.
Lemma silent_bindLocal d p : keeps silent (bindLocal cfg d p).
Proof. unfold bindLocal. silently. Qed.
#[local] Hint Resolve silent_bindLocal : silent.
Lemma silent_createListener opt : keeps silent (createListener cfg opt).
Proof. unfold createListener. silently. Qed.
Lemma silent_createConnection lcl rmt opt : keeps silent (createConnection cfg lcl rmt opt).
Proof. unfold createConnection. silently. Qed.
Lemma silent_adopt lid d : keeps silent (adoptAcceptedSocket cfg lid d).
Proof. unfold adoptAcceptedSocket. silently. Qed.
Lemma silent_closeInternal cid : keeps silent (closeConnectionInternal cid).
Proof. unfold closeConnectionInternal. silently. Qed.
#[local] Hint Resolve silent_createListener silent_createConnection silent_adopt silent_closeInternal : silent.
Lemma silent_closeConnection cid : keeps silent (closeConnection cid).
Proof. unfold closeConnection. silently. Qed.
Lemma silent_closeAll l : keeps silent (closeAll l).
Proof. induction l as [|cid l IH]; cbn [closeAll]; silently. Qed.
#[local] Hint Resolve silent_closeConnection silent_closeAll : silent.
Lemma silent_closeListener lid : keeps silent (closeListener lid).
Proof. unfold closeListener. silently. Qed.
Lemma silent_listenerDisconnect lid cid : keeps silent (listenerDisconnect lid cid).
Proof. unfold listenerDisconnect. silently. Qed.
Lemma silent_dropLocal addr : keeps silent (dropLocalConnections addr).
Proof. unfold dropLocalConnections. silently. Qed.

(** A flush of a connection without bytes to send does nothing. *)
Lemma flush_nothing cid (s : Eng) : silent s -> flush cid s = Done 0%nat s.
Proof.
  intros [Hc _]. unfold flush. rewrite bind_asks. destruct (connections s !! cid) as [c|] eqn:Ec; [|done]. destruct (negb _); [done|].
  rewrite bind_asks. cbn [flushLoop]. unfold connection, mbind, IO_bind, asks. rewrite Ec. cbn [mret IO_ret]. by rewrite (Hc cid c Ec).
Qed.
Lemma silent_flush cid : keeps silent (flush cid).
Proof. intros s Hs. by rewrite flush_nothing. Qed.
#[local] Hint Resolve silent_closeListener silent_listenerDisconnect silent_dropLocal silent_flush : silent.
Lemma silent_listenerFlush lid cid : keeps silent (listenerFlush lid cid).
Proof. unfold listenerFlush. silently. Qed.

Lemma silent_reserve {B} (p : P) (t : TxBuffer) n (f : P * TxBuffer * option span -> IO B) :
  sizeBytes t = 0%nat -> (forall r, sizeBytes r.1.2 = 0%nat -> keeps silent (f r)) -> keeps silent (calls (reserveSpan p t n) ≫= f).
Proof.
  intros Ht Hf s Hs. destruct (reserveSpan p t n) as [[[p' t'] sp]| |] eqn:E; [|done..]. apply (Hf (p', t', sp)); [|done]. cbn.
  by rewrite (reserve_size _ _ _ _ _ _ E).
Qed.

Lemma silent_write cid m : keeps silent (writePiece cid m).
Proof.
  unfold writePiece. apply silent_connection. intros c Hz. apply keeps_bind; [apply keeps_asks|]. intros p. apply silent_reserve; [done|].
  intros r Hr. apply keeps_bind; [silently|]. intros _. apply keeps_bind; [by apply silent_set_tx|]. silently.
Qed.
#[local] Hint Resolve silent_listenerFlush silent_write : silent.

Lemma silent_op o : uncommitted o -> keeps silent (run_op cfg o).
Proof. destruct o; intros Ho; cbn [run_op]; try done; silently. Qed.

Lemma silent_ops l : Forall uncommitted l -> keeps silent (run_ops cfg l).
Proof. induction 1 as [|o l Ho _ IH]; cbn [run_ops]; [apply keeps_ret|]. apply keeps_bind; [by apply silent_op|]. intros _. exact IH. Qed.

Context (onEvent : Z -> list Output -> TcpEvent -> list Op).
Context (onAccepted : Z -> list Output -> Z -> list Op).
Context (onReceived : Z -> list Output -> bytes -> list Op * nat).
Context (event_ok : forall f h e, Forall uncommitted (onEvent f h e)) (accept_ok : forall f h cid, Forall uncommitted (onAccepted f h cid)).
Context (receive_ok : forall f h data, Forall uncommitted (onReceived f h data).1).

Lemma silent_call_event f e : keeps silent (call_event cfg onEvent f e).
Proof. unfold call_event. silently. apply silent_ops, event_ok. Qed.
Lemma silent_call_accept f cid : keeps silent (call_accept cfg onAccepted f cid).
Proof. unfold call_accept. silently. apply silent_ops, accept_ok. Qed.
#[local] Hint Resolve silent_call_event silent_call_accept : silent.
Lemma silent_dispatch cid t e : keeps silent (dispatchConnectEvent cfg onEvent cid t e).
Proof. unfold dispatchConnectEvent. silently. Qed.
#[local] Hint Resolve silent_dispatch : silent.
Lemma silent_accept_callbacks lid cid : keeps silent (accept_callbacks cfg onEvent onAccepted lid cid).
Proof. unfold accept_callbacks. silently. Qed.
#[local] Hint Resolve silent_accept_callbacks : silent.
Lemma silent_acceptTurns fuel lid invoke : forall room, keeps silent (acceptTurns cfg onEvent onAccepted fuel lid invoke room).
Proof. induction fuel as [|fuel IH]; intros room; cbn [acceptTurns]; silently. Qed.
#[local] Hint Resolve silent_acceptTurns : silent.
Lemma silent_acceptLoop lid invoke room : keeps silent (acceptLoop cfg onEvent onAccepted lid invoke room).
Proof. unfold acceptLoop. silently. Qed.
Lemma silent_takeError cid : keeps silent (takeError cid).
Proof. unfold takeError. silently. Qed.
Lemma silent_pollConnect cid c e : keeps silent (pollConnect cid c e).
Proof. unfold pollConnect. silently. Qed.
Lemma silent_pumpConnect cid c e : keeps silent (pumpConnect cfg onEvent cid c e).
Proof. unfold pumpConnect. silently. Qed.
#[local] Hint Resolve silent_acceptLoop silent_takeError silent_pollConnect silent_pumpConnect : silent.
Lemma silent_pollOne room e tag : keeps silent (pollOne cfg onEvent onAccepted room e tag).
Proof. unfold pollOne. silently. Qed.
#[local] Hint Resolve silent_pollOne : silent.
Lemma silent_pollLoop ready : forall room, keeps silent (pollLoop cfg onEvent onAccepted room ready).
Proof. induction ready as [|[e tag] ready IH]; intros room; cbn [pollLoop]; silently. Qed.
Lemma silent_deliver cid f data : keeps silent (deliver cfg onReceived cid f data).
Proof.
  unfold deliver. silently. match goal with E : onReceived ?a ?b ?c = _ |- _ => pose proof (receive_ok a b c) as Hops; rewrite E in Hops end.
  by apply silent_ops.
Qed.
#[local] Hint Resolve silent_pollLoop silent_deliver : silent.
Lemma silent_recvLoop fuel cid : forall n, keeps silent (recvLoop cfg onEvent onReceived fuel cid n).
Proof. induction fuel as [|fuel IH]; intros n; cbn [recvLoop]; silently. Qed.
#[local] Hint Resolve silent_recvLoop : silent.
Lemma silent_pumpIn cid : keeps silent (pumpIn cfg onEvent onReceived cid).
Proof. unfold pumpIn. silently. Qed.
#[local] Hint Resolve silent_pumpIn : silent.
Lemma silent_pumpOne e tag : keeps silent (pumpOne cfg onEvent onAccepted onReceived e tag).
Proof. unfold pumpOne. silently. Qed.
#[local] Hint Resolve silent_pumpOne : silent.
Lemma silent_pumpLoop ready : keeps silent (pumpLoop cfg onEvent onAccepted onReceived ready).
Proof. induction ready as [|[e tag] ready IH]; cbn [pumpLoop]; silently. Qed.
#[local] Hint Resolve silent_pumpLoop : silent.

(** A call of the program that commits nothing itself. *)
Definition plain_call (c : Call) : Prop := match c with CallOp o => uncommitted o | _ => True end.

Lemma silent_run_call c : plain_call c -> keeps silent (run_call cfg onEvent onAccepted onReceived c).
Proof. destruct c; intros Hc; cbn [run_call]; [by apply silent_op | unfold pollEvents; silently | unfold pump; silently]. Qed.

(** The engines of a program whose calls and callbacks never commit. *)
Inductive plain_reach : Eng -> Prop :=
  | plain_new p e l : plain_reach (TcpEngine_new p e l)
  | plain_done c s a s' : plain_reach s -> plain_call c -> run_call cfg onEvent onAccepted onReceived c s = Done a s' -> plain_reach s'
  | plain_thrown c s s' : plain_reach s -> plain_call c -> run_call cfg onEvent onAccepted onReceived c s = Thrown s' -> plain_reach s'.

Lemma plain_reach_silent s : plain_reach s -> silent s.
Proof.
  induction 1 as [p e l|c s a s' _ IH Hc E|c s s' _ IH Hc E]; [split; [apply map_Forall_empty | constructor] | |];
    pose proof (silent_run_call c Hc s IH) as Hp; rewrite E in Hp; exact Hp.
Qed.
End SilentOps.

(** ** Ephemeral ports *)

Section Ephemeral.
Context {P : Type} (cfg : Config).
#[local] Abbreviation Eng := (Engine (P := P)).
Context (range_ok : 0 <= ephemeralMin cfg <= ephemeralMax cfg /\ ephemeralMax cfg < 65536).

(** The ports that [n] calls of allocateEphemeral give. *)
Fixpoint tries (n : nat) (next : Z) : list Z :=
  match n with
  | O => []
  | S n => let '(p, next) := allocateEphemeral cfg next in p :: tries n next
  end.

Definition range : Z := ephemeralMax cfg - ephemeralMin cfg + 1.
Definition cursor (next : Z) : Z := if (next <? ephemeralMin cfg) || (ephemeralMax cfg <? next) then ephemeralMin cfg else next.

Lemma cursor_range next : ephemeralMin cfg <= cursor next <= ephemeralMax cfg.
Proof. unfold cursor. destruct (Z.ltb_spec next (ephemeralMin cfg)), (Z.ltb_spec (ephemeralMax cfg) next); cbn; lia. Qed.

Lemma allocate_step next :
  (allocateEphemeral cfg next).1 = cursor next /\
  cursor (allocateEphemeral cfg next).2 = ephemeralMin cfg + (cursor next - ephemeralMin cfg + 1) mod range.
Proof.
  pose proof (cursor_range next) as Hc. unfold allocateEphemeral. rewrite (proj2 (Z.ltb_ge _ _)) by lia. cbv zeta. fold (cursor next). split; [done|]. cbn [snd].
  unfold range. destruct (decide (cursor next = ephemeralMax cfg)) as [E|Hne].
  - replace (cursor next - ephemeralMin cfg + 1) with (1 * (ephemeralMax cfg - ephemeralMin cfg + 1)) by lia. rewrite Z.mod_mul by lia.
    destruct (decide (cursor next = 65535)) as [E5|Hn5].
    + replace (u16 (cursor next + 1)) with 0 by (rewrite E5; done). rewrite (proj2 (Z.ltb_ge _ _)) by lia. unfold cursor at 1.
      destruct (Z.ltb_spec 0 (ephemeralMin cfg)); cbn [orb]; [lia|]. rewrite (proj2 (Z.ltb_ge _ _)) by lia. lia.
    + rewrite wrap_small by (split; lia). rewrite (proj2 (Z.ltb_lt _ _)) by lia. unfold cursor at 1. rewrite !(proj2 (Z.ltb_ge _ _)) by lia. cbn. lia.
  - rewrite wrap_small by (split; lia). rewrite (proj2 (Z.ltb_ge _ _)) by lia. rewrite Z.mod_small by lia. unfold cursor at 1. rewrite !(proj2 (Z.ltb_ge _ _)) by lia. cbn. lia.
Qed.

Lemma tries_cycle n : forall next, tries n next = (fun i => ephemeralMin cfg + (cursor next - ephemeralMin cfg + Z.of_nat i) mod range) <$> seq 0 n.
Proof.
  pose proof cursor_range as Hcr. assert (Hr : 0 < range) by (unfold range; lia).
  induction n as [|n IH]; intros next; [done|]. cbn [tries seq fmap list_fmap]. destruct (allocate_step next) as [E1 E2]. destruct (allocateEphemeral cfg next) as [p nx].
  cbn [fst snd] in *. f_equal.
  - rewrite E1, Z.add_0_r, Z.mod_small; [lia|]. specialize (Hcr next). unfold range. lia.
  - rewrite IH, <- fmap_S_seq, <- list_fmap_compose. apply list_fmap_ext. intros i x _. cbn. f_equal. rewrite E2.
    replace (ephemeralMin cfg + (cursor next - ephemeralMin cfg + 1) mod range - ephemeralMin cfg + Z.of_nat x) with ((cursor next - ephemeralMin cfg + 1) mod range + Z.of_nat x) by lia.
    rewrite Z.add_mod_idemp_l by lia. f_equal. lia.
Qed.

Lemma tries_range n next p : p ∈ tries n next -> ephemeralMin cfg <= p <= ephemeralMax cfg.
Proof.
  rewrite tries_cycle. intros [i [-> _]]%list_elem_of_fmap. pose proof (Z.mod_pos_bound (cursor next - ephemeralMin cfg + Z.of_nat i) range) as Hb. unfold range in *. lia.
Qed.

(** As many calls as there are ports give every port once. *)
Lemma tries_all next : NoDup (tries (Z.to_nat range) next) /\ forall p, ephemeralMin cfg <= p <= ephemeralMax cfg -> p ∈ tries (Z.to_nat range) next.
Proof.
  assert (Hr : 0 < range) by (unfold range; lia). rewrite tries_cycle. set (c := cursor next - ephemeralMin cfg). split.
  - apply NoDup_fmap_2_strong; [|apply NoDup_seq]. intros i j Hi%elem_of_seq Hj%elem_of_seq E.
    assert (Em : (c + Z.of_nat i) mod range = (c + Z.of_nat j) mod range) by lia.
    pose proof (Z.div_mod (c + Z.of_nat i) range ltac:(lia)) as D1. pose proof (Z.div_mod (c + Z.of_nat j) range ltac:(lia)) as D2. rewrite Em in D1.
    set (q1 := (c + Z.of_nat i) / range) in *. set (q2 := (c + Z.of_nat j) / range) in *.
    assert (D : Z.of_nat i - Z.of_nat j = range * (q1 - q2)) by lia.
    destruct (Z.lt_trichotomy q1 q2) as [Hq|[Hq|Hq]]; [nia | rewrite Hq, Z.sub_diag, Z.mul_0_r in D; lia | nia].
  - intros p Hp. apply list_elem_of_fmap. exists (Z.to_nat ((p - ephemeralMin cfg - c) mod range)).
    pose proof (Z.mod_pos_bound (p - ephemeralMin cfg - c) range Hr) as Hb. split; [|apply elem_of_seq; lia].
    rewrite Z2Nat.id by lia. rewrite Z.add_mod_idemp_r by lia. replace (c + (p - ephemeralMin cfg - c)) with (p - ephemeralMin cfg) by lia.
    rewrite Z.mod_small; [lia|]. unfold range. lia.
Qed.

Lemma bindEphemeral_spec n : forall s : Eng,
  match bindEphemeral cfg n s with
  | Done (Some p) _ => p ∈ tries n (nextEphemeral s)
  | Done None s' => exists l, answers s = l ++ answers s' /\ length l = n /\ Forall (fun a => ret a <> 0) l
  | Waiting => True
  | _ => False
  end.
Proof.
  induction n as [|n IH]; intros s; cbn [bindEphemeral]; [exists []; split_and!; done|]. rewrite bind_asks. cbn [tries].
  destruct (allocateEphemeral cfg (nextEphemeral s)) as [p nx]. rewrite bind_does. unfold bindEndpoint, succeeds, call, sys, mbind, IO_bind. cbn [answers set_ephemeral].
  destruct (answers s) as [|a l] eqn:Ea; [done|]. cbn. destruct (Z.eqb_spec (ret a) 0) as [|Hne]; [cbn; left|].
  specialize (IH (set_answers l (set_ephemeral nx s))). destruct (bindEphemeral cfg n _) as [[q|] s'|s'| | | |]; try done.
  - cbn in IH. by right.
  - destruct IH as (l' & E & Hl & Hf). cbn in E. exists (a :: l'). rewrite E. split_and!; [done | cbn; lia | by constructor].
Qed.

(** C32: A connection without a local port gets one of the ephemeral range unless
    all of them are taken: the loop returns a port of the range, and it fails
    only when the kernel refused as many ports as the range has, and the ports
    it tried were all of the range, each once. This holds wherever the cursor
    stands and for every range of 16-bit ports, up to 65535, where the cursor
    wraps around. *)
Theorem ephemeral_ports_all_tried (s : Eng) :
  let n := Z.to_nat (u32 (ephemeralMax cfg - ephemeralMin cfg + 1)) in
  match bindEphemeral cfg n s with
  | Done (Some p) _ => ephemeralMin cfg <= p <= ephemeralMax cfg
  | Done None s' =>
      (exists l, answers s = l ++ answers s' /\ length l = n /\ Forall (fun a => ret a <> 0) l) /\
      NoDup (tries n (nextEphemeral s)) /\ (forall p, ephemeralMin cfg <= p <= ephemeralMax cfg <-> p ∈ tries n (nextEphemeral s))
  | Waiting => True
  | _ => False
  end.
Proof.
  intros n. pose proof (bindEphemeral_spec n s) as Hb. destruct (bindEphemeral cfg n s) as [[p|] s'|s'| | | |]; [by eapply tries_range | | done..].
  split; [exact Hb|]. assert (En : n = Z.to_nat range) by (unfold n, range; rewrite wrap_small; [done | split; lia]).
  rewrite En. destruct (tries_all (nextEphemeral s)) as [Hn Ha]. split; [exact Hn|]. intros p. split; [apply Ha | apply tries_range].
Qed.
End Ephemeral.

(** ** The engine is coherent *)

(** C21: Whatever the kernel answers and whatever the callbacks do, the
    bookkeeping of the engine is in order after every call that returns or
    throws: a connection that a listener owns is in that listener's list and the
    lists hold nothing else; every connection and listener has a descriptor of
    its own, which is open; over the whole history only new descriptors were
    opened and only open ones closed, none twice. *)
Theorem engine_coherent {P} `{BlockPool P} cfg onEvent onAccepted onReceived (s : Engine (P := P)) :
  reach cfg onEvent onAccepted onReceived s -> in_order ∅ (books s).
Proof. apply reach_ordered. Qed.

(** C33: Nothing that is received is ever delivered. [recv] is given the size of
    the scratch buffer, which nothing ever sets and which is zero, so that the
    kernel can only answer that there is nothing, which the engine takes for
    the end of the stream: whatever the kernel and the callbacks do, no
    receive callback is ever called with bytes. *)
Theorem received_never_delivered {P} `{BlockPool P} cfg onEvent onAccepted onReceived (s : Engine (P := P)) :
  reach cfg onEvent onAccepted onReceived s -> ioScratch s = [] /\ forall f cid data, Received f cid data ∉ log s.
Proof.
  intros Hr%reach_ordered. split; [by apply ordered_scratch|]. intros f cid data Hin. pose proof (i_mute _ _ Hr) as Hm. cbn in Hm.
  apply andb_true_iff in Hm as [_ Hm]. rewrite forallb_forall in Hm. apply list_elem_of_In in Hin. by specialize (Hm _ Hin).
Qed.

(** C22: No byte is ever sent. A message is written piece by piece into spans
    reserved in the connection's buffer, and nothing in the repository then
    commits what was written. Whatever is written, whatever the kernel answers
    and whatever the callbacks do, as long as none of them calls the commit of
    the buffer itself: the kernel is never given a byte, every flush returns at
    once with zero, and no buffer has bytes to send. *)
Theorem nothing_is_sent {P} `{BlockPool P} cfg onEvent onAccepted onReceived (s : Engine (P := P)) :
  (forall f h e, Forall uncommitted (onEvent f h e)) -> (forall f h cid, Forall uncommitted (onAccepted f h cid)) ->
  (forall f h data, Forall uncommitted (onReceived f h data).1) -> plain_reach cfg onEvent onAccepted onReceived s ->
  (forall d data, Sent d data ∉ log s) /\ (forall cid, flush cid s = Done 0%nat s) /\
  (forall cid c, connections s !! cid = Some c -> peek (pool s) (bufferTx c) 0 = Ret []).
Proof.
  intros He Ha Hr Hs%plain_reach_silent; try done. split; [|split].
  - intros d data Hin. destruct Hs as [_ Hl]. rewrite Forall_forall in Hl. exact (Hl _ Hin).
  - intros cid. by apply flush_nothing.
  - intros cid c Hc. destruct Hs as [Hz _]. unfold peek. rewrite (Hz cid c Hc). by destruct (head (bufferTx c)).
Qed.

(** ** A run *)

Section Demo.
Definition demo_policy : TcpSocketPolicy := mkPolicy None None false false false.
Definition demo_cfg : Config := mkConfig 65534 65535 4096 demo_policy.
Definition demo_answer (r e : Z) : Answer := mkAnswer r e noEndpoint [].
Definition demo_onEvent (f : Z) (h : list Output) (e : TcpEvent) : list Op := [].
Definition demo_onAccepted (f : Z) (h : list Output) (cid : Z) : list Op := [OpWrite cid [1; 2; 3]; OpFlush cid].
Definition demo_onReceived (f : Z) (h : list Output) (data : bytes) : list Op * nat := ([], length data).

(** A listener on descriptor 3 takes a connection on descriptor 4, which
    becomes readable. *)
Definition demo_answers : list Answer :=
  [demo_answer 3 0] ++ replicate 7 (demo_answer 0 0) ++ [demo_answer 4 0] ++ replicate 4 (demo_answer 0 0) ++ [demo_answer (-1) EAGAIN; demo_answer 0 0].
Definition demo_calls : list Call :=
  [CallOp (OpListen (mkListenOptions demo_policy false (Some 7) (Some 8) (Some 9)));
   CallPump 4 [(EPOLLIN, packListener 1)]; CallPump 4 [(EPOLLIN, packConn 1)]].

#[local] Instance demo_ops : BlockPool TxBufferPool := tx_pool (fun _ _ => 0) (fun _ => true).
Definition demo_txpool : TxBufferPool := TxBufferPool_new (mkPoolConfig 256 4 0).

Fixpoint run_all (l : list Call) (s : Engine (P := TxBufferPool)) : option Engine :=
  match l with
  | [] => Some s
  | c :: l => match run_call demo_cfg demo_onEvent demo_onAccepted demo_onReceived c s with Done _ s => run_all l s | _ => None end
  end.

Lemma run_all_reach l : forall s s', reach demo_cfg demo_onEvent demo_onAccepted demo_onReceived s -> run_all l s = Some s' ->
  reach demo_cfg demo_onEvent demo_onAccepted demo_onReceived s'.
Proof.
  induction l as [|c l IH]; intros s s' Hs E; cbn in E; [by injection E as <-|].
  destruct (run_call _ _ _ _ c s) as [a s1|s1| | | |] eqn:E1; try discriminate. eapply IH, E. by eapply reach_done.
Qed.

Lemma run_all_plain l : Forall plain_call l -> forall s s', plain_reach demo_cfg demo_onEvent demo_onAccepted demo_onReceived s -> run_all l s = Some s' ->
  plain_reach demo_cfg demo_onEvent demo_onAccepted demo_onReceived s'.
Proof.
  induction 1 as [|c l Hc _ IH]; intros s s' Hs E; cbn in E; [by injection E as <-|].
  destruct (run_call _ _ _ _ c s) as [a s1|s1| | | |] eqn:E1; try discriminate. eapply IH, E. by eapply plain_done.
Qed.

Definition demo_start : Engine (P := TxBufferPool) := TcpEngine_new demo_txpool true demo_answers.
Definition demo_engine : Engine (P := TxBufferPool) := default demo_start (run_all demo_calls demo_start).

Lemma demo_reach : reach demo_cfg demo_onEvent demo_onAccepted demo_onReceived demo_engine.
Proof. apply (run_all_reach demo_calls demo_start); [constructor | vm_compute; reflexivity]. Qed.

Lemma demo_plain : plain_reach demo_cfg demo_onEvent demo_onAccepted demo_onReceived demo_engine.
Proof. apply (run_all_plain demo_calls) with demo_start; [repeat constructor | constructor | vm_compute; reflexivity]. Qed.

Lemma engine_coherent_witness :
  b_conns (books demo_engine) = {[1 := (4, 1)]} /\ b_lsts (books demo_engine) = {[1 := (3, [1])]} /\ in_order ∅ (books demo_engine).
Proof. split; [vm_compute; reflexivity|]. split; [vm_compute; reflexivity|]. exact (engine_coherent _ _ _ _ _ demo_reach). Defined.

(** The connection has a receive callback, and was reported to be closed. *)
Lemma received_never_delivered_witness :
  log demo_engine = [Opened 3; Opened 4; Accepted 7 1; Called 8 (mkEvent ACCEPTED 1 noError); Called 8 (mkEvent PEER_CLOSED 1 noError)] /\
  ioScratch demo_engine = [].
Proof. split; [vm_compute; reflexivity|]. exact (proj1 (received_never_delivered _ _ _ _ _ demo_reach)). Defined.

(** Both ports of the range are refused. *)
Lemma ephemeral_ports_all_tried_witness :
  exists s', bindEphemeral demo_cfg 2 (TcpEngine_new demo_txpool true [demo_answer (-1) 98; demo_answer (-1) 98]) = Done None s' /\
    tries demo_cfg 2 0 = [65534; 65535] /\ NoDup (tries demo_cfg 2 0).
Proof.
  assert (Hr : 0 <= ephemeralMin demo_cfg <= ephemeralMax demo_cfg /\ ephemeralMax demo_cfg < 65536) by (cbn; lia).
  eexists. split; [vm_compute; reflexivity|]. split; [reflexivity|].
  exact (proj1 (proj2 (ephemeral_ports_all_tried demo_cfg Hr (TcpEngine_new demo_txpool true [demo_answer (-1) 98; demo_answer (-1) 98])))).
Defined.

(** The connection's callback writes a message and flushes it. *)
Lemma nothing_is_sent_witness :
  dom (connections demo_engine) = {[1]} /\ (forall d data, Sent d data ∉ log demo_engine) /\ flush 1 demo_engine = Done 0%nat demo_engine.
Proof.
  split; [vm_compute; reflexivity|].
  destruct (nothing_is_sent demo_cfg demo_onEvent demo_onAccepted demo_onReceived demo_engine) as (H1 & H2 & _);
    [constructor | repeat constructor | constructor | exact demo_plain | split; [exact H1 | exact (H2 1)]].
Defined.
End Demo.
