(* ===== verification/AtomicHashMap.v ===== *)
(** * AtomicHashMap: the hash map the data plane reads (types/AtomicHashMap.hpp)

    A table of slots with one control byte each, which is probed from the home
    slot of a key; a writer changes a copy of the table and publishes it, so
    that a reader sees one table. [insert], [update] and [erase] of a table go
    from slot to slot, [find] goes four slots at a time: the exact consequence
    is what the theorems state. The hash function is a parameter, as it is a
    template argument; so is whether memory can be had. *)

From S2P Require Import Prelude.

(** ** Tables *)

(** [types/AtomicHashMap.hpp:76-76] AtomicHashMap::kEmpty *)
Definition kEmpty : Z := 128.

(** [types/AtomicHashMap.hpp:77-77] AtomicHashMap::kDeleted *)
Definition kDeleted : Z := 254.

(** [types/AtomicHashMap.hpp:79-82] AtomicHashMap::ctrlOccupied *)
Definition ctrlOccupied (c : Z) : bool := Z.land c 128 =? 0.

(** [types/AtomicHashMap.hpp:84-87] AtomicHashMap::makeH2 *)
Definition makeH2 (hash : Z) : Z := Z.land hash 127.

(** The template argument, which nothing changes from its default. *)
Definition LoadPct : Z := 75.

(** [types/AtomicHashMap.hpp:244-251] Table::ceilPow2, on 64-bit integers *)
Definition ceilPow2 (n : Z) : Z :=
  if n <=? 1 then 1
  else
    let n := n - 1 in
    let n := Z.lor n (Z.shiftr n 1) in
    let n := Z.lor n (Z.shiftr n 2) in
    let n := Z.lor n (Z.shiftr n 4) in
    let n := Z.lor n (Z.shiftr n 8) in
    let n := Z.lor n (Z.shiftr n 16) in
    let n := Z.lor n (Z.shiftr n 32) in
    u64 (n + 1).

Section Map.
Context {Key V : Type} `{EqDecision Key} (hash : Key -> Z) (alloc : Z -> bool).

(** [types/AtomicHashMap.hpp:89-93] Slot *)
Record Slot := mkSlot { key : Key; value : V }.

(** [types/AtomicHashMap.hpp:101-108] Table: a slot that was never written is [None], the mask is one less than [cap] *)
Record Table := mkTable { cap : nat; size : Z; deleted : Z; ctrl : list Z; slots : list (option Slot) }.

Definition mask (t : Table) : Z := Z.of_nat (cap t) - 1.

(** [types/AtomicHashMap.hpp:110-125] Table::make: [None] is [std::bad_alloc] *)
Definition make (capacity : Z) : option Table :=
  let capacity := ceilPow2 capacity in
  if alloc capacity
  then let n := Z.to_nat capacity in Some (mkTable n 0 0 (replicate n kEmpty) (replicate n None))
  else None.

(** [types/AtomicHashMap.hpp:127-142] Table::clone: [None] is [std::bad_alloc] *)
Definition clone (src : Table) : option Table := if alloc (Z.of_nat (cap src)) then Some src else None.

(** The home slot of a hash, and the slot [d] further. *)
Definition home (t : Table) (hsh : Z) : nat := Z.to_nat (Z.land hsh (mask t)).
Definition step (t : Table) (d : Z) (idx : nat) : nat := Z.to_nat (Z.land (Z.of_nat idx + d) (mask t)).

(** The loops of the members of Table: at most [n] slots, [d] apart, until the
    body has a result. *)
Fixpoint probe {R} (t : Table) (d : Z) (body : nat -> option R) (n idx : nat) : option R :=
  match n with
  | O => None
  | S n => match body idx with Some r => Some r | None => probe t d body n (step t d idx) end
  end.

(** Whether slot [idx] has control byte [h] and key [k]. *)
Definition holds (t : Table) (h : Z) (k : Key) (idx : nat) : bool :=
  (ctrl t !!! idx =? h) && match slots t !!! idx with Some s => bool_decide (key s = k) | None => false end.

(** [types/AtomicHashMap.hpp:152-171] Table::find *)
Definition find (t : Table) (k : Key) (hsh : Z) : option V :=
  default None (probe t 4 (fun idx =>
    if ctrl t !!! idx =? kEmpty then Some None
    else if holds t (makeH2 hsh) k idx then Some (value <$> (slots t !!! idx))
    else None) (cap t) (home t hsh)).

(** What [insert] does to the free slot it found. *)
Definition put (t : Table) (k : Key) (v : V) (hsh : Z) (idx : nat) : Table :=
  let deleted := if ctrl t !!! idx =? kDeleted then deleted t - 1 else deleted t in
  mkTable (cap t) (size t + 1) deleted (<[idx := makeH2 hsh]> (ctrl t)) (<[idx := Some (mkSlot k v)]> (slots t)).

(** [types/AtomicHashMap.hpp:173-191] Table::insert *)
Definition insert (t : Table) (k : Key) (v : V) (hsh : Z) : Table :=
  default t (probe t 1 (fun idx =>
    if (ctrl t !!! idx =? kEmpty) || (ctrl t !!! idx =? kDeleted) then Some (put t k v hsh idx) else None) (cap t) (home t hsh)).

(** [types/AtomicHashMap.hpp:193-210] Table::update *)
Definition update (t : Table) (k : Key) (v : V) (hsh : Z) : Table :=
  default t (probe t 1 (fun idx =>
    if holds t (makeH2 hsh) k idx
    then Some (mkTable (cap t) (size t) (deleted t) (ctrl t) (<[idx := Some (mkSlot k v)]> (slots t)))
    else if ctrl t !!! idx =? kEmpty then Some t else None) (cap t) (home t hsh)).

(** [types/AtomicHashMap.hpp:212-231] Table::erase *)
Definition erase (t : Table) (k : Key) (hsh : Z) : Table :=
  default t (probe t 1 (fun idx =>
    if holds t (makeH2 hsh) k idx
    then Some (mkTable (cap t) (size t - 1) (deleted t + 1) (<[idx := kDeleted]> (ctrl t)) (slots t))
    else if ctrl t !!! idx =? kEmpty then Some t else None) (cap t) (home t hsh)).

(** [types/AtomicHashMap.hpp:233-236] Table::needsResize *)
Definition needsResize (t : Table) : bool :=
  u64 (Z.of_nat (cap t) * LoadPct) <=? u64 ((size t + deleted t) * 100).

(** [types/AtomicHashMap.hpp:238-241] Table::slotOccupied *)
Definition slotOccupied (t : Table) (i : nat) : bool := ctrlOccupied (ctrl t !!! i).

(** ** The map: one table is current *)

(** [types/AtomicHashMap.hpp:563-573] AtomicHashMap::rehash_into *)
Definition rehash_into (src dst : Table) : Table :=
  foldl (fun dst i =>
    if slotOccupied src i
    then match slots src !!! i with Some s => insert dst (key s) (value s) (hash (key s)) | None => dst end
    else dst) dst (seq 0 (cap src)).

(** [types/AtomicHashMap.hpp:552-557] AtomicHashMap::grow *)
Definition grow (src : Table) : option Table :=
  dst ← make (u64 (Z.of_nat (cap src) * 2)); Some (rehash_into src dst).

(** [types/AtomicHashMap.hpp:365-372] AtomicHashMap::find *)
Definition lookup (t : Table) (k : Key) : option V := find t k (hash k).

(** [types/AtomicHashMap.hpp:453-473] AtomicHashMap::insert: whether the key was new, and the map *)
Definition map_insert (old : Table) (k : Key) (v : V) : option (bool * Table) :=
  let h := hash k in
  match find old k h with
  | Some _ => neo ← clone old; Some (false, update neo k v h)
  | None => neo ← (if needsResize old then grow old else clone old); Some (true, insert neo k v h)
  end.

(** [types/AtomicHashMap.hpp:484-497] AtomicHashMap::erase *)
Definition map_erase (old : Table) (k : Key) : option (bool * Table) :=
  let h := hash k in
  match find old k h with
  | None => Some (false, old)
  | Some _ => neo ← clone old; Some (true, erase neo k h)
  end.

(** [types/AtomicHashMap.hpp:505-510] AtomicHashMap::clear *)
Definition clear : option Table := make 16.

(** [types/AtomicHashMap.hpp:521-533] AtomicHashMap::reserve *)
Definition reserve (old : Table) (n : Z) : option Table :=
  let needed_cap := u64 (u64 (n * 100) + LoadPct - 1) / LoadPct in
  if needed_cap <=? Z.of_nat (cap old) then Some old
  else neo ← make needed_cap; Some (rehash_into old neo).

(** [types/AtomicHashMap.hpp:539-548] AtomicHashMap::rehash *)
Definition rehash (old : Table) : option Table :=
  if deleted old =? 0 then Some old
  else neo ← make (Z.of_nat (cap old)); Some (rehash_into old neo).

(** [types/AtomicHashMap.hpp:301-306] const_iterator::skip_empty: the first occupied slot from [idx] on *)
Fixpoint skip_empty (t : Table) (n idx : nat) : option nat :=
  match n with
  | O => None
  | S n => if (idx <? cap t)%nat then if slotOccupied t idx then Some idx else skip_empty t n (S idx) else None
  end.

(** [types/AtomicHashMap.hpp:299-299] const_iterator::advance, from the beginning to the end: the slots a snapshot
    shows *)
Fixpoint iterate (t : Table) (n idx : nat) : list nat :=
  match n with
  | O => []
  | S n => match skip_empty t (cap t) idx with Some i => i :: iterate t n (S i) | None => [] end
  end.

(** The operations of a map; one that throws leaves the map. *)
Inductive Op := OpInsert (k : Key) (v : V) | OpErase (k : Key) | OpClear | OpReserve (n : Z) | OpRehash.

Definition run_op (t : Table) (o : Op) : Table :=
  match o with
  | OpInsert k v => default t (snd <$> map_insert t k v)
  | OpErase k => default t (snd <$> map_erase t k)
  | OpClear => default t clear
  | OpReserve n => default t (reserve t n)
  | OpRehash => default t (rehash t)
  end.

(** [types/AtomicHashMap.hpp:343-345] AtomicHashMap::AtomicHashMap, and the maps a program can have *)
Inductive reach : Table -> Prop :=
  | reach_new n t : 0 <= n <= 2 ^ 63 -> make n = Some t -> reach t
  | reach_op t o : reach t -> reach (run_op t o).

End Map.

(** ** Powers of two and positions *)

Lemma land_pow2 x n : 0 <= n -> Z.land x (2 ^ n - 1) = x mod 2 ^ n.
Proof. intros. rewrite <- Z.land_ones by lia. f_equal. rewrite Z.ones_equiv. lia. Qed.

(** Position [i] of the cycle of [c] slots that starts at [b]. *)
Definition pos (c b i : nat) : nat := ((b + i) mod c)%nat.

Lemma pos_lt c b i : (0 < c)%nat -> (pos c b i < c)%nat.
Proof. intros. apply Nat.mod_upper_bound. lia. Qed.

Lemma pos_0 c b : (b < c)%nat -> pos c b 0 = b.
Proof. intros. unfold pos. rewrite Nat.add_0_r. by apply Nat.mod_small. Qed.

Lemma pos_add c b i j : (0 < c)%nat -> pos c (pos c b i) j = pos c b (i + j).
Proof. intros. unfold pos. rewrite Nat.Div0.add_mod_idemp_l. f_equal. lia. Qed.

Lemma pos_inj c b i j : (i < c)%nat -> (j < c)%nat -> pos c b i = pos c b j -> i = j.
Proof.
  unfold pos. intros Hi Hj He.
  pose proof (Nat.div_mod_eq (b + i) c) as Ei. pose proof (Nat.div_mod_eq (b + j) c) as Ej. rewrite He in Ei.
  assert ((b + i) / c = (b + j) / c)%nat; [|nia].
  assert (Hc : forall k, (k < c)%nat -> ((b + k) / c <= (b + i) / c + 1)%nat /\ ((b + i) / c <= (b + k) / c + 1)%nat).
  { intros k Hk. split; rewrite <- Nat.div_add with (b := 1%nat) by lia; apply Nat.Div0.div_le_mono; lia. }
  specialize (Hc j Hj). assert (Hd : ((b + i) / c = (b + j) / c \/ (b + i) / c = (b + j) / c + 1 \/ (b + j) / c = (b + i) / c + 1)%nat) by lia.
  destruct Hd as [?|[Hd|Hd]]; [done | |]; rewrite Hd in *; nia.
Qed.

Lemma pos_onto c b i : (b < c)%nat -> (i < c)%nat -> exists j, (j < c)%nat /\ pos c b j = i.
Proof.
  intros Hb Hi. destruct (decide (b <= i)%nat).
  - exists (i - b)%nat. split; [lia|]. unfold pos. rewrite <- (Nat.mod_small i c) at 2 by lia. f_equal. lia.
  - exists (i + c - b)%nat. split; [lia|]. unfold pos. replace (b + (i + c - b))%nat with (i + 1 * c)%nat by lia.
    rewrite Nat.Div0.mod_add. by apply Nat.mod_small.
Qed.

(** A position whose displacement is a multiple of 4 is reached in steps of 4,
    and no other when the cycle has a multiple of 4 slots. *)
Lemma pos_stride c b i j : (c mod 4 = 0)%nat -> (j < c)%nat -> pos c b (4 * i) = pos c b j -> (j mod 4 = 0)%nat.
Proof.
  intros Hc Hj He. assert (Hp : (0 < c)%nat) by lia. unfold pos in He.
  pose proof (Nat.div_mod_eq (b + 4 * i) c) as E1. pose proof (Nat.div_mod_eq (b + j) c) as E2. rewrite He in E1.
  pose proof (Nat.div_mod_eq c 4) as E3. rewrite Hc in E3.
  set (q := (c / 4)%nat) in *. set (x := ((b + 4 * i) / c)%nat) in *. set (y := ((b + j) / c)%nat) in *.
  assert (Hm : (j + 4 * (q * x) = 4 * i + 4 * (q * y))%nat) by nia.
  pose proof (Nat.div_mod_eq j 4). pose proof (Nat.mod_upper_bound j 4). lia.
Qed.

(** The bits of [y] are those of [m] spread [k] places down. *)
Definition smeared (m k y : Z) : Prop := forall i, 0 <= i -> Z.testbit y i = true <-> exists d, 0 <= d < k /\ Z.testbit m (i + d) = true.

Lemma smear_step m k s y : 0 <= s <= k -> smeared m k y -> smeared m (k + s) (Z.lor y (Z.shiftr y s)).
Proof.
  intros Hs Hy i Hi. rewrite Z.lor_spec, orb_true_iff, Z.shiftr_spec by lia. rewrite (Hy i Hi), (Hy (i + s)) by lia. split.
  - intros [(d & Hd & Hb)|(d & Hd & Hb)]; [exists d; split; [lia|done] | exists (s + d); split; [lia | by rewrite Z.add_assoc]].
  - intros (d & Hd & Hb). destruct (decide (d < k)); [left; exists d; split; [lia|done]|].
    right. exists (d - s). split; [lia|]. by replace (i + s + (d - s)) with (i + d) by lia.
Qed.

Lemma smeared_ones m y : 0 < m < 2 ^ 63 -> smeared m 64 y -> y = Z.ones (Z.log2 m + 1).
Proof.
  intros Hm Hy. pose proof (Z.log2_nonneg m). assert (Hl : Z.log2 m < 63) by (apply Z.log2_lt_pow2; lia).
  apply Z.bits_inj'. intros i Hi. apply eq_true_iff_eq. rewrite (Hy i Hi). rewrite Z.testbit_ones_nonneg by lia. split.
  - intros (d & Hd & Hb). apply Z.ltb_lt. destruct (decide (i + d <= Z.log2 m)); [lia|].
    rewrite Z.bits_above_log2 in Hb by lia. done.
  - intros Hlt%Z.ltb_lt. exists (Z.log2 m - i). split; [lia|]. replace (i + (Z.log2 m - i)) with (Z.log2 m) by lia. apply Z.bit_log2; lia.
Qed.

Lemma ceilPow2_spec x : x <= 2 ^ 63 -> exists n, 0 <= n <= 63 /\ ceilPow2 x = 2 ^ n /\ x <= 2 ^ n /\ (n = 0 \/ 2 ^ (n - 1) < x).
Proof.
  intros Hx. unfold ceilPow2. destruct (Z.leb_spec x 1); [exists 0; split; [lia|]; split; [done|]; lia|].
  set (m := x - 1). cbv zeta.
  assert (Hs : smeared m 1 m). { intros i Hi. split; [intros Hb; exists 0; rewrite Z.add_0_r; split; [lia|done] | intros (d & Hd & Hb); by replace (i + d) with i in Hb by lia]. }
  apply (smear_step _ _ 1) in Hs; [|lia]. apply (smear_step _ _ 2) in Hs; [|lia]. apply (smear_step _ _ 4) in Hs; [|lia].
  apply (smear_step _ _ 8) in Hs; [|lia]. apply (smear_step _ _ 16) in Hs; [|lia]. apply (smear_step _ _ 32) in Hs; [|lia].
  apply smeared_ones in Hs; [|lia]. rewrite Hs, Z.ones_equiv. exists (Z.log2 m + 1).
  assert (Hl : Z.log2 m < 63) by (apply Z.log2_lt_pow2; lia). pose proof (Z.log2_nonneg m). pose proof (Z.log2_spec m).
  pose proof (Z.pow_le_mono_r 2 (Z.log2 m + 1) 63). replace (Z.log2 m + 1 - 1) with (Z.log2 m) by lia.
  replace (Z.pred (2 ^ (Z.log2 m + 1)) + 1) with (2 ^ (Z.log2 m + 1)) by lia. rewrite wrap_small by (split; lia).
  split; [lia|]. split; [done|]. split; [lia|]. right. lia.
Qed.

Lemma ceilPow2_pow2 n : 0 <= n <= 63 -> ceilPow2 (2 ^ n) = 2 ^ n.
Proof.
  intros Hn. destruct (ceilPow2_spec (2 ^ n)) as (m & Hm & E & Hle & Hgt); [apply Z.pow_le_mono_r; lia|]. rewrite E. f_equal.
  apply Z.pow_le_mono_r_iff in Hle; [|lia|lia]. destruct Hgt as [->|Hgt]; [lia|]. apply Z.pow_lt_mono_r_iff in Hgt; lia.
Qed.

(** ** Counting control bytes *)

Definition count (P : Z -> bool) (l : list Z) : nat := length (filter (fun c => P c = true) l).

Lemma count_cons P c l : count P (c :: l) = (Nat.b2n (P c) + count P l)%nat.
Proof. unfold count. rewrite filter_cons. destruct (P c), (decide _); cbn; done || lia. Qed.

Lemma count_kind_insert P l i c d : l !! i = Some c -> (count P (<[i := d]> l) + Nat.b2n (P c) = count P l + Nat.b2n (P d))%nat.
Proof.
  revert i. induction l as [|a l IH]; intros [|i] Hi; cbn in Hi; [done|done| |].
  - injection Hi as ->. cbn [base.insert list_insert]. rewrite !count_cons. lia.
  - change (<[S i := d]> (a :: l)) with (a :: <[i := d]> l). rewrite !count_cons. specialize (IH i Hi). lia.
Qed.

Lemma count_replicate P n c : count P (replicate n c) = if P c then n else 0%nat.
Proof. induction n as [|n IH]; cbn [replicate]; [by destruct (P c)|]. rewrite count_cons, IH. destruct (P c); cbn; lia. Qed.

(** When there are fewer bytes with [P] than bytes, one is without. *)
Lemma count_lt P l : (count P l < length l)%nat -> exists i, (i < length l)%nat /\ P (l !!! i) = false.
Proof.
  induction l as [|c l IH]; [cbn; lia|]. rewrite count_cons. cbn [length]. destruct (P c) eqn:E; cbn [Nat.b2n].
  - intros H. destruct IH as (i & Hi & HP); [lia|]. exists (S i). split; [lia | done].
  - intros _. exists 0%nat. split; [lia | done].
Qed.

Lemma count_orb P Q l : (forall c, P c = true -> Q c = false) -> count (fun c => P c || Q c) l = (count P l + count Q l)%nat.
Proof.
  intros H. induction l as [|c l IH]; [done|]. rewrite !count_cons, IH. specialize (H c).
  destruct (P c), (Q c); cbn in *; lia || (by specialize (H eq_refl)).
Qed.

Lemma count_le P l : (count P l <= length l)%nat.
Proof. induction l as [|c l IH]; [done|]. rewrite count_cons. cbn. destruct (P c); cbn; lia. Qed.

Lemma lookup_total_insert_eq {A} `{Inhabited A} (l : list A) i x : (i < length l)%nat -> <[i := x]> l !!! i = x.
Proof. apply list_lookup_total_insert_eq. Qed.

Lemma lookup_total_insert_ne {A} `{Inhabited A} (l : list A) i j x : i <> j -> <[i := x]> l !!! j = l !!! j.
Proof. apply list_lookup_total_insert_ne. Qed.

Lemma lookup_total_at {A} `{Inhabited A} (l : list A) i : (i < length l)%nat -> l !! i = Some (l !!! i).
Proof. intros. by apply list_lookup_lookup_total_lt. Qed.

(** Control bytes that are not in use. *)
Definition free (c : Z) : bool := (c =? kEmpty) || (c =? kDeleted).

Lemma h2_occupied h : ctrlOccupied (makeH2 h) = true.
Proof.
  unfold ctrlOccupied, makeH2. rewrite <- Z.land_assoc. change (Z.land 127 128) with 0. by rewrite Z.land_0_r.
Qed.

Lemma occupied_not_free c : ctrlOccupied c = true -> free c = false.
Proof. unfold free. intros H. destruct (c =? kEmpty) eqn:E; zbools; [subst; discriminate|]. destruct (c =? kDeleted) eqn:E'; zbools; [subst; discriminate | done]. Qed.

Section Theory.
Context {Key V : Type} `{EqDecision Key} (hash : Key -> Z) (alloc : Z -> bool).
#[local] Abbreviation Table := (Table (Key := Key) (V := V)).
#[local] Abbreviation Slot := (Slot (Key := Key) (V := V)).

Definition cap_ok (t : Table) : Prop := exists n, 0 <= n /\ Z.of_nat (cap t) = 2 ^ n.

Lemma table_cap_pos t : cap_ok t -> (0 < cap t)%nat.
Proof. intros (n & ? & E). pose proof (Z.pow_pos_nonneg 2 n). lia. Qed.

Lemma home_lt (t : Table) h : cap_ok t -> (home t h < cap t)%nat.
Proof.
  intros Hc. pose proof (table_cap_pos _ Hc). destruct Hc as (n & ? & E). unfold home, mask. rewrite E, land_pow2 by done.
  pose proof (Z.mod_pos_bound h (2 ^ n)). lia.
Qed.

Lemma step_pos (t : Table) d idx : cap_ok t -> step t (Z.of_nat d) idx = pos (cap t) idx d.
Proof.
  intros Hc. pose proof (table_cap_pos _ Hc). destruct Hc as (n & ? & E). unfold step, mask, pos. rewrite E, land_pow2, <- E by done.
  by rewrite <- Nat2Z.inj_add, <- Nat2Z.inj_mod, Nat2Z.id.
Qed.

(** A loop has the result of the first slot that has one. *)
Lemma probe_some {R} (t : Table) d (body : nat -> option R) n b r :
  cap_ok t -> (b < cap t)%nat -> probe t (Z.of_nat d) body n b = Some r <->
  exists i, (i < n)%nat /\ body (pos (cap t) b (d * i)) = Some r /\ forall j, (j < i)%nat -> body (pos (cap t) b (d * j)) = None.
Proof.
  intros Hc Hb. pose proof (table_cap_pos _ Hc) as Hp. revert b Hb. induction n as [|n IH]; intros b Hb; cbn [probe].
  { split; [done|]. intros (i & ? & _). lia. }
  assert (Hstep : forall i, pos (cap t) (step t (Z.of_nat d) b) (d * i) = pos (cap t) b (d * S i)).
  { intros i. rewrite step_pos, pos_add by done. f_equal. lia. }
  destruct (body b) as [r'|] eqn:Eb.
  - split.
    + intros [= ->]. exists 0%nat. rewrite Nat.mul_0_r, pos_0 by done. split; [lia|]. split; [done | lia].
    + intros ([|i] & Hi & Hr & Hj); [rewrite Nat.mul_0_r, pos_0 in Hr by done; congruence|].
      specialize (Hj 0%nat). rewrite Nat.mul_0_r, pos_0 in Hj by done. rewrite Hj in Eb by lia. done.
  - rewrite IH by (rewrite step_pos by done; by apply pos_lt). split.
    + intros (i & Hi & Hr & Hj). exists (S i). rewrite <- Hstep. split; [lia|]. split; [done|].
      intros [|j] Hlt; [by rewrite Nat.mul_0_r, pos_0 | rewrite <- Hstep; apply Hj; lia].
    + intros ([|i] & Hi & Hr & Hj); [rewrite Nat.mul_0_r, pos_0 in Hr by done; congruence|].
      exists i. rewrite Hstep. split; [lia|]. split; [done|]. intros j Hlt. rewrite Hstep. apply Hj. lia.
Qed.

Lemma probe_none {R} (t : Table) d (body : nat -> option R) n b :
  cap_ok t -> (b < cap t)%nat -> probe t (Z.of_nat d) body n b = None <-> forall i, (i < n)%nat -> body (pos (cap t) b (d * i)) = None.
Proof.
  intros Hc Hb. split.
  - intros Hn i. induction i as [i IH] using lt_wf_ind. intros Hi. destruct (body (pos (cap t) b (d * i))) as [r|] eqn:E; [|done].
    assert (Hs : probe t (Z.of_nat d) body n b = Some r); [|congruence].
    apply probe_some; [done..|]. exists i. split; [done|]. split; [done|]. intros j Hj. apply IH; lia.
  - intros Ha. destruct (probe t (Z.of_nat d) body n b) as [r|] eqn:E; [|done].
    apply probe_some in E as (i & Hi & Hr & _); [|done..]. by rewrite Ha in Hr.
Qed.
(** ** Well-formed tables *)

(** Slot [j] of the probe sequence of a hash. *)
Definition at_ (t : Table) (h : Z) (j : nat) : nat := pos (cap t) (home t h) j.

(** Linear probing from the home of [h] meets no empty slot before slot [i]. *)
Definition path (t : Table) (h : Z) (i : nat) : Prop :=
  forall j j', (j < cap t)%nat -> at_ t h j = i -> (j' < j)%nat -> ctrl t !!! at_ t h j' <> kEmpty.

Record wf (t : Table) : Prop := mkWf {
  wf_cap : cap_ok t;
  wf_ctrl : length (ctrl t) = cap t;
  wf_slots : length (slots t) = cap t;
  wf_byte : forall i, (i < cap t)%nat -> slotOccupied t i = false -> free (ctrl t !!! i) = true;
  wf_size : size t = Z.of_nat (count ctrlOccupied (ctrl t));
  wf_deleted : deleted t = Z.of_nat (count (fun c => c =? kDeleted) (ctrl t));
  wf_entry : forall i, (i < cap t)%nat -> slotOccupied t i = true ->
    exists s, slots t !!! i = Some s /\ ctrl t !!! i = makeH2 (hash (key s)) /\ path t (hash (key s)) i }.

(** Slot [i] has an entry for [k]. *)
Definition hit (t : Table) (k : Key) (i : nat) : bool := holds t (makeH2 (hash k)) k i.

Lemma at_lt t h j : cap_ok t -> (at_ t h j < cap t)%nat.
Proof. intros Hc. by apply pos_lt, table_cap_pos. Qed.

Lemma hit_inv t k i : hit t k i = true -> slotOccupied t i = true /\ exists v, slots t !!! i = Some (mkSlot k v).
Proof.
  unfold hit, holds, slotOccupied. intros [He Hs]%andb_true_iff. zbools. rewrite He. split; [apply h2_occupied|].
  destruct (slots t !!! i) as [[k' v]|]; [|done]. apply bool_decide_eq_true in Hs as <-. by exists v.
Qed.

Lemma hit_intro t k i v : wf t -> (i < cap t)%nat -> slotOccupied t i = true -> slots t !!! i = Some (mkSlot k v) -> hit t k i = true.
Proof.
  intros Hw Hi Ho Hs. destruct (wf_entry _ Hw i Hi Ho) as (s & Hs' & Hc & _). rewrite Hs in Hs'. injection Hs' as <-.
  unfold hit, holds. rewrite Hc, Hs. cbn. rewrite Z.eqb_refl, bool_decide_true by done. done.
Qed.

Lemma hit_path t k i : wf t -> (i < cap t)%nat -> hit t k i = true -> path t (hash k) i.
Proof.
  intros Hw Hi (Ho & v & Hs)%hit_inv. destruct (wf_entry _ Hw i Hi Ho) as (s & Hs' & _ & Hp). rewrite Hs in Hs'. by injection Hs' as <-.
Qed.

Lemma first_true (P : nat -> bool) n :
  (exists j, (j < n)%nat /\ P j = true) -> exists j, (j < n)%nat /\ P j = true /\ forall j', (j' < j)%nat -> P j' = false.
Proof.
  intros (j & Hj & HP). revert Hj HP. induction j as [j IH] using lt_wf_ind. intros Hj HP.
  destruct (existsb P (seq 0 j)) eqn:E.
  - apply existsb_exists in E as (j' & Hin & HP'). apply in_seq in Hin. apply (IH j'); [lia|lia|done].
  - exists j. split; [done|]. split; [done|]. intros j' Hlt. destruct (P j') eqn:EP; [|done].
    rewrite <- E. symmetry. apply existsb_exists. exists j'. split; [apply in_seq; lia | done].
Qed.

(** Steps of 4 come back to where they were. *)
Lemma stride_norm (t : Table) b i : cap_ok t -> exists i', (i' <= i)%nat /\ (4 * i' < cap t)%nat /\ pos (cap t) b (4 * i) = pos (cap t) b (4 * i').
Proof.
  intros Hc. pose proof (table_cap_pos _ Hc). destruct Hc as (n & Hn & E).
  assert (Hcase : cap t = 1%nat \/ cap t = 2%nat \/ exists q, (0 < q)%nat /\ cap t = (4 * q)%nat).
  { destruct (decide (n = 0)) as [->|]; [left; lia|]. destruct (decide (n = 1)) as [->|]; [right; left; lia|].
    right; right. exists (Z.to_nat (2 ^ (n - 2))). replace (2 ^ n) with (4 * 2 ^ (n - 2)) in E.
    - pose proof (Z.pow_pos_nonneg 2 (n - 2)). lia.
    - replace 4 with (2 ^ 2) by done. rewrite <- Z.pow_add_r by lia. f_equal. lia. }
  unfold pos. destruct Hcase as [Hc|[Hc|(q & Hq & Hc)]]; rewrite Hc in *.
  - exists 0%nat. rewrite !Nat.mod_1_r. lia.
  - exists 0%nat. split; [lia|]. split; [lia|]. replace (b + 4 * i)%nat with (b + 4 * 0 + (2 * i) * 2)%nat by lia. apply Nat.Div0.mod_add.
  - exists (i mod q)%nat. pose proof (Nat.mod_upper_bound i q). pose proof (Nat.div_mod_eq i q). split; [nia|]. split; [lia|].
    replace (b + 4 * i)%nat with (b + 4 * (i mod q) + (i / q) * (4 * q))%nat by nia. apply Nat.Div0.mod_add.
Qed.

(** [find] gives the first entry of a key, in probing order, among those that
    are a multiple of four slots from its home. *)
Lemma find_some t k v : wf t ->
  lookup hash t k = Some v <->
  exists j, (4 * j < cap t)%nat /\ hit t k (at_ t (hash k) (4 * j)) = true /\ value <$> (slots t !!! at_ t (hash k) (4 * j)) = Some v /\
    forall j', (j' < j)%nat -> hit t k (at_ t (hash k) (4 * j')) = false.
Proof.
  intros Hw. pose proof (wf_cap _ Hw) as Hc. pose proof (home_lt t (hash k) Hc) as Hh. unfold lookup, find.
  change 4 with (Z.of_nat 4). split.
  - destruct (probe _ _ _ _ _) as [r|] eqn:E; [|done]. intros Hr. cbn [default from_option] in Hr. unfold id in Hr. subst r. apply probe_some in E as (i & Hi & Hb & Hj); [|done..].
    destruct (stride_norm t (home t (hash k)) i Hc) as (i' & Hle & Hlt & He). assert (i' = i) as ->.
    { destruct (decide (i' = i)); [done|]. specialize (Hj i'). rewrite <- He, Hb in Hj. assert (Hx : (i' < i)%nat) by lia. by specialize (Hj Hx). }
    fold (at_ t (hash k) (4 * i)) in Hb. destruct (_ =? kEmpty) eqn:Ee; [done|]. fold (hit t k (at_ t (hash k) (4 * i))) in Hb.
    destruct (hit t k _) eqn:Eh; [|done]. injection Hb as Hb. exists i. split; [lia|]. split; [done|]. split; [done|].
    intros j' Hlt'. specialize (Hj j' Hlt'). fold (at_ t (hash k) (4 * j')) in Hj. fold (hit t k (at_ t (hash k) (4 * j'))) in Hj.
    destruct (hit t k (at_ t (hash k) (4 * j'))); [|done]. by destruct (ctrl t !!! at_ t (hash k) (4 * j') =? kEmpty).
  - intros (j & Hj & Hh' & Hv & Hmin).
    assert (E : probe t (Z.of_nat 4) (fun idx => if ctrl t !!! idx =? kEmpty then Some None else
      if holds t (makeH2 (hash k)) k idx then Some (value <$> slots t !!! idx) else None) (cap t) (home t (hash k)) = Some (Some v)).
    { apply probe_some; [done..|]. exists j. fold (at_ t (hash k) (4 * j)). split; [lia|].
      assert (Hne : forall j', (j' <= j)%nat -> (ctrl t !!! at_ t (hash k) (4 * j') =? kEmpty) = false).
      { intros j' Hle. apply Z.eqb_neq. destruct (decide (j' = j)) as [->|].
        - intros Hx. apply hit_inv in Hh' as [Ho _]. unfold slotOccupied in Ho. rewrite Hx in Ho. done.
        - eapply (hit_path t k); [done | by apply at_lt | exact Hh' | | done | lia]. lia. }
      split.
      - rewrite Hne by lia. fold (hit t k (at_ t (hash k) (4 * j))). by rewrite Hh', Hv.
      - intros j' Hlt. fold (at_ t (hash k) (4 * j')). rewrite Hne by lia. fold (hit t k (at_ t (hash k) (4 * j'))). by rewrite Hmin. }
    by rewrite E.
Qed.

Lemma find_none t k : wf t ->
  lookup hash t k = None <-> forall j, (4 * j < cap t)%nat -> hit t k (at_ t (hash k) (4 * j)) = false.
Proof.
  intros Hw. split.
  - intros Hn j Hj. destruct (hit t k (at_ t (hash k) (4 * j))) eqn:E; [|done].
    destruct (first_true (fun j => (4 * j <? cap t)%nat && hit t k (at_ t (hash k) (4 * j))) (cap t)) as (m & Hm & HP & Hmin).
    { exists j. split; [lia|]. apply andb_true_iff. split; [by apply Nat.ltb_lt | done]. }
    apply andb_true_iff in HP as [Hlt HP]. apply Nat.ltb_lt in Hlt. destruct (hit_inv _ _ _ HP) as (_ & v & Hs).
    assert (lookup hash t k = Some v); [|congruence]. apply find_some; [done|]. exists m. split; [done|]. split; [done|].
    split; [by rewrite Hs|]. intros j' Hlt'. specialize (Hmin j' Hlt'). apply andb_false_iff in Hmin as [Hx|Hx]; [|done].
    apply Nat.ltb_ge in Hx. lia.
  - intros Ha. destruct (lookup hash t k) as [v|] eqn:E; [|done]. apply find_some in E as (j & Hj & Hx & _); [|done].
    by rewrite Ha in Hx.
Qed.
(** What a lookup sees depends on the entries of its key only. *)
Lemma find_ext t t' k : wf t -> wf t' -> cap t' = cap t ->
  (forall i, (i < cap t)%nat -> hit t' k i = hit t k i) ->
  (forall i, (i < cap t)%nat -> hit t k i = true -> slots t' !!! i = slots t !!! i) -> lookup hash t' k = lookup hash t k.
Proof.
  intros Hw Hw' Hc Hh Hs. assert (Ha : forall j, at_ t' (hash k) j = at_ t (hash k) j).
  { intros j. unfold at_, home, mask. by rewrite Hc. }
  pose proof (wf_cap _ Hw) as Hcap. destruct (lookup hash t k) as [v|] eqn:E.
  - apply find_some in E as (j & Hj & Hx & Hv & Hm); [|done]. apply find_some; [done|]. exists j. rewrite Hc, !Ha, Hh by (by apply at_lt).
    split; [done|]. split; [done|]. split; [by rewrite Hs by (by apply at_lt || done)|].
    intros j' Hlt. rewrite Ha, Hh by (by apply at_lt). auto.
  - apply find_none; [done|]. intros j Hj. rewrite Ha, Hh by (by apply at_lt). rewrite find_none in E by done. apply E. by rewrite Hc in Hj.
Qed.

(** *** Insertion *)

(** [j] is the displacement of the first slot that is free for a hash. *)
Definition first_free (t : Table) (h : Z) (j : nat) : Prop :=
  (j < cap t)%nat /\ free (ctrl t !!! at_ t h j) = true /\ forall j', (j' < j)%nat -> free (ctrl t !!! at_ t h j') = false.

Lemma first_free_ex t h : wf t -> size t < Z.of_nat (cap t) -> exists j, first_free t h j.
Proof.
  intros Hw Hr. pose proof (wf_cap _ Hw) as Hc. rewrite (wf_size _ Hw), <- (wf_ctrl _ Hw) in Hr.
  destruct (count_lt ctrlOccupied (ctrl t)) as (i & Hi & Ho); [lia|]. rewrite (wf_ctrl _ Hw) in Hi.
  destruct (pos_onto (cap t) (home t h) i) as (j & Hj & He); [by apply home_lt | done|].
  destruct (first_true (fun j => free (ctrl t !!! at_ t h j)) (cap t)) as (m & Hm & HP & Hmin).
  - exists j. split; [done|]. unfold at_. rewrite He. by apply (wf_byte _ Hw).
  - by exists m.
Qed.

Lemma insert_put t k v j : wf t -> first_free t (hash k) j ->
  insert t k v (hash k) = put t k v (hash k) (at_ t (hash k) j).
Proof.
  intros Hw (Hj & Hf & Hmin). unfold insert. change 1 with (Z.of_nat 1).
  pose proof (wf_cap _ Hw) as Hc. pose proof (home_lt t (hash k) Hc) as Hh.
  erewrite (proj2 (probe_some t 1 _ (cap t) (home t (hash k)) (put t k v (hash k) (at_ t (hash k) j)) Hc Hh)); [done|].
  exists j. split; [done|]. split.
  - rewrite Nat.mul_1_l. fold (at_ t (hash k) j). fold (free (ctrl t !!! at_ t (hash k) j)). by rewrite Hf.
  - intros j' Hlt. rewrite Nat.mul_1_l. fold (at_ t (hash k) j'). fold (free (ctrl t !!! at_ t (hash k) j')). by rewrite Hmin.
Qed.

Lemma at_put (t : Table) k v h h' i j : at_ (put t k v h i) h' j = at_ t h' j.
Proof. done. Qed.

Lemma put_ctrl_eq t k v h i : wf t -> (i < cap t)%nat -> ctrl (put t k v h i) !!! i = makeH2 h.
Proof. intros Hw Hi. apply lookup_total_insert_eq. by rewrite (wf_ctrl _ Hw). Qed.
Lemma put_ctrl_ne (t : Table) k v h i i' : i' <> i -> ctrl (put t k v h i) !!! i' = ctrl t !!! i'.
Proof. intros. by apply lookup_total_insert_ne. Qed.
Lemma put_slots_eq t k v h i : wf t -> (i < cap t)%nat -> slots (put t k v h i) !!! i = Some (mkSlot k v).
Proof. intros Hw Hi. apply lookup_total_insert_eq. by rewrite (wf_slots _ Hw). Qed.
Lemma put_slots_ne (t : Table) k v h i i' : i' <> i -> slots (put t k v h i) !!! i' = slots t !!! i'.
Proof. intros. by apply lookup_total_insert_ne. Qed.

Lemma hit_put t k v i k' i' : wf t -> (i < cap t)%nat -> free (ctrl t !!! i) = true ->
  hit (put t k v (hash k) i) k' i' = if (i' =? i)%nat then bool_decide (k' = k) else hit t k' i'.
Proof.
  intros Hw Hi Hf. destruct (Nat.eqb_spec i' i) as [->|Hne].
  - unfold hit, holds. rewrite put_ctrl_eq, put_slots_eq by done. cbn [key]. destruct (decide (k' = k)) as [->|Hk].
    + by rewrite Z.eqb_refl, !bool_decide_true.
    + rewrite (bool_decide_false (k = k')), (bool_decide_false (k' = k)) by congruence. apply andb_false_r.
  - unfold hit, holds. by rewrite put_ctrl_ne, put_slots_ne.
Qed.

(** An entry keeps its path when bytes only become non-empty. *)
Lemma path_mono t t' h i : cap t' = cap t ->
  (forall i', (i' < cap t)%nat -> ctrl t !!! i' <> kEmpty -> ctrl t' !!! i' <> kEmpty) -> cap_ok t -> path t h i -> path t' h i.
Proof.
  intros Hc Hm Hok Hp j j' Hj He Hlt. assert (Ha : forall j, at_ t' h j = at_ t h j) by (intros; unfold at_, home, mask; by rewrite Hc).
  rewrite Ha in *. rewrite Hc in Hj. apply Hm; [by apply at_lt|]. by eapply Hp.
Qed.

Lemma nonempty_h2 h : makeH2 h <> kEmpty.
Proof. intros E. pose proof (h2_occupied h) as H. rewrite E in H. done. Qed.

Lemma wf_put t k v j : wf t -> first_free t (hash k) j -> wf (put t k v (hash k) (at_ t (hash k) j)).
Proof.
  intros Hw (Hj & Hf & Hmin). pose proof (wf_cap _ Hw) as Hc. set (i := at_ t (hash k) j) in *.
  assert (Hi : (i < cap t)%nat) by (by apply at_lt). pose proof (lookup_total_at (ctrl t) i) as Hl. rewrite (wf_ctrl _ Hw) in Hl. specialize (Hl Hi).
  constructor.
  - done.
  - cbn. by rewrite length_insert, (wf_ctrl _ Hw).
  - cbn. by rewrite length_insert, (wf_slots _ Hw).
  - intros i' Hi'. unfold slotOccupied. destruct (decide (i' = i)) as [->|].
    + rewrite put_ctrl_eq, h2_occupied by done. done.
    + rewrite put_ctrl_ne by done. by apply (wf_byte _ Hw).
  - unfold put. cbn [size deleted ctrl]. pose proof (count_kind_insert ctrlOccupied (ctrl t) i _ (makeH2 (hash k)) Hl) as H. rewrite h2_occupied in H. rewrite (wf_size _ Hw).
    destruct (ctrlOccupied (ctrl t !!! i)) eqn:E; [by rewrite occupied_not_free in Hf|]. cbn in H. lia.
  - unfold put. cbn [size deleted ctrl]. pose proof (count_kind_insert (fun c => c =? kDeleted) (ctrl t) i _ (makeH2 (hash k)) Hl) as H. cbn beta in H.
    rewrite (wf_deleted _ Hw). assert (En : (makeH2 (hash k) =? kDeleted) = false).
    { apply Z.eqb_neq. intros E. pose proof (h2_occupied (hash k)) as Hx. rewrite E in Hx. done. }
    rewrite En in H. destruct (ctrl t !!! i =? kDeleted); cbn in H |- *; lia.
  - intros i' Hi' Ho. destruct (decide (i' = i)) as [->|Hne].
    + exists (mkSlot k v). rewrite put_slots_eq, put_ctrl_eq by done. split; [done|]. split; [done|]. cbn [key].
      intros m m' Hm He Hlt. rewrite !at_put in *. assert (m = j) as -> by (by eapply pos_inj).
      assert (Hne : at_ t (hash k) m' <> i). { intros Hx. assert (m' = j); [|lia]. eapply pos_inj; [|exact Hj|exact Hx]. lia. }
      rewrite put_ctrl_ne by done. intros Hx. specialize (Hmin m' Hlt). by rewrite Hx in Hmin.
    + unfold slotOccupied in Ho. rewrite put_ctrl_ne in Ho by done. destruct (wf_entry _ Hw i' Hi' Ho) as (s & Hs & Hcs & Hp).
      exists s. rewrite put_slots_ne, put_ctrl_ne by done. split; [done|]. split; [done|]. apply (path_mono t); [done| |done|exact Hp].
      intros x Hx Hxe. destruct (decide (x = i)) as [->|]; [rewrite put_ctrl_eq by done; apply nonempty_h2 | by rewrite put_ctrl_ne].
Qed.

(** What lookups find after an insertion. *)
Lemma find_put t k v j : wf t -> first_free t (hash k) j -> lookup hash t k = None ->
  lookup hash (put t k v (hash k) (at_ t (hash k) j)) k = if (j mod 4 =? 0)%nat then Some v else None.
Proof.
  intros Hw Hff Hn. pose proof (wf_put t k v j Hw Hff) as Hw'. destruct Hff as (Hj & Hf & Hmin). pose proof (wf_cap _ Hw) as Hc.
  rewrite find_none in Hn by done. assert (Hi : (at_ t (hash k) j < cap t)%nat) by (by apply at_lt).
  assert (Hat : forall m, (m < cap t)%nat -> (at_ t (hash k) m =? at_ t (hash k) j)%nat = (m =? j)%nat).
  { intros m Hm. destruct (Nat.eqb_spec m j) as [->|Hne]; [apply Nat.eqb_refl|]. apply Nat.eqb_neq. intros Hx. apply Hne. by eapply pos_inj. }
  destruct (Nat.eqb_spec (j mod 4) 0) as [Hd|Hd].
  - pose proof (Nat.div_mod_eq j 4) as Ed. rewrite Hd in Ed. apply find_some; [done|]. exists (j / 4)%nat. rewrite at_put.
    replace (4 * (j / 4))%nat with j by lia. split; [done|]. rewrite hit_put, Nat.eqb_refl, bool_decide_true by done. split; [done|].
    split; [by rewrite put_slots_eq|]. intros j' Hlt. rewrite at_put, hit_put, Hat by (done || lia).
    destruct (Nat.eqb_spec (4 * j') j); [lia|]. apply Hn. lia.
  - apply find_none; [done|]. intros m Hm. cbn [cap put] in Hm. rewrite at_put, hit_put, Hat by done.
    destruct (Nat.eqb_spec (4 * m) j) as [<-|]; [|by apply Hn]. exfalso. apply Hd. by rewrite Nat.mul_comm, Nat.Div0.mod_mul.
Qed.

Lemma find_put_ne t k v j k' : wf t -> first_free t (hash k) j -> k' <> k ->
  lookup hash (put t k v (hash k) (at_ t (hash k) j)) k' = lookup hash t k'.
Proof.
  intros Hw Hff Hk. pose proof (wf_put t k v j Hw Hff) as Hw'. destruct Hff as (Hj & Hf & _).
  assert (Hi : (at_ t (hash k) j < cap t)%nat) by (by apply at_lt, wf_cap).
  assert (Hno : hit t k' (at_ t (hash k) j) = false).
  { destruct (hit t k' _) eqn:E; [|done]. apply hit_inv in E as [Ho _]. by rewrite occupied_not_free in Hf. }
  apply find_ext; [done..| |].
  - intros i Hlt. rewrite hit_put by done. destruct (Nat.eqb_spec i (at_ t (hash k) j)) as [->|]; [|done]. by rewrite Hno, bool_decide_false.
  - intros i Hlt Hh. apply put_slots_ne. intros ->. by rewrite Hno in Hh.
Qed.

(** *** The first entry of a key *)

Definition first_hit (t : Table) (k : Key) (j : nat) : Prop :=
  (j < cap t)%nat /\ hit t k (at_ t (hash k) j) = true /\ forall j', (j' < j)%nat -> hit t k (at_ t (hash k) j') = false.

Lemma first_hit_ex t k v : wf t -> lookup hash t k = Some v -> exists j, first_hit t k j.
Proof.
  intros Hw (j & Hj & Hh & _)%find_some; [|done].
  destruct (first_true (fun j => hit t k (at_ t (hash k) j)) (cap t)) as (m & Hm & HP & Hmin); [by exists (4 * j)%nat|]. by exists m.
Qed.

(** [update] and [erase] come to the first entry. *)
Lemma probe_first_hit (t : Table) k j (f : nat -> Table) : wf t -> first_hit t k j ->
  probe t 1 (fun idx => if holds t (makeH2 (hash k)) k idx then Some (f idx) else if ctrl t !!! idx =? kEmpty then Some t else None)
    (cap t) (home t (hash k)) = Some (f (at_ t (hash k) j)).
Proof.
  intros Hw (Hj & Hh & Hmin). pose proof (wf_cap _ Hw) as Hc. pose proof (home_lt t (hash k) Hc) as Hb. change 1 with (Z.of_nat 1).
  apply probe_some; [done..|]. exists j. split; [done|]. split.
  - rewrite Nat.mul_1_l. fold (at_ t (hash k) j). fold (hit t k (at_ t (hash k) j)). by rewrite Hh.
  - intros j' Hlt. rewrite Nat.mul_1_l. fold (at_ t (hash k) j'). fold (hit t k (at_ t (hash k) j')). rewrite Hmin by done.
    assert (He : ctrl t !!! at_ t (hash k) j' <> kEmpty); [|by rewrite (proj2 (Z.eqb_neq _ _) He)].
    eapply hit_path; [done | by apply at_lt | exact Hh | exact Hj | done | done].
Qed.

(** The table that [erase] makes, and the one that [update] makes. *)
Definition erased (t : Table) (i : nat) : Table := mkTable (cap t) (size t - 1) (deleted t + 1) (<[i := kDeleted]> (ctrl t)) (slots t).
Definition updated (t : Table) (k : Key) (v : V) (i : nat) : Table :=
  mkTable (cap t) (size t) (deleted t) (ctrl t) (<[i := Some (mkSlot k v)]> (slots t)).

Lemma erase_first t k j : wf t -> first_hit t k j -> erase t k (hash k) = erased t (at_ t (hash k) j).
Proof. intros Hw Hf. exact (f_equal (default t) (probe_first_hit t k j (erased t) Hw Hf)). Qed.

Lemma update_first t k v j : wf t -> first_hit t k j -> update t k v (hash k) = updated t k v (at_ t (hash k) j).
Proof. intros Hw Hf. exact (f_equal (default t) (probe_first_hit t k j (updated t k v) Hw Hf)). Qed.

Lemma hit_erased (t : Table) i k' i' : wf t -> (i < cap t)%nat -> hit (erased t i) k' i' = negb (i' =? i)%nat && hit t k' i'.
Proof.
  intros Hw Hi. unfold hit, holds. cbn [ctrl slots erased]. destruct (Nat.eqb_spec i' i) as [->|Hne].
  - rewrite lookup_total_insert_eq by (by rewrite (wf_ctrl _ Hw)). cbn [negb andb].
    destruct (Z.eqb_spec kDeleted (makeH2 (hash k'))) as [E|]; [|done]. pose proof (h2_occupied (hash k')) as Hx. by rewrite <- E in Hx.
  - by rewrite lookup_total_insert_ne.
Qed.

Lemma wf_erased t i k : wf t -> (i < cap t)%nat -> hit t k i = true -> wf (erased t i).
Proof.
  intros Hw Hi Hh. pose proof (wf_cap _ Hw) as Hc. pose proof (lookup_total_at (ctrl t) i) as Hl. rewrite (wf_ctrl _ Hw) in Hl. specialize (Hl Hi).
  apply hit_inv in Hh as [Ho _]. unfold slotOccupied in Ho.
  assert (Hne : forall i', i' <> i -> ctrl (erased t i) !!! i' = ctrl t !!! i') by (intros; by apply lookup_total_insert_ne).
  assert (Heq : ctrl (erased t i) !!! i = kDeleted) by (apply lookup_total_insert_eq; by rewrite (wf_ctrl _ Hw)).
  constructor.
  - done.
  - cbn. by rewrite length_insert, (wf_ctrl _ Hw).
  - apply (wf_slots _ Hw).
  - intros i' Hi'. unfold slotOccupied. destruct (decide (i' = i)) as [->|]; [by rewrite Heq|]. rewrite Hne by done. by apply (wf_byte _ Hw).
  - unfold erased. cbn [size ctrl]. pose proof (count_kind_insert ctrlOccupied (ctrl t) i _ kDeleted Hl) as H. rewrite Ho in H.
    rewrite (wf_size _ Hw). change (ctrlOccupied kDeleted) with false in H. cbn [Nat.b2n] in H. lia.
  - unfold erased. cbn [deleted ctrl]. pose proof (count_kind_insert (fun c => c =? kDeleted) (ctrl t) i _ kDeleted Hl) as H. cbn beta in H.
    rewrite (wf_deleted _ Hw). rewrite Z.eqb_refl in H. destruct (Z.eqb_spec (ctrl t !!! i) kDeleted) as [E|]; [by rewrite E in Ho|]. cbn in H. lia.
  - intros i' Hi' Ho'. unfold slotOccupied in Ho'. destruct (decide (i' = i)) as [->|Hn]; [by rewrite Heq in Ho'|]. rewrite Hne in * by done.
    destruct (wf_entry _ Hw i' Hi' Ho') as (s & Hs & Hcs & Hp). exists s. split; [done|]. split; [done|]. apply (path_mono t); [done| |done|exact Hp].
    intros x Hx Hxe. destruct (decide (x = i)) as [->|]; [by rewrite Heq | by rewrite Hne].
Qed.

Lemma wf_updated t k v i : wf t -> (i < cap t)%nat -> hit t k i = true -> wf (updated t k v i).
Proof.
  intros Hw Hi Hh. pose proof (hit_inv _ _ _ Hh) as (Ho & v' & Hs).
  destruct Hw as [Hc Hl1 Hl2 Hb Hsz Hd He]. constructor; try done.
  - cbn. by rewrite length_insert.
  - intros i' Hi' Ho'. change (ctrl (updated t k v i)) with (ctrl t). destruct (He i' Hi' Ho') as (s & Hs' & Hcs & Hp).
    destruct (decide (i' = i)) as [->|].
    + exists (mkSlot k v). rewrite Hs in Hs'. injection Hs' as <-. split; [apply lookup_total_insert_eq; by rewrite Hl2|]. by split.
    + exists s. split; [by rewrite <- Hs'; apply lookup_total_insert_ne|]. by split.
Qed.

Lemma hit_updated t k v i k' i' : wf t -> (i < cap t)%nat -> hit t k i = true -> hit (updated t k v i) k' i' = hit t k' i'.
Proof.
  intros Hw Hi (Ho & v' & Hs)%hit_inv. unfold hit, holds. cbn [ctrl slots updated]. destruct (decide (i' = i)) as [->|].
  - rewrite lookup_total_insert_eq by (by rewrite (wf_slots _ Hw)). by rewrite Hs.
  - by rewrite lookup_total_insert_ne.
Qed.

(** What lookups of other keys find after [erase] and [update]. *)
Lemma find_erased_ne t i k k' : wf t -> (i < cap t)%nat -> hit t k i = true -> k' <> k -> lookup hash (erased t i) k' = lookup hash t k'.
Proof.
  intros Hw Hi Hh Hk. apply find_ext; [done | by eapply wf_erased | done | | done].
  intros i' _. rewrite hit_erased by done. destruct (Nat.eqb_spec i' i) as [->|]; [|done].
  destruct (hit t k' i) eqn:E; [|done]. apply hit_inv in Hh as (_ & ? & Hs). apply hit_inv in E as (_ & ? & Hs'). congruence.
Qed.

Lemma find_updated_ne t i k v k' : wf t -> (i < cap t)%nat -> hit t k i = true -> k' <> k -> lookup hash (updated t k v i) k' = lookup hash t k'.
Proof.
  intros Hw Hi Hh Hk. apply find_ext; [done | by eapply wf_updated | done | intros; by apply hit_updated |].
  intros i' _ Hh'. apply lookup_total_insert_ne. intros ->. apply hit_inv in Hh as (_ & ? & Hs). apply hit_inv in Hh' as (_ & ? & Hs'). congruence.
Qed.

(** Erasing uncovers the entries behind the first one: a lookup still finds the
    key unless the first entry is the one it sees. *)
Lemma find_erased t k j : wf t -> first_hit t k j ->
  (exists v, lookup hash (erased t (at_ t (hash k) j)) k = Some v) <->
  exists m, (4 * m < cap t)%nat /\ (4 * m <> j)%nat /\ hit t k (at_ t (hash k) (4 * m)) = true.
Proof.
  intros Hw Hf. pose proof Hf as (Hj & Hh & Hmin). pose proof (wf_cap _ Hw) as Hc. set (i := at_ t (hash k) j) in *.
  assert (Hi : (i < cap t)%nat) by (by apply at_lt). assert (Hw' : wf (erased t i)) by (by eapply wf_erased).
  assert (Hx : forall m, (4 * m < cap t)%nat -> hit (erased t i) k (at_ t (hash k) (4 * m)) = true <-> (4 * m <> j)%nat /\ hit t k (at_ t (hash k) (4 * m)) = true).
  { intros m Hm. rewrite hit_erased by done. rewrite andb_true_iff, negb_true_iff, Nat.eqb_neq. split; intros [Hne ?]; (split; [|done]).
    - intros <-. by apply Hne.
    - intros He. apply Hne. by eapply pos_inj. }
  split.
  - intros (v & Hv). apply find_some in Hv as (m & Hm & Hhm & _); [|done]. exists m. split; [done|]. by apply Hx.
  - intros (m & Hm & Hne & Hhm). destruct (lookup hash (erased t i) k) as [v|] eqn:E; [by exists v|]. rewrite find_none in E by done.
    specialize (E m Hm). change (at_ (erased t i)) with (at_ t) in E. rewrite (proj2 (Hx m Hm)) in E by done. done.
Qed.

(** *** Making and refilling tables *)

(** The address space of an x86-64 process has 2^57 bytes. *)
Context (alloc_bound : forall n, alloc n = true -> n < 2 ^ 57).

Record fresh (t : Table) : Prop := mkFresh {
  fresh_wf : wf t;
  fresh_size : size t = 0;
  fresh_deleted : deleted t = 0;
  fresh_free : forall i, (i < cap t)%nat -> slotOccupied t i = false }.

Lemma make_spec n t : n <= 2 ^ 63 -> make (V := V) alloc n = Some t -> fresh t /\ n <= Z.of_nat (cap t) /\ Z.of_nat (cap t) = ceilPow2 n /\ Z.of_nat (cap t) < 2 ^ 57.
Proof.
  intros Hn Hm. unfold make in Hm. destruct (alloc (ceilPow2 n)) eqn:E; [|done]. injection Hm as <-. apply alloc_bound in E.
  destruct (ceilPow2_spec n Hn) as (m & Hm & Hp & Hle & _). rewrite Hp in *. pose proof (Z.pow_pos_nonneg 2 m).
  split; [|cbn [cap]; lia]. assert (Hl : forall i, (i < Z.to_nat (2 ^ m))%nat -> replicate (Z.to_nat (2 ^ m)) kEmpty !!! i = kEmpty)
    by (intros; by apply lookup_total_replicate_2). constructor; [constructor| | |]; cbn [cap size deleted ctrl slots].
  - exists m. cbn [cap]. lia.
  - apply length_replicate.
  - apply length_replicate.
  - intros i Hi _. by rewrite Hl.
  - by rewrite count_replicate.
  - by rewrite count_replicate.
  - intros i Hi Ho. unfold slotOccupied in Ho. cbn [ctrl] in Ho. by rewrite Hl in Ho.
  - done.
  - done.
  - intros i Hi. unfold slotOccupied. cbn [ctrl]. by rewrite Hl.
Qed.

Lemma size_put (t : Table) k v h i : size (put t k v h i) = size t + 1.
Proof. done. Qed.

Lemma count_take P (l : list Z) n : (n < length l)%nat -> count P (take (S n) l) = (count P (take n l) + Nat.b2n (P (l !!! n)))%nat.
Proof.
  intros Hn. rewrite (take_S_r l n (l !!! n)) by (by apply list_lookup_lookup_total_lt). unfold count. rewrite filter_app, length_app. f_equal.
  rewrite filter_cons. destruct (P (l !!! n)), (decide _); done.
Qed.

(** One turn of [rehash_into]. *)
Definition refill (src dst : Table) (i : nat) : Table :=
  if slotOccupied src i then match slots src !!! i with Some s => insert dst (key s) (value s) (hash (key s)) | None => dst end else dst.

Definition refilled (src dst : Table) (n : nat) : Table := foldl (refill src) dst (seq 0 n).

Lemma refilled_S src dst n : refilled src dst (S n) = refill src (refilled src dst n) n.
Proof. unfold refilled. by rewrite seq_S, foldl_app. Qed.

Lemma refilled_spec src dst n : wf src -> fresh dst -> (cap src <= cap dst)%nat -> (n <= cap src)%nat ->
  wf (refilled src dst n) /\ cap (refilled src dst n) = cap dst /\ size (refilled src dst n) = Z.of_nat (count ctrlOccupied (take n (ctrl src))).
Proof.
  intros Hs Hd Hc. induction n as [|n IH]; intros Hn; [by destruct Hd|]. destruct IH as (Hw & Hcap & Hsz); [lia|].
  rewrite refilled_S, count_take by (rewrite (wf_ctrl _ Hs); lia). unfold refill. fold (slotOccupied src n).
  destruct (slotOccupied src n) eqn:Ho; [|cbn; by rewrite Nat.add_0_r].
  destruct (wf_entry _ Hs n ltac:(lia) Ho) as (s & -> & _). set (d := refilled src dst n) in *.
  destruct (first_free_ex d (hash (key s))) as (j & Hj); [done| |].
  { rewrite Hsz, Hcap. pose proof (count_le ctrlOccupied (take n (ctrl src))) as Hle. rewrite length_take in Hle. lia. }
  rewrite (insert_put d _ _ j) by done. split; [by apply wf_put|]. split; [done|]. rewrite size_put, Hsz. cbn. lia.
Qed.

Lemma rehash_into_spec src dst : wf src -> fresh dst -> (cap src <= cap dst)%nat ->
  wf (rehash_into hash src dst) /\ cap (rehash_into hash src dst) = cap dst /\ size (rehash_into hash src dst) = size src.
Proof.
  intros Hs Hd Hc. destruct (refilled_spec src dst (cap src) Hs Hd Hc) as (Hw & Hcap & Hsz); [done|]. split; [exact Hw|]. split; [exact Hcap|].
  rewrite (wf_size _ Hs). etransitivity; [exact Hsz|]. by rewrite take_ge by (by rewrite (wf_ctrl _ Hs)).
Qed.

(** *** Every insertion finds room *)

Lemma counts_bound t : wf t -> 0 <= size t /\ 0 <= deleted t /\ size t + deleted t <= Z.of_nat (cap t).
Proof.
  intros Hw. rewrite (wf_size _ Hw), (wf_deleted _ Hw), <- (wf_ctrl _ Hw).
  pose proof (count_le (fun c => ctrlOccupied c || (c =? kDeleted)) (ctrl t)) as H. rewrite count_orb in H; [lia|].
  intros c Hc. destruct (Z.eqb_spec c kDeleted) as [->|]; done.
Qed.

Lemma no_resize_room t : wf t -> Z.of_nat (cap t) < 2 ^ 57 -> needsResize t = false -> size t < Z.of_nat (cap t).
Proof.
  intros Hw Hc Hr. unfold needsResize, LoadPct in Hr. apply Z.leb_gt in Hr. pose proof (counts_bound t Hw) as (Hs & Hd & Hsd).
  rewrite !wrap_small in Hr by (split; lia). lia.
Qed.

Lemma grow_spec t t' : wf t -> Z.of_nat (cap t) < 2 ^ 57 -> grow hash alloc t = Some t' ->
  exists dst, fresh dst /\ cap dst = (2 * cap t)%nat /\ Z.of_nat (cap dst) < 2 ^ 57 /\ t' = rehash_into hash t dst.
Proof.
  intros Hw Hc Hg. unfold grow in Hg. destruct (make _ _) as [dst|] eqn:E; [|done]. injection Hg as <-.
  rewrite wrap_small in E by (split; lia). apply make_spec in E as (Hf & _ & Hcap & Hb); [|lia]. exists dst. split; [done|]. split; [|done].
  destruct (wf_cap _ Hw) as (n & Hn & En). rewrite En in *. replace (2 ^ n * 2) with (2 ^ (n + 1)) in Hcap by (rewrite Z.pow_add_r; lia).
  assert (n < 57) by (apply (Z.pow_lt_mono_r_iff 2); lia). rewrite ceilPow2_pow2, Z.pow_add_r in Hcap by lia. lia.
Qed.

(** The table that an insertion of a new key goes to has room. *)
Lemma insert_target t n : wf t -> Z.of_nat (cap t) < 2 ^ 57 ->
  (if needsResize t then grow hash alloc t else clone alloc t) = Some n ->
  wf n /\ Z.of_nat (cap n) < 2 ^ 57 /\ size n = size t /\ size n < Z.of_nat (cap n).
Proof.
  intros Hw Hc. destruct (needsResize t) eqn:E.
  - intros (dst & Hf & Hcap & Hb & ->)%grow_spec; [|done..]. destruct (rehash_into_spec t dst Hw Hf) as (Hw' & Hc' & Hs); [lia|].
    split; [done|]. rewrite Hc', Hs. split; [done|]. split; [done|]. pose proof (counts_bound t Hw). pose proof (table_cap_pos t (wf_cap _ Hw)). lia.
  - unfold clone. destruct (alloc _); [|done]. intros [= <-]. split; [done|]. split; [done|]. split; [done|]. by apply no_resize_room.
Qed.

(** ** What the operations do *)

Lemma insert_old t k v v0 r : wf t -> lookup hash t k = Some v0 -> map_insert hash alloc t k v = Some r ->
  exists j, first_hit t k j /\ r = (false, updated t k v (at_ t (hash k) j)).
Proof.
  intros Hw Hl Hi. destruct (first_hit_ex t k v0 Hw Hl) as (j & Hj). exists j. split; [done|].
  unfold map_insert in Hi. unfold lookup in Hl. rewrite Hl in Hi. unfold clone in Hi. destruct (alloc _); [|done].
  injection Hi as <-. by rewrite (update_first t k v j).
Qed.

Lemma insert_new t k v r : wf t -> Z.of_nat (cap t) < 2 ^ 57 -> lookup hash t k = None -> map_insert hash alloc t k v = Some r ->
  exists n j, (if needsResize t then grow hash alloc t else clone alloc t) = Some n /\ wf n /\ Z.of_nat (cap n) < 2 ^ 57 /\ size n = size t /\
    first_free n (hash k) j /\ r = (true, put n k v (hash k) (at_ n (hash k) j)).
Proof.
  intros Hw Hc Hl Hi. unfold map_insert in Hi. unfold lookup in Hl. rewrite Hl in Hi.
  destruct (if needsResize t then _ else _) as [n|] eqn:E; [|done]. injection Hi as <-.
  destruct (insert_target t n Hw Hc E) as (Hwn & Hcn & Hsn & Hr). destruct (first_free_ex n (hash k) Hwn Hr) as (j & Hj).
  exists n, j. by rewrite (insert_put n k v j).
Qed.

Lemma erase_old t k v0 r : wf t -> lookup hash t k = Some v0 -> map_erase hash alloc t k = Some r ->
  exists j, first_hit t k j /\ r = (true, erased t (at_ t (hash k) j)).
Proof.
  intros Hw Hl Hi. destruct (first_hit_ex t k v0 Hw Hl) as (j & Hj). exists j. split; [done|].
  unfold map_erase in Hi. unfold lookup in Hl. rewrite Hl in Hi. unfold clone in Hi. destruct (alloc _); [|done].
  injection Hi as <-. by rewrite (erase_first t k j).
Qed.

Lemma first_hit_lt t k j : wf t -> first_hit t k j -> (at_ t (hash k) j < cap t)%nat /\ hit t k (at_ t (hash k) j) = true.
Proof. intros Hw (Hj & Hh & _). split; [by apply at_lt, wf_cap | done]. Qed.

Definition good (t : Table) : Prop := wf t /\ Z.of_nat (cap t) < 2 ^ 57.

Lemma refilled_good src dst : good src -> fresh dst -> (cap src <= cap dst)%nat -> Z.of_nat (cap dst) < 2 ^ 57 -> good (rehash_into hash src dst).
Proof. intros [Hw _] Hf Hc Hb. destruct (rehash_into_spec src dst Hw Hf Hc) as (Hw' & Hc' & _). split; [done | by rewrite Hc']. Qed.

Lemma reserved_spec t n t' : good t -> reserve hash alloc t n = Some t' ->
  t' = t \/ exists dst, fresh dst /\ (cap t <= cap dst)%nat /\ Z.of_nat (cap dst) < 2 ^ 57 /\ t' = rehash_into hash t dst.
Proof.
  intros [Hw Hc]. unfold reserve, LoadPct. destruct (Z.leb_spec (u64 (u64 (n * 100) + 75 - 1) / 75) (Z.of_nat (cap t))); [intros [= <-]; by left|].
  set (need := u64 _ / 75) in *. assert (Hn : need <= 2 ^ 63).
  { pose proof (wrap_in_width 64 (u64 (n * 100) + 75 - 1)) as [? ?]; [lia|]. unfold need.
    transitivity (2 ^ 64 / 75); [apply Z.div_le_mono; lia | by compute]. }
  destruct (make _ _) as [dst|] eqn:E; [|done]. intros [= <-]. right. apply make_spec in E as (Hf & Hle & _ & Hb); [|done].
  exists dst. split; [done|]. split; [lia|]. done.
Qed.

Lemma rehash_spec t t' : good t -> rehash hash alloc t = Some t' ->
  t' = t \/ exists dst, fresh dst /\ (cap t <= cap dst)%nat /\ Z.of_nat (cap dst) < 2 ^ 57 /\ t' = rehash_into hash t dst.
Proof.
  intros [Hw Hc]. unfold rehash. destruct (deleted t =? 0); [intros [= <-]; by left|].
  destruct (make _ _) as [dst|] eqn:E; [|done]. intros [= <-]. right. apply make_spec in E as (Hf & Hle & _ & Hb); [|lia].
  exists dst. split; [done|]. split; [lia|]. done.
Qed.

Lemma run_op_good t o : good t -> good (run_op hash alloc t o).
Proof.
  intros Hg. pose proof Hg as [Hw Hc]. destruct o as [k v|k| |n|]; cbn [run_op].
  - destruct (map_insert hash alloc t k v) as [r|] eqn:E; [|done]. cbn. destruct (lookup hash t k) as [v0|] eqn:El.
    + apply (insert_old t k v v0) in E as (j & Hj & ->); [|done..]. destruct (first_hit_lt t k j Hw Hj). split; [by apply wf_updated | done].
    + apply insert_new in E as (n & j & _ & Hwn & Hcn & _ & Hj & ->); [|done..]. split; [by apply wf_put | done].
  - destruct (map_erase hash alloc t k) as [r|] eqn:E; [|done]. cbn. destruct (lookup hash t k) as [v0|] eqn:El.
    + apply (erase_old t k v0) in E as (j & Hj & ->); [|done..]. destruct (first_hit_lt t k j Hw Hj). split; [by eapply wf_erased | done].
    + unfold map_erase in E. unfold lookup in El. rewrite El in E. by injection E as <-.
  - destruct (clear alloc) as [t'|] eqn:E; [|done]. apply make_spec in E as (Hf & _ & _ & Hb); [|done]. split; [apply Hf | done].
  - destruct (reserve hash alloc t n) as [t'|] eqn:E; [|done]. cbn. apply reserved_spec in E as [->|(d & Hf & Hle & Hb & ->)]; [done | by apply refilled_good | done].
  - destruct (rehash hash alloc t) as [t'|] eqn:E; [|done]. cbn. apply rehash_spec in E as [->|(d & Hf & Hle & Hb & ->)]; [done | by apply refilled_good | done].
Qed.

Lemma reach_good t : reach hash alloc t -> good t.
Proof.
  induction 1 as [n t Hn Hm|t o _ IH]; [|by apply run_op_good]. apply make_spec in Hm as (Hf & _ & _ & Hb); [|lia]. split; [apply Hf | done].
Qed.

(** C29: What an insertion of a key that is not found does, exactly, when the
    table does not grow and the node can be allocated: the entry goes to the
    first free slot from the key's home, and a lookup finds it if and only if
    that slot is a multiple of four slots away, since lookups go four slots at a
    time. Lookups of other keys find what they found. *)
Theorem insert_found_iff_aligned t k v :
  reach hash alloc t -> lookup hash t k = None -> needsResize t = false -> alloc (Z.of_nat (cap t)) = true ->
  exists j t', first_free t (hash k) j /\ map_insert hash alloc t k v = Some (true, t') /\
    lookup hash t' k = (if (j mod 4 =? 0)%nat then Some v else None) /\ (forall k', k' <> k -> lookup hash t' k' = lookup hash t k').
Proof.
  intros [Hw Hc]%reach_good Hl Hr Ha.
  assert (E : exists r, map_insert hash alloc t k v = Some r).
  { unfold map_insert. unfold lookup in Hl. rewrite Hl, Hr. unfold clone. rewrite Ha. by eexists. }
  destruct E as (r & E). destruct (insert_new t k v r Hw Hc Hl E) as (n & j & En & _ & _ & _ & Hj & ->).
  rewrite Hr in En. unfold clone in En. rewrite Ha in En. injection En as <-.
  exists j. eexists. split; [done|]. split; [exact E|]. split; [by apply find_put | intros; by apply find_put_ne].
Qed.

(** What an erasure of a key that is found does, exactly: it removes the
    first entry of the key, counted from its home, which need not be the one
    that lookups see; the key is still found if and only if another entry of it
    is a multiple of four slots away. Lookups of other keys find what they
    found. *)
Theorem erased_found_iff_another t k v :
  reach hash alloc t -> lookup hash t k = Some v -> alloc (Z.of_nat (cap t)) = true ->
  exists j t', first_hit t k j /\ map_erase hash alloc t k = Some (true, t') /\
    ((exists v', lookup hash t' k = Some v') <-> exists m, (4 * m < cap t)%nat /\ (4 * m <> j)%nat /\ hit t k (at_ t (hash k) (4 * m)) = true) /\
    (forall k', k' <> k -> lookup hash t' k' = lookup hash t k').
Proof.
  intros [Hw Hc]%reach_good Hl Ha.
  assert (E : exists r, map_erase hash alloc t k = Some r).
  { unfold map_erase. unfold lookup in Hl. rewrite Hl. unfold clone. rewrite Ha. by eexists. }
  destruct E as (r & E). destruct (erase_old t k v r Hw Hl E) as (j & Hj & ->). destruct (first_hit_lt t k j Hw Hj) as [Hi Hh].
  exists j. eexists. split; [done|]. split; [exact E|]. split; [by apply find_erased | intros; by eapply find_erased_ne].
Qed.

(** ** Without collisions the map is a finite map *)

Context `{!Countable Key} (KS : gset Key).

(** A run of a map with the default capacity over keys of [KS], and the finite
    map that it should be; an operation that throws changes neither. *)
Inductive traced : Table -> gmap Key V -> Prop :=
  | tr_new t : make alloc 16 = Some t -> traced t ∅
  | tr_insert t m k v b t' : traced t m -> k ∈ KS -> map_insert hash alloc t k v = Some (b, t') -> traced t' (<[k := v]> m)
  | tr_erase t m k b t' : traced t m -> k ∈ KS -> map_erase hash alloc t k = Some (b, t') -> traced t' (delete k m)
  | tr_clear t m t' : traced t m -> clear alloc = Some t' -> traced t' ∅
  | tr_reserve t m n t' : traced t m -> reserve hash alloc t n = Some t' -> traced t' m
  | tr_rehash t m t' : traced t m -> rehash hash alloc t = Some t' -> traced t' m.

(** No two keys of [KS] have the same home in a table of 16 slots. *)
Definition spread : Prop := forall k k', k ∈ KS -> k' ∈ KS -> Z.land (hash k) 15 = Z.land (hash k') 15 -> k = k'.

Context (spread_ok : spread).

(** Every entry is in its home slot and is an entry of the finite map. *)
Record settled (t : Table) (m : gmap Key V) : Prop := mkSettled {
  st_wf : wf t;
  st_cap : 16 <= Z.of_nat (cap t) < 2 ^ 57;
  st_size : size t = Z.of_nat (base.size m);
  st_keys : forall k, is_Some (m !! k) -> k ∈ KS;
  st_home : forall k i, (i < cap t)%nat -> hit t k i = true -> i = home t (hash k) /\ value <$> (slots t !!! i) = m !! k;
  st_map : forall k, is_Some (m !! k) -> hit t k (home t (hash k)) = true }.

Lemma at_0 t h : cap_ok t -> at_ t h 0 = home t h.
Proof. intros Hc. apply pos_0. by apply home_lt. Qed.

(** A larger table keeps the homes apart. *)
Lemma home_spread t k k' : cap_ok t -> 16 <= Z.of_nat (cap t) -> k ∈ KS -> k' ∈ KS -> home t (hash k) = home t (hash k') -> k = k'.
Proof.
  intros (n & Hn & E) Hc Hk Hk' He. apply spread_ok; [done..|]. unfold home, mask in He. rewrite E, !land_pow2 in He by done.
  pose proof (Z.pow_pos_nonneg 2 n). pose proof (Z.mod_pos_bound (hash k) (2 ^ n)). pose proof (Z.mod_pos_bound (hash k') (2 ^ n)).
  assert (Hm : hash k mod 2 ^ n = hash k' mod 2 ^ n) by lia. change 15 with (2 ^ 4 - 1). rewrite !land_pow2 by done.
  assert (Hn4 : 4 <= n) by (apply (Z.pow_le_mono_r_iff 2); lia).
  assert (Hd : forall x, x mod 2 ^ 4 = (x mod 2 ^ n) mod 2 ^ 4).
  { intros x. symmetry. replace (2 ^ n) with (2 ^ 4 * 2 ^ (n - 4)) by (rewrite <- Z.pow_add_r by lia; f_equal; lia).
    rewrite Z.rem_mul_r by (try apply Z.pow_pos_nonneg; lia). rewrite Z.mul_comm, Z.mod_add, Z.mod_mod by lia. done. }
  by rewrite (Hd (hash k)), (Hd (hash k')), Hm.
Qed.

Lemma settled_lookup t m k : settled t m -> lookup hash t k = m !! k.
Proof.
  intros [Hw Hc _ Hk Hh Hm]. pose proof (wf_cap _ Hw) as Hcap. pose proof (home_lt t (hash k) Hcap) as Hlt.
  destruct (lookup hash t k) as [v|] eqn:E.
  - apply find_some in E as (j & Hj & Hx & Hv & _); [|done]. apply Hh in Hx as [_ Hx]; [congruence | by apply at_lt].
  - destruct (m !! k) as [v|] eqn:Em; [|done]. rewrite find_none in E by done. specialize (E 0%nat). rewrite Nat.mul_0_r, at_0 in E by done.
    rewrite Hm in E by (by eexists). assert (H0 : (0 < cap t)%nat) by lia. by specialize (E H0).
Qed.

(** The home of a key that is not in the map is free. *)
Lemma settled_free t m k : settled t m -> k ∈ KS -> m !! k = None -> first_free t (hash k) 0.
Proof.
  intros Hs Hk Hn. pose proof Hs as [Hw Hc _ Hks Hh Hm]. pose proof (wf_cap _ Hw) as Hcap. pose proof (home_lt t (hash k) Hcap) as Hlt.
  split; [lia|]. rewrite at_0 by done. split; [|lia]. apply (wf_byte _ Hw); [done|]. destruct (slotOccupied t _) eqn:Ho; [|done].
  destruct (wf_entry _ Hw _ Hlt Ho) as ([k' v] & Hsl & _). pose proof (hit_intro t k' _ v Hw Hlt Ho Hsl) as Hx.
  apply Hh in Hx as [He Hv]; [|done]. rewrite Hsl in Hv. assert (Hk' : k' ∈ KS) by (apply Hks; rewrite <- Hv; by eexists).
  assert (k' = k) as ->; [|by rewrite Hn in Hv]. eapply home_spread; [done | lia | done | done | done].
Qed.

Lemma settled_put t m k v : settled t m -> k ∈ KS -> m !! k = None ->
  settled (put t k v (hash k) (at_ t (hash k) 0)) (<[k := v]> m).
Proof.
  intros Hs Hk Hn. pose proof (settled_free t m k Hs Hk Hn) as Hff. destruct Hs as [Hw Hc Hsz Hks Hh Hm]. pose proof (wf_cap _ Hw) as Hcap.
  pose proof (home_lt t (hash k) Hcap) as Hlt. pose proof Hff as (_ & Hf & _). pose proof (wf_put t k v 0 Hw Hff) as Hw'. rewrite at_0 in * by done.
  constructor; [done | done | | | |].
  - rewrite map_size_insert_None, size_put by done. lia.
  - intros k'. rewrite lookup_insert. case_decide as E; [by subst | apply Hks].
  - intros k' i Hi. rewrite hit_put by done. destruct (Nat.eqb_spec i (home t (hash k))) as [->|Hne].
    + intros ->%bool_decide_eq_true. split; [done|]. by rewrite put_slots_eq, lookup_insert_eq.
    + intros Hx. destruct (Hh k' i Hi Hx) as [-> Hv]. split; [done|]. rewrite put_slots_ne, lookup_insert_ne by congruence. done.
  - intros k'. rewrite lookup_insert. change (home (put t k v (hash k) (home t (hash k)))) with (home t). rewrite hit_put by done.
    case_decide as E; [intros _; subst; by rewrite Nat.eqb_refl, bool_decide_true|]. intros Hk'.
    destruct (Nat.eqb_spec (home t (hash k')) (home t (hash k))) as [He|]; [|by apply Hm].
    exfalso. apply E. symmetry. eapply home_spread; [done | lia | by apply Hks | done | done].
Qed.

Lemma settled_fresh t : fresh t -> 16 <= Z.of_nat (cap t) < 2 ^ 57 -> settled t ∅.
Proof.
  intros [Hw Hs _ Hf] Hc. constructor; [done | done | by rewrite Hs | | |].
  - intros k [? Hk]. by rewrite lookup_empty in Hk.
  - intros k i Hi (Ho & _)%hit_inv. by rewrite Hf in Ho.
  - intros k [? Hk]. by rewrite lookup_empty in Hk.
Qed.

(** Refilling keeps the entries. *)
Lemma settled_refilled src m dst : settled src m -> fresh dst -> (cap src <= cap dst)%nat -> Z.of_nat (cap dst) < 2 ^ 57 ->
  settled (rehash_into hash src dst) m.
Proof.
  intros Hs Hd Hle Hb. pose proof Hs as [Hw Hc Hsz Hks Hh Hm]. pose proof (wf_cap _ Hw) as Hcap.
  assert (Hn : forall n, (n <= cap src)%nat -> settled (refilled src dst n) (filter (fun kv => (home src (hash kv.1) < n)%nat) m)).
  { induction n as [|n IH]; intros Hn.
    - assert (filter (fun kv : Key * V => (home src (hash kv.1) < 0)%nat) m = ∅) as -> by (apply map_empty; intros k; apply map_lookup_filter_None; right; intros ? _ ?; lia).
      apply settled_fresh; [done|]. cbn. lia.
    - rewrite refilled_S. unfold refill. specialize (IH ltac:(lia)). destruct (slotOccupied src n) eqn:Ho.
      + destruct (wf_entry _ Hw n ltac:(lia) Ho) as ([k v] & Hsl & _). rewrite Hsl. cbn [key value].
        pose proof (hit_intro src k n v Hw ltac:(lia) Ho Hsl) as Hx. apply Hh in Hx as [He Hv]; [|lia]. rewrite Hsl in Hv. cbn in Hv.
        assert (Hf : filter (fun kv : Key * V => (home src (hash kv.1) < n)%nat) m !! k = None).
        { apply map_lookup_filter_None. right. intros ? ? ?. cbn in *. lia. }
        assert (Hk : k ∈ KS) by (apply Hks; rewrite <- Hv; by eexists).
        rewrite (insert_put _ k v 0) by (apply IH || (eapply settled_free; [exact IH|done..])).
        assert (filter (fun kv : Key * V => (home src (hash kv.1) < S n)%nat) m = <[k := v]> (filter (fun kv : Key * V => (home src (hash kv.1) < n)%nat) m)) as ->; [|by apply settled_put].
        apply map_eq. intros k'. rewrite lookup_insert. apply option_eq. intros v'. rewrite map_lookup_filter_Some. case_decide as E.
        * subst k'. rewrite <- Hv. split; [by intros [? _]|]. intros [= ->]. split; [done|]. cbn. lia.
        * rewrite map_lookup_filter_Some. split; intros [Hv' Hl]; (split; [done|]); cbn in *; [|lia].
          assert (home src (hash k') <> n); [|lia]. intros Hx. apply E. rewrite He in Hx.
          symmetry. eapply home_spread; [done | lia | apply Hks; by eexists | done | done].
      + assert (filter (fun kv : Key * V => (home src (hash kv.1) < S n)%nat) m = filter (fun kv : Key * V => (home src (hash kv.1) < n)%nat) m) as ->; [|done].
        apply map_filter_ext. intros k v Hk. cbn. assert (home src (hash k) <> n); [|lia]. intros <-.
        specialize (Hm k ltac:(by eexists)). apply hit_inv in Hm as [Ho' _]. by rewrite Ho' in Ho. }
  specialize (Hn (cap src) ltac:(lia)). assert (filter (fun kv : Key * V => (home src (hash kv.1) < cap src)%nat) m = m) as Hf; [|by rewrite Hf in Hn].
  apply map_filter_id. intros k v Hk. by apply home_lt.
Qed.

(** A key of the map has its one entry at home. *)
Lemma settled_first_hit t m k j : settled t m -> first_hit t k j -> j = 0%nat.
Proof.
  intros [Hw Hc _ _ Hh _] (Hj & Hx & _). pose proof (wf_cap _ Hw) as Hcap. pose proof (home_lt t (hash k) Hcap) as Hlt.
  destruct (Hh k _ (at_lt t (hash k) j Hcap) Hx) as [He _]. eapply pos_inj; [exact Hj | lia|].
  unfold at_ in He. by rewrite He, pos_0.
Qed.

Lemma settled_updated t m k v : settled t m -> is_Some (m !! k) -> settled (updated t k v (at_ t (hash k) 0)) (<[k := v]> m).
Proof.
  intros [Hw Hc Hsz Hks Hh Hm] Hk. pose proof (wf_cap _ Hw) as Hcap. pose proof (home_lt t (hash k) Hcap) as Hlt. rewrite at_0 by done.
  pose proof (Hm k Hk) as Hx. constructor; [by apply wf_updated | done | | | |].
  - by rewrite (map_size_insert_Some _ _ _ Hk).
  - intros k'. rewrite lookup_insert. case_decide as E; [subst; auto | apply Hks].
  - intros k' i Hi. rewrite hit_updated by done. intros Hx'. destruct (Hh k' i Hi Hx') as [He Hv]. split; [done|].
    unfold updated. cbn [slots]. destruct (decide (i = home t (hash k))) as [Hi'|Hne].
    + rewrite Hi' in *. rewrite lookup_total_insert_eq by (by rewrite (wf_slots _ Hw)). cbn.
      assert (k' = k) as ->; [|by rewrite lookup_insert_eq]. apply hit_inv in Hx as (_ & ? & Hs1). apply hit_inv in Hx' as (_ & ? & Hs2). congruence.
    + rewrite lookup_total_insert_ne, lookup_insert_ne by congruence. done.
  - intros k'. rewrite hit_updated by done. rewrite lookup_insert. case_decide as E; [by subst | apply Hm].
Qed.

Lemma settled_erased t m k : settled t m -> is_Some (m !! k) -> settled (erased t (at_ t (hash k) 0)) (delete k m).
Proof.
  intros [Hw Hc Hsz Hks Hh Hm] Hk. pose proof (wf_cap _ Hw) as Hcap. pose proof (home_lt t (hash k) Hcap) as Hlt. rewrite at_0 by done.
  pose proof (Hm k Hk) as Hx. constructor; [by eapply wf_erased | done | | | |].
  - destruct Hk as [v0 Hk]. unfold erased. cbn [size]. rewrite (map_size_delete_Some _ _ (mk_is_Some _ _ Hk)), Hsz.
    assert (base.size m <> 0%nat); [|lia]. rewrite map_size_non_empty_iff. intros ->. by rewrite lookup_empty in Hk.
  - intros k' [v Hk']. apply lookup_delete_Some in Hk' as [_ Hk']. apply Hks. by eexists.
  - intros k' i Hi. rewrite hit_erased by done. intros [Hne Hx']%andb_true_iff. destruct (Hh k' i Hi Hx') as [He Hv]. split; [done|].
    rewrite lookup_delete_ne; [done|]. intros <-. rewrite He, Nat.eqb_refl in Hne. done.
  - intros k' [v Hk']. apply lookup_delete_Some in Hk' as [Hne Hk']. change (home (erased t (home t (hash k)))) with (home t). rewrite hit_erased by done.
    rewrite (Hm k' (mk_is_Some _ _ Hk')), andb_true_r. apply negb_true_iff, Nat.eqb_neq. intros He. apply Hne.
    eapply home_spread; [done | lia | apply Hks; done | apply Hks; by eexists | done].
Qed.

Lemma settled_good t m : settled t m -> good t.
Proof. intros [Hw [? ?] _ _ _ _]. by split. Qed.

Lemma settled_insert t m k v b t' : settled t m -> k ∈ KS -> map_insert hash alloc t k v = Some (b, t') ->
  b = bool_decide (m !! k = None) /\ settled t' (<[k := v]> m).
Proof.
  intros Hs Hk Hi. pose proof (settled_good _ _ Hs) as [Hw Hc]. pose proof (settled_lookup t m k Hs) as Hl.
  destruct (m !! k) as [v0|] eqn:Em.
  - destruct (insert_old t k v v0 _ Hw Hl Hi) as (j & Hj & [= -> ->]). rewrite (settled_first_hit _ _ _ _ Hs Hj).
    split; [done|]. apply settled_updated; [done | by eexists].
  - destruct (insert_new t k v _ Hw Hc Hl Hi) as (n & j & En & Hwn & _ & _ & Hj & [= -> ->]). split; [by rewrite bool_decide_true|].
    assert (Hsn : settled n m).
    { destruct (needsResize t); [|unfold clone in En; destruct (alloc _); [by injection En as <- | done]].
      apply grow_spec in En as (dst & Hf & Hcap & Hb & ->); [|done..]. apply settled_refilled; [done | done | lia | done]. }
    pose proof (settled_free n m k Hsn Hk Em) as Hf0. assert (j = 0%nat) as ->; [|by apply settled_put].
    destruct j as [|j]; [done|]. destruct Hj as (_ & _ & Hmin). destruct Hf0 as (_ & Hf0 & _). specialize (Hmin 0%nat ltac:(lia)). congruence.
Qed.

Lemma settled_erase t m k b t' : settled t m -> map_erase hash alloc t k = Some (b, t') ->
  b = bool_decide (is_Some (m !! k)) /\ settled t' (delete k m).
Proof.
  intros Hs Hi. pose proof (settled_good _ _ Hs) as [Hw Hc]. pose proof (settled_lookup t m k Hs) as Hl.
  destruct (m !! k) as [v0|] eqn:Em.
  - destruct (erase_old t k v0 _ Hw Hl Hi) as (j & Hj & [= -> ->]). rewrite (settled_first_hit _ _ _ _ Hs Hj).
    split; [by rewrite bool_decide_true by (by eexists)|]. apply settled_erased; [done | by eexists].
  - unfold map_erase in Hi. unfold lookup in Hl. rewrite Hl in Hi. injection Hi as <- <-. split; [by rewrite bool_decide_false by (by intros [? ?])|].
    by rewrite delete_id.
Qed.

Lemma make16 t : make (V := V) alloc 16 = Some t -> settled t ∅.
Proof. intros Hm. apply make_spec in Hm as (Hf & Hle & _ & Hb); [|done]. apply settled_fresh; [done | lia]. Qed.

Lemma traced_settled t m : traced t m -> settled t m.
Proof.
  induction 1 as [t Hm|t m k v b t' _ IH Hk Hi|t m k b t' _ IH Hk Hi|t m t' _ IH Hi|t m n t' _ IH Hi|t m t' _ IH Hi].
  - by apply make16.
  - by eapply settled_insert.
  - by eapply settled_erase.
  - by apply make16.
  - apply reserved_spec in Hi as [->|(d & Hf & Hle & Hb & ->)]; [done | by apply settled_refilled | by eapply settled_good].
  - apply rehash_spec in Hi as [->|(d & Hf & Hle & Hb & ->)]; [done | by apply settled_refilled | by eapply settled_good].
Qed.

(** C28: As long as the keys that are used have different homes among 16 slots,
    the map is a finite map, through all insertions, erasures, growth, rehashing
    and clearing: lookups give what the finite map has, insertions and erasures
    report whether the key was new or was there, and the size is its size. *)
Theorem uncollided_map_refines t m : traced t m ->
  (forall k, lookup hash t k = m !! k) /\ size t = Z.of_nat (base.size m) /\
  (forall k v b t', k ∈ KS -> map_insert hash alloc t k v = Some (b, t') -> b = bool_decide (m !! k = None) /\ lookup hash t' k = Some v) /\
  (forall k b t', map_erase hash alloc t k = Some (b, t') -> b = bool_decide (is_Some (m !! k)) /\ lookup hash t' k = None).
Proof.
  intros Hs%traced_settled. split; [intros k; by apply settled_lookup|]. split; [by destruct Hs|]. split.
  - intros k v b t' Hk Hi. destruct (settled_insert t m k v b t' Hs Hk Hi) as [-> Hs']. split; [done|]. rewrite (settled_lookup _ _ _ Hs'). apply lookup_insert_eq.
  - intros k b t' Hi. destruct (settled_erase t m k b t' Hs Hi) as [-> Hs']. split; [done|]. rewrite (settled_lookup _ _ _ Hs'). apply lookup_delete_eq.
Qed.
End Theory.

(** ** Two keys with one home *)

Section Demo.
#[local] Abbreviation demo_alloc := (fun n => n <? 1024).
#[local] Abbreviation demo_hash := (fun k : Z => k).

Definition demo_new : Table (Key := Z) (V := Z) := mkTable 16 0 0 (replicate 16 kEmpty) (replicate 16 None).
Definition demo_run (l : list (Op (Key := Z) (V := Z))) : Table := fold_left (run_op demo_hash demo_alloc) l demo_new.

Lemma demo_table_reach l : reach demo_hash demo_alloc (demo_run l).
Proof.
  unfold demo_run. assert (H : reach demo_hash demo_alloc demo_new) by (apply (reach_new _ _ 16); [lia | vm_compute; reflexivity]).
  revert H. generalize demo_new. induction l as [|o l IH]; intros t H; [done|]. apply IH. by apply reach_op.
Qed.

Lemma demo_alloc_bound n : demo_alloc n = true -> n < 2 ^ 57.
Proof. intros H%Z.ltb_lt. lia. Qed.

(** Key 17 goes to the slot after the one of key 1 and is not found. *)
Lemma insert_found_iff_aligned_witness :
  lookup demo_hash (demo_run [OpInsert 1 100; OpInsert 17 200]) 17 = None /\
  exists j t', first_free (demo_run [OpInsert 1 100]) 17 j /\
    map_insert demo_hash demo_alloc (demo_run [OpInsert 1 100]) 17 200 = Some (true, t') /\
    lookup demo_hash t' 17 = (if (j mod 4 =? 0)%nat then Some 200 else None) /\
    (forall k', k' <> 17 -> lookup demo_hash t' k' = lookup demo_hash (demo_run [OpInsert 1 100]) k').
Proof.
  split; [vm_compute; reflexivity|].
  apply (insert_found_iff_aligned demo_hash demo_alloc demo_alloc_bound (demo_run [OpInsert 1 100]) 17 200 (demo_table_reach _)); vm_compute; reflexivity.
Defined.

(** Inserted four times, key 17 is found, and it still is after it was erased. *)
Definition demo_copies : list (Op (Key := Z) (V := Z)) := [OpInsert 1 100; OpInsert 17 201; OpInsert 17 202; OpInsert 17 203; OpInsert 17 204].

Lemma erased_found_iff_another_witness :
  lookup demo_hash (demo_run (demo_copies ++ [OpErase 17])) 17 = Some 204 /\
  exists j t', first_hit demo_hash (demo_run demo_copies) 17 j /\ map_erase demo_hash demo_alloc (demo_run demo_copies) 17 = Some (true, t') /\
    ((exists v', lookup demo_hash t' 17 = Some v') <-> exists m, (4 * m < 16)%nat /\ (4 * m <> j)%nat /\
      hit demo_hash (demo_run demo_copies) 17 (at_ (demo_run demo_copies) 17 (4 * m)) = true) /\
    (forall k', k' <> 17 -> lookup demo_hash t' k' = lookup demo_hash (demo_run demo_copies) k').
Proof.
  split; [vm_compute; reflexivity|].
  apply (erased_found_iff_another demo_hash demo_alloc demo_alloc_bound (demo_run demo_copies) 17 204 (demo_table_reach _)); vm_compute; reflexivity.
Defined.

(** Keys with homes of their own. *)
Lemma demo_spread : spread demo_hash {[1; 2; 35]}.
Proof.
  intros k k' Hk Hk'. rewrite !elem_of_union, !elem_of_singleton in Hk, Hk'.
  destruct Hk as [[->| ->]| ->], Hk' as [[->| ->]| ->]; intros He; vm_compute in He; done.
Qed.

Lemma demo_table_traced : traced demo_hash demo_alloc {[1; 2; 35]} (demo_run [OpInsert 1 100; OpInsert 35 300; OpErase 1; OpInsert 35 301]) {[35 := 301]}.
Proof.
  pose proof (tr_new demo_hash demo_alloc {[1; 2; 35]} demo_new eq_refl) as H.
  eapply (tr_insert _ _ _ _ _ 1 100) in H; [| set_solver | vm_compute; reflexivity].
  eapply (tr_insert _ _ _ _ _ 35 300) in H; [| set_solver | vm_compute; reflexivity].
  eapply (tr_erase _ _ _ _ _ 1) in H; [| set_solver | vm_compute; reflexivity].
  eapply (tr_insert _ _ _ _ _ 35 301) in H; [| set_solver | vm_compute; reflexivity].
  match type of H with traced _ _ _ _ ?m => replace m with ({[35 := 301]} : gmap Z Z) in H by (vm_compute; reflexivity) end. exact H.
Qed.

Lemma uncollided_map_refines_witness :
  lookup demo_hash (demo_run [OpInsert 1 100; OpInsert 35 300; OpErase 1; OpInsert 35 301]) 35 = Some 301 /\
  size (demo_run [OpInsert 1 100; OpInsert 35 300; OpErase 1; OpInsert 35 301]) = Z.of_nat (base.size ({[35 := 301]} : gmap Z Z)).
Proof.
  split; [vm_compute; reflexivity|].
  exact (proj1 (proj2 (uncollided_map_refines demo_hash demo_alloc demo_alloc_bound {[1; 2; 35]} demo_spread _ _ demo_table_traced))).
Defined.
End Demo.
