(* ===== verification/StableHashMap.v ===== *)
(** * StableHashMap: the hash map of the ARP cache (types/StableHashMap.hpp)

    An open-addressing table with one control byte per slot and 31 more, which
    a lookup reads 32 at a time; the slots point to nodes that stay where they
    are. The hash function is a parameter, as it is a template argument; that
    memory runs out is not modelled, nor are [setMaxLoadFactor] and [reserve],
    which nothing calls: the load factor is its default of 7/8. *)

From S2P Require Import Prelude.

(** [types/StableHashMap.hpp:166-166] StableHashMap::EMPTY *)
Definition EMPTY : Z := 128.

(** [types/StableHashMap.hpp:167-167] StableHashMap::DELETED *)
Definition DELETED : Z := 254.

(** [types/StableHashMap.hpp:550-550] StableHashMap::emplace, the fingerprint of a hash; so in find and erase *)
Definition fingerprint (hash : Z) : Z := Z.land (Z.shiftr hash 57) 127.

(** [types/StableHashMap.hpp:250-250] StableHashMap::insertIntoTable, the fingerprint *)
Definition fingerprintRehash (hash : Z) : Z := Z.land (Z.lxor (Z.shiftr hash 57) (Z.shiftr hash 40)) 127.

Section Map.
Context {Key Value : Type} `{EqDecision Key} (hashFn : Key -> Z).

(** [types/StableHashMap.hpp:93-97] Node *)
Record Node := mkNode { nkey : Key; nvalue : Value; fullHash : Z }.

(** [types/StableHashMap.hpp:156-164] StableHashMap: [slots] are pointers to [nodes], which are allocated one by one *)
Record StableHashMap := mkMap {
  control : list Z;
  slots : list (option nat);
  numLive : Z;
  numFilled : Z;
  capacity : nat;
  nodes : gmap nat Node;
  nextNode : nat }.

(** [types/StableHashMap.hpp:169-169] StableHashMap::mask *)
Definition mask (cap : nat) : Z := Z.of_nat cap - 1.
Definition masked (cap : nat) (x : Z) : nat := Z.to_nat (Z.land x (mask cap)).

(** [types/StableHashMap.hpp:197-202] ProbeResult: the slot of the key, or the one to insert it at *)
Inductive ProbeResult := Found (foundSlot : nat) | Insert (insertSlot : nat).

(** The bytes of a group that equal [b], as the comparison of 32 bytes and the
    mask of its results give them, from the lowest. *)
Definition cmpeq (group : list Z) (b : Z) : list nat := List.filter (fun i => group !!! i =? b) (seq 0 32).

(** Whether the node of a slot has this hash and this key. *)
Definition nodeIs (m : StableHashMap) (hash : Z) (key : Key) (slot : nat) : bool :=
  match slots m !!! slot with
  | Some p => match nodes m !! p with Some e => (fullHash e =? hash) && bool_decide (nkey e = key) | None => false end
  | None => false
  end.

(** [types/StableHashMap.hpp:216-243] StableHashMap::probe, the loop over groups; [None] is [std::abort] *)
Fixpoint probeLoop (m : StableHashMap) (key : Key) (hash fp : Z) (n pos : nat) (firstTombstone : option nat) : option ProbeResult :=
  match n with
  | O => None
  | S n =>
      let group := take 32 (drop pos (control m)) in
      let slot idx := masked (capacity m) (Z.of_nat (pos + idx)) in
      match List.find (fun idx => nodeIs m hash key (slot idx)) (cmpeq group fp) with
      | Some idx => Some (Found (slot idx))
      | None =>
          let firstTombstone := match firstTombstone with Some t => Some t | None => slot <$> head (cmpeq group DELETED) end in
          match cmpeq group EMPTY with
          | i :: _ => Some (Insert (default (slot i) firstTombstone))
          | [] => probeLoop m key hash fp n (masked (capacity m) (Z.of_nat pos + 32)) firstTombstone
          end
      end
  end.

(** [types/StableHashMap.hpp:204-244] StableHashMap::probe *)
Definition probe (m : StableHashMap) (key : Key) (hash fp : Z) : option ProbeResult :=
  probeLoop m key hash fp (S (capacity m)) (masked (capacity m) hash) None.

(** [types/StableHashMap.hpp:253-262] StableHashMap::insertIntoTable, the loop; [None] when it comes around *)
Fixpoint insertIntoLoop (node : nat) (fp : Z) (cap n pos : nat) (t : list Z * list (option nat)) : option (list Z * list (option nat)) :=
  match n with
  | O => None
  | S n =>
      if t.1 !!! pos =? EMPTY then Some (<[pos := fp]> t.1, <[pos := Some node]> t.2)
      else insertIntoLoop node fp cap n (masked cap (Z.of_nat pos + 1)) t
  end.

(** [types/StableHashMap.hpp:246-263] StableHashMap::insertIntoTable *)
Definition insertIntoTable (node : nat) (hash : Z) (cap : nat) (t : list Z * list (option nat)) : option (list Z * list (option nat)) :=
  insertIntoLoop node (fingerprintRehash hash) cap cap (masked cap hash) t.

(** [types/StableHashMap.hpp:280-290] StableHashMap::rehash, the loop over the slots *)
Fixpoint reinsert (m : StableHashMap) (newCap : nat) (l : list nat) (t : list Z * list (option nat)) : option (list Z * list (option nat)) :=
  match l with
  | [] => Some t
  | i :: l =>
      let c := control m !!! i in
      t ← (if (c =? EMPTY) || (c =? DELETED) then Some t
           else match slots m !!! i with
                | Some p => match nodes m !! p with Some e => insertIntoTable p (fullHash e) newCap t | None => None end
                | None => Some t
                end);
      reinsert m newCap l t
  end.

(** [types/StableHashMap.hpp:265-298] StableHashMap::rehash: the next power of two has one more bit *)
Definition rehash (m : StableHashMap) (newCap : Z) : option StableHashMap :=
  let newCap := if newCap <? numLive m then numLive m else newCap in
  let newCap := if Z.land newCap (newCap - 1) =? 0 then newCap else 2 ^ (Z.log2 newCap + 1) in
  let newCap := Z.to_nat newCap in
  if (newCap =? capacity m)%nat then Some m
  else
    t ← reinsert m newCap (seq 0 (capacity m)) (replicate (newCap + 31) EMPTY, replicate newCap None);
    Some (mkMap t.1 t.2 (numLive m) (numLive m) newCap (nodes m) (nextNode m)).

(** [types/StableHashMap.hpp:300-307] StableHashMap::rehashIfNeeded: the load factor is 7/8 *)
Definition needsRehash (m : StableHashMap) : bool :=
  (numFilled m =? Z.of_nat (capacity m)) || (Z.of_nat (capacity m) * 7 <? numFilled m * 8).
Definition rehashIfNeeded (m : StableHashMap) : option StableHashMap :=
  if needsRehash m then rehash m (Z.of_nat (capacity m) * 2) else Some m.

(** [types/StableHashMap.hpp:327-330] StableHashMap::StableHashMap, the capacity: doubled at most [n] times *)
Fixpoint roundUp (n : nat) (capacity initialCapacity : Z) : Z :=
  match n with
  | O => capacity
  | S n => if capacity <? initialCapacity then roundUp n (Z.shiftl capacity 1) initialCapacity else capacity
  end.

(** [types/StableHashMap.hpp:321-334] StableHashMap::StableHashMap *)
Definition StableHashMap_new (initialCapacity : Z) : StableHashMap :=
  let initialCapacity := if initialCapacity <? 8 then 8 else initialCapacity in
  let cap := Z.to_nat (roundUp 64 1 initialCapacity) in
  mkMap (replicate (cap + 31) EMPTY) (replicate cap None) 0 0 cap ∅ 0.

(** [types/StableHashMap.hpp:358-361] Iterator::advanceToNextLive *)
Fixpoint advanceToNextLive (m : StableHashMap) (n idx : nat) : nat :=
  match n with
  | O => idx
  | S n => if (idx <? capacity m)%nat then match slots m !!! idx with None => advanceToNextLive m n (S idx) | Some _ => idx end else idx
  end.

(** [types/StableHashMap.hpp:457-465] StableHashMap::begin, and the increments from there to the end: the nodes a loop
    over the map visits *)
Definition iterate (m : StableHashMap) : list nat := omap (fun s => s) (slots m).

(** [types/StableHashMap.hpp:481-481] StableHashMap::size *)
Definition size (m : StableHashMap) : Z := numLive m.

(** [types/StableHashMap.hpp:493-507] StableHashMap::clear *)
Definition clear (m : StableHashMap) : StableHashMap :=
  let live i := negb ((control m !!! i =? EMPTY) || (control m !!! i =? DELETED)) in
  let gone := omap (fun i => if live i then slots m !!! i else None) (seq 0 (capacity m)) in
  mkMap (replicate (capacity m) EMPTY ++ drop (capacity m) (control m))
    (imap (fun i s => if live i then None else s) (slots m)) 0 0 (capacity m)
    (filter (fun kv => kv.1 ∉ gone) (nodes m)) (nextNode m).

(** The value of a node that exists. *)
Definition set_value (v : Value) (e : Node) : Node := mkNode (nkey e) v (fullHash e).
Definition on_nodes (f : gmap nat Node -> gmap nat Node) (m : StableHashMap) : StableHashMap :=
  mkMap (control m) (slots m) (numLive m) (numFilled m) (capacity m) (f (nodes m)) (nextNode m).

(** [types/StableHashMap.hpp:564-568] StableHashMap::emplace, a node for the slot that the probe of the old table found *)
Definition place (m : StableHashMap) (key : Key) (value : Value) (hash fp : Z) (insertSlot : nat) : StableHashMap :=
  mkMap (<[insertSlot := fp]> (control m)) (<[insertSlot := Some (nextNode m)]> (slots m)) (numLive m + 1) (numFilled m + 1) (capacity m)
    (<[nextNode m := mkNode key value hash]> (nodes m)) (S (nextNode m)).

(** [types/StableHashMap.hpp:546-571] StableHashMap::emplace: the slot, whether it is new, and the map *)
Definition emplace (m : StableHashMap) (key : Key) (value : Value) : option (nat * bool * StableHashMap) :=
  let hash := hashFn key in
  let fp := fingerprint hash in
  res ← probe m key hash fp;
  match res with
  | Found s =>
      Some (s, false, match slots m !!! s with Some p => on_nodes (alter (set_value value) p) m | None => m end)
  | Insert s => m ← rehashIfNeeded m; Some (s, true, place m key value hash fp s)
  end.

(** [types/StableHashMap.hpp:599-615] StableHashMap::erase, of a key: how many were erased *)
Definition erase (m : StableHashMap) (key : Key) : option (Z * StableHashMap) :=
  let hash := hashFn key in
  res ← probe m key hash (fingerprint hash);
  match res with
  | Found s =>
      Some (1, mkMap (<[s := DELETED]> (control m)) (<[s := None]> (slots m)) (numLive m - 1) (numFilled m) (capacity m)
        (match slots m !!! s with Some p => delete p (nodes m) | None => nodes m end) (nextNode m))
  | Insert _ => Some (0, m)
  end.

(** [types/StableHashMap.hpp:581-592] StableHashMap::erase, of an iterator that is not the end *)
Definition eraseAt (m : StableHashMap) (s : nat) : StableHashMap :=
  match slots m !!! s with
  | Some p => mkMap (<[s := DELETED]> (control m)) (<[s := None]> (slots m)) (numLive m - 1) (numFilled m) (capacity m) (delete p (nodes m)) (nextNode m)
  | None => m
  end.

(** [types/StableHashMap.hpp:622-634] StableHashMap::find: the slot of a key *)
Definition find (m : StableHashMap) (key : Key) : option (option nat) :=
  let hash := hashFn key in
  res ← probe m key hash (fingerprint hash);
  Some (match res with Found s => Some s | Insert _ => None end).

(** [types/StableHashMap.hpp:655-658] StableHashMap::contains *)
Definition contains (m : StableHashMap) (key : Key) : option bool := r ← find m key; Some (bool_decide (is_Some r)).

(** [types/StableHashMap.hpp:660-669] StableHashMap::operator[]: the slot of the value *)
Definition subscript (m : StableHashMap) (key : Key) (dflt : Value) : option (nat * StableHashMap) :=
  it ← find m key;
  match it with
  | Some s => Some (s, m)
  | None => r ← emplace m key dflt; Some (r.1.1, r.2)
  end.

(** The value of a key, as a caller of [find] or [at] reads it. *)
Definition get (m : StableHashMap) (key : Key) : option Value :=
  match find m key with
  | Some (Some s) => p ← slots m !!! s; nvalue <$> nodes m !! p
  | _ => None
  end.

(** The operations of a map. *)
Inductive Op := OpEmplace (k : Key) (v : Value) | OpErase (k : Key) | OpClear.

Definition run_op (m : StableHashMap) (o : Op) : option StableHashMap :=
  match o with
  | OpEmplace k v => snd <$> emplace m k v
  | OpErase k => snd <$> erase m k
  | OpClear => Some (clear m)
  end.

(** The maps a program can have. *)
Inductive reach : StableHashMap -> Prop :=
  | reach_new n : n <= 2 ^ 63 -> reach (StableHashMap_new n)
  | reach_op m o m' : reach m -> run_op m o = Some m' -> reach m'.
End Map.

(** ** Searching ranges *)

Lemma find_seq_some (P : nat -> bool) a n i :
  List.find P (seq a n) = Some i <-> (a <= i < a + n)%nat /\ P i = true /\ forall j, (a <= j < i)%nat -> P j = false.
Proof.
  revert a. induction n as [|n IH]; intros a; cbn [seq List.find].
  { split; [done|]. intros [? _]. lia. }
  destruct (P a) eqn:E.
  - split.
    + intros [= <-]. split; [lia|]. split; [done|]. intros j ?. lia.
    + intros (Hi & HP & Hj). destruct (decide (i = a)) as [->|]; [done|]. rewrite (Hj a) in E by lia. done.
  - rewrite IH. split; intros (Hi & HP & Hj); (split; [|split; [done|]]).
    + lia.
    + intros j Hlt. destruct (decide (j = a)) as [->|]; [done|]. apply Hj. lia.
    + destruct (decide (i = a)) as [->|]; [congruence | lia].
    + intros j Hlt. apply Hj. lia.
Qed.

Lemma find_seq_none (P : nat -> bool) a n : List.find P (seq a n) = None <-> forall i, (a <= i < a + n)%nat -> P i = false.
Proof.
  split.
  - intros H i Hi. apply (List.find_none P _ H). apply in_seq. lia.
  - intros H. destruct (List.find P (seq a n)) as [i|] eqn:E; [|done]. apply find_seq_some in E as (Hi & HP & _). by rewrite H in HP.
Qed.

Lemma find_filter {A} (P Q : A -> bool) l : List.find Q (List.filter P l) = List.find (fun x => P x && Q x) l.
Proof. induction l as [|x l IH]; [done|]. cbn. destruct (P x); cbn; [by rewrite IH | done]. Qed.

Lemma head_filter {A} (P : A -> bool) l : head (List.filter P l) = List.find P l.
Proof. induction l as [|x l IH]; [done|]. cbn. by destruct (P x). Qed.

Lemma land_ones_mod x n : 0 <= n -> Z.land x (2 ^ n - 1) = x mod 2 ^ n.
Proof. intros. rewrite <- Z.land_ones by lia. f_equal. rewrite Z.ones_equiv. lia. Qed.

(** Control bytes in use or deleted. *)
Definition filled (l : list Z) : nat := length (filter (fun c => c <> EMPTY) l).

Lemma filled_cons c l : filled (c :: l) = ((if decide (c = EMPTY) then 0 else 1) + filled l)%nat.
Proof. unfold filled. rewrite filter_cons. destruct (decide (c = EMPTY)), (decide (c <> EMPTY)); done. Qed.

Lemma filled_app l l' : filled (l ++ l') = (filled l + filled l')%nat.
Proof. unfold filled. by rewrite filter_app, length_app. Qed.

Lemma filled_replicate n : filled (replicate n EMPTY) = 0%nat.
Proof. induction n as [|n IH]; [done|]. cbn [replicate]. by rewrite filled_cons. Qed.

Lemma filled_insert l i c : (filled (<[i := c]> l) <= filled l + (if decide (c = EMPTY) then 0 else 1))%nat.
Proof.
  revert i. induction l as [|a l IH]; intros [|i]; [apply Nat.le_add_r|apply Nat.le_add_r| |].
  - cbn [base.insert list_insert]. rewrite !filled_cons. destruct (decide (a = EMPTY)); lia.
  - change (<[S i := c]> (a :: l)) with (a :: <[i := c]> l). rewrite !filled_cons. specialize (IH i). lia.
Qed.

(** A change of a byte in use. *)
Lemma filled_insert_filled l i c : (i < length l)%nat -> l !!! i <> EMPTY -> (filled (<[i := c]> l) <= filled l)%nat.
Proof.
  revert i. induction l as [|a l IH]; intros [|i] Hi Hl; cbn [length] in Hi; [lia|lia| |].
  - cbn in Hl. cbn [base.insert list_insert]. rewrite !filled_cons. destruct (decide (a = EMPTY)); [done|]. destruct (decide (c = EMPTY)); lia.
  - change (<[S i := c]> (a :: l)) with (a :: <[i := c]> l). rewrite !filled_cons. specialize (IH i ltac:(lia) Hl). lia.
Qed.

Lemma filled_lt l n : (n <= length l)%nat -> (filled (take n l) < n)%nat -> exists i, (i < n)%nat /\ l !!! i = EMPTY.
Proof.
  revert n. induction l as [|a l IH]; intros [|n] Hn Hf; cbn [length] in Hn; try (cbn in Hf; lia).
  cbn [take] in Hf. rewrite filled_cons in Hf. destruct (decide (a = EMPTY)) as [->|]; [exists 0%nat; split; [lia | done]|].
  destruct (IH n) as (i & Hi & He); [lia|lia|]. exists (S i). split; [lia | done].
Qed.

(** Slots in use. *)
Definition live (l : list (option nat)) : nat := length (omap (fun s => s) l).

Lemma live_cons s l : live (s :: l) = ((if s is Some _ then 1 else 0) + live l)%nat.
Proof. unfold live. cbn. by destruct s. Qed.

Lemma live_replicate n : live (replicate n None) = 0%nat.
Proof. induction n as [|n IH]; [done|]. cbn [replicate]. by rewrite live_cons. Qed.

Lemma live_insert l i p : (live (<[i := Some p]> l) <= live l + 1)%nat.
Proof.
  revert i. induction l as [|a l IH]; intros [|i]; [apply Nat.le_add_r|apply Nat.le_add_r| |].
  - cbn [base.insert list_insert]. rewrite !live_cons. destruct a; lia.
  - change (<[S i := Some p]> (a :: l)) with (a :: <[i := Some p]> l). rewrite !live_cons. specialize (IH i). lia.
Qed.

Lemma live_erase l i p : (i < length l)%nat -> l !!! i = Some p -> (live (<[i := None]> l) + 1 = live l)%nat.
Proof.
  revert i. induction l as [|a l IH]; intros [|i] Hi Hl; cbn [length] in Hi; [lia|lia| |].
  - cbn in Hl. subst a. cbn [base.insert list_insert]. rewrite !live_cons. lia.
  - change (<[S i := None]> (a :: l)) with (a :: <[i := None]> l). rewrite !live_cons. specialize (IH i ltac:(lia) Hl). lia.
Qed.

Lemma take_insert_in {A} (l : list A) n i x : (i < n)%nat -> take n (<[i := x]> l) = <[i := x]> (take n l).
Proof.
  revert n i. induction l as [|a l IH]; intros [|n] [|i] Hi; try lia; [done..|].
  change (<[S i := x]> (a :: l)) with (a :: <[i := x]> l). cbn [take]. rewrite IH by lia. done.
Qed.

Lemma lookup_total_insert_same {A} `{Inhabited A} (l : list A) i x : (i < length l)%nat -> <[i := x]> l !!! i = x.
Proof. apply list_lookup_total_insert_eq. Qed.

Lemma lookup_total_insert_other {A} `{Inhabited A} (l : list A) i j x : i <> j -> <[i := x]> l !!! j = l !!! j.
Proof. apply list_lookup_total_insert_ne. Qed.

Lemma find_ext_seq (P Q : nat -> bool) a n : (forall i, (a <= i < a + n)%nat -> P i = Q i) -> List.find P (seq a n) = List.find Q (seq a n).
Proof.
  intros H. destruct (List.find Q (seq a n)) as [i|] eqn:E.
  - apply find_seq_some in E as (Hi & HP & Hj). apply find_seq_some. split; [done|]. split; [by rewrite H|]. intros j Hlt. rewrite H by lia. by apply Hj.
  - apply find_seq_none. rewrite find_seq_none in E. intros i Hi. rewrite H by done. by apply E.
Qed.

Lemma find_shift (P : nat -> bool) a n : List.find P (seq a n) = Nat.add a <$> List.find (fun i => P (a + i)%nat) (seq 0 n).
Proof.
  destruct (List.find (fun i => P (a + i)%nat) (seq 0 n)) as [i|] eqn:E; cbn.
  - apply find_seq_some in E as (Hi & HP & Hj). apply find_seq_some. split; [lia|]. split; [done|].
    intros j Hlt. replace j with (a + (j - a))%nat by lia. apply Hj. lia.
  - apply find_seq_none. rewrite find_seq_none in E. intros i Hi. replace i with (a + (i - a))%nat by lia. apply E. lia.
Qed.

Lemma find_split (P : nat -> bool) a n m :
  List.find P (seq a (n + m)) = match List.find P (seq a n) with Some i => Some i | None => List.find P (seq (a + n) m) end.
Proof. rewrite seq_app. induction (seq a n) as [|x l IH]; [done|]. cbn. by destruct (P x). Qed.

(** A group of bytes is a range of the array. *)
Lemma group_lookup (l : list Z) pos i : (i < 32)%nat -> (pos + 32 <= length l)%nat -> take 32 (drop pos l) !!! i = l !!! (pos + i)%nat.
Proof. intros Hi Hl. by rewrite lookup_total_take_lt, lookup_total_drop. Qed.

Lemma cmpeq_head (l : list Z) pos b : (pos + 32 <= length l)%nat ->
  head (cmpeq (take 32 (drop pos l)) b) = List.find (fun i => l !!! (pos + i)%nat =? b) (seq 0 32).
Proof. intros Hl. unfold cmpeq. rewrite head_filter. apply find_ext_seq. intros i Hi. by rewrite group_lookup by lia. Qed.

Section Theory.
Context {Key Value : Type} `{EqDecision Key} (hashFn : Key -> Z).
#[local] Abbreviation Map := (StableHashMap (Key := Key) (Value := Value)).
#[local] Abbreviation Node := (Node (Key := Key) (Value := Value)).

Definition cap_ok (m : Map) : Prop := exists n, 3 <= n /\ Z.of_nat (capacity m) = 2 ^ n.

(** Cell [i] of the probe sequence of a hash: an index of the control bytes,
    past the capacity when it is padding. *)
Definition start (m : Map) (h : Z) (w : nat) : nat := masked (capacity m) (Z.of_nat (masked (capacity m) h) + 32 * Z.of_nat w).
Definition cell (m : Map) (h : Z) (i : nat) : nat := (start m h (i / 32) + i mod 32)%nat.

Record wf (m : Map) : Prop := mkWf {
  wf_cap : cap_ok m;
  wf_control : length (control m) = (capacity m + 31)%nat;
  wf_slots : length (slots m) = capacity m;
  wf_pad : forall i, (capacity m <= i < capacity m + 31)%nat -> control m !!! i = EMPTY;
  wf_free : forall i, (i < capacity m)%nat -> slots m !!! i = None -> control m !!! i = EMPTY \/ control m !!! i = DELETED;
  wf_live : forall i p, (i < capacity m)%nat -> slots m !!! i = Some p ->
    0 <= control m !!! i < 128 /\ exists e, nodes m !! p = Some e /\ fullHash e = hashFn (nkey e);
  wf_inj : forall i j p, (i < capacity m)%nat -> (j < capacity m)%nat -> slots m !!! i = Some p -> slots m !!! j = Some p -> i = j;
  wf_next : forall p, is_Some (nodes m !! p) -> (p < nextNode m)%nat;
  wf_filled : Z.of_nat (filled (take (capacity m) (control m))) <= numFilled m;
  wf_load : numFilled m * 8 <= Z.of_nat (capacity m) * 7 + 8;
  wf_numLive : Z.of_nat (live (slots m)) <= numLive m <= numFilled m }.

Lemma cap_pos m : cap_ok m -> (8 <= capacity m)%nat.
Proof. intros (n & ? & E). pose proof (Z.pow_le_mono_r 2 3 n). lia. Qed.

Lemma masked_mod m x : cap_ok m -> Z.of_nat (masked (capacity m) x) = x mod Z.of_nat (capacity m).
Proof.
  intros (n & Hn & E). unfold masked, mask. rewrite E, land_ones_mod by lia. pose proof (Z.pow_pos_nonneg 2 n).
  pose proof (Z.mod_pos_bound x (2 ^ n)). lia.
Qed.

Lemma masked_lt m x : cap_ok m -> (masked (capacity m) x < capacity m)%nat.
Proof. intros Hc. pose proof (cap_pos m Hc). pose proof (masked_mod m x Hc). pose proof (Z.mod_pos_bound x (Z.of_nat (capacity m))). lia. Qed.

Lemma masked_small m i : cap_ok m -> (i < capacity m)%nat -> masked (capacity m) (Z.of_nat i) = i.
Proof. intros Hc Hi. pose proof (masked_mod m (Z.of_nat i) Hc) as H. rewrite Z.mod_small in H by lia. lia. Qed.

Lemma start_S m h w : cap_ok m -> masked (capacity m) (Z.of_nat (start m h w) + 32) = start m h (S w).
Proof.
  intros Hc. apply Nat2Z.inj. unfold start. rewrite !masked_mod by done. rewrite Zplus_mod_idemp_l. f_equal. lia.
Qed.

Lemma cell_group m h w i : (i < 32)%nat -> cell m h (32 * w + i) = (start m h w + i)%nat.
Proof.
  intros Hi. unfold cell. replace ((32 * w + i) / 32)%nat with w; [replace ((32 * w + i) mod 32)%nat with i; [done|]|].
  - rewrite Nat.add_comm, Nat.mul_comm, Nat.Div0.mod_add. symmetry. by apply Nat.mod_small.
  - rewrite Nat.mul_comm, Nat.div_add_l by lia. rewrite Nat.div_small by done. lia.
Qed.

Lemma cell_bound m h i : cap_ok m -> (cell m h i < capacity m + 31)%nat.
Proof. intros Hc. unfold cell. pose proof (masked_lt m (Z.of_nat (masked (capacity m) h) + 32 * Z.of_nat (i / 32)) Hc). pose proof (Nat.mod_upper_bound i 32). unfold start. lia. Qed.

(** Whether a cell has the entry of a key, as the probe recognises it. *)
Definition matches (m : Map) (k : Key) (c : nat) : bool :=
  (control m !!! c =? fingerprint (hashFn k)) && nodeIs m (hashFn k) k c.

Lemma fingerprint_bound h : 0 <= fingerprint h < 128.
Proof. unfold fingerprint. change 127 with (2 ^ 7 - 1). rewrite land_ones_mod by lia. apply Z.mod_pos_bound. lia. Qed.

(** The first empty cell from cell [a] on. *)
Definition first_empty (m : Map) (h : Z) (a i : nat) : Prop :=
  (a <= i)%nat /\ control m !!! cell m h i = EMPTY /\ forall j, (a <= j < i)%nat -> control m !!! cell m h j <> EMPTY.

(** The byte-by-byte scan of the cells from [a] to the end of the group of the
    first empty one, [i]. *)
Definition scan (m : Map) (k : Key) (a i : nat) (tomb : option nat) : ProbeResult :=
  let range := seq a (32 * (i / 32) + 32 - a) in
  match List.find (fun i => matches m k (cell m (hashFn k) i)) range with
  | Some i => Found (cell m (hashFn k) i)
  | None =>
      Insert (match tomb with
      | Some t => t
      | None => match List.find (fun i => control m !!! cell m (hashFn k) i =? DELETED) range with
                | Some j => cell m (hashFn k) j
                | None => masked (capacity m) (Z.of_nat (cell m (hashFn k) i))
                end
      end)
  end.

Lemma byte_slot m c : wf m -> (c < capacity m + 31)%nat -> control m !!! c <> EMPTY -> (c < capacity m)%nat.
Proof. intros Hw Hc Hne. destruct (decide (c < capacity m)%nat); [done|]. exfalso. apply Hne, (wf_pad _ Hw). lia. Qed.

Lemma probeLoop_scan m k n w i tomb : wf m -> first_empty m (hashFn k) (32 * w) i -> (i / 32 - w < n)%nat ->
  probeLoop m k (hashFn k) (fingerprint (hashFn k)) n (start m (hashFn k) w) tomb = Some (scan m k (32 * w) i tomb).
Proof.
  intros Hw. revert w tomb. induction n as [|n IH]; intros w tomb (Hle & He & Hne) Hn; [lia|].
  pose proof (wf_cap _ Hw) as Hc. set (h := hashFn k) in *. cbn [probeLoop].
  assert (Hst : (start m h w < capacity m)%nat) by (by apply masked_lt).
  assert (Hlen : (start m h w + 32 <= length (control m))%nat) by (rewrite (wf_control _ Hw); lia).
  assert (Hwi : (w <= i / 32)%nat) by (apply Nat.div_le_lower_bound; lia).
  assert (Hrange : (32 * (i / 32) + 32 - 32 * w = 32 + (32 * (i / 32) - 32 * w))%nat) by lia.
  assert (Hslot : forall b j, (j < 32)%nat -> b <> EMPTY -> control m !!! (start m h w + j)%nat = b -> masked (capacity m) (Z.of_nat (start m h w + j)) = (start m h w + j)%nat).
  { intros b j Hj Hb Hcj. apply masked_small; [done|]. apply byte_slot; [done | rewrite (wf_control _ Hw) in Hlen; lia | by rewrite Hcj]. }
  assert (Hfp : fingerprint h <> EMPTY) by (pose proof (fingerprint_bound h); unfold EMPTY; lia).
  (* the match *)
  unfold scan. fold h. rewrite Hrange, find_split.
  assert (Hm : List.find (fun idx => nodeIs m h k (masked (capacity m) (Z.of_nat (start m h w + idx)))) (cmpeq (take 32 (drop (start m h w) (control m))) (fingerprint h))
    = List.find (fun j => matches m k (start m h w + j)%nat) (seq 0 32)).
  { unfold cmpeq. rewrite find_filter. apply find_ext_seq. intros j Hj. rewrite group_lookup by lia. unfold matches. fold h.
    destruct (Z.eqb_spec (control m !!! (start m h w + j)%nat) (fingerprint h)) as [E|]; [|done]. cbn. by rewrite (Hslot (fingerprint h)) by (done || lia). }
  rewrite Hm. rewrite (find_shift _ (32 * w) 32). cbv beta.
  assert (Hg : forall P : nat -> bool, List.find (fun j => P (cell m h (32 * w + j)%nat)) (seq 0 32) = List.find (fun j => P (start m h w + j)%nat) (seq 0 32))
    by (intros P; apply find_ext_seq; intros j Hj; rewrite cell_group by lia; done).
  rewrite (Hg (matches m k)).
  destruct (List.find (fun j => matches m k (start m h w + j)%nat) (seq 0 32)) as [j|] eqn:Ej; cbn [fmap option_fmap option_map].
  { apply find_seq_some in Ej as (Hj & HP & _). rewrite cell_group by lia. unfold matches in HP. fold h in HP. apply andb_true_iff in HP as [HP _]. zbools.
    by rewrite (Hslot (fingerprint h)) by (done || lia). }
  (* the tombstone *)
  set (tomb' := match tomb with Some t => Some t | None => _ end).
  assert (Ht : tomb' = match tomb with Some t => Some t | None => (fun j => (start m h w + j)%nat) <$> List.find (fun j => control m !!! (start m h w + j)%nat =? DELETED) (seq 0 32) end).
  { unfold tomb'. destruct tomb as [t|]; [done|]. rewrite cmpeq_head by done.
    destruct (List.find (fun j => control m !!! (start m h w + j)%nat =? DELETED) (seq 0 32)) as [j|] eqn:Ed; [|done]. cbn. apply find_seq_some in Ed as (Hj & HP & _). zbools. f_equal.
    apply (Hslot DELETED); [lia | done | done]. }
  pose proof (cmpeq_head (control m) (start m h w) EMPTY Hlen) as Hem.
  destruct (decide (w = i / 32)%nat) as [Hlast|Hlast].
  - (* the group of the empty cell *)
    subst w. replace (32 * (i / 32) - 32 * (i / 32))%nat with 0%nat by lia. cbn [seq List.find].
    pose proof (Nat.div_mod_eq i 32) as Hdm. pose proof (Nat.mod_upper_bound i 32) as Hub.
    assert (Hfe : List.find (fun j => control m !!! (start m h (i / 32) + j)%nat =? EMPTY) (seq 0 32) = Some (i mod 32)%nat).
    { apply find_seq_some. split; [lia|]. split; [apply Z.eqb_eq; exact He|]. intros j Hj. apply Z.eqb_neq. rewrite <- cell_group by lia. apply Hne. lia. }
    rewrite Hfe in Hem. destruct (cmpeq _ EMPTY) as [|e l]; [done|]. cbn in Hem. injection Hem as ->. f_equal. f_equal.
    rewrite Ht. destruct tomb as [t|]; [done|]. rewrite Nat.add_0_r. rewrite (find_shift _ (32 * (i / 32)) 32). cbv beta.
    rewrite (Hg (fun c => control m !!! c =? DELETED)). cbv beta.
    destruct (List.find (fun j => control m !!! (start m h (i / 32) + j)%nat =? DELETED) (seq 0 32)) as [j|] eqn:Ed; cbn [fmap option_fmap option_map]; [|done].
    apply find_seq_some in Ed as (Hj & _). by rewrite cell_group by lia.
  - (* a later group *)
    assert (Hfe : List.find (fun j => control m !!! (start m h w + j)%nat =? EMPTY) (seq 0 32) = None).
    { apply find_seq_none. intros j Hj. apply Z.eqb_neq. rewrite <- cell_group by lia. apply Hne.
      pose proof (Nat.div_mod_eq i 32). lia. }
    rewrite Hfe in Hem. destruct (cmpeq _ EMPTY) as [|e l]; [|done]. rewrite start_S by done.
    rewrite IH; [|split; [|split]|lia].
    + f_equal. unfold scan. fold h. replace (32 * (i / 32) + 32 - 32 * S w)%nat with (32 * (i / 32) - 32 * w)%nat by lia.
      replace (32 * S w)%nat with (32 * w + 32)%nat by lia. destruct (List.find _ (seq (32 * w + 32) _)) as [j|]; [done|]. f_equal.
      rewrite Ht. destruct tomb as [t|]; [done|]. rewrite find_split, (find_shift _ (32 * w) 32). cbv beta. rewrite (Hg (fun c => control m !!! c =? DELETED)). cbv beta.
      destruct (List.find (fun j => control m !!! (start m h w + j)%nat =? DELETED) (seq 0 32)) as [j|] eqn:Ed; cbn [fmap option_fmap option_map]; [|done]. apply find_seq_some in Ed as (Hj & _). by rewrite cell_group by lia.
    + pose proof (Nat.div_mod_eq i 32). lia.
    + done.
    + intros j Hj. apply Hne. lia.
Qed.

Lemma start_mod m h w : cap_ok m -> start m h w = ((masked (capacity m) h + 32 * w) mod capacity m)%nat.
Proof.
  intros Hc. apply Nat2Z.inj. unfold start. rewrite masked_mod by done. rewrite Nat2Z.inj_mod. f_equal. lia.
Qed.

Lemma start_0 m h : cap_ok m -> start m h 0 = masked (capacity m) h.
Proof. intros Hc. rewrite start_mod by done. rewrite Nat.mul_0_r, Nat.add_0_r. apply Nat.mod_small. by apply masked_lt. Qed.

(** A table of 32 slots or more is made of groups. *)
Lemma cap_cases m : cap_ok m -> (capacity m < 32)%nat \/ exists q, (0 < q)%nat /\ capacity m = (32 * q)%nat.
Proof.
  intros (n & Hn & E). destruct (decide (n < 5)).
  - left. pose proof (Z.pow_lt_mono_r 2 n 5). lia.
  - right. exists (Z.to_nat (2 ^ (n - 5))). pose proof (Z.pow_pos_nonneg 2 (n - 5)). replace (2 ^ n) with (2 ^ 5 * 2 ^ (n - 5)) in E; [lia|].
    rewrite <- Z.pow_add_r by lia. f_equal. lia.
Qed.

Lemma empty_slot m : wf m -> (16 <= capacity m)%nat -> exists x, (x < capacity m)%nat /\ control m !!! x = EMPTY.
Proof.
  intros Hw Hc. apply filled_lt; [rewrite (wf_control _ Hw); lia|]. pose proof (wf_filled _ Hw). pose proof (wf_load _ Hw). lia.
Qed.

Lemma empty_cell m h : wf m -> exists i, control m !!! cell m h i = EMPTY /\ (i / 32 < S (capacity m))%nat.
Proof.
  intros Hw. pose proof (wf_cap _ Hw) as Hc. pose proof (masked_lt m h Hc) as Hh. set (b := masked (capacity m) h) in *.
  assert (Hpad : forall w r, (r < 32)%nat -> (start m h w + r = capacity m)%nat -> control m !!! cell m h (32 * w + r) = EMPTY).
  { intros w r Hr He. rewrite cell_group, He by done. apply (wf_pad _ Hw). lia. }
  assert (Hdiv : forall w r, (r < 32)%nat -> ((32 * w + r) / 32 = w)%nat).
  { intros w r Hr. rewrite Nat.mul_comm, Nat.div_add_l by lia. rewrite Nat.div_small by done. lia. }
  destruct (cap_cases m Hc) as [Hlt|(q & Hq & Hcap)].
  - exists (32 * 0 + (capacity m - b))%nat. split; [apply Hpad; [lia|]; rewrite start_0 by done; fold b; lia|]. rewrite Hdiv by lia. lia.
  - pose proof (Nat.div_mod_eq b 32) as Eb. pose proof (Nat.mod_upper_bound b 32) as Ub.
    assert (Ha : (b / 32 < q)%nat) by (apply Nat.Div0.div_lt_upper_bound; lia).
    destruct (decide (b mod 32 = 0)%nat) as [Hr|Hr].
    + destruct (empty_slot m Hw) as (x & Hx & Hxe); [lia|]. pose proof (Nat.div_mod_eq x 32) as Ex. pose proof (Nat.mod_upper_bound x 32) as Ux.
      assert (Hxq : (x / 32 < q)%nat) by (apply Nat.Div0.div_lt_upper_bound; lia).
      set (w := if decide (b / 32 <= x / 32)%nat then (x / 32 - b / 32)%nat else (x / 32 + q - b / 32)%nat).
      exists (32 * w + x mod 32)%nat. rewrite Hdiv, cell_group by lia. split; [|unfold w; destruct (decide _); lia].
      assert (Hs : start m h w = (32 * (x / 32))%nat); [|rewrite Hs, <- Ex; exact Hxe].
      rewrite start_mod by done. fold b. unfold w. destruct (decide _).
      * replace (b + 32 * (x / 32 - b / 32))%nat with (32 * (x / 32))%nat by lia. apply Nat.mod_small. lia.
      * replace (b + 32 * (x / 32 + q - b / 32))%nat with (32 * (x / 32) + 1 * capacity m)%nat by lia.
        rewrite Nat.Div0.mod_add. apply Nat.mod_small. lia.
    + exists (32 * (q - 1 - b / 32) + (32 - b mod 32))%nat. rewrite Hdiv by lia. split; [|lia]. apply Hpad; [lia|].
      rewrite start_mod by done. fold b. rewrite Nat.mod_small by lia. lia.
Qed.

Lemma first_empty_ex m h : wf m -> exists i, first_empty m h 0 i /\ (i / 32 < S (capacity m))%nat.
Proof.
  intros Hw. destruct (empty_cell m h Hw) as (i & He & Hi).
  destruct (List.find (fun j => control m !!! cell m h j =? EMPTY) (seq 0 (S i))) as [j|] eqn:E.
  - apply find_seq_some in E as (Hj & HP & Hmin). zbools. exists j. split.
    + split; [lia|]. split; [done|]. intros j' Hj'. apply Z.eqb_neq. apply Hmin. lia.
    + pose proof (Nat.Div0.div_le_mono j i 32). lia.
  - rewrite find_seq_none in E. specialize (E i ltac:(lia)). by apply Z.eqb_neq in E.
Qed.

(** The scan is over the cells of the probe sequence. *)
Lemma probe_scan m k : wf m -> exists i, first_empty m (hashFn k) 0 i /\
  probe m k (hashFn k) (fingerprint (hashFn k)) = Some (scan m k 0 i None).
Proof.
  intros Hw. destruct (first_empty_ex m (hashFn k) Hw) as (i & Hi & Hn). exists i. split; [done|]. unfold probe.
  rewrite <- (start_0 m) by apply (wf_cap _ Hw). apply (probeLoop_scan m k _ 0 i None Hw Hi). lia.
Qed.

(** *** New maps are well-formed *)

Lemma roundUp_spec n k c : 0 <= k -> c <= 2 ^ (k + Z.of_nat n) -> exists j, k <= j /\ roundUp n (2 ^ k) c = 2 ^ j /\ c <= 2 ^ j.
Proof.
  revert k. induction n as [|n IH]; intros k Hk Hc; cbn [roundUp].
  - exists k. split; [lia|]. split; [done|]. by rewrite Z.add_0_r in Hc.
  - destruct (Z.ltb_spec (2 ^ k) c); [|exists k; split; [lia|]; done].
    rewrite Z.shiftl_mul_pow2 by lia. replace (2 ^ k * 2 ^ 1) with (2 ^ (k + 1)) by (rewrite Z.pow_add_r; lia).
    destruct (IH (k + 1)) as (j & Hj & E & Hle); [lia | by replace (k + 1 + Z.of_nat n) with (k + Z.of_nat (S n)) by lia|].
    exists j. split; [lia|]. done.
Qed.

Lemma wf_new n : n <= 2 ^ 63 -> wf (StableHashMap_new n).
Proof.
  intros Hn. unfold StableHashMap_new. set (c := if n <? 8 then 8 else n).
  assert (Hc : 8 <= c <= 2 ^ 64) by (unfold c; destruct (Z.ltb_spec n 8); lia).
  destruct (roundUp_spec 64 0 c) as (j & Hj & E & Hle); [lia|cbn; lia|]. change (roundUp 64 1 c) with (roundUp 64 (2 ^ 0) c). rewrite E.
  pose proof (Z.pow_pos_nonneg 2 j). set (cap := Z.to_nat (2 ^ j)). assert (Hcap : Z.of_nat cap = 2 ^ j) by (unfold cap; lia).
  constructor; cbn [capacity control slots nodes nextNode numFilled numLive].
  - exists j. split; [|exact Hcap]. apply (Z.pow_le_mono_r_iff 2); lia.
  - by rewrite length_replicate.
  - by rewrite length_replicate.
  - intros i Hi. apply lookup_total_replicate_2. lia.
  - intros i Hi _. left. apply lookup_total_replicate_2. lia.
  - intros i p Hi Hs. by rewrite lookup_total_replicate_2 in Hs.
  - intros i i' p Hi _ Hs. by rewrite lookup_total_replicate_2 in Hs.
  - intros p [? Hp]. by rewrite lookup_empty in Hp.
  - rewrite take_replicate, filled_replicate. done.
  - lia.
  - rewrite live_replicate. lia.
Qed.

(** *** The slots that the probe gives *)

Lemma matches_slot m k c : wf m -> (c < capacity m + 31)%nat -> matches m k c = true -> (c < capacity m)%nat.
Proof.
  intros Hw Hc [Hm _]%andb_true_iff. zbools. apply byte_slot; [done..|]. rewrite Hm. pose proof (fingerprint_bound (hashFn k)). unfold EMPTY. lia.
Qed.

Lemma matches_inv m k c : matches m k c = true -> exists p e, slots m !!! c = Some p /\ nodes m !! p = Some e /\ nkey e = k /\ fullHash e = hashFn k.
Proof.
  intros [_ Hn]%andb_true_iff. unfold nodeIs in Hn. destruct (slots m !!! c) as [p|]; [|done]. destruct (nodes m !! p) as [e|] eqn:Ee; [|done].
  apply andb_true_iff in Hn as [Hh%Z.eqb_eq Hk%bool_decide_eq_true]. exists p, e. by rewrite Ee.
Qed.

Lemma scan_found m k i s : wf m -> scan m k 0 i None = Found s -> (s < capacity m)%nat /\ matches m k s = true.
Proof.
  intros Hw. unfold scan. destruct (List.find (fun i => matches m k (cell m (hashFn k) i)) _) as [j|] eqn:E; [|done]. intros [= <-].
  apply find_seq_some in E as (_ & HP & _). split; [|done]. apply (matches_slot m k); [done | by apply cell_bound, wf_cap | done].
Qed.

Lemma scan_insert m k i s : wf m -> scan m k 0 i None = Insert s -> (s < capacity m)%nat.
Proof.
  intros Hw. unfold scan. destruct (List.find (fun i => matches m k (cell m (hashFn k) i)) _) as [j|]; [done|]. intros [= <-].
  destruct (List.find (fun i => control m !!! cell m (hashFn k) i =? DELETED) _) as [j|] eqn:E; [|by apply masked_lt, wf_cap].
  apply find_seq_some in E as (_ & HP & _). zbools. apply byte_slot; [done | by apply cell_bound, wf_cap | by rewrite HP].
Qed.

(** *** Well-formedness is kept *)

Lemma wf_place m k v s : wf m -> numFilled m * 8 <= Z.of_nat (capacity m) * 7 -> (s < capacity m)%nat ->
  wf (place m k v (hashFn k) (fingerprint (hashFn k)) s).
Proof.
  intros Hw Hl Hs. pose proof (fingerprint_bound (hashFn k)) as Hfp. unfold place.
  assert (Hsc : (s < length (control m))%nat) by (rewrite (wf_control _ Hw); lia).
  assert (Hss : (s < length (slots m))%nat) by (by rewrite (wf_slots _ Hw)).
  assert (Hp : forall i p, (i < capacity m)%nat -> slots m !!! i = Some p -> (p < nextNode m)%nat).
  { intros i p Hi Hp. destruct (wf_live _ Hw i p Hi Hp) as (_ & e & He & _). apply (wf_next _ Hw). by eexists. }
  constructor; cbn [capacity control slots nodes nextNode numFilled numLive].
  - apply (wf_cap _ Hw).
  - by rewrite length_insert, (wf_control _ Hw).
  - by rewrite length_insert, (wf_slots _ Hw).
  - intros i Hi. rewrite lookup_total_insert_other by lia. by apply (wf_pad _ Hw).
  - intros i Hi. destruct (decide (i = s)) as [->|]; [by rewrite lookup_total_insert_same|].
    rewrite !lookup_total_insert_other by done. by apply (wf_free _ Hw).
  - intros i p Hi. destruct (decide (i = s)) as [->|].
    + rewrite !lookup_total_insert_same by done. intros [= <-]. split; [lia|]. rewrite lookup_insert_eq. by eexists.
    + rewrite !lookup_total_insert_other by done. intros Hip. rewrite lookup_insert_ne by (specialize (Hp i p Hi Hip); lia).
      by apply (wf_live _ Hw).
  - intros i j p Hi Hj. destruct (decide (i = s)) as [->|], (decide (j = s)) as [->|];
      rewrite ?lookup_total_insert_same, ?lookup_total_insert_other by done; [done | | |].
    + intros [= <-] Hx. specialize (Hp j _ Hj Hx). lia.
    + intros Hx [= <-]. specialize (Hp i _ Hi Hx). lia.
    + by apply (wf_inj _ Hw).
  - intros p. destruct (decide (p = nextNode m)) as [->|]; [lia|]. rewrite lookup_insert_ne by done. intros Hx%(wf_next _ Hw). lia.
  - rewrite take_insert_in by done. pose proof (filled_insert (take (capacity m) (control m)) s (fingerprint (hashFn k))) as Hf.
    pose proof (wf_filled _ Hw). destruct (decide _); lia.
  - lia.
  - pose proof (live_insert (slots m) s (nextNode m)). pose proof (wf_numLive _ Hw). lia.
Qed.

(** The map without the node of slot [s]. *)
Definition vacated (m : Map) (s p : nat) : Map :=
  mkMap (<[s := DELETED]> (control m)) (<[s := None]> (slots m)) (numLive m - 1) (numFilled m) (capacity m) (delete p (nodes m)) (nextNode m).

Lemma wf_vacated m s p : wf m -> (s < capacity m)%nat -> slots m !!! s = Some p -> wf (vacated m s p).
Proof.
  intros Hw Hs Hp. assert (Hsc : (s < length (control m))%nat) by (rewrite (wf_control _ Hw); lia).
  assert (Hss : (s < length (slots m))%nat) by (by rewrite (wf_slots _ Hw)). destruct (wf_live _ Hw s p Hs Hp) as (Hb & _).
  constructor; cbn [vacated capacity control slots nodes nextNode numFilled numLive].
  - apply (wf_cap _ Hw).
  - by rewrite length_insert, (wf_control _ Hw).
  - by rewrite length_insert, (wf_slots _ Hw).
  - intros i Hi. rewrite lookup_total_insert_other by lia. by apply (wf_pad _ Hw).
  - intros i Hi. destruct (decide (i = s)) as [->|]; [rewrite !lookup_total_insert_same by done; by right|].
    rewrite !lookup_total_insert_other by done. by apply (wf_free _ Hw).
  - intros i q Hi. destruct (decide (i = s)) as [->|]; [by rewrite lookup_total_insert_same|].
    rewrite !lookup_total_insert_other by done. intros Hq. rewrite lookup_delete_ne; [by apply (wf_live _ Hw)|].
    intros <-. by pose proof (wf_inj _ Hw i s p Hi Hs Hq Hp).
  - intros i j q Hi Hj. destruct (decide (i = s)) as [->|], (decide (j = s)) as [->|];
      rewrite ?lookup_total_insert_same, ?lookup_total_insert_other by done; [done..|]. by apply (wf_inj _ Hw).
  - intros q [e Hq]. apply lookup_delete_Some in Hq as [_ Hq]. apply (wf_next _ Hw). by eexists.
  - rewrite take_insert_in by done. pose proof (wf_filled _ Hw).
    pose proof (filled_insert_filled (take (capacity m) (control m)) s DELETED) as Hf. rewrite length_take, lookup_total_take_lt in Hf by done.
    assert (control m !!! s <> EMPTY) by (unfold EMPTY; lia). specialize (Hf ltac:(lia) ltac:(done)). lia.
  - apply (wf_load _ Hw).
  - pose proof (live_erase (slots m) s p Hss Hp). pose proof (wf_numLive _ Hw). lia.
Qed.

Lemma wf_alter m p v : wf m -> wf (on_nodes (alter (set_value v) p) m).
Proof.
  intros Hw. destruct Hw as [H1 H2 H3 H4 H5 H6 H7 H8 H9 H10 H11]. constructor; try done; cbn [on_nodes nodes].
  - intros i q Hi Hq. destruct (H6 i q Hi Hq) as (Hb & e & He & Hh). split; [done|]. destruct (decide (q = p)) as [->|].
    + rewrite lookup_alter_eq, He. by exists (set_value v e).
    + rewrite lookup_alter_ne by done. by exists e.
  - intros q Hq. apply H8. destruct (decide (q = p)) as [->|]; [rewrite lookup_alter_eq in Hq; by apply fmap_is_Some in Hq | by rewrite lookup_alter_ne in Hq].
Qed.

Lemma wf_clear m : wf m -> wf (clear m).
Proof.
  intros Hw. assert (Hl : length (replicate (capacity m) EMPTY) = capacity m) by apply length_replicate.
  assert (Hc : forall i, (i < capacity m + 31)%nat -> (replicate (capacity m) EMPTY ++ drop (capacity m) (control m)) !!! i = EMPTY).
  { intros i Hi. destruct (decide (i < capacity m)%nat).
    - rewrite lookup_total_app_l by lia. by apply lookup_total_replicate_2.
    - rewrite lookup_total_app_r by lia. rewrite lookup_total_drop, Hl. apply (wf_pad _ Hw). lia. }
  assert (Hs : forall i, (i < capacity m)%nat -> slots (clear m) !!! i = None).
  { intros i Hi. unfold clear. cbn [slots]. rewrite list_lookup_total_alt, list_lookup_imap.
    destruct (slots m !! i) as [s|] eqn:E; [|done]. cbn. destruct s as [p|]; [|by destruct (negb _)].
    apply list_lookup_total_correct in E. destruct (wf_live _ Hw i p Hi E) as (Hb & _).
    assert ((control m !!! i =? EMPTY) || (control m !!! i =? DELETED) = false) as ->; [|done].
    apply orb_false_iff. split; apply Z.eqb_neq; unfold EMPTY, DELETED; lia. }
  constructor; cbn [clear capacity control nodes nextNode numFilled numLive].
  - apply (wf_cap _ Hw).
  - rewrite length_app, length_replicate, length_drop, (wf_control _ Hw). lia.
  - unfold clear. cbn [slots]. by rewrite length_imap, (wf_slots _ Hw).
  - intros i Hi. apply Hc. lia.
  - intros i Hi _. left. apply Hc. lia.
  - intros i p Hi Hx. by rewrite Hs in Hx.
  - intros i j p Hi _ Hx. by rewrite Hs in Hx.
  - intros p [e Hp]. apply map_lookup_filter_Some in Hp as [Hp _]. apply (wf_next _ Hw). by eexists.
  - rewrite take_app_le, take_ge, filled_replicate by lia. done.
  - lia.
  - assert (live (slots (clear m)) = 0%nat) as ->; [|lia].
    assert (Hall : forall l : list (option nat), (forall i, (i < length l)%nat -> l !!! i = None) -> live l = 0%nat).
    { clear. induction l as [|a l IH]; intros H; [done|]. rewrite live_cons. pose proof (H 0%nat ltac:(cbn; lia)) as Ha. cbn in Ha. subst a.
      cbn. apply IH. intros i Hi. apply (H (S i)). cbn. lia. }
    apply Hall. intros i Hi. apply Hs. unfold clear in Hi. cbn [slots] in Hi. rewrite length_imap, (wf_slots _ Hw) in Hi. done.
Qed.

(** *** Growth *)

(** A table that is being filled from the slots of [m] in [l]. *)
Record filling (m : Map) (cap : nat) (l : list nat) (t : list Z * list (option nat)) : Prop := mkFilling {
  fl_control : length t.1 = (cap + 31)%nat;
  fl_slots : length t.2 = cap;
  fl_pad : forall i, (cap <= i < cap + 31)%nat -> t.1 !!! i = EMPTY;
  fl_free : forall i, (i < cap)%nat -> t.2 !!! i = None -> t.1 !!! i = EMPTY;
  fl_live : forall i p, (i < cap)%nat -> t.2 !!! i = Some p -> 0 <= t.1 !!! i < 128 /\ exists j, j ∈ l /\ slots m !!! j = Some p;
  fl_inj : forall i j p, (i < cap)%nat -> (j < cap)%nat -> t.2 !!! i = Some p -> t.2 !!! j = Some p -> i = j;
  fl_filled : (filled (take cap t.1) <= live ((fun j => slots m !!! j) <$> l))%nat;
  fl_count : live t.2 = live ((fun j => slots m !!! j) <$> l) }.

Lemma fingerprintRehash_bound h : 0 <= fingerprintRehash h < 128.
Proof. unfold fingerprintRehash. change 127 with (2 ^ 7 - 1). rewrite land_ones_mod by lia. apply Z.mod_pos_bound. lia. Qed.

Lemma masked_next cap pos : (exists n, 0 <= n /\ Z.of_nat cap = 2 ^ n) -> masked cap (Z.of_nat pos + 1) = ((pos + 1) mod cap)%nat.
Proof.
  intros (n & Hn & E). unfold masked, mask. rewrite E, land_ones_mod, <- E by lia.
  apply Nat2Z.inj. rewrite Nat2Z.inj_mod, Z2Nat.id by (apply Z.mod_pos_bound; pose proof (Z.pow_pos_nonneg 2 n); lia). f_equal. lia.
Qed.

Lemma insertIntoLoop_ok node fp cap n pos t : (exists n, 0 <= n /\ Z.of_nat cap = 2 ^ n) -> (pos < cap)%nat ->
  (exists d, (d < n)%nat /\ t.1 !!! ((pos + d) mod cap)%nat = EMPTY) ->
  exists x, (x < cap)%nat /\ t.1 !!! x = EMPTY /\ insertIntoLoop node fp cap n pos t = Some (<[x := fp]> t.1, <[x := Some node]> t.2).
Proof.
  intros Hc. revert pos. induction n as [|n IH]; intros pos Hp (d & Hd & He); [lia|]. cbn [insertIntoLoop].
  destruct (Z.eqb_spec (t.1 !!! pos) EMPTY) as [E|E]; [by exists pos|].
  destruct d as [|d]; [rewrite Nat.add_0_r, Nat.mod_small in He by done; done|].
  rewrite masked_next by done. apply IH; [apply Nat.mod_upper_bound; lia|]. exists d. split; [lia|].
  rewrite Nat.Div0.add_mod_idemp_l. by replace (pos + 1 + d)%nat with (pos + S d)%nat by lia.
Qed.

Lemma filling_insert m cap l t j p e : (exists n, 0 <= n /\ Z.of_nat cap = 2 ^ n) -> filling m cap l t -> slots m !!! j = Some p ->
  (forall j', j' ∈ l -> slots m !!! j' <> Some p) -> (live ((fun j => slots m !!! j) <$> l) < cap)%nat ->
  exists t', insertIntoTable p e cap t = Some t' /\ filling m cap (l ++ [j]) t'.
Proof.
  intros Hc [H1 H2 H3 H4 H5 H6 H7 H8] Hj Hnew Hroom. pose proof (fingerprintRehash_bound e) as Hfp.
  destruct (filled_lt t.1 cap) as (x0 & Hx0 & Ex0); [lia|lia|].
  assert (Hh : (masked cap e < cap)%nat).
  { destruct Hc as (n & Hn & E). unfold masked, mask. rewrite E, land_ones_mod by lia. pose proof (Z.pow_pos_nonneg 2 n). pose proof (Z.mod_pos_bound e (2 ^ n)). lia. }
  destruct (insertIntoLoop_ok p (fingerprintRehash e) cap cap (masked cap e) t Hc Hh) as (x & Hx & Ex & Hi).
  { destruct (decide (masked cap e <= x0)%nat).
    - exists (x0 - masked cap e)%nat. split; [lia|]. replace (masked cap e + (x0 - masked cap e))%nat with x0 by lia. by rewrite Nat.mod_small.
    - exists (x0 + cap - masked cap e)%nat. split; [lia|]. replace (masked cap e + (x0 + cap - masked cap e))%nat with (x0 + 1 * cap)%nat by lia.
      rewrite Nat.Div0.mod_add. by rewrite Nat.mod_small. }
  eexists. split; [exact Hi|]. assert (Hsl : t.2 !!! x = None).
  { destruct (t.2 !!! x) as [q|] eqn:Eq; [|done]. destruct (H5 x q Hx Eq) as [Hb _]. rewrite Ex in Hb. unfold EMPTY in Hb. lia. }
  assert (Hnone : forall i, (i < cap)%nat -> t.2 !!! i <> Some p).
  { intros i Hlt Hs. destruct (H5 i p Hlt Hs) as (_ & j' & Hj' & Hs'). by eapply Hnew. }
  constructor; cbn [fst snd].
  - by rewrite length_insert.
  - by rewrite length_insert.
  - intros i Hlt. rewrite lookup_total_insert_other by lia. auto.
  - intros i Hlt. destruct (decide (i = x)) as [->|]; [by rewrite lookup_total_insert_same by lia|]. rewrite !lookup_total_insert_other by done. auto.
  - intros i q Hlt. destruct (decide (i = x)) as [->|].
    + rewrite !lookup_total_insert_same by lia. intros [= <-]. split; [lia|]. exists j. split; [apply elem_of_app; right; by apply list_elem_of_singleton | done].
    + rewrite !lookup_total_insert_other by done. intros Hq. destruct (H5 i q Hlt Hq) as (Hb & j' & Hj' & Hs'). split; [done|]. exists j'. split; [apply elem_of_app; by left | done].
  - intros i i' q Hlt Hlt'. destruct (decide (i = x)) as [->|], (decide (i' = x)) as [->|]; rewrite ?lookup_total_insert_same, ?lookup_total_insert_other by lia; [done| | |eauto].
    + intros [= <-] Hq. by apply Hnone in Hq.
    + intros Hq [= <-]. by apply Hnone in Hq.
  - rewrite take_insert_in by done. rewrite fmap_app. unfold live in *. rewrite omap_app, length_app. cbn. rewrite Hj. cbn.
    pose proof (filled_insert (take cap t.1) x (fingerprintRehash e)) as Hf. destruct (decide _); lia.
  - rewrite fmap_app. unfold live at 2. rewrite omap_app, length_app. cbn. rewrite Hj. cbn. fold (live ((fun j => slots m !!! j) <$> l)). rewrite <- H8.
    clear -Hsl Hx H2. revert x Hx Hsl. rewrite <- H2. clear H2. generalize t.2. intros s. induction s as [|a s IH]; intros [|x] Hx Hsl; cbn [length] in Hx; [lia|lia| |].
    + cbn in Hsl. subst a. cbn [base.insert list_insert]. rewrite !live_cons. lia.
    + change (<[S x := Some p]> (a :: s)) with (a :: <[x := Some p]> s). rewrite !live_cons. rewrite (IH x ltac:(lia) Hsl). lia.
Qed.

Lemma live_slots m n : wf m -> (n <= capacity m)%nat -> (live ((fun j => slots m !!! j) <$> seq 0 n) <= live (slots m))%nat.
Proof.
  intros Hw Hn. assert (E : (fun j => slots m !!! j) <$> seq 0 n = take n (slots m)).
  { apply list_eq. intros i. rewrite list_lookup_fmap. destruct (decide (i < n)%nat).
    - rewrite lookup_seq_lt by done. cbn. rewrite lookup_take_lt by done. symmetry. apply list_lookup_lookup_total_lt. rewrite (wf_slots _ Hw). lia.
    - rewrite lookup_seq_ge, lookup_take_ge by lia. done. }
  rewrite E. rewrite <- (take_drop n (slots m)) at 2. unfold live. rewrite omap_app, length_app. lia.
Qed.

Lemma reinsert_ok m cap n t : wf m -> (exists k, 0 <= k /\ Z.of_nat cap = 2 ^ k) -> (live (slots m) < cap)%nat ->
  (n <= capacity m)%nat -> filling m cap (seq 0 n) t ->
  exists t', reinsert m cap (seq n (capacity m - n)) t = Some t' /\ filling m cap (seq 0 (capacity m)) t'.
Proof.
  intros Hw Hc Hroom. remember (capacity m - n)%nat as d eqn:Ed. revert n t Ed. induction d as [|d IH]; intros n t Ed Hn Hf; cbn [seq reinsert].
  { exists t. split; [done|]. by replace (capacity m) with n by lia. }
  pose proof (live_slots m n Hw ltac:(lia)) as Hl.
  assert (Hskip : slots m !!! n = None -> filling m cap (seq 0 (S n)) t).
  { intros Hs. rewrite seq_S. cbn [plus]. destruct Hf as [H1 H2 H3 H4 H5 H6 H7 H8]. constructor; try done.
    - intros i p Hi Hp. destruct (H5 i p Hi Hp) as (Hb & j & Hj & Hsj). split; [done|]. exists j. split; [apply elem_of_app; by left | done].
    - rewrite fmap_app. unfold live in *. rewrite omap_app, length_app. cbn. rewrite Hs. cbn. lia.
    - rewrite fmap_app. unfold live in *. rewrite omap_app, length_app. cbn. rewrite Hs. cbn. lia. }
  destruct (slots m !!! n) as [p|] eqn:Ep.
  - destruct (wf_live _ Hw n p ltac:(lia) Ep) as (Hb & e & He & _).
    assert ((control m !!! n =? EMPTY) || (control m !!! n =? DELETED) = false) as ->.
    { apply orb_false_iff. split; apply Z.eqb_neq; unfold EMPTY, DELETED; lia. }
    rewrite He. destruct (filling_insert m cap (seq 0 n) t n p (fullHash e) Hc Hf Ep) as (t' & Ht' & Hf').
    + intros j' Hj' Hs'. apply elem_of_seq in Hj'. assert (j' = n); [|lia]. eapply (wf_inj _ Hw); [lia|lia|exact Hs'|exact Ep].
    + lia.
    + rewrite Ht'. cbn. apply IH; [lia|lia|]. by rewrite seq_S.
  - assert ((if (control m !!! n =? EMPTY) || (control m !!! n =? DELETED) then Some t else Some t) = Some t) as -> by (by destruct (_ || _)).
    cbn. apply IH; [lia|lia|]. by apply Hskip.
Qed.

(** The capacity doubles, the nodes stay. *)
Lemma rehash_ok m : wf m -> exists m', rehash m (Z.of_nat (capacity m) * 2) = Some m' /\ wf m' /\ capacity m' = (2 * capacity m)%nat /\
  nodes m' = nodes m /\ nextNode m' = nextNode m /\ numFilled m' * 8 <= Z.of_nat (capacity m') * 7 /\
  (forall i p, (i < capacity m')%nat -> slots m' !!! i = Some p -> exists j, (j < capacity m)%nat /\ slots m !!! j = Some p).
Proof.
  intros Hw. pose proof (wf_cap _ Hw) as Hc. pose proof (cap_pos m Hc) as Hp. pose proof (wf_load _ Hw). pose proof (wf_numLive _ Hw).
  destruct Hc as (n & Hn & E). unfold rehash. rewrite (proj2 (Z.ltb_ge (Z.of_nat (capacity m) * 2) (numLive m))) by lia.
  assert (E2 : Z.of_nat (capacity m) * 2 = 2 ^ (n + 1)) by (rewrite E, Z.pow_add_r; lia).
  rewrite E2, land_ones_mod, Z_mod_same_full by lia. cbn [Z.eqb]. rewrite <- E2.
  replace (Z.to_nat (Z.of_nat (capacity m) * 2)) with (2 * capacity m)%nat by lia.
  destruct (Nat.eqb_spec (2 * capacity m) (capacity m)); [lia|]. set (cap := (2 * capacity m)%nat).
  assert (Hc2 : exists k, 0 <= k /\ Z.of_nat cap = 2 ^ k) by (exists (n + 1); unfold cap; lia).
  destruct (reinsert_ok m cap 0 (replicate (cap + 31) EMPTY, replicate cap None) Hw Hc2) as (t & Ht & Hf).
  - unfold cap. lia.
  - lia.
  - constructor; cbn [fst snd].
    + apply length_replicate.
    + apply length_replicate.
    + intros i Hi. apply lookup_total_replicate_2. lia.
    + intros i Hi _. apply lookup_total_replicate_2. lia.
    + intros i p Hi Hs. by rewrite lookup_total_replicate_2 in Hs.
    + intros i j p Hi _ Hs. by rewrite lookup_total_replicate_2 in Hs.
    + rewrite take_replicate, filled_replicate. lia.
    + apply live_replicate.
  - rewrite Nat.sub_0_r in Ht. rewrite Ht. cbn [mbind option_bind]. eexists. split; [done|].
    pose proof (live_slots m (capacity m) Hw ltac:(lia)) as Hl. destruct Hf as [H1 H2 H3 H4 H5 H6 H7 H8].
    split; [constructor|]; cbn [capacity control slots nodes nextNode numFilled numLive]; try done.
    + exists (n + 1). split; [lia|]. cbn [capacity]. unfold cap. lia.
    + intros i Hi Hs. left. by apply H4.
    + intros i p Hi Hs. destruct (H5 i p Hi Hs) as (Hb & j & Hj & Hsj). split; [done|]. apply elem_of_seq in Hj.
      destruct (wf_live _ Hw j p ltac:(lia) Hsj) as (_ & He). exact He.
    + apply (wf_next _ Hw).
    + lia.
    + unfold cap. lia.
    + rewrite H8. lia.
    + split; [done|]. split; [done|]. split; [done|]. split; [unfold cap; lia|].
      intros i p Hi Hs. destruct (H5 i p Hi Hs) as (_ & j & Hj & Hsj). apply elem_of_seq in Hj. exists j. split; [lia | done].
Qed.

Lemma rehashIfNeeded_ok m : wf m -> exists m', rehashIfNeeded m = Some m' /\ wf m' /\ (capacity m <= capacity m')%nat /\
  nodes m' = nodes m /\ nextNode m' = nextNode m /\ numFilled m' * 8 <= Z.of_nat (capacity m') * 7.
Proof.
  intros Hw. unfold rehashIfNeeded. destruct (needsRehash m) eqn:E.
  - destruct (rehash_ok m Hw) as (m' & Hm & Hw' & Hc & Hno & Hnx & Hl & _). exists m'. repeat (split; [done || lia|]). done.
  - apply orb_false_iff in E as [_ E]. apply Z.ltb_ge in E. exists m. repeat (split; [done || lia|]). lia.
Qed.

Lemma emplace_at (m : Map) k v r s m1 : probe m k (hashFn k) (fingerprint (hashFn k)) = Some r -> r = Insert s -> rehashIfNeeded m = Some m1 ->
  emplace hashFn m k v = Some (s, true, place m1 k v (hashFn k) (fingerprint (hashFn k)) s).
Proof. intros Hp -> Hr. unfold emplace. rewrite Hp. cbn [mbind option_bind]. by rewrite Hr. Qed.

Lemma emplace_found (m : Map) k v s p : probe m k (hashFn k) (fingerprint (hashFn k)) = Some (Found s) -> slots m !!! s = Some p ->
  emplace hashFn m k v = Some (s, false, on_nodes (alter (set_value v) p) m).
Proof. intros Hp Hs. unfold emplace. rewrite Hp. cbn [mbind option_bind]. by rewrite Hs. Qed.

Lemma emplace_wf m k v : wf m -> exists s b m', emplace hashFn m k v = Some (s, b, m') /\ wf m'.
Proof.
  intros Hw. destruct (probe_scan m k Hw) as (i & Hi & Hp). unfold emplace. rewrite Hp. cbn [mbind option_bind].
  destruct (scan m k 0 i None) as [s|s] eqn:Es.
  - apply scan_found in Es as [Hs Hm]; [|done]. destruct (matches_inv m k s Hm) as (p & e & Hsl & _). rewrite Hsl.
    eexists _, _, _. split; [done|]. by apply wf_alter.
  - apply scan_insert in Es; [|done]. destruct (rehashIfNeeded_ok m Hw) as (m' & -> & Hw' & Hle & _ & _ & Hl). cbn.
    eexists _, _, _. split; [done|]. apply wf_place; [done | done | lia].
Qed.

Lemma erase_wf m k : wf m -> exists n m', erase hashFn m k = Some (n, m') /\ wf m'.
Proof.
  intros Hw. destruct (probe_scan m k Hw) as (i & Hi & Hp). unfold erase. rewrite Hp. cbn [mbind option_bind].
  destruct (scan m k 0 i None) as [s|s] eqn:Es; [|by eexists _, _].
  apply scan_found in Es as [Hs Hm]; [|done]. destruct (matches_inv m k s Hm) as (p & e & Hsl & _). rewrite Hsl.
  eexists _, _. split; [done|]. by apply (wf_vacated m s p).
Qed.

Lemma emplace_some m k v m' : wf m -> snd <$> emplace hashFn m k v = Some m' -> wf m'.
Proof. intros Hw Ho. destruct (emplace_wf m k v Hw) as (s & b & m'' & E & Hw'). rewrite E in Ho. injection Ho as <-. exact Hw'. Qed.

Lemma erased_some m k m' : wf m -> snd <$> erase hashFn m k = Some m' -> wf m'.
Proof. intros Hw Ho. destruct (erase_wf m k Hw) as (n & m'' & E & Hw'). rewrite E in Ho. injection Ho as <-. exact Hw'. Qed.

Lemma run_op_wf m o m' : wf m -> run_op hashFn m o = Some m' -> wf m'.
Proof.
  intros Hw. destruct o as [k v|k|].
  - exact (emplace_some m k v m' Hw).
  - exact (erased_some m k m' Hw).
  - intros [= <-]. by apply wf_clear.
Qed.

Lemma reach_wf m : reach hashFn m -> wf m.
Proof.
  induction 1 as [n Hn|m o m' _ IH Ho]; [exact (wf_new n Hn) | exact (run_op_wf m o m' IH Ho)].
Qed.

(** *** What the operations do to the nodes *)

Lemma probe_cases (m : Map) k : wf m -> exists r, probe m k (hashFn k) (fingerprint (hashFn k)) = Some r /\
  match r with
  | Found s => (s < capacity m)%nat /\ exists p e, slots m !!! s = Some p /\ nodes m !! p = Some e /\ nkey e = k
  | Insert s => (s < capacity m)%nat
  end.
Proof.
  intros Hw. destruct (probe_scan m k Hw) as (i & _ & Hp). exists (scan m k 0 i None). split; [done|].
  destruct (scan m k 0 i None) as [s|s] eqn:E; [|by apply scan_insert in E].
  apply scan_found in E as [Hs Hm]; [|done]. split; [done|]. destruct (matches_inv m k s Hm) as (p & e & ? & ? & ? & _). by exists p, e.
Qed.

Lemma find_nodes m k r : wf m -> find hashFn m k = Some r ->
  match r with
  | Some s => (s < capacity m)%nat /\ exists p e, slots m !!! s = Some p /\ nodes m !! p = Some e /\ nkey e = k
  | None => True
  end.
Proof.
  intros Hw. destruct (probe_cases m k Hw) as ([s|s] & Hp & Hs); unfold find; rewrite Hp; cbn [mbind option_bind]; by intros [= <-].
Qed.

Lemma erase_nodes m k n m' p e : wf m -> erase hashFn m k = Some (n, m') -> nodes m' !! p = Some e -> nodes m !! p = Some e.
Proof.
  intros Hw. destruct (probe_cases m k Hw) as ([s|s] & Hp & Hs); unfold erase; rewrite Hp; cbn [mbind option_bind].
  - destruct Hs as (_ & q & eq & Hq & _). rewrite Hq. intros [= _ <-]. cbn [nodes]. intros He. by apply lookup_delete_Some in He as [_ He].
  - by intros [= _ <-].
Qed.

Lemma emplace_nodes m k v s b m' : wf m -> emplace hashFn m k v = Some (s, b, m') ->
  exists p, slots m' !!! s = Some p /\
    nodes m' = (if b then <[p := mkNode k v (hashFn k)]> (nodes m) else alter (set_value v) p (nodes m)) /\ (b = true -> find hashFn m k = Some None).
Proof.
  intros Hw. destruct (probe_cases m k Hw) as ([q|q] & Hp & Hs).
  - destruct Hs as (_ & p & e & Hq & _). rewrite (emplace_found m k v q p Hp Hq). intros [= <- <- <-]. exists p. done.
  - destruct (rehashIfNeeded_ok m Hw) as (m1 & Hr & Hw1 & Hle & Hn & Hx & _). rewrite (emplace_at m k v _ q m1 Hp eq_refl Hr).
    intros [= <- <- <-]. exists (nextNode m1). unfold place. cbn [slots nodes]. rewrite Hn. split; [apply lookup_total_insert_same; rewrite (wf_slots _ Hw1); lia|].
    split; [done|]. intros _. unfold find. by rewrite Hp.
Qed.

Lemma subscript_cases (m : Map) k v r : subscript hashFn m k v = Some r ->
  (exists i, find hashFn m k = Some (Some i) /\ r = (i, m)) \/
  (find hashFn m k = Some None /\ exists b, emplace hashFn m k v = Some (r.1, b, r.2)).
Proof.
  unfold subscript. unfold mbind at 1, option_bind at 1. destruct (find hashFn m k) as [[i|]|]; [| |discriminate].
  - intros H. left. exists i. split; [reflexivity|]. congruence.
  - unfold mbind, option_bind. generalize (emplace hashFn m k v). intros [[[j b] m']|] H; [|discriminate].
    right. split; [reflexivity|]. exists b. apply Some_inj in H. subst r. reflexivity.
Qed.

(** C26: The probe, which compares 32 control bytes at a time, is the scan of its
    cells one after the other: it has the first cell with the key up to the end
    of the group of the first empty cell, or else the first deleted one there,
    or else the empty one. It never gives up: whatever was inserted and erased,
    some cell is empty, so that no operation aborts or runs on. *)
Theorem probe_is_scan m k : reach hashFn m ->
  (exists i, first_empty m (hashFn k) 0 i /\ probe m k (hashFn k) (fingerprint (hashFn k)) = Some (scan m k 0 i None)) /\
  (forall o, is_Some (run_op hashFn m o)).
Proof.
  intros Hw%reach_wf. split; [by apply probe_scan|]. intros [k' v|k'|]; cbn [run_op].
  - destruct (emplace_wf m k' v Hw) as (s & b & m' & -> & _). by eexists.
  - destruct (erase_wf m k' Hw) as (n & m' & -> & _). by eexists.
  - by eexists.
Qed.

(** ** Maps whose entries are where the probe looks for them *)

Definition entry (m : Map) (s : nat) (e : Node) : Prop := (s < capacity m)%nat /\ exists p, slots m !!! s = Some p /\ nodes m !! p = Some e.

(** The entry is in a cell of its key that no empty group comes before. *)
Definition placed (m : Map) (s : nat) (e : Node) : Prop :=
  control m !!! s = fingerprint (hashFn (nkey e)) /\ exists i, cell m (hashFn (nkey e)) i = s /\
    forall j, (j < 32 * (i / 32))%nat -> control m !!! cell m (hashFn (nkey e)) j <> EMPTY.

Lemma entry_matches m s e : wf m -> entry m s e -> control m !!! s = fingerprint (hashFn (nkey e)) -> matches m (nkey e) s = true.
Proof.
  intros Hw (Hs & p & Hp & He) Hc. unfold matches, nodeIs. rewrite Hc, Hp, He, Z.eqb_refl. cbn.
  destruct (wf_live _ Hw s p Hs Hp) as (_ & e' & He' & Hh). rewrite He in He'. injection He' as <-. by rewrite Hh, Z.eqb_refl, bool_decide_true.
Qed.

Lemma matches_entry m k s : (s < capacity m)%nat -> matches m k s = true -> exists e, entry m s e /\ nkey e = k.
Proof. intros Hs (p & e & Hp & He & Hk & _)%matches_inv. exists e. split; [|done]. split; [done|]. by exists p. Qed.

(** Entries of one key that are in one slot are found there. *)
Lemma find_placed m s e : wf m -> entry m s e -> placed m s e -> (forall s' e', entry m s' e' -> nkey e' = nkey e -> s' = s) ->
  find hashFn m (nkey e) = Some (Some s) /\ get hashFn m (nkey e) = Some (nvalue e).
Proof.
  intros Hw He (Hc & j & Hj & Hne) Hu. pose proof (entry_matches m s e Hw He Hc) as Hm.
  destruct (probe_scan m (nkey e) Hw) as (i & (_ & Hi & Hmin) & Hp).
  assert (Hji : (j < 32 * (i / 32) + 32)%nat).
  { assert (Hle : (32 * (j / 32) <= i)%nat) by (destruct (decide (32 * (j / 32) <= i)%nat); [done | exfalso; eapply Hne; [|exact Hi]; lia]).
    assert (j / 32 <= i / 32)%nat by (apply Nat.div_le_lower_bound; lia). pose proof (Nat.div_mod_eq j 32). pose proof (Nat.mod_upper_bound j 32). lia. }
  assert (Hf : find hashFn m (nkey e) = Some (Some s)).
  { unfold find. rewrite Hp. cbn. unfold scan. rewrite Nat.sub_0_r.
    destruct (List.find (fun i => matches m (nkey e) (cell m (hashFn (nkey e)) i)) _) as [j'|] eqn:E.
    - apply find_seq_some in E as (Hj' & HP & _). do 2 f_equal. pose proof (matches_slot m _ _ Hw (cell_bound m _ _ (wf_cap _ Hw)) HP) as Hlt.
      destruct (matches_entry m _ _ Hlt HP) as (e' & He' & Hk). by apply (Hu _ e').
    - rewrite find_seq_none in E. specialize (E j ltac:(lia)). cbn in E. rewrite Hj, Hm in E. done. }
  split; [done|]. unfold get. rewrite Hf. destruct He as (_ & p & -> & He). cbn. by rewrite He.
Qed.

Lemma get_absent m k : wf m -> (forall i s e, first_empty m (hashFn k) 0 i -> entry m s e -> nkey e = k ->
  forall j, (j < 32 * (i / 32) + 32)%nat -> cell m (hashFn k) j <> s) -> find hashFn m k = Some None /\ get hashFn m k = None.
Proof.
  intros Hw Hno. destruct (probe_scan m k Hw) as (i & Hi & Hp).
  assert (Hf : find hashFn m k = Some None); [|split; [done | unfold get; by rewrite Hf]].
  unfold find. rewrite Hp. cbn. unfold scan. rewrite Nat.sub_0_r.
  destruct (List.find (fun i => matches m k (cell m (hashFn k) i)) _) as [j|] eqn:E; [|done].
  apply find_seq_some in E as (Hj & HP & _). pose proof (matches_slot m k _ Hw (cell_bound m _ _ (wf_cap _ Hw)) HP) as Hlt.
  destruct (matches_entry m k _ Hlt HP) as (e & He & Hk). exfalso.
  eapply (Hno i); [exact Hi | exact He | exact Hk | | reflexivity]. lia.
Qed.

Context `{!Countable Key}.

Record ordered (m : Map) (g : gmap Key Value) : Prop := mkOrdered {
  od_wf : wf m;
  od_size : numLive m = Z.of_nat (base.size g);
  od_in : forall s e, entry m s e -> g !! nkey e = Some (nvalue e) /\ placed m s e;
  od_uniq : forall s s' e e', entry m s e -> entry m s' e' -> nkey e = nkey e' -> s = s';
  od_all : forall k v, g !! k = Some v -> exists s e, entry m s e /\ nkey e = k }.

Lemma ordered_get m g k : ordered m g -> get hashFn m k = g !! k.
Proof.
  intros [Hw _ Hin Hu Hall]. destruct (g !! k) as [v|] eqn:E.
  - destruct (Hall k v E) as (s & e & He & <-). destruct (Hin s e He) as [Hv Hp]. rewrite Hv in E. injection E as <-.
    apply (find_placed m s e Hw He Hp). intros s' e' He' Hk. by eapply Hu.
  - apply get_absent; [done|]. intros i s e _ He <-. destruct (Hin s e He) as [Hv _]. by rewrite Hv in E.
Qed.

Lemma ordered_find m g k v : ordered m g -> g !! k = Some v -> exists s p e, find hashFn m k = Some (Some s) /\
  (s < capacity m)%nat /\ slots m !!! s = Some p /\ nodes m !! p = Some e /\ nkey e = k.
Proof.
  intros [Hw _ Hin Hu Hall] Hk. destruct (Hall k v Hk) as (s & e & He & <-). destruct (Hin s e He) as [_ Hp].
  destruct (find_placed m s e Hw He Hp) as [Hf _]; [intros s' e' He' ?; by eapply Hu|]. destruct He as (Hs & p & Hp' & He).
  exists s, p, e. done.
Qed.

(** What [find] says is what the probe says. *)
Lemma find_probe (m : Map) k r : find hashFn m k = Some (Some r) -> probe m k (hashFn k) (fingerprint (hashFn k)) = Some (Found r).
Proof. unfold find. destruct (probe _ _ _ _) as [[s|s]|]; cbn; congruence. Qed.

(** A byte that was in use or deleted stays so. *)
Lemma placed_mono (m m' : Map) s e : capacity m' = capacity m -> cap_ok m -> control m' !!! s = control m !!! s ->
  (forall c, (c < capacity m + 31)%nat -> control m !!! c <> EMPTY -> control m' !!! c <> EMPTY) -> placed m s e -> placed m' s e.
Proof.
  intros Hc Hok Hs Hm (Hf & i & Hi & Hj). split; [by rewrite Hs|]. exists i.
  assert (Hcell : forall j, cell m' (hashFn (nkey e)) j = cell m (hashFn (nkey e)) j) by (intros; unfold cell, start; by rewrite Hc).
  split; [by rewrite Hcell|]. intros j Hlt. rewrite Hcell. apply Hm; [by apply cell_bound | by apply Hj].
Qed.

Lemma ordered_vacated m g s p e : ordered m g -> (s < capacity m)%nat -> slots m !!! s = Some p -> nodes m !! p = Some e ->
  ordered (vacated m s p) (delete (nkey e) g).
Proof.
  intros [Hw Hsz Hin Hu Hall] Hs Hp He. assert (Hent : entry m s e) by (split; [done | by exists p]).
  assert (Hss : (s < length (slots m))%nat) by (by rewrite (wf_slots _ Hw)).
  assert (Hsc : (s < length (control m))%nat) by (rewrite (wf_control _ Hw); lia).
  assert (Hold : forall s' e', entry (vacated m s p) s' e' -> s' <> s /\ entry m s' e').
  { intros s' e' (Hs' & p' & Hp' & He'). cbn [vacated capacity slots nodes] in *. destruct (decide (s' = s)) as [->|Hne]; [by rewrite lookup_total_insert_same in Hp'|].
    rewrite lookup_total_insert_other in Hp' by done. apply lookup_delete_Some in He' as [_ He']. split; [done|]. split; [done|]. by exists p'. }
  assert (Hkey : forall s' e', s' <> s -> entry m s' e' -> nkey e' <> nkey e) by (intros s' e' Hne He' Hk; apply Hne; by eapply Hu).
  constructor.
  - by apply wf_vacated.
  - destruct (Hin s e Hent) as [Hg _]. cbn [vacated numLive]. rewrite map_size_delete_Some by (by eexists). rewrite Hsz.
    assert (base.size g <> 0%nat); [|lia]. rewrite map_size_non_empty_iff. intros ->. by rewrite lookup_empty in Hg.
  - intros s' e' [Hne He']%Hold. destruct (Hin s' e' He') as [Hg Hpl]. split; [rewrite lookup_delete_ne; [done|]; intros Hx; by eapply Hkey|].
    apply (placed_mono m); [done | apply (wf_cap _ Hw) | by apply lookup_total_insert_other | | done].
    intros c Hc Hnz. cbn [vacated control]. destruct (decide (c = s)) as [->|]; [by rewrite lookup_total_insert_same | by rewrite lookup_total_insert_other].
  - intros s1 s2 e1 e2 [_ H1]%Hold [_ H2]%Hold. by apply Hu.
  - intros k v Hk. apply lookup_delete_Some in Hk as [Hne Hk]. destruct (Hall k v Hk) as (s' & e' & He' & Hke). exists s', e'. split; [|done].
    destruct He' as (Hs' & p' & Hp' & He'). assert (s' <> s) by (intros ->; apply Hne; rewrite <- Hke; congruence).
    split; [done|]. exists p'. cbn [vacated slots nodes]. rewrite lookup_total_insert_other by done. split; [done|].
    rewrite lookup_delete_ne; [done|]. intros <-. by pose proof (wf_inj _ Hw s' s p Hs' Hs Hp' Hp).
Qed.

Lemma ordered_alter m g s p e v : ordered m g -> (s < capacity m)%nat -> slots m !!! s = Some p -> nodes m !! p = Some e ->
  ordered (on_nodes (alter (set_value v) p) m) (<[nkey e := v]> g).
Proof.
  intros [Hw Hsz Hin Hu Hall] Hs Hp He. assert (Hent : entry m s e) by (split; [done | by exists p]).
  set (m' := on_nodes (alter (set_value v) p) m).
  assert (Hold : forall s' e', entry m' s' e' -> (s' = s /\ e' = set_value v e) \/ (s' <> s /\ entry m s' e')).
  { intros s' e' (Hs' & p' & Hp' & He'). cbn in Hs', Hp', He'. destruct (decide (p' = p)) as [->|Hne].
    - left. split; [by eapply (wf_inj _ Hw)|]. rewrite lookup_alter_eq, He in He'. by injection He' as <-.
    - rewrite lookup_alter_ne in He' by done. right. split; [intros ->; congruence|]. split; [done | by exists p']. }
  assert (Hkey : forall s' e', s' <> s -> entry m s' e' -> nkey e' <> nkey e) by (intros s' e' Hne He' Hk; apply Hne; by eapply Hu).
  destruct (Hin s e Hent) as [Hg Hpl]. constructor.
  - by apply wf_alter.
  - cbn. rewrite map_size_insert_Some by (by eexists). done.
  - intros s' e' [[-> ->]|[Hne He']]%Hold.
    + cbn [nkey set_value nvalue]. rewrite lookup_insert_eq. split; [done|]. exact Hpl.
    + destruct (Hin s' e' He') as [Hg' Hpl']. split; [|exact Hpl']. rewrite lookup_insert_ne; [done|]. intros Hx. by eapply Hkey.
  - intros s1 s2 e1 e2 [[-> ->]|[Hn1 H1]]%Hold [[-> ->]|[Hn2 H2]]%Hold; [done| | |by apply Hu].
    + intros Hk. exfalso. by eapply (Hkey s2 e2).
    + intros Hk. exfalso. by eapply (Hkey s1 e1).
  - intros k w. rewrite lookup_insert. case_decide as E.
    + intros _. subst k. exists s, (set_value v e). split; [|done]. split; [done|]. exists p. split; [done|]. cbn. by rewrite lookup_alter_eq, He.
    + intros Hk. destruct (Hall k w Hk) as (s' & e' & He' & Hke). exists s', e'. split; [|done]. destruct He' as (Hs' & p' & Hp' & He').
      split; [done|]. exists p'. split; [done|]. cbn. rewrite lookup_alter_ne; [done|]. intros ->. rewrite He in He'. injection He' as <-. by apply E.
Qed.

(** A slot that was free takes a new entry. *)
Lemma entry_place m k v s s' e' : wf m -> (s < capacity m)%nat ->
  entry (place m k v (hashFn k) (fingerprint (hashFn k)) s) s' e' <->
  (s' = s /\ e' = mkNode k v (hashFn k)) \/ (s' <> s /\ entry m s' e').
Proof.
  intros Hw Hs. assert (Hss : (s < length (slots m))%nat) by (by rewrite (wf_slots _ Hw)).
  assert (Hold : forall i p, (i < capacity m)%nat -> slots m !!! i = Some p -> p <> nextNode m).
  { intros i p Hi Hp ->. destruct (wf_live _ Hw i _ Hi Hp) as (_ & e & He & _). pose proof (wf_next _ Hw (nextNode m)) as Hx.
    assert (nextNode m < nextNode m)%nat; [apply Hx; by eexists | lia]. }
  unfold entry, place. cbn [capacity slots nodes]. destruct (decide (s' = s)) as [->|Hne].
  - rewrite lookup_total_insert_same by done. split.
    + intros (_ & p & [= <-] & He). rewrite lookup_insert_eq in He. injection He as <-. by left.
    + intros [[_ ->]|[? _]]; [|done]. split; [done|]. eexists. split; [done|]. by rewrite lookup_insert_eq.
  - rewrite lookup_total_insert_other by done. split.
    + intros (Hs' & p & Hp & He). right. split; [done|]. split; [done|]. exists p. split; [done|].
      rewrite lookup_insert_ne in He; [done|]. intros <-. by eapply Hold.
    + intros [[? _]|(_ & Hs' & p & Hp & He)]; [done|]. split; [done|]. exists p. split; [done|].
      rewrite lookup_insert_ne; [done|]. intros <-. by eapply Hold.
Qed.

Lemma place_control m k v s c : wf m -> (s < capacity m)%nat -> (c < capacity m + 31)%nat -> control m !!! c <> EMPTY ->
  control (place m k v (hashFn k) (fingerprint (hashFn k)) s) !!! c <> EMPTY.
Proof.
  intros Hw Hs Hc Hne. unfold place. cbn [control]. destruct (decide (c = s)) as [->|].
  - rewrite lookup_total_insert_same by (rewrite (wf_control _ Hw); lia). pose proof (fingerprint_bound (hashFn k)). unfold EMPTY. lia.
  - by rewrite lookup_total_insert_other.
Qed.

Lemma ordered_place m g k v s i : ordered m g -> g !! k = None -> numFilled m * 8 <= Z.of_nat (capacity m) * 7 -> (s < capacity m)%nat ->
  slots m !!! s = None -> cell m (hashFn k) i = s -> (forall j, (j < 32 * (i / 32))%nat -> control m !!! cell m (hashFn k) j <> EMPTY) ->
  ordered (place m k v (hashFn k) (fingerprint (hashFn k)) s) (<[k := v]> g).
Proof.
  intros [Hw Hsz Hin Hu Hall] Hk Hl Hs Hfree Hi Hj. pose proof (wf_cap _ Hw) as Hc.
  assert (Hsc : (s < length (control m))%nat) by (rewrite (wf_control _ Hw); lia).
  assert (Hkey : forall s' e', entry m s' e' -> nkey e' <> k).
  { intros s' e' He' <-. destruct (Hin s' e' He') as [Hg _]. by rewrite Hg in Hk. }
  constructor.
  - by apply wf_place.
  - rewrite map_size_insert_None by done. unfold place. cbn [numLive]. lia.
  - intros s' e' [[-> ->]|[Hne He']]%entry_place; [| |done|done].
    + cbn [nkey nvalue]. rewrite lookup_insert_eq. split; [done|]. split; [unfold place; cbn; by apply lookup_total_insert_same|].
      cbn [nkey]. exists i. split; [done|]. intros j Hlt. apply place_control; [done | done | exact (cell_bound m (hashFn k) j Hc) | exact (Hj j Hlt)].
    + destruct (Hin s' e' He') as [Hg Hpl]. split; [rewrite lookup_insert_ne; [done|]; intros Hx; by eapply Hkey|].
      apply (placed_mono m); [done | done | unfold place; cbn; by apply lookup_total_insert_other | | done].
      intros c Hc' Hnz. by apply place_control.
  - intros s1 s2 e1 e2 H1 H2. apply entry_place in H1; [|done..]. apply entry_place in H2; [|done..].
    destruct H1 as [[-> ->]|[Hn1 H1]], H2 as [[-> ->]|[Hn2 H2]]; cbn [nkey]; [done | | |by apply Hu].
    + intros Hx. exfalso. by eapply (Hkey s2 e2).
    + intros Hx. exfalso. by eapply (Hkey s1 e1).
  - intros k' w. rewrite lookup_insert. case_decide as E.
    + intros _. subst k'. exists s, (mkNode k v (hashFn k)). split; [|done]. apply entry_place; [done..|]. by left.
    + intros Hw'. destruct (Hall k' w Hw') as (s' & e' & He' & Hke). exists s', e'. split; [|done]. apply entry_place; [done..|].
      right. split; [|done]. intros ->. destruct He' as (_ & p & Hp & _). by rewrite Hfree in Hp.
Qed.

Lemma free_slot m s : wf m -> (s < capacity m)%nat -> control m !!! s = EMPTY \/ control m !!! s = DELETED -> slots m !!! s = None.
Proof.
  intros Hw Hs Hc. destruct (slots m !!! s) as [p|] eqn:E; [|done]. destruct (wf_live _ Hw s p Hs E) as (Hb & _).
  unfold EMPTY, DELETED in Hc. lia.
Qed.

Lemma no_entry_ordered m : wf m -> numLive m = 0 -> (forall s, (s < capacity m)%nat -> slots m !!! s = None) -> ordered m ∅.
Proof.
  intros Hw Hn Hs. assert (Hno : forall s e, ~ entry m s e) by (intros s e (Hlt & p & Hp & _); by rewrite Hs in Hp).
  constructor; [done | by rewrite Hn | | |].
  - intros s e He. by apply Hno in He.
  - intros s s' e e' He. by apply Hno in He.
  - intros k v Hk. by rewrite lookup_empty in Hk.
Qed.

Lemma ordered_new n : n <= 2 ^ 63 -> ordered (StableHashMap_new n) ∅.
Proof.
  intros Hn. apply no_entry_ordered; [by apply wf_new | done|]. intros s Hs. apply lookup_total_replicate_2. exact Hs.
Qed.

Lemma ordered_clear m g : ordered m g -> ordered (clear m) ∅.
Proof.
  intros Ho. pose proof (wf_clear m (od_wf _ _ Ho)) as Hw. apply no_entry_ordered; [done | done|].
  intros s Hs. apply free_slot; [done | done|]. left. unfold clear. cbn [control capacity] in *.
  rewrite lookup_total_app_l by (by rewrite length_replicate). by apply lookup_total_replicate_2.
Qed.

(** The probe for a new key comes to padding: every slot from the home to the
    end of the table is in use. *)
Definition wraps (m : Map) (k : Key) : Prop := exists i, first_empty m (hashFn k) 0 i /\ (capacity m <= cell m (hashFn k) i)%nat /\
  forall j, (j < 32 * (i / 32) + 32)%nat -> control m !!! cell m (hashFn k) j <> DELETED.

Lemma ordered_no_match m g k i : ordered m g -> g !! k = None ->
  List.find (fun i => matches m k (cell m (hashFn k) i)) (seq 0 i) = None.
Proof.
  intros [Hw _ Hin _ _] Hk. apply find_seq_none. intros j _. destruct (matches m k _) eqn:E; [|done].
  pose proof (matches_slot m k _ Hw (cell_bound m _ _ (wf_cap _ Hw)) E) as Hlt. destruct (matches_entry m k _ Hlt E) as (e & He & <-).
  destruct (Hin _ e He) as [Hg _]. by rewrite Hg in Hk.
Qed.

(** What the scan gives for a key that is not there. *)
Lemma scan_new m g k i : ordered m g -> g !! k = None -> exists s, scan m k 0 i None = Insert s /\
  ((exists j, (j < 32 * (i / 32) + 32)%nat /\ cell m (hashFn k) j = s /\ control m !!! s = DELETED) \/
   ((forall j, (j < 32 * (i / 32) + 32)%nat -> control m !!! cell m (hashFn k) j <> DELETED) /\ s = masked (capacity m) (Z.of_nat (cell m (hashFn k) i)))).
Proof.
  intros Ho Hk. unfold scan. rewrite Nat.sub_0_r, (ordered_no_match m g k _ Ho Hk).
  destruct (List.find (fun i => control m !!! cell m (hashFn k) i =? DELETED) _) as [j|] eqn:Ed; eexists; (split; [reflexivity|]).
  - apply find_seq_some in Ed as (Hj & HP & _). apply Z.eqb_eq in HP. left. exists j. split; [lia|]. by split.
  - right. split; [|done]. intros j Hj HP. rewrite find_seq_none in Ed. specialize (Ed j ltac:(lia)). cbv beta in Ed. by rewrite HP in Ed.
Qed.

Lemma no_rehash (m : Map) : needsRehash m = false -> rehashIfNeeded m = Some m /\ numFilled m * 8 <= Z.of_nat (capacity m) * 7.
Proof. intros Hr. unfold rehashIfNeeded. rewrite Hr. split; [done|]. apply orb_false_iff in Hr as [_ Hr]. by apply Z.ltb_ge in Hr. Qed.

Lemma emplace_new m g k v : ordered m g -> g !! k = None -> needsRehash m = false -> ~ wraps m k ->
  exists s m', emplace hashFn m k v = Some (s, true, m') /\ ordered m' (<[k := v]> g).
Proof.
  intros Ho Hk Hr Hnw. pose proof Ho as [Hw _ _ _ _]. pose proof (wf_cap _ Hw) as Hc. destruct (no_rehash m Hr) as [Hr' Hl].
  destruct (probe_scan m k Hw) as (i & Hi & Hp). destruct (scan_new m g k i Ho Hk) as (s & Hs & Hcase).
  eexists s, _. split; [exact (emplace_at m k v _ s m Hp Hs Hr')|]. pose proof Hi as (_ & Hie & Hmin). pose proof (Nat.div_mod_eq i 32) as Hdm.
  assert (Hwin : forall j, (j < 32 * (i / 32))%nat -> control m !!! cell m (hashFn k) j <> EMPTY) by (intros j Hj; apply Hmin; lia).
  destruct Hcase as [(j & Hj & Hcell & HP)|[Hnd ->]].
  - assert (Hlt : (s < capacity m)%nat).
    { apply byte_slot; [done | rewrite <- Hcell; by apply cell_bound | by rewrite HP]. }
    apply (ordered_place m g k v s j); [done | done | done | done | | done |].
    + apply free_slot; [done | done | by right].
    + intros j' Hj'. apply Hwin. assert (j / 32 <= i / 32)%nat; [|lia].
      assert (j / 32 < i / 32 + 1)%nat; [|lia]. apply Nat.Div0.div_lt_upper_bound. lia.
  - destruct (decide (capacity m <= cell m (hashFn k) i)%nat) as [Hge|Hlt]; [exfalso; apply Hnw; by exists i|].
    rewrite masked_small by (done || lia). apply (ordered_place m g k v _ i); [done | done | done | lia | | done | done].
    apply free_slot; [done | lia | by left].
Qed.

Lemma emplace_old m g k v : ordered m g -> is_Some (g !! k) ->
  exists s m', emplace hashFn m k v = Some (s, false, m') /\ ordered m' (<[k := v]> g).
Proof.
  intros Ho [v0 Hk]. destruct (ordered_find m g k v0 Ho Hk) as (s0 & p & e & Hf & Hs & Hp & Hne & Hke).
  eexists s0, _. split; [exact (emplace_found m k v s0 p (find_probe m k s0 Hf) Hp)|].
  rewrite <- Hke. by apply (ordered_alter m g s0 p e v).
Qed.

Lemma erase_found (m : Map) k s p : probe m k (hashFn k) (fingerprint (hashFn k)) = Some (Found s) -> slots m !!! s = Some p ->
  erase hashFn m k = Some (1, vacated m s p).
Proof. intros Hp Hs. unfold erase. rewrite Hp. cbn [mbind option_bind]. by rewrite Hs. Qed.

Lemma erase_absent (m : Map) k r s : probe m k (hashFn k) (fingerprint (hashFn k)) = Some r -> r = Insert s -> erase hashFn m k = Some (0, m).
Proof. intros Hp ->. unfold erase. by rewrite Hp. Qed.

Lemma erase_ordered m g k : ordered m g ->
  exists m', erase hashFn m k = Some (if decide (is_Some (g !! k)) then 1 else 0, m') /\ ordered m' (delete k g).
Proof.
  intros Ho. destruct (decide (is_Some (g !! k))) as [[v0 Hk]|Hk].
  - destruct (ordered_find m g k v0 Ho Hk) as (s0 & p & e & Hf & Hs & Hp & Hne & Hke).
    eexists. split; [exact (erase_found m k s0 p (find_probe m k s0 Hf) Hp)|]. rewrite <- Hke. by apply (ordered_vacated m g s0 p e).
  - apply eq_None_not_Some in Hk. destruct (probe_scan m k (od_wf _ _ Ho)) as (i & Hi & Hpr). destruct (scan_new m g k i Ho Hk) as (s & Hs & _).
    exists m. split; [exact (erase_absent m k _ s Hpr Hs)|]. by rewrite delete_id.
Qed.

(** A run of a map, and the finite map that it should be, in which a new key
    neither makes the table grow nor comes to its end. *)
Inductive traced : Map -> gmap Key Value -> Prop :=
  | tr_new n : n <= 2 ^ 63 -> traced (StableHashMap_new n) ∅
  | tr_emplace m g k v s b m' : traced m g -> (g !! k = None -> needsRehash m = false /\ ~ wraps m k) ->
      emplace hashFn m k v = Some (s, b, m') -> traced m' (<[k := v]> g)
  | tr_erase m g k n m' : traced m g -> erase hashFn m k = Some (n, m') -> traced m' (delete k g)
  | tr_clear m g : traced m g -> traced (clear m) ∅.

Lemma traced_ordered m g : traced m g -> ordered m g.
Proof.
  induction 1 as [n Hn|m g k v s b m' _ IH Hq He|m g k n m' _ IH He|m g _ IH].
  - by apply ordered_new.
  - destruct (g !! k) as [v0|] eqn:Hk.
    + destruct (emplace_old m g k v IH) as (s' & m'' & He' & Ho); [by eexists|]. rewrite He in He'. by injection He' as -> -> ->.
    + destruct (Hq eq_refl) as [Hr Hw]. destruct (emplace_new m g k v IH Hk Hr Hw) as (s' & m'' & He' & Ho). rewrite He in He'. by injection He' as -> -> ->.
  - destruct (erase_ordered m g k IH) as (m'' & He' & Ho). rewrite He in He'. by injection He' as -> ->.
  - by eapply ordered_clear.
Qed.

(** C25: As long as no new key makes the table grow or finds every slot from its
    home to the end in use, the map is a finite map, whatever the hash function
    and through erasures and deleted slots: every operation ends, lookups
    give what the finite map has, an insertion reports whether the key was new
    and an erasure how many entries went, and the size is right. *)
Theorem ordered_map_refines m g : traced m g ->
  (forall k, get hashFn m k = g !! k) /\ size m = Z.of_nat (base.size g) /\
  (forall k v, exists s b m', emplace hashFn m k v = Some (s, b, m') /\ (g !! k = None -> needsRehash m = false -> ~ wraps m k -> b = true /\ get hashFn m' k = Some v)) /\
  (forall k, exists n m', erase hashFn m k = Some (n, m') /\ n = (if decide (is_Some (g !! k)) then 1 else 0) /\ get hashFn m' k = None).
Proof.
  intros Ho%traced_ordered. pose proof (od_wf _ _ Ho) as Hw. split; [intros k; by apply ordered_get|]. split; [apply Ho|]. split.
  - intros k v. destruct (emplace_wf m k v Hw) as (s & b & m' & He & _). exists s, b, m'. split; [done|]. intros Hk Hr Hnw.
    destruct (emplace_new m g k v Ho Hk Hr Hnw) as (s' & m'' & He' & Ho'). rewrite He in He'. injection He' as -> -> ->. split; [done|]. rewrite (ordered_get _ _ k Ho'). apply lookup_insert_eq.
  - intros k. destruct (erase_wf m k Hw) as (n & m' & He & _). exists n, m'. split; [done|].
    destruct (erase_ordered m g k Ho) as (m'' & He' & Ho'). rewrite He in He'. injection He' as -> ->. split; [done|]. rewrite (ordered_get _ _ k Ho'). apply lookup_delete_eq.
Qed.

(** *** A probe that comes to the end of the table *)

(** Its cells are the slots from the home on. *)
Lemma cells_straight m h i j : wf m -> first_empty m h 0 i -> (capacity m <= cell m h i)%nat -> (j < 32 * (i / 32) + 32)%nat ->
  cell m h j = (masked (capacity m) h + j)%nat.
Proof.
  intros Hw (_ & Hi & Hmin) Hpad Hj. pose proof (wf_cap _ Hw) as Hc. pose proof (masked_lt m h Hc) as Hb. set (b := masked (capacity m) h) in *.
  pose proof (Nat.div_mod_eq i 32) as Edm. pose proof (Nat.mod_upper_bound i 32) as Eub.
  assert (HP : forall w, (w <= i / 32)%nat -> start m h w = (b + 32 * w)%nat /\ (b + 32 * w < capacity m)%nat).
  { induction w as [|w IH]; intros Hwi; [rewrite start_0 by done; fold b; lia|]. destruct IH as [Hst Hlt]; [lia|].
    assert (H31 : (b + 32 * w + 31 < capacity m)%nat).
    { rewrite <- Hst, <- cell_group by lia. apply byte_slot; [done | by apply cell_bound | apply Hmin; lia]. }
    rewrite start_mod by done. fold b. destruct (decide (b + 32 * S w = capacity m)%nat) as [E|]; [|rewrite Nat.mod_small by lia; lia].
    exfalso. destruct (cap_cases m Hc) as [?|(q & Hq & Hcap)]; [lia|].
    assert (Hsi : start m h (i / 32) = (32 * ((i / 32 - S w) mod q))%nat).
    { rewrite start_mod by done. fold b. replace (b + 32 * (i / 32))%nat with (32 * (i / 32 - S w) + 1 * capacity m)%nat by lia.
      rewrite Nat.Div0.mod_add, Hcap. apply Nat.Div0.mul_mod_distr_l. }
    unfold cell in Hpad. rewrite Hsi in Hpad. pose proof (Nat.mod_upper_bound (i / 32 - S w) q). lia. }
  unfold cell. assert (Hji : (j / 32 <= i / 32)%nat).
  { assert (j / 32 < i / 32 + 1)%nat; [|lia]. apply Nat.Div0.div_lt_upper_bound. lia. }
  destruct (HP (j / 32)%nat Hji) as [-> _]. pose proof (Nat.div_mod_eq j 32). lia.
Qed.

Lemma wraps_to_0 m k i : wf m -> numFilled m * 8 <= Z.of_nat (capacity m) * 7 -> first_empty m (hashFn k) 0 i -> (capacity m <= cell m (hashFn k) i)%nat ->
  masked (capacity m) (Z.of_nat (cell m (hashFn k) i)) = 0%nat /\ forall j, (j < 32 * (i / 32) + 32)%nat -> cell m (hashFn k) j <> 0%nat.
Proof.
  intros Hw Hl Hi Hpad. pose proof (wf_cap _ Hw) as Hc. pose proof (cap_pos m Hc) as Hp. pose proof Hi as (_ & Hie & Hmin).
  pose proof (masked_lt m (hashFn k) Hc) as Hb. pose proof (Nat.div_mod_eq i 32) as Edm. pose proof (Nat.mod_upper_bound i 32) as Eub.
  assert (Hst : forall j, (j < 32 * (i / 32) + 32)%nat -> cell m (hashFn k) j = (masked (capacity m) (hashFn k) + j)%nat)
    by (intros j Hj; by apply (cells_straight m _ i)).
  set (b := masked (capacity m) (hashFn k)) in *. split.
  - assert (Hci : cell m (hashFn k) i = capacity m).
    { rewrite (Hst i) in * by lia. destruct (decide (b + i = capacity m)%nat); [done|]. exfalso.
      apply (Hmin (capacity m - b)%nat); [lia|]. rewrite Hst by lia. apply (wf_pad _ Hw). lia. }
    rewrite Hci. apply Nat2Z.inj. rewrite masked_mod by done. apply Z_mod_same_full.
  - intros j Hj. rewrite Hst by done. destruct (decide (b = 0)%nat) as [Hb0|]; [|lia]. exfalso.
    rewrite (Hst i) in Hpad by lia. destruct (filled_lt (control m) (capacity m)) as (x & Hx & Hxe).
    + rewrite (wf_control _ Hw). lia.
    + pose proof (wf_filled _ Hw). lia.
    + apply (Hmin x); [lia|]. rewrite Hst by lia. by rewrite Hb0.
Qed.

(** C27: In a table that has not grown yet and does not grow now, a new key whose
    probe comes to the end of the table, because every slot from its home on is
    in use, is put into the first slot of the table, where no lookup of it
    looks; whatever entry was there is lost. Everything else is as it was. *)
Theorem wrapped_entry_lost m g k v : traced m g -> g !! k = None -> needsRehash m = false -> wraps m k ->
  exists m', emplace hashFn m k v = Some (0%nat, true, m') /\ get hashFn m' k = None /\
    (forall k0, find hashFn m k0 = Some (Some 0%nat) -> get hashFn m' k0 = None) /\
    (forall k', k' <> k -> find hashFn m k' <> Some (Some 0%nat) -> get hashFn m' k' = g !! k').
Proof.
  intros Ho%traced_ordered Hk Hr (i & Hi & Hpad & Hnd). pose proof Ho as [Hw _ Hin Hu Hall]. pose proof (wf_cap _ Hw) as Hc.
  pose proof (cap_pos m Hc) as Hcp. destruct (no_rehash m Hr) as [Hr' Hl]. destruct (wraps_to_0 m k i Hw Hl Hi Hpad) as [H0 Hne].
  destruct (first_empty_ex m (hashFn k) Hw) as (i0 & Hi0 & _). destruct (probe_scan m k Hw) as (i1 & Hi1 & Hp).
  assert (Huniq : forall x, first_empty m (hashFn k) 0 x -> x = i).
  { intros x (_ & Hx & Hxm). destruct Hi as (_ & Hie & Him). destruct (Nat.lt_trichotomy x i) as [?|[?|?]]; [|done|]; exfalso.
    - apply (Him x); [lia | done].
    - apply (Hxm i); [lia | done]. }
  rewrite (Huniq i1 Hi1) in Hp. destruct (scan_new m g k i Ho Hk) as (s & Hs & [(j & Hj & <- & HP)|[_ ->]]); [exfalso; by apply (Hnd j)|]. rewrite H0 in Hs.
  eexists. split; [exact (emplace_at m k v _ 0%nat m Hp Hs Hr')|]. set (m' := place m k v (hashFn k) (fingerprint (hashFn k)) 0).
  assert (Hw' : wf m') by (apply wf_place; [done | done | lia]).
  assert (Hent : forall s e, entry m' s e <-> (s = 0%nat /\ e = mkNode k v (hashFn k)) \/ (s <> 0%nat /\ entry m s e)) by (intros; apply entry_place; [done | lia]).
  assert (Hkey : forall s e, entry m s e -> nkey e <> k) by (intros s e He <-; destruct (Hin s e He) as [Hg _]; by rewrite Hg in Hk).
  split; [|split].
  - apply get_absent; [done|]. intros i' s e Hi' [[-> ->]|[_ He]]%Hent Hke j Hj; [|by apply Hkey in He]. clear Hke.
    change (cell m' (hashFn k) j) with (cell m (hashFn k) j). apply Hne. assert (i' = i) as <-; [|done]. apply Huniq.
    destruct Hi' as (_ & Hie & Him). change (cell m') with (cell m) in *.
    assert (Hc0 : forall x, (x < 32 * (i / 32) + 32)%nat -> control m' !!! cell m (hashFn k) x = control m !!! cell m (hashFn k) x).
    { intros x Hx. apply lookup_total_insert_other. intros E. by apply (Hne x). }
    pose proof (Nat.div_mod_eq i 32) as Edm. pose proof (Nat.mod_upper_bound i 32) as Eub.
    destruct (decide (i' <= i)%nat) as [Hle|Hgt].
    + split; [lia|]. rewrite Hc0 in Hie by lia. split; [done|]. intros x Hx. rewrite <- Hc0 by lia. by apply Him.
    + exfalso. destruct Hi as (_ & Hie0 & _). apply (Him i); [lia|]. by rewrite Hc0 by lia.
  - intros k0 Hf. apply get_absent; [done|]. intros i' s e _ He Hke j _. exfalso. pose proof (find_probe m k0 0 Hf) as Hp0.
    destruct (probe_scan m k0 Hw) as (x & _ & Hpx). rewrite Hp0 in Hpx. injection Hpx as Hpx. symmetry in Hpx. apply scan_found in Hpx as [_ Hm]; [|done].
    destruct (matches_entry m k0 0 ltac:(lia) Hm) as (e0 & He0 & Hk0). apply Hent in He as [[-> ->]|[Hs0 He]].
    + cbn in Hke. apply (Hkey 0%nat e0 He0). congruence.
    + apply Hs0. eapply Hu; [exact He | exact He0 | congruence].
  - intros k' Hk' Hf. destruct (g !! k') as [w|] eqn:Eg.
    + destruct (Hall k' w Eg) as (s' & e' & He' & <-). destruct (Hin s' e' He') as [Hg Hpl].
      destruct (find_placed m s' e' Hw He' Hpl) as [Hf' _]; [intros ? ? ? ?; by eapply Hu|].
      assert (Hs' : s' <> 0%nat) by (intros ->; by rewrite Hf' in Hf). rewrite Eg in Hg. injection Hg as ->.
      assert (He2 : entry m' s' e') by (apply Hent; by right). apply (find_placed m' s' e' Hw' He2).
      * apply (placed_mono m); [done | done | by apply lookup_total_insert_other | | done]. intros c Hcl Hcn. apply place_control; [done | lia | done | done].
      * intros s2 e2 [[-> ->]|[_ H2]]%Hent Hke; [by cbn in Hke | by eapply Hu].
    + apply get_absent; [done|]. intros i' s e _ [[-> ->]|[_ He]]%Hent Hke j _; [by cbn in Hke|].
      destruct (Hin s e He) as [Hg _]. rewrite Hke in Hg. by rewrite Hg in Eg.
Qed.
End Theory.

(** ** A run *)

Section Demo.
#[local] Abbreviation demo_hash := (fun k : Z => k).

Fixpoint demo_run (m : StableHashMap) (l : list (Op (Key := Z) (Value := Z))) : option StableHashMap :=
  match l with [] => Some m | o :: l => m ← run_op demo_hash m o; demo_run m l end.
Definition demo_map (l : list (Op (Key := Z) (Value := Z))) : StableHashMap := default (StableHashMap_new 8) (demo_run (StableHashMap_new 8) l).

Lemma demo_map_reach l m : reach demo_hash m -> forall m', demo_run m l = Some m' -> reach demo_hash m'.
Proof.
  revert m. induction l as [|o l IH]; intros m Hm m' Hr; [by injection Hr as <-|]. cbn [demo_run] in Hr.
  destruct (run_op demo_hash m o) as [m1|] eqn:E; [|done]. cbn in Hr. eapply IH; [|exact Hr]. by eapply reach_op.
Qed.

Lemma probe_is_scan_witness :
  probe (demo_map [OpEmplace 7 70; OpEmplace 0 0]) 7 7 0 = Some (Found 7) /\
  is_Some (run_op demo_hash (demo_map [OpEmplace 7 70; OpEmplace 0 0]) (OpErase 7)).
Proof.
  split; [vm_compute; reflexivity|].
  refine (proj2 (probe_is_scan demo_hash (demo_map [OpEmplace 7 70; OpEmplace 0 0]) 7 _) (OpErase 7)).
  apply (demo_map_reach [OpEmplace 7 70; OpEmplace 0 0] (StableHashMap_new 8)); [apply reach_new; lia | vm_compute; reflexivity].
Defined.

(** A probe whose first cell is empty does not wrap. *)
Lemma no_wrap_home (m : StableHashMap (Key := Z) (Value := Z)) k : control m !!! cell m k 0 = EMPTY -> (cell m k 0 < capacity m)%nat -> ~ wraps demo_hash m k.
Proof.
  intros He Hlt (i & (_ & _ & Hmin) & Hpad & _). destruct i as [|i]; [lia|]. by apply (Hmin 0%nat); [lia|].
Qed.

(** Keys 0 and 7 are in the first and the last of 8 slots. *)
Lemma demo_map_traced : traced demo_hash (demo_map [OpEmplace 7 70; OpEmplace 0 0]) {[7 := 70; 0 := 0]}.
Proof.
  pose proof (tr_new demo_hash (Value := Z) 8 ltac:(lia)) as H.
  eapply (tr_emplace demo_hash _ _ 7 70) in H; [| |vm_compute; reflexivity].
  2: { intros _. split; [vm_compute; reflexivity|]. apply no_wrap_home; vm_compute; [reflexivity | lia]. }
  eapply (tr_emplace demo_hash _ _ 0 0) in H; [| |vm_compute; reflexivity].
  2: { intros _. split; [vm_compute; reflexivity|]. apply no_wrap_home; vm_compute; [reflexivity | lia]. }
  match type of H with traced _ _ ?g => replace g with ({[7 := 70; 0 := 0]} : gmap Z Z) in H by (vm_compute; reflexivity) end. exact H.
Qed.

Lemma ordered_map_refines_witness :
  get demo_hash (demo_map [OpEmplace 7 70; OpEmplace 0 0]) 7 = Some 70 /\ size (demo_map [OpEmplace 7 70; OpEmplace 0 0]) = 2.
Proof.
  split; [exact (proj1 (ordered_map_refines demo_hash _ _ demo_map_traced) 7)|].
  exact (proj1 (proj2 (ordered_map_refines demo_hash _ _ demo_map_traced))).
Defined.

(** Key 15 has its home in the last slot and goes to the first. *)
Lemma demo_wraps : wraps demo_hash (demo_map [OpEmplace 7 70; OpEmplace 0 0]) 15.
Proof.
  exists 1%nat. split; [split; [lia|]; split; [vm_compute; reflexivity|]|split; [vm_compute; lia|]].
  - intros j Hj. assert (j = 0%nat) as -> by lia. vm_compute. discriminate.
  - intros j Hj. assert (Hall : forallb (fun j => negb (control (demo_map [OpEmplace 7 70; OpEmplace 0 0]) !!! cell (demo_map [OpEmplace 7 70; OpEmplace 0 0]) 15 j =? DELETED)) (seq 0 32) = true) by (vm_compute; reflexivity).
    rewrite forallb_forall in Hall. specialize (Hall j). rewrite in_seq, negb_true_iff, Z.eqb_neq in Hall. apply Hall. change (32 * (1 / 32) + 32)%nat with 32%nat in Hj. lia.
Qed.

Lemma wrapped_entry_lost_witness :
  exists m', emplace demo_hash (demo_map [OpEmplace 7 70; OpEmplace 0 0]) 15 150 = Some (0%nat, true, m') /\
    get demo_hash m' 15 = None /\ get demo_hash m' 0 = None /\ get demo_hash m' 7 = Some 70.
Proof.
  destruct (wrapped_entry_lost demo_hash (demo_map [OpEmplace 7 70; OpEmplace 0 0]) {[7 := 70; 0 := 0]} 15 150 demo_map_traced eq_refl eq_refl demo_wraps) as (m' & He & Hk & H0 & Hrest).
  exists m'. split; [exact He|]. split; [exact Hk|]. split; [apply H0; vm_compute; reflexivity|].
  apply Hrest; [lia | vm_compute; discriminate].
Defined.
End Demo.
