(* ===== verification/Arp.v ===== *)
(** * Arp: the ARP cache and resolution of an interface (infrastructure/Arp.cpp)

    The cache is a [StableHashMap] of entries that callers hold by reference,
    the table that the data plane reads is an [AtomicHashMap]; both are the
    models of these maps, with what they lose. Everything runs on the control
    scheduler, which is modelled as far as the timers go that the cache sets:
    a table of the timers that are due at a time. A packet is abstract. The
    proxy entries, which no caller adds, are not modelled. *)

From S2P Require Import AtomicHashMap StableHashMap Prelude IPAddress ByteUtils.

#[export] Instance IPv4Address_eq_dec : EqDecision IPv4Address.
Proof. solve_decision. Defined.

#[export] Instance IPv4Address_countable : Countable IPv4Address.
Proof. apply (inj_countable' a4 mkIPv4Address). by intros []. Defined.

(** [types/IPAddress.h:665-676] hash<IPv4Address>::operator() *)
Definition hash_IPv4Address (a : IPv4Address) : Z :=
  let x := a4 a in
  let x := Z.lxor x (Z.shiftr x 16) in
  let x := u32 (x * 2246822507) in
  let x := Z.lxor x (Z.shiftr x 13) in
  let x := u32 (x * 3266489909) in
  Z.lxor x (Z.shiftr x 16).

(** [infrastructure/Arp.h:56-59] ArpCacheStatus *)
Inductive ArpCacheStatus := INCOMPLETE | COMPLETE.
#[export] Instance ArpCacheStatus_eq_dec : EqDecision ArpCacheStatus.
Proof. solve_decision. Defined.

(** The values of the configuration that are read. *)
Record Cfg := mkCfg {
  ip_arp_incomplete : bool;
  ip_arp_incomplete_entries : option Z;
  ip_arp_incomplete_retry : Z;
  ip_arp_queue : Z;
  ip_arp_gratuitous : bool;
  ip_sticky_arp : bool;
  arp_timeout : Z;
  arp_probe_interval : Z;
  arp_probe_count : Z;
  routingEnabled : bool }.

Section Arp.
Context {Pkt : Type} (sendable : Pkt -> bool) (alloc : Z -> bool) (cfg : Cfg).

(** [infrastructure/Arp.h:65-75] ArpCacheEntry *)
Record ArpCacheEntry := mkEntry {
  queue : list Pkt;
  status : ArpCacheStatus;
  expireTimerId : Z;
  requestTimerId : Z;
  macAddress : Z;
  retries : Z;
  expiryTime : Z;
  renewalTime : Z }.

Definition newEntry : ArpCacheEntry := mkEntry [] INCOMPLETE 0 0 0 0 0 0.

(** What timers call. *)
Inductive Callback := Renew (ip : IPv4Address) | Expire (ip : IPv4Address) | Retry (ip : IPv4Address).

(** What leaves the cache. *)
Inductive Output := Request (ip : IPv4Address) | Sent (p : Pkt) (mac : Z).

#[local] Abbreviation Cache := (StableHashMap (Key := IPv4Address) (Value := ArpCacheEntry)).
#[local] Abbreviation MacTable := (AtomicHashMap.Table (Key := IPv4Address) (V := Z)).

(** [infrastructure/Arp.h:157-166] Arp, with the timers and what was sent *)
Record Arp := mkArp {
  arpCache : Cache;
  arpTable : MacTable;
  insertionOrder : list IPv4Address;
  incompletes : Z;
  running : bool;
  timers : gmap Z (Z * Callback);
  nextTimer : Z;
  log : list Output }.

Definition on_cache f (s : Arp) := mkArp (f (arpCache s)) (arpTable s) (insertionOrder s) (incompletes s) (running s) (timers s) (nextTimer s) (log s).
Definition set_table t (s : Arp) := mkArp (arpCache s) t (insertionOrder s) (incompletes s) (running s) (timers s) (nextTimer s) (log s).
Definition on_order f (s : Arp) := mkArp (arpCache s) (arpTable s) (f (insertionOrder s)) (incompletes s) (running s) (timers s) (nextTimer s) (log s).
Definition on_incompletes f (s : Arp) := mkArp (arpCache s) (arpTable s) (insertionOrder s) (f (incompletes s)) (running s) (timers s) (nextTimer s) (log s).
Definition set_running b (s : Arp) := mkArp (arpCache s) (arpTable s) (insertionOrder s) (incompletes s) b (timers s) (nextTimer s) (log s).
Definition on_timers f (s : Arp) := mkArp (arpCache s) (arpTable s) (insertionOrder s) (incompletes s) (running s) (f (timers s)) (nextTimer s) (log s).
Definition put (o : Output) (s : Arp) := mkArp (arpCache s) (arpTable s) (insertionOrder s) (incompletes s) (running s) (timers s) (nextTimer s) (log s ++ [o]).

Definition entry_status v e := mkEntry (queue e) v (expireTimerId e) (requestTimerId e) (macAddress e) (retries e) (expiryTime e) (renewalTime e).
Definition entry_queue v e := mkEntry v (status e) (expireTimerId e) (requestTimerId e) (macAddress e) (retries e) (expiryTime e) (renewalTime e).
Definition entry_expire v e := mkEntry (queue e) (status e) v (requestTimerId e) (macAddress e) (retries e) (expiryTime e) (renewalTime e).
Definition entry_request v e := mkEntry (queue e) (status e) (expireTimerId e) v (macAddress e) (retries e) (expiryTime e) (renewalTime e).
Definition entry_mac v e := mkEntry (queue e) (status e) (expireTimerId e) (requestTimerId e) v (retries e) (expiryTime e) (renewalTime e).
Definition entry_retries v e := mkEntry (queue e) (status e) (expireTimerId e) (requestTimerId e) (macAddress e) v (expiryTime e) (renewalTime e).
Definition entry_expiry v e := mkEntry (queue e) (status e) (expireTimerId e) (requestTimerId e) (macAddress e) (retries e) v (renewalTime e).
Definition entry_renewal v e := mkEntry (queue e) (status e) (expireTimerId e) (requestTimerId e) (macAddress e) (retries e) (expiryTime e) v.

(** A method of the cache; [None] when it throws, aborts or uses an entry that
    was freed. *)
Definition M (A : Type) : Type := Arp -> option (A * Arp).
#[local] Instance M_ret : MRet M := fun A a s => Some (a, s).
#[local] Instance M_bind : MBind M := fun A B f m s => match m s with Some (a, s) => f a s | None => None end.

Definition asks {A} (f : Arp -> A) : M A := fun s => Some (f s, s).
Definition does (f : Arp -> Arp) : M unit := fun s => Some (tt, f s).
Definition bad {A} : M A := fun _ => None.
Definition lift {A} (o : option A) : M A := fun s => match o with Some a => Some (a, s) | None => None end.

(** An entry is referred to by its node. *)
Definition entry (p : nat) : M ArpCacheEntry := fun s =>
  match nodes (arpCache s) !! p with Some e => Some (nvalue e, s) | None => None end.
Definition alters (p : nat) (f : ArpCacheEntry -> ArpCacheEntry) : M unit :=
  does (on_cache (on_nodes (alter (fun e => set_value (f (nvalue e)) e) p))).

(** [arpCache.find]: the node of an address. *)
Definition cacheFind (ip : IPv4Address) : M (option nat) :=
  m ← asks arpCache;
  it ← lift (StableHashMap.find hash_IPv4Address m ip);
  mret (match it with Some s => StableHashMap.slots m !!! s | None => None end).

(** [arpCache[ip]]: the node of an address, made when there is none. *)
Definition cacheSubscript (ip : IPv4Address) : M nat :=
  m ← asks arpCache;
  r ← lift (subscript hash_IPv4Address m ip newEntry);
  does (on_cache (fun _ => r.2));;
  match StableHashMap.slots r.2 !!! r.1 with Some p => mret p | None => bad end.

(** [arpCache.emplace] of a new entry. *)
Definition cacheEmplace (ip : IPv4Address) : M nat :=
  m ← asks arpCache;
  r ← lift (emplace hash_IPv4Address m ip newEntry);
  does (on_cache (fun _ => r.2));;
  match StableHashMap.slots r.2 !!! r.1.1 with Some p => mret p | None => bad end.

(** [arpCache.erase]. *)
Definition cacheErase (ip : IPv4Address) : M unit :=
  m ← asks arpCache;
  r ← lift (StableHashMap.erase hash_IPv4Address m ip);
  does (on_cache (fun _ => r.2)).

Definition tableInsert (ip : IPv4Address) (mac : Z) : M unit :=
  t ← asks arpTable;
  r ← lift (AtomicHashMap.map_insert hash_IPv4Address alloc t ip mac);
  does (set_table r.2).

Definition tableErase (ip : IPv4Address) : M unit :=
  t ← asks arpTable;
  r ← lift (AtomicHashMap.map_erase hash_IPv4Address alloc t ip);
  does (set_table r.2).

(** [scheduler.postAfter] and [scheduler.cancel]: the scheduler has a slot for
    the timer. *)
Definition postAfter (due : Z) (c : Callback) : M Z :=
  id ← asks nextTimer;
  does (fun s => mkArp (arpCache s) (arpTable s) (insertionOrder s) (incompletes s) (running s) (<[id := (due, c)]> (timers s)) (id + 1) (log s));;
  mret id.
Definition cancel (id : Z) : M unit := if id =? 0 then mret tt else does (on_timers (delete id)).

(** ** Operations *)

(** [infrastructure/Arp.cpp:379-394] Arp::sendQueuedPacket: [sendable] is whether the next header is Ethernet *)
Definition sendQueuedPacket (p : Pkt) (mac : Z) : M unit := if sendable p then does (put (Sent p mac)) else mret tt.

(** [infrastructure/Arp.cpp:372-376] Arp::processQueuedPackets, the loop *)
Fixpoint sendAll (l : list Pkt) (mac : Z) : M unit :=
  match l with [] => mret tt | p :: l => sendQueuedPacket p mac;; sendAll l mac end.

(** [infrastructure/Arp.cpp:364-377] Arp::processQueuedPackets *)
Definition processQueuedPackets (targetIp : IPv4Address) (mac : Z) : M unit :=
  it ← cacheFind targetIp;
  match it with
  | None => mret tt
  | Some p => e ← entry p; sendAll (queue e) mac;; alters p (entry_queue [])
  end.

(** [infrastructure/Arp.cpp:171-184] Arp::removeArpEntry *)
Definition removeArpEntry (ip : IPv4Address) : M unit :=
  it ← cacheFind ip;
  (match it with
   | Some p => e ← entry p; cancel (expireTimerId e);; cancel (requestTimerId e);; cacheErase ip
   | None => mret tt
   end);;
  tableErase ip;;
  does (on_order (filter (fun x => x <> ip))).

(** [infrastructure/Arp.cpp:396-437] Arp::scheduleRequest *)
Definition scheduleRequest (now : Z) (targetIp : IPv4Address) (p : nat) : M unit :=
  run ← asks running;
  if negb run || negb (routingEnabled cfg) then mret tt else
  e ← entry p;
  let interval := if decide (status e = INCOMPLETE) then 1 else arp_probe_interval cfg in
  let maxRetries := if decide (status e = INCOMPLETE) then ip_arp_incomplete_retry cfg else arp_probe_count cfg in
  let r := u32 (retries e + 1) in
  alters p (entry_retries r);;
  if maxRetries <? r then removeArpEntry targetIp
  else
    does (put (Request targetIp));;
    id ← postAfter (now + interval) (Retry targetIp);
    alters p (entry_request id).

(** [infrastructure/Arp.cpp:283-287] Arp::sendRequest *)
Definition sendRequest (now : Z) (targetIp : IPv4Address) (p : nat) : M unit :=
  e ← entry p;
  if negb (requestTimerId e =? 0) then mret tt else scheduleRequest now targetIp p.

(** [infrastructure/Arp.cpp:429-435] Arp::scheduleRequest, the callback of its timer; so Arp::renewArpEntry at lines
    162-169, which calls sendRequest *)
Definition retryArpEntry (now : Z) (ip : IPv4Address) : M unit :=
  it ← cacheFind ip;
  match it with
  | Some p => alters p (entry_request 0);; scheduleRequest now ip p
  | None => mret tt
  end.

(** [infrastructure/Arp.cpp:162-169] Arp::renewArpEntry *)
Definition renewArpEntry (now : Z) (ip : IPv4Address) : M unit :=
  it ← cacheFind ip;
  match it with
  | Some p => alters p (entry_request 0);; sendRequest now ip p
  | None => mret tt
  end.

(** [infrastructure/Arp.cpp:122-160] Arp::completeArpEntry *)
Definition completeArpEntry (now : Z) (ip : IPv4Address) (p : nat) (targetMac : Z) : M unit :=
  cache ← entry p;
  if bool_decide (status cache = COMPLETE) && ip_sticky_arp cfg then mret tt else
  cancel (expireTimerId cache);;
  cancel (requestTimerId cache);;
  n ← asks incompletes;
  (if bool_decide (status cache = INCOMPLETE) && negb (n =? 0) then does (on_incompletes (fun n => n - 1)) else mret tt);;
  let expiry := now + arp_timeout cfg in
  alters p (fun e => entry_expiry expiry (entry_retries 0 (entry_mac targetMac (entry_status COMPLETE e))));;
  tableInsert ip targetMac;;
  let renewal := now + u32 (arp_timeout cfg * 10) / 8 in
  alters p (entry_renewal renewal);;
  r ← postAfter renewal (Renew ip);
  alters p (entry_request r);;
  x ← postAfter expiry (Expire ip);
  alters p (entry_expire x);;
  processQueuedPackets ip targetMac.

(** [infrastructure/Arp.cpp:244-280] Arp::resolveAndSend *)
Definition resolveAndSend (now : Z) (targetIp : IPv4Address) (packetToSend : Pkt) : M unit :=
  if negb (ip_arp_incomplete cfg) then mret tt else
  m ← asks arpCache;
  cached ← lift (contains hash_IPv4Address m targetIp);
  n ← asks incompletes;
  if negb cached && match ip_arp_incomplete_entries cfg with Some limit => limit <=? n | None => false end then mret tt else
  (if cached : bool then mret tt else does (on_order (fun l => l ++ [targetIp])));;
  p ← cacheSubscript targetIp;
  cache ← entry p;
  if bool_decide (status cache = COMPLETE) then sendQueuedPacket packetToSend (macAddress cache)
  else
    (if Z.of_nat (length (queue cache)) <? ip_arp_queue cfg then alters p (fun e => entry_queue (queue e ++ [packetToSend]) e) else mret tt);;
    (if cached : bool then mret tt else does (on_incompletes (fun n => u32 (n + 1))));;
    sendRequest now targetIp p.

(** [infrastructure/Arp.cpp:290-317] Arp::receiveReply, of the sender's and the target's address and the sender's MAC *)
Definition receiveReply (now : Z) (senderIp targetIp : IPv4Address) (mac : Z) : M unit :=
  let garp := bool_decide (senderIp = targetIp) in
  run ← asks running;
  if garp && (negb (ip_arp_gratuitous cfg) || negb run || negb (routingEnabled cfg) || (mac =? 2 ^ 48 - 1)) then mret tt else
  it ← cacheFind senderIp;
  match it with
  | Some p =>
      q ← cacheSubscript senderIp;
      e ← entry q;
      if bool_decide (status e = COMPLETE) && ip_sticky_arp cfg then mret tt else completeArpEntry now senderIp p mac
  | None =>
      if garp then
        p ← cacheEmplace senderIp;
        completeArpEntry now senderIp p mac
      else mret tt
  end.

(** [infrastructure/Arp.cpp:99-111] Arp::addStaticArpEntry, what it posts *)
Definition addStaticArpEntry (targetIp : IPv4Address) (targetMac : Z) : M unit :=
  p ← cacheSubscript targetIp;
  alters p (fun _ => entry_status COMPLETE (entry_mac targetMac newEntry));;
  tableInsert targetIp targetMac;;
  does (on_order (fun l => l ++ [targetIp])).

(** [infrastructure/Arp.cpp:113-120] Arp::removeStaticArpEntry, what it posts *)
Definition removeStaticArpEntry (targetIp : IPv4Address) : M unit :=
  tableErase targetIp;;
  cacheErase targetIp;;
  does (on_order (filter (fun x => x <> targetIp))).

(** [infrastructure/Arp.cpp:72-78] Arp::clear, the loop over the nodes of the cache *)
Fixpoint cancelAll (l : list nat) : M unit :=
  match l with
  | [] => mret tt
  | p :: l => e ← entry p; cancel (expireTimerId e);; cancel (requestTimerId e);; cancelAll l
  end.

(** [infrastructure/Arp.cpp:70-92] Arp::clear, without the proxy entries *)
Definition clear : M unit :=
  m ← asks arpCache;
  cancelAll (iterate m);;
  does (on_cache StableHashMap.clear);;
  t ← lift (AtomicHashMap.clear alloc);
  does (set_table t);;
  does (on_order (fun _ => []));;
  does (on_incompletes (fun _ => 0)).

(** [infrastructure/Arp.cpp:238-241] Arp::getMac: the MAC, written as six bytes *)
Definition getMac (out : bytes) (targetIp : IPv4Address) (s : Arp) : outcome (bool * bytes) :=
  match AtomicHashMap.lookup hash_IPv4Address (arpTable s) targetIp with
  | Some v => out ← writeU48 out v; Ret (true, out)
  | None => Ret (false, out)
  end.

(** ** Runs *)

(** What the control scheduler runs: calls of other parts, and timers. *)
Inductive Op :=
  | OpResolve (ip : IPv4Address) (p : Pkt)
  | OpReply (senderIp targetIp : IPv4Address) (mac : Z)
  | OpStatic (ip : IPv4Address) (mac : Z)
  | OpUnstatic (ip : IPv4Address)
  | OpTimer (id : Z)
  | OpShutdown
  | OpClear
  | OpRefresh.

Definition runCallback (now : Z) (c : Callback) : M unit :=
  match c with Renew ip => renewArpEntry now ip | Expire ip => removeArpEntry ip | Retry ip => retryArpEntry now ip end.

(** [infrastructure/Arp.cpp:42-55] Arp::initiateArp: the static entries are posted *)
Definition initiateArp : M unit := does (set_running true).

(** [infrastructure/Arp.cpp:34-40] Arp::refresh, what it posts *)
Definition refresh : M unit := clear;; initiateArp.

(** [infrastructure/Arp.cpp:64-68] Arp::shutdown: clear is posted *)
Definition shutdown : M unit := does (set_running false).

(** One operation at the time [now]; a timer that is due runs and is gone. *)
Definition run_op (now : Z) (o : Op) : M unit :=
  match o with
  | OpResolve ip p => resolveAndSend now ip p
  | OpReply a b mac => receiveReply now a b mac
  | OpStatic ip mac => addStaticArpEntry ip mac
  | OpUnstatic ip => removeStaticArpEntry ip
  | OpTimer id =>
      t ← asks timers;
      match t !! id with
      | Some (due, c) => if due <=? now then does (on_timers (delete id));; runCallback now c else mret tt
      | None => mret tt
      end
  | OpShutdown => shutdown
  | OpClear => clear
  | OpRefresh => refresh
  end.

(** [infrastructure/Arp.cpp:18-32] Arp::Arp, before its static entries *)
Definition Arp_new (t : MacTable) : Arp := mkArp (StableHashMap_new 8) t [] 0 true ∅ 1 [].
End Arp.

(** ** Rules for methods *)

#[local] Opaque probe emplace subscript StableHashMap.find StableHashMap.erase.

Section Rules.
Context {Pkt : Type} (sendable : Pkt -> bool) (alloc : Z -> bool) (cfg : Cfg).
#[local] Abbreviation Arp := (Arp (Pkt := Pkt)).
#[local] Existing Instance M_ret.
#[local] Existing Instance M_bind.

(** [m] preserves [Q] whenever it returns. *)
Definition stays {A} (Q : Arp -> Prop) (m : M A) : Prop := forall s a s', Q s -> m s = Some (a, s') -> Q s'.

Lemma stays_ret {A} Q (a : A) : stays Q (mret a).
Proof. intros s b s' HQ [= _ <-]. done. Qed.

Lemma stays_bind {A B} Q (m : M A) (f : A -> M B) : stays Q m -> (forall a, stays Q (f a)) -> stays Q (m ≫= f).
Proof.
  intros Hm Hf s b s' HQ. unfold mbind, M_bind. destruct (m s) as [[a s1]|] eqn:E; [|done]. apply Hf. by eapply Hm.
Qed.

Lemma stays_asks {A} Q (f : Arp -> A) : stays Q (asks f).
Proof. intros s a s' HQ [= _ <-]. done. Qed.

Lemma stays_does Q (f : Arp -> Arp) : (forall s, Q s -> Q (f s)) -> stays Q (does f).
Proof. intros Hf s a s' HQ [= _ <-]. by apply Hf. Qed.

Lemma stays_lift {A} Q (o : option A) : stays Q (lift o).
Proof. intros s a s' HQ. unfold lift. destruct o; [|done]. by intros [= _ <-]. Qed.

Lemma stays_bad {A} Q : stays Q (bad (A := A)).
Proof. intros s a s' HQ. done. Qed.

Lemma stays_if {A} Q (b : bool) (m m' : M A) : (b = true -> stays Q m) -> (b = false -> stays Q m') -> stays Q (if b then m else m').
Proof. destruct b; auto. Qed.

Lemma stays_entry Q p : stays Q (entry p).
Proof. intros s a s' HQ. unfold entry. destruct (_ !! p); [|done]. by intros [= _ <-]. Qed.
Lemma asks_bind {A B} (g : Arp -> A) (f : A -> M B) (s : Arp) : (asks g ≫= f) s = f (g s) s.
Proof. done. Qed.

Lemma does_bind {B} (g : Arp -> Arp) (f : unit -> M B) (s : Arp) : (does g ≫= f) s = f tt (g s).
Proof. done. Qed.

Lemma lift_bind {A B} (o : option A) (f : A -> M B) (s : Arp) r : (lift o ≫= f) s = Some r -> exists a, o = Some a /\ f a s = Some r.
Proof. unfold mbind, M_bind, lift. destruct o as [a|]; [|done]. intros H. by exists a. Qed.

Lemma bind_inv {A B} (m : M A) (f : A -> M B) (s : Arp) r : (m ≫= f) s = Some r -> exists a s', m s = Some (a, s') /\ f a s' = Some r.
Proof. unfold mbind, M_bind. destruct (m s) as [[a s']|] eqn:E; [|done]. intros H. by exists a, s'. Qed.

Lemma cacheFind_inv ip {B} (f : option nat -> M B) (s : Arp) r : (cacheFind ip ≫= f) s = Some r ->
  exists it, StableHashMap.find hash_IPv4Address (arpCache s) ip = Some it /\
    f (match it with Some i => StableHashMap.slots (arpCache s) !!! i | None => None end) s = Some r.
Proof.
  intros H. apply bind_inv in H as (a & s' & Ha & Hf). unfold cacheFind in Ha. rewrite asks_bind in Ha.
  apply lift_bind in Ha as (it & Hit & Ha). injection Ha as <- <-. by exists it.
Qed.
End Rules.

Create HintDb arp.
#[export] Hint Resolve stays_ret stays_bind stays_asks stays_lift stays_bad stays_entry : arp.

(** Takes a method apart. *)
Ltac stays_step :=
  lazymatch goal with
  | |- stays _ (_ ≫= _) => apply stays_bind; [|intros ?]
  | |- stays _ (mret _) => apply stays_ret
  | |- stays _ (asks _) => apply stays_asks
  | |- stays _ (lift _) => apply stays_lift
  | |- stays _ bad => apply stays_bad
  | |- stays _ (entry _) => apply stays_entry
  | |- stays _ (if ?b then _ else _) => destruct b
  | |- stays _ (match ?x with _ => _ end) => destruct x
  end.
Ltac stays_all := repeat stays_step.

(** ** The limit of incomplete entries *)

Section Limit.
Context {Pkt : Type} (sendable : Pkt -> bool) (alloc : Z -> bool) (cfg : Cfg).
#[local] Abbreviation Arp := (Arp (Pkt := Pkt)).
#[local] Existing Instance M_ret.
#[local] Existing Instance M_bind.
Context (limit : Z) (limit_set : ip_arp_incomplete_entries cfg = Some limit) (no_gratuitous : ip_arp_gratuitous cfg = false).

(** As many entries were begun as are allowed, and none but the node [x] is
    incomplete. *)
Record used_but (x : option nat) (s : Arp) : Prop := mkUsedUp {
  uu_wf : StableHashMap.wf hash_IPv4Address (arpCache s);
  uu_limit : limit <= incompletes s;
  uu_complete : forall p e, nodes (arpCache s) !! p = Some e -> Some p <> x -> status (nvalue e) = COMPLETE }.

Definition used_up : Arp -> Prop := used_but None.

Lemma used_but_same x (s s' : Arp) : arpCache s' = arpCache s -> incompletes s' = incompletes s -> used_but x s -> used_but x s'.
Proof. intros Hc Hi [H1 H2 H3]. constructor; rewrite ?Hc, ?Hi; done. Qed.

Lemma stays_other (f : Arp -> Arp) : (forall s, arpCache (f s) = arpCache s) -> (forall s, incompletes (f s) = incompletes s) -> stays used_up (does f).
Proof. intros Hc Hi. apply stays_does. intros s. by apply used_but_same. Qed.

Lemma wf_alter_node (m : StableHashMap (Key := IPv4Address) (Value := ArpCacheEntry (Pkt := Pkt))) p f :
  StableHashMap.wf hash_IPv4Address m -> StableHashMap.wf hash_IPv4Address (on_nodes (alter (fun e => set_value (f (nvalue e)) e) p) m).
Proof.
  intros [H1 H2 H3 H4 H5 H6 H7 H8 H9 H10 H11]. constructor; try done; cbn [on_nodes nodes].
  - intros i q Hi Hq. destruct (H6 i q Hi Hq) as (Hb & e & He & Hh). split; [done|]. destruct (decide (q = p)) as [->|].
    + rewrite lookup_alter_eq, He. by eexists.
    + rewrite lookup_alter_ne by done. by exists e.
  - intros q Hq. apply H8. destruct (decide (q = p)) as [->|]; [rewrite lookup_alter_eq in Hq; by apply fmap_is_Some in Hq | by rewrite lookup_alter_ne in Hq].
Qed.

(** Writing an entry, so that it is complete when it was, or when it is the
    node [x]. *)
Lemma alters_used x p f (s : Arp) a s' : (x = Some p -> forall e, status (f e) = COMPLETE) -> (forall e, status e = COMPLETE -> status (f e) = COMPLETE) ->
  (x = None \/ x = Some p) -> used_but x s -> alters p f s = Some (a, s') -> used_up s'.
Proof.
  intros Hx Hf Hor [Hw Hl Hc] [= _ <-]. constructor; [by apply wf_alter_node | done|].
  intros q e. cbn [on_cache arpCache on_nodes nodes]. destruct (decide (q = p)) as [->|Hne].
  - rewrite lookup_alter_eq. destruct (nodes (arpCache s) !! p) as [e0|] eqn:E; [|done]. intros [= <-] _. cbn.
    destruct Hor as [->| ->]; [apply Hf; by apply (Hc p) | by apply Hx].
  - rewrite lookup_alter_ne by done. intros He _. apply (Hc q); [done|]. destruct Hor as [->| ->]; congruence.
Qed.

Lemma stays_alters p f : (forall e, status e = COMPLETE -> status (f e) = COMPLETE) -> stays used_up (alters p f).
Proof. intros Hf s a s' Hs. apply (alters_used None); [done | exact Hf | by left | exact Hs]. Qed.

(** A node that is read is complete. *)
Lemma stays_read {A} p (f : ArpCacheEntry (Pkt := Pkt) -> M A) : (forall e, status e = COMPLETE -> stays used_up (f e)) -> stays used_up (entry p ≫= f).
Proof.
  intros Hf s a s' Hs. unfold mbind, M_bind, entry. destruct (nodes (arpCache s) !! p) as [e|] eqn:E; [|done].
  apply Hf; [by apply (uu_complete _ _ Hs p) | done].
Qed.

Lemma stays_cacheErase ip : stays used_up (cacheErase (Pkt := Pkt) ip).
Proof.
  intros s a s' [Hw Hl Hc]. destruct (erase_wf hash_IPv4Address (arpCache s) ip Hw) as (n & m' & E & Hw').
  unfold cacheErase, mbind, M_bind, asks, lift. cbv beta iota. rewrite E. cbv beta iota. intros [= _ <-]. constructor; [done|done|]. cbn [on_cache arpCache]. intros p e He. apply (Hc p).
  by apply (erase_nodes hash_IPv4Address (arpCache s) ip n m').
Qed.

Lemma stays_tableInsert ip mac : stays used_up (tableInsert (Pkt := Pkt) alloc ip mac).
Proof. unfold tableInsert. stays_all. by apply stays_other. Qed.

Lemma stays_tableErase ip : stays used_up (tableErase (Pkt := Pkt) alloc ip).
Proof. unfold tableErase. stays_all. by apply stays_other. Qed.

Lemma stays_cancel id : stays used_up (cancel (Pkt := Pkt) id).
Proof. unfold cancel. stays_all. by apply stays_other. Qed.

Lemma stays_postAfter due c : stays used_up (postAfter (Pkt := Pkt) due c).
Proof. unfold postAfter. stays_all. by apply stays_other. Qed.

Lemma stays_cacheFind ip : stays used_up (cacheFind (Pkt := Pkt) ip).
Proof. unfold cacheFind. stays_all. Qed.

Lemma stays_send p mac : stays used_up (sendQueuedPacket sendable p mac).
Proof. unfold sendQueuedPacket. stays_all. by apply stays_other. Qed.

Lemma stays_sendAll l mac : stays used_up (sendAll sendable l mac).
Proof. induction l as [|p l IH]; cbn [sendAll]; stays_all; [apply stays_send | exact IH]. Qed.

Lemma stays_process ip mac : stays used_up (processQueuedPackets sendable ip mac).
Proof.
  unfold processQueuedPackets. apply stays_bind; [apply stays_cacheFind | intros [p|]; [|apply stays_ret]]. apply stays_read. intros e He.
  stays_step; [apply stays_sendAll | by apply stays_alters].
Qed.

Lemma stays_remove ip : stays used_up (removeArpEntry (Pkt := Pkt) alloc ip).
Proof.
  unfold removeArpEntry. stays_all; auto using stays_cacheFind, stays_cancel, stays_cacheErase, stays_tableErase. by apply stays_other.
Qed.

Lemma stays_schedule now ip p : stays used_up (scheduleRequest (Pkt := Pkt) alloc cfg now ip p).
Proof.
  unfold scheduleRequest. stays_all; auto using stays_remove, stays_postAfter, stays_alters; by apply stays_other.
Qed.

Lemma stays_sendRequest now ip p : stays used_up (sendRequest (Pkt := Pkt) alloc cfg now ip p).
Proof. unfold sendRequest. stays_all; apply stays_schedule. Qed.

Lemma stays_callback now c : stays used_up (runCallback (Pkt := Pkt) alloc cfg now c).
Proof.
  destruct c as [ip|ip|ip]; [unfold runCallback, renewArpEntry | apply stays_remove | unfold runCallback, retryArpEntry];
    stays_all; auto using stays_cacheFind, stays_alters, stays_sendRequest, stays_schedule.
Qed.

Lemma stays_complete now ip p mac : stays used_up (completeArpEntry sendable alloc cfg now ip p mac).
Proof.
  unfold completeArpEntry. apply stays_read. intros e ->. rewrite (bool_decide_eq_false_2 (COMPLETE = INCOMPLETE)) by done. cbn [andb].
  stays_all; auto using stays_cancel, stays_alters, stays_tableInsert, stays_postAfter, stays_process.
Qed.

(** The node of an address is complete, or made. *)
Lemma subscript_used ip (s : Arp) p s' : used_up s -> cacheSubscript ip s = Some (p, s') ->
  used_but (Some p) s' /\ (StableHashMap.find hash_IPv4Address (arpCache s) ip <> Some None -> used_up s').
Proof.
  intros [Hw Hl Hc] H. unfold cacheSubscript in H. rewrite asks_bind in H. apply lift_bind in H as ([i m] & Hr & H). rewrite does_bind in H. cbn [fst snd] in H.
  apply subscript_cases in Hr as [(j & Hf & E) | (Hf & b & Em)].
  - apply pair_equal_spec in E as [-> ->]. destruct (find_nodes hash_IPv4Address _ _ _ Hw Hf) as (_ & q & e & Hq & He & _).
    rewrite Hq in H. injection H as <- <-.
    split; [|intros _]; (constructor; [done|done|]); intros r er Hr _; by apply (Hc r).
  - destruct (emplace_wf hash_IPv4Address (arpCache s) ip newEntry Hw) as (i' & b' & m'' & Em' & Hw'). cbn [fst snd] in Em.
    rewrite Em in Em'. apply Some_inj in Em'. apply pair_equal_spec in Em' as [_ E]. subst m''. clear b' i'.
    destruct (emplace_nodes hash_IPv4Address _ _ _ _ _ _ Hw Em) as (q & Hq & Hn & _). clear Em.
    rewrite Hq in H. injection H as <- <-. split; [|intros []; exact Hf]. constructor; [done|done|].
    intros r er Hr Hne. cbn [on_cache arpCache] in Hr. rewrite Hn in Hr. assert (r <> q) by congruence.
    destruct b; [rewrite lookup_insert_ne in Hr by done | rewrite lookup_alter_ne in Hr by done]; by apply (Hc r).
Qed.

Lemma stays_reply now senderIp targetIp mac : stays used_up (receiveReply sendable alloc cfg now senderIp targetIp mac).
Proof.
  intros s a s' Hs H. unfold receiveReply in H. rewrite asks_bind, no_gratuitous in H. cbn [negb orb] in H.
  destruct (bool_decide (senderIp = targetIp)); cbn [andb] in H; [by injection H as _ <-|].
  apply cacheFind_inv in H as ([i|] & Hf & H); [|by injection H as _ <-].
  destruct (StableHashMap.slots (arpCache s) !!! i) as [p|]; [|by injection H as _ <-].
  apply bind_inv in H as (q & s1 & Hq & H). destruct (subscript_used _ _ _ _ Hs Hq) as [_ Hs1].
  eapply (stays_read q); cycle 2; [exact H | | apply Hs1; by rewrite Hf]. intros e _. cbv beta. stays_all. apply stays_complete.
Qed.

Lemma contains_find (m : StableHashMap (Key := IPv4Address) (Value := ArpCacheEntry (Pkt := Pkt))) ip b : contains hash_IPv4Address m ip = Some b ->
  exists it, StableHashMap.find hash_IPv4Address m ip = Some it /\ b = bool_decide (is_Some it).
Proof. unfold contains. destruct (StableHashMap.find hash_IPv4Address m ip) as [it|]; [|done]. intros [= <-]. by exists it. Qed.

Lemma resolve_unknown now ip p (s : Arp) : used_up s -> contains hash_IPv4Address (arpCache s) ip = Some false ->
  resolveAndSend sendable alloc cfg now ip p s = Some (tt, s).
Proof.
  intros [_ Hl _] Hf. unfold resolveAndSend. destruct (negb _); [done|]. rewrite asks_bind. unfold mbind at 1, M_bind at 1, lift. rewrite Hf, asks_bind, limit_set.
  by rewrite (proj2 (Z.leb_le _ _) Hl).
Qed.

Lemma stays_resolve now ip p : stays used_up (resolveAndSend sendable alloc cfg now ip p).
Proof.
  intros s a s' Hs H. unfold resolveAndSend in H. destruct (negb _); [by injection H as _ <-|]. rewrite asks_bind in H.
  apply lift_bind in H as (c & Hc & H). rewrite asks_bind, limit_set in H. destruct c; cbn [negb andb] in H.
  - apply bind_inv in H as (u & s0 & Hu & H). injection Hu as _ <-. apply bind_inv in H as (q & s1 & Hq & H).
    apply contains_find in Hc as (it & Hf & Hb). destruct (subscript_used _ _ _ _ Hs Hq) as [_ Hs1].
    eapply (stays_read q); cycle 2; [exact H | | apply Hs1; rewrite Hf; destruct it; done]. cbv beta. intros e ->. rewrite bool_decide_eq_true_2 by done. apply stays_send.
  - rewrite (proj2 (Z.leb_le _ _) (uu_limit _ _ Hs)) in H. by injection H as _ <-.
Qed.

Lemma stays_static ip mac : stays used_up (addStaticArpEntry (Pkt := Pkt) alloc ip mac).
Proof.
  intros s a s' Hs H. unfold addStaticArpEntry in H. apply bind_inv in H as (q & s1 & Hq & H). destruct (subscript_used _ _ _ _ Hs Hq) as [Hs1 _].
  apply bind_inv in H as (u & s2 & Hu & H). apply (alters_used (Some q)) in Hu; [| done | done | by right | done].
  revert Hu H. generalize (tableInsert (Pkt := Pkt) alloc ip mac), (stays_tableInsert ip mac). intros m Hm Hu H.
  eapply (stays_bind _ m); cycle 3; [exact H | exact Hm | intros ?; by apply stays_other | exact Hu].
Qed.

Lemma stays_unstatic ip : stays used_up (removeStaticArpEntry (Pkt := Pkt) alloc ip).
Proof. unfold removeStaticArpEntry. stays_all; auto using stays_tableErase, stays_cacheErase. by apply stays_other. Qed.

Lemma stays_op now o : o <> OpClear -> o <> OpRefresh -> stays used_up (run_op sendable alloc cfg now o).
Proof.
  intros Hc Hr. destruct o as [ip p|a b mac|ip mac|ip|id| | |]; [apply stays_resolve | apply stays_reply | apply stays_static | apply stays_unstatic | | | done | done].
  - cbn [run_op]. stays_all; [by apply stays_other | apply stays_callback].
  - by apply stays_other.
Qed.
End Limit.

(** ** Every run *)

Section Runs.
Context {Pkt : Type} (sendable : Pkt -> bool) (alloc : Z -> bool) (cfg : Cfg).
#[local] Abbreviation Arp := (Arp (Pkt := Pkt)).
#[local] Existing Instance M_ret.
#[local] Existing Instance M_bind.

Definition cache_wf (s : Arp) : Prop := StableHashMap.wf hash_IPv4Address (arpCache s).

Lemma wf_other (f : Arp -> Arp) : (forall s, arpCache (f s) = arpCache s) -> stays cache_wf (does f).
Proof. intros Hf. apply stays_does. intros s. unfold cache_wf. by rewrite Hf. Qed.

Lemma wf_alters p f : stays cache_wf (alters (Pkt := Pkt) p f).
Proof. apply stays_does. intros s. apply wf_alter_node. Qed.

Lemma wf_subscript ip : stays cache_wf (cacheSubscript (Pkt := Pkt) ip).
Proof.
  intros s p s' Hw H. unfold cacheSubscript in H. rewrite asks_bind in H. apply lift_bind in H as ([i m] & Hr & H). rewrite does_bind in H.
  assert (Hm : StableHashMap.wf hash_IPv4Address m).
  { apply subscript_cases in Hr as [(j & _ & E) | (_ & b & Em)]; [apply pair_equal_spec in E as [_ ->]; exact Hw|].
    apply (emplace_some _ (arpCache s) ip newEntry m Hw). by rewrite Em. }
  cbn [fst snd] in H. destruct (StableHashMap.slots m !!! i); [|done]. by injection H as _ <-.
Qed.

Lemma wf_emplace ip : stays cache_wf (cacheEmplace (Pkt := Pkt) ip).
Proof.
  intros s p s' Hw H. unfold cacheEmplace in H. rewrite asks_bind in H. apply lift_bind in H as ([[i b] m] & Hr & H). rewrite does_bind in H.
  cbn [fst snd] in H. destruct (StableHashMap.slots m !!! i); [|done]. injection H as _ <-.
  apply (emplace_some _ (arpCache s) ip newEntry m Hw). by rewrite Hr.
Qed.

Lemma wf_cacheErase ip : stays cache_wf (cacheErase (Pkt := Pkt) ip).
Proof.
  intros s a s' Hw H. unfold cacheErase in H. rewrite asks_bind in H. apply lift_bind in H as (r & Hr & H). injection H as _ <-.
  apply (erased_some _ (arpCache s) ip (snd r) Hw). by rewrite Hr.
Qed.

Lemma wf_sendAll l mac : stays cache_wf (sendAll sendable l mac).
Proof. induction l as [|p l IH]; cbn [sendAll]; unfold sendQueuedPacket; stays_all; [by apply wf_other | done]. Qed.

Lemma wf_cancelAll l : stays cache_wf (cancelAll (Pkt := Pkt) l).
Proof. induction l as [|p l IH]; cbn [cancelAll]; unfold cancel; stays_all; try done; by apply wf_other. Qed.

Lemma wf_cleared : stays cache_wf (clear (Pkt := Pkt) alloc).
Proof.
  unfold clear. stays_all; try (by apply wf_other); [apply wf_cancelAll|]. apply stays_does. intros s Hs. by apply wf_clear.
Qed.

#[local] Ltac wf_all := repeat first [apply wf_alters | apply wf_subscript | apply wf_cacheErase | apply wf_sendAll | apply wf_cleared | stays_step | by apply wf_other].

Lemma wf_remove ip : stays cache_wf (removeArpEntry (Pkt := Pkt) alloc ip).
Proof. unfold removeArpEntry, cacheFind, cancel, tableErase. wf_all. Qed.

Lemma wf_schedule now ip p : stays cache_wf (scheduleRequest (Pkt := Pkt) alloc cfg now ip p).
Proof. unfold scheduleRequest, postAfter. repeat first [apply wf_remove | progress wf_all]. Qed.

Lemma wf_complete now ip p mac : stays cache_wf (completeArpEntry sendable alloc cfg now ip p mac).
Proof. unfold completeArpEntry, cancel, tableInsert, postAfter, processQueuedPackets, cacheFind. wf_all. Qed.

Lemma wf_reply now a b mac : stays cache_wf (receiveReply sendable alloc cfg now a b mac).
Proof. unfold receiveReply, cacheFind. repeat first [apply wf_complete | apply wf_emplace | progress wf_all]. Qed.

Lemma wf_run_op now o : stays cache_wf (run_op sendable alloc cfg now o).
Proof.
  destruct o as [ip p|a b mac|ip mac|ip|id| | |]; cbn [run_op]; [| apply wf_reply | | | | | | ].
  all: unfold resolveAndSend, sendQueuedPacket, sendRequest, addStaticArpEntry, tableInsert, removeStaticArpEntry, tableErase, runCallback, renewArpEntry,
    retryArpEntry, sendRequest, cacheFind, refresh, initiateArp, shutdown.
  all: repeat first [apply wf_schedule | apply wf_remove | progress wf_all].
Qed.

Fixpoint run_ops (l : list (Z * Op (Pkt := Pkt))) : M unit :=
  match l with [] => mret tt | o :: l => run_op sendable alloc cfg o.1 o.2;; run_ops l end.

Lemma stays_run_ops Q l : Forall (fun o => stays Q (run_op sendable alloc cfg o.1 o.2)) l -> stays Q (run_ops l).
Proof. induction 1 as [|o l Ho Hl IH]; cbn [run_ops]; [apply stays_ret | by apply stays_bind]. Qed.

Lemma cache_wf_runs t l u s : run_ops l (Arp_new t) = Some (u, s) -> cache_wf s.
Proof.
  intros H. eapply (stays_run_ops cache_wf l); [| | exact H]; [apply Forall_forall; intros o _; apply wf_run_op|].
  by apply (wf_new hash_IPv4Address 8).
Qed.

(** C24: The number of incomplete entries that [ip arp incomplete entries]
    limits goes down only when a reply comes: an entry whose resolution fails
    is removed without it. With gratuitous replies turned off (they are on by
    default, and one that comes unasked takes one off the number), once as many
    resolutions were begun as are allowed and none is under way any more, the
    cache resolves no further address, whatever replies, timers, static entries
    and calls follow, until it is cleared or refreshed: a call for an address
    that is not cached changes nothing and sends no request. *)
Theorem limit_is_final (t : AtomicHashMap.Table (Key := IPv4Address) (V := Z)) limit before later s s' :
  ip_arp_incomplete_entries cfg = Some limit -> ip_arp_gratuitous cfg = false ->
  run_ops before (Arp_new t) = Some (tt, s) ->
  limit <= incompletes s ->
  (forall p e, nodes (arpCache s) !! p = Some e -> status (nvalue e) = COMPLETE) ->
  Forall (fun o => o.2 <> OpClear /\ o.2 <> OpRefresh) later ->
  run_ops later s = Some (tt, s') ->
  limit <= incompletes s' /\
  forall now ip p, contains hash_IPv4Address (arpCache s') ip = Some false -> run_op sendable alloc cfg now (OpResolve ip p) s' = Some (tt, s').
Proof.
  intros Hl Hg Hb Hi Hc Hf Hr.
  assert (Hu : used_up limit s') by (eapply (stays_run_ops (used_up limit) later);
    [eapply Forall_impl; [exact Hf|]; intros o [H1 H2]; by apply (stays_op sendable alloc cfg limit Hl Hg) | | exact Hr];
    constructor; [by eapply cache_wf_runs | done | by intros p e He _; apply (Hc p)]).
  split; [apply Hu|]. intros now ip p Hn. cbn [run_op]. by apply (resolve_unknown sendable alloc cfg limit).
Qed.
End Runs.

(** ** A reply *)

Section Reply.
#[local] Transparent StableHashMap.find probe.
Context {Pkt : Type} (sendable : Pkt -> bool) (alloc : Z -> bool) (cfg : Cfg).
#[local] Abbreviation Arp := (Arp (Pkt := Pkt)).
#[local] Abbreviation Cache := (StableHashMap (Key := IPv4Address) (Value := ArpCacheEntry (Pkt := Pkt))).
#[local] Existing Instance M_ret.
#[local] Existing Instance M_bind.

Lemma bind_run {A B} (m : M A) (f : A -> M B) (s s1 : Arp) a : m s = Some (a, s1) -> (m ≫= f) s = f a s1.
Proof. unfold mbind, M_bind. by intros ->. Qed.

Lemma entry_run p (s : Arp) e : nodes (arpCache s) !! p = Some e -> entry p s = Some (nvalue e, s).
Proof. unfold entry. by intros ->. Qed.

Definition cancelled (id : Z) (s : Arp) : Arp := if id =? 0 then s else on_timers (delete id) s.

Lemma cancel_run id (s : Arp) : cancel id s = Some (tt, cancelled id s).
Proof. unfold cancel, cancelled. by destruct (id =? 0). Qed.

Lemma cancelled_same id (s : Arp) : arpCache (cancelled id s) = arpCache s /\ arpTable (cancelled id s) = arpTable s /\
  incompletes (cancelled id s) = incompletes s /\ nextTimer (cancelled id s) = nextTimer s /\ log (cancelled id s) = log s.
Proof. unfold cancelled. by destruct (id =? 0). Qed.

(** Sending the queue: the packets that can be sent are, in their order. *)
Lemma sendAll_run l mac (s : Arp) : exists s', sendAll sendable l mac s = Some (tt, s') /\
  log s' = log s ++ ((fun p => Sent p mac) <$> filter (fun p => sendable p = true) l) /\
  arpCache s' = arpCache s /\ arpTable s' = arpTable s /\ incompletes s' = incompletes s /\ timers s' = timers s.
Proof.
  revert s. induction l as [|p l IH]; intros s; cbn [sendAll].
  - exists s. by rewrite app_nil_r.
  - unfold sendQueuedPacket. rewrite filter_cons. destruct (sendable p) eqn:E.
    + destruct (IH (put (Sent p mac) s)) as (s' & Hs & Hl & H). exists s'. rewrite does_bind, decide_True by done. split; [done|].
      split; [|exact H]. rewrite Hl. cbn [put log]. by rewrite <- app_assoc.
    + destruct (IH s) as (s' & Hs & Hl & H). exists s'. rewrite decide_False by done. done.
Qed.

(** A search does not see what an entry holds. *)
Lemma nodeIs_alter (m : Cache) p f h k c :
  nodeIs (on_nodes (alter (fun e => set_value (f (nvalue e)) e) p) m) h k c = nodeIs m h k c.
Proof.
  unfold nodeIs. cbn [on_nodes StableHashMap.slots nodes]. destruct (StableHashMap.slots m !!! c) as [q|]; [|done].
  destruct (decide (q = p)) as [->|]; [rewrite lookup_alter_eq; by destruct (nodes m !! p) | by rewrite lookup_alter_ne].
Qed.

Lemma find_ext_all {A} (P Q : A -> bool) l : (forall x, P x = Q x) -> List.find P l = List.find Q l.
Proof. intros H. induction l as [|x l IH]; [done|]. cbn [List.find]. rewrite H. by destruct (Q x). Qed.

Lemma find_alter (m : Cache) p f k :
  StableHashMap.find hash_IPv4Address (on_nodes (alter (fun e => set_value (f (nvalue e)) e) p) m) k = StableHashMap.find hash_IPv4Address m k.
Proof.
  assert (H : forall n pos t, probeLoop (on_nodes (alter (fun e => set_value (f (nvalue e)) e) p) m) k (hash_IPv4Address k) (fingerprint (hash_IPv4Address k)) n pos t =
    probeLoop m k (hash_IPv4Address k) (fingerprint (hash_IPv4Address k)) n pos t).
  { induction n as [|n IH]; intros pos t; [done|]. cbn [probeLoop]. cbv zeta. change (control (on_nodes _ m)) with (control m).
    change (StableHashMap.capacity (on_nodes _ m)) with (StableHashMap.capacity m).
    rewrite (find_ext_all _ (fun idx => nodeIs m (hash_IPv4Address k) k (masked (StableHashMap.capacity m) (Z.of_nat (pos + idx))))) by (intros idx; apply nodeIs_alter).
    destruct (List.find _ _); [done|]. destruct (cmpeq _ EMPTY); [apply IH | done]. }
  unfold StableHashMap.find, probe. by rewrite H.
Qed.
#[local] Opaque StableHashMap.find probe.

Lemma cacheFind_run ip (s : Arp) it : StableHashMap.find hash_IPv4Address (arpCache s) ip = Some it ->
  cacheFind ip s = Some (match it with Some i => StableHashMap.slots (arpCache s) !!! i | None => None end, s).
Proof. intros H. unfold cacheFind. rewrite asks_bind. unfold mbind, M_bind, lift. by rewrite H. Qed.

#[local] Transparent subscript.
Lemma cacheSubscript_run ip (s : Arp) i p : StableHashMap.find hash_IPv4Address (arpCache s) ip = Some (Some i) ->
  StableHashMap.slots (arpCache s) !!! i = Some p -> cacheSubscript ip s = Some (p, s).
Proof.
  intros Hf Hp. unfold cacheSubscript. rewrite asks_bind. unfold mbind at 1, M_bind, lift, subscript. rewrite Hf. cbn [mbind option_bind fst snd].
  unfold M_bind, does. rewrite Hp. by destruct s.
Qed.
#[local] Opaque subscript.

(** The state after an entry is written. *)
Definition wrote (p : nat) (f : ArpCacheEntry (Pkt := Pkt) -> ArpCacheEntry) (s : Arp) : Arp :=
  on_cache (on_nodes (alter (fun e => set_value (f (nvalue e)) e) p)) s.

(** What the searches of the cache and the node [p] with the value [e] give. *)
Definition holds (ip : IPv4Address) (i p : nat) (e : ArpCacheEntry) (s : Arp) : Prop :=
  StableHashMap.find hash_IPv4Address (arpCache s) ip = Some (Some i) /\ StableHashMap.slots (arpCache s) !!! i = Some p /\
  nvalue <$> nodes (arpCache s) !! p = Some e.

Lemma holds_same ip i p e (s s' : Arp) : arpCache s' = arpCache s -> holds ip i p e s -> holds ip i p e s'.
Proof. unfold holds. by intros ->. Qed.

Lemma holds_wrote ip i p e f (s : Arp) : holds ip i p e s -> holds ip i p (f e) (wrote p f s).
Proof.
  intros (Hf & Hp & He). unfold holds, wrote. cbn [on_cache arpCache]. rewrite find_alter. split; [done|]. split; [done|].
  cbn [on_nodes nodes]. rewrite lookup_alter_eq. destruct (nodes (arpCache s) !! p) as [n|]; [|done]. cbn in *. by injection He as ->.
Qed.

Lemma holds_entry ip i p e (s : Arp) : holds ip i p e s -> entry p s = Some (e, s).
Proof. intros (_ & _ & He). unfold entry. destruct (nodes (arpCache s) !! p) as [n|]; [|done]. cbn in He. by injection He as ->. Qed.

Lemma process_run ip i p e mac (s : Arp) : holds ip i p e s -> exists s', processQueuedPackets sendable ip mac s = Some (tt, s') /\
  log s' = log s ++ ((fun x => Sent x mac) <$> filter (fun x => sendable x = true) (queue e)) /\
  holds ip i p (entry_queue [] e) s' /\ arpTable s' = arpTable s /\ incompletes s' = incompletes s /\ timers s' = timers s.
Proof.
  intros H. destruct (sendAll_run (queue e) mac s) as (s1 & Hs & Hl & Hc & Ht & Hi & Hm). exists (wrote p (entry_queue []) s1).
  pose proof H as (Hf & Hp & _). unfold processQueuedPackets. rewrite (bind_run _ _ _ _ _ (cacheFind_run ip s _ Hf)), Hp.
  rewrite (bind_run _ _ _ _ _ (holds_entry _ _ _ _ _ H)), (bind_run _ _ _ _ _ Hs). split; [done|]. split; [done|].
  split; [by apply holds_wrote, (holds_same _ _ _ _ s) | done].
Qed.

Lemma tableInsert_run ip mac (s : Arp) r : AtomicHashMap.map_insert hash_IPv4Address alloc (arpTable s) ip mac = Some r ->
  tableInsert alloc ip mac s = Some (tt, set_table r.2 s).
Proof. intros H. unfold tableInsert. rewrite asks_bind. unfold mbind, M_bind, lift, does. by rewrite H. Qed.

(** The state after a timer is set. *)
Definition armed (due : Z) (c : Callback) (s : Arp) : Arp :=
  mkArp (arpCache s) (arpTable s) (insertionOrder s) (incompletes s) (running s) (<[nextTimer s := (due, c)]> (timers s)) (nextTimer s + 1) (log s).

Lemma postAfter_run due c (s : Arp) : postAfter due c s = Some (nextTimer s, armed due c s).
Proof. done. Qed.

Lemma holds_armed ip i p e due c (s : Arp) : holds ip i p e s -> holds ip i p e (armed due c s).
Proof. done. Qed.

Lemma holds_table ip i p e t (s : Arp) : holds ip i p e s -> holds ip i p e (set_table t s).
Proof. done. Qed.

(** The timers of an entry that was completed at [now]. *)
Definition renewal (now : Z) : Z := now + u32 (arp_timeout cfg * 10) / 8.
Definition expiry (now : Z) : Z := now + arp_timeout cfg.

Definition completed (now mac id : Z) : ArpCacheEntry (Pkt := Pkt) := mkEntry [] COMPLETE (id + 1) id mac 0 (expiry now) (renewal now).

Lemma alters_run p f (s : Arp) : alters p f s = Some (tt, wrote p f s).
Proof. done. Qed.

Lemma complete_run now ip i p e mac r (s : Arp) : holds ip i p e s -> status e = INCOMPLETE ->
  AtomicHashMap.map_insert hash_IPv4Address alloc (arpTable s) ip mac = Some r ->
  exists s', completeArpEntry sendable alloc cfg now ip p mac s = Some (tt, s') /\
    log s' = log s ++ ((fun x => Sent x mac) <$> filter (fun x => sendable x = true) (queue e)) /\
    holds ip i p (completed now mac (nextTimer s)) s' /\ arpTable s' = r.2 /\
    incompletes s' = (if incompletes s =? 0 then 0 else incompletes s - 1) /\
    timers s' !! nextTimer s = Some (renewal now, Renew ip) /\ timers s' !! (nextTimer s + 1) = Some (expiry now, Expire ip).
Proof.
  intros H Hst Hr. unfold completeArpEntry. rewrite (bind_run _ _ _ _ _ (holds_entry _ _ _ _ _ H)), Hst.
  rewrite (bool_decide_eq_false_2 (INCOMPLETE = COMPLETE)), (bool_decide_eq_true_2 (INCOMPLETE = INCOMPLETE)) by done. cbn [andb].
  rewrite !(bind_run _ _ _ _ _ (cancel_run _ _)), asks_bind.
  set (s2 := cancelled (requestTimerId e) (cancelled (expireTimerId e) s)).
  assert (Hs2 : arpCache s2 = arpCache s /\ arpTable s2 = arpTable s /\ incompletes s2 = incompletes s /\ nextTimer s2 = nextTimer s /\ log s2 = log s).
  { destruct (cancelled_same (requestTimerId e) (cancelled (expireTimerId e) s)) as (A1 & A2 & A3 & A4 & A5).
    destruct (cancelled_same (expireTimerId e) s) as (B1 & B2 & B3 & B4 & B5). unfold s2. repeat split; congruence. }
  clearbody s2. destruct Hs2 as (Hc & Ht & Hi & Hn & Hl).
  assert (Hd : exists s3, (if negb (incompletes s2 =? 0) then does (on_incompletes (fun n => n - 1)) else mret tt) s2 = Some (tt, s3) /\
    arpCache s3 = arpCache s /\ arpTable s3 = arpTable s /\ incompletes s3 = (if incompletes s =? 0 then 0 else incompletes s - 1) /\
    nextTimer s3 = nextTimer s /\ log s3 = log s).
  { destruct (incompletes s2 =? 0) eqn:E; cbn [negb]; (eexists; split; [reflexivity|]); cbn [on_incompletes arpCache arpTable incompletes nextTimer log]; rewrite Hi in E;
      rewrite ?E; repeat split; try done; lia. }
  destruct Hd as (s3 & Hd & Hc3 & Ht3 & Hi3 & Hn3 & Hl3). rewrite (bind_run _ _ _ _ _ Hd). clear Hd.
  apply (holds_same _ _ _ _ _ s3) in H; [|done].
  cbv zeta. rewrite (bind_run _ _ _ _ _ (alters_run _ _ _)). rewrite <- Ht3 in Hr.
  rewrite (bind_run _ _ _ _ _ (tableInsert_run ip mac (wrote p _ s3) r Hr)), (bind_run _ _ _ _ _ (alters_run _ _ _)),
    (bind_run _ _ _ _ _ (postAfter_run _ _ _)), (bind_run _ _ _ _ _ (alters_run _ _ _)), (bind_run _ _ _ _ _ (postAfter_run _ _ _)),
    (bind_run _ _ _ _ _ (alters_run _ _ _)).
  match goal with |- exists s', processQueuedPackets _ _ _ ?x = _ /\ _ => set (s9 := x) end.
  assert (H9 : holds ip i p (entry_queue (queue e) (completed now mac (nextTimer s))) s9).
  { rewrite <- Hn3. change (holds ip i p (entry_expire (nextTimer s3 + 1) (entry_request (nextTimer s3) (entry_renewal (renewal now)
      (entry_expiry (expiry now) (entry_retries 0 (entry_mac mac (entry_status COMPLETE e))))))) s9).
    apply holds_wrote, holds_armed, (holds_wrote _ _ _ _ (entry_request (nextTimer s3))), holds_armed, (holds_wrote _ _ _ _ (entry_renewal (renewal now))), holds_table.
    by apply (holds_wrote _ _ _ _ (fun e => entry_expiry (expiry now) (entry_retries 0 (entry_mac mac (entry_status COMPLETE e))))). }
  destruct (process_run _ _ _ _ mac _ H9) as (s' & Hp & Hl' & H' & Ht' & Hi' & Hm'). exists s'. split; [exact Hp|]. rewrite Hl', Ht', Hi', Hm'.
  split; [by rewrite <- Hl3|]. split; [exact H'|]. split; [done|]. split; [exact Hi3|].
  rewrite <- Hn3. unfold s9. cbn [wrote on_cache armed timers set_table nextTimer].
  rewrite lookup_insert_ne, lookup_insert_eq by lia. by rewrite lookup_insert_eq.
Qed.

(** C23: A reply for an address that is being resolved completes its entry: the
    packets that wait are sent to the MAC of the reply, each once and in the
    order in which they came (those without an Ethernet header to build are
    dropped), none is left waiting, the table of the data plane gets the MAC,
    and one incomplete entry less is counted. Two timers are set: the entry
    expires after the timeout, and it is renewed after 10/8 of it, which is
    never before it has expired. *)
Theorem reply_sends_queue now ip target mac i p e r (s : Arp) :
  ip <> target -> holds ip i p e s -> status e = INCOMPLETE ->
  AtomicHashMap.map_insert hash_IPv4Address alloc (arpTable s) ip mac = Some r ->
  exists s', run_op sendable alloc cfg now (OpReply ip target mac) s = Some (tt, s') /\
    log s' = log s ++ ((fun x => Sent x mac) <$> filter (fun x => sendable x = true) (queue e)) /\
    holds ip i p (mkEntry [] COMPLETE (nextTimer s + 1) (nextTimer s) mac 0 (expiry now) (renewal now)) s' /\
    arpTable s' = r.2 /\
    incompletes s' = (if incompletes s =? 0 then 0 else incompletes s - 1) /\
    timers s' !! nextTimer s = Some (renewal now, Renew ip) /\ timers s' !! (nextTimer s + 1) = Some (expiry now, Expire ip) /\
    (0 <= arp_timeout cfg * 10 < 2 ^ 32 -> expiry now <= renewal now).
Proof.
  intros Hne H Hst Hr. destruct (complete_run now ip i p e mac r s H Hst Hr) as (s' & Hs & Hl & Hh & Ht & Hi & Hm & Hx). exists s'.
  split; [|do 6 (split; [done|]); unfold expiry, renewal, u32; intros Hb; rewrite Z.mod_small by lia; pose proof (Z.div_le_lower_bound (arp_timeout cfg * 10) 8 (arp_timeout cfg)); lia].
  pose proof H as (Hf & Hp & _). cbn [run_op]. unfold receiveReply. rewrite asks_bind, bool_decide_eq_false_2 by done. cbn [andb].
  rewrite (bind_run _ _ _ _ _ (cacheFind_run ip s _ Hf)), Hp, (bind_run _ _ _ _ _ (cacheSubscript_run ip s i p Hf Hp)).
  rewrite (bind_run _ _ _ _ _ (holds_entry _ _ _ _ _ H)), Hst. exact Hs.
Qed.
End Reply.

(** ** A run: an address that does not answer, with a limit of one entry *)

Section Demo.
Definition demo_cfg : Cfg := mkCfg true (Some 1) 1 2 false false 14400 1 3 true.
Definition demo_table : AtomicHashMap.Table (Key := IPv4Address) (V := Z) := mkTable 16 0 0 (replicate 16 kEmpty) (replicate 16 None).
Definition demo_ip (n : Z) : IPv4Address := mkIPv4Address (3232235776 + n).

Definition demo_before : list (Z * Op (Pkt := bytes)) := [(0, OpResolve (demo_ip 1) [1]); (1, OpTimer 1)].
Definition demo_later : list (Z * Op (Pkt := bytes)) := [(2, OpStatic (demo_ip 2) 5); (2, OpResolve (demo_ip 2) [2]); (3, OpReply (demo_ip 1) (demo_ip 9) 6); (4, OpResolve (demo_ip 3) [3])].

Definition demo_state (l : list (Z * Op)) (s : Arp (Pkt := bytes)) : Arp :=
  match run_ops (fun _ => true) (fun _ => true) demo_cfg l s with Some (_, s) => s | None => s end.

(** The request was sent once, and the address is unknown again. *)
Example demo_failed : log (demo_state demo_before (Arp_new demo_table)) = [Request (demo_ip 1)].
Proof. vm_compute. reflexivity. Qed.

(** The packet for the static entry is sent, the one for the other address is
    not, and nothing is asked. *)
Example demo_stuck : log (demo_state demo_later (demo_state demo_before (Arp_new demo_table))) = [Request (demo_ip 1); Sent [2] 5].
Proof. vm_compute. reflexivity. Qed.

Lemma limit_is_final_witness :
  1 <= incompletes (demo_state demo_later (demo_state demo_before (Arp_new demo_table))) /\
  run_op (fun _ => true) (fun _ => true) demo_cfg 5 (OpResolve (demo_ip 4) [0]) (demo_state demo_later (demo_state demo_before (Arp_new demo_table))) =
    Some (tt, demo_state demo_later (demo_state demo_before (Arp_new demo_table))).
Proof.
  assert (Hb : run_ops (fun _ => true) (fun _ => true) demo_cfg demo_before (Arp_new demo_table) = Some (tt, demo_state demo_before (Arp_new demo_table)))
    by (vm_compute; reflexivity).
  assert (Hl : run_ops (fun _ => true) (fun _ => true) demo_cfg demo_later (demo_state demo_before (Arp_new demo_table)) =
    Some (tt, demo_state demo_later (demo_state demo_before (Arp_new demo_table)))) by (vm_compute; reflexivity).
  assert (Hn : nodes (arpCache (demo_state demo_before (Arp_new demo_table))) = ∅) by (vm_compute; reflexivity).
  destruct (limit_is_final (fun _ => true) (fun _ => true) demo_cfg demo_table 1 demo_before demo_later
    (demo_state demo_before (Arp_new demo_table)) (demo_state demo_later (demo_state demo_before (Arp_new demo_table))) eq_refl eq_refl Hb) as [H1 H2].
  - vm_compute. discriminate.
  - intros p e. rewrite Hn. by rewrite lookup_empty.
  - by repeat constructor.
  - exact Hl.
  - split; [exact H1|]. apply H2. vm_compute. reflexivity.
Defined.

(** Two packets wait for an address, one of which cannot be sent. *)
Definition demo_wait : Arp (Pkt := bytes) := demo_state [(0, OpResolve (demo_ip 1) [1]); (0, OpResolve (demo_ip 1) [2; 2])] (Arp_new demo_table).

Definition demo_table' : AtomicHashMap.Table (Key := IPv4Address) (V := Z) :=
  match AtomicHashMap.map_insert hash_IPv4Address (fun _ => true) demo_table (demo_ip 1) 9 with Some r => r.2 | None => demo_table end.

Lemma reply_sends_queue_witness : exists s',
  run_op (fun p => bool_decide (length p = 1%nat)) (fun _ => true) demo_cfg 3 (OpReply (demo_ip 1) (demo_ip 8) 9) demo_wait = Some (tt, s') /\
  log s' = [Request (demo_ip 1); Sent [1] 9] /\ timers s' !! 2 = Some (3 + 18000, Renew (demo_ip 1)) /\ timers s' !! 3 = Some (3 + 14400, Expire (demo_ip 1)).
Proof.
  destruct (reply_sends_queue (fun p : bytes => bool_decide (length p = 1%nat)) (fun _ => true) demo_cfg 3 (demo_ip 1) (demo_ip 8) 9
    (masked 8 (hash_IPv4Address (demo_ip 1))) 0 (mkEntry [[1]; [2; 2]] INCOMPLETE 0 1 0 1 0 0) (true, demo_table') demo_wait)
    as (s' & H & Hl & _ & _ & _ & Hm & Hx & _).
  - vm_compute. discriminate.
  - repeat split; vm_compute; reflexivity.
  - reflexivity.
  - vm_compute. reflexivity.
  - exists s'. split; [exact H|]. split; [rewrite Hl; vm_compute; reflexivity|]. split; [exact Hm | exact Hx].
Defined.
End Demo.
