(* ===== verification/Ring.v ===== *)
(** * Ring: the bounded lock-free queue of the thread pool and of the control scheduler

    The same algorithm is written twice, in core/ThreadPool.hpp (enqueue,
    consumeOne) and in core/ControlScheduler.h/.cpp (SubQueue). Every atomic
    access of it is a step here, and the steps of any number of threads
    interleave in any order; memory is sequentially consistent, which the
    acquire and release orders of the code give for what it reads. Positions
    are unbounded: the 64-bit counters of the code do not come around. A task
    that uses the ring while it runs is one more thread. *)

From S2P Require Import Prelude.

Section Ring.
Context {Task : Type}.

(** [core/ThreadPool.hpp:228-232] ThreadPool::Slot *)
Record Slot := mkSlot { seqno : Z; task : option Task }.
#[export] Instance Slot_inhabited : Inhabited Slot := populate (mkSlot 0 None).

(** [core/ControlScheduler.h:288-292] SubQueue *)
Record Ring := mkRing { capacity : Z; slots : list Slot; head : Z; tail : Z }.

Definition mask (r : Ring) : Z := capacity r - 1.
Definition at_pos (r : Ring) (pos : Z) : nat := Z.to_nat (Z.land pos (mask r)).
Definition slot (r : Ring) (pos : Z) : Slot := slots r !!! at_pos r pos.

(** [core/ControlScheduler.cpp:49-68] SubQueue::init *)
Definition Ring_init (cap : Z) : Ring :=
  mkRing cap ((fun i => mkSlot (Z.of_nat i) None) <$> seq 0 (Z.to_nat cap)) 0 0.

Definition set_seq (pos v : Z) (r : Ring) : Ring := mkRing (capacity r) (<[at_pos r pos := mkSlot v (task (slot r pos))]> (slots r)) (head r) (tail r).
Definition set_task (pos : Z) (v : option Task) (r : Ring) : Ring := mkRing (capacity r) (<[at_pos r pos := mkSlot (seqno (slot r pos)) v]> (slots r)) (head r) (tail r).
Definition set_head (v : Z) (r : Ring) : Ring := mkRing (capacity r) (slots r) v (tail r).
Definition set_tail (v : Z) (r : Ring) : Ring := mkRing (capacity r) (slots r) (head r) v.

(** Where a thread is. *)
Inductive Pc :=
  | PLoad (t : Task)              (* loads head *)
  | PSeq (t : Task) (pos : Z)     (* loads the slot's sequence number *)
  | PCas (t : Task) (pos : Z)     (* claims the position *)
  | PSet (t : Task) (pos : Z)     (* writes the task *)
  | PPublish (t : Task) (pos : Z) (* stores the sequence number *)
  | CLoad (run : bool)
  | CSeq (run : bool) (pos : Z)
  | CCas (run : bool) (pos : Z)
  | CRun (run : bool) (pos : Z)   (* runs the task *)
  | CClean (pos : Z)              (* destroys it *)
  | CRecycle (pos : Z)            (* stores the sequence number *)
  | Done (answer : bool).

(** [core/ControlScheduler.h:254-284] SubQueue::tryEmplace: one step; [weak] is whether the exchange fails for no
    reason. So ThreadPool::enqueue at lines 166-199 of ThreadPool.hpp. *)
Definition stepEmplace (weak : bool) (pc : Pc) (r : Ring) : option (Pc * Ring) :=
  match pc with
  | PLoad t => Some (PSeq t (head r), r)
  | PSeq t pos =>
      let dif := seqno (slot r pos) - pos in
      if dif =? 0 then Some (PCas t pos, r)
      else if dif <? 0 then Some (Done false, r)
      else Some (PLoad t, r)
  | PCas t pos =>
      if (head r =? pos) && negb weak then Some (PSet t pos, set_head (pos + 1) r)
      else Some (PSeq t (head r), r)
  | PSet t pos => Some (PPublish t pos, set_task pos (Some t) r)
  | PPublish t pos => Some (Done true, set_seq pos (pos + 1) r)
  | _ => None
  end.

(** [core/ControlScheduler.cpp:85-118] SubQueue::tryConsumeOne: one step. So ThreadPool::consumeOne at lines 266-302 of
    ThreadPool.hpp, with [run]. *)
Definition stepConsume (weak : bool) (pc : Pc) (r : Ring) : option (Pc * Ring) :=
  match pc with
  | CLoad run => Some (CSeq run (tail r), r)
  | CSeq run pos =>
      let dif := seqno (slot r pos) - (pos + 1) in
      if dif =? 0 then Some (CCas run pos, r)
      else if dif <? 0 then Some (Done false, r)
      else Some (CLoad run, r)
  | CCas run pos =>
      if (tail r =? pos) && negb weak then Some (CRun run pos, set_tail (pos + 1) r)
      else Some (CSeq run (tail r), r)
  | CRun run pos => Some (CClean pos, r)
  | CClean pos => Some (CRecycle pos, set_task pos None r)
  | CRecycle pos => Some (Done true, set_seq pos (pos + capacity r) r)
  | _ => None
  end.

(** [core/ControlScheduler.cpp:120-127] SubQueue::hasItem *)
Definition hasItem (r : Ring) : bool := seqno (slot r (tail r)) - (tail r + 1) =? 0.

(** ** Threads *)

(** The ring, its threads, what was claimed for insertion in this order, and
    which tasks were taken out (with the position and whether they were run). *)
Record State := mkState {
  ring : Ring;
  threads : gmap nat Pc;
  pushed : list Task;
  taken : list (Z * Task * bool) }.

Inductive Label := Begin (tid : nat) (pc : Pc) | Go (tid : nat) (weak : bool).

(** A thread that has no call under way begins one, or a thread takes a step. *)
Definition exec (s : State) (l : Label) : option State :=
  match l with
  | Begin tid pc =>
      match threads s !! tid, pc with
      | (None | Some (Done _)), (PLoad _ | CLoad _) => Some (mkState (ring s) (<[tid := pc]> (threads s)) (pushed s) (taken s))
      | _, _ => None
      end
  | Go tid weak =>
      pc ← threads s !! tid;
      '(pc', r') ← match stepEmplace weak pc (ring s) with Some x => Some x | None => stepConsume weak pc (ring s) end;
      Some (mkState r' (<[tid := pc']> (threads s))
        (match pc, pc' with PCas t _, PSet _ _ => pushed s ++ [t] | _, _ => pushed s end)
        (match pc with
         | CRun run pos => match task (slot (ring s) pos) with Some t => taken s ++ [(pos, t, run)] | None => taken s end
         | _ => taken s
         end))
  end.

Fixpoint execs (s : State) (l : list Label) : option State :=
  match l with [] => Some s | a :: l => s ← exec s a; execs s l end.

Definition init (cap : Z) : State := mkState (Ring_init cap) ∅ [] [].

Inductive reach (cap : Z) : State -> Prop :=
  | reach_init : reach cap (init cap)
  | reach_exec s l s' : reach cap s -> exec s l = Some s' -> reach cap s'.
End Ring.

(** ** The invariant *)

Section Inv.
Context {Task : Type}.
#[local] Abbreviation Ring := (Ring (Task := Task)).
#[local] Abbreviation State := (State (Task := Task)).

Definition cap_ok (r : Ring) : Prop := exists n, 1 <= n /\ capacity r = 2 ^ n.

Lemma cap_2 r : cap_ok r -> 2 <= capacity r.
Proof. intros (n & Hn & ->). pose proof (Z.pow_le_mono_r 2 1 n). lia. Qed.

Lemma at_pos_mod r p : cap_ok r -> Z.of_nat (at_pos r p) = p mod capacity r.
Proof.
  intros Hc. pose proof (cap_2 r Hc). destruct Hc as (n & Hn & E). unfold at_pos, mask. rewrite E in *.
  replace (2 ^ n - 1) with (Z.ones n) by (rewrite Z.ones_equiv; done). rewrite Z.land_ones by lia.
  rewrite Z2Nat.id; [done|]. apply Z.mod_pos_bound. by apply Z.pow_pos_nonneg; lia.
Qed.

Lemma at_pos_lt r p : cap_ok r -> (at_pos r p < Z.to_nat (capacity r))%nat.
Proof. intros Hc. pose proof (cap_2 r Hc). pose proof (at_pos_mod r p Hc). pose proof (Z.mod_pos_bound p (capacity r)). lia. Qed.

(** Positions that are nearer than the capacity have different slots. *)
Lemma at_pos_near r p q : cap_ok r -> at_pos r p = at_pos r q -> - capacity r < p - q < capacity r -> p = q.
Proof.
  intros Hc He Hb. pose proof (cap_2 r Hc). pose proof (at_pos_mod r p Hc) as Hp. pose proof (at_pos_mod r q Hc) as Hq.
  rewrite He, Hq in Hp. pose proof (Z.div_mod p (capacity r)). pose proof (Z.div_mod q (capacity r)).
  assert (E : p - q = capacity r * (p / capacity r - q / capacity r)) by lia.
  assert (p / capacity r - q / capacity r = 0) by nia. nia.
Qed.

Lemma at_pos_next r p : cap_ok r -> at_pos r (p + capacity r) = at_pos r p.
Proof.
  intros Hc. pose proof (cap_2 r Hc). apply Nat2Z.inj. rewrite !at_pos_mod by done. replace (p + capacity r) with (p + 1 * capacity r) by lia. apply Z.mod_add. lia.
Qed.

Definition ring_wf (r : Ring) : Prop := cap_ok r /\ length (slots r) = Z.to_nat (capacity r).

Lemma slot_same (r : Ring) p q : at_pos r p = at_pos r q -> slot r p = slot r q.
Proof. unfold slot. by intros ->. Qed.

Lemma slot_next (r : Ring) p : cap_ok r -> slot r (p + capacity r) = slot r p.
Proof. intros Hc. apply slot_same. by apply at_pos_next. Qed.

Lemma set_seq_same (r : Ring) p v q : ring_wf r -> at_pos r q = at_pos r p -> slot (set_seq p v r) q = mkSlot v (task (slot r p)).
Proof.
  intros [Hc Hl] He. unfold slot at 1, at_pos, set_seq, mask. cbn [slots capacity]. fold (mask r) (at_pos r q). rewrite He.
  apply list_lookup_total_insert_eq. rewrite Hl. by apply at_pos_lt.
Qed.

Lemma set_seq_other (r : Ring) p v q : at_pos r q <> at_pos r p -> slot (set_seq p v r) q = slot r q.
Proof. intros Hne. unfold slot, at_pos, set_seq, mask. cbn [slots capacity]. apply list_lookup_total_insert_ne. by apply not_eq_sym. Qed.

Lemma set_task_same (r : Ring) p v q : ring_wf r -> at_pos r q = at_pos r p -> slot (set_task p v r) q = mkSlot (seqno (slot r p)) v.
Proof.
  intros [Hc Hl] He. unfold slot at 1, at_pos, set_task, mask. cbn [slots capacity]. fold (mask r) (at_pos r q). rewrite He.
  apply list_lookup_total_insert_eq. rewrite Hl. by apply at_pos_lt.
Qed.

Lemma set_task_other (r : Ring) p v q : at_pos r q <> at_pos r p -> slot (set_task p v r) q = slot r q.
Proof. intros Hne. unfold slot, at_pos, set_task, mask. cbn [slots capacity]. apply list_lookup_total_insert_ne. by apply not_eq_sym. Qed.

Lemma set_task_seqno (r : Ring) p v q : ring_wf r -> seqno (slot (set_task p v r) q) = seqno (slot r q).
Proof.
  intros Hw. destruct (decide (at_pos r q = at_pos r p)) as [E|E]; [|by rewrite set_task_other].
  rewrite set_task_same by done. by rewrite (slot_same r q p).
Qed.

(** What the slot of position [p], of the [capacity] positions from the tail,
    says: it is free, or claimed by a producer; it has the task of [p]; or the
    task of the position before runs. *)
Inductive cell (r : Ring) (l : list Task) (p : Z) : Prop :=
  | cell_free : seqno (slot r p) = p -> cell r l p
  | cell_full : seqno (slot r p) = p + 1 -> p < head r -> task (slot r p) = l !! Z.to_nat p -> cell r l p
  | cell_busy : seqno (slot r p) = p - capacity r + 1 -> head r <= p -> 0 <= p - capacity r -> cell r l p.

(** The position that a thread owns. *)
Definition owns (pc : Pc (Task := Task)) : option Z :=
  match pc with PSet _ p | PPublish _ p | CRun _ p | CClean p | CRecycle p => Some p | _ => None end.

(** What a thread knows where it is. *)
Definition knows (r : Ring) (l : list Task) (pc : Pc) : Prop :=
  match pc with
  | PLoad _ | CLoad _ | Done _ => True
  | PSeq _ p => 0 <= p <= head r
  | PCas _ p => 0 <= p <= head r /\ (p = head r -> seqno (slot r p) = p)
  | PSet t p => tail r <= p < head r /\ seqno (slot r p) = p /\ l !! Z.to_nat p = Some t
  | PPublish t p => tail r <= p < head r /\ seqno (slot r p) = p /\ l !! Z.to_nat p = Some t /\ task (slot r p) = Some t
  | CSeq _ p => 0 <= p <= tail r
  | CCas _ p => 0 <= p <= tail r /\ (p = tail r -> seqno (slot r p) = p + 1)
  | CRun _ p => 0 <= p < tail r /\ head r <= p + capacity r /\ seqno (slot r p) = p + 1 /\ task (slot r p) = l !! Z.to_nat p
  | CClean p | CRecycle p => 0 <= p < tail r /\ head r <= p + capacity r /\ seqno (slot r p) = p + 1
  end.

Record inv (s : State) : Prop := mkInv {
  inv_ring : ring_wf (ring s);
  inv_pos : 0 <= tail (ring s) <= head (ring s) /\ head (ring s) <= tail (ring s) + capacity (ring s);
  inv_pushed : Z.of_nat (length (pushed s)) = head (ring s);
  inv_cell : forall p, tail (ring s) <= p < tail (ring s) + capacity (ring s) -> cell (ring s) (pushed s) p;
  inv_knows : forall i pc, threads s !! i = Some pc -> knows (ring s) (pushed s) pc;
  inv_owns : forall i j pi pj p, threads s !! i = Some pi -> threads s !! j = Some pj -> owns pi = Some p -> owns pj = Some p -> i = j;
  inv_taken : forall p t run, (p, t, run) ∈ taken s -> 0 <= p < tail (ring s) /\ pushed s !! Z.to_nat p = Some t /\
    forall i run', threads s !! i <> Some (CRun run' p);
  inv_once : NoDup ((fun x => x.1.1) <$> taken s);
  inv_all : forall p, 0 <= p < tail (ring s) -> p ∈ ((fun x => x.1.1) <$> taken s) \/ exists i run, threads s !! i = Some (CRun run p);
  inv_producer : forall p, tail (ring s) <= p < head (ring s) -> seqno (slot (ring s) p) = p -> exists i pc, threads s !! i = Some pc /\ owns pc = Some p;
  inv_consumer : forall p, 0 <= p < tail (ring s) -> head (ring s) <= p + capacity (ring s) -> seqno (slot (ring s) p) = p + 1 ->
    exists i pc, threads s !! i = Some pc /\ owns pc = Some p }.

Lemma inv_init cap : (exists n, 1 <= n /\ cap = 2 ^ n) -> inv (init cap).
Proof.
  intros Hc. assert (Hw : ring_wf (Ring_init (Task := Task) cap)) by (split; [exact Hc | cbn; by rewrite length_fmap, length_seq]).
  pose proof (cap_2 _ (proj1 Hw)) as H2. cbn in H2.
  constructor; cbn [init ring threads pushed taken Ring_init head tail capacity]; try done; try lia.
  - intros p Hp. apply cell_free. pose proof (at_pos_lt _ p (proj1 Hw)) as Hl. pose proof (at_pos_mod _ p (proj1 Hw)) as Hm.
    change (capacity (Ring_init cap)) with cap in *. rewrite Z.mod_small in Hm by lia.
    change (seqno (((fun i => mkSlot (Task := Task) (Z.of_nat i) None) <$> seq 0 (Z.to_nat cap)) !!! at_pos (Ring_init (Task := Task) cap) p) = p).
    rewrite (list_lookup_total_correct _ _ (mkSlot (Z.of_nat (at_pos (Ring_init (Task := Task) cap) p)) None)); [exact Hm|].
    by rewrite list_lookup_fmap, lookup_seq_lt.
  - by intros p t run Hn%elem_of_nil.
  - constructor.
Qed.

(** The threads after thread [i] has moved to [pc]. *)
Definition moved (s : State) (i : nat) (pc : Pc) (r : Ring) (l : list Task) (k : list (Z * Task * bool)) : State := mkState r (<[i := pc]> (threads s)) l k.

Lemma moved_knows s i pc r l k : knows r l pc -> (forall j pj, j <> i -> threads s !! j = Some pj -> knows r l pj) ->
  forall j pj, threads (moved s i pc r l k) !! j = Some pj -> knows (ring (moved s i pc r l k)) (pushed (moved s i pc r l k)) pj.
Proof.
  intros Hi Ho j pj. cbn. destruct (decide (j = i)) as [->|]; [rewrite lookup_insert_eq; by intros [= <-] | rewrite lookup_insert_ne by done; by apply Ho].
Qed.

Lemma moved_owns s i pc r l k : inv s -> (forall j pj p, j <> i -> threads s !! j = Some pj -> owns pc = Some p -> owns pj <> Some p) ->
  forall j j' pj pj' p, threads (moved s i pc r l k) !! j = Some pj -> threads (moved s i pc r l k) !! j' = Some pj' -> owns pj = Some p -> owns pj' = Some p -> j = j'.
Proof.
  intros Hv Hi j j' pj pj' p. cbn. destruct (decide (j = i)) as [->|Hj], (decide (j' = i)) as [->|Hj']; [done| | |];
    rewrite ?lookup_insert_eq, ?lookup_insert_ne by done; intros H1 H2 O1 O2.
  - injection H1 as <-. by destruct (Hi j' pj' p Hj' H2 O1).
  - injection H2 as <-. by destruct (Hi j pj p Hj H1 O2).
  - by apply (inv_owns s Hv j j' pj pj' p).
Qed.

(** Another thread's position is not the one that thread [i] owns. *)
Lemma owns_other s i j pi pj p : inv s -> threads s !! i = Some pi -> owns pi = Some p -> j <> i -> threads s !! j = Some pj -> owns pj <> Some p.
Proof. intros Hv Hi Ho Hne Hj Hj'. apply Hne. by apply (inv_owns s Hv j i pj pi p). Qed.

(** Owners stay when thread [i] keeps its position. *)
Lemma owner_moved s i pi pc r l k p : threads s !! i = Some pi -> owns pc = owns pi -> (exists j pj, threads s !! j = Some pj /\ owns pj = Some p) ->
  exists j pj, threads (moved s i pc r l k) !! j = Some pj /\ owns pj = Some p.
Proof.
  intros Hi Ho (j & pj & Hj & Hp). destruct (decide (j = i)) as [->|].
  - exists i, pc. cbn. rewrite lookup_insert_eq. split; [done|]. rewrite Ho. congruence.
  - exists j, pj. cbn. by rewrite lookup_insert_ne.
Qed.

Lemma owner_moved_other s i pc r l k p : (forall pi, threads s !! i = Some pi -> owns pi <> Some p) -> (exists j pj, threads s !! j = Some pj /\ owns pj = Some p) ->
  exists j pj, threads (moved s i pc r l k) !! j = Some pj /\ owns pj = Some p.
Proof.
  intros Hi (j & pj & Hj & Hp). assert (j <> i) by (intros ->; by apply (Hi pj)). exists j, pj. cbn. by rewrite lookup_insert_ne.
Qed.

(** A step that writes nothing. *)
Lemma inv_move s i pc : inv s -> (forall pi, threads s !! i = Some pi -> owns pi = None) -> owns pc = None -> knows (ring s) (pushed s) pc ->
  inv (moved s i pc (ring s) (pushed s) (taken s)).
Proof.
  intros Hv Hi Ho Hk. pose proof Hv as [H1 H2 H3 H4 H5 H6 H7 H8 H9 H10 H11]. constructor; try done.
  - apply moved_knows; [done|]. intros j pj _. apply H5.
  - apply moved_owns; [done|]. by rewrite Ho.
  - intros p t run Hp. destruct (H7 p t run Hp) as (A & B & C). split; [done|]. split; [done|]. intros j run'. cbn.
    destruct (decide (j = i)) as [->|]; [rewrite lookup_insert_eq; by intros [= ->] | rewrite lookup_insert_ne by done; apply C].
  - intros p Hp. destruct (H9 p Hp) as [|(j & run & Hj)]; [by left|]. right. exists j, run. cbn. rewrite lookup_insert_ne; [done|].
    intros ->. by specialize (Hi _ Hj).
  - intros p Hp Hs. apply owner_moved_other; [|by apply H10]. intros pi Hpi. by rewrite (Hi pi Hpi).
  - intros p Hp Hh Hs. apply owner_moved_other; [|by apply H11]. intros pi Hpi. by rewrite (Hi pi Hpi).
Qed.

Lemma pushed_lookup (l : list Task) t p h : Z.of_nat (length l) = h -> 0 <= p < h -> (l ++ [t]) !! Z.to_nat p = l !! Z.to_nat p.
Proof. intros Hl Hp. apply lookup_app_l. lia. Qed.

Lemma pushed_new (l : list Task) t h : Z.of_nat (length l) = h -> (l ++ [t]) !! Z.to_nat h = Some t.
Proof. intros Hl. rewrite <- Hl, Nat2Z.id. by rewrite lookup_app_r, Nat.sub_diag by lia. Qed.

(** A producer claims the head. *)
Lemma inv_claim s i t p : inv s -> threads s !! i = Some (PCas t p) -> head (ring s) = p ->
  inv (moved s i (PSet t p) (set_head (p + 1) (ring s)) (pushed s ++ [t]) (taken s)).
Proof.
  intros Hv Hi Hh. pose proof Hv as [Hw [Hb Hfit] Hl Hcell Hk Ho Ht Honce Hall Hpr Hco]. pose proof (cap_2 _ (proj1 Hw)) as H2.
  assert (Hs : seqno (slot (ring s) p) = p) by (destruct (Hk i _ Hi) as [_ H]; by apply H).
  assert (Hroom : p < tail (ring s) + capacity (ring s)).
  { destruct (decide (p = tail (ring s) + capacity (ring s))) as [E|]; [|lia]. exfalso.
    rewrite E, slot_next in Hs by apply Hw. destruct (Hcell (tail (ring s))) as [C|C _ _|C C' _]; lia. }
  assert (Hnk : forall j pj, j <> i -> threads s !! j = Some pj -> knows (set_head (p + 1) (ring s)) (pushed s ++ [t]) pj).
  { intros j pj Hne Hj. pose proof (Hk j pj Hj) as K. destruct pj as [| t' q|t' q|t' q|t' q| | |r' q|r' q|q|q|]; try done; cbn [knows] in *; cbn [set_head head tail capacity];
      change (slot (set_head _ (ring s)) ?x) with (slot (ring s) x).
    - lia.
    - destruct K as [K1 K2]. split; [lia|]. intros; lia.
    - destruct K as (K1 & K2 & K3). rewrite (pushed_lookup _ _ _ _ Hl) by lia. repeat split; try done; lia.
    - destruct K as (K1 & K2 & K3 & K4). rewrite (pushed_lookup _ _ _ _ Hl) by lia. repeat split; try done; lia.
    - destruct K as (K1 & K2 & K3 & K4). rewrite (pushed_lookup _ _ _ _ Hl) by lia. split; [done|]. split; [|done].
      destruct (decide (p = q + capacity (ring s))) as [E|]; [|lia]. exfalso. rewrite E, slot_next in Hs by apply Hw. lia.
    - destruct K as (K1 & K2 & K3). split; [done|]. split; [|done].
      destruct (decide (p = q + capacity (ring s))) as [E|]; [|lia]. exfalso. rewrite E, slot_next in Hs by apply Hw. lia.
    - destruct K as (K1 & K2 & K3). split; [done|]. split; [|done].
      destruct (decide (p = q + capacity (ring s))) as [E|]; [|lia]. exfalso. rewrite E, slot_next in Hs by apply Hw. lia. }
  constructor; cbn [moved ring threads pushed taken set_head head tail capacity]; change (slot (set_head _ (ring s)) ?x) with (slot (ring s) x).
  - exact Hw.
  - lia.
  - rewrite length_app. cbn. lia.
  - intros q Hq. destruct (Hcell q Hq) as [C|C C' C''|C C' C''].
    + by apply cell_free.
    + apply cell_full; [done | cbn; lia|]. rewrite (pushed_lookup _ _ _ _ Hl) by lia. exact C''.
    + apply cell_busy; [done | | done]. cbn. destruct (decide (q = p)) as [->|]; [|lia]. lia.
  - apply (moved_knows s i _ _ _ (taken s)); [|exact Hnk]. cbn [knows set_head head tail]. split; [lia|]. split; [exact Hs|]. rewrite <- Hh. by apply pushed_new.
  - apply (moved_owns s i (PSet t p) (set_head (p + 1) (ring s)) (pushed s ++ [t]) (taken s)); [done|]. intros j pj q Hne Hj [= <-] Hq. pose proof (Hk j pj Hj) as K. destruct pj; try done; injection Hq as ->; cbn [knows] in K; lia.
  - intros q t' run Hq. destruct (Ht q t' run Hq) as (A & B & C). split; [done|]. rewrite (pushed_lookup _ _ _ _ Hl) by lia. split; [done|]. intros j run'.
    destruct (decide (j = i)) as [->|]; [by rewrite lookup_insert_eq | rewrite lookup_insert_ne by done; apply C].
  - done.
  - intros q Hq. destruct (Hall q Hq) as [|(j & run & Hj)]; [by left|]. right. exists j, run. rewrite lookup_insert_ne; [done | congruence].
  - intros q Hq Hsq. destruct (decide (q = p)) as [->|].
    + exists i, (PSet t p). by rewrite lookup_insert_eq.
    + apply (owner_moved_other s i (PSet t p) (set_head (p + 1) (ring s)) (pushed s ++ [t]) (taken s) q); [by intros pi Hpi; rewrite Hi in Hpi; injection Hpi as <- | apply Hpr; [lia | done]].
  - intros q Hq Hh' Hsq. apply (owner_moved_other s i (PSet t p) (set_head (p + 1) (ring s)) (pushed s ++ [t]) (taken s) q); [by intros pi Hpi; rewrite Hi in Hpi; injection Hpi as <- | apply Hco; [done | lia | done]].
Qed.

(** A consumer claims the tail. *)
Lemma inv_take s i run p : inv s -> threads s !! i = Some (CCas run p) -> tail (ring s) = p ->
  inv (moved s i (CRun run p) (set_tail (p + 1) (ring s)) (pushed s) (taken s)).
Proof.
  intros Hv Hi Hh. pose proof Hv as [Hw [Hb Hfit] Hl Hcell Hk Ho Ht Honce Hall Hpr Hco]. pose proof (cap_2 _ (proj1 Hw)) as H2.
  assert (Hs : seqno (slot (ring s) p) = p + 1) by (destruct (Hk i _ Hi) as [_ H]; by apply H).
  assert (Hp : p < head (ring s) /\ task (slot (ring s) p) = pushed s !! Z.to_nat p) by (destruct (Hcell p) as [C|C C' C''|C _ _]; [lia | lia | done | lia]).
  destruct Hp as [Hp Htask].
  assert (Hnk : forall j pj, j <> i -> threads s !! j = Some pj -> knows (set_tail (p + 1) (ring s)) (pushed s) pj).
  { intros j pj Hne Hj. pose proof (Hk j pj Hj) as K. destruct pj as [| t' q|t' q|t' q|t' q| |r' q|r' q|r' q|q|q|]; try done; cbn [knows] in *; cbn [set_tail head tail capacity];
      change (slot (set_tail _ (ring s)) ?x) with (slot (ring s) x).
    - destruct K as (K1 & K2 & K3). assert (q <> p) by (intros ->; lia). repeat split; try done; lia.
    - destruct K as (K1 & K2 & K3 & K4). assert (q <> p) by (intros ->; lia). repeat split; try done; lia.
    - lia.
    - destruct K as [K1 K2]. split; [lia|]. intros; lia.
    - destruct K as (K1 & K2). split; [lia | done].
    - destruct K as (K1 & K2). split; [lia | done].
    - destruct K as (K1 & K2). split; [lia | done]. }
  constructor; cbn [moved ring threads pushed taken set_tail head tail capacity]; change (slot (set_tail _ (ring s)) ?x) with (slot (ring s) x).
  - exact Hw.
  - lia.
  - exact Hl.
  - intros q Hq. destruct (decide (q = p + capacity (ring s))) as [->|].
    + apply cell_busy; cbn [set_tail head capacity]; [|lia..]. change (slot (set_tail _ (ring s)) ?x) with (slot (ring s) x). rewrite slot_next by apply Hw. lia.
    + destruct (Hcell q) as [C|C C' C''|C C' C'']; [lia|..]; [by apply cell_free | by apply cell_full | by apply cell_busy].
  - apply (moved_knows s i _ _ _ (taken s)); [|exact Hnk]. cbn [knows set_tail head tail capacity]. repeat split; try done; lia.
  - apply (moved_owns s i (CRun run p) (set_tail (p + 1) (ring s)) (pushed s) (taken s)); [done|]. intros j pj q Hne Hj [= <-] Hq.
    pose proof (Hk j pj Hj) as K. destruct pj; try done; injection Hq as ->; cbn [knows] in K; lia.
  - intros q t' run' Hq. destruct (Ht q t' run' Hq) as (A & B & C). split; [lia|]. split; [done|]. intros j run2.
    destruct (decide (j = i)) as [->|]; [rewrite lookup_insert_eq; intros [= _ E]; lia | rewrite lookup_insert_ne by done; apply C].
  - done.
  - intros q Hq. destruct (decide (q = p)) as [->|]; [right; exists i, run; by rewrite lookup_insert_eq|].
    destruct (Hall q) as [|(j & run' & Hj)]; [lia | by left|]. right. exists j, run'. rewrite lookup_insert_ne; [done | congruence].
  - intros q Hq Hsq. apply (owner_moved_other s i (CRun run p) (set_tail (p + 1) (ring s)) (pushed s) (taken s) q); [by intros pi Hpi; rewrite Hi in Hpi; injection Hpi as <- | apply Hpr; [lia | done]].
  - intros q Hq Hh' Hsq. destruct (decide (q = p)) as [->|].
    + exists i, (CRun run p). by rewrite lookup_insert_eq.
    + apply (owner_moved_other s i (CRun run p) (set_tail (p + 1) (ring s)) (pushed s) (taken s) q); [by intros pi Hpi; rewrite Hi in Hpi; injection Hpi as <- | apply Hco; [lia | done | done]].
Qed.

(** Whoever reads the slot of position [p] at the sequence number of its owner
    looks at the same position. *)
Lemma set_task_knows s i pi p v : inv s -> threads s !! i = Some pi -> owns pi = Some p -> forall j pj, j <> i -> threads s !! j = Some pj ->
  knows (set_task p v (ring s)) (pushed s) pj.
Proof.
  intros Hv Hi Hp j pj Hne Hj. pose proof Hv as [Hw [Hb Hfit] Hl Hcell Hk Ho Ht Honce Hall Hpr Hco].
  pose proof (Hk j pj Hj) as K. pose proof (Hk i pi Hi) as P. pose proof (owns_other s i j pi pj p Hv Hi Hp Hne Hj) as Hq.
  assert (Hsep : forall q, owns pj = Some q -> slot (set_task p v (ring s)) q = slot (ring s) q).
  { intros q Hoq. apply set_task_other. intros E. assert (q <> p) by congruence. pose proof (slot_same _ _ _ E) as Es.
    assert (- capacity (ring s) < q - p < capacity (ring s)); [|by apply (at_pos_near (ring s) q p (proj1 Hw)) in E].
    destruct pi; try done; injection Hp as ->; destruct pj; try done; injection Hoq as ->; cbn [knows] in *; lia. }
  destruct pj as [| t' q|t' q|t' q|t' q| |r' q|r' q|r' q|q|q|]; try done; cbn [knows] in *; cbn [set_task head tail capacity]; try done;
    rewrite ?(Hsep q eq_refl); try done; by rewrite set_task_seqno.
Qed.

(** An owner writes the task of its slot, or destroys it. *)
Lemma inv_task s i pi pc p v : inv s -> threads s !! i = Some pi -> owns pi = Some p -> owns pc = Some p ->
  (forall run, pc <> CRun run p) ->
  knows (set_task p v (ring s)) (pushed s) pc ->
  (forall q, tail (ring s) <= q < head (ring s) -> seqno (slot (ring s) q) = q + 1 -> at_pos (ring s) q <> at_pos (ring s) p) ->
  (forall run, pi <> CRun run p) ->
  inv (moved s i pc (set_task p v (ring s)) (pushed s) (taken s)).
Proof.
  intros Hv Hi Hp Hc Hnr Hknow Hfull Hnr'. pose proof Hv as [Hw [Hb Hfit] Hl Hcell Hk Ho Ht Honce Hall Hpr Hco].
  constructor; cbn [moved ring threads pushed taken set_task head tail capacity]; try done.
  - destruct Hw as [Hc1 Hc2]. split; [exact Hc1|]. cbn. by rewrite length_insert.
  - intros q Hq. destruct (Hcell q Hq) as [C|C C' C''|C C' C''].
    + apply cell_free. by rewrite set_task_seqno.
    + apply cell_full; [by rewrite set_task_seqno | done|]. rewrite set_task_other; [done|]. apply Hfull; [lia | done].
    + apply cell_busy; [by rewrite set_task_seqno | done | done].
  - apply (moved_knows s i _ _ _ (taken s)); [exact Hknow|]. by apply (set_task_knows s i pi p v).
  - apply (moved_owns s i pc (set_task p v (ring s)) (pushed s) (taken s)); [done|]. intros j pj q Hne Hj Hq. assert (q = p) as -> by congruence.
    by apply (owns_other s i j pi pj p).
  - intros q t' run' Hq. destruct (Ht q t' run' Hq) as (A & B & C). split; [done|]. split; [done|]. intros j run2.
    destruct (decide (j = i)) as [->|]; [|rewrite lookup_insert_ne by done; apply C].
    rewrite lookup_insert_eq. intros [= E]. subst pc. injection Hc as ->. by apply (Hnr run2).
  - intros q Hq. destruct (Hall q Hq) as [|(j & run' & Hj)]; [by left|]. right. exists j, run'. rewrite lookup_insert_ne; [done|]. intros ->.
    rewrite Hi in Hj. injection Hj as ->. injection Hp as ->. by apply (Hnr' run').
  - intros q Hq Hsq. rewrite set_task_seqno in Hsq by done. apply (owner_moved s i pi pc (set_task p v (ring s)) (pushed s) (taken s) q); [done | congruence | by apply Hpr].
  - intros q Hq Hh' Hsq. rewrite set_task_seqno in Hsq by done. apply (owner_moved s i pi pc (set_task p v (ring s)) (pushed s) (taken s) q); [done | congruence | by apply Hco].
Qed.

(** A consumer runs its task. *)
Lemma inv_run s i run p t : inv s -> threads s !! i = Some (CRun run p) -> task (slot (ring s) p) = Some t ->
  inv (moved s i (CClean p) (ring s) (pushed s) (taken s ++ [(p, t, run)])).
Proof.
  intros Hv Hi Ht'. pose proof Hv as [Hw [Hb Hfit] Hl Hcell Hk Ho Ht Honce Hall Hpr Hco]. destruct (Hk i _ Hi) as (K1 & K2 & K3 & K4).
  constructor; cbn [moved ring threads pushed taken]; try done.
  - apply (moved_knows s i _ _ _ (taken s)); [by split|]. intros j pj _. apply Hk.
  - apply (moved_owns s i (CClean p) (ring s) (pushed s) (taken s)); [done|]. intros j pj q Hne Hj [= <-]. by apply (owns_other s i j (CRun run p) pj p).
  - intros q t' run' [Hq|Hq]%elem_of_app.
    + destruct (Ht q t' run' Hq) as (A & B & C). split; [done|]. split; [done|]. intros j run2.
      destruct (decide (j = i)) as [->|]; [by rewrite lookup_insert_eq | rewrite lookup_insert_ne by done; apply C].
    + apply list_elem_of_singleton in Hq as [= -> -> ->]. split; [done|]. split; [congruence|]. intros j run2.
      destruct (decide (j = i)) as [->|]; [by rewrite lookup_insert_eq | rewrite lookup_insert_ne by done]. intros Hj.
      by apply (owns_other s i j (CRun run p) (CRun run2 p) p Hv Hi eq_refl).
  - rewrite fmap_app. apply NoDup_app. split; [done|]. split; [|apply NoDup_singleton].
    intros q Hq Hq'. apply list_elem_of_singleton in Hq'. cbn in Hq'. subst q. apply list_elem_of_fmap in Hq as ([[q t'] run'] & Hqp & Hq).
    cbn in Hqp. subst q. destruct (Ht p t' run' Hq) as (_ & _ & C). by apply (C i run).
  - intros q Hq. rewrite fmap_app, elem_of_app. destruct (Hall q Hq) as [|(j & run' & Hj)]; [by left; left|].
    destruct (decide (j = i)) as [->|]; [|right; exists j, run'; by rewrite lookup_insert_ne].
    rewrite Hi in Hj. injection Hj as -> ->. left. right. by apply list_elem_of_here.
  - intros q Hq Hsq. apply (owner_moved s i (CRun run p) (CClean p) (ring s) (pushed s) (taken s) q); [done | done | by apply Hpr].
  - intros q Hq Hh' Hsq. apply (owner_moved s i (CRun run p) (CClean p) (ring s) (pushed s) (taken s) q); [done | done | by apply Hco].
Qed.

(** An owner stores the sequence number of its slot and is done. *)
Lemma inv_seq s i pi p v : inv s -> threads s !! i = Some pi -> owns pi = Some p -> (forall run, pi <> CRun run p) ->
  (forall q, tail (ring s) <= q < tail (ring s) + capacity (ring s) -> at_pos (ring s) q = at_pos (ring s) p -> cell (set_seq p v (ring s)) (pushed s) q) ->
  (forall j pj, j <> i -> threads s !! j = Some pj -> knows (set_seq p v (ring s)) (pushed s) pj) ->
  (forall q, tail (ring s) <= q < head (ring s) -> at_pos (ring s) q = at_pos (ring s) p -> v <> q) ->
  (forall q, 0 <= q < tail (ring s) -> head (ring s) <= q + capacity (ring s) -> at_pos (ring s) q = at_pos (ring s) p -> v <> q + 1) ->
  inv (moved s i (Done true) (set_seq p v (ring s)) (pushed s) (taken s)).
Proof.
  intros Hv Hi Hp Hnr Hc' Hkn Hn1 Hn2. pose proof Hv as [Hw [Hb Hfit] Hl Hcell Hk Ho Ht Honce Hall Hpr Hco].
  assert (Hno : forall q, at_pos (ring s) q <> at_pos (ring s) p -> forall pj, threads s !! i = Some pj -> owns pj <> Some q).
  { intros q Hq pj Hj. assert (pj = pi) as -> by congruence. rewrite Hp. intros [= ->]. by apply Hq. }
  constructor; cbn [moved ring threads pushed taken set_seq head tail capacity]; try done.
  - destruct Hw as [Hc1 Hc2]. split; [exact Hc1|]. cbn. by rewrite length_insert.
  - intros q Hq. destruct (decide (at_pos (ring s) q = at_pos (ring s) p)) as [E|E]; [by apply Hc'|].
    pose proof (set_seq_other (ring s) p v q E) as Es.
    destruct (Hcell q Hq) as [C|C C' C''|C C' C'']; [apply cell_free; by rewrite Es | apply cell_full; by rewrite ?Es | apply cell_busy; by rewrite ?Es].
  - apply (moved_knows s i (Done true) _ _ (taken s)); [done | exact Hkn].
  - apply (moved_owns s i (Done true) (set_seq p v (ring s)) (pushed s) (taken s)); [done|]. by intros.
  - intros q t' run' Hq. destruct (Ht q t' run' Hq) as (A & B & C). split; [done|]. split; [done|]. intros j run2.
    destruct (decide (j = i)) as [->|]; [by rewrite lookup_insert_eq | rewrite lookup_insert_ne by done; apply C].
  - intros q Hq. destruct (Hall q Hq) as [|(j & run' & Hj)]; [by left|]. right. exists j, run'. rewrite lookup_insert_ne; [done|]. intros ->.
    rewrite Hi in Hj. injection Hj as ->. injection Hp as ->. by apply (Hnr run').
  - intros q Hq Hsq. destruct (decide (at_pos (ring s) q = at_pos (ring s) p)) as [E|E].
    + rewrite set_seq_same in Hsq by done. cbn in Hsq. by destruct (Hn1 q Hq E).
    + rewrite set_seq_other in Hsq by done. apply (owner_moved_other s i (Done true) (set_seq p v (ring s)) (pushed s) (taken s) q); [by apply Hno | by apply Hpr].
  - intros q Hq Hh' Hsq. destruct (decide (at_pos (ring s) q = at_pos (ring s) p)) as [E|E].
    + rewrite set_seq_same in Hsq by done. cbn in Hsq. by destruct (Hn2 q Hq Hh' E).
    + rewrite set_seq_other in Hsq by done. apply (owner_moved_other s i (Done true) (set_seq p v (ring s)) (pushed s) (taken s) q); [by apply Hno | by apply Hco].
Qed.

(** What another thread knows stays when it does not look at the slot. *)
Lemma set_seq_knows s p v pj : knows (ring s) (pushed s) pj ->
  (forall q, match pj with PCas _ x => x = q /\ q = head (ring s) | CCas _ x => x = q /\ q = tail (ring s) | _ => owns pj = Some q end -> at_pos (ring s) q <> at_pos (ring s) p) ->
  knows (set_seq p v (ring s)) (pushed s) pj.
Proof.
  intros K Hs. destruct pj as [| t' q|t' q|t' q|t' q| |r' q|r' q|r' q|q|q|]; try done; cbn [knows] in *; cbn [set_seq head tail capacity]; try done.
  - destruct K as [K1 K2]. split; [done|]. intros E. rewrite set_seq_other by by apply Hs. by apply K2.
  - rewrite set_seq_other by by apply Hs. done.
  - rewrite set_seq_other by by apply Hs. done.
  - destruct K as [K1 K2]. split; [done|]. intros E. rewrite set_seq_other by by apply Hs. by apply K2.
  - rewrite set_seq_other by by apply Hs. done.
  - rewrite set_seq_other by by apply Hs. done.
  - rewrite set_seq_other by by apply Hs. done.
Qed.

(** The slots of the positions that threads own differ. *)
Lemma owners_apart s i j pi pj p q : inv s -> threads s !! i = Some pi -> owns pi = Some p -> j <> i -> threads s !! j = Some pj -> owns pj = Some q ->
  at_pos (ring s) q <> at_pos (ring s) p.
Proof.
  intros Hv Hi Hp Hne Hj Hq E. pose proof (owns_other s i j pi pj p Hv Hi Hp Hne Hj) as Hn. assert (q <> p) as Hqp by congruence. apply Hqp.
  pose proof Hv as [Hw [Hb Hfit] _ _ Hk _ _ _ _ _ _]. pose proof (Hk i pi Hi) as P. pose proof (Hk j pj Hj) as K.
  apply (at_pos_near (ring s) q p (proj1 Hw) E).
  destruct pi; try done; injection Hp as ->; destruct pj; try done; injection Hq as ->; cbn [knows] in *; lia.
Qed.

Lemma inv_publish s i t p : inv s -> threads s !! i = Some (PPublish t p) ->
  inv (moved s i (Done true) (set_seq p (p + 1) (ring s)) (pushed s) (taken s)).
Proof.
  intros Hv Hi. pose proof Hv as [Hw [Hb Hfit] Hl Hcell Hk Ho Ht Honce Hall Hpr Hco]. pose proof (cap_2 _ (proj1 Hw)) as H2.
  destruct (Hk i _ Hi) as (K1 & K2 & K3 & K4). apply (inv_seq s i (PPublish t p)); try done.
  - intros q Hq E. assert (q = p) as -> by (apply (at_pos_near _ _ _ (proj1 Hw) E); lia).
    apply cell_full; rewrite ?set_seq_same by done; cbn; [done | lia | congruence].
  - intros j pj Hne Hj. pose proof (Hk j pj Hj) as K. apply set_seq_knows; [done|]. intros q Hq E.
    pose proof (slot_same _ _ _ E) as Es. destruct pj as [| |t' q'|t' q'|t' q'| | |r' q'|r' q'|q'|q'|]; cbn [knows owns] in K, Hq; try done;
      try (by apply (owners_apart s i j _ _ p q Hv Hi eq_refl Hne Hj Hq)).
    + destruct Hq as [-> Hq]. destruct K as [K5 K6]. specialize (K6 Hq). rewrite Es in K6. lia.
    + destruct Hq as [-> Hq]. destruct K as [K5 K6]. specialize (K6 Hq). rewrite Es in K6. assert (q = p); [|lia]. apply (at_pos_near _ _ _ (proj1 Hw) E). lia.
  - intros q Hq E. assert (q = p) as -> by (apply (at_pos_near _ _ _ (proj1 Hw) E); lia). lia.
  - intros q Hq Hh E. assert (q = p) as -> by (apply (at_pos_near _ _ _ (proj1 Hw) E); lia). lia.
Qed.

Lemma inv_recycle s i p : inv s -> threads s !! i = Some (CRecycle p) ->
  inv (moved s i (Done true) (set_seq p (p + capacity (ring s)) (ring s)) (pushed s) (taken s)).
Proof.
  intros Hv Hi. pose proof Hv as [Hw [Hb Hfit] Hl Hcell Hk Ho Ht Honce Hall Hpr Hco]. pose proof (cap_2 _ (proj1 Hw)) as H2.
  destruct (Hk i _ Hi) as (K1 & K2 & K3). apply (inv_seq s i (CRecycle p)); try done.
  - intros q Hq E. assert (q = p + capacity (ring s)) as ->.
    { apply (at_pos_near (ring s) _ _ (proj1 Hw)); [by rewrite at_pos_next by apply Hw | lia]. }
    apply cell_free. by rewrite set_seq_same.
  - intros j pj Hne Hj. pose proof (Hk j pj Hj) as K. apply set_seq_knows; [done|]. intros q Hq E.
    pose proof (slot_same _ _ _ E) as Es. destruct pj as [| |t' q'|t' q'|t' q'| | |r' q'|r' q'|q'|q'|]; cbn [knows owns] in K, Hq; try done;
      try (by apply (owners_apart s i j _ _ p q Hv Hi eq_refl Hne Hj Hq)).
    + destruct Hq as [-> Hq]. destruct K as [K5 K6]. specialize (K6 Hq). rewrite Es in K6. assert (q = p); [|lia]. apply (at_pos_near _ _ _ (proj1 Hw) E). lia.
    + destruct Hq as [-> Hq]. destruct K as [K5 K6]. specialize (K6 Hq). rewrite Es in K6. lia.
  - intros q Hq E. lia.
  - intros q Hq Hh E. assert (q = p); [|lia]. apply (at_pos_near _ _ _ (proj1 Hw) E). lia.
Qed.

Lemma exec_go s i weak s' : exec s (Go i weak) = Some s' -> exists pc pc' r', threads s !! i = Some pc /\
  match stepEmplace weak pc (ring s) with Some x => Some x | None => stepConsume weak pc (ring s) end = Some (pc', r') /\
  s' = moved s i pc' r' (match pc, pc' with PCas t _, PSet _ _ => pushed s ++ [t] | _, _ => pushed s end)
        (match pc with
         | CRun run pos => match task (slot (ring s) pos) with Some t => taken s ++ [(pos, t, run)] | None => taken s end
         | _ => taken s
         end).
Proof.
  cbn [exec]. destruct (threads s !! i) as [pc|]; [|done]. cbn [mbind option_bind].
  destruct (match stepEmplace weak pc (ring s) with Some x => Some x | None => stepConsume weak pc (ring s) end) as [[pc' r']|] eqn:E; [|done].
  cbn [mbind option_bind]. intros [= <-]. by exists pc, pc', r'.
Qed.

Lemma inv_exec s l s' : inv s -> exec s l = Some s' -> inv s'.
Proof.
  intros Hv. pose proof Hv as [Hw [Hb Hfit] Hl Hcell Hk Ho Ht Honce Hall Hpr Hco]. pose proof (cap_2 _ (proj1 Hw)) as H2. destruct l as [i pc|i weak].
  - cbn [exec]. intros E.
    assert (s' = moved s i pc (ring s) (pushed s) (taken s) /\ owns pc = None /\ knows (ring s) (pushed s) pc /\ (forall pi, threads s !! i = Some pi -> owns pi = None)) as (-> & E1 & E2 & E3).
    { destruct (threads s !! i) as [[]|]; destruct pc; try done; injection E as <-; (split; [done|]); (split; [done|]); (split; [done|]); by intros ? [= <-]. }
    by apply inv_move.
  - intros (pc & pc' & r' & Hi & E & ->)%exec_go. pose proof (Hk i pc Hi) as K.
    assert (Hnone : owns pc = None -> forall pi, threads s !! i = Some pi -> owns pi = None) by (intros ? pi ?; congruence).
    destruct pc as [t|t p|t p|t p|t p|run|run p|run p|run p|p|p|b]; cbn [stepEmplace stepConsume knows] in *.
    + injection E as <- <-. apply inv_move; [done | by apply Hnone | done | cbn; lia].
    + destruct (seqno (slot (ring s) p) - p =? 0) eqn:E1; [|destruct (seqno (slot (ring s) p) - p <? 0)]; injection E as <- <-; (apply inv_move; [done | by apply Hnone | done|]); cbn; try done.
      split; [done|]. lia.
    + destruct (head (ring s) =? p) eqn:E1; [destruct weak|]; cbn [andb negb] in E; injection E as <- <-.
      * apply inv_move; [done | by apply Hnone | done | cbn; lia].
      * apply inv_claim; [done | done | lia].
      * apply inv_move; [done | by apply Hnone | done | cbn; lia].
    + injection E as <- <-. destruct K as (K1 & K2 & K3). apply (inv_task s i (PSet t p)); try done.
      * cbn [knows set_task head tail]. rewrite !set_task_same by done. done.
      * intros q Hq Hs Eq. pose proof (slot_same _ _ _ Eq) as Es. assert (q = p) as -> by (apply (at_pos_near _ _ _ (proj1 Hw) Eq); lia). lia.
    + injection E as <- <-. by apply inv_publish in Hi.
    + injection E as <- <-. apply inv_move; [done | by apply Hnone | done | cbn; lia].
    + destruct (seqno (slot (ring s) p) - (p + 1) =? 0) eqn:E1; [|destruct (seqno (slot (ring s) p) - (p + 1) <? 0)]; injection E as <- <-; (apply inv_move; [done | by apply Hnone | done|]); cbn; try done.
      split; [done|]. lia.
    + destruct (tail (ring s) =? p) eqn:E1; [destruct weak|]; cbn [andb negb] in E; injection E as <- <-.
      * apply inv_move; [done | by apply Hnone | done | cbn; lia].
      * apply inv_take; [done | done | lia].
      * apply inv_move; [done | by apply Hnone | done | cbn; lia].
    + injection E as <- <-. destruct K as (K1 & K2 & K3 & K4).
      destruct (task (slot (ring s) p)) as [t|] eqn:Et; [by apply inv_run|]. exfalso. symmetry in K4. apply lookup_ge_None in K4. lia.
    + injection E as <- <-. destruct K as (K1 & K2 & K3). apply (inv_task s i (CClean p)); try done.
      * cbn [knows set_task head tail capacity]. rewrite !set_task_same by done. done.
      * intros q Hq Hs Eq. pose proof (slot_same _ _ _ Eq) as Es. rewrite Es in Hs. lia.
    + injection E as <- <-. by apply inv_recycle.
    + done.
Qed.

Lemma inv_reach cap s : (exists n, 1 <= n /\ cap = 2 ^ n) -> reach cap s -> inv s.
Proof. intros Hc. induction 1 as [|s l s' _ IH E]; [by apply inv_init | by eapply inv_exec]. Qed.

(** ** The queue that the ring is *)

(** The positions from the tail to the head: their tasks, and whether they can
    be taken yet. *)
Definition ready (r : Ring) (p : Z) : bool := seqno (slot r p) =? p + 1.
Definition queue (s : State) : list (Task * bool) :=
  imap (fun k t => (t, ready (ring s) (tail (ring s) + Z.of_nat k))) (drop (Z.to_nat (tail (ring s))) (pushed s)).

Lemma queue_lookup s p : inv s -> tail (ring s) <= p < head (ring s) ->
  queue s !! Z.to_nat (p - tail (ring s)) = (fun t => (t, ready (ring s) p)) <$> pushed s !! Z.to_nat p.
Proof.
  intros Hv Hp. pose proof (inv_pos s Hv). unfold queue. rewrite list_lookup_imap, lookup_drop.
  replace (Z.to_nat (tail (ring s)) + Z.to_nat (p - tail (ring s)))%nat with (Z.to_nat p) by lia.
  by replace (tail (ring s) + Z.of_nat (Z.to_nat (p - tail (ring s)))) with p by lia.
Qed.

Lemma queue_length s : inv s -> Z.of_nat (length (queue s)) = head (ring s) - tail (ring s).
Proof. intros Hv. pose proof (inv_pos s Hv). pose proof (inv_pushed s Hv). unfold queue. rewrite length_imap, length_drop. lia. Qed.

(** What a step does to the queue. *)
Inductive Change := Same | Reserved (t : Task) | Published (k : nat) | Taken (t : Task).

Definition changes (cap : Z) (q : list (Task * bool)) (c : Change) (q' : list (Task * bool)) : Prop :=
  match c with
  | Same => q' = q
  | Reserved t => Z.of_nat (length q) < cap /\ q' = q ++ [(t, false)]
  | Published k => exists t, q !! k = Some (t, false) /\ q' = <[k := (t, true)]> q
  | Taken t => q = (t, true) :: q'
  end.

(** What a thread is about to do to it. *)
Definition change (s : State) (l : Label (Task := Task)) : Change :=
  match l with
  | Begin _ _ => Same
  | Go i weak =>
      match threads s !! i with
      | Some (PCas t p) => if (head (ring s) =? p) && negb weak then Reserved t else Same
      | Some (PPublish t p) => Published (Z.to_nat (p - tail (ring s)))
      | Some (CCas run p) => if (tail (ring s) =? p) && negb weak then match pushed s !! Z.to_nat p with Some t => Taken t | None => Same end else Same
      | _ => Same
      end
  end.

Lemma queue_ext s s' : pushed s' = pushed s -> tail (ring s') = tail (ring s) -> (forall p, tail (ring s) <= p < head (ring s) -> ready (ring s') p = ready (ring s) p) ->
  inv s -> queue s' = queue s.
Proof.
  intros Hp Ht Hr Hv. pose proof (inv_pos s Hv). pose proof (inv_pushed s Hv). unfold queue. rewrite Hp, Ht. apply imap_ext. intros k t Hk. cbn. f_equal.
  apply Hr. apply lookup_lt_Some in Hk. rewrite length_drop in Hk. lia.
Qed.

Lemma queue_char s l : inv s -> Z.of_nat (length l) = head (ring s) - tail (ring s) ->
  (forall p, tail (ring s) <= p < head (ring s) -> l !! Z.to_nat (p - tail (ring s)) = (fun t => (t, ready (ring s) p)) <$> pushed s !! Z.to_nat p) -> l = queue s.
Proof.
  intros Hv Hl Hp. pose proof (queue_length s Hv) as Hq. apply list_eq. intros k. destruct (decide (k < length l)%nat) as [Hk|Hk].
  - replace k with (Z.to_nat (tail (ring s) + Z.of_nat k - tail (ring s))) by lia. rewrite Hp by lia. rewrite queue_lookup; [done | done | lia].
  - by rewrite !(proj2 (lookup_ge_None _ _)) by lia.
Qed.

(** C34: The ring is a bounded queue. Whatever threads do in whatever order, a
    step of one of them changes nothing of it, reserves its next place, of
    which there is one, publishes the task of a place that was reserved, or
    takes the first task, which was published. *)
Theorem ring_refines_queue cap s l s' : (exists n, 1 <= n /\ cap = 2 ^ n) -> reach cap s -> exec s l = Some s' ->
  changes (capacity (ring s)) (queue s) (change s l) (queue s').
Proof.
  intros Hcap Hr He. pose proof (inv_reach cap s Hcap Hr) as Hv. pose proof (inv_exec s l s' Hv He) as Hv'.
  pose proof Hv as [Hw [Hb Hfit] Hl Hcell Hk Ho Ht Honce Hall Hpr Hco]. pose proof (cap_2 _ (proj1 Hw)) as H2.
  destruct l as [i pc|i weak].
  - cbn [exec] in He. assert (exists x, s' = mkState (ring s) x (pushed s) (taken s)) as [x ->] by (destruct (threads s !! i) as [[]|], pc; try done; injection He as <-; by eexists).
    done.
  - apply exec_go in He as (pc & pc' & r' & Hi & E & ->). pose proof (Hk i pc Hi) as K. cbn [change]. rewrite Hi.
    destruct pc as [t|t p|t p|t p|t p|run|run p|run p|run p|p|p|b]; cbn [stepEmplace stepConsume knows] in *; try (by injection E as <- <-).
    + destruct (seqno (slot (ring s) p) - p =? 0); [|destruct (seqno (slot (ring s) p) - p <? 0)]; by injection E as <- <-.
    + destruct (head (ring s) =? p) eqn:E1; [destruct weak|]; cbn [andb negb] in *; injection E as <- <-; try done.
      assert (head (ring s) = p) as Hh by lia. pose proof (inv_pos _ Hv') as [_ Hfit']. cbn in Hfit'. pose proof (queue_length s Hv) as Hq.
      split; [lia|]. symmetry. apply queue_char; [done | rewrite length_app; cbn; lia|]. cbn. intros q Hq'. destruct (decide (q = p)) as [->|].
      * rewrite lookup_app_r by lia. replace (Z.to_nat (p - tail (ring s)) - length (queue s))%nat with 0%nat by lia. cbn.
        rewrite <- Hh at 1. rewrite (pushed_new _ _ _ Hl). cbn. destruct K as [_ K]. unfold ready. change (slot (set_head _ (ring s)) p) with (slot (ring s) p). rewrite K by done.
        by rewrite (proj2 (Z.eqb_neq _ _)) by lia.
      * rewrite lookup_app_l by lia. rewrite queue_lookup by (done || lia). by rewrite (pushed_lookup _ _ _ _ Hl) by lia.
    + injection E as <- <-. apply queue_ext; cbn; try done. intros q Hq. unfold ready. by rewrite set_task_seqno.
    + injection E as <- <-. destruct K as (K1 & K2 & K3 & K4). exists t. split; [rewrite queue_lookup, K3 by (done || lia); cbn; unfold ready; rewrite K2; by rewrite (proj2 (Z.eqb_neq _ _)) by lia|].
      symmetry. apply queue_char; [done | rewrite length_insert; apply (queue_length s Hv)|]. cbn. intros q Hq. unfold ready. destruct (decide (q = p)) as [->|].
      * rewrite list_lookup_insert_eq by (pose proof (queue_length s Hv); lia). rewrite K3. cbn. rewrite set_seq_same by done. cbn. by rewrite Z.eqb_refl.
      * rewrite list_lookup_insert_ne by lia. rewrite queue_lookup by done. unfold ready. rewrite set_seq_other; [done|].
        intros E. apply n. apply (at_pos_near _ _ _ (proj1 Hw) E). lia.
    + destruct (seqno (slot (ring s) p) - (p + 1) =? 0); [|destruct (seqno (slot (ring s) p) - (p + 1) <? 0)]; by injection E as <- <-.
    + destruct (tail (ring s) =? p) eqn:E1; [destruct weak|]; cbn [andb negb] in *; injection E as <- <-; try done.
      assert (Hh : tail (ring s) = p) by lia. pose proof (inv_pos _ Hv') as [Hb' _]. cbn in Hb'. destruct K as [_ K]. specialize (K ltac:(lia)).
      destruct (pushed s !! Z.to_nat p) as [t|] eqn:Et; [|apply lookup_ge_None in Et; lia]. cbn [changes].
      symmetry. apply queue_char; [done | cbn [length]; pose proof (queue_length _ Hv') as Hq; cbn in Hq; lia|]. intros q Hq. destruct (decide (q = p)) as [->|].
      * replace (p - tail (ring s)) with 0 by lia. rewrite Et. cbn. unfold ready. rewrite K. by rewrite Z.eqb_refl.
      * replace (Z.to_nat (q - tail (ring s))) with (S (Z.to_nat (q - (p + 1)))) by lia. cbn [lookup list_lookup].
        pose proof (queue_lookup _ q Hv') as Hql. cbn in Hql. apply Hql. lia.
    + injection E as <- <-. apply queue_ext; cbn; try done. intros q Hq. unfold ready. by rewrite set_task_seqno.
    + injection E as <- <-. apply queue_ext; cbn; try done. intros q Hq. unfold ready. rewrite set_seq_other; [done|]. intros E.
      assert (q = p); [|lia]. apply (at_pos_near _ _ _ (proj1 Hw) E). lia.
    + done.
Qed.

(** ** Every task once *)

Lemma taken_tasks s : inv s -> (fun x => Some x.1.2) <$> taken s = (fun p => pushed s !! Z.to_nat p) <$> ((fun x => x.1.1) <$> taken s).
Proof.
  intros Hv. rewrite <- list_fmap_compose. apply list_fmap_ext. intros k [[p t] run] Hx. cbn.
  destruct (inv_taken s Hv p t run) as (_ & -> & _); [by apply list_elem_of_lookup_2 in Hx | done].
Qed.

Lemma first_tasks (l : list Task) n : (n <= length l)%nat -> (fun p => l !! Z.to_nat p) <$> seqZ 0 (Z.of_nat n) = Some <$> take n l.
Proof.
  intros Hn. apply list_eq. intros k. rewrite !list_lookup_fmap. destruct (decide (k < n)%nat) as [Hk|Hk].
  - rewrite lookup_seqZ_lt by lia. cbn. rewrite lookup_take_lt by done. rewrite Z.add_0_l, Nat2Z.id.
    destruct (l !! k) eqn:E; [done|]. apply lookup_ge_None in E. lia.
  - rewrite lookup_seqZ_ge by lia. by rewrite lookup_take_ge by lia.
Qed.

Lemma some_inj_perm (l l' : list Task) : Some <$> l ≡ₚ Some <$> l' -> l ≡ₚ l'.
Proof.
  intros H. assert (E : forall k : list Task, omap id (Some <$> k) = k) by (induction k as [|x k IH]; [done | cbn; by f_equal]).
  rewrite <- (E l), <- (E l'). by rewrite H.
Qed.

(** No two threads ever work on the same slot; a task that is taken out is
    the one that was put in at its position, and none is taken twice; and when
    no thread is between claiming a place and giving it up, the tasks that were
    taken out are exactly those that were put in first, as many as places were
    claimed, and all others can be taken. *)
Theorem ring_tasks_once cap s : (exists n, 1 <= n /\ cap = 2 ^ n) -> reach cap s ->
  (forall i j pi pj p q, i <> j -> threads s !! i = Some pi -> owns pi = Some p -> threads s !! j = Some pj -> owns pj = Some q -> at_pos (ring s) p <> at_pos (ring s) q) /\
  (forall p t run, (p, t, run) ∈ taken s -> pushed s !! Z.to_nat p = Some t) /\ NoDup ((fun x => x.1.1) <$> taken s) /\
  ((forall i pc, threads s !! i = Some pc -> owns pc = None) ->
    (fun x => x.1.2) <$> taken s ≡ₚ take (Z.to_nat (tail (ring s))) (pushed s) /\ Forall (fun x => x.2 = true) (queue s)).
Proof.
  intros Hcap Hr. pose proof (inv_reach cap s Hcap Hr) as Hv. pose proof (inv_pos s Hv) as [Hb Hfit]. pose proof (inv_pushed s Hv) as Hl.
  split; [|split; [|split; [apply (inv_once s Hv)|]]].
  - intros i j pi pj p q Hne Hi Hp Hj Hq E. by apply (owners_apart s i j pi pj p q Hv Hi Hp (not_eq_sym Hne) Hj Hq).
  - intros p t run Hx. by destruct (inv_taken s Hv p t run Hx) as (_ & E & _).
  - intros Hidle. split.
    + apply some_inj_perm. rewrite <- list_fmap_compose. rewrite <- (first_tasks (pushed s)) by lia. unfold compose. rewrite taken_tasks by done.
      rewrite Z2Nat.id by lia. apply fmap_Permutation. apply NoDup_Permutation; [apply (inv_once s Hv) | apply NoDup_seqZ|].
      intros p. rewrite elem_of_seqZ, Z.add_0_l. split.
      * intros ([[p' t] run] & -> & Hx)%list_elem_of_fmap. cbn. by destruct (inv_taken s Hv p' t run Hx).
      * intros Hp. destruct (inv_all s Hv p Hp) as [|(i & run & Hi)]; [done|]. by specialize (Hidle i _ Hi).
    + apply Forall_lookup. intros k [t b] Hk. pose proof (lookup_lt_Some _ _ _ Hk) as Hlt. pose proof (queue_length s Hv) as Hq.
      set (p := tail (ring s) + Z.of_nat k). pose proof (queue_lookup s p Hv ltac:(lia)) as E. replace (Z.to_nat (p - tail (ring s))) with k in E by lia. rewrite Hk in E.
      destruct (pushed s !! Z.to_nat p) as [t'|]; [|done]. injection E as _ ->. cbn. unfold ready. apply Z.eqb_eq.
      destruct (inv_cell s Hv p ltac:(lia)) as [C|C _ _|C C' _]; [|done | lia].
      destruct (inv_producer s Hv p ltac:(lia) C) as (i & pc & Hi & Ho). by rewrite (Hidle i pc Hi) in Ho.
Qed.

(** ** One consumer *)

(** Runs in which only thread [c] takes tasks. *)
Inductive reach_one (c : nat) (cap : Z) : State -> Prop :=
  | reach_one_init : reach_one c cap (init cap)
  | reach_one_exec s l s' : reach_one c cap s -> (forall i run, l = Begin i (CLoad run) -> i = c) -> exec s l = Some s' -> reach_one c cap s'.

Definition consumes (pc : Pc (Task := Task)) : bool :=
  match pc with CLoad _ | CSeq _ _ | CCas _ _ | CRun _ _ | CClean _ | CRecycle _ => true | _ => false end.

Definition running (s : State) (c : nat) : bool := match threads s !! c with Some (CRun _ _) => true | _ => false end.

Lemma reach_one_reach c cap s : reach_one c cap s -> reach cap s.
Proof. induction 1 as [|s l s' _ IH _ E]; [apply reach_init | by eapply reach_exec]. Qed.

Lemma running_moved s c pc r l k : running (moved s c pc r l k) c = match pc with CRun _ _ => true | _ => false end.
Proof. unfold running. cbn. by rewrite lookup_insert_eq. Qed.

Record in_order (c : nat) (s : State) : Prop := mkInOrder {
  io_one : forall i pc, threads s !! i = Some pc -> consumes pc = true -> i = c;
  io_taken : (fun x => x.1.1) <$> taken s = seqZ 0 (Z.of_nat (length (taken s)));
  io_count : Z.of_nat (length (taken s)) = tail (ring s) - (if running s c then 1 else 0) }.

Lemma in_order_exec c s l s' : inv s -> in_order c s -> (forall i run, l = Begin i (CLoad run) -> i = c) -> exec s l = Some s' -> in_order c s'.
Proof.
  intros Hv [H1 H2 H3] Hone He. destruct l as [i pc|i weak].
  - cbn [exec] in He.
    assert (s' = moved s i pc (ring s) (pushed s) (taken s) /\ (consumes pc = true -> i = c) /\ (forall r p, pc <> CRun r p) /\ (forall r p, threads s !! i <> Some (CRun r p))) as (-> & E1 & E2 & E3).
    { destruct (threads s !! i) as [[]|] eqn:Et; destruct pc; try done; injection He as <-; (split; [done|]); (split; [|split; congruence]); try done; intros _; by eapply Hone. }
    constructor; [| done |].
    + intros j pj. cbn. destruct (decide (j = i)) as [->|]; [rewrite lookup_insert_eq; intros [= <-]; auto | rewrite lookup_insert_ne by done; apply H1].
    + cbn. rewrite H3. f_equal. unfold running. cbn. destruct (decide (c = i)) as [->|]; [|by rewrite lookup_insert_ne].
      rewrite lookup_insert_eq. destruct (threads s !! i) as [[]|]; destruct pc; try done; exfalso; solve [by eapply E2 | by eapply E3].
  - apply exec_go in He as (pc & pc' & r' & Hi & E & ->). pose proof (inv_knows s Hv i pc Hi) as K.
    assert (Hkeep : consumes pc' = true -> consumes pc = true).
    { destruct pc; cbn [stepEmplace stepConsume] in E; repeat case_match; simplify_eq; done. }
    assert (Ho : forall j pj, <[i := pc']> (threads s) !! j = Some pj -> consumes pj = true -> j = c).
    { intros j pj. destruct (decide (j = i)) as [->|]; [rewrite lookup_insert_eq; intros [= <-]; eauto | rewrite lookup_insert_ne by done; apply H1]. }
    assert (Hsame : forall r k, tail r = tail (ring s) -> taken s = k -> (forall r p, pc <> CRun r p) -> (forall r p, pc' <> CRun r p) -> in_order c (moved s i pc' r (pushed s) k)).
    { intros r k Ht <- Hp Hp'. constructor; [exact Ho | exact H2|]. cbn. rewrite H3, Ht. f_equal. unfold running. cbn.
      destruct (decide (c = i)) as [->|]; [|by rewrite lookup_insert_ne]. rewrite lookup_insert_eq, Hi. destruct pc, pc'; try done; exfalso; solve [by eapply Hp | by eapply Hp']. }
    assert (Hsame' : forall r l, tail r = tail (ring s) -> (forall r p, pc <> CRun r p) -> (forall r p, pc' <> CRun r p) -> in_order c (moved s i pc' r l (taken s))).
    { intros r l Ht Hp Hp'. destruct (Hsame r (taken s) Ht eq_refl Hp Hp') as [S1 S2 S3]. by constructor. }
    clear Hkeep. destruct pc as [t|t p|t p|t p|t p|run|run p|run p|run p|p|p|b]; cbn [stepEmplace stepConsume] in E;
      try (injection E as <- <-; by apply Hsame'); try (repeat case_match; simplify_eq; by apply Hsame').
    + assert (i = c) as -> by by apply (H1 i _ Hi).
      destruct (tail (ring s) =? p) eqn:E1; [destruct weak|]; cbn [andb negb] in E; injection E as <- <-; try by apply Hsame'.
      constructor; [exact Ho | exact H2|]. rewrite running_moved. cbn. rewrite H3. unfold running. rewrite Hi. lia.
    + injection E as <- <-. assert (i = c) as -> by by apply (H1 i _ Hi). cbn [knows] in K. destruct K as (K1 & K2 & K3 & K4).
      destruct (task (slot (ring s) p)) as [t|] eqn:Et; [|symmetry in K4; apply lookup_ge_None in K4; pose proof (inv_pushed s Hv); pose proof (inv_pos s Hv); lia].
      unfold running in H3. rewrite Hi in H3. assert (Hp : p = Z.of_nat (length (taken s))).
      { destruct (decide (p < Z.of_nat (length (taken s)))) as [Hlt|]; [|lia]. assert (Hin : p ∈ (fun x => x.1.1) <$> taken s) by (rewrite H2, elem_of_seqZ; lia).
        apply list_elem_of_fmap in Hin as ([[p' t'] run'] & Hp' & Hin). cbn in Hp'. subst p'. destruct (inv_taken s Hv p t' run' Hin) as (_ & _ & C). by destruct (C c run). }
      constructor; [exact Ho | |].
      * cbn. rewrite fmap_app, H2, length_app. cbn. rewrite Nat2Z.inj_add, seqZ_app by lia. by rewrite <- Hp.
      * rewrite running_moved. cbn. rewrite length_app. cbn. lia.
Qed.

(** When one thread takes the tasks, as in a process queue, they come out in
    the order in which their places were claimed: what was taken is the first
    part of what was put in. *)
Theorem ring_one_consumer_fifo c cap s : (exists n, 1 <= n /\ cap = 2 ^ n) -> reach_one c cap s ->
  (fun x => x.1.2) <$> taken s = take (length (taken s)) (pushed s) /\ Z.of_nat (length (taken s)) = tail (ring s) - (if running s c then 1 else 0).
Proof.
  intros Hcap Hr. pose proof (inv_reach cap s Hcap (reach_one_reach c cap s Hr)) as Hv.
  assert (Hio : in_order c s).
  { clear Hv. induction Hr as [|s l s' Hr IH Hone E]; [constructor; [done | done | reflexivity]|].
    eapply in_order_exec; [apply (inv_reach cap s Hcap (reach_one_reach c cap s Hr)) | done | exact Hone | exact E]. }
  split; [|apply Hio]. pose proof (inv_pos s Hv). pose proof (inv_pushed s Hv). pose proof (io_count c s Hio) as Hn.
  assert (Hle : (length (taken s) <= length (pushed s))%nat) by (destruct (running s c); lia).
  pose proof (taken_tasks s Hv) as E. rewrite (io_taken c s Hio), (first_tasks _ _ Hle) in E.
  change (fun x : Z * Task * bool => Some x.1.2) with (Some ∘ (fun x : Z * Task * bool => x.1.2)) in E. rewrite list_fmap_compose in E.
  apply (list_fmap_eq_inj Some) in E; [done | by intros ? ? [= ->]].
Qed.

(** ** Answers *)

Lemma at_pos_shift r p k : cap_ok r -> at_pos r (p + capacity r * k) = at_pos r p.
Proof.
  intros Hc. pose proof (cap_2 r Hc). apply Nat2Z.inj. rewrite !at_pos_mod by done. rewrite Z.mul_comm. apply Z.mod_add. lia.
Qed.

(** The slot of a position that was passed is at a later one. *)
Lemma passed_seq s p : inv s -> 0 <= p < tail (ring s) -> p + 1 <= seqno (slot (ring s) p).
Proof.
  intros Hv Hp. pose proof Hv as [Hw [Hb Hfit] Hl Hcell _ _ _ _ _ _ _]. pose proof (cap_2 _ (proj1 Hw)) as H2. set (c := capacity (ring s)) in *.
  set (k := (tail (ring s) - p + c - 1) / c). pose proof (Z.div_mod (tail (ring s) - p + c - 1) c ltac:(lia)) as Hd.
  pose proof (Z.mod_pos_bound (tail (ring s) - p + c - 1) c ltac:(lia)) as Hm. fold k in Hd. assert (Hk : 1 <= k) by nia.
  rewrite (slot_same _ p (p + c * k)) by (symmetry; by apply at_pos_shift, Hw).
  destruct (Hcell (p + c * k)) as [C|C _ _|C _ _]; [lia|..]; fold c in C; nia.
Qed.

(** The answer [false] is right: an insertion gives up only when the ring is
    full, that is when as many tasks as it has slots wait or the one that has
    the slot of the next place still runs; and a thread that takes gives up
    only when there is no task, or the first place was only reserved. *)
Theorem ring_false_answers cap s i weak s' pc : (exists n, 1 <= n /\ cap = 2 ^ n) -> reach cap s ->
  exec s (Go i weak) = Some s' -> threads s !! i = Some pc -> threads s' !! i = Some (Done false) ->
  match pc with
  | PSeq _ p => p = head (ring s) /\
      (Z.of_nat (length (queue s)) = capacity (ring s) \/
       exists j pj, threads s !! j = Some pj /\ owns pj = Some (p - capacity (ring s)))
  | CSeq _ p => p = tail (ring s) /\ (queue s = [] \/ exists t q, queue s = (t, false) :: q)
  | _ => False
  end.
Proof.
  intros Hcap Hr He Hi Hi'. pose proof (inv_reach cap s Hcap Hr) as Hv. pose proof (queue_length s Hv) as Hq.
  pose proof Hv as [Hw [Hb Hfit] Hl Hcell Hk _ _ _ _ _ Hco]. pose proof (cap_2 _ (proj1 Hw)) as H2.
  apply exec_go in He as (pc0 & pc' & r' & Hi0 & E & ->). rewrite Hi in Hi0. injection Hi0 as <-. cbn in Hi'. rewrite lookup_insert_eq in Hi'. injection Hi' as ->.
  pose proof (Hk i pc Hi) as K. destruct pc as [t|t p|t p|t p|t p|run|run p|run p|run p|p|p|b]; cbn [stepEmplace stepConsume knows] in *; try (repeat case_match; by simplify_eq).
  - destruct (seqno (slot (ring s) p) - p =? 0) eqn:E1; [discriminate|]. destruct (seqno (slot (ring s) p) - p <? 0) eqn:E2; [|discriminate].
    destruct (decide (p < tail (ring s))); [pose proof (passed_seq s p Hv ltac:(lia)); lia|].
    destruct (decide (p = tail (ring s) + capacity (ring s))) as [->|].
    + split; [lia|]. left. lia.
    + destruct (Hcell p) as [C|C _ _|C C' C'']; [lia..|]. split; [lia|]. right. apply Hco; [lia.. |]. rewrite <- (slot_next _ (p - _)) by apply Hw.
      replace (p - capacity (ring s) + capacity (ring s)) with p by lia. lia.
  - destruct (seqno (slot (ring s) p) - (p + 1) =? 0) eqn:E1; [discriminate|]. destruct (seqno (slot (ring s) p) - (p + 1) <? 0) eqn:E2; [|discriminate].
    destruct (decide (p < tail (ring s))); [pose proof (passed_seq s p Hv ltac:(lia)); lia|]. split; [lia|]. assert (p = tail (ring s)) as -> by lia.
    destruct (decide (tail (ring s) = head (ring s))); [left; apply nil_length_inv; lia|]. right.
    pose proof (queue_lookup s (tail (ring s)) Hv ltac:(lia)) as Hql. rewrite Z.sub_diag in Hql. unfold ready in Hql. rewrite (proj2 (Z.eqb_neq _ _)) in Hql by lia.
    destruct (pushed s !! Z.to_nat (tail (ring s))) as [t|] eqn:Et; [|apply lookup_ge_None in Et; lia].
    destruct (queue s) as [|[t' b] q]; [done|]. injection Hql as -> ->. by exists t, q.
Qed.

(** ** A call alone *)

Lemma go_step (s : State) i weak pc pc' r' : threads s !! i = Some pc ->
  match stepEmplace weak pc (ring s) with Some x => Some x | None => stepConsume weak pc (ring s) end = Some (pc', r') ->
  exists s', exec s (Go i weak) = Some s' /\ ring s' = r' /\ threads s' !! i = Some pc' /\
    pushed s' = match pc, pc' with PCas t _, PSet _ _ => pushed s ++ [t] | _, _ => pushed s end /\
    taken s' = match pc with CRun run p => match task (slot (ring s) p) with Some t => taken s ++ [(p, t, run)] | None => taken s end | _ => taken s end.
Proof.
  intros Hi E. cbn [exec]. rewrite Hi. cbn [mbind option_bind]. rewrite E. cbn [mbind option_bind]. eexists. split; [done|]. cbn. by rewrite lookup_insert_eq.
Qed.

Lemma begin_step (s : State) i pc : match threads s !! i with None | Some (Done _) => True | _ => False end -> match pc with PLoad _ | CLoad _ => True | _ => False end ->
  exists s', exec s (Begin i pc) = Some s' /\ ring s' = ring s /\ threads s' !! i = Some pc /\ queue s' = queue s /\ taken s' = taken s.
Proof.
  intros Hi Hp. cbn [exec]. destruct (threads s !! i) as [[]|]; try done; destruct pc; try done; (eexists; split; [done|]); cbn; by rewrite lookup_insert_eq.
Qed.

Lemma execs_cons (s : State) l ls s1 : exec s l = Some s1 -> execs s (l :: ls) = execs s1 ls.
Proof. intros E. cbn. by rewrite E. Qed.

(** A step whose change is known. *)
Lemma go_queue cap s i pc pc' r' : (exists n, 1 <= n /\ cap = 2 ^ n) -> reach cap s -> threads s !! i = Some pc ->
  match stepEmplace false pc (ring s) with Some x => Some x | None => stepConsume false pc (ring s) end = Some (pc', r') ->
  exists s', exec s (Go i false) = Some s' /\ reach cap s' /\ ring s' = r' /\ threads s' !! i = Some pc' /\
    changes (capacity (ring s)) (queue s) (change s (Go i false)) (queue s') /\
    pushed s' = match pc, pc' with PCas t _, PSet _ _ => pushed s ++ [t] | _, _ => pushed s end /\
    taken s' = match pc with CRun run p => match task (slot (ring s) p) with Some t => taken s ++ [(p, t, run)] | None => taken s end | _ => taken s end.
Proof.
  intros Hc Hr Hi E. destruct (go_step s i false pc pc' r' Hi E) as (s' & He & H1 & H2 & H3 & H4). exists s'. split; [done|].
  split; [by eapply reach_exec|]. do 2 (split; [done|]). split; [by apply (ring_refines_queue cap) | done].
Qed.

Lemma head_seq s : inv s -> seqno (slot (ring s) (head (ring s))) <= head (ring s).
Proof.
  intros Hv. pose proof Hv as [Hw [Hb Hfit] _ Hcell _ _ _ _ _ _ _]. pose proof (cap_2 _ (proj1 Hw)) as H2.
  destruct (decide (head (ring s) = tail (ring s) + capacity (ring s))) as [E|].
  - rewrite E, slot_next by apply Hw. destruct (Hcell (tail (ring s))) as [C|C _ _|C _ _]; lia.
  - destruct (Hcell (head (ring s))) as [C|C ? _|C _ _]; lia.
Qed.

Lemma tail_seq s : inv s -> seqno (slot (ring s) (tail (ring s))) <= tail (ring s) + 1 /\
  (ready (ring s) (tail (ring s)) = true <-> exists t q, queue s = (t, true) :: q).
Proof.
  intros Hv. pose proof Hv as [Hw [Hb Hfit] Hl Hcell _ _ _ _ _ _ _]. pose proof (cap_2 _ (proj1 Hw)) as H2. pose proof (queue_length s Hv) as Hq.
  destruct (decide (tail (ring s) < head (ring s))) as [Hlt|Hge].
  - pose proof (queue_lookup s (tail (ring s)) Hv ltac:(lia)) as E. rewrite Z.sub_diag in E.
    destruct (pushed s !! Z.to_nat (tail (ring s))) as [t|] eqn:Et; [|apply lookup_ge_None in Et; lia].
    destruct (queue s) as [|[t' b] q]; [done|]. injection E as -> ->. split; [destruct (Hcell (tail (ring s))) as [C|C _ _|C _ _]; lia|].
    split; [intros ->; by exists t, q | by intros (? & ? & [= -> -> ->])].
  - assert (seqno (slot (ring s) (tail (ring s))) <= tail (ring s)) by (destruct (Hcell (tail (ring s))) as [C|C C' _|C _ _]; lia).
    split; [lia|]. rewrite (nil_length_inv (queue s)) by lia. unfold ready. rewrite Z.eqb_eq. split; [lia | by intros (? & ? & ?)].
Qed.

Lemma alone_insert cap s i t : (exists n, 1 <= n /\ cap = 2 ^ n) -> reach cap s -> match threads s !! i with None | Some (Done _) => True | _ => False end ->
  exists n s', (n <= 5)%nat /\ execs s (Begin i (PLoad t) :: replicate n (Go i false)) = Some s' /\
    (threads s' !! i = Some (Done true) /\ queue s' = queue s ++ [(t, true)] \/ threads s' !! i = Some (Done false) /\ queue s' = queue s).
Proof.
  intros Hc Hr Hi. destruct (begin_step s i (PLoad t) Hi I) as (s0 & E0 & R0 & T0 & Q0 & _). assert (Hr0 : reach cap s0) by by eapply reach_exec.
  destruct (go_queue cap s0 i _ _ _ Hc Hr0 T0 eq_refl) as (s1 & E1 & Hr1 & R1 & T1 & Q1 & _ & _). cbn [change] in Q1. rewrite T0 in Q1. cbn in Q1.
  pose proof (head_seq s1 (inv_reach cap s1 Hc Hr1)) as Hs. rewrite R1 in Hs.
  destruct (decide (seqno (slot (ring s0) (head (ring s0))) = head (ring s0))) as [Heq|Hne].
  - destruct (go_queue cap s1 i _ (PCas t (head (ring s0))) (ring s1) Hc Hr1 T1) as (s2 & E2 & Hr2 & R2 & T2 & Q2 & _ & _).
    { cbn. rewrite R1, (proj2 (Z.eqb_eq _ _)) by lia. done. }
    cbn [change] in Q2. rewrite T1 in Q2. cbn in Q2.
    assert (Hh : (head (ring s2) =? head (ring s0)) && negb false = true) by (rewrite R2, R1, Z.eqb_refl; done).
    destruct (go_queue cap s2 i _ (PSet t (head (ring s0))) (set_head (head (ring s0) + 1) (ring s2)) Hc Hr2 T2) as (s3 & E3 & Hr3 & R3 & T3 & Q3 & _ & _).
    { cbn [stepEmplace]. by rewrite Hh. }
    cbn [change] in Q3. rewrite T2, Hh in Q3. destruct Q3 as [_ Q3].
    destruct (go_queue cap s3 i _ _ _ Hc Hr3 T3 eq_refl) as (s4 & E4 & Hr4 & R4 & T4 & Q4 & _ & _). cbn [change] in Q4. rewrite T3 in Q4. cbn in Q4.
    destruct (go_queue cap s4 i _ _ _ Hc Hr4 T4 eq_refl) as (s5 & E5 & _ & _ & T5 & Q5 & _ & _). cbn [change] in Q5. rewrite T4 in Q5. destruct Q5 as (t' & Hk & Q5).
    exists 5%nat, s5. split; [lia|]. split; [cbn [replicate]; by rewrite (execs_cons _ _ _ _ E0), (execs_cons _ _ _ _ E1), (execs_cons _ _ _ _ E2), (execs_cons _ _ _ _ E3), (execs_cons _ _ _ _ E4), (execs_cons _ _ _ _ E5)|].
    left. split; [done|]. rewrite R4, R3 in Hk, Q5. cbn [set_task set_head tail] in Hk, Q5. rewrite R2, R1 in Hk, Q5. rewrite Q4, Q3, Q2, Q1 in Hk, Q5.
    pose proof (queue_length s0 (inv_reach cap s0 Hc Hr0)) as Hl.
    replace (Z.to_nat (head (ring s0) - tail (ring s0))) with (length (queue s0)) in Hk, Q5 by lia.
    rewrite lookup_app_r, Nat.sub_diag in Hk by lia. injection Hk as <-. rewrite Q5, insert_app_r_alt, Nat.sub_diag by lia. by rewrite Q0.
  - destruct (go_queue cap s1 i _ (Done false) (ring s1) Hc Hr1 T1) as (s2 & E2 & Hr2 & R2 & T2 & Q2 & _ & _).
    { cbn. rewrite R1, (proj2 (Z.eqb_neq _ _)), (proj2 (Z.ltb_lt _ _)) by lia. done. }
    cbn [change] in Q2. rewrite T1 in Q2. cbn in Q2. exists 2%nat, s2. split; [lia|].
    split; [cbn [replicate]; by rewrite (execs_cons _ _ _ _ E0), (execs_cons _ _ _ _ E1), (execs_cons _ _ _ _ E2)|]. right. split; [done|]. congruence.
Qed.

Lemma alone_take cap s i run : (exists n, 1 <= n /\ cap = 2 ^ n) -> reach cap s -> match threads s !! i with None | Some (Done _) => True | _ => False end ->
  exists n s', (n <= 6)%nat /\ execs s (Begin i (CLoad run) :: replicate n (Go i false)) = Some s' /\
    match queue s with
    | (t, true) :: q => threads s' !! i = Some (Done true) /\ queue s' = q /\ taken s' = taken s ++ [(tail (ring s), t, run)]
    | _ => threads s' !! i = Some (Done false) /\ queue s' = queue s /\ taken s' = taken s
    end.
Proof.
  intros Hc Hr Hi. destruct (begin_step s i (CLoad run) Hi I) as (s0 & E0 & R0 & T0 & Q0 & K0). assert (Hr0 : reach cap s0) by by eapply reach_exec.
  destruct (go_queue cap s0 i _ _ _ Hc Hr0 T0 eq_refl) as (s1 & E1 & Hr1 & R1 & T1 & Q1 & P1 & K1). cbn [change] in Q1. rewrite T0 in Q1. cbn in Q1.
  destruct (tail_seq s1 (inv_reach cap s1 Hc Hr1)) as [Hs Hrd]. rewrite R1 in Hs, Hrd. rewrite Q1, Q0 in Hrd. unfold ready in Hrd.
  destruct (decide (seqno (slot (ring s0) (tail (ring s0))) = tail (ring s0) + 1)) as [Heq|Hne].
  - destruct (proj1 Hrd) as (t & q & Hq); [by apply Z.eqb_eq|]. rewrite Hq.
    destruct (go_queue cap s1 i _ (CCas run (tail (ring s0))) (ring s1) Hc Hr1 T1) as (s2 & E2 & Hr2 & R2 & T2 & Q2 & P2 & K2).
    { cbn. rewrite R1, (proj2 (Z.eqb_eq _ _)) by lia. done. }
    cbn [change] in Q2. rewrite T1 in Q2. cbn in Q2.
    assert (Hh : (tail (ring s2) =? tail (ring s0)) && negb false = true) by (rewrite R2, R1, Z.eqb_refl; done).
    destruct (go_queue cap s2 i _ (CRun run (tail (ring s0))) (set_tail (tail (ring s0) + 1) (ring s2)) Hc Hr2 T2) as (s3 & E3 & Hr3 & R3 & T3 & Q3 & P3 & K3).
    { cbn [stepEmplace stepConsume]. by rewrite Hh. }
    cbn [change] in Q3. rewrite T2, Hh in Q3.
    destruct (go_queue cap s3 i _ _ _ Hc Hr3 T3 eq_refl) as (s4 & E4 & Hr4 & R4 & T4 & Q4 & P4 & K4). cbn [change] in Q4. rewrite T3 in Q4. cbn in Q4.
    destruct (go_queue cap s4 i _ _ _ Hc Hr4 T4 eq_refl) as (s5 & E5 & Hr5 & R5 & T5 & Q5 & P5 & K5). cbn [change] in Q5. rewrite T4 in Q5. cbn in Q5.
    destruct (go_queue cap s5 i _ _ _ Hc Hr5 T5 eq_refl) as (s6 & E6 & _ & _ & T6 & Q6 & P6 & K6). cbn [change] in Q6. rewrite T5 in Q6. cbn in Q6.
    exists 6%nat, s6. split; [lia|]. split; [cbn [replicate]; by rewrite (execs_cons _ _ _ _ E0), (execs_cons _ _ _ _ E1), (execs_cons _ _ _ _ E2), (execs_cons _ _ _ _ E3), (execs_cons _ _ _ _ E4), (execs_cons _ _ _ _ E5), (execs_cons _ _ _ _ E6)|].
    split; [done|]. rewrite Q2, Q1, Q0, Hq in Q3.
    pose proof (queue_lookup s2 (tail (ring s0)) (inv_reach cap s2 Hc Hr2)) as Hql. rewrite R2, R1, Z.sub_diag, Q2, Q1, Q0, Hq in Hql.
    pose proof (queue_length s0 (inv_reach cap s0 Hc Hr0)) as Hl. rewrite Q0, Hq in Hl. cbn [length] in Hl. specialize (Hql ltac:(lia)).
    destruct (pushed s2 !! Z.to_nat (tail (ring s0))) as [t'|] eqn:Ht'; [|done]. injection Hql as <- _. injection Q3 as Q3. split; [congruence|].
    pose proof (inv_knows s3 (inv_reach cap s3 Hc Hr3) i _ T3) as (_ & _ & _ & Ktask). rewrite P3, Ht' in Ktask. rewrite Ktask in K4. rewrite K6, K5, K4, K3, K2, K1, K0. by rewrite R0.
  - destruct (go_queue cap s1 i _ (Done false) (ring s1) Hc Hr1 T1) as (s2 & E2 & Hr2 & R2 & T2 & Q2 & _ & K2).
    { cbn. rewrite R1, (proj2 (Z.eqb_neq _ _)), (proj2 (Z.ltb_lt _ _)) by lia. done. }
    cbn [change] in Q2. rewrite T1 in Q2. cbn in Q2. exists 2%nat, s2. split; [lia|].
    split; [cbn [replicate]; by rewrite (execs_cons _ _ _ _ E0), (execs_cons _ _ _ _ E1), (execs_cons _ _ _ _ E2)|].
    assert (Hend : threads s2 !! i = Some (Done false) /\ queue s2 = queue s /\ taken s2 = taken s) by (split; [done | split; congruence]).
    destruct (queue s) as [|[t []] q]; try done. destruct Hne. apply Z.eqb_eq, Hrd. by exists t, q.
Qed.

(** A call that runs alone, whatever the others have left, ends after at
    most five steps for an insertion and six for a removal: an insertion puts
    its task behind the others, ready to be taken, or finds the ring full; a
    removal takes and runs the first task, if there is one that is ready. *)
Theorem ring_alone cap s i : (exists n, 1 <= n /\ cap = 2 ^ n) -> reach cap s -> match threads s !! i with None | Some (Done _) => True | _ => False end ->
  (forall t, exists n s', (n <= 5)%nat /\ execs s (Begin i (PLoad t) :: replicate n (Go i false)) = Some s' /\
    (threads s' !! i = Some (Done true) /\ queue s' = queue s ++ [(t, true)] \/ threads s' !! i = Some (Done false) /\ queue s' = queue s)) /\
  (forall run, exists n s', (n <= 6)%nat /\ execs s (Begin i (CLoad run) :: replicate n (Go i false)) = Some s' /\
    match queue s with
    | (t, true) :: q => threads s' !! i = Some (Done true) /\ queue s' = q /\ taken s' = taken s ++ [(tail (ring s), t, run)]
    | _ => threads s' !! i = Some (Done false) /\ queue s' = queue s /\ taken s' = taken s
    end).
Proof. intros Hc Hr Hi. split; [intros t; by apply (alone_insert cap) | intros run; by apply (alone_take cap)]. Qed.
End Inv.

(** ** Two producers and a consumer on a ring of two slots *)

Section RingDemo.
#[local] Abbreviation State := (State (Task := nat)).

Lemma execs_reach (cap : Z) (s : State) l s' : reach cap s -> execs s l = Some s' -> reach cap s'.
Proof.
  revert s. induction l as [|a l IH]; intros s Hr; cbn [execs]; [by intros [= <-]|].
  destruct (exec s a) as [s1|] eqn:E; [|done]. cbn [mbind option_bind]. apply IH. by eapply reach_exec.
Qed.

(** Both producers look at place 0; the first gets it, the second gets place 1
    and publishes first, so that nothing can be taken yet. *)
Definition demo_race : list (Label (Task := nat)) :=
  [Begin 1 (PLoad 10%nat); Begin 2 (PLoad 20%nat); Go 1 false; Go 2 false; Go 1 false; Go 2 false; Go 1 false; Go 2 false; Go 2 false; Go 2 false; Go 2 false; Go 2 false;
   Begin 3 (CLoad true); Go 3 false].
Definition demo_raced : State := default (init 2) (execs (init 2) demo_race).
(** Then the first publishes, and both are taken in their order. *)
Definition demo_rest : list (Label (Task := nat)) :=
  [Go 3 false; Go 1 false; Go 1 false; Begin 3 (CLoad true); Go 3 false; Go 3 false; Go 3 false; Go 3 false; Go 3 false; Go 3 false;
   Begin 3 (CLoad true); Go 3 false; Go 3 false; Go 3 false; Go 3 false; Go 3 false; Go 3 false].
Definition demo_end : State := default (init 2) (execs demo_raced demo_rest).

Example demo_raced_queue : queue demo_raced = [(10, false); (20, true)]%nat /\ hasItem (ring demo_raced) = false.
Proof. vm_compute. done. Qed.

Example demo_end_taken : taken demo_end = [(0, 10%nat, true); (1, 20%nat, true)].
Proof. vm_compute. done. Qed.

Lemma demo_cap : exists n, 1 <= n /\ 2 = 2 ^ n.
Proof. exists 1. done. Qed.

Lemma demo_raced_reach : reach 2 demo_raced.
Proof. apply (execs_reach 2 (init 2) demo_race); [apply reach_init | vm_compute; reflexivity]. Qed.

Lemma demo_end_reach : reach 2 demo_end.
Proof. apply (execs_reach 2 demo_raced demo_rest); [apply demo_raced_reach | vm_compute; reflexivity]. Qed.

Lemma ring_refines_queue_witness : changes 2 [(10, false); (20, true)]%nat Same (queue (default demo_raced (exec demo_raced (Go 3 false)))).
Proof.
  pose proof (ring_refines_queue 2 demo_raced (Go 3 false) (default demo_raced (exec demo_raced (Go 3 false))) demo_cap demo_raced_reach) as H.
  apply H. vm_compute. reflexivity.
Defined.

Lemma ring_tasks_once_witness : (fun x => x.1.2) <$> taken demo_end ≡ₚ [10; 20]%nat.
Proof.
  destruct (ring_tasks_once 2 demo_end demo_cap demo_end_reach) as (_ & _ & _ & H).
  destruct H as [H _]; [|exact H]. intros i pc Hi.
  assert (E : threads demo_end = {[1%nat := Done true; 2%nat := Done true; 3%nat := Done true]}) by (vm_compute; reflexivity).
  rewrite E in Hi. rewrite !lookup_insert_Some, lookup_singleton_Some in Hi. destruct Hi as [[_ <-]|[_ [[_ <-]|[_ [_ <-]]]]]; reflexivity.
Defined.

Lemma ring_false_answers_witness : tail (ring demo_raced) = 0 /\ (queue demo_raced = [] \/ exists t q, queue demo_raced = (t, false) :: q).
Proof.
  pose proof (ring_false_answers 2 demo_raced 3 false (default demo_raced (exec demo_raced (Go 3 false))) (CSeq true 0) demo_cap demo_raced_reach) as H.
  destruct H as [H1 H2]; [vm_compute; reflexivity.. |]. split; [exact (eq_sym H1) | exact H2].
Defined.

Lemma ring_alone_witness : exists n s', (n <= 6)%nat /\ execs demo_end (Begin 3 (CLoad true) :: replicate n (Go 3 false)) = Some s' /\ threads s' !! 3%nat = Some (Done false).
Proof.
  destruct (ring_alone 2 demo_end 3 demo_cap demo_end_reach) as [_ H]; [vm_compute; exact I|].
  destruct (H true) as (n & s' & Hn & He & Hq). exists n, s'. split; [exact Hn|]. split; [exact He|]. exact (proj1 Hq).
Defined.

Lemma demo_one : reach_one 3 2 demo_end.
Proof.
  assert (H : forall l (s s' : State), reach_one 3 2 s -> Forall (fun a => forall i run, a = Begin i (CLoad run) -> i = 3%nat) l -> execs s l = Some s' -> reach_one 3 2 s').
  { induction l as [|a l IH]; intros s s' Hr Hl; cbn [execs]; [by intros [= <-]|]. apply Forall_cons in Hl as [Ha Hl].
    destruct (exec s a) as [s1|] eqn:E; [|done]. cbn [mbind option_bind]. apply IH; [by eapply reach_one_exec | done]. }
  apply (H (demo_race ++ demo_rest) (init 2)); [apply reach_one_init | | vm_compute; reflexivity].
  repeat (apply Forall_cons; split; [intros i run; try done; by intros [= <-]|]). constructor.
Qed.

Lemma ring_one_consumer_fifo_witness : (fun x => x.1.2) <$> taken demo_end = [10; 20]%nat.
Proof. destruct (ring_one_consumer_fifo 3 2 demo_end demo_cap demo_one) as [H _]. rewrite H. vm_compute. reflexivity. Defined.
End RingDemo.
