(* ===== verification/ProcessQueue.v ===== *)
(** * ProcessQueue: one serialized queue of the control scheduler (core/ControlScheduler.cpp)

    Any number of threads post to the queue, run its drain on the thread pool,
    and destroy it; every access to the shared flags is a step, and the steps
    interleave in any order. A sub-queue is the bounded queue that the ring was
    shown to be ([Ring.ring_refines_queue], [Ring.ring_false_answers]); a place
    that is reserved carries the thread that will publish it. A thread has a
    stack of calls, since a task that runs may post to the queue and destroy it.
    There is one generation of the slot: what [create] makes of it again after
    it was destroyed is not modelled. *)

From S2P Require Import Prelude.

Section PQ.
Context {Task : Type}.

(** ** Labels *)

(** [core/ControlScheduler.h:320-324] ControlScheduler::LabelMapEntry *)
Record LabelMapEntry := mkLabel { label : Z; subIndex : nat }.

(** [core/ControlScheduler.h:364-376] ProcessQueueState::findSubIndex, the loop; [n] is at least [hi - lo] *)
Fixpoint lowerBound (labels : list LabelMapEntry) (l : Z) (n lo hi : nat) : nat :=
  match n with
  | O => lo
  | S n =>
      if (lo <? hi)%nat then
        let mid := (lo + (hi - lo) / 2)%nat in
        match labels !! mid with
        | Some v => if label v <? l then lowerBound labels l n (mid + 1) hi else lowerBound labels l n lo mid
        | None => lo
        end
      else lo
  end.

(** [core/ControlScheduler.h:361-382] ProcessQueueState::findSubIndex *)
Definition findSubIndex (labels : list LabelMapEntry) (l : Z) : option nat :=
  match labels !! lowerBound labels l (length labels) 0 (length labels) with
  | Some v => if label v =? l then Some (subIndex v) else None
  | None => None
  end.

(** ** State *)

(** Where a call is. *)
Inductive Frame :=
  (* post *)
  | PActive (l : option Z) (t : Task) | PClosed (l : option Z) (t : Task) | PReserve (j : nat) (t : Task) | PPublish (j : nat) | PExchange | PEnqueue
  (* drainProcessQueue *)
  | DActive | DDraining | DMarker | DNotifyOn | DTop (rr : nat) | DTry (run : bool) (rr : nat) (l : list nat) | DRun (run : bool) (rr j : nat) (t : Task) | DAfter (run : bool) (rr : nat)
  | DRelease (rr : nat) | DClosed (rr : nat) | DDiscard (i : nat) | DPending (rr i : nat) | DCas (rr : nat) | DUnmark | DUndrain | DNotifyOff | DDefer
  (* destroyProcessQueue *)
  | KActive | KClose | KMarker | KDefer | KPending (i : nat) | KExchange | KEnqueue | KCheck | KCheck2 | KGoSleep | KSleep | KDiscard (i : nat)
  (* finalizeDestroy *)
  | XFinal.

(** [core/ControlScheduler.h:326-341] ProcessQueueState, with the slot's active flag, the jobs of the thread pool that
    drain it, and the threads; and for each sub-queue what was accepted and what
    was taken out (run or not) *)
Record PQ := mkPQ {
  active : bool;
  closed : bool;
  scheduled : bool;
  draining : bool;
  drainThreadMarker : option nat;
  deferDestroy : bool;
  labels : list LabelMapEntry;
  capacities : list nat;
  sub : list (list (Task * option nat));
  jobs : nat;
  threads : list (list Frame);
  accepted : list (list Task);
  taken : list (list (Task * bool));
  answers : list (nat * bool) }.

Definition set_closed v s := mkPQ (active s) v (scheduled s) (draining s) (drainThreadMarker s) (deferDestroy s) (labels s) (capacities s) (sub s) (jobs s) (threads s) (accepted s) (taken s) (answers s).
Definition set_scheduled v s := mkPQ (active s) (closed s) v (draining s) (drainThreadMarker s) (deferDestroy s) (labels s) (capacities s) (sub s) (jobs s) (threads s) (accepted s) (taken s) (answers s).
Definition set_draining v s := mkPQ (active s) (closed s) (scheduled s) v (drainThreadMarker s) (deferDestroy s) (labels s) (capacities s) (sub s) (jobs s) (threads s) (accepted s) (taken s) (answers s).
Definition set_marker v s := mkPQ (active s) (closed s) (scheduled s) (draining s) v (deferDestroy s) (labels s) (capacities s) (sub s) (jobs s) (threads s) (accepted s) (taken s) (answers s).
Definition set_defer v s := mkPQ (active s) (closed s) (scheduled s) (draining s) (drainThreadMarker s) v (labels s) (capacities s) (sub s) (jobs s) (threads s) (accepted s) (taken s) (answers s).
Definition on_sub f s := mkPQ (active s) (closed s) (scheduled s) (draining s) (drainThreadMarker s) (deferDestroy s) (labels s) (capacities s) (f (sub s)) (jobs s) (threads s) (accepted s) (taken s) (answers s).
Definition set_jobs v s := mkPQ (active s) (closed s) (scheduled s) (draining s) (drainThreadMarker s) (deferDestroy s) (labels s) (capacities s) (sub s) v (threads s) (accepted s) (taken s) (answers s).
Definition on_threads f s := mkPQ (active s) (closed s) (scheduled s) (draining s) (drainThreadMarker s) (deferDestroy s) (labels s) (capacities s) (sub s) (jobs s) (f (threads s)) (accepted s) (taken s) (answers s).
Definition on_accepted f s := mkPQ (active s) (closed s) (scheduled s) (draining s) (drainThreadMarker s) (deferDestroy s) (labels s) (capacities s) (sub s) (jobs s) (threads s) (f (accepted s)) (taken s) (answers s).
Definition on_taken f s := mkPQ (active s) (closed s) (scheduled s) (draining s) (drainThreadMarker s) (deferDestroy s) (labels s) (capacities s) (sub s) (jobs s) (threads s) (accepted s) (f (taken s)) (answers s).
Definition answer i b s := mkPQ (active s) (closed s) (scheduled s) (draining s) (drainThreadMarker s) (deferDestroy s) (labels s) (capacities s) (sub s) (jobs s) (threads s) (accepted s) (taken s) (answers s ++ [(i, b)]).

Definition ready (q : list (Task * option nat)) : bool := match q with (_, None) :: _ => true | _ => false end.

(** [core/ControlScheduler.h:351-359] ProcessQueueState::hasAnyPending: one sub-queue of the loop *)
Definition hasItem (s : PQ) (i : nat) : bool := match sub s !! i with Some q => ready q | None => false end.

(** The thread's call goes on at another place, or returns. *)
Definition at_ (i : nat) (f : Frame) (s : PQ) : PQ := on_threads (alter (fun st => f :: tl st) i) s.
Definition ret (i : nat) (s : PQ) : PQ := on_threads (alter tl i) s.

(** [waitCv.notify_all()]: who sleeps looks again. *)
Definition wake (f : Frame) : Frame := match f with KSleep => KCheck | f => f end.
Definition notify_all (s : PQ) : PQ := on_threads (fmap (M := list) (fmap (M := list) wake)) s.

(** The sub-queues that a scan of the drain tries, from [rr]. *)
Definition scan (s : PQ) (rr : nat) : list nat := seq rr (length (sub s) - rr) ++ seq 0 (Nat.min rr (length (sub s))).

(** [core/ControlScheduler.cpp:734-740] ControlScheduler::finalizeDestroy, what it does to the slot *)
Definition reset (s : PQ) : PQ :=
  mkPQ false false false false None false [] [] [] (jobs s) (threads s) (accepted s) (taken s) (answers s).

(** Takes the first task of a sub-queue out. *)
Definition takeOut (j : nat) (run : bool) (t : Task) (s : PQ) : PQ :=
  on_taken (alter (fun l => l ++ [(t, run)]) j) (on_sub (alter (fun q => tl q) j) s).

(** Whether a task of the sub-queue runs, whose slot is not free yet. *)
Definition occupied (s : PQ) (j : nat) : bool :=
  existsb (existsb (fun f => match f with DRun _ _ k _ => (k =? j)%nat | _ => false end)) (threads s).

(** ** The calls, one step each *)

(** [core/ControlScheduler.h:485-527] ControlScheduler::post; [again] is that the slot of the next place is still in use *)
Definition stepPost (again : bool) (i : nat) (f : Frame) (s : PQ) : option PQ :=
  match f with
  | PActive l t => Some (if active s then at_ i (PClosed l t) s else ret i (answer i false s))
  | PClosed l t =>
      Some (if closed s then ret i (answer i false s)
            else match l with
                 | None => at_ i (PReserve 0 t) s
                 | Some l => match findSubIndex (labels s) l with Some j => at_ i (PReserve j t) s | None => ret i (answer i false s) end
                 end)
  | PReserve j t =>
      q ← sub s !! j; cap ← capacities s !! j;
      Some (if (length q <? cap)%nat && negb (again && occupied s j)
            then at_ i (PPublish j) (on_accepted (alter (fun l => l ++ [t]) j) (on_sub (alter (fun q => q ++ [(t, Some i)]) j) s))
            else ret i (answer i false s))
  | PPublish j => Some (at_ i PExchange (on_sub (alter (fmap (fun e => if decide (e.2 = Some i) then (e.1, None) else e)) j) s))
  | PExchange => Some (if scheduled s then ret i (answer i true s) else at_ i PEnqueue (set_scheduled true s))
  | PEnqueue => Some (ret i (answer i true (set_jobs (S (jobs s)) s)))
  | _ => None
  end.

(** [core/ControlScheduler.cpp:581-664] ControlScheduler::drainProcessQueue *)
Definition stepDrain (i : nat) (f : Frame) (s : PQ) : option PQ :=
  match f with
  | DActive => Some (if active s then at_ i DDraining s else ret i s)
  | DDraining => Some (at_ i DMarker (set_draining true s))
  | DMarker => Some (at_ i DNotifyOn (set_marker (Some i) s))
  | DNotifyOn => Some (at_ i (DTop 0) (notify_all s))
  | DTop rr => Some (at_ i (DTry (negb (closed s)) rr (scan s rr)) s)
  | DTry run rr [] => Some (at_ i (DRelease rr) s)
  | DTry run rr (j :: l) =>
      Some (match sub s !! j with
            | Some ((t, None) :: q) => at_ i (DRun run (if (S j =? length (sub s))%nat then 0%nat else S j) j t) (takeOut j run t s)
            | _ => at_ i (DTry run rr l) s
            end)
  | DRun run rr j t => Some (at_ i (DAfter run rr) s)
  | DAfter run rr => Some (at_ i (if closed s then DRelease rr else DTry run rr (scan s rr)) s)
  | DRelease rr => Some (at_ i (DClosed rr) (set_scheduled false s))
  | DClosed rr => Some (at_ i (if closed s then DDiscard 0 else DPending rr 0) s)
  | DDiscard k =>
      Some (match sub s !! k with
            | None => at_ i DUnmark s
            | Some ((t, None) :: q) => takeOut k false t s
            | Some _ => at_ i (DDiscard (S k)) s
            end)
  | DPending rr k =>
      Some (match sub s !! k with
            | None => at_ i DUnmark s
            | Some q => at_ i (if ready q then DCas rr else DPending rr (S k)) s
            end)
  | DCas rr => Some (if scheduled s then at_ i DUnmark s else at_ i (DTop rr) (set_scheduled true s))
  | DUnmark => Some (at_ i DUndrain (set_marker None s))
  | DUndrain => Some (at_ i DNotifyOff (set_draining false s))
  | DNotifyOff => Some (at_ i DDefer (notify_all s))
  | DDefer => Some (if deferDestroy s then at_ i XFinal s else ret i s)
  | _ => None
  end.

(** [core/ControlScheduler.cpp:666-717] ControlScheduler::destroyProcessQueue; [spurious] wakes who sleeps *)
Definition stepDestroy (spurious : bool) (i : nat) (f : Frame) (s : PQ) : option PQ :=
  match f with
  | KActive => Some (if active s then at_ i KClose s else ret i s)
  | KClose => Some (at_ i KMarker (set_closed true s))
  | KMarker => Some (at_ i (if decide (drainThreadMarker s = Some i) then KDefer else KPending 0) s)
  | KDefer => Some (ret i (set_defer true s))
  | KPending k =>
      Some (match sub s !! k with
            | None => at_ i KCheck s
            | Some q => at_ i (if ready q then KExchange else KPending (S k)) s
            end)
  | KExchange => Some (if scheduled s then at_ i KCheck s else at_ i KEnqueue (set_scheduled true s))
  | KEnqueue => Some (at_ i KCheck (set_jobs (S (jobs s)) s))
  | KCheck => Some (at_ i (if draining s then KGoSleep else KCheck2) s)
  | KCheck2 => Some (at_ i (if scheduled s then KGoSleep else KDiscard 0) s)
  | KGoSleep => Some (at_ i KSleep s)
  | KSleep => if spurious then Some (at_ i KCheck s) else None
  | KDiscard k =>
      Some (match sub s !! k with
            | None => at_ i XFinal s
            | Some ((t, None) :: q) => takeOut k false t s
            | Some _ => at_ i (KDiscard (S k)) s
            end)
  | _ => None
  end.

(** [core/ControlScheduler.cpp:719-746] ControlScheduler::finalizeDestroy *)
Definition stepFinal (i : nat) (f : Frame) (s : PQ) : option PQ :=
  match f with XFinal => Some (ret i (if active s then reset s else s)) | _ => None end.

(** A thread calls post or destroy (from outside, or in a task that it runs), a
    worker takes a drain from the pool, or a thread takes a step. *)
Inductive Label := Post (i : nat) (l : option Z) (t : Task) | Destroy (i : nat) | Work (i : nat) | Go (i : nat) (choice : bool).

Definition mayCall (s : PQ) (i : nat) : bool :=
  match threads s !! i with Some [] => true | Some (DRun true _ _ _ :: _) => true | _ => false end.

Definition call (i : nat) (f : Frame) (s : PQ) : PQ := on_threads (alter (fun st => f :: st) i) s.

Definition exec (s : PQ) (l : Label) : option PQ :=
  match l with
  | Post i lb t => if mayCall s i then Some (call i (PActive lb t) s) else None
  | Destroy i => if mayCall s i then Some (call i KActive s) else None
  | Work i =>
      match threads s !! i, jobs s with
      | Some [], S n => Some (call i DActive (set_jobs n s))
      | _, _ => None
      end
  | Go i choice =>
      st ← threads s !! i;
      match st with
      | [] => None
      | f :: _ =>
          match stepPost choice i f s with Some s' => Some s' | None =>
          match stepDrain i f s with Some s' => Some s' | None =>
          match stepDestroy choice i f s with Some s' => Some s' | None => stepFinal i f s end end end
      end
  end.

Fixpoint execs (s : PQ) (l : list Label) : option PQ :=
  match l with [] => Some s | a :: l => s ← exec s a; execs s l end.

(** [std::sort] of the labelled sub-queues. *)
Fixpoint insertLabel (c : Z * nat) (l : list (Z * nat)) : list (Z * nat) :=
  match l with [] => [c] | d :: l => if c.1 <? d.1 then c :: d :: l else d :: insertLabel c l end.

(** [core/ControlScheduler.cpp:220-279] ControlScheduler::create: a default sub-queue and the labelled ones, for [n] threads *)
Definition create (cap : nat) (labeled : list (Z * nat)) (n : nat) : PQ :=
  let labeled := foldr insertLabel [] labeled in
  mkPQ true false false false None false (imap (fun k c => mkLabel c.1 (S k)) labeled) (cap :: labeled.*2)
    (replicate (S (length labeled)) []) 0 (replicate n []) (replicate (S (length labeled)) []) (replicate (S (length labeled)) []) [].

Inductive reach (s0 : PQ) : PQ -> Prop :=
  | reach_refl : reach s0 s0
  | reach_exec s l s' : reach s0 s -> exec s l = Some s' -> reach s0 s'.
End PQ.
Arguments Frame : clear implicits.
Arguments PQ : clear implicits.
Arguments Label : clear implicits.

(** ** The right to drain *)

Section Inv.
Context {Task : Type}.
#[local] Abbreviation PQ := (PQ Task).
#[local] Abbreviation Frame := (Frame Task).

(** The calls that have the right to drain, or are about to give it to a job. *)
Definition tok (f : Frame) : nat :=
  match f with
  | PEnqueue | KEnqueue | DActive | DDraining | DMarker | DNotifyOn | DTop _ | DTry _ _ _ | DRun _ _ _ _ | DAfter _ _ | DRelease _ => 1
  | _ => 0
  end.
Definition tokens (l : list (list Frame)) : nat := sum_list_with (sum_list_with tok) l.
#[local] Arguments tokens : simpl never.

Lemma sum_alter {A} (f : A -> nat) g (l : list A) i x : l !! i = Some x -> (sum_list_with f (alter g i l) + f x = sum_list_with f l + f (g x))%nat.
Proof.
  revert i. induction l as [|y l IH]; intros [|i] Hi; try done; cbn in *.
  - injection Hi as ->. lia.
  - pose proof (IH i Hi). change (list_alter g i l) with (alter g i l). lia.
Qed.

Lemma tokens_at i f g st (s : PQ) : threads s !! i = Some (f :: st) -> (tokens (threads (at_ i g s)) + tok f = tokens (threads s) + tok g)%nat.
Proof. intros Hi. cbn. pose proof (sum_alter (sum_list_with tok) (fun st => g :: tl st) (threads s) i _ Hi) as H. cbn in H. unfold tokens. lia. Qed.

Lemma tokens_ret i f st (s : PQ) : threads s !! i = Some (f :: st) -> (tokens (threads (ret i s)) + tok f = tokens (threads s))%nat.
Proof. intros Hi. cbn. pose proof (sum_alter (sum_list_with tok) tl (threads s) i _ Hi) as H. cbn in H. unfold tokens. lia. Qed.

Lemma tokens_call i f st (s : PQ) : threads s !! i = Some st -> tokens (threads (call i f s)) = (tokens (threads s) + tok f)%nat.
Proof. intros Hi. cbn. pose proof (sum_alter (sum_list_with tok) (fun st => f :: st) (threads s) i _ Hi) as H. cbn in H. unfold tokens. lia. Qed.

Lemma tokens_notify (s : PQ) : tokens (threads (notify_all s)) = tokens (threads s).
Proof.
  cbn. unfold tokens. induction (threads s) as [|st l IH]; [done|]. cbn. f_equal; [|done]. induction st as [|f st IHs]; [done|]. cbn. f_equal; [by destruct f | done].
Qed.

Definition token_inv (s : PQ) : Prop := active s = true -> (jobs s + tokens (threads s) = if scheduled s then 1 else 0)%nat.

Lemma go_inv (s : PQ) i c s' : exec s (Go i c) = Some s' -> exists f st, threads s !! i = Some (f :: st) /\
  (stepPost c i f s = Some s' \/ stepDrain i f s = Some s' \/ stepDestroy c i f s = Some s' \/ stepFinal i f s = Some s').
Proof.
  cbn [exec]. destruct (threads s !! i) as [[|f st]|]; cbn [mbind option_bind]; try done. intros H. exists f, st. split; [done|].
  destruct (stepPost c i f s); [left; done|]. destruct (stepDrain i f s); [right; left; done|]. destruct (stepDestroy c i f s); [right; right; left; done|]. by right; right; right.
Qed.

(** What the steps of a call do to the right. *)
Lemma token_at i f g st st0 (s s0 : PQ) : token_inv s -> threads s !! i = Some (f :: st) -> tokens (threads s0) = tokens (threads s) -> threads s0 !! i = Some (f :: st0) -> active s0 = active s ->
  (active s = true -> tok f = tok g /\ jobs s0 = jobs s /\ scheduled s0 = scheduled s \/
    scheduled s = false /\ scheduled s0 = true /\ tok g = S (tok f) /\ jobs s0 = jobs s \/
    scheduled s = true /\ scheduled s0 = false /\ tok f = S (tok g) /\ jobs s0 = jobs s \/
    scheduled s0 = scheduled s /\ tok f = S (tok g) /\ jobs s0 = S (jobs s)) -> token_inv (at_ i g s0).
Proof.
  intros Hv Hi Ht Hi0 Ha H Hact. cbn in Hact. rewrite Ha in Hact. specialize (Hv Hact). pose proof (tokens_at i f g st0 s0 Hi0) as E. rewrite Ht in E.
  change (jobs (at_ i g s0)) with (jobs s0). change (scheduled (at_ i g s0)) with (scheduled s0).
  destruct (H Hact) as [(E1 & -> & ->)|[(E1 & -> & E2 & ->)|[(E1 & -> & E2 & ->)|(-> & E2 & ->)]]]; rewrite ?E1 in Hv; destruct (scheduled s); lia.
Qed.

Lemma token_ret i f st (s s0 : PQ) : token_inv s -> threads s !! i = Some (f :: st) -> threads s0 = threads s -> active s0 = active s -> scheduled s0 = scheduled s ->
  (tok f + jobs s = jobs s0)%nat -> token_inv (ret i s0).
Proof.
  intros Hv Hi Ht Ha Hs Hj Hact. cbn in Hact. rewrite Ha in Hact. specialize (Hv Hact). rewrite <- Ht in Hi. pose proof (tokens_ret i f st s0 Hi) as E. rewrite Ht in E.
  change (jobs (ret i s0)) with (jobs s0). change (scheduled (ret i s0)) with (scheduled s0). rewrite Hs. destruct (scheduled s); lia.
Qed.

Lemma notify_lookup i f st (s : PQ) : threads s !! i = Some (f :: st) -> f <> KSleep -> exists st', threads (notify_all s) !! i = Some (f :: st').
Proof. intros Hi Hf. cbn. rewrite list_lookup_fmap, Hi. cbn. exists (wake <$> st). f_equal. f_equal. by destruct f. Qed.

Lemma sum_in {A} (f : A -> nat) (l : list A) x : x ∈ l -> (f x <= sum_list_with f l)%nat.
Proof. induction 1 as [x l|x y l _ IH]; cbn; lia. Qed.

(** Who has the right has it alone. *)
Lemma token_holder (s : PQ) i st f : token_inv s -> active s = true -> threads s !! i = Some st -> f ∈ st -> tok f = 1%nat ->
  scheduled s = true /\ jobs s = 0%nat /\ tokens (threads s) = 1%nat.
Proof.
  intros Hv Ha Hi Hf Ht. specialize (Hv Ha). pose proof (sum_in tok st f Hf) as H1.
  pose proof (sum_in (sum_list_with tok) (threads s) st (list_elem_of_lookup_2 _ _ _ Hi)) as H2. fold (tokens (threads s)) in H2.
  destruct (scheduled s); [split; [done | lia] | lia].
Qed.

Lemma token_release i st (s s0 : PQ) f g : token_inv s -> threads s !! i = Some (f :: st) -> threads s0 = threads s -> active s0 = active s -> scheduled s0 = false -> jobs s0 = jobs s ->
  tok f = 1%nat -> tok g = 0%nat -> token_inv (at_ i g s0).
Proof.
  intros Hv Hi Ht Ha Hs Hj Hf Hg. eapply (token_at i f g st st s); [done | done | by rewrite Ht | by rewrite Ht | done|]. intros Hact.
  destruct (token_holder s i (f :: st) f Hv Hact Hi) as (E & _); [by apply list_elem_of_here | done|]. right; right; left. rewrite Hf, Hg. done.
Qed.

#[local] Ltac token_step Hv Hi :=
  first
  [ exact Hv
  | intros Ha; cbn in Ha; congruence
  | eapply token_ret; [exact Hv | exact Hi | reflexivity | reflexivity | reflexivity | reflexivity]
  | eapply token_release; [exact Hv | exact Hi | reflexivity | reflexivity | reflexivity | reflexivity | reflexivity | reflexivity]
  | eapply token_at; [exact Hv | exact Hi | reflexivity | exact Hi | reflexivity |
      intros _; cbn [tok jobs scheduled set_scheduled set_jobs set_draining set_marker set_closed on_sub on_accepted on_taken takeOut];
      first [by left | by right; left | by right; right; left | by right; right; right]] ].

Lemma token_inv_exec (s : PQ) l s' : token_inv s -> exec s l = Some s' -> token_inv s'.
Proof.
  intros Hv He. destruct l as [i lb t|i|i|i c]; cbn [exec] in He.
  - unfold mayCall in He. destruct (threads s !! i) as [st|] eqn:Hi; [|done]. case_match; [|done]. injection He as <-.
    intros Ha. rewrite (tokens_call i _ st s Hi). cbn. rewrite Nat.add_0_r. by apply Hv.
  - unfold mayCall in He. destruct (threads s !! i) as [st|] eqn:Hi; [|done]. case_match; [|done]. injection He as <-.
    intros Ha. rewrite (tokens_call i _ st s Hi). cbn. rewrite Nat.add_0_r. by apply Hv.
  - destruct (threads s !! i) as [[|]|] eqn:Hi; try done. destruct (jobs s) as [|n] eqn:Hj; [done|]. injection He as <-.
    intros Ha. specialize (Hv Ha). rewrite (tokens_call i _ [] (set_jobs n s) Hi). cbn. rewrite Hj in Hv. rewrite <- Hv. lia.
  - apply go_inv in He as (f & st & Hi & [E|[E|[E|E]]]); destruct f; try done; cbn [stepPost stepDrain stepDestroy stepFinal] in E;
      unfold mbind, option_bind in E; repeat case_match; simplify_eq; try (token_step Hv Hi).
    + destruct (notify_lookup i DNotifyOn st s Hi) as [st' Hi']; [done|]. eapply token_at; [exact Hv | exact Hi | apply tokens_notify | exact Hi' | done | by left].
    + destruct (notify_lookup i DNotifyOff st s Hi) as [st' Hi']; [done|]. eapply token_at; [exact Hv | exact Hi | apply tokens_notify | exact Hi' | done | by left].
Qed.


Lemma sum_two {A} (f : A -> nat) (l : list A) i j x y : i <> j -> l !! i = Some x -> l !! j = Some y -> (f x + f y <= sum_list_with f l)%nat.
Proof.
  revert i j. induction l as [|z l IH]; intros [|i] [|j] Hne Hi Hj; try done; cbn in *.
  - injection Hi as ->. pose proof (sum_in f l y (list_elem_of_lookup_2 _ _ _ Hj)). lia.
  - injection Hj as ->. pose proof (sum_in f l x (list_elem_of_lookup_2 _ _ _ Hi)). lia.
  - pose proof (IH i j ltac:(lia) Hi Hj). lia.
Qed.

Lemma token_inv_reach cap labeled n (s : PQ) : reach (create cap labeled n) s -> token_inv s.
Proof.
  induction 1 as [|s l s' _ IH E]; [|by eapply token_inv_exec]. intros _. cbn. induction n as [|n IH]; [done|]. exact IH.
Qed.

(** C35: Tasks of a queue run one at a time: whatever threads post, drain and
    destroy, as long as the queue is not given up there is at most one call
    with the right to drain, be it a drain that takes and runs tasks, a job on
    the pool or a post that is about to make one, and there is one exactly when
    the flag scheduled is set. *)
Theorem drain_exclusive cap labeled n (s : PQ) : reach (create cap labeled n) s -> active s = true ->
  (forall i j st st' f f', threads s !! i = Some st -> threads s !! j = Some st' -> f ∈ st -> f' ∈ st' -> tok f = 1%nat -> tok f' = 1%nat -> i = j /\ f = f' /\ jobs s = 0%nat) /\
  (jobs s <= 1)%nat /\
  (scheduled s = true <-> jobs s = 1%nat \/ exists i st f, threads s !! i = Some st /\ f ∈ st /\ tok f = 1%nat).
Proof.
  intros Hr Ha. pose proof (token_inv_reach _ _ _ _ Hr) as Hv. split; [|split].
  - intros i j st st' f f' Hi Hj Hf Hf' Ht Ht'. destruct (token_holder s i st f Hv Ha Hi Hf Ht) as (_ & Hj0 & H1).
    pose proof (sum_in tok st f Hf). pose proof (sum_in tok st' f' Hf'). destruct (decide (i = j)) as [<-|Hne].
    + split; [done|]. split; [|done]. assert (st' = st) as -> by congruence. apply list_elem_of_lookup in Hf as [a Hfa]. apply list_elem_of_lookup in Hf' as [b Hfb].
      destruct (decide (a = b)) as [->|Hab]; [congruence|]. pose proof (sum_two tok st a b f f' Hab Hfa Hfb).
      pose proof (sum_in (sum_list_with tok) (threads s) st (list_elem_of_lookup_2 _ _ _ Hi)). fold (tokens (threads s)) in *. lia.
    + pose proof (sum_two (sum_list_with tok) (threads s) i j st st' Hne Hi Hj). fold (tokens (threads s)) in *. lia.
  - specialize (Hv Ha). destruct (scheduled s); lia.
  - split.
    + intros Hs. specialize (Hv Ha). rewrite Hs in Hv. destruct (decide (jobs s = 1%nat)) as [|Hj]; [by left|]. right.
      assert (Ht : tokens (threads s) = 1%nat) by lia. clear -Ht. unfold tokens in Ht. revert Ht. generalize (threads s). intros l. induction l as [|st l IH]; cbn; [done|]. intros Ht.
      destruct (sum_list_with tok st) as [|k] eqn:Es.
      * destruct (IH Ht) as (i & st' & f & Hi & H). exists (S i), st', f. done.
      * exists 0%nat, st. assert (exists f, f ∈ st /\ tok f = 1%nat) as (f & H); [|by exists f].
        clear -Es. revert k Es. induction st as [|g st IH]; intros k; cbn; [done|]. destruct (tok g) as [|m] eqn:Eg.
        -- intros Es. destruct (IH k Es) as (f & Hf & Ht). exists f. split; [by right | done].
        -- intros _. exists g. split; [by left|]. rewrite Eg. destruct g; cbn in Eg; lia.
    + intros [Hj|(i & st & f & Hi & Hf & Ht)]; [|by destruct (token_holder s i st f Hv Ha Hi Hf Ht)]. specialize (Hv Ha). destruct (scheduled s); [done | lia].
Qed.

(** ** No task is lost *)

Definition has (s : PQ) (f : Frame) : Prop := exists i st, threads s !! i = Some st /\ f ∈ st.

Lemma has_at i f g st (s : PQ) x : threads s !! i = Some (f :: st) -> has (at_ i g s) x -> x = g \/ has s x.
Proof.
  intros Hi (j & sj & Hj & Hx). cbn in Hj. destruct (decide (j = i)) as [->|].
  - rewrite list_lookup_alter_eq, Hi in Hj. injection Hj as <-. cbn in Hx. apply elem_of_cons in Hx as [->|Hx]; [by left|]. right. exists i, (f :: st). split; [done|]. by right.
  - rewrite list_lookup_alter_ne in Hj by done. right. by exists j, sj.
Qed.

Lemma has_kept i f g st (s : PQ) x : threads s !! i = Some (f :: st) -> has s x -> x = f \/ has (at_ i g s) x.
Proof.
  intros Hi (j & sj & Hj & Hx). destruct (decide (j = i)) as [->|].
  - rewrite Hi in Hj. injection Hj as <-. apply elem_of_cons in Hx as [->|Hx]; [by left|]. right. exists i, (g :: st). cbn. rewrite list_lookup_alter_eq, Hi. split; [done|]. by right.
  - right. exists j, sj. cbn. by rewrite list_lookup_alter_ne.
Qed.

Lemma has_new i f g st (s : PQ) : threads s !! i = Some (f :: st) -> has (at_ i g s) g.
Proof. intros Hi. exists i, (g :: st). cbn. rewrite list_lookup_alter_eq, Hi. split; [done|]. by left. Qed.

Lemma has_ret i f st (s : PQ) x : threads s !! i = Some (f :: st) -> has (ret i s) x -> has s x.
Proof.
  intros Hi (j & sj & Hj & Hx). cbn in Hj. destruct (decide (j = i)) as [->|].
  - rewrite list_lookup_alter_eq, Hi in Hj. injection Hj as <-. exists i, (f :: st). split; [done|]. by right.
  - rewrite list_lookup_alter_ne in Hj by done. by exists j, sj.
Qed.

Lemma has_ret_kept i f st (s : PQ) x : threads s !! i = Some (f :: st) -> has s x -> x = f \/ has (ret i s) x.
Proof.
  intros Hi (j & sj & Hj & Hx). destruct (decide (j = i)) as [->|].
  - rewrite Hi in Hj. injection Hj as <-. apply elem_of_cons in Hx as [->|Hx]; [by left|]. right. exists i, st. cbn. by rewrite list_lookup_alter_eq, Hi.
  - right. exists j, sj. cbn. by rewrite list_lookup_alter_ne.
Qed.

Lemma has_call i g st (s : PQ) x : threads s !! i = Some st -> (has (call i g s) x <-> x = g \/ has s x).
Proof.
  intros Hi. split.
  - intros (j & sj & Hj & Hx). cbn in Hj. destruct (decide (j = i)) as [->|].
    + rewrite list_lookup_alter_eq, Hi in Hj. injection Hj as <-. apply elem_of_cons in Hx as [->|Hx]; [by left|]. right. by exists i, st.
    + rewrite list_lookup_alter_ne in Hj by done. right. by exists j, sj.
  - intros [->|(j & sj & Hj & Hx)]; [exists i, (g :: st); cbn; rewrite list_lookup_alter_eq, Hi; split; [done | by left]|].
    destruct (decide (j = i)) as [->|]; [|exists j, sj; cbn; by rewrite list_lookup_alter_ne].
    exists i, (g :: st). cbn. rewrite list_lookup_alter_eq, Hi. split; [done|]. right. congruence.
Qed.

Lemma has_notify (s : PQ) x : has (notify_all s) x <-> exists y, has s y /\ x = wake y.
Proof.
  split.
  - intros (j & sj & Hj & Hx). cbn in Hj. rewrite list_lookup_fmap in Hj. destruct (threads s !! j) as [st|] eqn:E; [|done]. injection Hj as <-.
    apply list_elem_of_fmap in Hx as (y & -> & Hy). exists y. split; [by exists j, st | done].
  - intros (y & (j & st & Hj & Hy) & ->). exists j, (wake <$> st). cbn. rewrite list_lookup_fmap, Hj. split; [done|]. by apply list_elem_of_fmap_2.
Qed.

(** The places of calls that only a queue that was closed has. *)
Definition late (f : Frame) : bool :=
  match f with
  | DTry false _ _ | DRun false _ _ _ | DAfter false _ | DDiscard _ | KMarker | KDefer | KPending _ | KExchange | KEnqueue | KCheck | KCheck2 | KGoSleep | KSleep | KDiscard _ | XFinal => true
  | _ => false
  end.

(** Who will see to it that a first task of sub-queue [j] is drained. *)
Definition notices (j : nat) (f : Frame) : bool :=
  match f with PExchange | DClosed _ | DCas _ => true | DPending _ k => (k <=? j)%nat | _ => false end.

Definition noticed (s : PQ) (j : nat) : Prop := scheduled s = true \/ exists f, has s f /\ notices j f = true.

Record open_inv (s : PQ) : Prop := mkOpen {
  oi_len : length (accepted s) = length (sub s) /\ length (taken s) = length (sub s) /\ (0 < length (sub s))%nat;
  oi_order : forall j q a k, sub s !! j = Some q -> accepted s !! j = Some a -> taken s !! j = Some k -> a = k.*1 ++ q.*1;
  oi_run : forall j k, taken s !! j = Some k -> Forall (fun x => x.2 = true) k;
  oi_late : forall f, has s f -> late f = false;
  oi_defer : deferDestroy s = false;
  oi_owner : forall j q t i, sub s !! j = Some q -> (t, Some i) ∈ q -> exists st, threads s !! i = Some (PPublish j :: st);
  oi_notice : forall j q, sub s !! j = Some q -> ready q = true -> noticed s j }.

(** A step that leaves the sub-queues alone. *)
Lemma open_move (s s' : PQ) : open_inv s -> sub s' = sub s -> accepted s' = accepted s -> taken s' = taken s -> deferDestroy s' = deferDestroy s ->
  (forall f, has s' f -> late f = false) ->
  (forall i j st, threads s !! i = Some (PPublish j :: st) -> exists st', threads s' !! i = Some (PPublish j :: st')) ->
  (forall j q, sub s !! j = Some q -> ready q = true -> noticed s j -> noticed s' j) -> open_inv s'.
Proof.
  intros [H1 H2 H3 H4 H5 H6 H7] Es Ea Ek Ed Hl Hp Hn. constructor; rewrite ?Es, ?Ea, ?Ek, ?Ed; try done.
  - intros j q t i Hq Ht. destruct (H6 j q t i Hq Ht) as [st Hst]. by eapply Hp.
  - intros j q Hq Hr. by eapply Hn; [| |apply (H7 j q)].
Qed.

(** Such a step of the call on top of thread [i]. *)
Lemma open_at i f g st (s s0 : PQ) : open_inv s -> threads s !! i = Some (f :: st) -> threads s0 = threads s -> sub s0 = sub s -> accepted s0 = accepted s -> taken s0 = taken s ->
  deferDestroy s0 = deferDestroy s -> late g = false -> (forall j, f <> PPublish j) ->
  (forall j q, sub s !! j = Some q -> ready q = true -> scheduled s = true \/ notices j f = true -> scheduled s0 = true \/ notices j g = true) -> open_inv (at_ i g s0).
Proof.
  intros Ho Hi Ht Es Ea Ek Ed Hg Hf Hn. pose proof Hi as Hi0. rewrite <- Ht in Hi0.
  assert (Hh : forall x, has s0 x <-> has s x) by (intros x; unfold has; by rewrite Ht).
  apply (open_move s); try done.
  - intros x Hx. destruct (has_at i f g st s0 x Hi0 Hx) as [->|Hx']; [done|]. apply (oi_late s Ho). by apply Hh.
  - intros k j st' Hk. destruct (decide (k = i)) as [->|]; [rewrite Hi in Hk; injection Hk as ->; by destruct (Hf j)|].
    exists st'. cbn. rewrite list_lookup_alter_ne by done. by rewrite Ht.
  - intros j q Hq Hr [Hs|(x & Hx & Hxn)].
    + destruct (Hn j q Hq Hr (or_introl Hs)) as [|Hg']; [by left|]. right. exists g. split; [by apply (has_new i f g st) | done].
    + destruct (has_kept i f g st s0 x Hi0) as [->|Hx']; [by apply Hh| |by right; exists x].
      destruct (Hn j q Hq Hr (or_intror Hxn)) as [|Hg']; [by left|]. right. exists g. split; [by apply (has_new i f g st) | done].
Qed.

Lemma open_ret i f st (s s0 : PQ) : open_inv s -> threads s !! i = Some (f :: st) -> threads s0 = threads s -> sub s0 = sub s -> accepted s0 = accepted s -> taken s0 = taken s ->
  deferDestroy s0 = deferDestroy s -> scheduled s0 = scheduled s -> (forall j, f <> PPublish j) -> (forall j, notices j f = true -> scheduled s = true) -> open_inv (ret i s0).
Proof.
  intros Ho Hi Ht Es Ea Ek Ed Hs Hf Hn. pose proof Hi as Hi0. rewrite <- Ht in Hi0.
  assert (Hh : forall x, has s0 x <-> has s x) by (intros x; unfold has; by rewrite Ht).
  apply (open_move s); try done.
  - intros x Hx. apply (oi_late s Ho), Hh. by eapply has_ret.
  - intros k j st' Hk. destruct (decide (k = i)) as [->|]; [rewrite Hi in Hk; injection Hk as ->; by destruct (Hf j)|].
    exists st'. cbn. rewrite list_lookup_alter_ne by done. by rewrite Ht.
  - intros j q Hq Hr [E|(x & Hx & Hxn)]; [left; cbn; congruence|].
    destruct (has_ret_kept i f st s0 x Hi0) as [->|Hx']; [by apply Hh| left; cbn; rewrite Hs; by apply (Hn j) |by right; exists x].
Qed.

Lemma open_call i g st (s s0 : PQ) : open_inv s -> threads s !! i = Some st -> threads s0 = threads s -> sub s0 = sub s -> accepted s0 = accepted s -> taken s0 = taken s ->
  deferDestroy s0 = deferDestroy s -> scheduled s0 = scheduled s -> late g = false -> (forall j st', st <> PPublish j :: st') -> open_inv (call i g s0).
Proof.
  intros Ho Hi Ht Es Ea Ek Ed Hs Hg Hf. pose proof Hi as Hi0. rewrite <- Ht in Hi0.
  assert (Hh : forall x, has s0 x <-> has s x) by (intros x; unfold has; by rewrite Ht).
  apply (open_move s); try done.
  - intros x Hx. apply (has_call i g st s0 x Hi0) in Hx as [->|Hx]; [done|]. by apply (oi_late s Ho), Hh.
  - intros k j st' Hk. destruct (decide (k = i)) as [->|]; [rewrite Hi in Hk; injection Hk as ->; by destruct (Hf j st')|].
    exists st'. cbn. rewrite list_lookup_alter_ne by done. by rewrite Ht.
  - intros j q Hq Hr [E|(x & Hx & Hxn)]; [left; cbn; congruence|]. right. exists x. split; [|done]. apply (has_call i g st s0 x Hi0). right. by apply Hh.
Qed.

Lemma open_notify (s : PQ) : open_inv s -> open_inv (notify_all s).
Proof.
  intros Ho. apply (open_move s); try done.
  - intros x (y & Hy & ->)%has_notify. pose proof (oi_late s Ho y Hy). by destruct y.
  - intros i j st Hi. cbn. rewrite list_lookup_fmap, Hi. cbn. by eexists.
  - intros j q Hq Hr [E|(x & Hx & Hxn)]; [by left|]. right. exists x. split; [|done]. apply has_notify. exists x. split; [done | by destruct x].
Qed.

Lemma alter_cases {A} (f : A -> A) (l : list A) j k x : alter f j l !! k = Some x -> exists y, l !! k = Some y /\ (k = j /\ x = f y \/ k <> j /\ x = y).
Proof.
  destruct (decide (k = j)) as [->|]; [rewrite list_lookup_alter_eq | rewrite list_lookup_alter_ne by done; intros H; exists x; by auto].
  destruct (l !! j) as [y|]; [|done]. intros [= <-]. exists y. by auto.
Qed.

(** A thread reserves a place. *)
Lemma open_reserve i j t st (s : PQ) : open_inv s -> threads s !! i = Some (PReserve j t :: st) -> is_Some (sub s !! j) ->
  open_inv (at_ i (PPublish j) (on_accepted (alter (fun l => l ++ [t]) j) (on_sub (alter (fun q => q ++ [(t, Some i)]) j) s))).
Proof.
  intros Ho Hi Hj. pose proof Ho as [(H1a & H1b & H1c) H2 H3 H4 H5 H6 H7]. set (s0 := on_accepted _ _). assert (Hi0 : threads s0 !! i = Some (PReserve j t :: st)) by done.
  assert (Hn : forall k, noticed s k -> noticed (at_ i (PPublish j) s0) k).
  { intros k [E|(x & Hx & Hxn)]; [by left|]. destruct (has_kept i _ (PPublish j) st s0 x Hi0 Hx) as [->|]; [done|]. right. by exists x. }
  constructor.
  - cbn. by rewrite !length_alter.
  - cbn. intros k q a m Hq Ha Hm. apply alter_cases in Hq as (q0 & Hq & [[-> ->]|[Hne ->]]); apply alter_cases in Ha as (a0 & Ha & [[E ->]|[Hne' ->]]); try done.
    + rewrite (H2 _ _ _ _ Hq Ha Hm), fmap_app. by rewrite app_assoc.
    + by apply (H2 k).
  - done.
  - intros x Hx. destruct (has_at i _ (PPublish j) st s0 x Hi0 Hx) as [->|Hx']; [done | by apply H4].
  - done.
  - cbn. intros k q t' i' Hq Ht. apply alter_cases in Hq as (q0 & Hq & Hcase).
    assert (Hold : (t', Some i') ∈ q0 -> exists st', alter (fun st => PPublish j :: tl st) i (threads s) !! i' = Some (PPublish k :: st')).
    { intros Hin. destruct (H6 k q0 t' i' Hq Hin) as [st' Hst']. destruct (decide (i' = i)) as [->|]; [congruence|]. exists st'. by rewrite list_lookup_alter_ne. }
    destruct Hcase as [[-> ->]|[Hne ->]]; [|by apply Hold]. apply elem_of_app in Ht as [Ht|Ht]; [by apply Hold|].
    apply list_elem_of_singleton in Ht as [= -> ->]. exists st. by rewrite list_lookup_alter_eq, Hi.
  - cbn. intros k q Hq Hr. apply alter_cases in Hq as (q0 & Hq & Hcase). apply Hn. apply (H7 k q0 Hq).
    destruct Hcase as [[-> ->]|[Hne ->]]; [|done]. by destruct q0 as [|[]].
Qed.

(** It publishes its task. *)
Lemma open_publish i j st (s : PQ) : open_inv s -> threads s !! i = Some (PPublish j :: st) ->
  open_inv (at_ i PExchange (on_sub (alter (fmap (fun e => if decide (e.2 = Some i) then (e.1, None) else e)) j) s)).
Proof.
  intros Ho Hi. pose proof Ho as [(H1a & H1b & H1c) H2 H3 H4 H5 H6 H7]. set (s0 := on_sub _ _). assert (Hi0 : threads s0 !! i = Some (PPublish j :: st)) by done.
  constructor.
  - cbn. by rewrite !length_alter.
  - cbn. intros k q a m Hq Ha Hm. apply alter_cases in Hq as (q0 & Hq & [[-> ->]|[Hne ->]]); [|by apply (H2 k)].
    rewrite (H2 _ _ _ _ Hq Ha Hm). f_equal. rewrite <- list_fmap_compose. apply list_fmap_ext. intros n [t o] _. cbn. by case_decide.
  - done.
  - intros x Hx. destruct (has_at i _ PExchange st s0 x Hi0 Hx) as [->|Hx']; [done | by apply H4].
  - done.
  - cbn. intros k q t i' Hq Ht. apply alter_cases in Hq as (q0 & Hq & Hcase).
    assert (Hne : i' <> i -> (t, Some i') ∈ q0 -> exists st', alter (fun st => PExchange :: tl st) i (threads s) !! i' = Some (PPublish k :: st')).
    { intros Hne Hin. destruct (H6 k q0 t i' Hq Hin) as [st' Hst']. exists st'. by rewrite list_lookup_alter_ne. }
    destruct Hcase as [[-> ->]|[Hk ->]].
    + apply list_elem_of_fmap in Ht as ([t0 o] & E & Hin). cbn in E. case_decide as Hd; [done|]. simplify_eq. apply Hne; [congruence | done].
    + apply Hne; [|done]. intros ->. destruct (H6 k q0 t i Hq Ht) as [st' Hst']. rewrite Hi in Hst'. by injection Hst' as -> _.
  - intros k q Hq Hr. right. exists PExchange. split; [|done]. by apply (has_new i (PPublish j) PExchange st).
Qed.

(** The drain takes a task. *)
Lemma open_take i j t q rr rr' l st (s : PQ) : open_inv s -> scheduled s = true -> threads s !! i = Some (DTry true rr (j :: l) :: st) -> sub s !! j = Some ((t, None) :: q) ->
  open_inv (at_ i (DRun true rr' j t) (takeOut j true t s)).
Proof.
  intros Ho Hs Hi Hj. pose proof Ho as [(H1a & H1b & H1c) H2 H3 H4 H5 H6 H7]. set (s0 := takeOut _ _ _ _). assert (Hi0 : threads s0 !! i = Some (DTry true rr (j :: l) :: st)) by done.
  constructor.
  - cbn. by rewrite !length_alter.
  - cbn. intros k q1 a m Hq Ha Hm. apply alter_cases in Hq as (q0 & Hq & [[-> ->]|[Hne ->]]); apply alter_cases in Hm as (m0 & Hm & [[E ->]|[Hne' ->]]); try done.
    + rewrite (H2 _ _ _ _ Hq Ha Hm). assert (q0 = (t, None) :: q) as -> by congruence. rewrite fmap_app. cbn. by rewrite <- app_assoc.
    + by apply (H2 k).
  - cbn. intros k m Hm. apply alter_cases in Hm as (m0 & Hm & [[-> ->]|[Hne ->]]); [|by apply (H3 k)]. apply Forall_app. split; [by apply (H3 j) | by apply Forall_singleton].
  - intros x Hx. destruct (has_at i _ (DRun true rr' j t) st s0 x Hi0 Hx) as [->|Hx']; [done | by apply H4].
  - done.
  - cbn. intros k q1 t' i' Hq Ht. apply alter_cases in Hq as (q0 & Hq & Hcase).
    assert (Hin : (t', Some i') ∈ q0) by (destruct Hcase as [[-> ->]|[_ ->]]; [|done]; destruct q0; [done | by right]).
    destruct (H6 k q0 t' i' Hq Hin) as [st' Hst']. destruct (decide (i' = i)) as [->|]; [congruence|]. exists st'. by rewrite list_lookup_alter_ne.
  - intros k q1 Hq Hr. by left.
Qed.

Definition open (s : PQ) : Prop := active s = true /\ closed s = false.

Lemma exec_open (s : PQ) l s' : exec s l = Some s' -> open s' -> open s.
Proof.
  intros He [Ha Hc]. destruct l as [i lb t|i|i|i c]; cbn [exec] in He.
  - case_match; [|done]. by injection He as <-.
  - case_match; [|done]. by injection He as <-.
  - repeat case_match; try done. by injection He as <-.
  - apply go_inv in He as (f & st & Hi & [E|[E|[E|E]]]); destruct f; try done; cbn [stepPost stepDrain stepDestroy stepFinal] in E;
      unfold mbind, option_bind in E; repeat case_match; simplify_eq; (done || (split; cbn in *; congruence)).
Qed.

#[local] Ltac open_step Ho Hi :=
  first
  [ eapply open_ret; [exact Ho | exact Hi | reflexivity | reflexivity | reflexivity | reflexivity | reflexivity | reflexivity | done | cbn; congruence]
  | eapply open_at; [exact Ho | exact Hi | reflexivity | reflexivity | reflexivity | reflexivity | reflexivity | reflexivity | done |
      intros; cbn [scheduled set_scheduled set_draining set_marker set_jobs set_closed notices] in *; intuition congruence] ].

Lemma open_post (s : PQ) i c f st s' : open_inv s -> threads s !! i = Some (f :: st) -> stepPost c i f s = Some s' -> open_inv s'.
Proof.
  intros Ho Hi E. destruct f; try done; cbn [stepPost] in E.
  - destruct (active s); injection E as <-; open_step Ho Hi.
  - repeat case_match; injection E as <-; open_step Ho Hi.
  - destruct (sub s !! j) as [q|] eqn:Hj; [|done]. cbn [mbind option_bind] in E. destruct (capacities s !! j) as [cap|]; [|done]. cbn [mbind option_bind] in E.
    case_match; injection E as <-; [|open_step Ho Hi]. by eapply open_reserve.
  - injection E as <-. by eapply open_publish.
  - destruct (scheduled s) eqn:Hs; injection E as <-; open_step Ho Hi.
  - injection E as <-. open_step Ho Hi.
Qed.

Lemma open_drain (s : PQ) i f st s' : token_inv s -> open s -> open_inv s -> threads s !! i = Some (f :: st) -> stepDrain i f s = Some s' -> open_inv s'.
Proof.
  intros Hv [Ha Hc] Ho Hi E. assert (Hhas : has s f) by (exists i, (f :: st); split; [done | by left]). pose proof (oi_late s Ho f Hhas) as Hl.
  assert (Htok : tok f = 1%nat -> scheduled s = true) by (intros Ht; by destruct (token_holder s i (f :: st) f Hv Ha Hi (list_elem_of_here _ _) Ht)).
  destruct f; try done; cbn [stepDrain] in E; try (specialize (Htok eq_refl)).
  - rewrite Ha in E. injection E as <-. open_step Ho Hi.
  - injection E as <-. open_step Ho Hi.
  - injection E as <-. open_step Ho Hi.
  - injection E as <-. destruct (notify_lookup i DNotifyOn st s Hi) as [st' Hi']; [done|]. pose proof (open_notify s Ho) as Ho'. open_step Ho' Hi'.
  - injection E as <-. rewrite Hc. cbn [negb]. open_step Ho Hi.
  - destruct run; [|done]. destruct l as [|j l]; [injection E as <-; open_step Ho Hi|]. injection E as <-.
    destruct (sub s !! j) as [[|[t [o|]] q]|] eqn:Hj; [open_step Ho Hi | open_step Ho Hi | | open_step Ho Hi]. by eapply open_take.
  - destruct run; [|done]. injection E as <-. open_step Ho Hi.
  - destruct run; [|done]. rewrite Hc in E. injection E as <-. open_step Ho Hi.
  - injection E as <-. open_step Ho Hi.
  - rewrite Hc in E. injection E as <-. open_step Ho Hi.
  - destruct (sub s !! i0) as [q|] eqn:Hj.
    + injection E as <-. destruct (ready q) eqn:Hr; [open_step Ho Hi|]. eapply open_at; [exact Ho | exact Hi | reflexivity.. | done|].
      intros j q' Hq Hr' [|Hn]; [by left|]. right. cbn [notices] in *. assert (j <> i0) by congruence. apply Nat.leb_le in Hn. apply Nat.leb_le. lia.
    + injection E as <-. eapply open_at; [exact Ho | exact Hi | reflexivity.. | done|].
      intros j q' Hq Hr' [|Hn]; [by left|]. cbn [notices] in Hn. apply Nat.leb_le in Hn. apply lookup_ge_None in Hj. apply lookup_lt_Some in Hq. lia.
  - destruct (scheduled s) eqn:Hs; injection E as <-; open_step Ho Hi.
  - injection E as <-. open_step Ho Hi.
  - injection E as <-. open_step Ho Hi.
  - injection E as <-. destruct (notify_lookup i DNotifyOff st s Hi) as [st' Hi']; [done|]. pose proof (open_notify s Ho) as Ho'. open_step Ho' Hi'.
  - rewrite (oi_defer s Ho) in E. injection E as <-. open_step Ho Hi.
Qed.

Lemma open_inv_exec (s : PQ) l s' : token_inv s -> (open s -> open_inv s) -> exec s l = Some s' -> open s' -> open_inv s'.
Proof.
  intros Hv Ho He Hop. pose proof (exec_open s l s' He Hop) as Hop'. specialize (Ho Hop'). destruct l as [i lb t|i|i|i c].
  - cbn [exec] in He. unfold mayCall in He. destruct (threads s !! i) as [st|] eqn:Hi; [|done]. case_match eqn:Hm; [|done]. injection He as <-.
    eapply open_call; try done. intros j st' ->. done.
  - cbn [exec] in He. unfold mayCall in He. destruct (threads s !! i) as [st|] eqn:Hi; [|done]. case_match eqn:Hm; [|done]. injection He as <-.
    eapply open_call; try done. intros j st' ->. done.
  - cbn [exec] in He. destruct (threads s !! i) as [[|]|] eqn:Hi; try done. destruct (jobs s) as [|n]; [done|]. injection He as <-. by eapply (open_call i DActive [] s (set_jobs n s)).
  - apply go_inv in He as (f & st & Hi & [E|[E|[E|E]]]); [by eapply open_post | by eapply open_drain | |].
    + assert (Hhas : has s f) by (exists i, (f :: st); split; [done | by left]). pose proof (oi_late s Ho f Hhas) as Hl.
      destruct f; try done; cbn [stepDestroy] in E.
      * destruct (active s); injection E as <-; open_step Ho Hi.
      * injection E as <-. by destruct Hop.
    + assert (Hhas : has s f) by (exists i, (f :: st); split; [done | by left]). pose proof (oi_late s Ho f Hhas) as Hl. by destruct f.
Qed.

Lemma open_inv_create cap labeled n : open_inv (create (Task := Task) cap labeled n).
Proof.
  assert (Hno : forall f, ~ has (create (Task := Task) cap labeled n) f).
  { intros f (i & st & Hi & Hf). cbn in Hi. apply lookup_replicate in Hi as [-> _]. by apply elem_of_nil in Hf. }
  constructor; try done; cbn [create sub accepted taken].
  - rewrite !length_replicate. lia.
  - intros j q a k Hq Ha Hk. apply lookup_replicate in Hq as [-> _]. apply lookup_replicate in Ha as [-> _]. by apply lookup_replicate in Hk as [-> _].
  - intros j k Hk. by apply lookup_replicate in Hk as [-> _].
  - intros f Hf. by destruct (Hno f).
  - intros j q t i Hq Ht. apply lookup_replicate in Hq as [-> _]. by apply elem_of_nil in Ht.
  - intros j q Hq Hr. by apply lookup_replicate in Hq as [-> _].
Qed.

Lemma open_inv_reach cap labeled n (s : PQ) : reach (create cap labeled n) s -> open s -> open_inv s.
Proof.
  induction 1 as [|s l s' Hr IH E]; intros Ho; [by apply open_inv_create|]. eapply open_inv_exec; [by eapply token_inv_reach | exact IH | exact E | done].
Qed.

(** C36: No task is lost. While a queue is not destroyed, of what was posted to a
    sub-queue a first part was taken out and run, in the order in which it was
    posted, and the rest waits; and when no call is under way and no drain waits
    in the pool, nothing waits: every task that a post accepted has run. *)
Theorem posted_tasks_run cap labeled n (s : PQ) : reach (create cap labeled n) s -> open s ->
  (forall j q a k, sub s !! j = Some q -> accepted s !! j = Some a -> taken s !! j = Some k -> a = k.*1 ++ q.*1 /\ Forall (fun x => x.2 = true) k) /\
  ((forall i st, threads s !! i = Some st -> st = []) -> jobs s = 0%nat ->
    scheduled s = false /\ forall j a k, accepted s !! j = Some a -> taken s !! j = Some k -> k.*1 = a).
Proof.
  intros Hr Ho. pose proof (open_inv_reach _ _ _ _ Hr Ho) as [(H1a & H1b & H1c) H2 H3 H4 H5 H6 H7]. split; [intros j q a k Hq Ha Hk; split; [by apply (H2 j) | by apply (H3 j)]|].
  intros Hidle Hj. assert (Hno : forall f, ~ has s f) by (intros f (i & st & Hi & Hf); rewrite (Hidle i st Hi) in Hf; by apply elem_of_nil in Hf).
  assert (Hs : scheduled s = false).
  { destruct (scheduled s) eqn:E; [|done]. apply (drain_exclusive cap labeled n s Hr (proj1 Ho)) in E as [E|(i & st & f & Hi & Hf & _)]; [lia|]. by destruct (Hno f); exists i, st. }
  split; [done|]. intros j a k Ha Hk. pose proof (lookup_lt_Some _ _ _ Ha) as Hlt. rewrite H1a in Hlt. apply lookup_lt_is_Some in Hlt as [q Hq].
  rewrite (H2 j q a k Hq Ha Hk). destruct q as [|[t [i|]] q]; [by rewrite app_nil_r| |].
  - destruct (H6 j _ t i Hq (list_elem_of_here _ _)) as [st Hi]. by specialize (Hidle i _ Hi).
  - destruct (H7 j _ Hq eq_refl) as [E|(f & Hf & _)]; [congruence | by destruct (Hno f)].
Qed.

(** ** A task that destroys its queue *)

(** The places of a destroy that waits for the drain. *)
Definition waits (f : Frame) : bool := match f with KCheck | KCheck2 | KGoSleep | KSleep => true | _ => false end.
(** The places of other calls that could end the wait. *)
Definition ends (f : Frame) : bool := match f with KDefer | KDiscard _ | XFinal => true | _ => false end.

(** Thread [i] runs a task that waits for its own drain to end. *)
Record stuck (i : nat) (s : PQ) : Prop := mkStuck {
  st_token : token_inv s;
  st_active : active s = true;
  st_stack : exists k rr j t st, threads s !! i = Some (k :: DRun true rr j t :: st) /\ waits k = true;
  st_marker : drainThreadMarker s = None;
  st_defer : deferDestroy s = false;
  st_others : forall f, has s f -> ends f = false }.

Lemma stuck_alone i (s : PQ) : stuck i s -> scheduled s = true /\ jobs s = 0%nat /\ forall i' st' f, threads s !! i' = Some st' -> f ∈ st' -> tok f = 1%nat -> i' = i.
Proof.
  intros [Hv Ha (k & rr & j & t & st & Hi & Hk) Hm Hd Ho].
  destruct (token_holder s i _ (DRun true rr j t) Hv Ha Hi) as (Hs & Hj & H1); [right; by left | done|]. split; [done|]. split; [done|].
  intros i' st' f Hi' Hf Hf1. destruct (decide (i' = i)) as [|Hne]; [done|]. exfalso.
  pose proof (sum_two (sum_list_with tok) (threads s) i' i _ _ Hne Hi' Hi) as H2. fold (tokens (threads s)) in H2. pose proof (sum_in tok st' f Hf). cbn in H2.
  lia.
Qed.

(** The stack of thread [i] stays when another thread moves. *)
Lemma stack_other i i' (g : list Frame -> list Frame) (s : PQ) x : i' <> i -> threads s !! i = Some x -> alter g i' (threads s) !! i = Some x.
Proof. intros Hne Hi. by rewrite list_lookup_alter_ne. Qed.

Lemma stuck_at i i' f g st (s s0 : PQ) : stuck i s -> threads s !! i' = Some (f :: st) -> threads s0 = threads s -> token_inv (at_ i' g s0) -> active s0 = active s ->
  drainThreadMarker s0 = None -> deferDestroy s0 = false -> ends g = false -> (i' = i -> waits g = true) -> stuck i (at_ i' g s0).
Proof.
  intros [Hv Ha (k & rr & j & t & st0 & Hi & Hk) Hm Hd Ho] Hi' Ht Hv' Ha' Hm' Hd' Hg Hw. pose proof Hi' as Hi0. rewrite <- Ht in Hi0. constructor; try done.
  - cbn. congruence.
  - destruct (decide (i' = i)) as [->|Hne].
    + exists g, rr, j, t, st0. split; [|by apply Hw]. cbn. rewrite list_lookup_alter_eq, Ht, Hi. done.
    + exists k, rr, j, t, st0. split; [|done]. cbn. rewrite Ht. by apply stack_other.
  - intros x Hx. destruct (has_at i' f g st s0 x Hi0 Hx) as [->|Hx']; [done|]. apply Ho. unfold has in *. by rewrite <- Ht.
Qed.

Lemma stuck_ret i i' f st (s s0 : PQ) : stuck i s -> threads s !! i' = Some (f :: st) -> threads s0 = threads s -> token_inv (ret i' s0) -> active s0 = active s ->
  drainThreadMarker s0 = None -> deferDestroy s0 = false -> i' <> i -> stuck i (ret i' s0).
Proof.
  intros [Hv Ha (k & rr & j & t & st0 & Hi & Hk) Hm Hd Ho] Hi' Ht Hv' Ha' Hm' Hd' Hne. pose proof Hi' as Hi0. rewrite <- Ht in Hi0. constructor; try done.
  - cbn. congruence.
  - exists k, rr, j, t, st0. split; [|done]. cbn. rewrite Ht. by apply stack_other.
  - intros x Hx. apply Ho. apply (has_ret i' f st s0 x Hi0) in Hx. unfold has in *. by rewrite <- Ht.
Qed.

Lemma stuck_call i i' g st (s : PQ) : stuck i s -> threads s !! i' = Some st -> token_inv (call i' g s) -> ends g = false -> i' <> i -> stuck i (call i' g s).
Proof.
  intros [Hv Ha (k & rr & j & t & st0 & Hi & Hk) Hm Hd Ho] Hi' Hv' Hg Hne. constructor; try done.
  - exists k, rr, j, t, st0. split; [|done]. cbn. by apply stack_other.
  - intros x Hx. apply (has_call i' g st s x Hi') in Hx as [->|Hx]; [done | by apply Ho].
Qed.

Lemma stuck_notify i (s : PQ) : stuck i s -> stuck i (notify_all s).
Proof.
  intros [Hv Ha (k & rr & j & t & st0 & Hi & Hk) Hm Hd Ho]. constructor; try done.
  - intros _. rewrite tokens_notify. by apply Hv.
  - exists (wake k), rr, j, t, (wake <$> st0). split; [cbn; by rewrite list_lookup_fmap, Hi | by destruct k].
  - intros x (y & Hy & ->)%has_notify. specialize (Ho y Hy). by destruct y.
Qed.

Lemma stuck_exec i (s : PQ) l s' : stuck i s -> exec s l = Some s' -> stuck i s'.
Proof.
  intros Hst He. pose proof (token_inv_exec s l s' (st_token i s Hst) He) as Hv'. destruct (stuck_alone i s Hst) as (Hs & Hj & Halone).
  pose proof Hst as [Hv Ha (k & rr & j & t & st0 & Hi & Hk) Hm Hd Ho]. destruct l as [i' lb t'|i'|i'|i' c].
  - cbn [exec] in He. unfold mayCall in He. destruct (threads s !! i') as [st|] eqn:Hi'; [|done]. case_match eqn:Hmay; [|done]. injection He as <-.
    eapply stuck_call; try done. intros ->. rewrite Hi in Hi'. injection Hi' as <-. by destruct k.
  - cbn [exec] in He. unfold mayCall in He. destruct (threads s !! i') as [st|] eqn:Hi'; [|done]. case_match eqn:Hmay; [|done]. injection He as <-.
    eapply stuck_call; try done. intros ->. rewrite Hi in Hi'. injection Hi' as <-. by destruct k.
  - cbn [exec] in He. rewrite Hj in He. by repeat case_match.
  - apply go_inv in He as (f & st & Hi' & E). assert (Hhas : has s f) by (exists i', (f :: st); split; [done | by left]). pose proof (Ho f Hhas) as Hends.
    destruct (decide (i' = i)) as [->|Hne].
    + rewrite Hi in Hi'. injection Hi' as <- <-. destruct E as [E|[E|[E|E]]]; destruct k; try done; cbn [stepDestroy] in E.
      * destruct (draining s); injection E as <-; by eapply stuck_at.
      * rewrite Hs in E. injection E as <-. by eapply stuck_at.
      * injection E as <-. by eapply stuck_at.
      * destruct c; [|done]. injection E as <-. by eapply stuck_at.
    + assert (Htok : tok f <> 1%nat) by (intros Ht; by apply Hne, (Halone i' (f :: st) f Hi' (list_elem_of_here _ _))).
      destruct E as [E|[E|[E|E]]]; destruct f; try done; try (by destruct Htok); cbn [stepPost stepDrain stepDestroy stepFinal] in E;
        try (rewrite Hm in E); try (rewrite Hd in E); unfold mbind, option_bind in E; repeat case_match; simplify_eq;
        try (by (eapply stuck_at; try done)); try (by (eapply stuck_ret; try done)).
      * constructor; try done. by exists k, rr, j, t, st0.
      * destruct (notify_lookup i' DNotifyOff st s Hi') as [st' Hi'']; [done|]. pose proof (stuck_notify i s Hst) as Hst'. by eapply (stuck_at i i' DNotifyOff DDefer st' (notify_all s)).
Qed.

Lemma stuck_forever i (s s' : PQ) : stuck i s -> reach s s' -> stuck i s'.
Proof. intros Hs. induction 1 as [|s1 l s2 _ IH E]; [done | by eapply stuck_exec]. Qed.

Lemma pq_runs_reach (s0 s : PQ) l s' : reach s0 s -> execs s l = Some s' -> reach s0 s'.
Proof.
  revert s. induction l as [|a l IH]; intros s Hr; cbn [execs]; [by intros [= <-]|].
  destruct (exec s a) as [s1|] eqn:E; [|done]. cbn [mbind option_bind]. apply IH. by eapply reach_exec.
Qed.
End Inv.

(** ** Labels *)

Section Labels.

Definition sorted (ls : list LabelMapEntry) : Prop := forall i j v w, ls !! i = Some v -> ls !! j = Some w -> (i < j)%nat -> label v <= label w.

Lemma lowerBound_spec ls l n lo hi : sorted ls -> (hi - lo <= n)%nat -> (lo <= hi <= length ls)%nat ->
  (forall i v, (i < lo)%nat -> ls !! i = Some v -> label v < l) -> (forall i v, (hi <= i)%nat -> ls !! i = Some v -> l <= label v) ->
  (forall i v, (i < lowerBound ls l n lo hi)%nat -> ls !! i = Some v -> label v < l) /\ (forall i v, (lowerBound ls l n lo hi <= i)%nat -> ls !! i = Some v -> l <= label v).
Proof.
  intros Hs. revert lo hi. induction n as [|n IH]; intros lo hi Hn Hb Hlo Hhi; cbn [lowerBound].
  - assert (lo = hi) as -> by lia. done.
  - destruct (Nat.ltb_spec lo hi) as [Hlt|Hge]; [|assert (lo = hi) as -> by lia; done].
    set (mid := (lo + (hi - lo) / 2)%nat). pose proof (Nat.div_lt (hi - lo) 2 ltac:(lia) ltac:(lia)) as Hd. assert (Hm : (lo <= mid < hi)%nat) by (unfold mid; lia).
    destruct (ls !! mid) as [v|] eqn:Ev; [|apply lookup_ge_None in Ev; lia]. destruct (Z.ltb_spec (label v) l) as [Hl|Hl]; apply IH; try lia; try done.
    + intros i w Hi Hw. destruct (decide (i = mid)) as [->|]; [congruence|]. destruct (decide (i < lo)%nat); [by apply (Hlo i)|].
      pose proof (Hs i mid w v Hw Ev ltac:(lia)). lia.
    + intros i w Hi Hw. destruct (decide (i = mid)) as [->|]; [congruence|]. pose proof (Hs mid i v w Ev Hw ltac:(lia)). lia.
Qed.

(** The search of a label: the sub-queue of the first entry that has it, and
    none when no entry does. *)
Lemma findSubIndex_spec ls l : sorted ls ->
  match findSubIndex ls l with
  | Some j => exists i v, ls !! i = Some v /\ label v = l /\ subIndex v = j /\ forall i' v', (i' < i)%nat -> ls !! i' = Some v' -> label v' <> l
  | None => forall i v, ls !! i = Some v -> label v <> l
  end.
Proof.
  intros Hs. destruct (lowerBound_spec ls l (length ls) 0 (length ls) Hs) as [H1 H2]; [lia | lia | lia | intros i v Hi Hv; apply lookup_lt_Some in Hv; lia|].
  unfold findSubIndex. set (r := lowerBound ls l (length ls) 0 (length ls)) in *. destruct (ls !! r) as [v|] eqn:Er.
  - destruct (Z.eqb_spec (label v) l) as [E|Hne].
    + exists r, v. split; [done|]. split; [done|]. split; [done|]. intros i' v' Hi Hv'. specialize (H1 i' v' Hi Hv'). lia.
    + intros i w Hw E. destruct (decide (i < r)%nat); [specialize (H1 i w ltac:(lia) Hw); lia|].
      pose proof (H2 r v ltac:(lia) Er). destruct (decide (i = r)) as [->|]; [congruence|]. pose proof (Hs r i v w Er Hw ltac:(lia)). lia.
  - intros i v Hv. apply lookup_ge_None in Er. pose proof (lookup_lt_Some _ _ _ Hv). specialize (H1 i v ltac:(lia) Hv). lia.
Qed.

Lemma insertLabel_sorted c l : (forall i j v w, l !! i = Some v -> l !! j = Some w -> (i < j)%nat -> v.1 <= w.1) ->
  (forall i j v w, insertLabel c l !! i = Some v -> insertLabel c l !! j = Some w -> (i < j)%nat -> v.1 <= w.1) /\ (forall v, v ∈ insertLabel c l -> v = c \/ v ∈ l).
Proof.
  induction l as [|d l IH]; intros Hs; cbn [insertLabel].
  - split; [intros [|i] [|j] v w Hv Hw Hij; try done; lia | intros v Hv; left; by apply list_elem_of_singleton in Hv].
  - destruct (Z.ltb_spec c.1 d.1) as [Hlt|Hge].
    + split; [|intros v Hv; by apply elem_of_cons in Hv]. intros [|i] [|j] v w Hv Hw Hij; try lia; cbn in Hv, Hw.
      * injection Hv as <-. destruct j as [|j]; cbn in Hw; [injection Hw as <-; lia|]. pose proof (Hs 0%nat (S j) d w eq_refl Hw ltac:(lia)). lia.
      * by apply (Hs i j v w Hv Hw ltac:(lia)).
    + destruct IH as [IH1 IH2]; [intros i j v w Hv Hw Hij; by apply (Hs (S i) (S j) v w Hv Hw ltac:(lia))|]. split.
      * intros [|i] [|j] v w Hv Hw Hij; try lia; cbn in Hv, Hw; [|by apply (IH1 i j v w Hv Hw ltac:(lia))].
        injection Hv as <-. apply list_elem_of_lookup_2, IH2 in Hw as [->|Hw]; [lia|]. apply list_elem_of_lookup in Hw as [k Hk]. by apply (Hs 0%nat (S k) d w eq_refl Hk ltac:(lia)).
      * intros v Hv. apply elem_of_cons in Hv as [->|Hv]; [right; by left|]. destruct (IH2 v Hv) as [->|]; [by left | right; by right].
Qed.

Lemma created_sorted {Task} cap labeled n : sorted (labels (create (Task := Task) cap labeled n)).
Proof.
  cbn. assert (H : forall i j v w, foldr insertLabel [] labeled !! i = Some v -> foldr insertLabel [] labeled !! j = Some w -> (i < j)%nat -> v.1 <= w.1).
  { induction labeled as [|c l IH]; [by intros ? ? ? ? ?|]. by apply insertLabel_sorted. }
  intros i j v w Hv Hw Hij. rewrite list_lookup_imap in Hv, Hw. destruct (_ !! i) as [v'|] eqn:Ev; [|done]. destruct (foldr _ _ _ !! j) as [w'|] eqn:Ew; [|done].
  injection Hv as <-. injection Hw as <-. cbn. by apply (H i j v' w').
Qed.
End Labels.

(** ** Three interleavings *)

Section Races.
#[local] Abbreviation PQ := (PQ nat).

Definition go (i n : nat) : list (Label nat) := replicate n (Go i false).

(** Thread 0 posts a task; the drain of thread 1 runs it and gives up its right;
    thread 0 posts another, whose drain, of thread 2, begins before thread 1
    has left; then thread 1 clears the flags that are thread 2's. *)
Definition overlap : list (Label nat) :=
  [Post 0 None 10%nat] ++ go 0 6 ++ [Work 1] ++ go 1 12 ++ [Post 0 None 20%nat] ++ go 0 6 ++ [Work 2] ++ go 2 6 ++ go 1 6.
Definition overlapped : PQ := default (create 4 [] 3) (execs (create 4 [] 3) overlap).

Example overlapped_flags : threads overlapped = [[]; []; [DRun true 0 0 20]]%nat /\ scheduled overlapped = true /\ draining overlapped = false /\ drainThreadMarker overlapped = None.
Proof. vm_compute. done. Qed.

(** The task of thread 2 destroys the queue. *)
Definition self_destroyed : PQ := default (create 4 [] 3) (execs overlapped ([Destroy 2] ++ go 2 8)).

(** Thread 2 destroys the queue while the drain of thread 1 runs a task; it
    looks at the flags, the drain ends, and only then thread 2 sleeps. *)
Definition missing : list (Label nat) := [Post 0 None 10%nat] ++ go 0 6 ++ [Work 1] ++ go 1 6 ++ [Destroy 2] ++ go 2 6 ++ go 1 10 ++ go 2 1.
Definition missed : PQ := default (create 4 [] 3) (execs (create 4 [] 3) missing).

(** Thread 0 destroys the queue while the drain of thread 2, which has given up
    its right, throws away what is left. *)
Definition freed : PQ :=
  default (create 4 [] 3) (execs overlapped ([Destroy 0] ++ go 0 5 ++ go 2 3 ++ go 0 4 ++ go 2 1)).

Lemma created_token : token_inv (create (Task := nat) 4 [] 3).
Proof. by intros _. Qed.

Lemma overlapped_reach : reach (create 4 [] 3) overlapped.
Proof. apply (pq_runs_reach _ (create 4 [] 3) overlap); [apply reach_refl | vm_compute; reflexivity]. Qed.

Lemma self_destroyed_reach : reach (create 4 [] 3) self_destroyed.
Proof. apply (pq_runs_reach _ overlapped ([Destroy 2] ++ go 2 8)); [apply overlapped_reach | vm_compute; reflexivity]. Qed.

Lemma self_destroyed_stuck : stuck 2 self_destroyed.
Proof.
  assert (E : threads self_destroyed = [[]; []; [KSleep; DRun true 0 0 20]]%nat) by (vm_compute; reflexivity).
  constructor; try (vm_compute; reflexivity).
  - exists KSleep, 0%nat, 0%nat, 20%nat, []. split; [rewrite E; reflexivity | reflexivity].
  - intros f (i & st & Hi & Hf). rewrite E in Hi. clear E. destruct i as [|[|[|i]]]; cbn in Hi; simplify_eq; try (by apply elem_of_nil in Hf).
    apply elem_of_cons in Hf as [->|Hf]; [done|]. by apply list_elem_of_singleton in Hf as ->.
Qed.

(** What can go wrong when a queue is destroyed. A drain that has given up
    its right clears the flags draining and drainThreadMarker after the next
    drain has set them. Then a task that destroys its own queue is not
    recognised and waits for ever for itself, whatever else happens; and a
    destroy from outside can free the sub-queues while a drain still throws
    their tasks away. And a destroy that looks at the flags just before the
    drain ends sleeps when all is over and nobody is left to wake it. *)
Theorem destroy_races :
  (exists s : PQ, reach (create 4 [] 3) s /\
    forall s', reach s s' -> exists k rr j t st, threads s' !! 2%nat = Some (k :: DRun true rr j t :: st) /\ waits k = true) /\
  (exists s : PQ, reach (create 4 [] 3) s /\ threads s !! 0%nat = Some [XFinal] /\ threads s !! 2%nat = Some [DDiscard 0] /\ active s = true) /\
  (exists s : PQ, reach (create 4 [] 3) s /\ threads s = [[]; []; [KSleep]] /\ jobs s = 0%nat /\ scheduled s = false /\ draining s = false /\
    forall i, exec s (Go i false) = None).
Proof.
  split; [|split].
  - exists self_destroyed. split; [apply self_destroyed_reach|]. intros s' Hr. by destruct (stuck_forever 2 self_destroyed s' self_destroyed_stuck Hr).
  - exists freed. split; [|by vm_compute].
    apply (pq_runs_reach _ overlapped ([Destroy 0] ++ go 0 5 ++ go 2 3 ++ go 0 4 ++ go 2 1)); [apply overlapped_reach | vm_compute; reflexivity].
  - exists missed. split; [apply (pq_runs_reach _ (create 4 [] 3) missing); [apply reach_refl | vm_compute; reflexivity]|].
    assert (E : threads missed = [[]; []; [KSleep]]) by (vm_compute; reflexivity). split; [done|]. do 3 (split; [vm_compute; reflexivity|]).
    intros i. cbn [exec]. rewrite E. by destruct i as [|[|[|i]]].
Qed.

Lemma overlapped_done_reach : reach (create 4 [] 3) (default (create 4 [] 3) (execs overlapped (go 2 12))).
Proof. apply (pq_runs_reach _ overlapped (go 2 12)); [apply overlapped_reach | vm_compute; reflexivity]. Qed.

Lemma drain_exclusive_witness : jobs overlapped = 0%nat.
Proof.
  assert (E : threads overlapped !! 2%nat = Some [DRun true 0 0 20]%nat) by (vm_compute; reflexivity).
  destruct (drain_exclusive 4 [] 3 overlapped overlapped_reach eq_refl) as [H _].
  apply (H 2%nat 2%nat _ _ (DRun true 0 0 20)%nat (DRun true 0 0 20)%nat E E); [apply list_elem_of_here | apply list_elem_of_here | reflexivity | reflexivity].
Defined.

Lemma posted_tasks_run_witness : [10; 20]%nat = default [] (accepted (default (create 4 [] 3) (execs overlapped (go 2 12))) !! 0%nat).
Proof.
  destruct (posted_tasks_run 4 [] 3 _ overlapped_done_reach) as [_ H]; [vm_compute; split; reflexivity|].
  destruct H as [_ H].
  - assert (E : threads (default (create 4 [] 3) (execs overlapped (go 2 12))) = [[]; []; []]) by (vm_compute; reflexivity).
    intros i st. rewrite E. clear E. destruct i as [|[|[|i]]]; intros Hi; first [discriminate Hi | by injection Hi as <-].
  - vm_compute. reflexivity.
  - apply (H 0%nat [10; 20]%nat [(10, true); (20, true)]%nat); vm_compute; reflexivity.
Defined.
End Races.
