(* ===== verification/TimeManager.v ===== *)
(** * TimeManager: the timers (core/TimeManager.cpp)

    The timers that wait are in the order of a multimap; the thread of the
    manager collects those that are due into the queue of the thread pool,
    whose threads run them and register the recurring ones again. Each section
    that holds the mutex is one step, and so is a callback, and steps of
    threads interleave. A function of a client is a value that is logged when
    it is called; times and intervals are integers of one unit. The pool has
    room, and the waits of the manager are left out: a turn at a time before
    the first timer is due changes nothing. Using an iterator of an element
    that was erased has no result. *)

From S2P Require Import Prelude.

Section TimeManager.
Context {Fn : Type}.

(** What a timer calls: nothing, a function of a client, or the wrapper that
    counts the calls of a limited timer. *)
Inductive Callback := Null | Plain (f : Fn) | Limited (id : Z) (repeated : Fn).

(** [core/TimeManager.h:118-123] TimerData *)
Record TimerData := mkData { tid : Z; callback : Callback; interval : Z }.

(** An element of the multimap: its address, key and value. *)
Record Node := mkNode { serial : nat; due : Z; data : TimerData }.

(** Where a thread of the pool is with its timer: before the callback, after
    it, and after the first of the two sections that follow. *)
Inductive Phase := Started | Called | Between (rescheduleInterval : Z).

(** [core/TimeManager.h:129-147] TimeManager *)
Record TM := mkTM {
  nextTimerId : Z;
  stop : bool;
  timers : list Node;
  timerIndex : gmap Z nat;
  executing : gmap Z bool;
  dynamicIntervals : gmap Z Z;
  executingThreads : gmap Z nat;
  repeatedCounters : gmap Z Z;
  repeatLimits : gmap Z Z;
  finalCallbacks : gmap Z Fn;
  nextSerial : nat;
  jobs : list TimerData;
  threads : gmap nat (TimerData * Phase);
  log : list (Z * Fn) }.

Definition set_id v s := mkTM v (stop s) (timers s) (timerIndex s) (executing s) (dynamicIntervals s) (executingThreads s) (repeatedCounters s) (repeatLimits s) (finalCallbacks s) (nextSerial s) (jobs s) (threads s) (log s).
Definition set_stop v s := mkTM (nextTimerId s) v (timers s) (timerIndex s) (executing s) (dynamicIntervals s) (executingThreads s) (repeatedCounters s) (repeatLimits s) (finalCallbacks s) (nextSerial s) (jobs s) (threads s) (log s).
Definition set_timers v n s := mkTM (nextTimerId s) (stop s) v (timerIndex s) (executing s) (dynamicIntervals s) (executingThreads s) (repeatedCounters s) (repeatLimits s) (finalCallbacks s) n (jobs s) (threads s) (log s).
Definition on_index f s := mkTM (nextTimerId s) (stop s) (timers s) (f (timerIndex s)) (executing s) (dynamicIntervals s) (executingThreads s) (repeatedCounters s) (repeatLimits s) (finalCallbacks s) (nextSerial s) (jobs s) (threads s) (log s).
Definition on_executing f s := mkTM (nextTimerId s) (stop s) (timers s) (timerIndex s) (f (executing s)) (dynamicIntervals s) (executingThreads s) (repeatedCounters s) (repeatLimits s) (finalCallbacks s) (nextSerial s) (jobs s) (threads s) (log s).
Definition on_dynamic f s := mkTM (nextTimerId s) (stop s) (timers s) (timerIndex s) (executing s) (f (dynamicIntervals s)) (executingThreads s) (repeatedCounters s) (repeatLimits s) (finalCallbacks s) (nextSerial s) (jobs s) (threads s) (log s).
Definition on_ethreads f s := mkTM (nextTimerId s) (stop s) (timers s) (timerIndex s) (executing s) (dynamicIntervals s) (f (executingThreads s)) (repeatedCounters s) (repeatLimits s) (finalCallbacks s) (nextSerial s) (jobs s) (threads s) (log s).
Definition set_counts c l f s := mkTM (nextTimerId s) (stop s) (timers s) (timerIndex s) (executing s) (dynamicIntervals s) (executingThreads s) c l f (nextSerial s) (jobs s) (threads s) (log s).
Definition set_jobs v s := mkTM (nextTimerId s) (stop s) (timers s) (timerIndex s) (executing s) (dynamicIntervals s) (executingThreads s) (repeatedCounters s) (repeatLimits s) (finalCallbacks s) (nextSerial s) v (threads s) (log s).
Definition on_threads f s := mkTM (nextTimerId s) (stop s) (timers s) (timerIndex s) (executing s) (dynamicIntervals s) (executingThreads s) (repeatedCounters s) (repeatLimits s) (finalCallbacks s) (nextSerial s) (jobs s) (f (threads s)) (log s).
Definition put (x : Z * Fn) s := mkTM (nextTimerId s) (stop s) (timers s) (timerIndex s) (executing s) (dynamicIntervals s) (executingThreads s) (repeatedCounters s) (repeatLimits s) (finalCallbacks s) (nextSerial s) (jobs s) (threads s) (log s ++ [x]).

(** [multimap::emplace]: behind the elements whose keys are not greater. *)
Fixpoint insertNode (n : Node) (l : list Node) : list Node :=
  match l with [] => [n] | m :: l => if due n <? due m then n :: m :: l else m :: insertNode n l end.

(** [timers.erase(timers.find(key))]: the first element with the key. *)
Fixpoint eraseKey (key : Z) (l : list Node) : list Node :=
  match l with [] => [] | m :: l => if due m =? key then l else m :: eraseKey key l end.

Definition nodeOf (n : nat) (l : list Node) : option Node := List.find (fun m => (serial m =? n)%nat) l.

(** Puts a timer into the multimap and the index. *)
Definition emplace (when : Z) (d : TimerData) (s : TM) : TM :=
  on_index (<[tid d := nextSerial s]>) (set_timers (insertNode (mkNode (nextSerial s) when d) (timers s)) (S (nextSerial s)) s).

(** ** Operations *)

(** [core/TimeManager.cpp:19-27] TimeManager::addTimer *)
Definition addTimer (expirationTime : Z) (f : Callback) (s : TM) : TM :=
  let id := nextTimerId s in emplace expirationTime (mkData id f 0) (set_id (u32 (id + 1)) s).

(** [core/TimeManager.cpp:29-81] TimeManager::addLimitedRecurringTimer *)
Definition addLimitedRecurringTimer (now iv : Z) (repeatCount : Z) (repeated : Fn) (finalCallback : option Fn) (s : TM) : TM :=
  let id := nextTimerId s in
  let s := set_counts (<[id := 0]> (repeatedCounters s)) (<[id := repeatCount]> (repeatLimits s))
    (match finalCallback with Some f => <[id := f]> (finalCallbacks s) | None => finalCallbacks s end) (set_id (u32 (id + 1)) s) in
  let s := emplace (now + iv) (mkData id (Limited id repeated) iv) s in
  on_executing (<[id := false]>) (on_dynamic (<[id := iv]>) s).

(** [core/TimeManager.cpp:83-92] TimeManager::addRecurringTimer *)
Definition addRecurringTimer (now iv : Z) (f : Callback) (s : TM) : TM :=
  let id := nextTimerId s in emplace (now + iv) (mkData id f iv) (set_id (u32 (id + 1)) s).

(** [core/TimeManager.cpp:94-125] TimeManager::updateInterval *)
Definition updateInterval (now : Z) (timerId newInterval : Z) (s : TM) : option TM :=
  '(cb, s) ← match timerIndex s !! timerId with
    | Some n =>
        m ← nodeOf n (timers s);
        Some (callback (data m), on_index (delete timerId) (set_timers (List.filter (fun m => negb (serial m =? n)%nat) (timers s)) (nextSerial s) s))
    | None => Some (Null, s)
    end;
  let s := on_dynamic (<[timerId := newInterval]>) s in
  let s := emplace (now + newInterval) (mkData timerId cb newInterval) s in
  Some (on_executing (<[timerId := false]>) s).

(** [core/TimeManager.cpp:127-165] TimeManager::cancelTimer, called by thread [me]; the flags that it sets are never read *)
Definition cancelTimer (me : nat) (id : Z) (s : TM) : option (bool * TM) :=
  if stop s then Some (false, s)
  else match timerIndex s !! id with
    | Some n =>
        m ← nodeOf n (timers s);
        Some (true, on_ethreads (delete id) (on_executing (delete id) (on_index (delete id) (set_timers (eraseKey (due m) (timers s)) (nextSerial s) s))))
    | None =>
        if decide (executing s !! id = Some true)
        then if decide (executingThreads s !! id = Some me) then Some (false, s)
             else Some (true, on_ethreads (delete id) (on_executing (delete id) s))
        else Some (false, s)
    end.

(** [core/TimeManager.cpp:199-206] TimeManager::Run, the loop that collects; [n] is the number of timers *)
Fixpoint collect (n : nat) (now : Z) (toExecute : list TimerData) (s : TM) : list TimerData * TM :=
  match n, timers s with
  | S n, m :: l =>
      if due m <=? now
      then collect n now (toExecute ++ [data m]) (on_index (delete (tid (data m))) (on_executing (<[tid (data m) := true]>) (set_timers l (nextSerial s) s)))
      else (toExecute, s)
  | _, _ => (toExecute, s)
  end.

(** [core/TimeManager.cpp:178-216] TimeManager::Run, one turn at the time [now] *)
Definition Run (now : Z) (s : TM) : TM :=
  if stop s then s
  else match timers s with
    | [] => s
    | m :: _ =>
        if now <? due m then s
        else let '(toExecute, s) := collect (length (timers s)) now [] s in set_jobs (jobs s ++ toExecute) s
    end.

(** [core/TimeManager.cpp:218-224] TimeManager::runSingleTimer, up to the callback *)
Definition runBegin (me : nat) (d : TimerData) (s : TM) : TM :=
  on_threads (<[me := (d, Started)]>) (on_ethreads (<[tid d := me]>) (on_executing (<[tid d := true]>) s)).

(** [core/TimeManager.cpp:43-72] TimeManager::addLimitedRecurringTimer, the callback that it makes *)
Definition limited (me : nat) (timerId id : Z) (repeated : Fn) (s : TM) : option TM :=
  let current := u64 (default 0 (repeatedCounters s !! id) + 1) in
  let limit := default 0 (repeatLimits s !! id) in
  let finalCb := if current =? limit then finalCallbacks s !! id else None in
  let s := set_counts (<[id := current]> (repeatedCounters s)) (<[id := limit]> (repeatLimits s))
    (if current =? limit then delete id (finalCallbacks s) else finalCallbacks s) s in
  let s := if current <=? limit then put (timerId, repeated) s else s in
  if current =? limit
  then r ← cancelTimer me id s; Some (match finalCb with Some f => put (timerId, f) r.2 | None => r.2 end)
  else Some s.

(** [core/TimeManager.cpp:226-227] TimeManager::runSingleTimer, the callback *)
Definition runCallback (me : nat) (d : TimerData) (s : TM) : option TM :=
  s ← match callback d with
    | Null => Some s
    | Plain f => Some (put (tid d, f) s)
    | Limited id repeated => limited me (tid d) id repeated s
    end;
  Some (on_threads (<[me := (d, Called)]>) s).

(** [core/TimeManager.cpp:229-238] TimeManager::runSingleTimer, the first section after the callback *)
Definition runEnd (me : nat) (d : TimerData) (s : TM) : TM :=
  on_threads (<[me := (d, Between (default (interval d) (dynamicIntervals s !! tid d)))]>)
    (on_ethreads (delete (tid d)) (on_executing (<[tid d := false]>) s)).

(** [core/TimeManager.cpp:240-252] TimeManager::runSingleTimer, the second section *)
Definition runAgain (me : nat) (now : Z) (d : TimerData) (rescheduleInterval : Z) (s : TM) : TM :=
  let s := on_threads (delete me) s in
  if negb (stop s) && (0 <? rescheduleInterval) then emplace (now + rescheduleInterval) (mkData (tid d) (callback d) rescheduleInterval) s else s.

(** ** Runs *)

Inductive Label :=
  | AddTimer (when : Z) (f : Fn)
  | AddLimited (now iv count : Z) (repeated : Fn) (finalCallback : option Fn)
  | AddRecurring (now iv : Z) (f : Fn)
  | Update (now id iv : Z)
  | Cancel (me : nat) (id : Z)
  | Tick (now : Z)
  | Take (me : nat)
  | Go (me : nat) (now : Z)
  | Stop.

Definition exec (s : TM) (l : Label) : option TM :=
  match l with
  | AddTimer when f => Some (addTimer when (Plain f) s)
  | AddLimited now iv count repeated finalCallback => Some (addLimitedRecurringTimer now iv count repeated finalCallback s)
  | AddRecurring now iv f => Some (addRecurringTimer now iv (Plain f) s)
  | Update now id iv => updateInterval now id iv s
  | Cancel me id => snd <$> cancelTimer me id s
  | Tick now => Some (Run now s)
  | Take me =>
      match threads s !! me, jobs s with None, d :: l => Some (runBegin me d (set_jobs l s)) | _, _ => None end
  | Go me now =>
      '(d, ph) ← threads s !! me;
      match ph with
      | Started => runCallback me d s
      | Called => Some (runEnd me d s)
      | Between iv => Some (runAgain me now d iv s)
      end
  | Stop => Some (set_stop true s)
  end.

Fixpoint execs (s : TM) (l : list Label) : option TM := match l with [] => Some s | a :: l => s ← exec s a; execs s l end.

(** [core/TimeManager.cpp:8-12] TimeManager::TimeManager *)
Definition TimeManager_new : TM := mkTM 1 false [] ∅ ∅ ∅ ∅ ∅ ∅ ∅ 0 [] ∅ [].
End TimeManager.

(** ** The invariant *)

Section Inv.
Context {Fn : Type}.
#[local] Abbreviation TM := (TM (Fn := Fn)).
#[local] Abbreviation TimerData := (TimerData (Fn := Fn)).
#[local] Abbreviation Node := (Node (Fn := Fn)).
#[local] Abbreviation Label := (Label (Fn := Fn)).

(** How often a timer is among those that wait, on the pool, and in threads. *)
Definition waiting (id : Z) (l : list Node) : nat := length (filter (fun m => tid (data m) = id) l).
Definition queued (id : Z) (l : list TimerData) : nat := length (filter (fun d => tid d = id) l).
Definition running (id : Z) (t : gmap nat (TimerData * Phase)) : nat := size (filter (fun x => tid x.2.1 = id) t).
#[local] Arguments waiting : simpl never.
#[local] Arguments queued : simpl never.
#[local] Arguments running : simpl never.
Definition places (id : Z) (s : TM) : nat := (waiting id (timers s) + queued id (jobs s) + running id (threads s))%nat.

Definition here (id id' : Z) : nat := if decide (id' = id) then 1 else 0.

Lemma waiting_cons id m l : waiting id (m :: l) = (here id (tid (data m)) + waiting id l)%nat.
Proof. unfold waiting, here. rewrite filter_cons. by case_decide. Qed.

Lemma queued_cons id d l : queued id (d :: l) = (here id (tid d) + queued id l)%nat.
Proof. unfold queued, here. rewrite filter_cons. by case_decide. Qed.

Lemma queued_app id l l' : queued id (l ++ l') = (queued id l + queued id l')%nat.
Proof. unfold queued. by rewrite filter_app, length_app. Qed.

Lemma waiting_insert id n l : waiting id (insertNode n l) = (here id (tid (data n)) + waiting id l)%nat.
Proof.
  induction l as [|m l IH]; cbn [insertNode]; [by rewrite waiting_cons|]. destruct (due n <? due m); rewrite !waiting_cons; [done|]. rewrite IH. lia.
Qed.

Lemma running_insert id me d ph t : t !! me = None -> running id (<[me := (d, ph)]> t) = (here id (tid d) + running id t)%nat.
Proof.
  intros Hn. unfold running, here. case_decide as Hd.
  - rewrite map_filter_insert_True by done. rewrite map_size_insert_None; [done|]. apply map_lookup_filter_None. by left.
  - rewrite map_filter_insert_False by done. by rewrite delete_id.
Qed.

Lemma running_delete id me d ph t : t !! me = Some (d, ph) -> running id t = (here id (tid d) + running id (delete me t))%nat.
Proof.
  intros Hs. rewrite <- (insert_delete_id t me (d, ph)) at 1 by done. apply running_insert. apply lookup_delete_eq.
Qed.

Lemma running_change id me d ph ph' t : t !! me = Some (d, ph) -> running id (<[me := (d, ph')]> t) = running id t.
Proof.
  intros Hs. rewrite <- insert_delete_eq, running_insert by apply lookup_delete_eq. by rewrite (running_delete id me d ph t).
Qed.

Lemma running_pos me d ph t : t !! me = Some (d, ph) -> (0 < running (tid d) t)%nat.
Proof. intros Hs. rewrite (running_delete _ me d ph) by done. unfold here. rewrite decide_True by done. lia. Qed.

Lemma waiting_pos m l : m ∈ l -> (0 < waiting (tid (data m)) l)%nat.
Proof. induction 1 as [m l|m m' l _ IH]; rewrite waiting_cons; [unfold here; rewrite decide_True by done; lia | lia]. Qed.

Record coherent (s : TM) : Prop := mkCoherent {
  co_sorted : forall i j m n, timers s !! i = Some m -> timers s !! j = Some n -> (i < j)%nat -> due m <= due n;
  co_serials : NoDup (serial <$> timers s);
  co_serial : forall m, m ∈ timers s -> (serial m < nextSerial s)%nat;
  co_places : forall id, (places id s <= 1)%nat;
  co_fresh : forall id, (0 < places id s)%nat -> id < nextTimerId s;
  co_next : 1 <= nextTimerId s < 2 ^ 32;
  co_index : forall id n, timerIndex s !! id = Some n <-> exists m, m ∈ timers s /\ serial m = n /\ tid (data m) = id;
  co_exec : forall me d ph, threads s !! me = Some (d, ph) -> executing s !! tid d = Some true -> executingThreads s !! tid d = Some me;
  co_limited : forall d id f, ((exists m, m ∈ timers s /\ data m = d) \/ d ∈ jobs s \/ exists me ph, threads s !! me = Some (d, ph)) -> callback d = Limited id f -> id = tid d }.

Lemma insertNode_in (n : Node) l m : m ∈ insertNode n l <-> m = n \/ m ∈ l.
Proof.
  induction l as [|x l IH]; cbn [insertNode]; [by rewrite list_elem_of_singleton, elem_of_nil; intuition|].
  destruct (due n <? due x); rewrite !elem_of_cons; [done|]. rewrite IH. tauto.
Qed.

Lemma insertNode_perm (n : Node) l : insertNode n l ≡ₚ n :: l.
Proof. induction l as [|x l IH]; cbn [insertNode]; [done|]. destruct (due n <? due x); [done|]. rewrite IH. apply Permutation_swap. Qed.

Definition sorted (l : list Node) : Prop := forall i j m n, l !! i = Some m -> l !! j = Some n -> (i < j)%nat -> due m <= due n.

Lemma sorted_cons m l : sorted (m :: l) <-> (forall n, n ∈ l -> due m <= due n) /\ sorted l.
Proof.
  split.
  - intros H. split; [intros n Hn; apply list_elem_of_lookup in Hn as [j Hj]; by apply (H 0%nat (S j)); [| |lia]|].
    intros i j x y Hx Hy Hij. by apply (H (S i) (S j)); [| |lia].
  - intros [H1 H2] [|i] [|j] x y Hx Hy Hij; try lia; cbn in Hx, Hy; [injection Hx as <-; apply H1; by apply list_elem_of_lookup_2 in Hy | by apply (H2 i j); [| |lia]].
Qed.

Lemma sorted_insert n l : sorted l -> sorted (insertNode n l).
Proof.
  induction l as [|m l IH]; intros Hs; cbn [insertNode]; [by apply sorted_cons; split; [intros ? ?%elem_of_nil|]|].
  apply sorted_cons in Hs as [H1 H2]. destruct (Z.ltb_spec (due n) (due m)) as [Hlt|Hge].
  - apply sorted_cons. split; [|by apply sorted_cons]. intros x [->|Hx]%elem_of_cons; [lia|]. specialize (H1 x Hx). lia.
  - apply sorted_cons. split; [|by apply IH]. intros x [->|Hx]%insertNode_in; [lia | by apply H1].
Qed.

(** A timer that is nowhere is put among those that wait. *)
Lemma coherent_emplace when d (s : TM) : coherent s -> places (tid d) s = 0%nat -> tid d < nextTimerId s -> (forall id f, callback d = Limited id f -> id = tid d) -> coherent (emplace when d s).
Proof.
  intros [H1 H2 H3 H4 H5 H6 H7 H8 H9] Hp Hf Hl.
  assert (Hpl : forall id, places id (emplace when d s) = (here id (tid d) + places id s)%nat) by (intros id; unfold places; cbn; rewrite waiting_insert; cbn; lia).
  constructor; cbn.
  - by apply sorted_insert.
  - rewrite insertNode_perm. cbn. apply NoDup_cons. split; [|done]. intros (m & E & Hm)%list_elem_of_fmap. specialize (H3 m Hm). lia.
  - intros m [->|Hm]%insertNode_in; [cbn; lia|]. specialize (H3 m Hm). lia.
  - intros id. rewrite Hpl. unfold here. case_decide as E; [rewrite <- E; lia | apply H4].
  - intros id. rewrite Hpl. unfold here. case_decide as E; [by subst | apply H5].
  - done.
  - intros id n. destruct (decide (id = tid d)) as [->|Hne].
    + rewrite lookup_insert_eq. split.
      * intros [= <-]. exists (mkNode (nextSerial s) when d). split; [apply insertNode_in; by left | done].
      * intros (m & [->|Hm]%insertNode_in & Hn & Hi); [by rewrite <- Hn|]. pose proof (waiting_pos m (timers s) Hm) as Hw. rewrite Hi in Hw. unfold places in Hp. lia.
    + rewrite lookup_insert_ne by done. rewrite H7. split.
      * intros (m & Hm & H). exists m. split; [apply insertNode_in; by right | done].
      * intros (m & [->|Hm]%insertNode_in & Hn & Hi); [by destruct Hne | by exists m].
  - exact H8.
  - intros d' id f [(m & [->|Hm]%insertNode_in & <-)|H] Hc; [by eapply Hl | eapply H9; [left; by exists m | done] | eapply H9; [right; exact H | done]].
Qed.

Lemma coherent_id (s : TM) : coherent s -> nextTimerId s + 1 < 2 ^ 32 -> coherent (set_id (u32 (nextTimerId s + 1)) s).
Proof.
  intros [H1 H2 H3 H4 H5 H6 H7 H8 H9] Hb. assert (E : u32 (nextTimerId s + 1) = nextTimerId s + 1) by (unfold u32; apply Z.mod_small; lia).
  constructor; try done; cbn; rewrite E; [|lia]. intros id Hid. specialize (H5 id Hid). lia.
Qed.

(** The fields that no clause mentions. *)
Lemma coherent_same (s s' : TM) : coherent s -> timers s' = timers s -> nextSerial s' = nextSerial s -> jobs s' = jobs s -> threads s' = threads s -> nextTimerId s' = nextTimerId s ->
  timerIndex s' = timerIndex s -> (forall me d ph, threads s !! me = Some (d, ph) -> executing s' !! tid d = Some true -> executingThreads s' !! tid d = Some me) -> coherent s'.
Proof.
  intros [H1 H2 H3 H4 H5 H6 H7 H8 H9] E1 E2 E3 E4 E5 E6 E7. constructor; unfold places; rewrite ?E1, ?E2, ?E3, ?E4, ?E5, ?E6; done.
Qed.

(** Removing a timer from those that wait, with its index, perhaps to queue it. *)
Lemma coherent_remove (s s' : TM) m l1 l2 js : coherent s -> timers s = l1 ++ m :: l2 -> timers s' = l1 ++ l2 -> nextSerial s' = nextSerial s ->
  jobs s' = jobs s ++ js -> js = [] \/ js = [data m] -> threads s' = threads s -> nextTimerId s' = nextTimerId s -> timerIndex s' = delete (tid (data m)) (timerIndex s) ->
  (forall me d ph, threads s !! me = Some (d, ph) -> executing s' !! tid d = Some true -> executingThreads s' !! tid d = Some me) -> coherent s'.
Proof.
  intros [H1 H2 H3 H4 H5 H6 H7 H8 H9] El E1 E2 E3 Ejs E4 E5 E6 He. rewrite El in *.
  assert (Hw : forall id, waiting id (l1 ++ m :: l2) = (here id (tid (data m)) + waiting id (l1 ++ l2))%nat).
  { intros id. unfold waiting at 1 2. rewrite !filter_app, filter_cons, !length_app. unfold here. case_decide; cbn; lia. }
  assert (Hp : forall id, (places id s' <= places id s)%nat).
  { intros id. unfold places. rewrite E1, E3, E4, El, Hw, queued_app. destruct Ejs as [->| ->]; [change (queued id []) with 0%nat; lia|]. rewrite queued_cons. change (queued id []) with 0%nat. lia. }
  assert (Hin : forall x, x ∈ l1 ++ l2 -> x ∈ l1 ++ m :: l2) by (intros x; rewrite !elem_of_app, elem_of_cons; tauto).
  assert (Hm : m ∈ l1 ++ m :: l2) by (rewrite elem_of_app, elem_of_cons; tauto).
  assert (Hother : forall x, x ∈ l1 ++ l2 -> tid (data x) <> tid (data m)).
  { intros x Hx E. pose proof (waiting_pos x _ Hx) as Hpos. rewrite E in Hpos. specialize (H4 (tid (data m))). unfold places in H4. rewrite El, Hw in H4. unfold here in H4. rewrite decide_True in H4 by done. lia. }
  constructor; rewrite ?E1, ?E2, ?E5, ?E6.
  - assert (Hs : sorted (l1 ++ m :: l2)) by done. clear -Hs. revert Hs. change (sorted (l1 ++ m :: l2) -> sorted (l1 ++ l2)). induction l1 as [|x l1 IH]; cbn; intros Hs; apply sorted_cons in Hs as [Ha Hb]; [done|].
    apply sorted_cons. split; [|by apply IH]. intros n Hn. apply Ha. rewrite elem_of_app in *. rewrite elem_of_cons. tauto.
  - rewrite fmap_app in *. cbn in H2. apply NoDup_app in H2 as (A & B & [C1 C2]%NoDup_cons). apply NoDup_app. split; [done|]. split; [|done]. intros x Hx Hx'. apply (B x Hx). by right.
  - intros x Hx. by apply H3, Hin.
  - intros id. specialize (Hp id). specialize (H4 id). lia.
  - intros id Hid. specialize (Hp id). apply H5. lia.
  - done.
  - intros id n. destruct (decide (id = tid (data m))) as [->|Hne].
    + rewrite lookup_delete_eq. split; [done|]. intros (x & Hx & _ & E). by destruct (Hother x Hx).
    + rewrite lookup_delete_ne by done. rewrite H7. split; intros (x & Hx & Hn & Hi); exists x; (split; [|done]); [|by apply Hin].
      rewrite elem_of_app, elem_of_cons in Hx. rewrite elem_of_app. destruct Hx as [|[->|]]; [by left | congruence | by right].
  - rewrite E4. exact He.
  - rewrite E3, E4. intros d id f [(x & Hx & Hd)|[Hj|Ht]] Hc; [eapply H9; [left; exists x; by split; [apply Hin|] | done] | | eapply H9; [right; right; exact Ht | done]].
    apply elem_of_app in Hj as [Hj|Hj]; [eapply H9; [right; left; exact Hj | done]|]. destruct Ejs as [->| ->]; [by apply elem_of_nil in Hj|].
    apply list_elem_of_singleton in Hj as ->. eapply H9; [left; by exists m | done].
Qed.

(** What is not where a thread is. *)
Lemma running_not_waiting (s : TM) me d ph m : coherent s -> threads s !! me = Some (d, ph) -> m ∈ timers s -> tid (data m) <> tid d.
Proof.
  intros Hc Ht Hm E. pose proof (co_places s Hc (tid d)) as Hp. pose proof (running_pos me d ph _ Ht). pose proof (waiting_pos m _ Hm) as Hw. rewrite E in Hw. unfold places in Hp. lia.
Qed.

Lemma filter_all {A} (P : A -> Prop) `{!forall x, Decision (P x)} (l : list A) : (forall x, x ∈ l -> P x) -> filter P l = l.
Proof.
  induction l as [|x l IH]; intros Hf; [done|]. rewrite filter_cons_True, IH; [done| |]; [intros y Hy; apply Hf; by right | apply Hf; by left].
Qed.

Lemma filter_none {A} (P : A -> Prop) `{!forall x, Decision (P x)} (l : list A) : (forall x, x ∈ l -> ~ P x) -> filter P l = [].
Proof.
  induction l as [|x l IH]; intros Hf; [done|]. rewrite filter_cons_False, IH; [done| |]; [intros y Hy; apply Hf; by right | apply Hf; by left].
Qed.

Lemma collect_coherent n now to (s : TM) :
  coherent (set_jobs (jobs s ++ to) s) -> sorted (timers s) -> (length (timers s) <= n)%nat ->
  let r := collect n now to s in
  coherent (set_jobs (jobs s ++ r.1) r.2) /\ jobs r.2 = jobs s /\ r.1 = to ++ (data <$> filter (fun m => due m <= now) (timers s)) /\
  timers r.2 = filter (fun m => ~ due m <= now) (timers s) /\ nextTimerId r.2 = nextTimerId s /\ threads r.2 = threads s /\ log r.2 = log s /\ stop r.2 = stop s /\ dynamicIntervals r.2 = dynamicIntervals s.
Proof.
  revert to s. induction n as [|n IH]; intros to s Hc Hs Hn; cbn [collect].
  - destruct (timers s) as [|m l] eqn:El; [|cbn in Hn; lia]. cbn. rewrite app_nil_r. done.
  - destruct (timers s) as [|m l] eqn:El; [cbn; by rewrite app_nil_r|]. apply sorted_cons in Hs as [Hm Hs]. cbn [length] in Hn.
    destruct (Z.leb_spec (due m) now) as [Hle|Hgt].
    + set (s1 := on_index _ _). destruct (IH (to ++ [data m]) s1) as (A & B & C & D & E1 & E2 & E3 & E4 & E5); [| done | cbn; lia |].
      * apply (coherent_remove (set_jobs (jobs s ++ to) s) _ m [] l [data m] Hc); try done; [by cbn; rewrite <- app_assoc | by right|].
        intros me d ph Ht. cbn. pose proof (running_not_waiting _ me d ph m Hc Ht) as Hne. rewrite lookup_insert_ne by (intros E; apply Hne; [cbn; rewrite El; by left | done]).
        by apply (co_exec _ Hc me d ph).
      * change (jobs s1) with (jobs s) in B. change (timers s1) with l in C, D. cbn zeta. rewrite !filter_cons, decide_True, decide_False by lia.
        split; [exact A|]. split; [exact B|]. split; [by rewrite C, <- app_assoc|]. done.
    + cbv zeta. cbn [fst snd]. assert (Hall : forall x, x ∈ m :: l -> ~ due x <= now) by (intros x [->|Hx]%elem_of_cons; [lia|]; specialize (Hm x Hx); lia).
      rewrite filter_none, filter_all, app_nil_r by (intros x Hx; specialize (Hall x Hx); tauto). done.
Qed.

(** ** Steps *)

(** What keeps the index right: identifiers do not wrap, no interval is
    updated, and a timer is cancelled only when no other waits for its time. *)
Definition clean (s : TM) (l : Label) : Prop :=
  match l with
  | AddTimer _ _ | AddLimited _ _ _ _ _ | AddRecurring _ _ _ => nextTimerId s + 1 < 2 ^ 32
  | Update _ _ _ => False
  | Cancel _ id => forall m x, m ∈ timers s -> x ∈ timers s -> tid (data m) = id -> due x = due m -> x = m
  | _ => True
  end.

Lemma fresh_places (s : TM) : coherent s -> places (nextTimerId s) s = 0%nat.
Proof. intros Hc. destruct (places (nextTimerId s) s) eqn:E; [done|]. pose proof (co_fresh s Hc (nextTimerId s)). lia. Qed.

(** Putting a new timer among those that wait, whatever else is noted of it. *)
Lemma coherent_add when d (s s' : TM) : coherent s -> nextTimerId s + 1 < 2 ^ 32 -> tid d = nextTimerId s -> (forall id f, callback d = Limited id f -> id = tid d) ->
  timers s' = timers s -> nextSerial s' = nextSerial s -> jobs s' = jobs s -> threads s' = threads s -> nextTimerId s' = u32 (nextTimerId s + 1) -> timerIndex s' = timerIndex s ->
  executing s' = executing s -> executingThreads s' = executingThreads s -> coherent (emplace when d s').
Proof.
  intros Hc Hb Hd Hl E1 E2 E3 E4 E5 E6 E7 E8. pose proof (fresh_places s Hc) as Hp. assert (Hu : u32 (nextTimerId s + 1) = nextTimerId s + 1).
  { pose proof (co_next s Hc). unfold u32. apply Z.mod_small. lia. }
  apply coherent_emplace; [| by unfold places in *; rewrite E1, E3, E4, Hd | rewrite E5, Hu; lia | done].
  apply (coherent_same (set_id (u32 (nextTimerId s + 1)) s)); try done; [by apply coherent_id|].
  rewrite E7, E8. apply (co_exec s Hc).
Qed.

Lemma eraseKey_split (m : Node) l1 l2 : (forall x, x ∈ l1 -> due x <> due m) -> eraseKey (due m) (l1 ++ m :: l2) = l1 ++ l2.
Proof.
  intros H. induction l1 as [|x l1 IH]; cbn; [by rewrite Z.eqb_refl|].
  rewrite (proj2 (Z.eqb_neq _ _)) by (apply H; left). rewrite IH; [done | intros y Hy; apply H; by right].
Qed.

Lemma nodeOf_in (m : Node) l : NoDup (serial <$> l) -> m ∈ l -> nodeOf (serial m) l = Some m.
Proof.
  induction l as [|x l IH]; intros Hn Hm; [by apply elem_of_nil in Hm|]. cbn in Hn. apply NoDup_cons in Hn as [Hx Hn]. unfold nodeOf. cbn [List.find].
  apply elem_of_cons in Hm as [->|Hm]; [by rewrite Nat.eqb_refl|]. destruct (Nat.eqb_spec (serial x) (serial m)) as [E|_]; [|by apply IH].
  exfalso. apply Hx. rewrite E. apply list_elem_of_fmap. by exists m.
Qed.

(** Cancelling a timer that waits, when no other waits for its time. *)
Lemma cancel_waiting me id (s : TM) m : coherent s -> stop s = false -> m ∈ timers s -> tid (data m) = id -> (forall x, x ∈ timers s -> due x = due m -> x = m) ->
  exists l1 l2 s', timers s = l1 ++ m :: l2 /\ cancelTimer me id s = Some (true, s') /\ timers s' = l1 ++ l2 /\ jobs s' = jobs s /\ threads s' = threads s /\
    nextTimerId s' = nextTimerId s /\ log s' = log s /\ dynamicIntervals s' = dynamicIntervals s /\ stop s' = stop s /\ coherent s'.
Proof.
  intros Hc Hs Hm Hid Huniq. pose proof Hm as (l1 & l2 & El)%list_elem_of_split. unfold cancelTimer. rewrite Hs.
  rewrite (proj2 (co_index s Hc id (serial m))) by (by exists m). rewrite nodeOf_in by (by apply Hc || done). cbn [mbind option_bind].
  assert (Ee : eraseKey (due m) (timers s) = l1 ++ l2).
  { rewrite El. apply eraseKey_split. intros x Hx E. assert (x = m) as -> by (apply Huniq; [rewrite El; apply elem_of_app; by left | done]).
    pose proof (co_serials s Hc) as Hn. rewrite El, fmap_app in Hn. apply NoDup_app in Hn as (_ & Hn & _). apply (Hn (serial m)); [apply list_elem_of_fmap; by exists m | left]. }
  eexists l1, l2, _. split; [exact El|]. split; [reflexivity|]. cbn. rewrite Ee. do 7 (split; [done|]).
  eapply (coherent_remove s _ m l1 l2 []); try done; [by cbn; rewrite app_nil_r | by left | by cbn; rewrite Hid|].
  intros me' d ph Ht. cbn. pose proof (running_not_waiting s me' d ph m Hc Ht Hm) as Hne. rewrite !lookup_delete_ne by congruence. by apply (co_exec s Hc me' d ph).
Qed.

(** Cancelling a timer that does not wait leaves all of them where they are. *)
Lemma cancel_elsewhere me id (s : TM) : coherent s -> (forall m, m ∈ timers s -> tid (data m) <> id) ->
  exists b s', cancelTimer me id s = Some (b, s') /\ timers s' = timers s /\ jobs s' = jobs s /\ threads s' = threads s /\
    nextTimerId s' = nextTimerId s /\ log s' = log s /\ dynamicIntervals s' = dynamicIntervals s /\ stop s' = stop s /\ coherent s'.
Proof.
  intros Hc Hn. unfold cancelTimer. destruct (stop s) eqn:Es; [by exists false, s|].
  destruct (timerIndex s !! id) as [n|] eqn:Ei; [apply (co_index s Hc) in Ei as (m & Hm & _ & E); by destruct (Hn m Hm)|].
  repeat case_decide; [by exists false, s | | by exists false, s]. eexists true, _. split; [reflexivity|]. cbn. do 7 (split; [done|]).
  apply (coherent_same s); try done. intros me' d ph Ht. cbn. destruct (decide (id = tid d)) as [->|Hne]; [by rewrite lookup_delete_eq|].
  rewrite !lookup_delete_ne by done. by apply (co_exec s Hc me' d ph).
Qed.

(** A thread that runs a timer cannot cancel it. *)
Lemma own_cancel me d ph (s : TM) : coherent s -> threads s !! me = Some (d, ph) -> cancelTimer me (tid d) s = Some (false, s).
Proof.
  intros Hc Ht. unfold cancelTimer. destruct (stop s); [done|].
  destruct (timerIndex s !! tid d) as [n|] eqn:Ei; [apply (co_index s Hc) in Ei as (m & Hm & _ & E); by destruct (running_not_waiting s me d ph m Hc Ht Hm)|].
  case_decide as He; [|done]. rewrite decide_True; [done | by apply (co_exec s Hc me d ph)].
Qed.

(** The next phase of a thread. *)
Lemma coherent_phase me d ph ph' (s s' : TM) : coherent s -> threads s !! me = Some (d, ph) -> threads s' = <[me := (d, ph')]> (threads s) ->
  timers s' = timers s -> nextSerial s' = nextSerial s -> jobs s' = jobs s -> nextTimerId s' = nextTimerId s -> timerIndex s' = timerIndex s ->
  (forall me d ph, threads s !! me = Some (d, ph) -> executing s' !! tid d = Some true -> executingThreads s' !! tid d = Some me) -> coherent s'.
Proof.
  intros [H1 H2 H3 H4 H5 H6 H7 H8 H9] Ht E4 E1 E2 E3 E5 E6 He.
  assert (Hp : forall id, places id s' = places id s) by (intros id; unfold places; by rewrite E1, E3, E4, (running_change id me d ph ph')).
  assert (Hth : forall me' d' p', threads s' !! me' = Some (d', p') -> exists p, threads s !! me' = Some (d', p)).
  { intros me' d' p'. rewrite E4. destruct (decide (me = me')) as [<-|Hne]; [rewrite lookup_insert_eq; intros [= <- <-]; by exists ph | rewrite lookup_insert_ne by done; by exists p']. }
  constructor; rewrite ?E1, ?E2, ?E5, ?E6; try done.
  - intros id. rewrite Hp. apply H4.
  - intros id. rewrite Hp. apply H5.
  - intros me' d' p' (p & Hp')%Hth. by apply (He me' d' p).
  - intros d' id f [Hw|[Hj|(me' & p' & Hx)]] Hcb; [eapply H9; [by left | done] | rewrite E3 in Hj; eapply H9; [right; left; exact Hj | done]|].
    apply Hth in Hx as (p & Hx). eapply H9; [right; right; by exists me', p | done].
Qed.

(** The wrapper of a limited timer counts and calls, and its own cancellation
    does nothing. *)
Lemma limited_spec me d ph f (s : TM) : coherent s -> threads s !! me = Some (d, ph) ->
  exists c l fc ls, limited me (tid d) (tid d) f s = Some (fold_left (fun s x => put x s) ls (set_counts c l fc s)) /\ Forall (fun x => x.1 = tid d) ls.
Proof.
  intros Hc Ht. unfold limited. set (current := u64 _). set (limit := default 0 _). cbv zeta.
  set (c := <[tid d := current]> _). set (l := <[tid d := limit]> _). set (fc := if current =? limit then delete _ _ else _).
  set (s1 := set_counts c l fc s). set (s2 := if current <=? limit then put (tid d, f) s1 else s1).
  assert (H2 : exists ls, s2 = fold_left (fun s x => put x s) ls s1 /\ Forall (fun x => x.1 = tid d) ls).
  { unfold s2. destruct (current <=? limit); [exists [(tid d, f)]; split; [done | by constructor] | by exists []]. }
  destruct H2 as (ls & E & Hl). destruct (current =? limit); [|exists c, l, fc, ls; by rewrite E].
  assert (Hown : cancelTimer me (tid d) s2 = Some (false, s2)).
  { apply (own_cancel me d ph); [|unfold s2; by destruct (current <=? limit)]. apply (coherent_same s _ Hc); unfold s2; destruct (current <=? limit); try done; apply (co_exec s Hc). }
  rewrite Hown. cbn [mbind option_bind snd]. destruct (finalCallbacks s !! tid d) as [g|]; [|exists c, l, fc, ls; by rewrite E].
  exists c, l, fc, (ls ++ [(tid d, g)]). rewrite fold_left_app. change (set_counts c l fc s) with s1. rewrite <- E. split; [done|]. apply Forall_app. split; [done | by constructor].
Qed.

Lemma puts_fields ls : forall (s : TM), let s' := fold_left (fun s x => put x s) ls s in
  timers s' = timers s /\ nextSerial s' = nextSerial s /\ jobs s' = jobs s /\ threads s' = threads s /\ nextTimerId s' = nextTimerId s /\ timerIndex s' = timerIndex s /\
  executing s' = executing s /\ executingThreads s' = executingThreads s /\ dynamicIntervals s' = dynamicIntervals s /\ stop s' = stop s /\ log s' = log s ++ ls.
Proof.
  induction ls as [|x ls IH]; intros s; cbn [fold_left]; [cbn; by rewrite app_nil_r|]. destruct (IH (put x s)) as (-> & -> & -> & -> & -> & -> & -> & -> & -> & -> & ->).
  cbn. by rewrite <- app_assoc.
Qed.

Lemma runCallback_spec me d (s : TM) : coherent s -> threads s !! me = Some (d, Started) ->
  exists s' ls, runCallback me d s = Some s' /\ coherent s' /\ threads s' = <[me := (d, Called)]> (threads s) /\ timers s' = timers s /\ jobs s' = jobs s /\
    nextTimerId s' = nextTimerId s /\ dynamicIntervals s' = dynamicIntervals s /\ stop s' = stop s /\ log s' = log s ++ ls /\ Forall (fun x => x.1 = tid d) ls.
Proof.
  intros Hc Ht.
  assert (H : exists c l fc ls, match callback d with Null => Some s | Plain f => Some (put (tid d, f) s) | Limited id f => limited me (tid d) id f s end =
    Some (fold_left (fun s x => put x s) ls (set_counts c l fc s)) /\ Forall (fun x => x.1 = tid d) ls).
  { assert (Hs : s = set_counts (repeatedCounters s) (repeatLimits s) (finalCallbacks s) s) by by destruct s.
    destruct (callback d) as [|f|id f] eqn:Ecb.
    - exists (repeatedCounters s), (repeatLimits s), (finalCallbacks s), []. cbn [fold_left]. by rewrite <- Hs.
    - exists (repeatedCounters s), (repeatLimits s), (finalCallbacks s), [(tid d, f)]. cbn [fold_left]. rewrite <- Hs. split; [done | by constructor].
    - assert (id = tid d) as -> by (eapply (co_limited s Hc d id f); [right; right; by exists me, Started | done]). by apply (limited_spec me d Started). }
  destruct H as (c & l & fc & ls & E & Hl). unfold runCallback. rewrite E. cbn [mbind option_bind].
  destruct (puts_fields ls (set_counts c l fc s)) as (F1 & F2 & F3 & F4 & F5 & F6 & F7 & F8 & F9 & F10 & F11).
  eexists _, ls. split; [reflexivity|]. cbn. rewrite F1, F3, F4, F5, F9, F10, F11. split; [|by do 7 (split; [done|])].
  apply (coherent_phase me d Started Called s); cbn; rewrite ?F1, ?F2, ?F3, ?F4, ?F5, ?F6, ?F7, ?F8; try done. apply (co_exec s Hc).
Qed.

Lemma runBegin_coherent me d l (s : TM) : coherent s -> threads s !! me = None -> jobs s = d :: l -> coherent (runBegin me d (set_jobs l s)).
Proof.
  intros [H1 H2 H3 H4 H5 H6 H7 H8 H9] Ht Ej.
  assert (Hp : forall id, places id (runBegin me d (set_jobs l s)) = places id s).
  { intros id. unfold places, runBegin. cbn. rewrite running_insert by done. rewrite Ej, queued_cons. lia. }
  assert (Hone : running (tid d) (threads s) = 0%nat).
  { specialize (H4 (tid d)). unfold places in H4. rewrite Ej, queued_cons in H4. unfold here in H4. rewrite decide_True in H4 by done. lia. }
  constructor; try done.
  - intros id. rewrite Hp. apply H4.
  - intros id. rewrite Hp. apply H5.
  - intros me' d' p' Hx. cbn in *. destruct (decide (me = me')) as [<-|Hne].
    + rewrite lookup_insert_eq in Hx. injection Hx as <- <-. by rewrite !lookup_insert_eq.
    + rewrite lookup_insert_ne in Hx by done. pose proof (running_pos _ _ _ _ Hx). assert (tid d <> tid d') by (intros E; rewrite <- E in *; lia).
      rewrite !lookup_insert_ne by done. by apply (H8 me' d' p').
  - intros d' id f [Hw|[Hj|(me' & p' & Hx)]] Hcb; [eapply H9; [by left | done] | eapply H9; [right; left; rewrite Ej; right; exact Hj | done]|].
    cbn in Hx. apply lookup_insert_Some in Hx as [[_ [= <- <-]]|[_ Hx]]; [eapply H9; [right; left; rewrite Ej; left | done] | eapply H9; [right; right; by exists me', p' | done]].
Qed.

Lemma runEnd_coherent me d ph (s : TM) : coherent s -> threads s !! me = Some (d, ph) -> coherent (runEnd me d s).
Proof.
  intros Hc Ht. eapply (coherent_phase me d ph _ s); try done. intros me' d' p' Hx. cbn. destruct (decide (tid d = tid d')) as [->|Hne]; [by rewrite lookup_insert_eq|].
  rewrite lookup_insert_ne, lookup_delete_ne by done. by apply (co_exec s Hc me' d' p').
Qed.

(** A thread forgets its timer. *)
Lemma forget_coherent me d ph (s : TM) : coherent s -> threads s !! me = Some (d, ph) ->
  coherent (on_threads (delete me) s) /\ (forall id, places id s = here id (tid d) + places id (on_threads (delete me) s))%nat.
Proof.
  intros [H1 H2 H3 H4 H5 H6 H7 H8 H9] Ht.
  assert (Hp : forall id, places id s = (here id (tid d) + places id (on_threads (delete me) s))%nat).
  { intros id. unfold places. cbn. rewrite (running_delete id me d ph (threads s)) by done. lia. }
  split; [|done]. constructor; try done; cbn.
  - intros id. specialize (Hp id). specialize (H4 id). lia.
  - intros id Hid. specialize (Hp id). apply H5. lia.
  - intros me' d' p' [_ Hx]%lookup_delete_Some. by apply (H8 me' d' p').
  - intros d' id f [Hw|[Hj|(me' & p' & [_ Hx]%lookup_delete_Some)]] Hcb; eapply H9; [by left | done | by right; left | done | right; right; by exists me', p' | done].
Qed.

Lemma runAgain_coherent me now d iv (s : TM) : coherent s -> threads s !! me = Some (d, Between iv) -> coherent (runAgain me now d iv s).
Proof.
  intros Hc Ht. destruct (forget_coherent me d _ s Hc Ht) as [Hc' Hp]. unfold runAgain. destruct (_ && _); [|done].
  specialize (Hp (tid d)). pose proof (co_places s Hc (tid d)) as H1. unfold here in Hp. rewrite decide_True in Hp by done.
  apply coherent_emplace; [done | cbn; lia | |].
  - apply (co_fresh s Hc). cbn. lia.
  - intros id f. cbn. apply (co_limited s Hc d). right. right. by exists me, (Between iv).
Qed.

Lemma tick_coherent now (s : TM) : coherent s -> coherent (Run now s).
Proof.
  intros Hc. unfold Run. destruct (stop s); [done|]. destruct (timers s) as [|m l] eqn:El; [done|]. destruct (now <? due m); [done|].
  destruct (collect_coherent (length (timers s)) now [] s) as (A & B & _); [rewrite app_nil_r; by destruct s | exact (co_sorted s Hc) | done|].
  rewrite <- El. destruct (collect _ now [] s) as [to s']. cbn [fst snd] in A, B. by rewrite B.
Qed.

Lemma waits_dec id (s : TM) : (exists m, m ∈ timers s /\ tid (data m) = id) \/ (forall m, m ∈ timers s -> tid (data m) <> id).
Proof.
  destruct (decide (Exists (fun m : Node => tid (data m) = id) (timers s))) as [(m & H)%Exists_exists|H]; [left; by exists m|].
  right. intros m Hm E. apply H, Exists_exists. by exists m.
Qed.

Lemma exec_coherent (s s' : TM) l : coherent s -> clean s l -> exec s l = Some s' -> coherent s'.
Proof.
  intros Hc Hl H. destruct l as [when f|now iv count f fc|now iv f|now id iv|me id|now|me|me now|]; cbn [clean exec] in *.
  - injection H as <-. by apply (coherent_add when (mkData (nextTimerId s) (Plain f) 0) s).
  - injection H as <-. unfold addLimitedRecurringTimer.
    match goal with |- coherent (on_executing _ (on_dynamic _ ?x)) => apply (coherent_same x) end; try done.
    + apply (coherent_add (now + iv) (mkData (nextTimerId s) (Limited (nextTimerId s) f) iv) s); try done. by intros ? ? [= -> _].
    + intros me d ph Ht. cbn. destruct (decide (nextTimerId s = tid d)) as [->|Hne]; [by rewrite lookup_insert_eq|]. rewrite lookup_insert_ne by done. by apply (co_exec s Hc me d ph).
  - injection H as <-. by apply (coherent_add (now + iv) (mkData (nextTimerId s) (Plain f) iv) s).
  - done.
  - destruct (stop s) eqn:Es; [unfold cancelTimer in H; rewrite Es in H; by injection H as <-|].
    destruct (waits_dec id s) as [(m & Hm & Hid)|Hn].
    + destruct (cancel_waiting me id s m Hc Es Hm Hid) as (l1 & l2 & s1 & _ & E & F); [intros x Hx; by apply Hl|]. rewrite E in H. injection H as <-. apply F.
    + destruct (cancel_elsewhere me id s Hc Hn) as (b & s1 & E & F). rewrite E in H. injection H as <-. apply F.
  - injection H as <-. by apply tick_coherent.
  - destruct (threads s !! me) eqn:Et; [done|]. destruct (jobs s) as [|d l] eqn:Ej; [done|]. injection H as <-. by apply runBegin_coherent.
  - destruct (threads s !! me) as [[d ph]|] eqn:Et; [|done]. cbn [mbind option_bind] in H. destruct ph.
    + destruct (runCallback_spec me d s Hc Et) as (s1 & ls & E & F & _). congruence.
    + injection H as <-. by eapply runEnd_coherent.
    + injection H as <-. by apply runAgain_coherent.
  - injection H as <-. apply (coherent_same s); try done. apply (co_exec s Hc).
Qed.

(** ** Where the timers go *)

Lemma places_emplace id when d (s : TM) : places id (emplace when d s) = (here id (tid d) + places id s)%nat.
Proof. unfold places. cbn. rewrite waiting_insert. cbn. lia. Qed.

Lemma waiting_filter id (P : Node -> Prop) `{!forall x, Decision (P x)} l :
  (waiting id (filter (fun m => ~ P m) l) + queued id (data <$> filter P l) = waiting id l)%nat.
Proof.
  induction l as [|m l IH]; [done|]. rewrite waiting_cons, !filter_cons. destruct (decide (P m)) as [Hp|Hp].
  - rewrite decide_False by tauto. rewrite fmap_cons, queued_cons. lia.
  - rewrite decide_True by done. rewrite waiting_cons. lia.
Qed.

(** A turn of the manager moves the timers that are due to the pool, in
    order. *)
Lemma tick_spec now (s : TM) : coherent s -> stop s = false ->
  jobs (Run now s) = jobs s ++ (data <$> filter (fun m => due m <= now) (timers s)) /\ timers (Run now s) = filter (fun m => ~ due m <= now) (timers s) /\
  (forall id, places id (Run now s) = places id s) /\ nextTimerId (Run now s) = nextTimerId s /\ threads (Run now s) = threads s /\ log (Run now s) = log s /\
  stop (Run now s) = stop s /\ dynamicIntervals (Run now s) = dynamicIntervals s.
Proof.
  intros Hc Hs.
  assert (H : jobs (Run now s) = jobs s ++ (data <$> filter (fun m => due m <= now) (timers s)) /\ timers (Run now s) = filter (fun m => ~ due m <= now) (timers s) /\
    nextTimerId (Run now s) = nextTimerId s /\ threads (Run now s) = threads s /\ log (Run now s) = log s /\ stop (Run now s) = stop s /\ dynamicIntervals (Run now s) = dynamicIntervals s).
  { unfold Run. rewrite Hs. destruct (timers s) as [|m l] eqn:El; [by rewrite app_nil_r|]. destruct (Z.ltb_spec now (due m)) as [Hlt|Hge].
    - assert (Hall : forall x, x ∈ m :: l -> ~ due x <= now).
      { pose proof (co_sorted s Hc) as Hs'. rewrite El in Hs'. apply sorted_cons in Hs' as [Hm _]. intros x [->|Hx]%elem_of_cons; [lia|]. specialize (Hm x Hx). lia. }
      rewrite filter_none, filter_all, app_nil_r by (intros x Hx; specialize (Hall x Hx); tauto). done.
    - rewrite <- El. destruct (collect_coherent (length (timers s)) now [] s) as (_ & B & C & D & E1 & E2 & E3 & E4 & E5); [rewrite app_nil_r; by destruct s | exact (co_sorted s Hc) | done|].
      destruct (collect _ now [] s) as [to s']. cbn [fst snd app] in *. cbn. rewrite B, C, E1, E2, E3, E4, E5, <- Hs. done. }
  destruct H as (A & B & C & D & E & F & G). do 2 (split; [done|]). split; [|done]. intros id. unfold places. rewrite A, B, D, queued_app.
  pose proof (waiting_filter id (fun m => due m <= now) (timers s)). lia.
Qed.

(** Every step leaves a timer in at most as many places, and calls only
    timers that are somewhere. *)
Lemma exec_places (s s' : TM) l : coherent s -> clean s l -> exec s l = Some s' ->
  (forall id, id < nextTimerId s -> (places id s' <= places id s)%nat) /\ nextTimerId s <= nextTimerId s' /\
  exists ls, log s' = log s ++ ls /\ Forall (fun x => (0 < places x.1 s)%nat) ls.
Proof.
  intros Hc Hl H. pose proof (co_next s Hc) as Hn.
  assert (Hadd : forall when d (s1 : TM), tid d = nextTimerId s -> (forall id, places id s1 = places id s) -> forall id, id < nextTimerId s -> (places id (emplace when d s1) <= places id s)%nat).
  { intros when d s1 Hd Hp id Hid. rewrite places_emplace, Hp. unfold here. rewrite decide_False by lia. lia. }
  assert (Hquiet : log s' = log s -> exists ls, log s' = log s ++ ls /\ Forall (fun x => (0 < places x.1 s)%nat) ls) by (intros E; exists []; by rewrite app_nil_r).
  assert (Hu : nextTimerId s + 1 < 2 ^ 32 -> nextTimerId s <= u32 (nextTimerId s + 1)) by (intros; unfold u32; rewrite Z.mod_small; lia).
  destruct l as [when f|now iv count f fc|now iv f|now id0 iv|me id0|now|me|me now|]; cbn [clean exec] in *.
  - injection H as <-. split; [by apply Hadd|]. split; [by apply Hu | by apply Hquiet].
  - injection H as <-. split; [intros id Hid; unfold addLimitedRecurringTimer; cbv zeta; by apply (Hadd (now + iv) (mkData (nextTimerId s) (Limited (nextTimerId s) f) iv))|]. split; [by apply Hu | by apply Hquiet].
  - injection H as <-. split; [by apply Hadd|]. split; [by apply Hu | by apply Hquiet].
  - done.
  - destruct (stop s) eqn:Es; [unfold cancelTimer in H; rewrite Es in H; injection H as <-; split; [done|]; split; [lia | by apply Hquiet]|].
    destruct (waits_dec id0 s) as [(m & Hm & Hid)|Hno].
    + destruct (cancel_waiting me id0 s m Hc Es Hm Hid) as (l1 & l2 & s1 & El & E & E1 & E2 & E3 & E4 & E5 & _); [intros x Hx; by apply Hl|]. rewrite E in H. injection H as <-.
      split; [|split; [cbn; lia | by apply Hquiet]]. intros id _. unfold places. cbn [snd]. rewrite E1, E2, E3, El. unfold waiting. rewrite !filter_app, !length_app, filter_cons. case_decide; cbn; lia.
    + destruct (cancel_elsewhere me id0 s Hc Hno) as (b & s1 & E & E1 & E2 & E3 & E4 & E5 & _). rewrite E in H. injection H as <-.
      split; [|split; [cbn; lia | by apply Hquiet]]. intros id _. unfold places. cbn [snd]. by rewrite E1, E2, E3.
  - injection H as <-. destruct (stop s) eqn:Es; [unfold Run in *; rewrite Es in *; split; [done|]; split; [lia | by apply Hquiet]|].
    destruct (tick_spec now s Hc Es) as (_ & _ & C & D & _ & E & _). split; [intros id _; by rewrite C|]. split; [lia | by apply Hquiet].
  - destruct (threads s !! me) eqn:Et; [done|]. destruct (jobs s) as [|d l] eqn:Ej; [done|]. injection H as <-. split; [|split; [done | by apply Hquiet]].
    intros id _. unfold places, runBegin. cbn. rewrite running_insert by done. rewrite Ej, queued_cons. lia.
  - destruct (threads s !! me) as [[d ph]|] eqn:Et; [|done]. cbn [mbind option_bind] in H. destruct ph.
    + destruct (runCallback_spec me d s Hc Et) as (s1 & ls & E & _ & E1 & E2 & E3 & E4 & _ & _ & E5 & Hls). assert (s1 = s') as -> by congruence.
      split; [|split; [lia|]].
      * intros id _. unfold places. rewrite E1, E2, E3. by rewrite (running_change id me d Started Called (threads s) Et).
      * exists ls. split; [done|]. eapply Forall_impl; [exact Hls|]. cbn. intros x ->. pose proof (running_pos _ _ _ _ Et). unfold places. lia.
    + injection H as <-. split; [|split; [done | by apply Hquiet]]. intros id _. unfold places, runEnd. cbn. by rewrite (running_change id me d Called).
    + injection H as <-. destruct (forget_coherent me d _ s Hc Et) as [_ Hp]. unfold runAgain in *. destruct (_ && _).
      * split; [|split; [done | by apply Hquiet]]. intros id _. rewrite places_emplace, (Hp id). done.
      * split; [|split; [done | by apply Hquiet]]. intros id _. rewrite (Hp id). lia.
  - injection H as <-. split; [done|]. split; [done | by apply Hquiet].
Qed.

(** ** Runs *)

Lemma new_coherent : coherent (TimeManager_new (Fn := Fn)).
Proof.
  assert (Hp : forall id, places id (TimeManager_new (Fn := Fn)) = 0%nat) by (intros id; unfold places, waiting, queued, running; cbn; by rewrite map_filter_empty, map_size_empty).
  constructor; try done; cbn.
  - constructor.
  - by intros m ?%elem_of_nil.
  - intros id. rewrite Hp. lia.
  - intros id. rewrite Hp. lia.
  - intros id n. split; [done | by intros (m & ?%elem_of_nil & _)].
  - intros d id f [(m & ?%elem_of_nil & _)|[?%elem_of_nil|(me & ph & H)]]; done.
Qed.

(** A run of clean steps. *)
Fixpoint cleanRun (s : TM) (l : list Label) : Prop :=
  match l with [] => True | a :: l => clean s a /\ match exec s a with Some s => cleanRun s l | None => True end end.

Lemma run_coherent l : forall s s' : TM, coherent s -> cleanRun s l -> execs s l = Some s' -> coherent s'.
Proof.
  induction l as [|a l IH]; intros s s' Hc Hl H; cbn in *; [by injection H as <-|]. destruct Hl as [Ha Hl]. destruct (exec s a) as [s1|] eqn:E; [|done].
  apply (IH s1); [by eapply exec_coherent | done | done].
Qed.

Definition reachable (s : TM) : Prop := exists l, cleanRun TimeManager_new l /\ execs TimeManager_new l = Some s.

Lemma reachable_coherent s : reachable s -> coherent s.
Proof. intros (l & Hl & H). by apply (run_coherent l TimeManager_new); [apply new_coherent | |]. Qed.

(** The calls of a timer so far. *)
Definition calls (id : Z) (s : TM) : list (Z * Fn) := filter (fun x => x.1 = id) (log s).

Lemma run_gone id l : forall s s' : TM, coherent s -> cleanRun s l -> execs s l = Some s' -> places id s = 0%nat -> id < nextTimerId s -> places id s' = 0%nat /\ calls id s' = calls id s.
Proof.
  induction l as [|a l IH]; intros s s' Hc Hl H Hp Hid; cbn in *; [by injection H as <-|]. destruct Hl as [Ha Hl]. destruct (exec s a) as [s1|] eqn:E; [|done].
  destruct (exec_places s s1 a Hc Ha E) as (H1 & H2 & ls & El & Hls). specialize (H1 id Hid).
  destruct (IH s1 s') as [P1 P2]; [by eapply exec_coherent | done | done | lia | lia|]. split; [done|]. rewrite P2. unfold calls. rewrite El, filter_app.
  rewrite (filter_none _ ls), app_nil_r; [done|]. intros x Hx Ex. rewrite Forall_forall in Hls. specialize (Hls x Hx). rewrite Ex in Hls. lia.
Qed.

(** A timer that waits, cancelled when no other timer waits for the same
    time, is gone: the call returns true and takes nothing else away, and in
    whatever run follows the timer is nowhere and is not called. *)
Theorem cancel_pending_final me (s : TM) m : reachable s -> stop s = false -> m ∈ timers s -> (forall x, x ∈ timers s -> due x = due m -> x = m) ->
  exists s1, cancelTimer me (tid (data m)) s = Some (true, s1) /\ (exists l1 l2, timers s = l1 ++ m :: l2 /\ timers s1 = l1 ++ l2) /\ jobs s1 = jobs s /\ threads s1 = threads s /\
    forall l s2, cleanRun s1 l -> execs s1 l = Some s2 -> places (tid (data m)) s2 = 0%nat /\ calls (tid (data m)) s2 = calls (tid (data m)) s.
Proof.
  intros Hc%reachable_coherent Hs Hm Hu. destruct (cancel_waiting me _ s m Hc Hs Hm eq_refl Hu) as (l1 & l2 & s1 & El & E & E1 & E2 & E3 & E4 & E5 & _ & _ & Hc1).
  exists s1. split; [done|]. split; [by exists l1, l2|]. split; [done|]. split; [done|]. intros l s2 Hl H.
  assert (Hp : places (tid (data m)) s1 = 0%nat).
  { pose proof (co_places s Hc (tid (data m))) as Hp. revert Hp. unfold places. rewrite E1, E2, E3, El. unfold waiting. rewrite !filter_app, filter_cons_True, !length_app by done. cbn. lia. }
  destruct (run_gone (tid (data m)) l s1 s2 Hc1 Hl H Hp) as [P1 P2].
  - rewrite E4. apply (co_fresh s Hc). pose proof (waiting_pos m _ Hm). unfold places. lia.
  - split; [done|]. rewrite P2. unfold calls. by rewrite E5.
Qed.

(** C37: Cancelling a timer that waits behind another one with the same time
    takes the other one away instead: it returns true, the cancelled timer
    still waits, and cancelling the timer that was taken away reads through
    the pointer to its freed node. *)
Theorem cancel_hits_other me me' (s : TM) v m l1 l2 l3 : reachable s -> stop s = false -> timers s = l1 ++ v :: l2 ++ m :: l3 -> due v = due m ->
  (forall x, x ∈ l1 -> due x <> due m) ->
  exists s1, cancelTimer me (tid (data m)) s = Some (true, s1) /\ timers s1 = l1 ++ l2 ++ m :: l3 /\ cancelTimer me' (tid (data v)) s1 = None.
Proof.
  intros Hc%reachable_coherent Hs El Hd Hl. assert (Hm : m ∈ timers s) by (rewrite El; repeat (rewrite elem_of_app || rewrite elem_of_cons); tauto).
  assert (Hv : v ∈ timers s) by (rewrite El; repeat (rewrite elem_of_app || rewrite elem_of_cons); tauto).
  assert (Hne : tid (data m) <> tid (data v)).
  { intros E. pose proof (co_places s Hc (tid (data m))) as Hp. revert Hp. unfold places. rewrite El. unfold waiting. rewrite !filter_app, !filter_cons.
    rewrite !filter_app, !filter_cons, (decide_True (P := tid (data v) = _)) by done. rewrite (decide_True (P := tid (data m) = _)) by done. rewrite !length_app. cbn [length]. rewrite !length_app. cbn. lia. }
  assert (Hnd : serial v ∉ (serial <$> (l1 ++ l2 ++ m :: l3))).
  { pose proof (co_serials s Hc) as Hn. rewrite El in Hn. rewrite <- (Permutation_middle l1) in Hn. cbn in Hn. by apply NoDup_cons in Hn as [? _]. }
  unfold cancelTimer at 1. rewrite Hs. rewrite (proj2 (co_index s Hc (tid (data m)) (serial m))) by (by exists m).
  rewrite nodeOf_in by (by apply Hc || done). cbn [mbind option_bind]. eexists. split; [reflexivity|].
  assert (Ee : eraseKey (due m) (timers s) = l1 ++ l2 ++ m :: l3) by (rewrite El, <- Hd; apply eraseKey_split; rewrite Hd; done).
  cbn -[nodeOf]. rewrite Ee. split; [done|]. unfold cancelTimer. cbn -[nodeOf]. rewrite Hs, lookup_delete_ne by done.
  rewrite (proj2 (co_index s Hc (tid (data v)) (serial v))) by (by exists v).
  destruct (nodeOf (serial v) (l1 ++ l2 ++ m :: l3)) as [x|] eqn:Ex; [|done]. exfalso. unfold nodeOf in Ex. apply List.find_some in Ex as [Hx E%Nat.eqb_eq].
  apply Hnd. rewrite <- E. apply list_elem_of_fmap. exists x. split; [done | by apply list_elem_of_In].
Qed.

(** A timer that is somewhere, with what keeps it alive: its interval is that
    of the table of intervals or its own, and is positive. *)
Definition located (d : TimerData) (s : TM) : Prop := (exists m, m ∈ timers s /\ data m = d) \/ d ∈ jobs s \/ exists me ph, threads s !! me = Some (d, ph).

Definition recurs (id : Z) (s : TM) : Prop :=
  stop s = false /\ places id s = 1%nat /\
  (forall d, located d s -> tid d = id -> 0 < default (interval d) (dynamicIntervals s !! id)) /\
  (forall me d iv, threads s !! me = Some (d, Between iv) -> tid d = id -> 0 < iv).

(** Steps that leave it alone: no stop, and no cancellation while it waits. *)
Definition spares (id : Z) (s : TM) (l : Label) : Prop :=
  match l with Stop => False | Cancel _ id' => id' = id -> forall m, m ∈ timers s -> tid (data m) <> id | _ => True end.

Lemma here_other id id' : id' <> id -> here id id' = 0%nat.
Proof. intros. unfold here. by rewrite decide_False. Qed.

(** The tables that decide over a timer stay, and it is where it was. *)
Lemma recurs_same id (s s' : TM) : recurs id s -> stop s' = stop s -> places id s' = places id s -> dynamicIntervals s' !! id = dynamicIntervals s !! id ->
  (forall d, tid d = id -> located d s' -> located d s) -> (forall me d iv, threads s' !! me = Some (d, Between iv) -> tid d = id -> threads s !! me = Some (d, Between iv)) -> recurs id s'.
Proof.
  intros (H1 & H2 & H3 & H4) E1 E2 E3 Hl Ht. split; [congruence|]. split; [congruence|]. rewrite E3. split.
  - intros d Hd Hid. apply H3; [by apply Hl | done].
  - intros me d iv Hd Hid. by apply (H4 me d iv); [apply Ht|].
Qed.

Lemma located_emplace d when d' (s : TM) : located d (emplace when d' s) -> d = d' \/ located d s.
Proof.
  intros [(m & [->|Hm]%insertNode_in & <-)|[Hj|Ht]]; [by left | right; left; by exists m | right; right; by left | right; right; by right].
Qed.

Lemma recurs_emplace id when d (s : TM) : recurs id s -> tid d <> id -> recurs id (emplace when d s).
Proof.
  intros Hr Hd. apply (recurs_same id s); try done; [by rewrite places_emplace, here_other|]. intros d' Hd' [->|H]%located_emplace; done.
Qed.

Lemma recurs_add id (s s' : TM) when d : recurs id s -> tid d <> id -> timers s' = timers s -> jobs s' = jobs s -> threads s' = threads s -> stop s' = stop s ->
  dynamicIntervals s' !! id = dynamicIntervals s !! id -> recurs id (emplace when d s').
Proof.
  intros Hr Hd E1 E2 E3 E4 E5. apply recurs_emplace; [|done]. apply (recurs_same id s); try done; unfold places, located; rewrite ?E1, ?E2, ?E3; done.
Qed.

(** A thread that is done with another timer, and perhaps registers it. *)
Lemma recurs_forget id me d ph (s : TM) : coherent s -> threads s !! me = Some (d, ph) -> tid d <> id -> recurs id s -> recurs id (on_threads (delete me) s).
Proof.
  intros Hc Ht Hd Hr. destruct (forget_coherent me d ph s Hc Ht) as [_ Hp]. apply (recurs_same id s); try done.
  - rewrite (Hp id), here_other by done. done.
  - intros d' _ [H|[H|(me' & p' & H)]]; [by left | by right; left | right; right; cbn in H; apply lookup_delete_Some in H as [_ H]; by exists me', p'].
  - intros me' d' iv H _. cbn in H. by apply lookup_delete_Some in H as [_ H].
Qed.

Lemma runAgain_recurs id me now d iv (s : TM) : coherent s -> threads s !! me = Some (d, Between iv) -> recurs id s -> recurs id (runAgain me now d iv s).
Proof.
  intros Hc Ht Hr. destruct (decide (tid d = id)) as [Hid|Hd].
  2:{ unfold runAgain. pose proof (recurs_forget id me d _ s Hc Ht Hd Hr) as Hr'. destruct (_ && _); [by apply recurs_emplace | done]. }
  destruct Hr as (H1 & H2 & H3 & H4). pose proof (H4 me d iv Ht Hid) as Hiv. unfold runAgain. cbn [stop on_threads]. rewrite H1, (proj2 (Z.ltb_lt _ _)) by done. cbn [negb andb].
  destruct (forget_coherent me d _ s Hc Ht) as [_ Hp]. specialize (Hp id). unfold here in Hp. rewrite decide_True in Hp by done. split; [done|]. split.
  { rewrite places_emplace. unfold here. rewrite decide_True by done. lia. }
  assert (Hx : forall d', located d' (on_threads (delete me) s) -> tid d' <> id).
  { intros d' Hd' E. assert (Hz : places id (on_threads (delete me) s) = 0%nat) by lia. revert Hz. unfold places.
    destruct Hd' as [(m & Hm & <-)|[Hj|(me' & p' & Hx)]].
    - pose proof (waiting_pos m _ Hm). rewrite E in *. lia.
    - apply list_elem_of_split in Hj as (j1 & j2 & ->). rewrite queued_app, queued_cons. unfold here. rewrite decide_True by done. lia.
    - pose proof (running_pos _ _ _ _ Hx). rewrite E in *. lia. }
  split.
  - intros d' [->|Hd']%located_emplace Hd; [|by destruct (Hx d' Hd')]. cbn. specialize (H3 d ltac:(right; right; by exists me, (Between iv)) Hid). destruct (dynamicIntervals s !! id); done.
  - intros me' d' iv' Hd' Hd. cbn in Hd'. destruct (Hx d'); [right; right; by exists me', (Between iv') | done].
Qed.

Lemma runEnd_recurs id me d (s : TM) : coherent s -> threads s !! me = Some (d, Called) -> recurs id s -> recurs id (runEnd me d s).
Proof.
  intros Hc Ht (H1 & H2 & H3 & H4).
  assert (Hl : forall d', located d' (runEnd me d s) -> located d' s).
  { intros d' [H|[H|(me' & p' & H)]]; [by left | by right; left|]. right. right. cbn in H. apply lookup_insert_Some in H as [[_ [= <- <-]]|[_ H]]; [by exists me, Called | by exists me', p']. }
  split; [done|]. split; [unfold places, runEnd; cbn; by rewrite (running_change id me d Called)|]. split; [intros d' Hd'%Hl; by apply H3|].
  intros me' d' iv H Hid. cbn in H. apply lookup_insert_Some in H as [[_ [= <- <-]]|[_ H]]; [|by apply (H4 me' d' iv)].
  specialize (H3 d ltac:(right; right; by exists me, Called) Hid). by rewrite Hid.
Qed.

Lemma exec_recurs id (s s' : TM) l : coherent s -> clean s l -> exec s l = Some s' -> spares id s l -> recurs id s -> recurs id s'.
Proof.
  intros Hc Hl H Hsp Hr. pose proof Hr as (H1 & H2 & H3 & H4). assert (Hid : id < nextTimerId s) by (apply (co_fresh s Hc); lia).
  destruct l as [when f|now iv count f fc|now iv f|now id0 iv|me id0|now|me|me now|]; cbn [clean exec spares] in *.
  - injection H as <-. apply (recurs_add id s); try done. cbn. lia.
  - injection H as <-. apply (recurs_same id (emplace (now + iv) (mkData (nextTimerId s) (Limited (nextTimerId s) f) iv) s)); try done;
      [apply recurs_emplace; [done | cbn; lia] | cbn; by rewrite lookup_insert_ne by lia].
  - injection H as <-. apply (recurs_add id s); try done. cbn. lia.
  - done.
  - destruct (waits_dec id0 s) as [(m & Hm & Hi)|Hno].
    + destruct (cancel_waiting me id0 s m Hc H1 Hm Hi) as (l1 & l2 & s1 & El & E & E1 & E2 & E3 & E4 & E5 & E6 & E7 & _); [intros x Hx; by apply Hl|].
      assert (id0 <> id) as Hne by (intros E0; by apply (Hsp E0 m Hm); rewrite Hi). rewrite E in H. injection H as <-. cbn [snd]. apply (recurs_same id s); try done; [| by rewrite E6 | | intros me' d iv Hx _; by rewrite <- E3].
      * unfold places. rewrite E1, E2, E3, El. unfold waiting. rewrite !filter_app, filter_cons_False, !length_app by congruence. done.
      * intros d _ [(x & Hx & <-)|[Hj|Ht]]; [left; exists x; split; [|done]; rewrite E1 in Hx; rewrite El; apply elem_of_app in Hx as [Hx|Hx]; apply elem_of_app; [by left | right; by right] | right; left; by rewrite <- E2 | right; right; by rewrite <- E3].
    + destruct (cancel_elsewhere me id0 s Hc Hno) as (b & s1 & E & E1 & E2 & E3 & E4 & E5 & E6 & E7 & _). rewrite E in H. injection H as <-. cbn [snd].
      apply (recurs_same id s); unfold places, located; rewrite ?E1, ?E2, ?E3, ?E6, ?E7; done.
  - injection H as <-. destruct (tick_spec now s Hc H1) as (A & B & C & D & E & F & G & I). apply (recurs_same id s); try done; [by rewrite I | | by rewrite E].
    intros d _ [(m & Hm & Hd)|[Hj|Ht]]; [left; exists m; split; [|done]; rewrite B in Hm; by apply list_elem_of_filter in Hm as [_ Hm] | | right; right; by rewrite <- E].
    rewrite A in Hj. apply elem_of_app in Hj as [Hj|(m & -> & Hm)%list_elem_of_fmap]; [by right; left|]. apply list_elem_of_filter in Hm as [_ Hm]. left. by exists m.
  - destruct (threads s !! me) eqn:Et; [done|]. destruct (jobs s) as [|d l] eqn:Ej; [done|]. injection H as <-. apply (recurs_same id s); try done.
    + unfold places, runBegin. cbn. rewrite running_insert by done. rewrite Ej, queued_cons. lia.
    + intros d' _ [H|[H|(me' & p' & H)]]; [by left | right; left; rewrite Ej; by right|]. cbn in H. apply lookup_insert_Some in H as [[_ [= <- <-]]|[_ H]]; [right; left; rewrite Ej; left | right; right; by exists me', p'].
    + intros me' d' iv H _. cbn in H. by apply lookup_insert_Some in H as [[_ [=]]|[_ H]].
  - destruct (threads s !! me) as [[d ph]|] eqn:Et; [|done]. cbn [mbind option_bind] in H. destruct ph.
    + destruct (runCallback_spec me d s Hc Et) as (s1 & ls & E & _ & E1 & E2 & E3 & E4 & E5 & E6 & _ & _). assert (s1 = s') as -> by congruence. apply (recurs_same id s); try done.
      * unfold places. rewrite E1, E2, E3. by rewrite (running_change id me d Started Called (threads s) Et).
      * by rewrite E5.
      * intros d' _ [Hw|[Hj|(me' & p' & Hx)]]; [left; by rewrite <- E2 | right; left; by rewrite <- E3|]. rewrite E1 in Hx.
        apply lookup_insert_Some in Hx as [[_ [= <- <-]]|[_ Hx]]; right; right; [by exists me, Started | by exists me', p'].
      * intros me' d' iv Hx _. rewrite E1 in Hx. by apply lookup_insert_Some in Hx as [[_ [=]]|[_ Hx]].
    + injection H as <-. by apply runEnd_recurs.
    + injection H as <-. by apply runAgain_recurs.
  - done.
Qed.

(** A run of such steps. *)
Fixpoint sparingRun (id : Z) (s : TM) (l : list Label) : Prop :=
  match l with [] => True | a :: l => spares id s a /\ match exec s a with Some s => sparingRun id s l | None => True end end.

(** Steps of the manager and of the pool. *)
Definition passive (l : Label) : bool := match l with Tick _ | Take _ | Go _ _ => true | _ => false end.

Lemma passive_run id l : forallb passive l = true -> forall s : TM, cleanRun s l /\ sparingRun id s l.
Proof.
  induction l as [|a l IH]; cbn; [done|]. intros [Ha Hl]%andb_true_iff s. destruct (exec s a) as [s1|]; [destruct (IH Hl s1)|]; destruct a; try discriminate; done.
Qed.

(** A recurring timer that no one cancels while it waits never ends: in every
    run it is in exactly one place, among the timers that wait, queued for
    the pool, or in a thread. A limited timer is cancelled while it runs,
    which takes nothing away; so it goes on when its calls are used up. *)
Theorem recurring_never_ends (s : TM) id l s' : reachable s -> recurs id s -> cleanRun s l -> sparingRun id s l -> execs s l = Some s' -> recurs id s'.
Proof.
  intros Hc%reachable_coherent. revert s Hc. induction l as [|a l IH]; intros s Hc Hr Hl Hs H; cbn in *; [by injection H as <-|].
  destruct Hl as [Ha Hl], Hs as [Hsa Hs]. destruct (exec s a) as [s1|] eqn:E; [|done]. apply (IH s1); try done; [by eapply exec_coherent | by eapply exec_recurs].
Qed.
End Inv.

(** ** Examples *)

Definition ex_exec (l : list (Label (Fn := nat))) : TM (Fn := nat) := default TimeManager_new (execs TimeManager_new l).
Definition ex_two : list (Label (Fn := nat)) := [AddTimer 10 1%nat; AddTimer 10 2%nat; AddTimer 20 3%nat].

Lemma ex_two_reachable : reachable (ex_exec ex_two).
Proof. exists ex_two. split; [vm_compute; repeat split | by vm_compute]. Qed.

(** The third timer is cancelled before its time, and does not fire. *)
Lemma cancel_pending_final_witness : exists s1, cancelTimer 0 3 (ex_exec ex_two) = Some (true, s1) /\
  forall s2, execs s1 [Tick 30; Take 5; Go 5 30] = Some s2 -> places 3 s2 = 0%nat.
Proof.
  destruct (cancel_pending_final 0 (ex_exec ex_two) (mkNode 2 20 (mkData 3 (Plain 3%nat) 0)) ex_two_reachable) as (s1 & E & _ & _ & _ & H).
  - reflexivity.
  - vm_compute. right. right. left.
  - intros x Hx. vm_compute in Hx. apply elem_of_cons in Hx as [->|Hx]; [discriminate|]. apply elem_of_cons in Hx as [->|Hx]; [discriminate|]. apply list_elem_of_singleton in Hx as ->. reflexivity.
  - exists s1. split; [exact E|]. intros s2 Hs. apply (H [Tick 30; Take 5; Go 5 30] s2); [by apply (passive_run 0) | exact Hs].
Defined.

(** Of the two timers for the time 10 the second is cancelled. *)
Lemma cancel_hits_other_witness : exists s1, cancelTimer 0 2 (ex_exec ex_two) = Some (true, s1) /\ (tid ∘ data <$> timers s1) = [2; 3] /\ cancelTimer 0 1 s1 = None.
Proof.
  destruct (cancel_hits_other 0 0 (ex_exec ex_two) (mkNode 0 10 (mkData 1 (Plain 1%nat) 0)) (mkNode 1 10 (mkData 2 (Plain 2%nat) 0)) [] [] [mkNode 2 20 (mkData 3 (Plain 3%nat) 0)]) as (s1 & E & Et & H).
  - exact ex_two_reachable.
  - reflexivity.
  - vm_compute. reflexivity.
  - reflexivity.
  - by intros x ?%elem_of_nil.
  - exists s1. split; [exact E|]. split; [rewrite Et; reflexivity | exact H].
Defined.

(** A timer of one call has been called, and its final function too; then it
    waits again. *)
Definition ex_limited : list (Label (Fn := nat)) := [AddLimited 0 10 1 7%nat (Some 8%nat); Tick 10; Take 5].

Lemma ex_limited_reachable : reachable (ex_exec ex_limited).
Proof. exists ex_limited. split; [vm_compute; repeat split | by vm_compute]. Qed.

Lemma recurring_never_ends_witness : exists s', execs (ex_exec ex_limited) [Go 5 10; Go 5 10; Go 5 10] = Some s' /\ log s' = [(1, 7%nat); (1, 8%nat)] /\ recurs 1 s' /\ (tid ∘ data <$> timers s') = [1].
Proof.
  destruct (execs (ex_exec ex_limited) [Go 5 10; Go 5 10; Go 5 10]) as [s'|] eqn:E; [|by vm_compute in E]. exists s'. split; [done|]. split; [vm_compute in E; by injection E as <-|].
  split; [|vm_compute in E; by injection E as <-].
  apply (recurring_never_ends (ex_exec ex_limited) 1 [Go 5 10; Go 5 10; Go 5 10]); [exact ex_limited_reachable | | | | exact E].
  - split; [reflexivity|]. split; [vm_compute; reflexivity|]. split; [intros; vm_compute; reflexivity|]. intros me d iv H.
    assert (Et : threads (ex_exec ex_limited) = {[5%nat := (mkData 1 (Limited 1 7%nat) 10, Started)]}) by (vm_compute; reflexivity).
    rewrite Et in H. apply lookup_singleton_Some in H as [_ [=]].
  - by apply (passive_run 1).
  - by apply passive_run.
Defined.
